(* ===== verification/_CoqProject ===== *)
-Q . S2P
Prelude.v
Sql.v
GoStrings.v
Task.v
Schedule.v
StoreDB.v
StoreServices.v
StoreTasks.v
StoreProtocol.v
StoreInvariants.v
StoreSafety.v
StoreExamples.v
StoreTheorems.v
Rpc.v
Proto.v
TaskParams.v
AgentApi.v
LogStream.v
LogTheorems.v
Paths.v
ServiceMeta.v
ServiceValidation.v
ServiceSpec.v
ServiceRepo.v
Config.v
ServiceTheorems.v
ConfigTheorems.v
RepoFiles.v
RepoFilesTheorems.v
ImageStore.v
World.v
Notifications.v
Git.v
RepoWrite.v
ImageReports.v
RepoWriteTheorems.v
Controller.v
Forge.v
ServiceCommand.v
AgentImages.v
AgentImageTheorems.v
Outbox.v
Scheduler.v
Dns.v
DnsTheorems.v
Plans.v
Tunnel.v
TunnelTheorems.v
Migrate.v
MigrateTheorems.v
OutboxTheorems.v
AgentProgram.v
TaskExecution.v
ComposeRuntime.v
AgentBundles.v
AgentTasks.v
AgentBackups.v
AgentSystem.v
AgentInvariant.v
AgentLoop.v
AgentExample.v
AgentTheorems.v
AgentRecovery.v
ServiceBundles.v
ServiceBundleTheorems.v
BundleInstall.v
DockerMessages.v
DockerBroker.v
DockerHandlers.v
DockerSystem.v
DockerInvariant.v
DockerReach.v
DockerTheorems.v
DockerAgent.v
DockerAgentTheorems.v
NodeCommands.v
NodeTheorems.v
ExecSessions.v
ExecTheorems.v
FollowedLogs.v
