(* ===== verification/Prelude.v ===== *)
(** * Composia: a verification library of its controller and agents

    Composia deploys the services of a git repository to nodes.  A
    _controller_ owns the repository, a SQLite store of tasks and the settings
    of the outside (DNS, Cloudflare tunnels, notifications); an _agent_ on each
    node polls it for tasks, runs them with docker compose, and reports.  The
    library models the logic of src/internal: the core packages, the store,
    the handlers and workers of the controller, and the task and query loops of
    the agent.  Definitions keep the names of the Go source.

    *** How the parts interact

    A client or the scheduler asks for an action on a service.  The controller
    reads the service at a revision, admits tasks to the store, and the agent
    of a node claims one, acknowledges it, runs it and completes it; the lease
    protocol of the store and the state file of the agent carry a task through
    crashes on both sides.  The completion leaves an event in the outbox, whose
    worker creates the tasks that follow and sends notifications.  Tasks of the
    controller itself (DNS, tunnels, migration) are run by its own worker.
    What a client asks directly of a node (lists, logs, commands) goes through
    the broker of Docker queries; terminals and followed logs go through
    tunnels the agents keep open.

    *** Files, components and sources

    - Shared: Prelude (errors, time, channels), Sql (statements on finite
      tables), GoStrings (package strings), World (the monad of the
      controller's goroutines), Plans (programs compared with a plan).
    - Core: Task (core/task), Schedule (core/schedule), Paths
      (core/repo/encrypted_file.go, data_include.go), ServiceMeta,
      ServiceValidation, ServiceRepo (core/repo/services.go, validate.go,
      service_revision.go), RepoFiles (core/repo/files.go), Git
      (core/repo/git.go), Config (core/config), ServiceSpec the declarative
      reading of the metadata.
    - Store (platform/store): StoreDB, StoreTasks, StoreServices, ImageStore
      (backups, images, synchronisation).  StoreProtocol makes it a transition
      system, StoreInvariants and StoreSafety hold its invariant.
    - Messages: Rpc (platform/rpcutil), Proto (the enumerations of both
      proto_helpers.go), TaskParams.
    - Controller: AgentApi (agent_task.go, agent_report.go), Controller (task
      admission), ServiceCommand, RepoWrite (repo_command.go, repo_sync.go),
      ImageReports, Notifications, Forge, Scheduler, Outbox, Dns (dns.go and
      the worker of the controller's own tasks), Tunnel, Migrate, NodeCommands
      (capabilities.go, node.go, the tasks of container.go, restores and
      reruns).
    - Bundles: ServiceBundles (core/repo/bundle.go, bundle.go,
      bundle_runtime.go, service_task_runtime.go); BundleInstall follows a
      bundle into the directory of the agent (AgentBundles).
    - Terminals and followed logs: ExecSessions (exec_tunnel.go) with the
      goroutines around the manager, FollowedLogs (container_log_tunnel.go,
      GetContainerLogs of container.go, TailTaskLogs of task_service.go).
    - Logs: LogStream (both log_stream.go); LogTheorems adds the network.
    - Docker queries: DockerMessages, DockerBroker and DockerHandlers
      (docker_query_bridge.go, docker_query_service.go), DockerSystem (the
      goroutines and the specification of the life of a query), and DockerAgent
      (app/agent/docker.go, docker_client.go).  DockerInvariant and DockerReach hold the
      invariant.
    - Agent: AgentProgram (the operations of a task), TaskExecution
      (task_execution.go, task_lifecycle.go), ComposeRuntime, AgentBundles
      (bundle.go, service_check.go), AgentTasks (service_tasks.go and the other
      tasks), AgentBackups (backup_restore_tasks.go, task_dispatch.go, run.go),
      AgentImages (image_update.go, filter.go, discovery.go, registry.go).
      AgentSystem puts the agent beside the store and the failures in between;
      AgentInvariant and AgentLoop hold its invariant.
    Theorems and their instances are in the files named ...Theorems and in
    AgentRecovery; StoreExamples and AgentExample hold concrete runs.

    *** What the theorems show

    - Tasks: the invariant of the store over all its calls; a task is begun at
      most once, an offer that was taken back is fenced, a finished task is
      final, completions are exact and repeatable (StoreTheorems).  Over all
      runs of an agent with crashes, losses of power and lost answers: no task
      begins twice, no success is reported that did not happen, a restart
      settles what was begun (AgentTheorems, AgentRecovery).
    - Docker queries: the broker implements the life of a query whatever the
      goroutines do, answers come from the node that was asked, no wakeup is
      lost, a request always comes to its end (DockerTheorems); lists, output
      limits and reports of the agent (DockerAgentTheorems).
    - Logs: in order and at most once without storage faults, at least once
      with them; complete but for as many lines as uploads were given up on a
      timeout, and how such an upload loses the next line (LogTheorems).
    - Repository: validation and discovery against their specification, the
      confinement of the compose files (ServiceTheorems), one file per runtime
      path through every change, and when runtime paths stay apart too
      (RepoFilesTheorems), transactions all or nothing (RepoWriteTheorems).
    - Nodes: what a client is shown it may do is what the controller grants,
      and a granted request reaches the engine as it was asked (NodeTheorems).
    - Bundles: a bundle is for the task that asks, listed secrets are replaced
      by private files with their plaintext, and an agent that installs it passes the check of the
      controller (ServiceBundleTheorems, BundleInstall).
    - Terminals: a terminal is given once, to the browser it was opened for,
      and shows what the agent sent (ExecTheorems); followed logs reach the
      client up to their end, as far as the races of following a file allow
      (FollowedLogs).
    - Outside: DNS and tunnels converge (DnsTheorems, TunnelTheorems), the
      outbox settles an event and repeats nothing marked (OutboxTheorems), a migration follows its plan
      (MigrateTheorems), configuration (ConfigTheorems), image updates
      (AgentImageTheorems), unchanged files (AgentBundles).

    *** Conventions

    Integers are [Z] with the wrap-around of uint32, uint64 and int64 written
    where the code computes it; times are nanoseconds.  Errors are values of
    [result]; of an error text the constant words are kept.  What is not in
    the repository is a class whose instance is a parameter of the sections
    that use it (cron, regular expressions and URLs, JSON, git, SQLite's JSON,
    registries, DNS and tunnel services, the Docker engine, docker compose,
    git archive, tar and gzip, encryption);
    a theorem that needs a law of one has it as a hypothesis.  Goroutines are
    programs over operations, and a system is the relation of their steps.
    Panics are values: [None], or a flag that is proved never to be set.

    Bounds and fuel: three pages per forge ([fetch_pages], the constant of the
    code); 64 steps in [bisect] and [double], enough for a 64-bit component
    ([probeContiguousSemverComponent_finds]); polls, retries, pages of a
    registry, turns and ticks are as many as an argument says, and theorems
    hold for every such number.

    *** Not modelled

    The command line client, the web client and generated code; the agent's
    end of the tunnels (goroutines that copy bytes between a stream and the
    Docker engine); HTTP servers, signals and process groups; sending mails
    and messages and their texts; encryption (a class); permission bits and
    transient I/O of the repository, and symbolic links in a bundle; the
    editing of the configuration file, metrics and alerts, and the read-only
    handlers that copy rows of the store into messages. *)
From Stdlib Require Export ZArith Lia Bool.
From Stdlib Require Import Ascii.
Export (notations) Ascii.
From stdpp Require Export base tactics strings list fin_maps gmap sorting.

#[export] Set Warnings "-clear-no-such-hyp,-register-all".

(** ** Fallible code: a Go function that returns [(value, error)] *)
Inductive result (E A : Type) : Type :=
| Ok (value : A)
| Err (error : E).
Arguments Ok {E A} value.
Arguments Err {E A} error.

Definition result_bind {E A B} (m : result E A) (k : A → result E B) : result E B :=
  match m with
  | Ok a => k a
  | Err e => Err e
  end.

Definition is_ok {E A} (m : result E A) : bool :=
  match m with
  | Ok _ => true
  | Err _ => false
  end.

(** [if cond { return err }] as a statement of the error monad. *)
Definition ensure {E} (P : Prop) `{Decision P} (e : E) : result E () :=
  if decide P then Ok () else Err e.

Declare Scope go_scope.
Delimit Scope go_scope with go.
Notation "'let!' x ':=' m 'in' k" := (result_bind m (λ x, k))
  (at level 10, x pattern, m at level 100, k at level 200) : go_scope.
Notation "m ';!' k" := (result_bind m (λ _, k))
  (at level 100, k at level 200, right associativity) : go_scope.
#[export] Instance result_inhabited {E A} `{Inhabited A} : Inhabited (result E A) :=
  populate (Ok inhabitant).

(** Run [f] over the elements of a list, threading the state, up to the
    first error: a [for] loop whose body may [return err]. *)
Fixpoint for_each {E S A} (f : S → A → result E S) (s : S) (l : list A) : result E S :=
  match l with
  | [] => Ok s
  | x :: l => result_bind (f s x) (λ s, for_each f s l)
  end.

(** ** Time: a Go [time.Time] is its instant in nanoseconds since the Unix
    epoch, UTC. *)
Module Time.
Definition time : Type := Z.
Local Open Scope Z_scope.
Definition Second : Z := 1000000000.
Definition Minute : Z := 60 * Second.
(** [time.Time{}] is January 1, year 1. *)
Definition zero : time := -62135596800 * Second.
Definition IsZero (t : time) : Prop := t = zero.
#[export] Instance IsZero_dec t : Decision (IsZero t).
Proof. unfold IsZero. apply _. Defined.
(** [t.UTC().Format(time.RFC3339)] keeps the whole seconds; the text is
    represented by that number of seconds, whose order is the order of the
    texts (fixed-width fields, years 0000 to 9999). *)
Definition rfc3339 (t : time) : Z := t / Second.
(** [time.Parse(time.RFC3339, s)] of a text the store wrote. *)
Definition parse_rfc3339 (s : Z) : time := s * Second.
(** [t.Truncate(d)] rounds down to a multiple of [d] since the zero time. *)
Definition Truncate (t : time) (d : Z) : time := t - (t - zero) `mod` d.

Lemma rfc3339_parse s : rfc3339 (parse_rfc3339 s) = s.
Proof. unfold rfc3339, parse_rfc3339, Second. apply Z.div_mul. lia. Qed.
Lemma parse_rfc3339_le t : parse_rfc3339 (rfc3339 t) ≤ t.
Proof. unfold rfc3339, parse_rfc3339, Second. pose proof (Z.mul_div_le t 1000000000). lia. Qed.
Lemma rfc3339_mono t1 t2 : (t1 ≤ t2)%Z → (rfc3339 t1 ≤ rfc3339 t2)%Z.
Proof. intros. apply Z.div_le_mono; [done|done]. Qed.
Lemma rfc3339_lt_inv t1 t2 : (rfc3339 t1 < rfc3339 t2)%Z → (t1 < t2)%Z.
Proof. intros H. destruct (decide (t2 ≤ t1)%Z) as [Hle|]; [|lia].
  pose proof (rfc3339_mono _ _ Hle). lia. Qed.
End Time.

(** ** Tactics *)
(** Split the binds and the guards of an operation that returned [Ok]. *)
Ltac ok_step :=
  match goal with
  | H : result_bind ?m _ = Ok _ |- _ =>
      let E := fresh "Hm" in destruct m eqn:E; simpl in H; [|discriminate H]
  | H : ensure ?P _ = Ok _ |- _ =>
      unfold ensure in H; destruct (decide P); [clear H|discriminate H]
  | H : (if decide ?P then Err _ else _) = Ok _ |- _ =>
      destruct (decide P); [discriminate H|]
  | H : (if decide ?P then _ else Err _) = Ok _ |- _ =>
      destruct (decide P); [|discriminate H]
  end.
Ltac ok_inv := simplify_eq/=; repeat (ok_step; simplify_eq/=).

(** Cases of a membership in a closed list. *)
Ltac each_of H :=
  repeat match type of H with
         | _ ∈ _ :: _ => apply elem_of_cons in H as [H|H]
         | _ ∈ [] => by apply elem_of_nil in H
         end.

(** Close a goal by evaluating it, or the decision of it. *)
Ltac by_computation := vm_compute; reflexivity.
Ltac by_decision := apply (bool_decide_unpack _); vm_compute; exact I.

(** ** Error-monad lemmas *)
Lemma result_bind_Ok {E A B} (m : result E A) (k : A → result E B) b :
  result_bind m k = Ok b ↔ ∃ a, m = Ok a ∧ k a = Ok b.
Proof.
  destruct m as [a|e]; simpl; split.
  - by exists a.
  - by intros (a' & [= ->] & ?).
  - done.
  - by intros (a' & ? & ?).
Qed.

Lemma result_bind_unit {E B} (m : result E ()) (k : () → result E B) b :
  result_bind m k = Ok b ↔ m = Ok () ∧ k () = Ok b.
Proof. rewrite result_bind_Ok. split; [by intros ([] & ? & ?)|intros []; by exists ()]. Qed.

Lemma result_bind_assoc {E A B C} (m : result E A) (k : A → result E B) (h : B → result E C) :
  result_bind (result_bind m k) h = result_bind m (λ a, result_bind (k a) h).
Proof. by destruct m. Qed.

Lemma for_each_app {E S A} (f : S → A → result E S) s l1 l2 :
  for_each f s (l1 ++ l2) = result_bind (for_each f s l1) (λ s, for_each f s l2).
Proof.
  revert s. induction l1 as [|x l1 IH]; intros s; simpl; [done|].
  rewrite result_bind_assoc. by destruct (f s x); simpl.
Qed.

(** An invariant of the body of a loop is an invariant of the loop. *)
Lemma for_each_ind {E S A} (P : S → Prop) (f : S → A → result E S) s l s' :
  (∀ s x s', x ∈ l → P s → f s x = Ok s' → P s') →
  P s → for_each f s l = Ok s' → P s'.
Proof.
  revert s. induction l as [|x l IH]; intros s Hf Hs Hrun; simpl in Hrun; ok_inv; [done|].
  eapply IH; [|eapply (Hf s x); [by left|done|done]|done].
  intros ????. apply Hf. by right.
Qed.

(** A loop that only checks its elements. *)
Lemma for_each_unit {E A} (f : () → A → result E ()) l :
  for_each f () l = Ok () ↔ Forall (λ x, f () x = Ok ()) l.
Proof.
  induction l as [|x l IH]; simpl; [split; [by constructor|done]|]. rewrite Forall_cons.
  destruct (f () x) as [[]|] eqn:Hf; simpl; [rewrite IH; tauto|]. split; [done|by intros [? _]].
Qed.

(** A loop that checks each element by itself and against what it kept of the
    elements before: it accepts the lists whose elements are good and whose
    keys are pairwise compatible. *)
Section compat.
Context {E A K : Type} (f : list K → A → result E (list K)).
Context (good : A → Prop) (key : A → K) (compat : K → K → Prop) (push : K → list K → list K).
Hypothesis push_perm : ∀ k acc, push k acc ≡ₚ k :: acc.
Hypothesis f_Ok : ∀ acc x acc', f acc x = Ok acc' ↔
  good x ∧ Forall (λ k, compat k (key x)) acc ∧ acc' = push (key x) acc.

Lemma for_each_compat l acc acc' :
  for_each f acc l = Ok acc' ↔
  Forall good l ∧ ForallOrdPairs compat (key <$> l) ∧
  Forall (λ k, Forall (compat k) (key <$> l)) acc ∧
  acc' = foldl (λ acc k, push k acc) acc (key <$> l).
Proof.
  revert acc. induction l as [|x l IH]; intros acc.
  - cbn. split; [intros [= <-]|by intros (_ & _ & _ & ->)].
    split_and!; [done|constructor| |done]. by apply Forall_forall.
  - cbn [for_each]. rewrite fmap_cons, result_bind_Ok. setoid_rewrite f_Ok. setoid_rewrite IH.
    rewrite Forall_cons. split.
    + intros (a & (Hg & Hc & ->) & Hl & Hp & Hacc & ->). rewrite push_perm in Hacc.
      apply Forall_cons in Hacc as [Hx Hacc].
      split_and!; [done|done|by constructor| |done].
      rewrite Forall_forall in Hc, Hacc |- *. intros k Hk. constructor; auto.
    + intros ((Hg & Hl) & Hp & Hacc & ->). inversion Hp as [|? ? Hx Hp']; subst.
      exists (push (key x) acc). split_and!; try done.
      * rewrite Forall_forall in Hacc |- *. intros k Hk. specialize (Hacc k Hk).
        by apply Forall_cons in Hacc as [? _].
      * rewrite push_perm. constructor; [done|].
        rewrite Forall_forall in Hacc |- *. intros k Hk. specialize (Hacc k Hk).
        by apply Forall_cons in Hacc as [_ ?].
Qed.
End compat.

Lemma ForallOrdPairs_NoDup {A} (l : list A) : ForallOrdPairs (≠) l ↔ NoDup l.
Proof.
  induction l as [|x l IH].
  - split; intros; constructor.
  - rewrite NoDup_cons, <-IH. split.
    + intros Hp. inversion Hp as [|? ? Hx Hp']; subst. split; [|done].
      intros Hin. rewrite Forall_forall in Hx. by apply (Hx x Hin).
    + intros [Hx Hp]. constructor; [|done]. apply Forall_forall. intros y Hy ->. done.
Qed.

Lemma ForallOrdPairs_fmap {A B} (R : B → B → Prop) (f : A → B) (l : list A) :
  ForallOrdPairs R (f <$> l) ↔ ForallOrdPairs (λ a b, R (f a) (f b)) l.
Proof.
  induction l as [|x l IH]; [split; constructor|]. rewrite fmap_cons. split; intros Hp.
  - inversion Hp as [|? ? Hx Hp']; subst. rewrite Forall_fmap in Hx. constructor; [exact Hx|by apply IH].
  - inversion Hp as [|? ? Hx Hp']; subst. constructor; [rewrite Forall_fmap; exact Hx|by apply IH].
Qed.

(** A loop that keeps the keys of the elements and refuses to see one twice. *)
Lemma for_each_fresh {E A K} (f : list K → A → result E (list K)) (good : A → Prop) (key : A → K) l :
  (∀ acc x acc', f acc x = Ok acc' ↔ good x ∧ (key x ∉ acc) ∧ acc' = key x :: acc) →
  (∃ acc, for_each f [] l = Ok acc) ↔ Forall good l ∧ NoDup (key <$> l).
Proof.
  intros Hf.
  assert (Hstep : ∀ acc x acc', f acc x = Ok acc' ↔
    good x ∧ Forall (λ k, k ≠ key x) acc ∧ acc' = key x :: acc).
  { intros acc x acc'. rewrite Hf, Forall_forall.
    assert (key x ∉ acc ↔ ∀ k, k ∈ acc → k ≠ key x) as ->; [|done].
    split; [by intros Hn k Hk ->|intros Hn Hk; by apply (Hn _ Hk)]. }
  pose proof (for_each_compat _ good key (≠) cons (λ _ _, reflexivity _) Hstep l []) as Hc.
  rewrite <-ForallOrdPairs_NoDup. split.
  - intros [acc Hrun]. apply Hc in Hrun. tauto.
  - intros []. eexists. apply Hc. split_and!; [done|done|constructor|reflexivity].
Qed.

Lemma filter_all {A} (P : A → Prop) `{∀ x, Decision (P x)} (l : list A) : Forall P l → filter P l = l.
Proof.
  induction 1 as [|x l Hx Hl IH]; [done|]. rewrite filter_cons_True by done. by rewrite IH.
Qed.

(** The map built from a list whose keys differ. *)
Lemma foldl_insert_lookup {A V} (key : A → string) (val : A → V) (l : list A) (m : gmap string V) k v :
  NoDup (key <$> l) → (∀ a, a ∈ l → m !! key a = None) →
  foldl (λ m a, <[key a := val a]> m) m l !! k = Some v ↔
  m !! k = Some v ∨ ∃ a, a ∈ l ∧ key a = k ∧ val a = v.
Proof.
  revert m. induction l as [|x l IH]; intros m Hnd Hm; cbn [foldl].
  - split; [by left|]. by intros [?|(? & ?%elem_of_nil & _)].
  - rewrite fmap_cons, NoDup_cons in Hnd. destruct Hnd as [Hx Hnd]. rewrite IH; [|done|].
    + rewrite lookup_insert_Some. setoid_rewrite elem_of_cons. split.
      * intros [[[<- <-]|[_ ?]]|(a & ? & ?)]; [right; by exists x; split; [left|]|by left|eauto].
      * intros [Hk|(a & [->|?] & Hk & ?)]; [left; right|left; by left|eauto]. split; [|done].
        intros Heq. rewrite <-Heq, Hm in Hk by (by left). done.
    + intros a Ha. apply lookup_insert_None. split; [apply Hm; by right|].
      intros Heq. apply Hx. rewrite Heq. by apply list_elem_of_fmap_2.
Qed.

(** The first element with a key, when the keys differ. *)
Lemma head_filter_key {A K} `{EqDecision K} (key : A → K) (l : list A) k x :
  NoDup (key <$> l) → head (filter (λ x, key x = k) l) = Some x ↔ x ∈ l ∧ key x = k.
Proof.
  intros Hnd. induction l as [|y l IH].
  - split; [done|]. by intros [?%elem_of_nil _].
  - rewrite fmap_cons, NoDup_cons in Hnd. destruct Hnd as [Hy Hnd]. rewrite filter_cons, elem_of_cons.
    case_decide as Hk; cbn [head].
    + split; [intros [= ->]; tauto|]. intros [[->|Hx] Hkx]; [done|]. destruct Hy. rewrite Hk, <-Hkx.
      by apply list_elem_of_fmap_2.
    + rewrite IH by done. split; [tauto|]. by intros [[->|?] ?].
Qed.

(** A property of the value of an option, if there is one. *)
Lemma option_all {A} (P : A → Prop) (o : option A) :
  (∀ a, o = Some a → P a) ↔ match o with Some a => P a | None => True end.
Proof.
  destruct o as [a|]; split.
  - auto.
  - by intros ? ? [= <-].
  - auto.
  - intros _ ? [=].
Qed.

Lemma foldl_snoc {A} (l acc : list A) : foldl (λ acc k, acc ++ [k]) acc l = acc ++ l.
Proof.
  revert acc. induction l as [|x l IH]; intros acc; cbn; [by rewrite (right_id_L [] (++))|].
  by rewrite IH, <-(assoc (++)).
Qed.

Lemma pair_snd {A B} (p : A * B) b : p.2 = b → p = (p.1, b).
Proof. intros <-. by destruct p. Qed.

(** ** Channels of Go with a buffer *)
Record Chan (A : Type) := MkChan { ch_items : list A; ch_closed : bool }.
Arguments MkChan {A} ch_items ch_closed.
Arguments ch_items {A} c.
Arguments ch_closed {A} c.
Definition make_chan {A} : Chan A := MkChan [] false.
(** The capacity of the channels that are made here. *)
Definition chan_capacity : nat := 256.
(** [select { case c <- x: default: }]: the flag says whether it was sent;
    [None] is a panic. *)
Definition try_send {A} (x : A) (c : Chan A) : option (Chan A * bool) :=
  if ch_closed c then None
  else if decide (length (ch_items c) < chan_capacity) then Some (MkChan (ch_items c ++ [x]) false, true)
  else Some (c, false).
Definition close_chan {A} (c : Chan A) : option (Chan A) :=
  if ch_closed c then None else Some (MkChan (ch_items c) true).
(** A receive that does not wait: a value, or that the channel is closed. *)
Inductive ChanReceived (A : Type) := Waiting | Value (x : A) (rest : Chan A) | ClosedChan.
Arguments Waiting {A}.
Arguments Value {A} x rest.
Arguments ClosedChan {A}.
Definition receive_chan {A} (c : Chan A) : ChanReceived A :=
  match ch_items c with
  | x :: items => Value x (MkChan items (ch_closed c))
  | [] => if ch_closed c then ClosedChan else Waiting
  end.

Lemma try_send_open {A} (x : A) c : ch_closed c = false → ∃ c' sent, try_send x c = Some (c', sent) ∧ ch_closed c' = false ∧
  ch_items c' = ch_items c ++ (if sent then [x] else []).
Proof.
  intros Hc. unfold try_send. rewrite Hc. case_decide; [by exists (MkChan (ch_items c ++ [x]) false), true|].
  exists c, false. by rewrite (right_id_L [] (++)).
Qed.

(** ** Lexicographic order and least elements: [ORDER BY ... LIMIT 1] *)
Definition lex_leb (a b : Z * string) : bool :=
  bool_decide (a.1 < b.1)%Z || (bool_decide (a.1 = b.1) && String.leb a.2 b.2).

Lemma leb_spec s t : String.leb s t = true ↔ String.le s t.
Proof. unfold String.le. by rewrite Is_true_true. Qed.

Lemma lex_leb_spec a b :
  lex_leb a b = true ↔ (a.1 < b.1)%Z ∨ a.1 = b.1 ∧ String.le a.2 b.2.
Proof.
  unfold lex_leb. rewrite orb_true_iff, andb_true_iff, !bool_decide_eq_true, leb_spec. done.
Qed.
Lemma lex_leb_refl a : lex_leb a a = true.
Proof. apply lex_leb_spec. right. split; done. Qed.
Lemma lex_leb_total a b : lex_leb a b = true ∨ lex_leb b a = true.
Proof.
  rewrite !lex_leb_spec. destruct (Z.lt_total a.1 b.1) as [?|[?|?]]; [auto| |auto].
  destruct (String.le_total a.2 b.2); auto.
Qed.
Lemma lex_leb_trans a b c : lex_leb a b = true → lex_leb b c = true → lex_leb a c = true.
Proof.
  rewrite !lex_leb_spec. intros [?|[Heq ?]] [?|[Heq' ?]]; [left; lia..|].
  right. split; [congruence|]. by etrans.
Qed.
Lemma lex_leb_antisym a b : lex_leb a b = true → lex_leb b a = true → a = b.
Proof.
  rewrite !lex_leb_spec. destruct a as [x s], b as [y t]; simpl.
  intros [?|[Heq ?]] [?|[Heq' ?]]; try lia. f_equal; [done|]. by apply (anti_symm String.le).
Qed.

Section least.
Context {A : Type} (leb : A → A → bool).

Fixpoint least (l : list A) : option A :=
  match l with
  | [] => None
  | x :: l => match least l with
              | None => Some x
              | Some y => Some (if leb x y then x else y)
              end
  end.

Lemma least_None l : least l = None ↔ l = [].
Proof. destruct l as [|x l]; simpl; [done|]. by destruct (least l). Qed.

Lemma least_elem l x : least l = Some x → x ∈ l.
Proof.
  revert x. induction l as [|y l IH]; intros x; simpl; [done|].
  destruct (least l) as [z|]; intros [= <-]; [|set_solver].
  destruct (leb y z); set_solver.
Qed.

Hypothesis leb_total : ∀ a b, leb a b = true ∨ leb b a = true.
Hypothesis leb_trans : ∀ a b c, leb a b = true → leb b c = true → leb a c = true.

Lemma least_le l x y : least l = Some x → y ∈ l → leb x y = true.
Proof.
  assert (Hrefl : ∀ a, leb a a = true) by (intros a; by destruct (leb_total a a)).
  revert x. induction l as [|z l IH]; intros x; simpl; [done|].
  destruct (least l) as [w|] eqn:E; intros [= <-] Hy.
  - apply elem_of_cons in Hy as [->|Hy].
    + destruct (leb z w) eqn:Ezw; [done|]. by destruct (leb_total z w) as [?|?]; [congruence|].
    + specialize (IH w eq_refl Hy). destruct (leb z w) eqn:Ezw; [|done]. eauto.
  - apply least_None in E as ->. by apply list_elem_of_singleton in Hy as ->.
Qed.
End least.

(** ** Hints shared by the components *)
Create HintDb composia.
Create Rewrite HintDb composia.
#[export] Hint Resolve lex_leb_refl lex_leb_total lex_leb_trans : composia.
#[export] Hint Rewrite @lookup_insert_eq @lookup_empty @lookup_fmap Time.rfc3339_parse : composia.
