(* ===== verification/Sql.v ===== *)
(** * SQL statements over finite tables

    The store (src/internal/platform/store) keeps its state in SQLite.  A
    table is a finite map from its primary key to the row's other columns; a
    NULL column is [None].  This file gives the statements the store uses as
    functions on such tables (the language of the queries, not code of the
    repository) with the lemmas its proofs share. *)
From S2P Require Export Prelude.

(** Decide a WHERE clause given as a function of the key and the row. *)
#[export] Hint Extern 0 (Decision _) => progress (cbv beta) : typeclass_instances.

Section sql.
Context {K : Type} `{Countable K} {R : Type}.
Implicit Types (t : gmap K R) (k : K) (r : R).

(** [SELECT ... WHERE P] *)
Definition rows_where (P : K → R → Prop) `{∀ k r, Decision (P k r)} t : gmap K R :=
  filter (λ kr, P kr.1 kr.2) t.

(** [SELECT COUNT( * ) ... WHERE P] *)
Definition count_where (P : K → R → Prop) `{∀ k r, Decision (P k r)} t : nat :=
  size (rows_where P t).

(** [SELECT ... WHERE P ORDER BY key LIMIT 1] *)
Definition select_first (P : K → R → Prop) `{∀ k r, Decision (P k r)}
    (key : K → R → Z * string) t : option (K * R) :=
  least (λ a b, lex_leb (key a.1 a.2) (key b.1 b.2)) (map_to_list (rows_where P t)).

(** [UPDATE ... SET f WHERE primary_key = k AND P], with [RowsAffected]. *)
Definition update_row k (P : R → Prop) `{∀ r, Decision (P r)} (f : R → R) t : gmap K R * nat :=
  match t !! k with
  | Some r => if decide (P r) then (<[k := f r]> t, 1) else (t, 0)
  | None => (t, 0)
  end.

(** [UPDATE ... SET f WHERE P], with [RowsAffected]. *)
Definition update_where (P : K → R → Prop) `{∀ k r, Decision (P k r)} (f : R → R) t
    : gmap K R * nat :=
  (map_imap (λ k r, Some (if decide (P k r) then f r else r)) t, count_where P t).

(** [INSERT ... ON CONFLICT(primary_key) DO UPDATE SET f] *)
Definition upsert k (new : R) (f : R → R) t : gmap K R :=
  match t !! k with
  | Some r => <[k := f r]> t
  | None => <[k := new]> t
  end.

(** [INSERT ... ON CONFLICT(primary_key) DO NOTHING] *)
Definition insert_ignore k (new : R) t : gmap K R :=
  match t !! k with
  | Some _ => t
  | None => <[k := new]> t
  end.

(** ** Lemmas *)
Lemma lookup_rows_where P `{∀ k r, Decision (P k r)} t k r :
  rows_where P t !! k = Some r ↔ t !! k = Some r ∧ P k r.
Proof. unfold rows_where. by rewrite map_lookup_filter_Some. Qed.

Lemma count_where_zero P `{∀ k r, Decision (P k r)} t :
  count_where P t = 0 ↔ ∀ k r, t !! k = Some r → ¬ P k r.
Proof.
  unfold count_where. rewrite map_size_empty_iff. unfold rows_where.
  rewrite map_empty_filter. done.
Qed.

Lemma count_where_pos P `{∀ k r, Decision (P k r)} t :
  0 < count_where P t ↔ ∃ k r, t !! k = Some r ∧ P k r.
Proof.
  split.
  - intros Hpos. destruct (map_choose (rows_where P t)) as (k & r & Hkr).
    { intros Hem. unfold count_where in Hpos. rewrite Hem, map_size_empty in Hpos. lia. }
    apply lookup_rows_where in Hkr. by exists k, r.
  - intros (k & r & Hk & HP). destruct (decide (0 < count_where P t)); [done|].
    assert (Hz : count_where P t = 0) by lia. rewrite count_where_zero in Hz.
    by destruct (Hz k r Hk).
Qed.

Lemma select_first_Some P `{∀ k r, Decision (P k r)} key t k r :
  select_first P key t = Some (k, r) →
  t !! k = Some r ∧ P k r ∧
  ∀ k' r', t !! k' = Some r' → P k' r' → lex_leb (key k r) (key k' r') = true.
Proof.
  intros Hf. pose proof (least_elem _ _ _ Hf) as Hin.
  apply elem_of_map_to_list in Hin. apply lookup_rows_where in Hin as [? ?].
  split_and!; [done..|]. intros k' r' Hk' HP'.
  apply (least_le _
    (λ a b, lex_leb_total (key a.1 a.2) (key b.1 b.2))
    (λ a b c, lex_leb_trans (key a.1 a.2) (key b.1 b.2) (key c.1 c.2)) _ _ (k', r') Hf).
  apply elem_of_map_to_list. by apply lookup_rows_where.
Qed.

Lemma select_first_None P `{∀ k r, Decision (P k r)} key t :
  select_first P key t = None ↔ ∀ k r, t !! k = Some r → ¬ P k r.
Proof.
  unfold select_first. rewrite least_None, map_to_list_empty_iff.
  unfold rows_where. by rewrite map_empty_filter.
Qed.

(** The two outcomes of an update by key. *)
Lemma update_row_cases k P `{∀ r, Decision (P r)} f t :
  (∃ r, t !! k = Some r ∧ P r ∧ update_row k P f t = (<[k := f r]> t, 1)) ∨
  ((∀ r, t !! k = Some r → ¬ P r) ∧ update_row k P f t = (t, 0)).
Proof.
  unfold update_row. destruct (t !! k) as [r|] eqn:E.
  - destruct (decide (P r)); [left; eauto|right; split; [|done]]. by intros ? [= <-].
  - right. by split.
Qed.

Lemma update_row_affected k P `{∀ r, Decision (P r)} f t t' n :
  update_row k P f t = (t', n) → n ≠ 0 →
  ∃ r, t !! k = Some r ∧ P r ∧ t' = <[k := f r]> t.
Proof.
  intros Hu Hn. destruct (update_row_cases k P f t) as [(r & ? & ? & E)|[? E]];
    rewrite E in Hu; simplify_eq. eauto.
Qed.

Lemma lookup_update_where P `{∀ k r, Decision (P k r)} f t k :
  (update_where P f t).1 !! k = (λ r, if decide (P k r) then f r else r) <$> t !! k.
Proof. simpl. rewrite map_lookup_imap. by destruct (t !! k). Qed.

Lemma update_where_none P `{∀ k r, Decision (P k r)} f t :
  (∀ k r, t !! k = Some r → ¬ P k r) → update_where P f t = (t, 0).
Proof.
  intros Hno. unfold update_where. f_equal; [|by apply count_where_zero].
  apply map_eq. intros k. rewrite map_lookup_imap. destruct (t !! k) as [r|] eqn:E; [|done].
  simpl. by rewrite decide_False by eauto.
Qed.

Lemma count_where_ext P `{∀ k r, Decision (P k r)} t t' :
  (∀ k r, (t !! k = Some r ∧ P k r) ↔ (t' !! k = Some r ∧ P k r)) →
  count_where P t = count_where P t'.
Proof.
  intros Hext. unfold count_where. f_equal. apply map_eq. intros k. apply option_eq. intros r.
  rewrite !lookup_rows_where. apply Hext.
Qed.

Lemma lookup_update_where_Some P `{∀ k r, Decision (P k r)} f t k r' :
  (update_where P f t).1 !! k = Some r' →
  ∃ r, t !! k = Some r ∧ r' = if decide (P k r) then f r else r.
Proof. rewrite lookup_update_where, fmap_Some. done. Qed.

Lemma lookup_upsert k new f t :
  upsert k new f t !! k = Some (match t !! k with Some r => f r | None => new end).
Proof. unfold upsert. by destruct (t !! k); rewrite lookup_insert_eq. Qed.

Lemma lookup_upsert_ne k k' new f t : k ≠ k' → upsert k new f t !! k' = t !! k'.
Proof. intros. unfold upsert. by destruct (t !! k); rewrite lookup_insert_ne. Qed.

Lemma lookup_insert_ignore k new t :
  insert_ignore k new t !! k = Some (match t !! k with Some r => r | None => new end).
Proof. unfold insert_ignore. destruct (t !! k) eqn:E; [done|]. by rewrite lookup_insert_eq. Qed.

Lemma lookup_insert_ignore_ne k k' new t :
  k ≠ k' → insert_ignore k new t !! k' = t !! k'.
Proof. intros. unfold insert_ignore. destruct (t !! k); [done|]. by rewrite lookup_insert_ne. Qed.
End sql.

#[export] Hint Rewrite @lookup_update_where @lookup_upsert @lookup_insert_ignore : composia.
