(* ===== verification/GoStrings.v ===== *)
(** * Go's [strings] package on byte strings

    A Go string is a sequence of bytes, here [String.string].  The functions
    the modelled code calls are given with their documented behaviour;
    [TrimSpace] knows the UTF-8 encodings of the Unicode white space, and
    [ToLower] and [EqualFold] fold ASCII letters only, which is what they do
    on the ASCII texts they are used on. *)
From Stdlib Require Import Ascii.
From S2P Require Export Prelude.

Fixpoint HasPrefix (s prefix : string) : bool :=
  match prefix, s with
  | EmptyString, _ => true
  | String p prefix, String c s => bool_decide (c = p) && HasPrefix s prefix
  | String _ _, EmptyString => false
  end.

Fixpoint drop_bytes (n : nat) (s : string) : string :=
  match n, s with
  | S n, String _ s => drop_bytes n s
  | _, _ => s
  end.

Fixpoint take_bytes (n : nat) (s : string) : string :=
  match n, s with
  | S n, String c s => String c (take_bytes n s)
  | _, _ => ""
  end.

Definition TrimPrefix (s prefix : string) : string :=
  if HasPrefix s prefix then drop_bytes (String.length prefix) s else s.

Definition HasSuffix (s suffix : string) : bool :=
  HasPrefix (String.rev s) (String.rev suffix).

Definition TrimSuffix (s suffix : string) : string :=
  if HasSuffix s suffix then take_bytes (String.length s - String.length suffix) s else s.

(** [strings.Index(s, substr)], [None] for -1. *)
Fixpoint Index (s substr : string) : option nat :=
  if HasPrefix s substr then Some 0
  else match s with
       | EmptyString => None
       | String _ s => S <$> Index s substr
       end.

Definition Contains (s substr : string) : bool :=
  match Index s substr with Some _ => true | None => false end.

(** [strings.LastIndex(s, substr)], [None] for -1. *)
Fixpoint LastIndex (s substr : string) : option nat :=
  match (match s with
         | EmptyString => None
         | String _ s => S <$> LastIndex s substr
         end) with
  | Some i => Some i
  | None => if HasPrefix s substr then Some 0 else None
  end.

(** [before, after, found := strings.Cut(s, sep)] *)
Definition Cut (s sep : string) : string * string * bool :=
  match Index s sep with
  | Some i => (take_bytes i s, drop_bytes (i + String.length sep) s, true)
  | None => (s, "", false)
  end.

(** [strings.Split(s, sep)] with a separator of one byte. *)
Fixpoint Split (s : string) (sep : ascii) : list string :=
  match s with
  | EmptyString => [""]
  | String c s =>
      if decide (c = sep) then "" :: Split s sep
      else match Split s sep with
           | w :: ws => String c w :: ws
           | [] => [String c ""]
           end
  end.

Fixpoint Join (l : list string) (sep : string) : string :=
  match l with
  | [] => ""
  | [s] => s
  | s :: l => s +:+ sep +:+ Join l sep
  end.

(** ** White space *)
Definition byte (n : nat) : ascii := Ascii.ascii_of_nat n.
Definition bytes (l : list nat) : string := foldr (λ n s, String (byte n) s) "" l.

(** The UTF-8 encodings of the characters with the White_Space property. *)
Definition space_encodings : list string :=
  (bytes <$> [[9]; [10]; [11]; [12]; [13]; [32]; [194; 133]; [194; 160]; [225; 154; 128]]) ++
  ((λ n, bytes [226; 128; n]) <$> seq 128 11) ++
  (bytes <$> [[226; 128; 168]; [226; 128; 169]; [226; 128; 175]; [226; 129; 159];
              [227; 128; 128]]).

Definition leading (encs : list string) (s : string) : option string :=
  snd <$> list_find (λ e, HasPrefix s e = true) encs.

Fixpoint trim_left (encs : list string) (fuel : nat) (s : string) : string :=
  match fuel with
  | O => s
  | S fuel => match leading encs s with
              | Some e => trim_left encs fuel (drop_bytes (String.length e) s)
              | None => s
              end
  end.

Definition TrimLeftSpace (s : string) : string := trim_left space_encodings (String.length s) s.
Definition TrimRightSpace (s : string) : string :=
  String.rev (trim_left (String.rev <$> space_encodings) (String.length s) (String.rev s)).
Definition TrimSpace (s : string) : string := TrimRightSpace (TrimLeftSpace s).

(** ** Case *)
Definition lower_byte (c : ascii) : ascii :=
  let n := Ascii.nat_of_ascii c in
  if decide (65 ≤ n ∧ n ≤ 90) then byte (n + 32) else c.
Definition upper_byte (c : ascii) : ascii :=
  let n := Ascii.nat_of_ascii c in
  if decide (97 ≤ n ∧ n ≤ 122) then byte (n - 32) else c.
Fixpoint map_bytes (f : ascii → ascii) (s : string) : string :=
  match s with
  | EmptyString => ""
  | String c s => String (f c) (map_bytes f s)
  end.
Definition ToLower (s : string) : string := map_bytes lower_byte s.
Definition ToUpper (s : string) : string := map_bytes upper_byte s.
Definition EqualFold (s t : string) : bool := bool_decide (ToLower s = ToLower t).

Fixpoint all_bytes (P : ascii → bool) (s : string) : bool :=
  match s with
  | EmptyString => true
  | String c s => P c && all_bytes P s
  end.

Definition is_digit_byte (c : ascii) : bool :=
  let n := Ascii.nat_of_ascii c in bool_decide (48 ≤ n ∧ n ≤ 57).
Definition is_lower_byte (c : ascii) : bool :=
  let n := Ascii.nat_of_ascii c in bool_decide (97 ≤ n ∧ n ≤ 122).
Definition is_upper_byte (c : ascii) : bool :=
  let n := Ascii.nat_of_ascii c in bool_decide (65 ≤ n ∧ n ≤ 90).

(** ** Lemmas *)
Lemma app_nil_r s : s +:+ "" = s.
Proof. induction s as [|c s IH]; [done|]. change (String c (s +:+ "") = String c s). by rewrite IH. Qed.

Lemma app_assoc s t u : (s +:+ t) +:+ u = s +:+ (t +:+ u).
Proof.
  induction s as [|c s IH]; [done|].
  change (String c ((s +:+ t) +:+ u) = String c (s +:+ (t +:+ u))). by rewrite IH.
Qed.

Lemma rev_app_spec s t : String.rev_app s t = String.rev s +:+ t.
Proof.
  unfold String.rev. revert t. induction s as [|c s IH]; intros t; simpl; [done|].
  rewrite IH, (IH (String c "")), app_assoc. done.
Qed.

Lemma rev_cons c s : String.rev (String c s) = String.rev s +:+ String c "".
Proof. unfold String.rev at 1. simpl. apply rev_app_spec. Qed.

Lemma rev_app_distr s t : String.rev (s +:+ t) = String.rev t +:+ String.rev s.
Proof.
  induction s as [|c s IH].
  - change (String.rev t = String.rev t +:+ ""). by rewrite app_nil_r.
  - change (String.rev (String c (s +:+ t)) = String.rev t +:+ String.rev (String c s)).
    by rewrite !rev_cons, IH, app_assoc.
Qed.

Lemma rev_involutive s : String.rev (String.rev s) = s.
Proof. induction s as [|c s IH]; [done|]. by rewrite rev_cons, rev_app_distr, IH. Qed.

Lemma length_app_bytes s t : String.length (s +:+ t) = String.length s + String.length t.
Proof.
  induction s as [|c s IH]; [done|].
  change (S (String.length (s +:+ t)) = S (String.length s + String.length t)). by rewrite IH.
Qed.

Lemma length_rev_bytes s : String.length (String.rev s) = String.length s.
Proof. induction s as [|c s IH]; [done|]. rewrite rev_cons, length_app_bytes, IH. simpl. lia. Qed.

Lemma HasPrefix_spec s p : HasPrefix s p = true ↔ ∃ t, s = p +:+ t.
Proof.
  revert s. induction p as [|a p IH]; intros [|c s]; simpl.
  - split; [by exists ""|done].
  - split; [by exists (String c s)|done].
  - split; [done|by intros [t [=]]].
  - rewrite andb_true_iff, bool_decide_eq_true, IH. split.
    + intros [-> [t ->]]. by exists t.
    + intros [t Heq]. change (String c s = String a (p +:+ t)) in Heq.
      injection Heq as -> ->. split; [done|]. by exists t.
Qed.

Lemma HasSuffix_spec s p : HasSuffix s p = true ↔ ∃ t, s = t +:+ p.
Proof.
  unfold HasSuffix. rewrite HasPrefix_spec. split.
  - intros [t Ht]. exists (String.rev t).
    rewrite <-(rev_involutive s), Ht, rev_app_distr, rev_involutive. done.
  - intros [t ->]. exists (String.rev t). apply rev_app_distr.
Qed.

Lemma drop_bytes_app s t : drop_bytes (String.length s) (s +:+ t) = t.
Proof. by induction s. Qed.
Lemma take_bytes_app s t : take_bytes (String.length s) (s +:+ t) = s.
Proof.
  induction s as [|c s IH]; [by destruct t|].
  change (String c (take_bytes (String.length s) (s +:+ t)) = String c s). by rewrite IH.
Qed.
Lemma length_take_bytes n s : String.length (take_bytes n s) = Nat.min n (String.length s).
Proof. revert n. induction s as [|a s IH]; intros [|n]; cbn; [done..|]. by rewrite IH. Qed.
Lemma take_drop_bytes n s : take_bytes n s +:+ drop_bytes n s = s.
Proof.
  revert s. induction n as [|n IH]; intros [|c s]; [done..|].
  change (String c (take_bytes n s +:+ drop_bytes n s) = String c s). by rewrite IH.
Qed.

Lemma TrimPrefix_app p t : TrimPrefix (p +:+ t) p = t.
Proof.
  unfold TrimPrefix. assert (HasPrefix (p +:+ t) p = true) as -> by (apply HasPrefix_spec; eauto).
  apply drop_bytes_app.
Qed.
Lemma TrimSuffix_app t p : TrimSuffix (t +:+ p) p = t.
Proof.
  unfold TrimSuffix. assert (HasSuffix (t +:+ p) p = true) as -> by (apply HasSuffix_spec; eauto).
  rewrite length_app_bytes.
  replace (String.length t + String.length p - String.length p) with (String.length t) by lia.
  apply take_bytes_app.
Qed.

Lemma Split_not_nil s sep : Split s sep ≠ [].
Proof. destruct s as [|c s]; simpl; [done|]. case_decide; [done|]. by destruct (Split s sep). Qed.

Lemma Join_cons w ws sep : ws ≠ [] → Join (w :: ws) sep = w +:+ sep +:+ Join ws sep.
Proof. by destruct ws. Qed.

(** [strings.Join(strings.Split(s, sep), sep) == s] *)
Lemma Join_Split s sep : Join (Split s sep) (String sep "") = s.
Proof.
  induction s as [|c s IH]; [done|]. simpl. case_decide as Hc.
  - subst. rewrite Join_cons by apply Split_not_nil. by rewrite IH.
  - pose proof (Split_not_nil s sep). destruct (Split s sep) as [|w [|w' ws]]; [done|..].
    + simpl in *. by rewrite IH.
    + rewrite Join_cons in IH by done. rewrite Join_cons by done.
      change (String c (w +:+ String sep "" +:+ Join (w' :: ws) (String sep "")) = String c s).
      by rewrite IH.
Qed.

(** ** Trimming twice is trimming once *)
Lemma HasPrefix_app s t p : HasPrefix s p = true → HasPrefix (s +:+ t) p = true.
Proof. rewrite !HasPrefix_spec. intros [u ->]. exists (u +:+ t). by rewrite app_assoc. Qed.

Lemma leading_None encs s : leading encs s = None ↔ Forall (λ e, HasPrefix s e ≠ true) encs.
Proof. unfold leading. rewrite fmap_None. apply list_find_None. Qed.

Lemma leading_Some encs s e :
  leading encs s = Some e → e ∈ encs ∧ ∃ t, s = e +:+ t.
Proof.
  unfold leading. intros ([i e'] & (Hl & Hp & _)%list_find_Some & ->)%fmap_Some.
  split; [by eapply list_elem_of_lookup_2|]. by apply HasPrefix_spec.
Qed.

Lemma trim_left_stop encs fuel s : leading encs s = None → trim_left encs fuel s = s.
Proof. intros Hs. destruct fuel; simpl; [done|]. by rewrite Hs. Qed.

Lemma trim_left_spec encs fuel s :
  Forall (λ e, e ≠ "") encs → String.length s ≤ fuel →
  leading encs (trim_left encs fuel s) = None ∧ ∃ u, s = u +:+ trim_left encs fuel s.
Proof.
  intros Henc. revert s. induction fuel as [|fuel IH]; intros s Hl; simpl.
  - split; [|by exists ""]. destruct s as [|c s]; [|simpl in Hl; lia].
    apply leading_None. eapply Forall_impl; [exact Henc|]. intros e He. by destruct e.
  - destruct (leading encs s) as [e|] eqn:Hs; [|split; [done|by exists ""]].
    apply leading_Some in Hs as (He & t & ->). rewrite drop_bytes_app.
    rewrite Forall_forall in Henc. specialize (Henc e He).
    rewrite length_app_bytes in Hl. destruct (IH t) as [Hd [u Hu]].
    + destruct e; [done|]. simpl in Hl. lia.
    + split; [done|]. exists (e +:+ u). by rewrite app_assoc, <-Hu.
Qed.

Lemma space_encodings_not_empty : Forall (λ e, e ≠ "") space_encodings.
Proof. by_decision. Qed.

Lemma TrimLeftSpace_spec s :
  leading space_encodings (TrimLeftSpace s) = None ∧ ∃ u, s = u +:+ TrimLeftSpace s.
Proof. apply trim_left_spec; [apply space_encodings_not_empty|done]. Qed.

Lemma TrimRightSpace_spec s :
  leading (String.rev <$> space_encodings) (String.rev (TrimRightSpace s)) = None ∧
  ∃ u, s = TrimRightSpace s +:+ u.
Proof.
  unfold TrimRightSpace. rewrite rev_involutive.
  destruct (trim_left_spec (String.rev <$> space_encodings) (String.length s) (String.rev s))
    as [Hd [u Hu]].
  - apply Forall_fmap. eapply Forall_impl; [apply space_encodings_not_empty|].
    intros e He Hr. apply He. by rewrite <-(rev_involutive e), Hr.
  - by rewrite length_rev_bytes.
  - split; [done|]. exists (String.rev u).
    rewrite <-(rev_involutive s) at 1. rewrite Hu at 1. by rewrite rev_app_distr.
Qed.

Lemma TrimSpace_idempotent s : TrimSpace (TrimSpace s) = TrimSpace s.
Proof.
  unfold TrimSpace at 1 3. set (t := TrimLeftSpace s). set (r := TrimRightSpace t).
  destruct (TrimLeftSpace_spec s) as [Ht _]. fold t in Ht.
  destruct (TrimRightSpace_spec t) as [Hr [u Hu]]. fold r in Hr, Hu.
  assert (Hl : leading space_encodings r = None).
  { apply leading_None. apply leading_None in Ht. eapply Forall_impl; [exact Ht|].
    intros e He Hp. apply He. rewrite Hu. by apply HasPrefix_app. }
  assert (TrimSpace s = r) as -> by done.
  assert (TrimLeftSpace r = r) as -> by (by apply trim_left_stop).
  unfold TrimRightSpace at 1. rewrite trim_left_stop by done. by rewrite rev_involutive.
Qed.

#[export] Hint Rewrite app_nil_r app_assoc rev_app_distr rev_involutive length_app_bytes
  TrimPrefix_app TrimSuffix_app TrimSpace_idempotent : composia.
