(* ===== verification/Task.v ===== *)
(** * Tasks: src/internal/core/task/task.go

    The string types of the package ([Type], [Status], [Source],
    [ExecutionState], [StepName]) are Go strings with named constants, so they
    are strings here, the zero value being [""]; the structs [Record] and
    [StepRecord] with the zero value of each field; and the two predicates
    that split the types between the controller and the agents. *)
From S2P Require Export Prelude.

(** ** Task types *)
Definition TypeDeploy : string := "deploy".
Definition TypeStop : string := "stop".
Definition TypeRestart : string := "restart".
Definition TypeUpdate : string := "update".
Definition TypeBackup : string := "backup".
Definition TypeRestore : string := "restore".
Definition TypeMigrate : string := "migrate".
Definition TypeDNSUpdate : string := "dns_update".
Definition TypeCloudflareTunnelSync : string := "cloudflare_tunnel_sync".
Definition TypeCaddySync : string := "caddy_sync".
Definition TypeCaddyReload : string := "caddy_reload".
Definition TypeImageCheck : string := "image_check".
Definition TypePrune : string := "prune".
Definition TypeRusticInit : string := "rustic_init".
Definition TypeRusticForget : string := "rustic_forget".
Definition TypeRusticPrune : string := "rustic_prune".
Definition TypeDockerStart : string := "docker_start".
Definition TypeDockerStop : string := "docker_stop".
Definition TypeDockerRestart : string := "docker_restart".
Definition TypeDockerRemoveContainer : string := "docker_remove_container".
Definition TypeDockerRemoveNetwork : string := "docker_remove_network".
Definition TypeDockerRemoveVolume : string := "docker_remove_volume".
Definition TypeDockerRemoveImage : string := "docker_remove_image".
Definition TypeMigrateRollback : string := "migrate_rollback".

Definition task_types : list string :=
  [TypeDeploy; TypeStop; TypeRestart; TypeUpdate; TypeBackup; TypeRestore;
   TypeMigrate; TypeDNSUpdate; TypeCloudflareTunnelSync; TypeCaddySync;
   TypeCaddyReload; TypeImageCheck; TypePrune; TypeRusticInit; TypeRusticForget;
   TypeRusticPrune; TypeDockerStart; TypeDockerStop; TypeDockerRestart;
   TypeDockerRemoveContainer; TypeDockerRemoveNetwork; TypeDockerRemoveVolume;
   TypeDockerRemoveImage; TypeMigrateRollback].

(** ** Task statuses *)
Definition StatusPending : string := "pending".
Definition StatusRunning : string := "running".
Definition StatusAwaitingConfirmation : string := "awaiting_confirmation".
Definition StatusSucceeded : string := "succeeded".
Definition StatusFailed : string := "failed".
Definition StatusCancelled : string := "cancelled".

Definition task_statuses : list string :=
  [StatusPending; StatusRunning; StatusAwaitingConfirmation; StatusSucceeded;
   StatusFailed; StatusCancelled].

(** ** Task sources *)
Definition SourceWeb : string := "web".
Definition SourceCLI : string := "cli".
Definition SourceOthers : string := "others".
Definition SourceSchedule : string := "schedule".
Definition SourceSystem : string := "system".
Definition SourceAutoDeploy : string := "auto_deploy".

Definition task_sources : list string :=
  [SourceWeb; SourceCLI; SourceOthers; SourceSchedule; SourceSystem; SourceAutoDeploy].

(** ** Execution states of the lease protocol *)
Definition ExecutionOffered : string := "offered".
Definition ExecutionAccepted : string := "accepted".
Definition ExecutionLeaseLost : string := "lease_lost".
Definition ExecutionCompleted : string := "completed".

Definition execution_states : list string :=
  [ExecutionOffered; ExecutionAccepted; ExecutionLeaseLost; ExecutionCompleted].

(** ** [type Record struct] *)
Record TaskRecord := MkRecord {
  rec_TaskID : string;
  rec_Type : string;
  rec_Source : string;
  rec_TriggeredBy : string;
  rec_ServiceName : string;
  rec_NodeID : string;
  rec_Status : string;
  rec_ParamsJSON : string;
  rec_LogPath : string;
  rec_RepoRevision : string;
  rec_ResultRevision : string;
  rec_AttemptOfTaskID : string;
  rec_CreatedAt : Time.time;
  rec_StartedAt : option Time.time;
  rec_FinishedAt : option Time.time;
  rec_ErrorSummary : string;
  rec_ExecutionID : string;
  rec_ExecutionState : string;
  rec_LeaseExpiresAt : option Time.time;
  rec_ExecutionAcceptedAt : option Time.time;
  rec_ExecutionHeartbeatAt : option Time.time;
  rec_DedupeKey : string;
}.

(** ** Step names and [type StepRecord struct] *)
Definition StepRender : string := "render".
Definition StepPull : string := "pull".
Definition StepBackup : string := "backup".
Definition StepComposeDown : string := "compose_down".
Definition StepComposeUp : string := "compose_up".
Definition StepTransfer : string := "transfer".
Definition StepRestore : string := "restore".
Definition StepDNSUpdate : string := "dns_update".
Definition StepCloudflareTunnelSync : string := "cloudflare_tunnel_sync".
Definition StepCaddySync : string := "caddy_sync".
Definition StepCaddyReload : string := "caddy_reload".
Definition StepImageCheck : string := "image_check".
Definition StepInit : string := "init".
Definition StepPrune : string := "prune".
Definition StepAwaitingConfirmation : string := "awaiting_confirmation".
Definition StepPersistRepo : string := "persist_repo".
Definition StepFinalize : string := "finalize".
Definition StepDockerStart : string := "docker_start".
Definition StepDockerStop : string := "docker_stop".
Definition StepDockerRestart : string := "docker_restart".
Definition StepDockerRemove : string := "docker_remove".

Record StepRecord := MkStepRecord {
  step_TaskID : string;
  step_StepName : string;
  step_Status : string;
  step_StartedAt : option Time.time;
  step_FinishedAt : option Time.time;
}.

(** ** [IsControllerOwnedType], [RequiresOnlineNode] *)
Definition IsControllerOwnedType (taskType : string) : bool :=
  bool_decide (taskType ∈ [TypeDNSUpdate; TypeCloudflareTunnelSync; TypeMigrate;
                           TypeMigrateRollback]).

Definition RequiresOnlineNode (taskType : string) : bool :=
  negb (IsControllerOwnedType taskType).

(** The statuses the queries of the store call active, and [isTerminalStatus]
    of the store (src/internal/platform/store/tasks.go). *)
Definition active_statuses : list string :=
  [StatusPending; StatusRunning; StatusAwaitingConfirmation].
Definition terminal_statuses : list string :=
  [StatusSucceeded; StatusFailed; StatusCancelled].

Definition isTerminalStatus (status : string) : bool :=
  bool_decide (status = StatusSucceeded ∨ status = StatusFailed ∨ status = StatusCancelled).

(** ** Lemmas *)
Lemma isTerminalStatus_spec s : isTerminalStatus s = true ↔ s ∈ terminal_statuses.
Proof. unfold isTerminalStatus, terminal_statuses. rewrite bool_decide_eq_true. set_solver. Qed.

(** Membership in one of the closed lists above is decided by computation,
    membership in a list of terms by search. *)
Ltac in_list := repeat first [apply list_elem_of_here | apply list_elem_of_further].
Ltac in_closed := apply (bool_decide_unpack _); vm_compute; exact I.

Lemma terminal_not_active s : s ∈ terminal_statuses → s ∉ active_statuses.
Proof.
  unfold terminal_statuses. intros Hs.
  repeat (apply elem_of_cons in Hs as [->|Hs]; [in_closed|]). by apply elem_of_nil in Hs.
Qed.

Lemma status_active_or_terminal s :
  s ∈ task_statuses ↔ s ∈ active_statuses ∨ s ∈ terminal_statuses.
Proof. unfold task_statuses, active_statuses, terminal_statuses. set_solver. Qed.

#[export] Hint Resolve terminal_not_active : composia.
