(* ===== verification/Schedule.v ===== *)
(** * Schedules: src/internal/core/schedule/schedule.go

    The cron library (github.com/robfig/cron/v3) is a parameter: its parser
    and its [Next].  [DueNow] and [WindowStart] are the minute windows in
    which the controller's scheduler runs; a schedule is due in a window when
    the window's first instant is one of its activation times. *)
From S2P Require Export GoStrings.
Local Open Scope Z_scope.

(** The cron library: [cron.Schedule], [parser.Parse] and [Schedule.Next]. *)
Class Cron := {
  cron_Schedule : Type;
  cron_Parse : string → result string cron_Schedule;
  cron_Next : cron_Schedule → Time.time → Time.time;
}.

Definition Disabled : string := "none".

Definition Normalize (spec : string) : string :=
  let spec := TrimSpace spec in
  if EqualFold spec Disabled then Disabled else spec.

Definition IsDisabled (spec : string) : bool := bool_decide (Normalize spec = Disabled).

Inductive ScheduleError : Type :=
| ErrScheduleRequired
| ErrDisabledCannotBeParsed
| ErrParseSchedule (spec err : string).

Section schedule.
Context `{Cron}.

Definition Parse (spec : string) : result ScheduleError cron_Schedule :=
  let spec := Normalize spec in
  if decide (spec = "") then Err ErrScheduleRequired
  else if decide (spec = Disabled) then Err ErrDisabledCannotBeParsed
  else match cron_Parse spec with
       | Ok parsed => Ok parsed
       | Err err => Err (ErrParseSchedule spec err)
       end.

Definition Validate (spec : string) : result ScheduleError () :=
  let spec := Normalize spec in
  if decide (spec = "" ∨ spec = Disabled) then Ok ()
  else result_bind (Parse spec) (λ _, Ok ()).

Definition WindowStart (now : Time.time) : Time.time := Time.Truncate now Time.Minute.

(** [None] is the nil schedule. *)
Definition DueNow (parsed : option cron_Schedule) (now : Time.time) : bool :=
  match parsed with
  | None => false
  | Some parsed =>
      let windowStart := Time.Truncate now Time.Minute in
      bool_decide (cron_Next parsed (windowStart - Time.Minute) = windowStart)
  end.
End schedule.

(** ** Lemmas *)
Lemma Normalize_idempotent spec : Normalize (Normalize spec) = Normalize spec.
Proof.
  unfold Normalize. destruct (EqualFold (TrimSpace spec) Disabled) eqn:He; [done|].
  by rewrite TrimSpace_idempotent, He.
Qed.

Lemma WindowStart_bounds now :
  WindowStart now ≤ now < WindowStart now + Time.Minute.
Proof.
  unfold WindowStart, Time.Truncate.
  pose proof (Z.mod_pos_bound (now - Time.zero) Time.Minute). unfold Time.Minute, Time.Second in *.
  lia.
Qed.

(** The window starts are exactly the whole minutes. *)
Lemma WindowStart_whole_minute now : WindowStart now `mod` Time.Minute = 0.
Proof.
  unfold WindowStart, Time.Truncate, Time.zero, Time.Minute, Time.Second.
  pose proof (Z.div_mod (now - -62135596800 * 1000000000) (60 * 1000000000)) as Hd.
  set (q := (now - _) `div` _) in *. set (m := (now - _) `mod` _) in *.
  replace (now - m) with ((q - 1035593280) * (60 * 1000000000)) by lia.
  apply Z.mod_mul. lia.
Qed.

Lemma WindowStart_unique now w :
  w `mod` Time.Minute = 0 → w ≤ now < w + Time.Minute → WindowStart now = w.
Proof.
  intros Hw Hb. pose proof (WindowStart_whole_minute now) as Hs.
  pose proof (WindowStart_bounds now) as Hb'.
  apply Z.mod_divide in Hw as [a ->]; [|done].
  apply Z.mod_divide in Hs as [b Hs]; [|done]. rewrite Hs in *.
  assert (a = b); [|by subst]. unfold Time.Minute, Time.Second in *. lia.
Qed.

Section schedule_spec.
Context `{Cron}.
(** The documentation of [Schedule.Next]: the next activation time, later
    than the given time, or the zero time if none is found. *)
Variable activation : cron_Schedule → Time.time → Prop.
Definition NextSpec : Prop := ∀ s t,
  (t < cron_Next s t ∧ activation s (cron_Next s t) ∧
     ∀ u, t < u < cron_Next s t → ¬ activation s u) ∨
  (cron_Next s t = Time.zero ∧ ∀ u, t < u ≤ t + Time.Minute → ¬ activation s u).
(** The five fields of the parser (minute to day of week) make every
    activation time a whole minute. *)
Definition WholeMinutes : Prop := ∀ s t, activation s t → t `mod` Time.Minute = 0.

Lemma DueNow_activation s now :
  NextSpec → WholeMinutes → Time.zero + Time.Minute ≤ now →
  DueNow (Some s) now = true ↔ activation s (WindowStart now).
Proof.
  intros Hnext Hmin Hnow. unfold DueNow. fold (WindowStart now).
  rewrite bool_decide_eq_true.
  assert (Hz : Time.zero < WindowStart now).
  { pose proof (WindowStart_bounds now). unfold Time.Minute, Time.Second in *. lia. }
  assert (Hp : 0 < Time.Minute) by done.
  destruct (Hnext s (WindowStart now - Time.Minute)) as [(Hlt & Hact & Hnone)|[Heq Hnone]].
  - split; [by intros <-|]. intros Ha.
    set (n := cron_Next s (WindowStart now - Time.Minute)) in *.
    destruct (Z.lt_total n (WindowStart now)) as [Hn|[Hn|Hn]]; [|done|].
    + exfalso. apply Hmin in Hact. pose proof (WindowStart_whole_minute now) as Hw.
      apply Z.mod_divide in Hact as [a Ha']; [|done].
      apply Z.mod_divide in Hw as [b Hb]; [|done].
      rewrite Ha', Hb in *. unfold Time.Minute, Time.Second in *. lia.
    + exfalso. apply (Hnone (WindowStart now)); [lia|done].
  - rewrite Heq. split; [lia|]. intros Ha. exfalso. apply (Hnone (WindowStart now)); [lia|done].
Qed.
End schedule_spec.
