(* ===== verification/StoreDB.v ===== *)
(** * The database of the controller: src/internal/platform/store (schema)

    The tables of the schema [migrate] builds (db.go), at its last version:
    a table is a finite map from the primary key to the other columns, a
    NULL is [None], a timestamp column is the number of seconds of its
    RFC 3339 text ([Time.rfc3339]).  The columns of [tasks] are grouped in
    those an INSERT alone writes ([TaskCore]), those of the execution lease
    ([TaskExec]) and the rest.  CHECK constraints, triggers, unique partial
    indexes and foreign keys are the predicates the inserts and updates of
    the other files are guarded by.

    The database has one connection ([SetMaxOpenConns(1)]), so a statement
    and a transaction run alone; a failed transaction is rolled back, so an
    operation that returns [Err] leaves the database as it was. *)
From S2P Require Export Sql Task.

(** ** Rows *)
Record NodeRow := MkNodeRow {
  nd_is_configured : bool;
  nd_is_online : bool;
  nd_last_heartbeat : option Z;
  nd_agent_version : option string;
  nd_docker_server_version : option string;
  nd_disk_total_bytes : option Z;
  nd_disk_free_bytes : option Z;
}.

Record ServiceRow := MkServiceRow {
  sv_is_declared : bool;
  sv_runtime_status : string;
  sv_last_task_id : option string;
  sv_updated_at : Z;
}.

Record InstanceRow := MkInstanceRow {
  si_is_declared : bool;
  si_runtime_status : string;
  si_last_task_id : option string;
  si_updated_at : Z;
  si_pending_deploy_revision : option string;
  si_consistency_json : option string;
}.

Record TaskCore := MkTaskCore {
  tc_type : string;
  tc_source : string;
  tc_triggered_by : option string;
  tc_service_name : option string;
  tc_node_id : option string;
  tc_log_path : option string;
  tc_repo_revision : option string;
  tc_result_revision : option string;
  tc_attempt_of_task_id : option string;
  tc_created_at : Z;
  tc_dedupe_key : option string;
}.

Record TaskExec := MkTaskExec {
  ex_execution_id : option string;
  ex_execution_state : option string;
  ex_lease_expires_at : option Z;
  ex_execution_accepted_at : option Z;
  ex_execution_heartbeat_at : option Z;
}.

Record TaskRow := MkTaskRow {
  tk_core : TaskCore;
  tk_status : string;
  tk_params_json : option string;
  tk_started_at : option Z;
  tk_finished_at : option Z;
  tk_error_summary : option string;
  tk_exec : TaskExec;
  tk_log_confirmed_seq : Z;
}.

Record StepRow := MkStepRow {
  ts_status : string;
  ts_started_at : option Z;
  ts_finished_at : option Z;
}.

Record OutboxRow := MkOutboxRow {
  ob_task_id : string;
  ob_event_type : string;
  ob_attempts : Z;
  ob_next_attempt_at : Z;
  ob_last_error : option string;
  ob_created_at : Z;
  ob_processed_at : option Z;
  ob_followups_completed_at : option Z;
  ob_notification_dispatched_at : option Z;
}.

Record BackupRow := MkBackupRow {
  bk_task_id : string;
  bk_service_name : string;
  bk_node_id : string;
  bk_data_name : string;
  bk_status : string;
  bk_started_at : string;
  bk_finished_at : option string;
  bk_artifact_ref : option string;
  bk_error_summary : option string;
}.

(** [service_instances], [tasks_steps] and [task_outbox] are keyed by the
    pair, the pair and the event id of their primary keys. *)
Record DB := MkDB {
  nodes : gmap string NodeRow;
  services : gmap string ServiceRow;
  service_instances : gmap (string * string) InstanceRow;
  tasks : gmap string TaskRow;
  task_steps : gmap (string * string) StepRow;
  task_outbox : gmap string OutboxRow;
  backups : gmap string BackupRow;
}.

Definition empty_db : DB := MkDB ∅ ∅ ∅ ∅ ∅ ∅ ∅.
#[export] Instance DB_inhabited : Inhabited DB := populate empty_db.

Definition set_nodes t db :=
  MkDB t (services db) (service_instances db) (tasks db) (task_steps db) (task_outbox db) (backups db).
Definition set_services t db :=
  MkDB (nodes db) t (service_instances db) (tasks db) (task_steps db) (task_outbox db) (backups db).
Definition set_service_instances t db :=
  MkDB (nodes db) (services db) t (tasks db) (task_steps db) (task_outbox db) (backups db).
Definition set_tasks t db :=
  MkDB (nodes db) (services db) (service_instances db) t (task_steps db) (task_outbox db) (backups db).
Definition set_task_steps t db :=
  MkDB (nodes db) (services db) (service_instances db) (tasks db) t (task_outbox db) (backups db).
Definition set_task_outbox t db :=
  MkDB (nodes db) (services db) (service_instances db) (tasks db) (task_steps db) t (backups db).
Definition set_backups t db :=
  MkDB (nodes db) (services db) (service_instances db) (tasks db) (task_steps db) (task_outbox db) t.

Lemma set_tasks_id db : set_tasks (tasks db) db = db.
Proof. by destruct db. Qed.

(** ** Service runtime states *)
Definition ServiceRuntimeRunning : string := "running".
Definition ServiceRuntimeStopped : string := "stopped".
Definition ServiceRuntimeError : string := "error".
Definition ServiceRuntimeUnknown : string := "unknown".

(** ** Errors *)
Inductive UniqueIndex : Type :=
| Pk_tasks_task_id
| Idx_tasks_active_service
| Idx_tasks_active_service_instance
| Idx_tasks_dedupe_key
| Pk_task_outbox_event_id.

Inductive Violation : Type :=
| RaisedByTrigger
| CheckFailed
| UniqueFailed (index : UniqueIndex)
| ForeignKeyFailed.

#[export] Instance UniqueIndex_eq_dec : EqDecision UniqueIndex.
Proof. solve_decision. Defined.
#[export] Instance Violation_eq_dec : EqDecision Violation.
Proof. solve_decision. Defined.

(** The sentinel and typed errors of the package; [ErrorText] is an
    [errors.New] or [fmt.Errorf] of its own, [SqlError] a wrapped error of the
    database. *)
Inductive StoreError : Type :=
| ErrNoPendingTask
| ErrTaskNotFound
| ErrTaskExecutionMismatch
| ErrTaskExecutionConflict
| ErrServiceNotFound
| ErrNoOutboxEvent
| ErrBackupNotFound
| ErrBackupResultConflict
| ActiveServiceTaskError (ServiceName : string)
| ActiveServiceInstanceTaskError (ServiceName NodeID : string)
| DuplicateTaskError (DedupeKey : string)
| ErrorText (message : string)
| SqlError (label : string) (violation : Violation).

#[export] Instance StoreError_eq_dec : EqDecision StoreError.
Proof. solve_decision. Defined.

(** What the model leaves to SQLite: [json_valid], and which violated unique
    index a failed INSERT reports when it violates several. *)
Class SQLite := {
  json_valid : string → bool;
  report_unique : list UniqueIndex → UniqueIndex;
  report_unique_in : ∀ l, l ≠ [] → report_unique l ∈ l;
}.

(** ** CHECK constraints of [tasks], also raised by its two validation
    triggers *)
Definition sqliteValidTaskTypes : list string :=
  ["deploy"; "stop"; "restart"; "update"; "backup"; "restore"; "migrate"; "migrate_rollback";
   "dns_update"; "cloudflare_tunnel_sync"; "caddy_sync"; "caddy_reload"; "image_check"; "prune";
   "rustic_init"; "rustic_forget"; "rustic_prune"; "docker_start"; "docker_stop";
   "docker_restart"; "docker_remove_container"; "docker_remove_network";
   "docker_remove_volume"; "docker_remove_image"].
Definition sqliteValidTaskSources : list string :=
  ["web"; "cli"; "others"; "schedule"; "system"; "auto_deploy"].
Definition sqliteValidTaskStatuses : list string :=
  ["pending"; "running"; "awaiting_confirmation"; "succeeded"; "failed"; "cancelled"].

Section checks.
Context `{SQLite}.
Definition params_ok (params : option string) : Prop :=
  match params with
  | None => True
  | Some p => json_valid p = true
  end.
#[export] Instance params_ok_dec p : Decision (params_ok p).
Proof. destruct p; simpl; apply _. Defined.

Definition task_checks (row : TaskRow) : Prop :=
  tc_type (tk_core row) ∈ sqliteValidTaskTypes ∧
  tc_source (tk_core row) ∈ sqliteValidTaskSources ∧
  tk_status row ∈ sqliteValidTaskStatuses ∧
  params_ok (tk_params_json row).
#[export] Instance task_checks_dec row : Decision (task_checks row).
Proof. unfold task_checks. apply _. Defined.
End checks.

(** ** Unique partial indexes of [tasks]

    The key an index has for a row, [None] when its WHERE clause leaves the
    row out. *)
Definition instance_index_types : list string :=
  ["deploy"; "update"; "stop"; "restart"; "backup"; "restore"; "dns_update"; "caddy_sync";
   "caddy_reload"; "image_check"].
Definition service_index_types : list string :=
  ["migrate"; "migrate_rollback"; "cloudflare_tunnel_sync"].

Definition active_service_instance_key (row : TaskRow) : option (string * string) :=
  match tc_service_name (tk_core row), tc_node_id (tk_core row) with
  | Some s, Some n =>
      if decide (tc_type (tk_core row) ∈ instance_index_types ∧ tk_status row ∈ active_statuses)
      then Some (s, n) else None
  | _, _ => None
  end.

Definition active_service_key (row : TaskRow) : option string :=
  match tc_service_name (tk_core row), tc_node_id (tk_core row) with
  | Some s, None =>
      if decide (tc_type (tk_core row) ∈ service_index_types ∧ tk_status row ∈ active_statuses)
      then Some s else None
  | _, _ => None
  end.

Definition dedupe_index_key (row : TaskRow) : option string := tc_dedupe_key (tk_core row).

(** Another row of the table has the key of [row] in the index. *)
Definition index_conflict {X} `{EqDecision X} (key : TaskRow → option X) (id : string)
    (row : TaskRow) (t : gmap string TaskRow) : Prop :=
  is_Some (key row) ∧ 0 < count_where (λ id' row', id' ≠ id ∧ key row' = key row) t.

(** The index is unique: two rows with the same key are the same row. *)
Definition index_unique {X} (key : TaskRow → option X) (t : gmap string TaskRow) : Prop :=
  ∀ id1 id2 r1 r2 k, t !! id1 = Some r1 → t !! id2 = Some r2 →
    key r1 = Some k → key r2 = Some k → id1 = id2.

(** ** Foreign keys of [tasks] *)
Definition task_foreign_keys (db : DB) (id : string) (core : TaskCore) : Prop :=
  (match tc_service_name core with Some s => is_Some (services db !! s) | None => True end) ∧
  (match tc_node_id core with Some n => is_Some (nodes db !! n) | None => True end) ∧
  (match tc_service_name core, tc_node_id core with
   | Some s, Some n => is_Some (service_instances db !! (s, n))
   | _, _ => True
   end) ∧
  (match tc_attempt_of_task_id core with
   | Some a => a = id ∨ is_Some (tasks db !! a)
   | None => True
   end).
#[export] Instance task_foreign_keys_dec db id core : Decision (task_foreign_keys db id core).
Proof.
  unfold task_foreign_keys.
  destruct (tc_service_name core), (tc_node_id core), (tc_attempt_of_task_id core); apply _.
Defined.

(** ** Lemmas *)
Section index.
Context {X : Type} `{EqDecision X} (key : TaskRow → option X).

Lemma index_conflict_spec id row t :
  index_conflict key id row t ↔
  ∃ k id' row', id' ≠ id ∧ t !! id' = Some row' ∧ key row = Some k ∧ key row' = Some k.
Proof.
  unfold index_conflict. rewrite count_where_pos. split.
  - intros ([k Hk] & id' & row' & Ht & Hne & Heq). exists k, id', row'.
    split_and!; [done..|congruence].
  - intros (k & id' & row' & ? & ? & ? & ?). split; [eauto|].
    exists id', row'. split; [done|]. split; [done|congruence].
Qed.

(** A row written without a conflict keeps the index unique. *)
Lemma index_unique_insert id row t :
  index_unique key t → ¬ index_conflict key id row t → index_unique key (<[id := row]> t).
Proof.
  intros Hu Hno id1 id2 r1 r2 k H1 H2 Hk1 Hk2.
  assert (Hside : ∀ id' r', id' ≠ id → t !! id' = Some r' → key row = Some k → key r' = Some k → False).
  { intros id' r' ????. apply Hno, index_conflict_spec. by exists k, id', r'. }
  apply lookup_insert_Some in H1 as [[<- <-]|[Hn1 H1]];
    apply lookup_insert_Some in H2 as [[<- <-]|[Hn2 H2]].
  - done.
  - exfalso. by eapply (Hside id2 r2).
  - exfalso. by eapply (Hside id1 r1).
  - by eapply Hu.
Qed.

(** A table whose rows only left the index keeps it unique. *)
Lemma index_unique_sub t t' :
  index_unique key t →
  (∀ id r' k, t' !! id = Some r' → key r' = Some k → ∃ r, t !! id = Some r ∧ key r = Some k) →
  index_unique key t'.
Proof.
  intros Hu Hsub id1 id2 r1 r2 k H1 H2 Hk1 Hk2.
  destruct (Hsub id1 r1 k H1 Hk1) as (s1 & ? & ?).
  destruct (Hsub id2 r2 k H2 Hk2) as (s2 & ? & ?). by eapply Hu.
Qed.
End index.

#[export] Instance index_conflict_dec {X} `{EqDecision X} (key : TaskRow → option X) id row t :
  Decision (index_conflict key id row t).
Proof. unfold index_conflict. apply _. Defined.

(** The index keys only read the immutable columns and the status. *)
Lemma active_service_instance_key_Some row s n :
  active_service_instance_key row = Some (s, n) ↔
  tc_service_name (tk_core row) = Some s ∧ tc_node_id (tk_core row) = Some n ∧
  tc_type (tk_core row) ∈ instance_index_types ∧ tk_status row ∈ active_statuses.
Proof.
  unfold active_service_instance_key.
  destruct (tc_service_name (tk_core row)), (tc_node_id (tk_core row)); try case_decide; naive_solver.
Qed.

Lemma active_service_key_Some row s :
  active_service_key row = Some s ↔
  tc_service_name (tk_core row) = Some s ∧ tc_node_id (tk_core row) = None ∧
  tc_type (tk_core row) ∈ service_index_types ∧ tk_status row ∈ active_statuses.
Proof.
  unfold active_service_key.
  destruct (tc_service_name (tk_core row)), (tc_node_id (tk_core row)); try case_decide; naive_solver.
Qed.
