(* ===== verification/StoreServices.v ===== *)
(** * Nodes, services and their instances: src/internal/platform/store/db.go

    The declared services of the repository and the nodes they run on, the
    runtime status of each instance, and the aggregate status of a service
    ([refreshServiceAggregateStatusTx]).  [time.Now()] is an argument. *)
From S2P Require Export StoreDB.

(** ** Nodes *)
Definition SyncConfiguredNodes (nodeIDs : list string) (db : DB) : DB :=
  let unconfigure r :=
    MkNodeRow false (nd_is_online r) (nd_last_heartbeat r) (nd_agent_version r)
      (nd_docker_server_version r) (nd_disk_total_bytes r) (nd_disk_free_bytes r) in
  let configure r :=
    MkNodeRow true (nd_is_online r) (nd_last_heartbeat r) (nd_agent_version r)
      (nd_docker_server_version r) (nd_disk_total_bytes r) (nd_disk_free_bytes r) in
  set_nodes
    (foldl (λ t nodeID, upsert nodeID (MkNodeRow true false None None None None None) configure t)
       (unconfigure <$> nodes db) nodeIDs) db.

Record NodeHeartbeat := MkNodeHeartbeat {
  hb_NodeID : string;
  hb_HeartbeatAt : Time.time;
  hb_AgentVersion : string;
  hb_DockerServerVersion : string;
  hb_DiskTotalBytes : Z;
  hb_DiskFreeBytes : Z;
}.

Definition RecordHeartbeat (h : NodeHeartbeat) (db : DB) : DB :=
  let row configured :=
    MkNodeRow configured true (Some (Time.rfc3339 (hb_HeartbeatAt h))) (Some (hb_AgentVersion h))
      (Some (hb_DockerServerVersion h)) (Some (hb_DiskTotalBytes h)) (Some (hb_DiskFreeBytes h)) in
  set_nodes (upsert (hb_NodeID h) (row true) (λ r, row (nd_is_configured r)) (nodes db)) db.

(** [last_heartbeat IS NULL OR last_heartbeat < ?] *)
Definition stale_heartbeat (cutoff : Time.time) (r : NodeRow) : bool :=
  match nd_last_heartbeat r with
  | None => true
  | Some h => bool_decide (h < Time.rfc3339 cutoff)%Z
  end.

Definition MarkOfflineNodesBefore (cutoff : Time.time) (db : DB) : DB :=
  let offline r :=
    MkNodeRow (nd_is_configured r) false (nd_last_heartbeat r) (nd_agent_version r)
      (nd_docker_server_version r) (nd_disk_total_bytes r) (nd_disk_free_bytes r) in
  set_nodes (update_where (λ _ r, stale_heartbeat cutoff r = true) offline (nodes db)).1 db.

Definition NodeCounts (db : DB) : nat * nat :=
  (count_where (λ _ r, nd_is_configured r = true) (nodes db),
   count_where (λ _ r, nd_is_configured r = true ∧ nd_is_online r = true) (nodes db)).

Definition ServiceCounts (db : DB) : nat * nat :=
  (count_where (λ _ r, sv_is_declared r = true) (services db),
   count_where (λ _ r, sv_is_declared r = true ∧ sv_runtime_status r = "running") (services db)).

(** ** The aggregate status of a service *)
Definition allStatusesEqual (statuses : list string) (expected : string) : bool :=
  match statuses with
  | [] => false
  | _ => forallb (λ status, bool_decide (status = expected)) statuses
  end.

Definition hasStatus (statuses : list string) (expected : string) : bool :=
  existsb (λ status, bool_decide (status = expected)) statuses.

Definition aggregate_status (statuses : list string) : string :=
  if allStatusesEqual statuses ServiceRuntimeRunning then ServiceRuntimeRunning
  else if allStatusesEqual statuses ServiceRuntimeStopped then ServiceRuntimeStopped
  else if hasStatus statuses ServiceRuntimeError then ServiceRuntimeError
  else ServiceRuntimeUnknown.

(** [SELECT runtime_status FROM service_instances WHERE service_name = ? AND
    is_declared = 1] *)
Definition declared_statuses (serviceName : string) (db : DB) : list string :=
  (λ kr, si_runtime_status kr.2) <$>
    map_to_list (rows_where (λ k r, k.1 = serviceName ∧ si_is_declared r = true)
                   (service_instances db)).

Definition sv_set_runtime (status : string) (r : ServiceRow) : ServiceRow :=
  MkServiceRow (sv_is_declared r) status (sv_last_task_id r) (sv_updated_at r).

Definition refreshServiceAggregateStatusTx (serviceName : string) (db : DB) : DB :=
  let aggregate := aggregate_status (declared_statuses serviceName db) in
  set_services (update_row serviceName (λ _, True) (sv_set_runtime aggregate) (services db)).1 db.

(** ** Declared services *)
Definition si_undeclare (r : InstanceRow) : InstanceRow :=
  MkInstanceRow false (si_runtime_status r) (si_last_task_id r) (si_updated_at r) None
    (si_consistency_json r).
Definition si_declare (updatedAt : Z) (r : InstanceRow) : InstanceRow :=
  MkInstanceRow true (si_runtime_status r) (si_last_task_id r) updatedAt
    (si_pending_deploy_revision r) (si_consistency_json r).
Definition sv_undeclare (r : ServiceRow) : ServiceRow :=
  MkServiceRow false (sv_runtime_status r) (sv_last_task_id r) (sv_updated_at r).
Definition sv_declare (updatedAt : Z) (r : ServiceRow) : ServiceRow :=
  MkServiceRow true (sv_runtime_status r) (sv_last_task_id r) updatedAt.

(** The body of the loop of [SyncDeclaredServices] over the services. *)
Definition sync_declared_service (updatedAt : Z) (db : DB) (entry : string * list string) : DB :=
  let '(serviceName, nodeIDs) := entry in
  let db := set_nodes
    (foldl (λ t nodeID, insert_ignore nodeID (MkNodeRow false false None None None None None) t)
       (nodes db) nodeIDs) db in
  let db := set_services
    (upsert serviceName (MkServiceRow true "unknown" None updatedAt) (sv_declare updatedAt)
       (services db)) db in
  let db := set_service_instances
    (foldl (λ t nodeID, upsert (serviceName, nodeID)
                          (MkInstanceRow true "unknown" None updatedAt None None)
                          (si_declare updatedAt) t)
       (service_instances db) nodeIDs) db in
  refreshServiceAggregateStatusTx serviceName db.

(** [services] lists the entries of the Go map in the order of the
    iteration. *)
Definition SyncDeclaredServices (now : Time.time) (decl : list (string * list string)) (db : DB)
    : DB :=
  let db := set_services (sv_undeclare <$> services db) db in
  let db := set_service_instances (si_undeclare <$> service_instances db) db in
  foldl (sync_declared_service (Time.rfc3339 now)) db decl.

(** ** Runtime status and pending deploys of an instance *)
Definition IsValidServiceRuntimeStatus (runtimeStatus : string) : bool :=
  bool_decide (runtimeStatus ∈ [ServiceRuntimeRunning; ServiceRuntimeStopped; ServiceRuntimeError;
                                ServiceRuntimeUnknown]).

Definition si_set_runtime (status : string) (updatedAt : Z) (r : InstanceRow) : InstanceRow :=
  MkInstanceRow (si_is_declared r) status (si_last_task_id r) updatedAt
    (si_pending_deploy_revision r) (si_consistency_json r).

Definition UpdateServiceInstanceRuntimeStatus (serviceName nodeID runtimeStatus : string)
    (updatedAt : Time.time) (db : DB) : result StoreError DB :=
  if decide (serviceName = "") then Err (ErrorText "service name is required")
  else if decide (nodeID = "") then Err (ErrorText "node id is required")
  else if decide (IsValidServiceRuntimeStatus runtimeStatus = false)
  then Err (ErrorText "invalid service runtime status")
  else
    let '(t, affected) := update_row (serviceName, nodeID) (λ _, True)
      (si_set_runtime runtimeStatus (Time.rfc3339 updatedAt)) (service_instances db) in
    if decide (affected = 0) then Err ErrServiceNotFound
    else Ok (refreshServiceAggregateStatusTx serviceName (set_service_instances t db)).

Definition si_set_pending (revision : option string) (updatedAt : Z) (r : InstanceRow)
    : InstanceRow :=
  MkInstanceRow (si_is_declared r) (si_runtime_status r) (si_last_task_id r) updatedAt revision
    (si_consistency_json r).

Definition SetServiceInstancePendingDeploy (serviceName nodeID revision : string)
    (now : Time.time) (db : DB) : DB :=
  set_service_instances
    (update_row (serviceName, nodeID) (λ _, True)
       (si_set_pending (Some revision) (Time.rfc3339 now)) (service_instances db)).1 db.

Definition SetServicePendingDeploy (serviceName : string) (nodeIDs : list string)
    (revision : string) (now : Time.time) (db : DB) : DB :=
  foldl (λ db nodeID, SetServiceInstancePendingDeploy serviceName nodeID revision now db) db nodeIDs.

Definition ClearServiceInstancePendingDeploy (serviceName nodeID : string) (now : Time.time)
    (db : DB) : DB :=
  set_service_instances
    (update_row (serviceName, nodeID) (λ _, True)
       (si_set_pending None (Time.rfc3339 now)) (service_instances db)).1 db.

Definition ClearServicePendingDeploy (serviceName : string) (now : Time.time) (db : DB) : DB :=
  set_service_instances
    (update_where (λ k _, k.1 = serviceName) (si_set_pending None (Time.rfc3339 now))
       (service_instances db)).1 db.

(** ** Snapshots *)
Record ServiceSnapshot := MkServiceSnapshot {
  ss_Name : string;
  ss_IsDeclared : bool;
  ss_RuntimeStatus : string;
  ss_UpdatedAt : Z;
  ss_InstanceCount : nat;
  ss_RunningCount : nat;
  ss_TargetNodeCount : nat;
}.

Definition service_snapshot (serviceName : string) (row : ServiceRow) (db : DB) : ServiceSnapshot :=
  MkServiceSnapshot serviceName (sv_is_declared row) (sv_runtime_status row) (sv_updated_at row)
    (count_where (λ k _, k.1 = serviceName) (service_instances db))
    (count_where (λ k r, k.1 = serviceName ∧ si_runtime_status r = ServiceRuntimeRunning)
       (service_instances db))
    (count_where (λ k r, k.1 = serviceName ∧ si_is_declared r = true) (service_instances db)).

Definition GetServiceSnapshot (serviceName : string) (db : DB) : result StoreError ServiceSnapshot :=
  match services db !! serviceName with
  | None => Err ErrServiceNotFound
  | Some row => Ok (service_snapshot serviceName row db)
  end.

(** [offset := (page - 1) * limit] on uint32, with the two defaults. *)
Definition page_bounds (page limit : Z) : Z * Z :=
  let limit := if decide (limit = 0)%Z then 100%Z else limit in
  let page := if decide (page = 0)%Z then 1%Z else page in
  ((((page - 1) * limit) `mod` 2 ^ 32)%Z, limit).

(** [LIMIT ? OFFSET ?] *)
Definition page_of {A} (bounds : Z * Z) (l : list A) : list A :=
  take (Z.to_nat bounds.2) (drop (Z.to_nat bounds.1) l).

Definition ListDeclaredServices (runtimeStatusFilter : string) (page limit : Z) (db : DB)
    : list ServiceSnapshot * nat :=
  let rows := rows_where (λ _ r, sv_is_declared r = true ∧
      (runtimeStatusFilter = "" ∨ sv_runtime_status r = runtimeStatusFilter)) (services db) in
  let sorted := merge_sort (λ a b, String.le a.1 b.1) (map_to_list rows) in
  ((λ kr, service_snapshot kr.1 kr.2 db) <$> page_of (page_bounds page limit) sorted, size rows).

Definition ListServiceInstances (serviceName : string) (db : DB) : list (string * InstanceRow) :=
  merge_sort (λ a b, String.le a.1 b.1)
    ((λ kr, (kr.1.2, kr.2)) <$>
       map_to_list (rows_where (λ k _, k.1 = serviceName) (service_instances db))).

Definition GetServiceInstanceSnapshot (serviceName nodeID : string) (db : DB)
    : result StoreError InstanceRow :=
  match service_instances db !! (serviceName, nodeID) with
  | None => Err ErrServiceNotFound
  | Some row => Ok row
  end.

Definition ListNodeSnapshots (db : DB) : list (string * NodeRow) :=
  merge_sort (λ a b, String.le a.1 b.1) (map_to_list (nodes db)).

Definition GetNodeSnapshot (nodeID : string) (db : DB) : result StoreError NodeRow :=
  match nodes db !! nodeID with
  | None => Err (ErrorText "node not found")
  | Some row => Ok row
  end.

(** ** The aggregate is a function of the set of statuses *)
Lemma allStatusesEqual_spec l e :
  allStatusesEqual l e = true ↔ l ≠ [] ∧ ∀ s, s ∈ l → s = e.
Proof.
  destruct l as [|x l]; [by split; [|intros [? _]]|].
  unfold allStatusesEqual. rewrite forallb_forall. split.
  - intros Hall. split; [done|]. intros s Hs%list_elem_of_In.
    by apply Hall, bool_decide_eq_true in Hs.
  - intros [_ Hall] s Hs%list_elem_of_In. apply bool_decide_eq_true. auto.
Qed.

Lemma hasStatus_spec l e : hasStatus l e = true ↔ e ∈ l.
Proof.
  unfold hasStatus. rewrite existsb_exists. split.
  - intros (x & Hx%list_elem_of_In & ->%bool_decide_eq_true). done.
  - intros He. exists e. rewrite <-list_elem_of_In, bool_decide_eq_true. done.
Qed.

Lemma aggregate_status_ext l1 l2 :
  (∀ s, s ∈ l1 ↔ s ∈ l2) → aggregate_status l1 = aggregate_status l2.
Proof.
  intros Hext.
  assert (Hnil : l1 ≠ [] ↔ l2 ≠ []).
  { split; intros Hne ->; apply Hne; apply elem_of_nil_inv; intros x Hx;
      by apply Hext, elem_of_nil in Hx. }
  assert (Hall : ∀ e, allStatusesEqual l1 e = allStatusesEqual l2 e).
  { intros e. apply eq_true_iff_eq. rewrite !allStatusesEqual_spec, Hnil. by setoid_rewrite Hext. }
  assert (Hhas : ∀ e, hasStatus l1 e = hasStatus l2 e).
  { intros e. apply eq_true_iff_eq. by rewrite !hasStatus_spec, Hext. }
  unfold aggregate_status. by rewrite !Hall, Hhas.
Qed.

Lemma elem_of_declared_statuses x s db :
  x ∈ declared_statuses s db ↔
  ∃ n r, service_instances db !! (s, n) = Some r ∧ si_is_declared r = true ∧
         si_runtime_status r = x.
Proof.
  unfold declared_statuses. rewrite list_elem_of_fmap. split.
  - intros ([[s' n] r] & -> & Hin). apply elem_of_map_to_list, lookup_rows_where in Hin as (? & ? & ?).
    simpl in *. subst. eauto.
  - intros (n & r & ? & ? & <-). exists ((s, n), r). split; [done|].
    by apply elem_of_map_to_list, lookup_rows_where.
Qed.

(** What the aggregate reads of an instance. *)
Definition declared_view (r : InstanceRow) : option string :=
  if si_is_declared r then Some (si_runtime_status r) else None.

Lemma elem_of_declared_view x s db :
  x ∈ declared_statuses s db ↔ ∃ n, service_instances db !! (s, n) ≫= declared_view = Some x.
Proof.
  rewrite elem_of_declared_statuses. unfold declared_view. split.
  - intros (n & r & Hr & Hd & <-). exists n. rewrite Hr. simpl. by rewrite Hd.
  - intros (n & Hn). destruct (service_instances db !! (s, n)) as [r|] eqn:Hr; [|done].
    simpl in Hn. destruct (si_is_declared r) eqn:Hd; [|done]. simplify_eq. eauto.
Qed.

Lemma aggregate_view_ext s db1 db2 :
  (∀ n, service_instances db1 !! (s, n) ≫= declared_view =
        service_instances db2 !! (s, n) ≫= declared_view) →
  aggregate_status (declared_statuses s db1) = aggregate_status (declared_statuses s db2).
Proof.
  intros Hv. apply aggregate_status_ext. intros x. rewrite !elem_of_declared_view. by setoid_rewrite Hv.
Qed.

(** ** The invariant of the aggregate status *)
Definition aggregate_ok (db : DB) : Prop :=
  ∀ s row, services db !! s = Some row → sv_is_declared row = true →
    sv_runtime_status row = aggregate_status (declared_statuses s db).

Lemma lookup_refresh s s' db :
  services (refreshServiceAggregateStatusTx s db) !! s' =
  if decide (s = s')
  then sv_set_runtime (aggregate_status (declared_statuses s db)) <$> services db !! s'
  else services db !! s'.
Proof.
  unfold refreshServiceAggregateStatusTx; simpl. unfold update_row.
  destruct (services db !! s) as [r|] eqn:E; simpl.
  - case_decide; subst; [by rewrite lookup_insert_eq, E|by rewrite lookup_insert_ne].
  - case_decide; subst; [by rewrite E|done].
Qed.

(** A change confined to the instances of [s], followed by a refresh of [s],
    keeps the aggregates right: the other services did not move. *)
Lemma aggregate_ok_refresh s db db' :
  aggregate_ok db →
  (∀ s', s' ≠ s → services db' !! s' = services db !! s') →
  (∀ s' n, s' ≠ s → service_instances db' !! (s', n) = service_instances db !! (s', n)) →
  aggregate_ok (refreshServiceAggregateStatusTx s db').
Proof.
  intros Hok Hsv Hsi s' row. rewrite lookup_refresh. case_decide as Hs; [subst|].
  - intros (r & ? & ->)%fmap_Some. done.
  - intros Hrow Hd. rewrite Hsv in Hrow by done. rewrite (Hok _ _ Hrow Hd).
    apply aggregate_view_ext. intros n. by rewrite Hsi.
Qed.

(** A change that leaves what the aggregates read. *)
Lemma aggregate_ok_same db db' :
  aggregate_ok db →
  (∀ s row', services db' !! s = Some row' → sv_is_declared row' = true →
     ∃ row, services db !! s = Some row ∧ sv_is_declared row = true ∧
            sv_runtime_status row' = sv_runtime_status row) →
  (∀ k, service_instances db' !! k ≫= declared_view = service_instances db !! k ≫= declared_view) →
  aggregate_ok db'.
Proof.
  intros Hok Hsv Hsi s row' Hrow' Hd'. destruct (Hsv _ _ Hrow' Hd') as (row & Hrow & Hd & ->).
  rewrite (Hok _ _ Hrow Hd). by apply aggregate_view_ext.
Qed.

Lemma UpdateServiceInstanceRuntimeStatus_aggregate s n status t db db' :
  aggregate_ok db → UpdateServiceInstanceRuntimeStatus s n status t db = Ok db' → aggregate_ok db'.
Proof.
  intros Hok Hrun. unfold UpdateServiceInstanceRuntimeStatus in Hrun.
  repeat (case_decide; [done|]).
  destruct (update_row _ _ _ _) as [tbl k] eqn:Hu. case_decide as Hk; [done|]. simplify_eq.
  destruct (update_row_affected _ _ _ _ _ _ Hu Hk) as (r & Hr & _ & ->).
  eapply aggregate_ok_refresh; [done|done|]. intros s' n' Hne. simpl.
  rewrite lookup_insert_ne; congruence.
Qed.

Lemma SetServiceInstancePendingDeploy_aggregate s n rev t db :
  aggregate_ok db → aggregate_ok (SetServiceInstancePendingDeploy s n rev t db).
Proof.
  intros Hok. eapply aggregate_ok_same; [done|naive_solver|]. intros k. simpl.
  destruct (update_row_cases (s, n) (λ _, True) (si_set_pending (Some rev) (Time.rfc3339 t))
    (service_instances db)) as [(r & Hr & _ & ->)|[_ ->]]; [|done]. simpl.
  destruct (decide ((s, n) = k)) as [<-|]; [by rewrite lookup_insert_eq, Hr|].
  by rewrite lookup_insert_ne.
Qed.

Lemma ClearServiceInstancePendingDeploy_aggregate s n t db :
  aggregate_ok db → aggregate_ok (ClearServiceInstancePendingDeploy s n t db).
Proof.
  intros Hok. eapply aggregate_ok_same; [done|naive_solver|]. intros k. simpl.
  destruct (update_row_cases (s, n) (λ _, True) (si_set_pending None (Time.rfc3339 t))
    (service_instances db)) as [(r & Hr & _ & ->)|[_ ->]]; [|done]. simpl.
  destruct (decide ((s, n) = k)) as [<-|]; [by rewrite lookup_insert_eq, Hr|].
  by rewrite lookup_insert_ne.
Qed.

Lemma ClearServicePendingDeploy_aggregate s t db :
  aggregate_ok db → aggregate_ok (ClearServicePendingDeploy s t db).
Proof.
  intros Hok. eapply aggregate_ok_same; [done|naive_solver|]. intros k.
  unfold ClearServicePendingDeploy.
  change (service_instances (set_service_instances ?x _)) with x. rewrite lookup_update_where.
  destruct (service_instances db !! k); [|done]. simpl. by case_decide.
Qed.

(** ** [SyncDeclaredServices] *)
Section folds.
Context {K : Type} `{Countable K} {R A : Type} (g : A → K) (new : R).

Lemma lookup_foldl_insert_ignore t (l : list A) j :
  foldl (λ t a, insert_ignore (g a) new t) t l !! j =
  match t !! j with
  | Some r => Some r
  | None => if decide (j ∈ g <$> l) then Some new else None
  end.
Proof.
  revert t. induction l as [|a l IH]; intros t; cbn [foldl].
  - rewrite decide_False by (apply not_elem_of_nil). by destruct (t !! j).
  - rewrite IH. destruct (decide (g a = j)) as [<-|Hne].
    + rewrite lookup_insert_ignore. destruct (t !! g a); [done|].
      rewrite decide_True; [done|]. rewrite fmap_cons. by left.
    + rewrite lookup_insert_ignore_ne by done. destruct (t !! j); [done|].
      apply decide_ext. rewrite fmap_cons, elem_of_cons. naive_solver.
Qed.

Lemma lookup_foldl_upsert (f : R → R) t (l : list A) j :
  (∀ r, f (f r) = f r) → f new = new →
  foldl (λ t a, upsert (g a) new f t) t l !! j =
  if decide (j ∈ g <$> l)
  then Some (match t !! j with Some r => f r | None => new end) else t !! j.
Proof.
  intros Hf Hn. revert t. induction l as [|a l IH]; intros t; cbn [foldl].
  - by rewrite decide_False by (apply not_elem_of_nil).
  - rewrite IH. destruct (decide (g a = j)) as [<-|Hne].
    + rewrite lookup_upsert. rewrite fmap_cons.
      rewrite (decide_True (P := g a ∈ g a :: (g <$> l))) by (by left).
      case_decide; [|done]. by destruct (t !! g a); rewrite ?Hf, ?Hn.
    + rewrite lookup_upsert_ne by done. apply decide_ext. rewrite fmap_cons, elem_of_cons. naive_solver.
Qed.
End folds.

(** The (service, node) pairs a declaration names. *)
Definition declared_pairs (decl : list (string * list string)) : list (string * string) :=
  entry ← decl; (λ n, (entry.1, n)) <$> entry.2.

Lemma elem_of_declared_pairs s n decl :
  (s, n) ∈ declared_pairs decl ↔ ∃ ns, (s, ns) ∈ decl ∧ n ∈ ns.
Proof.
  unfold declared_pairs. rewrite list_elem_of_bind. split.
  - intros ([s' ns] & (n' & ? & ?)%list_elem_of_fmap & ?). simplify_eq/=. eauto.
  - intros (ns & ? & ?). exists (s, ns). split; [apply list_elem_of_fmap; eauto|done].
Qed.

Definition new_instance (ts : Z) : InstanceRow := MkInstanceRow true "unknown" None ts None None.

Section sync.
Variable ts : Z.
Let step := sync_declared_service ts.

Lemma sync_loop_other db decl :
  tasks (foldl step db decl) = tasks db ∧ task_steps (foldl step db decl) = task_steps db ∧
  task_outbox (foldl step db decl) = task_outbox db ∧ backups (foldl step db decl) = backups db.
Proof.
  revert db. induction decl as [|[s ns] decl IH]; intros db; [done|].
  cbn [foldl]. by destruct (IH (step db (s, ns))) as (-> & -> & -> & ->).
Qed.

Lemma sync_loop_nodes db decl n :
  nodes (foldl step db decl) !! n =
  match nodes db !! n with
  | Some r => Some r
  | None => if decide (n ∈ (declared_pairs decl).*2)
            then Some (MkNodeRow false false None None None None None) else None
  end.
Proof.
  revert db. induction decl as [|[s ns] decl IH]; intros db; cbn [foldl].
  - rewrite decide_False by (apply not_elem_of_nil). by destruct (nodes db !! n).
  - rewrite IH. unfold step, sync_declared_service.
    change (nodes (refreshServiceAggregateStatusTx ?s ?db)) with (nodes db).
    cbn [nodes set_nodes set_services set_service_instances].
    rewrite (lookup_foldl_insert_ignore (λ n, n)). destruct (nodes db !! n); [done|].
    assert (Hcons : n ∈ (declared_pairs ((s, ns) :: decl)).*2 ↔
                    n ∈ (λ n, n) <$> ns ∨ n ∈ (declared_pairs decl).*2).
    { change (declared_pairs ((s, ns) :: decl))
        with (((λ n, (s, n)) <$> ns) ++ declared_pairs decl).
      by rewrite fmap_app, elem_of_app, <-list_fmap_compose. }
    do 3 case_decide; naive_solver.
Qed.

Lemma declared_pairs_cons s ns decl k :
  k ∈ declared_pairs ((s, ns) :: decl) ↔ k ∈ (λ n, (s, n)) <$> ns ∨ k ∈ declared_pairs decl.
Proof.
  change (declared_pairs ((s, ns) :: decl)) with (((λ n, (s, n)) <$> ns) ++ declared_pairs decl).
  apply elem_of_app.
Qed.

Lemma sync_step_instances db s ns k :
  service_instances (step db (s, ns)) !! k =
  if decide (k ∈ (λ n, (s, n)) <$> ns)
  then Some (match service_instances db !! k with
             | Some r => si_declare ts r
             | None => new_instance ts
             end)
  else service_instances db !! k.
Proof.
  unfold step, sync_declared_service.
  change (service_instances (refreshServiceAggregateStatusTx ?s ?db)) with (service_instances db).
  cbn [service_instances set_nodes set_services set_service_instances].
  by rewrite (lookup_foldl_upsert (λ n, (s, n)) (new_instance ts) (si_declare ts)).
Qed.

Lemma sync_loop_instances db decl k :
  service_instances (foldl step db decl) !! k =
  if decide (k ∈ declared_pairs decl)
  then Some (match service_instances db !! k with
             | Some r => si_declare ts r
             | None => new_instance ts
             end)
  else service_instances db !! k.
Proof.
  revert db. induction decl as [|[s ns] decl IH]; intros db; cbn [foldl].
  - by rewrite decide_False by (apply not_elem_of_nil).
  - rewrite IH, sync_step_instances. pose proof (declared_pairs_cons s ns decl k).
    do 3 case_decide; try naive_solver; by destruct (service_instances db !! k).
Qed.

Lemma sync_step_services db s ns s' :
  services (step db (s, ns)) !! s' =
  if decide (s = s')
  then Some (MkServiceRow true (aggregate_status (declared_statuses s (step db (s, ns))))
               (services db !! s ≫= sv_last_task_id) ts)
  else services db !! s'.
Proof.
  unfold step, sync_declared_service. rewrite lookup_refresh.
  cbn [services set_nodes set_services set_service_instances].
  case_decide; [subst|by rewrite lookup_upsert_ne]. rewrite lookup_upsert. simpl.
  unfold sv_set_runtime. f_equal. by destruct (services db !! s').
Qed.

Lemma sync_loop_services db decl s :
  NoDup decl.*1 →
  services (foldl step db decl) !! s =
  if decide (s ∈ decl.*1)
  then Some (MkServiceRow true (aggregate_status (declared_statuses s (foldl step db decl)))
               (services db !! s ≫= sv_last_task_id) ts)
  else services db !! s.
Proof.
  revert db. induction decl as [|[s0 ns] decl IH]; intros db Hnd.
  - by rewrite decide_False by (apply not_elem_of_nil).
  - cbn [foldl]. rewrite fmap_cons in *. apply NoDup_cons in Hnd as [Hnot Hnd].
    rewrite IH by done. rewrite sync_step_services. cbn [fst] in *.
    destruct (decide (s0 = s)) as [<-|Hne].
    + rewrite decide_False by done. rewrite decide_True by (by left).
      f_equal. f_equal. apply aggregate_view_ext. intros n. rewrite sync_loop_instances.
      rewrite decide_False; [done|]. rewrite elem_of_declared_pairs. intros (ns' & Hin & _).
      apply Hnot, list_elem_of_fmap. by exists (s0, ns').
    + destruct (decide (s ∈ decl.*1)) as [Hin|Hin].
      * by rewrite decide_True by (by right).
      * rewrite decide_False; [done|]. by rewrite elem_of_cons; intros [?|?].
Qed.
End sync.

Lemma SyncDeclaredServices_other now decl db :
  let db' := SyncDeclaredServices now decl db in
  tasks db' = tasks db ∧ task_steps db' = task_steps db ∧ task_outbox db' = task_outbox db ∧
  backups db' = backups db.
Proof.
  exact (sync_loop_other (Time.rfc3339 now)
    (set_service_instances (si_undeclare <$> service_instances db)
       (set_services (sv_undeclare <$> services db) db)) decl).
Qed.

Lemma DB_eq db1 db2 :
  nodes db1 = nodes db2 → services db1 = services db2 →
  service_instances db1 = service_instances db2 → tasks db1 = tasks db2 →
  task_steps db1 = task_steps db2 → task_outbox db1 = task_outbox db2 →
  backups db1 = backups db2 → db1 = db2.
Proof. destruct db1, db2; simpl. congruence. Qed.

(** After [SyncDeclaredServices] the declared instances are exactly the
    (service, node) pairs of the declaration and the declared services
    exactly its names: an instance that already existed keeps its runtime
    status and last task and loses its pending deploy, a new one is unknown,
    every other instance and service stays, undeclared, and the runtime
    status of a declared service is the aggregate of its declared instances. *)
Lemma SyncDeclaredServices_tables now decl db :
  NoDup decl.*1 →
  let db' := SyncDeclaredServices now decl db in
  let ts := Time.rfc3339 now in
  (∀ k, service_instances db' !! k =
     if decide (k ∈ declared_pairs decl)
     then Some (match service_instances db !! k with
                | Some r => si_declare ts (si_undeclare r)
                | None => new_instance ts
                end)
     else si_undeclare <$> service_instances db !! k) ∧
  (∀ s, services db' !! s =
     if decide (s ∈ decl.*1)
     then Some (MkServiceRow true (aggregate_status (declared_statuses s db'))
                  (services db !! s ≫= sv_last_task_id) ts)
     else sv_undeclare <$> services db !! s) ∧
  (∀ n, nodes db' !! n =
     match nodes db !! n with
     | Some r => Some r
     | None => if decide (n ∈ (declared_pairs decl).*2)
               then Some (MkNodeRow false false None None None None None) else None
     end) ∧
  tasks db' = tasks db ∧ task_steps db' = task_steps db ∧ task_outbox db' = task_outbox db ∧
  backups db' = backups db.
Proof.
  intros Hnd db' ts. subst db' ts. unfold SyncDeclaredServices.
  destruct (SyncDeclaredServices_other now decl db) as (Ht & Hst & Ho & Hb).
  split_and!; [| | |exact Ht|exact Hst|exact Ho|exact Hb].
  - intros k. rewrite sync_loop_instances. cbn [service_instances set_services set_service_instances].
    rewrite lookup_fmap. by destruct (service_instances db !! k).
  - intros s. rewrite sync_loop_services by done. cbn [services set_services set_service_instances].
    rewrite lookup_fmap. by destruct (services db !! s).
  - intros n. by rewrite sync_loop_nodes.
Qed.

Lemma SyncDeclaredServices_aggregate now decl db :
  NoDup decl.*1 → aggregate_ok (SyncDeclaredServices now decl db).
Proof.
  intros Hnd s row Hrow Hd.
  destruct (SyncDeclaredServices_tables now decl db Hnd) as (_ & Hsv & _).
  rewrite Hsv in Hrow. case_decide; [by simplify_eq|].
  apply fmap_Some in Hrow as (r & _ & ->). done.
Qed.

