(* ===== verification/StoreTasks.v ===== *)
(** * Task records: src/internal/platform/store/tasks.go

    One definition per operation of the store on tasks, on the state
    [DB] of [StoreDB].  What a call draws from its environment is an
    argument: [uuid.NewString()] and [time.Now()].  A call returns the new
    database, or an error and then the transaction is rolled back. *)
From S2P Require Export StoreServices.

(** ** Columns and records *)
Definition nullableString (value : string) : option string :=
  if decide (value = "") then None else Some value.
(** [COALESCE(column, '')] *)
Definition coalesce (column : option string) : string :=
  match column with Some s => s | None => "" end.
Definition nullableTime (value : option Time.time) : option Z := Time.rfc3339 <$> value.
Definition parseNullableRFC3339 (value : option Z) : option Time.time :=
  Time.parse_rfc3339 <$> value.

Definition no_exec : TaskExec := MkTaskExec None None None None None.

Definition prepareTaskRecord (uuid : string) (now : Time.time) (record : TaskRecord)
    : result StoreError TaskRecord :=
  if decide (rec_Type record = "") then Err (ErrorText "task type is required")
  else if decide (rec_Source record = "") then Err (ErrorText "task source is required")
  else Ok (MkRecord
    (if decide (rec_TaskID record = "") then uuid else rec_TaskID record)
    (rec_Type record) (rec_Source record) (rec_TriggeredBy record) (rec_ServiceName record)
    (rec_NodeID record)
    (if decide (rec_Status record = "") then StatusPending else rec_Status record)
    (rec_ParamsJSON record) (rec_LogPath record) (rec_RepoRevision record)
    (rec_ResultRevision record) (rec_AttemptOfTaskID record)
    (if decide (Time.IsZero (rec_CreatedAt record)) then now else rec_CreatedAt record)
    (rec_StartedAt record) (rec_FinishedAt record) (rec_ErrorSummary record)
    (rec_ExecutionID record) (rec_ExecutionState record) (rec_LeaseExpiresAt record)
    (rec_ExecutionAcceptedAt record) (rec_ExecutionHeartbeatAt record) (rec_DedupeKey record)).

(** The row the INSERT of [insertTaskRecord] writes: the columns it does not
    name are NULL, or their default. *)
Definition inserted_row (record : TaskRecord) : TaskRow :=
  MkTaskRow
    (MkTaskCore (rec_Type record) (rec_Source record) (nullableString (rec_TriggeredBy record))
       (nullableString (rec_ServiceName record)) (nullableString (rec_NodeID record))
       (nullableString (rec_LogPath record)) (nullableString (rec_RepoRevision record))
       (nullableString (rec_ResultRevision record))
       (nullableString (rec_AttemptOfTaskID record))
       (Time.rfc3339 (rec_CreatedAt record)) (nullableString (rec_DedupeKey record)))
    (rec_Status record) (nullableString (rec_ParamsJSON record))
    (nullableTime (rec_StartedAt record)) (nullableTime (rec_FinishedAt record))
    (nullableString (rec_ErrorSummary record)) no_exec 0.

Section tasks.
Context `{SQLite}.

(** The unique indexes a new row violates. *)
Definition insert_conflicts (id : string) (row : TaskRow) (t : gmap string TaskRow)
    : list UniqueIndex :=
  (if decide (is_Some (t !! id)) then [Pk_tasks_task_id] else []) ++
  (if decide (index_conflict active_service_key id row t)
   then [Idx_tasks_active_service] else []) ++
  (if decide (index_conflict active_service_instance_key id row t)
   then [Idx_tasks_active_service_instance] else []) ++
  (if decide (index_conflict dedupe_index_key id row t) then [Idx_tasks_dedupe_key] else []).

(** The violation an INSERT INTO tasks reports: the trigger that requires
    the service instance ([missing_instance]), the CHECKs (which the other trigger also raises),
    the unique indexes, the foreign keys at the end of the statement. *)
Definition missing_instance (db : DB) (core : TaskCore) : bool :=
  match tc_service_name core, tc_node_id core with
  | Some s, Some n => negb (bool_decide (is_Some (service_instances db !! (s, n))))
  | _, _ => false
  end.

Definition insert_violation (db : DB) (id : string) (row : TaskRow) : option Violation :=
  if missing_instance db (tk_core row) then Some RaisedByTrigger
  else if decide (¬ task_checks row) then Some CheckFailed
  else match insert_conflicts id row (tasks db) with
       | (_ :: _) as l => Some (UniqueFailed (report_unique l))
       | [] => if decide (¬ task_foreign_keys db id (tk_core row))
               then Some ForeignKeyFailed else None
       end.

Definition isSQLiteUniqueConstraintError (v : Violation) : bool :=
  match v with
  | UniqueFailed Pk_tasks_task_id => false
  | UniqueFailed _ => true
  | _ => false
  end.

Definition insert_error (record : TaskRecord) (v : Violation) : StoreError :=
  if decide (rec_DedupeKey record ≠ "" ∧ v = UniqueFailed Idx_tasks_dedupe_key)
  then DuplicateTaskError (rec_DedupeKey record)
  else if isSQLiteUniqueConstraintError v
  then if decide (rec_ServiceName record ≠ "" ∧ rec_NodeID record ≠ "")
       then ActiveServiceInstanceTaskError (rec_ServiceName record) (rec_NodeID record)
       else if decide (rec_ServiceName record ≠ "")
       then ActiveServiceTaskError (rec_ServiceName record)
       else SqlError "create task" v
  else SqlError "create task" v.

Definition insertTaskRecord (db : DB) (record : TaskRecord) : result StoreError DB :=
  match insert_violation db (rec_TaskID record) (inserted_row record) with
  | Some v => Err (insert_error record v)
  | None => Ok (set_tasks (<[rec_TaskID record := inserted_row record]> (tasks db)) db)
  end.

(** ** Creation *)
Definition CreateTask (uuid : string) (now : Time.time) (record : TaskRecord) (db : DB)
    : result StoreError (DB * TaskRecord) :=
  result_bind (prepareTaskRecord uuid now record) (λ prepared,
  result_bind (insertTaskRecord db prepared) (λ db, Ok (db, prepared))).

Definition hasActiveServiceTask (serviceName : string) (db : DB) : bool :=
  bool_decide (0 < count_where
    (λ _ r, tc_service_name (tk_core r) = Some serviceName ∧ tk_status r ∈ active_statuses)
    (tasks db)).

Definition hasActiveServiceInstanceTask (serviceName nodeID : string) (db : DB) : bool :=
  bool_decide (0 < count_where
    (λ _ r, tc_service_name (tk_core r) = Some serviceName ∧
            tc_node_id (tk_core r) = Some nodeID ∧ tk_status r ∈ active_statuses)
    (tasks db)).

Record ServiceInstanceTarget := MkServiceInstanceTarget {
  sit_ServiceName : string;
  sit_NodeID : string;
}.

Record TaskAdmissionConstraints := MkTaskAdmissionConstraints {
  RequireInactiveService : bool;
  RequireInactiveServiceInstances : list ServiceInstanceTarget;
  EnsureServiceInstances : list ServiceInstanceTarget;
}.

Definition check_target (target : ServiceInstanceTarget) : result StoreError () :=
  if decide (sit_ServiceName target = "") then Err (ErrorText "service_name is required")
  else if decide (sit_NodeID target = "") then Err (ErrorText "node_id is required")
  else Ok ().

(** The loop body of [ensureServiceInstancesTx]; an INSERT that is not
    skipped by ON CONFLICT must satisfy the foreign keys. *)
Definition ensure_instance (updatedAt : Z) (db : DB) (target : ServiceInstanceTarget)
    : result StoreError DB :=
  let key := (sit_ServiceName target, sit_NodeID target) in
  match service_instances db !! key with
  | Some _ => Ok db
  | None =>
      if decide (is_Some (services db !! sit_ServiceName target) ∧
                 is_Some (nodes db !! sit_NodeID target))
      then Ok (set_service_instances
             (<[key := MkInstanceRow false ServiceRuntimeUnknown None updatedAt None None]>
                (service_instances db)) db)
      else Err (SqlError "ensure service instance" ForeignKeyFailed)
  end.

Definition ensureServiceInstancesTx (now : Time.time) (targets : list ServiceInstanceTarget)
    (db : DB) : result StoreError DB :=
  for_each (ensure_instance (Time.rfc3339 now)) db targets.

(** The loop body over [RequireInactiveServiceInstances]. *)
Definition require_inactive_instance (db : DB) (target : ServiceInstanceTarget)
    : result StoreError DB :=
  result_bind (check_target target) (λ _,
  if hasActiveServiceInstanceTask (sit_ServiceName target) (sit_NodeID target) db
  then Err (ActiveServiceInstanceTaskError (sit_ServiceName target) (sit_NodeID target))
  else Ok db).

Definition CreateTaskWithConstraints (uuid : string) (now : Time.time) (record : TaskRecord)
    (constraints : TaskAdmissionConstraints) (db : DB) : result StoreError (DB * TaskRecord) :=
  result_bind (prepareTaskRecord uuid now record) (λ prepared,
  if decide (RequireInactiveService constraints = true ∧ rec_ServiceName prepared = "")
  then Err (ErrorText "service_name is required") else
  result_bind (for_each (λ _ target, check_target target) () (EnsureServiceInstances constraints))
    (λ _,
  result_bind (ensureServiceInstancesTx now (EnsureServiceInstances constraints) db) (λ db,
  if decide (RequireInactiveService constraints = true ∧
             hasActiveServiceTask (rec_ServiceName prepared) db = true)
  then Err (ActiveServiceTaskError (rec_ServiceName prepared)) else
  result_bind (for_each require_inactive_instance db (RequireInactiveServiceInstances constraints))
    (λ db,
  result_bind (insertTaskRecord db prepared) (λ db, Ok (db, prepared)))))).

Definition CreateTaskIfNoActiveServiceTask (uuid : string) (now : Time.time)
    (record : TaskRecord) (db : DB) : result StoreError (DB * TaskRecord) :=
  CreateTaskWithConstraints uuid now record (MkTaskAdmissionConstraints true [] []) db.

(** A record of a batch, with the uuid and the clock [prepareTaskRecord]
    draws for it. *)
Definition BatchEntry : Type := (TaskRecord * (string * Time.time))%type.

Definition instance_key (record : TaskRecord) : string * string :=
  (rec_ServiceName record, rec_NodeID record).

(** The first loop of the batch: the prepared records so far, whose keys
    are [seenKeys]. *)
Definition prepare_batch_entry (prepared : list TaskRecord) (entry : BatchEntry)
    : result StoreError (list TaskRecord) :=
  let '(record, (uuid, now)) := entry in
  if decide (rec_ServiceName record = "") then Err (ErrorText "service_name is required")
  else if decide (rec_NodeID record = "") then Err (ErrorText "node_id is required")
  else result_bind (prepareTaskRecord uuid now record) (λ preparedRecord,
    if decide (instance_key preparedRecord ∈ instance_key <$> prepared)
    then Err (ErrorText "duplicate service instance task")
    else Ok (prepared ++ [preparedRecord])).

Definition CreateTasksIfNoActiveServiceInstanceTasks (records : list BatchEntry) (db : DB)
    : result StoreError (DB * list TaskRecord) :=
  if decide (records = []) then Err (ErrorText "at least one task record is required") else
  result_bind (for_each prepare_batch_entry [] records) (λ prepared,
  result_bind (for_each (λ db (key : string * string),
      if hasActiveServiceInstanceTask key.1 key.2 db
      then Err (ActiveServiceInstanceTaskError key.1 key.2) else Ok db) db
      (instance_key <$> prepared)) (λ db,
  result_bind (for_each insertTaskRecord db prepared) (λ db, Ok (db, prepared)))).

(** [records[0]]: [None] would be the index panic. *)
Definition CreateTaskIfNoActiveServiceInstanceTask (uuid : string) (now : Time.time)
    (record : TaskRecord) (db : DB) : result StoreError (DB * option TaskRecord) :=
  result_bind (CreateTasksIfNoActiveServiceInstanceTasks [(record, (uuid, now))] db)
    (λ res, Ok (res.1, head res.2)).
End tasks.

(** ** Row updates *)
Definition coalesce_time (column : option Z) (value : Z) : option Z :=
  match column with Some t => Some t | None => Some value end.

Definition tk_set_status_start (status : string) (started : option Z) (exec : TaskExec)
    (r : TaskRow) : TaskRow :=
  MkTaskRow (tk_core r) status (tk_params_json r) started (tk_finished_at r)
    (tk_error_summary r) exec (tk_log_confirmed_seq r).
Definition tk_set_exec (exec : TaskExec) (r : TaskRow) : TaskRow :=
  tk_set_status_start (tk_status r) (tk_started_at r) exec r.
Definition tk_set_end (status : string) (finished : option Z) (summary : option string)
    (exec : TaskExec) (r : TaskRow) : TaskRow :=
  MkTaskRow (tk_core r) status (tk_params_json r) (tk_started_at r) finished summary exec
    (tk_log_confirmed_seq r).
Definition tk_set_params (params : option string) (r : TaskRow) : TaskRow :=
  MkTaskRow (tk_core r) (tk_status r) params (tk_started_at r) (tk_finished_at r)
    (tk_error_summary r) (tk_exec r) (tk_log_confirmed_seq r).
Definition tk_set_log_seq (seq : Z) (r : TaskRow) : TaskRow :=
  MkTaskRow (tk_core r) (tk_status r) (tk_params_json r) (tk_started_at r) (tk_finished_at r)
    (tk_error_summary r) (tk_exec r) seq.

(** ** Claiming *)
(** [ORDER BY created_at ASC, task_id ASC] *)
Definition claim_key (id : string) (r : TaskRow) : Z * string := (tc_created_at (tk_core r), id).

(** The record the SELECT of a claim scans: the columns it does not read keep
    their zero value. *)
Definition scanPendingTaskRecord (id : string) (r : TaskRow) : TaskRecord :=
  let c := tk_core r in
  MkRecord id (tc_type c) (tc_source c) (coalesce (tc_triggered_by c))
    (coalesce (tc_service_name c)) (coalesce (tc_node_id c)) (tk_status r)
    (coalesce (tk_params_json r)) (coalesce (tc_log_path c)) (coalesce (tc_repo_revision c))
    (coalesce (tc_result_revision c)) (coalesce (tc_attempt_of_task_id c))
    (Time.parse_rfc3339 (tc_created_at c)) None None "" "" "" None None None "".

(** [record.Status = running; record.StartedAt = &startedAt] and, for an
    offer, the execution fields. *)
Definition rec_set_running (startedAt : Time.time) (execID execState : string)
    (lease : option Time.time) (r : TaskRecord) : TaskRecord :=
  MkRecord (rec_TaskID r) (rec_Type r) (rec_Source r) (rec_TriggeredBy r) (rec_ServiceName r)
    (rec_NodeID r) StatusRunning (rec_ParamsJSON r) (rec_LogPath r) (rec_RepoRevision r)
    (rec_ResultRevision r) (rec_AttemptOfTaskID r) (rec_CreatedAt r) (Some startedAt)
    (rec_FinishedAt r) (rec_ErrorSummary r) execID execState lease
    (rec_ExecutionAcceptedAt r) (rec_ExecutionHeartbeatAt r) (rec_DedupeKey r).

Definition offer (startedAt leaseExpiresAt : Time.time) (executionID : string) (r : TaskRow)
    : TaskRow :=
  tk_set_status_start StatusRunning (coalesce_time (tk_started_at r) (Time.rfc3339 startedAt))
    (MkTaskExec (Some executionID) (Some ExecutionOffered) (Some (Time.rfc3339 leaseExpiresAt))
       None None) r.

Definition ClaimNextPendingTaskForNode (nodeID : string) (startedAt leaseExpiresAt : Time.time)
    (uuid : string) (db : DB) : result StoreError (DB * TaskRecord) :=
  match select_first (λ _ r, tk_status r = StatusPending ∧ tc_node_id (tk_core r) = Some nodeID ∧
                             tc_type (tk_core r) ∉ [TypeDNSUpdate; TypeMigrate])
          claim_key (tasks db) with
  | None => Err ErrNoPendingTask
  | Some (taskID, row) =>
      let record := scanPendingTaskRecord taskID row in
      let '(t, affected) := update_row taskID (λ r, tk_status r = StatusPending)
        (offer startedAt leaseExpiresAt uuid) (tasks db) in
      if decide (affected = 0) then Err ErrNoPendingTask
      else Ok (set_tasks t db,
               rec_set_running startedAt uuid ExecutionOffered (Some leaseExpiresAt) record)
  end.

Definition markTaskRunning (taskID : string) (startedAt : Time.time) (db : DB)
    : result StoreError DB :=
  let '(t, affected) := update_row taskID (λ r, tk_status r = StatusPending)
    (λ r, tk_set_status_start StatusRunning
            (coalesce_time (tk_started_at r) (Time.rfc3339 startedAt)) (tk_exec r) r) (tasks db) in
  if decide (affected = 0) then Err ErrNoPendingTask else Ok (set_tasks t db).

Definition claimPendingTaskByQuery (selected : option (string * TaskRow)) (startedAt : Time.time)
    (db : DB) : result StoreError (DB * TaskRecord) :=
  match selected with
  | None => Err ErrNoPendingTask
  | Some (taskID, row) =>
      let record := scanPendingTaskRecord taskID row in
      result_bind (markTaskRunning taskID startedAt db) (λ db,
      Ok (db, rec_set_running startedAt "" "" None record))
  end.

Definition ClaimNextPendingTask (startedAt : Time.time) (db : DB)
    : result StoreError (DB * TaskRecord) :=
  claimPendingTaskByQuery
    (select_first (λ _ r, tk_status r = StatusPending) claim_key (tasks db)) startedAt db.

Definition ClaimNextPendingTaskOfType (taskType : string) (startedAt : Time.time) (db : DB)
    : result StoreError (DB * TaskRecord) :=
  claimPendingTaskByQuery
    (select_first (λ _ r, tk_status r = StatusPending ∧ tc_type (tk_core r) = taskType)
       claim_key (tasks db)) startedAt db.

(** ** Completion *)
Definition sv_set_last_task (taskID : string) (updatedAt : Z) (r : ServiceRow) : ServiceRow :=
  MkServiceRow (sv_is_declared r) (sv_runtime_status r) (Some taskID) updatedAt.
Definition si_set_last_task (taskID : string) (updatedAt : Z) (r : InstanceRow) : InstanceRow :=
  MkInstanceRow (si_is_declared r) (si_runtime_status r) (Some taskID) updatedAt
    (si_pending_deploy_revision r) (si_consistency_json r).

Definition updateServiceFromCompletedTask (taskID : string) (finishedAt : Time.time) (db : DB)
    : result StoreError DB :=
  match tasks db !! taskID with
  | None => Err ErrTaskNotFound
  | Some row =>
      let serviceName := coalesce (tc_service_name (tk_core row)) in
      let nodeID := coalesce (tc_node_id (tk_core row)) in
      let ts := Time.rfc3339 finishedAt in
      if decide (serviceName = "") then Ok db else
      let db := set_services
        (update_row serviceName (λ _, True) (sv_set_last_task taskID ts) (services db)).1 db in
      if decide (nodeID = "") then Ok db else
      let db := set_service_instances
        (update_row (serviceName, nodeID) (λ _, True) (si_set_last_task taskID ts)
           (service_instances db)).1 db in
      Ok (refreshServiceAggregateStatusTx serviceName db)
  end.

(** The runtime status a finished agent task implies, [None] for no change. *)
Definition runtime_of_completion (taskType status : string) : option string :=
  if decide (taskType ∉ [TypeDeploy; TypeUpdate; TypeStop; TypeRestart]) then None
  else if decide (status = StatusFailed) then Some ServiceRuntimeError
  else if decide (status = StatusSucceeded)
  then Some (if decide (taskType = TypeStop) then ServiceRuntimeStopped else ServiceRuntimeRunning)
  else None.

Definition updateRuntimeFromAgentTask (taskID status : string) (updatedAt : Time.time) (db : DB)
    : result StoreError DB :=
  match tasks db !! taskID with
  | None => Err (ErrorText "sql: no rows in result set")
  | Some row =>
      let serviceName := coalesce (tc_service_name (tk_core row)) in
      let nodeID := coalesce (tc_node_id (tk_core row)) in
      if decide (serviceName = "" ∨ nodeID = "") then Ok db else
      match runtime_of_completion (tc_type (tk_core row)) status with
      | None => Ok db
      | Some runtimeStatus =>
          let db := set_service_instances
            (update_row (serviceName, nodeID) (λ _, True)
               (si_set_runtime runtimeStatus (Time.rfc3339 updatedAt)) (service_instances db)).1 db in
          Ok (refreshServiceAggregateStatusTx serviceName db)
      end
  end.

(** [UPDATE task_steps SET status = ?, finished_at = COALESCE(finished_at, ?)
    WHERE task_id = ? AND status = 'running'] *)
Definition finish_running_steps (taskID status : string) (finishedAt : Time.time) (db : DB) : DB :=
  set_task_steps
    (update_where (λ (k : string * string) r, k.1 = taskID ∧ ts_status r = StatusRunning)
       (λ r, MkStepRow status (ts_started_at r)
               (coalesce_time (ts_finished_at r) (Time.rfc3339 finishedAt)))
       (task_steps db)).1 db.

(** [INSERT INTO task_outbox ... ON CONFLICT(task_id, event_type) DO NOTHING] *)
Definition outbox_has (taskID eventType : string) (t : gmap string OutboxRow) : bool :=
  bool_decide (0 < count_where (λ _ r, ob_task_id r = taskID ∧ ob_event_type r = eventType) t).

Definition enqueue_outbox (uuid taskID eventType : string) (createdAt : Time.time) (db : DB)
    : result StoreError DB :=
  if outbox_has taskID eventType (task_outbox db) then Ok db
  else if decide (is_Some (task_outbox db !! uuid))
  then Err (SqlError "enqueue task outbox event" (UniqueFailed Pk_task_outbox_event_id))
  else if decide (¬ is_Some (tasks db !! taskID))
  then Err (SqlError "enqueue task outbox event" ForeignKeyFailed)
  else Ok (set_task_outbox
    (<[uuid := MkOutboxRow taskID eventType 0 (Time.rfc3339 createdAt) None
                 (Time.rfc3339 createdAt) None None None]> (task_outbox db)) db).

Section transitions.
Context `{SQLite}.

(** An UPDATE of [status] and [params_json] must satisfy the CHECKs, and
    must not bring the row into a unique index next to another one. *)
Definition update_violation (id : string) (row : TaskRow) (t : gmap string TaskRow)
    : option Violation :=
  if decide (¬ task_checks row) then Some CheckFailed
  else if decide (index_conflict active_service_key id row t)
  then Some (UniqueFailed Idx_tasks_active_service)
  else if decide (index_conflict active_service_instance_key id row t)
  then Some (UniqueFailed Idx_tasks_active_service_instance)
  else None.

Definition TransitionTaskStatus (taskID fromStatus toStatus errorSummary : string) (db : DB)
    : result StoreError DB :=
  if decide (taskID = "") then Err (ErrorText "task_id is required")
  else if decide (fromStatus = "" ∨ toStatus = "")
  then Err (ErrorText "from_status and to_status are required")
  else match tasks db !! taskID with
       | Some row =>
           if decide (tk_status row = fromStatus) then
             let row' := tk_set_end toStatus None (nullableString errorSummary) (tk_exec row) row in
             match update_violation taskID row' (tasks db) with
             | Some v => Err (SqlError "transition task" v)
             | None => Ok (set_tasks (<[taskID := row']> (tasks db)) db)
             end
           else Err ErrTaskNotFound
       | None => Err ErrTaskNotFound
       end.

Definition UpdateTaskParamsJSON (taskID paramsJSON : string) (db : DB) : result StoreError DB :=
  if decide (taskID = "") then Err (ErrorText "task_id is required")
  else match tasks db !! taskID with
       | Some row =>
           let row' := tk_set_params (nullableString paramsJSON) row in
           if decide (task_checks row')
           then Ok (set_tasks (<[taskID := row']> (tasks db)) db)
           else Err (SqlError "update params_json" CheckFailed)
       | None => Err ErrTaskNotFound
       end.
End transitions.

(** [CASE WHEN execution_id IS NULL THEN execution_state ELSE 'completed' END]
    and the lease cleared. *)
Definition complete_exec (e : TaskExec) : TaskExec :=
  MkTaskExec (ex_execution_id e)
    (match ex_execution_id e with None => ex_execution_state e | Some _ => Some ExecutionCompleted end)
    None (ex_execution_accepted_at e) (ex_execution_heartbeat_at e).

Definition CompleteTask (taskID status : string) (finishedAt : Time.time) (errorSummary : string)
    (db : DB) : result StoreError DB :=
  if decide (taskID = "") then Err (ErrorText "task_id is required")
  else if decide (status ≠ StatusSucceeded ∧ status ≠ StatusFailed ∧ status ≠ StatusCancelled)
  then Err (ErrorText "invalid terminal task status")
  else
    let '(t, affected) := update_row taskID (λ r, tk_status r ∈ active_statuses)
      (λ r, tk_set_end status (Some (Time.rfc3339 finishedAt)) (nullableString errorSummary)
              (complete_exec (tk_exec r)) r) (tasks db) in
    if decide (affected = 0)
    then Err (ErrorText "complete task: task is missing or already terminal")
    else
      result_bind (updateServiceFromCompletedTask taskID finishedAt (set_tasks t db)) (λ db,
      Ok (finish_running_steps taskID status finishedAt db)).

(** ** The execution lease *)
Definition ack_guard (executionID : string) (acceptedAt : Time.time) (r : TaskRow) : Prop :=
  ex_execution_id (tk_exec r) = Some executionID ∧ tk_status r = StatusRunning ∧
  (ex_execution_state (tk_exec r) = Some ExecutionAccepted ∨
   ex_execution_state (tk_exec r) = Some ExecutionOffered ∧
   (* lease_expires_at >= ?, unknown for a NULL *)
   match ex_lease_expires_at (tk_exec r) with
   | Some l => bool_decide (Time.rfc3339 acceptedAt ≤ l)%Z
   | None => false
   end = true).
#[export] Instance ack_guard_dec i t r : Decision (ack_guard i t r).
Proof. unfold ack_guard. apply _. Defined.

Definition AcknowledgeTaskExecution (taskID executionID : string)
    (acceptedAt leaseExpiresAt : Time.time) (db : DB) : result StoreError DB :=
  let '(t, affected) := update_row taskID (ack_guard executionID acceptedAt)
    (λ r, tk_set_exec (MkTaskExec (ex_execution_id (tk_exec r)) (Some ExecutionAccepted)
            (Some (Time.rfc3339 leaseExpiresAt))
            (coalesce_time (ex_execution_accepted_at (tk_exec r)) (Time.rfc3339 acceptedAt))
            (Some (Time.rfc3339 acceptedAt))) r) (tasks db) in
  if decide (affected = 0) then Err ErrTaskExecutionMismatch else Ok (set_tasks t db).

Definition RenewTaskExecution (taskID executionID : string)
    (renewedAt leaseExpiresAt : Time.time) (db : DB) : result StoreError DB :=
  let '(t, affected) := update_row taskID
    (λ r, ex_execution_id (tk_exec r) = Some executionID ∧ tk_status r = StatusRunning ∧
          (ex_execution_state (tk_exec r) = Some ExecutionAccepted ∨
           ex_execution_state (tk_exec r) = Some ExecutionLeaseLost))
    (λ r, tk_set_exec (MkTaskExec (ex_execution_id (tk_exec r)) (Some ExecutionAccepted)
            (Some (Time.rfc3339 leaseExpiresAt)) (ex_execution_accepted_at (tk_exec r))
            (Some (Time.rfc3339 renewedAt))) r) (tasks db) in
  if decide (affected = 0) then Err ErrTaskExecutionMismatch else Ok (set_tasks t db).

(** ** Reading a task *)
Definition getTaskRecord (taskID : string) (db : DB) : result StoreError TaskRecord :=
  match tasks db !! taskID with
  | None => Err ErrTaskNotFound
  | Some r =>
      let c := tk_core r in let e := tk_exec r in
      Ok (MkRecord taskID (tc_type c) (tc_source c) (coalesce (tc_triggered_by c))
        (coalesce (tc_service_name c)) (coalesce (tc_node_id c)) (tk_status r)
        (coalesce (tk_params_json r)) (coalesce (tc_log_path c)) (coalesce (tc_repo_revision c))
        (coalesce (tc_result_revision c)) (coalesce (tc_attempt_of_task_id c))
        (Time.parse_rfc3339 (tc_created_at c)) (parseNullableRFC3339 (tk_started_at r))
        (parseNullableRFC3339 (tk_finished_at r)) (coalesce (tk_error_summary r))
        (coalesce (ex_execution_id e)) (coalesce (ex_execution_state e))
        (parseNullableRFC3339 (ex_lease_expires_at e))
        (parseNullableRFC3339 (ex_execution_accepted_at e))
        (parseNullableRFC3339 (ex_execution_heartbeat_at e)) "")
  end.

(** [ORDER BY started_at ASC, step_name ASC]: NULL sorts first. *)
Definition step_leb (a b : string * StepRow) : bool :=
  match ts_started_at a.2, ts_started_at b.2 with
  | None, Some _ => true
  | Some _, None => false
  | None, None => String.leb a.1 b.1
  | Some x, Some y => lex_leb (x, a.1) (y, b.1)
  end.

Definition ListTaskSteps (taskID : string) (db : DB) : list StepRecord :=
  (λ kr, MkStepRecord taskID kr.1 (ts_status kr.2) (parseNullableRFC3339 (ts_started_at kr.2))
           (parseNullableRFC3339 (ts_finished_at kr.2))) <$>
    merge_sort (λ a b, step_leb a b = true)
      ((λ kr, (kr.1.2, kr.2)) <$>
         map_to_list (rows_where (λ k _, k.1 = taskID) (task_steps db))).

Record TaskDetail := MkTaskDetail {
  td_Record : TaskRecord;
  td_Steps : list StepRecord;
}.

Definition GetTask (taskID : string) (db : DB) : result StoreError TaskDetail :=
  result_bind (getTaskRecord taskID db) (λ record,
  Ok (MkTaskDetail record (ListTaskSteps taskID db))).

Definition ValidateTaskExecution (taskID executionID nodeID : string) (db : DB)
    : result StoreError TaskRecord :=
  result_bind (GetTask taskID db) (λ detail,
  let record := td_Record detail in
  if decide (executionID = "" ∧ rec_ExecutionID record = "" ∧ rec_NodeID record = nodeID ∧
             rec_Status record = StatusRunning)
  then Ok record
  else if decide (executionID = "" ∨ rec_ExecutionID record ≠ executionID ∨
                  rec_NodeID record ≠ nodeID ∨ rec_Status record ≠ StatusRunning)
  then Err ErrTaskExecutionMismatch
  else if decide (rec_ExecutionState record = ExecutionAccepted ∨
                  rec_ExecutionState record = ExecutionLeaseLost)
  then Ok record
  else Err ErrTaskExecutionMismatch).

(** The transaction of [CompleteTaskExecution] after its checks, shared with
    [FailLostTaskExecution]: service and runtime of the task, its running
    steps, and the outbox event. *)
Definition complete_followup (uuid taskID status : string) (finishedAt : Time.time) (db : DB)
    : result StoreError DB :=
  result_bind (updateServiceFromCompletedTask taskID finishedAt db) (λ db,
  result_bind (updateRuntimeFromAgentTask taskID status finishedAt db) (λ db,
  enqueue_outbox uuid taskID "task_completed" finishedAt
    (finish_running_steps taskID status finishedAt db))).

Definition end_execution (status : string) (finishedAt : Time.time) (summary : option string)
    (r : TaskRow) : TaskRow :=
  let e := tk_exec r in
  tk_set_end status (Some (Time.rfc3339 finishedAt)) summary
    (MkTaskExec (ex_execution_id e) (Some ExecutionCompleted) None (ex_execution_accepted_at e)
       (ex_execution_heartbeat_at e)) r.

Definition CompleteTaskExecution (uuid taskID executionID status : string)
    (finishedAt : Time.time) (errorSummary : string) (db : DB) : result StoreError DB :=
  if decide (status ≠ StatusSucceeded ∧ status ≠ StatusFailed ∧ status ≠ StatusCancelled)
  then Err (ErrorText "invalid terminal task status")
  else if decide (executionID = "") then
    result_bind (GetTask taskID db) (λ detail,
    if decide (rec_ExecutionID (td_Record detail) ≠ "") then Err ErrTaskExecutionMismatch
    else CompleteTask taskID status finishedAt errorSummary db)
  else match tasks db !! taskID with
       | None => Err ErrTaskNotFound
       | Some row =>
           let currentStatus := tk_status row in
           let currentExecutionID := coalesce (ex_execution_id (tk_exec row)) in
           let currentExecutionState := coalesce (ex_execution_state (tk_exec row)) in
           let currentErrorSummary := coalesce (tk_error_summary row) in
           if decide (currentExecutionID ≠ executionID ∨ executionID = "")
           then Err ErrTaskExecutionMismatch
           else if decide (currentStatus ≠ StatusRunning)
           then if decide (currentStatus = status ∧ currentErrorSummary = errorSummary)
                then Ok db else Err ErrTaskExecutionConflict
           else if decide (currentExecutionState ≠ ExecutionAccepted ∧
                           currentExecutionState ≠ ExecutionLeaseLost)
           then Err ErrTaskExecutionMismatch
           else
             let '(t, affected) := update_row taskID
               (λ r, ex_execution_id (tk_exec r) = Some executionID ∧ tk_status r = StatusRunning)
               (end_execution status finishedAt (nullableString errorSummary)) (tasks db) in
             if decide (affected = 0) then Err ErrTaskExecutionConflict
             else complete_followup uuid taskID status finishedAt (set_tasks t db)
       end.

(** [lease_expires_at < ?] *)
Definition lease_before (now : Time.time) (r : TaskRow) : bool :=
  match ex_lease_expires_at (tk_exec r) with
  | Some l => bool_decide (l < Time.rfc3339 now)%Z
  | None => false
  end.

Definition requeue (r : TaskRow) : TaskRow := tk_set_status_start StatusPending None no_exec r.
Definition lose_lease (r : TaskRow) : TaskRow :=
  let e := tk_exec r in
  tk_set_exec (MkTaskExec (ex_execution_id e) (Some ExecutionLeaseLost) (ex_lease_expires_at e)
    (ex_execution_accepted_at e) (ex_execution_heartbeat_at e)) r.

Definition SweepExpiredTaskExecutions (now : Time.time) (db : DB) : DB * (nat * nat) :=
  let '(t, requeued) := update_where (λ _ r,
    tk_status r = StatusRunning ∧ ex_execution_state (tk_exec r) = Some ExecutionOffered ∧
    lease_before now r = true) requeue (tasks db) in
  let '(t, lost) := update_where (λ _ r,
    tk_status r = StatusRunning ∧ ex_execution_state (tk_exec r) = Some ExecutionAccepted ∧
    lease_before now r = true) lose_lease t in
  (set_tasks t db, (requeued, lost)).

Definition FailLostTaskExecution (uuid taskID : string) (finishedAt : Time.time)
    (errorSummary : string) (db : DB) : result StoreError DB :=
  let '(t, affected) := update_row taskID
    (λ r, tk_status r = StatusRunning ∧ ex_execution_state (tk_exec r) = Some ExecutionLeaseLost)
    (end_execution StatusFailed finishedAt (Some errorSummary)) (tasks db) in
  if decide (affected = 0) then Err ErrTaskExecutionMismatch
  else complete_followup uuid taskID StatusFailed finishedAt (set_tasks t db).

(** ** Steps *)
Definition UpsertTaskStep (step : StepRecord) (db : DB) : result StoreError DB :=
  if decide (step_TaskID step = "") then Err (ErrorText "task step task_id is required")
  else if decide (step_StepName step = "") then Err (ErrorText "task step step_name is required")
  else if decide (step_Status step = "") then Err (ErrorText "task step status is required")
  else
    let key := (step_TaskID step, step_StepName step) in
    let row := MkStepRow (step_Status step) (nullableTime (step_StartedAt step))
                 (nullableTime (step_FinishedAt step)) in
    let write :=
      if decide (step_Status step ∉ sqliteValidTaskStatuses)
      then Err (SqlError "upsert task step" CheckFailed)
      else if decide (¬ is_Some (tasks db !! step_TaskID step))
      then Err (SqlError "upsert task step" ForeignKeyFailed)
      else Ok (set_task_steps (upsert key row (λ _, row) (task_steps db)) db) in
    match task_steps db !! key with
    | None => write
    | Some current =>
        if isTerminalStatus (ts_status current)
        then if decide (ts_status current = step_Status step) then Ok db
             else Err ErrTaskExecutionConflict
        else if decide (ts_status current = StatusRunning ∧ step_Status step = StatusPending)
        then Err ErrTaskExecutionConflict
        else write
    end.

(** ** The confirmed sequence number of the log: task_logs.go *)
Definition TaskLogConfirmedSeq (taskID : string) (db : DB) : result StoreError Z :=
  match tasks db !! taskID with
  | None => Err ErrTaskNotFound
  | Some r => Ok (tk_log_confirmed_seq r)
  end.

Definition SetTaskLogConfirmedSeq (taskID : string) (seq : Z) (db : DB) : result StoreError DB :=
  let '(t, affected) := update_row taskID (λ r, (tk_log_confirmed_seq r < seq)%Z)
    (tk_set_log_seq seq) (tasks db) in
  if decide (affected = 0) then
    result_bind (TaskLogConfirmedSeq taskID db) (λ current,
    if decide (current = seq) then Ok db
    else Err (ErrorText "task log confirmed seq is already set"))
  else Ok (set_tasks t db).

(** ** The outbox: task_outbox.go *)
Record TaskOutboxEvent := MkTaskOutboxEvent {
  ev_EventID : string;
  ev_TaskID : string;
  ev_EventType : string;
  ev_Attempts : Z;
  ev_FollowupsCompleted : bool;
  ev_NotificationDispatched : bool;
}.

Definition isSome {A} (o : option A) : bool := match o with Some _ => true | None => false end.

Definition NextTaskOutboxEvent (now : Time.time) (db : DB) : result StoreError TaskOutboxEvent :=
  match select_first (λ _ r, ob_processed_at r = None ∧
                             (ob_next_attempt_at r ≤ Time.rfc3339 now)%Z)
          (λ id r, (ob_created_at r, id)) (task_outbox db) with
  | None => Err ErrNoOutboxEvent
  | Some (id, r) =>
      Ok (MkTaskOutboxEvent id (ob_task_id r) (ob_event_type r) (ob_attempts r)
            (isSome (ob_followups_completed_at r)) (isSome (ob_notification_dispatched_at r)))
  end.

Definition EnqueueTaskOutboxEvent (uuid taskID eventType : string) (createdAt : Time.time)
    (db : DB) : result StoreError DB := enqueue_outbox uuid taskID eventType createdAt db.

Definition update_event (eventID : string) (f : OutboxRow → OutboxRow) (db : DB) : DB :=
  set_task_outbox (update_row eventID (λ _, True) f (task_outbox db)).1 db.

Definition CompleteTaskOutboxFollowups (eventID : string) (completedAt : Time.time) (db : DB) : DB :=
  update_event eventID (λ r,
    MkOutboxRow (ob_task_id r) (ob_event_type r) (ob_attempts r) (ob_next_attempt_at r)
      (ob_last_error r) (ob_created_at r) (ob_processed_at r)
      (coalesce_time (ob_followups_completed_at r) (Time.rfc3339 completedAt))
      (ob_notification_dispatched_at r)) db.

Definition CompleteTaskOutboxNotification (eventID : string) (dispatchedAt : Time.time) (db : DB)
    : DB :=
  update_event eventID (λ r,
    MkOutboxRow (ob_task_id r) (ob_event_type r) (ob_attempts r) (ob_next_attempt_at r)
      (ob_last_error r) (ob_created_at r) (ob_processed_at r) (ob_followups_completed_at r)
      (coalesce_time (ob_notification_dispatched_at r) (Time.rfc3339 dispatchedAt))) db.

Definition CompleteTaskOutboxEvent (eventID : string) (processedAt : Time.time) (db : DB) : DB :=
  update_event eventID (λ r,
    MkOutboxRow (ob_task_id r) (ob_event_type r) (ob_attempts r) (ob_next_attempt_at r) None
      (ob_created_at r) (Some (Time.rfc3339 processedAt)) (ob_followups_completed_at r)
      (ob_notification_dispatched_at r)) db.

Definition RetryTaskOutboxEvent (eventID : string) (attempts : Z) (nextAttemptAt : Time.time)
    (eventErr : string) (db : DB) : DB :=
  update_event eventID (λ r,
    MkOutboxRow (ob_task_id r) (ob_event_type r) attempts (Time.rfc3339 nextAttemptAt)
      (Some eventErr) (ob_created_at r) (ob_processed_at r) (ob_followups_completed_at r)
      (ob_notification_dispatched_at r)) db.

(** ** Queries *)
(** [appendStringFilterClause] of filter.go, as the predicate of the clause:
    empty values are dropped, no value left means no clause, and a NULL
    column satisfies neither [IN] nor [NOT IN]. *)
Definition string_filter (exclude : bool) (column : option string) (values : list string) : bool :=
  match filter (λ v, v ≠ "") values with
  | [] => true
  | filtered =>
      match column with
      | None => false
      | Some c => if exclude then bool_decide (c ∉ filtered) else bool_decide (c ∈ filtered)
      end
  end.

Record TaskFilters := MkTaskFilters {
  f_status : list string; f_service_name : list string;
  f_node_id : list string; f_type : list string;
}.

Definition task_matches (incl excl : TaskFilters) (r : TaskRow) : bool :=
  let c := tk_core r in
  string_filter false (Some (tk_status r)) (f_status incl) &&
  string_filter false (tc_service_name c) (f_service_name incl) &&
  string_filter false (tc_node_id c) (f_node_id incl) &&
  string_filter false (Some (tc_type c)) (f_type incl) &&
  string_filter true (Some (tk_status r)) (f_status excl) &&
  string_filter true (tc_service_name c) (f_service_name excl) &&
  string_filter true (tc_node_id c) (f_node_id excl) &&
  string_filter true (Some (tc_type c)) (f_type excl).

Record TaskSummary := MkTaskSummary {
  sum_TaskID : string; sum_Type : string; sum_Status : string;
  sum_ServiceName : string; sum_NodeID : string; sum_CreatedAt : Z;
}.

Definition task_summary (id : string) (r : TaskRow) : TaskSummary :=
  MkTaskSummary id (tc_type (tk_core r)) (tk_status r) (coalesce (tc_service_name (tk_core r)))
    (coalesce (tc_node_id (tk_core r))) (tc_created_at (tk_core r)).

(** [ORDER BY created_at DESC, task_id DESC LIMIT ? OFFSET ?] *)
Definition sorted_tasks (incl excl : TaskFilters) (db : DB) : list (string * TaskRow) :=
  merge_sort (λ a b, lex_leb (claim_key b.1 b.2) (claim_key a.1 a.2) = true)
    (map_to_list (rows_where (λ _ r, task_matches incl excl r = true) (tasks db))).

Definition ListTasks (incl excl : TaskFilters) (page limit : Z) (db : DB) : list TaskSummary * nat :=
  ((λ kr, task_summary kr.1 kr.2) <$> page_of (page_bounds page limit) (sorted_tasks incl excl db),
   count_where (λ _ r, task_matches incl excl r = true) (tasks db)).

Definition HasMatchingTaskInWindow (source taskType serviceName nodeID paramsJSON : string)
    (windowStart : Time.time) (db : DB) : bool :=
  let windowEnd := (windowStart + Time.Minute)%Z in
  bool_decide (0 < count_where (λ _ r,
    tc_source (tk_core r) = source ∧ tc_type (tk_core r) = taskType ∧
    coalesce (tc_service_name (tk_core r)) = serviceName ∧
    coalesce (tc_node_id (tk_core r)) = nodeID ∧ coalesce (tk_params_json r) = paramsJSON ∧
    (Time.rfc3339 windowStart ≤ tc_created_at (tk_core r))%Z ∧
    (tc_created_at (tk_core r) < Time.rfc3339 windowEnd)%Z) (tasks db)).

Definition TaskNodeID (taskID : string) (db : DB) : result StoreError string :=
  match tasks db !! taskID with
  | None => Err ErrTaskNotFound
  | Some r => Ok (coalesce (tc_node_id (tk_core r)))
  end.

Definition rec_set_dedupe (dedupeKey : string) (r : TaskRecord) : TaskRecord :=
  MkRecord (rec_TaskID r) (rec_Type r) (rec_Source r) (rec_TriggeredBy r) (rec_ServiceName r)
    (rec_NodeID r) (rec_Status r) (rec_ParamsJSON r) (rec_LogPath r) (rec_RepoRevision r)
    (rec_ResultRevision r) (rec_AttemptOfTaskID r) (rec_CreatedAt r) (rec_StartedAt r)
    (rec_FinishedAt r) (rec_ErrorSummary r) (rec_ExecutionID r) (rec_ExecutionState r)
    (rec_LeaseExpiresAt r) (rec_ExecutionAcceptedAt r) (rec_ExecutionHeartbeatAt r) dedupeKey.

Definition GetTaskByDedupeKey (dedupeKey : string) (db : DB) : result StoreError TaskRecord :=
  match map_to_list (rows_where (λ _ r, tc_dedupe_key (tk_core r) = Some dedupeKey) (tasks db)) with
  | [] => Err ErrTaskNotFound
  | (taskID, _) :: _ =>
      result_bind (GetTask taskID db) (λ detail, Ok (rec_set_dedupe dedupeKey (td_Record detail)))
  end.
