(* ===== verification/StoreProtocol.v ===== *)
(** * The store as a transition system

    [row_step] is what one call of the store may do to one task row;
    [db_step] is one call (an operation of [StoreTasks] or [StoreServices]
    that returns without error).  The execution ids drawn so far are kept in
    the state: [uuid.NewString()] never repeats one.  The invariants of the
    store are proved over the reachable states by induction on the steps, a
    row at a time. *)
From S2P Require Export StoreTasks.
From stdpp Require Export relations.

(** ** What a call may do to a row: [offered] is the execution id the call
    drew, when it is an offer *)
Definition live_states : list string := [ExecutionOffered; ExecutionAccepted; ExecutionLeaseLost].

Inductive row_step `{SQLite} (offered : option string) : TaskRow → TaskRow → Prop :=
| row_same r : row_step offered r r
| row_offer r started lease uuid :
    offered = Some uuid → tk_status r = StatusPending → is_Some (tc_node_id (tk_core r)) →
    tc_type (tk_core r) ∉ [TypeDNSUpdate; TypeMigrate] →
    row_step offered r (offer started lease uuid r)
| row_start r started :
    tk_status r = StatusPending →
    row_step offered r (tk_set_status_start StatusRunning started (tk_exec r) r)
| row_await r summary :
    tk_status r = StatusRunning → tc_type (tk_core r) = TypeMigrate →
    row_step offered r (tk_set_end StatusAwaitingConfirmation None summary (tk_exec r) r)
| row_resume r summary :
    tk_status r = StatusAwaitingConfirmation →
    row_step offered r (tk_set_end StatusPending None summary (tk_exec r) r)
| row_params r params : params_ok params → row_step offered r (tk_set_params params r)
| row_complete r status finished summary :
    tk_status r ∈ active_statuses → status ∈ terminal_statuses →
    row_step offered r (tk_set_end status (Some finished) summary (complete_exec (tk_exec r)) r)
| row_accept r lease accepted heartbeat :
    tk_status r = StatusRunning →
    (ex_execution_state (tk_exec r) = Some ExecutionAccepted ∨
     ex_execution_state (tk_exec r) = Some ExecutionOffered) →
    row_step offered r (tk_set_exec (MkTaskExec (ex_execution_id (tk_exec r)) (Some ExecutionAccepted)
                  (Some lease) (coalesce_time (ex_execution_accepted_at (tk_exec r)) accepted)
                  (Some heartbeat)) r)
| row_renew r lease heartbeat :
    tk_status r = StatusRunning →
    (ex_execution_state (tk_exec r) = Some ExecutionAccepted ∨
     ex_execution_state (tk_exec r) = Some ExecutionLeaseLost) →
    row_step offered r (tk_set_exec (MkTaskExec (ex_execution_id (tk_exec r)) (Some ExecutionAccepted)
                  (Some lease) (ex_execution_accepted_at (tk_exec r)) (Some heartbeat)) r)
| row_end r status finished summary :
    tk_status r = StatusRunning →
    (ex_execution_state (tk_exec r) = Some ExecutionAccepted ∨
     ex_execution_state (tk_exec r) = Some ExecutionLeaseLost) →
    status ∈ terminal_statuses →
    row_step offered r (end_execution status finished summary r)
| row_requeue r :
    tk_status r = StatusRunning → ex_execution_state (tk_exec r) = Some ExecutionOffered →
    row_step offered r (requeue r)
| row_lose r :
    tk_status r = StatusRunning → ex_execution_state (tk_exec r) = Some ExecutionAccepted →
    row_step offered r (lose_lease r)
| row_log r seq :
    (tk_log_confirmed_seq r < seq)%Z → row_step offered r (tk_set_log_seq seq r).

(** A row as [insertTaskRecord] writes it. *)
Definition fresh_row `{SQLite} (r : TaskRow) : Prop :=
  task_checks r ∧ tk_exec r = no_exec ∧ tk_log_confirmed_seq r = 0%Z.

(** What a call other than a creation may do to the table. *)
Definition tasks_step `{SQLite} (offered : option string) (t t' : gmap string TaskRow) : Prop :=
  ∀ id, match t !! id, t' !! id with
        | Some r, Some r' => row_step offered r r'
        | None, None => True
        | _, _ => False
        end.

(** ** One call of the store

    [TransitionTaskStatus] is called with the two pairs of statuses the
    controller uses (migrate.go, task_service.go), the first on a migrate
    task. *)
Section step.
Context `{SQLite}.

Inductive db_call (db : DB) : DB → Prop :=
| call_CreateTask uuid now record db' prepared :
    CreateTask uuid now record db = Ok (db', prepared) → db_call db db'
| call_CreateTaskWithConstraints uuid now record constraints db' prepared :
    CreateTaskWithConstraints uuid now record constraints db = Ok (db', prepared) → db_call db db'
| call_CreateTasks records db' prepared :
    CreateTasksIfNoActiveServiceInstanceTasks records db = Ok (db', prepared) → db_call db db'
| call_ClaimNextPendingTask started db' record :
    ClaimNextPendingTask started db = Ok (db', record) → db_call db db'
| call_ClaimNextPendingTaskOfType type started db' record :
    ClaimNextPendingTaskOfType type started db = Ok (db', record) → db_call db db'
| call_AwaitConfirmation id summary row db' :
    tasks db !! id = Some row → tc_type (tk_core row) = TypeMigrate →
    TransitionTaskStatus id StatusRunning StatusAwaitingConfirmation summary db = Ok db' →
    db_call db db'
| call_Resume id summary db' :
    TransitionTaskStatus id StatusAwaitingConfirmation StatusPending summary db = Ok db' →
    db_call db db'
| call_UpdateTaskParamsJSON id params db' :
    UpdateTaskParamsJSON id params db = Ok db' → db_call db db'
| call_CompleteTask id status finished summary db' :
    CompleteTask id status finished summary db = Ok db' → db_call db db'
| call_AcknowledgeTaskExecution id eid accepted lease db' :
    AcknowledgeTaskExecution id eid accepted lease db = Ok db' → db_call db db'
| call_RenewTaskExecution id eid renewed lease db' :
    RenewTaskExecution id eid renewed lease db = Ok db' → db_call db db'
| call_CompleteTaskExecution uuid id eid status finished summary db' :
    CompleteTaskExecution uuid id eid status finished summary db = Ok db' → db_call db db'
| call_SweepExpiredTaskExecutions now :
    db_call db (SweepExpiredTaskExecutions now db).1
| call_FailLostTaskExecution uuid id finished summary db' :
    FailLostTaskExecution uuid id finished summary db = Ok db' → db_call db db'
| call_UpsertTaskStep step db' :
    UpsertTaskStep step db = Ok db' → db_call db db'
| call_SetTaskLogConfirmedSeq id seq db' :
    SetTaskLogConfirmedSeq id seq db = Ok db' → db_call db db'
| call_EnqueueTaskOutboxEvent uuid id type at_ db' :
    EnqueueTaskOutboxEvent uuid id type at_ db = Ok db' → db_call db db'
| call_CompleteTaskOutboxFollowups eid at_ : db_call db (CompleteTaskOutboxFollowups eid at_ db)
| call_CompleteTaskOutboxNotification eid at_ :
    db_call db (CompleteTaskOutboxNotification eid at_ db)
| call_CompleteTaskOutboxEvent eid at_ : db_call db (CompleteTaskOutboxEvent eid at_ db)
| call_RetryTaskOutboxEvent eid n at_ err : db_call db (RetryTaskOutboxEvent eid n at_ err db)
| call_SyncConfiguredNodes ids : db_call db (SyncConfiguredNodes ids db)
| call_RecordHeartbeat h : db_call db (RecordHeartbeat h db)
| call_MarkOfflineNodesBefore cutoff : db_call db (MarkOfflineNodesBefore cutoff db)
| call_SyncDeclaredServices now decl :
    NoDup decl.*1 → db_call db (SyncDeclaredServices now decl db)
| call_UpdateServiceInstanceRuntimeStatus s n status at_ db' :
    UpdateServiceInstanceRuntimeStatus s n status at_ db = Ok db' → db_call db db'
| call_SetServiceInstancePendingDeploy s n rev now :
    db_call db (SetServiceInstancePendingDeploy s n rev now db)
| call_SetServicePendingDeploy s ns rev now :
    db_call db (SetServicePendingDeploy s ns rev now db)
| call_ClearServiceInstancePendingDeploy s n now :
    db_call db (ClearServiceInstancePendingDeploy s n now db)
| call_ClearServicePendingDeploy s now : db_call db (ClearServicePendingDeploy s now db).

(** The execution ids drawn so far, and the database. *)
Record State := MkState { used_ids : gset string; st_db : DB }.

Inductive step : State → State → Prop :=
| step_call used db db' : db_call db db' → step (MkState used db) (MkState used db')
| step_ClaimNextPendingTaskForNode used db node started lease uuid db' record :
    uuid ∉ used → uuid ≠ "" →
    ClaimNextPendingTaskForNode node started lease uuid db = Ok (db', record) →
    step (MkState used db) (MkState ({[uuid]} ∪ used) db').

Definition init : State := MkState ∅ empty_db.
Definition reachable (s : State) : Prop := rtc step init s.
End step.

(** ** Inversion of the operations *)
Section ops.
Context `{SQLite}.

(** What a successful INSERT INTO tasks guarantees. *)
Record insert_ok (db : DB) (id : string) (row : TaskRow) : Prop := {
  io_new : tasks db !! id = None;
  io_checks : task_checks row;
  io_service : ¬ index_conflict active_service_key id row (tasks db);
  io_instance : ¬ index_conflict active_service_instance_key id row (tasks db);
  io_dedupe : ¬ index_conflict dedupe_index_key id row (tasks db);
  io_fk : task_foreign_keys db id (tk_core row);
}.

Lemma insert_violation_None db id row :
  insert_violation db id row = None ↔ insert_ok db id row.
Proof.
  unfold insert_violation, insert_conflicts. split.
  - destruct (missing_instance _ _); [done|].
    repeat (case_decide; simpl; try done).
    intros _. split; try done; [by apply eq_None_not_Some|by apply dec_stable..].
  - intros [Hn Hc Hs Hi Hd Hf].
    assert (missing_instance db (tk_core row) = false) as ->.
    { unfold missing_instance. destruct Hf as (_ & _ & Hf & _).
      destruct (tc_service_name (tk_core row)), (tc_node_id (tk_core row)); try done.
      by rewrite bool_decide_eq_true_2. }
    rewrite (decide_False (P := ¬ task_checks row)) by tauto.
    rewrite (decide_False (P := is_Some (tasks db !! id))) by (by rewrite Hn; intros []).
    rewrite !decide_False by done. simpl. by rewrite decide_False by tauto.
Qed.

Lemma insertTaskRecord_Ok db record db' :
  insertTaskRecord db record = Ok db' ↔
  insert_ok db (rec_TaskID record) (inserted_row record) ∧
  db' = set_tasks (<[rec_TaskID record := inserted_row record]> (tasks db)) db.
Proof.
  unfold insertTaskRecord. rewrite <-insert_violation_None.
  destruct (insert_violation _ _ _); naive_solver.
Qed.

Lemma ensure_instance_Ok ts db target db' :
  ensure_instance ts db target = Ok db' →
  db' = db ∨
  (service_instances db !! (sit_ServiceName target, sit_NodeID target) = None ∧
   is_Some (services db !! sit_ServiceName target) ∧ is_Some (nodes db !! sit_NodeID target) ∧
   db' = set_service_instances
     (<[(sit_ServiceName target, sit_NodeID target) :=
          MkInstanceRow false ServiceRuntimeUnknown None ts None None]> (service_instances db)) db).
Proof.
  unfold ensure_instance. destruct (service_instances db !! _) eqn:E; [naive_solver|].
  case_decide; naive_solver.
Qed.

Lemma require_inactive_instance_Ok db target db' :
  require_inactive_instance db target = Ok db' →
  db' = db ∧ sit_ServiceName target ≠ "" ∧ sit_NodeID target ≠ "" ∧
  hasActiveServiceInstanceTask (sit_ServiceName target) (sit_NodeID target) db = false.
Proof.
  unfold require_inactive_instance, check_target. intros Hr.
  destruct (decide (sit_ServiceName target = "")); [done|].
  destruct (decide (sit_NodeID target = "")); [done|]. simpl in Hr.
  destruct (hasActiveServiceInstanceTask _ _ _); naive_solver.
Qed.

(** The three ways to create tasks are sequences of placeholder instances
    and of INSERTs. *)
Inductive add_prim (db : DB) : DB → Prop :=
| add_ensure ts target db' : ensure_instance ts db target = Ok db' → add_prim db db'
| add_insert record db' : insertTaskRecord db record = Ok db' → add_prim db db'.
Definition adds : DB → DB → Prop := rtc add_prim.

Lemma for_each_adds {A} (f : DB → A → result StoreError DB) db l db' :
  (∀ db1 x db2, f db1 x = Ok db2 → adds db1 db2) → for_each f db l = Ok db' → adds db db'.
Proof.
  intros Hf Hrun. eapply (for_each_ind (adds db)); [|apply rtc_refl|exact Hrun].
  intros db1 x db2 _ Ha Hx. etrans; [exact Ha|by eapply Hf].
Qed.

Lemma CreateTask_adds uuid now record db db' prepared :
  CreateTask uuid now record db = Ok (db', prepared) → adds db db'.
Proof. unfold CreateTask. intros Hrun. ok_inv. eapply rtc_once, add_insert; eauto. Qed.

Lemma CreateTaskWithConstraints_adds uuid now record c db db' prepared :
  CreateTaskWithConstraints uuid now record c db = Ok (db', prepared) → adds db db'.
Proof.
  unfold CreateTaskWithConstraints. intros Hrun. ok_inv.
  match goal with
  | He : ensureServiceInstancesTx _ _ _ = Ok ?d1, Hr : for_each _ ?d1 _ = Ok ?d2 |- _ =>
      apply for_each_adds in He;
        [|intros; eapply rtc_once, add_ensure; done];
      apply for_each_adds in Hr;
        [|intros ??? (-> & _)%require_inactive_instance_Ok; apply rtc_refl]
  end.
  etrans; [done|]. etrans; [done|]. eapply rtc_once, add_insert; eauto.
Qed.

Lemma CreateTasks_adds records db db' prepared :
  CreateTasksIfNoActiveServiceInstanceTasks records db = Ok (db', prepared) → adds db db'.
Proof.
  unfold CreateTasksIfNoActiveServiceInstanceTasks. intros Hrun. ok_inv.
  match goal with
  | Hc : for_each _ _ (instance_key <$> _) = Ok ?d1, Hi : for_each insertTaskRecord ?d1 _ = Ok _ |- _ =>
      apply for_each_adds in Hc;
        [|intros ??? Hx; simpl in Hx; destruct (hasActiveServiceInstanceTask _ _ _);
          [done|simplify_eq; apply rtc_refl]];
      apply for_each_adds in Hi; [|intros; eapply rtc_once, add_insert; done]
  end.
  by etrans.
Qed.

(** ** Updates of one row *)
Lemma tasks_step_refl o t : tasks_step o t t.
Proof. intros id. destruct (t !! id); [constructor|done]. Qed.

Lemma tasks_step_insert o t id r r' :
  t !! id = Some r → row_step o r r' → tasks_step o t (<[id := r']> t).
Proof.
  intros Ht Hr id'. destruct (decide (id = id')) as [<-|].
  - by rewrite Ht, lookup_insert_eq.
  - rewrite lookup_insert_ne by done. destruct (t !! id'); [constructor|done].
Qed.

Lemma tasks_step_update_row o id P `{∀ r, Decision (P r)} f t t' n :
  update_row id P f t = (t', n) → (∀ r, t !! id = Some r → P r → row_step o r (f r)) → tasks_step o t t'.
Proof.
  intros Hu Hf. destruct (update_row_cases id P f t) as [(r & ? & ? & E)|[_ E]];
    rewrite E in Hu; simplify_eq; [eauto using tasks_step_insert|apply tasks_step_refl].
Qed.
End ops.
#[export] Hint Resolve tasks_step_refl tasks_step_insert : composia.

(** ** Every call is a step of the task table *)
Section tasks_steps.
Context `{SQLite}.

(** The service and instance updates, the steps and the outbox leave the
    task table alone. *)
Lemma updateServiceFromCompletedTask_tasks id t db db' :
  updateServiceFromCompletedTask id t db = Ok db' → tasks db' = tasks db.
Proof.
  unfold updateServiceFromCompletedTask. destruct (tasks db !! id); [|done].
  repeat case_decide; naive_solver.
Qed.
Lemma updateRuntimeFromAgentTask_tasks id s t db db' :
  updateRuntimeFromAgentTask id s t db = Ok db' → tasks db' = tasks db.
Proof.
  unfold updateRuntimeFromAgentTask. destruct (tasks db !! id); [|done].
  case_decide; [naive_solver|]. destruct (runtime_of_completion _ _); naive_solver.
Qed.
Lemma enqueue_outbox_tasks uuid id e t db db' :
  enqueue_outbox uuid id e t db = Ok db' → tasks db' = tasks db.
Proof. unfold enqueue_outbox. repeat case_match; naive_solver. Qed.

Lemma complete_followup_tasks uuid id s t db db' :
  complete_followup uuid id s t db = Ok db' → tasks db' = tasks db.
Proof.
  unfold complete_followup. intros Hrun. ok_inv.
  apply enqueue_outbox_tasks in Hrun as ->. simpl.
  erewrite updateRuntimeFromAgentTask_tasks by done.
  by erewrite updateServiceFromCompletedTask_tasks by done.
Qed.

Lemma claimPendingTaskByQuery_step sel started db db' record :
  claimPendingTaskByQuery sel started db = Ok (db', record) → tasks_step None (tasks db) (tasks db').
Proof.
  unfold claimPendingTaskByQuery, markTaskRunning. destruct sel as [[id row]|]; [|done].
  destruct (update_row _ _ _ _) as [t n] eqn:Hu. case_decide; [done|]. intros. simplify_eq/=.
  eapply tasks_step_update_row; [exact Hu|]. intros. by constructor.
Qed.

Lemma ClaimNextPendingTaskForNode_step node started lease uuid db db' record :
  ClaimNextPendingTaskForNode node started lease uuid db = Ok (db', record) →
  tasks_step (Some uuid) (tasks db) (tasks db').
Proof.
  unfold ClaimNextPendingTaskForNode.
  destruct (select_first _ _ _) as [[id row]|] eqn:Hsel; [|done].
  apply select_first_Some in Hsel as (Hrow & (? & Hnode & ?) & _).
  destruct (update_row _ _ _ _) as [t n] eqn:Hu. case_decide; [done|]. intros. simplify_eq/=.
  eapply tasks_step_update_row; [exact Hu|]. intros r Hr ?. simplify_eq. constructor; eauto.
Qed.

Lemma TransitionTaskStatus_Ok id from to summary db db' :
  TransitionTaskStatus id from to summary db = Ok db' →
  ∃ row, tasks db !! id = Some row ∧ tk_status row = from ∧
    let row' := tk_set_end to None (nullableString summary) (tk_exec row) row in
    update_violation id row' (tasks db) = None ∧
    db' = set_tasks (<[id := row']> (tasks db)) db.
Proof.
  unfold TransitionTaskStatus. do 2 (case_decide; [done|]).
  destruct (tasks db !! id) as [row|] eqn:E; [|done]. case_decide; [|done].
  destruct (update_violation _ _ _) eqn:?; [done|]. intros. simplify_eq. eauto 10.
Qed.

Lemma terminal_guard status :
  ¬ (status ≠ StatusSucceeded ∧ status ≠ StatusFailed ∧ status ≠ StatusCancelled) →
  status ∈ terminal_statuses.
Proof.
  intros Hst. unfold terminal_statuses.
  destruct (decide (status = StatusSucceeded)) as [->|]; [in_closed|].
  destruct (decide (status = StatusFailed)) as [->|]; [in_closed|].
  destruct (decide (status = StatusCancelled)) as [->|]; [in_closed|tauto].
Qed.

Lemma CompleteTask_Ok id status t summary db db' :
  CompleteTask id status t summary db = Ok db' →
  ∃ row db1, tasks db !! id = Some row ∧ tk_status row ∈ active_statuses ∧
    status ∈ terminal_statuses ∧
    updateServiceFromCompletedTask id t (set_tasks
      (<[id := tk_set_end status (Some (Time.rfc3339 t)) (nullableString summary)
                 (complete_exec (tk_exec row)) row]> (tasks db)) db) = Ok db1 ∧
    db' = finish_running_steps id status t db1.
Proof.
  unfold CompleteTask. case_decide; [done|]. case_decide as Hst; [done|].
  destruct (update_row _ _ _ _) as [tbl n] eqn:Hu. case_decide; [done|].
  intros Hrun. ok_inv. destruct (update_row_affected _ _ _ _ _ _ Hu) as (r & ? & ? & ->); [done|].
  do 2 eexists. split_and!; [done..| |done|done]. by apply terminal_guard.
Qed.

Lemma CompleteTask_step id status t summary db db' :
  CompleteTask id status t summary db = Ok db' → tasks_step None (tasks db) (tasks db').
Proof.
  intros (row & db1 & ? & ? & ? & Hup & ->)%CompleteTask_Ok. simpl.
  apply updateServiceFromCompletedTask_tasks in Hup as ->. simpl.
  eapply tasks_step_insert; [done|]. by constructor.
Qed.

(** The outcomes of [CompleteTaskExecution] without an error: the fallback
    for a task without an execution, a replay, a completion. *)
Lemma CompleteTaskExecution_Ok uuid id eid status t summary db db' :
  CompleteTaskExecution uuid id eid status t summary db = Ok db' →
  status ∈ terminal_statuses ∧
  ((eid = "" ∧ CompleteTask id status t summary db = Ok db') ∨
   (eid ≠ "" ∧ ∃ row, tasks db !! id = Some row ∧ ex_execution_id (tk_exec row) = Some eid ∧
      tk_status row = status ∧ coalesce (tk_error_summary row) = summary ∧ db' = db) ∨
   (eid ≠ "" ∧ ∃ row, tasks db !! id = Some row ∧ ex_execution_id (tk_exec row) = Some eid ∧
      tk_status row = StatusRunning ∧
      (ex_execution_state (tk_exec row) = Some ExecutionAccepted ∨
       ex_execution_state (tk_exec row) = Some ExecutionLeaseLost) ∧
      complete_followup uuid id status t
        (set_tasks (<[id := end_execution status t (nullableString summary) row]> (tasks db)) db)
      = Ok db')).
Proof.
  unfold CompleteTaskExecution. case_decide as Hst; [done|]. apply terminal_guard in Hst.
  intros Hrun. split; [done|]. case_decide.
  { left. by ok_inv. }
  right. destruct (tasks db !! id) as [row|] eqn:Hrow; [|done].
  case_decide as Hid; [done|].
  assert (Heid : ex_execution_id (tk_exec row) = Some eid).
  { destruct (ex_execution_id (tk_exec row)) as [i|]; simpl in Hid; [|naive_solver].
    f_equal. apply dec_stable. tauto. }
  case_decide as Hrunning.
  { case_decide as Hsame; [|done]. left. simplify_eq. destruct Hsame. eauto 10. }
  case_decide as Hstate; [done|]. right. split; [done|].
  destruct (update_row _ _ _ _) as [tbl n] eqn:Hu. case_decide; [done|].
  destruct (update_row_affected _ _ _ _ _ _ Hu) as (r & ? & [??] & ->); [done|]. simplify_eq.
  exists row. split_and!; [done..| |done].
  destruct (ex_execution_state (tk_exec row)) as [s|]; simpl in *; [|by destruct Hstate].
  destruct (decide (s = ExecutionAccepted)); [left; by subst|].
  destruct (decide (s = ExecutionLeaseLost)); [right; by subst|tauto].
Qed.

Lemma CompleteTaskExecution_step uuid id eid status t summary db db' :
  CompleteTaskExecution uuid id eid status t summary db = Ok db' →
  tasks_step None (tasks db) (tasks db').
Proof.
  intros (Hst & [[_ Hc]|[(_ & row & _ & _ & _ & _ & ->)|(_ & row & Hrow & _ & Hr & Hs & Hf)]])%CompleteTaskExecution_Ok.
  - by eapply CompleteTask_step.
  - apply tasks_step_refl.
  - apply complete_followup_tasks in Hf as ->. simpl. eapply tasks_step_insert; [done|].
    by constructor.
Qed.

Lemma FailLostTaskExecution_Ok uuid id t summary db db' :
  FailLostTaskExecution uuid id t summary db = Ok db' →
  ∃ row, tasks db !! id = Some row ∧ tk_status row = StatusRunning ∧
    ex_execution_state (tk_exec row) = Some ExecutionLeaseLost ∧
    complete_followup uuid id StatusFailed t
      (set_tasks (<[id := end_execution StatusFailed t (Some summary) row]> (tasks db)) db) = Ok db'.
Proof.
  unfold FailLostTaskExecution. destruct (update_row _ _ _ _) as [tbl n] eqn:Hu.
  case_decide; [done|]. intros.
  destruct (update_row_affected _ _ _ _ _ _ Hu) as (r & ? & [??] & ->); [done|]. eauto 10.
Qed.

Lemma FailLostTaskExecution_step uuid id t summary db db' :
  FailLostTaskExecution uuid id t summary db = Ok db' → tasks_step None (tasks db) (tasks db').
Proof.
  intros (row & Hrow & Hr & Hs & Hf)%FailLostTaskExecution_Ok.
  apply complete_followup_tasks in Hf as ->. simpl. eapply tasks_step_insert; [done|].
  constructor; [done|by right|in_closed].
Qed.

(** The sweep, row by row. *)
Definition swept (now : Time.time) (r : TaskRow) : TaskRow :=
  if decide (tk_status r = StatusRunning ∧ lease_before now r = true) then
    if decide (ex_execution_state (tk_exec r) = Some ExecutionOffered) then requeue r
    else if decide (ex_execution_state (tk_exec r) = Some ExecutionAccepted) then lose_lease r
    else r
  else r.

Lemma Sweep_lookup now db id :
  tasks (SweepExpiredTaskExecutions now db).1 !! id = swept now <$> tasks db !! id.
Proof.
  unfold SweepExpiredTaskExecutions. simpl. rewrite !map_lookup_imap.
  destruct (tasks db !! id) as [r|]; [|done]. simpl. f_equal. unfold swept.
  repeat case_decide; naive_solver.
Qed.

Lemma Sweep_step now db : tasks_step None (tasks db) (tasks (SweepExpiredTaskExecutions now db).1).
Proof.
  intros id. rewrite Sweep_lookup. destruct (tasks db !! id) as [r|]; [|done]. simpl.
  unfold swept. repeat case_decide; try constructor; tauto.
Qed.

Definition step_key (step : StepRecord) : string * string :=
  (step_TaskID step, step_StepName step).
Definition step_row (step : StepRecord) : StepRow :=
  MkStepRow (step_Status step) (nullableTime (step_StartedAt step))
    (nullableTime (step_FinishedAt step)).

(** The outcomes of [UpsertTaskStep]: a replay of a finished step, or a
    write that does not touch a finished one. *)
Lemma UpsertTaskStep_Ok step db db' :
  UpsertTaskStep step db = Ok db' →
  (∃ cur, task_steps db !! step_key step = Some cur ∧ isTerminalStatus (ts_status cur) = true ∧
     ts_status cur = step_Status step ∧ db' = db) ∨
  (step_Status step ∈ sqliteValidTaskStatuses ∧ is_Some (tasks db !! step_TaskID step) ∧
   (∀ cur, task_steps db !! step_key step = Some cur →
      isTerminalStatus (ts_status cur) = false ∧
      ¬ (ts_status cur = StatusRunning ∧ step_Status step = StatusPending)) ∧
   db' = set_task_steps (<[step_key step := step_row step]> (task_steps db)) db).
Proof.
  unfold UpsertTaskStep, step_key, step_row. do 3 (case_decide; [done|]).
  assert (Hup : ∀ k r (t : gmap (string * string) StepRow), upsert k r (λ _, r) t = <[k := r]> t).
  { intros. unfold upsert. by destruct (t !! k). }
  rewrite Hup. clear Hup. destruct (task_steps db !! _) as [cur|] eqn:Hcur.
  - destruct (isTerminalStatus (ts_status cur)) eqn:Ht.
    + case_decide; intros; simplify_eq. left. eauto.
    + case_decide as Hpend; [done|]. case_decide as Hv; [done|]. case_decide as Hi; [done|].
      intros [= <-]. right. split_and!; [done..| |done]. intros ? [= <-]. done.
  - case_decide as Hv; [done|]. case_decide as Hi; [done|]. intros [= <-]. right.
    split_and!; [done..|done|done].
Qed.

Lemma UpsertTaskStep_tasks s db db' : UpsertTaskStep s db = Ok db' → tasks db' = tasks db.
Proof. by intros [(? & _ & _ & _ & ->)|(_ & _ & _ & ->)]%UpsertTaskStep_Ok. Qed.

Lemma SetTaskLogConfirmedSeq_step id seq db db' :
  SetTaskLogConfirmedSeq id seq db = Ok db' → tasks_step None (tasks db) (tasks db').
Proof.
  unfold SetTaskLogConfirmedSeq. destruct (update_row _ _ _ _) as [t n] eqn:Hu.
  case_decide; intros Hrun.
  - ok_inv. apply tasks_step_refl.
  - simplify_eq/=. eapply tasks_step_update_row; [exact Hu|]. intros. by constructor.
Qed.

Lemma SetServicePendingDeploy_tasks s ns rev now db :
  tasks (SetServicePendingDeploy s ns rev now db) = tasks db.
Proof.
  unfold SetServicePendingDeploy. revert db. induction ns as [|n ns IH]; intros db; [done|].
  cbn [foldl]. by rewrite IH.
Qed.

Lemma db_call_tasks db db' :
  db_call db db' → adds db db' ∨ tasks_step None (tasks db) (tasks db').
Proof.
  destruct 1; eauto using CreateTask_adds, CreateTaskWithConstraints_adds, CreateTasks_adds;
    right; eauto using tasks_step_refl, claimPendingTaskByQuery_step, CompleteTask_step,
    CompleteTaskExecution_step, FailLostTaskExecution_step, Sweep_step,
    SetTaskLogConfirmedSeq_step.
  - apply TransitionTaskStatus_Ok in H2 as (r & ? & ? & _ & ->). simplify_eq/=.
    eapply tasks_step_insert; [done|]. by constructor.
  - apply TransitionTaskStatus_Ok in H0 as (r & ? & ? & _ & ->). simplify_eq/=.
    eapply tasks_step_insert; [done|]. by constructor.
  - unfold UpdateTaskParamsJSON in H0. case_decide; [done|].
    destruct (tasks db !! id) eqn:?; [|done]. case_decide as Hc; [|done]. simplify_eq/=.
    eapply tasks_step_insert; [done|]. constructor. apply Hc.
  - unfold AcknowledgeTaskExecution in H0. destruct (update_row _ _ _ _) as [t n] eqn:Hu.
    case_decide; [done|]. simplify_eq/=. eapply tasks_step_update_row; [exact Hu|].
    intros r _ (_ & ? & Hs). constructor; [done|]. tauto.
  - unfold RenewTaskExecution in H0. destruct (update_row _ _ _ _) as [t n] eqn:Hu.
    case_decide; [done|]. simplify_eq/=. eapply tasks_step_update_row; [exact Hu|].
    intros r _ (_ & ? & Hs). by constructor.
  - rewrite (UpsertTaskStep_tasks _ _ _ H0). apply tasks_step_refl.
  - rewrite (enqueue_outbox_tasks _ _ _ _ _ _ H0). apply tasks_step_refl.
  - destruct (SyncDeclaredServices_other now decl db) as (-> & _). apply tasks_step_refl.
  - unfold UpdateServiceInstanceRuntimeStatus in H0. repeat (case_decide; [done|]).
    destruct (update_row _ _ _ _) as [t0 k]. case_decide; [done|]. simplify_eq/=. apply tasks_step_refl.
  - rewrite SetServicePendingDeploy_tasks. apply tasks_step_refl.
Qed.

End tasks_steps.

(** ** Operations that only write the task table *)
Section frames.
Context `{SQLite}.
Definition only_tasks (db db' : DB) : Prop := ∃ t, db' = set_tasks t db.

Lemma only_tasks_refl db : only_tasks db db.
Proof. exists (tasks db). by destruct db. Qed.

Lemma claimPendingTaskByQuery_only sel started db db' record :
  claimPendingTaskByQuery sel started db = Ok (db', record) → only_tasks db db'.
Proof.
  unfold claimPendingTaskByQuery, markTaskRunning. destruct sel as [[id row]|]; [|done].
  destruct (update_row _ _ _ _) as [t n]. case_decide; [done|]. intros. simplify_eq/=. by eexists.
Qed.
Lemma ClaimNextPendingTask_only started db db' record :
  ClaimNextPendingTask started db = Ok (db', record) → only_tasks db db'.
Proof. apply claimPendingTaskByQuery_only. Qed.
Lemma ClaimNextPendingTaskOfType_only type started db db' record :
  ClaimNextPendingTaskOfType type started db = Ok (db', record) → only_tasks db db'.
Proof. apply claimPendingTaskByQuery_only. Qed.
Lemma ClaimNextPendingTaskForNode_only node started lease uuid db db' record :
  ClaimNextPendingTaskForNode node started lease uuid db = Ok (db', record) → only_tasks db db'.
Proof.
  unfold ClaimNextPendingTaskForNode. destruct (select_first _ _ _) as [[id row]|]; [|done].
  destruct (update_row _ _ _ _) as [t n]. case_decide; [done|]. intros. simplify_eq/=. by eexists.
Qed.
Lemma TransitionTaskStatus_only id from to summary db db' :
  TransitionTaskStatus id from to summary db = Ok db' → only_tasks db db'.
Proof. intros (row & _ & _ & _ & ->)%TransitionTaskStatus_Ok. by eexists. Qed.
Lemma UpdateTaskParamsJSON_only id params db db' :
  UpdateTaskParamsJSON id params db = Ok db' → only_tasks db db'.
Proof.
  unfold UpdateTaskParamsJSON. case_decide; [done|]. destruct (tasks db !! id); [|done].
  case_decide; [|done]. intros [= <-]. by eexists.
Qed.
Lemma AcknowledgeTaskExecution_only id eid t l db db' :
  AcknowledgeTaskExecution id eid t l db = Ok db' → only_tasks db db'.
Proof.
  unfold AcknowledgeTaskExecution. destruct (update_row _ _ _ _) as [tbl n].
  case_decide; [done|]. intros [= <-]. by eexists.
Qed.
Lemma RenewTaskExecution_only id eid t l db db' :
  RenewTaskExecution id eid t l db = Ok db' → only_tasks db db'.
Proof.
  unfold RenewTaskExecution. destruct (update_row _ _ _ _) as [tbl n].
  case_decide; [done|]. intros [= <-]. by eexists.
Qed.
Lemma SetTaskLogConfirmedSeq_only id seq db db' :
  SetTaskLogConfirmedSeq id seq db = Ok db' → only_tasks db db'.
Proof.
  unfold SetTaskLogConfirmedSeq. destruct (update_row _ _ _ _) as [tbl n].
  case_decide; intros; ok_inv; [apply only_tasks_refl|by eexists].
Qed.
Lemma Sweep_only now db : only_tasks db (SweepExpiredTaskExecutions now db).1.
Proof. unfold SweepExpiredTaskExecutions. simpl. by eexists. Qed.
End frames.
#[export] Hint Resolve ClaimNextPendingTask_only ClaimNextPendingTaskOfType_only ClaimNextPendingTaskForNode_only
  TransitionTaskStatus_only UpdateTaskParamsJSON_only AcknowledgeTaskExecution_only
  RenewTaskExecution_only SetTaskLogConfirmedSeq_only Sweep_only : composia.
