(* ===== verification/StoreInvariants.v ===== *)
(** * Invariants of the store

    Row by row, then of the services and instances along the calls. *)

(** ** Invariants of the store

    The lease discipline of a row and the life of a task it implements; the
    invariant of the whole store over its reachable states. *)
From S2P Require Export StoreProtocol.

(** ** The life of a task: the abstract state the columns [status],
    [execution_id] and [execution_state] implement *)
Inductive life : Type :=
| Queued
| Controlled
| Awaiting
| OfferedTo (execution : string)
| AcceptedBy (execution : string)
| LostBy (execution : string)
| Finished (status : string) (execution : option string).

#[export] Instance life_eq_dec : EqDecision life.
Proof. solve_decision. Defined.

(** The moves of a life.  An accepted execution is never taken back: it ends,
    or its lease is lost and may be renewed. *)
Inductive life_step : life → life → Prop :=
| life_offer e : life_step Queued (OfferedTo e)
| life_start : life_step Queued Controlled
| life_await : life_step Controlled Awaiting
| life_resume : life_step Awaiting Queued
| life_accept e : life_step (OfferedTo e) (AcceptedBy e)
| life_requeue e : life_step (OfferedTo e) Queued
| life_lose e : life_step (AcceptedBy e) (LostBy e)
| life_renew e : life_step (LostBy e) (AcceptedBy e)
| life_finish l status :
    status ∈ terminal_statuses → l ∈ [Queued; Controlled; Awaiting] →
    life_step l (Finished status None)
| life_finish_execution l e status :
    status ∈ terminal_statuses → l ∈ [OfferedTo e; AcceptedBy e; LostBy e] →
    life_step l (Finished status (Some e)).

Definition life_of (r : TaskRow) : life :=
  match ex_execution_state (tk_exec r) with
  | None =>
      if decide (tk_status r = StatusPending) then Queued
      else if decide (tk_status r = StatusRunning) then Controlled
      else if decide (tk_status r = StatusAwaitingConfirmation) then Awaiting
      else Finished (tk_status r) None
  | Some s =>
      let e := coalesce (ex_execution_id (tk_exec r)) in
      if decide (s = ExecutionOffered) then OfferedTo e
      else if decide (s = ExecutionAccepted) then AcceptedBy e
      else if decide (s = ExecutionLeaseLost) then LostBy e
      else Finished (tk_status r) (Some e)
  end.

(** The columns of the lease agree with each other and with the status. *)
Definition lease_ok (r : TaskRow) : Prop :=
  tk_status r ∈ task_statuses ∧
  match ex_execution_state (tk_exec r) with
  | None => tk_exec r = no_exec
  | Some s =>
      is_Some (ex_execution_id (tk_exec r)) ∧ is_Some (tc_node_id (tk_core r)) ∧
      (tc_type (tk_core r) ∉ [TypeDNSUpdate; TypeMigrate]) ∧
      ((s = ExecutionOffered ∧ tk_status r = StatusRunning ∧
         is_Some (ex_lease_expires_at (tk_exec r)) ∧
         ex_execution_accepted_at (tk_exec r) = None ∧
         ex_execution_heartbeat_at (tk_exec r) = None) ∨
       ((s = ExecutionAccepted ∨ s = ExecutionLeaseLost) ∧ tk_status r = StatusRunning ∧
         is_Some (ex_lease_expires_at (tk_exec r)) ∧
         is_Some (ex_execution_accepted_at (tk_exec r)) ∧
         is_Some (ex_execution_heartbeat_at (tk_exec r))) ∨
       (s = ExecutionCompleted ∧ tk_status r ∈ terminal_statuses ∧
         ex_lease_expires_at (tk_exec r) = None))
  end.

Lemma running_not_terminal r : tk_status r = StatusRunning → tk_status r ∉ terminal_statuses.
Proof. intros ->. in_closed. Qed.
Lemma coalesce_time_is_Some o t : is_Some (coalesce_time o t).
Proof. destruct o; eauto. Qed.
#[export] Hint Resolve coalesce_time_is_Some : composia.

Lemma lease_ok_pending r : lease_ok r → tk_status r = StatusPending → tk_exec r = no_exec.
Proof.
  intros [_ Hl] Hs. destruct (ex_execution_state (tk_exec r)); [|done].
  rewrite Hs in Hl. destruct Hl as (_ & _ & _ & [(_ & [=] & _)|[(_ & [=] & _)|(_ & Ht & _)]]).
  exfalso. revert Ht. in_closed.
Qed.
Lemma lease_ok_awaiting r :
  lease_ok r → tk_status r = StatusAwaitingConfirmation → tk_exec r = no_exec.
Proof.
  intros [_ Hl] Hs. destruct (ex_execution_state (tk_exec r)); [|done].
  rewrite Hs in Hl. destruct Hl as (_ & _ & _ & [(_ & [=] & _)|[(_ & [=] & _)|(_ & Ht & _)]]).
  exfalso. revert Ht. in_closed.
Qed.
Lemma lease_ok_migrate r : lease_ok r → tc_type (tk_core r) = TypeMigrate → tk_exec r = no_exec.
Proof.
  intros [_ Hl] Ht. destruct (ex_execution_state (tk_exec r)); [|done].
  destruct Hl as (_ & _ & Hty & _). rewrite Ht in Hty. exfalso. apply Hty. in_closed.
Qed.

Lemma terminal_is_status s : s ∈ terminal_statuses → s ∈ task_statuses.
Proof. intros. apply status_active_or_terminal. by right. Qed.

Lemma row_step_lease_ok `{SQLite} o r r' : lease_ok r → row_step o r r' → lease_ok r'.
Proof.
  intros Hok Hstep.
  destruct Hstep as [r|r started lease uuid _ Hp Hnode Hty|r started Hp|r summary Hr Hty
    |r summary Ha|r params Hpar|r status fin summary Ha Ht|r lease acc hb Hr Hs|r lease hb Hr Hs
    |r status fin summary Hr Hs Ht|r Hr Hs|r Hr Hs|r seq Hseq]; try exact Hok.
  - split; [in_closed|]. simpl. eauto 10.
  - pose proof (lease_ok_pending r Hok Hp) as He. split; [in_closed|]. simpl. by rewrite He.
  - pose proof (lease_ok_migrate r Hok Hty) as He. split; [in_closed|]. simpl. by rewrite He.
  - pose proof (lease_ok_awaiting r Hok Ha) as He. split; [in_closed|]. simpl. by rewrite He.
  - split; [by apply terminal_is_status|]. destruct Hok as [_ Hl]. simpl.
    destruct (ex_execution_state (tk_exec r)) as [s|] eqn:Es.
    + destruct Hl as ([e He] & ? & ? & _). rewrite He. simpl. rewrite ?He. eauto 10.
    + rewrite Hl. done.
  - destruct Hok as [Hst Hl]. split; [done|]. simpl.
    destruct Hs as [Hs|Hs]; rewrite Hs in Hl; destruct Hl as (? & ? & ? & _);
      split_and!; eauto; right; left; split_and!; eauto with composia.
  - destruct Hok as [Hst Hl]. split; [done|]. simpl.
    destruct Hs as [Hs|Hs]; rewrite Hs in Hl; destruct Hl as (? & ? & ? & Hc);
      split_and!; eauto; right; left; destruct Hc as [(? & ?)|[(_ & _ & _ & ? & _)|(? & _)]];
      try done; split_and!; eauto.
  - split; [by apply terminal_is_status|]. destruct Hok as [_ Hl]. simpl.
    destruct Hs as [Hs|Hs]; rewrite Hs in Hl; destruct Hl as (? & ? & ? & _); eauto 10.
  - split; [in_closed|]. done.
  - destruct Hok as [Hst Hl]. split; [done|]. simpl. rewrite Hs in Hl.
    destruct Hl as (? & ? & ? & Hc). split_and!; eauto. right; left.
    destruct Hc as [(? & ?)|[(_ & _ & ? & ? & ?)|(? & _)]]; try done. split_and!; eauto.
Qed.

Lemma life_of_pending r : lease_ok r → tk_status r = StatusPending → life_of r = Queued.
Proof.
  intros Hok Hs. unfold life_of. rewrite (lease_ok_pending r Hok Hs). simpl. by rewrite Hs.
Qed.

Lemma life_of_finished r : lease_ok r → tk_status r ∈ terminal_statuses →
  life_of r = Finished (tk_status r) (ex_execution_id (tk_exec r)).
Proof.
  intros [_ Hl] Ht. pose proof (terminal_not_active _ Ht) as Hna. unfold life_of.
  destruct (ex_execution_state (tk_exec r)) as [s|].
  - assert (Hr : tk_status r ≠ StatusRunning) by (intros Hr; apply Hna; rewrite Hr; in_closed).
    destruct Hl as ([e He] & _ & _ & [(_ & ? & _)|[(_ & ? & _)|(-> & _)]]); [done..|].
    by rewrite He.
  - rewrite Hl. simpl.
    repeat (rewrite decide_False; [|intros Hr; apply Hna; rewrite Hr; in_closed]). done.
Qed.

(** The life of a row with a live execution. *)
Lemma life_of_live r e s :
  lease_ok r → ex_execution_id (tk_exec r) = Some e → ex_execution_state (tk_exec r) = Some s →
  tk_status r = StatusRunning →
  life_of r = (if decide (s = ExecutionOffered) then OfferedTo e
               else if decide (s = ExecutionAccepted) then AcceptedBy e else LostBy e) ∧
  s ∈ live_states.
Proof.
  intros [_ Hl] He Hs Hr. unfold life_of. rewrite Hs in *. rewrite He.
  destruct Hl as (_ & _ & _ & [(-> & _)|[([->| ->] & _)|(_ & Ht & _)]]); [by split; [|in_closed]..|].
  exfalso. by eapply running_not_terminal.
Qed.

(** The refinement, for one row. *)
Lemma row_step_life `{SQLite} o r r' :
  lease_ok r → row_step o r r' → life_of r' = life_of r ∨ life_step (life_of r) (life_of r').
Proof.
  intros Hok Hstep. pose proof (row_step_lease_ok o r r' Hok Hstep) as Hok'.
  destruct Hstep as [r|r started lease uuid _ Hp Hnode Hty|r started Hp|r summary Hr Hty
    |r summary Ha|r params Hpar|r status fin summary Ha Ht|r lease acc hb Hr Hs|r lease hb Hr Hs
    |r status fin summary Hr Hs Ht|r Hr Hs|r Hr Hs|r seq Hseq]; try (by left).
  - right. rewrite life_of_pending by done. constructor.
  - right. rewrite life_of_pending by done. unfold life_of. simpl.
    rewrite (lease_ok_pending r Hok Hp). constructor.
  - right. unfold life_of. simpl. rewrite (lease_ok_migrate r Hok Hty), Hr. constructor.
  - right. unfold life_of. simpl. rewrite (lease_ok_awaiting r Hok Ha), Ha. constructor.
  - right. rewrite (life_of_finished _ Hok') by done. cbn [tk_status tk_exec tk_set_end].
    destruct Hok as [Hst Hl]. unfold life_of, complete_exec; cbn [ex_execution_id].
    destruct (ex_execution_state (tk_exec r)) as [s|] eqn:Es.
    + destruct Hl as ([e He] & _ & _ & [(-> & _)|[([->| ->] & _)|(_ & Hterm & _)]]); rewrite He;
        [(constructor; [done|in_list])..|]. by destruct (terminal_not_active _ Hterm).
    + rewrite Hl. cbn. apply life_finish; [done|].
      unfold active_statuses in Ha. repeat (apply elem_of_cons in Ha as [->|Ha]; [in_closed|]).
      by apply elem_of_nil in Ha.
  - destruct Hok as [Hst Hl]. unfold life_of; simpl.
    destruct Hs as [Hs|Hs]; rewrite Hs; simpl; [by left|right; constructor].
  - destruct Hok as [Hst Hl]. unfold life_of; simpl.
    destruct Hs as [Hs|Hs]; rewrite Hs; simpl; [by left|right; constructor].
  - right. rewrite (life_of_finished _ Hok') by done. unfold end_execution.
    cbn [tk_status tk_exec tk_set_end ex_execution_id]. destruct Hok as [Hst Hl]. unfold life_of.
    destruct Hs as [Hs|Hs]; rewrite Hs in *; destruct Hl as ([e ->] & _);
      (constructor; [done|in_list]).
  - right. unfold life_of. rewrite Hs. simpl. constructor.
  - right. unfold life_of. simpl. rewrite Hs. simpl. constructor.
Qed.

(** ** Services and instances along the calls of the store

    Every call keeps the rows the foreign keys refer to, and keeps the
    aggregate status of the declared services right. *)

Definition parents_grow (db db' : DB) : Prop :=
  (∀ s, is_Some (services db !! s) → is_Some (services db' !! s)) ∧
  (∀ k, is_Some (service_instances db !! k) → is_Some (service_instances db' !! k)) ∧
  (∀ n, is_Some (nodes db !! n) → is_Some (nodes db' !! n)).

Definition svc_step (db db' : DB) : Prop :=
  parents_grow db db' ∧ (aggregate_ok db → aggregate_ok db').

#[export] Instance svc_step_preorder : PreOrder svc_step.
Proof.
  split; [done|]. intros db1 db2 db3 [(H1 & H2 & H3) Ha] [(H1' & H2' & H3') Hb].
  split; [split_and!|]; auto.
Qed.

Definition svc_same (db db' : DB) : Prop :=
  services db' = services db ∧ service_instances db' = service_instances db ∧ nodes db' = nodes db.

Lemma svc_same_step db db' : svc_same db db' → svc_step db db'.
Proof.
  intros (Hs & Hi & Hn). split; [split_and!; by rewrite ?Hs, ?Hi, ?Hn|].
  intros Hok s row. unfold declared_statuses. rewrite Hs, Hi. apply Hok.
Qed.

Lemma only_tasks_svc db db' : only_tasks db db' → svc_step db db'.
Proof. intros [t ->]. by apply svc_same_step. Qed.

(** ** Frames of the primitive updates *)
Lemma is_Some_update_row {K} `{Countable K} {R} (k k' : K) (f : R → R) (t : gmap K R) :
  is_Some (t !! k') → is_Some ((update_row k (λ _, True) f t).1 !! k').
Proof.
  intros Hs. destruct (update_row_cases k (λ _, True) f t) as [(r & ? & _ & ->)|[_ ->]]; [|done].
  simpl. destruct (decide (k = k')) as [<-|]; [by rewrite lookup_insert_eq|].
  by rewrite lookup_insert_ne.
Qed.

Lemma lookup_update_row_ne {K} `{Countable K} {R} (k k' : K) (f : R → R) (t : gmap K R) :
  k ≠ k' → (update_row k (λ _, True) f t).1 !! k' = t !! k'.
Proof.
  intros Hne. destruct (update_row_cases k (λ _, True) f t) as [(r & ? & _ & ->)|[_ ->]]; [|done].
  simpl. by rewrite lookup_insert_ne.
Qed.

Lemma lookup_update_row_eq {K} `{Countable K} {R} (k : K) (f : R → R) (t : gmap K R) :
  (update_row k (λ _, True) f t).1 !! k = f <$> t !! k.
Proof.
  unfold update_row. destruct (t !! k) eqn:E; simpl; [by rewrite lookup_insert_eq|done].
Qed.

Lemma parents_grow_refresh s db : parents_grow db (refreshServiceAggregateStatusTx s db).
Proof. split_and!; intros k Hk; try done. by apply is_Some_update_row. Qed.

(** An update of one instance of [s], then the refresh of [s]. *)
Lemma svc_step_instance_refresh s n f db :
  svc_step db (refreshServiceAggregateStatusTx s
    (set_service_instances (update_row (s, n) (λ _, True) f (service_instances db)).1 db)).
Proof.
  split.
  - split_and!; intros k Hk; [by apply is_Some_update_row..|done].
  - intros Hok. eapply aggregate_ok_refresh; [done|done|]. intros s' n' Hne. simpl.
    apply lookup_update_row_ne. congruence.
Qed.

(** An update of a service that keeps its declaration and status. *)
Lemma svc_step_service s f db :
  (∀ r, sv_is_declared (f r) = sv_is_declared r ∧ sv_runtime_status (f r) = sv_runtime_status r) →
  svc_step db (set_services (update_row s (λ _, True) f (services db)).1 db).
Proof.
  intros Hf. split.
  - split_and!; intros k Hk; [by apply is_Some_update_row|done..].
  - intros Hok. eapply aggregate_ok_same; [done| |done]. intros s' row'. simpl.
    destruct (decide (s = s')) as [<-|]; [|rewrite lookup_update_row_ne by done; eauto].
    rewrite lookup_update_row_eq, fmap_Some. intros (r & Hr & ->) Hd. exists r.
    destruct (Hf r). split_and!; [done|congruence|done].
Qed.

(** An update of instances that keeps declaration and status. *)
Lemma svc_step_instances t db :
  (∀ k, declared_view <$> t !! k = declared_view <$> service_instances db !! k) →
  svc_step db (set_service_instances t db).
Proof.
  intros Hv. split.
  - split_and!; intros k Hk; try done. simpl. specialize (Hv k).
    rewrite <-(fmap_is_Some declared_view), Hv. by apply fmap_is_Some.
  - intros Hok. eapply aggregate_ok_same; [done|eauto|]. intros k. simpl. specialize (Hv k).
    destruct (t !! k), (service_instances db !! k); simpl in *; congruence.
Qed.

(** ** The operations *)
Section svc_ops.
Context `{SQLite}.

Lemma ensure_instance_svc ts db target db' :
  ensure_instance ts db target = Ok db' → svc_step db db'.
Proof.
  intros [->|(Hn & _ & _ & ->)]%ensure_instance_Ok; [done|]. split.
  - split_and!; intros k Hk; try done. simpl. by apply lookup_insert_is_Some'; right.
  - intros Hok. eapply aggregate_ok_same; [done|eauto|]. intros k. simpl.
    destruct (decide ((sit_ServiceName target, sit_NodeID target) = k)) as [<-|];
      [by rewrite lookup_insert_eq, Hn|by rewrite lookup_insert_ne].
Qed.

Lemma insertTaskRecord_svc db record db' : insertTaskRecord db record = Ok db' → svc_step db db'.
Proof. intros [_ ->]%insertTaskRecord_Ok. by apply svc_same_step. Qed.

Lemma updateServiceFromCompletedTask_svc id t db db' :
  updateServiceFromCompletedTask id t db = Ok db' → svc_step db db'.
Proof.
  unfold updateServiceFromCompletedTask. destruct (tasks db !! id) as [row|]; [|done].
  case_decide; [by intros [= <-]|].
  set (db1 := set_services _ _). assert (Hdb1 : svc_step db db1) by (by apply svc_step_service).
  case_decide; intros Heq; simplify_eq; [done|]. etrans; [exact Hdb1|].
  apply (svc_step_instance_refresh _ _ _ db1).
Qed.

Lemma updateRuntimeFromAgentTask_svc id s t db db' :
  updateRuntimeFromAgentTask id s t db = Ok db' → svc_step db db'.
Proof.
  unfold updateRuntimeFromAgentTask. destruct (tasks db !! id); [|done].
  case_decide; [by intros [= <-]|].
  destruct (runtime_of_completion _ _); intros Heq; simplify_eq; [|done].
  apply svc_step_instance_refresh.
Qed.

Lemma enqueue_outbox_svc uuid id e t db db' :
  enqueue_outbox uuid id e t db = Ok db' → svc_same db db'.
Proof. unfold enqueue_outbox. repeat case_match; intros; simplify_eq; by split_and!. Qed.

Lemma complete_followup_svc uuid id s t db db' :
  complete_followup uuid id s t db = Ok db' → svc_step db db'.
Proof.
  unfold complete_followup. intros Hrun. ok_inv.
  etrans; [by eapply updateServiceFromCompletedTask_svc|].
  etrans; [by eapply updateRuntimeFromAgentTask_svc|].
  apply enqueue_outbox_svc in Hrun. by apply svc_same_step.
Qed.

Lemma CompleteTask_svc id status t summary db db' :
  CompleteTask id status t summary db = Ok db' → svc_step db db'.
Proof.
  intros (row & db1 & _ & _ & _ & Hup & ->)%CompleteTask_Ok.
  apply updateServiceFromCompletedTask_svc in Hup.
  etrans; [|apply svc_same_step; done]. etrans; [|exact Hup]. by apply svc_same_step.
Qed.

Lemma CompleteTaskExecution_svc uuid id eid status t summary db db' :
  CompleteTaskExecution uuid id eid status t summary db = Ok db' → svc_step db db'.
Proof.
  intros (_ & [[_ Hc]|[(_ & row & _ & _ & _ & _ & ->)|(_ & row & _ & _ & _ & _ & Hf)]])
    %CompleteTaskExecution_Ok; [by eapply CompleteTask_svc|done|].
  apply complete_followup_svc in Hf. etrans; [|exact Hf]. by apply svc_same_step.
Qed.

Lemma FailLostTaskExecution_svc uuid id t summary db db' :
  FailLostTaskExecution uuid id t summary db = Ok db' → svc_step db db'.
Proof.
  intros (row & _ & _ & _ & Hf)%FailLostTaskExecution_Ok.
  apply complete_followup_svc in Hf. etrans; [|exact Hf]. by apply svc_same_step.
Qed.

Lemma nodes_step t db :
  (∀ n, is_Some (nodes db !! n) → is_Some (t !! n)) → svc_step db (set_nodes t db).
Proof. intros Hn. split; [|done]. by split_and!. Qed.

Lemma SyncConfiguredNodes_svc ids db : svc_step db (SyncConfiguredNodes ids db).
Proof.
  apply nodes_step. intros n Hn. unfold SyncConfiguredNodes.
  rewrite (lookup_foldl_upsert (λ x, x)) by done. case_decide; [eauto|].
  by rewrite lookup_fmap, fmap_is_Some.
Qed.

Lemma SetServiceInstancePendingDeploy_svc s n rev now db :
  svc_step db (SetServiceInstancePendingDeploy s n rev now db).
Proof.
  apply svc_step_instances. intros k.
  destruct (decide ((s, n) = k)) as [<-|]; [|by rewrite lookup_update_row_ne].
  rewrite lookup_update_row_eq. by destruct (service_instances db !! (s, n)).
Qed.

Lemma ClearServiceInstancePendingDeploy_svc s n now db :
  svc_step db (ClearServiceInstancePendingDeploy s n now db).
Proof.
  apply svc_step_instances. intros k.
  destruct (decide ((s, n) = k)) as [<-|]; [|by rewrite lookup_update_row_ne].
  rewrite lookup_update_row_eq. by destruct (service_instances db !! (s, n)).
Qed.

Lemma ClearServicePendingDeploy_svc s now db : svc_step db (ClearServicePendingDeploy s now db).
Proof.
  apply svc_step_instances. intros k. rewrite lookup_update_where.
  destruct (service_instances db !! k); [|done]. simpl. by case_decide.
Qed.

Lemma SetServicePendingDeploy_svc s ns rev now db :
  svc_step db (SetServicePendingDeploy s ns rev now db).
Proof.
  unfold SetServicePendingDeploy. revert db. induction ns as [|n ns IH]; intros db; [done|].
  etrans; [|apply IH]. apply SetServiceInstancePendingDeploy_svc.
Qed.

Lemma SyncDeclaredServices_svc now decl db :
  NoDup decl.*1 → svc_step db (SyncDeclaredServices now decl db).
Proof.
  intros Hnd. split; [|by intros _; apply SyncDeclaredServices_aggregate].
  destruct (SyncDeclaredServices_tables now decl db Hnd) as (Hi & Hs & Hn & _). split_and!.
  - intros s Hk. rewrite Hs. case_decide; [eauto|]. by apply fmap_is_Some.
  - intros k Hk. rewrite Hi. case_decide; [eauto|]. by apply fmap_is_Some.
  - intros n [r Hr]. rewrite Hn, Hr. eauto.
Qed.

Lemma UpdateServiceInstanceRuntimeStatus_svc s n status t db db' :
  UpdateServiceInstanceRuntimeStatus s n status t db = Ok db' → svc_step db db'.
Proof.
  unfold UpdateServiceInstanceRuntimeStatus. repeat (case_decide; [done|]).
  pose proof (svc_step_instance_refresh s n (si_set_runtime status (Time.rfc3339 t)) db) as Hs.
  destruct (update_row _ _ _ _) as [tbl k]. case_decide; [done|]. by intros [= <-].
Qed.

Lemma adds_svc db db' : adds db db' → svc_step db db'.
Proof.
  induction 1 as [|db1 db2 db3 Hp _ IH]; [done|]. etrans; [|exact IH].
  destruct Hp; eauto using ensure_instance_svc, insertTaskRecord_svc.
Qed.

Lemma db_call_svc db db' : db_call db db' → svc_step db db'.
Proof.
  destruct 1; eauto using adds_svc, CreateTask_adds, CreateTaskWithConstraints_adds,
    CreateTasks_adds, CompleteTask_svc, CompleteTaskExecution_svc, FailLostTaskExecution_svc,
    SyncConfiguredNodes_svc, SyncDeclaredServices_svc, UpdateServiceInstanceRuntimeStatus_svc,
    SetServiceInstancePendingDeploy_svc, SetServicePendingDeploy_svc,
    ClearServiceInstancePendingDeploy_svc, ClearServicePendingDeploy_svc.
  all: try (apply only_tasks_svc; eauto with composia; fail).
  all: try (apply svc_same_step; by split_and!).
  - match goal with H : UpsertTaskStep _ _ = Ok _ |- _ =>
      apply UpsertTaskStep_Ok in H as [(? & _ & _ & _ & ->)|(_ & _ & _ & ->)] end; [done|].
    by apply svc_same_step.
  - apply svc_same_step. by eapply enqueue_outbox_svc.
  - apply nodes_step. intros n Hn. destruct (decide (hb_NodeID h = n)) as [<-|].
    + rewrite lookup_upsert. eauto.
    + by rewrite lookup_upsert_ne.
  - apply nodes_step. intros n Hn. rewrite lookup_update_where. by apply fmap_is_Some.
Qed.
End svc_ops.
