(* ===== verification/StoreSafety.v ===== *)
(** * The invariant of the store over its reachable states *)
From S2P Require Export StoreInvariants.

Section safety.
Context `{SQLite}.

(** ** Row-wise facts *)
Definition fresh_row (r : TaskRow) : Prop :=
  task_checks r ∧ tk_exec r = no_exec ∧ tk_log_confirmed_seq r = 0%Z.

Lemma inserted_fresh db record db' :
  insertTaskRecord db record = Ok db' → fresh_row (inserted_row record).
Proof. by intros [[_ ? _ _ _ _] _]%insertTaskRecord_Ok. Qed.

Definition rows (P : TaskRow → Prop) (db : DB) : Prop := ∀ id r, tasks db !! id = Some r → P r.

Lemma rows_add_prim (P : TaskRow → Prop) db db' :
  (∀ r, fresh_row r → P r) → add_prim db db' → rows P db → rows P db'.
Proof.
  intros Hf Hp Hr. destruct Hp as [ts target db' [->|(_ & _ & _ & ->)]%ensure_instance_Ok
    |record db' Hi]; [done|done|].
  pose proof (inserted_fresh _ _ _ Hi). apply insertTaskRecord_Ok in Hi as [_ ->].
  intros id r. simpl. intros [[<- <-]|[_ ?]]%lookup_insert_Some; eauto.
Qed.

Lemma rows_tasks_step (P : TaskRow → Prop) o db db' :
  (∀ r r', P r → row_step o r r' → P r') →
  tasks_step o (tasks db) (tasks db') → rows P db → rows P db'.
Proof.
  intros Hs Ht Hr id r' Hr'. specialize (Ht id). rewrite Hr' in Ht.
  destruct (tasks db !! id) eqn:E; [|done]. eauto.
Qed.

(** A property of rows that holds of fresh rows and that the row steps keep
    is kept by every step. *)
Lemma rows_step (P : TaskRow → Prop) s s' :
  (∀ r, fresh_row r → P r) → (∀ o r r', P r → row_step o r r' → P r') →
  step s s' → rows P (st_db s) → rows P (st_db s').
Proof.
  intros Hf Hs Hstep Hr. destruct Hstep as [used db db' Hc|]; simpl in *.
  - apply db_call_tasks in Hc as [Ha|Ht].
    + clear -Hf Ha Hr. induction Ha as [|db1 db2 db3 Hp _ IH]; [done|].
      eauto using rows_add_prim.
    + by eapply (rows_tasks_step P None); eauto.
  - eapply (rows_tasks_step P (Some uuid)); eauto. by eapply ClaimNextPendingTaskForNode_step.
Qed.

Lemma fresh_row_lease_ok r : fresh_row r → lease_ok r.
Proof.
  intros ((_ & _ & Hst & _) & He & _). split; [exact Hst|]. by rewrite He.
Qed.

Lemma row_step_checks o r r' :
  task_checks r ∧ lease_ok r → row_step o r r' → task_checks r' ∧ lease_ok r'.
Proof.
  intros [Hc Hl] Hs. pose proof (row_step_lease_ok _ _ _ Hl Hs) as Hl'. split; [|done].
  destruct Hc as (? & ? & _ & ?). destruct Hl' as [Hst _]. change (tk_status r' ∈ sqliteValidTaskStatuses) in Hst.
  unfold task_checks. destruct Hs; split_and!; done.
Qed.

Lemma row_step_core o r r' : row_step o r r' → tk_core r' = tk_core r.
Proof. by destruct 1. Qed.

(** The rows a step keeps the index keys of: a row that is active after the
    step was active before, with the same columns. *)
Lemma row_step_active o r r' :
  row_step o r r' → tk_status r' ∈ active_statuses → tk_status r ∈ active_statuses.
Proof.
  destruct 1 as [|? ? ? ? ? Hp|? ? Hp|? ? Hp|? ? Hp| |? ? ? ? ? Ht| | |? ? ? ? ? ? Ht|? Hp| |];
    simpl; intros Ha; try done; try (rewrite Hp; in_closed);
    by destruct (terminal_not_active _ Ht).
Qed.

Lemma row_step_service_key o r r' k :
  row_step o r r' → active_service_key r' = Some k → active_service_key r = Some k.
Proof.
  intros Hs. rewrite !active_service_key_Some, (row_step_core _ _ _ Hs).
  intros (? & ? & ? & ?). eauto using row_step_active.
Qed.
Lemma row_step_instance_key o r r' k :
  row_step o r r' → active_service_instance_key r' = Some k →
  active_service_instance_key r = Some k.
Proof.
  destruct k. intros Hs. rewrite !active_service_instance_key_Some, (row_step_core _ _ _ Hs).
  intros (? & ? & ? & ?). eauto using row_step_active.
Qed.

(** ** Unique indexes *)
Lemma index_tasks_step {X} (key : TaskRow → option X) o t t' :
  (∀ r r' k, row_step o r r' → key r' = Some k → key r = Some k) →
  tasks_step o t t' → index_unique key t → index_unique key t'.
Proof.
  intros Hk Ht Hu. eapply index_unique_sub; [done|]. intros id r' k Hr' Hkey.
  specialize (Ht id). rewrite Hr' in Ht. destruct (t !! id) as [r|]; [|done]. eauto.
Qed.

Definition indexes_unique (db : DB) : Prop :=
  index_unique active_service_key (tasks db) ∧
  index_unique active_service_instance_key (tasks db) ∧
  index_unique dedupe_index_key (tasks db).

Lemma indexes_tasks_step o db db' :
  tasks_step o (tasks db) (tasks db') → indexes_unique db → indexes_unique db'.
Proof.
  intros Ht (H1 & H2 & H3). split_and!; eapply index_tasks_step; try done;
    eauto using row_step_service_key, row_step_instance_key.
  intros r r' k Hs. unfold dedupe_index_key. by rewrite (row_step_core _ _ _ Hs).
Qed.

Lemma indexes_add_prim db db' : add_prim db db' → indexes_unique db → indexes_unique db'.
Proof.
  intros [ts target ? [->|(_ & _ & _ & ->)]%ensure_instance_Ok
    |record ? [[] ->]%insertTaskRecord_Ok] (H1 & H2 & H3); [done..|].
  split_and!; apply index_unique_insert; auto.
Qed.

Lemma indexes_step s s' : step s s' → indexes_unique (st_db s) → indexes_unique (st_db s').
Proof.
  intros Hstep Hu. destruct Hstep as [used db db' Hc|]; simpl in *.
  - apply db_call_tasks in Hc as [Ha|Ht]; [|by eapply indexes_tasks_step].
    induction Ha; eauto using indexes_add_prim.
  - eapply indexes_tasks_step; [|done]. by eapply ClaimNextPendingTaskForNode_step.
Qed.

(** ** Foreign keys of the task rows *)
Definition fk_ok (db : DB) : Prop :=
  ∀ id r, tasks db !! id = Some r → task_foreign_keys db id (tk_core r).

Definition grows (db db' : DB) : Prop :=
  parents_grow db db' ∧ ∀ id, is_Some (tasks db !! id) → is_Some (tasks db' !! id).

Lemma task_foreign_keys_grows db db' id core :
  grows db db' → task_foreign_keys db id core → task_foreign_keys db' id core.
Proof.
  intros [(Hs & Hi & Hn) Ht] (F1 & F2 & F3 & F4). unfold task_foreign_keys.
  destruct (tc_service_name core), (tc_node_id core), (tc_attempt_of_task_id core);
    split_and!; auto; destruct F4; auto.
Qed.

Lemma tasks_step_grows o t t' id : tasks_step o t t' → is_Some (t !! id) → is_Some (t' !! id).
Proof. intros Ht [r Hr]. specialize (Ht id). rewrite Hr in Ht. destruct (t' !! id); eauto. done. Qed.

Lemma fk_tasks_step o db db' :
  parents_grow db db' → tasks_step o (tasks db) (tasks db') → fk_ok db → fk_ok db'.
Proof.
  intros Hp Ht Hfk id r' Hr'. pose proof (Ht id) as Hid. rewrite Hr' in Hid.
  destruct (tasks db !! id) as [r|] eqn:Hr; [|done]. rewrite (row_step_core _ _ _ Hid).
  eapply task_foreign_keys_grows; [|by apply Hfk]. split; [done|]. eauto using tasks_step_grows.
Qed.

Lemma fk_add_prim db db' : add_prim db db' → fk_ok db → fk_ok db'.
Proof.
  intros Hp Hfk. assert (Hg : parents_grow db db').
  { destruct Hp; [by apply ensure_instance_svc in H0 as []|by apply insertTaskRecord_svc in H0 as []]. }
  destruct Hp as [ts target ? [->|(_ & _ & _ & ->)]%ensure_instance_Ok
    |record ? [Hok ->]%insertTaskRecord_Ok]; [done|..]; intros id r Hr.
  - eapply task_foreign_keys_grows; [split; [exact Hg|done]|]. by apply Hfk.
  - assert (grows db (set_tasks (<[rec_TaskID record:=inserted_row record]> (tasks db)) db)).
    { split; [exact Hg|]. intros i Hi. simpl. by apply lookup_insert_is_Some'; right. }
    eapply task_foreign_keys_grows; [done|].
    simpl in Hr. apply lookup_insert_Some in Hr as [[<- <-]|[_ Hr]]; [by apply Hok|by apply Hfk].
Qed.

Lemma fk_step s s' : step s s' → fk_ok (st_db s) → fk_ok (st_db s').
Proof.
  intros Hstep Hfk. destruct Hstep as [used db db' Hc|]; simpl in *.
  - pose proof (db_call_svc _ _ Hc) as [Hg _].
    apply db_call_tasks in Hc as [Ha|Ht]; [|by eapply fk_tasks_step].
    clear -Ha Hfk. induction Ha; eauto using fk_add_prim.
  - eapply fk_tasks_step; [| |done]; [|by eapply ClaimNextPendingTaskForNode_step].
    match goal with Hc : ClaimNextPendingTaskForNode _ _ _ _ _ = _ |- _ =>
      by apply ClaimNextPendingTaskForNode_only, only_tasks_svc in Hc as [] end.
Qed.
End safety.

Section safety.
Context `{SQLite}.

(** ** Execution ids *)
Lemma row_step_id o r r' e :
  row_step o r r' → ex_execution_id (tk_exec r') = Some e →
  ex_execution_id (tk_exec r) = Some e ∨ o = Some e.
Proof. destruct 1; simpl; intros He; simplify_eq; auto. Qed.

(** The claim of a node: the selected row is offered. *)
Lemma ClaimNextPendingTaskForNode_Ok node started lease uuid db db' record :
  ClaimNextPendingTaskForNode node started lease uuid db = Ok (db', record) ↔
  ∃ id row,
    select_first (λ _ r, tk_status r = StatusPending ∧ tc_node_id (tk_core r) = Some node ∧
                         tc_type (tk_core r) ∉ [TypeDNSUpdate; TypeMigrate])
      claim_key (tasks db) = Some (id, row) ∧
    db' = set_tasks (<[id := offer started lease uuid row]> (tasks db)) db ∧
    record = rec_set_running started uuid ExecutionOffered (Some lease)
               (scanPendingTaskRecord id row).
Proof.
  unfold ClaimNextPendingTaskForNode.
  destruct (select_first _ _ _) as [[id row]|] eqn:Hsel; [|naive_solver].
  apply select_first_Some in Hsel as (Hrow & (Hp & _) & _). unfold update_row.
  rewrite Hrow, decide_True by done. simpl. naive_solver.
Qed.

Definition ids_ok (used : gset string) (db : DB) : Prop :=
  (∀ id r e, tasks db !! id = Some r → ex_execution_id (tk_exec r) = Some e → e ∈ used ∧ e ≠ "") ∧
  (∀ id1 id2 r1 r2 e, tasks db !! id1 = Some r1 → tasks db !! id2 = Some r2 →
     ex_execution_id (tk_exec r1) = Some e → ex_execution_id (tk_exec r2) = Some e → id1 = id2).

Lemma ids_tasks_step used db db' :
  tasks_step None (tasks db) (tasks db') → ids_ok used db → ids_ok used db'.
Proof.
  intros Ht [Hu Hinj].
  assert (Hback : ∀ id r' e, tasks db' !! id = Some r' → ex_execution_id (tk_exec r') = Some e →
    ∃ r, tasks db !! id = Some r ∧ ex_execution_id (tk_exec r) = Some e).
  { intros id r' e Hr' He. specialize (Ht id). rewrite Hr' in Ht.
    destruct (tasks db !! id) as [r|]; [|done].
    destruct (row_step_id _ _ _ _ Ht He) as [?|?]; [eauto|done]. }
  split.
  - intros id r' e Hr' He. destruct (Hback _ _ _ Hr' He) as (r & ? & ?). eauto.
  - intros id1 id2 r1 r2 e H1 H2 He1 He2.
    destruct (Hback _ _ _ H1 He1) as (? & ? & ?). destruct (Hback _ _ _ H2 He2) as (? & ? & ?).
    eauto.
Qed.

Lemma ids_add_prim used db db' : add_prim db db' → ids_ok used db → ids_ok used db'.
Proof.
  intros [ts target ? [->|(_ & _ & _ & ->)]%ensure_instance_Ok
    |record ? [Hok ->]%insertTaskRecord_Ok]; [done|done|]. intros [Hu Hinj].
  split; simpl.
  - intros id r e [[<- <-]|[_ ?]]%lookup_insert_Some; [done|eauto].
  - intros id1 id2 r1 r2 e [[<- <-]|[_ ?]]%lookup_insert_Some
      [[<- <-]|[_ ?]]%lookup_insert_Some; try done. eauto.
Qed.

Lemma ids_step s s' : step s s' → ids_ok (used_ids s) (st_db s) → ids_ok (used_ids s') (st_db s').
Proof.
  intros Hstep Hids. destruct Hstep as [used db db' Hc|used db node started lease uuid db' record Hfresh Hne Hc];
    simpl in *.
  - apply db_call_tasks in Hc as [Ha|Ht]; [|by eapply ids_tasks_step].
    induction Ha; eauto using ids_add_prim.
  - apply ClaimNextPendingTaskForNode_Ok in Hc as (id & row & Hsel & -> & _).
    destruct Hids as [Hu Hinj]. split; simpl.
    + intros id' r e [[<- <-]|[_ Hr]]%lookup_insert_Some He; [simpl in He; simplify_eq; set_solver|].
      destruct (Hu _ _ _ Hr He). set_solver.
    + intros id1 id2 r1 r2 e [[<- <-]|[_ H1]]%lookup_insert_Some
        [[<- <-]|[_ H2]]%lookup_insert_Some He1 He2; simpl in *; simplify_eq; try done.
      * by destruct (Hu _ _ _ H2 He2).
      * by destruct (Hu _ _ _ H1 He1).
      * eauto.
Qed.

(** ** The outbox *)
Definition outbox_ok (db : DB) : Prop :=
  (∀ e r, task_outbox db !! e = Some r → is_Some (tasks db !! ob_task_id r)) ∧
  (∀ e1 e2 r1 r2, task_outbox db !! e1 = Some r1 → task_outbox db !! e2 = Some r2 →
     ob_task_id r1 = ob_task_id r2 → ob_event_type r1 = ob_event_type r2 → e1 = e2).

(** What a call may do to the outbox: update an event without changing what
    it is about, and add an event that is about something new. *)
Definition outbox_step (db db' : DB) : Prop :=
  (∀ e r, task_outbox db !! e = Some r →
     ∃ r', task_outbox db' !! e = Some r' ∧ ob_task_id r' = ob_task_id r ∧
           ob_event_type r' = ob_event_type r ∧ ob_created_at r' = ob_created_at r ∧
           (is_Some (ob_processed_at r) → is_Some (ob_processed_at r'))) ∧
  (outbox_ok db → outbox_ok db').

#[export] Instance outbox_step_preorder : PreOrder outbox_step.
Proof.
  split.
  - intros db. split; [|done]. eauto 10.
  - intros db1 db2 db3 [H1 H2] [H3 H4]. split; [|auto]. intros e r Hr.
    destruct (H1 e r Hr) as (r2 & Hr2 & ? & ? & ? & ?).
    destruct (H3 e r2 Hr2) as (r3 & ? & ? & ? & ? & ?). exists r3. split_and!; try congruence. auto.
Qed.

Lemma outbox_same db db' :
  task_outbox db' = task_outbox db → (∀ id, is_Some (tasks db !! id) → is_Some (tasks db' !! id)) →
  outbox_step db db'.
Proof.
  intros Ho Ht. split; [rewrite Ho; eauto 10|]. intros [H1 H2]. split; rewrite Ho; eauto.
Qed.

Lemma outbox_has_spec id e (t : gmap string OutboxRow) :
  outbox_has id e t = false ↔ ∀ k r, t !! k = Some r → ¬ (ob_task_id r = id ∧ ob_event_type r = e).
Proof.
  unfold outbox_has. rewrite bool_decide_eq_false.
  rewrite <-(count_where_zero (λ _ r, ob_task_id r = id ∧ ob_event_type r = e)). lia.
Qed.

Lemma enqueue_outbox_Ok uuid id e t db db' :
  enqueue_outbox uuid id e t db = Ok db' →
  (outbox_has id e (task_outbox db) = true ∧ db' = db) ∨
  (outbox_has id e (task_outbox db) = false ∧ task_outbox db !! uuid = None ∧
   is_Some (tasks db !! id) ∧
   db' = set_task_outbox (<[uuid := MkOutboxRow id e 0 (Time.rfc3339 t) None (Time.rfc3339 t)
                                      None None None]> (task_outbox db)) db).
Proof.
  unfold enqueue_outbox. destruct (outbox_has _ _ _); [naive_solver|].
  case_decide as Hk; [done|]. case_decide; [done|]. intros [= <-]. right.
  split_and!; [done|by apply eq_None_not_Some|done|done].
Qed.

Lemma enqueue_outbox_step uuid id e t db db' :
  enqueue_outbox uuid id e t db = Ok db' → outbox_step db db'.
Proof.
  intros [[_ ->]|(Hno & Hu & Hid & ->)]%enqueue_outbox_Ok; [done|].
  rewrite outbox_has_spec in Hno. split; simpl.
  - intros k r Hr. exists r. rewrite lookup_insert_ne by congruence. eauto.
  - intros [H1 H2]. split; simpl.
    + intros k r [[<- <-]|[_ ?]]%lookup_insert_Some; [done|eauto].
    + intros k1 k2 r1 r2 [[<- <-]|[_ Hk1]]%lookup_insert_Some [[<- <-]|[_ Hk2]]%lookup_insert_Some
        Ht He; simpl in *; try done.
      * by destruct (Hno _ _ Hk2).
      * by destruct (Hno _ _ Hk1).
      * eauto.
Qed.

Lemma update_event_step eid f db :
  (∀ r, ob_task_id (f r) = ob_task_id r ∧ ob_event_type (f r) = ob_event_type r ∧
        ob_created_at (f r) = ob_created_at r ∧
        (is_Some (ob_processed_at r) → is_Some (ob_processed_at (f r)))) →
  outbox_step db (update_event eid f db).
Proof.
  intros Hf.
  assert (Hl : ∀ k, task_outbox (update_event eid f db) !! k =
    (if decide (eid = k) then f <$> task_outbox db !! k else task_outbox db !! k)).
  { intros k. unfold update_event. simpl. case_decide; subst;
      [by rewrite lookup_update_row_eq|by rewrite lookup_update_row_ne]. }
  assert (Hb : ∀ k r', task_outbox (update_event eid f db) !! k = Some r' →
    ∃ r, task_outbox db !! k = Some r ∧ ob_task_id r' = ob_task_id r ∧
         ob_event_type r' = ob_event_type r).
  { intros k r'. rewrite Hl. case_decide; [|eauto]. intros (r & ? & ->)%fmap_Some.
    destruct (Hf r) as (? & ? & _). eauto. }
  split.
  - intros k r Hr. rewrite Hl, Hr. destruct (Hf r) as (? & ? & ? & ?).
    case_decide; simpl; eauto 10.
  - intros [H1 H2]. split.
    + intros k r' (r & ? & -> & _)%Hb. by eapply H1.
    + intros k1 k2 r1' r2' (r1 & ? & ? & ?)%Hb (r2 & ? & ? & ?)%Hb ??.
      eapply H2; try done; congruence.
Qed.
End safety.

Section outbox_and_steps.
Context `{SQLite}.

(** ** The other tables along the calls *)
Definition others_same (db db' : DB) : Prop :=
  task_outbox db' = task_outbox db ∧ task_steps db' = task_steps db.

Lemma updateServiceFromCompletedTask_others id t db db' :
  updateServiceFromCompletedTask id t db = Ok db' → others_same db db'.
Proof.
  unfold updateServiceFromCompletedTask. destruct (tasks db !! id); [|done].
  repeat case_decide; intros; simplify_eq; done.
Qed.
Lemma updateRuntimeFromAgentTask_others id s t db db' :
  updateRuntimeFromAgentTask id s t db = Ok db' → others_same db db'.
Proof.
  unfold updateRuntimeFromAgentTask. destruct (tasks db !! id); [|done].
  case_decide; [intros; by simplify_eq|].
  destruct (runtime_of_completion _ _); intros; by simplify_eq.
Qed.

Lemma complete_followup_outbox uuid id s t db db' :
  complete_followup uuid id s t db = Ok db' → outbox_step db db'.
Proof.
  unfold complete_followup. intros Hrun. ok_inv.
  match goal with H1 : updateServiceFromCompletedTask _ _ _ = Ok _,
                  H2 : updateRuntimeFromAgentTask _ _ _ _ = Ok _ |- _ =>
    pose proof (updateServiceFromCompletedTask_tasks _ _ _ _ H1) as T1;
    pose proof (updateRuntimeFromAgentTask_tasks _ _ _ _ _ H2) as T2;
    apply updateServiceFromCompletedTask_others in H1 as [O1 _];
    apply updateRuntimeFromAgentTask_others in H2 as [O2 _]
  end.
  etrans; [|by eapply enqueue_outbox_step]. apply outbox_same; simpl; [congruence|].
  intros i. by rewrite T2, T1.
Qed.

Lemma set_row_outbox id r r' db :
  tasks db !! id = Some r → outbox_step db (set_tasks (<[id := r']> (tasks db)) db).
Proof.
  intros Hr. apply outbox_same; [done|]. intros i Hi. simpl. by apply lookup_insert_is_Some'; right.
Qed.

Lemma CompleteTask_outbox id status t summary db db' :
  CompleteTask id status t summary db = Ok db' → outbox_step db db'.
Proof.
  intros Hc. pose proof (CompleteTask_step _ _ _ _ _ _ Hc) as Ht.
  apply CompleteTask_Ok in Hc as (row & db1 & _ & _ & _ & Hup & ->).
  apply updateServiceFromCompletedTask_others in Hup as [Ho _].
  apply outbox_same; [done|]. eauto using tasks_step_grows.
Qed.

Lemma CompleteTaskExecution_outbox uuid id eid status t summary db db' :
  CompleteTaskExecution uuid id eid status t summary db = Ok db' → outbox_step db db'.
Proof.
  intros (_ & [[_ Hc]|[(_ & row & _ & _ & _ & _ & ->)|(_ & row & Hr & _ & _ & _ & Hf)]])
    %CompleteTaskExecution_Ok; [by eapply CompleteTask_outbox|done|].
  etrans; [by eapply set_row_outbox|by eapply complete_followup_outbox].
Qed.

Lemma FailLostTaskExecution_outbox uuid id t summary db db' :
  FailLostTaskExecution uuid id t summary db = Ok db' → outbox_step db db'.
Proof.
  intros (row & Hr & _ & _ & Hf)%FailLostTaskExecution_Ok.
  etrans; [by eapply set_row_outbox|by eapply complete_followup_outbox].
Qed.

Lemma adds_outbox db db' : adds db db' → outbox_step db db'.
Proof.
  induction 1 as [|db1 db2 db3 Hp _ IH]; [done|]. etrans; [|exact IH].
  destruct Hp as [ts target ? [->|(_ & _ & _ & ->)]%ensure_instance_Ok
    |record ? [_ ->]%insertTaskRecord_Ok]; [done|by apply outbox_same|].
  apply outbox_same; [done|]. intros i Hi. simpl. by apply lookup_insert_is_Some'; right.
Qed.

Lemma only_tasks_outbox o db db' :
  only_tasks db db' → tasks_step o (tasks db) (tasks db') → outbox_step db db'.
Proof. intros [t ->] Ht. apply outbox_same; [done|]. eauto using tasks_step_grows. Qed.

Lemma SetServicePendingDeploy_others s ns rev now db :
  others_same db (SetServicePendingDeploy s ns rev now db).
Proof.
  unfold SetServicePendingDeploy. revert db. induction ns as [|n ns IH]; intros db; [done|].
  destruct (IH (SetServiceInstancePendingDeploy s n rev now db)) as [Ho Hs].
  cbn [foldl]. unfold others_same. by rewrite Ho, Hs.
Qed.

Lemma db_call_outbox db db' : db_call db db' → outbox_step db db'.
Proof.
  intros Hc. pose proof (db_call_tasks _ _ Hc) as Ht.
  destruct Hc; eauto using adds_outbox, CreateTask_adds, CreateTaskWithConstraints_adds,
    CreateTasks_adds, CompleteTask_outbox, CompleteTaskExecution_outbox,
    FailLostTaskExecution_outbox, enqueue_outbox_step.
  all: try (destruct Ht as [|Ht]; [by apply adds_outbox|];
            eapply only_tasks_outbox; eauto with composia; fail).
  all: try (apply outbox_same; done).
  - match goal with Hs : UpsertTaskStep _ _ = Ok _ |- _ =>
      apply UpsertTaskStep_Ok in Hs as [(? & _ & _ & _ & ->)|(_ & _ & _ & ->)] end; [done|].
    by apply outbox_same.
  - apply update_event_step. intros r; split_and!; simpl; eauto.
  - apply update_event_step. intros r; split_and!; simpl; eauto.
  - apply update_event_step. intros r; split_and!; simpl; eauto.
  - apply update_event_step. intros r; split_and!; simpl; eauto.
  - destruct (SyncDeclaredServices_other now decl db) as (Hta & _ & Ho & _).
    apply outbox_same; [done|]. by rewrite Hta.
  - match goal with Hs : UpdateServiceInstanceRuntimeStatus _ _ _ _ _ = Ok _ |- _ =>
      unfold UpdateServiceInstanceRuntimeStatus in Hs end.
    repeat (case_decide; [done|]). destruct (update_row _ _ _ _) as [t0 k].
    case_decide; [done|]. simplify_eq. by apply outbox_same.
  - destruct (SetServicePendingDeploy_others s ns rev now db) as [Ho _].
    apply outbox_same; [done|]. by rewrite SetServicePendingDeploy_tasks.
Qed.

(** ** Steps of a task: a finished step does not change any more *)
Definition steps_step (db db' : DB) : Prop :=
  ∀ k r, task_steps db !! k = Some r →
    ∃ r', task_steps db' !! k = Some r' ∧ (isTerminalStatus (ts_status r) = true → r' = r).

#[export] Instance steps_step_preorder : PreOrder steps_step.
Proof.
  split; [intros db k r Hr; eauto|]. intros db1 db2 db3 H1 H2 k r Hr.
  destruct (H1 k r Hr) as (r2 & Hr2 & Hs2). destruct (H2 k r2 Hr2) as (r3 & Hr3 & Hs3).
  exists r3. split; [done|]. intros Ht. rewrite (Hs2 Ht) in *. auto.
Qed.

Lemma steps_same db db' : task_steps db' = task_steps db → steps_step db db'.
Proof. intros Heq k r Hr. rewrite Heq. eauto. Qed.

Lemma finish_running_steps_step id status t db : steps_step db (finish_running_steps id status t db).
Proof.
  intros k r Hr. unfold finish_running_steps.
  change (task_steps (set_task_steps ?t _)) with t. rewrite lookup_update_where, Hr. simpl.
  eexists. split; [done|]. intros Ht. rewrite decide_False; [done|]. intros [_ Hrun].
  rewrite Hrun in Ht. discriminate Ht.
Qed.

Lemma complete_followup_steps uuid id s t db db' :
  complete_followup uuid id s t db = Ok db' → steps_step db db'.
Proof.
  unfold complete_followup. intros Hrun. ok_inv.
  match goal with H1 : updateServiceFromCompletedTask _ _ _ = Ok _,
                  H2 : updateRuntimeFromAgentTask _ _ _ _ = Ok _ |- _ =>
    apply updateServiceFromCompletedTask_others in H1 as [_ S1];
    apply updateRuntimeFromAgentTask_others in H2 as [_ S2]
  end.
  etrans; [apply steps_same, S1|]. etrans; [apply steps_same, S2|].
  etrans; [apply (finish_running_steps_step id s t)|]. apply steps_same.
  by apply enqueue_outbox_Ok in Hrun as [[_ ->]|(_ & _ & _ & ->)].
Qed.

Lemma adds_steps db db' : adds db db' → steps_step db db'.
Proof.
  induction 1 as [|db1 db2 db3 Hp _ IH]; [done|]. etrans; [|exact IH]. apply steps_same.
  by destruct Hp as [ts target ? [->|(_ & _ & _ & ->)]%ensure_instance_Ok
    |record ? [_ ->]%insertTaskRecord_Ok].
Qed.

Lemma only_tasks_steps db db' : only_tasks db db' → steps_step db db'.
Proof. intros [t ->]. by apply steps_same. Qed.

Lemma CompleteTask_steps id status t summary db db' :
  CompleteTask id status t summary db = Ok db' → steps_step db db'.
Proof.
  intros (row & db1 & _ & _ & _ & Hup & ->)%CompleteTask_Ok.
  apply updateServiceFromCompletedTask_others in Hup as [_ Hs].
  etrans; [by apply steps_same|]. apply finish_running_steps_step.
Qed.

Lemma CompleteTaskExecution_steps uuid id eid status t summary db db' :
  CompleteTaskExecution uuid id eid status t summary db = Ok db' → steps_step db db'.
Proof.
  intros (_ & [[_ Hc]|[(_ & row & _ & _ & _ & _ & ->)|(_ & row & _ & _ & _ & _ & Hf)]])
    %CompleteTaskExecution_Ok; [by eapply CompleteTask_steps|done|].
  by apply complete_followup_steps in Hf.
Qed.

Lemma FailLostTaskExecution_steps uuid id t summary db db' :
  FailLostTaskExecution uuid id t summary db = Ok db' → steps_step db db'.
Proof. intros (row & _ & _ & _ & Hf)%FailLostTaskExecution_Ok. by apply complete_followup_steps in Hf. Qed.

Lemma db_call_steps db db' : db_call db db' → steps_step db db'.
Proof.
  destruct 1; eauto using adds_steps, CreateTask_adds, CreateTaskWithConstraints_adds,
    CreateTasks_adds, CompleteTask_steps, CompleteTaskExecution_steps, FailLostTaskExecution_steps.
  all: try (apply only_tasks_steps; eauto with composia; fail).
  all: try (apply steps_same; done).
  - match goal with Hs : UpsertTaskStep _ _ = Ok _ |- _ =>
      apply UpsertTaskStep_Ok in Hs as [(? & _ & _ & _ & ->)|(_ & _ & Hcur & ->)] end; [done|].
    intros k r Hr. simpl. match goal with |- context [<[?k0 := _]> _ !! _] =>
      destruct (decide (k0 = k)) as [<-|] end.
    + rewrite lookup_insert_eq. eexists. split; [done|]. intros Ht.
      destruct (Hcur r Hr) as [Hf _]. congruence.
    + rewrite lookup_insert_ne by done. eauto.
  - apply steps_same.
    match goal with Hs : EnqueueTaskOutboxEvent _ _ _ _ _ = Ok _ |- _ =>
      by apply enqueue_outbox_Ok in Hs as [[_ ->]|(_ & _ & _ & ->)] end.
  - destruct (SyncDeclaredServices_other now decl db) as (_ & Hs & _). by apply steps_same.
  - match goal with Hs : UpdateServiceInstanceRuntimeStatus _ _ _ _ _ = Ok _ |- _ =>
      unfold UpdateServiceInstanceRuntimeStatus in Hs end.
    repeat (case_decide; [done|]). destruct (update_row _ _ _ _) as [t0 k].
    case_decide; [done|]. simplify_eq. by apply steps_same.
  - destruct (SetServicePendingDeploy_others s ns rev now db) as [_ Hs]. by apply steps_same.
Qed.
End outbox_and_steps.

(** ** The invariant of the store *)
Section store_inv.
Context `{SQLite}.

Record store_inv (s : State) : Prop := {
  inv_rows : rows (λ r, task_checks r ∧ lease_ok r) (st_db s);
  inv_indexes : indexes_unique (st_db s);
  inv_foreign_keys : fk_ok (st_db s);
  inv_ids : ids_ok (used_ids s) (st_db s);
  inv_outbox : outbox_ok (st_db s);
  inv_aggregate : aggregate_ok (st_db s);
}.

Lemma step_svc s s' : step s s' → svc_step (st_db s) (st_db s').
Proof.
  destruct 1; simpl; [by apply db_call_svc|].
  eapply only_tasks_svc, ClaimNextPendingTaskForNode_only; eauto.
Qed.

Lemma step_outbox s s' : step s s' → outbox_step (st_db s) (st_db s').
Proof.
  destruct 1 as [|used db node started lease uuid db' record _ _ Hc]; simpl;
    [by apply db_call_outbox|].
  eapply only_tasks_outbox; [by eapply ClaimNextPendingTaskForNode_only|].
  by eapply ClaimNextPendingTaskForNode_step.
Qed.

Lemma step_steps s s' : step s s' → steps_step (st_db s) (st_db s').
Proof.
  destruct 1; simpl; [by apply db_call_steps|].
  eapply only_tasks_steps, ClaimNextPendingTaskForNode_only; eauto.
Qed.

Lemma store_inv_init : store_inv init.
Proof.
  split; try (intros ?*; simpl in *; simplify_map_eq; done).
  - split_and!; intros ?*; simpl in *; by simplify_map_eq.
  - split; intros ?*; simpl in *; by simplify_map_eq.
  - split; intros ?*; simpl in *; by simplify_map_eq.
Qed.

Lemma store_inv_step s s' : step s s' → store_inv s → store_inv s'.
Proof.
  intros Hs [H1 H2 H3 H4 H5 H6]. split.
  - eapply rows_step; [| |exact Hs|exact H1].
    + intros r Hf. split; [apply Hf|by apply fresh_row_lease_ok].
    + apply row_step_checks.
  - by eapply indexes_step.
  - by eapply fk_step.
  - by eapply ids_step.
  - by apply step_outbox in Hs as [_ ?]; auto.
  - by apply step_svc in Hs as [_ ?]; auto.
Qed.

Lemma store_inv_steps s s' : rtc step s s' → store_inv s → store_inv s'.
Proof. induction 1; eauto using store_inv_step. Qed.

Lemma reachable_inv s : reachable s → store_inv s.
Proof. intros Hr. eapply store_inv_steps; [exact Hr|apply store_inv_init]. Qed.

(** The row of a task across a step: it stays, and moves by a row step. *)
Lemma step_row s s' id r :
  step s s' → tasks (st_db s) !! id = Some r →
  ∃ r', tasks (st_db s') !! id = Some r' ∧ ∃ o, row_step o r r'.
Proof.
  assert (Hts : ∀ o db db', tasks_step o (tasks db) (tasks db') → tasks db !! id = Some r →
    ∃ r', tasks db' !! id = Some r' ∧ ∃ o, row_step o r r').
  { intros o db db' Ht Hr. specialize (Ht id). rewrite Hr in Ht.
    destruct (tasks db' !! id); [eauto|done]. }
  intros Hs Hr. destruct Hs as [used db db' Hc|]; simpl in *.
  - apply db_call_tasks in Hc as [Ha|Ht]; [|by eapply Hts].
    exists r. split; [|exists None; constructor].
    clear Hts. induction Ha as [|db1 db2 db3 Hp _ IH]; [done|]. apply IH.
    destruct Hp as [ts target ? [->|(_ & _ & _ & ->)]%ensure_instance_Ok
      |record ? [[Hn _ _ _ _ _] ->]%insertTaskRecord_Ok]; [done|done|].
    simpl. rewrite lookup_insert_ne; [done|congruence].
  - eapply Hts; [|done]. by eapply ClaimNextPendingTaskForNode_step.
Qed.

(** A relation between rows that is a preorder and holds along the row
    steps from good rows holds along every run. *)
Lemma run_row (R : TaskRow → TaskRow → Prop) s s' id r :
  (∀ r, R r r) → (∀ r1 r2 r3, R r1 r2 → R r2 r3 → R r1 r3) →
  (∀ o r1 r2, lease_ok r1 → row_step o r1 r2 → R r1 r2) →
  rtc step s s' → store_inv s → tasks (st_db s) !! id = Some r →
  ∃ r', tasks (st_db s') !! id = Some r' ∧ R r r'.
Proof.
  intros Hrefl Htrans Hstep Hrun. revert r. induction Hrun as [s|s1 s2 s3 Hs _ IH]; intros r Hinv Hr.
  { eauto. }
  destruct (step_row _ _ _ _ Hs Hr) as (r2 & Hr2 & o & Hrs).
  destruct (IH r2) as (r3 & Hr3 & HR); [by eapply store_inv_step|done|].
  exists r3. split; [done|]. eapply Htrans; [|exact HR]. eapply Hstep; [|done].
  by eapply (inv_rows _ Hinv).
Qed.
End store_inv.
