(* ===== verification/StoreExamples.v ===== *)
(** * A run of the store, for the concrete instances of its theorems

    One service on two nodes; a deploy task created, claimed, acknowledged
    and completed, another one claimed and taken back by the sweep. *)
From S2P Require Export StoreSafety.

#[export] Instance sqlite_example : SQLite.
Proof.
  refine {| json_valid := λ s, bool_decide (s ≠ "bad json");
            report_unique l := match l with u :: _ => u | [] => Pk_tasks_task_id end |}.
  intros [|u l] Hl; [done|]. by left.
Defined.

(** The state after a successful call, the argument itself after an error. *)
Definition after {A} (r : result StoreError (DB * A)) (db : DB) : DB :=
  match r with Ok (db', _) => db' | Err _ => db end.
Definition after' (r : result StoreError DB) (db : DB) : DB :=
  match r with Ok db' => db' | Err _ => db end.

Definition sec (n : Z) : Time.time := (n * Time.Second)%Z.

Definition ex_record (id type node dedupe : string) (created : Z) : TaskRecord :=
  MkRecord id type SourceWeb "admin" "web" node "" "{}" "/log" "rev1" "" "" (sec created) None None
    "" "" "" None None None dedupe.

Definition ex_decl : list (string * list string) := [("web", ["n1"; "n2"]); ("db", ["n1"])].
Definition ex0 : DB := SyncDeclaredServices (sec 1000) ex_decl empty_db.
Definition ex1 : DB := after (CreateTask "u1" (sec 1000) (ex_record "t1" TypeDeploy "n1" "" 1001) ex0) ex0.
Definition ex2 : DB := after (CreateTask "u2" (sec 1000) (ex_record "t2" TypeStop "n2" "k2" 1002) ex1) ex1.
Definition ex3 : DB := after (ClaimNextPendingTaskForNode "n1" (sec 1010) (sec 1040) "e1" ex2) ex2.
Definition ex4 : DB := after' (AcknowledgeTaskExecution "t1" "e1" (sec 1020) (sec 1080) ex3) ex3.
Definition ex5 : DB :=
  after' (CompleteTaskExecution "ev1" "t1" "e1" StatusSucceeded (sec 1050) "" ex4) ex4.
Definition ex3b : DB := (SweepExpiredTaskExecutions (sec 1041) ex3).1.

Definition ex4b : DB := after (ClaimNextPendingTaskForNode "n1" (sec 1042) (sec 1072) "e2" ex3b) ex3b.

Definition ids0 : gset string := ∅.
Definition ids1 : gset string := {["e1"]} ∪ ids0.
Definition ids2 : gset string := {["e2"]} ∪ ids1.

Lemma after_ok {A} (r : result StoreError (DB * A)) db :
  is_ok r = true → ∃ a, r = Ok (after r db, a).
Proof. destruct r as [[db' a]|]; [|done]. by exists a. Qed.
Lemma after_ok' (r : result StoreError DB) db : is_ok r = true → r = Ok (after' r db).
Proof. by destruct r. Qed.

Lemma ex2_reachable : reachable (MkState ids0 ex2).
Proof.
  unfold reachable. eapply rtc_l.
  { apply step_call, (call_SyncDeclaredServices _ (sec 1000) ex_decl).
    apply (bool_decide_unpack _). vm_compute. exact I. }
  destruct (after_ok (CreateTask "u1" (sec 1000) (ex_record "t1" TypeDeploy "n1" "" 1001) ex0) ex0)
    as [r1 H1]; [by vm_compute|].
  destruct (after_ok (CreateTask "u2" (sec 1000) (ex_record "t2" TypeStop "n2" "k2" 1002) ex1) ex1)
    as [r2 H2]; [by vm_compute|].
  eapply rtc_l; [by eapply step_call, call_CreateTask, H1|].
  eapply rtc_l; [by eapply step_call, call_CreateTask, H2|]. apply rtc_refl.
Qed.

Lemma ex3_step : step (MkState ids0 ex2) (MkState ids1 ex3).
Proof.
  destruct (after_ok (ClaimNextPendingTaskForNode "n1" (sec 1010) (sec 1040) "e1" ex2) ex2)
    as [r H]; [by vm_compute|].
  apply (step_ClaimNextPendingTaskForNode ids0 ex2 "n1" (sec 1010) (sec 1040) "e1" ex3 r);
    [apply (bool_decide_unpack _); vm_compute; exact I|done|exact H].
Qed.
Lemma ex4_step : step (MkState ids1 ex3) (MkState ids1 ex4).
Proof.
  eapply step_call, (call_AcknowledgeTaskExecution _ "t1" "e1" (sec 1020) (sec 1080)), after_ok'.
  by vm_compute.
Qed.
Lemma ex5_step : step (MkState ids1 ex4) (MkState ids1 ex5).
Proof.
  eapply step_call, (call_CompleteTaskExecution _ "ev1" "t1" "e1" StatusSucceeded (sec 1050) ""), after_ok'.
  by vm_compute.
Qed.
Lemma ex3b_step : step (MkState ids1 ex3) (MkState ids1 ex3b).
Proof. apply step_call, (call_SweepExpiredTaskExecutions _ (sec 1041)). Qed.
Lemma ex4b_step : step (MkState ids1 ex3b) (MkState ids2 ex4b).
Proof.
  destruct (after_ok (ClaimNextPendingTaskForNode "n1" (sec 1042) (sec 1072) "e2" ex3b) ex3b)
    as [r H]; [by vm_compute|].
  apply (step_ClaimNextPendingTaskForNode ids1 ex3b "n1" (sec 1042) (sec 1072) "e2" ex4b r);
    [apply (bool_decide_unpack _); vm_compute; exact I|done|exact H].
Qed.

Lemma ex3_reachable : reachable (MkState ids1 ex3).
Proof. eapply rtc_r; [apply ex2_reachable|apply ex3_step]. Qed.
Lemma ex4_reachable : reachable (MkState ids1 ex4).
Proof. eapply rtc_r; [apply ex3_reachable|apply ex4_step]. Qed.
Lemma ex5_reachable : reachable (MkState ids1 ex5).
Proof. eapply rtc_r; [apply ex4_reachable|apply ex5_step]. Qed.

Definition row_of (db : DB) (id : string) : TaskRow :=
  match tasks db !! id with Some r => r | None => inserted_row (ex_record id "" "" "" 0) end.

