(* ===== verification/StoreTheorems.v ===== *)
(** * Theorems of the store

    Each property of the store with a concrete instance on the run of
    [StoreExamples]. *)
From S2P Require Export StoreExamples.

Section theorems.
Context `{SQLite}.

(** C1: in every reachable state of the store, whatever calls led to it:
    every task row satisfies the CHECK constraints and the lease columns
    agree with the status; at most one active task owns a service instance
    (for the indexed types), at most one active service-wide task a
    service, and a dedupe key names one task; the foreign keys hold; an
    execution id belongs to one task; the outbox holds one event per task
    and kind; and the runtime status of every declared service is the
    aggregate of its declared instances. *)
Theorem reachable_store_inv s :
  reachable s →
  (∀ id r, tasks (st_db s) !! id = Some r → task_checks r ∧ lease_ok r) ∧
  index_unique active_service_instance_key (tasks (st_db s)) ∧
  index_unique active_service_key (tasks (st_db s)) ∧
  index_unique dedupe_index_key (tasks (st_db s)) ∧
  fk_ok (st_db s) ∧ ids_ok (used_ids s) (st_db s) ∧ outbox_ok (st_db s) ∧ aggregate_ok (st_db s).
Proof. intros [? (? & ? & ?) ? ? ? ?]%reachable_inv. by split_and!. Qed.

(** The life of a task in a state of the store. *)
Definition life_in (s : State) (id : string) : option life := life_of <$> tasks (st_db s) !! id.

(** C14: the columns of a task implement the abstract life of a task: one
    call of the store leaves a task's life as it is, or makes one of the
    moves of [life_step]; a task never disappears. *)
Theorem task_life_refines s s' id l :
  reachable s → step s s' → life_in s id = Some l →
  ∃ l', life_in s' id = Some l' ∧ (l' = l ∨ life_step l l').
Proof.
  unfold life_in. intros Hinv%reachable_inv Hs (r & Hr & ->)%fmap_Some.
  destruct (step_row _ _ _ _ Hs Hr) as (r' & Hr' & o & Hrs). rewrite Hr'.
  eexists. split; [done|]. eapply row_step_life; [|done]. by eapply (inv_rows _ Hinv).
Qed.

(** An execution that was accepted stays the one of the task. *)
Definition held_by (e : string) (l : life) : Prop :=
  match l with
  | AcceptedBy e' | LostBy e' => e' = e
  | Finished _ (Some e') => e' = e
  | _ => False
  end.

Lemma held_by_step e l l' : life_step l l' → held_by e l → held_by e l'.
Proof.
  intros Hs He.
  destruct Hs as [| | | | | | | |l status _ Hl|l e' status _ Hl]; simpl in *; try done;
    repeat (apply elem_of_cons in Hl as [->|Hl]); try done; by apply elem_of_nil in Hl.
Qed.

(** C2: an execution an agent accepted is never handed to another one:
    from then on the task is held by that execution (its lease possibly
    lost and renewed) until it finishes with it. In particular neither the
    sweep nor a later claim starts the task a second time. *)
Theorem accepted_execution_exclusive s s' id e :
  reachable s → life_in s id = Some (AcceptedBy e) → rtc step s s' →
  ∃ l, life_in s' id = Some l ∧ held_by e l.
Proof.
  unfold life_in. intros Hinv%reachable_inv (r & Hr & Hl)%fmap_Some Hrun.
  destruct (run_row (λ r r', held_by e (life_of r) → held_by e (life_of r')) s s' id r)
    as (r' & Hr' & HR); try done; [auto| |].
  - intros o r1 r2 Hok Hs He. destruct (row_step_life _ _ _ Hok Hs) as [->|Hm]; [done|].
    by eapply held_by_step.
  - rewrite Hr'. eexists. split; [done|]. apply HR. by rewrite <-Hl.
Qed.

(** No row has the execution id [e], which has already been drawn. *)
Definition retired (e : string) (s : State) : Prop :=
  e ∈ used_ids s ∧ ∀ id r, tasks (st_db s) !! id = Some r → ex_execution_id (tk_exec r) ≠ Some e.

Lemma retired_step e s s' : step s s' → retired e s → retired e s'.
Proof.
  intros Hs [Hu Hno]. destruct Hs as [used db db' Hc|used db node started lease uuid db' record Hfresh _ Hc];
    simpl in *; (split; simpl; [set_solver|]); intros id r' Hr' He.
  - apply db_call_tasks in Hc as [Ha|Ht].
    + assert (Hall : ∀ db1 db2, adds db1 db2 →
        (∀ id r, tasks db1 !! id = Some r → ex_execution_id (tk_exec r) ≠ Some e) →
        ∀ id r, tasks db2 !! id = Some r → ex_execution_id (tk_exec r) ≠ Some e).
      { induction 1 as [|d1 d2 d3 Hp _ IH]; [done|]. intros H1. apply IH.
        destruct Hp as [ts target ? [->|(_ & _ & _ & ->)]%ensure_instance_Ok
          |record ? [_ ->]%insertTaskRecord_Ok]; [done|done|].
        simpl. intros i ri [[<- <-]|[_ ?]]%lookup_insert_Some; [done|eauto]. }
      by eapply (Hall db db').
    + specialize (Ht id). rewrite Hr' in Ht. destruct (tasks db !! id) as [r|] eqn:Hr; [|done].
      destruct (row_step_id _ _ _ _ Ht He) as [?|?]; [by eapply Hno|done].
  - apply ClaimNextPendingTaskForNode_Ok in Hc as (i & row & _ & -> & _). simpl in Hr'.
    apply lookup_insert_Some in Hr' as [[<- <-]|[_ Hr']]; [simpl in He; by simplify_eq|].
    by eapply Hno.
Qed.

(** C15: an offer the sweep took back is fenced: after any further calls the
    old execution id can neither acknowledge, renew, report on nor complete
    the task (or any other one). *)
Theorem requeued_offer_fenced s now s' s'' id e taskID t lease uuid nodeID status finished summary :
  reachable s → life_in s id = Some (OfferedTo e) →
  s' = MkState (used_ids s) (SweepExpiredTaskExecutions now (st_db s)).1 →
  life_in s' id = Some Queued → rtc step s' s'' →
  AcknowledgeTaskExecution taskID e t lease (st_db s'') = Err ErrTaskExecutionMismatch ∧
  RenewTaskExecution taskID e t lease (st_db s'') = Err ErrTaskExecutionMismatch ∧
  is_ok (ValidateTaskExecution taskID e nodeID (st_db s'')) = false ∧
  is_ok (CompleteTaskExecution uuid taskID e status finished summary (st_db s'')) = false.
Proof.
  intros Hinv%reachable_inv Hoff Hs' Hq Hrun.
  assert (e ≠ "" ∧ retired e s') as [Hne Hret].
  { unfold life_in in Hoff. apply fmap_Some in Hoff as (r & Hr & Hl).
    destruct (inv_rows _ Hinv _ _ Hr) as [_ Hok].
    assert (He : ex_execution_id (tk_exec r) = Some e).
    { unfold life_of in Hl. destruct Hok as [_ Hok].
      destruct (ex_execution_state (tk_exec r)); [|repeat case_decide; done].
      destruct Hok as ([e' He'] & _). rewrite He' in *. simpl in Hl.
      repeat case_decide; by simplify_eq. }
    destruct (inv_ids _ Hinv) as [Hu Hinj]. destruct (Hu _ _ _ Hr He). subst s'.
    split; [done|]. split; [done|]. intros id' r' Hr' He'. cbn [st_db] in Hr'.
    rewrite Sweep_lookup in Hr'. apply fmap_Some in Hr' as (r0 & Hr0 & ->).
    assert (He0 : ex_execution_id (tk_exec r0) = Some e).
    { revert He'. unfold swept. repeat case_decide; simpl; done. }
    assert (id' = id) as -> by eauto. assert (r0 = r) as -> by congruence.
    unfold life_in in Hq. cbn [st_db] in Hq. rewrite Sweep_lookup, Hr in Hq. simpl in Hq.
    injection Hq as Hq. revert He' Hq. unfold swept.
    repeat case_decide; simpl; try done; intros _ Hq; congruence. }
  assert (Hret' : retired e s'').
  { clear -Hret Hrun. induction Hrun; eauto using retired_step. }
  destruct Hret' as [_ Hno]. split_and!.
  - unfold AcknowledgeTaskExecution.
    match goal with |- context [update_row ?k ?P ?f ?t] =>
      destruct (update_row_cases k P f t) as [(r & Hr & (Hi & _) & _)|[_ ->]] end; [|done].
    by destruct (Hno _ _ Hr).
  - unfold RenewTaskExecution.
    match goal with |- context [update_row ?k ?P ?f ?t] =>
      destruct (update_row_cases k P f t) as [(r & Hr & (Hi & _) & _)|[_ ->]] end; [|done].
    by destruct (Hno _ _ Hr).
  - unfold ValidateTaskExecution, GetTask, getTaskRecord.
    destruct (tasks (st_db s'') !! taskID) as [r|] eqn:Hr; [|done]. simpl.
    rewrite decide_False by tauto. rewrite decide_True; [done|]. right; left.
    intros Heq. apply (Hno _ _ Hr). destruct (ex_execution_id (tk_exec r)); simpl in *; congruence.
  - destruct (CompleteTaskExecution _ _ _ _ _ _ _) as [db'|] eqn:Hc; [|done].
    apply CompleteTaskExecution_Ok in Hc as (_ & [[? _]|[(_ & r & Hr & He & _)|(_ & r & Hr & He & _)]]);
      [done|by destruct (Hno _ _ Hr)..].
Qed.
End theorems.

Section theorems2.
Context `{SQLite}.

(** ** Finished tasks *)
Definition same_outcome (r r' : TaskRow) : Prop :=
  tk_core r' = tk_core r ∧ tk_status r' = tk_status r ∧ tk_finished_at r' = tk_finished_at r ∧
  tk_error_summary r' = tk_error_summary r ∧ tk_exec r' = tk_exec r.

Lemma row_step_terminal o r r' :
  lease_ok r → tk_status r ∈ terminal_statuses → row_step o r r' → same_outcome r r'.
Proof.
  intros Hok Ht Hs. pose proof (terminal_not_active _ Ht) as Hna.
  assert (Hp : ∀ s, s ∈ active_statuses → tk_status r ≠ s) by (intros s Hin Heq; apply Hna; by rewrite Heq).
  destruct Hs as [|? ? ? ? ? Hx|? ? Hx|? ? Hx|? ? Hx| |? ? ? ? Hx|? ? ? ? Hx|? ? ? Hx|? ? ? ? Hx|? Hx|? Hx|];
    try done; exfalso; first [by apply Hna|eapply Hp; [|exact Hx]; in_closed].
Qed.

Lemma terminal_row_stays s s' id r :
  reachable s → tasks (st_db s) !! id = Some r → tk_status r ∈ terminal_statuses →
  rtc step s s' → ∃ r', tasks (st_db s') !! id = Some r' ∧ same_outcome r r'.
Proof.
  intros Hinv%reachable_inv Hr Ht Hrun.
  destruct (run_row (λ r r', tk_status r ∈ terminal_statuses → same_outcome r r') s s' id r)
    as (r' & Hr' & HR); try done.
  - intros r1 r2 r3 H12 H23 H1. destruct (H12 H1) as (E1 & E2 & E3 & E4 & E5).
    destruct H23 as (F1 & F2 & F3 & F4 & F5); [by rewrite E2|]. unfold same_outcome. intuition congruence.
  - intros o r1 r2 Hok Hs Ht1. by eapply row_step_terminal.
  - eauto.
Qed.

(** A finished task stays as it finished: no sequence of calls changes
    its status, finish time, error summary, execution columns or immutable
    columns. *)
Theorem finished_task_is_final s s' id r :
  reachable s → tasks (st_db s) !! id = Some r → tk_status r ∈ terminal_statuses →
  rtc step s s' → ∃ r', tasks (st_db s') !! id = Some r' ∧ same_outcome r r'.
Proof. apply terminal_row_stays. Qed.

(** ** Completion *)
Lemma coalesce_nullable m : coalesce (nullableString m) = m.
Proof. unfold nullableString. by case_decide; subst. Qed.

(** The row of a task after a successful completion by its execution. *)
Lemma CompleteTaskExecution_row uuid id e status t summary db db' :
  e ≠ "" → CompleteTaskExecution uuid id e status t summary db = Ok db' →
  status ∈ terminal_statuses ∧
  ∃ r, tasks db' !! id = Some r ∧ ex_execution_id (tk_exec r) = Some e ∧ tk_status r = status ∧
       coalesce (tk_error_summary r) = summary.
Proof.
  intros Hne Hc. apply CompleteTaskExecution_Ok in Hc as (Hst & Hc). split; [done|].
  destruct Hc as [[? _]|[(_ & r & Hr & He & Hs & Hsum & ->)|(_ & r & Hr & He & _ & _ & Hf)]];
    [done|by exists r|].
  apply complete_followup_tasks in Hf. rewrite Hf. simpl. rewrite lookup_insert_eq.
  eexists. split_and!; [done|done|done|]. simpl. apply coalesce_nullable.
Qed.

(** Completing an execution is idempotent and conflict-free: once a
    completion was accepted, repeating it succeeds and changes nothing,
    and any other outcome for the same execution is refused as a conflict,
    whatever clock or event id the repetition comes with. *)
Theorem CompleteTaskExecution_replay uuid id e status t summary db db' uuid' status' t' summary' :
  e ≠ "" → CompleteTaskExecution uuid id e status t summary db = Ok db' →
  status' ∈ terminal_statuses →
  CompleteTaskExecution uuid' id e status' t' summary' db' =
  if decide (status' = status ∧ summary' = summary) then Ok db' else Err ErrTaskExecutionConflict.
Proof.
  intros Hne Hc Hst'. destruct (CompleteTaskExecution_row _ _ _ _ _ _ _ _ Hne Hc)
    as (Hst & r & Hr & He & Hs & Hsum).
  unfold CompleteTaskExecution. rewrite decide_False.
  2: { intros (? & ? & ?). unfold terminal_statuses in Hst'.
       repeat (apply elem_of_cons in Hst' as [->|Hst']; [done|]). by apply elem_of_nil in Hst'. }
  rewrite decide_False by done. rewrite Hr, He. simpl.
  rewrite (decide_False (P := e ≠ e ∨ e = "")) by tauto. rewrite decide_True.
  2: { rewrite Hs. intros Heq. apply (terminal_not_active _ Hst). rewrite Heq. in_closed. }
  rewrite Hs, Hsum. apply decide_ext. naive_solver.
Qed.

Definition events_of (id : string) (db : DB) : gmap string OutboxRow :=
  rows_where (λ _ r, ob_task_id r = id ∧ ob_event_type r = "task_completed") (task_outbox db).

(** C16: a completion that ends a live execution leaves exactly one
    task_completed event for the task in the outbox, so that its follow-ups
    and its notification are never lost and never doubled; the task is
    finished with the reported status and summary at the reported time, and
    none of its steps is left running. *)
Theorem CompleteTaskExecution_completes s uuid id e status t summary db' r :
  reachable s → tasks (st_db s) !! id = Some r → tk_status r = StatusRunning → e ≠ "" →
  CompleteTaskExecution uuid id e status t summary (st_db s) = Ok db' →
  (∃ eid ev, events_of id db' = {[eid := ev]}) ∧
  tasks db' !! id = Some (end_execution status t (nullableString summary) r) ∧
  (∀ name sr, task_steps db' !! (id, name) = Some sr → ts_status sr ≠ StatusRunning).
Proof.
  intros Hinv%reachable_inv Hr Hrun Hne Hc.
  pose proof (CompleteTaskExecution_outbox _ _ _ _ _ _ _ _ Hc) as [_ Hob].
  specialize (Hob (inv_outbox _ Hinv)) as [_ Huniq].
  apply CompleteTaskExecution_Ok in Hc as (Hst & [[? _]|[(_ & r' & Hr' & _ & Hs & _)|(_ & r' & Hr' & _ & _ & _ & Hf)]]);
    [done|exfalso; assert (r' = r) as -> by congruence; rewrite Hrun in Hs; subst;
          eapply (terminal_not_active StatusRunning); [exact Hst|in_closed]|].
  assert (r' = r) as -> by congruence.
  pose proof (complete_followup_tasks _ _ _ _ _ _ Hf) as Ht. simpl in Ht.
  unfold complete_followup in Hf. ok_inv. apply enqueue_outbox_Ok in Hf.
  assert (Hev : ∃ eid ev, task_outbox db' !! eid = Some ev ∧ ob_task_id ev = id ∧
                          ob_event_type ev = "task_completed").
  { destruct Hf as [[Hhas ->]|(_ & _ & _ & ->)].
    - unfold outbox_has in Hhas. apply bool_decide_eq_true, count_where_pos in Hhas. done.
    - eexists uuid, _. simpl. rewrite lookup_insert_eq. done. }
  split_and!.
  - destruct Hev as (eid & ev & Hev & Hid & Hty). exists eid, ev. apply map_eq. intros k.
    destruct (decide (eid = k)) as [<-|Hk].
    + rewrite lookup_singleton_eq. by apply lookup_rows_where.
    + rewrite lookup_singleton_ne by done. destruct (events_of id db' !! k) as [ev'|] eqn:Hk'; [|done].
      apply lookup_rows_where in Hk' as (? & ? & ?). destruct Hk. eapply Huniq; try done; congruence.
  - by rewrite Ht, lookup_insert_eq.
  - intros name sr Hsr.
    assert (Hsteps : task_steps db' = task_steps (finish_running_steps id status t value0)).
    { by destruct Hf as [[_ ->]|(_ & _ & _ & ->)]. }
    rewrite Hsteps in Hsr. unfold finish_running_steps in Hsr.
    change (task_steps (set_task_steps ?t _)) with t in Hsr.
    rewrite lookup_update_where in Hsr. apply fmap_Some in Hsr as (s0 & _ & ->).
    case_decide as Hd; [|tauto]. simpl. intros ->. by eapply terminal_not_active; [exact Hst|in_closed].
Qed.

(** ** Claiming *)
Definition claimable (node : string) (r : TaskRow) : Prop :=
  tk_status r = StatusPending ∧ tc_node_id (tk_core r) = Some node ∧
  tc_type (tk_core r) ∉ [TypeDNSUpdate; TypeMigrate].

(** The fields of a record the agent works from. *)
Definition claim_fields (r : TaskRecord) :=
  (rec_TaskID r, rec_Type r, rec_Source r, rec_TriggeredBy r, rec_ServiceName r, rec_NodeID r,
   rec_Status r, rec_ParamsJSON r, rec_LogPath r, rec_RepoRevision r, rec_ResultRevision r,
   rec_AttemptOfTaskID r, rec_CreatedAt r).

(** A node's claim gives it the oldest pending task of the node (by
    creation second, then task id), never a dns_update or a migrate, and
    fails with ErrNoPendingTask exactly when there is none; the stored task
    is then offered to the drawn execution until the given lease, every
    other task is untouched, and the record returned agrees with the stored
    task (lease to the second). *)
Theorem ClaimNextPendingTaskForNode_claims node started lease uuid db :
  match ClaimNextPendingTaskForNode node started lease uuid db with
  | Err e => e = ErrNoPendingTask ∧ ∀ id r, tasks db !! id = Some r → ¬ claimable node r
  | Ok (db', record) =>
      ∃ r, tasks db !! rec_TaskID record = Some r ∧ claimable node r ∧
        (∀ id' r', tasks db !! id' = Some r' → claimable node r' →
           lex_leb (claim_key (rec_TaskID record) r) (claim_key id' r') = true) ∧
        tasks db' = <[rec_TaskID record := offer started lease uuid r]> (tasks db) ∧
        only_tasks db db' ∧
        ∃ stored, getTaskRecord (rec_TaskID record) db' = Ok stored ∧
          rec_ExecutionID record = uuid ∧ rec_ExecutionState record = ExecutionOffered ∧
          rec_LeaseExpiresAt record = Some lease ∧
          claim_fields stored = claim_fields record ∧
          rec_ExecutionID stored = uuid ∧ rec_ExecutionState stored = ExecutionOffered ∧
          rec_LeaseExpiresAt stored = Some (Time.parse_rfc3339 (Time.rfc3339 lease))
  end.
Proof.
  destruct (ClaimNextPendingTaskForNode node started lease uuid db) as [[db' record]|e] eqn:Hc.
  - apply ClaimNextPendingTaskForNode_Ok in Hc as (id & r & Hsel & -> & ->).
    apply select_first_Some in Hsel as (Hr & Hcl & Hleast). exists r. simpl.
    split_and!; [done|apply Hcl..|exact Hleast|done|by eexists|].
    unfold getTaskRecord. simpl. rewrite lookup_insert_eq. eexists. split; [done|].
    destruct Hcl as (Hst & _). by split_and!.
  - unfold ClaimNextPendingTaskForNode in Hc.
    destruct (select_first _ _ _) as [[id r]|] eqn:Hsel.
    + apply select_first_Some in Hsel as (Hr & (Hst & _) & _). unfold update_row in Hc.
      by rewrite Hr, decide_True in Hc.
    + simplify_eq. split; [done|]. rewrite select_first_None in Hsel. exact Hsel.
Qed.
End theorems2.

Section theorems3.
Context `{SQLite}.

(** ** Leases *)
(** The sweep at [now] takes back exactly the expired offers (they are
    pending again, with no execution) and marks exactly the expired accepted
    executions as lost, keeping them running under the same execution; it
    counts both, leaves every other row alone, and leaves nothing for a
    second sweep at the same time. *)
Theorem SweepExpiredTaskExecutions_sweeps now db :
  let '(db', (requeued, lost)) := SweepExpiredTaskExecutions now db in
  (∀ id, tasks db' !! id = swept now <$> tasks db !! id) ∧
  requeued = count_where (λ _ r, tk_status r = StatusRunning ∧
    ex_execution_state (tk_exec r) = Some ExecutionOffered ∧ lease_before now r = true) (tasks db) ∧
  lost = count_where (λ _ r, tk_status r = StatusRunning ∧
    ex_execution_state (tk_exec r) = Some ExecutionAccepted ∧ lease_before now r = true) (tasks db) ∧
  SweepExpiredTaskExecutions now db' = (db', (0, 0)).
Proof.
  destruct (SweepExpiredTaskExecutions now db) as [db' [q l]] eqn:Hs.
  assert (Hdb' : db' = (SweepExpiredTaskExecutions now db).1) by (by rewrite Hs).
  assert (Hl : ∀ id, tasks db' !! id = swept now <$> tasks db !! id).
  { intros id. rewrite Hdb'. apply Sweep_lookup. }
  assert (Hquiet : ∀ id r, tasks db' !! id = Some r → tk_status r = StatusRunning →
    (ex_execution_state (tk_exec r) = Some ExecutionOffered ∨
     ex_execution_state (tk_exec r) = Some ExecutionAccepted) → lease_before now r = false).
  { intros id r. rewrite Hl. intros (r0 & _ & ->)%fmap_Some. unfold swept.
    repeat case_decide; simpl; try done.
    - intros _ [?|?]; done.
    - intros _ [?|?]; congruence.
    - intros Hr _. destruct (lease_before now r0); [tauto|done]. }
  split_and!; [exact Hl| | |].
  - unfold SweepExpiredTaskExecutions in Hs. by simplify_eq/=.
  - unfold SweepExpiredTaskExecutions in Hs. destruct (update_where _ requeue _) as [t1 q1] eqn:H1.
    destruct (update_where _ lose_lease _) as [t2 l2] eqn:H2. unfold update_where in H2.
    simplify_eq. apply count_where_ext. intros id r. apply (f_equal fst) in H1. simpl in H1.
    rewrite <-H1, map_lookup_imap. destruct (tasks db !! id) as [r0|]; [|done]. simpl.
    case_decide as Hd; [|done]. split; intros [[= <-] (? & ? & ?)]; [done|].
    destruct Hd as (_ & Ho & _). exfalso.
    assert (Some ExecutionOffered = Some ExecutionAccepted) by congruence. discriminate.
  - unfold SweepExpiredTaskExecutions.
    rewrite update_where_none.
    2: { intros id r Hr (? & ? & ?). by rewrite (Hquiet id r) in *; auto. }
    rewrite update_where_none.
    2: { intros id r Hr (? & ? & ?). by rewrite (Hquiet id r) in *; auto. }
    by rewrite set_tasks_id.
Qed.

(** Acknowledging an offer: it succeeds exactly for the running
    execution it names, accepted already or offered with a lease that has
    not expired (to the second), and then the task is accepted until the new
    lease, keeping the first acceptance time; otherwise nothing changes and
    the agent is told the execution does not match. *)
Theorem AcknowledgeTaskExecution_acknowledges id e accepted lease db :
  AcknowledgeTaskExecution id e accepted lease db =
  match tasks db !! id with
  | Some r =>
      if decide (ex_execution_id (tk_exec r) = Some e ∧ tk_status r = StatusRunning ∧
                 (ex_execution_state (tk_exec r) = Some ExecutionAccepted ∨
                  ex_execution_state (tk_exec r) = Some ExecutionOffered ∧
                  is_Some (ex_lease_expires_at (tk_exec r)) ∧ lease_before accepted r = false))
      then Ok (set_tasks (<[id := tk_set_exec
             (MkTaskExec (Some e) (Some ExecutionAccepted) (Some (Time.rfc3339 lease))
                (coalesce_time (ex_execution_accepted_at (tk_exec r)) (Time.rfc3339 accepted))
                (Some (Time.rfc3339 accepted))) r]> (tasks db)) db)
      else Err ErrTaskExecutionMismatch
  | None => Err ErrTaskExecutionMismatch
  end.
Proof.
  unfold AcknowledgeTaskExecution, update_row. destruct (tasks db !! id) as [r|] eqn:Hr; [|done].
  assert (Hiff : ack_guard e accepted r ↔
    ex_execution_id (tk_exec r) = Some e ∧ tk_status r = StatusRunning ∧
    (ex_execution_state (tk_exec r) = Some ExecutionAccepted ∨
     ex_execution_state (tk_exec r) = Some ExecutionOffered ∧
     is_Some (ex_lease_expires_at (tk_exec r)) ∧ lease_before accepted r = false)).
  { unfold ack_guard, lease_before. destruct (ex_lease_expires_at (tk_exec r)) as [l|].
    - rewrite bool_decide_eq_true, bool_decide_eq_false, Z.nlt_ge. naive_solver.
    - split; [naive_solver|]. intros (? & ? & [?|(_ & [? [=]] & _)]). naive_solver. }
  destruct (decide (ack_guard e accepted r)) as [Hg|Hg]; simpl.
  - rewrite decide_True by tauto. destruct Hg as (He & _). by rewrite He.
  - by rewrite decide_False by tauto.
Qed.
End theorems3.

Section theorems4.
Context `{SQLite}.

(** ** Admission *)
Lemma for_each_insert db l db' :
  for_each insertTaskRecord db l = Ok db' →
  NoDup (rec_TaskID <$> l) ∧ only_tasks db db' ∧
  (∀ p, p ∈ l → tasks db !! rec_TaskID p = None ∧ tasks db' !! rec_TaskID p = Some (inserted_row p)) ∧
  (∀ id, id ∉ rec_TaskID <$> l → tasks db' !! id = tasks db !! id).
Proof.
  revert db. induction l as [|p l IH]; intros db Hrun; simpl in Hrun; ok_inv.
  { split_and!; [constructor|apply only_tasks_refl|by intros ? ?%elem_of_nil|done]. }
  destruct (IH _ Hrun) as (Hnd & [t ->] & Hin & Hout).
  match goal with Hi : insertTaskRecord _ _ = Ok _ |- _ =>
    apply insertTaskRecord_Ok in Hi as [[Hnew _ _ _ _ _] ->] end. simpl in *.
  assert (Hp : rec_TaskID p ∉ rec_TaskID <$> l).
  { intros (q & Hq & Hql)%list_elem_of_fmap. destruct (Hin q Hql) as [Hq' _].
    by rewrite <-Hq, lookup_insert_eq in Hq'. }
  split_and!.
  - by constructor.
  - by eexists.
  - intros q [->|Hq]%elem_of_cons.
    + split; [done|]. by rewrite Hout, lookup_insert_eq.
    + destruct (Hin q Hq) as [Hq1 Hq2]. split; [|done].
      rewrite lookup_insert_ne in Hq1; [done|]. intros Heq. apply Hp, list_elem_of_fmap. eauto.
  - intros id Hid. apply not_elem_of_cons in Hid as [Hne Hid].
    by rewrite Hout, lookup_insert_ne.
Qed.

Lemma prepare_batch_spec records acc prepared :
  for_each prepare_batch_entry acc records = Ok prepared →
  NoDup (instance_key <$> acc) → (∀ p, p ∈ acc → rec_ServiceName p ≠ "" ∧ rec_NodeID p ≠ "") →
  length prepared = length acc + length records ∧ NoDup (instance_key <$> prepared) ∧
  (∀ p, p ∈ prepared → rec_ServiceName p ≠ "" ∧ rec_NodeID p ≠ "").
Proof.
  revert acc. induction records as [|[r [u n]] records IH]; intros acc Hrun Hnd Hne; simpl in Hrun; ok_inv.
  { split_and!; [lia|done|done]. }
  match goal with Hp : prepareTaskRecord _ _ _ = Ok ?q |- _ =>
    assert (rec_ServiceName q = rec_ServiceName r ∧ rec_NodeID q = rec_NodeID r) as [Hs Hn]
      by (unfold prepareTaskRecord in Hp; repeat (case_decide; [done|]); by simplify_eq) end.
  apply IH in Hrun as (Hlen & ? & ?); [rewrite length_app in Hlen; simpl in *; split_and!; auto; lia|..].
  - rewrite fmap_app. apply NoDup_app. split_and!; [done| |apply NoDup_singleton].
    intros k Hk Hk'. apply list_elem_of_singleton in Hk' as ->. done.
  - intros p [?|Hp]%elem_of_app; [auto|]. apply list_elem_of_singleton in Hp as ->.
    by rewrite Hs, Hn.
Qed.

(** The batch admission of the service instances is all or nothing and
    exclusive: when it succeeds, every record of the batch is stored under
    its own new task id, the batch names pairwise different instances, none
    of which had an active task before, and no other row of any table moved;
    so no instance is ever given two active tasks this way. *)
Theorem CreateTasks_admits records db db' prepared :
  CreateTasksIfNoActiveServiceInstanceTasks records db = Ok (db', prepared) →
  length prepared = length records ∧ NoDup (instance_key <$> prepared) ∧
  (∀ p, p ∈ prepared →
     hasActiveServiceInstanceTask (rec_ServiceName p) (rec_NodeID p) db = false ∧
     tasks db !! rec_TaskID p = None ∧ tasks db' !! rec_TaskID p = Some (inserted_row p)) ∧
  (∀ id, id ∉ rec_TaskID <$> prepared → tasks db' !! id = tasks db !! id) ∧ only_tasks db db'.
Proof.
  unfold CreateTasksIfNoActiveServiceInstanceTasks. intros Hrun. ok_inv.
  match goal with Hp : for_each prepare_batch_entry _ _ = Ok _, Hk : for_each _ _ (_ <$> _) = Ok _,
                  Hi : for_each insertTaskRecord _ _ = Ok _ |- _ =>
    apply prepare_batch_spec in Hp as (Hlen & Hnd & _); [|constructor|by intros ? ?%elem_of_nil];
    rename Hk into Hchk; rename Hi into Hins end.
  assert (Hall : ∀ l db1, for_each (λ db (key : string * string),
      if hasActiveServiceInstanceTask key.1 key.2 db
      then Err (ActiveServiceInstanceTaskError key.1 key.2) else Ok db) db l = Ok db1 →
    db1 = db ∧ ∀ k, k ∈ l → hasActiveServiceInstanceTask k.1 k.2 db = false).
  { clear. induction l as [|k l IH]; intros db1 Hl; simpl in Hl.
    - simplify_eq. split; [done|by intros ? ?%elem_of_nil].
    - destruct (hasActiveServiceInstanceTask _ _ _) eqn:Hk; [done|]. simpl in Hl.
      destruct (IH _ Hl) as [-> Hin]. split; [done|]. intros k' [->|?]%elem_of_cons; eauto. }
  apply Hall in Hchk as [-> Hin]. apply for_each_insert in Hins as (_ & Ho & Hpr & Hother).
  split_and!; try done. intros p Hp. destruct (Hpr p Hp). split_and!; try done.
  apply (Hin (instance_key p)), list_elem_of_fmap. eauto.
Qed.

(** A dedupe key is used once: creating a task with the key of an
    existing one fails, with DuplicateTaskError when nothing else is wrong
    with the new task, and looking the key up returns the existing task. *)
Theorem CreateTask_dedupes s uuid now record prepared id0 r0 :
  reachable s → tasks (st_db s) !! id0 = Some r0 →
  tc_dedupe_key (tk_core r0) = Some (rec_DedupeKey record) → rec_DedupeKey record ≠ "" →
  prepareTaskRecord uuid now record = Ok prepared →
  is_ok (CreateTask uuid now record (st_db s)) = false ∧
  (insert_conflicts (rec_TaskID prepared) (inserted_row prepared) (tasks (st_db s))
     = [Idx_tasks_dedupe_key] → task_checks (inserted_row prepared) →
   missing_instance (st_db s) (tk_core (inserted_row prepared)) = false →
   CreateTask uuid now record (st_db s) = Err (DuplicateTaskError (rec_DedupeKey record))) ∧
  ∃ found, GetTaskByDedupeKey (rec_DedupeKey record) (st_db s) = Ok found ∧
    rec_TaskID found = id0 ∧ rec_DedupeKey found = rec_DedupeKey record.
Proof.
  intros Hinv%reachable_inv Hr0 Hk Hne Hprep.
  assert (Hkey : rec_DedupeKey prepared = rec_DedupeKey record).
  { unfold prepareTaskRecord in Hprep. repeat (case_decide; [done|]). by simplify_eq. }
  assert (Hrow : tc_dedupe_key (tk_core (inserted_row prepared)) = Some (rec_DedupeKey record)).
  { simpl. unfold nullableString. by rewrite Hkey, decide_False. }
  split_and!.
  - unfold CreateTask. rewrite Hprep. simpl.
    destruct (insertTaskRecord _ _) as [db'|] eqn:Hi; [|done].
    apply insertTaskRecord_Ok in Hi as [[Hnew _ _ _ Hd _] _]. exfalso. apply Hd.
    apply index_conflict_spec. exists (rec_DedupeKey record), id0, r0.
    split_and!; [congruence|done|done|done].
  - intros Hconf Hc Hm. unfold CreateTask, insertTaskRecord. rewrite Hprep. cbn [result_bind].
    unfold insert_violation. rewrite Hm, decide_False by tauto. rewrite Hconf.
    assert (report_unique [Idx_tasks_dedupe_key] = Idx_tasks_dedupe_key) as ->.
    { by apply list_elem_of_singleton, report_unique_in. }
    simpl. unfold insert_error. rewrite decide_True; [by rewrite Hkey|]. split; [|done].
    by rewrite Hkey.
  - unfold GetTaskByDedupeKey.
    destruct (map_to_list _) as [|[id1 r1] l] eqn:Hl.
    + apply map_to_list_empty_iff in Hl.
      assert (Hin : rows_where (λ _ r, tc_dedupe_key (tk_core r) = Some (rec_DedupeKey record))
        (tasks (st_db s)) !! id0 = Some r0) by (by apply lookup_rows_where).
      by rewrite Hl, lookup_empty in Hin.
    + assert (Hin : (id1, r1) ∈ (id1, r1) :: l) by (by left). rewrite <-Hl in Hin.
      apply elem_of_map_to_list, lookup_rows_where in Hin as [Hr1 Hk1].
      assert (id1 = id0) as ->.
      { destruct (inv_indexes _ Hinv) as (_ & _ & Hd). by eapply (Hd id1 id0). }
      unfold GetTask, getTaskRecord. rewrite Hr0. simpl. eexists. split; [done|]. done.
Qed.

(** ** Steps and logs *)
(** A finished step is final: no sequence of calls changes a step of a
    task that has succeeded, failed or been cancelled. *)
Theorem finished_step_is_final s s' k r :
  rtc step s s' → task_steps (st_db s) !! k = Some r → isTerminalStatus (ts_status r) = true →
  task_steps (st_db s') !! k = Some r.
Proof.
  intros Hrun Hr Ht. assert (Hs : steps_step (st_db s) (st_db s')).
  { clear Hr. induction Hrun; [done|]. etrans; [by apply step_steps|done]. }
  destruct (Hs k r Hr) as (r' & Hr' & Heq). by rewrite <-(Heq Ht).
Qed.

(** The confirmed sequence number of a task's log only grows:
    [SetTaskLogConfirmedSeq] raises it, accepts a repetition of the current
    value, refuses a smaller one without a change; and no sequence of calls
    lowers it. *)
Theorem log_confirmed_seq_monotone s s' id r :
  reachable s → tasks (st_db s) !! id = Some r → rtc step s s' →
  (∃ r', tasks (st_db s') !! id = Some r' ∧ (tk_log_confirmed_seq r ≤ tk_log_confirmed_seq r')%Z) ∧
  ∀ seq, SetTaskLogConfirmedSeq id seq (st_db s) =
    if decide (tk_log_confirmed_seq r < seq)%Z
    then Ok (set_tasks (<[id := tk_set_log_seq seq r]> (tasks (st_db s))) (st_db s))
    else if decide (tk_log_confirmed_seq r = seq) then Ok (st_db s)
    else Err (ErrorText "task log confirmed seq is already set").
Proof.
  intros Hinv%reachable_inv Hr Hrun. split.
  - apply (run_row (λ r r', tk_log_confirmed_seq r ≤ tk_log_confirmed_seq r')%Z s s' id r);
      try done; [intros; lia|]. intros o r1 r2 _ Hs. destruct Hs; simpl; lia.
  - intros seq. unfold SetTaskLogConfirmedSeq, update_row, TaskLogConfirmedSeq. rewrite Hr.
    by case_decide.
Qed.
End theorems4.

Section theorems5.
Context `{SQLite}.

(** ** Services *)
Definition declared_instance (db : DB) (name node : string) (status : string) : Prop :=
  ∃ r, service_instances db !! (name, node) = Some r ∧ si_is_declared r = true ∧
       si_runtime_status r = status.

(** C17: in every reachable state the runtime status shown for a declared
    service follows its declared instances: running when there is one and
    all are running, stopped when there is one and all are stopped, error
    exactly when one of them is in error, unknown otherwise. *)
Theorem service_status_follows_instances s name row :
  reachable s → services (st_db s) !! name = Some row → sv_is_declared row = true →
  let inst := declared_instance (st_db s) name in
  (sv_runtime_status row = ServiceRuntimeRunning ↔
     (∃ n st, inst n st) ∧ ∀ n st, inst n st → st = ServiceRuntimeRunning) ∧
  (sv_runtime_status row = ServiceRuntimeStopped ↔
     (∃ n st, inst n st) ∧ ∀ n st, inst n st → st = ServiceRuntimeStopped) ∧
  (sv_runtime_status row = ServiceRuntimeError ↔ ∃ n, inst n ServiceRuntimeError) ∧
  sv_runtime_status row ∈ [ServiceRuntimeRunning; ServiceRuntimeStopped; ServiceRuntimeError;
                           ServiceRuntimeUnknown].
Proof.
  intros Hinv%reachable_inv Hrow Hd inst. rewrite (inv_aggregate _ Hinv _ _ Hrow Hd).
  set (l := declared_statuses name (st_db s)).
  assert (Hl : ∀ st, st ∈ l ↔ ∃ n, inst n st).
  { intros st. unfold l. by rewrite elem_of_declared_statuses. }
  assert (Hall : ∀ e, allStatusesEqual l e = true ↔
            (∃ n st, inst n st) ∧ ∀ n st, inst n st → st = e).
  { intros e. rewrite allStatusesEqual_spec. split.
    - intros [Hne Ha]. split; [|intros n st Hi; apply Ha, Hl; eauto].
      destruct l as [|x l']; [done|]. destruct (proj1 (Hl x)) as [n ?]; [by left|eauto].
    - intros [(n & st & Hi) Ha]. split.
      + intros Heq. assert (st ∈ l) by (apply Hl; eauto). rewrite Heq in *. by eapply not_elem_of_nil.
      + intros st' [n' ?]%Hl. eauto. }
  assert (Hone : ∀ e e', allStatusesEqual l e = true → allStatusesEqual l e' = true → e = e').
  { intros e e' [(n & st & Hi) Ha]%Hall [_ Ha']%Hall. rewrite <-(Ha n st Hi). eauto. }
  assert (Herr : ∀ e, allStatusesEqual l e = true → ServiceRuntimeError ∈ l → e = ServiceRuntimeError).
  { intros e [_ Ha]%Hall [n ?]%Hl. symmetry. eauto. }
  unfold aggregate_status.
  destruct (allStatusesEqual l ServiceRuntimeRunning) eqn:E1;
    [|destruct (allStatusesEqual l ServiceRuntimeStopped) eqn:E2;
      [|destruct (hasStatus l ServiceRuntimeError) eqn:E3]].
  - rewrite <-!Hall, <-Hl. split_and!; [by rewrite E1|split; [done|]|split; [done|]|in_closed].
    + intros E. pose proof (Hone _ _ E1 E). done.
    + intros E. pose proof (Herr _ E1 E). done.
  - rewrite <-!Hall, <-Hl. split_and!; [by rewrite E1|by rewrite E2|split; [done|]|in_closed].
    intros E. pose proof (Herr _ E2 E). done.
  - rewrite <-!Hall, <-Hl, E1, E2. split_and!; [done|done| |in_closed].
    split; [|done]. by intros _; apply hasStatus_spec.
  - rewrite <-!Hall, <-Hl, E1, E2. split_and!; [done|done| |in_closed].
    split; [done|]. intros Hin%hasStatus_spec. congruence.
Qed.

(** Declaring the services of the repository makes exactly the named
    services, and exactly the named (service, node) pairs, declared; an
    instance that existed keeps its runtime status and last task and loses
    its pending deploy; the tasks, steps, outbox and backups do not move,
    and the aggregates are right, even if they were not before. *)
Theorem SyncDeclaredServices_declares now decl db :
  NoDup decl.*1 →
  let db' := SyncDeclaredServices now decl db in
  (∀ name, (∃ row, services db' !! name = Some row ∧ sv_is_declared row = true) ↔ name ∈ decl.*1) ∧
  (∀ name node, (∃ st, declared_instance db' name node st) ↔
     ∃ nodeIDs, (name, nodeIDs) ∈ decl ∧ node ∈ nodeIDs) ∧
  (∀ k r, service_instances db !! k = Some r → ∃ r', service_instances db' !! k = Some r' ∧
     si_runtime_status r' = si_runtime_status r ∧ si_last_task_id r' = si_last_task_id r ∧
     si_pending_deploy_revision r' = None) ∧
  aggregate_ok db' ∧
  tasks db' = tasks db ∧ task_steps db' = task_steps db ∧ task_outbox db' = task_outbox db ∧
  backups db' = backups db.
Proof.
  intros Hnd db'. destruct (SyncDeclaredServices_tables now decl db Hnd)
    as (Hi & Hs & _ & Ht & Hst & Ho & Hb). fold db' in Hi, Hs, Ht, Hst, Ho, Hb.
  split_and!; try done.
  - intros name. rewrite Hs. case_decide; [split; [done|eauto]|].
    split; [|done]. by intros (row & (r & _ & ->)%fmap_Some & ?).
  - intros name node. rewrite <-elem_of_declared_pairs. unfold declared_instance. rewrite Hi.
    case_decide.
    + split; [done|]. intros _. do 2 eexists. split_and!; [done| |done].
      by destruct (service_instances db !! (name, node)).
    + split; [|done]. by intros (st & r' & (r & _ & ->)%fmap_Some & ? & _).
  - intros k r Hr. rewrite Hi, Hr. case_decide; eauto.
  - by apply SyncDeclaredServices_aggregate.
Qed.

(** The declaration comes from a Go map, whose iteration order is
    random; the result does not depend on it. *)
Theorem SyncDeclaredServices_order_independent now decl1 decl2 db :
  NoDup decl1.*1 → decl1 ≡ₚ decl2 →
  SyncDeclaredServices now decl1 db = SyncDeclaredServices now decl2 db.
Proof.
  intros Hnd Hperm. assert (Hnd2 : NoDup decl2.*1) by (by rewrite <-Hperm).
  destruct (SyncDeclaredServices_tables now decl1 db Hnd) as (Hi1 & Hs1 & Hn1 & ? & ? & ? & ?).
  destruct (SyncDeclaredServices_tables now decl2 db Hnd2) as (Hi2 & Hs2 & Hn2 & ? & ? & ? & ?).
  assert (Hpairs : ∀ k, k ∈ declared_pairs decl1 ↔ k ∈ declared_pairs decl2).
  { intros k. unfold declared_pairs. by rewrite Hperm. }
  assert (Hi : service_instances (SyncDeclaredServices now decl1 db) =
               service_instances (SyncDeclaredServices now decl2 db)).
  { apply map_eq. intros k. rewrite Hi1, Hi2. apply decide_ext, Hpairs. }
  apply DB_eq; try congruence; apply map_eq.
  - intros n. rewrite Hn1, Hn2. destruct (nodes db !! n); [done|]. apply decide_ext.
    unfold declared_pairs. by rewrite Hperm.
  - intros s. rewrite Hs1, Hs2. unfold declared_statuses. rewrite Hi.
    apply decide_ext. by rewrite Hperm.
Qed.

(** ** Listing tasks *)
Lemma sorted_tasks_perm incl excl db :
  sorted_tasks incl excl db ≡ₚ
  map_to_list (rows_where (λ _ r, task_matches incl excl r = true) (tasks db)).
Proof. apply merge_sort_Permutation. Qed.

(** [newest first]: later creation, then larger id. *)
Definition newer (a b : string * TaskRow) : Prop :=
  lex_leb (claim_key b.1 b.2) (claim_key a.1 a.2) = true.

Lemma sorted_tasks_sorted incl excl db : StronglySorted newer (sorted_tasks incl excl db).
Proof.
  apply StronglySorted_merge_sort.
  - intros a b c Hab Hbc. unfold newer in *. by eapply lex_leb_trans.
  - intros a b. unfold newer. apply lex_leb_total.
Qed.

Lemma take_add {A} (n m : nat) (l : list A) : take (n + m) l = take n l ++ take m (drop n l).
Proof. revert l. induction n as [|n IH]; intros [|x l]; simpl; rewrite ?take_nil; try done. by rewrite IH. Qed.

(** The pages of a task list are consecutive: with a positive limit,
    and while the row offset stays below 2^32, the first [n] pages together
    are the first [n * limit] matching tasks, newest first, each matching
    task being listed once; and the count is the number of matching tasks. *)
Theorem ListTasks_pages incl excl limit n db :
  (0 < limit < 2 ^ 32)%Z → (Z.of_nat n * limit ≤ 2 ^ 32)%Z →
  let all := (λ kr, task_summary kr.1 kr.2) <$> sorted_tasks incl excl db in
  concat ((λ p, (ListTasks incl excl (Z.of_nat p) limit db).1) <$> seq 1 n)
    = take (n * Z.to_nat limit) all ∧
  StronglySorted newer (sorted_tasks incl excl db) ∧
  (∀ id r, (id, r) ∈ sorted_tasks incl excl db ↔
     tasks db !! id = Some r ∧ task_matches incl excl r = true) ∧
  NoDup (sorted_tasks incl excl db).*1 ∧
  (∀ page, (ListTasks incl excl page limit db).2 = length (sorted_tasks incl excl db)).
Proof.
  intros Hlim Hn all. split_and!.
  - induction n as [|n IH]; [done|]. rewrite seq_S, fmap_app, concat_app, IH by lia.
    cbn [fmap list_fmap concat]. rewrite app_nil_r.
    replace (S n * Z.to_nat limit) with (n * Z.to_nat limit + Z.to_nat limit) by lia.
    rewrite take_add. f_equal. unfold ListTasks. cbn [fst Nat.add].
    assert (page_bounds (Z.of_nat (S n)) limit = ((Z.of_nat n * limit)%Z, limit)) as ->.
    { unfold page_bounds. rewrite (decide_False (P := limit = 0%Z)) by lia.
      rewrite (decide_False (P := Z.of_nat (S n) = 0%Z)) by lia.
      f_equal. rewrite Z.mod_small; lia. }
    unfold page_of, all. simpl. rewrite <-fmap_drop, <-fmap_take.
    do 2 f_equal. f_equal. rewrite Z2Nat.inj_mul, Nat2Z.id; lia.
  - apply sorted_tasks_sorted.
  - intros id r. rewrite (sorted_tasks_perm incl excl db), elem_of_map_to_list.
    by rewrite lookup_rows_where.
  - rewrite (sorted_tasks_perm incl excl db). apply NoDup_fst_map_to_list.
  - intros page. simpl. rewrite (sorted_tasks_perm incl excl db). by rewrite length_map_to_list.
Qed.

(** Past that bound the offset wraps around on uint32: the page after
    the last representable one is the first page again. *)
Theorem ListTasks_page_wraps incl excl k limit page db :
  (0 < limit)%Z → (0 < page)%Z → ((page - 1) * limit = 2 ^ 32 * k)%Z → (0 ≤ k)%Z →
  (ListTasks incl excl page limit db).1 = (ListTasks incl excl 1 limit db).1.
Proof.
  intros Hl Hp Heq Hk. unfold ListTasks. simpl fst.
  assert (page_bounds page limit = page_bounds 1 limit) as ->; [|done].
  unfold page_bounds. rewrite !(decide_False (P := limit = 0%Z)) by lia.
  rewrite !decide_False by lia. rewrite Heq. f_equal.
  rewrite Z.mul_comm, Z.mod_mul by lia. done.
Qed.
End theorems5.

(** ** Concrete instances *)
Definition s2 : State := MkState ids0 ex2.
Definition s3 : State := MkState ids1 ex3.
Definition s4 : State := MkState ids1 ex4.
Definition s5 : State := MkState ids1 ex5.
Definition s3b : State := MkState ids1 ex3b.
Definition s4b : State := MkState ids2 ex4b.


Lemma reachable_store_inv_witness :
  index_unique active_service_instance_key (tasks ex5) ∧ aggregate_ok ex5.
Proof.
  destruct (reachable_store_inv s5 ex5_reachable) as (_ & H1 & _ & _ & _ & _ & _ & H2).
  split; [exact H1|exact H2].
Defined.

Lemma task_life_refines_witness :
  ∃ l', life_in s4 "t1" = Some l' ∧ (l' = OfferedTo "e1" ∨ life_step (OfferedTo "e1") l').
Proof.
  apply (task_life_refines s3 s4 "t1" (OfferedTo "e1") ex3_reachable ex4_step). by_computation.
Defined.

Lemma accepted_execution_exclusive_witness :
  ∃ l, life_in s5 "t1" = Some l ∧ held_by "e1" l.
Proof.
  apply (accepted_execution_exclusive s4 s5 "t1" "e1" ex4_reachable).
  - by_computation.
  - exact (rtc_once _ _ ex5_step).
Defined.

Lemma requeued_offer_fenced_witness :
  AcknowledgeTaskExecution "t1" "e1" (sec 1043) (sec 1073) ex4b = Err ErrTaskExecutionMismatch ∧
  is_ok (CompleteTaskExecution "ev9" "t1" "e1" StatusSucceeded (sec 1044) "" ex4b) = false.
Proof.
  destruct (requeued_offer_fenced s3 (sec 1041) s3b s4b "t1" "e1" "t1" (sec 1043) (sec 1073) "ev9" "n1"
    StatusSucceeded (sec 1044) "" ex3_reachable) as (H1 & _ & _ & H2).
  - by_computation.
  - reflexivity.
  - by_computation.
  - exact (rtc_once _ _ ex4b_step).
  - split; [exact H1|exact H2].
Defined.

Lemma finished_task_is_final_witness :
  ∃ r', tasks ex5 !! "t1" = Some r' ∧ same_outcome (row_of ex5 "t1") r'.
Proof.
  apply (finished_task_is_final s5 s5 "t1" (row_of ex5 "t1") ex5_reachable).
  - by_computation.
  - by_decision.
  - apply rtc_refl.
Defined.

Lemma CompleteTaskExecution_replay_witness :
  CompleteTaskExecution "ev2" "t1" "e1" StatusSucceeded (sec 1060) "" ex5 = Ok ex5 ∧
  CompleteTaskExecution "ev3" "t1" "e1" StatusFailed (sec 1060) "boom" ex5 = Err ErrTaskExecutionConflict.
Proof.
  split.
  - rewrite (CompleteTaskExecution_replay "ev1" "t1" "e1" StatusSucceeded (sec 1050) "" ex4 ex5
      "ev2" StatusSucceeded (sec 1060) ""); [reflexivity|discriminate|by_computation|by_decision].
  - rewrite (CompleteTaskExecution_replay "ev1" "t1" "e1" StatusSucceeded (sec 1050) "" ex4 ex5
      "ev3" StatusFailed (sec 1060) "boom"); [reflexivity|discriminate|by_computation|by_decision].
Defined.

Lemma CompleteTaskExecution_completes_witness :
  (∃ eid ev, events_of "t1" ex5 = {[eid := ev]}) ∧
  tasks ex5 !! "t1" = Some (end_execution StatusSucceeded (sec 1050) None (row_of ex4 "t1")).
Proof.
  destruct (CompleteTaskExecution_completes s4 "ev1" "t1" "e1" StatusSucceeded (sec 1050) "" ex5
    (row_of ex4 "t1") ex4_reachable) as (H1 & H2 & _).
  - by_computation.
  - by_computation.
  - discriminate.
  - by_computation.
  - split; [exact H1|exact H2].
Defined.

Definition batch : list BatchEntry :=
  [(ex_record "t3" TypeStop "n1" "" 1100, ("u3", sec 1100));
   (ex_record "" TypeRestart "n2" "" 1100, ("u4", sec 1100))].
Definition ex5_done : DB := after' (CompleteTask "t2" StatusCancelled (sec 1090) "" ex5) ex5.
Definition batch_result : DB * list TaskRecord :=
  match CreateTasksIfNoActiveServiceInstanceTasks batch ex5_done with
  | Ok res => res | Err _ => (ex5_done, [])
  end.

Lemma CreateTasks_admits_witness :
  length batch_result.2 = 2 ∧ NoDup (instance_key <$> batch_result.2).
Proof.
  destruct (CreateTasks_admits batch ex5_done batch_result.1 batch_result.2) as (H1 & H2 & _).
  - by_computation.
  - split; [exact H1|exact H2].
Defined.

Definition dup_record : TaskRecord := ex_record "t9" TypePrune "" "k2" 1200.
Definition dup_prepared : TaskRecord :=
  match prepareTaskRecord "u9" (sec 1200) dup_record with Ok r => r | Err _ => dup_record end.
Lemma CreateTask_dedupes_witness :
  CreateTask "u9" (sec 1200) dup_record ex5 = Err (DuplicateTaskError "k2").
Proof.
  destruct (CreateTask_dedupes s5 "u9" (sec 1200) dup_record dup_prepared "t2" (row_of ex5 "t2")
    ex5_reachable) as (_ & H & _).
  - by_computation.
  - by_computation.
  - discriminate.
  - by_computation.
  - apply H; [by_computation|by_decision|by_computation].
Defined.

Definition ex_step (status : string) (finished : option Time.time) : StepRecord :=
  MkStepRecord "t1" StepPull status (Some (sec 1021)) finished.
Definition ex4_pulled : DB := after' (UpsertTaskStep (ex_step StatusSucceeded (Some (sec 1022))) ex4) ex4.
Lemma finished_step_is_final_witness :
  task_steps (SweepExpiredTaskExecutions (sec 1090) ex4_pulled).1 !! ("t1", StepPull) =
  Some (MkStepRow StatusSucceeded (Some 1021%Z) (Some 1022%Z)).
Proof.
  apply (finished_step_is_final (MkState ids1 ex4_pulled)
    (MkState ids1 (SweepExpiredTaskExecutions (sec 1090) ex4_pulled).1)).
  - apply rtc_once, step_call, call_SweepExpiredTaskExecutions.
  - by_computation.
  - reflexivity.
Defined.

Lemma log_confirmed_seq_monotone_witness :
  is_ok (SetTaskLogConfirmedSeq "t1" 3 ex4) = true ∧ is_ok (SetTaskLogConfirmedSeq "t1" (-1) ex4) = false.
Proof.
  destruct (log_confirmed_seq_monotone s4 s5 "t1" (row_of ex4 "t1") ex4_reachable) as [_ H].
  - by_computation.
  - exact (rtc_once _ _ ex5_step).
  - split; rewrite (H _); reflexivity.
Defined.

Lemma service_status_follows_instances_witness :
  sv_runtime_status (match services ex5 !! "web" with
                     | Some r => r | None => MkServiceRow false "" None 0 end)
    ∈ [ServiceRuntimeRunning; ServiceRuntimeStopped; ServiceRuntimeError; ServiceRuntimeUnknown].
Proof.
  destruct (service_status_follows_instances s5 "web"
    (match services ex5 !! "web" with Some r => r | None => MkServiceRow false "" None 0 end)
    ex5_reachable) as (_ & _ & _ & H); [by_computation|by_computation|exact H].
Defined.

Lemma SyncDeclaredServices_declares_witness :
  aggregate_ok (SyncDeclaredServices (sec 2000) [("web", ["n1"])] ex5).
Proof.
  destruct (SyncDeclaredServices_declares (sec 2000) [("web", ["n1"])] ex5) as (_ & _ & _ & H & _);
    [by_decision|exact H].
Defined.

Lemma SyncDeclaredServices_order_independent_witness :
  SyncDeclaredServices (sec 2000) ex_decl ex5 =
  SyncDeclaredServices (sec 2000) [("db", ["n1"]); ("web", ["n1"; "n2"])] ex5.
Proof.
  apply (SyncDeclaredServices_order_independent (sec 2000) ex_decl); [by_decision|].
  apply perm_swap.
Defined.

Definition no_filters : TaskFilters := MkTaskFilters [] [] [] [].
Lemma ListTasks_pages_witness :
  concat ((λ p, (ListTasks no_filters no_filters (Z.of_nat p) 1 ex5).1) <$> [1; 2]) =
  take 2 ((λ kr, task_summary kr.1 kr.2) <$> sorted_tasks no_filters no_filters ex5).
Proof. apply (ListTasks_pages no_filters no_filters 1 2 ex5); lia. Defined.

Lemma ListTasks_page_wraps_witness :
  (ListTasks no_filters no_filters 65537 65536 ex5).1 = (ListTasks no_filters no_filters 1 65536 ex5).1.
Proof. apply (ListTasks_page_wraps no_filters no_filters 1 65536 65537 ex5); lia. Defined.
