(* ===== verification/Rpc.v ===== *)
(** * The RPC utilities: src/internal/platform/rpcutil

    The errors the handlers return, the bearer interceptors (auth.go), the
    static headers (headers.go) and the base paths (path.go).  The Connect
    library around them is not modelled: a handler is a function of the
    subject the interceptor stored in the context and of the request.  Of an
    error text built with [fmt.Errorf] the constant words are kept. *)
From S2P Require Export GoStrings StoreDB.
From Stdlib Require Import Ascii.

(** ** Connect errors *)
Inductive Code : Type :=
| CodeInvalidArgument | CodeNotFound | CodeAlreadyExists | CodePermissionDenied
| CodeFailedPrecondition | CodeInternal | CodeUnauthenticated | CodeUnavailable
| CodeAborted | CodeUnimplemented | CodeUnknown | CodeCanceled | CodeDeadlineExceeded.
#[export] Instance Code_eq_dec : EqDecision Code.
Proof. solve_decision. Defined.

(** [connect.NewError(code, err)]: [err] is an error of the store or a text. *)
Inductive ConnectError : Type :=
| NewError (code : Code) (message : string)
| StoreFailed (code : Code) (error : StoreError).
#[export] Instance ConnectError_eq_dec : EqDecision ConnectError.
Proof. solve_decision. Defined.

Definition CodeOf (e : ConnectError) : Code :=
  match e with
  | NewError code _ | StoreFailed code _ => code
  end.

(** [if err != nil { return connect.NewError(code, err) }] *)
Definition or_code {A} (code : Code) (m : result StoreError A) : result ConnectError A :=
  match m with
  | Ok a => Ok a
  | Err e => Err (StoreFailed code e)
  end.
(** The same with [ErrTaskNotFound] answered by [CodeNotFound]. *)
Definition or_not_found {A} (m : result StoreError A) : result ConnectError A :=
  match m with
  | Ok a => Ok a
  | Err ErrTaskNotFound => Err (StoreFailed CodeNotFound ErrTaskNotFound)
  | Err e => Err (StoreFailed CodeInternal e)
  end.

(** [rpcutil.BearerSubject(ctx)]: the subject of the context, if any. *)
Definition Context_ : Type := option string.
Definition BearerSubject (ctx : Context_) : option string := ctx.

(** ** auth.go *)
Definition bearerToken (header : string) : result string string :=
  let header := TrimSpace header in
  if decide (header = "") then Err "missing Authorization header"
  else if negb (HasPrefix header "Bearer ") then Err "invalid Authorization header"
  else
    let token := TrimSpace (TrimPrefix header "Bearer ") in
    if decide (token = "") then Err "empty bearer token" else Ok token.

Section auth.
Context (validate : string → result string string).

Definition authenticatedContext (authorizationHeader : string) : result string Context_ :=
  result_bind (bearerToken authorizationHeader) (λ token,
  result_bind (validate token) (λ subject, Ok (Some subject))).

(** The server side of [WrapUnary] and [WrapStreamingHandler]. *)
Definition server_interceptor {A} (next : Context_ → result ConnectError A)
    (authorizationHeader : string) : result ConnectError A :=
  match authenticatedContext authorizationHeader with
  | Ok ctx => next ctx
  | Err e => Err (NewError CodeUnauthenticated e)
  end.
End auth.

(** The client side sets the header. *)
Definition client_authorization (staticToken : string) : string := "Bearer " +:+ staticToken.

(** ** headers.go *)
Definition reservedStaticHeaderNames : list string :=
  ["authorization"; "connect-protocol-version"; "content-type"; "grpc-accept-encoding";
   "grpc-encoding"; "grpc-timeout"; "te"].

Definition isTokenChar (char : ascii) : bool :=
  is_digit_byte char || is_upper_byte char || is_lower_byte char ||
  bool_decide (char ∈ String.list_ascii_of_string "!#$%&'*+-.^_`|~").

(** A byte above 127 belongs to a character above 127. *)
Definition validHeaderName (name : string) : bool := all_bytes isTokenChar name.

(** [http.CanonicalHeaderKey] of a name made of token characters. *)
Fixpoint canonical_from (upper : bool) (s : string) : string :=
  match s with
  | EmptyString => ""
  | String c s =>
      String (if upper then upper_byte c else lower_byte c)
        (canonical_from (bool_decide (c = "-"%char)) s)
  end.
Definition CanonicalHeaderKey (name : string) : string := canonical_from true name.

Definition add_header (normalized : gmap string string) (header : string * string)
    : result string (gmap string string) :=
  let name := TrimSpace header.1 in
  let value := TrimSpace header.2 in
  if decide (name = "") then Err "custom header name must not be empty"
  else if decide (value = "") then Err "custom header value must not be empty"
  else if negb (validHeaderName name) then Err "custom header is invalid"
  else if decide (ToLower name ∈ reservedStaticHeaderNames) then Err "custom header is reserved"
  else if decide (is_Some (normalized !! CanonicalHeaderKey name))
  then Err "custom header is duplicated"
  else Ok (<[CanonicalHeaderKey name := value]> normalized).

(** The range over the map, in the order [headers] lists its entries. *)
Definition NormalizeStaticHeaders (headers : list (string * string))
    : result string (gmap string string) := for_each add_header ∅ headers.

(** [header.Get] is "" for an absent name. *)
Definition setStaticHeaders (header headers : gmap string string) : gmap string string :=
  union_with (λ old new, Some (if decide (old = "") then new else old)) header headers.

(** ** path.go *)
Fixpoint trim_right_slashes (s : string) : string :=
  match s with
  | EmptyString => ""
  | String c s =>
      match trim_right_slashes s with
      | EmptyString => if decide (c = "/"%char) then "" else String c ""
      | s => String c s
      end
  end.

Definition JoinBaseURL (baseURL basePath : string) : string :=
  let baseURL := trim_right_slashes (TrimSpace baseURL) in
  let basePath := TrimSpace basePath in
  if decide (basePath = "" ∨ basePath = "/") then baseURL
  else
    let basePath := if HasPrefix basePath "/" then basePath else "/" +:+ basePath in
    baseURL +:+ trim_right_slashes basePath.

Definition PrefixRPCPath (basePath rpcPath : string) : string :=
  let basePath := TrimSpace basePath in
  let rpcPath := TrimSpace rpcPath in
  if decide (basePath = "" ∨ basePath = "/") then
    if HasPrefix rpcPath "/" then rpcPath else "/" +:+ rpcPath
  else
    let basePath := if HasPrefix basePath "/" then basePath else "/" +:+ basePath in
    let basePath := trim_right_slashes basePath in
    let rpcPath := if HasPrefix rpcPath "/" then rpcPath else "/" +:+ rpcPath in
    basePath +:+ rpcPath.

(** ** Lemmas *)
Lemma or_code_Ok {A} code (m : result StoreError A) a : or_code code m = Ok a ↔ m = Ok a.
Proof. destruct m; simpl; naive_solver. Qed.
Lemma or_not_found_Ok {A} (m : result StoreError A) a : or_not_found m = Ok a ↔ m = Ok a.
Proof. destruct m as [|[]]; simpl; naive_solver. Qed.

(** A handler behind the interceptor only runs with the subject [validate]
    gave for the token of the request. *)
Lemma server_interceptor_Ok {A} validate (next : Context_ → result ConnectError A) header a :
  server_interceptor validate next header = Ok a →
  ∃ token subject, bearerToken header = Ok token ∧ validate token = Ok subject ∧
    next (Some subject) = Ok a.
Proof.
  unfold server_interceptor, authenticatedContext.
  destruct (bearerToken header) as [token|] eqn:Ht; [|done]. simpl.
  destruct (validate token) as [subject|] eqn:Hv; [|done]. simpl. eauto.
Qed.

(** The address a client calls is the path the server mounts, under the
    trimmed base URL. *)
Lemma JoinBaseURL_PrefixRPCPath baseURL basePath rpcPath :
  TrimSpace rpcPath = rpcPath → HasPrefix rpcPath "/" = true →
  JoinBaseURL baseURL basePath +:+ rpcPath =
  trim_right_slashes (TrimSpace baseURL) +:+ PrefixRPCPath basePath rpcPath.
Proof.
  intros Ht Hp. unfold JoinBaseURL, PrefixRPCPath. rewrite Ht, Hp.
  case_decide; [done|]. by rewrite GoStrings.app_assoc.
Qed.

(** The accepted headers: every name is a valid canonical name that is not
    reserved, every value is not empty. *)
Definition static_header (name value : string) : Prop :=
  value ≠ "" ∧ ∃ raw, name = CanonicalHeaderKey raw ∧ raw ≠ "" ∧ validHeaderName raw = true ∧
    ToLower raw ∉ reservedStaticHeaderNames.

Lemma NormalizeStaticHeaders_valid headers normalized :
  NormalizeStaticHeaders headers = Ok normalized → map_Forall static_header normalized.
Proof.
  apply (for_each_ind (map_Forall static_header)); [|apply map_Forall_empty].
  intros m [name value] m' _ Hm Hadd. unfold add_header in Hadd. simpl in Hadd.
  destruct (validHeaderName (TrimSpace name)) eqn:Hv; [|by repeat case_decide].
  ok_inv. apply map_Forall_insert_2; [|done]. split; [done|]. by exists (TrimSpace name).
Qed.

Lemma reserved_header_refused headers name value :
  (name, value) ∈ headers → ToLower (TrimSpace name) ∈ reservedStaticHeaderNames →
  is_ok (NormalizeStaticHeaders headers) = false.
Proof.
  unfold NormalizeStaticHeaders. generalize (∅ : gmap string string). intros m Hin Hres.
  revert m. induction headers as [|h headers IH]; intros m; [by apply elem_of_nil in Hin|].
  simpl. destruct (add_header m h) as [m'|] eqn:Hadd; [|done]. simpl.
  apply elem_of_cons in Hin as [<-|Hin]; [|by apply IH].
  exfalso. unfold add_header in Hadd. simpl in Hadd.
  destruct (validHeaderName (TrimSpace name)); simpl in Hadd; repeat case_decide; done.
Qed.
