(* ===== verification/Proto.v ===== *)
(** * Protocol enumerations: src/internal/app/agent/proto_helpers.go and
    src/internal/app/controller/proto_helpers.go

    The two packages translate the string constants of the task package to
    the generated protobuf enumerations and back, each by a [switch].  The
    enumerations are generated code (gen/go): an inductive type per
    enumeration, whose constructors are the generated names.  A [switch] with
    a [default] is the first entry of a table that matches. *)
From S2P Require Export Task.

Definition switch {A B} `{EqDecision A} (value : A) (cases : list (A * B)) (default : B) : B :=
  match list_find (λ c, c.1 = value) cases with
  | Some (_, c) => c.2
  | None => default
  end.

(** A table read from right to left. *)
Definition swap {A B} (c : A * B) : B * A := (c.2, c.1).

(** ** agentv1 *)
Inductive AgentTaskType : Type :=
| AGENT_TASK_TYPE_UNSPECIFIED | AGENT_TASK_TYPE_DEPLOY | AGENT_TASK_TYPE_STOP
| AGENT_TASK_TYPE_RESTART | AGENT_TASK_TYPE_UPDATE | AGENT_TASK_TYPE_BACKUP
| AGENT_TASK_TYPE_RESTORE | AGENT_TASK_TYPE_MIGRATE | AGENT_TASK_TYPE_DNS_UPDATE
| AGENT_TASK_TYPE_CLOUDFLARE_TUNNEL_SYNC | AGENT_TASK_TYPE_CADDY_SYNC
| AGENT_TASK_TYPE_CADDY_RELOAD | AGENT_TASK_TYPE_IMAGE_CHECK | AGENT_TASK_TYPE_PRUNE
| AGENT_TASK_TYPE_RUSTIC_INIT | AGENT_TASK_TYPE_RUSTIC_FORGET | AGENT_TASK_TYPE_RUSTIC_PRUNE
| AGENT_TASK_TYPE_DOCKER_START | AGENT_TASK_TYPE_DOCKER_STOP | AGENT_TASK_TYPE_DOCKER_RESTART
| AGENT_TASK_TYPE_DOCKER_REMOVE_CONTAINER | AGENT_TASK_TYPE_DOCKER_REMOVE_NETWORK
| AGENT_TASK_TYPE_DOCKER_REMOVE_VOLUME | AGENT_TASK_TYPE_DOCKER_REMOVE_IMAGE.
#[export] Instance AgentTaskType_eq_dec : EqDecision AgentTaskType.
Proof. solve_decision. Defined.

Inductive AgentTaskStatus : Type :=
| AGENT_TASK_STATUS_UNSPECIFIED | AGENT_TASK_STATUS_PENDING | AGENT_TASK_STATUS_RUNNING
| AGENT_TASK_STATUS_AWAITING_CONFIRMATION | AGENT_TASK_STATUS_SUCCEEDED
| AGENT_TASK_STATUS_FAILED | AGENT_TASK_STATUS_CANCELLED.
#[export] Instance AgentTaskStatus_eq_dec : EqDecision AgentTaskStatus.
Proof. solve_decision. Defined.

Inductive AgentTaskStepName : Type :=
| AGENT_TASK_STEP_NAME_UNSPECIFIED | AGENT_TASK_STEP_NAME_RENDER | AGENT_TASK_STEP_NAME_PULL
| AGENT_TASK_STEP_NAME_BACKUP | AGENT_TASK_STEP_NAME_COMPOSE_DOWN
| AGENT_TASK_STEP_NAME_COMPOSE_UP | AGENT_TASK_STEP_NAME_TRANSFER
| AGENT_TASK_STEP_NAME_RESTORE | AGENT_TASK_STEP_NAME_DNS_UPDATE
| AGENT_TASK_STEP_NAME_CLOUDFLARE_TUNNEL_SYNC | AGENT_TASK_STEP_NAME_CADDY_SYNC
| AGENT_TASK_STEP_NAME_CADDY_RELOAD | AGENT_TASK_STEP_NAME_IMAGE_CHECK
| AGENT_TASK_STEP_NAME_INIT | AGENT_TASK_STEP_NAME_PRUNE
| AGENT_TASK_STEP_NAME_AWAITING_CONFIRMATION | AGENT_TASK_STEP_NAME_PERSIST_REPO
| AGENT_TASK_STEP_NAME_FINALIZE | AGENT_TASK_STEP_NAME_DOCKER_START
| AGENT_TASK_STEP_NAME_DOCKER_STOP | AGENT_TASK_STEP_NAME_DOCKER_RESTART
| AGENT_TASK_STEP_NAME_DOCKER_REMOVE.
#[export] Instance AgentTaskStepName_eq_dec : EqDecision AgentTaskStepName.
Proof. solve_decision. Defined.

(** ** controllerv1 *)
Inductive ProtoTaskType : Type :=
| TASK_TYPE_UNSPECIFIED | TASK_TYPE_DEPLOY | TASK_TYPE_STOP | TASK_TYPE_RESTART
| TASK_TYPE_UPDATE | TASK_TYPE_BACKUP | TASK_TYPE_RESTORE | TASK_TYPE_MIGRATE
| TASK_TYPE_DNS_UPDATE | TASK_TYPE_CLOUDFLARE_TUNNEL_SYNC | TASK_TYPE_CADDY_SYNC
| TASK_TYPE_CADDY_RELOAD | TASK_TYPE_IMAGE_CHECK | TASK_TYPE_PRUNE | TASK_TYPE_RUSTIC_INIT
| TASK_TYPE_RUSTIC_FORGET | TASK_TYPE_RUSTIC_PRUNE | TASK_TYPE_DOCKER_START
| TASK_TYPE_DOCKER_STOP | TASK_TYPE_DOCKER_RESTART | TASK_TYPE_DOCKER_REMOVE_CONTAINER
| TASK_TYPE_DOCKER_REMOVE_NETWORK | TASK_TYPE_DOCKER_REMOVE_VOLUME
| TASK_TYPE_DOCKER_REMOVE_IMAGE | TASK_TYPE_MIGRATE_ROLLBACK.
#[export] Instance ProtoTaskType_eq_dec : EqDecision ProtoTaskType.
Proof. solve_decision. Defined.

Inductive ProtoTaskStatus : Type :=
| TASK_STATUS_UNSPECIFIED | TASK_STATUS_PENDING | TASK_STATUS_RUNNING
| TASK_STATUS_AWAITING_CONFIRMATION | TASK_STATUS_SUCCEEDED | TASK_STATUS_FAILED
| TASK_STATUS_CANCELLED.
#[export] Instance ProtoTaskStatus_eq_dec : EqDecision ProtoTaskStatus.
Proof. solve_decision. Defined.

Inductive ProtoTaskSource : Type :=
| TASK_SOURCE_UNSPECIFIED | TASK_SOURCE_WEB | TASK_SOURCE_CLI | TASK_SOURCE_OTHERS
| TASK_SOURCE_SCHEDULE | TASK_SOURCE_SYSTEM | TASK_SOURCE_AUTO_DEPLOY.
#[export] Instance ProtoTaskSource_eq_dec : EqDecision ProtoTaskSource.
Proof. solve_decision. Defined.

Inductive ProtoTaskStepName : Type :=
| TASK_STEP_NAME_UNSPECIFIED | TASK_STEP_NAME_RENDER | TASK_STEP_NAME_PULL
| TASK_STEP_NAME_BACKUP | TASK_STEP_NAME_COMPOSE_DOWN | TASK_STEP_NAME_COMPOSE_UP
| TASK_STEP_NAME_TRANSFER | TASK_STEP_NAME_RESTORE | TASK_STEP_NAME_DNS_UPDATE
| TASK_STEP_NAME_CLOUDFLARE_TUNNEL_SYNC | TASK_STEP_NAME_CADDY_SYNC
| TASK_STEP_NAME_CADDY_RELOAD | TASK_STEP_NAME_IMAGE_CHECK | TASK_STEP_NAME_INIT
| TASK_STEP_NAME_PRUNE | TASK_STEP_NAME_AWAITING_CONFIRMATION | TASK_STEP_NAME_PERSIST_REPO
| TASK_STEP_NAME_FINALIZE | TASK_STEP_NAME_DOCKER_START | TASK_STEP_NAME_DOCKER_STOP
| TASK_STEP_NAME_DOCKER_RESTART | TASK_STEP_NAME_DOCKER_REMOVE.
#[export] Instance ProtoTaskStepName_eq_dec : EqDecision ProtoTaskStepName.
Proof. solve_decision. Defined.

Inductive TaskConfirmationDecision : Type :=
| TASK_CONFIRMATION_DECISION_UNSPECIFIED | TASK_CONFIRMATION_DECISION_APPROVE
| TASK_CONFIRMATION_DECISION_REJECT.
#[export] Instance TaskConfirmationDecision_eq_dec : EqDecision TaskConfirmationDecision.
Proof. solve_decision. Defined.

(** ** The translations of the agent *)
Module AgentProto.
Definition types : list (string * AgentTaskType) :=
  [(TypeDeploy, AGENT_TASK_TYPE_DEPLOY); (TypeStop, AGENT_TASK_TYPE_STOP);
   (TypeRestart, AGENT_TASK_TYPE_RESTART); (TypeUpdate, AGENT_TASK_TYPE_UPDATE);
   (TypeBackup, AGENT_TASK_TYPE_BACKUP); (TypeRestore, AGENT_TASK_TYPE_RESTORE);
   (TypeMigrate, AGENT_TASK_TYPE_MIGRATE); (TypeDNSUpdate, AGENT_TASK_TYPE_DNS_UPDATE);
   (TypeCloudflareTunnelSync, AGENT_TASK_TYPE_CLOUDFLARE_TUNNEL_SYNC);
   (TypeCaddySync, AGENT_TASK_TYPE_CADDY_SYNC);
   (TypeCaddyReload, AGENT_TASK_TYPE_CADDY_RELOAD);
   (TypeImageCheck, AGENT_TASK_TYPE_IMAGE_CHECK); (TypePrune, AGENT_TASK_TYPE_PRUNE);
   (TypeRusticInit, AGENT_TASK_TYPE_RUSTIC_INIT);
   (TypeRusticForget, AGENT_TASK_TYPE_RUSTIC_FORGET);
   (TypeRusticPrune, AGENT_TASK_TYPE_RUSTIC_PRUNE);
   (TypeDockerStart, AGENT_TASK_TYPE_DOCKER_START);
   (TypeDockerStop, AGENT_TASK_TYPE_DOCKER_STOP);
   (TypeDockerRestart, AGENT_TASK_TYPE_DOCKER_RESTART);
   (TypeDockerRemoveContainer, AGENT_TASK_TYPE_DOCKER_REMOVE_CONTAINER);
   (TypeDockerRemoveNetwork, AGENT_TASK_TYPE_DOCKER_REMOVE_NETWORK);
   (TypeDockerRemoveVolume, AGENT_TASK_TYPE_DOCKER_REMOVE_VOLUME);
   (TypeDockerRemoveImage, AGENT_TASK_TYPE_DOCKER_REMOVE_IMAGE)].
Definition protoAgentTaskType (value : string) : AgentTaskType :=
  switch value types AGENT_TASK_TYPE_UNSPECIFIED.

Definition statuses : list (string * AgentTaskStatus) :=
  [(StatusPending, AGENT_TASK_STATUS_PENDING); (StatusRunning, AGENT_TASK_STATUS_RUNNING);
   (StatusAwaitingConfirmation, AGENT_TASK_STATUS_AWAITING_CONFIRMATION);
   (StatusSucceeded, AGENT_TASK_STATUS_SUCCEEDED); (StatusFailed, AGENT_TASK_STATUS_FAILED);
   (StatusCancelled, AGENT_TASK_STATUS_CANCELLED)].
Definition protoAgentTaskStatus (value : string) : AgentTaskStatus :=
  switch value statuses AGENT_TASK_STATUS_UNSPECIFIED.
Definition status_texts : list (AgentTaskStatus * string) :=
  [(AGENT_TASK_STATUS_PENDING, StatusPending); (AGENT_TASK_STATUS_RUNNING, StatusRunning);
   (AGENT_TASK_STATUS_AWAITING_CONFIRMATION, StatusAwaitingConfirmation);
   (AGENT_TASK_STATUS_SUCCEEDED, StatusSucceeded); (AGENT_TASK_STATUS_FAILED, StatusFailed);
   (AGENT_TASK_STATUS_CANCELLED, StatusCancelled)].
Definition agentTaskStatusText (value : AgentTaskStatus) : string :=
  switch value status_texts "".

Definition step_names : list (string * AgentTaskStepName) :=
  [(StepRender, AGENT_TASK_STEP_NAME_RENDER); (StepPull, AGENT_TASK_STEP_NAME_PULL);
   (StepBackup, AGENT_TASK_STEP_NAME_BACKUP);
   (StepComposeDown, AGENT_TASK_STEP_NAME_COMPOSE_DOWN);
   (StepComposeUp, AGENT_TASK_STEP_NAME_COMPOSE_UP);
   (StepTransfer, AGENT_TASK_STEP_NAME_TRANSFER); (StepRestore, AGENT_TASK_STEP_NAME_RESTORE);
   (StepDNSUpdate, AGENT_TASK_STEP_NAME_DNS_UPDATE);
   (StepCloudflareTunnelSync, AGENT_TASK_STEP_NAME_CLOUDFLARE_TUNNEL_SYNC);
   (StepCaddySync, AGENT_TASK_STEP_NAME_CADDY_SYNC);
   (StepCaddyReload, AGENT_TASK_STEP_NAME_CADDY_RELOAD);
   (StepImageCheck, AGENT_TASK_STEP_NAME_IMAGE_CHECK); (StepInit, AGENT_TASK_STEP_NAME_INIT);
   (StepPrune, AGENT_TASK_STEP_NAME_PRUNE);
   (StepAwaitingConfirmation, AGENT_TASK_STEP_NAME_AWAITING_CONFIRMATION);
   (StepPersistRepo, AGENT_TASK_STEP_NAME_PERSIST_REPO);
   (StepFinalize, AGENT_TASK_STEP_NAME_FINALIZE);
   (StepDockerStart, AGENT_TASK_STEP_NAME_DOCKER_START);
   (StepDockerStop, AGENT_TASK_STEP_NAME_DOCKER_STOP);
   (StepDockerRestart, AGENT_TASK_STEP_NAME_DOCKER_RESTART);
   (StepDockerRemove, AGENT_TASK_STEP_NAME_DOCKER_REMOVE)].
Definition protoAgentTaskStepName (value : string) : AgentTaskStepName :=
  switch value step_names AGENT_TASK_STEP_NAME_UNSPECIFIED.
Definition task_step_names : list (AgentTaskStepName * string) :=
  [(AGENT_TASK_STEP_NAME_RENDER, StepRender); (AGENT_TASK_STEP_NAME_PULL, StepPull);
   (AGENT_TASK_STEP_NAME_BACKUP, StepBackup);
   (AGENT_TASK_STEP_NAME_COMPOSE_DOWN, StepComposeDown);
   (AGENT_TASK_STEP_NAME_COMPOSE_UP, StepComposeUp);
   (AGENT_TASK_STEP_NAME_TRANSFER, StepTransfer); (AGENT_TASK_STEP_NAME_RESTORE, StepRestore);
   (AGENT_TASK_STEP_NAME_DNS_UPDATE, StepDNSUpdate);
   (AGENT_TASK_STEP_NAME_CLOUDFLARE_TUNNEL_SYNC, StepCloudflareTunnelSync);
   (AGENT_TASK_STEP_NAME_CADDY_SYNC, StepCaddySync);
   (AGENT_TASK_STEP_NAME_CADDY_RELOAD, StepCaddyReload);
   (AGENT_TASK_STEP_NAME_IMAGE_CHECK, StepImageCheck); (AGENT_TASK_STEP_NAME_INIT, StepInit);
   (AGENT_TASK_STEP_NAME_PRUNE, StepPrune);
   (AGENT_TASK_STEP_NAME_AWAITING_CONFIRMATION, StepAwaitingConfirmation);
   (AGENT_TASK_STEP_NAME_PERSIST_REPO, StepPersistRepo);
   (AGENT_TASK_STEP_NAME_FINALIZE, StepFinalize);
   (AGENT_TASK_STEP_NAME_DOCKER_START, StepDockerStart);
   (AGENT_TASK_STEP_NAME_DOCKER_STOP, StepDockerStop);
   (AGENT_TASK_STEP_NAME_DOCKER_RESTART, StepDockerRestart);
   (AGENT_TASK_STEP_NAME_DOCKER_REMOVE, StepDockerRemove)].
Definition agentTaskStepNameToTask (value : AgentTaskStepName) : string :=
  switch value task_step_names "".
End AgentProto.

(** ** The translations of the controller *)
Module ControllerProto.
Definition types : list (string * ProtoTaskType) :=
  [(TypeDeploy, TASK_TYPE_DEPLOY); (TypeStop, TASK_TYPE_STOP);
   (TypeRestart, TASK_TYPE_RESTART); (TypeUpdate, TASK_TYPE_UPDATE);
   (TypeBackup, TASK_TYPE_BACKUP); (TypeRestore, TASK_TYPE_RESTORE);
   (TypeMigrate, TASK_TYPE_MIGRATE); (TypeDNSUpdate, TASK_TYPE_DNS_UPDATE);
   (TypeCloudflareTunnelSync, TASK_TYPE_CLOUDFLARE_TUNNEL_SYNC);
   (TypeCaddySync, TASK_TYPE_CADDY_SYNC); (TypeCaddyReload, TASK_TYPE_CADDY_RELOAD);
   (TypeImageCheck, TASK_TYPE_IMAGE_CHECK); (TypePrune, TASK_TYPE_PRUNE);
   (TypeRusticInit, TASK_TYPE_RUSTIC_INIT); (TypeRusticForget, TASK_TYPE_RUSTIC_FORGET);
   (TypeRusticPrune, TASK_TYPE_RUSTIC_PRUNE); (TypeDockerStart, TASK_TYPE_DOCKER_START);
   (TypeDockerStop, TASK_TYPE_DOCKER_STOP); (TypeDockerRestart, TASK_TYPE_DOCKER_RESTART);
   (TypeDockerRemoveContainer, TASK_TYPE_DOCKER_REMOVE_CONTAINER);
   (TypeDockerRemoveNetwork, TASK_TYPE_DOCKER_REMOVE_NETWORK);
   (TypeDockerRemoveVolume, TASK_TYPE_DOCKER_REMOVE_VOLUME);
   (TypeDockerRemoveImage, TASK_TYPE_DOCKER_REMOVE_IMAGE);
   (TypeMigrateRollback, TASK_TYPE_MIGRATE_ROLLBACK)].
Definition protoTaskType (value : string) : ProtoTaskType := switch value types TASK_TYPE_UNSPECIFIED.

Definition statuses : list (string * ProtoTaskStatus) :=
  [(StatusPending, TASK_STATUS_PENDING); (StatusRunning, TASK_STATUS_RUNNING);
   (StatusAwaitingConfirmation, TASK_STATUS_AWAITING_CONFIRMATION);
   (StatusSucceeded, TASK_STATUS_SUCCEEDED); (StatusFailed, TASK_STATUS_FAILED);
   (StatusCancelled, TASK_STATUS_CANCELLED)].
Definition protoTaskStatus (value : string) : ProtoTaskStatus := switch value statuses TASK_STATUS_UNSPECIFIED.

Definition sources : list (string * ProtoTaskSource) :=
  [(SourceWeb, TASK_SOURCE_WEB); (SourceCLI, TASK_SOURCE_CLI);
   (SourceOthers, TASK_SOURCE_OTHERS); (SourceSchedule, TASK_SOURCE_SCHEDULE);
   (SourceSystem, TASK_SOURCE_SYSTEM); (SourceAutoDeploy, TASK_SOURCE_AUTO_DEPLOY)].
Definition protoTaskSource (value : string) : ProtoTaskSource := switch value sources TASK_SOURCE_UNSPECIFIED.

Definition step_names : list (string * ProtoTaskStepName) :=
  [(StepRender, TASK_STEP_NAME_RENDER); (StepPull, TASK_STEP_NAME_PULL);
   (StepBackup, TASK_STEP_NAME_BACKUP); (StepComposeDown, TASK_STEP_NAME_COMPOSE_DOWN);
   (StepComposeUp, TASK_STEP_NAME_COMPOSE_UP); (StepTransfer, TASK_STEP_NAME_TRANSFER);
   (StepRestore, TASK_STEP_NAME_RESTORE); (StepDNSUpdate, TASK_STEP_NAME_DNS_UPDATE);
   (StepCloudflareTunnelSync, TASK_STEP_NAME_CLOUDFLARE_TUNNEL_SYNC);
   (StepCaddySync, TASK_STEP_NAME_CADDY_SYNC); (StepCaddyReload, TASK_STEP_NAME_CADDY_RELOAD);
   (StepImageCheck, TASK_STEP_NAME_IMAGE_CHECK); (StepInit, TASK_STEP_NAME_INIT);
   (StepPrune, TASK_STEP_NAME_PRUNE);
   (StepAwaitingConfirmation, TASK_STEP_NAME_AWAITING_CONFIRMATION);
   (StepPersistRepo, TASK_STEP_NAME_PERSIST_REPO); (StepFinalize, TASK_STEP_NAME_FINALIZE);
   (StepDockerStart, TASK_STEP_NAME_DOCKER_START);
   (StepDockerStop, TASK_STEP_NAME_DOCKER_STOP);
   (StepDockerRestart, TASK_STEP_NAME_DOCKER_RESTART);
   (StepDockerRemove, TASK_STEP_NAME_DOCKER_REMOVE)].
Definition protoTaskStepName (value : string) : ProtoTaskStepName := switch value step_names TASK_STEP_NAME_UNSPECIFIED.

Definition task_statuses_of : list (ProtoTaskStatus * string) :=
  [(TASK_STATUS_PENDING, StatusPending); (TASK_STATUS_RUNNING, StatusRunning);
   (TASK_STATUS_AWAITING_CONFIRMATION, StatusAwaitingConfirmation);
   (TASK_STATUS_SUCCEEDED, StatusSucceeded); (TASK_STATUS_FAILED, StatusFailed);
   (TASK_STATUS_CANCELLED, StatusCancelled)].
Definition taskStatusFromProto (value : ProtoTaskStatus) : option string :=
  switch value (prod_map id Some <$> task_statuses_of) None.

Definition task_types_of : list (ProtoTaskType * string) :=
  [(TASK_TYPE_DEPLOY, TypeDeploy); (TASK_TYPE_STOP, TypeStop);
   (TASK_TYPE_RESTART, TypeRestart); (TASK_TYPE_UPDATE, TypeUpdate);
   (TASK_TYPE_BACKUP, TypeBackup); (TASK_TYPE_RESTORE, TypeRestore);
   (TASK_TYPE_MIGRATE, TypeMigrate); (TASK_TYPE_DNS_UPDATE, TypeDNSUpdate);
   (TASK_TYPE_CLOUDFLARE_TUNNEL_SYNC, TypeCloudflareTunnelSync);
   (TASK_TYPE_CADDY_SYNC, TypeCaddySync); (TASK_TYPE_CADDY_RELOAD, TypeCaddyReload);
   (TASK_TYPE_IMAGE_CHECK, TypeImageCheck); (TASK_TYPE_PRUNE, TypePrune);
   (TASK_TYPE_RUSTIC_INIT, TypeRusticInit); (TASK_TYPE_RUSTIC_FORGET, TypeRusticForget);
   (TASK_TYPE_RUSTIC_PRUNE, TypeRusticPrune); (TASK_TYPE_DOCKER_START, TypeDockerStart);
   (TASK_TYPE_DOCKER_STOP, TypeDockerStop); (TASK_TYPE_DOCKER_RESTART, TypeDockerRestart);
   (TASK_TYPE_DOCKER_REMOVE_CONTAINER, TypeDockerRemoveContainer);
   (TASK_TYPE_DOCKER_REMOVE_NETWORK, TypeDockerRemoveNetwork);
   (TASK_TYPE_DOCKER_REMOVE_VOLUME, TypeDockerRemoveVolume);
   (TASK_TYPE_DOCKER_REMOVE_IMAGE, TypeDockerRemoveImage);
   (TASK_TYPE_MIGRATE_ROLLBACK, TypeMigrateRollback)].
Definition taskTypeFromProto (value : ProtoTaskType) : option string :=
  switch value (prod_map id Some <$> task_types_of) None.

Definition taskStatusesFromProto (values : list ProtoTaskStatus) : list string :=
  omap taskStatusFromProto values.
Definition taskTypesFromProto (values : list ProtoTaskType) : list string :=
  omap taskTypeFromProto values.

Definition confirmationDecisionApprove : string := "approve".
Definition confirmationDecisionReject : string := "reject".
Definition taskConfirmationDecisionFromProto (value : TaskConfirmationDecision) : string :=
  switch value
    [(TASK_CONFIRMATION_DECISION_APPROVE, confirmationDecisionApprove);
     (TASK_CONFIRMATION_DECISION_REJECT, confirmationDecisionReject)] "".

Definition agent_statuses : list (AgentTaskStatus * string) :=
  [(AGENT_TASK_STATUS_PENDING, StatusPending); (AGENT_TASK_STATUS_RUNNING, StatusRunning);
   (AGENT_TASK_STATUS_AWAITING_CONFIRMATION, StatusAwaitingConfirmation);
   (AGENT_TASK_STATUS_SUCCEEDED, StatusSucceeded); (AGENT_TASK_STATUS_FAILED, StatusFailed);
   (AGENT_TASK_STATUS_CANCELLED, StatusCancelled)].
Definition taskStatusFromAgentProto (value : AgentTaskStatus) : option string :=
  switch value (prod_map id Some <$> agent_statuses) None.

Definition agent_step_names : list (AgentTaskStepName * string) :=
  [(AGENT_TASK_STEP_NAME_RENDER, StepRender); (AGENT_TASK_STEP_NAME_PULL, StepPull);
   (AGENT_TASK_STEP_NAME_BACKUP, StepBackup);
   (AGENT_TASK_STEP_NAME_COMPOSE_DOWN, StepComposeDown);
   (AGENT_TASK_STEP_NAME_COMPOSE_UP, StepComposeUp);
   (AGENT_TASK_STEP_NAME_TRANSFER, StepTransfer); (AGENT_TASK_STEP_NAME_RESTORE, StepRestore);
   (AGENT_TASK_STEP_NAME_DNS_UPDATE, StepDNSUpdate);
   (AGENT_TASK_STEP_NAME_CLOUDFLARE_TUNNEL_SYNC, StepCloudflareTunnelSync);
   (AGENT_TASK_STEP_NAME_CADDY_SYNC, StepCaddySync);
   (AGENT_TASK_STEP_NAME_CADDY_RELOAD, StepCaddyReload);
   (AGENT_TASK_STEP_NAME_IMAGE_CHECK, StepImageCheck); (AGENT_TASK_STEP_NAME_INIT, StepInit);
   (AGENT_TASK_STEP_NAME_PRUNE, StepPrune);
   (AGENT_TASK_STEP_NAME_AWAITING_CONFIRMATION, StepAwaitingConfirmation);
   (AGENT_TASK_STEP_NAME_PERSIST_REPO, StepPersistRepo);
   (AGENT_TASK_STEP_NAME_FINALIZE, StepFinalize);
   (AGENT_TASK_STEP_NAME_DOCKER_START, StepDockerStart);
   (AGENT_TASK_STEP_NAME_DOCKER_STOP, StepDockerStop);
   (AGENT_TASK_STEP_NAME_DOCKER_RESTART, StepDockerRestart);
   (AGENT_TASK_STEP_NAME_DOCKER_REMOVE, StepDockerRemove)].
Definition taskStepNameFromAgentProto (value : AgentTaskStepName) : option string :=
  switch value (prod_map id Some <$> agent_step_names) None.

Definition agent_types : list (string * AgentTaskType) :=
  [(TypeDeploy, AGENT_TASK_TYPE_DEPLOY); (TypeStop, AGENT_TASK_TYPE_STOP);
   (TypeRestart, AGENT_TASK_TYPE_RESTART); (TypeUpdate, AGENT_TASK_TYPE_UPDATE);
   (TypeBackup, AGENT_TASK_TYPE_BACKUP); (TypeRestore, AGENT_TASK_TYPE_RESTORE);
   (TypeMigrate, AGENT_TASK_TYPE_MIGRATE); (TypeDNSUpdate, AGENT_TASK_TYPE_DNS_UPDATE);
   (TypeCloudflareTunnelSync, AGENT_TASK_TYPE_CLOUDFLARE_TUNNEL_SYNC);
   (TypeCaddySync, AGENT_TASK_TYPE_CADDY_SYNC);
   (TypeCaddyReload, AGENT_TASK_TYPE_CADDY_RELOAD);
   (TypeImageCheck, AGENT_TASK_TYPE_IMAGE_CHECK); (TypePrune, AGENT_TASK_TYPE_PRUNE);
   (TypeRusticInit, AGENT_TASK_TYPE_RUSTIC_INIT);
   (TypeRusticForget, AGENT_TASK_TYPE_RUSTIC_FORGET);
   (TypeRusticPrune, AGENT_TASK_TYPE_RUSTIC_PRUNE);
   (TypeDockerStart, AGENT_TASK_TYPE_DOCKER_START);
   (TypeDockerStop, AGENT_TASK_TYPE_DOCKER_STOP);
   (TypeDockerRestart, AGENT_TASK_TYPE_DOCKER_RESTART);
   (TypeDockerRemoveContainer, AGENT_TASK_TYPE_DOCKER_REMOVE_CONTAINER);
   (TypeDockerRemoveNetwork, AGENT_TASK_TYPE_DOCKER_REMOVE_NETWORK);
   (TypeDockerRemoveVolume, AGENT_TASK_TYPE_DOCKER_REMOVE_VOLUME);
   (TypeDockerRemoveImage, AGENT_TASK_TYPE_DOCKER_REMOVE_IMAGE)].
Definition protoAgentTaskType (value : string) : AgentTaskType :=
  switch value agent_types AGENT_TASK_TYPE_UNSPECIFIED.
End ControllerProto.

(** ** Round trips

    Every step name, status, type and source the task package defines
    survives the wire: what the agent encodes is what the controller decodes,
    and what the controller shows its clients is what it reads back. *)
Definition step_names : list string :=
  [StepRender; StepPull; StepBackup; StepComposeDown; StepComposeUp; StepTransfer; StepRestore;
   StepDNSUpdate; StepCloudflareTunnelSync; StepCaddySync; StepCaddyReload; StepImageCheck;
   StepInit; StepPrune; StepAwaitingConfirmation; StepPersistRepo; StepFinalize;
   StepDockerStart; StepDockerStop; StepDockerRestart; StepDockerRemove].

(** The wire enumerations lose nothing: a step name, a status or a type
    of the task package decodes to itself after encoding, on the channel of
    the agents and on the one of the clients; conversely every enumeration
    value but UNSPECIFIED decodes to a name that encodes back to it, and
    UNSPECIFIED is refused.  [migrate_rollback], which no agent runs, is the
    one type without a value on the channel of the agents, and the controller
    and the agent encode the types alike. *)
Theorem wire_roundtrip :
  Forall (λ s, ControllerProto.taskStepNameFromAgentProto (AgentProto.protoAgentTaskStepName s) = Some s ∧
               AgentProto.agentTaskStepNameToTask (AgentProto.protoAgentTaskStepName s) = s ∧
               ControllerProto.protoTaskStepName s ≠ TASK_STEP_NAME_UNSPECIFIED) step_names ∧
  Forall (λ s, ControllerProto.taskStatusFromAgentProto (AgentProto.protoAgentTaskStatus s) = Some s ∧
               AgentProto.agentTaskStatusText (AgentProto.protoAgentTaskStatus s) = s ∧
               ControllerProto.taskStatusFromProto (ControllerProto.protoTaskStatus s) = Some s)
    task_statuses ∧
  Forall (λ t, ControllerProto.taskTypeFromProto (ControllerProto.protoTaskType t) = Some t ∧
               AgentProto.protoAgentTaskType t = ControllerProto.protoAgentTaskType t ∧
               (AgentProto.protoAgentTaskType t = AGENT_TASK_TYPE_UNSPECIFIED ↔
                t = TypeMigrateRollback)) task_types ∧
  (∀ v, match ControllerProto.taskStepNameFromAgentProto v with
        | Some s => s ∈ step_names ∧ AgentProto.protoAgentTaskStepName s = v
        | None => v = AGENT_TASK_STEP_NAME_UNSPECIFIED
        end) ∧
  (∀ v, match ControllerProto.taskStatusFromAgentProto v with
        | Some s => s ∈ task_statuses ∧ AgentProto.protoAgentTaskStatus s = v
        | None => v = AGENT_TASK_STATUS_UNSPECIFIED
        end) ∧
  (∀ v, match ControllerProto.taskTypeFromProto v with
        | Some t => t ∈ task_types ∧ ControllerProto.protoTaskType t = v
        | None => v = TASK_TYPE_UNSPECIFIED
        end).
Proof.
  split_and!.
  - apply (bool_decide_unpack _). by vm_compute.
  - apply (bool_decide_unpack _). by vm_compute.
  - apply (bool_decide_unpack _). by vm_compute.
  - by intros []; first [reflexivity | split; [in_closed|]].
  - by intros []; first [reflexivity | split; [in_closed|]].
  - by intros []; first [reflexivity | split; [in_closed|]].
Qed.
