(* ===== verification/TaskParams.v ===== *)
(** * Task parameters: src/internal/app/controller/task_params.go

    The parameters of a task travel as JSON text in the column
    [params_json].  The encoder of encoding/json is the class [ParamsJSON]:
    decoding an encoded value gives it back (an absent or empty list or map
    and a nil one are the same value), and no encoding is the empty text. *)
From S2P Require Export Prelude.

Record restoreTaskItem := MkRestoreTaskItem {
  ri_DataName : string;
  ri_ArtifactRef : string;
  ri_SourceTaskID : string;
}.

Record serviceTaskParams := MkServiceTaskParams {
  tp_ServiceDir : string;
  tp_ServiceDirs : list string;
  tp_ExcludedServiceDir : string;
  tp_DataNames : list string;
  tp_ImageNames : list string;
  tp_ImageCheckBatchID : string;
  tp_SemverAllow : list string;
  tp_ForgeCandidates : gmap string (list string);
  tp_ForgeCandidateSources : gmap string (gmap string (list string));
  tp_FullRebuild : bool;
  tp_SourceNodeID : string;
  tp_TargetNodeID : string;
  tp_RestoreItems : list restoreTaskItem;
  tp_ComposeRecreateMode : string;
  tp_OriginalMigrateTaskID : string;
  tp_RollbackDNS : bool;
  tp_DeploySource : bool;
  tp_StopTarget : bool;
  tp_CleanupTarget : bool;
}.

(** [serviceTaskParams{}] *)
Definition zero_params : serviceTaskParams :=
  MkServiceTaskParams "" [] "" [] [] "" [] ∅ ∅ false "" "" [] "" "" false false false false.
#[export] Instance serviceTaskParams_inhabited : Inhabited serviceTaskParams := populate zero_params.

(** [serviceTaskParams{ServiceDir: dir}] and the other literals the
    controller writes start from the zero value. *)
Definition params_of_dir (dir : string) : serviceTaskParams :=
  MkServiceTaskParams dir [] "" [] [] "" [] ∅ ∅ false "" "" [] "" "" false false false false.

Record rusticMaintenanceTaskParams := MkRusticMaintenanceTaskParams {
  rp_ServiceDir : string;
  rp_ServiceName : string;
  rp_DataName : string;
  rp_RepoWide : bool;
}.

Class ParamsJSON := {
  marshal_params : serviceTaskParams → string;
  unmarshal_params : string → option serviceTaskParams;
  marshal_rustic : rusticMaintenanceTaskParams → string;
  unmarshal_marshal_params : ∀ p, unmarshal_params (marshal_params p) = Some p;
  marshal_params_not_empty : ∀ p, marshal_params p ≠ "";
}.

Section params.
Context `{ParamsJSON}.

Definition taskParams (paramsJSON : string) : result string serviceTaskParams :=
  if decide (paramsJSON = "") then Ok zero_params
  else match unmarshal_params paramsJSON with
       | Some params => Ok params
       | None => Err "decode task params"
       end.

Lemma taskParams_marshal p : taskParams (marshal_params p) = Ok p.
Proof.
  unfold taskParams. rewrite decide_False by apply marshal_params_not_empty.
  by rewrite unmarshal_marshal_params.
Qed.
End params.
#[export] Hint Rewrite @taskParams_marshal : composia.

Definition derefTime (value : option Time.time) : Time.time :=
  match value with
  | None => Time.zero
  | Some t => t
  end.

Definition minDuration (left_ right_ : Z) : Z := if decide (left_ < right_)%Z then left_ else right_.
