(* ===== verification/AgentApi.v ===== *)
(** * The API of the agents: src/internal/app/controller/agent_task.go,
    agent_auth.go and agent_report.go

    Every handler gets the subject the bearer interceptor authenticated (the
    node) and its request, and runs on the controller: the database, the log
    sequence cache of log_stream.go and the task log files.  [time.Now()] and
    [uuid.NewString()] are arguments; notifications, wake-ups of waiting
    goroutines and log lines of the process are not modelled. *)
From S2P Require Export Rpc Proto TaskParams StoreServices StoreTasks.

Definition taskExecutionLease : Z := (60 * Time.Second)%Z.
Definition pullNextTaskMaxWait : Z := (25 * Time.Second)%Z.
Definition pullNextTaskRetryWait : Z := (500000000)%Z.

(** ** agent_auth.go *)
Definition ensureTaskNodeMatch (ctx : Context_) (taskID : string) (db : DB)
    : result ConnectError () :=
  match BearerSubject ctx with
  | None => Err (NewError CodeUnauthenticated "missing authenticated node")
  | Some authenticatedNodeID =>
      result_bind (or_not_found (TaskNodeID taskID db)) (λ taskNodeID,
      if decide (taskNodeID ≠ authenticatedNodeID)
      then Err (NewError CodePermissionDenied "task does not belong to authenticated node")
      else Ok ())
  end.

(** ** agent_task.go *)
Record AgentTask := MkAgentTask {
  at_TaskId : string;
  at_Type : AgentTaskType;
  at_ServiceName : string;
  at_NodeId : string;
  at_RepoRevision : string;
  at_ServiceDir : string;
  at_DataNames : list string;
  at_ParamsJson : string;
  at_ExecutionId : string;
  at_LeaseExpiresAt : option Time.time;
}.

Section handlers.
Context `{SQLite} `{ParamsJSON}.

Definition pull_response (record : TaskRecord) : result ConnectError AgentTask :=
  match taskParams (rec_ParamsJSON record) with
  | Err e => Err (NewError CodeInternal e)
  | Ok params =>
      Ok (MkAgentTask (rec_TaskID record) (ControllerProto.protoAgentTaskType (rec_Type record))
            (rec_ServiceName record) (rec_NodeID record) (rec_RepoRevision record)
            (tp_ServiceDir params) (tp_DataNames params) (rec_ParamsJSON record)
            (rec_ExecutionID record) (rec_LeaseExpiresAt record))
  end.

(** One turn of the polling loop sees the clock, the execution id it would
    draw and the time left; between two turns the rest of the controller
    changes the database. *)
Record PullTurn := MkPullTurn {
  pt_now : Time.time;
  pt_uuid : string;
  pt_remaining : Z;
  pt_meanwhile : DB → DB;
}.

(** The loop; a caller that goes away cancels it.  A claim stands even when
    its answer is an error. *)
Fixpoint pull_loop (nodeID : string) (turns : list PullTurn) (db : DB)
    : DB * result ConnectError (option AgentTask) :=
  match turns with
  | [] => (db, Err (NewError CodeAborted "context cancelled"))
  | turn :: turns =>
      match ClaimNextPendingTaskForNode nodeID (pt_now turn) (pt_now turn + taskExecutionLease)%Z
              (pt_uuid turn) db with
      | Ok (db, record) => (db, result_bind (pull_response record) (λ t, Ok (Some t)))
      | Err ErrNoPendingTask =>
          if decide (pt_remaining turn ≤ 0)%Z then (db, Ok None)
          else pull_loop nodeID turns (pt_meanwhile turn db)
      | Err e => (db, Err (StoreFailed CodeInternal e))
      end
  end.

Definition PullNextTask (ctx : Context_) (nodeID : string) (executionProtocol : Z)
    (turns : list PullTurn) (db : DB) : DB * result ConnectError (option AgentTask) :=
  if decide (nodeID = "") then (db, Err (NewError CodeInvalidArgument "node_id is required"))
  else if decide (executionProtocol ≠ 1%Z)
  then (db, Err (NewError CodeFailedPrecondition "agent must support task execution protocol 1"))
  else if decide (BearerSubject ctx ≠ Some nodeID)
  then (db, Err (NewError CodeUnauthenticated "node_id does not match bearer token"))
  else pull_loop nodeID turns db.

Definition validateTaskExecutionRequest (ctx : Context_) (taskID executionID : string)
    : result ConnectError string :=
  if decide (taskID = "" ∨ executionID = "")
  then Err (NewError CodeInvalidArgument "task_id and execution_id are required")
  else match BearerSubject ctx with
       | None => Err (NewError CodeUnauthenticated "missing bearer subject")
       | Some nodeID =>
           if decide (nodeID = "") then Err (NewError CodeUnauthenticated "missing bearer subject")
           else Ok nodeID
       end.

(** The checks [AcknowledgeTask] and [RenewTaskLease] share. *)
Definition owned_task (ctx : Context_) (taskID executionID : string) (db : DB)
    : result ConnectError () :=
  result_bind (validateTaskExecutionRequest ctx taskID executionID) (λ nodeID,
  result_bind (or_code CodeNotFound (GetTask taskID db)) (λ detail,
  if decide (rec_NodeID (td_Record detail) ≠ nodeID)
  then Err (NewError CodePermissionDenied "task does not belong to authenticated node")
  else Ok ())).

Definition AcknowledgeTask (ctx : Context_) (taskID executionID : string) (now : Time.time) (db : DB)
    : result ConnectError (DB * Time.time) :=
  let expiresAt := (now + taskExecutionLease)%Z in
  result_bind (owned_task ctx taskID executionID db) (λ _,
  result_bind (or_code CodeFailedPrecondition
    (AcknowledgeTaskExecution taskID executionID now expiresAt db)) (λ db,
  Ok (db, expiresAt))).

Definition RenewTaskLease (ctx : Context_) (taskID executionID : string) (now : Time.time) (db : DB)
    : result ConnectError (DB * Time.time) :=
  let expiresAt := (now + taskExecutionLease)%Z in
  result_bind (owned_task ctx taskID executionID db) (λ _,
  result_bind (or_code CodeFailedPrecondition
    (RenewTaskExecution taskID executionID now expiresAt db)) (λ db,
  Ok (db, expiresAt))).

(** ** agent_report.go *)
Definition ensureCurrentTaskExecution (ctx : Context_) (taskID executionID : string) (db : DB)
    : result ConnectError () :=
  match BearerSubject ctx with
  | None => Err (NewError CodeUnauthenticated "missing bearer subject")
  | Some nodeID =>
      if decide (nodeID = "") then Err (NewError CodeUnauthenticated "missing bearer subject")
      else result_bind
             (or_code CodeFailedPrecondition (ValidateTaskExecution taskID executionID nodeID db))
             (λ _, Ok ())
  end.

(** The runtime of the request is [None] when absent. *)
Record HeartbeatRequest := MkHeartbeatRequest {
  hr_NodeId : string;
  hr_AgentVersion : string;
  hr_Runtime : option (string * Z * Z);
}.

(** [snd]: a node that was known, offline and had sent a heartbeat before is
    announced online. *)
Definition Heartbeat (ctx : Context_) (req : HeartbeatRequest) (heartbeatAt : Time.time) (db : DB)
    : result ConnectError (DB * bool) :=
  if decide (hr_NodeId req = "") then Err (NewError CodeInvalidArgument "node_id is required")
  else match hr_Runtime req with
  | None => Err (NewError CodeInvalidArgument "runtime is required")
  | Some (version, total, free) =>
      if decide (BearerSubject ctx ≠ Some (hr_NodeId req))
      then Err (NewError CodeUnauthenticated "node_id does not match bearer token")
      else
        let announced :=
          match GetNodeSnapshot (hr_NodeId req) db with
          | Ok previous => negb (nd_is_online previous) && isSome (nd_last_heartbeat previous)
          | Err _ => false
          end in
        Ok (RecordHeartbeat (MkNodeHeartbeat (hr_NodeId req) heartbeatAt (hr_AgentVersion req)
                               version total free) db, announced)
  end.

Definition ReportTaskStepState (ctx : Context_) (taskID executionID : string)
    (step : AgentTaskStepName) (status : AgentTaskStatus) (startedAt finishedAt : option Time.time)
    (db : DB) : result ConnectError DB :=
  if decide (taskID = "") then Err (NewError CodeInvalidArgument "task_id is required")
  else match ControllerProto.taskStepNameFromAgentProto step with
  | None => Err (NewError CodeInvalidArgument "step_name is required")
  | Some stepName =>
  match ControllerProto.taskStatusFromAgentProto status with
  | None => Err (NewError CodeInvalidArgument "status is required")
  | Some status =>
      result_bind (ensureTaskNodeMatch ctx taskID db) (λ _,
      result_bind (ensureCurrentTaskExecution ctx taskID executionID db) (λ _,
      or_code CodeInternal
        (UpsertTaskStep (MkStepRecord taskID stepName status startedAt finishedAt) db)))
  end end.

Definition ReportServiceInstanceStatus (ctx : Context_)
    (serviceName nodeID runtimeStatus taskID executionID : string) (reportedAt : Time.time) (db : DB)
    : result ConnectError DB :=
  if decide (serviceName = "") then Err (NewError CodeInvalidArgument "service_name is required")
  else if decide (nodeID = "") then Err (NewError CodeInvalidArgument "node_id is required")
  else if negb (IsValidServiceRuntimeStatus runtimeStatus)
  then Err (NewError CodeInvalidArgument "invalid runtime_status")
  else if decide (BearerSubject ctx ≠ Some nodeID)
  then Err (NewError CodeUnauthenticated "node_id does not match bearer token")
  else if decide (taskID = "" ∨ executionID = "")
  then Err (NewError CodeInvalidArgument "task_id and execution_id are required")
  else
    result_bind (ensureCurrentTaskExecution ctx taskID executionID db) (λ _,
    result_bind (or_code CodeInternal (GetTask taskID db)) (λ detail,
    if decide (rec_ServiceName (td_Record detail) ≠ serviceName)
    then Err (NewError CodeInvalidArgument "service_name does not match task")
    else match UpdateServiceInstanceRuntimeStatus serviceName nodeID runtimeStatus reportedAt db with
         | Ok db => Ok db
         | Err ErrServiceNotFound => Err (StoreFailed CodeNotFound ErrServiceNotFound)
         | Err e => Err (StoreFailed CodeInternal e)
         end)).

(** ** The server: the database, the sequence numbers cached by log_stream.go
    per task, and the task log files, each the texts appended to it *)
Record AgentServer := MkAgentServer {
  as_db : DB;
  as_confirmedBy : gmap string Z;
  as_files : gmap string (list string);
}.
Definition as_set_db db s := MkAgentServer db (as_confirmedBy s) (as_files s).
Definition as_set_confirmed m s := MkAgentServer (as_db s) m (as_files s).

Definition resetTaskLogAck (taskID : string) (s : AgentServer) : AgentServer :=
  as_set_confirmed (delete taskID (as_confirmedBy s)) s.

(** [queuePostTaskFollowups] is an argument; its effects stand when it fails.
    The answer to the agent comes with the state in every case: a completion
    is not undone by a later error. *)
Definition ReportTaskState (queuePostTaskFollowups : TaskRecord → DB → DB * result string ())
    (ctx : Context_) (taskID executionID : string) (status : AgentTaskStatus) (errorSummary : string)
    (finishedAt : Time.time) (uuid : string) (s : AgentServer)
    : AgentServer * result ConnectError () :=
  if decide (taskID = "") then (s, Err (NewError CodeInvalidArgument "task_id is required"))
  else match ControllerProto.taskStatusFromAgentProto status with
  | None => (s, Err (NewError CodeInvalidArgument "status must be a terminal task status"))
  | Some status =>
  if decide (status ≠ StatusSucceeded ∧ status ≠ StatusFailed ∧ status ≠ StatusCancelled)
  then (s, Err (NewError CodeInvalidArgument "status must be a terminal task status"))
  else match ensureTaskNodeMatch ctx taskID (as_db s) with
  | Err e => (s, Err e)
  | Ok _ =>
  match CompleteTaskExecution uuid taskID executionID status finishedAt errorSummary (as_db s) with
  | Err e =>
      let code := if decide (e = ErrTaskExecutionMismatch ∨ e = ErrTaskExecutionConflict)
                  then CodeFailedPrecondition else CodeInternal in
      (s, Err (StoreFailed code e))
  | Ok db =>
      let '(db, answer) :=
        if decide (executionID = "") then
          match GetTask taskID db with
          | Err e => (db, Err (StoreFailed CodeInternal e))
          | Ok detail =>
              let '(db, queued) := queuePostTaskFollowups (td_Record detail) db in
              (db, match queued with
                   | Ok _ => Ok ()
                   | Err e => Err (NewError CodeInternal e)
                   end)
          end
        else (db, Ok ()) in
      match answer with
      | Ok _ => (resetTaskLogAck taskID (as_set_db db s), Ok ())
      | Err e => (as_set_db db s, Err e)
      end
  end end end.
End handlers.
