(* ===== verification/LogStream.v ===== *)
(** * Task logs: src/internal/app/agent/log_stream.go and
    src/internal/app/controller/log_stream.go

    The agent numbers the lines of a task and keeps them until the controller
    confirms them; the controller appends a line when its number is the next
    one and answers with the last number it has.  Streams break, answers get
    lost, a message of a broken stream may reach the controller late, the
    controller restarts: [log_step] is that system.  Retry delays and the
    time a line was sent at are not modelled; a [uint64] is an integer modulo
    2^64. *)
From S2P Require Export AgentApi StoreProtocol.

Definition u64 (z : Z) : Z := z `mod` 2 ^ 64.

(** ** agent/log_stream.go *)
Record UploadRequest := MkUploadRequest {
  ur_TaskId : string;
  ur_ExecutionId : string;
  ur_Seq : Z;
  ur_Content : string;
}.

(** [up_open]: the uploader holds a stream. *)
Record Uploader := MkUploader {
  up_taskID : string;
  up_executionID : string;
  up_nextSeq : Z;
  up_lastConfirmedSeq : Z;
  up_pending : list UploadRequest;
  up_open : bool;
}.

Definition newTaskLogUploader (taskID executionID : string) : Uploader :=
  MkUploader taskID executionID 1 0 [] false.

Definition up_set (next confirmed : Z) (pending : list UploadRequest) (u : Uploader) : Uploader :=
  MkUploader (up_taskID u) (up_executionID u) next confirmed pending (up_open u).
Definition up_set_open (o : bool) (u : Uploader) : Uploader :=
  MkUploader (up_taskID u) (up_executionID u) (up_nextSeq u) (up_lastConfirmedSeq u)
    (up_pending u) o.

(** [Close]: the stream is gone; its errors are not looked at. *)
Definition uploader_close : Uploader → Uploader := up_set_open false.

(** The first half of [Upload]: queue the line under the next number. *)
Definition upload_push (content : string) (u : Uploader) : Uploader :=
  up_set (u64 (up_nextSeq u + 1)) (up_lastConfirmedSeq u)
    (up_pending u ++ [MkUploadRequest (up_taskID u) (up_executionID u) (up_nextSeq u) content]) u.

Definition dropConfirmed (u : Uploader) : Uploader :=
  up_set (up_nextSeq u) (up_lastConfirmedSeq u)
    (filter (λ entry, (up_lastConfirmedSeq u < ur_Seq entry)%Z) (up_pending u)) u.

(** [entry.Seq = lastConfirmedSeq + index + 1] *)
Definition renumber (confirmed : Z) (pending : list UploadRequest) : list UploadRequest :=
  imap (λ index entry, MkUploadRequest (ur_TaskId entry) (ur_ExecutionId entry)
                         (u64 (confirmed + Z.of_nat index + 1)) (ur_Content entry)) pending.

Definition applyAck (current : UploadRequest) (ackTaskId : string) (ackSeq : Z) (u : Uploader)
    : result string (Uploader * bool) :=
  if decide (ackTaskId ≠ "" ∧ ackTaskId ≠ up_taskID u) then Err "unexpected log ack task_id"
  else if decide (ackSeq < up_lastConfirmedSeq u)%Z then
    Ok (up_set (u64 (ackSeq + Z.of_nat (length (up_pending u)) + 1)) ackSeq
          (renumber ackSeq (up_pending u)) u, false)
  else
    let u := dropConfirmed (up_set (up_nextSeq u) ackSeq (up_pending u) u) in
    Ok (u, bool_decide (ur_Seq current ≤ up_lastConfirmedSeq u)%Z).

(** What the network does to one exchange; a reconnection fails when the
    deadline of the upload passes first. *)
Inductive Exchange : Type :=
| SendFailed (reconnected : bool)
| ReceiveFailed (reconnected : bool)
| Received (ackTaskId : string) (ackSeq : Z).

Definition sendPendingLog (x : Exchange) (current : UploadRequest) (u : Uploader)
    : Uploader * result string bool :=
  let u := up_set_open true u in
  match x with
  | SendFailed reconnected | ReceiveFailed reconnected =>
      if reconnected then (up_set_open true (uploader_close u), Ok false)
      else (uploader_close u, Err "context deadline exceeded")
  | Received ackTaskId ackSeq =>
      match applyAck current ackTaskId ackSeq u with
      | Ok (u, confirmed) => (u, Ok confirmed)
      | Err e => (u, Err e)
      end
  end.

(** [None]: the exchanges seen so far leave the loop running. *)
Fixpoint flush (xs : list Exchange) (u : Uploader) : Uploader * option (result string ()) :=
  match up_pending u with
  | [] => (u, Some (Ok ()))
  | current :: _ =>
      match xs with
      | [] => (u, None)
      | x :: xs =>
          match sendPendingLog x current u with
          | (u, Ok _) => flush xs u
          | (u, Err e) => (u, Some (Err e))
          end
      end
  end.

Definition abandonPending (u : Uploader) : Uploader :=
  let u := uploader_close u in
  up_set (u64 (up_lastConfirmedSeq u + 1)) (up_lastConfirmedSeq u) [] u.

Definition Upload (content : string) (xs : list Exchange) (u : Uploader)
    : Uploader * option (result string ()) :=
  if decide (content = "") then (u, Some (Ok ()))
  else match flush xs (upload_push content u) with
       | (u, Some (Err e)) => (abandonPending u, Some (Err e))
       | r => r
       end.

(** ** controller/log_stream.go and tasklog.go *)
Record UploadSession := MkUploadSession {
  us_taskID : string;
  us_executionID : string;
  us_logPath : string;
}.
Definition new_session : UploadSession := MkUploadSession "" "" "".

(** What writing to the file does: everything, or a failure after a part. *)
Inductive AppendIO : Type :=
| Written
| WriteFailed (part : string).

Definition append_chunk (path content : string) (files : gmap string (list string))
    : gmap string (list string) :=
  <[path := default [] (files !! path) ++ [content]]> files.

Definition appendTaskLogRaw (io : AppendIO) (logPath content : string)
    (files : gmap string (list string)) : gmap string (list string) * result string () :=
  if decide (logPath = "" ∨ content = "") then (files, Ok ())
  else match io with
       | Written => (append_chunk logPath content files, Ok ())
       | WriteFailed part =>
           (if decide (part = "") then files else append_chunk logPath part files,
            Err "write task log")
       end.

Section server.
Context `{SQLite} `{ParamsJSON}.

Definition bindTaskLogUploadSession (ctx : Context_) (session : UploadSession)
    (taskID executionID : string) (db : DB) : result ConnectError UploadSession :=
  if decide (us_taskID session = "") then
    result_bind (ensureTaskNodeMatch ctx taskID db) (λ _,
    result_bind (or_not_found (GetTask taskID db)) (λ detail,
    result_bind (ensureCurrentTaskExecution ctx taskID executionID db) (λ _,
    Ok (MkUploadSession taskID executionID (rec_LogPath (td_Record detail))))))
  else if decide (taskID ≠ us_taskID session ∨ executionID ≠ us_executionID session)
  then Err (NewError CodeInvalidArgument "all log events in one stream must use the same task_id and execution_id")
  else Ok session.

(** [recorded]: the UPDATE of the sequence number reaches the database. *)
Definition applyTaskLogUpload (io : AppendIO) (recorded : bool) (session : UploadSession)
    (message : UploadRequest) (s : AgentServer) : AgentServer * result ConnectError Z :=
  let loaded :=
    match as_confirmedBy s !! us_taskID session with
    | Some confirmedSeq => Ok (s, confirmedSeq)
    | None =>
        result_bind (or_code CodeInternal (TaskLogConfirmedSeq (us_taskID session) (as_db s)))
          (λ seq, Ok (as_set_confirmed (<[us_taskID session := seq]> (as_confirmedBy s)) s, seq))
    end in
  match loaded with
  | Err e => (s, Err e)
  | Ok (s, confirmedSeq) =>
      if decide (ur_Seq message ≤ confirmedSeq)%Z then (s, Ok confirmedSeq)
      else if decide (ur_Seq message ≠ u64 (confirmedSeq + 1)) then (s, Ok confirmedSeq)
      else
        let '(files, written) :=
          appendTaskLogRaw io (us_logPath session) (ur_Content message) (as_files s) in
        let s := MkAgentServer (as_db s) (as_confirmedBy s) files in
        match written with
        | Err e => (s, Err (NewError CodeInternal e))
        | Ok _ =>
            let set :=
              if recorded then SetTaskLogConfirmedSeq (us_taskID session) (ur_Seq message) (as_db s)
              else Err (ErrorText "set task log confirmed seq") in
            match set with
            | Err e => (s, Err (StoreFailed CodeInternal e))
            | Ok db =>
                (MkAgentServer db (<[us_taskID session := ur_Seq message]> (as_confirmedBy s))
                   (as_files s), Ok (ur_Seq message))
            end
        end
  end.

(** One turn of the loop of [UploadTaskLogs]. *)
Definition UploadTaskLogs_message (ctx : Context_) (io : AppendIO) (recorded : bool)
    (message : UploadRequest) (session : UploadSession) (s : AgentServer)
    : AgentServer * result ConnectError (UploadSession * Z) :=
  if decide (ur_TaskId message = "") then (s, Err (NewError CodeInvalidArgument "task_id is required"))
  else if decide (ur_Seq message = 0%Z)
  then (s, Err (NewError CodeInvalidArgument "seq must be greater than 0"))
  else match bindTaskLogUploadSession ctx session (ur_TaskId message) (ur_ExecutionId message)
               (as_db s) with
       | Err e => (s, Err e)
       | Ok session =>
           let '(s, confirmed) := applyTaskLogUpload io recorded session message s in
           (s, result_bind confirmed (λ seq, Ok (session, seq)))
       end.

(** The stream: messages are answered one by one until the first error. *)
Fixpoint UploadTaskLogs (ctx : Context_) (messages : list (UploadRequest * (AppendIO * bool)))
    (session : UploadSession) (s : AgentServer) : AgentServer * (list Z * option ConnectError) :=
  match messages with
  | [] => (s, ([], None))
  | (message, (io, recorded)) :: messages =>
      match UploadTaskLogs_message ctx io recorded message session s with
      | (s, Err e) => (s, ([], Some e))
      | (s, Ok (session, seq)) =>
          let '(s, (acks, e)) := UploadTaskLogs ctx messages session s in (s, (seq :: acks, e))
      end
  end.
End server.
