(* ===== verification/LogTheorems.v ===== *)
(** * Delivery of the task logs

    The system of an agent, the controller and the network between them, its
    invariant, and the delivery theorems. *)

(** ** Delivery of the task logs

    The agent and the controller of LogStream.v with the network between
    them, as a transition system: [faults] lets a write to the log file stop
    in the middle and the update of the sequence number fail.  A message the
    agent sent stays available to the controller after its stream broke, so a
    late message may be handled at any time and any number of times.  The
    deadline of an upload may pass at any exchange, answered or not: the agent
    then gives its pending lines up and numbers the next ones again. *)
From S2P Require Export LogStream StoreSafety.

(** [ls_uploaded]: the lines given to [Upload]; [ls_kept]: those of them that
    were not given up. *)
Record LogSystem := MkLogSystem {
  ls_up : Uploader;
  ls_server : AgentServer;
  ls_current : option UploadRequest;
  ls_answer : option Z;
  ls_late : list UploadRequest;
  ls_uploaded : list string;
  ls_kept : list string;
}.

Section system.
Context `{SQLite} `{ParamsJSON}.
Context (ctx : Context_) (taskID executionID : string) (faults : bool).

Definition clean (io : AppendIO) (recorded : bool) : Prop :=
  faults = true ∨ (io = Written ∨ io = WriteFailed "") ∧ recorded = true.

(** Sessions of this task: a new stream, or one the controller bound. *)
Definition session_of (path : string) (session : UploadSession) : Prop :=
  session = new_session ∨ session = MkUploadSession taskID executionID path.

Definition handled (io : AppendIO) (recorded : bool) (path : string) (m : UploadRequest)
    (s s' : AgentServer) (answer : option Z) : Prop :=
  ∃ session r, session_of path session ∧ clean io recorded ∧
    UploadTaskLogs_message ctx io recorded m session s = (s', r) ∧
    answer = match r with Ok (_, seq) => Some seq | Err _ => None end.

(** The exchange the network gives the agent: an answer it got, or an error. *)
Definition exchange_ok (x : Exchange) (answer : option Z) : Prop :=
  match x with
  | Received id seq => id = taskID ∧ answer = Some seq
  | SendFailed _ | ReceiveFailed _ => True
  end.

(** [log_exchange] and [log_abandon] are the two ways on from an exchange of
    [flush]: the loop goes on, or [Upload] returns its error. *)
Inductive log_step (path : string) : LogSystem → LogSystem → Prop :=
| log_upload up s cur ans late lines kept content :
    content ≠ "" → (Z.of_nat (length lines) + 2 < 2 ^ 64)%Z →
    log_step path (MkLogSystem up s cur ans late lines kept)
      (MkLogSystem (upload_push content up) s cur ans late (lines ++ [content]) (kept ++ [content]))
| log_send up s late lines kept m rest :
    up_pending up = m :: rest →
    log_step path (MkLogSystem up s None None late lines kept)
      (MkLogSystem (up_set_open true up) s (Some m) None late lines kept)
| log_handle up s late lines kept m io recorded s' answer :
    handled io recorded path m s s' answer →
    log_step path (MkLogSystem up s (Some m) None late lines kept)
      (MkLogSystem up s' (Some m) answer late lines kept)
| log_handle_late up s cur ans late lines kept m io recorded s' answer :
    m ∈ late → handled io recorded path m s s' answer →
    log_step path (MkLogSystem up s cur ans late lines kept)
      (MkLogSystem up s' cur ans late lines kept)
| log_exchange up s ans late lines kept m x up' r :
    exchange_ok x ans → sendPendingLog x m up = (up', Ok r) →
    log_step path (MkLogSystem up s (Some m) ans late lines kept)
      (MkLogSystem up' s None None (m :: late) lines kept)
| log_abandon up s ans late lines kept m x up' e :
    exchange_ok x ans → sendPendingLog x m up = (up', Err e) →
    log_step path (MkLogSystem up s (Some m) ans late lines kept)
      (MkLogSystem (abandonPending up') s None None (m :: late) lines
         (take (length kept - length (up_pending up')) kept))
| log_restart up s cur ans late lines kept :
    log_step path (MkLogSystem up s cur ans late lines kept)
      (MkLogSystem up (resetTaskLogAck taskID s) cur ans late lines kept)
| log_store up s cur ans late lines kept db :
    db_call (as_db s) db → TaskLogConfirmedSeq taskID db = TaskLogConfirmedSeq taskID (as_db s) →
    log_step path (MkLogSystem up s cur ans late lines kept)
      (MkLogSystem up (as_set_db db s) cur ans late lines kept).

(** A task whose log is empty and that no one uploaded to, and the uploader
    the agent starts with. *)
Record log_start (path : string) (st : LogSystem) : Prop := {
  lst_path : path ≠ "";
  lst_id : taskID ≠ "";
  lst_up : ls_up st = newTaskLogUploader taskID executionID;
  lst_row : ∃ r, tasks (as_db (ls_server st)) !! taskID = Some r ∧
    tc_log_path (tk_core r) = Some path ∧ tk_log_confirmed_seq r = 0%Z;
  lst_cache : as_confirmedBy (ls_server st) !! taskID = None;
  lst_file : default [] (as_files (ls_server st) !! path) = [];
  lst_rest : ls_current st = None ∧ ls_answer st = None ∧ ls_late st = [] ∧
    ls_uploaded st = [] ∧ ls_kept st = [];
}.

Definition log_of (path : string) (st : LogSystem) : list string :=
  default [] (as_files (ls_server st) !! path).

(** ** The invariant *)
Definition numbered (from : nat) (lines : list string) : list UploadRequest :=
  imap (λ i c, MkUploadRequest taskID executionID (Z.of_nat (from + i) + 1) c) lines.

(** A message sent while [j] lines were confirmed: some uploaded line, later
    than the first [j] lines of the log. *)
Definition message_of (lines acc : list string) (k given_ : nat) (m : UploadRequest) : Prop :=
  ∃ i j, ur_TaskId m = taskID ∧ ur_Seq m = (Z.of_nat j + 1)%Z ∧ ur_Content m ≠ "" ∧
    lines !! i = Some (ur_Content m) ∧ (j ≤ k)%nat ∧ (i ≤ j + given_)%nat ∧
    take j acc `sublist_of` take i lines.

(** The controller: [c] lines confirmed. *)
Record server_inv (path : string) (lines : list string) (c : nat) (s : AgentServer) : Prop := {
  si_row : ∃ r, tasks (as_db s) !! taskID = Some r ∧ tc_log_path (tk_core r) = Some path ∧
    tk_log_confirmed_seq r = Z.of_nat c;
  si_cache : ∀ z, as_confirmedBy s !! taskID = Some z → z = Z.of_nat c;
  si_file : if faults then take c lines `sublist_of` default [] (as_files s !! path)
            else default [] (as_files s !! path) = take c lines;
}.

(** The agent: [k] lines confirmed to it. *)
Record uploader_inv (lines : list string) (k : nat) (u : Uploader) : Prop := {
  ui_task : up_taskID u = taskID ∧ up_executionID u = executionID;
  ui_next : up_nextSeq u = (Z.of_nat (length lines) + 1)%Z;
  ui_confirmed : up_lastConfirmedSeq u = Z.of_nat k;
  ui_pending : up_pending u = numbered k (drop k lines);
}.

Definition lines_given_up (st : LogSystem) : nat :=
  length (ls_uploaded st) - length (ls_kept st).

(** [acc]: the lines the controller confirmed, at most one more than the
    agent knows of; [li_order]: a line is at most as many lines late in the
    log as were given up. *)
Record log_inv (path : string) (st : LogSystem) (k : nat) (acc : list string) : Prop := {
  li_path : path ≠ "" ∧ taskID ≠ "";
  li_bound : (k ≤ length acc ≤ S k)%nat ∧ (k ≤ length (ls_kept st))%nat ∧
             (Z.of_nat (length (ls_uploaded st)) + 1 < 2 ^ 64)%Z;
  li_lines : Forall (λ l, l ≠ "") (ls_uploaded st);
  li_kept : ls_kept st `sublist_of` ls_uploaded st ∧
            drop k (ls_kept st) = drop (k + lines_given_up st) (ls_uploaded st);
  li_order : ∀ j, (j ≤ length acc)%nat →
             take j acc `sublist_of` take (j + lines_given_up st) (ls_uploaded st);
  li_server : server_inv path acc (length acc) (ls_server st);
  li_up : uploader_inv (ls_kept st) k (ls_up st);
  li_current : ∀ m, ls_current st = Some m →
    message_of (ls_uploaded st) acc k (lines_given_up st) m ∧ head (up_pending (ls_up st)) = Some m;
  li_answer : ∀ a, ls_answer st = Some a → (Z.of_nat k ≤ a ≤ Z.of_nat (length acc))%Z;
  li_late : ∀ m, m ∈ ls_late st → message_of (ls_uploaded st) acc k (lines_given_up st) m;
  li_idle : ls_current st = None → ls_answer st = None;
}.

(** ** The pending lines *)
Lemma numbered_cons k l ls :
  numbered k (l :: ls) =
  MkUploadRequest taskID executionID (Z.of_nat k + 1) l :: numbered (S k) ls.
Proof.
  unfold numbered. cbn [imap]. f_equal.
  - f_equal. lia.
  - apply imap_ext. intros i x _. unfold compose. f_equal. lia.
Qed.

Lemma numbered_app k l1 l2 :
  numbered k (l1 ++ l2) = numbered k l1 ++ numbered (k + length l1) l2.
Proof.
  revert k. induction l1 as [|l l1 IH]; intros k; [by rewrite Nat.add_0_r|].
  rewrite <-app_comm_cons, !numbered_cons, IH. cbn [length app].
  by rewrite Nat.add_succ_r.
Qed.

(** Confirming the lines up to [a] leaves the lines after [a]. *)
Lemma numbered_confirm (a k : nat) ls :
  (k ≤ a)%nat →
  filter (λ e, (Z.of_nat a < ur_Seq e)%Z) (numbered k ls) = numbered a (drop (a - k) ls).
Proof.
  revert k. induction ls as [|l ls IH]; intros k Hle; [by rewrite drop_nil|].
  rewrite numbered_cons. destruct (decide (k = a)) as [->|Hne].
  - rewrite Nat.sub_diag. cbn [drop]. rewrite numbered_cons, filter_cons_True by (simpl; lia).
    f_equal. clear IH Hle l. generalize (Nat.le_succ_diag_r a). generalize (S a) as b.
    induction ls as [|l ls IH]; intros b Hle; [done|].
    rewrite numbered_cons, filter_cons_True by (simpl; lia). f_equal. apply IH. lia.
  - rewrite filter_cons_False by (simpl; lia). rewrite IH by lia.
    by replace (a - k)%nat with (S (a - S k)) by lia.
Qed.

(** A message stays one while lines are uploaded, confirmed and given up. *)
Lemma message_of_mono lines acc k g m l a k' g' :
  message_of lines acc k g m → (k ≤ length acc)%nat → (k ≤ k')%nat → (g ≤ g')%nat →
  message_of (lines ++ l) (acc ++ a) k' g' m.
Proof.
  intros (i & j & ? & ? & ? & Hi & Hj & Hij & Hsub) Hk Hk' Hg.
  pose proof (lookup_lt_Some _ _ _ Hi). exists i, j.
  split_and!; [done..|by apply lookup_app_l_Some|lia|lia|]. by rewrite !take_app_le by lia.
Qed.

Lemma message_of_up lines acc k g m k' g' :
  message_of lines acc k g m → (k ≤ length acc)%nat → (k ≤ k')%nat → (g ≤ g')%nat →
  message_of lines acc k' g' m.
Proof.
  intros. rewrite <-(right_id_L [] (++) lines), <-(right_id_L [] (++) acc).
  by eapply message_of_mono.
Qed.

(** The head of the pending lines is the next message. *)
Lemma message_of_numbered lines acc kept k g m :
  Forall (λ l, l ≠ "") lines → drop k kept = drop (k + g) lines →
  take k acc `sublist_of` take (k + g) lines →
  head (numbered k (drop k kept)) = Some m → message_of lines acc k g m.
Proof.
  intros Hl Hd Hsub Hm. rewrite Hd in Hm. destruct (drop (k + g) lines) as [|l ls] eqn:Hdl; [done|].
  rewrite numbered_cons in Hm. injection Hm as <-. exists (k + g)%nat, k. cbn.
  assert (Hk : lines !! (k + g)%nat = Some l) by (by rewrite <-(Nat.add_0_r (k + g)), <-lookup_drop, Hdl).
  split_and!; [done..| |done|lia|lia|done]. by eapply Forall_lookup_1 in Hl.
Qed.

(** The log after an answer to [m]: as before, or longer by it. *)
Definition extends (m : UploadRequest) (acc acc' : list string) : Prop :=
  acc' = acc ∨ ur_Seq m = (Z.of_nat (length acc) + 1)%Z ∧ acc' = acc ++ [ur_Content m].

Lemma take_sublist (i j : nat) (l : list string) : (i ≤ j)%nat → take i l `sublist_of` take j l.
Proof.
  intros Hij. replace j with (i + (j - i))%nat by lia.
  rewrite <-take_take_drop. by apply sublist_inserts_r.
Qed.

Lemma sublist_full (l1 l2 : list string) :
  l1 `sublist_of` l2 → (length l2 ≤ length l1)%nat → l1 = l2.
Proof.
  induction 1 as [|x l1 l2 _ IH|x l1 l2 Hsub _]; cbn; intros Hlen; [done| |].
  - f_equal. apply IH. lia.
  - apply sublist_length in Hsub. lia.
Qed.

(** What the controller appends comes after what it has. *)
Lemma extends_order lines acc acc' k g m j :
  message_of lines acc k g m → extends m acc acc' →
  (∀ j, (j ≤ length acc)%nat → take j acc `sublist_of` take (j + g) lines) →
  (j ≤ length acc')%nat → take j acc' `sublist_of` take (j + g) lines.
Proof.
  intros (i & j0 & _ & Hseq & _ & Hi & _ & Hij & Hsub) [-> |[Heq ->]] Hord Hj; [by apply Hord|].
  rewrite length_app in Hj. cbn in Hj. destruct (decide (j ≤ length acc)%nat) as [Hle|Hgt].
  - rewrite take_app_le by done. by apply Hord.
  - assert (j0 = length acc ∧ j = S (length acc)) as [-> ->] by lia.
    rewrite (take_ge acc) in Hsub by done. rewrite take_ge by (rewrite length_app; cbn; lia).
    etrans; [|apply (take_sublist (S i)); lia]. rewrite (take_S_r _ _ _ Hi). by apply sublist_app.
Qed.

(** ** The controller handles a message *)
Lemma set_seq_Ok seq db db' r :
  tasks db !! taskID = Some r → (tk_log_confirmed_seq r < seq)%Z →
  SetTaskLogConfirmedSeq taskID seq db = Ok db' →
  tasks db' = <[taskID := tk_set_log_seq seq r]> (tasks db).
Proof.
  intros Hr Hlt. unfold SetTaskLogConfirmedSeq, update_row. rewrite Hr, decide_True by done.
  by intros [= <-].
Qed.

Lemma append_file io path content files files' written (base : list string) :
  path ≠ "" → content ≠ "" → default [] (files !! path) = base →
  appendTaskLogRaw io path content files = (files', written) →
  default [] (files' !! path) = base ++
    (match io with
     | Written => [content]
     | WriteFailed part => if decide (part = "") then [] else [part]
     end) ∧ written = match io with Written => Ok () | WriteFailed _ => Err "write task log" end.
Proof.
  intros Hp Hc Hb. unfold appendTaskLogRaw. rewrite decide_False by naive_solver.
  destruct io as [|part]; intros [= <- <-]; unfold append_chunk.
  - split; [|done]. by rewrite lookup_insert_eq, Hb.
  - split; [|done]. case_decide; [by rewrite Hb, (right_id_L [] (++))|].
    by rewrite lookup_insert_eq, Hb.
Qed.

(** What one message changes: nothing, or a failed attempt that confirms
    nothing, or the next line. *)
Lemma applyTaskLogUpload_inv io recorded path eid m acc s s' r :
  path ≠ "" → (Z.of_nat (length acc) + 1 < 2 ^ 64)%Z → clean io recorded → ur_Content m ≠ "" →
  server_inv path acc (length acc) s →
  applyTaskLogUpload io recorded (MkUploadSession taskID eid path) m s = (s', r) →
  ∃ acc', extends m acc acc' ∧ server_inv path acc' (length acc') s' ∧
    match r with Ok a => a = Z.of_nat (length acc') | Err _ => True end.
Proof.
  intros Hp Hb Hcl Hcont [(row & Hrow & Hlog & Hrseq) Hcache Hfile]. rewrite take_ge in Hfile by done.
  unfold applyTaskLogUpload. cbn [us_taskID us_logPath].
  set (loaded := match as_confirmedBy s !! taskID with Some _ => _ | None => _ end).
  assert (∃ s0, loaded = Ok (s0, Z.of_nat (length acc)) ∧ as_db s0 = as_db s ∧ as_files s0 = as_files s ∧
      ∀ z, as_confirmedBy s0 !! taskID = Some z → z = Z.of_nat (length acc)) as (s0 & -> & Hdb & Hf & Hca).
  { unfold loaded. destruct (as_confirmedBy s !! taskID) as [z|] eqn:Hz.
    - rewrite (Hcache z eq_refl). exists s. split_and!; try done. intros z' Hz'. rewrite Hz in Hz'.
      injection Hz' as <-. by apply Hcache.
    - unfold TaskLogConfirmedSeq. rewrite Hrow. cbn. rewrite Hrseq. eexists. split_and!; [done..|].
      cbn. intros z. rewrite lookup_insert_eq. by intros [= <-]. }
  assert (Hs0 : server_inv path acc (length acc) s0).
  { constructor; [by rewrite Hdb; eauto|done|]. by rewrite Hf, take_ge. }
  destruct (decide (ur_Seq m ≤ Z.of_nat (length acc))%Z) as [|Hgt].
  { intros [= <- <-]. exists acc. split; [by left|done]. }
  assert (u64 (Z.of_nat (length acc) + 1) = (Z.of_nat (length acc) + 1)%Z) as Hu.
  { unfold u64. apply Z.mod_small. lia. }
  rewrite Hu. destruct (decide (ur_Seq m ≠ (Z.of_nat (length acc) + 1)%Z)) as [|Hnext%dec_stable].
  { intros [= <- <-]. exists acc. split; [by left|done]. }
  rewrite Hf.
  destruct (appendTaskLogRaw io path (ur_Content m) (as_files s)) as [files written] eqn:Ha.
  eapply append_file in Ha as [Hfiles ->]; [|done..|reflexivity].
  assert (Hfailed : (faults = true ∨ default [] (files !! path) = default [] (as_files s !! path)) →
      server_inv path acc (length acc) (MkAgentServer (as_db s0) (as_confirmedBy s0) files)).
  { intros Hor. constructor; cbn; [by rewrite Hdb; eauto|exact Hca|]. rewrite take_ge by done.
    destruct faults; [|by destruct Hor as [?| ->]]. rewrite Hfiles. by apply sublist_inserts_r. }
  destruct io as [|part].
  - set (s1 := MkAgentServer (as_db s0) (as_confirmedBy s0) files) in *.
    destruct recorded.
    + destruct (SetTaskLogConfirmedSeq taskID (ur_Seq m) (as_db s1)) as [db|e] eqn:Hset.
      * intros [= <- <-]. exists (acc ++ [ur_Content m]). split; [by right|].
        rewrite length_app, Nat.add_1_r. split; [|lia]. subst s1. cbn [as_db] in Hset.
        rewrite Hdb in Hset. eapply set_seq_Ok in Hset; [|done|lia].
        constructor; cbn.
        -- eexists. rewrite Hset, lookup_insert_eq. split_and!; [done|done|]. cbn. lia.
        -- intros z. rewrite lookup_insert_eq. intros [= <-]. lia.
        -- rewrite Hfiles, take_ge by (rewrite length_app; cbn; lia).
           destruct faults; [by apply sublist_app|by rewrite Hfile].
      * exfalso. subst s1. cbn [as_db] in Hset. rewrite Hdb in Hset.
        unfold SetTaskLogConfirmedSeq, update_row in Hset.
        rewrite Hrow, decide_True in Hset by lia. done.
    + intros [= <- <-]. exists acc. split; [by left|]. split; [|done].
      apply Hfailed. destruct Hcl as [?|[_ [=]]]. by left.
  - intros [= <- <-]. exists acc. split; [by left|]. split; [|done]. apply Hfailed.
    destruct Hcl as [?|[[?|[= ->]] _]]; [by left|done|right].
    by rewrite Hfiles, decide_True, (right_id_L [] (++)).
Qed.

Lemma bind_session path session eid db session' r :
  taskID ≠ "" → tasks db !! taskID = Some r → tc_log_path (tk_core r) = Some path →
  session_of path session →
  bindTaskLogUploadSession ctx session taskID eid db = Ok session' →
  ∃ eid', session' = MkUploadSession taskID eid' path.
Proof.
  intros Hid Hr Hp [->| ->]; unfold bindTaskLogUploadSession; cbn [us_taskID us_executionID new_session].
  - rewrite decide_True by done. intros Hrun. ok_inv.
    match goal with Hg : or_not_found (GetTask _ _) = Ok _ |- _ =>
      apply or_not_found_Ok in Hg; unfold GetTask, getTaskRecord in Hg; rewrite Hr in Hg end.
    simplify_eq/=. rewrite Hp. cbn. by eexists.
  - rewrite decide_False by done. case_decide; [done|]. intros [= <-]. by eexists.
Qed.

Lemma handled_inv io recorded path m acc s s' answer :
  path ≠ "" → taskID ≠ "" → (Z.of_nat (length acc) + 1 < 2 ^ 64)%Z →
  ur_TaskId m = taskID → ur_Content m ≠ "" →
  server_inv path acc (length acc) s → handled io recorded path m s s' answer →
  ∃ acc', extends m acc acc' ∧ server_inv path acc' (length acc') s' ∧
    ∀ a, answer = Some a → a = Z.of_nat (length acc').
Proof.
  intros Hp Hid Hb Htid Hcont Hs (session & r & Hsess & Hcl & Hrun & ->).
  assert (Hsame : extends m acc acc) by by left.
  unfold UploadTaskLogs_message in Hrun.
  case_decide; [by simplify_eq; exists acc|].
  case_decide; [by simplify_eq; exists acc|].
  destruct (bindTaskLogUploadSession ctx session _ _ _) as [session1|e] eqn:Hbind;
    [|by simplify_eq; exists acc].
  rewrite Htid in Hbind. destruct (si_row _ _ _ _ Hs) as (row & Hrow & Hlog & _).
  destruct (bind_session _ _ _ _ _ _ Hid Hrow Hlog Hsess Hbind) as [eid' Heq]. subst session1.
  destruct (applyTaskLogUpload _ _ _ _ _) as [s1 r1] eqn:Ha.
  eapply applyTaskLogUpload_inv in Ha as (acc' & ? & ? & Hr); [|done..].
  simplify_eq/=. exists acc'. split_and!; [done..|].
  destruct r1 as [z|]; [|done]. simpl. intros a [= <-]. done.
Qed.

(** ** The agent gets an answer *)
Lemma uploader_inv_push lines k u content :
  (k ≤ length lines)%nat → (Z.of_nat (length lines) + 2 < 2 ^ 64)%Z →
  uploader_inv lines k u → uploader_inv (lines ++ [content]) k (upload_push content u).
Proof.
  intros Hk Hb [[Ht He] Hn Hc Hp]. constructor; cbn; [done| |done|].
  - rewrite Hn, length_app. cbn. unfold u64. rewrite Z.mod_small by lia. lia.
  - rewrite Hp, drop_app_le, numbered_app by done. f_equal.
    rewrite numbered_cons, length_drop, Hn, Ht, He.
    replace (k + (length lines - k))%nat with (length lines) by lia. done.
Qed.

Lemma sendPendingLog_inv lines k c x m ans u u' r :
  (k ≤ c ≤ length lines)%nat → uploader_inv lines k u → exchange_ok x ans →
  (∀ a, ans = Some a → (Z.of_nat k ≤ a ≤ Z.of_nat c)%Z) →
  sendPendingLog x m u = (u', r) →
  ∃ k', (k ≤ k' ≤ c)%nat ∧ uploader_inv lines k' u' ∧
    ((∃ e, r = Err e) → k' = k).
Proof.
  intros Hk [[Ht He] Hn Hc Hp] Hx Ha.
  destruct x as [[]|[]|id seq]; cbn [exchange_ok] in Hx; cbn [sendPendingLog].
  1-4: intros [= <- _]; exists k; split; [lia|split; [by constructor|done]].
  destruct Hx as [-> ->]. specialize (Ha seq eq_refl).
  assert (∃ a, seq = Z.of_nat a) as [a ->] by (exists (Z.to_nat seq); lia). unfold applyAck. cbn [up_taskID up_set_open].
  rewrite Ht, decide_False by naive_solver. cbn [up_lastConfirmedSeq up_set_open].
  rewrite Hc, decide_False by lia. intros [= <- <-].
  exists a. split; [lia|]. split; [|by intros [? [=]]]. constructor; cbn; [done..|].
  rewrite Hp, numbered_confirm by lia. f_equal. rewrite drop_drop. f_equal. lia.
Qed.

Lemma pending_length lines k u :
  uploader_inv lines k u → length (up_pending u) = (length lines - k)%nat.
Proof. intros [_ _ _ ->]. unfold numbered. by rewrite length_imap, length_drop. Qed.

(** Giving the pending lines up leaves the confirmed ones. *)
Lemma abandonPending_inv lines k u :
  (k ≤ length lines)%nat → (Z.of_nat (length lines) + 1 < 2 ^ 64)%Z →
  uploader_inv lines k u → uploader_inv (take k lines) k (abandonPending u).
Proof.
  intros Hk Hb [[Ht He] Hn Hc Hp]. constructor; cbn; [done| |done|].
  - rewrite Hc, length_take, Nat.min_l by done. unfold u64. by rewrite Z.mod_small by lia.
  - by rewrite drop_ge by (rewrite length_take; lia).
Qed.

(** ** The invariant holds along the steps *)
Lemma log_inv_handled path up s cur ans late lines kept k acc m io recorded s' answer ans' :
  log_inv path (MkLogSystem up s cur ans late lines kept) k acc →
  message_of lines acc k (length lines - length kept) m →
  handled io recorded path m s s' answer → ans' = ans ∨ ans' = answer ∧ cur ≠ None →
  ∃ acc', log_inv path (MkLogSystem up s' cur ans' late lines kept) k acc'.
Proof.
  intros [[Hp Hid] (Hkc & Hkl & Hb) Hl [Hsub Hd] Hord Hs Hu Hcur Hans Hlate Hidle] Hm Hh Hans'.
  cbn in *. unfold lines_given_up in *. cbn in *.
  pose proof (sublist_length _ _ Hsub) as Hlk. pose proof Hm as (i & j & Htid & Hseq & Hne & Hi & Hj & _ & _).
  assert (Hlen : (length acc ≤ length lines)%nat).
  { specialize (Hord _ (le_n _)). apply sublist_length in Hord. rewrite !length_take in Hord. lia. }
  assert (Hb2 : (Z.of_nat (length acc) + 1 < 2 ^ 64)%Z) by lia.
  destruct (handled_inv _ _ _ _ _ _ _ _ Hp Hid Hb2 Htid Hne Hs Hh) as (acc' & Hext & Hs' & Ha).
  assert (Hgrow : ∃ a, acc' = acc ++ a ∧ (length acc' ≤ S k)%nat).
  { destruct Hext as [->|[Heq ->]]; [exists []; rewrite (right_id_L [] (++)); split; [done|lia]|].
    exists [ur_Content m]. rewrite length_app. cbn. split; [done|]. lia. }
  destruct Hgrow as (a & Heq & Hle).
  assert (Hlen' : (length acc ≤ length acc')%nat) by (rewrite Heq, length_app; lia).
  assert (Hmono : ∀ m', message_of lines acc k (length lines - length kept) m' →
      message_of lines acc' k (length lines - length kept) m').
  { intros m' Hm'. pose proof (message_of_mono _ _ _ _ _ [] a k _ Hm' (proj1 Hkc) (le_n _) (le_n _)) as Hx.
    by rewrite (right_id_L [] (++)), <-Heq in Hx. }
  exists acc'. constructor; cbn; unfold lines_given_up; cbn; auto.
  - split_and!; lia.
  - intros j' Hj'. eapply extends_order; [exact Hm|exact Hext|exact Hord|exact Hj'].
  - intros m' Hm'. destruct (Hcur m' Hm'). auto.
  - destruct Hans' as [->|[-> _]]; intros z Hz.
    + specialize (Hans z Hz). lia.
    + rewrite (Ha z Hz). lia.
  - intros ->. destruct Hans' as [->|[_ ?]]; [auto|done].
Qed.

(** The state the agent goes on from after an exchange. *)
Lemma log_inv_idle path up s cur ans late late' lines kept kept' k k' acc up' :
  log_inv path (MkLogSystem up s cur ans late lines kept) k acc →
  (∀ m, m ∈ late' → m ∈ late ∨ cur = Some m) →
  (k ≤ k' ≤ length acc)%nat → uploader_inv kept' k' up' →
  kept' = kept ∧ (k' ≤ length kept)%nat ∨ k' = k ∧ kept' = take k kept →
  log_inv path (MkLogSystem up' s None None late' lines kept') k' acc.
Proof.
  intros [[Hp Hid] (Hkc & Hkl & Hb) Hl [Hsub Hd] Hord Hs Hu Hcur Hans Hlate Hidle] Hl' Hk Hu' Hor.
  cbn in *. unfold lines_given_up in *. cbn in *. pose proof (sublist_length _ _ Hsub) as Hlk.
  assert (Hkept : (length kept' ≤ length kept)%nat ∧ (k' ≤ length kept')%nat ∧
      kept' `sublist_of` lines ∧ drop k' kept' = drop (k' + (length lines - length kept')) lines).
  { destruct Hor as [[-> ?]|[-> ->]].
    - split_and!; [lia|lia|done|]. replace k' with (k + (k' - k))%nat at 1 by lia.
      rewrite <-drop_drop, Hd, drop_drop. f_equal. lia.
    - rewrite length_take. split_and!; [lia..| |].
      + etrans; [apply sublist_take|done].
      + rewrite !drop_ge; [done|lia|rewrite length_take; lia]. }
  destruct Hkept as (Hk1 & Hk2 & Hk3 & Hk4).
  constructor; cbn; unfold lines_given_up; cbn; auto; try done.
  - split_and!; lia.
  - intros j Hj. etrans; [by apply Hord|]. apply take_sublist. lia.
  - intros m Hm. eapply message_of_up; [destruct (Hl' m Hm) as [?| ->]; [by apply Hlate|]|lia..].
    by destruct (Hcur m eq_refl).
Qed.

Lemma log_inv_store path up s s' cur ans late lines kept k acc :
  log_inv path (MkLogSystem up s cur ans late lines kept) k acc → server_inv path acc (length acc) s' →
  log_inv path (MkLogSystem up s' cur ans late lines kept) k acc.
Proof. by intros [? ? ? ? ? ? ? ? ? ? ?]; constructor. Qed.

Lemma log_inv_upload path up s cur ans late lines kept k acc content :
  content ≠ "" → (Z.of_nat (length lines) + 2 < 2 ^ 64)%Z →
  log_inv path (MkLogSystem up s cur ans late lines kept) k acc →
  log_inv path (MkLogSystem (upload_push content up) s cur ans late (lines ++ [content])
                  (kept ++ [content])) k acc.
Proof.
  intros Hne Hb' [[Hp Hid] (Hkc & Hkl & Hb) Hl [Hsub Hd] Hord Hs Hu Hcur Hans Hlate Hidle].
  cbn in *. unfold lines_given_up in *. cbn in *. pose proof (sublist_length _ _ Hsub) as Hlk.
  assert (Hg : (length (lines ++ [content]) - length (kept ++ [content]) = length lines - length kept)%nat)
    by (rewrite !length_app; cbn; lia).
  assert (Hlen : (length acc ≤ length lines)%nat).
  { specialize (Hord _ (le_n _)). apply sublist_length in Hord. rewrite !length_take in Hord. lia. }
  assert (Hmono : ∀ m, message_of lines acc k (length lines - length kept) m →
      message_of (lines ++ [content]) acc k (length lines - length kept) m).
  { intros m Hm. pose proof (message_of_mono _ _ _ _ _ [content] [] k _ Hm (proj1 Hkc) (le_n _) (le_n _)) as Hx.
    by rewrite (right_id_L [] (++) acc) in Hx. }
  constructor; cbn; unfold lines_given_up; cbn; rewrite ?Hg; auto.
  - rewrite !length_app. cbn. split_and!; lia.
  - apply Forall_app. split; [done|]. by constructor.
  - split; [by apply sublist_app|]. rewrite !drop_app_le by lia. by rewrite Hd.
  - intros j Hj. etrans; [by apply Hord|]. rewrite take_app. by apply sublist_inserts_r.
  - apply uploader_inv_push; [lia|lia|done].
  - intros m Hm. destruct (Hcur m Hm) as [? Hh]. split; [by apply Hmono|].
    destruct (up_pending up); [done|]. by simplify_eq/=.
Qed.

Lemma log_inv_step path st st' k acc :
  log_inv path st k acc → log_step path st st' → ∃ k' acc', log_inv path st' k' acc'.
Proof.
  intros Hinv Hstep.
  pose proof Hinv as [_ (Hkc & Hkl & Hb) Hl [Hsub Hd] Hord Hs Hu Hcur Hans Hlate _].
  destruct Hstep as [up s cur ans late lines kept content Hne Hb'|up s late lines kept m rest Hpend
    |up s late lines kept m io recorded s' answer Hh|up s cur ans late lines kept m io recorded s' answer Hm Hh
    |up s ans late lines kept m x up' r Hx Hsend|up s ans late lines kept m x up' e Hx Hsend
    |up s cur ans late lines kept|up s cur ans late lines kept db Hcall Hseq]; cbn in *.
  - exists k, acc. by apply log_inv_upload.
  - exists k, acc. destruct Hinv. constructor; cbn in *; auto; [by destruct Hu; constructor|].
    intros m' [= <-]. assert (Hhead : head (up_pending up) = Some m) by (by rewrite Hpend).
    split; [|done]. eapply message_of_numbered; [done| |apply Hord; lia|].
    + exact Hd.
    + by rewrite <-(ui_pending _ _ _ Hu).
  - exists k. eapply log_inv_handled; [exact Hinv|by apply (Hcur m eq_refl)|exact Hh|by right].
  - exists k. eapply log_inv_handled; [exact Hinv|by apply Hlate|exact Hh|by left].
  - pose proof (proj2 (Hcur m eq_refl)) as Hhead. apply pending_length in Hu as Hpl.
    assert (length (up_pending up) ≠ 0%nat) by (by destruct (up_pending up)).
    eapply (sendPendingLog_inv kept k (length acc)) in Hsend as (k' & Hk' & Hu' & _); [|lia|done..].
    exists k', acc. eapply log_inv_idle; [exact Hinv| |exact Hk'|exact Hu'|left; split; [done|lia]].
    intros m' [->|?]%elem_of_cons; auto.
  - pose proof (proj2 (Hcur m eq_refl)) as Hhead. apply pending_length in Hu as Hpl.
    assert (length (up_pending up) ≠ 0%nat) by (by destruct (up_pending up)).
    pose proof (sublist_length _ _ Hsub).
    eapply (sendPendingLog_inv kept k (length acc)) in Hsend as (k' & _ & Hu' & Hkeq); [|lia|done..].
    rewrite Hkeq in Hu' by eauto. pose proof (pending_length _ _ _ Hu') as Hpl'.
    exists k, acc. replace (length kept - length (up_pending up'))%nat with k by lia.
    eapply log_inv_idle; [exact Hinv| |lia|apply abandonPending_inv; [lia|lia|done]|by right].
    intros m' [->|?]%elem_of_cons; auto.
  - exists k, acc. eapply log_inv_store; [done|].
    destruct Hs as [? Hc ?]. constructor; cbn; [done| |done]. intros z. by rewrite lookup_delete_eq.
  - exists k, acc. eapply log_inv_store; [done|].
    destruct Hs as [(row & Hrow & Hlog & Hrs) ? ?]. constructor; cbn; [|done..].
    destruct (step_row (MkState ∅ (as_db s)) (MkState ∅ db) taskID row) as (row' & Hrow' & o & Hrs');
      [by constructor|done|]. cbn in Hrow'. exists row'.
    rewrite (row_step_core _ _ _ Hrs'). split_and!; [done..|].
    unfold TaskLogConfirmedSeq in Hseq. rewrite Hrow, Hrow' in Hseq. congruence.
Qed.

Lemma log_inv_start path st : log_start path st → log_inv path st 0 [].
Proof.
  intros [? ? Hup (r & ? & ? & ?) Hca Hf (? & ? & Hlate & Hnil & Hkept)]. destruct st; simplify_eq/=.
  constructor; cbn; try done.
  - split_and!; [lia..|done].
  - intros j _. by rewrite !take_nil.
  - constructor; [by exists r|by rewrite Hca|]. rewrite Hf. by destruct faults.
  - by intros m Hm%elem_of_nil.
Qed.

Lemma log_inv_reachable path st0 st :
  log_start path st0 → rtc (log_step path) st0 st → ∃ k acc, log_inv path st k acc.
Proof.
  intros Hst Hrun. apply log_inv_start in Hst. revert Hst. generalize 0%nat as k0.
  generalize ([] : list string) as acc0. induction Hrun as [|st1 st2 st3 Hs _ IH]; intros acc0 k0 Hinv; [eauto|].
  destruct (log_inv_step _ _ _ _ _ Hinv Hs) as (k1 & c1 & ?). by eapply IH.
Qed.

(** ** What the invariant says of the log *)
Lemma log_inv_pending path st k acc :
  log_inv path st k acc →
  ur_Content <$> up_pending (ls_up st) = drop k (ls_kept st) ∧
  length (ls_kept st) = (k + length (up_pending (ls_up st)))%nat.
Proof.
  intros Hinv. pose proof (proj1 (proj2 (li_bound _ _ _ _ Hinv))) as Hk.
  pose proof (li_up _ _ _ _ Hinv) as Hu. rewrite (pending_length _ _ _ Hu).
  split; [|lia]. rewrite (ui_pending _ _ _ Hu). unfold numbered. rewrite fmap_imap.
  assert (Hid : ∀ l : list string, imap (λ _ x, x) l = l).
  { intros l. induction l as [|x l IH]; [done|]. cbn. f_equal. exact IH. }
  exact (Hid _).
Qed.

Lemma log_inv_sublist path st k acc :
  log_inv path st k acc → acc `sublist_of` ls_uploaded st.
Proof.
  intros Hinv. rewrite <-(take_ge acc (length acc)) by done.
  etrans; [by apply (li_order _ _ _ _ Hinv)|]. apply sublist_take.
Qed.

(** As long as no line was given up the log is a prefix. *)
Lemma log_inv_prefix path st k acc :
  log_inv path st k acc → ls_kept st = ls_uploaded st →
  acc = take (length acc) (ls_uploaded st).
Proof.
  intros Hinv Heq. pose proof (li_order _ _ _ _ Hinv (length acc) (le_n _)) as Hsub.
  unfold lines_given_up in Hsub. rewrite Heq, Nat.sub_diag, Nat.add_0_r, take_ge in Hsub by done.
  pose proof (sublist_length _ _ (log_inv_sublist _ _ _ _ Hinv)).
  apply sublist_full; [done|]. rewrite length_take. lia.
Qed.

Lemma log_inv_complete path st k acc :
  log_inv path st k acc → ls_kept st = ls_uploaded st → up_pending (ls_up st) = [] →
  acc = ls_uploaded st.
Proof.
  intros Hinv Heq Hnil. apply sublist_full; [by eapply log_inv_sublist|].
  destruct (log_inv_pending _ _ _ _ Hinv) as [_ Hlen]. rewrite Hnil in Hlen. cbn in Hlen.
  pose proof (li_bound _ _ _ _ Hinv) as (Hk & _ & _). rewrite <-Heq. lia.
Qed.

Lemma log_inv_bound path st k acc :
  log_inv path st k acc → (Z.of_nat (length acc) + 1 < 2 ^ 64)%Z.
Proof.
  intros Hinv. pose proof (sublist_length _ _ (log_inv_sublist _ _ _ _ Hinv)).
  pose proof (li_bound _ _ _ _ Hinv) as (_ & _ & ?). lia.
Qed.

Lemma log_inv_conf path st k acc :
  log_inv path st k acc →
  TaskLogConfirmedSeq taskID (as_db (ls_server st)) = Ok (Z.of_nat (length acc)).
Proof.
  intros [_ _ _ _ _ [(r & Hr & _ & Hs) _ _] _ _ _ _ _]. unfold TaskLogConfirmedSeq. by rewrite Hr, Hs.
Qed.
End system.

Lemma log_inv_log `{SQLite} taskID executionID path st k acc :
  log_inv taskID executionID false path st k acc → log_of path st = acc.
Proof. intros Hinv. unfold log_of. by rewrite (si_file _ _ _ _ _ _ (li_server _ _ _ _ _ _ _ Hinv)), take_ge. Qed.

(** ** The properties of the task logs

    Delivery without storage faults, in order and exactly once but for lines
    of uploads that were given up, at-least-once delivery with them, the
    possibility to deliver everything while the execution is accepted, and
    the line an abandoned upload loses. *)
From S2P Require Export StoreExamples.

Section theorems.
Context `{SQLite}.

(** C18: without storage faults, however streams break, answers get lost,
    uploads run into their deadline, late messages arrive and the controller
    restarts: the log of a task is at every moment made of lines the agent
    uploaded, in order and each at most once, and the confirmed number of the
    database is its length.  The agent forgets a line only when a line with
    its number is in the log or when its upload is given up; not counting the
    lines given up and the pending ones, the log has at least as many lines
    as were uploaded, so that at most as many are missing as were given up.
    As long as none was given up the log is exactly the first lines uploaded,
    and all of them when no line is pending. *)
Theorem log_delivered_exactly_once ctx taskID executionID path st0 st :
  log_start taskID executionID path st0 → rtc (log_step ctx taskID executionID false path) st0 st →
  ∃ k c, up_lastConfirmedSeq (ls_up st) = Z.of_nat k ∧ (k ≤ c)%nat ∧
    ls_kept st `sublist_of` ls_uploaded st ∧
    ur_Content <$> up_pending (ls_up st) = drop k (ls_kept st) ∧
    log_of path st `sublist_of` ls_uploaded st ∧ length (log_of path st) = c ∧
    TaskLogConfirmedSeq taskID (as_db (ls_server st)) = Ok (Z.of_nat c) ∧
    (length (ls_kept st) ≤ length (log_of path st) + length (up_pending (ls_up st)))%nat ∧
    (ls_kept st = ls_uploaded st →
     log_of path st = take c (ls_uploaded st) ∧
     (up_pending (ls_up st) = [] → log_of path st = ls_uploaded st)).
Proof.
  intros Hst Hrun. destruct (log_inv_reachable _ _ _ _ _ _ _ Hst Hrun) as (k & acc & Hinv).
  destruct (log_inv_pending _ _ _ _ _ _ _ Hinv) as [Hpend Hlen].
  rewrite (log_inv_log _ _ _ _ _ _ Hinv).
  pose proof (li_bound _ _ _ _ _ _ _ Hinv) as (Hk & _ & _).
  exists k, (length acc). split_and!; [by apply Hinv|lia|by apply Hinv|done| |done| |lia|].
  - by eapply log_inv_sublist.
  - by eapply log_inv_conf.
  - intros Heq. split; [by eapply log_inv_prefix|]. intros Hnil. by eapply log_inv_complete.
Qed.

(** When a write to the log may fail half-way and the database may
    refuse the new number, no line is lost unless an upload was given up: the
    lines confirmed to the agent are in the log, in order, possibly with
    repetitions between them; when no line is pending all of them are. *)
Theorem log_delivered_at_least_once ctx taskID executionID path st0 st :
  log_start taskID executionID path st0 → rtc (log_step ctx taskID executionID true path) st0 st →
  ls_kept st = ls_uploaded st →
  ∃ k, up_lastConfirmedSeq (ls_up st) = Z.of_nat k ∧
    take k (ls_uploaded st) `sublist_of` log_of path st ∧
    (up_pending (ls_up st) = [] → ls_uploaded st `sublist_of` log_of path st).
Proof.
  intros Hst Hrun Heq. destruct (log_inv_reachable _ _ _ _ _ _ _ Hst Hrun) as (k & acc & Hinv).
  pose proof (li_bound _ _ _ _ _ _ _ Hinv) as (Hk & _ & _).
  pose proof (log_inv_prefix _ _ _ _ _ _ _ Hinv Heq) as Hacc.
  pose proof (si_file _ _ _ _ _ _ (li_server _ _ _ _ _ _ _ Hinv)) as Hf. cbn in Hf.
  rewrite take_ge in Hf by done. exists k. split; [by apply Hinv|]. split.
  - etrans; [|exact Hf]. rewrite Hacc. apply take_sublist. lia.
  - intros Hnil. by rewrite <-(log_inv_complete _ _ _ _ _ _ _ Hinv Heq Hnil).
Qed.

(** ** Delivery is always possible *)
Record accepts (nodeID taskID executionID : string) (db : DB) (r : TaskRow) : Prop := {
  ac_row : tasks db !! taskID = Some r;
  ac_node : tc_node_id (tk_core r) = Some nodeID ∧ nodeID ≠ "";
  ac_status : tk_status r = StatusRunning;
  ac_id : ex_execution_id (tk_exec r) = Some executionID ∧ executionID ≠ "";
  ac_state : ex_execution_state (tk_exec r) = Some ExecutionAccepted ∨
             ex_execution_state (tk_exec r) = Some ExecutionLeaseLost;
}.

Lemma accepts_bind nodeID taskID executionID db r :
  accepts nodeID taskID executionID db r →
  bindTaskLogUploadSession (Some nodeID) new_session taskID executionID db =
  Ok (MkUploadSession taskID executionID (coalesce (tc_log_path (tk_core r)))).
Proof.
  intros [Hr [Hn Hne] Hs [Hi Hie] Hst].
  unfold bindTaskLogUploadSession, ensureTaskNodeMatch, ensureCurrentTaskExecution,
    ValidateTaskExecution, TaskNodeID, GetTask, getTaskRecord.
  cbn [us_taskID new_session BearerSubject]. rewrite decide_True by done.
  rewrite Hr. cbn. rewrite Hn, Hs, Hi. cbn. rewrite decide_False by tauto. cbn.
  rewrite decide_False by done. cbn. rewrite decide_False by naive_solver.
  rewrite decide_False by naive_solver.
  destruct Hst as [->| ->]; cbn; by rewrite decide_True by tauto.
Qed.

(** A controller that accepts the execution answers the next line, or one it
    has, with its number at least. *)
Lemma handle_next nodeID taskID executionID path m k lines acc c s r :
  path ≠ "" → taskID ≠ "" → (Z.of_nat c + 1 < 2 ^ 64)%Z → (k ≤ c)%nat →
  head (numbered taskID executionID k (drop k lines)) = Some m → ur_Content m ≠ "" →
  server_inv taskID false path acc c s → accepts nodeID taskID executionID (as_db s) r →
  ∃ s' session a r', UploadTaskLogs_message (Some nodeID) Written true m new_session s =
    (s', Ok (session, a)) ∧ (Z.of_nat k < a)%Z ∧ accepts nodeID taskID executionID (as_db s') r'.
Proof.
  intros Hp Hid Hb Hk Hm Hcont [(row & Hrow & Hlog & Hseq) Hcache _] Ha.
  pose proof (ac_row _ _ _ _ _ Ha) as Hr. assert (row = r) as -> by congruence.
  destruct (drop k lines) as [|l ls] eqn:Hd; [done|]. rewrite numbered_cons in Hm.
  injection Hm as <-. cbn in Hcont.
  unfold UploadTaskLogs_message. cbn [ur_TaskId ur_Seq ur_ExecutionId]. rewrite !decide_False by (done || lia).
  rewrite (accepts_bind _ _ _ _ _ Ha), Hlog. cbn [coalesce]. unfold applyTaskLogUpload.
  cbn [us_taskID us_logPath ur_Seq ur_Content].
  set (loaded := match as_confirmedBy s !! taskID with Some _ => _ | None => _ end).
  assert (∃ s0, loaded = Ok (s0, Z.of_nat c) ∧ as_db s0 = as_db s) as (s0 & -> & Hdb).
  { unfold loaded. destruct (as_confirmedBy s !! taskID) as [z|].
    - rewrite (Hcache z eq_refl). by exists s.
    - unfold TaskLogConfirmedSeq. rewrite Hrow. cbn. rewrite Hseq. by eexists. }
  destruct (decide (Z.of_nat k + 1 ≤ Z.of_nat c)%Z) as [Hle|Hgt].
  { do 4 eexists. split; [reflexivity|]. split; [lia|]. by rewrite Hdb. }
  assert (u64 (Z.of_nat c + 1) = (Z.of_nat k + 1)%Z) as ->.
  { unfold u64. rewrite Z.mod_small by lia. lia. }
  rewrite decide_False by tauto. unfold appendTaskLogRaw. rewrite decide_False by naive_solver.
  cbn [as_db]. rewrite Hdb. unfold SetTaskLogConfirmedSeq, update_row.
  rewrite Hrow, decide_True by lia. cbn.
  do 4 eexists. split; [reflexivity|]. split; [lia|].
  destruct Ha as [_ ? ? ? ?]. constructor; cbn; [by rewrite lookup_insert_eq|done..].
Qed.

Section progress.
Context (nodeID taskID executionID path : string).
Local Abbreviation steps := (rtc (log_step (Some nodeID) taskID executionID false path)).
Local Abbreviation inv := (log_inv taskID executionID false path).
Local Abbreviation accepting st := (∃ r, accepts nodeID taskID executionID (as_db (ls_server st)) r).

(** One exchange without a failure confirms a line. *)
Lemma deliver_next up s late lines kept k acc :
  inv (MkLogSystem up s None None late lines kept) k acc → up_pending up ≠ [] →
  accepting (MkLogSystem up s None None late lines kept) →
  ∃ up' s' late' k' acc', steps (MkLogSystem up s None None late lines kept)
      (MkLogSystem up' s' None None late' lines kept) ∧
    inv (MkLogSystem up' s' None None late' lines kept) k' acc' ∧ (k < k')%nat ∧
    accepting (MkLogSystem up' s' None None late' lines kept).
Proof.
  intros Hinv Hne [r Ha]. destruct (up_pending up) as [|m rest] eqn:Hpend; [done|]. clear Hne.
  pose proof (log_send (Some nodeID) taskID executionID false path up s late lines kept m rest Hpend) as Hs1.
  destruct (log_inv_step _ _ _ _ _ _ _ _ _ Hinv Hs1) as (k1 & acc1 & Hinv1).
  pose proof Hinv as [[Hp Hid] (Hkc & _ & _) _ _ _ Hsrv Hup _ _ _ _].
  pose proof Hup as [[Ht He] Hn Hc Hpd].
  pose proof Hinv1 as [_ _ _ _ _ _ _ Hcur _ _ _]. cbn in Hcur, Hkc, Hsrv, Ha, Hc, Hpd, Ht.
  destruct (Hcur m eq_refl) as [(_ & _ & _ & _ & Hcont & _) _].
  assert (Hhead : head (numbered taskID executionID k (drop k kept)) = Some m).
  { by rewrite <-Hpd, Hpend. }
  pose proof (log_inv_bound _ _ _ _ _ _ _ Hinv) as Hb.
  destruct (handle_next nodeID taskID executionID path m k kept acc (length acc) s r) as
    (s2 & session & a & r2 & Hmsg & Hka & Ha2); [done|done|done|lia|done..|].
  pose (st2 := MkLogSystem (up_set_open true up) s2 (Some m) (Some a) late lines kept).
  assert (Hs2 : log_step (Some nodeID) taskID executionID false path
      (MkLogSystem (up_set_open true up) s (Some m) None late lines kept) st2).
  { eapply (log_handle _ _ _ _ _ _ _ _ _ _ _ Written true). exists new_session, (Ok (session, a)).
    split_and!; [by left|by right; auto|exact Hmsg|done]. }
  pose (up3 := dropConfirmed (up_set (up_nextSeq up) a (up_pending up)
                 (up_set_open true (up_set_open true up)))).
  pose (st3 := MkLogSystem up3 s2 None None (m :: late) lines kept).
  assert (Hs3 : log_step (Some nodeID) taskID executionID false path st2 st3).
  { eapply (log_exchange _ _ _ _ _ _ _ _ _ _ _ _ (Received taskID a)); [done|].
    cbn [sendPendingLog]. unfold applyAck. cbn [up_taskID up_lastConfirmedSeq up_set_open].
    rewrite Ht, Hc. rewrite !decide_False by (naive_solver || lia). done. }
  destruct (log_inv_step _ _ _ _ _ _ _ _ _ Hinv1 Hs2) as (k2 & acc2 & Hinv2).
  destruct (log_inv_step _ _ _ _ _ _ _ _ _ Hinv2 Hs3) as (k3 & acc3 & Hinv3).
  exists up3, s2, (m :: late), k3, acc3. split_and!.
  - eapply rtc_l; [exact Hs1|]. eapply rtc_l; [exact Hs2|]. by apply rtc_once.
  - done.
  - pose proof (ui_confirmed _ _ _ _ _ (li_up _ _ _ _ _ _ _ Hinv3)) as Hc3. cbn in Hc3. lia.
  - by exists r2.
Qed.

Lemma deliver_all n up s late lines kept k acc :
  (length kept - k ≤ n)%nat → inv (MkLogSystem up s None None late lines kept) k acc →
  accepting (MkLogSystem up s None None late lines kept) →
  ∃ st k' acc', steps (MkLogSystem up s None None late lines kept) st ∧ inv st k' acc' ∧
    ls_uploaded st = lines ∧ ls_kept st = kept ∧ up_pending (ls_up st) = [].
Proof.
  revert up s late k acc. induction n as [|n IH]; intros up s late k acc Hn Hinv Ha.
  all: destruct (up_pending up) as [|m rest] eqn:Hpend;
    [do 3 eexists; split; [apply rtc_refl|done]|].
  all: assert (up_pending up ≠ []) as Hne by (by rewrite Hpend).
  all: destruct (deliver_next _ _ _ _ _ _ _ Hinv Hne Ha) as
    (up' & s' & late' & k' & acc' & Hrun & Hinv' & Hlt & Ha').
  all: pose proof (li_bound _ _ _ _ _ _ _ Hinv') as (_ & Hb & _); cbn in Hb.
  - lia.
  - destruct (IH up' s' late' k' acc') as (st & k2 & acc2 & Hrun' & ?); [lia|done..|].
    exists st, k2, acc2. split; [by etrans|done].
Qed.
End progress.


(** ** An abandoned upload *)
Definition request (u : Uploader) (content : string) : UploadRequest :=
  MkUploadRequest (up_taskID u) (up_executionID u) (up_nextSeq u) content.

Lemma accepts_seq nodeID taskID executionID db r seq :
  accepts nodeID taskID executionID db r →
  accepts nodeID taskID executionID (set_tasks (<[taskID := tk_set_log_seq seq r]> (tasks db)) db)
    (tk_set_log_seq seq r).
Proof. intros [? ? ? ? ?]. constructor; cbn; [by rewrite lookup_insert_eq|done..]. Qed.

(** C20: [abandonPending] gives the number of a line whose answer was lost to
    the next one.  From a state in which [n] lines are delivered: the
    controller appends line [a] but its answer is lost and the upload times
    out; the upload of the next line [b] then succeeds, and the controller
    acknowledges it, without [b] being in the log. *)
Theorem abandoned_upload_loses_next_line nodeID taskID executionID path lines s r u a b :
  path ≠ "" → taskID ≠ "" → a ≠ "" → b ≠ "" → (Z.of_nat (length lines) + 2 < 2 ^ 64)%Z →
  server_inv taskID false path lines (length lines) s →
  accepts nodeID taskID executionID (as_db s) r →
  uploader_inv taskID executionID lines (length lines) u →
  let confirmed := (Z.of_nat (length lines) + 1)%Z in
  let u1 := (Upload a [ReceiveFailed false] u).1 in
  let handle m s := UploadTaskLogs_message (Some nodeID) Written true m new_session s in
  (Upload a [ReceiveFailed false] u).2 = Some (Err "context deadline exceeded") ∧
  ∃ s1 s2 session, handle (request u a) s = (s1, Ok (session, confirmed)) ∧
    default [] (as_files s1 !! path) = lines ++ [a] ∧
    handle (request u1 b) s1 = (s2, Ok (session, confirmed)) ∧
    default [] (as_files s2 !! path) = lines ++ [a] ∧
    (Upload b [Received taskID confirmed] u1).2 = Some (Ok ()) ∧
    up_pending (Upload b [Received taskID confirmed] u1).1 = [].
Proof.
  intros Hp Hid Ha Hb Hlen [(row & Hrow & Hlog & Hseq) Hcache Hf] Hacc [[Ht He] Hn Hc Hpd].
  assert (row = r) as -> by (pose proof (ac_row _ _ _ _ _ Hacc); congruence).
  rewrite drop_all in Hpd. cbn in Hpd. intros confirmed u1 handle.
  assert (Hconf : u64 confirmed = confirmed) by (unfold u64, confirmed; rewrite Z.mod_small; lia).
  assert (Hu1 : u1 = MkUploader taskID executionID confirmed (Z.of_nat (length lines)) [] false).
  { unfold u1, Upload. rewrite decide_False by done. unfold upload_push, up_set, flush. cbn.
    rewrite Hpd. cbn. unfold abandonPending, uploader_close, up_set_open, up_set. cbn.
    rewrite Hc, Ht, He. fold confirmed. by rewrite Hconf. }
  split.
  { unfold Upload. rewrite decide_False by done. unfold upload_push, up_set, flush. cbn.
    by rewrite Hpd. }
  pose (cached := <[taskID := confirmed]> (match as_confirmedBy s !! taskID with
    | Some _ => as_confirmedBy s | None => <[taskID := Z.of_nat (length lines)]> (as_confirmedBy s) end)).
  pose (db1 := set_tasks (<[taskID := tk_set_log_seq confirmed r]> (tasks (as_db s))) (as_db s)).
  pose (s1 := MkAgentServer db1 cached (append_chunk path a (as_files s))).
  assert (Hs1 : handle (request u a) s = (s1, Ok (MkUploadSession taskID executionID path, confirmed))).
  { unfold handle, UploadTaskLogs_message, request. cbn [ur_TaskId ur_Seq ur_ExecutionId].
    rewrite Ht, He, Hn. rewrite !decide_False by (done || lia).
    rewrite (accepts_bind _ _ _ _ _ Hacc), Hlog. cbn [coalesce]. unfold applyTaskLogUpload.
    cbn [us_taskID us_logPath ur_Seq ur_Content]. unfold TaskLogConfirmedSeq. rewrite Hrow.
    fold confirmed. destruct (as_confirmedBy s !! taskID) as [z|] eqn:Hz; cbn [or_code result_bind];
      rewrite ?(Hcache z eq_refl), ?Hseq; fold confirmed; rewrite Hconf, !decide_False by lia;
      unfold appendTaskLogRaw, SetTaskLogConfirmedSeq, update_row; rewrite decide_False by naive_solver;
      cbn; rewrite Hrow, decide_True by lia; unfold s1, cached; rewrite ?Hz; done. }
  assert (Hs2 : ∃ s2, handle (request u1 b) s1 =
      (s2, Ok (MkUploadSession taskID executionID path, confirmed)) ∧ as_files s2 = as_files s1).
  { unfold handle, UploadTaskLogs_message, request. rewrite Hu1.
    cbn [ur_TaskId ur_Seq ur_ExecutionId up_taskID up_executionID up_nextSeq].
    rewrite !decide_False by (done || lia).
    rewrite (accepts_bind _ _ _ (as_db s1) _ (accepts_seq _ _ _ _ _ confirmed Hacc)).
    cbn [tk_core tk_set_log_seq]. rewrite Hlog. cbn.
    unfold applyTaskLogUpload. cbn. unfold cached. rewrite lookup_insert_eq, decide_True by lia.
    eexists. by split. }
  destruct Hs2 as (s2 & Hs2 & Hfiles).
  assert (Hlog1 : default [] (as_files s1 !! path) = lines ++ [a]).
  { cbn. unfold append_chunk. rewrite lookup_insert_eq. cbn. by rewrite Hf, take_ge. }
  exists s1, s2, (MkUploadSession taskID executionID path).
  split; [exact Hs1|]. split; [exact Hlog1|]. split; [exact Hs2|]. split; [by rewrite Hfiles|].
  rewrite Hu1. unfold Upload. rewrite decide_False by done.
  unfold upload_push, up_set, flush, sendPendingLog, applyAck. cbn.
  rewrite !decide_False by (naive_solver || lia). unfold dropConfirmed, up_set. cbn.
  destruct (decide (confirmed < confirmed)%Z); [lia|done].
Qed.
End theorems.

(** ** Concrete instances: the log of task [t1], executed as [e1] on [n1] *)
Definition ex_server : AgentServer := MkAgentServer ex4 ∅ ∅.
Definition ex_uploader : Uploader := newTaskLogUploader "t1" "e1".
Definition log0 : LogSystem := MkLogSystem ex_uploader ex_server None None [] [] [].
Definition ex_up1 : Uploader := upload_push "line one" ex_uploader.
Definition ex_msg : UploadRequest := MkUploadRequest "t1" "e1" 1 "line one".
Definition ex_handled : AgentServer :=
  (UploadTaskLogs_message (Some "n1") Written true ex_msg new_session ex_server).1.
Definition log2 : LogSystem :=
  MkLogSystem (up_set_open true ex_up1) ex_server (Some ex_msg) None [] ["line one"] ["line one"].
Definition ex_up4 : Uploader := (sendPendingLog (Received "t1" 1) ex_msg (up_set_open true ex_up1)).1.
Definition log4 : LogSystem := MkLogSystem ex_up4 ex_handled None None [ex_msg] ["line one"] ["line one"].

Lemma log0_start : log_start "t1" "e1" "/log" log0.
Proof.
  constructor; try done.
  exists (row_of ex4 "t1"). split_and!; by_computation.
Qed.

Lemma log2_reachable faults : rtc (log_step (Some "n1") "t1" "e1" faults "/log") log0 log2.
Proof.
  eapply rtc_l; [by eapply (log_upload _ _ _ _ _ _ _ _ _ _ _ _ "line one")|].
  eapply rtc_once. by eapply (log_send _ _ _ _ _ _ _ _ _ _ ex_msg []).
Qed.

Lemma ex_handled_by faults io :
  clean faults io true → io = Written →
  handled (Some "n1") "t1" "e1" faults io true "/log" ex_msg ex_server ex_handled (Some 1%Z).
Proof.
  intros Hc ->. exists new_session, (Ok (MkUploadSession "t1" "e1" "/log", 1%Z)).
  split_and!; [by left|done|by vm_compute|done].
Qed.

Lemma log4_reachable faults : rtc (log_step (Some "n1") "t1" "e1" faults "/log") log0 log4.
Proof.
  etrans; [apply log2_reachable|]. eapply rtc_l.
  - eapply (log_handle _ _ _ _ _ _ _ _ _ _ _ Written true ex_handled (Some 1%Z)).
    by apply ex_handled_by; [right; auto|].
  - apply rtc_once. by eapply (log_exchange _ _ _ _ _ _ _ _ _ _ _ _ (Received "t1" 1)).
Qed.

(** The answer gets lost and the deadline passes: the line is given up,
    although the log has it. *)
Definition log5 : LogSystem :=
  MkLogSystem (abandonPending (up_set_open false ex_up1)) ex_handled None None [ex_msg]
    ["line one"] [].
Example log5_reachable faults :
  rtc (log_step (Some "n1") "t1" "e1" faults "/log") log0 log5 ∧
  log_of "/log" log5 = ["line one"] ∧ lines_given_up log5 = 1%nat ∧ up_nextSeq (ls_up log5) = 1%Z.
Proof.
  split; [|by split_and!; by_computation].
  etrans; [apply log2_reachable|]. eapply rtc_l.
  - eapply (log_handle _ _ _ _ _ _ _ _ _ _ _ Written true ex_handled (Some 1%Z)).
    by apply ex_handled_by; [right; auto|].
  - apply rtc_once. exact (log_abandon (Some "n1") "t1" "e1" faults "/log" _ _ _ _ _ _ _
      (ReceiveFailed false) _ "context deadline exceeded" I eq_refl).
Qed.

Lemma log_delivered_exactly_once_witness :
  log_of "/log" log4 = ["line one"] ∧ log_of "/log" log5 `sublist_of` ["line one"].
Proof.
  destruct (log_delivered_exactly_once _ _ _ _ _ _ log0_start (log4_reachable false))
    as (k & c & _ & _ & _ & _ & _ & _ & _ & _ & Hall).
  split; [by apply Hall|].
  by destruct (log_delivered_exactly_once _ _ _ _ _ _ log0_start (proj1 (log5_reachable false)))
    as (k' & c' & _ & _ & _ & _ & Hsub & _).
Defined.

Lemma log_delivered_at_least_once_witness : ["line one"] `sublist_of` log_of "/log" log4.
Proof.
  destruct (log_delivered_at_least_once _ _ _ _ _ _ log0_start (log4_reachable true) eq_refl)
    as (k & _ & _ & Hall).
  by apply Hall.
Defined.

Definition ex_row : TaskRow := row_of ex4 "t1".
Lemma ex_accepts : accepts "n1" "t1" "e1" ex4 ex_row.
Proof. constructor; [by vm_compute|by vm_compute|by vm_compute|by vm_compute|left; by vm_compute]. Qed.


Lemma abandoned_upload_loses_next_line_witness :
  ∃ s2, default [] (as_files s2 !! "/log") = ["first"] ∧
    (Upload "second" [Received "t1" 1] (Upload "first" [ReceiveFailed false] ex_uploader).1).2 =
    Some (Ok ()).
Proof.
  destruct (abandoned_upload_loses_next_line "n1" "t1" "e1" "/log" [] ex_server ex_row ex_uploader
    "first" "second") as (_ & s1 & s2 & session & _ & _ & _ & Hlog & Hok & _);
    [done|done|done|done|done| |exact ex_accepts|done|].
  - constructor; [|done|done]. exists ex_row. split_and!; by_computation.
  - by exists s2.
Defined.
