(* ===== verification/Paths.v ===== *)
(** * Paths of the repository: src/internal/core/repo/encrypted_file.go,
    data_include.go and the path of a bundle extra (bundle.go)

    The functions of path/filepath the code calls, on Unix ([path.Clean] is
    the same function there), and the lexical rules the controller keeps
    repository paths under: a normalized path stays below the root, an
    encrypted file [x.enc] shares no runtime path with another file. *)
From Stdlib Require Import Ascii.
From S2P Require Export GoStrings.

(** ** path/filepath *)
Definition sep : ascii := "/"%char.
Definition IsAbs (path : string) : bool := HasPrefix path "/".

(** One element of the path, on the elements kept so far, last first. *)
Definition clean_step (rooted : bool) (kept : list string) (element : string) : list string :=
  if decide (element = "" ∨ element = ".") then kept
  else if decide (element = "..") then
    match kept with
    | [] => if rooted then [] else [".."]
    | last :: rest => if decide (last = "..") then ".." :: kept else rest
    end
  else element :: kept.

Definition clean_elements (path : string) : list string :=
  reverse (foldl (clean_step (IsAbs path)) [] (Split path sep)).

Definition Clean (path : string) : string :=
  if decide (path = "") then "."
  else
    let cleaned := Join (clean_elements path) "/" in
    if IsAbs path then "/" +:+ cleaned else if decide (cleaned = "") then "." else cleaned.

Definition Base (path : string) : string :=
  if decide (path = "") then "."
  else match last (filter (λ e, e ≠ "") (Split path sep)) with
       | Some element => element
       | None => "/"
       end.

Definition Dir (path : string) : string :=
  match LastIndex path "/" with
  | Some i => Clean (take_bytes (S i) path)
  | None => "."
  end.

Definition JoinPath (elements : list string) : string :=
  match filter (λ e, e ≠ "") elements with
  | [] => ""
  | elements => Clean (Join elements "/")
  end.

(** [strings.ReplaceAll(s, old, new)] of one byte by another. *)
Definition replace_byte (old new : ascii) (s : string) : string :=
  map_bytes (λ c, if decide (c = old) then new else c) s.

(** ** encrypted_file.go *)
Definition encryptedFileSuffix : string := ".enc".

Inductive RepoError : Type :=
| ErrRepoPathNotFound
| ErrRepoPathInvalid
| ErrRepoPathNotDirectory
| ErrRepoPathNotFile
| ErrRepoPathProtected
| ErrRepoPathAlreadyExists
| ErrEncryptedFileConflict (path other : string)
| IOError (message : string).
#[export] Instance RepoError_eq_dec : EqDecision RepoError.
Proof. solve_decision. Defined.

Definition IsEncryptedFilePath (path : string) : bool := HasSuffix path encryptedFileSuffix.
Definition RuntimeFilePath (path : string) : string := TrimSuffix path encryptedFileSuffix.
Definition IsValidEncryptedFilePath (path : string) : bool :=
  IsEncryptedFilePath path && bool_decide (Base path ≠ encryptedFileSuffix).

(** The loop over the parents; each [Dir] is shorter, so the length of the
    path is enough fuel. *)
Fixpoint encrypted_parent (fuel : nat) (parent : string) : bool :=
  match fuel with
  | O => false
  | S fuel =>
      if decide (parent ≠ "." ∧ parent ≠ "/") then
        IsEncryptedFilePath (Base parent) || encrypted_parent fuel (Dir parent)
      else false
  end.
Definition HasEncryptedParent (path : string) : bool :=
  encrypted_parent (S (String.length path)) (Dir path).

Definition escapes (path : string) : bool :=
  bool_decide (path = "..") || HasPrefix path "../".

Definition NormalizePath (path : string) : result RepoError string :=
  let path := Clean (TrimSpace path) in
  if decide (path = ".") then Ok ""
  else if IsAbs path || escapes path then Err ErrRepoPathInvalid
  else Ok path.

Definition pathIsSameOrChild (path parent : string) : bool :=
  bool_decide (path = parent) || HasPrefix path (parent +:+ "/").

Definition invalid_encrypted (path : string) : bool :=
  HasEncryptedParent path || IsEncryptedFilePath path && negb (IsValidEncryptedFilePath path).

(** The first loop: the cleaned paths, or the first one that is invalid. *)
Definition clean_path (cleanedPaths : list string) (path : string)
    : result RepoError (list string) :=
  let cleaned := Clean path in
  if decide (cleaned = ".") then Ok cleanedPaths
  else if invalid_encrypted cleaned then Err ErrRepoPathInvalid
  else Ok (cleanedPaths ++ [cleaned]).

(** The runtime path of [encryptedPath] meets [actualPath]. *)
Definition collides (encryptedPath actualPath : string) : bool :=
  let runtimePath := RuntimeFilePath encryptedPath in
  bool_decide (actualPath ≠ encryptedPath) &&
  (pathIsSameOrChild actualPath runtimePath || pathIsSameOrChild runtimePath actualPath).

Definition check_encrypted (cleanedPaths : list string) (_ : ()) (encryptedPath : string)
    : result RepoError () :=
  if IsEncryptedFilePath encryptedPath then
    for_each (λ _ actualPath, if collides encryptedPath actualPath
                              then Err (ErrEncryptedFileConflict (RuntimeFilePath encryptedPath) actualPath)
                              else Ok ()) () cleanedPaths
  else Ok ().

Definition ValidateEncryptedFilePaths (paths : list string) : result RepoError () :=
  result_bind (for_each clean_path [] paths) (λ cleanedPaths,
  for_each (check_encrypted cleanedPaths) () cleanedPaths).

(** ** data_include.go *)
Inductive DataIncludeKind : Type :=
| DataIncludeKindServicePath
| DataIncludeKindDockerVolume.
#[export] Instance DataIncludeKind_eq_dec : EqDecision DataIncludeKind.
Proof. solve_decision. Defined.

Definition ClassifyDataInclude (include : string) : result string (DataIncludeKind * string) :=
  let trimmed := TrimSpace include in
  if decide (trimmed = "") then Err "include must not be empty"
  else if IsAbs trimmed then Err "include must not be an absolute path"
  else
    let clean := Clean trimmed in
    if decide (clean = ".") then
      if decide (trimmed = "." ∨ trimmed = "./") then Err "include must not target the service root"
      else Ok (DataIncludeKindDockerVolume, trimmed)
    else if escapes clean then Err "include must stay within the service root"
    else if HasPrefix trimmed "./" || Contains trimmed "/" then
      if IsEncryptedFilePath clean && negb (IsValidEncryptedFilePath clean)
      then Err "include must name a file before .enc"
      else Ok (DataIncludeKindServicePath, clean)
    else Ok (DataIncludeKindDockerVolume, trimmed).

(** ** bundle.go *)
Definition normalizeBundleExtraPath (name : string) : result string string :=
  let cleanName := Clean (replace_byte "\"%char sep (TrimSpace name)) in
  if decide (cleanName = "" ∨ cleanName = ".") then Err "bundle extra path must not be empty"
  else if HasPrefix cleanName "/" || escapes cleanName then Err "bundle extra path escapes bundle root"
  else Ok cleanName.

(** ** Split and Join *)
Definition no_sep (c : ascii) (s : string) : Prop := all_bytes (λ d, bool_decide (d ≠ c)) s = true.

Lemma no_sep_app c s t : no_sep c (s +:+ t) ↔ no_sep c s ∧ no_sep c t.
Proof.
  unfold no_sep. induction s as [|d s IH].
  - change ("" +:+ t) with t. simpl. tauto.
  - change (String d s +:+ t) with (String d (s +:+ t)). simpl. rewrite !andb_true_iff. tauto.
Qed.

Lemma Split_no_sep s c : Forall (no_sep c) (Split s c).
Proof.
  induction s as [|d s IH]; simpl; [by repeat constructor|].
  case_decide; [by constructor|]. pose proof (Split_not_nil s c).
  destruct (Split s c) as [|w ws]; [done|].
  inversion IH; subst. constructor; [|done]. unfold no_sep in *. simpl.
  by rewrite bool_decide_eq_true_2.
Qed.

Lemma Split_word w c : no_sep c w → Split w c = [w].
Proof.
  unfold no_sep. induction w as [|d w IH]; simpl; [done|].
  rewrite andb_true_iff, bool_decide_eq_true. intros [? ?].
  rewrite decide_False by done. by rewrite IH.
Qed.

Lemma Split_app w s c : no_sep c w → Split (w +:+ String c s) c = w :: Split s c.
Proof.
  unfold no_sep. induction w as [|d w IH]; simpl.
  - intros _. change ("" +:+ String c s) with (String c s). simpl. by rewrite decide_True.
  - rewrite andb_true_iff, bool_decide_eq_true. intros [? ?].
    change (String d w +:+ String c s) with (String d (w +:+ String c s)). simpl.
    rewrite decide_False by done. by rewrite IH.
Qed.

(** [strings.Split(strings.Join(ws, sep), sep)] is [ws]. *)
Lemma Split_Join ws c :
  ws ≠ [] → Forall (no_sep c) ws → Split (Join ws (String c "")) c = ws.
Proof.
  induction ws as [|w ws IH]; [done|]. intros _ Hf. inversion Hf; subst.
  destruct ws as [|w' ws]; [by apply Split_word|].
  rewrite Join_cons by done.
  change (String c "" +:+ Join (w' :: ws) (String c "")) with (String c (Join (w' :: ws) (String c ""))).
  rewrite Split_app by done. f_equal. by apply IH.
Qed.

(** ** What [Clean] makes of a path *)
(** An element that names an entry of a directory. *)
Definition normal (e : string) : Prop :=
  e ≠ "" ∧ e ≠ "." ∧ e ≠ ".." ∧ no_sep sep e.
#[export] Instance normal_dec e : Decision (normal e).
Proof. unfold normal, no_sep. apply _. Defined.

(** A relative path below its root. *)
Definition below_root (path : string) : Prop :=
  ∃ elements, elements ≠ [] ∧ Forall normal elements ∧ path = Join elements "/".

(** The elements kept: [..]s that climb above the start, then names. *)
Lemma clean_fold rooted path kept :
  (∃ n names, kept = reverse names ++ replicate n ".." ∧ Forall normal names ∧ (rooted = true → n = 0)) →
  Forall (no_sep sep) path →
  ∃ n names, foldl (clean_step rooted) kept path = reverse names ++ replicate n ".." ∧
    Forall normal names ∧ (rooted = true → n = 0).
Proof.
  revert kept. induction path as [|e path IH]; intros kept Hk Hf; [done|].
  inversion Hf as [|? ? He Hf']; subst. cbn [foldl]. apply IH; [|done]. clear IH.
  destruct Hk as (n & names & -> & Hn & Hr). unfold clean_step.
  destruct (decide (e = "" ∨ e = ".")); [by exists n, names|].
  destruct (decide (e = "..")) as [->|].
  - destruct names as [|a names _] using rev_ind.
    + rewrite reverse_nil. cbn. destruct n as [|n]; cbn.
      * destruct rooted; [by exists 0, []|]. exists 1, []. by split.
      * rewrite decide_True by done. exists (S (S n)), []. split_and!; [done..|].
        intros Htrue. by specialize (Hr Htrue).
    + apply Forall_app in Hn as [Hn Ha]. rewrite reverse_snoc. cbn.
      inversion Ha as [|? ? (? & ? & ? & ?) _]; subst.
      rewrite decide_False by done. exists n, names. by rewrite reverse_cons || done.
  - exists n, (names ++ [e]). rewrite reverse_snoc. split_and!; [done| |done].
    apply Forall_app. split; [done|]. constructor; [|done]. unfold normal. tauto.
Qed.

Lemma clean_elements_shape path :
  ∃ n names, clean_elements path = replicate n ".." ++ names ∧ Forall normal names ∧
    (IsAbs path = true → n = 0).
Proof.
  destruct (clean_fold (IsAbs path) (Split path sep) []) as (n & names & Hf & Hn & Hr).
  - by exists 0, [].
  - apply Split_no_sep.
  - exists n, names. unfold clean_elements. rewrite Hf, reverse_app, reverse_involutive.
    split; [|done]. f_equal. clear. induction n as [|n IH]; [done|].
    by rewrite replicate_S_end, reverse_snoc, IH, <-replicate_S_end.
Qed.

Lemma normal_no_sep names : Forall normal names → Forall (no_sep sep) names.
Proof. intros Hf. eapply Forall_impl; [exact Hf|]. by intros e (_ & _ & _ & ?). Qed.

Lemma Split_normal names : names ≠ [] → Forall normal names → Split (Join names "/") sep = names.
Proof. intros ? ?. apply Split_Join; [done|by apply normal_no_sep]. Qed.

Lemma Join_normal_not names :
  names ≠ [] → Forall normal names →
  Join names "/" ≠ "" ∧ Join names "/" ≠ "." ∧ IsAbs (Join names "/") = false ∧
  escapes (Join names "/") = false.
Proof.
  intros Hne Hf. pose proof (Split_normal names Hne Hf) as Hs.
  assert (Hbad : ∀ e l, Split (Join names "/") sep = e :: l → e ≠ "" ∧ e ≠ "." ∧ e ≠ "..").
  { intros e l Heq. rewrite Heq in Hs. subst names.
    apply Forall_cons in Hf as [(? & ? & ? & ?) _]. by split_and!. }
  split_and!.
  - intros Heq. rewrite Heq in Hbad. destruct (Hbad "" [] eq_refl) as [? _]. done.
  - intros Heq. rewrite Heq in Hbad. destruct (Hbad "." [] eq_refl) as (_ & ? & _). done.
  - unfold IsAbs. destruct (HasPrefix _ "/") eqn:Hp; [|done]. apply HasPrefix_spec in Hp as [u Hu].
    rewrite Hu in Hbad. destruct (Hbad "" (Split u sep) eq_refl) as [? _]. done.
  - unfold escapes. apply orb_false_iff. split.
    + apply bool_decide_eq_false_2. intros Heq. rewrite Heq in Hbad.
      destruct (Hbad ".." [] eq_refl) as (_ & _ & ?). done.
    + destruct (HasPrefix _ "../") eqn:Hp; [|done]. apply HasPrefix_spec in Hp as [u Hu].
      rewrite Hu in Hbad. destruct (Hbad ".." (Split u sep) eq_refl) as (_ & _ & ?). done.
Qed.

Lemma clean_normal names kept :
  Forall normal names → foldl (clean_step false) kept names = reverse names ++ kept.
Proof.
  intros Hf. revert kept. induction Hf as [|e names (? & ? & ? & ?) _ IH]; intros kept; [done|].
  cbn [foldl]. unfold clean_step at 2. rewrite decide_False by naive_solver.
  rewrite decide_False by done. rewrite IH, reverse_cons, <-(assoc (++)). done.
Qed.

(** A path below the root is its own cleaned form. *)
Lemma Clean_below_root names :
  names ≠ [] → Forall normal names → Clean (Join names "/") = Join names "/".
Proof.
  intros Hne Hf. destruct (Join_normal_not names Hne Hf) as (H1 & H2 & H3 & _).
  unfold Clean. rewrite decide_False by done. unfold clean_elements. rewrite H3, Split_normal by done.
  rewrite clean_normal by done. rewrite (right_id_L [] (++)), reverse_involutive.
  by rewrite decide_False.
Qed.

(** A cleaned path that is relative, not [.] and does not climb is below
    the root. *)
Lemma Clean_safe path :
  IsAbs (Clean path) = false → Clean path ≠ "." → escapes (Clean path) = false →
  below_root (Clean path).
Proof.
  unfold Clean. case_decide; [done|].
  destruct (clean_elements_shape path) as (n & names & Hc & Hf & Hr). rewrite Hc.
  destruct (IsAbs path) eqn:Ha.
  { intros Habs. exfalso. unfold IsAbs in Habs.
    assert (HasPrefix ("/" +:+ Join (replicate n ".." ++ names) "/") "/" = true) as Ht;
      [|congruence]. apply HasPrefix_spec. by eexists. }
  case_decide as He; [done|]. intros _ _ Hesc. destruct n as [|n].
  - exists names. split_and!; [|done|done]. by intros ->.
  - exfalso. unfold escapes in Hesc. apply orb_false_iff in Hesc as [H1 H2].
    apply bool_decide_eq_false_1 in H1. cbn [replicate app] in *.
    destruct (replicate n ".." ++ names) as [|w ws] eqn:Hw; [done|].
    rewrite Join_cons in H2 by done.
    assert (HasPrefix (".." +:+ "/" +:+ Join (w :: ws) "/") "../" = true) as Ht; [|congruence].
    apply HasPrefix_spec. by eexists.
Qed.

Lemma below_root_clean path : below_root path → Clean path = path ∧ path ≠ "" ∧ path ≠ "." ∧
  IsAbs path = false ∧ escapes path = false.
Proof.
  intros (names & Hne & Hf & ->). split; [by apply Clean_below_root|]. by apply Join_normal_not.
Qed.

Lemma Clean_relative path : IsAbs path = false → IsAbs (Clean path) = false.
Proof.
  intros Ha. unfold Clean. case_decide; [done|]. rewrite Ha. case_decide as He; [done|].
  destruct (clean_elements_shape path) as (n & names & Hc & Hf & _). rewrite Hc in *.
  assert (Hs : Forall (λ e, e ≠ "" ∧ no_sep sep e) (replicate n ".." ++ names)).
  { apply Forall_app. split; [by apply Forall_replicate|].
    eapply Forall_impl; [exact Hf|]. by intros e (? & _ & _ & ?). }
  destruct (replicate n ".." ++ names) as [|e es] eqn:Hl; [done|].
  unfold IsAbs. destruct (HasPrefix _ "/") eqn:Hp; [|done]. apply HasPrefix_spec in Hp as [u Hu].
  assert (Hsp : Split (Join (e :: es) "/") sep = e :: es).
  { apply Split_Join; [done|]. eapply Forall_impl; [exact Hs|]. by intros ? [_ ?]. }
  rewrite Hu in Hsp. change (Split ("/" +:+ u) sep) with ("" :: Split u sep) in Hsp.
  injection Hsp as <- _. by apply Forall_cons in Hs as [[? _] _].
Qed.

(** ** Normalized paths *)
Lemma NormalizePath_Ok path q :
  NormalizePath path = Ok q ↔
  (Clean (TrimSpace path) = "." ∧ q = "") ∨ (q = Clean (TrimSpace path) ∧ below_root q).
Proof.
  unfold NormalizePath. case_decide as Hd.
  { split; [intros [= <-]; by left|]. intros [[_ ->]|[-> Hb]]; [done|].
    by apply below_root_clean in Hb as (_ & _ & ? & _). }
  split.
  - destruct (IsAbs _) eqn:Ha, (escapes _) eqn:He; cbn; intros Hq; simplify_eq/=.
    right. split; [done|]. by apply Clean_safe.
  - intros [[? _]|[-> Hb]]; [done|]. apply below_root_clean in Hb as (_ & _ & _ & -> & ->). done.
Qed.

(** ** Parents *)
Lemma LastIndex_no_sep w : no_sep sep w → LastIndex w "/" = None.
Proof.
  unfold no_sep. induction w as [|c w IH]; simpl; [done|].
  rewrite andb_true_iff, bool_decide_eq_true. intros [Hc Hw]. rewrite (IH Hw). simpl.
  rewrite bool_decide_eq_false_2 by done. done.
Qed.

Lemma LastIndex_last p w : no_sep sep w → LastIndex (p +:+ String sep w) "/" = Some (String.length p).
Proof.
  intros Hw. induction p as [|c p IH].
  - change ("" +:+ String sep w) with (String sep w). simpl.
    rewrite LastIndex_no_sep by done. by destruct w.
  - change (String c p +:+ String sep w) with (String c (p +:+ String sep w)). simpl. by rewrite IH.
Qed.

Lemma Join_snoc names e : names ≠ [] → Join (names ++ [e]) "/" = Join names "/" +:+ String sep e.
Proof.
  induction names as [|n names IH]; [done|]. intros _. cbn [app].
  rewrite Join_cons by (by destruct names). destruct names as [|n' names]; [done|].
  rewrite (Join_cons n) by done. rewrite IH by done. by rewrite !GoStrings.app_assoc.
Qed.

Lemma Dir_single e : no_sep sep e → Dir e = ".".
Proof. intros He. unfold Dir. by rewrite LastIndex_no_sep. Qed.

Lemma Dir_below names e :
  names ≠ [] → Forall normal names → no_sep sep e → Dir (Join (names ++ [e]) "/") = Join names "/".
Proof.
  intros Hne Hf He. unfold Dir. rewrite Join_snoc, LastIndex_last by done.
  assert (Htake : take_bytes (S (String.length (Join names "/"))) (Join names "/" +:+ String sep e) =
    Join names "/" +:+ "/").
  { replace (Join names "/" +:+ String sep e) with ((Join names "/" +:+ "/") +:+ e)
      by (by rewrite GoStrings.app_assoc).
    replace (S (String.length (Join names "/"))) with (String.length (Join names "/" +:+ "/"))
      by (rewrite length_app_bytes; cbn; lia).
    apply take_bytes_app. }
  rewrite Htake. destruct (Join_normal_not names Hne Hf) as (H1 & H2 & H3 & _).
  assert (Habs : IsAbs (Join names "/" +:+ "/") = false).
  { unfold IsAbs in *. destruct (Join names "/") as [|c s]; [done|]. by destruct s. }
  unfold Clean. rewrite decide_False by (by destruct (Join names "/")). unfold clean_elements.
  rewrite Habs. replace (Join names "/" +:+ "/") with (Join (names ++ [""]) "/") by (by rewrite Join_snoc).
  rewrite Split_Join; [|by destruct names|].
  - rewrite foldl_app, (clean_normal names) by done. cbn [foldl]. unfold clean_step.
    rewrite (decide_True (P := _ ∨ _)) by auto. rewrite (right_id_L [] (++)), reverse_involutive.
    by rewrite decide_False.
  - apply Forall_app. split; [by apply normal_no_sep|]. by constructor.
Qed.

Lemma Base_below names e : Forall normal (names ++ [e]) → Base (Join (names ++ [e]) "/") = e.
Proof.
  intros Hf. assert (Hne : names ++ [e] ≠ []) by (by destruct names).
  destruct (Join_normal_not _ Hne Hf) as (H1 & _). unfold Base.
  rewrite decide_False by done. rewrite Split_normal by done.
  assert (filter (λ s, s ≠ "") (names ++ [e]) = names ++ [e]) as ->.
  { clear -Hf. induction Hf as [|s l [Hs _] _ IH]; [done|]. by rewrite filter_cons_True, IH. }
  by rewrite last_snoc.
Qed.

(** Among the parents of a path the loop finds an encrypted one exactly when
    an element before the last is one. *)
Lemma encrypted_parent_spec fuel names :
  names ≠ [] → Forall normal names → length names ≤ fuel →
  encrypted_parent fuel (Join names "/") = existsb IsEncryptedFilePath names.
Proof.
  revert names. induction fuel as [|fuel IH]; intros names Hne Hf Hl; [destruct names; [done|cbn in Hl; lia]|].
  destruct names as [|e names _] using rev_ind; [done|]. clear Hne.
  destruct (Join_normal_not (names ++ [e])) as (H1 & H2 & H3 & _); [by destruct names|done|].
  cbn [encrypted_parent]. rewrite decide_True.
  2: { split; [done|]. intros Heq. rewrite Heq in H3. done. }
  rewrite Base_below by done. rewrite existsb_app. cbn [existsb]. rewrite orb_false_r, orb_comm.
  f_equal. apply Forall_app in Hf as [Hf (? & ? & ? & ?)%Forall_singleton].
  destruct names as [|n names].
  - cbn [app existsb]. change (Join [e] "/") with e. rewrite Dir_single by done.
    destruct fuel; [done|]. cbn. by rewrite decide_False by tauto.
  - rewrite Dir_below by done. apply IH; [done..|]. rewrite length_app in Hl. cbn in Hl |- *. lia.
Qed.

Lemma length_Join names : Forall normal names → length names ≤ S (String.length (Join names "/")).
Proof.
  intros Hf. induction Hf as [|e names (He & _) Hf IH]; [cbn; lia|].
  destruct names as [|n names]; [cbn; lia|]. rewrite Join_cons by done.
  rewrite !length_app_bytes. cbn [length] in *. change (String.length "/") with 1. lia.
Qed.

Lemma HasEncryptedParent_spec names e :
  Forall normal (names ++ [e]) →
  HasEncryptedParent (Join (names ++ [e]) "/") = existsb IsEncryptedFilePath names.
Proof.
  intros Hf. pose proof Hf as [Hn (? & ? & ? & ?)%Forall_singleton]%Forall_app.
  unfold HasEncryptedParent. destruct names as [|n names].
  - cbn [app]. rewrite Dir_single by done. cbn. by rewrite decide_False by tauto.
  - rewrite Dir_below by done. apply encrypted_parent_spec; [done..|].
    pose proof (length_Join _ Hf). rewrite length_app in H3. cbn in *. lia.
Qed.

(** ** Encrypted files *)
Lemma clean_paths_Ok paths acc cleaned :
  for_each clean_path acc paths = Ok cleaned ↔
  Forall (λ p, Clean p ≠ "." → invalid_encrypted (Clean p) = false) paths ∧
  cleaned = acc ++ filter (λ p, p ≠ ".") (Clean <$> paths).
Proof.
  revert acc. induction paths as [|p paths IH]; intros acc; cbn [for_each].
  - cbn. rewrite (right_id_L [] (++)). split; [intros [= ->]; by split|by intros [_ ->]].
  - rewrite fmap_cons, Forall_cons. unfold clean_path at 1. case_decide as Hd; cbn [result_bind].
    + rewrite IH, filter_cons_False by tauto. naive_solver.
    + rewrite filter_cons_True by done. destruct (invalid_encrypted (Clean p)) eqn:Hi; cbn.
      * split; [done|]. intros [[Hf _] _]. specialize (Hf Hd). congruence.
      * rewrite IH, <-(assoc (++)). cbn [app]. naive_solver.
Qed.

(** No file is named like an encrypted one without a name or below one, and
    no two files share a runtime path. *)
Lemma ValidateEncryptedFilePaths_Ok paths :
  ValidateEncryptedFilePaths paths = Ok () ↔
  let cleaned := filter (λ p, p ≠ ".") (Clean <$> paths) in
  Forall (λ p, invalid_encrypted p = false) cleaned ∧
  ∀ e a, e ∈ cleaned → a ∈ cleaned → IsEncryptedFilePath e = true → collides e a = false.
Proof.
  unfold ValidateEncryptedFilePaths. cbv zeta. rewrite result_bind_Ok.
  assert (Hinv : Forall (λ p, invalid_encrypted p = false) (filter (λ p, p ≠ ".") (Clean <$> paths)) ↔
    Forall (λ p, Clean p ≠ "." → invalid_encrypted (Clean p) = false) paths).
  { rewrite !Forall_forall. split.
    - intros Hf p Hp Hne. apply Hf. apply list_elem_of_filter. split; [done|]. by apply list_elem_of_fmap_2.
    - intros Hf q [Hq (p & -> & Hp)%list_elem_of_fmap]%list_elem_of_filter. by apply Hf. }
  rewrite Hinv. setoid_rewrite clean_paths_Ok. cbn [app].
  set (cleaned := filter _ _).
  assert (Hchk : for_each (check_encrypted cleaned) () cleaned = Ok () ↔
    ∀ e a, e ∈ cleaned → a ∈ cleaned → IsEncryptedFilePath e = true → collides e a = false).
  { rewrite for_each_unit, Forall_forall. unfold check_encrypted. split.
    - intros Hf e a He Ha Henc. specialize (Hf e He). cbn beta in Hf. rewrite Henc in Hf.
      apply for_each_unit in Hf. rewrite Forall_forall in Hf. specialize (Hf a Ha).
      by destruct (collides e a).
    - intros Hf e He. destruct (IsEncryptedFilePath e) eqn:Henc; [|done].
      apply for_each_unit, Forall_forall. intros a Ha. by rewrite (Hf e a He Ha Henc). }
  rewrite <-Hchk. naive_solver.
Qed.

(** [filepath.Rel(base, target)] of clean paths of the same kind: the common
    leading elements are dropped, the rest of the base becomes [..]. *)
Fixpoint drop_common (base target : list string) : list string * list string :=
  match base, target with
  | b :: base', t :: target' => if decide (b = t) then drop_common base' target' else (base, target)
  | _, _ => (base, target)
  end.
Definition Rel (base target : string) : result string string :=
  if decide (IsAbs base ≠ IsAbs target) then Err "can't make relative to"
  else
    let '(base, target) := drop_common (clean_elements base) (clean_elements target) in
    if decide (".." ∈ base) then Err "can't make relative to"
    else match replicate (length base) ".." ++ target with
         | [] => Ok "."
         | elements => Ok (Join elements "/")
         end.
