(* ===== verification/ServiceMeta.v ===== *)
(** * Service metadata: the data of src/internal/core/repo/services.go

    The structs a [composia-meta.yaml] is decoded into, with the zero value of
    an absent field, a pointer being an [option]; the accessors of the
    metadata; target nodes, project names and backup data names.  Decoding
    YAML is not modelled. *)
From Stdlib Require Import Ascii.
From S2P Require Export Paths.

Definition MetaFileName : string := "composia-meta.yaml".

Record InfraCaddyConfig := MkInfraCaddyConfig {
  ic_ComposeService : string;
  ic_ConfigDir : string;
}.
Record InfraRusticConfig := MkInfraRusticConfig {
  ir_ComposeService : string;
  ir_Profile : string;
  ir_DataProtectDir : string;
  ir_InitArgs : list string;
}.
(** [Config *InfraConfigConfig], an empty struct, is whether it is present. *)
Record InfraConfig := MkInfraConfig {
  inf_Caddy : option InfraCaddyConfig;
  inf_Rustic : option InfraRusticConfig;
  inf_Config : bool;
}.

Record CaddyConfig := MkCaddyConfig {
  cad_Enabled : option bool;
  cad_Source : string;
}.
Record DNSEntry := MkDNSEntry {
  dns_Provider : string;
  dns_Hostname : string;
  dns_RecordType : string;
  dns_Value : string;
  dns_Proxied : option bool;
  dns_TTL : option Z;
  dns_Comment : string;
}.
(** [DNSConfig]: the fields, and the entries when the YAML was a sequence. *)
Record DNSConfig := MkDNSConfig {
  dns_self : DNSEntry;
  dns_entries : option (list DNSEntry);
}.
Record CloudflareTunnelOriginRequest := MkCloudflareTunnelOriginRequest {
  cfo_NoTLSVerify : option bool;
  cfo_HTTPHostHeader : string;
  cfo_OriginServerName : string;
  cfo_ConnectTimeout : option Z;
  cfo_TLSTimeout : option Z;
}.
Record CloudflareTunnelConfig := MkCloudflareTunnelConfig {
  cft_Tunnel : string;
  cft_Hostname : string;
  cft_Service : string;
  cft_Path : string;
  cft_OriginRequest : option CloudflareTunnelOriginRequest;
}.
Record NetworkConfig := MkNetworkConfig {
  net_Caddy : option CaddyConfig;
  net_DNS : option DNSConfig;
  net_CloudflareTunnel : option CloudflareTunnelConfig;
}.

Record UpdateBackupDataItem := MkUpdateBackupDataItem {
  ubd_Name : string;
  ubd_Enabled : option bool;
}.
Record ImageUpdateCurrentEnv := MkImageUpdateCurrentEnv {
  cenv_File : string;
  cenv_Key : string;
}.
Record ImageUpdateCurrentYAML := MkImageUpdateCurrentYAML {
  cyaml_File : string;
  cyaml_Path : string;
}.
Record ImageUpdateCurrent := MkImageUpdateCurrent {
  cur_Tag : string;
  cur_Env : option ImageUpdateCurrentEnv;
  cur_YAML : option ImageUpdateCurrentYAML;
}.
Record ImageUpdateDiscoverySource := MkImageUpdateDiscoverySource {
  src_Type : string;
  src_Repo : string;
  src_RepoURL : string;
  src_Project : string;
  src_APIURL : string;
  src_TagPrefix : string;
}.
Record ImageUpdateDiscovery := MkImageUpdateDiscovery {
  dis_Ref : string;
  dis_Sources : list ImageUpdateDiscoverySource;
  dis_Combine : string;
  dis_IncludePrerelease : option bool;
}.
Record ImageUpdateFilter := MkImageUpdateFilter {
  fil_Type : string;
  fil_Format : string;
  fil_Pattern : string;
  fil_Order : string;
  fil_Allow : list string;
}.
Record ImageUpdateConfig := MkImageUpdateConfig {
  img_Image : string;
  img_AutoApply : option bool;
  img_CheckSchedule : string;
  img_BackupBeforeUpdate : option bool;
  img_DigestPin : option bool;
  img_Current : ImageUpdateCurrent;
  img_Discovery : ImageUpdateDiscovery;
  img_Filter : option ImageUpdateFilter;
}.
(** A nil map is [None]: the validation tells it from an empty one. *)
Record UpdateConfig := MkUpdateConfig {
  upd_Enabled : option bool;
  upd_AutoApply : option bool;
  upd_CheckSchedule : string;
  upd_BackupBeforeUpdate : option bool;
  upd_BackupData : list UpdateBackupDataItem;
  upd_DigestPin : option bool;
  upd_DiscoverySources : option (gmap string ImageUpdateDiscovery);
  upd_Images : gmap string ImageUpdateConfig;
}.

Record DataActionConfig := MkDataActionConfig {
  act_Strategy : string;
  act_Service : string;
  act_User : string;
  act_Include : list string;
}.
Record DataProtectItem := MkDataProtectItem {
  dp_Name : string;
  dp_Backup : option DataActionConfig;
  dp_Restore : option DataActionConfig;
}.
Record BackupItem := MkBackupItem {
  bi_Name : string;
  bi_Provider : string;
  bi_Enabled : option bool;
  bi_Schedule : string;
}.
Record MigrateItem := MkMigrateItem {
  mi_Name : string;
  mi_Enabled : option bool;
}.

(** [DataProtect], [Backup] and [Migrate] are structs with one field [Data]. *)
Record Meta := MkMeta {
  sm_Name : string;
  sm_ProjectName : string;
  sm_ComposeFiles : list string;
  sm_Enabled : option bool;
  sm_Nodes : list string;
  sm_Infra : option InfraConfig;
  sm_Network : option NetworkConfig;
  sm_Update : option UpdateConfig;
  sm_DataProtect : option (list DataProtectItem);
  sm_Backup : option (list BackupItem);
  sm_Migrate : option (list MigrateItem);
  sm_AutoDeploy : option bool;
}.
Definition sm_set_compose (files : list string) (m : Meta) : Meta :=
  MkMeta (sm_Name m) (sm_ProjectName m) files (sm_Enabled m) (sm_Nodes m) (sm_Infra m)
    (sm_Network m) (sm_Update m) (sm_DataProtect m) (sm_Backup m) (sm_Migrate m) (sm_AutoDeploy m).
Definition sm_set_nodes (nodes : list string) (m : Meta) : Meta :=
  MkMeta (sm_Name m) (sm_ProjectName m) (sm_ComposeFiles m) (sm_Enabled m) nodes (sm_Infra m)
    (sm_Network m) (sm_Update m) (sm_DataProtect m) (sm_Backup m) (sm_Migrate m) (sm_AutoDeploy m).

Record Service := MkService {
  svc_Name : string;
  svc_Directory : string;
  svc_MetaPath : string;
  svc_TargetNodes : list string;
  svc_Enabled : bool;
  svc_Meta : Meta;
}.

(** ** Accessors *)
Definition boolValue (value : option bool) (fallback : bool) : bool := default fallback value.
Definition IsInfra (meta : Meta) : bool := bool_decide (sm_Infra meta ≠ None).
Definition AutoDeployEnabled (meta : Meta) : bool := default false (sm_AutoDeploy meta).
Definition IsConfigInfra (meta : Meta) : bool :=
  match sm_Infra meta with Some infra => inf_Config infra | None => false end.

Definition Entries (dns : option DNSConfig) : list DNSEntry :=
  match dns with
  | None => []
  | Some dns => match dns_entries dns with
                | Some entries => entries
                | None => [dns_self dns]
                end
  end.

Definition infra_caddy (meta : Meta) : option InfraCaddyConfig := sm_Infra meta ≫= inf_Caddy.
Definition infra_rustic (meta : Meta) : option InfraRusticConfig := sm_Infra meta ≫= inf_Rustic.

(** A trimmed setting, or its default. *)
Definition trimmed_or (value : option string) (fallback : string) : string :=
  match value with
  | Some value => if decide (TrimSpace value ≠ "") then TrimSpace value else fallback
  | None => fallback
  end.
Definition CaddyComposeService (meta : Meta) : string :=
  trimmed_or (ic_ComposeService <$> infra_caddy meta) "caddy".
Definition CaddyConfigDir (meta : Meta) : string :=
  trimmed_or (ic_ConfigDir <$> infra_caddy meta) "/etc/caddy".
Definition RusticComposeService (meta : Meta) : string :=
  trimmed_or (ir_ComposeService <$> infra_rustic meta) "rustic".
Definition RusticProfile (meta : Meta) : string := trimmed_or (ir_Profile <$> infra_rustic meta) "".
Definition RusticDataProtectDir (meta : Meta) : string :=
  trimmed_or (ir_DataProtectDir <$> infra_rustic meta) "".
Definition RusticInitArgs (meta : Meta) : list string :=
  match infra_rustic meta with
  | None => []
  | Some rustic => filter (λ a, a ≠ "") (TrimSpace <$> ir_InitArgs rustic)
  end.

Definition normalizeNodeIDs (nodeIDs : list string) : list string :=
  filter (λ n, n ≠ "") (TrimSpace <$> nodeIDs).
Definition normalizedTargetNodes (meta : Meta) : list string := normalizeNodeIDs (sm_Nodes meta).

Definition CaddyManaged (service : Service) : bool :=
  match sm_Network (svc_Meta service) ≫= net_Caddy with
  | Some caddy => boolValue (cad_Enabled caddy) false
  | None => false
  end.
Definition CaddySource (service : Service) : string :=
  if CaddyManaged service then
    match sm_Network (svc_Meta service) ≫= net_Caddy with
    | Some caddy => TrimSpace (cad_Source caddy)
    | None => ""
    end
  else "".
Definition CloudflareTunnelManaged (service : Service) : bool :=
  match sm_Network (svc_Meta service) with
  | Some network => bool_decide (net_CloudflareTunnel network ≠ None)
  | None => false
  end.

(** ** Project names

    The builder is the characters written so far, last first.  A character
    above 127 falls in the default case, as each of its bytes does. *)
Definition is_alnum_lower (c : ascii) : bool := is_lower_byte c || is_digit_byte c.
Definition is_hyphen_or_underscore (c : ascii) : bool :=
  bool_decide (c = "-"%char ∨ c = "_"%char).

Record NameState := MkNameState {
  ns_builder : list ascii;
  ns_pendingHyphen : bool;
  ns_lastWasSeparator : bool;
}.

Definition project_char (s : NameState) (c : ascii) : NameState :=
  if is_alnum_lower c then
    let builder :=
      if ns_pendingHyphen s && bool_decide (ns_builder s ≠ []) && negb (ns_lastWasSeparator s)
      then "-"%char :: ns_builder s else ns_builder s in
    MkNameState (c :: builder) false false
  else if is_hyphen_or_underscore c then
    if bool_decide (ns_builder s = []) || ns_lastWasSeparator s
    then MkNameState (ns_builder s) false (ns_lastWasSeparator s)
    else MkNameState (c :: ns_builder s) false true
  else MkNameState (ns_builder s)
         (ns_pendingHyphen s || bool_decide (ns_builder s ≠ [])) (ns_lastWasSeparator s).

(** [strings.TrimRight(s, "-_")] on the reversed characters. *)
Fixpoint trim_separators (l : list ascii) : list ascii :=
  match l with
  | c :: l' => if is_hyphen_or_underscore c then trim_separators l' else l
  | [] => []
  end.

Definition normalizeComposeProjectName (name : string) : string :=
  let chars := String.list_ascii_of_string (ToLower (TrimSpace name)) in
  let s := foldl project_char (MkNameState [] false false) chars in
  String.string_of_list_ascii (reverse (trim_separators (ns_builder s))).

Definition ComposeProjectName (projectName fallback : string) : string :=
  let trimmedProjectName := TrimSpace projectName in
  if decide (trimmedProjectName ≠ "") then trimmedProjectName
  else
    let normalized := normalizeComposeProjectName fallback in
    if decide (normalized = "") then "service" else normalized.

(** ** Data names *)
Definition enabled_name (item : string * option bool) : bool :=
  bool_decide (item.1 ≠ "") && boolValue item.2 true.

Definition string_sort : list string → list string := merge_sort String.le.

Definition EnabledBackupDataNames (service : Service) : list string :=
  match sm_Backup (svc_Meta service) with
  | None => []
  | Some items =>
      string_sort (fst <$> filter (λ i, enabled_name i = true)
        ((λ i, (bi_Name i, bi_Enabled i)) <$> items))
  end.
Definition EnabledUpdateBackupDataNames (service : Service) : list string :=
  match sm_Update (svc_Meta service) with
  | None => []
  | Some update =>
      string_sort (fst <$> filter (λ i, enabled_name i = true)
        ((λ i, (ubd_Name i, ubd_Enabled i)) <$> upd_BackupData update))
  end.

(** One requested name: the names kept so far are in [validated]. *)
Definition request_name (enabled validated : list string) (name : string)
    : result string (list string) :=
  if decide (name ∉ enabled) then Err "service backup data is not enabled"
  else if decide (name ∈ validated) then Ok validated
  else Ok (validated ++ [name]).

Definition ValidateRequestedBackupDataNames (service : Service) (requested : list string)
    : result string (list string) :=
  let enabled := EnabledBackupDataNames service in
  if decide (requested = []) then
    if decide (enabled = []) then Err "service does not have any enabled backup data items"
    else Ok enabled
  else result_bind (for_each (request_name enabled) [] requested) (λ validated,
       Ok (string_sort validated)).

(** ** Image discovery *)
Definition isDigestDiscovery (discovery : ImageUpdateDiscovery) : bool :=
  match dis_Sources discovery with
  | [source] => bool_decide (TrimSpace (src_Type source) = "digest")
  | _ => false
  end.
Definition ResolveImageUpdateDiscovery (discovery : ImageUpdateDiscovery)
    (sources : option (gmap string ImageUpdateDiscovery)) : ImageUpdateDiscovery :=
  if decide (dis_Ref discovery = "") then discovery
  else default discovery (sources ≫= lookup (dis_Ref discovery)).
Definition IsDigestImageDiscovery (discovery : ImageUpdateDiscovery)
    (sources : option (gmap string ImageUpdateDiscovery)) : bool :=
  isDigestDiscovery (ResolveImageUpdateDiscovery discovery sources).
Definition ImageUpdateCurrentFile (current : ImageUpdateCurrent) : string :=
  match cur_Env current with
  | Some env => cenv_File env
  | None => match cur_YAML current with
            | Some yaml => cyaml_File yaml
            | None => ""
            end
  end.
