(* ===== verification/ServiceValidation.v ===== *)
(** * Validation of service metadata: src/internal/core/repo/services.go

    [validateServiceMeta] and the functions it calls, in the order of the
    code.  An error is its text without the path and the names put into it.
    A Go map is a [gmap]; the order in which the code visits one only chooses
    which of several errors is reported.  The validator library, regular
    expressions and URLs are the class [Libraries]. *)
From S2P Require Export ServiceMeta Schedule.

(** github.com/go-playground/validator on strings ([required], [oneof]);
    [regexp.Compile] and [url.ParseRequestURI] succeed or not. *)
Class Libraries := {
  v_required : string → bool;
  v_oneof : list string → string → bool;
  regexp_compiles : string → bool;
  request_uri : string → bool;
  v_required_spec : ∀ s, v_required s = true ↔ s ≠ "";
  v_oneof_spec : ∀ l s, v_oneof l s = true ↔ s ∈ l;
}.

Section validation.
Context `{Cron} `{Libraries}.

Definition guard_ok (b : bool) (e : string) : result string () := if b then Ok () else Err e.

Definition schedule_ok (spec : string) (e : string) : result string () :=
  match Validate spec with Ok _ => Ok () | Err _ => Err e end.

(** ** Target nodes *)
Definition check_node (availableNodeIDs : gset string) (seenNodes : list string) (nodeID : string)
    : result string (list string) :=
  if decide (nodeID ∉ availableNodeIDs) then Err "node is not configured"
  else if decide (nodeID ∈ seenNodes) then Err "node is duplicated"
  else Ok (nodeID :: seenNodes).

(** ** Compose files: the state is the list normalized so far. *)
Definition compose_file (normalized : list string) (file : string) : result string (list string) :=
  let trimmed := TrimSpace file in
  if decide (trimmed = "") then Err "compose_files must not be empty"
  else if IsAbs trimmed then Err "compose_files must be a relative path"
  else
    let cleaned := Clean trimmed in
    if bool_decide (cleaned = ".") || escapes cleaned
    then Err "compose_files must stay within the service directory"
    else if IsEncryptedFilePath cleaned && negb (IsValidEncryptedFilePath cleaned)
    then Err "compose_files must name a file before .enc"
    else if decide (cleaned ∈ normalized) then Err "compose_files duplicates"
    else if decide (RuntimeFilePath cleaned ∈ RuntimeFilePath <$> normalized)
    then Err "compose_files duplicates runtime path"
    else Ok (normalized ++ [cleaned]).

Definition NormalizedComposeFiles (meta : Meta) : result string (list string) :=
  for_each compose_file [] (sm_ComposeFiles meta).

(** ** Network *)
(** A DNS entry against the (hostname, type) pairs of the entries before. *)
Definition dns_providers : list string :=
  [""; "cloudflare"; "alidns"; "dnspod"; "route53"; "huaweicloud"].
Definition dns_hostname (dns : DNSEntry) : string :=
  ToLower (TrimSuffix (TrimSpace (dns_Hostname dns)) ".").
Definition dns_type (dns : DNSEntry) : string := ToUpper (TrimSpace (dns_RecordType dns)).

Definition check_dns (seen : list (string * string)) (dns : DNSEntry)
    : result string (list (string * string)) :=
  if decide (dns_Provider dns ∉ dns_providers) then Err "network.dns.provider must be cloudflare, alidns, dnspod, route53, or huaweicloud"
  else if decide (TrimSpace (dns_Hostname dns) = "") then Err "network.dns.hostname is required"
  else if decide (dns_type dns ∉ [""; "A"; "AAAA"; "CNAME"])
  then Err "network.dns.record_type must be A, AAAA, or CNAME"
  else
    let hostname := dns_hostname dns in
    let recordType := dns_type dns in
    let types := snd <$> filter (λ s, s.1 = hostname) seen in
    if decide (recordType = "CNAME" ∧ types ≠ [] ∨ recordType ≠ "CNAME" ∧ "CNAME" ∈ types)
    then Err "network.dns cannot combine CNAME with other record types for hostname"
    else if decide ((hostname, recordType) ∈ seen)
    then Err "network.dns contains duplicate hostname and record_type"
    else Ok ((hostname, recordType) :: seen).

Definition validateNetwork (network : NetworkConfig) : result string () :=
  result_bind (match net_Caddy network with
    | Some caddy =>
        if boolValue (cad_Enabled caddy) false && bool_decide (cad_Source caddy = "")
        then Err "network.caddy.source is required when caddy is enabled"
        else if IsEncryptedFilePath (TrimSpace (cad_Source caddy)) &&
                negb (IsValidEncryptedFilePath (TrimSpace (cad_Source caddy)))
        then Err "network.caddy.source must name a file before .enc"
        else Ok ()
    | None => Ok ()
    end) (λ _,
  result_bind (match net_DNS network with
    | Some dns =>
        if decide (Entries (Some dns) = []) then Err "network.dns must contain at least one entry"
        else result_bind (for_each check_dns [] (Entries (Some dns))) (λ _, Ok ())
    | None => Ok ()
    end) (λ _,
  match net_CloudflareTunnel network with
  | Some tunnel =>
      if decide (TrimSpace (cft_Hostname tunnel) = "")
      then Err "network.cloudflare_tunnel.hostname is required"
      else if decide (TrimSpace (cft_Service tunnel) = "")
      then Err "network.cloudflare_tunnel.service is required"
      else if decide (TrimSpace (cft_Tunnel tunnel) = "" ∧ cft_Tunnel tunnel ≠ "")
      then Err "network.cloudflare_tunnel.tunnel must not be empty when set"
      else Ok ()
  | None => Ok ()
  end)).

(** ** Infrastructure services *)
Definition blank (value : string) : bool := bool_decide (TrimSpace value = "" ∧ value ≠ "").

Definition validateInfra (infra : InfraConfig) : result string () :=
  if (match inf_Caddy infra with Some caddy => blank (ic_ConfigDir caddy) | None => false end)
  then Err "infra.caddy.config_dir must not be empty when set"
  else match inf_Rustic infra with
  | None => Ok ()
  | Some rustic =>
      if blank (ir_ComposeService rustic)
      then Err "infra.rustic.compose_service must not be empty when set"
      else if blank (ir_DataProtectDir rustic)
      then Err "infra.rustic.data_protect_dir must not be empty when set"
      else for_each (λ _ arg, if decide (TrimSpace arg = "")
             then Err "infra.rustic.init_args must not be empty" else Ok ()) () (ir_InitArgs rustic)
  end.

Definition check_include (_ : ()) (include : string) : result string () :=
  match ClassifyDataInclude include with
  | Ok _ => Ok ()
  | Err _ => Err "data_protect include is invalid"
  end.

Definition config_action (action : option DataActionConfig) : result string () :=
  match action with
  | None => Ok ()
  | Some action =>
      if decide (act_Strategy action ≠ "files.copy")
      then Err "infra.config services only support strategy files.copy"
      else for_each check_include () (act_Include action)
  end.

Definition validateConfigInfra (meta : Meta) : result string () :=
  if decide (infra_caddy meta ≠ None) then Err "infra.config cannot be combined with infra.caddy because caddy reload requires docker compose"
  else if decide (infra_rustic meta ≠ None) then Err "infra.config cannot be combined with infra.rustic because rustic requires docker compose"
  else match sm_DataProtect meta with
  | None => Ok ()
  | Some data =>
      for_each (λ _ item, result_bind (config_action (dp_Backup item)) (λ _,
                          config_action (dp_Restore item))) () data
  end.

(** ** Data protection *)
Definition validateDataAction (action : DataActionConfig) : result string () :=
  if decide (act_Strategy action = "") then Err "strategy is required"
  else if HasPrefix (act_Strategy action) "database." then
    if decide (act_Service action = "") then Err "service is required"
    else guard_ok (bool_decide (act_Strategy action ∈ ["database.pgdumpall"; "database.pgimport"]))
           "unsupported strategy"
  else if HasPrefix (act_Strategy action) "files." then
    if decide (act_Include action = []) then Err "include is required"
    else result_bind (for_each check_include () (act_Include action)) (λ _,
         guard_ok (bool_decide (act_Strategy action ∈ ["files.copy_after_stop"; "files.copy"]))
           "unsupported strategy")
  else Err "unsupported strategy".

Definition validate_action (action : option DataActionConfig) : result string () :=
  match action with Some action => validateDataAction action | None => Ok () end.

Definition validateDataProtectItem (item : DataProtectItem) : result string () :=
  result_bind (validate_action (dp_Backup item)) (λ _, validate_action (dp_Restore item)).

Definition check_data_item (dataItems : gmap string DataProtectItem) (item : DataProtectItem)
    : result string (gmap string DataProtectItem) :=
  if decide (dp_Name item = "") then Err "data_protect.data[].name is required"
  else if decide (is_Some (dataItems !! dp_Name item)) then Err "data_protect.data is duplicated"
  else result_bind (validateDataProtectItem item) (λ _,
       Ok (<[dp_Name item := item]> dataItems)).

Definition check_backup_item (dataItems : gmap string DataProtectItem) (_ : ()) (item : BackupItem)
    : result string () :=
  if decide (bi_Name item = "") then Err "backup.data[].name is required"
  else result_bind (schedule_ok (bi_Schedule item) "backup.data.schedule") (λ _,
  match dataItems !! bi_Name item with
  | None => Err "backup.data references an unknown data_protect item"
  | Some protectedData =>
      if decide (dp_Backup protectedData = None) then Err "backup.data requires data_protect.data.backup"
      else Ok ()
  end).

Definition check_migrate_item (dataItems : gmap string DataProtectItem) (_ : ()) (item : MigrateItem)
    : result string () :=
  if decide (mi_Name item = "") then Err "migrate.data[].name is required"
  else match dataItems !! mi_Name item with
  | None => Err "migrate.data references an unknown data_protect item"
  | Some protectedData =>
      if decide (dp_Backup protectedData = None ∨ dp_Restore protectedData = None)
      then Err "migrate.data requires both backup and restore definitions"
      else Ok ()
  end.

(** ** Image updates *)
Definition validateImageUpdateCurrentFile (file : string) : result string () :=
  let file := TrimSpace file in
  if decide (file = "") then Err "file is required"
  else if IsAbs file then Err "file must be a relative path"
  else
    let cleaned := Clean file in
    if bool_decide (cleaned = ".") || escapes cleaned
    then Err "file must stay within the service directory"
    else if IsEncryptedFilePath cleaned && negb (IsValidEncryptedFilePath cleaned)
    then Err "file must name a file before .enc"
    else Ok ().

Definition count_true (l : list bool) : nat := length (filter (λ b, b = true) l).

Definition validateImageUpdateCurrent (current : ImageUpdateCurrent) : result string () :=
  result_bind (match cur_Env current with
    | Some env => result_bind (validateImageUpdateCurrentFile (cenv_File env)) (λ _,
        if decide (TrimSpace (cenv_Key env) = "") then Err "current.env.key is required" else Ok ())
    | None => Ok ()
    end) (λ _,
  result_bind (match cur_YAML current with
    | Some yaml => result_bind (validateImageUpdateCurrentFile (cyaml_File yaml)) (λ _,
        if decide (TrimSpace (cyaml_Path yaml) = "") then Err "current.yaml.path is required" else Ok ())
    | None => Ok ()
    end) (λ _,
  let modeCount := count_true [bool_decide (TrimSpace (cur_Tag current) ≠ "");
                               bool_decide (cur_Env current ≠ None);
                               bool_decide (cur_YAML current ≠ None)] in
  if decide (modeCount ≠ 1) then Err "current must specify exactly one of tag, env, or yaml"
  else Ok ())).

Definition isForgeImageUpdateDiscoverySource (sourceType : string) : bool :=
  bool_decide (TrimSpace sourceType ∈ ["github"; "gitlab"; "forgejo"]).

Definition validateImageUpdateDiscoverySource (filter : option ImageUpdateFilter)
    (source : ImageUpdateDiscoverySource) : result string () :=
  let type := TrimSpace (src_Type source) in
  if bool_decide (src_TagPrefix source ≠ "") && negb (isForgeImageUpdateDiscoverySource (src_Type source))
  then Err "tag_prefix is only supported for github, gitlab, or forgejo sources"
  else if decide (type = "auto") then
    if bool_decide (TrimSpace (src_RepoURL source) ≠ "") && negb (request_uri (TrimSpace (src_RepoURL source)))
    then Err "repo_url is invalid" else Ok ()
  else if decide (type = "probe") then
    match filter with
    | Some filter => if decide (TrimSpace (fil_Type filter) ≠ "semver")
                     then Err "type probe requires semver filter" else Ok ()
    | None => Ok ()
    end
  else if decide (type = "registry" ∨ type = "digest") then Ok ()
  else if decide (type = "github" ∨ type = "forgejo") then
    if decide (TrimSpace (src_Repo source) = "") then Err "repo is required" else Ok ()
  else if decide (type = "gitlab") then
    if decide (TrimSpace (src_Project source) = "") then Err "project is required" else Ok ()
  else if decide (type = "") then Err "type is required"
  else Err "type must be auto, probe, registry, digest, github, gitlab, or forgejo".

(** [sources] is [None] for a nil map: that of a discovery source itself, and
    that of metadata without [update.discovery_sources]. *)
Definition validateImageUpdateDiscovery (discovery : ImageUpdateDiscovery)
    (filter : option ImageUpdateFilter) (sources : option (gmap string ImageUpdateDiscovery))
    : result string () :=
  if decide (dis_Ref discovery ≠ "") then
    match sources with
    | Some sources => guard_ok (bool_decide (is_Some (sources !! dis_Ref discovery)))
                        "references unknown discovery source"
    | None => Ok ()
    end
  else if decide (dis_Combine discovery ∉ [""; "merge"; "first_success"])
  then Err "combine must be merge or first_success"
  else if decide (dis_Sources discovery = []) then Err "sources must contain at least one source"
  else result_bind (for_each (λ _ source, validateImageUpdateDiscoverySource filter source) ()
                      (dis_Sources discovery)) (λ _,
    let has type := existsb (λ s, bool_decide (TrimSpace (src_Type s) = type)) (dis_Sources discovery) in
    let several := bool_decide (length (dis_Sources discovery) ≠ 1) in
    if has "auto" && several then Err "sources with type auto must be exclusive"
    else if has "digest" && several then Err "sources with type digest must be exclusive"
    else Ok ()).

Definition validateSemverAllow (allow : list string) : result string () :=
  let normalizedAllow := TrimSpace <$> allow in
  if negb (forallb (v_oneof ["patch"; "minor"; "major"]) normalizedAllow)
  then Err "allow must contain only patch, minor, or major"
  else result_bind (for_each (λ seen value,
         if decide (value ∈ seen) then Err "allow is duplicated" else Ok (value :: seen))
         [] normalizedAllow) (λ _, Ok ()).

Definition validateImageUpdateFilter (discovery : ImageUpdateDiscovery)
    (filter : option ImageUpdateFilter) : result string () :=
  if isDigestDiscovery discovery then
    match filter with
    | Some _ => Err "filter must be omitted for digest discovery"
    | None => Ok ()
    end
  else match filter with
  | None => Err "filter.type is required"
  | Some filter =>
      let type := TrimSpace (fil_Type filter) in
      if negb (v_required type) then Err "filter.type is required"
      else if negb (v_oneof ["semver"; "date"; "regex"; "latest"] type)
      then Err "filter.type must be semver, date, regex, or latest"
      else if decide (type = "semver") then validateSemverAllow (fil_Allow filter)
      else if decide (type = "date") then
        guard_ok (v_required (TrimSpace (fil_Format filter))) "filter.format is required for date filter"
      else if decide (type = "regex") then
        if negb (v_required (TrimSpace (fil_Pattern filter))) then Err "filter.pattern is required for regex filter"
        else if negb (regexp_compiles (fil_Pattern filter)) then Err "filter.pattern is invalid"
        else guard_ok (v_oneof ["numeric"; "lexicographic"] (TrimSpace (fil_Order filter)))
               "filter.order must be numeric or lexicographic for regex filter"
      else Ok ()
  end.

Definition validateImageUpdate (image : ImageUpdateConfig)
    (sources : option (gmap string ImageUpdateDiscovery))
    : result string () :=
  if decide (TrimSpace (img_Image image) = "") then Err "image is required"
  else result_bind (schedule_ok (img_CheckSchedule image) "check_schedule") (λ _,
  result_bind (validateImageUpdateCurrent (img_Current image)) (λ _,
  result_bind (validateImageUpdateDiscovery (img_Discovery image) (img_Filter image) sources) (λ _,
  validateImageUpdateFilter (img_Discovery image) (img_Filter image)))).

Definition check_discovery_source (_ : ()) (entry : string * ImageUpdateDiscovery) : result string () :=
  if decide (TrimSpace entry.1 = "") then Err "update.discovery_sources[] name must not be empty"
  else if decide (dis_Ref entry.2 ≠ "") then Err "update.discovery_sources cannot reference another discovery source"
  else validateImageUpdateDiscovery entry.2 None None.

Definition check_image (sources : option (gmap string ImageUpdateDiscovery)) (seenImageNames : list string)
    (entry : string * ImageUpdateConfig) : result string (list string) :=
  let trimmedName := TrimSpace entry.1 in
  if decide (trimmedName = "") then Err "update.images[] name must not be empty"
  else if decide (trimmedName ∈ seenImageNames) then Err "update.images is duplicated after trimming"
  else result_bind (validateImageUpdate entry.2 sources) (λ _, Ok (trimmedName :: seenImageNames)).

Definition validateUpdate (update : UpdateConfig) : result string () :=
  result_bind (schedule_ok (upd_CheckSchedule update) "update.check_schedule") (λ _,
  result_bind (for_each check_discovery_source ()
    (map_to_list (default ∅ (upd_DiscoverySources update)))) (λ _,
  result_bind (for_each (check_image (upd_DiscoverySources update)) []
    (map_to_list (upd_Images update))) (λ _, Ok ()))).

(** ** The whole metadata: the metadata with normalized compose files *)
Definition validateServiceMeta (meta : Meta) (availableNodeIDs : gset string) : result string Meta :=
  if decide (sm_Name meta = "") then Err "name is required"
  else
    let targetNodes := normalizedTargetNodes meta in
    if decide (targetNodes = []) then Err "at least one target node is required"
    else
      result_bind (for_each (check_node availableNodeIDs) [] targetNodes) (λ _,
      result_bind (match sm_Network meta with
        | Some network => validateNetwork network | None => Ok () end) (λ _,
      result_bind (NormalizedComposeFiles meta) (λ composeFiles,
      let meta := sm_set_compose composeFiles meta in
      result_bind (if IsConfigInfra meta then validateConfigInfra meta else Ok ()) (λ _,
      result_bind (match sm_Infra meta with
        | Some infra => validateInfra infra | None => Ok () end) (λ _,
      result_bind (match sm_Update meta with
        | Some update => validateUpdate update | None => Ok () end) (λ _,
      result_bind (for_each check_data_item ∅ (default [] (sm_DataProtect meta))) (λ dataItems,
      result_bind (for_each (check_backup_item dataItems) () (default [] (sm_Backup meta))) (λ _,
      result_bind (for_each (check_migrate_item dataItems) () (default [] (sm_Migrate meta))) (λ _,
      Ok meta))))))))).

Definition strictServiceFromMeta (path : string) (meta : Meta) (availableNodeIDs : gset string)
    : result string Service :=
  result_bind (validateServiceMeta meta availableNodeIDs) (λ meta,
  Ok (MkService (sm_Name meta) (Dir path) path (normalizedTargetNodes meta)
        (boolValue (sm_Enabled meta) true) meta)).
End validation.
