(* ===== verification/ServiceSpec.v ===== *)
(** * What valid service metadata is

    A declarative reading of the rules [validateServiceMeta] enforces, part by
    part, and the lemmas that each check accepts exactly the valid parts. *)
From S2P Require Export ServiceValidation.
From Stdlib Require Import Ascii.

Section spec.
Context `{Cron} `{Libraries}.

Definition valid_schedule (spec : string) : Prop :=
  Normalize spec = "" ∨ Normalize spec = Disabled ∨ is_ok (cron_Parse (Normalize spec)) = true.

Definition valid_include (include : string) : Prop := is_ok (ClassifyDataInclude include) = true.

(** A path of a file of the service, encrypted or not. *)
Definition service_file (file : string) : Prop :=
  IsAbs (TrimSpace file) = false ∧ below_root (Clean (TrimSpace file)) ∧
  (IsEncryptedFilePath (Clean (TrimSpace file)) = true → Base (Clean (TrimSpace file)) ≠ ".enc").

Definition valid_nodes (available : gset string) (nodes : list string) : Prop :=
  nodes ≠ [] ∧ NoDup nodes ∧ Forall (λ n, n ∈ available) nodes.

Definition runtime_file (file : string) : string := RuntimeFilePath (Clean (TrimSpace file)).

Definition valid_compose (files : list string) : Prop :=
  Forall service_file files ∧ NoDup (runtime_file <$> files).

Definition valid_dns_entry (dns : DNSEntry) : Prop :=
  dns_Provider dns ∈ dns_providers ∧ TrimSpace (dns_Hostname dns) ≠ "" ∧
  dns_type dns ∈ [""; "A"; "AAAA"; "CNAME"].
(** Two entries of a hostname have different types, neither of them CNAME. *)
Definition dns_compatible (a b : string * string) : Prop :=
  a.1 = b.1 → a.2 ≠ "CNAME" ∧ b.2 ≠ "CNAME" ∧ a.2 ≠ b.2.
Definition dns_key (dns : DNSEntry) : string * string := (dns_hostname dns, dns_type dns).

Definition valid_network (network : NetworkConfig) : Prop :=
  (∀ caddy, net_Caddy network = Some caddy →
     (cad_Enabled caddy = Some true → cad_Source caddy ≠ "") ∧
     (IsEncryptedFilePath (TrimSpace (cad_Source caddy)) = true →
      Base (TrimSpace (cad_Source caddy)) ≠ ".enc")) ∧
  (∀ dns, net_DNS network = Some dns →
     Entries (Some dns) ≠ [] ∧ Forall valid_dns_entry (Entries (Some dns)) ∧
     ForallOrdPairs dns_compatible (dns_key <$> Entries (Some dns))) ∧
  (∀ tunnel, net_CloudflareTunnel network = Some tunnel →
     TrimSpace (cft_Hostname tunnel) ≠ "" ∧ TrimSpace (cft_Service tunnel) ≠ "" ∧
     (TrimSpace (cft_Tunnel tunnel) = "" → cft_Tunnel tunnel = "")).

Definition not_blank (value : string) : Prop := TrimSpace value = "" → value = "".

Definition valid_infra (infra : InfraConfig) : Prop :=
  (∀ caddy, inf_Caddy infra = Some caddy → not_blank (ic_ConfigDir caddy)) ∧
  (∀ rustic, inf_Rustic infra = Some rustic →
     not_blank (ir_ComposeService rustic) ∧ not_blank (ir_DataProtectDir rustic) ∧
     Forall (λ arg, TrimSpace arg ≠ "") (ir_InitArgs rustic)).

(** A configuration-only service has no Compose project: neither Caddy nor
    rustic, and only plain file copies. *)
Definition valid_config_infra (meta : Meta) : Prop :=
  infra_caddy meta = None ∧ infra_rustic meta = None ∧
  ∀ data item action, sm_DataProtect meta = Some data → item ∈ data →
    dp_Backup item = Some action ∨ dp_Restore item = Some action →
    act_Strategy action = "files.copy" ∧ Forall valid_include (act_Include action).

Definition valid_action (action : DataActionConfig) : Prop :=
  (act_Strategy action ∈ ["database.pgdumpall"; "database.pgimport"] ∧ act_Service action ≠ "") ∨
  (act_Strategy action ∈ ["files.copy_after_stop"; "files.copy"] ∧ act_Include action ≠ [] ∧
   Forall valid_include (act_Include action)).

Definition valid_data_item (item : DataProtectItem) : Prop :=
  dp_Name item ≠ "" ∧ (∀ a, dp_Backup item = Some a → valid_action a) ∧
  (∀ a, dp_Restore item = Some a → valid_action a).

Definition valid_backup (data : list DataProtectItem) (item : BackupItem) : Prop :=
  bi_Name item ≠ "" ∧ valid_schedule (bi_Schedule item) ∧
  ∃ d, d ∈ data ∧ dp_Name d = bi_Name item ∧ dp_Backup d ≠ None.
Definition valid_migrate (data : list DataProtectItem) (item : MigrateItem) : Prop :=
  mi_Name item ≠ "" ∧
  ∃ d, d ∈ data ∧ dp_Name d = mi_Name item ∧ dp_Backup d ≠ None ∧ dp_Restore d ≠ None.

Definition exactly_one (a b c : Prop) : Prop :=
  (a ∧ ¬ b ∧ ¬ c) ∨ (¬ a ∧ b ∧ ¬ c) ∨ (¬ a ∧ ¬ b ∧ c).
Definition valid_current (current : ImageUpdateCurrent) : Prop :=
  exactly_one (TrimSpace (cur_Tag current) ≠ "") (cur_Env current ≠ None) (cur_YAML current ≠ None) ∧
  (∀ env, cur_Env current = Some env → service_file (cenv_File env) ∧ TrimSpace (cenv_Key env) ≠ "") ∧
  (∀ yaml, cur_YAML current = Some yaml →
     service_file (cyaml_File yaml) ∧ TrimSpace (cyaml_Path yaml) ≠ "").

(** ** The small checks *)
Lemma if_Err_Ok {A E} (P : Prop) `{!Decision P} (r : result E A) e x :
  (if decide P then Err e else r) = Ok x ↔ ¬ P ∧ r = Ok x.
Proof. destruct (decide P); split; [done|by intros [? _]|done|by intros [_ ?]]. Qed.

Lemma if_bool_Err_Ok {A E} (b : bool) (r : result E A) e x :
  (if b then Err e else r) = Ok x ↔ b = false ∧ r = Ok x.
Proof. destruct b; split; [done|by intros [? _]|done|by intros [_ ?]]. Qed.

Lemma guard_ok_Ok b e : guard_ok b e = Ok () ↔ b = true.
Proof. by destruct b. Qed.

Lemma schedule_ok_Ok spec e : schedule_ok spec e = Ok () ↔ valid_schedule spec.
Proof.
  unfold schedule_ok, Validate, Parse, valid_schedule. rewrite Normalize_idempotent.
  repeat case_decide; try tauto. destruct (cron_Parse (Normalize spec)); cbn; split; naive_solver.
Qed.

Lemma includes_Ok includes :
  for_each check_include () includes = Ok () ↔ Forall valid_include includes.
Proof.
  rewrite for_each_unit. unfold check_include, valid_include.
  apply Forall_iff. intros include. by destruct (ClassifyDataInclude include).
Qed.

Lemma strategy_kinds s :
  (s ∈ ["database.pgdumpall"; "database.pgimport"] →
     s ≠ "" ∧ HasPrefix s "database." = true ∧ HasPrefix s "files." = false) ∧
  (s ∈ ["files.copy_after_stop"; "files.copy"] →
     s ≠ "" ∧ HasPrefix s "database." = false ∧ HasPrefix s "files." = true).
Proof. split; intros Hs; each_of Hs; by subst s. Qed.

Lemma validateDataAction_Ok action : validateDataAction action = Ok () ↔ valid_action action.
Proof.
  unfold validateDataAction, valid_action. destruct (strategy_kinds (act_Strategy action)) as [Hd Hf].
  case_decide as H1; [split; [done|tauto]|].
  destruct (HasPrefix (act_Strategy action) "database.") eqn:Hpd.
  - case_decide as H2; [split; [done|]; intros [[_ ?]|[Hs _]]; [done|by destruct (Hf Hs) as (_ & ? & _)]|].
    rewrite guard_ok_Ok, bool_decide_eq_true. split; [by left|].
    intros [[? _]|[Hs _]]; [done|by destruct (Hf Hs) as (_ & ? & _)].
  - assert (Hnd : act_Strategy action ∉ ["database.pgdumpall"; "database.pgimport"]).
    { intros Hs. by destruct (Hd Hs) as (_ & ? & _). }
    destruct (HasPrefix (act_Strategy action) "files.") eqn:Hpf.
    + case_decide as H2; [split; [done|tauto]|].
      rewrite result_bind_unit, guard_ok_Ok, bool_decide_eq_true, includes_Ok. tauto.
    + split; [done|]. intros [[? _]|[Hs _]]; [done|]. by destruct (Hf Hs) as (_ & _ & ?).
Qed.

Lemma validateDataProtectItem_Ok item :
  validateDataProtectItem item = Ok () ↔
  (∀ a, dp_Backup item = Some a → valid_action a) ∧ (∀ a, dp_Restore item = Some a → valid_action a).
Proof.
  assert (Hact : ∀ o, validate_action o = Ok () ↔ ∀ a, o = Some a → valid_action a).
  { intros [a|]; cbn; [|by split]. rewrite validateDataAction_Ok. split; [by intros ?? [= <-]|eauto]. }
  unfold validateDataProtectItem. by rewrite result_bind_unit, <-!Hact.
Qed.

(** ** Data items: the map of the items by name *)
Lemma check_data_items_Ok data acc acc' :
  for_each check_data_item acc data = Ok acc' ↔
  Forall valid_data_item data ∧ NoDup (dp_Name <$> data) ∧ (∀ d, d ∈ data → acc !! dp_Name d = None) ∧
  acc' = foldl (λ m d, <[dp_Name d := d]> m) acc data.
Proof.
  revert acc. induction data as [|d data IH]; intros acc; cbn [for_each].
  - cbn. split; [intros [= <-]|by intros (_ & _ & _ & ->)].
    split_and!; [constructor|constructor|by intros ? ?%elem_of_nil|done].
  - unfold check_data_item at 1. rewrite fmap_cons, NoDup_cons, Forall_cons. unfold valid_data_item at 1.
    case_decide as Hn; cbn [result_bind]; [split; [done|tauto]|].
    case_decide as Hd; cbn [result_bind].
    { split; [done|]. intros (_ & _ & Hacc & _). rewrite Hacc in Hd by set_solver. by destruct Hd. }
    apply eq_None_not_Some in Hd.
    destruct (validateDataProtectItem d) as [[]|] eqn:Hv; cbn [result_bind].
    + apply validateDataProtectItem_Ok in Hv. rewrite IH. cbn [foldl].
      assert (Hacc : (∀ d0, d0 ∈ data → (<[dp_Name d:=d]> acc) !! dp_Name d0 = None) ↔
        (dp_Name d ∉ dp_Name <$> data) ∧ ∀ d0, d0 ∈ data → acc !! dp_Name d0 = None).
      { split.
        - intros Hall. split.
          + intros (d0 & Heq & Hd0)%list_elem_of_fmap. specialize (Hall d0 Hd0).
            rewrite Heq, lookup_insert_eq in Hall. done.
          + intros d0 Hd0. specialize (Hall d0 Hd0). by apply lookup_insert_None in Hall as [? _].
        - intros [Hni Hall] d0 Hd0. apply lookup_insert_None. split; [auto|].
          intros Heq. apply Hni. rewrite Heq. by apply list_elem_of_fmap_2. }
      rewrite Hacc. set_solver.
    + split; [done|]. intros ([(_ & H1 & H2) _] & _). exfalso.
      assert (validateDataProtectItem d = Ok ()) by (by apply validateDataProtectItem_Ok). congruence.
Qed.

Lemma data_items_lookup data (acc : gmap string DataProtectItem) n :
  NoDup (dp_Name <$> data) → (∀ d, d ∈ data → acc !! dp_Name d = None) →
  ∀ d, (foldl (λ m d, <[dp_Name d := d]> m) acc data) !! n = Some d ↔
    acc !! n = Some d ∨ (d ∈ data ∧ dp_Name d = n).
Proof.
  intros Hnd Hacc d. rewrite (foldl_insert_lookup dp_Name id) by done. unfold id.
  split; (intros [?|Hd]; [by left|right]); [by destruct Hd as (a & ? & ? & <-)|exists d; tauto].
Qed.

Section items.
Context (data : list DataProtectItem) (items : gmap string DataProtectItem).
Hypothesis items_spec : ∀ n d, items !! n = Some d ↔ d ∈ data ∧ dp_Name d = n.

Lemma check_backup_item_Ok item : check_backup_item items () item = Ok () ↔ valid_backup data item.
Proof.
  unfold check_backup_item, valid_backup. case_decide; [split; [done|tauto]|].
  rewrite result_bind_unit, schedule_ok_Ok.
  destruct (items !! bi_Name item) as [d|] eqn:Hd.
  - pose proof (proj1 (items_spec _ _) Hd) as [Hin Hname]. case_decide as Hb.
    + split; [by intros [_ ?]|]. intros (_ & _ & d' & Hin' & Hname' & ?).
      assert (items !! bi_Name item = Some d') by (by apply items_spec). congruence.
    + split; [intros [? _]; eauto 6|]. by intros (_ & ? & _).
  - split; [by intros [_ ?]|]. intros (_ & _ & d' & Hin' & Hname' & ?).
    assert (items !! bi_Name item = Some d') by (by apply items_spec). congruence.
Qed.

Lemma check_migrate_item_Ok item : check_migrate_item items () item = Ok () ↔ valid_migrate data item.
Proof.
  unfold check_migrate_item, valid_migrate. case_decide; [split; [done|tauto]|].
  destruct (items !! mi_Name item) as [d|] eqn:Hd.
  - pose proof (proj1 (items_spec _ _) Hd) as [Hin Hname]. case_decide as Hb.
    + split; [done|]. intros (_ & d' & Hin' & Hname' & ?).
      assert (items !! mi_Name item = Some d') by (by apply items_spec). simplify_eq/=. tauto.
    + split; [intros _|done]. split; [done|]. exists d. tauto.
  - split; [done|]. intros (_ & d' & Hin' & Hname' & ?).
    assert (items !! mi_Name item = Some d') by (by apply items_spec). congruence.
Qed.
End items.

(** ** Nodes and files *)
Lemma check_nodes_Ok available nodes :
  (∃ seen, for_each (check_node available) [] nodes = Ok seen) ↔
  NoDup nodes ∧ Forall (λ n, n ∈ available) nodes.
Proof.
  rewrite (for_each_fresh _ (λ n, n ∈ available) id).
  - assert (Hid : id <$> nodes = nodes) by apply list_fmap_id. rewrite Hid. tauto.
  - intros acc n acc'. unfold check_node. rewrite !if_Err_Ok.
    split; [intros (Hn%dec_stable & ? & [= <-]); done|intros (? & ? & ->)]. split_and!; [tauto|done|done].
Qed.

Lemma service_file_check file :
  (TrimSpace file ≠ "" ∧ IsAbs (TrimSpace file) = false ∧
   bool_decide (Clean (TrimSpace file) = ".") || escapes (Clean (TrimSpace file)) = false ∧
   IsEncryptedFilePath (Clean (TrimSpace file)) && negb (IsValidEncryptedFilePath (Clean (TrimSpace file)))
     = false) ↔ service_file file.
Proof.
  unfold service_file, IsValidEncryptedFilePath. set (c := Clean (TrimSpace file)).
  rewrite orb_false_iff, bool_decide_eq_false.
  assert (Habs : IsAbs (TrimSpace file) = false → IsAbs c = false).
  { apply Clean_relative. }
  split.
  - intros (Hne & Ha & [Hd He] & Henc). split; [done|]. split; [by apply Clean_safe; auto|].
    destruct (IsEncryptedFilePath c); [|done]. intros _. cbn in Henc.
    apply negb_false_iff, bool_decide_eq_true in Henc. done.
  - intros (Ha & Hb & Henc). apply below_root_clean in Hb as (_ & Hne & Hd & _ & He).
    split_and!; try done.
    + intros Heq. unfold c in Hd. by rewrite Heq in Hd.
    + destruct (IsEncryptedFilePath c); [|done]. cbn.
      rewrite bool_decide_eq_true_2; [done|by apply Henc].
Qed.

(** The conditions of [compose_file] and [validateImageUpdateCurrentFile] in
    one: an error unless the path is a file of the service. *)
Lemma service_file_cases {A} file (r : result string A) x e1 e2 e3 e4 :
  (if decide (TrimSpace file = "") then Err e1
   else if IsAbs (TrimSpace file) then Err e2
   else if bool_decide (Clean (TrimSpace file) = ".") || escapes (Clean (TrimSpace file)) then Err e3
   else if IsEncryptedFilePath (Clean (TrimSpace file)) &&
           negb (IsValidEncryptedFilePath (Clean (TrimSpace file))) then Err e4
   else r) = Ok x ↔ service_file file ∧ r = Ok x.
Proof.
  rewrite <-service_file_check. case_decide; [split; [done|tauto]|].
  destruct (IsAbs (TrimSpace file)); [split; [done|]; by intros ((_ & ? & _) & _)|].
  destruct (bool_decide _ || escapes _); [split; [done|]; by intros ((_ & _ & ? & _) & _)|].
  destruct (IsEncryptedFilePath _ && _); [split; [done|]; by intros ((_ & _ & _ & ?) & _)|].
  tauto.
Qed.

Lemma NormalizedComposeFiles_Ok meta files :
  NormalizedComposeFiles meta = Ok files ↔
  valid_compose (sm_ComposeFiles meta) ∧ files = (λ f, Clean (TrimSpace f)) <$> sm_ComposeFiles meta.
Proof.
  unfold NormalizedComposeFiles, valid_compose. set (key := λ f, Clean (TrimSpace f)).
  assert (Hstep : ∀ acc f acc', compose_file acc f = Ok acc' ↔
    service_file f ∧ Forall (λ k, RuntimeFilePath k ≠ RuntimeFilePath (key f)) acc ∧
    acc' = acc ++ [key f]).
  { intros acc f acc'. unfold compose_file. rewrite service_file_cases. apply and_iff_compat_l.
    fold (key f). rewrite Forall_forall. case_decide as Hin.
    { split; [done|]. intros [Hf _]. by specialize (Hf _ Hin). }
    case_decide as Hr.
    { split; [done|]. intros [Hf _]. apply list_elem_of_fmap in Hr as (k & Hk & Hin').
      by specialize (Hf k Hin'). }
    split; [intros [= <-]|by intros [_ ->]]. split; [|done]. intros k Hk Heq. apply Hr.
    rewrite <-Heq. by apply list_elem_of_fmap_2. }
  rewrite (for_each_compat _ _ key (λ a b, RuntimeFilePath a ≠ RuntimeFilePath b)
    (λ k acc, acc ++ [k]) (λ k acc, Permutation_app_comm acc [k]) Hstep (sm_ComposeFiles meta) [] files).
  rewrite foldl_snoc. cbn [app].
  assert (Hp : ForallOrdPairs (λ a b, RuntimeFilePath a ≠ RuntimeFilePath b) (key <$> sm_ComposeFiles meta)
    ↔ NoDup (runtime_file <$> sm_ComposeFiles meta)).
  { rewrite <-ForallOrdPairs_NoDup, !ForallOrdPairs_fmap. done. }
  rewrite Hp. split; [tauto|]. intros ([] & ->). split_and!; [done|done|constructor|done].
Qed.

(** ** Network and infrastructure *)
Lemma check_dns_Ok dns :
  (∃ seen, for_each check_dns [] dns = Ok seen) ↔
  Forall valid_dns_entry dns ∧ ForallOrdPairs dns_compatible (dns_key <$> dns).
Proof.
  assert (Hstep : ∀ acc d acc', check_dns acc d = Ok acc' ↔
    valid_dns_entry d ∧ Forall (λ k, dns_compatible k (dns_key d)) acc ∧ acc' = dns_key d :: acc).
  { intros acc d acc'. unfold check_dns, valid_dns_entry, dns_compatible, dns_key.
    destruct (decide (dns_Provider d ∉ dns_providers)) as [|Hp%dec_stable]; [split; [done|tauto]|].
    case_decide; [split; [done|tauto]|].
    destruct (decide (dns_type d ∉ _)) as [|Ht%dec_stable]; [split; [done|tauto]|].
    cbn [fst snd]. rewrite Forall_forall.
    assert (Hty : ∀ t, t ∈ snd <$> filter (λ s : string * string, s.1 = dns_hostname d) acc ↔
      (dns_hostname d, t) ∈ acc).
    { intros t. rewrite list_elem_of_fmap. split.
      - intros ([h t'] & -> & [Hh Hin]%list_elem_of_filter). simpl in *. by subst.
      - intros Hin. exists (dns_hostname d, t). split; [done|]. by apply list_elem_of_filter. }
    set (types := snd <$> _) in *.
    assert (Hnil : types ≠ [] ↔ ∃ t, (dns_hostname d, t) ∈ acc).
    { setoid_rewrite <-Hty. destruct types as [|t l]; [|split; [intros _; exists t; by left|done]].
      split; [done|]. by intros [t ?%elem_of_nil]. }
    case_decide as Hc; rewrite Hnil, Hty in Hc.
    { split; [done|]. intros (_ & Hf & _). exfalso. destruct Hc as [[Hcn [t Hin]]|[Hcn Hin]].
      - destruct (Hf _ Hin eq_refl) as (_ & ? & _). done.
      - destruct (Hf _ Hin eq_refl) as (? & _). done. }
    case_decide as Hd.
    { split; [done|]. intros (_ & Hf & _). exfalso. by destruct (Hf _ Hd eq_refl) as (_ & _ & ?). }
    split; [intros [= <-]|by intros (_ & _ & ->)]. split_and!; [done..| |done].
    intros [h t] Hin Hh. simpl in *. subst h. split_and!.
    - intros ->. apply Hc. destruct (decide (dns_type d = "CNAME")); [left; eauto|by right].
    - intros Heq. apply Hc. left. eauto.
    - intros ->. done. }
  pose proof (for_each_compat _ _ dns_key dns_compatible cons (λ _ _, reflexivity _) Hstep dns []) as Hc. split.
  - intros [seen Hrun]. apply Hc in Hrun. tauto.
  - intros []. eexists. apply Hc. split_and!; [done|done|constructor|reflexivity].
Qed.

Lemma validateNetwork_Ok network : validateNetwork network = Ok () ↔ valid_network network.
Proof.
  unfold validateNetwork, valid_network. rewrite !result_bind_unit, !option_all. f_equiv; [|f_equiv].
  - destruct (net_Caddy network) as [caddy|]; [|done]. unfold IsValidEncryptedFilePath.
    destruct (IsEncryptedFilePath (TrimSpace (cad_Source caddy))); cbn [andb];
      destruct (cad_Enabled caddy) as [[]|]; cbn [boolValue default andb];
      repeat case_bool_decide; cbn [andb negb]; split; intros Hx; try discriminate Hx; try reflexivity;
      first [exfalso; intuition congruence | intuition congruence].
  - destruct (net_DNS network) as [dns|]; [|done]. case_decide; [split; [done|tauto]|].
    rewrite <-check_dns_Ok. destruct (for_each check_dns [] _) as [seen|]; cbn.
    + split; [intros _|done]. split; [done|]. by exists seen.
    + split; [done|]. by intros [_ [? ?]].
  - destruct (net_CloudflareTunnel network) as [tunnel|]; [|done].
    case_decide; [split; [done|tauto]|]. case_decide; [split; [done|tauto]|].
    case_decide as Ht; [split; [done|tauto]|]. split; [intros _|done]. split_and!; [done..|].
    intros Hb. destruct (decide (cft_Tunnel tunnel = "")); [done|tauto].
Qed.

Lemma blank_false value : blank value = false ↔ not_blank value.
Proof. unfold blank, not_blank. rewrite bool_decide_eq_false. destruct (decide (value = "")); naive_solver. Qed.

Lemma validateInfra_Ok infra : validateInfra infra = Ok () ↔ valid_infra infra.
Proof.
  unfold validateInfra, valid_infra. rewrite !option_all.
  assert (Hc : match inf_Caddy infra with Some caddy => not_blank (ic_ConfigDir caddy) | None => True end ↔
    match inf_Caddy infra with Some caddy => blank (ic_ConfigDir caddy) | None => false end = false).
  { destruct (inf_Caddy infra); [by rewrite blank_false|done]. }
  rewrite Hc. destruct (match inf_Caddy infra with Some _ => _ | None => _ end); [split; [done|by intros [? _]]|].
  destruct (inf_Rustic infra) as [rustic|]; [|by split]. rewrite <-!blank_false.
  destruct (blank (ir_ComposeService rustic)); [split; [done|by intros (_ & ? & _)]|].
  destruct (blank (ir_DataProtectDir rustic)); [split; [done|by intros (_ & _ & ? & _)]|].
  rewrite for_each_unit. split.
  - intros Hf. split_and!; [done..|]. eapply Forall_impl; [exact Hf|]. intros a Ha. cbn in Ha. by case_decide.
  - intros (_ & _ & _ & Hf). eapply Forall_impl; [exact Hf|]. intros a Ha. cbn. by rewrite decide_False.
Qed.

Lemma validateConfigInfra_Ok meta : validateConfigInfra meta = Ok () ↔ valid_config_infra meta.
Proof.
  unfold validateConfigInfra, valid_config_infra.
  destruct (decide (infra_caddy meta ≠ None)) as [|Hc%dec_stable]; [split; [done|tauto]|].
  destruct (decide (infra_rustic meta ≠ None)) as [|Hr%dec_stable]; [split; [done|tauto]|].
  assert (Hact : ∀ o, config_action o = Ok () ↔
    ∀ a, o = Some a → act_Strategy a = "files.copy" ∧ Forall valid_include (act_Include a)).
  { intros o. rewrite option_all. destruct o as [a|]; [|done]. cbn. rewrite <-includes_Ok.
    case_decide; [split; [done|tauto]|]. tauto. }
  destruct (sm_DataProtect meta) as [data|]; [|split; [done|done]].
  rewrite for_each_unit, Forall_forall. split.
  - intros Hf. split_and!; [done..|]. intros data' item a [= <-] Hin Ha.
    specialize (Hf item Hin). cbn in Hf. rewrite result_bind_unit, !Hact in Hf. naive_solver.
  - intros (_ & _ & Hf) item Hin. cbn. rewrite result_bind_unit, !Hact. naive_solver.
Qed.

(** ** Image updates *)
Definition valid_source (filter : option ImageUpdateFilter) (s : ImageUpdateDiscoverySource) : Prop :=
  let type := TrimSpace (src_Type s) in
  type ∈ ["auto"; "probe"; "registry"; "digest"; "github"; "forgejo"; "gitlab"] ∧
  (src_TagPrefix s ≠ "" → type ∈ ["github"; "gitlab"; "forgejo"]) ∧
  (type = "auto" → TrimSpace (src_RepoURL s) ≠ "" → request_uri (TrimSpace (src_RepoURL s)) = true) ∧
  (type = "probe" → ∀ f, filter = Some f → TrimSpace (fil_Type f) = "semver") ∧
  (type = "github" ∨ type = "forgejo" → TrimSpace (src_Repo s) ≠ "") ∧
  (type = "gitlab" → TrimSpace (src_Project s) ≠ "").

(** A reference names a shared source, when there are shared sources. *)
Definition valid_discovery (filter : option ImageUpdateFilter)
    (sources : option (gmap string ImageUpdateDiscovery)) (d : ImageUpdateDiscovery) : Prop :=
  (dis_Ref d ≠ "" → ∀ m, sources = Some m → is_Some (m !! dis_Ref d)) ∧
  (dis_Ref d = "" →
     dis_Combine d ∈ [""; "merge"; "first_success"] ∧ dis_Sources d ≠ [] ∧
     Forall (valid_source filter) (dis_Sources d) ∧
     ∀ s, s ∈ dis_Sources d → TrimSpace (src_Type s) ∈ ["auto"; "digest"] → length (dis_Sources d) = 1).

Definition valid_filter_kind (f : ImageUpdateFilter) : Prop :=
  let type := TrimSpace (fil_Type f) in
  type ∈ ["semver"; "date"; "regex"; "latest"] ∧
  (type = "semver" → Forall (λ a, TrimSpace a ∈ ["patch"; "minor"; "major"]) (fil_Allow f) ∧
                     NoDup (TrimSpace <$> fil_Allow f)) ∧
  (type = "date" → TrimSpace (fil_Format f) ≠ "") ∧
  (type = "regex" → TrimSpace (fil_Pattern f) ≠ "" ∧ regexp_compiles (fil_Pattern f) = true ∧
                    TrimSpace (fil_Order f) ∈ ["numeric"; "lexicographic"]).
Definition valid_filter (d : ImageUpdateDiscovery) (filter : option ImageUpdateFilter) : Prop :=
  if isDigestDiscovery d then filter = None
  else match filter with Some f => valid_filter_kind f | None => False end.

Definition valid_image (sources : option (gmap string ImageUpdateDiscovery)) (image : ImageUpdateConfig)
    : Prop :=
  TrimSpace (img_Image image) ≠ "" ∧ valid_schedule (img_CheckSchedule image) ∧
  valid_current (img_Current image) ∧
  valid_discovery (img_Filter image) sources (img_Discovery image) ∧
  valid_filter (img_Discovery image) (img_Filter image).

Definition valid_update (update : UpdateConfig) : Prop :=
  valid_schedule (upd_CheckSchedule update) ∧
  map_Forall (λ n d, TrimSpace n ≠ "" ∧ dis_Ref d = "" ∧ valid_discovery None None d)
    (default ∅ (upd_DiscoverySources update)) ∧
  map_Forall (λ n i, TrimSpace n ≠ "" ∧ valid_image (upd_DiscoverySources update) i) (upd_Images update) ∧
  (∀ n1 n2, is_Some (upd_Images update !! n1) → is_Some (upd_Images update !! n2) →
     TrimSpace n1 = TrimSpace n2 → n1 = n2).

Lemma current_file_Ok file : validateImageUpdateCurrentFile file = Ok () ↔ service_file file.
Proof. unfold validateImageUpdateCurrentFile. rewrite service_file_cases. tauto. Qed.

Lemma validateImageUpdateCurrent_Ok current :
  validateImageUpdateCurrent current = Ok () ↔ valid_current current.
Proof.
  unfold validateImageUpdateCurrent, valid_current. rewrite !result_bind_unit, !option_all.
  assert (Henv : match cur_Env current with
    | Some env => result_bind (validateImageUpdateCurrentFile (cenv_File env)) (λ _,
        if decide (TrimSpace (cenv_Key env) = "") then Err "current.env.key is required" else Ok ())
    | None => Ok ()
    end = Ok () ↔ match cur_Env current with
    | Some env => service_file (cenv_File env) ∧ TrimSpace (cenv_Key env) ≠ "" | None => True end).
  { destruct (cur_Env current) as [env|]; [|done]. rewrite result_bind_unit, current_file_Ok.
    case_decide; [split; [by intros [_ ?]|tauto]|tauto]. }
  assert (Hyaml : match cur_YAML current with
    | Some yaml => result_bind (validateImageUpdateCurrentFile (cyaml_File yaml)) (λ _,
        if decide (TrimSpace (cyaml_Path yaml) = "") then Err "current.yaml.path is required" else Ok ())
    | None => Ok ()
    end = Ok () ↔ match cur_YAML current with
    | Some yaml => service_file (cyaml_File yaml) ∧ TrimSpace (cyaml_Path yaml) ≠ "" | None => True end).
  { destruct (cur_YAML current) as [yaml|]; [|done]. rewrite result_bind_unit, current_file_Ok.
    case_decide; [split; [by intros [_ ?]|tauto]|tauto]. }
  rewrite Henv, Hyaml. clear Henv Hyaml.
  assert (Hone : ∀ a b c : bool, count_true [a; b; c] = 1 ↔
    exactly_one (a = true) (b = true) (c = true)).
  { unfold exactly_one. intros [] [] []; cbn; split; intros Hx; try discriminate Hx; try reflexivity;
      first [intuition discriminate | exfalso; intuition congruence]. }
  match goal with |- context [count_true ?l] => destruct (decide (count_true l ≠ 1)) as [Hc|Hc%dec_stable] end.
  - rewrite Hone in Hc. unfold exactly_one in *. rewrite !bool_decide_eq_true in Hc. split; [by intros (_ & _ & ?)|tauto].
  - apply Hone in Hc. unfold exactly_one in *. rewrite !bool_decide_eq_true in Hc. tauto.
Qed.

(** Decide the comparisons of constants. *)
Ltac decide_constants :=
  repeat match goal with
         | |- context [decide ?P] =>
             first [rewrite (decide_True (P := P)) by by_decision
                   |rewrite (decide_False (P := P)) by by_decision]
         end.

Lemma validate_source_Ok filter s :
  validateImageUpdateDiscoverySource filter s = Ok () ↔ valid_source filter s.
Proof.
  unfold validateImageUpdateDiscoverySource, valid_source, isForgeImageUpdateDiscoverySource.
  rewrite if_bool_Err_Ok, andb_false_iff, negb_false_iff, bool_decide_eq_false, bool_decide_eq_true.
  generalize (TrimSpace (src_Type s)); intros type.
  assert (Htag : ∀ P : Prop, ¬ src_TagPrefix s ≠ "" ∨ P ↔ (src_TagPrefix s ≠ "" → P)).
  { intros P. destruct (decide (src_TagPrefix s = "")); tauto. }
  rewrite Htag. clear Htag. set (T := src_TagPrefix s ≠ "" → _).
  destruct (decide (type ∈ ["auto"; "probe"; "registry"; "digest"; "github"; "forgejo"; "gitlab"])) as [Hin|Hno].
  - match goal with |- _ ∧ ?R ↔ _ ∧ _ ∧ ?S => enough (R ↔ S) by tauto end.
    clear T. each_of Hin; subst; decide_constants;
      rewrite ?if_bool_Err_Ok, ?if_Err_Ok, ?andb_false_iff, ?negb_false_iff, ?bool_decide_eq_false;
      try solve [intuition discriminate].
    + destruct (decide (TrimSpace (src_RepoURL s) = "")); intuition discriminate.
    + destruct filter as [f|]; [rewrite if_Err_Ok|intuition discriminate].
      split; [|intros (_ & Hf & _); specialize (Hf eq_refl f eq_refl); tauto].
      intros [Hf%dec_stable _]. split_and!; [done| |by intros [?|?]|done]. by intros _ ? [= <-].
  - split; [|tauto]. intros [_ Hok]. exfalso. rewrite !elem_of_cons, elem_of_nil in Hno.
    repeat case_decide; tauto || discriminate.
Qed.

Lemma validateImageUpdateDiscovery_Ok d filter sources :
  validateImageUpdateDiscovery d filter sources = Ok () ↔ valid_discovery filter sources d.
Proof.
  unfold validateImageUpdateDiscovery, valid_discovery. case_decide as Href.
  { destruct sources as [m|]; [rewrite guard_ok_Ok, bool_decide_eq_true|];
      (split; [intros Hm; split; [|done]|intros [Hm _]]); [by intros _ ? [= <-]|by apply Hm|done|done]. }
  rewrite !if_Err_Ok, result_bind_unit, for_each_unit.
  rewrite !if_bool_Err_Ok, !andb_false_iff, bool_decide_eq_false.
  setoid_rewrite validate_source_Ok.
  assert (Hlen : ¬ length (dis_Sources d) ≠ 1 ↔ length (dis_Sources d) = 1) by lia.
  assert (Hex : ∀ type, existsb (λ s, bool_decide (TrimSpace (src_Type s) = type)) (dis_Sources d) = false ↔
    ∀ s, s ∈ dis_Sources d → TrimSpace (src_Type s) ≠ type).
  { intros type. rewrite <-not_true_iff_false, existsb_exists. split.
    - intros Hn s Hs Ht. apply Hn. exists s. by rewrite bool_decide_eq_true, <-list_elem_of_In.
    - intros Hn (s & Hs & Ht). apply bool_decide_eq_true in Ht. apply list_elem_of_In in Hs. by apply (Hn s). }
  rewrite !Hex. rewrite Hlen. clear Hex Hlen.
  split.
  - intros (?%dec_stable & ? & ? & Hauto & Hdigest & _). split; [done|]. intros _. split_and!; [done|done|done|].
    intros s Hs Hin. each_of Hin; [destruct Hauto as [Ha|]|destruct Hdigest as [Ha|]]; try done; by destruct (Ha s Hs).
  - intros [_ Hv]. destruct (Hv Href) as (? & ? & ? & Hex). split_and!; try (done || tauto).
    all: destruct (decide (length (dis_Sources d) = 1)) as [|Hn]; [by right|left];
      intros s Hs Ht; apply Hn, (Hex s Hs); rewrite Ht; by_decision.
Qed.

Lemma validateSemverAllow_Ok allow :
  validateSemverAllow allow = Ok () ↔
  Forall (λ a, TrimSpace a ∈ ["patch"; "minor"; "major"]) allow ∧ NoDup (TrimSpace <$> allow).
Proof.
  unfold validateSemverAllow. rewrite if_bool_Err_Ok, negb_false_iff, result_bind_Ok.
  assert (Hfresh : (∃ seen, for_each (λ seen value, if decide (value ∈ seen) then Err "allow is duplicated"
      else Ok (value :: seen)) [] (TrimSpace <$> allow) = Ok seen) ↔ NoDup (TrimSpace <$> allow)).
  { rewrite (for_each_fresh _ (λ _, True) id).
    - assert (Hid : id <$> (TrimSpace <$> allow) = TrimSpace <$> allow) by apply list_fmap_id.
      rewrite Hid. split; [tauto|]. split; [by apply Forall_true|done].
    - intros acc n acc'. rewrite if_Err_Ok. split; [intros (? & [= <-])|intros (? & ? & ->)]; done. }
  rewrite <-Hfresh. clear Hfresh.
  assert (Hall : forallb (v_oneof ["patch"; "minor"; "major"]) (TrimSpace <$> allow) = true ↔
    Forall (λ a, TrimSpace a ∈ ["patch"; "minor"; "major"]) allow).
  { rewrite forallb_forall, Forall_forall. setoid_rewrite list_elem_of_In. setoid_rewrite v_oneof_spec.
    setoid_rewrite <-list_elem_of_In.
    split; [intros Hx a Ha; by apply Hx, list_elem_of_fmap_2|].
    intros Hx a (b & -> & Hb)%list_elem_of_fmap. auto. }
  rewrite Hall. firstorder.
Qed.

Lemma validateImageUpdateFilter_Ok d filter :
  validateImageUpdateFilter d filter = Ok () ↔ valid_filter d filter.
Proof.
  unfold validateImageUpdateFilter, valid_filter. destruct (isDigestDiscovery d).
  { by destruct filter. }
  destruct filter as [f|]; [|done]. unfold valid_filter_kind.
  rewrite !if_bool_Err_Ok, !negb_false_iff, v_required_spec, v_oneof_spec.
  generalize (TrimSpace (fil_Type f)); intros type.
  destruct (decide (type ∈ ["semver"; "date"; "regex"; "latest"])) as [Hin|Hno]; [|tauto].
  assert (type ≠ "") by (by (intros ->; apply (bool_decide_pack _) in Hin)).
  match goal with |- _ ∧ _ ∧ ?R ↔ _ ∧ ?S => enough (R ↔ S) by tauto end.
  each_of Hin; subst; decide_constants;
    rewrite ?validateSemverAllow_Ok, ?guard_ok_Ok, ?if_bool_Err_Ok, ?negb_false_iff, ?v_required_spec,
      ?v_oneof_spec; try solve [intuition discriminate].
  rewrite guard_ok_Ok, v_oneof_spec. intuition discriminate.
Qed.

Lemma validateImageUpdate_Ok image sources :
  validateImageUpdate image sources = Ok () ↔ valid_image sources image.
Proof.
  unfold validateImageUpdate, valid_image.
  rewrite if_Err_Ok, !result_bind_unit, schedule_ok_Ok, validateImageUpdateCurrent_Ok,
    validateImageUpdateDiscovery_Ok, validateImageUpdateFilter_Ok. done.
Qed.

Lemma map_to_list_Forall {A} (P : string * A → Prop) (m : gmap string A) :
  Forall P (map_to_list m) ↔ map_Forall (λ k x, P (k, x)) m.
Proof.
  rewrite Forall_forall. split.
  - intros Hp k x Hk. by apply Hp, elem_of_map_to_list.
  - intros Hp [k x] Hk. by apply Hp, elem_of_map_to_list.
Qed.

Lemma trimmed_names_NoDup {A} (m : gmap string A) :
  NoDup ((λ e : string * A, TrimSpace e.1) <$> map_to_list m) ↔
  ∀ n1 n2, is_Some (m !! n1) → is_Some (m !! n2) → TrimSpace n1 = TrimSpace n2 → n1 = n2.
Proof.
  split.
  - intros Hnd n1 n2 [a1 H1%elem_of_map_to_list%list_elem_of_lookup] [a2 H2%elem_of_map_to_list%list_elem_of_lookup] Heq.
    destruct H1 as [i Hi], H2 as [j Hj].
    assert (i = j) as ->; [|by simplify_eq].
    apply (proj1 (NoDup_alt _) Hnd i j (TrimSpace n1)); rewrite list_lookup_fmap;
      [rewrite Hi|rewrite Hj, Heq]; reflexivity.
  - intros Hinj. apply NoDup_fmap_2_strong; [|apply NoDup_map_to_list].
    intros [n1 a1] [n2 a2] H1%elem_of_map_to_list H2%elem_of_map_to_list Heq. cbn in Heq.
    assert (n1 = n2) as -> by (apply Hinj; eauto). by simplify_eq.
Qed.

Lemma validateUpdate_Ok update : validateUpdate update = Ok () ↔ valid_update update.
Proof.
  unfold validateUpdate, valid_update.
  rewrite !result_bind_unit, schedule_ok_Ok, for_each_unit, map_to_list_Forall, result_bind_Ok.
  assert (Hsrc : ∀ n d, check_discovery_source () (n, d) = Ok () ↔
    TrimSpace n ≠ "" ∧ dis_Ref d = "" ∧ valid_discovery None None d).
  { intros n d. unfold check_discovery_source. rewrite !if_Err_Ok, validateImageUpdateDiscovery_Ok. cbn [fst snd].
    assert (¬ dis_Ref d ≠ "" ↔ dis_Ref d = "") as -> by (split; [apply dec_stable|by intros ? []]). done. }
  unfold map_Forall. setoid_rewrite Hsrc. clear Hsrc.
  assert (Himg : (∃ seen, for_each (check_image (upd_DiscoverySources update)) [] (map_to_list (upd_Images update)) = Ok seen) ↔
    map_Forall (λ n i, TrimSpace n ≠ "" ∧ valid_image (upd_DiscoverySources update) i) (upd_Images update) ∧
    (∀ n1 n2, is_Some (upd_Images update !! n1) → is_Some (upd_Images update !! n2) →
     TrimSpace n1 = TrimSpace n2 → n1 = n2)).
  { rewrite (for_each_fresh _ (λ e, TrimSpace e.1 ≠ "" ∧ valid_image (upd_DiscoverySources update) e.2)
      (λ e, TrimSpace e.1)), map_to_list_Forall, trimmed_names_NoDup; [done|].
    intros acc [n i] acc'. unfold check_image. rewrite !if_Err_Ok, result_bind_unit, validateImageUpdate_Ok. cbn [fst snd].
    split; [by intros (? & ? & ? & [= <-])|by intros ([? ?] & ? & ->)]. }
  unfold map_Forall in Himg. rewrite <-Himg.
  split; [intros (? & ? & a & ? & _)|intros (? & ? & a & ?)]; split_and!; eauto.
Qed.


(** ** The whole metadata *)
Definition valid_meta (available : gset string) (meta meta' : Meta) : Prop :=
  sm_Name meta ≠ "" ∧
  valid_nodes available (normalizedTargetNodes meta) ∧
  (∀ network, sm_Network meta = Some network → valid_network network) ∧
  valid_compose (sm_ComposeFiles meta) ∧
  meta' = sm_set_compose ((λ f, Clean (TrimSpace f)) <$> sm_ComposeFiles meta) meta ∧
  (IsConfigInfra meta = true → valid_config_infra meta') ∧
  (∀ infra, sm_Infra meta = Some infra → valid_infra infra) ∧
  (∀ update, sm_Update meta = Some update → valid_update update) ∧
  let data := default [] (sm_DataProtect meta) in
  Forall valid_data_item data ∧ NoDup (dp_Name <$> data) ∧
  Forall (valid_backup data) (default [] (sm_Backup meta)) ∧
  Forall (valid_migrate data) (default [] (sm_Migrate meta)).

(** The checks of the data items and of the actions that name them. *)
Lemma data_items_Ok meta A (r : A) x :
  (result_bind (for_each check_data_item ∅ (default [] (sm_DataProtect meta))) (λ dataItems,
   result_bind (for_each (check_backup_item dataItems) () (default [] (sm_Backup meta))) (λ _,
   result_bind (for_each (check_migrate_item dataItems) () (default [] (sm_Migrate meta))) (λ _,
   Ok r))) = Ok x) ↔
  (let data := default [] (sm_DataProtect meta) in
  Forall valid_data_item data ∧ NoDup (dp_Name <$> data) ∧
  Forall (valid_backup data) (default [] (sm_Backup meta)) ∧
  Forall (valid_migrate data) (default [] (sm_Migrate meta))) ∧ x = r.
Proof.
  cbn zeta. generalize (default [] (sm_DataProtect meta)); intros data.
  rewrite result_bind_Ok. setoid_rewrite check_data_items_Ok. setoid_rewrite result_bind_unit.
  setoid_rewrite result_bind_unit.
  assert (Hempty : ∀ d : DataProtectItem, d ∈ data → (∅ : gmap string DataProtectItem) !! dp_Name d = None)
    by (intros; apply lookup_empty).
  assert (Hitems : NoDup (dp_Name <$> data) → ∀ n d,
    foldl (λ m d, <[dp_Name d := d]> m) (∅ : gmap string DataProtectItem) data !! n = Some d ↔
    d ∈ data ∧ dp_Name d = n).
  { intros Hnd n d. rewrite data_items_lookup by done. rewrite lookup_empty. split; [by intros [?|?]|by right]. }
  split.
  - intros (items & (Hd & Hnd & _ & ->) & Hb & Hm & [= <-]). specialize (Hitems Hnd).
    apply for_each_unit in Hb, Hm. setoid_rewrite (check_backup_item_Ok _ _ Hitems) in Hb.
    setoid_rewrite (check_migrate_item_Ok _ _ Hitems) in Hm. done.
  - intros ((Hd & Hnd & Hb & Hm) & ->). specialize (Hitems Hnd).
    eexists. split; [by split_and!|]. rewrite !for_each_unit.
    setoid_rewrite (check_backup_item_Ok _ _ Hitems). setoid_rewrite (check_migrate_item_Ok _ _ Hitems). done.
Qed.

Lemma optional_Ok {A} (o : option A) (f : A → result string ()) (P : A → Prop) :
  (∀ a, f a = Ok () ↔ P a) →
  match o with Some a => f a | None => Ok () end = Ok () ↔ ∀ a, o = Some a → P a.
Proof. intros Hf. rewrite option_all. destruct o; [apply Hf|done]. Qed.

Lemma config_Ok meta :
  (if IsConfigInfra meta then validateConfigInfra meta else Ok ()) = Ok () ↔
  (IsConfigInfra meta = true → valid_config_infra meta).
Proof. destruct (IsConfigInfra meta); [rewrite validateConfigInfra_Ok; tauto|done]. Qed.

Lemma validateServiceMeta_iff meta available meta' :
  validateServiceMeta meta available = Ok meta' ↔ valid_meta available meta meta'.
Proof.
  unfold validateServiceMeta, valid_meta, valid_nodes. rewrite !if_Err_Ok, result_bind_Ok.
  setoid_rewrite result_bind_unit. setoid_rewrite (optional_Ok _ _ _ validateNetwork_Ok).
  setoid_rewrite result_bind_Ok. setoid_rewrite NormalizedComposeFiles_Ok.
  setoid_rewrite result_bind_unit. setoid_rewrite config_Ok.
  setoid_rewrite result_bind_unit. setoid_rewrite (optional_Ok _ _ _ validateInfra_Ok).
  setoid_rewrite result_bind_unit. setoid_rewrite (optional_Ok _ _ _ validateUpdate_Ok).
  setoid_rewrite data_items_Ok. cbn zeta.
  split.
  - intros (? & ? & seen & Hseen & Hnet & files & (Hcomp & ->) & ? & ? & ? & (? & ? & ? & ?) & ->).
    destruct (proj1 (check_nodes_Ok _ _) (ex_intro _ _ Hseen)) as [? ?].
    split_and!; done.
  - intros (? & (? & ? & ?) & ? & ? & -> & ? & ? & ? & ? & ? & ? & ?).
    destruct (proj2 (check_nodes_Ok available (normalizedTargetNodes meta))) as [seen Hseen]; [done|].
    split_and!; [done|done|]. exists seen. split_and!; [done|done|]. eexists. by split_and!.
Qed.
End spec.
