(* ===== verification/ServiceRepo.v ===== *)
(** * The services of a repository: src/internal/core/repo/services.go

    Discovery over the metadata files of the top-level directories,
    validation of the whole tree (validate.go) and the rewriting of the target
    nodes of a metadata document.  Reading and decoding a file is one step:
    its result, the metadata or an error, is part of the model of the
    directory, because the decoder is the yaml package. *)
From S2P Require Export ServiceValidation.

(** ** The directory *)
(** [os.Stat] of the metadata file of an entry. *)
Inductive MetaStat :=
| MetaAbsent
| MetaStatFailed
| MetaIsDir
| MetaFile (loaded : result string Meta).

Record Entry := MkEntry {
  ent_Name : string;
  ent_IsDir : bool;
  ent_Meta : MetaStat;
}.

Section discovery.
Context `{Cron} `{Libraries}.

Definition meta_path (repoDir : string) (entry : Entry) : string :=
  JoinPath [repoDir; ent_Name entry; MetaFileName].

(** The loop over the entries, with the state of the visitor. *)
Definition walk_entry {S} (repoDir : string)
    (visit : S → string → result string Meta → result string S) (s : S) (entry : Entry) : result string S :=
  if decide (ent_IsDir entry = false ∨ ent_Name entry = ".git") then Ok s
  else match ent_Meta entry with
  | MetaAbsent | MetaIsDir => Ok s
  | MetaStatFailed => Err "stat"
  | MetaFile loaded => visit s (meta_path repoDir entry) loaded
  end.
Definition walkServiceMetaFiles {S} (repoDir : string) (entries : list Entry)
    (visit : S → string → result string Meta → result string S) (s : S) : result string S :=
  for_each (walk_entry repoDir visit) s entries.

Definition strictServiceFromMetaPath (path : string) (loaded : result string Meta)
    (availableNodeIDs : gset string) : result string Service :=
  result_bind loaded (λ meta, strictServiceFromMeta path meta availableNodeIDs).

(** ** Discovery *)
Record Discovered := MkDiscovered {
  servicesByName : gmap string Service;
  duplicateNames : gset string;
}.

Definition discover_visit (availableNodeIDs : gset string) (s : Discovered) (path : string)
    (loaded : result string Meta) : result string Discovered :=
  match strictServiceFromMetaPath path loaded availableNodeIDs with
  | Err _ => Ok s
  | Ok service =>
      let name := svc_Name service in
      if decide (name ∈ duplicateNames s) then Ok s
      else if decide (is_Some (servicesByName s !! name)) then
        Ok (MkDiscovered (delete name (servicesByName s)) ({[name]} ∪ duplicateNames s))
      else Ok (MkDiscovered (<[name := service]> (servicesByName s)) (duplicateNames s))
  end.

Definition by_name (a b : Service) : Prop := String.le (svc_Name a) (svc_Name b).
#[export] Instance by_name_dec a b : Decision (by_name a b) := _.

Definition DiscoverServices (repoDir : string) (entries : list Entry) (availableNodeIDs : gset string)
    : result string (list Service) :=
  result_bind (walkServiceMetaFiles repoDir entries (discover_visit availableNodeIDs)
                 (MkDiscovered ∅ ∅)) (λ s,
  Ok (merge_sort by_name (snd <$> map_to_list (servicesByName s)))).

(** ** Search for one service: by name, or by its infrastructure role *)
Definition find_visit (wanted : Meta → bool) (duplicated : string) (availableNodeIDs : gset string)
    (matched : option Service) (path : string) (loaded : result string Meta)
    : result string (option Service) :=
  match loaded with
  | Err _ => Ok matched
  | Ok meta =>
      if wanted meta then
        result_bind (strictServiceFromMeta path meta availableNodeIDs) (λ service,
        match matched with
        | Some _ => Err duplicated
        | None => Ok (Some service)
        end)
      else Ok matched
  end.

Definition find_service (wanted : Meta → bool) (duplicated missing : string) (repoDir : string)
    (entries : list Entry) (availableNodeIDs : gset string) : result string Service :=
  result_bind (walkServiceMetaFiles repoDir entries (find_visit wanted duplicated availableNodeIDs) None)
    (λ matched, match matched with Some service => Ok service | None => Err missing end).

Definition FindService (repoDir : string) (entries : list Entry) (availableNodeIDs : gset string)
    (serviceName : string) : result string Service :=
  find_service (λ meta, bool_decide (sm_Name meta = serviceName))
    "service is declared more than once" "service is not declared" repoDir entries availableNodeIDs.
Definition FindCaddyInfraService (repoDir : string) (entries : list Entry)
    (availableNodeIDs : gset string) : result string Service :=
  find_service (λ meta, bool_decide (infra_caddy meta ≠ None))
    "caddy infra service is declared more than once" "caddy infra service is not declared"
    repoDir entries availableNodeIDs.
Definition FindRusticInfraService (repoDir : string) (entries : list Entry)
    (availableNodeIDs : gset string) : result string Service :=
  find_service (λ meta, bool_decide (infra_rustic meta ≠ None))
    "rustic infra service is declared more than once" "rustic infra service is not declared"
    repoDir entries availableNodeIDs.

(** ** At a revision (service_revision.go): the paths of the revision and the
    result of reading and decoding one of them come from git. *)
Definition FindServiceAtRevision (repoDir revision serviceDir : string)
    (read_at : string → result string Meta) (availableNodeIDs : gset string) : result string Service :=
  if decide (TrimSpace revision = "") then Err "service revision is required"
  else
    let relativeMetaPath := JoinPath [serviceDir; MetaFileName] in
    result_bind (read_at relativeMetaPath) (λ meta,
    result_bind (strictServiceFromMeta relativeMetaPath meta availableNodeIDs) (λ service,
    let directory := JoinPath [repoDir; serviceDir] in
    Ok (MkService (svc_Name service) directory (JoinPath [directory; MetaFileName])
          (svc_TargetNodes service) (svc_Enabled service) (svc_Meta service)))).

Definition is_service_meta (path : string) : bool :=
  bool_decide (Base path = MetaFileName) &&
  negb (bool_decide (Dir path = ".") || Contains (Dir path) "/").
Definition ListServiceMetaFilesAtRevision (files : list string) : list string :=
  filter (λ p, is_service_meta p = true) files.

Definition rustic_visit (repoDir : string) (read_at : string → result string Meta)
    (availableNodeIDs : gset string) (matched : option Service) (path : string)
    : result string (option Service) :=
  result_bind (read_at path) (λ meta,
  if decide (infra_rustic meta = None) then Ok matched
  else result_bind (strictServiceFromMeta path meta availableNodeIDs) (λ service,
    let directory := JoinPath [repoDir; Dir path] in
    match matched with
    | Some _ => Err "rustic infra service is declared more than once"
    | None => Ok (Some (MkService (svc_Name service) directory (JoinPath [directory; MetaFileName])
                (svc_TargetNodes service) (svc_Enabled service) (svc_Meta service)))
    end)).
Definition FindRusticInfraServiceAtRevision (repoDir revision : string)
    (files : result string (list string))
    (read_at : string → result string Meta) (availableNodeIDs : gset string) : result string Service :=
  if decide (TrimSpace revision = "") then Err "rustic infra service revision is required"
  else result_bind files (λ files,
       result_bind (for_each (rustic_visit repoDir read_at availableNodeIDs) None
                      (ListServiceMetaFilesAtRevision files)) (λ matched,
       match matched with
       | Some service => Ok service
       | None => Err "rustic infra service is not declared"
       end)).

(** ** Validation of the tree (validate.go)

    [filepath.WalkDir] visits the entries in order and calls the function
    with an error for those it could not read; the paths are relative to the
    repository.  An error of the file itself carries the line its text names. *)
Inductive Walked :=
| WalkFailed (path : string) (message : string)
| WalkFile (path : string) (loaded : result string Meta).

Record ValidationError := MkValidationError {
  ve_Path : string;
  ve_Line : Z;
  ve_Message : string;
}.

Record RepoCheck := MkRepoCheck {
  rc_errors : list ValidationError;
  rc_seenServiceNames : gmap string string;
  rc_caddyInfraPaths : list string;
  rc_rusticInfraPaths : list string;
}.

(** The number after [line] in the text of an error, 0 without one. *)
Context (error_line : string → Z).

Definition validationErrorFrom (path err : string) : ValidationError :=
  MkValidationError path (error_line err) err.
Definition declared_twice (path : string) : ValidationError :=
  MkValidationError path 0 "service is declared more than once".

Definition validate_visit (availableNodeIDs : gset string) (s : RepoCheck) (walked : Walked) : RepoCheck :=
  let fail errors := MkRepoCheck (rc_errors s ++ errors) (rc_seenServiceNames s)
                       (rc_caddyInfraPaths s) (rc_rusticInfraPaths s) in
  match walked with
  | WalkFailed path message => fail [MkValidationError path 0 message]
  | WalkFile path loaded =>
      if decide (Base path ≠ MetaFileName) then s
      else match loaded with
      | Err err => fail [validationErrorFrom path err]
      | Ok meta =>
          match validateServiceMeta meta availableNodeIDs with
          | Err err => fail [validationErrorFrom path err]
          | Ok meta =>
              match rc_seenServiceNames s !! sm_Name meta with
              | Some previousPath => fail [declared_twice previousPath; declared_twice path]
              | None =>
                  MkRepoCheck (rc_errors s) (<[sm_Name meta := path]> (rc_seenServiceNames s))
                    (if decide (infra_caddy meta ≠ None) then rc_caddyInfraPaths s ++ [path]
                     else rc_caddyInfraPaths s)
                    (if decide (infra_rustic meta ≠ None) then rc_rusticInfraPaths s ++ [path]
                     else rc_rusticInfraPaths s)
              end
          end
      end
  end.

Definition more_than_one (paths : list string) (message : string) : list ValidationError :=
  if decide (1 < length paths) then (λ p, MkValidationError p 0 message) <$> paths else [].

Definition error_le (a b : ValidationError) : Prop :=
  if decide (ve_Path a = ve_Path b) then (ve_Line a ≤ ve_Line b)%Z
  else String.le (ve_Path a) (ve_Path b).
#[export] Instance error_le_dec a b : Decision (error_le a b).
Proof. unfold error_le. case_decide; apply _. Defined.

Definition ValidateRepo (walked : list Walked) (availableNodeIDs : gset string) : list ValidationError :=
  let s := foldl (validate_visit availableNodeIDs) (MkRepoCheck [] ∅ [] []) walked in
  merge_sort error_le
    (rc_errors s ++
     more_than_one (rc_caddyInfraPaths s) "infra.caddy may only be declared once in the repository" ++
     more_than_one (rc_rusticInfraPaths s) "infra.rustic may only be declared once in the repository").
End discovery.

(** ** Rewriting the target nodes of a document

    A node of a YAML document; [extra] is its position, style, anchor and
    comments, which the code leaves alone and which are zero in a new node. *)
Inductive Kind := DocumentNode | SequenceNode | MappingNode | ScalarNode | AliasNode.
#[export] Instance Kind_eq_dec : EqDecision Kind.
Proof. solve_decision. Defined.

Inductive Node (X : Type) := MkNode (kind : Kind) (tag value : string) (extra : X) (content : list (Node X)).
Arguments MkNode {X} kind tag value extra content.

Section rewriting.
Context {X : Type} (zero : X).

Definition node_Kind (n : Node X) : Kind := match n with MkNode k _ _ _ _ => k end.
Definition node_Value (n : Node X) : string := match n with MkNode _ _ v _ _ => v end.
Definition node_Content (n : Node X) : list (Node X) := match n with MkNode _ _ _ _ c => c end.
Definition set_Content (content : list (Node X)) (n : Node X) : Node X :=
  match n with MkNode k t v x _ => MkNode k t v x content end.

(** The content of a mapping is its keys and values in turn. *)
Fixpoint remove_key (key : string) (content : list (Node X)) : list (Node X) :=
  match content with
  | k :: v :: rest => if decide (node_Value k = key) then rest else k :: v :: remove_key key rest
  | _ => content
  end.
Definition removeMappingKey (key : string) (mapping : Node X) : Node X :=
  if decide (node_Kind mapping ≠ MappingNode) then mapping
  else set_Content (remove_key key (node_Content mapping)) mapping.

Definition scalar (value : string) : Node X := MkNode ScalarNode "!!str" value zero [].
Definition sequence (values : list string) : Node X :=
  MkNode SequenceNode "!!seq" "" zero (scalar <$> values).

(** The value of the first pair with the key, or the position after the last
    node. *)
Fixpoint set_key (key : string) (value : Node X) (content : list (Node X)) : list (Node X) :=
  match content with
  | k :: v :: rest =>
      if decide (node_Value k = key) then k :: value :: rest else k :: v :: set_key key value rest
  | _ => content ++ [scalar key; value]
  end.
Definition setMappingSequence (key : string) (values : list string) (mapping : Node X) : Node X :=
  if decide (node_Kind mapping ≠ MappingNode) then mapping
  else set_Content (set_key key (sequence values) (node_Content mapping)) mapping.

Definition updateServiceTargetNodesNode (nodeIDs : list string) (document : Node X) : Node X :=
  match node_Content document with
  | [] => document
  | mapping :: others =>
      if decide (node_Kind mapping ≠ MappingNode) then document
      else set_Content (setMappingSequence "nodes" nodeIDs (removeMappingKey "node" mapping) :: others) document
  end.

(** [loaded] and [document] are the two decodings of the file; the result is
    the document to encode. *)
Definition RewriteServiceTargetNodes `{Cron} `{Libraries} (loaded : result string Meta)
    (document : result string (Node X)) (nodeIDs : list string) (availableNodeIDs : gset string)
    : result string (Node X) :=
  result_bind loaded (λ meta,
  let normalizedNodes := normalizeNodeIDs nodeIDs in
  result_bind (validateServiceMeta (sm_set_nodes normalizedNodes meta) availableNodeIDs) (λ _,
  result_bind document (λ document,
  Ok (updateServiceTargetNodesNode normalizedNodes document)))).
End rewriting.
