(* ===== verification/Config.v ===== *)
(** * Configuration: src/internal/core/config/{config,notification,dns}.go

    The controller and agent sections after decoding and after the
    token files were read, and their validation.  A pointer is an [option],
    a slice that may be nil where the code can tell is an [option] too.  Of an
    error its text is kept without the names put into it. *)
From Stdlib Require Import Ascii.
From S2P Require Export ServiceValidation Task.
Local Open Scope go_scope.

Definition LocalMainNodeID : string := "main".

(** ** Data *)
Record NodeConfig := MkNodeConfig {
  nc_ID : string;
  nc_DisplayName : string;
  nc_Enabled : option bool;
  nc_PublicIPv4 : string;
  nc_PublicIPv6 : string;
  nc_Token : string;
}.
Record AccessTokenConfig := MkAccessTokenConfig {
  act_Name : string;
  act_Token : string;
  act_Enabled : option bool;
}.
Record CloudflareDNSConfig := MkCloudflareDNSConfig { cfd_APIToken : string; cfd_Zones : list string }.
(** [AliDNSConfig], [DNSPodConfig], [Route53DNSConfig] and
    [HuaweiCloudDNSConfig]: the id and the secret of the key, and the zones. *)
Record KeyDNSConfig := MkKeyDNSConfig { kd_ID : string; kd_Secret : string; kd_Zones : list string }.
Record ControllerDNSConfig := MkControllerDNSConfig {
  cd_Cloudflare : option CloudflareDNSConfig;
  cd_AliDNS : option KeyDNSConfig;
  cd_DNSPod : option KeyDNSConfig;
  cd_Route53 : option KeyDNSConfig;
  cd_HuaweiCloud : option KeyDNSConfig;
}.
Record ControllerCloudflareTunnelConfig := MkControllerCloudflareTunnelConfig {
  ct_AccountID : string;
  ct_APIToken : string;
  ct_Zones : list string;
  ct_Tunnels : gmap string (string * string);
  ct_Nodes : gmap string string;
}.
Record ControllerRusticConfig := MkControllerRusticConfig {
  cr_MainNodes : list string;
  cr_Maintenance : option (string * string);
}.
(** The token file is read into the token when the secrets are resolved. *)
Record ForgeAuthConfig := MkForgeAuthConfig { fa_URL : string; fa_Token : string; fa_APIURL : string }.
Record ControllerUpdatesForgeAuth := MkControllerUpdatesForgeAuth {
  fas_GitHub : list ForgeAuthConfig;
  fas_GitLab : list ForgeAuthConfig;
  fas_Forgejo : list ForgeAuthConfig;
}.
Record ControllerUpdatesConfig := MkControllerUpdatesConfig {
  cu_DefaultCheckSchedule : string;
  cu_AutoApply : option bool;
  cu_BackupBeforeUpdate : option bool;
  cu_DigestPin : option bool;
  cu_Semver : option (list string);
  cu_ForgeAuth : option ControllerUpdatesForgeAuth;
}.
Record AlertmanagerConfig := MkAlertmanagerConfig { am_Enabled : option bool; am_ListenPath : string }.
Record SMTPConfig := MkSMTPConfig {
  smtp_Enabled : option bool;
  smtp_Host : string;
  smtp_Port : Z;
  smtp_Encryption : string;
  smtp_From : string;
  smtp_To : list string;
  smtp_On : list string;
  smtp_TaskSources : list string;
}.
Record TelegramConfig := MkTelegramConfig {
  tg_Enabled : option bool;
  tg_BotToken : string;
  tg_ChatID : string;
  tg_On : list string;
  tg_TaskSources : list string;
}.
Record ControllerNotificationsConfig := MkControllerNotificationsConfig {
  cn_Alertmanager : option AlertmanagerConfig;
  cn_SMTP : option SMTPConfig;
  cn_Telegram : option TelegramConfig;
}.
Record ControllerGitConfig := MkControllerGitConfig {
  cg_RemoteURL : string;
  cg_Branch : string;
  cg_PullInterval : string;
  cg_LocalFirst : option bool;
  cg_Auth : option (string * string);
  cg_AuthorName : string;
  cg_AuthorEmail : string;
}.
Definition LocalFirstEnabled (cfg : ControllerGitConfig) : bool := default true (cg_LocalFirst cfg).
Record ControllerConfig := MkControllerConfig {
  cc_ListenAddr : string;
  cc_RepoDir : string;
  cc_StateDir : string;
  cc_LogDir : string;
  cc_Backup : option string;
  cc_Git : option ControllerGitConfig;
  cc_Notifications : option ControllerNotificationsConfig;
  cc_Nodes : option (list NodeConfig);
  cc_AccessTokens : list AccessTokenConfig;
  cc_DNS : option ControllerDNSConfig;
  cc_CloudflareTunnel : option ControllerCloudflareTunnelConfig;
  cc_Rustic : option ControllerRusticConfig;
  cc_Secrets : option (string * string);
  cc_Updates : option ControllerUpdatesConfig;
}.
Record AgentConfig := MkAgentConfig {
  ag_ControllerAddr : string;
  ag_ControllerHeaders : list (string * string);
  ag_NodeID : string;
  ag_Token : string;
  ag_RepoDir : string;
  ag_StateDir : string;
  ag_GeneratedDir : string;
}.
Definition configured_nodes (controller : ControllerConfig) : list NodeConfig := default [] (cc_Nodes controller).

(** ** DNS zones (dns.go) *)
Definition normalizeDNSName (value : string) : string := ToLower (TrimSuffix (TrimSpace value) ".").
Definition dnsNameMatchesZone (name zone : string) : bool :=
  bool_decide (name = zone) || HasSuffix name ("." +:+ zone).

Definition provider_zones (provider : string) (rawZones : option (list string)) : list (string * string) :=
  omap (λ rawZone, let zone := normalizeDNSName rawZone in
                   if decide (zone = "") then None else Some (provider, zone)) (default [] rawZones).
(** Pairs of provider and zone. *)
Definition dnsZones (dns : option ControllerDNSConfig) : list (string * string) :=
  match dns with
  | None => []
  | Some dns =>
      provider_zones "cloudflare" (cfd_Zones <$> cd_Cloudflare dns) ++
      provider_zones "alidns" (kd_Zones <$> cd_AliDNS dns) ++
      provider_zones "dnspod" (kd_Zones <$> cd_DNSPod dns) ++
      provider_zones "route53" (kd_Zones <$> cd_Route53 dns) ++
      provider_zones "huaweicloud" (kd_Zones <$> cd_HuaweiCloud dns)
  end.

(** The loop keeps the best zone and its provider. *)
Definition dns_candidate (fqdn : string) (best : string * string) (candidate : string * string)
    : result string (string * string) :=
  let '(bestZone, provider) := best in
  let '(candidate_provider, zone) := candidate in
  if negb (dnsNameMatchesZone fqdn zone) then Ok best
  else if decide (String.length zone < String.length bestZone) then Ok best
  else if decide (String.length zone = String.length bestZone ∧ provider ≠ "" ∧
                  provider ≠ candidate_provider)
  then Err "hostname matches equally specific DNS zone"
  else Ok (zone, candidate_provider).

Definition ResolveDNSProvider (controller : ControllerConfig) (hostname : string) : result string string :=
  match cc_DNS controller with
  | None => Err "controller dns is not configured"
  | Some dns =>
      result_bind (for_each (dns_candidate (normalizeDNSName hostname)) ("", "") (dnsZones (Some dns)))
        (λ best, if decide (best.2 = "") then Err "no configured DNS zone matched hostname" else Ok best.2)
  end.

Definition validateDNSZones (zones : list string) : result string () :=
  guard_ok (existsb (λ zone, negb (bool_decide (normalizeDNSName zone = ""))) zones)
    "must contain at least one zone".

Definition check_zone (seen : gmap string string) (candidate : string * string)
    : result string (gmap string string) :=
  let '(provider, zone) := candidate in
  match seen !! zone with
  | Some previous =>
      if decide (previous ≠ provider) then Err "controller.dns zone is configured for both"
      else Ok (<[zone := provider]> seen)
  | None => Ok (<[zone := provider]> seen)
  end.
Definition validateControllerDNS (dns : option ControllerDNSConfig) : result string () :=
  match dns with
  | None => Ok ()
  | Some controller =>
      (match cd_Cloudflare controller with
       | Some cloudflare => validateDNSZones (cfd_Zones cloudflare) | None => Ok () end) ;!
      for_each check_zone ∅ (dnsZones dns) ;!
      Ok ()
  end.

(** ** Notifications (notification.go) *)
Definition IsEnabled (enabled : option bool) : bool := default true enabled.
Definition EffectiveListenPath (cfg : AlertmanagerConfig) : string :=
  if decide (TrimSpace (am_ListenPath cfg) = "") then "/api/v1/alerts" else TrimSpace (am_ListenPath cfg).
Definition is_whitespace_byte (c : ascii) : bool :=
  bool_decide (c = " "%char ∨ c = byte 9 ∨ c = byte 10 ∨ c = byte 13).

Definition IsValidEventType (value : string) : bool :=
  bool_decide (value ∈ ["task_failed"; "task_cancelled"; "task_completed"; "task_awaiting_confirmation";
    "backup_completed"; "backup_failed"; "image_update_available"; "image_update_applied";
    "node_offline"; "node_online"; "alertmanager_alert"]).

Definition normalized_value (value : string) : string := TrimSpace (ToLower value).
(** The loop of [validateNotificationEvents] and [validateNotificationTaskSources]. *)
Definition check_value (supported : string → bool) (seen : list string) (value : string)
    : result string (list string) :=
  let normalized := normalized_value value in
  if decide (normalized = "") then Err "must not be empty"
  else if negb (supported normalized) then Err "is not supported"
  else if decide (normalized ∈ seen) then Err "is duplicated"
  else Ok (normalized :: seen).
Definition validateNotificationEvents (values : list string) : result string () :=
  for_each (check_value IsValidEventType) [] values ;! Ok ().
Definition validateNotificationTaskSources (values : list string) : result string () :=
  for_each (check_value (λ source, bool_decide (source ∈
    [SourceWeb; SourceCLI; SourceOthers; SourceSchedule; SourceSystem; SourceAutoDeploy]))) [] values ;! Ok ().

Definition NormalizeSMTPEncryption (value : string) : string :=
  if decide (normalized_value value = "") then "starttls" else normalized_value value.

Definition validateAlertmanagerNotifications (cfg : option AlertmanagerConfig) : result string () :=
  match cfg with
  | None => Ok ()
  | Some cfg =>
      if negb (IsEnabled (am_Enabled cfg)) then Ok ()
      else if negb (HasPrefix (EffectiveListenPath cfg) "/") then Err "listen_path must start with /"
      else if existsb is_whitespace_byte (String.list_ascii_of_string (EffectiveListenPath cfg))
      then Err "listen_path must not contain whitespace"
      else Ok ()
  end.

Definition validateSMTPNotifications (cfg : option SMTPConfig) : result string () :=
  match cfg with
  | None => Ok ()
  | Some cfg =>
      validateNotificationEvents (smtp_On cfg) ;!
      validateNotificationTaskSources (smtp_TaskSources cfg) ;!
      if negb (IsEnabled (smtp_Enabled cfg)) then Ok ()
      else if decide (TrimSpace (smtp_Host cfg) = "") then Err "smtp.host is required"
      else if decide (smtp_Port cfg ≤ 0 ∨ 65535 < smtp_Port cfg)%Z
      then Err "smtp.port must be between 1 and 65535"
      else if decide (NormalizeSMTPEncryption (smtp_Encryption cfg) ∉ ["none"; "starttls"; "ssl_tls"])
      then Err "smtp.encryption must be one of none, starttls, or ssl_tls"
      else if decide (TrimSpace (smtp_From cfg) = "") then Err "smtp.from is required"
      else if decide (smtp_To cfg = []) then Err "smtp.to must contain at least one recipient"
      else if existsb (λ recipient, bool_decide (TrimSpace recipient = "")) (smtp_To cfg)
      then Err "smtp.to[] must not be empty"
      else Ok ()
  end.

Definition validateTelegramNotifications (cfg : option TelegramConfig) : result string () :=
  match cfg with
  | None => Ok ()
  | Some cfg =>
      validateNotificationEvents (tg_On cfg) ;!
      validateNotificationTaskSources (tg_TaskSources cfg) ;!
      if negb (IsEnabled (tg_Enabled cfg)) then Ok ()
      else if decide (TrimSpace (tg_BotToken cfg) = "") then Err "telegram.bot_token is required"
      else if decide (TrimSpace (tg_ChatID cfg) = "") then Err "telegram.chat_id is required"
      else Ok ()
  end.

Definition validateControllerNotifications (cfg : option ControllerNotificationsConfig) : result string () :=
  match cfg with
  | None => Ok ()
  | Some cfg =>
      validateAlertmanagerNotifications (cn_Alertmanager cfg) ;!
      validateSMTPNotifications (cn_SMTP cfg) ;!
      validateTelegramNotifications (cn_Telegram cfg)
  end.

(** ** The sections (config.go) *)
(** [filepath.Abs] and [filepath.EvalSymlinks], which read the file system. *)
Class PathResolver := {
  path_Abs : string → option string;
  EvalSymlinks : string → option string;
}.

Section config.
Context `{Cron} `{Libraries} `{PathResolver}.

Definition physicalPath (path : string) : string :=
  let absPath := default path (path_Abs path) in
  Clean (default absPath (EvalSymlinks absPath)).
Definition samePath (left_ right_ : string) : bool :=
  if decide (left_ = "" ∨ right_ = "") then false
  else bool_decide (physicalPath left_ = physicalPath right_).

Definition hasNode (nodes : list NodeConfig) (nodeID : string) : bool :=
  existsb (λ node, bool_decide (nc_ID node = nodeID)) nodes.

Definition validateSharedControllerAgentConfig (controller : ControllerConfig) (agent : AgentConfig)
    : result string () :=
  if decide (ag_NodeID agent ≠ LocalMainNodeID) then Err "agent.node_id must be main"
  else if samePath (cc_RepoDir controller) (ag_RepoDir agent)
  then Err "controller.repo_dir and agent.repo_dir must not use the same path"
  else guard_ok (hasNode (configured_nodes controller) LocalMainNodeID) "controller.nodes must include main".

(** The ids seen, and the node of each token. *)
Definition check_node_config (seen : gset string * gmap string string) (node : NodeConfig)
    : result string (gset string * gmap string string) :=
  if negb (v_required (nc_ID node)) then Err "controller.nodes[].id is required"
  else if negb (v_required (nc_Token node)) then Err "controller.nodes[].token is required"
  else if decide (nc_ID node ∈ seen.1) then Err "controller.nodes is duplicated"
  else match seen.2 !! nc_Token node with
  | Some _ => Err "controller.nodes[].token duplicates"
  | None => Ok ({[nc_ID node]} ∪ seen.1, <[nc_Token node := nc_ID node]> seen.2)
  end.

Definition check_access_token (seenNodeTokens : gmap string string) (seen : gmap string string)
    (token : AccessTokenConfig) : result string (gmap string string) :=
  if negb (v_required (act_Name token)) then Err "controller.access_tokens[].name is required"
  else if negb (v_required (act_Token token)) then Err "controller.access_tokens[].token is required"
  else match seenNodeTokens !! act_Token token with
  | Some _ => Err "controller.access_tokens[].token duplicates controller.nodes"
  | None =>
      match seen !! act_Token token with
      | Some _ => Err "controller.access_tokens[].token duplicates controller.access_tokens"
      | None => Ok (<[act_Token token := act_Name token]> seen)
      end
  end.

Definition check_main_node (seenNodeIDs : gset string) (_ : ()) (nodeID : string) : result string () :=
  let nodeID := TrimSpace nodeID in
  if decide (nodeID = "") then Err "controller.rustic.main_nodes[] must not be empty"
  else if decide (nodeID ∉ seenNodeIDs)
  then Err "controller.rustic.main_nodes must reference a configured controller.nodes entry"
  else Ok ().

Definition validate_rustic (seenNodeIDs : gset string) (rustic : option ControllerRusticConfig)
    : result string () :=
  match rustic with
  | None => Ok ()
  | Some rustic =>
      for_each (check_main_node seenNodeIDs) () (cr_MainNodes rustic) ;!
      match cr_Maintenance rustic with
      | None => Ok ()
      | Some (forget, prune) =>
          schedule_ok forget "controller.rustic.maintenance.forget_schedule" ;!
          schedule_ok prune "controller.rustic.maintenance.prune_schedule"
      end
  end.

Definition check_tunnel (_ : ()) (entry : string * (string * string)) : result string () :=
  if decide (TrimSpace entry.1 = "") then Err "controller.cloudflare_tunnel.tunnels keys must not be empty"
  else if decide (TrimSpace entry.2.1 = "") then Err "controller.cloudflare_tunnel.tunnels[].tunnel_id is required"
  else Ok ().
Definition check_tunnel_node (configuredNodeIDs : gset string) (tunnels : gmap string (string * string))
    (_ : ()) (entry : string * string) : result string () :=
  if decide (TrimSpace entry.1 = "") then Err "controller.cloudflare_tunnel.nodes keys must not be empty"
  else if decide (entry.1 ∉ configuredNodeIDs)
  then Err "controller.cloudflare_tunnel.nodes must reference a configured controller.nodes entry"
  else if decide (TrimSpace entry.2 = "") then Err "controller.cloudflare_tunnel.nodes[].tunnel is required"
  else if decide (tunnels !! entry.2 = None)
  then Err "controller.cloudflare_tunnel.nodes[].tunnel references unknown tunnel"
  else Ok ().
Definition validateControllerCloudflareTunnel (cfg : option ControllerCloudflareTunnelConfig)
    (configuredNodeIDs : gset string) : result string () :=
  match cfg with
  | None => Ok ()
  | Some cfg =>
      if decide (TrimSpace (ct_AccountID cfg) = "") then Err "controller.cloudflare_tunnel.account_id is required"
      else if decide (TrimSpace (ct_APIToken cfg) = "") then Err "controller.cloudflare_tunnel.api_token is required"
      else
        validateDNSZones (ct_Zones cfg) ;!
        if decide (ct_Tunnels cfg = ∅)
        then Err "controller.cloudflare_tunnel.tunnels must contain at least one tunnel"
        else
          for_each check_tunnel () (map_to_list (ct_Tunnels cfg)) ;!
          for_each (check_tunnel_node configuredNodeIDs (ct_Tunnels cfg)) () (map_to_list (ct_Nodes cfg))
  end.

Definition validateControllerUpdatesSemverAllow (allow : list string) : result string () :=
  let normalizedAllow := TrimSpace <$> allow in
  if negb (forallb (v_oneof ["patch"; "minor"; "major"]) normalizedAllow)
  then Err "controller.updates.semver.default_allow must contain only patch, minor, or major"
  else for_each (λ seen value, if decide (value ∈ seen)
                               then Err "controller.updates.semver.default_allow is duplicated"
                               else Ok (value :: seen)) [] normalizedAllow ;! Ok ().

Definition validate_updates (updates : option ControllerUpdatesConfig) : result string () :=
  match updates with
  | None => Ok ()
  | Some updates =>
      schedule_ok (cu_DefaultCheckSchedule updates) "controller.updates.default_check_schedule" ;!
      match cu_Semver updates with
      | Some allow => validateControllerUpdatesSemverAllow allow
      | None => Ok ()
      end
  end.

Definition required_fields (controller : ControllerConfig) : result string () :=
  if negb (v_required (cc_ListenAddr controller)) then Err "controller.listen_addr is required"
  else if negb (v_required (cc_RepoDir controller)) then Err "controller.repo_dir is required"
  else if negb (v_required (cc_StateDir controller)) then Err "controller.state_dir is required"
  else if negb (v_required (cc_LogDir controller)) then Err "controller.log_dir is required"
  else if decide (cc_Nodes controller = None)
  then Err "controller.nodes must be present, even if it is empty"
  else Ok ().

Definition validateController (controller : ControllerConfig) (agent : option AgentConfig)
    : result string () :=
  required_fields controller ;!
  validateControllerDNS (cc_DNS controller) ;!
  result_bind (for_each check_node_config (∅, ∅) (configured_nodes controller)) (λ '(seenNodeIDs, seenNodeTokens),
  validate_rustic seenNodeIDs (cc_Rustic controller) ;!
  validateControllerCloudflareTunnel (cc_CloudflareTunnel controller) seenNodeIDs ;!
  (match cc_Backup controller with
   | Some spec => schedule_ok spec "controller.backup.default_schedule"
   | None => Ok ()
   end) ;!
  validateControllerNotifications (cc_Notifications controller) ;!
  validate_updates (cc_Updates controller) ;!
  (match cc_Git controller with
   | Some git =>
       guard_ok (bool_decide (cg_RemoteURL git = "" ∨ cg_PullInterval git ≠ ""))
         "controller.git.pull_interval is required"
   | None => Ok ()
   end) ;!
  for_each (check_access_token seenNodeTokens) ∅ (cc_AccessTokens controller) ;!
  (match cc_Secrets controller with
   | Some (provider, identityFile) =>
       if negb (v_required provider && v_oneof ["age"] provider) then Err "controller.secrets.provider must be age"
       else guard_ok (v_required identityFile) "controller.secrets.identity_file is required"
   | None => Ok ()
   end) ;!
  match agent with
  | Some agent => validateSharedControllerAgentConfig controller agent
  | None => Ok ()
  end).

Definition check_header (seenHeaders : list string) (header : string * string) : result string (list string) :=
  let name := TrimSpace header.1 in
  if negb (v_required name) then Err "agent.controller_headers[].name is required"
  else if negb (v_required (TrimSpace header.2)) then Err "agent.controller_headers[].value is required"
  else if decide (ToLower name ∈ seenHeaders) then Err "agent.controller_headers is duplicated"
  else Ok (ToLower name :: seenHeaders).

Definition validateAgent (agent : AgentConfig) (controller : option ControllerConfig) : result string () :=
  if negb (v_required (ag_ControllerAddr agent)) then Err "agent.controller_addr is required"
  else if negb (v_required (ag_NodeID agent)) then Err "agent.node_id is required"
  else if negb (v_required (ag_Token agent)) then Err "agent.token is required"
  else if negb (v_required (ag_RepoDir agent)) then Err "agent.repo_dir is required"
  else if negb (v_required (ag_StateDir agent)) then Err "agent.state_dir is required"
  else
    for_each check_header [] (ag_ControllerHeaders agent) ;!
    match controller with
    | Some controller => validateSharedControllerAgentConfig controller agent
    | None => Ok ()
    end.
End config.

(** ** The tokens the servers accept *)
Definition NodeTokenMap (controller : ControllerConfig) : gmap string string :=
  foldl (λ tokens node, <[nc_Token node := nc_ID node]> tokens) ∅ (configured_nodes controller).
Definition EnabledAccessTokenMap (controller : ControllerConfig) : gmap string string :=
  foldl (λ tokens token, if default true (act_Enabled token)
                         then <[act_Token token := act_Name token]> tokens else tokens)
    ∅ (cc_AccessTokens controller).

Definition CaddyGeneratedDir (agent : AgentConfig) : string :=
  if decide (ag_GeneratedDir agent ≠ "") then ag_GeneratedDir agent
  else JoinPath [ag_StateDir agent; "caddy"; "generated"].

(** ** Concrete libraries, for the instances of the theorems

    A cron library that fires every minute and accepts every text, a
    validator that decides membership, and a file system without links. *)
Definition cron_example : Cron :=
  {| cron_Schedule := (); cron_Parse _ := Ok (); cron_Next _ t := (t + Time.Minute)%Z |}.

Definition libraries_example : Libraries.
Proof.
  refine {| v_required := λ s, bool_decide (s ≠ ""); v_oneof := λ l s, bool_decide (s ∈ l);
            regexp_compiles _ := true; request_uri _ := true |}; intros; apply bool_decide_eq_true.
Defined.

Definition resolver_example : PathResolver := {| path_Abs := Some; EvalSymlinks := Some |}.
