(* ===== verification/ServiceTheorems.v ===== *)
(** * Properties of service metadata and of discovery

    Discovery, search and validation of the tree against their specification,
    and what an accepted service is confined to. *)

(** ** Discovery, search and validation of the services of a repository *)
From S2P Require Export ServiceRepo ServiceSpec.

(** ** What the walk visits *)
Section visited.
Context `{Cron} `{Libraries} (repoDir : string) (available : gset string).

Definition skipped (entry : Entry) : Prop := ent_IsDir entry = false ∨ ent_Name entry = ".git".
#[export] Instance skipped_dec entry : Decision (skipped entry) := _.
Definition readable (entries : list Entry) : Prop :=
  Forall (λ e, skipped e ∨ ent_Meta e ≠ MetaStatFailed) entries.

Definition visited_file (entry : Entry) : option (string * result string Meta) :=
  if decide (skipped entry) then None
  else match ent_Meta entry with
  | MetaFile loaded => Some (meta_path repoDir entry, loaded)
  | _ => None
  end.
Definition visited (entries : list Entry) : list (string * result string Meta) :=
  omap visited_file entries.

Lemma walk_Ok {S} visit (s s' : S) entries :
  walkServiceMetaFiles repoDir entries visit s = Ok s' ↔
  readable entries ∧ for_each (λ s f, visit s f.1 f.2) s (visited entries) = Ok s'.
Proof.
  unfold walkServiceMetaFiles, readable. revert s. induction entries as [|e entries IH]; intros s.
  - split; [by split|by intros [_ ?]].
  - cbn [for_each visited omap list_omap]. rewrite Forall_cons, result_bind_Ok. unfold walk_entry at 1, visited_file at 1.
    fold (visited entries). unfold skipped, skipped_dec in *.
    destruct (decide (ent_IsDir e = false ∨ ent_Name e = ".git")) as [Hs|Hs].
    { setoid_rewrite IH. split; [intros (? & [= <-] & ?); tauto|intros ([_ ?] & ?); eauto]. }
    destruct (ent_Meta e) as [| | |loaded]; cbn [for_each].
    + setoid_rewrite IH. split; [intros (? & [= <-] & ? & ?); by split_and!; [right|..]|intros ([_ ?] & ?); eauto].
    + split; [by intros (? & ? & ?)|]. intros ([[?|[]] _] & _); done.
    + setoid_rewrite IH. split; [intros (? & [= <-] & ? & ?); by split_and!; [right|..]|intros ([_ ?] & ?); eauto].
    + rewrite result_bind_Ok. setoid_rewrite IH. cbn [fst snd].
      split; [intros (a & ? & ? & ?)|intros ([_ ?] & a & ? & ?)]; [split_and!|]; eauto.
Qed.

Definition service_of (file : string * result string Meta) : option Service :=
  match strictServiceFromMetaPath file.1 file.2 available with
  | Ok service => Some service
  | Err _ => None
  end.
(** The services of the files whose metadata is valid. *)
Definition valid_services (entries : list Entry) : list Service := omap service_of (visited entries).
Definition named (name : string) (services : list Service) : list Service :=
  filter (λ s, svc_Name s = name) services.

(** *** Discovery keeps the services whose name is declared once. *)
Definition discovery_inv (services : list Service) (s : Discovered) : Prop :=
  ∀ name, match named name services with
  | [] => servicesByName s !! name = None ∧ name ∉ duplicateNames s
  | [service] => servicesByName s !! name = Some service ∧ name ∉ duplicateNames s
  | _ => servicesByName s !! name = None ∧ name ∈ duplicateNames s
  end.

Lemma discover_visit_inv services s file :
  discovery_inv services s →
  ∃ s', discover_visit available s file.1 file.2 = Ok s' ∧
    discovery_inv (services ++ option_list (service_of file)) s'.
Proof.
  intros Hinv. unfold discover_visit, service_of.
  destruct (strictServiceFromMetaPath file.1 file.2 available) as [x|]; cbn [option_list];
    [|exists s; by rewrite List.app_nil_r].
  assert (Hother : ∀ n, n ≠ svc_Name x → named n (services ++ [x]) = named n services).
  { intros n Hn. unfold named. rewrite filter_app, filter_cons_False, filter_nil, List.app_nil_r; [done|congruence]. }
  assert (Hsame : named (svc_Name x) (services ++ [x]) = named (svc_Name x) services ++ [x]).
  { unfold named. by rewrite filter_app, filter_cons_True, filter_nil. }
  pose proof (Hinv (svc_Name x)) as Hx.
  repeat case_decide; eexists; (split; [done|]); intros n; destruct (decide (n = svc_Name x)) as [->|Hn];
    change (option_list (Some x)) with [x];
    rewrite ?Hsame, ?(Hother n Hn); try apply Hinv; cbn [servicesByName duplicateNames].
  - destruct (named (svc_Name x) services) as [|a [|b l]]; cbn [app]; [by destruct Hx as [_ []]..|done].
  - rewrite lookup_delete_eq.
    destruct (named (svc_Name x) services) as [|a [|b l]]; cbn [app]; [|set_solver..].
    destruct Hx as [Hx _]. rewrite Hx in *. by destruct (is_Some_None (A := Service)).
  - specialize (Hinv n). rewrite lookup_delete_ne by done.
    destruct (named n services) as [|a [|b l]]; set_solver.
  - rewrite lookup_insert_eq.
    destruct (named (svc_Name x) services) as [|a [|b l]]; cbn [app]; [done| |by destruct Hx as [_ ?]].
    destruct Hx as [Hx _]. exfalso. rewrite Hx in *. eauto.
  - specialize (Hinv n). rewrite lookup_insert_ne by congruence. exact Hinv.
Qed.

Lemma discover_visits_inv files services s :
  discovery_inv services s →
  ∃ s', for_each (λ s f, discover_visit available s f.1 f.2) s files = Ok s' ∧
    discovery_inv (services ++ omap service_of files) s'.
Proof.
  revert services s. induction files as [|file files IH]; intros services s Hinv; cbn [for_each].
  - exists s. by rewrite List.app_nil_r.
  - destruct (discover_visit_inv _ _ file Hinv) as (s1 & -> & Hinv1). cbn [result_bind].
    destruct (IH _ _ Hinv1) as (s2 & -> & Hinv2). exists s2. split; [done|].
    rewrite <-List.app_assoc in Hinv2. cbn [omap list_omap]. by destruct (service_of file).
Qed.

Lemma discovered_lookup entries s :
  walkServiceMetaFiles repoDir entries (discover_visit available) (MkDiscovered ∅ ∅) = Ok s →
  ∀ name service, servicesByName s !! name = Some service ↔
    named name (valid_services entries) = [service].
Proof.
  intros [_ Hrun]%walk_Ok.
  destruct (discover_visits_inv (visited entries) [] (MkDiscovered ∅ ∅)) as (s' & Hrun' & Hinv).
  { intros n. cbn. by rewrite lookup_empty. }
  rewrite Hrun in Hrun'. simplify_eq. intros n x. specialize (Hinv n). cbn [app] in Hinv.
  fold (valid_services entries) in Hinv.
  destruct (named n (valid_services entries)) as [|a [|b l]]; destruct Hinv as [-> _];
    split; by intros [= ->].
Qed.

Lemma named_name name services service : named name services = [service] → svc_Name service = name.
Proof.
  intros Hn. assert (Hin : service ∈ named name services) by (rewrite Hn; by left).
  by apply list_elem_of_filter in Hin as [? _].
Qed.

#[local] Instance by_name_total : Total by_name.
Proof. intros a b. unfold by_name. apply (total String.le). Qed.
#[local] Instance by_name_trans : Transitive by_name.
Proof. intros a b c. unfold by_name. apply transitivity. Qed.

Lemma DiscoverServices_spec entries :
  match DiscoverServices repoDir entries available with
  | Ok services =>
      readable entries ∧
      (∀ s, s ∈ services ↔ named (svc_Name s) (valid_services entries) = [s]) ∧
      NoDup (svc_Name <$> services) ∧ StronglySorted by_name services
  | Err _ => ¬ readable entries
  end.
Proof.
  unfold DiscoverServices.
  destruct (walkServiceMetaFiles _ _ _ _) as [s|e] eqn:Hwalk; cbn [result_bind].
  - pose proof (discovered_lookup _ _ Hwalk) as Hs. apply walk_Ok in Hwalk as [Hr _].
    assert (Hin : ∀ x, x ∈ merge_sort by_name (snd <$> map_to_list (servicesByName s)) ↔
      named (svc_Name x) (valid_services entries) = [x]).
    { intros x. rewrite merge_sort_Permutation, list_elem_of_fmap. split.
      - intros ([n y] & -> & Hy%elem_of_map_to_list%Hs). cbn. by rewrite (named_name _ _ _ Hy).
      - intros Hx%Hs. exists (svc_Name x, x). split; [done|]. by apply elem_of_map_to_list. }
    split_and!; [done|done| |apply StronglySorted_merge_sort; apply _].
    rewrite merge_sort_Permutation, <-list_fmap_compose.
    rewrite (list_fmap_ext _ fst); [apply NoDup_fst_map_to_list|].
    intros i [n y] Hy. cbn. apply (named_name _ (valid_services entries)), Hs, elem_of_map_to_list.
    by eapply list_elem_of_lookup_2.
  - intros Hr. destruct (discover_visits_inv (visited entries) [] (MkDiscovered ∅ ∅)) as (s' & Hrun & _).
    { intros n. cbn. by rewrite lookup_empty. }
    assert (walkServiceMetaFiles repoDir entries (discover_visit available) (MkDiscovered ∅ ∅) = Ok s')
      by (by apply walk_Ok). congruence.
Qed.

(** *** The search finds the only file that is wanted, and it must be valid. *)
Definition wanted_file (wanted : Meta → bool) (file : string * result string Meta) : option (string * Meta) :=
  match file.2 with
  | Ok meta => if wanted meta then Some (file.1, meta) else None
  | Err _ => None
  end.

Lemma find_visits_Ok wanted dup files matched result :
  for_each (λ s f, find_visit wanted dup available s f.1 f.2) matched files = Ok result ↔
  match omap (wanted_file wanted) files with
  | [] => result = matched
  | [(path, meta)] => matched = None ∧
      ∃ service, strictServiceFromMeta path meta available = Ok service ∧ result = Some service
  | _ => False
  end.
Proof.
  revert matched. induction files as [|[path [meta|]] files IH]; intros matched; cbn [for_each].
  - cbn. split; [by intros [= <-]|by intros ->].
  - rewrite result_bind_Ok. setoid_rewrite IH. clear IH. unfold find_visit. cbn [fst snd].
    cbn [omap list_omap wanted_file fst snd]. destruct (wanted meta).
    2: { split; [by intros (? & [= <-] & ?)|intros ?; eauto]. }
    setoid_rewrite result_bind_Ok.
    destruct (omap (wanted_file wanted) files) as [|[p m] [|]].
    + split.
      * intros (a & (x & Hx & Ha) & ->). destruct matched; [done|]. simplify_eq. eauto.
      * intros (-> & x & Hx & ->). eauto.
    + split; [|done]. intros (a & (x & Hx & Ha) & -> & _). by destruct matched.
    + split; [|done]. by intros (a & _ & []).
  - rewrite result_bind_Ok. setoid_rewrite IH. cbn.
    split; [by intros (? & [= <-] & ?)|intros ?; eauto].
Qed.

Lemma find_service_Ok wanted dup missing entries service :
  find_service wanted dup missing repoDir entries available = Ok service ↔
  readable entries ∧ ∃ path meta, omap (wanted_file wanted) (visited entries) = [(path, meta)] ∧
    strictServiceFromMeta path meta available = Ok service.
Proof.
  unfold find_service. rewrite result_bind_Ok. setoid_rewrite walk_Ok. setoid_rewrite find_visits_Ok.
  destruct (omap (wanted_file wanted) (visited entries)) as [|[path meta] [|]].
  - split; [intros (a & (_ & ->) & ?); done|by intros (_ & ? & ? & ? & _)].
  - split.
    + intros (a & (? & _ & x & Hx & ->) & [= ->]). eauto 6.
    + intros (? & ? & ? & [= <- <-] & Hx). eauto 8.
  - split; [by intros (a & (_ & []) & _)|by intros (_ & ? & ? & ? & _)].
Qed.
End visited.

(** ** Validation of the tree *)
Section tree.
Context `{Cron} `{Libraries} (error_line : string → Z) (available : gset string).

Definition meta_of (walked : Walked) : option (string * Meta) :=
  match walked with
  | WalkFailed _ _ => None
  | WalkFile path loaded =>
      if decide (Base path ≠ MetaFileName) then None
      else match result_bind loaded (λ meta, validateServiceMeta meta available) with
      | Ok meta => Some (path, meta)
      | Err _ => None
      end
  end.
(** Read, and valid if it is a metadata file. *)
Definition good_file (walked : Walked) : Prop :=
  match walked with
  | WalkFailed _ _ => False
  | WalkFile path _ => Base path = MetaFileName → is_Some (meta_of walked)
  end.

Let visit := validate_visit error_line available.

Lemma visit_errors s w :
  rc_errors (visit s w) = [] ↔
  rc_errors s = [] ∧ good_file w ∧ (∀ f, meta_of w = Some f → rc_seenServiceNames s !! sm_Name f.2 = None).
Proof.
  assert (Happ : ∀ e l, rc_errors s ++ e :: l = [] ↔ False).
  { intros e l. split; [|done]. by intros [_ ?]%app_eq_nil. }
  unfold visit, validate_visit. destruct w as [path msg|path loaded]; cbn [good_file meta_of rc_errors].
  { rewrite Happ. tauto. }
  case_decide as Hbase. { split; [|tauto]. intros ?. split_and!; [done|done|by intros ?]. }
  destruct loaded as [m|e]; cbn [result_bind rc_errors].
  2: { rewrite Happ. split; [done|]. intros (_ & Hg & _). by destruct (Hg Hbase). }
  destruct (validateServiceMeta m available) as [m'|e]; cbn [rc_errors].
  2: { rewrite Happ. split; [done|]. intros (_ & Hg & _). by destruct (Hg Hbase). }
  destruct (rc_seenServiceNames s !! sm_Name m') as [prev|] eqn:Hseen; cbn [rc_errors].
  - rewrite Happ. split; [done|]. intros (_ & _ & Hf). specialize (Hf _ eq_refl). cbn in Hf. congruence.
  - split; [|tauto]. intros ?. split_and!; [done|eauto|]. by intros f [= <-].
Qed.

(** What a file without errors adds. *)
Lemma visit_clean s w :
  rc_errors (visit s w) = [] →
  match meta_of w with
  | Some f =>
      rc_seenServiceNames (visit s w) = <[sm_Name f.2 := f.1]> (rc_seenServiceNames s) ∧
      rc_caddyInfraPaths (visit s w) = rc_caddyInfraPaths s ++ (fst <$> filter (λ f, infra_caddy f.2 ≠ None) [f]) ∧
      rc_rusticInfraPaths (visit s w) = rc_rusticInfraPaths s ++ (fst <$> filter (λ f, infra_rustic f.2 ≠ None) [f])
  | None => visit s w = s
  end.
Proof.
  intros Herr. apply visit_errors in Herr as (_ & Hgood & Hfresh).
  unfold visit, validate_visit. destruct w as [path msg|path loaded]; [done|].
  cbn [meta_of good_file] in *. case_decide as Hbase; [done|].
  destruct loaded as [m|e]; cbn [result_bind] in *; [|by destruct (Hgood Hbase)].
  destruct (validateServiceMeta m available) as [m'|e]; [|by destruct (Hgood Hbase)].
  specialize (Hfresh _ eq_refl). cbn [snd] in Hfresh. rewrite Hfresh. cbn [rc_seenServiceNames rc_caddyInfraPaths rc_rusticInfraPaths fst snd].
  split_and!; [done| |]; rewrite filter_cons, filter_nil; cbn [snd];
    repeat case_decide; try done; by rewrite List.app_nil_r.
Qed.

Definition tree_metas (walked : list Walked) : list (string * Meta) := omap meta_of walked.

Lemma visits_clean s walked :
  rc_errors (foldl visit s walked) = [] ↔
  rc_errors s = [] ∧ Forall good_file walked ∧ NoDup (sm_Name ∘ snd <$> tree_metas walked) ∧
  ∀ f, f ∈ tree_metas walked → rc_seenServiceNames s !! sm_Name f.2 = None.
Proof.
  revert s. induction walked as [|w walked IH]; intros s; cbn [foldl].
  { cbn. split; [intros ?; split_and!; [done|constructor|constructor|by intros ? ?%elem_of_nil]|tauto]. }
  rewrite IH, visit_errors, Forall_cons. clear IH. unfold tree_metas. cbn [omap list_omap].
  fold (tree_metas walked).
  destruct (decide (rc_errors (visit s w) = [])) as [Hclean|Hdirty].
  2: { rewrite visit_errors in Hdirty. split; [tauto|]. intros (? & [? ?] & ? & Hf). destruct Hdirty.
       split_and!; [done|done|]. intros f Hw. apply Hf. rewrite Hw. by left. }
  pose proof (visit_clean _ _ Hclean) as Hw. apply visit_errors in Hclean as (He & Hg & Hfresh).
  destruct (meta_of w) as [f|].
  - destruct Hw as (-> & _ & _). rewrite fmap_cons, NoDup_cons, list_elem_of_fmap.
    setoid_rewrite lookup_insert_None. setoid_rewrite elem_of_cons. split.
    + intros ((_ & _ & _) & ? & ? & Hall). split_and!; [done|done|done| |done|].
      * intros (g & Heq & Hg'). by destruct (Hall g Hg') as [_ []].
      * intros g [->|Hg']; [by apply Hfresh|by apply Hall].
    + intros (_ & [_ ?] & [Hni ?] & Hall). split_and!; [done|done|done|done|done|].
      intros g Hg'. split; [by apply Hall; right|]. intros Heq. apply Hni. by exists g.
  - rewrite Hw. tauto.
Qed.

Lemma visits_infra s walked :
  rc_errors (foldl visit s walked) = [] →
  rc_caddyInfraPaths (foldl visit s walked) =
    rc_caddyInfraPaths s ++ (fst <$> filter (λ f, infra_caddy f.2 ≠ None) (tree_metas walked)) ∧
  rc_rusticInfraPaths (foldl visit s walked) =
    rc_rusticInfraPaths s ++ (fst <$> filter (λ f, infra_rustic f.2 ≠ None) (tree_metas walked)).
Proof.
  revert s. induction walked as [|w walked IH]; intros s Herr; cbn [foldl] in *.
  { by rewrite !List.app_nil_r. }
  destruct (IH _ Herr) as [-> ->]. clear IH. apply visits_clean in Herr as (Hclean & _).
  pose proof (visit_clean _ _ Hclean) as Hw. unfold tree_metas. cbn [omap list_omap]. fold (tree_metas walked).
  destruct (meta_of w) as [f|]; [destruct Hw as (_ & -> & ->)|by rewrite Hw].
  by rewrite <-!List.app_assoc, <-!fmap_app, <-!filter_app.
Qed.

Lemma more_than_one_nil paths message : more_than_one paths message = [] ↔ length paths ≤ 1.
Proof.
  unfold more_than_one. case_decide; [|split; [lia|done]].
  destruct paths as [|a paths]; [cbn in *; lia|]. split; [done|lia].
Qed.

(** No error is reported exactly for a tree whose metadata files are all
    valid, name different services and declare each infrastructure once. *)
Lemma ValidateRepo_nil walked :
  ValidateRepo error_line walked available = [] ↔
  Forall good_file walked ∧ NoDup (sm_Name ∘ snd <$> tree_metas walked) ∧
  length (filter (λ f, infra_caddy f.2 ≠ None) (tree_metas walked)) ≤ 1 ∧
  length (filter (λ f, infra_rustic f.2 ≠ None) (tree_metas walked)) ≤ 1.
Proof.
  unfold ValidateRepo. fold visit. set (s := foldl visit _ walked).
  assert (Hsort : ∀ l, merge_sort error_le l = [] ↔ l = []).
  { intros l. split; [|by intros ->]. intros Heq. apply Permutation_nil.
    rewrite <-Heq. apply merge_sort_Permutation. }
  rewrite Hsort, !app_nil, !more_than_one_nil. subst s.
  destruct (decide (rc_errors (foldl visit (MkRepoCheck [] ∅ [] []) walked) = [])) as [He|He].
  - destruct (visits_infra _ _ He) as [-> ->]. cbn [app rc_caddyInfraPaths rc_rusticInfraPaths].
    rewrite !length_fmap. pose proof (proj1 (visits_clean _ _) He). tauto.
  - split; [tauto|]. intros (? & ? & _). destruct He. apply visits_clean.
    split_and!; [done|done|done|]. intros. apply lookup_empty.
Qed.
End tree.

(** ** Rewriting a document *)
Section rewriting.
Context {X : Type} (zero : X).

(** The nodes of a mapping with the given pairs of key and value. *)
Fixpoint pairs (kvs : list (Node X * Node X)) : list (Node X) :=
  match kvs with
  | [] => []
  | (k, v) :: kvs => k :: v :: pairs kvs
  end.
Definition keys (kvs : list (Node X * Node X)) : list string := node_Value ∘ fst <$> kvs.

Fixpoint replace_pair (key : string) (value : Node X) (kvs : list (Node X * Node X))
    : list (Node X * Node X) :=
  match kvs with
  | [] => [(scalar zero key, value)]
  | (k, v) :: kvs =>
      if decide (node_Value k = key) then (k, value) :: kvs else (k, v) :: replace_pair key value kvs
  end.

Lemma remove_key_pairs key kvs :
  NoDup (keys kvs) → remove_key key (pairs kvs) = pairs (filter (λ kv, node_Value kv.1 ≠ key) kvs).
Proof.
  induction kvs as [|[k v] kvs IH]; [done|]. cbn [keys fmap list_fmap]. rewrite NoDup_cons. intros [Hk Hnd].
  cbn [pairs remove_key]. case_decide as Heq.
  - rewrite filter_cons_False by (cbn; tauto). f_equal. symmetry. apply filter_all, Forall_forall.
    intros [k' v'] Hin. cbn. intros Hk'. apply Hk, list_elem_of_fmap. exists (k', v'). cbn. by rewrite Heq, Hk'.
  - rewrite filter_cons_True by done. cbn [pairs]. by rewrite IH.
Qed.

Lemma set_key_pairs key value kvs : set_key zero key value (pairs kvs) = pairs (replace_pair key value kvs).
Proof.
  induction kvs as [|[k v] kvs IH]; [done|]. cbn [pairs set_key replace_pair].
  case_decide; cbn [pairs]; [done|]. by rewrite IH.
Qed.

Definition find_value (key : string) (kvs : list (Node X * Node X)) : option (Node X) :=
  snd <$> head (filter (λ kv, node_Value kv.1 = key) kvs).

Lemma find_value_cons key k v kvs :
  find_value key ((k, v) :: kvs) = if decide (node_Value k = key) then Some v else find_value key kvs.
Proof. unfold find_value. rewrite filter_cons. cbn [fst]. by case_decide. Qed.

Lemma find_replace_pair key value kvs key' :
  find_value key' (replace_pair key value kvs) =
  if decide (key' = key) then Some value else find_value key' kvs.
Proof.
  induction kvs as [|[k v] kvs IH]; cbn [replace_pair].
  - rewrite find_value_cons. cbn. repeat case_decide; congruence.
  - destruct (decide (node_Value k = key)); rewrite !find_value_cons; [|rewrite IH]; repeat case_decide; congruence.
Qed.

Lemma find_removed key kvs key' :
  find_value key' (filter (λ kv, node_Value kv.1 ≠ key) kvs) =
  if decide (key' = key) then None else find_value key' kvs.
Proof.
  induction kvs as [|[k v] kvs IH]; [cbn; by case_decide|].
  rewrite filter_cons. cbn [fst].
  destruct (decide (node_Value k ≠ key)) as [Hk|Hk%dec_stable]; rewrite ?find_value_cons, IH; repeat case_decide; congruence.
Qed.

Lemma keys_replaced key value kvs :
  keys (replace_pair key value kvs) = if decide (key ∈ keys kvs) then keys kvs else keys kvs ++ [key].
Proof.
  induction kvs as [|[k v] kvs IH]; cbn [replace_pair].
  - rewrite decide_False; [done|]. apply not_elem_of_nil.
  - destruct (decide (node_Value k = key)) as [Heq|Hne].
    + rewrite decide_True; [done|]. rewrite <-Heq. by left.
    + change (node_Value k :: keys (replace_pair key value kvs) =
        if decide (key ∈ node_Value k :: keys kvs) then node_Value k :: keys kvs
        else node_Value k :: keys kvs ++ [key]).
      rewrite IH. destruct (decide (key ∈ keys kvs)) as [Hin|Hin].
      * rewrite decide_True; [done|by right].
      * rewrite decide_False; [done|]. rewrite elem_of_cons. by intros [?|?]; [congruence|].
Qed.

(** The new document: the value of [nodes] is the list, [node] is gone, every
    other key keeps its value, and no key is written twice. *)
Definition updated_pairs (nodeIDs : list string) (kvs : list (Node X * Node X)) : list (Node X * Node X) :=
  replace_pair "nodes" (sequence zero nodeIDs) (filter (λ kv, node_Value kv.1 ≠ "node") kvs).

Lemma updated_pairs_spec nodeIDs kvs :
  NoDup (keys kvs) →
  NoDup (keys (updated_pairs nodeIDs kvs)) ∧
  ∀ key, find_value key (updated_pairs nodeIDs kvs) =
    if decide (key = "nodes") then Some (sequence zero nodeIDs)
    else if decide (key = "node") then None else find_value key kvs.
Proof.
  intros Hnd. unfold updated_pairs. split.
  - assert (Hf : NoDup (keys (filter (λ kv, node_Value kv.1 ≠ "node") kvs))).
    { eapply sublist_NoDup; [exact Hnd|]. apply fmap_sublist, sublist_filter. }
    rewrite keys_replaced. case_decide as Hk; [done|]. apply NoDup_app. split_and!; [done| |apply NoDup_singleton].
    intros k Hin ->%list_elem_of_singleton. done.
  - intros key. by rewrite find_replace_pair, find_removed.
Qed.

Lemma update_document nodeIDs kd t v x mt mv mx kvs others :
  NoDup (keys kvs) →
  updateServiceTargetNodesNode zero nodeIDs
    (MkNode kd t v x (MkNode MappingNode mt mv mx (pairs kvs) :: others)) =
  MkNode kd t v x (MkNode MappingNode mt mv mx (pairs (updated_pairs nodeIDs kvs)) :: others).
Proof.
  intros Hnd. unfold updateServiceTargetNodesNode, setMappingSequence, removeMappingKey.
  cbn [node_Content node_Kind set_Content]. rewrite !decide_False by (by intros []). cbn [node_Content node_Kind set_Content].
  by rewrite remove_key_pairs, set_key_pairs.
Qed.
End rewriting.

(** ** Properties of service metadata and of discovery *)
From Stdlib Require Import Ascii.
From S2P Require Export Config.

(** ** Project names *)
(** [[a-z0-9]+([-_][a-z0-9]+)*] *)
Inductive ProjectName : list ascii → Prop :=
| project_first c : is_alnum_lower c = true → ProjectName [c]
| project_letter l c : ProjectName l → is_alnum_lower c = true → ProjectName (l ++ [c])
| project_separator l c d : ProjectName l → is_hyphen_or_underscore c = true →
    is_alnum_lower d = true → ProjectName (l ++ [c; d]).

(** The characters written so far, last first: every separator follows a
    letter or a digit. *)
Fixpoint separated (l : list ascii) : Prop :=
  match l with
  | [] => True
  | c :: l' =>
      (is_alnum_lower c = true ∨
       is_hyphen_or_underscore c = true ∧ ∃ d, head l' = Some d ∧ is_alnum_lower d = true) ∧ separated l'
  end.

Definition name_inv (s : NameState) : Prop :=
  separated (ns_builder s) ∧
  (ns_lastWasSeparator s = false → ∀ c, head (ns_builder s) = Some c → is_alnum_lower c = true).

Lemma project_char_inv s c : name_inv s → name_inv (project_char s c).
Proof.
  intros [Hsep Hlast]. unfold project_char, name_inv.
  destruct (is_alnum_lower c) eqn:Hc; cbn [ns_builder ns_lastWasSeparator].
  - split; [|by intros _ ? [= <-]]. cbn [separated]. split; [by left|].
    destruct (ns_lastWasSeparator s) eqn:Hl; [by rewrite andb_false_r|].
    destruct (ns_pendingHyphen s && _ && _) eqn:Hp; [|done]. cbn [separated]. split; [|done]. right. split; [done|].
    apply andb_true_iff in Hp as [[_ Hne%bool_decide_eq_true]%andb_true_iff _].
    destruct (ns_builder s) as [|d l]; [done|]. exists d. split; [done|]. by apply Hlast.
  - destruct (is_hyphen_or_underscore c) eqn:Hs; [|done].
    destruct (bool_decide _ || _) eqn:Hb; [done|]. cbn [ns_builder ns_lastWasSeparator].
    apply orb_false_iff in Hb as [Hne%bool_decide_eq_false Hl]. split; [|done].
    cbn [separated]. split; [|done]. right. split; [done|].
    destruct (ns_builder s) as [|d l]; [done|]. exists d. split; [done|]. by apply Hlast.
Qed.

Lemma separated_ProjectName l c :
  separated (c :: l) → is_alnum_lower c = true → ProjectName (reverse (c :: l)).
Proof.
  remember (length l) as n eqn:Hn. revert c l Hn.
  induction n as [n IH] using lt_wf_ind. intros c l -> [_ Hl] Hc. rewrite reverse_cons.
  destruct l as [|d l]; [by constructor|]. pose proof Hl as [[Hd|[Hd (e & He & Hae)]] Hl'].
  - apply project_letter; [|done]. apply (IH (length l)); [cbn; lia|done|done|done].
  - destruct l as [|e' l]; [done|]. cbn in He. simplify_eq.
    rewrite reverse_cons, <-List.app_assoc. apply project_separator; [|done|done].
    apply (IH (length l)); [cbn; lia|done|done|done].
Qed.

Lemma trim_separators_spec l :
  separated l → separated (trim_separators l) ∧
  ∀ c, head (trim_separators l) = Some c → is_alnum_lower c = true.
Proof.
  induction l as [|c l IH]; [by split|]. intros [Hc Hl]. cbn [trim_separators].
  destruct (is_hyphen_or_underscore c) eqn:Hs; [by apply IH|]. destruct Hc as [Hc|[? _]]; [|done].
  split; [by split; [left|]|by intros ? [= <-]].
Qed.

Lemma project_chars_inv l s : name_inv s → name_inv (foldl project_char s l).
Proof. revert s. induction l as [|c l IH]; intros s Hs; [done|]. by apply IH, project_char_inv. Qed.

Lemma normalized_name name :
  normalizeComposeProjectName name = "" ∨
  ProjectName (String.list_ascii_of_string (normalizeComposeProjectName name)).
Proof.
  unfold normalizeComposeProjectName. rewrite String.list_ascii_of_string_of_list_ascii.
  set (chars := String.list_ascii_of_string _).
  assert (Hs : name_inv (foldl project_char (MkNameState [] false false) chars))
    by (apply project_chars_inv; split; [done|by intros _ ?]).
  destruct Hs as [Hsep _]. apply trim_separators_spec in Hsep as [Hsep Hhead].
  destruct (trim_separators _) as [|c l]; [by left|right]. apply separated_ProjectName; [done|by apply Hhead].
Qed.

(** ** Requested backups *)
#[local] Instance string_le_dec_rel : RelDecision String.le := _.

Lemma string_sort_perm l : string_sort l ≡ₚ l.
Proof. apply merge_sort_Permutation. Qed.
Lemma string_sort_sorted l : StronglySorted String.le (string_sort l).
Proof. apply StronglySorted_merge_sort; apply _. Qed.

Lemma request_names enabled requested validated names :
  for_each (request_name enabled) validated requested = Ok names ↔
  Forall (λ n, n ∈ enabled) requested ∧
  names = foldl (λ v n, if decide (n ∈ v) then v else v ++ [n]) validated requested.
Proof.
  revert validated. induction requested as [|n requested IH]; intros validated; cbn [for_each foldl].
  - split; [by intros [= <-]|by intros [_ ->]].
  - rewrite Forall_cons, result_bind_Ok. setoid_rewrite IH. unfold request_name at 1. case_decide as Hn.
    + split; [by intros (? & ? & _)|tauto].
    + apply dec_stable in Hn || idtac. case_decide.
      * split; [intros (? & [= <-] & ? & ?)|intros ([? ?] & ?)]; eauto.
      * split; [intros (? & [= <-] & ? & ?)|intros ([? ?] & ?)]; eauto.
Qed.

Lemma keep_first_spec (requested validated : list string) :
  NoDup validated →
  let names := foldl (λ v n, if decide (n ∈ v) then v else v ++ [n]) validated requested in
  NoDup names ∧ ∀ n, n ∈ names ↔ n ∈ validated ∨ n ∈ requested.
Proof.
  revert validated. induction requested as [|n requested IH]; intros validated Hnd; cbn [foldl].
  { split; [done|]. intros n. rewrite elem_of_nil. tauto. }
  case_decide as Hn; cbn zeta.
  - destruct (IH _ Hnd) as [? Hin]. split; [done|]. intros m. rewrite Hin, elem_of_cons.
    split; [tauto|]. intros [?|[->|?]]; auto.
  - destruct (IH (validated ++ [n])) as [? Hin].
    { apply NoDup_app. split_and!; [done| |apply NoDup_singleton]. intros m Hm ->%list_elem_of_singleton. done. }
    split; [done|]. intros m. rewrite Hin, elem_of_app, list_elem_of_singleton, elem_of_cons. tauto.
Qed.

Section services.
Context `{Cron} `{Libraries}.

(** C21: [validateServiceMeta] accepts exactly the valid metadata: a name, at
    least one target node, each configured and named once, a consistent
    network, compose files inside the service directory with different runtime
    files, data items with different names that the backups and migrations
    refer to, and image updates whose source, discovery and filter agree; it
    returns the metadata with its compose files cleaned. *)
Theorem validateServiceMeta_accepts_valid meta available meta' :
  validateServiceMeta meta available = Ok meta' ↔ valid_meta available meta meta'.
Proof. apply validateServiceMeta_iff. Qed.

(** C22: Whatever the metadata, the compose files of an accepted service stay
    below the service directory, different compose files are different files
    at run time, and the service runs on configured nodes only, at least one,
    each once.  It is about the compose files alone: the source of a Caddy
    configuration may lie outside ([caddy_source_is_not_checked]). *)
Theorem accepted_service_confined path meta available service :
  strictServiceFromMeta path meta available = Ok service →
  svc_Name service ≠ "" ∧ svc_MetaPath service = path ∧
  Forall below_root (sm_ComposeFiles (svc_Meta service)) ∧
  NoDup (RuntimeFilePath <$> sm_ComposeFiles (svc_Meta service)) ∧
  svc_TargetNodes service ≠ [] ∧ NoDup (svc_TargetNodes service) ∧
  Forall (λ n, n ∈ available) (svc_TargetNodes service).
Proof.
  unfold strictServiceFromMeta. rewrite result_bind_Ok. intros (m & Hm & [= <-]).
  apply validateServiceMeta_iff in Hm as (? & (? & ? & ?) & _ & (Hfiles & Hruntime) & -> & _).
  cbn [svc_Name svc_MetaPath svc_Meta svc_TargetNodes sm_set_compose sm_ComposeFiles].
  split_and!; try done.
  - rewrite Forall_fmap. eapply Forall_impl; [exact Hfiles|]. by intros f (_ & ? & _).
  - rewrite <-list_fmap_compose. exact Hruntime.
Qed.

(** C23: Discovery fails only when a directory entry cannot be examined;
    otherwise it returns, sorted by name, exactly the services whose metadata
    is valid and whose name no other valid service has. *)
Theorem DiscoverServices_discovers repoDir entries available :
  match DiscoverServices repoDir entries available with
  | Ok services =>
      readable entries ∧
      (∀ s, s ∈ services ↔
         filter (λ t, svc_Name t = svc_Name s) (valid_services repoDir available entries) = [s]) ∧
      NoDup (svc_Name <$> services) ∧ StronglySorted by_name services
  | Err _ => ¬ readable entries
  end.
Proof. apply DiscoverServices_spec. Qed.

Lemma named_services available name files :
  named name (omap (service_of available) files) =
  omap (λ f, service_of available (f.1, Ok f.2))
    (omap (wanted_file (λ m, bool_decide (sm_Name m = name))) files).
Proof.
  assert (Hname : ∀ path meta service, strictServiceFromMeta path meta available = Ok service →
    svc_Name service = sm_Name meta).
  { intros path meta service Hs. unfold strictServiceFromMeta in Hs.
    apply result_bind_Ok in Hs as (m' & Hv & [= <-]).
    apply validateServiceMeta_iff in Hv as (_ & _ & _ & _ & -> & _). done. }
  induction files as [|[path [meta|]] files IH]; [done| |exact IH].
  set (wanted := wanted_file _) in *. set (found := service_of available) in *.
  assert (Hf : found (path, Ok meta) = match strictServiceFromMeta path meta available with
    | Ok service => Some service | Err _ => None end) by done.
  assert (Hw : wanted (path, Ok meta) = if bool_decide (sm_Name meta = name) then Some (path, meta) else None)
    by done.
  cbn [omap list_omap]. rewrite Hw.
  destruct (strictServiceFromMeta path meta available) as [service|] eqn:Hs; rewrite Hf.
  - unfold named. rewrite filter_cons. fold (named name (omap found files)).
    rewrite (Hname _ _ _ Hs). case_decide as Hn.
    + rewrite bool_decide_eq_true_2 by done. cbn [omap list_omap fst snd]. by rewrite Hf, IH.
    + by rewrite bool_decide_eq_false_2, IH.
  - case_bool_decide; [|exact IH]. cbn [omap list_omap fst snd]. by rewrite Hf, IH.
Qed.

(** A service found by its name is the only decodable metadata with that
    name, valid, and discovery lists it. *)
Theorem FindService_agrees_with_discovery repoDir entries available name service :
  FindService repoDir entries available name = Ok service →
  svc_Name service = name ∧
  ∃ services, DiscoverServices repoDir entries available = Ok services ∧ service ∈ services.
Proof.
  intros (Hr & path & meta & Hwanted & Hstrict)%find_service_Ok.
  assert (Hname : svc_Name service = name).
  { assert (Hin : (path, meta) ∈ omap (wanted_file (λ m, bool_decide (sm_Name m = name)))
      (visited repoDir entries)) by (rewrite Hwanted; by left).
    apply list_elem_of_omap in Hin as ([p [m|]] & _ & Hm); cbn in Hm; [|done].
    case_bool_decide; simplify_eq. unfold strictServiceFromMeta in Hstrict.
    apply result_bind_Ok in Hstrict as (m' & Hv & [= <-]).
    apply validateServiceMeta_iff in Hv as (_ & _ & _ & _ & -> & _). done. }
  split; [done|]. pose proof (DiscoverServices_spec repoDir available entries) as Hd.
  destruct (DiscoverServices _ _ _) as [services|]; [|done]. exists services. split; [done|].
  destruct Hd as (_ & Hin & _). apply Hin. rewrite Hname.
  unfold valid_services. rewrite named_services, Hwanted. cbn [omap list_omap fst snd].
  unfold service_of. cbn [fst snd]. unfold strictServiceFromMetaPath. cbn [result_bind]. by rewrite Hstrict.
Qed.

(** The tree has no error exactly when every file is readable, every
    metadata file is decoded and valid, no two declare the same service, and
    each kind of infrastructure is declared at most once. *)
Theorem ValidateRepo_accepts_consistent (error_line : string → Z) walked available :
  ValidateRepo error_line walked available = [] ↔
  Forall (good_file available) walked ∧ NoDup (sm_Name ∘ snd <$> tree_metas available walked) ∧
  length (filter (λ f, infra_caddy f.2 ≠ None) (tree_metas available walked)) ≤ 1 ∧
  length (filter (λ f, infra_rustic f.2 ≠ None) (tree_metas available walked)) ≤ 1.
Proof. apply ValidateRepo_nil. Qed.

(** Rewriting the target nodes succeeds for the metadata that is valid
    with the new nodes, and changes nothing else of the document: [nodes] is
    the trimmed list, [node] is gone, the other keys keep their values, and no
    key is written twice. *)
Theorem RewriteServiceTargetNodes_rewrites {X} (zero : X) meta kd t v x mt mv mx kvs others nodeIDs available meta' :
  NoDup (keys kvs) →
  validateServiceMeta (sm_set_nodes (normalizeNodeIDs nodeIDs) meta) available = Ok meta' →
  ∃ kvs', RewriteServiceTargetNodes zero (Ok meta)
      (Ok (MkNode kd t v x (MkNode MappingNode mt mv mx (pairs kvs) :: others))) nodeIDs available =
    Ok (MkNode kd t v x (MkNode MappingNode mt mv mx (pairs kvs') :: others)) ∧
  NoDup (keys kvs') ∧
  (∀ key, find_value key kvs' =
    if decide (key = "nodes") then Some (sequence zero (normalizeNodeIDs nodeIDs))
    else if decide (key = "node") then None else find_value key kvs).
Proof.
  intros Hnd Hvalid. exists (updated_pairs zero (normalizeNodeIDs nodeIDs) kvs).
  split; [|by apply updated_pairs_spec].
  unfold RewriteServiceTargetNodes. cbn [result_bind]. rewrite Hvalid. cbn [result_bind].
  by rewrite update_document.
Qed.
End services.

(** A project name is the trimmed configured one, or derived from the
    service name: words of lower-case letters and digits joined by single
    hyphens or underscores, and never empty. *)
Theorem ComposeProjectName_valid projectName fallback :
  ComposeProjectName projectName fallback ≠ "" ∧
  if decide (TrimSpace projectName = "")
  then ProjectName (String.list_ascii_of_string (ComposeProjectName projectName fallback))
  else ComposeProjectName projectName fallback = TrimSpace projectName.
Proof.
  unfold ComposeProjectName. destruct (decide (TrimSpace projectName = "")) as [Hp|Hp].
  - rewrite (decide_False (P := TrimSpace projectName ≠ "")) by tauto. case_decide as Hn.
    + split; [done|].
      apply (separated_ProjectName ["c"; "i"; "v"; "r"; "e"; "s"]%char "e"%char); [|done]. cbn; tauto.
    + split; [done|]. by destruct (normalized_name fallback).
  - by rewrite (decide_True (P := TrimSpace projectName ≠ "")).
Qed.

(** A backup request is accepted exactly when each requested name is an
    enabled backup item (or, without names, some item is enabled); the result
    is sorted, and for a request with names has each of them once. *)
Theorem ValidateRequestedBackupDataNames_validates service requested :
  match ValidateRequestedBackupDataNames service requested with
  | Ok names =>
      names ≠ [] ∧ StronglySorted String.le names ∧
      (∀ n, n ∈ names ↔ if decide (requested = []) then n ∈ EnabledBackupDataNames service
                        else n ∈ requested) ∧
      Forall (λ n, n ∈ EnabledBackupDataNames service) names ∧ (requested ≠ [] → NoDup names)
  | Err _ => if decide (requested = []) then EnabledBackupDataNames service = []
             else ¬ Forall (λ n, n ∈ EnabledBackupDataNames service) requested
  end.
Proof.
  unfold ValidateRequestedBackupDataNames. set (enabled := EnabledBackupDataNames service).
  case_decide as Hr.
  - case_decide as He; [done|]. split_and!; [done| |done|by apply Forall_forall|done].
    unfold enabled, EnabledBackupDataNames. destruct (sm_Backup _); [apply string_sort_sorted|constructor].
  - destruct (for_each _ _ _) as [names|e] eqn:Hrun; cbn [result_bind].
    + apply request_names in Hrun as [Hall ->].
      destruct (keep_first_spec requested [] (NoDup_nil_2)) as [Hnd Hin].
      set (names := foldl _ _ _) in *. 
      assert (Hn : ∀ n, n ∈ string_sort names ↔ n ∈ requested).
      { intros n. rewrite string_sort_perm, Hin, elem_of_nil. tauto. }
      split_and!; [|apply string_sort_sorted|done| |].
      * destruct requested as [|n requested]; [done|]. intros Hnil.
        apply (not_elem_of_nil n). rewrite <-Hnil. apply Hn. by left.
      * rewrite Forall_forall in Hall |- *. intros n. rewrite Hn. auto.
      * intros _. by rewrite string_sort_perm.
    + intros Hall. assert (for_each (request_name enabled) [] requested = Ok
        (foldl (λ v n, if decide (n ∈ v) then v else v ++ [n]) [] requested)) by (by apply request_names).
      congruence.
Qed.

(** ** Concrete instances *)
#[local] Existing Instances cron_example libraries_example.

Definition example_meta : Meta :=
  MkMeta "web" "" [" ./app/../compose.yaml"; "secret.yaml.enc"] None [" n1 "; ""; "n2"] None None None
    (Some [MkDataProtectItem "db" (Some (MkDataActionConfig "files.copy" "" "" ["data"])) None])
    (Some [MkBackupItem "db" "" None ""]) None None.
Definition example_nodes : gset string := {["n1"; "n2"]}.
Definition example_entries : list Entry :=
  [MkEntry ".git" true (MetaFile (Err "unread"));
   MkEntry "README" false MetaAbsent;
   MkEntry "web" true (MetaFile (Ok example_meta));
   MkEntry "empty" true MetaAbsent;
   MkEntry "broken" true (MetaFile (Err "decode"))].

Definition example_service (path : string) : Service :=
  MkService "web" (Dir path) path ["n1"; "n2"] true
    (sm_set_compose ["compose.yaml"; "secret.yaml.enc"] example_meta).

(** Of [network.caddy.source] only the name of an encrypted file is checked. *)
Definition example_caddy_meta : Meta :=
  MkMeta "web" "" [] None ["n1"] None
    (Some (MkNetworkConfig (Some (MkCaddyConfig (Some true) "../other/site.caddy")) None None))
    None None None None None.
Example caddy_source_is_not_checked :
  ∃ service, strictServiceFromMeta "/repo/web/composia-meta.yaml" example_caddy_meta example_nodes =
    Ok service ∧ CaddySource service = "../other/site.caddy".
Proof. eexists. split; by_computation. Qed.

Lemma accepted_service_confined_witness :
  Forall below_root (sm_ComposeFiles (svc_Meta (example_service "/repo/web/composia-meta.yaml"))) ∧
  NoDup (svc_TargetNodes (example_service "/repo/web/composia-meta.yaml")).
Proof.
  destruct (accepted_service_confined "/repo/web/composia-meta.yaml" example_meta example_nodes
    (example_service "/repo/web/composia-meta.yaml")) as (_ & _ & ? & _ & _ & ? & _).
  - by_computation.
  - by split.
Defined.

Lemma FindService_agrees_with_discovery_witness :
  ∃ services, DiscoverServices "/repo" example_entries example_nodes = Ok services ∧
    example_service "/repo/web/composia-meta.yaml" ∈ services.
Proof.
  apply (FindService_agrees_with_discovery "/repo" example_entries example_nodes "web").
  by_computation.
Defined.

Definition example_pairs : list (Node () * Node ()) :=
  [(scalar () "name", scalar () "web"); (scalar () "node", scalar () "n1");
   (scalar () "enabled", scalar () "true")].

Lemma RewriteServiceTargetNodes_rewrites_witness :
  ∃ kvs', NoDup (keys kvs') ∧ find_value "nodes" kvs' = Some (sequence () ["n2"]) ∧
    find_value "node" kvs' = None ∧ find_value "name" kvs' = Some (scalar () "web").
Proof.
  destruct (RewriteServiceTargetNodes_rewrites () example_meta DocumentNode "" "" () "!!map" "" ()
    example_pairs [] [" n2"] example_nodes
    (sm_set_compose ["compose.yaml"; "secret.yaml.enc"] (sm_set_nodes ["n2"] example_meta)))
    as (kvs' & _ & Hnd & Hfind).
  - by_decision.
  - by_computation.
  - exists kvs'. by rewrite !Hfind.
Defined.
