(* ===== verification/ConfigTheorems.v ===== *)
(** * Properties of the configuration: credentials and DNS providers *)
From S2P Require Export Config.

(** ** Zones *)
Lemma check_zones_Ok zones seen seen' :
  for_each check_zone seen zones = Ok seen' →
  (∀ p z q, (p, z) ∈ zones → seen !! z = Some q → p = q) ∧
  (∀ p q z, (p, z) ∈ zones → (q, z) ∈ zones → p = q).
Proof.
  revert seen. induction zones as [|[p z] zones IH]; intros seen Hrun; cbn [for_each] in Hrun.
  { split; [by intros ? ? ? ?%elem_of_nil|by intros ? ? ? ?%elem_of_nil]. }
  apply result_bind_Ok in Hrun as (m & Hm & Hrun).
  destruct (IH _ Hrun) as [Hseen Hall].
  assert (m = <[z := p]> seen ∧ ∀ q, seen !! z = Some q → p = q) as [-> Hz].
  { unfold check_zone in Hm. destruct (seen !! z) as [q|].
    - case_decide; [done|]. simplify_eq. split; [done|]. by intros ? [= <-].
    - by simplify_eq. }
  assert (Hhere : ∀ q, (q, z) ∈ zones → q = p).
  { intros q Hq. apply (Hseen q z p Hq), lookup_insert_eq. }
  split.
  - intros p' z' q Hin Hq. apply elem_of_cons in Hin as [[= -> ->]|Hin]; [by apply Hz|].
    destruct (decide (z' = z)) as [->|Hne].
    + rewrite (Hhere p' Hin). by apply Hz.
    + apply (Hseen p' z' q Hin). by rewrite lookup_insert_ne by congruence.
  - intros p' q z' Hp Hq. apply elem_of_cons in Hp as [[= -> ->]|Hp]; apply elem_of_cons in Hq as [Hq|Hq].
    + by injection Hq as ->.
    + symmetry. by apply Hhere.
    + injection Hq as -> ->. by apply Hhere.
    + by apply (Hall p' q z').
Qed.

Lemma dnsNameMatchesZone_spec name zone :
  dnsNameMatchesZone name zone = true ↔ name = zone ∨ ∃ t, name = t +:+ ("." +:+ zone).
Proof. unfold dnsNameMatchesZone. by rewrite orb_true_iff, bool_decide_eq_true, HasSuffix_spec. Qed.

Lemma app_same_length s1 s2 t1 t2 :
  s1 +:+ t1 = s2 +:+ t2 → String.length t1 = String.length t2 → t1 = t2.
Proof.
  intros Heq Hlen. assert (Hs : String.length s1 = String.length s2).
  { apply (f_equal String.length) in Heq. rewrite !length_app_bytes in Heq. lia. }
  apply (f_equal (drop_bytes (String.length s1))) in Heq. by rewrite Hs, drop_bytes_app, <-Hs, drop_bytes_app in Heq.
Qed.

Lemma matching_zones_equal name z1 z2 :
  dnsNameMatchesZone name z1 = true → dnsNameMatchesZone name z2 = true →
  String.length z1 = String.length z2 → z1 = z2.
Proof.
  assert (Hlen : ∀ t z, String.length (t +:+ ("." +:+ z)) = String.length t + S (String.length z)).
  { intros t z. by rewrite !length_app_bytes. }
  intros [->|[t1 H1]]%dnsNameMatchesZone_spec [H2|[t2 H2]]%dnsNameMatchesZone_spec Heq; [done|..].
  - apply (f_equal String.length) in H2. rewrite Hlen in H2. lia.
  - subst. rewrite Hlen in Heq. lia.
  - assert (Hz : "." +:+ z1 = "." +:+ z2).
    { apply (app_same_length t1 t2); [congruence|]. rewrite !length_app_bytes. lia. }
    change (String "." z1 = String "." z2) in Hz. by injection Hz.
Qed.

Lemma provider_zones_spec provider raw p z :
  (p, z) ∈ provider_zones provider raw ↔
  p = provider ∧ z ≠ "" ∧ ∃ rawZone, rawZone ∈ default [] raw ∧ normalizeDNSName rawZone = z.
Proof.
  unfold provider_zones. rewrite list_elem_of_omap. split.
  - intros (r & Hr & Hz). case_decide; [done|]. injection Hz as <- <-. eauto.
  - intros (-> & Hz & r & Hr & <-). exists r. split; [done|]. by rewrite decide_False.
Qed.

Lemma dnsZones_not_empty dns p z : (p, z) ∈ dnsZones dns → p ≠ "" ∧ z ≠ "".
Proof.
  destruct dns as [dns|]; [|by intros ?%elem_of_nil]. cbn [dnsZones]. rewrite !elem_of_app, !provider_zones_spec.
  intros [(-> & ? & _)|[(-> & ? & _)|[(-> & ? & _)|[(-> & ? & _)|(-> & ? & _)]]]]; done.
Qed.

(** ** The most specific zone *)
Definition most_specific (fqdn : string) (seen : list (string * string)) (best : string * string) : Prop :=
  (best = ("", "") ∧ ∀ p z, (p, z) ∈ seen → dnsNameMatchesZone fqdn z = false) ∨
  ((best.2, best.1) ∈ seen ∧ dnsNameMatchesZone fqdn best.1 = true ∧
   ∀ p z, (p, z) ∈ seen → dnsNameMatchesZone fqdn z = true →
     String.length z ≤ String.length best.1 ∧ (String.length z = String.length best.1 → p = best.2)).

Lemma dns_candidate_step fqdn seen best p z :
  (∀ p' z', (p', z') ∈ seen ++ [(p, z)] → p' ≠ "" ∧ z' ≠ "") →
  (∀ p' q z', (p', z') ∈ seen ++ [(p, z)] → (q, z') ∈ seen ++ [(p, z)] → p' = q) →
  most_specific fqdn seen best →
  ∃ best', dns_candidate fqdn best (p, z) = Ok best' ∧ most_specific fqdn (seen ++ [(p, z)]) best'.
Proof.
  intros Hne Hcons Hbest. unfold dns_candidate. destruct best as [bestZone provider].
  destruct (dnsNameMatchesZone fqdn z) eqn:Hz; cbn [negb].
  2: { eexists. split; [done|]. destruct Hbest as [[? Hno]|(Hin & Hm & Hmax)]; [left|right].
       - split; [done|]. intros p' z' [?|[= -> ->]%list_elem_of_singleton]%elem_of_app; eauto.
       - split_and!; [set_solver|done|].
         intros p' z' [?|[= -> ->]%list_elem_of_singleton]%elem_of_app; [eauto|congruence]. }
  destruct Hbest as [[[= -> ->] Hno]|(Hin & Hm & Hmax)]; cbn [fst snd] in *.
  - destruct (Hne p z) as [_ Hz']; [set_solver|]. rewrite decide_False by (cbn; lia).
    rewrite decide_False by (by intros (_ & [] & _)). eexists. split; [done|]. right. cbn [fst snd].
    split_and!; [set_solver|done|].
    intros p' z' [Hp'|[= -> ->]%list_elem_of_singleton]%elem_of_app; [|done]. intros Hm. by rewrite (Hno _ _ Hp') in Hm.
  - case_decide as Hlt; [|case_decide as Heq].
    + eexists. split; [done|]. right. cbn [fst snd]. split_and!; [set_solver|done|].
      intros p' z' [?|[= -> ->]%list_elem_of_singleton]%elem_of_app; [by apply Hmax|]. intros _. split; [lia|lia].
    + destruct Heq as (Hlen & _ & Hp). destruct Hp.
      rewrite (matching_zones_equal fqdn z bestZone) in Hcons by done.
      apply (Hcons provider p bestZone); set_solver.
    + eexists. split; [done|]. right. cbn [fst snd]. split_and!; [set_solver|done|].
      intros p' z' [Hp'|[= -> ->]%list_elem_of_singleton]%elem_of_app; [|done]. intros Hm'.
      destruct (Hmax _ _ Hp' Hm') as [Hle Hsame]. split; [lia|]. intros Hlen.
      assert (z' = z) as -> by (by apply (matching_zones_equal fqdn)).
      apply (Hcons p' p z); set_solver.
Qed.

Lemma dns_candidates fqdn zones seen best :
  (∀ p z, (p, z) ∈ seen ++ zones → p ≠ "" ∧ z ≠ "") →
  (∀ p q z, (p, z) ∈ seen ++ zones → (q, z) ∈ seen ++ zones → p = q) →
  most_specific fqdn seen best →
  ∃ best', for_each (dns_candidate fqdn) best zones = Ok best' ∧ most_specific fqdn (seen ++ zones) best'.
Proof.
  revert seen best. induction zones as [|[p z] zones IH]; intros seen best Hne Hcons Hbest; cbn [for_each].
  { exists best. by rewrite List.app_nil_r. }
  assert (Hsub : ∀ x, x ∈ seen ++ [(p, z)] → x ∈ seen ++ (p, z) :: zones).
  { intros x. rewrite !elem_of_app, list_elem_of_singleton, elem_of_cons. tauto. }
  destruct (dns_candidate_step fqdn seen best p z) as (best1 & -> & Hbest1); [| |done|].
  - intros p' z' Hin. by apply Hne, Hsub.
  - intros p' q z' H1 H2. apply (Hcons p' q z'); by apply Hsub.
  - cbn [result_bind].
    assert (Happ : seen ++ (p, z) :: zones = (seen ++ [(p, z)]) ++ zones) by (by rewrite <-List.app_assoc).
    rewrite Happ in *. by apply IH.
Qed.

(** ** The seen nodes and tokens *)
Section credentials.
Context `{Cron} `{Libraries} `{PathResolver}.

Lemma check_nodes_config nodes seen seen' :
  for_each check_node_config seen nodes = Ok seen' →
  Forall (λ n, nc_ID n ≠ "" ∧ nc_Token n ≠ "") nodes ∧ NoDup (nc_ID <$> nodes) ∧ NoDup (nc_Token <$> nodes) ∧
  (∀ n, n ∈ nodes → (nc_ID n ∉ seen.1) ∧ seen.2 !! nc_Token n = None) ∧
  seen'.1 = list_to_set (nc_ID <$> nodes) ∪ seen.1 ∧
  seen'.2 = foldl (λ m n, <[nc_Token n := nc_ID n]> m) seen.2 nodes.
Proof.
  revert seen. induction nodes as [|n nodes IH]; intros seen Hrun; cbn [for_each] in Hrun.
  { injection Hrun as <-. cbn. split_and!; [constructor|constructor|constructor|by intros ? ?%elem_of_nil|set_solver|done]. }
  apply result_bind_Ok in Hrun as (s1 & Hs1 & Hrun). unfold check_node_config in Hs1.
  destruct (v_required (nc_ID n)) eqn:Hid; [|done]. destruct (v_required (nc_Token n)) eqn:Htok; [|done].
  cbn [negb] in Hs1. apply v_required_spec in Hid, Htok. case_decide as Hin; [done|].
  destruct (seen.2 !! nc_Token n) eqn:Hseen; [done|]. injection Hs1 as <-.
  destruct (IH _ Hrun) as (Hne & Hids & Htoks & Hfresh & Hs1 & Hs2). cbn [fst snd] in *. clear IH Hrun.
  split_and!.
  - by constructor.
  - rewrite fmap_cons, NoDup_cons. split; [|done].
    intros (m & Heq & Hm)%list_elem_of_fmap. destruct (Hfresh m Hm) as [Hf _]. set_solver.
  - rewrite fmap_cons, NoDup_cons. split; [|done].
    intros (m & Heq & Hm)%list_elem_of_fmap. destruct (Hfresh m Hm) as [_ Hf].
    rewrite Heq, lookup_insert_eq in Hf. done.
  - intros m [->|Hm]%elem_of_cons; [done|]. destruct (Hfresh m Hm) as [Hf1 Hf2].
    apply lookup_insert_None in Hf2 as [Hf2 _]. split; [set_solver|done].
  - rewrite Hs1, fmap_cons. set_solver.
  - done.
Qed.

Lemma check_access_tokens nodeTokens tokens seen seen' :
  for_each (check_access_token nodeTokens) seen tokens = Ok seen' →
  Forall (λ t, act_Name t ≠ "" ∧ act_Token t ≠ "" ∧ nodeTokens !! act_Token t = None) tokens ∧
  NoDup (act_Token <$> tokens) ∧ ∀ t, t ∈ tokens → seen !! act_Token t = None.
Proof.
  revert seen. induction tokens as [|t tokens IH]; intros seen Hrun; cbn [for_each] in Hrun.
  { split_and!; [constructor|constructor|by intros ? ?%elem_of_nil]. }
  apply result_bind_Ok in Hrun as (s1 & Hs1 & Hrun). unfold check_access_token in Hs1.
  destruct (v_required (act_Name t)) eqn:Hname; [|done]. destruct (v_required (act_Token t)) eqn:Htok; [|done].
  cbn [negb] in Hs1. apply v_required_spec in Hname, Htok.
  destruct (nodeTokens !! act_Token t) eqn:Hnode; [done|].
  destruct (seen !! act_Token t) eqn:Hseen; [done|]. injection Hs1 as <-.
  destruct (IH _ Hrun) as (Hall & Hnd & Hfresh). split_and!.
  - by constructor.
  - rewrite fmap_cons, NoDup_cons. split; [|done]. intros (u & Heq & Hu)%list_elem_of_fmap.
    specialize (Hfresh u Hu). rewrite Heq, lookup_insert_eq in Hfresh. done.
  - intros u [->|Hu]%elem_of_cons; [done|]. specialize (Hfresh u Hu).
    by apply lookup_insert_None in Hfresh as [? _].
Qed.

Lemma enabled_tokens_fold tokens (m : gmap string string) :
  foldl (λ m t, if default true (act_Enabled t) then <[act_Token t := act_Name t]> m else m) m tokens =
  foldl (λ m t, <[act_Token t := act_Name t]> m) m (filter (λ t, default true (act_Enabled t) = true) tokens).
Proof.
  revert m. induction tokens as [|t tokens IH]; intros m; [done|]. cbn [foldl]. rewrite filter_cons.
  destruct (default true (act_Enabled t)) eqn:He; [rewrite decide_True by done|rewrite decide_False by done];
    cbn [foldl]; apply IH.
Qed.

(** In an accepted configuration a token identifies who presents it: the
    node tokens are those of the configured nodes, each of exactly one node
    with its own id, the access tokens those of the enabled entries, none is
    empty, and no token is both a node's and a user's. *)
Theorem tokens_identify controller agent :
  validateController controller agent = Ok () →
  NoDup (nc_ID <$> configured_nodes controller) ∧
  (∀ token id, NodeTokenMap controller !! token = Some id ↔
     ∃ node, node ∈ configured_nodes controller ∧ nc_Token node = token ∧ nc_ID node = id) ∧
  (∀ token name, EnabledAccessTokenMap controller !! token = Some name ↔
     ∃ entry, entry ∈ cc_AccessTokens controller ∧ act_Enabled entry ≠ Some false ∧
       act_Token entry = token ∧ act_Name entry = name) ∧
  NodeTokenMap controller ##ₘ EnabledAccessTokenMap controller ∧
  NodeTokenMap controller !! "" = None ∧ EnabledAccessTokenMap controller !! "" = None ∧
  (∀ token1 token2 id, NodeTokenMap controller !! token1 = Some id →
     NodeTokenMap controller !! token2 = Some id → token1 = token2).
Proof.
  unfold validateController. rewrite !result_bind_unit. intros (_ & _ & Hrun).
  apply result_bind_Ok in Hrun as ([ids nodeTokens] & Hnodes & Hrun).
  rewrite !result_bind_unit in Hrun. destruct Hrun as (_ & _ & _ & _ & _ & _ & Hrun).
  apply result_bind_Ok in Hrun as (accessTokens & Haccess & _).
  apply check_nodes_config in Hnodes as (Hne & Hids & Htoks & _ & _ & Hmap). cbn [fst snd] in Hmap.
  apply check_access_tokens in Haccess as (Hane & Hatoks & _).
  assert (Hn : ∀ token id, NodeTokenMap controller !! token = Some id ↔
     ∃ node, node ∈ configured_nodes controller ∧ nc_Token node = token ∧ nc_ID node = id).
  { intros token id. unfold NodeTokenMap. rewrite foldl_insert_lookup; [|done|by intros; apply lookup_empty].
    rewrite lookup_empty. split; [by intros [?|?]|by right]. }
  assert (Ha : ∀ token name, EnabledAccessTokenMap controller !! token = Some name ↔
     ∃ entry, entry ∈ cc_AccessTokens controller ∧ act_Enabled entry ≠ Some false ∧
       act_Token entry = token ∧ act_Name entry = name).
  { intros token name. unfold EnabledAccessTokenMap. rewrite enabled_tokens_fold, foldl_insert_lookup.
    - rewrite lookup_empty. setoid_rewrite list_elem_of_filter. split.
      + intros [?|(a & [He ?] & ? & ?)]; [done|]. exists a. split_and!; [done| |done|done].
        intros Hf. by rewrite Hf in He.
      + intros (a & ? & He & ? & ?). right. exists a. split_and!; try done.
        by destruct (act_Enabled a) as [[]|].
    - eapply sublist_NoDup; [exact Hatoks|]. apply fmap_sublist, sublist_filter.
    - intros; apply lookup_empty. }
  rewrite Forall_forall in Hne. rewrite Forall_forall in Hane.
  split_and!; [done|exact Hn|exact Ha| | | |].
  - apply map_disjoint_spec. intros token id name Ht1 (entry & Hin & _ & Htok & _)%Ha.
    destruct (Hane _ Hin) as (_ & _ & Hnone). rewrite Hmap, Htok in Hnone. unfold NodeTokenMap in Ht1. congruence.
  - apply eq_None_not_Some. intros [id (node & Hin & Htok & _)%Hn]. by destruct (Hne _ Hin).
  - apply eq_None_not_Some. intros [name (entry & Hin & _ & Htok & _)%Ha]. by destruct (Hane _ Hin) as (_ & ? & _).
  - intros token1 token2 id (n1 & Hin1 & <- & Ht1)%Hn (n2 & Hin2 & <- & Ht2)%Hn.
    assert (n1 = n2) as ->; [|done]. apply list_elem_of_lookup in Hin1 as [i Hi], Hin2 as [j Hj].
    assert (i = j) as ->; [|congruence].
    apply (proj1 (NoDup_alt _) Hids i j id); rewrite list_lookup_fmap; [rewrite Hi|rewrite Hj]; cbn; by f_equal.
Qed.

(** In an accepted configuration the provider of a hostname is that of the
    longest configured zone the hostname lies in, and exists exactly when
    there is such a zone: no hostname is ambiguous. *)
Theorem ResolveDNSProvider_most_specific controller agent hostname :
  validateController controller agent = Ok () →
  match ResolveDNSProvider controller hostname with
  | Ok provider =>
      ∃ zone, (provider, zone) ∈ dnsZones (cc_DNS controller) ∧
        dnsNameMatchesZone (normalizeDNSName hostname) zone = true ∧
        ∀ provider' zone', (provider', zone') ∈ dnsZones (cc_DNS controller) →
          dnsNameMatchesZone (normalizeDNSName hostname) zone' = true →
          String.length zone' ≤ String.length zone ∧
          (String.length zone' = String.length zone → zone' = zone ∧ provider' = provider)
  | Err _ =>
      ∀ provider zone, (provider, zone) ∈ dnsZones (cc_DNS controller) →
        dnsNameMatchesZone (normalizeDNSName hostname) zone = false
  end.
Proof.
  unfold validateController. rewrite !result_bind_unit. intros (_ & Hdns & _). unfold ResolveDNSProvider.
  destruct (cc_DNS controller) as [dns|]; [|by intros ? ? ?%elem_of_nil].
  unfold validateControllerDNS in Hdns. rewrite result_bind_unit in Hdns. destruct Hdns as [_ Hdns].
  apply result_bind_Ok in Hdns as (seen & Hseen & _). apply check_zones_Ok in Hseen as [_ Hcons].
  destruct (dns_candidates (normalizeDNSName hostname) (dnsZones (Some dns)) [] ("", "")) as (best & -> & Hbest).
  - intros p z. apply dnsZones_not_empty.
  - exact Hcons.
  - left. split; [done|]. by intros ? ? ?%elem_of_nil.
  - cbn [result_bind app] in *. destruct Hbest as [[-> Hno]|(Hin & Hm & Hmax)]; [by rewrite decide_True|].
    destruct (dnsZones_not_empty _ _ _ Hin) as [Hp _]. rewrite decide_False by done.
    exists best.1. split_and!; [done|done|]. intros p' z' Hin' Hm'.
    destruct (Hmax _ _ Hin' Hm') as [Hle Hsame]. split; [done|]. intros Hlen.
    split; [by apply (matching_zones_equal _ z' best.1 Hm')|by apply Hsame].
Qed.
End credentials.

(** ** A concrete configuration *)
#[local] Existing Instances cron_example libraries_example resolver_example.

Definition example_controller : ControllerConfig :=
  MkControllerConfig ":8080" "/repo" "/state" "/log" (Some "0 3 * * *") None None
    (Some [MkNodeConfig "main" "" None "192.0.2.1" "" "node-token-1";
           MkNodeConfig "edge" "" (Some false) "" "2001:db8::1" "node-token-2"])
    [MkAccessTokenConfig "web" "user-token" None; MkAccessTokenConfig "old" "old-token" (Some false)]
    (Some (MkControllerDNSConfig (Some (MkCloudflareDNSConfig "cf" ["example.com"]))
             (Some (MkKeyDNSConfig "id" "key" ["dev.Example.com."])) None None None))
    None (Some (MkControllerRusticConfig ["main"] None)) None None.

Lemma tokens_identify_witness :
  NodeTokenMap example_controller ##ₘ EnabledAccessTokenMap example_controller.
Proof.
  destruct (tokens_identify example_controller None) as (_ & _ & _ & ? & _); [by_computation|done].
Defined.

Lemma ResolveDNSProvider_most_specific_witness :
  ResolveDNSProvider example_controller "api.dev.example.com." = Ok "alidns" ∧
  ∃ zone, ("alidns", zone) ∈ dnsZones (cc_DNS example_controller).
Proof.
  pose proof (ResolveDNSProvider_most_specific example_controller None "api.dev.example.com." (eq_refl (Ok ())))
    as Hspec.
  assert (Hok : ResolveDNSProvider example_controller "api.dev.example.com." = Ok "alidns") by by_computation.
  rewrite Hok in Hspec. destruct Hspec as (zone & Hin & _). split; [exact Hok|by exists zone].
Defined.
