(* ===== verification/RepoFiles.v ===== *)
(** * The files of the repository: src/internal/core/repo/files.go

    The working directory is a finite map from paths, as lists of names below
    the repository directory, to directories, files and symbolic links;
    permission bits and times are left out.  The operations of files.go are
    functions on such maps; a system call fails when its preconditions do
    (a missing parent, a file where a directory is needed), other failures
    are not modelled.  What following a symbolic link finds, and the package
    filepath-securejoin, are the class [Disk]. *)
From S2P Require Export Paths.

Inductive FNode :=
| FDir
| FFile (content : string)
| FSymlink (target : string).
#[export] Instance FNode_eq_dec : EqDecision FNode.
Proof. solve_decision. Defined.

Abbreviation FS := (gmap (list string) FNode).

Definition is_dir (node : FNode) : bool := match node with FDir => true | _ => false end.
Definition is_link (node : FNode) : bool := match node with FSymlink _ => true | _ => false end.

(** No name on the way to [path], nor [path], is a symbolic link. *)
Definition no_links (fs : FS) (path : list string) : Prop :=
  ∀ q node, q `prefix_of` path → fs !! q = Some node → is_link node = false.

(** [os.ErrNotExist], or any other error. *)
Inductive StatError := NotExist | StatFailed.

(** [follow fs link rest] is what [Lstat] finds at [rest] below the link;
    [SecureJoin(repoDir, path)] is a path below the directory, and is
    [path] itself when there are no links on it.  Whether a link leads
    somewhere does not depend on the content of a file. *)
Class Disk := {
  follow : FS → list string → list string → result StatError FNode;
  SecureJoin : FS → list string → option (list string);
  SecureJoin_plain : ∀ fs path, no_links fs path → SecureJoin fs path = Some path;
  follow_content : ∀ fs path content content' link rest, fs !! path = Some (FFile content) →
    follow (<[path := FFile content']> fs) link rest = Err NotExist ↔ follow fs link rest = Err NotExist;
  stat_size : FNode → Z;
}.

(** ** Paths and system calls *)
Definition components (path : string) : list string := if decide (path = "") then [] else Split path sep.
Definition path_of (names : list string) : string := Join names "/".
Definition gitDirName : string := ".git".
Definition parent_of (names : list string) : list string := take (length names - 1) names.

Section files.
Context `{Disk}.

Fixpoint lstat_from (fs : FS) (dir rest : list string) : result StatError FNode :=
  match fs !! dir with
  | None => Err NotExist
  | Some node =>
      match rest with
      | [] => Ok node
      | name :: rest' =>
          match node with
          | FDir => lstat_from fs (dir ++ [name]) rest'
          | FFile _ => Err StatFailed
          | FSymlink _ => follow fs dir rest
          end
      end
  end.
Definition Lstat (fs : FS) (path : list string) : result StatError FNode := lstat_from fs [] path.

(** [os.MkdirAll]; links were rejected before. *)
Fixpoint mkdir_from (fs : FS) (dir rest : list string) : result RepoError FS :=
  let made := match fs !! dir with
              | Some FDir => Ok fs
              | None => Ok (<[dir := FDir]> fs)
              | Some _ => Err (IOError "not a directory")
              end in
  match rest with
  | [] => made
  | name :: rest => result_bind made (λ fs, mkdir_from fs (dir ++ [name]) rest)
  end.
Definition MkdirAll (fs : FS) (path : list string) : result RepoError FS := mkdir_from fs [] path.

(** [os.OpenFile(path, O_WRONLY|O_CREATE|O_TRUNC)] and the write. *)
Definition write_at (fs : FS) (path : list string) (content : string) : result RepoError FS :=
  match fs !! path with
  | None | Some (FFile _) => Ok (<[path := FFile content]> fs)
  | Some _ => Err (IOError "is a directory")
  end.
(** [os.RemoveAll] *)
Definition RemoveAll {A} (fs : gmap (list string) A) (path : list string) : gmap (list string) A :=
  filter (λ e, ¬ path `prefix_of` e.1) fs.

(** The names below a prefix of a path. *)
Fixpoint strip_prefix (prefix names : list string) : option (list string) :=
  match prefix, names with
  | [], _ => Some names
  | p :: prefix, n :: names => if decide (p = n) then strip_prefix prefix names else None
  | _ :: _, [] => None
  end.
(** The files at and below a path, relative to it, and such files put there. *)
Definition subtree {A} (fs : gmap (list string) A) (path : list string) : gmap (list string) A :=
  list_to_map (omap (λ e, (λ r, (r, e.2)) <$> strip_prefix path e.1) (map_to_list fs)).
Definition graft {A} (path : list string) (sub fs : gmap (list string) A) : gmap (list string) A :=
  kmap (app path) sub ∪ fs.
Definition Rename (fs : FS) (source destination : list string) : FS :=
  graft destination (subtree fs source) (RemoveAll fs source).

(** ** files.go: checks *)
Definition resolveRepoPath (fs : FS) (relativePath : string) : result RepoError (list string * string) :=
  result_bind (NormalizePath relativePath) (λ relativePath,
  if decide (relativePath = "") then Ok ([], "")
  else match SecureJoin fs (components relativePath) with
       | Some absPath => Ok (absPath, relativePath)
       | None => Err (IOError "resolve repo path")
       end).

Fixpoint reject_links (fs : FS) (current parts : list string) : result RepoError () :=
  match parts with
  | [] => Ok ()
  | part :: parts =>
      let current := current ++ [part] in
      match Lstat fs current with
      | Err NotExist => Ok ()
      | Err StatFailed => Err (IOError "lstat")
      | Ok node => if is_link node then Err ErrRepoPathInvalid else reject_links fs current parts
      end
  end.
Definition rejectSymlinkPath (fs : FS) (normalizedPath : string) : result RepoError () :=
  match fs !! [] with
  | None => Err (IOError "stat repo root")
  | Some root =>
      if is_link root then Err ErrRepoPathInvalid else reject_links fs [] (components normalizedPath)
  end.

Definition isPlainRuntimePath (path : string) : bool :=
  bool_decide (path ≠ "") && negb (IsEncryptedFilePath path) && bool_decide (Base path ≠ ".enc").
Definition encryptedSiblingPath (path : string) : string :=
  if IsEncryptedFilePath path
  then if IsValidEncryptedFilePath path then RuntimeFilePath path else ""
  else path +:+ encryptedFileSuffix.

(** The parents of a path; each is shorter, the length is enough fuel. *)
Fixpoint parents_from (fuel : nat) (parent : string) : list string :=
  match fuel with
  | O => []
  | S fuel => if decide (parent ≠ "." ∧ parent ≠ "/") then parent :: parents_from fuel (Dir parent) else []
  end.
Definition parents (path : string) : list string := parents_from (S (String.length path)) (Dir path).

(** [Lstat] of a path joined to the repository directory, which cleans it;
    the directory the repository is in exists. *)
Definition lstat_joined (fs : FS) (path : string) : result StatError FNode :=
  let path := Clean path in
  if decide (path = ".") then Lstat fs []
  else if escapes path then Ok FDir
  else Lstat fs (components path).

Definition check_conflict (fs : FS) (relativePath : string) (_ : ()) (conflict : string)
    : result RepoError () :=
  if decide (conflict = "") then Ok ()
  else match lstat_joined fs conflict with
       | Ok _ => Err (ErrEncryptedFileConflict relativePath conflict)
       | Err NotExist => Ok ()
       | Err StatFailed => Err (IOError "check encrypted file conflict")
       end.
Definition rejectEncryptedFileConflict (fs : FS) (relativePath : string) : result RepoError () :=
  if negb (IsValidEncryptedFilePath relativePath) && negb (isPlainRuntimePath relativePath) then Ok ()
  else
    let conflicts := encryptedSiblingPath relativePath ::
      (if IsEncryptedFilePath relativePath then []
       else (λ parent, parent +:+ encryptedFileSuffix) <$> parents relativePath) in
    for_each (check_conflict fs relativePath) () conflicts.

Definition is_protected (path : string) : bool :=
  bool_decide (path = gitDirName) || HasPrefix path (gitDirName +:+ "/").

(** ** files.go: reading *)
Record FileContent := MkFileContent { fc_Path : string; fc_Content : string; fc_Size : Z }.

Definition ReadFile (fs : FS) (relativePath : string) : result RepoError FileContent :=
  result_bind (resolveRepoPath fs relativePath) (λ '(absPath, normalizedPath),
  result_bind (rejectSymlinkPath fs normalizedPath) (λ _,
  match Lstat fs absPath with
  | Err NotExist => Err ErrRepoPathNotFound
  | Err StatFailed => Err (IOError "stat repo file")
  | Ok FDir => Err ErrRepoPathNotFile
  | Ok (FFile content) => Ok (MkFileContent normalizedPath content (stat_size (FFile content)))
  | Ok (FSymlink _) => Err (IOError "read repo file")
  end)).

Record FileEntry := MkFileEntry { fe_Path : string; fe_Name : string; fe_IsDir : bool; fe_Size : Z }.

Definition pathDepth (path : string) : nat :=
  if decide (path = "") then 0 else length (Split path sep).

(** The order of the entries of one directory: directories first, then by
    name; over several directories by depth and parent first. *)
Definition one_level_le (a b : FileEntry) : Prop :=
  if decide (fe_IsDir a = fe_IsDir b) then String.le (fe_Name a) (fe_Name b) else fe_IsDir a = true.
#[export] Instance one_level_le_dec a b : Decision (one_level_le a b).
Proof. unfold one_level_le. case_decide; apply _. Defined.
Definition recursive_le (a b : FileEntry) : Prop :=
  if decide (pathDepth (fe_Path a) = pathDepth (fe_Path b)) then
    if decide (Dir (fe_Path a) = Dir (fe_Path b)) then one_level_le a b
    else String.le (Dir (fe_Path a)) (Dir (fe_Path b))
  else pathDepth (fe_Path a) < pathDepth (fe_Path b).
#[export] Instance recursive_le_dec a b : Decision (recursive_le a b).
Proof. unfold recursive_le. repeat case_decide; apply _. Defined.

Definition entry_at (normalizedPath : string) (names : list string) (node : FNode) : FileEntry :=
  MkFileEntry (if decide (normalizedPath = "") then path_of names
               else JoinPath [normalizedPath; path_of names])
    (default "" (last names)) (is_dir node) (stat_size node).
(** The entries strictly below a directory, without those of [.git]. *)
Definition listed (fs : FS) (absPath : list string) (normalizedPath : string) (recursive : bool)
    : list FileEntry :=
  omap (λ e, match e.1 with
             | [] => None
             | _ :: rest =>
                 if decide (gitDirName ∈ e.1 ∨ (recursive = false ∧ rest ≠ [])) then None
                 else Some (entry_at normalizedPath e.1 e.2)
             end) (map_to_list (subtree fs absPath)).
Definition listFilesOneLevel (fs : FS) (absPath : list string) (normalizedPath : string) : list FileEntry :=
  merge_sort one_level_le (listed fs absPath normalizedPath false).
Definition listFilesRecursive (fs : FS) (absPath : list string) (normalizedPath : string) : list FileEntry :=
  merge_sort recursive_le (listed fs absPath normalizedPath true).
Definition ListFiles (fs : FS) (relativePath : string) (recursive : bool)
    : result RepoError (list FileEntry) :=
  result_bind (resolveRepoPath fs relativePath) (λ '(absPath, normalizedPath),
  match Lstat fs absPath with
  | Err NotExist => Err ErrRepoPathNotFound
  | Err StatFailed => Err (IOError "stat repo path")
  | Ok node =>
      if negb (is_dir node) then Err ErrRepoPathNotDirectory
      else if recursive then Ok (listFilesRecursive fs absPath normalizedPath)
      else Ok (listFilesOneLevel fs absPath normalizedPath)
  end).

(** ** files.go: writing *)
Definition WriteFile (fs : FS) (relativePath content : string) : result RepoError (FS * string) :=
  result_bind (resolveRepoPath fs relativePath) (λ '(absPath, normalizedPath),
  if decide (normalizedPath = "") then Err ErrRepoPathInvalid
  else if is_protected normalizedPath then Err ErrRepoPathProtected
  else if HasEncryptedParent normalizedPath ||
          (IsEncryptedFilePath normalizedPath && negb (IsValidEncryptedFilePath normalizedPath))
  then Err ErrRepoPathInvalid
  else
    result_bind (rejectEncryptedFileConflict fs normalizedPath) (λ _,
    result_bind (rejectSymlinkPath fs normalizedPath) (λ _,
    result_bind (MkdirAll fs (parent_of absPath)) (λ fs,
    result_bind (write_at fs absPath content) (λ fs, Ok (fs, normalizedPath)))))).

Definition CreateDirectory (fs : FS) (relativePath : string) : result RepoError (FS * string) :=
  result_bind (resolveRepoPath fs relativePath) (λ '(absPath, normalizedPath),
  if decide (normalizedPath = "") then Err ErrRepoPathInvalid
  else if is_protected normalizedPath then Err ErrRepoPathProtected
  else if HasEncryptedParent normalizedPath || IsEncryptedFilePath normalizedPath
  then Err ErrRepoPathInvalid
  else
    result_bind (rejectEncryptedFileConflict fs normalizedPath) (λ _,
    result_bind (rejectSymlinkPath fs normalizedPath) (λ _,
    match Lstat fs absPath with
    | Ok _ => Err ErrRepoPathAlreadyExists
    | Err StatFailed => Err (IOError "stat repo directory")
    | Err NotExist =>
        result_bind (MkdirAll fs absPath) (λ fs,
        result_bind (write_at fs (absPath ++ [".gitkeep"]) "") (λ fs, Ok (fs, normalizedPath)))
    end))).

Definition DeletePath (fs : FS) (relativePath : string) : result RepoError (FS * string) :=
  result_bind (resolveRepoPath fs relativePath) (λ '(absPath, normalizedPath),
  if decide (normalizedPath = "") then Err ErrRepoPathInvalid
  else if is_protected normalizedPath then Err ErrRepoPathProtected
  else
    result_bind (rejectSymlinkPath fs normalizedPath) (λ _,
    match Lstat fs absPath with
    | Err NotExist => Err ErrRepoPathNotFound
    | Err StatFailed => Err (IOError "stat repo path")
    | Ok _ => Ok (RemoveAll fs absPath, normalizedPath)
    end)).

(** The files the walk of the repository passes to the scan: everything but
    directories, [.git] and the source.  When [.git] is not a directory,
    [filepath.SkipDir] also skips the entries after it. *)
Definition walk_skips (fs : FS) (names : list string) : bool :=
  match names with
  | [] => false
  | name :: _ =>
      bool_decide (name = gitDirName) ||
      match fs !! [gitDirName] with
      | None | Some FDir => false
      | Some _ => negb (bool_decide (String.le name gitDirName))
      end
  end.
Definition move_paths (fs : FS) (source destination : list string) : list string :=
  omap (λ e, if is_dir e.2 || walk_skips fs e.1 || bool_decide (source `prefix_of` e.1) then None
             else Some (path_of e.1)) (map_to_list fs) ++
  omap (λ e, if is_dir e.2 then None else Some (path_of (destination ++ e.1)))
    (map_to_list (subtree fs source)).

Definition rejectEncryptedMoveConflict (fs : FS) (sourcePath destinationPath : string)
    : result RepoError () :=
  if negb (IsValidEncryptedFilePath destinationPath) && negb (isPlainRuntimePath destinationPath) then Ok ()
  else
    let sibling := encryptedSiblingPath destinationPath in
    if decide (sibling = "") then Ok ()
    else match lstat_joined fs sibling with
    | Ok _ => if decide (sibling = sourcePath) then Ok ()
              else Err (ErrEncryptedFileConflict destinationPath sibling)
    | Err StatFailed => Err (IOError "check encrypted move conflict")
    | Err NotExist =>
        ValidateEncryptedFilePaths (move_paths fs (components sourcePath) (components destinationPath))
    end.

Definition check_move_path (_ : ()) (path : string) : result RepoError () :=
  if is_protected path then Err ErrRepoPathProtected
  else if HasEncryptedParent path || (IsEncryptedFilePath path && negb (IsValidEncryptedFilePath path))
  then Err ErrRepoPathInvalid
  else Ok ().

Definition MovePath (fs : FS) (sourcePath destinationPath : string) : result RepoError (FS * (string * string)) :=
  result_bind (resolveRepoPath fs sourcePath) (λ '(absSource, source),
  result_bind (resolveRepoPath fs destinationPath) (λ '(absDestination, destination),
  if decide (source = "" ∨ destination = "") then Err ErrRepoPathInvalid
  else if decide (source = destination) then Err ErrRepoPathInvalid
  else
    result_bind (for_each check_move_path () [source; destination]) (λ _,
    result_bind (rejectSymlinkPath fs source) (λ _,
    result_bind (rejectSymlinkPath fs destination) (λ _,
    match Lstat fs absSource with
    | Err NotExist => Err ErrRepoPathNotFound
    | Err StatFailed => Err (IOError "stat repo source path")
    | Ok info =>
        if is_dir info && (IsEncryptedFilePath source || IsEncryptedFilePath destination)
        then Err ErrRepoPathInvalid
        else match Lstat fs absDestination with
        | Ok _ => Err ErrRepoPathAlreadyExists
        | Err StatFailed => Err (IOError "stat repo destination path")
        | Err NotExist =>
            result_bind (rejectEncryptedMoveConflict fs source destination) (λ _,
            if is_dir info && HasPrefix (destination +:+ "/") (source +:+ "/") then Err ErrRepoPathInvalid
            else
              result_bind (MkdirAll fs (parent_of absDestination)) (λ fs,
              Ok (Rename fs absSource absDestination, (source, destination))))
        end
    end))))).

(** ** files.go: snapshots *)
(** The temporary directory holds the copy of what was there. *)
Record PathSnapshot := MkPathSnapshot { ps_RelativePath : string; ps_data : option FS }.

Definition has_link (fs : FS) : bool := existsb (λ e, is_link e.2) (map_to_list fs).

Definition CapturePath (fs : FS) (relativePath : string) : result RepoError PathSnapshot :=
  result_bind (resolveRepoPath fs relativePath) (λ '(absPath, normalizedPath),
  if decide (normalizedPath = "") then Err ErrRepoPathInvalid
  else if is_protected normalizedPath then Err ErrRepoPathProtected
  else
    result_bind (rejectSymlinkPath fs normalizedPath) (λ _,
    match Lstat fs absPath with
    | Err NotExist => Ok (MkPathSnapshot normalizedPath None)
    | Err StatFailed => Err (IOError "stat repo path")
    | Ok _ =>
        if has_link (subtree fs absPath) then Err ErrRepoPathInvalid
        else Ok (MkPathSnapshot normalizedPath (Some (subtree fs absPath)))
    end)).

Definition RestorePath (fs : FS) (snapshot : PathSnapshot) : result RepoError FS :=
  result_bind (resolveRepoPath fs (ps_RelativePath snapshot)) (λ '(absPath, normalizedPath),
  if decide (normalizedPath = "") then Err ErrRepoPathInvalid
  else if is_protected normalizedPath then Err ErrRepoPathProtected
  else
    result_bind (rejectSymlinkPath fs normalizedPath) (λ _,
    let fs := RemoveAll fs absPath in
    match ps_data snapshot with
    | None => Ok fs
    | Some data => result_bind (MkdirAll fs (parent_of absPath)) (λ fs, Ok (graft absPath data fs))
    end)).
End files.
