(* ===== verification/RepoFilesTheorems.v ===== *)
(** * Theorems on the files of the repository

    What each operation of files.go does to a well-formed working directory,
    and that it keeps one file per runtime path. *)

(** ** Lemmas on the files of the repository

    Well-formed working directories, what the system calls do to them, and
    the effect of each successful operation of files.go. *)
From S2P Require Export RepoFiles.

(** The root is a directory, every entry is in a directory, names are names. *)
Record wf_fs (fs : FS) : Prop := {
  wf_root : fs !! [] = Some FDir;
  wf_parent : ∀ q x node, fs !! (q ++ [x]) = Some node → fs !! q = Some FDir;
  wf_names : ∀ q node, fs !! q = Some node → Forall normal q;
}.

(** ** Maps of paths *)
Lemma strip_prefix_Some prefix names r : strip_prefix prefix names = Some r ↔ names = prefix ++ r.
Proof.
  revert names. induction prefix as [|p prefix IH]; intros names; cbn; [naive_solver|].
  destruct names as [|n names]; [done|]. case_decide as Hd.
  - rewrite IH, Hd. naive_solver.
  - split; [done|]. intros [= <- _]. done.
Qed.

Lemma lookup_subtree {A} (fs : gmap (list string) A) (path r : list string) : subtree fs path !! r = fs !! (path ++ r).
Proof.
  assert (Hin : ∀ r node, (r, node) ∈ omap (λ e : list string * A, (λ r, (r, e.2)) <$> strip_prefix path e.1) (map_to_list fs) ↔
    fs !! (path ++ r) = Some node).
  { intros r' node. rewrite list_elem_of_omap. split.
    - intros ([q n] & Hq & (r0 & Hs & [= <- <-])%fmap_Some). apply elem_of_map_to_list in Hq.
      apply strip_prefix_Some in Hs. cbn in Hs. by subst.
    - intros Hq. exists (path ++ r', node). rewrite elem_of_map_to_list. split; [done|]. cbn.
      by rewrite (proj2 (strip_prefix_Some path (path ++ r') r') eq_refl). }
  apply option_eq. intros node. unfold subtree. rewrite <-Hin. split; [apply elem_of_list_to_map_2|].
  intros Hr. apply elem_of_list_to_map_1'; [|done]. intros node' Hr'%Hin. apply Hin in Hr. congruence.
Qed.

Lemma lookup_RemoveAll {A} (fs : gmap (list string) A) (path q : list string) :
  RemoveAll fs path !! q = if decide (path `prefix_of` q) then None else fs !! q.
Proof.
  unfold RemoveAll. rewrite map_lookup_filter. destruct (fs !! q) as [node|]; cbn; [|by case_decide].
  case_guard; by case_decide.
Qed.

Lemma lookup_graft {A} (path : list string) (sub fs : gmap (list string) A) q :
  graft path sub fs !! q =
    match strip_prefix path q with
    | Some r => match sub !! r with Some node => Some node | None => fs !! q end
    | None => fs !! q
    end.
Proof.
  unfold graft. destruct (strip_prefix path q) as [r|] eqn:Hs.
  - apply strip_prefix_Some in Hs. subst q. destruct (sub !! r) as [node|] eqn:Hr.
    + apply lookup_union_Some_l. by rewrite (lookup_kmap (app path)).
    + rewrite lookup_union_r; [done|]. by rewrite (lookup_kmap (app path)).
  - rewrite lookup_union_r; [done|]. apply lookup_kmap_None; [apply _|]. intros r ->.
    by rewrite (proj2 (strip_prefix_Some path (path ++ r) r) eq_refl) in Hs.
Qed.

Lemma strip_prefix_None path q : strip_prefix path q = None ↔ ¬ path `prefix_of` q.
Proof.
  split.
  - intros Hs [r ->]. by rewrite (proj2 (strip_prefix_Some path (path ++ r) r) eq_refl) in Hs.
  - intros Hno. destruct (strip_prefix path q) as [r|] eqn:Hs; [|done]. destruct Hno. exists r.
    by apply strip_prefix_Some.
Qed.

(** A path and a prefix of it. *)
Lemma snoc_inv (q : list string) : q = [] ∨ ∃ q' x, q = q' ++ [x].
Proof. destruct q as [|x q _] using rev_ind; [by left|]. right. by exists q, x. Qed.

Lemma parent_of_snoc names x : parent_of (names ++ [x]) = names.
Proof. unfold parent_of. rewrite length_app. cbn. replace (_ - 1) with (length names) by lia. apply take_app_length. Qed.

Lemma prefix_snoc_inv (q names : list string) x : q `prefix_of` names ++ [x] → q = names ++ [x] ∨ q `prefix_of` names.
Proof.
  intros [r Hr]. destruct (snoc_inv r) as [->|(r' & y & ->)].
  - left. by rewrite (right_id_L [] (++)) in Hr.
  - right. rewrite (assoc_L (++)) in Hr. apply app_inj_tail in Hr as [-> ->]. by exists r'.
Qed.

(** ** Well-formed directories *)
Section wf.
Context (fs : FS) (Hwf : wf_fs fs).

Lemma wf_prefix q r node : fs !! (q ++ r) = Some node → r ≠ [] → fs !! q = Some FDir.
Proof.
  revert node. induction r as [|x r IH] using rev_ind; intros node Hq Hne; [done|].
  rewrite (assoc_L (++)) in Hq. apply (wf_parent _ Hwf) in Hq. destruct (snoc_inv r) as [->|(r' & y & ->)].
  - by rewrite (right_id_L [] (++)) in Hq.
  - apply (IH FDir Hq). by destruct r'.
Qed.

Lemma wf_below q r : fs !! q ≠ Some FDir → r ≠ [] → fs !! (q ++ r) = None.
Proof.
  intros Hq Hr. destruct (fs !! (q ++ r)) as [node|] eqn:E; [|done]. by apply wf_prefix in E.
Qed.

Lemma wf_dir_or_missing q node x :
  fs !! (q ++ [x]) = Some node → fs !! q = Some FDir.
Proof. apply (wf_parent _ Hwf). Qed.
End wf.

(** ** System calls *)
Section calls.
Context `{Disk} (fs : FS) (Hwf : wf_fs fs).

(** The names on the way to a path, the last excepted, are no links. *)
Definition clear_way (path : list string) : Prop :=
  ∀ q r node, q ++ r = path → r ≠ [] → fs !! q = Some node → is_link node = false.

Lemma no_links_clear path : no_links fs path → clear_way path.
Proof. intros Hno q r node <- _. apply Hno. by exists r. Qed.

Lemma lstat_from_clear dir rest :
  clear_way (dir ++ rest) →
  (∀ node, lstat_from fs dir rest = Ok node ↔ fs !! (dir ++ rest) = Some node) ∧
  (lstat_from fs dir rest = Err NotExist → fs !! (dir ++ rest) = None).
Proof.
  revert dir. induction rest as [|x rest IH]; intros dir Hclear; cbn [lstat_from].
  - rewrite (right_id_L [] (++)). destruct (fs !! dir); naive_solver.
  - destruct (fs !! dir) as [[|content|target]|] eqn:Hd.
    + replace (dir ++ x :: rest) with ((dir ++ [x]) ++ rest) in * by (by rewrite <-(assoc_L (++))).
      by apply IH.
    + rewrite (wf_below fs Hwf dir) by (by rewrite ?Hd). done.
    + by specialize (Hclear dir (x :: rest) (FSymlink target) eq_refl ltac:(done) Hd).
    + rewrite (wf_below fs Hwf dir) by (by rewrite ?Hd). done.
Qed.

Lemma Lstat_clear path :
  clear_way path →
  (∀ node, Lstat fs path = Ok node ↔ fs !! path = Some node) ∧ (Lstat fs path = Err NotExist → fs !! path = None).
Proof. apply (lstat_from_clear []). Qed.

Lemma no_links_app current part parts :
  no_links fs (current ++ [part]) →
  (fs !! (current ++ [part]) = None ∨ no_links fs ((current ++ [part]) ++ parts)) →
  no_links fs (current ++ part :: parts).
Proof.
  intros Hno Hcase. replace (current ++ part :: parts) with ((current ++ [part]) ++ parts)
    by (by rewrite <-(assoc_L (++))). destruct Hcase as [Hnone|?]; [|done].
  intros q node [r Hr] Hq. destruct (decide (q `prefix_of` current ++ [part])) as [Hp|Hp]; [by apply (Hno q)|].
  assert (current ++ [part] `prefix_of` q) as [s ->].
  { destruct (prefix_weak_total q (current ++ [part]) ((current ++ [part]) ++ parts)) as [?|?];
      [by exists r|by exists parts|done|done]. }
  destruct s as [|y s]; [by destruct Hp; rewrite (right_id_L [] (++))|].
  by rewrite (wf_below fs Hwf (current ++ [part])) in Hq by (by rewrite ?Hnone).
Qed.

Lemma reject_links_Ok current parts :
  no_links fs current → reject_links fs current parts = Ok () → no_links fs (current ++ parts).
Proof.
  revert current. induction parts as [|part parts IH]; intros current Hno Hok; cbn [reject_links] in Hok.
  { by rewrite (right_id_L [] (++)). }
  assert (Hclear : clear_way (current ++ [part])).
  { intros q r node Hq Hr Hn. destruct (snoc_inv r) as [->|(r' & y & ->)]; [done|].
    rewrite (assoc_L (++)) in Hq. apply app_inj_tail in Hq as [Hq _]. apply (Hno q node); [by exists r'|done]. }
  destruct (Lstat_clear _ Hclear) as [Hst Hne].
  assert (Hstep : ∀ node, fs !! (current ++ [part]) = Some node → is_link node = false →
    no_links fs (current ++ [part])).
  { intros node Hn Hl q node' Hq Hn'. apply prefix_snoc_inv in Hq as [->|Hq]; [congruence|by apply (Hno q)]. }
  destruct (Lstat fs (current ++ [part])) as [node|[|]] eqn:El; [|by specialize (Hne eq_refl);
    apply no_links_app; [|by left]; intros q node Hq Hn; apply prefix_snoc_inv in Hq as [->|Hq];
    [congruence|by apply (Hno q)]|done].
  destruct (is_link node) eqn:Hl; [done|]. pose proof (proj1 (Hst node) eq_refl) as Hn.
  apply no_links_app; [by eapply Hstep|]. right. apply IH; [by eapply Hstep|done].
Qed.

Lemma rejectSymlinkPath_Ok names :
  names ≠ [] → Forall normal names → rejectSymlinkPath fs (path_of names) = Ok () → no_links fs names.
Proof.
  intros Hne Hf. unfold rejectSymlinkPath. rewrite (wf_root _ Hwf). cbn [is_link].
  unfold components. destruct (Join_normal_not names Hne Hf) as (Hn & _). rewrite decide_False by done.
  unfold path_of. rewrite Split_normal by done. intros Hok. apply (reject_links_Ok []); [|done].
  intros q node Hq. apply prefix_nil_inv in Hq as ->. rewrite (wf_root _ Hwf). by intros [= <-].
Qed.
End calls.

(** ** Directories made *)
Definition with_dirs (fs : FS) (path : list string) (fs' : FS) : Prop :=
  (∀ q, fs' !! q = if decide (q `prefix_of` path) then Some FDir else fs !! q) ∧
  (∀ q, q `prefix_of` path → fs !! q = None ∨ fs !! q = Some FDir).

Lemma mkdir_from_Ok fs dir rest fs' :
  mkdir_from fs dir rest = Ok fs' →
  (∀ q, fs' !! q = if decide (dir `prefix_of` q ∧ q `prefix_of` dir ++ rest) then Some FDir else fs !! q) ∧
  (∀ q, dir `prefix_of` q → q `prefix_of` dir ++ rest → fs !! q = None ∨ fs !! q = Some FDir).
Proof.
  assert (Hmade : ∀ fs0 : FS, match fs !! dir with
      | Some FDir => Ok fs | None => Ok (<[dir := FDir]> fs) | Some _ => Err (IOError "not a directory") end = Ok fs0 →
    (∀ q, fs0 !! q = if decide (q = dir) then Some FDir else fs !! q) ∧ (fs !! dir = None ∨ fs !! dir = Some FDir)).
  { intros fs0 Hok. destruct (fs !! dir) as [[| |]|] eqn:Hd; simplify_eq/=.
    - split; [|by right]. intros q. by case_decide; subst.
    - split; [|by left]. intros q. case_decide; subst; [by rewrite lookup_insert_eq|by rewrite lookup_insert_ne]. }
  revert fs dir fs' Hmade. induction rest as [|x rest IH]; intros fs dir fs' Hmade Hok; cbn [mkdir_from] in Hok.
  - destruct (Hmade _ Hok) as [Hl Hc]. rewrite (right_id_L [] (++)). split.
    + intros q. rewrite Hl. destruct (decide (q = dir)) as [->|Hne]; [by rewrite decide_True|].
      rewrite decide_False; [done|]. intros [H1 H2]. by destruct Hne, (anti_symm prefix dir q).
    + intros q H1 H2. by rewrite <-(anti_symm prefix dir q).
  - apply result_bind_Ok in Hok as (fs1 & Hm & Hok). destruct (Hmade _ Hm) as [Hl Hc].
    apply IH in Hok as [Hl' Hc'].
    2: { intros fs0 Hok0. destruct (fs1 !! (dir ++ [x])) as [[| |]|] eqn:Hd; simplify_eq/=.
         - split; [|by right]. intros q. by case_decide; subst.
         - split; [|by left]. intros q. case_decide; subst; [by rewrite lookup_insert_eq|by rewrite lookup_insert_ne]. }
    replace (dir ++ x :: rest) with ((dir ++ [x]) ++ rest) by (by rewrite <-(assoc_L (++))).
    assert (Hcase : ∀ q, dir `prefix_of` q → q `prefix_of` (dir ++ [x]) ++ rest → q = dir ∨ dir ++ [x] `prefix_of` q).
    { intros q [r ->] [s Hs]. destruct r as [|y r]; [left; by rewrite (right_id_L [] (++))|right].
      rewrite <-!(assoc_L (++)) in Hs. apply app_inv_head in Hs. cbn in Hs. injection Hs as -> _. exists r.
      by rewrite <-(assoc_L (++)). }
    assert (Hnd : ∀ q, dir ++ [x] `prefix_of` q → q ≠ dir).
    { intros q [r ->] Heq. apply (f_equal length) in Heq. rewrite !length_app in Heq. cbn in Heq. lia. }
    split.
    + intros q. rewrite Hl', Hl. destruct (decide (dir ++ [x] `prefix_of` q ∧ _)) as [[H1 H2]|Hno].
      * rewrite decide_True; [done|]. split; [|done]. etrans; [by apply prefix_app_r|done].
      * destruct (decide (q = dir)) as [->|Hne].
        { rewrite decide_True; [done|]. split; [done|]. rewrite <-(assoc_L (++)). by apply prefix_app_r. }
        rewrite decide_False; [done|]. intros [H1 H2]. destruct (Hcase q H1 H2); tauto.
    + intros q H1 H2. destruct (Hcase q H1 H2) as [->|H3]; [done|].
      specialize (Hc' q H3 H2). rewrite Hl, decide_False in Hc' by (by apply Hnd). done.
Qed.

Lemma MkdirAll_Ok fs path fs' : MkdirAll fs path = Ok fs' → with_dirs fs path fs'.
Proof.
  intros [Hl Hc]%mkdir_from_Ok. cbn [app] in *. split.
  - intros q. rewrite Hl. pose proof (prefix_nil q). by destruct (decide (q `prefix_of` path)) as [?|?];
      [rewrite decide_True by done|rewrite decide_False by tauto].
  - intros q Hq. apply Hc; [apply prefix_nil|done].
Qed.

Lemma wf_with_dirs fs path fs' : wf_fs fs → Forall normal path → with_dirs fs path fs' → wf_fs fs'.
Proof.
  intros Hwf Hf [Hl Hc]. split.
  - rewrite Hl, decide_True; [done|apply prefix_nil].
  - intros q x node Hq. rewrite Hl in Hq |- *. destruct (decide (q `prefix_of` path)) as [?|Hno]; [done|].
    rewrite decide_False in Hq; [by eapply wf_parent|]. intros Hp. destruct Hno. etrans; [|done]. by apply prefix_app_r.
  - intros q node Hq. rewrite Hl in Hq. case_decide as Hp; [|by eapply wf_names].
    destruct Hp as [r ->]. by apply Forall_app in Hf as [? _].
Qed.

(** Making directories changes no file. *)
Lemma with_dirs_files fs path fs' q node :
  with_dirs fs path fs' → is_dir node = false → fs' !! q = Some node ↔ fs !! q = Some node.
Proof.
  intros [Hl Hc] Hd. rewrite Hl. case_decide as Hp; [|done]. split; [by intros [= <-]|].
  intros Hq. destruct (Hc q Hp); congruence || by simplify_eq.
Qed.

Lemma wf_insert fs path node names x :
  path = names ++ [x] → wf_fs fs → Forall normal path → fs !! names = Some FDir →
  (∀ y, fs !! (path ++ [y]) = None) → wf_fs (<[path := node]> fs).
Proof.
  intros -> Hwf Hf Hd Hleaf. split.
  - rewrite lookup_insert_ne; [by apply wf_root|]. by destruct names.
  - intros q y node' [[Hq _]|[_ Hq]]%lookup_insert_Some.
    + apply app_inj_tail in Hq as [<- _]. rewrite lookup_insert_ne; [done|].
      intros Heq. apply (f_equal length) in Heq. rewrite length_app in Heq. cbn in Heq. lia.
    + pose proof (wf_parent _ Hwf _ _ _ Hq). destruct (decide (names ++ [x] = q)) as [<-|Hne].
      * by rewrite Hleaf in Hq.
      * by rewrite lookup_insert_ne.
  - intros q node' [[<- _]|[_ Hq]]%lookup_insert_Some; [done|by eapply wf_names].
Qed.

Lemma wf_RemoveAll fs path : wf_fs fs → path ≠ [] → wf_fs (RemoveAll fs path).
Proof.
  intros Hwf Hne. split.
  - rewrite lookup_RemoveAll, decide_False; [by apply wf_root|]. by intros ->%prefix_nil_inv.
  - intros q x node Hq. rewrite lookup_RemoveAll in Hq |- *. case_decide as Hno; [done|].
    rewrite decide_False; [by eapply wf_parent|]. intros Hp. destruct Hno. etrans; [done|]. by apply prefix_app_r.
  - intros q node Hq. rewrite lookup_RemoveAll in Hq. case_decide; [done|]. by eapply wf_names.
Qed.

(** ** Paths resolved *)
Section resolved.
Context `{Disk} (fs : FS) (Hwf : wf_fs fs).

Lemma components_path_of names : names ≠ [] → Forall normal names → components (path_of names) = names.
Proof.
  intros Hne Hf. unfold components, path_of. destruct (Join_normal_not names Hne Hf) as (Hn & _).
  rewrite decide_False by done. by apply Split_normal.
Qed.

(** A path an operation accepted is the plain path of its names. *)
Definition plain_path (path : string) (names : list string) : Prop :=
  names ≠ [] ∧ Forall normal names ∧ path = path_of names ∧ components path = names ∧ no_links fs names.

Lemma resolved_plain relativePath absPath path :
  resolveRepoPath fs relativePath = Ok (absPath, path) → path ≠ "" → rejectSymlinkPath fs path = Ok () →
  plain_path path absPath.
Proof.
  unfold resolveRepoPath. intros Hok Hne Hrej. apply result_bind_Ok in Hok as (p & Hn & Hok).
  case_decide as Hp; [by simplify_eq|].
  apply NormalizePath_Ok in Hn as [[_ ->]|[_ (names & Hnames & Hf & Heq)]]; [done|].
  change (p = path_of names) in Heq. subst p. rewrite components_path_of in Hok by done.
  destruct (SecureJoin fs names) as [abs|] eqn:Hj; [|done]. injection Hok as <- <-.
  pose proof (rejectSymlinkPath_Ok fs Hwf names Hnames Hf Hrej) as Hlinks.
  rewrite SecureJoin_plain in Hj by done. injection Hj as <-.
  split_and!; [done..| |done]. by apply components_path_of.
Qed.
End resolved.

(** ** When the checks let an operation through *)
Section open_way.
Context `{Disk}.

(** The way to a path is open: directories, then nothing. *)
Definition open_way (fs : FS) (names : list string) : Prop :=
  (∀ q r, q ++ r = names → r ≠ [] → fs !! q = None ∨ fs !! q = Some FDir) ∧
  (∀ node, fs !! names = Some node → is_link node = false).

Lemma open_way_prefix fs q r : open_way fs (q ++ r) → open_way fs q.
Proof.
  intros [Hd Hl]. split.
  - intros q' r' <- Hr. apply (Hd q' (r' ++ r)); [by rewrite (assoc_L (++))|by destruct r'].
  - intros node Hn. destruct r as [|x r]; [rewrite (right_id_L [] (++)) in Hl; by apply Hl|].
    destruct (Hd q (x :: r)) as [?|?]; [done|done|congruence|]. by simplify_eq.
Qed.

Lemma open_way_no_links fs names : open_way fs names → no_links fs names.
Proof.
  intros Ho q node [r ->] Hq. by apply (proj2 (open_way_prefix fs q r Ho)).
Qed.

Lemma lstat_from_open fs dir rest :
  wf_fs fs → (∀ q r, q ++ r = dir ++ rest → r ≠ [] → fs !! q = None ∨ fs !! q = Some FDir) →
  lstat_from fs dir rest = match fs !! (dir ++ rest) with Some node => Ok node | None => Err NotExist end.
Proof.
  intros Hwf. revert dir. induction rest as [|x rest IH]; intros dir Ho; cbn [lstat_from].
  - rewrite (right_id_L [] (++)). by destruct (fs !! dir).
  - destruct (Ho dir (x :: rest)) as [Hd|Hd]; [done|done|..]; rewrite Hd.
    + by rewrite (wf_below fs Hwf dir) by (by rewrite ?Hd).
    + replace (dir ++ x :: rest) with ((dir ++ [x]) ++ rest) in * by (by rewrite <-(assoc_L (++))). by apply IH.
Qed.

Lemma Lstat_open fs names :
  wf_fs fs → open_way fs names → Lstat fs names = match fs !! names with Some node => Ok node | None => Err NotExist end.
Proof. intros Hwf [Ho _]. by apply (lstat_from_open fs [] names). Qed.

(** A path without links that [Lstat] examined is open. *)
Lemma Lstat_opens fs names :
  wf_fs fs → no_links fs names → Lstat fs names ≠ Err StatFailed → open_way fs names.
Proof.
  intros Hwf Hno Hst. split; [|intros node Hn; by apply (Hno names node)].
  assert (Hgen : ∀ rest dir, dir ++ rest = names → lstat_from fs dir rest ≠ Err StatFailed →
    ∀ q r, dir ++ q ++ r = names → r ≠ [] → fs !! (dir ++ q) = None ∨ fs !! (dir ++ q) = Some FDir).
  { induction rest as [|x rest IH]; intros dir Hn Hs q r Hq Hr.
    - rewrite (right_id_L [] (++)) in Hn. subst dir. apply (f_equal length) in Hq. rewrite !length_app in Hq.
      destruct r; [done|cbn in Hq; lia].
    - cbn [lstat_from] in Hs. destruct (fs !! dir) as [[|content|target]|] eqn:Hd.
      + destruct q as [|y q]; [right; by rewrite (right_id_L [] (++))|].
        assert (y = x) as ->.
        { rewrite <-Hn in Hq. apply app_inv_head in Hq. by injection Hq. }
        replace (dir ++ x :: q) with ((dir ++ [x]) ++ q) by (by rewrite <-(assoc_L (++))).
        apply (IH (dir ++ [x])) with (r := r); [by rewrite <-(assoc_L (++))|done| |done].
        by rewrite <-Hq, <-(assoc_L (++)).
      + done.
      + specialize (Hno dir (FSymlink target)). rewrite Hd in Hno. by specialize (Hno ltac:(by exists (x :: rest)) eq_refl).
      + left. destruct q as [|y q]; [by rewrite (right_id_L [] (++))|]. apply (wf_below fs Hwf); [by rewrite Hd|done]. }
  intros q r Hq Hr. by apply (Hgen names [] eq_refl Hst q r).
Qed.

Lemma reject_links_open fs current parts :
  wf_fs fs → open_way fs (current ++ parts) → reject_links fs current parts = Ok ().
Proof.
  intros Hwf. revert current. induction parts as [|part parts IH]; intros current Ho; [done|]. cbn [reject_links].
  replace (current ++ part :: parts) with ((current ++ [part]) ++ parts) in Ho by (by rewrite <-(assoc_L (++))).
  pose proof (open_way_prefix _ _ _ Ho) as Hc. rewrite Lstat_open by done.
  destruct (fs !! (current ++ [part])) as [node|] eqn:Hn; [|done]. rewrite (proj2 Hc _ Hn). by apply IH.
Qed.

Lemma rejectSymlinkPath_open fs names :
  wf_fs fs → names ≠ [] → Forall normal names → open_way fs names → rejectSymlinkPath fs (path_of names) = Ok ().
Proof.
  intros Hwf Hne Hf Ho. unfold rejectSymlinkPath. rewrite (wf_root _ Hwf), components_path_of by done.
  by apply reject_links_open.
Qed.

(** A path a request may name: normalising it changes nothing. *)
Definition normal_request (path : string) : Prop := NormalizePath path = Ok path ∧ path ≠ "".

Lemma normal_request_names path :
  normal_request path → ∃ names, names ≠ [] ∧ Forall normal names ∧ path = path_of names.
Proof. intros [[[_ ->]|[_ (names & ? & ? & ?)]]%NormalizePath_Ok Hne]; [done|]. by exists names. Qed.

Lemma resolve_open fs names :
  names ≠ [] → Forall normal names → normal_request (path_of names) → open_way fs names →
  resolveRepoPath fs (path_of names) = Ok (names, path_of names).
Proof.
  intros Hne Hf [Hn Hnn] Ho. unfold resolveRepoPath. rewrite Hn. cbn [result_bind].
  rewrite decide_False, components_path_of, SecureJoin_plain by (done || by apply open_way_no_links). done.
Qed.

Lemma resolve_normal fs names absPath p :
  names ≠ [] → Forall normal names → normal_request (path_of names) →
  resolveRepoPath fs (path_of names) = Ok (absPath, p) → p = path_of names.
Proof.
  intros Hne Hf [Hn Hnn]. unfold resolveRepoPath. rewrite Hn. cbn [result_bind].
  rewrite decide_False by done. destruct (SecureJoin _ _); by intros [= _ <-].
Qed.

(** Directories can be made on an open way. *)
Lemma mkdir_from_dirs fs dir rest :
  (∀ q, dir `prefix_of` q → q `prefix_of` dir ++ rest → fs !! q = None ∨ fs !! q = Some FDir) →
  ∃ fs', mkdir_from fs dir rest = Ok fs'.
Proof.
  revert fs dir. induction rest as [|x rest IH]; intros fs dir Hd; cbn [mkdir_from].
  - destruct (Hd dir) as [->| ->]; [done|by exists []|by eexists..].
  - assert (Hsub : ∀ q, dir ++ [x] `prefix_of` q → q `prefix_of` (dir ++ [x]) ++ rest → fs !! q = None ∨ fs !! q = Some FDir).
    { intros q Hp Hq. apply Hd; [etrans; [by apply prefix_app_r|done]|]. by rewrite <-(assoc_L (++)) in Hq. }
    destruct (Hd dir) as [->| ->]; [done|by exists (x :: rest)|..]; cbn [result_bind]; apply IH; [|done].
    intros q Hp Hq. rewrite lookup_insert_ne; [by apply Hsub|]. intros <-.
    apply prefix_length in Hp. rewrite length_app in Hp. cbn in Hp. lia.
Qed.

Lemma MkdirAll_open fs n x : open_way fs (n ++ [x]) → ∃ fs', MkdirAll fs n = Ok fs'.
Proof.
  intros [Ho _]. apply (mkdir_from_dirs fs [] n). intros q _ [r Hr]. cbn [app] in Hr.
  apply (Ho q (r ++ [x])); [by rewrite Hr, (assoc_L (++))|by destruct r].
Qed.
End open_way.

(** ** The repository holds one file per runtime path

    An encrypted file [x.enc] stands for the file [x]; the checks of files.go
    keep the two from meeting, and a fetched revision in which they do is
    refused (ValidateEncryptedFilePaths).  The theorems say when writing keeps
    the working directory free of such meetings. *)

(** ** Paths as lists of names *)
Section names.
Implicit Types (a b n : list string) (x y : string).

Lemma Split_path_of b t :
  b ≠ [] → Forall (no_sep sep) b → Split (path_of b +:+ String sep t) sep = b ++ Split t sep.
Proof.
  intros Hne Hf. unfold path_of. induction Hf as [|x b Hx Hf IH]; [done|].
  destruct b as [|y b].
  - cbn [Join app]. by apply Split_app.
  - rewrite Join_cons by done. rewrite !GoStrings.app_assoc.
    change ("/" +:+ Join (y :: b) "/" +:+ String sep t) with (String sep (Join (y :: b) "/" +:+ String sep t)).
    rewrite Split_app by done. cbn [app]. by rewrite IH.
Qed.

Lemma path_of_inj a b :
  a ≠ [] → b ≠ [] → Forall (no_sep sep) a → Forall (no_sep sep) b → path_of a = path_of b → a = b.
Proof.
  intros Ha Hb Hfa Hfb Heq%(f_equal (λ s, Split s sep)). unfold path_of in Heq.
  change "/" with (String sep "") in Heq. by rewrite !Split_Join in Heq.
Qed.

Lemma same_or_child a b :
  a ≠ [] → b ≠ [] → Forall (no_sep sep) a → Forall (no_sep sep) b →
  pathIsSameOrChild (path_of a) (path_of b) = true ↔ b `prefix_of` a.
Proof.
  intros Ha Hb Hfa Hfb. unfold pathIsSameOrChild. rewrite orb_true_iff, bool_decide_eq_true, HasPrefix_spec. split.
  - intros [Heq|[t Ht]]; [by rewrite (path_of_inj a b)|].
    assert (Hs : Split (path_of a) sep = b ++ Split t sep).
    { rewrite Ht, GoStrings.app_assoc. by apply (Split_path_of b t). }
    unfold path_of in Hs. change "/" with (String sep "") in Hs. rewrite Split_Join in Hs by done. rewrite Hs. by exists (Split t sep).
  - intros [[|x r] ->]; [left; by rewrite (right_id_L [] (++))|right].
    clear -Hb. induction b as [|y b IH]; [done|]. destruct b as [|z b].
    + exists (path_of (x :: r)). unfold path_of. cbn [app]. by rewrite Join_cons, GoStrings.app_assoc by done.
    + destruct IH as [t Ht]; [done|]. exists t. unfold path_of in *. cbn [app] in *.
      rewrite (Join_cons y), (Join_cons y (z :: b)), Ht by done. by rewrite !GoStrings.app_assoc.
Qed.
End names.

(** ** Encrypted names *)
Lemma Split_app_last t s :
  no_sep sep s → ∃ ws l, Split t sep = ws ++ [l] ∧ Split (t +:+ s) sep = ws ++ [l +:+ s].
Proof.
  intros Hs. induction t as [|c t (ws & l & IH1 & IH2)].
  - exists [], "". split; [done|]. by apply (Split_word s).
  - change (String c t +:+ s) with (String c (t +:+ s)). cbn [Split]. rewrite IH1, IH2. case_decide.
    + by exists ("" :: ws), l.
    + destruct ws as [|w ws]; [by exists [], (String c l)|by exists (String c w :: ws), l].
Qed.

Lemma encrypted_last n y :
  Forall (no_sep sep) (n ++ [y]) → IsEncryptedFilePath (path_of (n ++ [y])) = IsEncryptedFilePath y.
Proof.
  intros Hf. apply Bool.eq_true_iff_eq. unfold IsEncryptedFilePath. rewrite !HasSuffix_spec.
  assert (Hsplit : last (Split (path_of (n ++ [y])) sep) = Some y).
  { unfold path_of. change "/" with (String sep ""). rewrite Split_Join; [by rewrite last_snoc|by destruct n|done]. }
  split.
  - intros [t Ht]. destruct (Split_app_last t encryptedFileSuffix) as (ws & l & _ & Hl); [by vm_compute|].
    rewrite Ht, Hl, last_snoc in Hsplit. injection Hsplit as <-. by exists l.
  - intros [t ->]. destruct n as [|m n]; [by exists t|].
    exists (Join (m :: n) "/" +:+ String sep t). unfold path_of. rewrite Join_snoc by done.
    by rewrite GoStrings.app_assoc.
Qed.

Lemma runtime_last n x :
  RuntimeFilePath (path_of (n ++ [x +:+ encryptedFileSuffix])) = path_of (n ++ [x]).
Proof.
  unfold RuntimeFilePath, path_of. destruct n as [|m n]; [apply TrimSuffix_app|].
  rewrite !Join_snoc by done.
  change (String sep (x +:+ encryptedFileSuffix)) with (String sep x +:+ encryptedFileSuffix).
  rewrite <-GoStrings.app_assoc. apply TrimSuffix_app.
Qed.

Lemma path_suffix n x : path_of (n ++ [x]) +:+ encryptedFileSuffix = path_of (n ++ [x +:+ encryptedFileSuffix]).
Proof.
  unfold path_of. destruct n as [|m n]; [done|]. rewrite !Join_snoc by done. by rewrite GoStrings.app_assoc.
Qed.

Lemma suffix_longer n x : n ++ [x] ≠ n ++ [x +:+ encryptedFileSuffix].
Proof.
  intros Heq. apply app_inj_tail in Heq as [_ Heq]. apply (f_equal String.length) in Heq.
  rewrite length_app_bytes in Heq. change (String.length encryptedFileSuffix) with 4 in Heq. lia.
Qed.

(** The runtime path of [e] is at, above or below [a]. *)
Definition clash (e a : list string) : Prop :=
  ∃ n x, e = n ++ [x +:+ encryptedFileSuffix] ∧ a ≠ e ∧ (n ++ [x] `prefix_of` a ∨ a `prefix_of` n ++ [x]).

Lemma normals_no_sep q : Forall normal q → Forall (no_sep sep) q.
Proof. apply normal_no_sep. Qed.

Lemma collides_clash e a :
  e ≠ [] → a ≠ [] → Forall (no_sep sep) e → Forall (no_sep sep) a →
  (IsEncryptedFilePath (path_of e) = true ∧ collides (path_of e) (path_of a) = true) ↔ clash e a.
Proof.
  intros Hne Hna Hfe Hfa. destruct (snoc_inv e) as [->|(n & y & ->)]; [done|].
  rewrite encrypted_last by done. unfold IsEncryptedFilePath. rewrite HasSuffix_spec.
  assert (Hcol : ∀ x, y = x +:+ encryptedFileSuffix →
    collides (path_of (n ++ [y])) (path_of a) = true ↔
    a ≠ n ++ [y] ∧ (n ++ [x] `prefix_of` a ∨ a `prefix_of` n ++ [x])).
  { intros x ->. unfold collides. rewrite runtime_last, andb_true_iff, orb_true_iff, bool_decide_eq_true.
    apply Forall_app in Hfe as Hfe'. destruct Hfe' as [Hfn (Hx & _)%Forall_singleton%no_sep_app].
    assert (Forall (no_sep sep) (n ++ [x])) by (by apply Forall_app; split; [|apply Forall_singleton]).
    assert (n ++ [x] ≠ []) by (by destruct n). rewrite !same_or_child by done.
    assert (path_of a ≠ path_of (n ++ [x +:+ encryptedFileSuffix]) ↔ a ≠ n ++ [x +:+ encryptedFileSuffix]) as ->; [|done].
    split; [congruence|]. intros Hno Heq. by apply Hno, path_of_inj. }
  split.
  - intros [[x Hx] Hc]. exists n, x. apply (Hcol x Hx) in Hc. by subst y.
  - intros (n' & x & [-> ->]%app_inj_tail & Hc). split; [by exists x|]. by apply (Hcol x eq_refl).
Qed.

(** ** Trees without meetings *)
Definition file_at (fs : FS) (q : list string) : Prop :=
  ∃ node, fs !! q = Some node ∧ is_dir node = false ∧ head q ≠ Some gitDirName.
Definition tree_files (fs : FS) : list string :=
  omap (λ e, if is_dir e.2 || bool_decide (head e.1 = Some gitDirName) then None else Some (path_of e.1))
    (map_to_list fs).
(** What a fetched revision is checked for. *)
Definition valid_tree (fs : FS) : Prop := ValidateEncryptedFilePaths (tree_files fs) = Ok ().

Lemma tree_files_spec fs p : p ∈ tree_files fs ↔ ∃ q, file_at fs q ∧ p = path_of q.
Proof.
  unfold tree_files. rewrite list_elem_of_omap. split.
  - intros ([q node] & Hq%elem_of_map_to_list & Hp). cbn in *.
    destruct (is_dir node) eqn:Hd; [done|]. case_bool_decide; [done|]. simplify_eq/=. exists q. split; [|done].
    by exists node.
  - intros (q & (node & Hq & Hd & Hg) & ->). exists (q, node). rewrite elem_of_map_to_list. split; [done|]. cbn.
    by rewrite Hd, bool_decide_eq_false_2.
Qed.

Lemma file_at_normal fs q : wf_fs fs → file_at fs q → q ≠ [] ∧ Forall normal q.
Proof.
  intros Hwf (node & Hq & Hd & _). split; [|by eapply wf_names]. intros ->. rewrite (wf_root _ Hwf) in Hq. by simplify_eq.
Qed.

Lemma Clean_path_of q : q ≠ [] → Forall normal q → Clean (path_of q) = path_of q ∧ path_of q ≠ "" ∧ path_of q ≠ ".".
Proof.
  intros Hne Hf. destruct (below_root_clean (path_of q)) as (? & ? & ? & _); [by exists q|done].
Qed.

Lemma valid_paths fs (paths : list string) (at_ : list string → Prop) :
  (∀ p, p ∈ paths ↔ ∃ q, at_ q ∧ p = path_of q) → (∀ q, at_ q → q ≠ [] ∧ Forall normal q) → wf_fs fs →
  ValidateEncryptedFilePaths paths = Ok () ↔
  (∀ q, at_ q → invalid_encrypted (path_of q) = false) ∧ (∀ e a, at_ e → at_ a → ¬ clash e a).
Proof.
  intros Hpaths Hnorm Hwf. rewrite ValidateEncryptedFilePaths_Ok. cbv zeta. set (cleaned := filter _ _).
  assert (Hcl : ∀ p, p ∈ cleaned ↔ ∃ q, at_ q ∧ p = path_of q).
  { intros p. unfold cleaned. rewrite list_elem_of_filter, list_elem_of_fmap. split.
    - intros (Hp & p' & -> & (q & Hq & ->)%Hpaths). destruct (Hnorm q Hq).
      exists q. split; [done|]. by apply Clean_path_of.
    - intros (q & Hq & ->). destruct (Hnorm q Hq) as [H1 H2]. destruct (Clean_path_of q H1 H2) as (Hc & _ & Hd).
      split; [done|]. exists (path_of q). split; [done|]. apply Hpaths. by exists q. }
  rewrite Forall_forall. setoid_rewrite Hcl. split.
  - intros [Hinv Hcol]. split; [intros q Hq; apply Hinv; by exists q|].
    intros e a He Ha Hclash. destruct (Hnorm e He) as [He1 He2], (Hnorm a Ha) as [Ha1 Ha2].
    apply collides_clash in Hclash as [Henc Hc]; [|done|done|by apply normals_no_sep..].
    rewrite (Hcol (path_of e) (path_of a)) in Hc; [done|by exists e|by exists a|done].
  - intros [Hinv Hcol]. split; [by intros ? (q & Hq & ->); apply Hinv|].
    intros ? ? (e & He & ->) (a & Ha & ->) Henc. destruct (collides _ _) eqn:Hc; [|done].
    destruct (Hnorm e He) as [He1 He2], (Hnorm a Ha) as [Ha1 Ha2].
    destruct (Hcol e a He Ha). apply collides_clash; [done|done|by apply normals_no_sep..|done].
Qed.

Lemma valid_tree_spec fs :
  wf_fs fs →
  valid_tree fs ↔
  (∀ q, file_at fs q → invalid_encrypted (path_of q) = false) ∧
  (∀ e a, file_at fs e → file_at fs a → ¬ clash e a).
Proof.
  intros Hwf. apply (valid_paths fs); [apply tree_files_spec| |done]. intros q. by apply file_at_normal.
Qed.

(** ** Runtime paths *)
Definition different_runtime (fs : FS) : Prop :=
  ∀ a b, file_at fs a → file_at fs b → RuntimeFilePath (path_of a) = RuntimeFilePath (path_of b) → a = b.

(** A file and the encrypted file of the same name. *)
Lemma different_runtime_spec fs :
  wf_fs fs →
  different_runtime fs ↔
  ∀ n y, file_at fs (n ++ [y]) → file_at fs (n ++ [y +:+ encryptedFileSuffix]) →
         IsEncryptedFilePath (path_of (n ++ [y])) = true.
Proof.
  intros Hwf. assert (Hone : ∀ a, IsEncryptedFilePath (path_of a) = false → RuntimeFilePath (path_of a) = path_of a).
  { intros a Ha. unfold RuntimeFilePath, TrimSuffix. unfold IsEncryptedFilePath in Ha. by rewrite Ha. }
  assert (Hinj : ∀ a b, file_at fs a → file_at fs b → path_of a = path_of b → a = b).
  { intros a b [Ha1 Ha2]%file_at_normal [Hb1 Hb2]%file_at_normal Heq; [|done..].
    by apply path_of_inj; [| |apply normals_no_sep..|]. }
  split.
  - intros Hdiff n y Hy He. destruct (IsEncryptedFilePath (path_of (n ++ [y]))) eqn:Henc; [done|].
    destruct (suffix_longer n y). apply Hdiff; [done..|]. by rewrite runtime_last, Hone.
  - intros Hno. assert (Hhalf : ∀ a b, file_at fs a → file_at fs b →
      IsEncryptedFilePath (path_of a) = true → IsEncryptedFilePath (path_of b) = false →
      RuntimeFilePath (path_of a) = RuntimeFilePath (path_of b) → False).
    { intros a b Ha Hb Hea Heb Heq. rewrite (Hone b) in Heq by done.
      apply HasSuffix_spec in Hea as [t Ht]. unfold RuntimeFilePath in Heq. rewrite Ht, TrimSuffix_app in Heq.
      subst t. destruct (snoc_inv b) as [->|(n & y & ->)].
      { destruct (file_at_normal fs [] Hwf Hb) as [? _]. done. }
      rewrite path_suffix in Ht. pose proof (file_at_normal fs _ Hwf Ha) as [Hna Hfa].
      pose proof (file_at_normal fs _ Hwf Hb) as [_ Hfb].
      assert (a = n ++ [y +:+ encryptedFileSuffix]) as ->.
      { apply path_of_inj; [done|by destruct n|by apply normals_no_sep| |done].
        apply normals_no_sep in Hfb. apply Forall_app in Hfb as [Hn Hy]. apply Forall_app. split; [done|].
        rewrite Forall_singleton in Hy |- *. apply no_sep_app. split; [done|]. by vm_compute. }
      rewrite (Hno n y) in Heb by done. done. }
    intros a b Ha Hb Heq.
    destruct (IsEncryptedFilePath (path_of a)) eqn:Hea, (IsEncryptedFilePath (path_of b)) eqn:Heb.
    + apply Hinj; [done..|]. apply HasSuffix_spec in Hea as [t Ht], Heb as [u Hu].
      unfold RuntimeFilePath in Heq. rewrite Ht, Hu, !TrimSuffix_app in Heq. by rewrite Ht, Hu, Heq.
    + by destruct (Hhalf a b).
    + by destruct (Hhalf b a).
    + apply Hinj; [done..|]. by rewrite <-(Hone a), <-(Hone b).
Qed.

Lemma valid_different fs : wf_fs fs → valid_tree fs → different_runtime fs.
Proof.
  intros Hwf [_ Hcl]%valid_tree_spec; [|done]. apply different_runtime_spec; [done|]. intros n y Hy He.
  destruct (Hcl _ _ He Hy). exists n, y. split; [done|]. split; [apply suffix_longer|by left].
Qed.

(** ** Conflicts checked *)
Section conflicts.
Context `{Disk} (fs : FS) (Hwf : wf_fs fs).

Lemma lstat_joined_names q :
  q ≠ [] → Forall normal q → clear_way fs q → lstat_joined fs (path_of q) = Err NotExist → fs !! q = None.
Proof.
  intros Hne Hf Hclear. unfold lstat_joined. destruct (below_root_clean (path_of q)) as (Hc & _ & Hd & _ & He);
    [by exists q|]. rewrite Hc, decide_False, He, components_path_of by done. by apply Lstat_clear.
Qed.

Lemma check_conflict_Ok path c : check_conflict fs path () c = Ok () → c = "" ∨ lstat_joined fs c = Err NotExist.
Proof.
  unfold check_conflict. case_decide; [by left|]. destruct (lstat_joined fs c) as [?|[|]]; try done. by right.
Qed.

Lemma parents_complete names m :
  Forall normal names → m ≠ [] → m `prefix_of` names → ∀ fuel, length names ≤ fuel →
  path_of m ∈ parents_from fuel (path_of names).
Proof.
  intros Hf Hm. induction names as [|x names IH] using rev_ind; intros Hp fuel Hl.
  { by apply prefix_nil_inv in Hp. }
  rewrite length_app in Hl. cbn in Hl. destruct fuel as [|fuel]; [lia|]. cbn [parents_from].
  assert (Hne : names ++ [x] ≠ []) by (by destruct names).
  destruct (below_root_clean (path_of (names ++ [x]))) as (_ & _ & Hd & Ha & _); [by exists (names ++ [x])|].
  rewrite decide_True by (split; [done|]; intros Heq; by rewrite Heq in Ha).
  apply prefix_snoc_inv in Hp as [->|Hp]; [by left|]. right.
  apply Forall_app in Hf as [Hf (_ & _ & _ & Hx)%Forall_singleton].
  assert (names ≠ []) by (intros ->; by apply prefix_nil_inv in Hp).
  unfold path_of at 2. rewrite Dir_below by done. apply IH; [done..|lia].
Qed.

Lemma normal_suffix y : normal y → normal (y +:+ encryptedFileSuffix).
Proof.
  intros (H1 & H2 & H3 & H4). unfold normal. rewrite no_sep_app. destruct y as [|c y]; [done|].
  split_and!; [done| | |done|by vm_compute].
  - by destruct y.
  - destruct y as [|d y]; [done|]. destruct y; [done|]. by destruct y.
Qed.

Lemma clear_way_sibling q y z : no_links fs (q ++ [y]) → clear_way fs (q ++ [z]).
Proof.
  intros Hno p r node Heq Hr. destruct (snoc_inv r) as [->|(r' & w & ->)]; [done|].
  rewrite (assoc_L (++)) in Heq. apply app_inj_tail in Heq as [<- _]. apply Hno. rewrite <-(assoc_L (++)).
  by apply prefix_app_r.
Qed.

Lemma no_links_prefix p q : no_links fs q → p `prefix_of` q → no_links fs p.
Proof. intros Hno Hp r node Hr. apply Hno. by etrans. Qed.

(** What the check leaves: no encrypted sibling of a plain path or of one of
    its parents, no plain sibling of an encrypted one. *)
Lemma rejectEncryptedFileConflict_Ok n x :
  Forall normal (n ++ [x]) → no_links fs (n ++ [x]) → invalid_encrypted (path_of (n ++ [x])) = false →
  rejectEncryptedFileConflict fs (path_of (n ++ [x])) = Ok () →
  if IsEncryptedFilePath (path_of (n ++ [x]))
  then ∀ x0, x = x0 +:+ encryptedFileSuffix → normal x0 → fs !! (n ++ [x0]) = None
  else ∀ q y, q ++ [y] `prefix_of` n ++ [x] → fs !! (q ++ [y +:+ encryptedFileSuffix]) = None.
Proof.
  intros Hf Hno Hinv Hrej. unfold rejectEncryptedFileConflict in Hrej.
  assert (Hne : n ++ [x] ≠ []) by (by destruct n).
  unfold invalid_encrypted in Hinv. apply orb_false_iff in Hinv as [_ Hinv].
  unfold isPlainRuntimePath, IsValidEncryptedFilePath, encryptedSiblingPath in *.
  destruct (IsEncryptedFilePath (path_of (n ++ [x]))) eqn:Henc; cbn [andb negb] in *.
  - rewrite Hinv in Hrej. cbn [andb negb] in Hrej. apply negb_false_iff in Hinv.
    unfold IsValidEncryptedFilePath in Hrej. rewrite Henc, Hinv in Hrej. cbn [andb] in Hrej.
    intros x0 -> Hx0. rewrite runtime_last in Hrej. apply for_each_unit in Hrej. rewrite Forall_singleton in Hrej.
    assert (Forall normal (n ++ [x0])) by (apply Forall_app in Hf as [? _]; by apply Forall_app; split; [|apply Forall_singleton]).
    destruct (below_root_clean (path_of (n ++ [x0]))) as (_ & Hnn & _); [exists (n ++ [x0]); by destruct n|].
    apply check_conflict_Ok in Hrej as [?|Hrej]; [done|].
    apply lstat_joined_names in Hrej; [done|by destruct n|done|by eapply clear_way_sibling].
  - assert (Hbase : Base (path_of (n ++ [x])) = x) by (by apply Base_below).
    destruct (below_root_clean (path_of (n ++ [x]))) as (_ & Hpn & _); [by exists (n ++ [x])|].
    rewrite Hbase, (bool_decide_eq_true_2 (path_of (n ++ [x]) ≠ "")) in Hrej by done.
    assert (Hx : x ≠ ".enc").
    { intros ->. rewrite encrypted_last in Henc by (by apply normals_no_sep). by vm_compute in Henc. }
    rewrite bool_decide_eq_true_2 in Hrej by done. cbn [andb negb] in Hrej.
    apply for_each_unit in Hrej. rewrite Forall_forall in Hrej.
    intros q y Hq.
    assert (Hqn : Forall normal (q ++ [y])) by (destruct Hq as [r Hr]; rewrite Hr in Hf; by apply Forall_app in Hf as [? _]).
    assert (Hsuf : path_of (q ++ [y]) +:+ encryptedFileSuffix = path_of (q ++ [y +:+ encryptedFileSuffix])).
    { unfold path_of. destruct q as [|m q]; [done|]. rewrite !Join_snoc by done. by rewrite GoStrings.app_assoc. }
    assert (Hin : path_of (q ++ [y]) +:+ encryptedFileSuffix ∈
      (path_of (n ++ [x]) +:+ encryptedFileSuffix) :: ((λ parent, parent +:+ encryptedFileSuffix) <$> parents (path_of (n ++ [x])))).
    { apply prefix_snoc_inv in Hq as [->|Hq]; [by left|right]. apply list_elem_of_fmap. eexists; split; [done|].
      assert (n ≠ []) by (intros ->; apply prefix_nil_inv in Hq; by destruct q).
      pose proof Hf as [Hfn (_ & _ & _ & Hx4)%Forall_singleton]%Forall_app.
      assert (Dir (path_of (n ++ [x])) = path_of n) as Hdir by (by apply Dir_below). unfold parents. rewrite Hdir.
      apply parents_complete; [done|by destruct q|done|]. pose proof (length_Join _ Hf) as Hl. rewrite length_app in Hl. cbn [length] in Hl.
      unfold path_of. lia. }
    specialize (Hrej _ Hin). rewrite Hsuf in Hrej. apply Forall_app in Hqn as [Hq1 Hq2]. rewrite Forall_singleton in Hq2.
    assert (Hsn : Forall normal (q ++ [y +:+ encryptedFileSuffix])).
    { apply Forall_app; split; [done|]. apply Forall_singleton. by apply normal_suffix. }
    destruct (below_root_clean (path_of (q ++ [y +:+ encryptedFileSuffix]))) as (_ & Hnn & _).
    { exists (q ++ [y +:+ encryptedFileSuffix]). split_and!; [by destruct q|done|done]. }
    apply check_conflict_Ok in Hrej as [?|Hrej]; [done|].
    apply lstat_joined_names in Hrej; [done|by destruct q|done|].
    eapply clear_way_sibling. by eapply no_links_prefix.
Qed.
End conflicts.

(** ** Adding a file *)
Lemma head_below (q p : list string) y : q `prefix_of` p → head q = Some y → head p = Some y.
Proof. intros [r ->]. by destruct q. Qed.

Lemma with_dirs_git fs path fs' :
  with_dirs fs path fs' → head path ≠ Some gitDirName → fs' !! [gitDirName] = fs !! [gitDirName].
Proof.
  intros [Hl _] Hhead. rewrite Hl, decide_False; [done|]. intros Hp. by apply Hhead, (head_below _ _ _ Hp).
Qed.

Section add.
Context (fs fs1 fs' : FS) (n : list string) (x content : string).
Context (Hwf : wf_fs fs) (Hf : Forall normal (n ++ [x])) (Hdirs : with_dirs fs n fs1).
Context (Hnew : fs' = <[n ++ [x] := FFile content]> fs1).
Context (Hfree : fs !! (n ++ [x]) ≠ Some FDir).

Lemma added_below : fs1 !! (n ++ [x]) = fs !! (n ++ [x]).
Proof.
  destruct Hdirs as [Hl _]. rewrite Hl, decide_False; [done|]. intros Hp%prefix_length.
  rewrite length_app in Hp. cbn in Hp. lia.
Qed.

Lemma added_wf : wf_fs fs'.
Proof.
  assert (Hfn : Forall normal n) by (by apply Forall_app in Hf as [? _]).
  pose proof (wf_with_dirs _ _ _ Hwf Hfn Hdirs) as Hwf1. rewrite Hnew. eapply wf_insert; [done|done|done| |].
  - destruct Hdirs as [Hl _]. by rewrite Hl, decide_True.
  - intros y. apply (wf_below _ Hwf1); [|done]. by rewrite added_below.
Qed.

Lemma added_files q : file_at fs' q → q = n ++ [x] ∨ file_at fs q.
Proof.
  intros (node & Hq & Hd & Hg). rewrite Hnew in Hq. apply lookup_insert_Some in Hq as [[<- _]|[_ Hq]]; [by left|right].
  destruct Hdirs as [Hl _]. rewrite Hl in Hq. case_decide; [by simplify_eq|]. by exists node.
Qed.

Lemma added_valid :
  valid_tree fs → invalid_encrypted (path_of (n ++ [x])) = false →
  (∀ x0, x = x0 +:+ encryptedFileSuffix → normal x0 → fs !! (n ++ [x0]) = None) →
  (∀ q y, q ++ [y] `prefix_of` n ++ [x] → fs !! (q ++ [y +:+ encryptedFileSuffix]) = None) →
  valid_tree fs'.
Proof.
  intros Hv Hinv Hsib Henc. apply (valid_tree_spec _ Hwf) in Hv as [Hvi Hvc]. apply (valid_tree_spec _ added_wf).
  split; [intros q [->|Hq]%added_files; [done|by apply Hvi]|].
  intros e a [->|He]%added_files [->|Ha]%added_files (n0 & x0 & Hn0 & Hne & Hcase); [done| | |by apply (Hvc e a He Ha); exists n0, x0].
  - apply app_inj_tail in Hn0 as [<- ->]. destruct Ha as (node & Ha & Hd & _).
    assert (Hsame : n ++ [x0] `prefix_of` a → False).
    { intros [r ->]. pose proof (wf_names _ Hwf _ _ Ha) as Hfa. apply Forall_app in Hfa as [Hfa _].
      apply Forall_app in Hfa as [_ Hx0]. rewrite Forall_singleton in Hx0. specialize (Hsib x0 eq_refl Hx0).
      destruct r as [|y r]; [rewrite (right_id_L [] (++)) in Ha; congruence|].
      rewrite (wf_below _ Hwf (n ++ [x0])) in Ha by (by rewrite ?Hsib). done. }
    destruct Hcase as [?|Hp]; [by apply Hsame|]. apply prefix_snoc_inv in Hp as [->|Hp]; [by apply Hsame|].
    destruct Hdirs as [_ Hc]. by destruct (Hc a Hp); simplify_eq.
  - subst e. destruct He as (node & He & Hd & _). destruct Hcase as [Hp|[s Hs]].
    + rewrite (Henc n0 x0 Hp) in He. done.
    + destruct (snoc_inv s) as [->|(s' & z & ->)].
      * rewrite (right_id_L [] (++)) in Hs. rewrite (Henc n0 x0) in He by (by rewrite Hs). done.
      * rewrite (assoc_L (++)) in Hs. apply app_inj_tail in Hs as [-> <-].
        pose proof (wf_parent _ Hwf _ _ _ He) as Hdir. destruct s' as [|z' s'].
        { by rewrite (right_id_L [] (++)) in Hdir. }
        by apply (wf_prefix _ Hwf) in Hdir.
Qed.
(** A file is added beside no other one of its runtime path. *)
Lemma added_different :
  different_runtime fs →
  (∀ x0, x = x0 +:+ encryptedFileSuffix → normal x0 → fs !! (n ++ [x0]) = None) →
  (IsEncryptedFilePath (path_of (n ++ [x])) = false → fs !! (n ++ [x +:+ encryptedFileSuffix]) = None) →
  different_runtime fs'.
Proof.
  intros Hdiff Hsib Hplain. rewrite different_runtime_spec in Hdiff by done.
  apply different_runtime_spec; [exact added_wf|].
  intros m y [Hy|Hy]%added_files [He|He]%added_files.
  - rewrite <-He in Hy. by apply suffix_longer in Hy.
  - apply app_inj_tail in Hy as [-> ->]. destruct (IsEncryptedFilePath _); [done|].
    destruct He as (node & He & _). by rewrite Hplain in He.
  - apply app_inj_tail in He as [-> He]. pose proof (file_at_normal fs _ Hwf Hy) as [_ [_ Hny]%Forall_app].
    rewrite Forall_singleton in Hny. destruct Hy as (node & Hy & _). by rewrite Hsib in Hy.
  - by apply Hdiff.
Qed.

(** [.git] is not touched. *)
Lemma added_git : head (n ++ [x]) ≠ Some gitDirName → fs' !! [gitDirName] = fs !! [gitDirName].
Proof.
  intros Hhead. rewrite Hnew, lookup_insert_ne by (by intros Heq; rewrite Heq in Hhead).
  apply (with_dirs_git _ _ _ Hdirs). intros Hn. destruct n; [done|]. by simplify_eq/=.
Qed.
End add.

(** ** The operations *)
Section operations.
Context `{Disk} (fs : FS) (Hwf : wf_fs fs).

Lemma protected_head q :
  q ≠ [] → Forall normal q → is_protected (path_of q) = false → head q ≠ Some gitDirName.
Proof.
  intros Hne Hf Hp Hhead. destruct q as [|x q]; [done|]. injection Hhead as ->.
  change (pathIsSameOrChild (path_of (gitDirName :: q)) (path_of [gitDirName]) = false) in Hp.
  rewrite (proj2 (same_or_child (gitDirName :: q) [gitDirName] Hne ltac:(done) (normals_no_sep _ Hf) ltac:(by repeat constructor))) in Hp; [done|].
  by exists q.
Qed.

(** A write that no encrypted name above the path can meet. *)
Definition no_encrypted_above (path : string) : Prop :=
  ∀ q y, q ++ [y] `prefix_of` components path → fs !! (q ++ [y +:+ encryptedFileSuffix]) = None.

(** What a successful operation did. *)
Lemma WriteFile_adds relativePath content fs' path :
  WriteFile fs relativePath content = Ok (fs', path) →
  ∃ n x fs1, Forall normal (n ++ [x]) ∧ path = path_of (n ++ [x]) ∧ no_links fs (n ++ [x]) ∧
    resolveRepoPath fs relativePath = Ok (n ++ [x], path) ∧
    is_protected path = false ∧ invalid_encrypted path = false ∧ rejectEncryptedFileConflict fs path = Ok () ∧
    with_dirs fs n fs1 ∧ fs' = <[n ++ [x] := FFile content]> fs1 ∧ fs !! (n ++ [x]) ≠ Some FDir.
Proof.
  intros Hok. unfold WriteFile in Hok. apply result_bind_Ok in Hok as ([abs p] & Hres & Hok).
  case_decide as Hne; [done|]. destruct (is_protected p) eqn:Hprot; [done|].
  destruct (HasEncryptedParent p || _) eqn:Hinv; [done|].
  apply result_bind_Ok in Hok as ([] & Hrej & Hok). apply result_bind_Ok in Hok as ([] & Hlinks & Hok).
  apply result_bind_Ok in Hok as (fs1 & Hmk%MkdirAll_Ok & Hok). apply result_bind_Ok in Hok as (fs2 & Hw & [= -> ->]).
  destruct (resolved_plain fs Hwf _ _ _ Hres Hne Hlinks) as (Hn & Hf & -> & Hcomp & Hno).
  destruct (snoc_inv abs) as [->|(n & x & ->)]; [done|]. rewrite parent_of_snoc in Hmk.
  assert (fs !! (n ++ [x]) ≠ Some FDir ∧ fs' = <[n ++ [x] := FFile content]> fs1) as [Hfree Hfs'].
  { rewrite <-(added_below fs fs1 n x Hmk). unfold write_at in Hw.
    destruct (fs1 !! (n ++ [x])) as [[| |]|]; by simplify_eq. }
  by exists n, x, fs1.
Qed.

Lemma CreateDirectory_adds relativePath fs' path :
  CreateDirectory fs relativePath = Ok (fs', path) →
  ∃ n x fs1, Forall normal (n ++ [x]) ∧ path = path_of (n ++ [x]) ∧ no_links fs (n ++ [x]) ∧
    resolveRepoPath fs relativePath = Ok (n ++ [x], path) ∧
    HasEncryptedParent path = false ∧ IsEncryptedFilePath path = false ∧ rejectEncryptedFileConflict fs path = Ok () ∧
    with_dirs fs (n ++ [x]) fs1 ∧ fs' = <[(n ++ [x]) ++ [".gitkeep"] := FFile ""]> fs1 ∧ fs !! (n ++ [x]) = None.
Proof.
  intros Hok. unfold CreateDirectory in Hok. apply result_bind_Ok in Hok as ([abs p] & Hres & Hok).
  case_decide as Hne; [done|]. destruct (is_protected p) eqn:Hprot; [done|].
  destruct (HasEncryptedParent p || _) eqn:Hinv; [done|].
  apply result_bind_Ok in Hok as ([] & Hrej & Hok). apply result_bind_Ok in Hok as ([] & Hlinks & Hok).
  destruct (resolved_plain fs Hwf _ _ _ Hres Hne Hlinks) as (Hn & Hf & -> & Hcomp & Hno).
  destruct (Lstat_clear fs Hwf abs (no_links_clear _ _ Hno)) as [_ Hnone].
  destruct (Lstat fs abs) as [?|[|]]; [done| |done]. specialize (Hnone eq_refl).
  apply result_bind_Ok in Hok as (fs1 & Hmk%MkdirAll_Ok & Hok). apply result_bind_Ok in Hok as (fs2 & Hw & [= -> <-]).
  apply orb_false_iff in Hinv as [Hpar Henc].
  destruct (snoc_inv abs) as [->|(n & x & ->)]; [done|].
  assert (fs' = <[(n ++ [x]) ++ [".gitkeep"] := FFile ""]> fs1) as Hfs'.
  { unfold write_at in Hw. destruct (fs1 !! ((n ++ [x]) ++ [".gitkeep"])) as [[| |]|]; by simplify_eq. }
  by exists n, x, fs1.
Qed.

Lemma CreateDirectory_unprotected relativePath fs' path :
  CreateDirectory fs relativePath = Ok (fs', path) → is_protected path = false.
Proof.
  unfold CreateDirectory. intros ([abs p] & _ & Hok)%result_bind_Ok. case_decide; [done|].
  destruct (is_protected p) eqn:Hprot; [done|]. destruct (HasEncryptedParent p || _); [done|].
  apply result_bind_Ok in Hok as ([] & _ & Hok). apply result_bind_Ok in Hok as ([] & _ & Hok).
  destruct (Lstat fs abs) as [?|[|]]; [done| |done].
  apply result_bind_Ok in Hok as (? & _ & Hok). by apply result_bind_Ok in Hok as (? & _ & [= _ <-]).
Qed.

Lemma DeletePath_unprotected relativePath fs' path :
  DeletePath fs relativePath = Ok (fs', path) → is_protected path = false.
Proof.
  unfold DeletePath. intros ([abs p] & _ & Hok)%result_bind_Ok. case_decide; [done|].
  destruct (is_protected p) eqn:Hprot; [done|]. apply result_bind_Ok in Hok as ([] & _ & Hok).
  destruct (Lstat fs abs) as [?|[|]]; [|done..]. by injection Hok as _ <-.
Qed.

Lemma gitkeep_normal q : Forall normal q → Forall normal (q ++ [".gitkeep"]).
Proof. intros Hf. apply Forall_app; split; [done|]. by_decision. Qed.

Lemma gitkeep_free q : fs !! q = None → fs !! (q ++ [".gitkeep"]) = None.
Proof. intros Hq. apply (wf_below fs Hwf); [by rewrite Hq|done]. Qed.

Lemma DeletePath_removes relativePath fs' path :
  DeletePath fs relativePath = Ok (fs', path) →
  ∃ names node, names ≠ [] ∧ Forall normal names ∧ path = path_of names ∧
    resolveRepoPath fs relativePath = Ok (names, path) ∧
    fs !! names = Some node ∧ fs' = RemoveAll fs names.
Proof.
  intros Hok. unfold DeletePath in Hok. apply result_bind_Ok in Hok as ([abs p] & Hres & Hok).
  case_decide as Hne; [done|]. destruct (is_protected p) eqn:Hprot; [done|].
  apply result_bind_Ok in Hok as ([] & Hlinks & Hok).
  destruct (resolved_plain fs Hwf _ _ _ Hres Hne Hlinks) as (Hn & Hf & -> & Hcomp & Hno).
  destruct (Lstat_clear fs Hwf abs (no_links_clear _ _ Hno)) as [Hinfo _].
  destruct (Lstat fs abs) as [node|[|]]; [|done..]. injection Hok as <- <-. exists abs, node. split_and!; try done.
  by apply Hinfo.
Qed.

Lemma WriteFile_valid relativePath content fs' path :
  valid_tree fs → WriteFile fs relativePath content = Ok (fs', path) →
  (IsEncryptedFilePath path = true → no_encrypted_above path) →
  wf_fs fs' ∧ valid_tree fs'.
Proof.
  intros Hv (n & x & fs1 & Hf & -> & Hno & _ & _ & Hinv & Hrej & Hmk & Hfs' & Hfree)%WriteFile_adds Habove.
  assert (Hne : n ++ [x] ≠ []) by (by destruct n).
  split; [by eapply added_wf|]. eapply added_valid; [done..| |].
  - intros x0 -> Hx0. pose proof (rejectEncryptedFileConflict_Ok fs Hwf n _ Hf Hno Hinv Hrej) as Hc.
    rewrite encrypted_last in Hc by (by apply normals_no_sep).
    assert (IsEncryptedFilePath (x0 +:+ encryptedFileSuffix) = true) as He by (apply HasSuffix_spec; by exists x0).
    rewrite He in Hc. by apply Hc.
  - pose proof (rejectEncryptedFileConflict_Ok fs Hwf n _ Hf Hno Hinv Hrej) as Hc.
    destruct (IsEncryptedFilePath (path_of (n ++ [x]))); [|done]. intros q y Hq.
    apply (Habove eq_refl). by rewrite components_path_of.
Qed.

(** What the check for conflicts of a write means for the file written. *)
Lemma written_apart n x :
  Forall normal (n ++ [x]) → no_links fs (n ++ [x]) → invalid_encrypted (path_of (n ++ [x])) = false →
  rejectEncryptedFileConflict fs (path_of (n ++ [x])) = Ok () →
  (∀ x0, x = x0 +:+ encryptedFileSuffix → normal x0 → fs !! (n ++ [x0]) = None) ∧
  (IsEncryptedFilePath (path_of (n ++ [x])) = false →
   ∀ q y, q ++ [y] `prefix_of` n ++ [x] → fs !! (q ++ [y +:+ encryptedFileSuffix]) = None).
Proof.
  intros Hf Hno Hinv Hrej. pose proof (rejectEncryptedFileConflict_Ok fs Hwf n x Hf Hno Hinv Hrej) as Hc.
  split; [|by intros He; rewrite He in Hc].
  intros x0 -> Hx0. rewrite encrypted_last in Hc by (by apply normals_no_sep).
  assert (IsEncryptedFilePath (x0 +:+ encryptedFileSuffix) = true) as He by (apply HasSuffix_spec; by exists x0).
  rewrite He in Hc. by apply Hc.
Qed.

Lemma WriteFile_different relativePath content fs' path :
  WriteFile fs relativePath content = Ok (fs', path) →
  wf_fs fs' ∧ fs' !! [gitDirName] = fs !! [gitDirName] ∧ (different_runtime fs → different_runtime fs').
Proof.
  intros (n & x & fs1 & Hf & -> & Hno & _ & Hprot & Hinv & Hrej & Hmk & Hfs' & Hfree)%WriteFile_adds.
  destruct (written_apart n x Hf Hno Hinv Hrej) as [Hsib Hplain].
  split; [by eapply added_wf|]. split.
  - eapply added_git; [done..|]. by apply protected_head; [destruct n| |].
  - intros Hd. eapply added_different; [done..|]. intros He. by apply Hplain.
Qed.

Lemma CreateDirectory_different relativePath fs' path :
  CreateDirectory fs relativePath = Ok (fs', path) →
  wf_fs fs' ∧ fs' !! [gitDirName] = fs !! [gitDirName] ∧ (different_runtime fs → different_runtime fs').
Proof.
  intros Hok. pose proof (CreateDirectory_unprotected _ _ _ Hok) as Hprot.
  apply CreateDirectory_adds in Hok as (n & x & fs1 & Hf & -> & Hno & _ & _ & _ & _ & Hmk & Hfs' & Hnone).
  pose proof (gitkeep_normal _ Hf) as Hfg. pose proof (gitkeep_free _ Hnone) as Hfree.
  assert (Hne : n ++ [x] ≠ []) by (by destruct n).
  split; [eapply added_wf; [done..|by rewrite Hfree]|]. split.
  - eapply added_git; [done..|by rewrite Hfree|]. apply protected_head in Hprot; [|done..].
    by destruct (n ++ [x]).
  - intros Hd. eapply added_different; [done..|by rewrite Hfree|done| |].
    + intros x0 Hx0. assert (HasSuffix ".gitkeep" encryptedFileSuffix = true) as Hsuf by (apply HasSuffix_spec; by exists x0).
      by vm_compute in Hsuf.
    + intros _. apply (wf_below _ Hwf); [by rewrite Hnone|done].
Qed.

Lemma DeletePath_different relativePath fs' path :
  DeletePath fs relativePath = Ok (fs', path) →
  wf_fs fs' ∧ fs' !! [gitDirName] = fs !! [gitDirName] ∧ (different_runtime fs → different_runtime fs').
Proof.
  intros Hok. pose proof (DeletePath_unprotected _ _ _ Hok) as Hprot.
  apply DeletePath_removes in Hok as (names & node & Hne & Hf & -> & _ & _ & ->).
  split; [by apply wf_RemoveAll|]. split.
  - rewrite lookup_RemoveAll, decide_False; [done|]. intros Hp. apply (protected_head names) in Hprot; [|done..].
    apply Hprot. destruct names as [|y names]; [done|]. by apply prefix_cons_inv_1 in Hp as ->.
  - intros Hd a b (na & Ha & ?) (nb & Hb & ?). rewrite lookup_RemoveAll in Ha, Hb. do 2 case_decide; [done..|].
    apply Hd; by eexists.
Qed.

Lemma CreateDirectory_valid relativePath fs' path :
  valid_tree fs → CreateDirectory fs relativePath = Ok (fs', path) → wf_fs fs' ∧ valid_tree fs'.
Proof.
  intros Hv (n & x & fs1 & Hf & -> & Hno & _ & Hpar & Henc & Hrej & Hmk & Hfs' & Hnone)%CreateDirectory_adds.
  pose proof (gitkeep_normal _ Hf) as Hfg. pose proof (gitkeep_free _ Hnone) as Hfree.
  assert (Hn : n ++ [x] ≠ []) by (by destruct n).
  split; [eapply added_wf; [done..|by rewrite Hfree]|].
  assert (Hinv : invalid_encrypted (path_of (n ++ [x])) = false) by (unfold invalid_encrypted; by rewrite Hpar, Henc).
  pose proof (rejectEncryptedFileConflict_Ok fs Hwf n _ Hf Hno Hinv Hrej) as Hc. rewrite Henc in Hc.
  apply (added_valid fs fs1 fs' (n ++ [x]) ".gitkeep" ""); [done..|by rewrite Hfree|done| | |].
  - unfold invalid_encrypted. unfold path_of. rewrite HasEncryptedParent_spec by done.
    change (Join ((n ++ [x]) ++ [".gitkeep"]) "/") with (path_of ((n ++ [x]) ++ [".gitkeep"])).
    rewrite encrypted_last by (by apply normals_no_sep). rewrite existsb_app. cbn [existsb]. rewrite orb_false_r.
    rewrite encrypted_last in Henc by (by apply normals_no_sep). rewrite Henc, orb_false_r.
    unfold path_of in Hpar. rewrite HasEncryptedParent_spec in Hpar by done. by rewrite Hpar.
  - intros x0 Hx0. assert (HasSuffix ".gitkeep" encryptedFileSuffix = true) as Hsuf by (apply HasSuffix_spec; by exists x0).
    by vm_compute in Hsuf.
  - intros q y Hq. apply prefix_snoc_inv in Hq as [[-> ->]%app_inj_tail|Hq]; [|by apply Hc].
    apply (wf_below _ Hwf); [by rewrite Hnone|done].
Qed.

Lemma DeletePath_valid relativePath fs' path :
  valid_tree fs → DeletePath fs relativePath = Ok (fs', path) → wf_fs fs' ∧ valid_tree fs'.
Proof.
  intros Hv (names & node & Hne & Hf & _ & _ & _ & ->)%DeletePath_removes.
  assert (Hwf' : wf_fs (RemoveAll fs names)) by (by apply wf_RemoveAll).
  split; [done|]. apply (valid_tree_spec _ Hwf) in Hv as [Hvi Hvc]. apply (valid_tree_spec _ Hwf').
  assert (Hsub : ∀ q, file_at (RemoveAll fs names) q → file_at fs q).
  { intros q (node' & Hq & ?). rewrite lookup_RemoveAll in Hq. case_decide; [done|]. by exists node'. }
  split; [by intros q Hq%Hsub; apply Hvi|]. intros e a He%Hsub Ha%Hsub. by apply Hvc.
Qed.
End operations.

(** ** Moving *)
Section moving.
Context (fs : FS) (Hwf : wf_fs fs) (source destination : list string).
Context (Hs : source ≠ []) (Hd : destination ≠ []) (Hfd : Forall normal destination).
Context (Hfree : fs !! destination = None) (Hapart : ¬ source `prefix_of` destination).

Lemma lookup_Rename q :
  Rename fs source destination !! q =
    match strip_prefix destination q with
    | Some r => fs !! (source ++ r)
    | None => if decide (source `prefix_of` q) then None else fs !! q
    end.
Proof.
  unfold Rename. rewrite lookup_graft, lookup_RemoveAll. destruct (strip_prefix destination q) as [r|] eqn:Hq; [|done].
  rewrite lookup_subtree. destruct (fs !! (source ++ r)); [done|]. apply strip_prefix_Some in Hq as ->.
  case_decide; [done|]. destruct r as [|x r]; [by rewrite (right_id_L [] (++))|].
  apply (wf_below _ Hwf); [by rewrite Hfree|done].
Qed.

Lemma wf_Rename : fs !! parent_of destination = Some FDir → wf_fs (Rename fs source destination).
Proof.
  intros Hpar. split.
  - rewrite lookup_Rename. destruct destination; [done|]. cbn. rewrite decide_False; [by apply wf_root|].
    by intros ->%prefix_nil_inv.
  - intros q x node Hq. rewrite lookup_Rename in Hq |- *.
    destruct (strip_prefix destination (q ++ [x])) as [r|] eqn:Hr.
    + apply strip_prefix_Some in Hr. destruct (snoc_inv r) as [->|(r' & y & ->)].
      * rewrite (right_id_L [] (++)) in Hr. rewrite <-Hr, parent_of_snoc in Hpar.
        assert (strip_prefix destination q = None) as ->.
        { apply strip_prefix_None. rewrite <-Hr. intros Hp%prefix_length. rewrite length_app in Hp. cbn in Hp. lia. }
        rewrite decide_False; [done|]. intros Hp. apply Hapart. rewrite <-Hr. etrans; [done|]. by apply prefix_app_r.
      * rewrite (assoc_L (++)) in Hr. apply app_inj_tail in Hr as [-> ->].
        rewrite (proj2 (strip_prefix_Some destination (destination ++ r') r') eq_refl).
        rewrite (assoc_L (++)) in Hq. by eapply wf_parent.
    + apply strip_prefix_None in Hr. case_decide as Hp; [done|].
      assert (strip_prefix destination q = None) as ->.
      { apply strip_prefix_None. intros ?. apply Hr. etrans; [done|]. by apply prefix_app_r. }
      rewrite decide_False; [by eapply wf_parent|]. intros ?. apply Hp. etrans; [done|]. by apply prefix_app_r.
  - intros q node Hq. rewrite lookup_Rename in Hq. destruct (strip_prefix destination q) as [r|] eqn:Hr.
    + apply strip_prefix_Some in Hr as ->. apply (wf_names _ Hwf), Forall_app in Hq as [_ ?]. by apply Forall_app.
    + case_decide; [done|]. by eapply wf_names.
Qed.

(** The files after the move. *)
Definition moved_at (q : list string) : Prop :=
  (file_at fs q ∧ ¬ source `prefix_of` q) ∨
  (∃ r node, q = destination ++ r ∧ fs !! (source ++ r) = Some node ∧ is_dir node = false).

Lemma moved_at_normal q : moved_at q → q ≠ [] ∧ Forall normal q.
Proof.
  intros [[Hq _]|(r & node & -> & Hr & _)]; [by apply (file_at_normal fs)|].
  apply (wf_names _ Hwf), Forall_app in Hr as [_ ?]. split; [by destruct destination|by apply Forall_app].
Qed.

Lemma Rename_files q : file_at (Rename fs source destination) q → moved_at q.
Proof.
  intros (node & Hq & Hdir & Hg). rewrite lookup_Rename in Hq. destruct (strip_prefix destination q) as [r|] eqn:Hr.
  - apply strip_prefix_Some in Hr as ->. right. by exists r, node.
  - case_decide; [done|]. left. split; [by exists node|done].
Qed.
End moving.

Lemma move_paths_spec fs source destination p :
  wf_fs fs → fs !! [gitDirName] = None ∨ fs !! [gitDirName] = Some FDir →
  p ∈ move_paths fs source destination ↔ ∃ q, moved_at fs source destination q ∧ p = path_of q.
Proof.
  intros Hwf Hgit. unfold move_paths, moved_at. rewrite elem_of_app, !list_elem_of_omap.
  assert (Hskip : ∀ q node, fs !! q = Some node → is_dir node = false →
    walk_skips fs q = bool_decide (head q = Some gitDirName)).
  { intros q node Hq Hd. destruct q as [|x q]; [done|]. unfold walk_skips.
    assert ((match fs !! [gitDirName] with None | Some FDir => false
             | Some _ => negb (bool_decide (String.le x gitDirName)) end) = false) as -> by (by destruct Hgit as [->| ->]).
    rewrite orb_false_r. apply bool_decide_ext. cbn. split; congruence. }
  split.
  - intros [([q node] & Hq%elem_of_map_to_list & Hp)|([r node] & Hr%elem_of_map_to_list & Hp)]; cbn in *.
    + destruct (is_dir node) eqn:Hd; [done|]. rewrite (Hskip q node) in Hp by done. cbn in Hp.
      repeat (case_bool_decide; [done|]). injection Hp as <-. exists q. split; [|done]. left. split; [by exists node|done].
    + destruct (is_dir node) eqn:Hd; [done|]. injection Hp as <-. rewrite lookup_subtree in Hr.
      exists (destination ++ r). split; [|done]. right. by exists r, node.
  - intros (q & [[(node & Hq & Hd & Hg) Hs]|(r & node & -> & Hr & Hd)] & ->).
    + left. exists (q, node). rewrite elem_of_map_to_list. split; [done|]. cbn.
      by rewrite Hd, (Hskip q node), !bool_decide_eq_false_2.
    + right. exists (r, node). rewrite elem_of_map_to_list, lookup_subtree. split; [done|]. cbn. by rewrite Hd.
Qed.

(** ** The files a move leaves *)
Section move.
Context `{Disk} (fs : FS) (Hwf : wf_fs fs).

Lemma prefix_HasPrefix s d :
  s ≠ [] → d ≠ [] → Forall normal s → Forall normal d → s `prefix_of` d →
  HasPrefix (path_of d +:+ "/") (path_of s +:+ "/") = true.
Proof.
  intros Hs Hd Hfs Hfd Hp. apply same_or_child in Hp; [|done|done|by apply normals_no_sep..].
  unfold pathIsSameOrChild in Hp. apply orb_true_iff in Hp as [->%bool_decide_eq_true|Hp].
  - apply HasPrefix_spec. exists "". by rewrite GoStrings.app_nil_r.
  - by apply HasPrefix_app.
Qed.

(** When the check finds no sibling it validated the files after the move. *)
Lemma rejectEncryptedMoveConflict_Ok source names :
  names ≠ [] → Forall normal names → check_move_path () (path_of names) = Ok () →
  encryptedSiblingPath (path_of names) ≠ source →
  rejectEncryptedMoveConflict fs source (path_of names) = Ok () →
  ValidateEncryptedFilePaths (move_paths fs (components source) (components (path_of names))) = Ok ().
Proof.
  intros Hne Hf Hchk Hsib Hrej. destruct (below_root_clean (path_of names)) as (_ & Hnn & _); [by exists names|].
  unfold check_move_path in Hchk. destruct (is_protected _); [done|].
  destruct (HasEncryptedParent _ || _) eqn:Hinv; [done|]. apply orb_false_iff in Hinv as [_ Hinv].
  assert (negb (IsValidEncryptedFilePath (path_of names)) && negb (isPlainRuntimePath (path_of names)) = false ∧
    encryptedSiblingPath (path_of names) ≠ "") as [Hguard Hnonempty].
  { unfold encryptedSiblingPath, isPlainRuntimePath. destruct (snoc_inv names) as [->|(n & x & ->)]; [done|].
    destruct (IsEncryptedFilePath (path_of (n ++ [x]))) eqn:Henc; cbn [andb] in Hinv.
    - apply negb_false_iff in Hinv. rewrite Hinv. split; [done|]. intros Hem.
      unfold IsEncryptedFilePath in Henc. apply HasSuffix_spec in Henc as [t Ht].
      unfold RuntimeFilePath in Hem. rewrite Ht, TrimSuffix_app in Hem. subst t.
      unfold IsValidEncryptedFilePath in Hinv. rewrite Ht in Hinv. by vm_compute in Hinv.
    - assert (Base (path_of (n ++ [x])) = x) as -> by (by apply Base_below).
      rewrite !bool_decide_eq_true_2; [split; [by rewrite andb_false_r|by destruct (path_of (n ++ [x]))]| |done].
      intros ->. rewrite encrypted_last in Henc by (by apply normals_no_sep). by vm_compute in Henc. }
  unfold rejectEncryptedMoveConflict in Hrej. rewrite Hguard, decide_False in Hrej by done.
  destruct (lstat_joined _ _) as [?|[|]]; [by rewrite decide_False in Hrej|done|done].
Qed.

(** What a successful move did. *)
Lemma MovePath_renames sourcePath destinationPath fs' source destination :
  MovePath fs sourcePath destinationPath = Ok (fs', (source, destination)) →
  ∃ s d fs1 info, s ≠ [] ∧ d ≠ [] ∧ Forall normal s ∧ Forall normal d ∧ source = path_of s ∧ destination = path_of d ∧
    resolveRepoPath fs sourcePath = Ok (s, source) ∧ resolveRepoPath fs destinationPath = Ok (d, destination) ∧
    check_move_path () destination = Ok () ∧ rejectEncryptedMoveConflict fs source destination = Ok () ∧
    fs !! s = Some info ∧ fs !! d = None ∧ ¬ s `prefix_of` d ∧ with_dirs fs (parent_of d) fs1 ∧ fs' = Rename fs1 s d.
Proof.
  intros Hok. unfold MovePath in Hok.
  apply result_bind_Ok in Hok as ([s sp] & Hrs & Hok). apply result_bind_Ok in Hok as ([d dp] & Hrd & Hok).
  case_decide as Hne; [done|]. apply Decidable.not_or in Hne as [Hsp Hdp]. case_decide as Hsd; [done|].
  apply result_bind_Ok in Hok as ([] & Hchk & Hok). apply result_bind_Ok in Hok as ([] & Hls & Hok).
  apply result_bind_Ok in Hok as ([] & Hld & Hok).
  destruct (resolved_plain fs Hwf _ _ _ Hrs Hsp Hls) as (Hs & Hfs & -> & Hcs & Hnos).
  destruct (resolved_plain fs Hwf _ _ _ Hrd Hdp Hld) as (Hd & Hfd & -> & Hcd & Hnod).
  destruct (Lstat_clear fs Hwf s (no_links_clear _ _ Hnos)) as [Hinfo _].
  destruct (Lstat_clear fs Hwf d (no_links_clear _ _ Hnod)) as [_ Hnone].
  destruct (Lstat fs s) as [info|[|]]; [|done..]. pose proof (proj1 (Hinfo info) eq_refl) as Hsrc. clear Hinfo.
  destruct (is_dir info && (_ || _)) eqn:Hdirenc; [done|].
  destruct (Lstat fs d) as [?|[|]]; [done| |done]. specialize (Hnone eq_refl).
  apply result_bind_Ok in Hok as ([] & Hrej & Hok). destruct (is_dir info && HasPrefix _ _) eqn:Hinside; [done|].
  apply result_bind_Ok in Hok as (fs1 & Hmk%MkdirAll_Ok & [= <- <- <-]).
  apply for_each_unit in Hchk. rewrite Forall_cons, Forall_singleton in Hchk. destruct Hchk as [_ Hchk].
  exists s, d, fs1, info. split_and!; try done.
  intros Hp. apply (prefix_HasPrefix s d Hs Hd Hfs Hfd) in Hp as Hp'. rewrite Hp', andb_true_r in Hinside.
  destruct Hp as [r ->]. destruct (snoc_inv r) as [->|(r' & x & ->)].
  { rewrite (right_id_L [] (++)) in Hnone. congruence. }
  rewrite (assoc_L (++)), parent_of_snoc in Hmk. destruct Hmk as [_ Hc].
  destruct (Hc s) as [?|?]; [by apply prefix_app_r|congruence|]. by simplify_eq.
Qed.

(** The directories above the destination do not matter. *)
Lemma dirs_above d fs1 :
  d ≠ [] → Forall normal d → fs !! d = None → with_dirs fs (parent_of d) fs1 →
  wf_fs fs1 ∧ fs1 !! d = None ∧ fs1 !! parent_of d = Some FDir.
Proof.
  intros Hd Hfd Hfree Hmk. destruct (snoc_inv d) as [->|(n & x & ->)]; [done|]. rewrite parent_of_snoc in *.
  assert (Hfn : Forall normal n) by (by apply Forall_app in Hfd as [? _]).
  split_and!; [by eapply wf_with_dirs|by rewrite (added_below fs fs1 n x Hmk)|].
  destruct Hmk as [Hl _]. by rewrite Hl, decide_True.
Qed.

(** What the checks of a move say of its names, and of a directory. *)
Lemma MovePath_checked sourcePath destinationPath fs' source destination :
  MovePath fs sourcePath destinationPath = Ok (fs', (source, destination)) →
  is_protected source = false ∧ is_protected destination = false ∧ source ≠ destination ∧
  invalid_encrypted destination = false ∧
  (fs !! components source = Some FDir → IsEncryptedFilePath source = false ∧ IsEncryptedFilePath destination = false).
Proof.
  intros Hok. unfold MovePath in Hok.
  apply result_bind_Ok in Hok as ([s sp] & Hrs & Hok). apply result_bind_Ok in Hok as ([d dp] & _ & Hok).
  case_decide as Hne; [done|]. apply Decidable.not_or in Hne as [Hsp _]. case_decide as Hsd; [done|].
  apply result_bind_Ok in Hok as ([] & Hchk & Hok). apply result_bind_Ok in Hok as ([] & Hls & Hok).
  apply result_bind_Ok in Hok as ([] & _ & Hok).
  destruct (resolved_plain fs Hwf _ _ _ Hrs Hsp Hls) as (Hs & Hfs & -> & Hcs & Hnos).
  destruct (Lstat_clear fs Hwf s (no_links_clear _ _ Hnos)) as [Hinfo _].
  destruct (Lstat fs s) as [info|[|]]; [|done..]. pose proof (proj1 (Hinfo info) eq_refl) as Hsrc. clear Hinfo.
  destruct (is_dir info && (_ || _)) eqn:Hdirenc; [done|]. destruct (Lstat fs d) as [?|[|]]; [done| |done].
  apply result_bind_Ok in Hok as ([] & _ & Hok). destruct (is_dir info && HasPrefix _ _); [done|].
  apply result_bind_Ok in Hok as (fs1 & _ & [= <- <- <-]).
  apply for_each_unit in Hchk. rewrite Forall_cons, Forall_singleton in Hchk. unfold check_move_path in Hchk.
  unfold invalid_encrypted. destruct (is_protected _); [by destruct Hchk|].
  destruct (is_protected dp); [by destruct Hchk|].
  destruct (HasEncryptedParent dp || _); [by destruct Hchk|]. split_and!; [done..|].
  rewrite Hcs, Hsrc. intros [= ->]. cbn [is_dir andb] in Hdirenc. by apply orb_false_iff in Hdirenc.
Qed.

(** The files after a move. *)
Lemma MovePath_files s d fs1 q :
  s ≠ [] → d ≠ [] → Forall normal d → fs !! d = None → ¬ s `prefix_of` d → with_dirs fs (parent_of d) fs1 →
  file_at (Rename fs1 s d) q → moved_at fs s d q.
Proof.
  intros Hs Hd Hfd Hfree Hapart Hmk. destruct (dirs_above d fs1 Hd Hfd Hfree Hmk) as (Hwf1 & Hfree1 & _).
  intros Hq%Rename_files; [|done..]. destruct Hq as [[(node & Hq & Hdir & Hg) Hp]|(r & node & -> & Hr & Hdir)].
  - left. split; [|done]. exists node. by rewrite <-(with_dirs_files fs (parent_of d) fs1).
  - right. exists r, node. by rewrite <-(with_dirs_files fs (parent_of d) fs1).
Qed.

(** A move in a repository whose [.git] is a directory, not between the two
    names of one runtime path. *)
Lemma MovePath_valid sourcePath destinationPath fs' source destination :
  fs !! [gitDirName] = None ∨ fs !! [gitDirName] = Some FDir →
  MovePath fs sourcePath destinationPath = Ok (fs', (source, destination)) →
  encryptedSiblingPath destination ≠ source →
  wf_fs fs' ∧ valid_tree fs'.
Proof.
  intros Hgit (s & d & fs1 & info & Hs & Hd & Hfs & Hfd & -> & -> & _ & _ & Hchk & Hrej & Hsrc & Hfree & Hapart & Hmk &
    ->)%MovePath_renames Hsib.
  destruct (dirs_above d fs1 Hd Hfd Hfree Hmk) as (Hwf1 & Hfree1 & Hpar).
  assert (Hwf' : wf_fs (Rename fs1 s d)) by (by apply wf_Rename).
  split; [done|]. apply (valid_tree_spec _ Hwf').
  apply rejectEncryptedMoveConflict_Ok in Hrej; [|done..]. rewrite !components_path_of in Hrej by done.
  apply (valid_paths fs _ (moved_at fs s d)) in Hrej as [Hi Hcl];
    [|intros p; by apply move_paths_spec|intros q; by apply moved_at_normal|done].
  assert (Hfiles : ∀ q, file_at (Rename fs1 s d) q → moved_at fs s d q) by (intros q; by apply MovePath_files).
  split; [by intros q Hq%Hfiles; apply Hi|]. intros e a He%Hfiles Ha%Hfiles. by apply Hcl.
Qed.

(** The two names of one runtime path. *)
Lemma sibling_names s d :
  s ≠ [] → d ≠ [] → Forall normal s → Forall normal d → encryptedSiblingPath (path_of d) = path_of s →
  ∃ n x, d = n ++ [x +:+ encryptedFileSuffix] ∧ s = n ++ [x] ∨
         d = n ++ [x] ∧ s = n ++ [x +:+ encryptedFileSuffix] ∧ IsEncryptedFilePath (path_of d) = false.
Proof.
  intros Hs Hd Hfs' Hfd%normals_no_sep Hsib. pose proof (normals_no_sep _ Hfs') as Hfs. destruct (snoc_inv d) as [->|(n & y & ->)]; [done|].
  apply Forall_app in Hfd as Hfd'. destruct Hfd' as [Hn Hy]. rewrite Forall_singleton in Hy.
  unfold encryptedSiblingPath in Hsib. destruct (IsEncryptedFilePath (path_of (n ++ [y]))) eqn:He.
  - rewrite encrypted_last in He by done. apply HasSuffix_spec in He as [x ->]. apply no_sep_app in Hy as [Hx _].
    exists n, x. left. split; [done|]. destruct (IsValidEncryptedFilePath _).
    + rewrite runtime_last in Hsib. symmetry. apply path_of_inj; [by destruct n|done| |done|done].
      apply Forall_app. split; [done|]. by apply Forall_singleton.
    + destruct (below_root_clean (path_of s)) as (_ & Hnn & _); [|done]. by exists s.
  - exists n, y. right. split_and!; [done| |done]. rewrite path_suffix in Hsib. symmetry.
    apply path_of_inj; [by destruct n|done| |done|done]. apply Forall_app. split; [done|].
    apply Forall_singleton, no_sep_app. split; [done|]. by vm_compute.
Qed.

(** A move between them: the file trades its name. *)
Lemma MovePath_trades sourcePath destinationPath fs' source destination :
  MovePath fs sourcePath destinationPath = Ok (fs', (source, destination)) →
  encryptedSiblingPath destination = source →
  ∃ n x s d, (d = n ++ [x +:+ encryptedFileSuffix] ∧ s = n ++ [x] ∨
              d = n ++ [x] ∧ s = n ++ [x +:+ encryptedFileSuffix] ∧ IsEncryptedFilePath (path_of d) = false) ∧
    destination = path_of d ∧ d ≠ [] ∧ Forall normal d ∧ fs !! d = None ∧ invalid_encrypted (path_of d) = false ∧
    (∃ node, fs !! s = Some node ∧ is_dir node = false ∧ head s ≠ Some gitDirName) ∧
    ∀ q, file_at fs' q → q = d ∨ file_at fs q ∧ q ≠ s.
Proof.
  intros Hok Hsib. destruct (MovePath_checked _ _ _ _ _ Hok) as (Hps & Hpd & Hne & Hinv & Hdir).
  apply MovePath_renames in Hok as (s & d & fs1 & info & Hs & Hd & Hfs & Hfd & -> & -> & _ & _ & _ & _ & Hsrc & Hfree &
    Hapart & Hmk & ->). rewrite components_path_of in Hdir by done.
  destruct (sibling_names s d Hs Hd Hfs Hfd Hsib) as (n & x & Hcase). exists n, x, s, d.
  assert (Hnode : is_dir info = false).
  { destruct info; [|done..]. destruct (Hdir Hsrc) as [Hes Hed].
    assert (Henc : IsEncryptedFilePath (path_of (n ++ [x +:+ encryptedFileSuffix])) = true).
    { apply HasSuffix_spec. exists (path_of (n ++ [x])). by rewrite path_suffix. }
    destruct Hcase as [[-> ->]|(-> & -> & _)]; congruence. }
  split_and!; try done; [exists info; split_and!; [done..|by apply protected_head]|].
  intros q [[Hq Hp]|(r & node & -> & Hr & Hd')]%(MovePath_files s d fs1); [|left|done..].
  - right. split; [done|]. intros ->. by destruct Hp.
  - destruct r as [|y r]; [by rewrite (right_id_L [] (++))|].
    rewrite (wf_below fs Hwf s) in Hr; [done| |done]. rewrite Hsrc. intros [= ->]. done.
Qed.

(** A file has nothing below it. *)
Lemma files_apart a c na nc :
  fs !! a = Some na → is_dir na = false → fs !! c = Some nc → a `prefix_of` c → c = a.
Proof.
  intros Ha Hd Hc [r ->]. destruct r as [|y r]; [by rewrite (right_id_L [] (++))|].
  apply (wf_prefix fs Hwf) in Hc; [|done]. by simplify_eq.
Qed.

Lemma encrypted_of n x : IsEncryptedFilePath (path_of (n ++ [x +:+ encryptedFileSuffix])) = true.
Proof. apply HasSuffix_spec. exists (path_of (n ++ [x])). by rewrite path_suffix. Qed.

Lemma suffix_inj x y : x +:+ encryptedFileSuffix = y +:+ encryptedFileSuffix → x = y.
Proof. intros Heq. by rewrite <-(TrimSuffix_app x encryptedFileSuffix), Heq, TrimSuffix_app. Qed.

(** Such a move keeps a valid tree when no encrypted file has the new name. *)
Lemma MovePath_trades_valid sourcePath destinationPath fs' source destination :
  valid_tree fs → wf_fs fs' → MovePath fs sourcePath destinationPath = Ok (fs', (source, destination)) →
  encryptedSiblingPath destination = source → no_encrypted_above fs destination → valid_tree fs'.
Proof.
  intros Hv Hwf' Hok Hsib Habove. apply (valid_tree_spec _ Hwf) in Hv as [Hvi Hvc]. apply (valid_tree_spec _ Hwf').
  destruct (MovePath_trades _ _ _ _ _ Hok Hsib) as (n & x & s & d & Hcase & -> & Hd & Hfd & Hfree & Hinv &
    (node & Hsrc & Hnode & Hgs) & Hfiles).
  assert (Hfs : file_at fs s) by (by exists node). unfold no_encrypted_above in Habove.
  rewrite components_path_of in Habove by done.
  split; [intros q [->|[Hq _]]%Hfiles; [done|by apply Hvi]|].
  intros e a [->|[He Hes]]%Hfiles [->|[Ha Has]]%Hfiles (m & y & Hm & Hne & Hmeet); [done| | |].
  - destruct Hcase as [[-> ->]|(-> & -> & Henc)]; [|by rewrite Hm, encrypted_of in Henc].
    apply app_inj_tail in Hm as [<- Hy%suffix_inj]. subst y. destruct Ha as (na & Ha & Hda & _).
    apply Has. destruct Hmeet as [Hp|Hp]; [by eapply files_apart|]. symmetry. by eapply files_apart.
  - subst e. pose proof He as (ne & Hne' & _).
    assert (Hnot : ¬ d `prefix_of` m ++ [y]).
    { intros [Heq|[r Hr]]%prefix_snoc_inv; [rewrite Habove in Hne'; [done|by rewrite Heq]|].
      rewrite Hr, <-(assoc_L (++)) in Hne'. apply (wf_prefix fs Hwf) in Hne'; [congruence|by destruct r]. }
    destruct Hmeet as [Hp|?]; [|done]. assert (Hp' : m ++ [y] `prefix_of` s).
    { assert (∃ z z', d = n ++ [z] ∧ s = n ++ [z']) as (z & z' & Hdz & ->).
      { destruct Hcase as [[-> ->]|(-> & -> & _)]; by do 2 eexists. }
      rewrite Hdz in Hp. apply prefix_snoc_inv in Hp as [Heq|Hp]; [destruct Hnot; by rewrite Hdz, Heq|].
      by apply prefix_app_r. }
    apply (Hvc (m ++ [y +:+ encryptedFileSuffix]) s); [done..|]. exists m, y. split_and!; [done|by intros ->|by left].
  - by apply (Hvc e a He Ha); exists m, y.
Qed.

Lemma MovePath_different sourcePath destinationPath fs' source destination :
  fs !! [gitDirName] = None ∨ fs !! [gitDirName] = Some FDir →
  MovePath fs sourcePath destinationPath = Ok (fs', (source, destination)) →
  wf_fs fs' ∧ fs' !! [gitDirName] = fs !! [gitDirName] ∧ (different_runtime fs → different_runtime fs').
Proof.
  intros Hgit Hok. pose proof (MovePath_checked _ _ _ _ _ Hok) as (Hps & Hpd & _).
  assert (wf_fs fs' ∧ fs' !! [gitDirName] = fs !! [gitDirName]) as [Hwf' Hg].
  { apply MovePath_renames in Hok as (s & d & fs1 & info & Hs & Hd & Hfs & Hfd & -> & -> & _ & _ & _ & _ & Hsrc & Hfree &
      Hapart & Hmk & ->). destruct (dirs_above d fs1 Hd Hfd Hfree Hmk) as (Hwf1 & Hfree1 & Hpar).
    split; [by apply wf_Rename|]. apply protected_head in Hps, Hpd; [|done..].
    rewrite lookup_Rename by done. rewrite (proj2 (strip_prefix_None d [gitDirName])).
    - rewrite decide_False; [|intros Hp; destruct s as [|y s]; [done|by apply prefix_cons_inv_1 in Hp as ->]].
      apply (with_dirs_git _ _ _ Hmk). destruct (snoc_inv d) as [->|(n & y & ->)]; [done|].
      rewrite parent_of_snoc. intros Hh. destruct n; [done|]. by simplify_eq/=.
    - intros Hp. destruct d as [|y d]; [done|by apply prefix_cons_inv_1 in Hp as ->]. }
  split_and!; [done..|]. intros Hdiff.
  destruct (decide (encryptedSiblingPath destination = source)) as [Hsib|Hsib];
    [|by apply valid_different; [|eapply MovePath_valid]].
  destruct (MovePath_trades _ _ _ _ _ Hok Hsib) as (n & x & s & d & Hcase & _ & _ & _ & _ & _ & _ & Hfiles).
  apply different_runtime_spec; [done|]. rewrite different_runtime_spec in Hdiff by done.
  intros m y [Hy|[Hy Hys]]%Hfiles [He|[He Hes]]%Hfiles; [| | |by apply Hdiff].
  - rewrite <-He in Hy. by apply suffix_longer in Hy.
  - destruct Hcase as [[-> ->]|(-> & -> & _)]; [rewrite Hy; apply encrypted_of|].
    by apply app_inj_tail in Hy as [-> ->].
  - destruct Hcase as [[-> ->]|(-> & _ & Henc)]; [|by rewrite <-He, encrypted_of in Henc].
    by apply app_inj_tail in He as [-> ->%suffix_inj].
Qed.
End move.

(** ** The working directory over time *)
Section changes.
Context `{Disk}.

(** A change by an operation of files.go.  All of them are changes; the
    [careful] ones give a file no encrypted name, and change none between the
    two names of its runtime path, where an encrypted file has the name or
    that of a directory above: no check looks there. *)
Inductive repo_change (careful : bool) : FS → FS → Prop :=
| change_write fs relativePath content fs' path :
    WriteFile fs relativePath content = Ok (fs', path) →
    (careful = true → IsEncryptedFilePath path = true → no_encrypted_above fs path) →
    repo_change careful fs fs'
| change_create fs relativePath fs' path :
    CreateDirectory fs relativePath = Ok (fs', path) → repo_change careful fs fs'
| change_delete fs relativePath fs' path :
    DeletePath fs relativePath = Ok (fs', path) → repo_change careful fs fs'
| change_move fs sourcePath destinationPath fs' source destination :
    MovePath fs sourcePath destinationPath = Ok (fs', (source, destination)) →
    (careful = true → encryptedSiblingPath destination = source → no_encrypted_above fs destination) →
    repo_change careful fs fs'.

(** [.git] is a directory, if it is there. *)
Definition git_directory (fs : FS) : Prop :=
  fs !! [gitDirName] = None ∨ fs !! [gitDirName] = Some FDir.

Lemma change_different careful fs fs' :
  repo_change careful fs fs' → wf_fs fs → git_directory fs →
  wf_fs fs' ∧ fs' !! [gitDirName] = fs !! [gitDirName] ∧ (different_runtime fs → different_runtime fs').
Proof.
  intros [] Hwf Hgit.
  - by eapply WriteFile_different.
  - by eapply CreateDirectory_different.
  - by eapply DeletePath_different.
  - by eapply MovePath_different.
Qed.

Lemma change_valid fs fs' :
  repo_change true fs fs' → wf_fs fs → git_directory fs → valid_tree fs → valid_tree fs'.
Proof.
  intros Hc Hwf Hgit Hv. destruct (change_different _ _ _ Hc Hwf Hgit) as [Hwf' _]. destruct Hc as
    [fs rel content fs' path Hok Hside|fs rel fs' path Hok|fs rel fs' path Hok|fs from to fs' source destination Hok Hside].
  - eapply WriteFile_valid; [exact Hwf|exact Hv|exact Hok|exact (Hside eq_refl)].
  - by apply (CreateDirectory_valid fs Hwf _ _ _ Hv Hok).
  - by apply (DeletePath_valid fs Hwf _ _ _ Hv Hok).
  - destruct (decide (encryptedSiblingPath destination = source)) as [Hsib|Hsib].
    + eapply MovePath_trades_valid; [exact Hwf|exact Hv|exact Hwf'|exact Hok|exact Hsib|exact (Hside eq_refl Hsib)].
    + by apply (MovePath_valid fs Hwf _ _ _ _ _ Hgit Hok Hsib).
Qed.

(** C25: Through any sequence of writes, creations, deletions and moves the
    working directory, with a directory [.git], stays a tree in which no two
    files have the same runtime path.  Through careful ones, the exception
    being the writes and moves no check covers ([repo_change]), the runtime
    paths are not nested either and a valid tree stays valid: what is
    committed would be accepted again as a fetched revision. *)
Theorem repo_stays_valid careful fs fs' :
  rtc (repo_change careful) fs fs' → wf_fs fs → git_directory fs → different_runtime fs →
  wf_fs fs' ∧ different_runtime fs' ∧ (careful = true → valid_tree fs → valid_tree fs').
Proof.
  induction 1 as [fs|fs fs1 fs' Hstep _ IH]; [done|]. intros Hwf Hgit Hdiff.
  destruct (change_different _ _ _ Hstep Hwf Hgit) as (Hwf1 & Hg & Hd).
  destruct IH as (? & ? & Hv); [done|unfold git_directory; by rewrite Hg|by apply Hd|].
  split_and!; [done..|]. intros -> Hvalid. apply Hv; [done|]. by eapply change_valid.
Qed.
End changes.

(** ** A concrete working directory *)
Definition disk_example : Disk.
Proof.
  refine {| follow _ _ _ := Err NotExist; SecureJoin _ path := Some path; stat_size _ := 0%Z |}; done.
Defined.
#[local] Existing Instance disk_example.

Definition example_fs : FS :=
  list_to_map [([], FDir); (["web"], FDir); (["web"; "compose.yaml"], FFile "services: {}");
               (["web"; "key.enc"], FFile "age")].
Definition fs_after {A} (r : result RepoError (FS * A)) : FS :=
  match r with Ok (fs, _) => fs | Err _ => ∅ end.

Lemma example_wf : wf_fs example_fs.
Proof.
  split.
  - done.
  - intros q x node Hq. apply elem_of_list_to_map_2 in Hq. set_unfold in Hq.
    assert (Hcase : ∀ l : list string, q ++ [x] = l → l ∈ ([["web"]; ["web"; "compose.yaml"]; ["web"; "key.enc"]] : list (list string)) →
      q = [] ∨ q = ["web"]).
    { intros l <- Hl. set_unfold in Hl. destruct q as [|y [|z q]]; [by left| |by destruct Hl as [|[|[|]]]; destruct q].
      destruct Hl as [|[|[|]]]; simplify_eq/=; by right. }
    destruct Hq as [Hq|[Hq|[Hq|[Hq|[]]]]]; [by destruct q|..]; injection Hq as Hq _;
      (destruct (Hcase _ Hq) as [->| ->]; [set_solver|done|done]).
  - intros q node Hq. apply elem_of_list_to_map_2 in Hq. set_unfold in Hq.
    destruct Hq as [Hq|[Hq|[Hq|[Hq|[]]]]]; injection Hq as -> _; by_decision.
Qed.

Lemma fs_after_Ok {A} (r : result RepoError (FS * A)) a :
  match r with Ok (_, b) => b = a | Err _ => False end → r = Ok (fs_after r, a).
Proof. by destruct r as [[fs b]|]; cbn; [intros ->|]. Qed.

Definition example_fs1 : FS := fs_after (WriteFile example_fs "db/secret.enc" "age").
Definition example_fs2 : FS := fs_after (MovePath example_fs1 "web" "site").
Definition example_clash : FS := fs_after (WriteFile example_fs "web/key/id.enc" "age").

Lemma example_write : repo_change true example_fs example_fs1.
Proof.
  refine (change_write true example_fs "db/secret.enc" "age" example_fs1 "db/secret.enc" (fs_after_Ok _ _ _) _).
  - by_computation.
  - intros _ _ q y Hq. change (q ++ [y] `prefix_of` ["db"; "secret.enc"]) in Hq. destruct Hq as [r Hr].
    destruct q as [|a [|b q]]; cbn in Hr; [injection Hr as <- _; done|injection Hr as <- <- _; done|].
    injection Hr as _ _ Hr. by destruct q.
Qed.
Lemma example_move : repo_change true example_fs1 example_fs2.
Proof.
  refine (change_move true example_fs1 "web" "site" example_fs2 "web" "site" (fs_after_Ok _ _ _) _);
    [by_computation|intros _ Heq; by vm_compute in Heq].
Qed.

Lemma example_valid : valid_tree example_fs.
Proof. by_computation. Qed.
Lemma example_unchecked : repo_change false example_fs example_clash.
Proof.
  refine (change_write false example_fs "web/key/id.enc" "age" example_clash "web/key/id.enc" (fs_after_Ok _ _ _) _);
    [by_computation|done].
Qed.

Lemma repo_stays_valid_witness : valid_tree example_fs2 ∧ different_runtime example_clash.
Proof.
  split.
  - refine (proj2 (proj2 (repo_stays_valid true example_fs example_fs2 _ example_wf _ _)) eq_refl example_valid).
    + exact (rtc_l _ _ _ _ example_write (rtc_once _ _ example_move)).
    + by left.
    + exact (valid_different _ example_wf example_valid).
  - refine (proj1 (proj2 (repo_stays_valid false example_fs example_clash _ example_wf _ _))).
    + exact (rtc_once _ _ example_unchecked).
    + by left.
    + exact (valid_different _ example_wf example_valid).
Defined.

(** The exceptions are needed: below the runtime path of an encrypted file a
    write of another one is accepted, and the tree is one that a fetch
    refuses. *)
Theorem WriteFile_accepts_clash :
  ∃ fs fs' path, wf_fs fs ∧ valid_tree fs ∧ WriteFile fs "web/key/id.enc" "age" = Ok (fs', path) ∧ ¬ valid_tree fs'.
Proof.
  exists example_fs, example_clash, "web/key/id.enc".
  split_and!; [apply example_wf|by_computation|apply fs_after_Ok; by_computation|].
  assert (is_ok (ValidateEncryptedFilePaths (tree_files example_clash)) = false) as Hno by by_computation.
  unfold valid_tree. by destruct (ValidateEncryptedFilePaths _).
Qed.

(** So is the move of a file to its encrypted name, when an encrypted file of
    that name exists. *)
Definition example_both : FS :=
  fs_after (WriteFile (fs_after (WriteFile example_fs "web/p" "plain")) "web/p.enc.enc" "age").
Definition example_traded : FS := fs_after (MovePath example_both "web/p" "web/p.enc").
Lemma example_both_wf : wf_fs example_both.
Proof.
  refine (proj1 (WriteFile_different (fs_after (WriteFile example_fs "web/p" "plain")) _ "web/p.enc.enc" "age" _
    "web/p.enc.enc" (fs_after_Ok _ _ _))); [|by_computation].
  refine (proj1 (WriteFile_different example_fs example_wf "web/p" "plain" _ "web/p" (fs_after_Ok _ _ _))). by_computation.
Qed.
Theorem MovePath_accepts_clash :
  ∃ fs fs', wf_fs fs ∧ valid_tree fs ∧ MovePath fs "web/p" "web/p.enc" = Ok (fs', ("web/p", "web/p.enc")) ∧ ¬ valid_tree fs'.
Proof.
  exists example_both, example_traded.
  split_and!; [apply example_both_wf|by_computation|apply fs_after_Ok; by_computation|].
  assert (is_ok (ValidateEncryptedFilePaths (tree_files example_traded)) = false) as Hno by by_computation.
  unfold valid_tree. by destruct (ValidateEncryptedFilePaths _).
Qed.
