(* ===== verification/ImageStore.v ===== *)
(** * Backups, images and synchronisation in the store
    (src/internal/platform/store/backups.go, db.go) *)

(** ** Backups and the state of the repository synchronisation
    (src/internal/platform/store/backups.go, db.go)

    The results of backups, one row each, and the single row of the
    synchronisation with the remote repository. *)
From S2P Require Export StoreTasks.

Record BackupDetail := MkBackupDetail {
  bd_BackupID : string;
  bd_TaskID : string;
  bd_ServiceName : string;
  bd_NodeID : string;
  bd_DataName : string;
  bd_Status : string;
  bd_StartedAt : string;
  bd_FinishedAt : string;
  bd_ArtifactRef : string;
  bd_ErrorSummary : string;
}.
#[export] Instance BackupDetail_eq_dec : EqDecision BackupDetail.
Proof. solve_decision. Defined.

Definition backup_row (detail : BackupDetail) : BackupRow :=
  MkBackupRow (bd_TaskID detail) (bd_ServiceName detail) (bd_NodeID detail) (bd_DataName detail)
    (bd_Status detail) (bd_StartedAt detail) (nullableString (bd_FinishedAt detail))
    (nullableString (bd_ArtifactRef detail)) (nullableString (bd_ErrorSummary detail)).
Definition backup_detail (backupID : string) (r : BackupRow) : BackupDetail :=
  MkBackupDetail backupID (bk_task_id r) (bk_service_name r) (bk_node_id r) (bk_data_name r)
    (bk_status r) (bk_started_at r) (coalesce (bk_finished_at r)) (coalesce (bk_artifact_ref r))
    (coalesce (bk_error_summary r)).

(** The CHECK and the foreign keys of [backups]. *)
Definition backup_violation (r : BackupRow) (db : DB) : option Violation :=
  if decide (bk_status r ∉ sqliteValidTaskStatuses) then Some CheckFailed
  else if decide (is_Some (tasks db !! bk_task_id r) ∧ is_Some (services db !! bk_service_name r) ∧
                  is_Some (service_instances db !! (bk_service_name r, bk_node_id r)) ∧
                  is_Some (nodes db !! bk_node_id r))
  then None else Some ForeignKeyFailed.

Definition bd_set_node (nodeID : string) (d : BackupDetail) : BackupDetail :=
  MkBackupDetail (bd_BackupID d) (bd_TaskID d) (bd_ServiceName d) nodeID (bd_DataName d) (bd_Status d)
    (bd_StartedAt d) (bd_FinishedAt d) (bd_ArtifactRef d) (bd_ErrorSummary d).

Definition UpsertBackupRecord (detail : BackupDetail) (db : DB) : result StoreError DB :=
  let detail :=
    if decide (bd_NodeID detail = "")
    then bd_set_node (match TaskNodeID (bd_TaskID detail) db with Ok nodeID => nodeID | Err _ => "" end) detail
    else detail in
  if decide (bd_NodeID detail = "") then Err (ErrorText "backup requires node_id")
  else match backup_violation (backup_row detail) db with
       | Some v => Err (SqlError "upsert backup record" v)
       | None => Ok (set_backups (upsert (bd_BackupID detail) (backup_row detail) (λ _, backup_row detail)
                                    (backups db)) db)
       end.

Definition GetBackup (backupID : string) (db : DB) : result StoreError BackupDetail :=
  match backups db !! backupID with
  | Some r => Ok (backup_detail backupID r)
  | None => Err ErrBackupNotFound
  end.

(** The flag says whether the row is new; a second report must repeat it. *)
Definition InsertBackupResult (detail : BackupDetail) (db : DB) : result StoreError (DB * bool) :=
  match backups db !! bd_BackupID detail with
  | None =>
      match backup_violation (backup_row detail) db with
      | Some v => Err (SqlError "insert backup result" v)
      | None => Ok (set_backups (<[bd_BackupID detail := backup_row detail]> (backups db)) db, true)
      end
  | Some _ =>
      match backup_violation (backup_row detail) db with
      | Some CheckFailed => Err (SqlError "insert backup result" CheckFailed)
      | _ =>
          result_bind (GetBackup (bd_BackupID detail) db) (λ existing,
          if decide (existing = detail) then Ok (db, false) else Err ErrBackupResultConflict)
      end
  end.

Record BackupFilters := MkBackupFilters {
  bf_service_name : list string; bf_status : list string;
  bf_data_name : list string; bf_node_id : list string;
}.
Definition backup_matches (incl excl : BackupFilters) (r : BackupRow) : bool :=
  string_filter false (Some (bk_service_name r)) (bf_service_name incl) &&
  string_filter false (Some (bk_status r)) (bf_status incl) &&
  string_filter false (Some (bk_data_name r)) (bf_data_name incl) &&
  string_filter false (Some (bk_node_id r)) (bf_node_id incl) &&
  string_filter true (Some (bk_service_name r)) (bf_service_name excl) &&
  string_filter true (Some (bk_status r)) (bf_status excl) &&
  string_filter true (Some (bk_data_name r)) (bf_data_name excl) &&
  string_filter true (Some (bk_node_id r)) (bf_node_id excl).

(** [ORDER BY COALESCE(finished_at, started_at) DESC, backup_id DESC] *)
Definition backup_key (b : string * BackupRow) : string * string :=
  (default (bk_started_at b.2) (bk_finished_at b.2), b.1).
Definition text_pair_le (a b : string * string) : Prop :=
  if decide (a.1 = b.1) then String.le a.2 b.2 else String.le a.1 b.1.
#[export] Instance text_pair_le_dec a b : Decision (text_pair_le a b).
Proof. unfold text_pair_le. case_decide; apply _. Defined.
Definition ListBackups (incl excl : BackupFilters) (page limit : Z) (db : DB) : list BackupDetail * nat :=
  let found := rows_where (λ _ r, backup_matches incl excl r = true) (backups db) in
  ((λ b, backup_detail b.1 b.2) <$> page_of (page_bounds page limit)
     (merge_sort (λ a b, text_pair_le (backup_key b) (backup_key a)) (map_to_list found)),
   size found).

(** [ORDER BY data_name ASC, backup_id ASC] *)
Definition ListBackupsForTask (taskID : string) (db : DB) : list BackupDetail :=
  (λ b, backup_detail b.1 b.2) <$>
    merge_sort (λ a b, text_pair_le (bk_data_name a.2, a.1) (bk_data_name b.2, b.1))
      (map_to_list (rows_where (λ _ r, bk_task_id r = taskID) (backups db))).

(** ** The synchronisation with the remote repository *)
Definition RepoSyncStatusUnknown : string := "unknown".
Definition RepoSyncStatusLocalOnly : string := "local_only".
Definition RepoSyncStatusPendingSync : string := "pending_sync".
Definition RepoSyncStatusSynced : string := "synced".
Definition RepoSyncStatusPullFailed : string := "pull_failed".
Definition RepoSyncStatusPushFailed : string := "push_failed".

(** The times are RFC 3339 texts, represented by their seconds; the empty
    text is [None]. *)
Record RepoSyncState := MkRepoSyncState {
  rs_SyncStatus : string;
  rs_LastSyncError : string;
  rs_LastSuccessfulPullAt : option Z;
}.
Definition zero_sync : RepoSyncState := MkRepoSyncState "" "" None.
Definition GetRepoSyncState (row : option RepoSyncState) : RepoSyncState := default zero_sync row.
Definition UpsertRepoSyncState (state : RepoSyncState) : option RepoSyncState :=
  Some (MkRepoSyncState (if decide (rs_SyncStatus state = "") then RepoSyncStatusUnknown else rs_SyncStatus state)
          (rs_LastSyncError state) (rs_LastSuccessfulPullAt state)).

(** ** Lemmas *)
Lemma end_coalesce s : coalesce (nullableString s) = s.
Proof. unfold coalesce, nullableString. by case_decide. Qed.

Lemma backup_detail_row detail : backup_detail (bd_BackupID detail) (backup_row detail) = detail.
Proof. destruct detail. unfold backup_detail, backup_row; cbn. by rewrite !end_coalesce. Qed.

(** ** Images in the store: src/internal/platform/store/db.go

    What the agents observed of the images of each service: the local and
    remote digests of every running image, and the outcome of the update check
    of every declared image.  Two tables, [ImageTables], beside those of
    StoreDB.v; their foreign keys name the service instance. *)

Definition ImageCheckStatusUnknown : string := "unknown".
Definition ImageCheckStatusOK : string := "ok".
Definition ImageCheckStatusError : string := "error".
Definition IsValidImageCheckStatus (status : string) : bool :=
  bool_decide (status ∈ [ImageCheckStatusUnknown; ImageCheckStatusOK; ImageCheckStatusError]).

(** ** Data *)
Record ServiceImageState := MkServiceImageState {
  ims_ServiceName : string;
  ims_NodeID : string;
  ims_ComposeService : string;
  ims_ImageRef : string;
  ims_LocalDigest : string;
  ims_RemoteDigest : string;
  ims_LocalDigestObserved : bool;
  ims_RemoteDigestObserved : bool;
  ims_UpdateAvailable : bool;
  ims_CheckStatus : string;
  ims_ErrorSummary : string;
  ims_CheckedAt : Time.time;
  ims_UpdatedAt : Time.time;
}.

Record ServiceImageUpdateCheck := MkServiceImageUpdateCheck {
  imc_ServiceName : string;
  imc_NodeID : string;
  imc_ImageName : string;
  imc_ImageRef : string;
  imc_PolicyType : string;
  imc_CurrentValue : string;
  imc_CurrentTag : string;
  imc_CurrentDigest : string;
  imc_CandidateTag : string;
  imc_CandidateDigest : string;
  imc_CandidateTagsJSON : string;
  imc_UpdateAvailable : bool;
  imc_CheckStatus : string;
  imc_ErrorSummary : string;
  imc_CheckedAt : Time.time;
  imc_UpdatedAt : Time.time;
}.
(** What the reconciliation of digests writes into a check. *)
Definition imc_set_digest (currentDigest : string) (available : bool) (status errorSummary : string)
    (c : ServiceImageUpdateCheck) : ServiceImageUpdateCheck :=
  MkServiceImageUpdateCheck (imc_ServiceName c) (imc_NodeID c) (imc_ImageName c) (imc_ImageRef c)
    (imc_PolicyType c) (imc_CurrentValue c) (imc_CurrentTag c) currentDigest (imc_CandidateTag c)
    (imc_CandidateDigest c) (imc_CandidateTagsJSON c) available status errorSummary (imc_CheckedAt c)
    (imc_UpdatedAt c).
Definition imc_set_status (status : string) (c : ServiceImageUpdateCheck) : ServiceImageUpdateCheck :=
  imc_set_digest (imc_CurrentDigest c) (imc_UpdateAvailable c) status (imc_ErrorSummary c) c.

Record ImageCheckBatchResult := MkImageCheckBatchResult {
  ib_Complete : bool;
  ib_Failed : bool;
  ib_CoordinatorTaskID : string;
  ib_RepoRevision : string;
  ib_StartedAt : Time.time;
  ib_FinishedAt : Time.time;
}.
Definition zero_batch : ImageCheckBatchResult := MkImageCheckBatchResult false false "" "" Time.zero Time.zero.

(** ** Tables *)
Record ImageStateRow := MkImageStateRow {
  isr_local_digest : string;
  isr_remote_digest : string;
  isr_update_available : bool;
  isr_check_status : string;
  isr_error_summary : option string;
  isr_checked_at : Z;
  isr_updated_at : Z;
}.
Record ImageCheckRow := MkImageCheckRow {
  icr_image_ref : string;
  icr_policy_type : string;
  icr_current_value : string;
  icr_current_tag : string;
  icr_current_digest : string;
  icr_candidate_tag : string;
  icr_candidate_digest : string;
  icr_candidate_tags_json : option string;
  icr_update_available : bool;
  icr_check_status : string;
  icr_error_summary : option string;
  icr_checked_at : Z;
  icr_updated_at : Z;
}.
(** The keys: service, node, then compose service and image, or image name. *)
Definition StateKey : Type := string * string * (string * string).
Definition CheckKey : Type := string * string * string.
Record ImageTables := MkImageTables {
  service_image_states : gmap StateKey ImageStateRow;
  service_image_update_checks : gmap CheckKey ImageCheckRow;
}.
Definition empty_images : ImageTables := MkImageTables ∅ ∅.

(** A time that is not set is another one. *)
Definition time_or (t fallback : Time.time) : Time.time := if decide (Time.IsZero t) then fallback else t.

(** [json_extract] of SQLite, as text: its value at a path, NULL when there is
    none. *)
Class SQLiteJSON := json_extract : string → string → option string.

Section images.
Context `{SQLite} `{SQLiteJSON}.

(** ** UpsertServiceImageStates *)
Definition state_key (s : ServiceImageState) : StateKey :=
  (ims_ServiceName s, ims_NodeID s, (ims_ComposeService s, ims_ImageRef s)).
Definition status_or_unknown (status : string) : string :=
  if decide (status = "") then ImageCheckStatusUnknown else status.
Definition digests_differ (remote local : string) : bool :=
  bool_decide (remote ≠ "") && bool_decide (local ≠ "") && bool_decide (remote ≠ local).

(** The row an INSERT writes, and what ON CONFLICT makes of a row: a digest
    that was not observed is kept. *)
Definition inserted_state (now : Time.time) (s : ServiceImageState) : ImageStateRow :=
  let checkedAt := time_or (ims_CheckedAt s) now in
  MkImageStateRow (ims_LocalDigest s) (ims_RemoteDigest s)
    (ims_RemoteDigestObserved s && ims_LocalDigestObserved s && digests_differ (ims_RemoteDigest s) (ims_LocalDigest s))
    (status_or_unknown (ims_CheckStatus s)) (nullableString (ims_ErrorSummary s))
    (Time.rfc3339 checkedAt) (Time.rfc3339 (time_or (ims_UpdatedAt s) checkedAt)).
Definition updated_state (s : ServiceImageState) (new old : ImageStateRow) : ImageStateRow :=
  let local := if ims_LocalDigestObserved s then isr_local_digest new else isr_local_digest old in
  let remote := if ims_RemoteDigestObserved s then isr_remote_digest new else isr_remote_digest old in
  MkImageStateRow local remote (digests_differ remote local) (isr_check_status new) (isr_error_summary new)
    (isr_checked_at new) (isr_updated_at new).

Definition instance_exists (db : DB) (serviceName nodeID : string) : Prop :=
  is_Some (service_instances db !! (serviceName, nodeID)).

Definition upsert_image_state (db : DB) (now : Time.time) (t : gmap StateKey ImageStateRow) (s : ServiceImageState)
    : result StoreError (gmap StateKey ImageStateRow) :=
  if decide (ims_ServiceName s = "") then Err (ErrorText "service name is required")
  else if decide (ims_NodeID s = "") then Err (ErrorText "node id is required")
  else if decide (ims_ComposeService s = "") then Err (ErrorText "compose service is required")
  else if decide (ims_ImageRef s = "") then Err (ErrorText "image ref is required")
  else if negb (IsValidImageCheckStatus (status_or_unknown (ims_CheckStatus s)))
  then Err (ErrorText "invalid image check status")
  else if decide (instance_exists db (ims_ServiceName s) (ims_NodeID s))
  then let new := inserted_state now s in Ok (upsert (state_key s) new (updated_state s new) t)
  else Err (SqlError "upsert service image state" ForeignKeyFailed).

Definition UpsertServiceImageStates (now : Time.time) (states : list ServiceImageState) (db : DB) (t : ImageTables)
    : result StoreError ImageTables :=
  result_bind (for_each (upsert_image_state db now) (service_image_states t) states) (λ rows,
  Ok (MkImageTables rows (service_image_update_checks t))).

(** ** ListServiceImageStates *)
Definition state_of_row (k : StateKey) (r : ImageStateRow) : ServiceImageState :=
  MkServiceImageState k.1.1 k.1.2 k.2.1 k.2.2 (isr_local_digest r) (isr_remote_digest r)
    (bool_decide (isr_local_digest r ≠ "")) (bool_decide (isr_remote_digest r ≠ "")) (isr_update_available r)
    (isr_check_status r) (coalesce (isr_error_summary r)) (Time.parse_rfc3339 (isr_checked_at r))
    (Time.parse_rfc3339 (isr_updated_at r)).
Definition text3_le (a b : string * (string * string)) : Prop :=
  if decide (a.1 = b.1) then
    if decide (a.2.1 = b.2.1) then String.le a.2.2 b.2.2 else String.le a.2.1 b.2.1
  else String.le a.1 b.1.
#[export] Instance text3_le_dec a b : Decision (text3_le a b).
Proof. unfold text3_le. repeat case_decide; apply _. Defined.

Definition ListServiceImageStates (serviceName : string) (t : ImageTables) : result StoreError (list ServiceImageState) :=
  if decide (serviceName = "") then Err (ErrorText "service name is required")
  else Ok ((λ kr, state_of_row kr.1 kr.2) <$>
         merge_sort (λ a b, text3_le (a.1.1.2, a.1.2) (b.1.1.2, b.1.2))
           (map_to_list (rows_where (λ k _, k.1.1 = serviceName) (service_image_states t)))).

(** ** UpsertServiceImageUpdateChecks *)
Definition check_key (c : ServiceImageUpdateCheck) : CheckKey := (imc_ServiceName c, imc_NodeID c, imc_ImageName c).
Definition inserted_check (now : Time.time) (c : ServiceImageUpdateCheck) : ImageCheckRow :=
  let checkedAt := time_or (imc_CheckedAt c) now in
  MkImageCheckRow (imc_ImageRef c) (imc_PolicyType c) (imc_CurrentValue c) (imc_CurrentTag c) (imc_CurrentDigest c)
    (imc_CandidateTag c) (imc_CandidateDigest c) (nullableString (imc_CandidateTagsJSON c)) (imc_UpdateAvailable c)
    (status_or_unknown (imc_CheckStatus c)) (nullableString (imc_ErrorSummary c))
    (Time.rfc3339 checkedAt) (Time.rfc3339 (time_or (imc_UpdatedAt c) checkedAt)).

Definition upsert_image_check (db : DB) (now : Time.time) (t : gmap CheckKey ImageCheckRow)
    (c : ServiceImageUpdateCheck) : result StoreError (gmap CheckKey ImageCheckRow) :=
  if decide (imc_ServiceName c = "") then Err (ErrorText "service name is required")
  else if decide (imc_NodeID c = "") then Err (ErrorText "node id is required")
  else if decide (imc_ImageName c = "") then Err (ErrorText "image name is required")
  else if decide (imc_ImageRef c = "") then Err (ErrorText "image ref is required")
  else if negb (IsValidImageCheckStatus (status_or_unknown (imc_CheckStatus c)))
  then Err (ErrorText "invalid image check status")
  else if decide (¬ params_ok (nullableString (imc_CandidateTagsJSON c)))
  then Err (SqlError "upsert service image update check" CheckFailed)
  else if decide (instance_exists db (imc_ServiceName c) (imc_NodeID c))
  then let new := inserted_check now c in Ok (upsert (check_key c) new (λ _, new) t)
  else Err (SqlError "upsert service image update check" ForeignKeyFailed).

Definition UpsertServiceImageUpdateChecks (now : Time.time) (checks : list ServiceImageUpdateCheck) (db : DB)
    (t : ImageTables) : result StoreError ImageTables :=
  result_bind (for_each (upsert_image_check db now) (service_image_update_checks t) checks) (λ rows,
  Ok (MkImageTables (service_image_states t) rows)).

(** ** DeleteOtherServiceImageUpdateChecks: the checks of other nodes, and of
    images not named when there are names. *)
Definition DeleteOtherServiceImageUpdateChecks (serviceName nodeID : string) (imageNames : list string)
    (t : ImageTables) : result StoreError ImageTables :=
  if decide (serviceName = "" ∨ nodeID = "") then Err (ErrorText "service name and node id are required")
  else Ok (MkImageTables (service_image_states t)
         (filter (λ kr, ¬ (kr.1.1.1 = serviceName ∧
                           (kr.1.1.2 ≠ nodeID ∨ (imageNames ≠ [] ∧ kr.1.2 ∉ imageNames))))
            (service_image_update_checks t))).

(** ** LatestServiceImageUpdateChecks *)
Definition check_of_row (k : CheckKey) (r : ImageCheckRow) : ServiceImageUpdateCheck :=
  MkServiceImageUpdateCheck k.1.1 k.1.2 k.2 (icr_image_ref r) (icr_policy_type r) (icr_current_value r)
    (icr_current_tag r) (icr_current_digest r) (icr_candidate_tag r) (icr_candidate_digest r)
    (coalesce (icr_candidate_tags_json r)) (icr_update_available r) (icr_check_status r)
    (coalesce (icr_error_summary r)) (Time.parse_rfc3339 (icr_checked_at r)) (Time.parse_rfc3339 (icr_updated_at r)).
Definition LatestServiceImageUpdateChecks (serviceName nodeID : string) (t : ImageTables)
    : result StoreError (list ServiceImageUpdateCheck) :=
  if decide (serviceName = "") then Err (ErrorText "service name is required")
  else Ok ((λ kr, check_of_row kr.1 kr.2) <$>
         merge_sort (λ a b, text_pair_le (a.1.2, a.1.1.2) (b.1.2, b.1.1.2))
           (map_to_list (rows_where (λ k _, k.1.1 = serviceName ∧ (nodeID = "" ∨ k.1.2 = nodeID))
              (service_image_update_checks t)))).

(** ** ImageCheckBatch: the latest task of the batch on each node *)
Definition in_batch (serviceName batchID : string) (r : TaskRow) : Prop :=
  tc_service_name (tk_core r) = Some serviceName ∧ tc_type (tk_core r) = "image_check" ∧
  tk_params_json r ≫= json_extract "$.image_check_batch_id" = Some batchID.
#[export] Instance in_batch_dec serviceName batchID r : Decision (in_batch serviceName batchID r).
Proof. unfold in_batch. apply _. Defined.
Definition batch_rows (serviceName batchID : string) (db : DB) : gmap string TaskRow :=
  rows_where (λ _ r, in_batch serviceName batchID r) (tasks db).
Definition created_key (kr : string * TaskRow) : Z * string := (tc_created_at (tk_core kr.2), kr.1).
Definition batch_task (rows : gmap string TaskRow) (nodeID : string) : option (string * TaskRow) :=
  least (λ a b, lex_leb (created_key b) (created_key a))
    (map_to_list (rows_where (λ _ r, tc_node_id (tk_core r) = Some nodeID) rows)).

Definition row_finished (r : TaskRow) : Time.time :=
  match tk_finished_at r with Some s => Time.parse_rfc3339 s | None => Time.zero end.
Definition batch_set_failed (b : ImageCheckBatchResult) : ImageCheckBatchResult :=
  MkImageCheckBatchResult (ib_Complete b) true (ib_CoordinatorTaskID b) (ib_RepoRevision b) (ib_StartedAt b)
    (ib_FinishedAt b).
Definition batch_set_complete (coordinator : string) (b : ImageCheckBatchResult) : ImageCheckBatchResult :=
  MkImageCheckBatchResult true (ib_Failed b) coordinator (ib_RepoRevision b) (ib_StartedAt b) (ib_FinishedAt b).
(** The window and the revision with one more succeeded task. *)
Definition batch_add (r : TaskRow) (b : ImageCheckBatchResult) : ImageCheckBatchResult :=
  let created := Time.parse_rfc3339 (tc_created_at (tk_core r)) in
  MkImageCheckBatchResult (ib_Complete b) (ib_Failed b) (ib_CoordinatorTaskID b)
    (if decide (ib_RepoRevision b = "") then coalesce (tc_repo_revision (tk_core r)) else ib_RepoRevision b)
    (if decide (Time.IsZero (ib_StartedAt b) ∨ (created < ib_StartedAt b)%Z) then created else ib_StartedAt b)
    (if decide (ib_FinishedAt b < row_finished r)%Z then row_finished r else ib_FinishedAt b).

(** The loop over the nodes returns early with [false]. *)
Fixpoint batch_nodes (rows : gmap string TaskRow) (b : ImageCheckBatchResult) (nodeIDs : list string)
    : ImageCheckBatchResult * bool :=
  match nodeIDs with
  | [] => (b, true)
  | nodeID :: nodeIDs =>
      match batch_task rows nodeID with
      | None => (b, false)
      | Some (_, r) =>
          if decide (tk_status r ≠ "succeeded") then
            (if decide (tk_status r = "failed" ∨ tk_status r = "cancelled") then batch_set_failed b else b, false)
          else if decide (Time.IsZero (row_finished r)) then (b, false)
          else if decide (ib_RepoRevision b ≠ "" ∧ ib_RepoRevision b ≠ coalesce (tc_repo_revision (tk_core r)))
          then (batch_set_failed b, false)
          else batch_nodes rows (batch_add r b) nodeIDs
      end
  end.

Definition ImageCheckBatch (serviceName batchID : string) (nodeIDs : list string) (db : DB)
    : result StoreError ImageCheckBatchResult :=
  if decide (serviceName = "" ∨ batchID = "" ∨ nodeIDs = []) then Ok zero_batch
  else
    let rows := batch_rows serviceName batchID db in
    if decide (0 < count_where (λ _ r, tc_node_id (tk_core r) = None) rows)
    then Err (ErrorText "scan image check batch")
    else
      let '(b, complete) := batch_nodes rows zero_batch nodeIDs in
      Ok (if complete
          then batch_set_complete (default "" (fst <$> (head nodeIDs ≫= batch_task rows))) b
          else b).
End images.
