(* ===== verification/World.v ===== *)
(** * The world of the controller

    A goroutine of the controller is a program of the monad [M]: it reads and
    changes the database, the repository directory and the DNS providers, and
    leaves a trace of what it did to the outside.  Before each of its
    operations the rest of the system, agents included, may change the
    database and the repository in any way ([Environment]); the clock, the
    identifiers drawn and the success of other file operations come from
    there too.  An error value is a Connect error, [CodeUnknown] for an error
    without a code. *)
From S2P Require Export Rpc TaskParams StoreServices StoreTasks ImageStore ServiceRepo Config RepoFiles.

(** ** The repository *)
(** What git keeps besides the working directory. *)
Class GitState := git_state : Type.

(** The decoding of a metadata file (gopkg.in/yaml.v3). *)
Class MetaDecoder := decode_meta : string → result string Meta.

(** The documents of yaml.v3 nodes. *)
Class MetaDocuments := {
  doc_extra : Type;
  doc_zero : doc_extra;
  parse_document : string → result string (Node doc_extra);
  print_document : Node doc_extra → result string string;
}.

Record RepoTree `{GitState} := MkRepoTree { rt_files : FS; rt_git : git_state }.
Arguments MkRepoTree {_} rt_files rt_git.
Arguments rt_files {_} _.
Arguments rt_git {_} _.

Section entries.
Context `{Disk} `{MetaDecoder}.

(** [os.Stat]: a symbolic link is followed. *)
Definition Stat (fs : FS) (path : list string) : result StatError FNode :=
  match Lstat fs path with
  | Ok (FSymlink _) => follow fs path []
  | r => r
  end.
(** [os.ReadFile] *)
Definition ReadContent (fs : FS) (path : list string) : option string :=
  match Stat fs path with Ok (FFile content) => Some content | _ => None end.
(** The metadata file of a service. *)
Definition meta_stat (fs : FS) (name : string) : MetaStat :=
  match Stat fs [name; MetaFileName] with
  | Err NotExist => MetaAbsent
  | Err StatFailed | Ok (FSymlink _) => MetaStatFailed
  | Ok FDir => MetaIsDir
  | Ok (FFile content) => MetaFile (decode_meta content)
  end.
(** [os.ReadDir] of the repository directory: sorted by name. *)
Definition entries_of (fs : FS) : list Entry :=
  (λ name, MkEntry name (match fs !! [name] with Some node => is_dir node | None => false end) (meta_stat fs name)) <$>
    string_sort (omap (λ e, match e.1 with [name] => Some name | _ => None end) (map_to_list fs)).
Definition rt_entries `{GitState} (t : RepoTree) : list Entry := entries_of (rt_files t).
End entries.

(** ** The world *)
(** What a program did to the outside, and what it waited for. *)
Inductive Event :=
| EvCreated (taskType nodeID : string)
| EvWaited
| EvDNS (nodeIDs : list string)
| EvCommitted (relativePaths : list string)
| EvPersist (nodeIDs : list string)
| EvAwaiting
| EvFinished (status : string)
| EvNotified (event : string).
#[export] Instance Event_eq_dec : EqDecision Event.
Proof. solve_decision. Defined.

(** The DNS service the providers keep, see Dns.v. *)
Class DnsState := dns_state : Type.

Section world.
Context `{DnsState} `{GitState}.

(** [w_sync] is the row of the table [repo_state], if any; [w_images] are the
    tables of the images. *)
Record World := MkWorld {
  w_db : DB;
  w_sync : option RepoSyncState;
  w_images : ImageTables;
  w_tree : RepoTree;
  w_dns : dns_state;
  w_trace : list Event;
  w_tick : nat;
}.
Definition set_db (db : DB) (w : World) : World :=
  MkWorld db (w_sync w) (w_images w) (w_tree w) (w_dns w) (w_trace w) (w_tick w).
Definition set_sync (sync : option RepoSyncState) (w : World) : World :=
  MkWorld (w_db w) sync (w_images w) (w_tree w) (w_dns w) (w_trace w) (w_tick w).
Definition set_images (t : ImageTables) (w : World) : World :=
  MkWorld (w_db w) (w_sync w) t (w_tree w) (w_dns w) (w_trace w) (w_tick w).
Definition set_tree (t : RepoTree) (w : World) : World :=
  MkWorld (w_db w) (w_sync w) (w_images w) t (w_dns w) (w_trace w) (w_tick w).
Definition set_dns (dns : dns_state) (w : World) : World :=
  MkWorld (w_db w) (w_sync w) (w_images w) (w_tree w) dns (w_trace w) (w_tick w).
Definition add_event (e : Event) (w : World) : World :=
  MkWorld (w_db w) (w_sync w) (w_images w) (w_tree w) (w_dns w) (w_trace w ++ [e]) (w_tick w).

Class Environment := {
  env_now : nat → Time.time;
  env_uuid : nat → string;
  env_io : nat → bool;
  env_choice : nat → nat;
  env_db : nat → DB → DB;
  env_sync : nat → option RepoSyncState → option RepoSyncState;
  env_images : nat → ImageTables → ImageTables;
  env_tree : nat → RepoTree → RepoTree;
}.

(** ** Programs *)
Definition M (A : Type) : Type := World → World * result ConnectError A.

#[export] Instance M_ret : MRet M := λ A a w, (w, Ok a).
#[export] Instance M_bind : MBind M := λ A B f m w,
  match m w with
  | (w, Ok a) => f a w
  | (w, Err e) => (w, Err e)
  end.
Definition fail {A} (e : ConnectError) : M A := λ w, (w, Err e).
Definition lift {A} (r : result ConnectError A) : M A := λ w, (w, r).
(** Go on whatever the outcome. *)
Definition attempt {A} (m : M A) : M (result ConnectError A) := λ w, let '(w, r) := m w in (w, Ok r).

Definition emit (e : Event) : M () := λ w, (add_event e w, Ok ()).
Definition put (f : World → World) : M () := λ w, (f w, Ok ()).

Context `{Environment}.

(** The others run, up to the next operation of this program. *)
Definition yield_ : M nat := λ w,
  let n := w_tick w in
  (MkWorld (env_db n (w_db w)) (env_sync n (w_sync w)) (env_images n (w_images w)) (env_tree n (w_tree w)) (w_dns w) (w_trace w) (S n), Ok n).

(** The order in which a map is ranged over is any. *)
Definition range_map {A} (m : gmap string A) : M (list (string * A)) :=
  n ← yield_;
  let orders := permutations (map_to_list m) in
  mret (default (map_to_list m) (orders !! (env_choice n `mod` length orders))).

Definition now : M Time.time := n ← yield_; mret (env_now n).
Definition new_uuid : M string := n ← yield_; mret (env_uuid n).
(** A file operation that may fail. *)
Definition file_io (error : string) : M () :=
  n ← yield_; if env_io n then mret () else fail (NewError CodeUnknown error).
Definition get {A} (f : World → A) : M A := λ w, (w, Ok (f w)).
Definition tree : M RepoTree := _ ← yield_; get w_tree.

(** A call of the store, atomic; its error is wrapped by [wrap]. *)
Definition call_db {A} (wrap : StoreError → ConnectError) (call : DB → result StoreError (DB * A)) : M A :=
  λ w, match call (w_db w) with
  | Ok (db, a) => (set_db db w, Ok a)
  | Err e => (w, Err (wrap e))
  end.
Definition store {A} (wrap : StoreError → ConnectError) (call : DB → result StoreError (DB * A)) : M A :=
  _ ← yield_; call_db wrap call.
Definition store_read {A} (wrap : StoreError → ConnectError) (call : DB → result StoreError A) : M A :=
  store wrap (λ db, result_bind (call db) (λ a, Ok (db, a))).
Definition store_write (wrap : StoreError → ConnectError) (call : DB → result StoreError DB) : M () :=
  store wrap (λ db, result_bind (call db) (λ db, Ok (db, ()))).
(** A call on the tables of the images. *)
Definition call_images {A} (wrap : StoreError → ConnectError)
    (call : DB → ImageTables → result StoreError (ImageTables * A)) : M A :=
  λ w, match call (w_db w) (w_images w) with
  | Ok (t, a) => (set_images t w, Ok a)
  | Err e => (w, Err (wrap e))
  end.
Definition images_read {A} (wrap : StoreError → ConnectError) (call : ImageTables → result StoreError A) : M A :=
  _ ← yield_; call_images wrap (λ _ t, result_bind (call t) (λ a, Ok (t, a))).
Definition images_write (wrap : StoreError → ConnectError) (call : DB → ImageTables → result StoreError ImageTables)
    : M () :=
  _ ← yield_; call_images wrap (λ db t, result_bind (call db t) (λ t, Ok (t, ()))).
(** An error returned as it is. *)
Definition plain : StoreError → ConnectError := StoreFailed CodeUnknown.

Definition with_code {A} (code : Code) (r : result string A) : result ConnectError A :=
  match r with Ok a => Ok a | Err e => Err (NewError code e) end.
(** [connect.NewError(code, err)] around a program. *)
Definition recode {A} (code : Code) (m : M A) : M A := λ w,
  match m w with
  | (w, Ok a) => (w, Ok a)
  | (w, Err (NewError _ message)) => (w, Err (NewError code message))
  | (w, Err (StoreFailed _ e)) => (w, Err (StoreFailed code e))
  end.

(** A loop in [M]. *)
Fixpoint M_each {S A} (f : S → A → M S) (s : S) (l : list A) : M S :=
  match l with
  | [] => mret s
  | x :: l => s ← f s x; M_each f s l
  end.
Definition appendTaskLogRaw_ : M () := file_io "append task log".

(** Programs that succeed. *)
Lemma bind_Ok {A B} (m : M A) (f : A → M B) w w' b :
  (m ≫= f) w = (w', Ok b) ↔ ∃ w1 a, m w = (w1, Ok a) ∧ f a w1 = (w', Ok b).
Proof. unfold mbind, M_bind. destruct (m w) as [w1 [a|e]]; naive_solver. Qed.
Lemma each_cons_Ok {S A} (f : S → A → M S) s x l w w' s' :
  M_each f s (x :: l) w = (w', Ok s') ↔ ∃ w1 s1, f s x w = (w1, Ok s1) ∧ M_each f s1 l w1 = (w', Ok s').
Proof. cbn [M_each]. apply bind_Ok. Qed.
Lemma each_nil_Ok {S A} (f : S → A → M S) s w w' s' : M_each f s [] w = (w', Ok s') ↔ w' = w ∧ s' = s.
Proof. cbn. unfold mret, M_ret. naive_solver. Qed.
Lemma ret_Ok {A} (a b : A) w w' : (mret a : M A) w = (w', Ok b) ↔ w' = w ∧ b = a.
Proof. unfold mret, M_ret. naive_solver. Qed.
Lemma lift_Ok {A} (r : result ConnectError A) w w' a : lift r w = (w', Ok a) ↔ w' = w ∧ r = Ok a.
Proof. unfold lift. naive_solver. Qed.
Lemma fail_Ok {A} e w w' (a : A) : fail e w = (w', Ok a) ↔ False.
Proof. unfold fail. naive_solver. Qed.
Lemma with_code_Ok {A} code (r : result string A) a : with_code code r = Ok a ↔ r = Ok a.
Proof. destruct r; naive_solver. Qed.
Lemma recode_Ok {A} code (m : M A) w w' a : recode code m w = (w', Ok a) ↔ m w = (w', Ok a).
Proof. unfold recode. destruct (m w) as [? [|[|]]]; naive_solver. Qed.
Lemma attempt_Ok {A} (m : M A) w w' r : attempt m w = (w', Ok r) ↔ m w = (w', r).
Proof. unfold attempt. destruct (m w). naive_solver. Qed.
Lemma store_read_Ok {A} wrap (call : DB → result StoreError A) w w' a :
  store_read wrap call w = (w', Ok a) → ∃ w1, call (w_db w1) = Ok a.
Proof.
  intros (w1 & n & _ & Hc)%bind_Ok. exists w1. unfold call_db in Hc. by destruct (call (w_db w1)) as [x|]; simplify_eq/=.
Qed.
End world.

(** What the steps of a program that succeeded were. *)
Ltac succeeded :=
  repeat match goal with
  | H : mbind _ _ _ = (_, Ok _) |- _ => apply (proj1 (bind_Ok _ _ _ _ _)) in H as (? & ? & ? & H)
  | H : mret _ _ = (_, Ok _) |- _ => apply (proj1 (ret_Ok _ _ _ _)) in H as [? H]
  | H : lift _ _ = (_, Ok _) |- _ => apply (proj1 (lift_Ok _ _ _ _)) in H as [? H]
  | H : fail _ _ = (_, Ok _) |- _ => by apply (proj1 (fail_Ok _ _ _ _)) in H
  | H : recode _ _ _ = (_, Ok _) |- _ => apply (proj1 (recode_Ok _ _ _ _ _)) in H
  | H : attempt _ _ = (_, Ok _) |- _ => apply (proj1 (attempt_Ok _ _ _ _)) in H
  | H : with_code _ _ = Ok _ |- _ => apply (proj1 (with_code_Ok _ _ _)) in H
  end; subst.

(** ** Programs that respect a relation between worlds *)
Section respects.
Context `{DnsState} `{GitState} `{!Environment} (R : relation World) `{!PreOrder R}.

(** Whatever its outcome, the program goes to a related world. *)
Definition respects {A} (m : M A) : Prop := ∀ w, R w (m w).1.

Lemma respects_ret {A} (a : A) : respects (mret a).
Proof. intros w. change (R w w). reflexivity. Qed.
Lemma respects_fail {A} e : respects (fail (A := A) e).
Proof. intros w. change (R w w). reflexivity. Qed.
Lemma respects_lift {A} (r : result ConnectError A) : respects (lift r).
Proof. intros w. change (R w w). reflexivity. Qed.
Lemma respects_get {A} (f : World → A) : respects (get f).
Proof. intros w. change (R w w). reflexivity. Qed.
Lemma respects_bind {A B} (m : M A) (f : A → M B) : respects m → (∀ a, respects (f a)) → respects (m ≫= f).
Proof.
  intros Hm Hf w. unfold mbind, M_bind. specialize (Hm w). destruct (m w) as [w1 [a|e]]; [|done].
  etrans; [done|apply Hf].
Qed.
Lemma respects_attempt {A} (m : M A) : respects m → respects (attempt m).
Proof. intros Hm w. specialize (Hm w). unfold attempt. by destruct (m w). Qed.
Lemma respects_recode {A} code (m : M A) : respects m → respects (recode code m).
Proof. intros Hm w. specialize (Hm w). unfold recode. by destruct (m w) as [w1 [|[|]]]. Qed.
Lemma respects_each {S A} (f : S → A → M S) s l : (∀ s x, respects (f s x)) → respects (M_each f s l).
Proof. intros Hf. revert s. induction l as [|x l IH]; intros s; [apply respects_ret|]. by apply respects_bind. Qed.

Context (Hyield : respects yield_).
Lemma respects_now : respects now.
Proof. apply respects_bind; [done|]. intros n. apply respects_ret. Qed.
Lemma respects_new_uuid : respects new_uuid.
Proof. apply respects_bind; [done|]. intros n. apply respects_ret. Qed.
Lemma respects_tree : respects tree.
Proof. apply respects_bind; [done|]. intros n. apply respects_get. Qed.
Lemma respects_file_io e : respects (file_io e).
Proof. apply respects_bind; [done|]. intros n. destruct (env_io n); [apply respects_ret|apply respects_fail]. Qed.

Context (Hdb : ∀ db w, R w (set_db db w)).
Lemma respects_store {A} wrap (call : DB → result StoreError (DB * A)) : respects (store wrap call).
Proof.
  apply respects_bind; [done|]. intros _ w. unfold call_db. destruct (call (w_db w)) as [[db a]|e]; [apply Hdb|reflexivity].
Qed.
End respects.

(** The trace only grows; the files stay. *)
Section relations.
Context `{DnsState} `{GitState}.
Definition trace_grows (w w' : World) : Prop := w_trace w `prefix_of` w_trace w'.
Definition files_stay (w w' : World) : Prop := rt_files (w_tree w') = rt_files (w_tree w).
#[export] Instance trace_grows_preorder : PreOrder trace_grows.
Proof. split; unfold trace_grows; [intros w; reflexivity|]. intros w1 w2 w3 ? ?. by etrans. Qed.
#[export] Instance files_stay_preorder : PreOrder files_stay.
Proof. split; unfold files_stay; [intros w; reflexivity|]. intros w1 w2 w3 ? ?. congruence. Qed.

(** A relation that only looks at the trace, and programs that leave no
    trace. *)
Class TraceBased (R : relation World) := trace_based : ∀ w w', w_trace w' = w_trace w → R w w'.
#[export] Instance trace_grows_based : TraceBased trace_grows.
Proof. intros w w' Heq. unfold trace_grows. by rewrite Heq. Qed.

Definition traceless {A} (m : M A) : Prop := ∀ w, w_trace (m w).1 = w_trace w.
Lemma respects_traceless R `{!TraceBased R} {A} (m : M A) : traceless m → respects R m.
Proof. intros Hm w. apply trace_based, Hm. Qed.

Context `{!Environment}.
Lemma traceless_yield : traceless yield_.
Proof. done. Qed.
Lemma traceless_put f : (∀ w, w_trace (f w) = w_trace w) → traceless (put f).
Proof. intros Hf w. apply Hf. Qed.
Lemma traceless_then {A B} (m : M A) (f : A → M B) : traceless m → (∀ a, traceless (f a)) → traceless (m ≫= f).
Proof.
  intros Hm Hf w. unfold mbind, M_bind. specialize (Hm w). destruct (m w) as [w1 [a|e]]; [|done].
  rewrite (Hf a w1). exact Hm.
Qed.
Lemma traceless_store {A} wrap (call : DB → result StoreError (DB * A)) : traceless (store wrap call).
Proof. apply traceless_then; [apply traceless_yield|]. intros _ w. unfold call_db. by destruct (call (w_db w)) as [[]|]. Qed.
End relations.

Create HintDb world.
#[export] Hint Resolve respects_ret respects_fail respects_lift respects_get respects_bind respects_attempt
  respects_recode respects_each respects_now respects_new_uuid respects_tree respects_file_io respects_store : world.
#[export] Hint Extern 1 (PreOrder _) => apply _ : world.
(** Follow the structure of a program. *)
Ltac respects_step :=
  first
  [ progress intros
  | assumption
  | match goal with
    | |- respects _ (mret _) => apply respects_ret
    | |- respects _ (fail _) => apply respects_fail
    | |- respects _ (lift _) => apply respects_lift
    | |- respects _ (get _) => apply respects_get
    | |- respects _ (mbind _ _) => apply respects_bind
    | |- respects _ (attempt _) => apply respects_attempt
    | |- respects _ (recode _ _) => apply respects_recode
    | |- respects _ (M_each _ _ _) => apply respects_each
    | |- respects _ now => apply respects_now
    | |- respects _ new_uuid => apply respects_new_uuid
    | |- respects _ tree => apply respects_tree
    | |- respects _ (file_io _) => apply respects_file_io
    | |- respects _ appendTaskLogRaw_ => apply respects_file_io
    | |- respects _ (store _ _) => apply respects_store
    | |- respects _ (store_read _ _) => apply respects_store
    | |- respects _ (store_write _ _) => apply respects_store
    | |- respects _ (if ?b then _ else _) => destruct b
    | |- respects _ (match ?x with _ => _ end) => destruct x
    | |- respects _ (let '(_, _) := ?x in _) => destruct x
    | |- PreOrder _ => apply _
    end ].
Ltac respects := repeat respects_step.

(** For a relation on traces the operations of the world are steps that leave
    none; [world] has what each component adds to them. *)
#[export] Hint Resolve traceless_yield traceless_store : world.
#[export] Hint Extern 1 (traceless (put _)) => (apply traceless_put; intros; reflexivity) : world.
#[export] Hint Extern 1 (traceless (store_read _ _)) => apply traceless_store : world.
#[export] Hint Extern 1 (traceless (store_write _ _)) => apply traceless_store : world.
Ltac respects_trace :=
  repeat first [apply respects_traceless; [apply _|solve [auto with world nocore]]|respects_step].
