(* ===== verification/Notifications.v ===== *)
(** * Notifications
    (src/internal/core/notify/events.go,
    src/internal/app/controller/notifications.go,
    src/internal/app/notify/notifier.go)

    The events the controller announces, which changes raise them, and the
    routes that carry them; the texts sent are left out.  A dispatch is an
    event of the trace, as its outcome is ignored; [Send] fails when one of
    the routes does. *)
From S2P Require Export World.

Definition EventTaskFailed : string := "task_failed".
Definition EventTaskCancelled : string := "task_cancelled".
Definition EventTaskCompleted : string := "task_completed".
Definition EventTaskAwaitingConfirmation : string := "task_awaiting_confirmation".
Definition EventBackupCompleted : string := "backup_completed".
Definition EventBackupFailed : string := "backup_failed".
Definition EventImageUpdateAvailable : string := "image_update_available".
Definition EventImageUpdateApplied : string := "image_update_applied".

Definition taskEventTypeForStatus (status : string) : option string :=
  if decide (status = StatusSucceeded) then Some EventTaskCompleted
  else if decide (status = StatusFailed) then Some EventTaskFailed
  else if decide (status = StatusCancelled) then Some EventTaskCancelled
  else None.
Definition backupEventTypeForStatus (status : string) : option string :=
  if decide (status = StatusSucceeded) then Some EventBackupCompleted
  else if decide (status = StatusFailed) then Some EventBackupFailed
  else None.

(** An update that was not announced before. *)
Definition newly_available (previousByImage : gmap string ServiceImageUpdateCheck) (check : ServiceImageUpdateCheck)
    : bool :=
  imc_UpdateAvailable check && negb (bool_decide (imc_CheckStatus check = ImageCheckStatusError)) &&
  match previousByImage !! imc_ImageName check with
  | None => true
  | Some p => negb (imc_UpdateAvailable p) || negb (bool_decide (imc_CandidateTag p = imc_CandidateTag check)) ||
              negb (bool_decide (imc_CandidateDigest p = imc_CandidateDigest check))
  end.
Definition by_image (checks : list ServiceImageUpdateCheck) : gmap string ServiceImageUpdateCheck :=
  foldl (λ m c, <[imc_ImageName c := c]> m) ∅ checks.
Definition detectNewImageUpdateChecks (previous current : list ServiceImageUpdateCheck)
    : list ServiceImageUpdateCheck := filter (λ check, newly_available (by_image previous) check = true) current.

(** ** notifier.go *)
Record route := MkRoute {
  route_name : string;
  route_events : list string;
  route_sources : list string;
}.
Definition normalized_filter (values : list string) : list string := (λ v, TrimSpace (ToLower v)) <$> values.
Definition notifier_routes (cfg : option ControllerNotificationsConfig) : list route :=
  match cfg with
  | None => []
  | Some cfg =>
      match cn_SMTP cfg with
      | Some smtp =>
          if default true (smtp_Enabled smtp)
          then [MkRoute "smtp" (normalized_filter (smtp_On smtp)) (normalized_filter (smtp_TaskSources smtp))] else []
      | None => []
      end ++
      match cn_Telegram cfg with
      | Some telegram =>
          if default true (tg_Enabled telegram)
          then [MkRoute "telegram" (normalized_filter (tg_On telegram)) (normalized_filter (tg_TaskSources telegram))]
          else []
      | None => []
      end
  end.
Definition route_matches (event source : string) (r : route) : bool :=
  if negb (bool_decide (route_events r = [])) && negb (bool_decide (event ∈ route_events r)) then false
  else if bool_decide (route_sources r = []) || bool_decide (source = "") then true
  else bool_decide (source ∈ route_sources r).

Section send.
Context `{DnsState} `{GitState} `{!Environment}.
(** Every matching route is tried. *)
Definition send_route (event source : string) (sent : bool) (r : route) : M bool :=
  if negb (route_matches event source r) then mret sent
  else
    r ← attempt (_ ← file_io "send notification"; emit (EvNotified event));
    mret (match r with Ok _ => sent | Err _ => false end).
Definition Send (routes : list route) (event source : string) : M () :=
  sent ← M_each (send_route event source) true routes;
  if (sent : bool) then mret () else fail (NewError CodeUnknown "send notification").
End send.
