(* ===== verification/Git.v ===== *)
(** * Git: src/internal/core/repo/git.go

    Each function runs git commands in the repository directory and reads
    their output.  The git program is the class [GitCommand]: given the
    environment, configuration and arguments it changes the working directory
    and what git keeps, and gives its output or an error; only a merge changes
    the working directory. *)
From S2P Require Export World.

Class GitCommand `{GitState} := {
  run_git : list string → list string → list string → FS → git_state →
            FS * git_state * result string string;
  run_git_files : ∀ env config args fs g, head args ≠ Some "merge" → (run_git env config args fs g).1.1 = fs;
  (** [gitRemoteConfig]: the header with the credentials for a remote. *)
  gitRemoteConfig : string → string → string → list string;
}.

Section git.
Context `{DnsState} `{GitState} `{!Environment} `{!GitCommand}.

Definition call_git (env config args : list string) : M string := λ w,
  let '(fs, g, r) := run_git env config args (rt_files (w_tree w)) (rt_git (w_tree w)) in
  (set_tree (MkRepoTree fs g) w, with_code CodeUnknown r).
Definition gitOutputWithContext (env config args : list string) : M string :=
  _ ← yield_; call_git env config args.
Lemma traceless_git env config args : traceless (gitOutputWithContext env config args).
Proof.
  apply traceless_then; [apply traceless_yield|]. intros _ w. unfold call_git. by destruct (run_git _ _ _ _ _) as [[]].
Qed.
Definition gitOutput (args : list string) : M string := gitOutputWithContext [] [] args.

Definition CurrentRevision : M string := output ← gitOutput ["rev-parse"; "HEAD"]; mret (TrimSpace output).
Definition CurrentBranch : M string := output ← gitOutput ["branch"; "--show-current"]; mret (TrimSpace output).
Definition HasRemote : M bool := output ← gitOutput ["remote"]; mret (bool_decide (TrimSpace output ≠ "")).
Definition IsCleanWorkingTree : M bool :=
  output ← gitOutput ["status"; "--short"]; mret (bool_decide (TrimSpace output = "")).

Definition HasPathsChanges (relativePaths : list string) : M bool :=
  output ← gitOutput (["status"; "--short"] ++ (if decide (relativePaths = []) then [] else "--" :: relativePaths));
  mret (bool_decide (TrimSpace output ≠ "")).
Definition HasPathChanges (relativePath : string) : M bool := HasPathsChanges [relativePath].

Definition gitAuthorEnv (authorName authorEmail : string) : list string :=
  let authorName := if decide (authorName = "") then "Composia" else authorName in
  let authorEmail := if decide (authorEmail = "") then "composia@localhost" else authorEmail in
  ["GIT_AUTHOR_NAME=" +:+ authorName; "GIT_AUTHOR_EMAIL=" +:+ authorEmail;
   "GIT_COMMITTER_NAME=" +:+ authorName; "GIT_COMMITTER_EMAIL=" +:+ authorEmail].

(** Stage and commit the paths: [false] when nothing changed. *)
Definition stage_and_commit (relativePaths : list string) (message authorName authorEmail : string) : M bool :=
  _ ← gitOutput (["add"; "-A"; "--"] ++ relativePaths);
  changed ← HasPathsChanges relativePaths;
  if negb changed then mret false
  else
    let message := if decide (message = "") then "update " +:+ default "" (head relativePaths) else message in
    _ ← gitOutputWithContext (gitAuthorEnv authorName authorEmail) ["commit.gpgsign=false"]
          (["commit"; "--only"; "-m"; message; "--"] ++ relativePaths);
    _ ← emit (EvCommitted relativePaths);
    mret true.
(** [None] is the error [ErrNoGitChanges].  The index is restored unless the
    commit was made. *)
Definition CommitPaths (relativePaths : list string) (message authorName authorEmail : string) : M (option string) :=
  if decide (relativePaths = []) then fail (NewError CodeUnknown "at least one repo path is required")
  else
    indexTree ← gitOutput ["write-tree"];
    committed ← attempt (stage_and_commit relativePaths message authorName authorEmail);
    match committed with
    | Ok true => commitID ← CurrentRevision; mret (Some commitID)
    | Ok false => _ ← attempt (gitOutput ["read-tree"; TrimSpace indexTree]); mret None
    | Err e => _ ← attempt (gitOutput ["read-tree"; TrimSpace indexTree]); fail e
    end.
Definition CommitPath (relativePath message authorName authorEmail : string) : M (option string) :=
  CommitPaths [relativePath] message authorName authorEmail.

Definition ReadFileAtRevision (revision relativePath : string) : M string :=
  gitOutput ["show"; revision +:+ ":" +:+ relativePath].

Definition newline : Ascii.ascii := byte 10.
Definition output_lines (output : string) : list string :=
  if decide (output = "") then [] else Split (TrimSuffix output (String newline "")) newline.
Definition ListFilesAtRevision (revision relativePath : string) : M (list string) :=
  output ← gitOutput ["ls-tree"; "--name-only"; "-r"; revision +:+ ":" +:+ relativePath];
  mret (output_lines output).
Definition ValidateEncryptedFileCollisionsAtRevision (revision : string) : M () :=
  paths ← ListFilesAtRevision (TrimSpace revision) "";
  match ValidateEncryptedFilePaths paths with
  | Ok _ => mret ()
  | Err _ => fail (NewError CodeUnknown "encrypted and plaintext files cannot coexist")
  end.
Definition DiffChangedFiles (oldRevision newRevision : string) : M (list string) :=
  output ← gitOutput ["diff"; "--name-only"; oldRevision; newRevision]; mret (output_lines output).

Definition FetchRevision (remoteURL branch authUsername authToken : string) : M string :=
  if decide (remoteURL = "") then fail (NewError CodeUnknown "remote URL is required")
  else if decide (branch = "") then fail (NewError CodeUnknown "remote branch is required")
  else
    _ ← gitOutputWithContext [] (gitRemoteConfig remoteURL authUsername authToken) ["fetch"; remoteURL; branch];
    fetchedRevision ← gitOutput ["rev-parse"; "FETCH_HEAD"];
    mret (TrimSpace fetchedRevision).
Definition FastForwardRevision (revision : string) : M () :=
  _ ← ValidateEncryptedFileCollisionsAtRevision revision;
  _ ← gitOutput ["merge"; "--ff-only"; revision];
  mret ().
Definition FetchAndFastForward (remoteURL branch authUsername authToken : string) : M () :=
  revision ← FetchRevision remoteURL branch authUsername authToken; FastForwardRevision revision.
Definition PushRevision (remoteURL branch revision authUsername authToken : string) : M () :=
  if decide (remoteURL = "") then fail (NewError CodeUnknown "remote URL is required")
  else if decide (branch = "") then fail (NewError CodeUnknown "remote branch is required")
  else
    _ ← gitOutputWithContext [] (gitRemoteConfig remoteURL authUsername authToken)
          ["push"; remoteURL; revision +:+ ":refs/heads/" +:+ branch];
    mret ().
Definition PushCurrentBranch (remoteURL branch authUsername authToken : string) : M () :=
  PushRevision remoteURL branch "HEAD" authUsername authToken.
End git.

Section at_revision.
Context `{DnsState} `{GitState} `{!Environment} `{!GitCommand} `{MetaDecoder} `{Cron} `{Libraries}.
Context (cfg : ControllerConfig) (availableNodeIDs : gset string).

(** [repo.FindServiceAtRevision] *)
Definition find_service_at (revision serviceDir : string) : M Service :=
  if decide (TrimSpace revision = "") then fail (NewError CodeUnknown "service revision is required")
  else
    content ← ReadFileAtRevision revision (JoinPath [serviceDir; MetaFileName]);
    lift (with_code CodeUnknown
      (FindServiceAtRevision (cc_RepoDir cfg) revision serviceDir (λ _, decode_meta content) availableNodeIDs)).

End at_revision.
#[export] Hint Resolve traceless_git : world.
#[export] Hint Extern 1 (traceless (gitOutput _)) => apply traceless_git : world.
