(* ===== verification/RepoWrite.v ===== *)
(** * Writing to the repository
    (src/internal/app/controller/repo_command.go, repo_sync.go,
    repo_encryption.go)

    A write locks the repository, brings it up to date, checks the revision
    the caller started from and that no task uses the service, changes the
    working directory, commits, and publishes; when the commit fails it undoes
    the change of the working directory.  The lock [repoMu] is left out of the
    programs: a program that holds it is one whose environment does not touch
    the repository. *)
From S2P Require Export Git.

(** Encryption of repository files (platform/secret). *)
Class Secrets := {
  Encrypt : string → string * string → result string string;
  Decrypt : string → string * string → result string string;
}.

Record repoWriteResult := MkRepoWriteResult {
  rw_CommitID : string;
  rw_SyncStatus : string;
  rw_PushError : string;
  rw_LastSuccessfulPullAt : option Z;
}.

Section writing.
Context `{DnsState} `{GitState} `{!Environment} `{!GitCommand}.
Context `{Disk} `{MetaDecoder} `{Cron} `{Libraries} `{Secrets}.
Context (cfg : ControllerConfig) (availableNodeIDs : gset string).

(** ** repo_encryption.go *)
Inductive StoredContentError := errInvalidEncryptedPath | errSecretsNotConfigured | EncryptFailed.

Definition bad_encrypted_path (path : string) : bool :=
  HasEncryptedParent path || IsEncryptedFilePath path && negb (IsValidEncryptedFilePath path).
Definition repoFileContent (path stored : string) : result StoredContentError string :=
  if bad_encrypted_path path then Err errInvalidEncryptedPath
  else if negb (IsEncryptedFilePath path) then Ok stored
  else match cc_Secrets cfg with
  | None => Err errSecretsNotConfigured
  | Some secrets => match Decrypt stored secrets with Ok plaintext => Ok plaintext | Err _ => Err EncryptFailed end
  end.
Definition storedRepoFileContent (path content : string) : result StoredContentError string :=
  match NormalizePath path with
  | Err _ => Err errInvalidEncryptedPath
  | Ok normalized =>
      if bool_decide (normalized = "") || bad_encrypted_path normalized then Err errInvalidEncryptedPath
      else if negb (IsEncryptedFilePath normalized) then Ok content
      else match cc_Secrets cfg with
      | None => Err errSecretsNotConfigured
      | Some secrets => match Encrypt content secrets with Ok ciphertext => Ok ciphertext | Err _ => Err EncryptFailed end
      end
  end.

(** ** Files, as steps of a program *)
Definition call_files {A} (wrap : RepoError → ConnectError) (op : FS → result RepoError (FS * A)) : M A := λ w,
  match op (rt_files (w_tree w)) with
  | Ok (fs, a) => (set_tree (MkRepoTree fs (rt_git (w_tree w))) w, Ok a)
  | Err e => (w, Err (wrap e))
  end.
Definition files_step {A} (wrap : RepoError → ConnectError) (op : FS → result RepoError (FS * A)) : M A :=
  _ ← yield_; call_files wrap op.
Lemma traceless_files {A} (wrap : RepoError → ConnectError) (op : FS → result RepoError (FS * A)) :
  traceless (files_step wrap op).
Proof. apply traceless_then; [apply traceless_yield|]. intros _ w. unfold call_files. by destruct (op _) as [[]|]. Qed.
(** An operation that only reads, its error as a value. *)
Definition files_read {A} (op : FS → result RepoError A) : M (result RepoError A) :=
  t ← tree; mret (op (rt_files t)).

Definition repo_error_text (e : RepoError) : string :=
  match e with
  | ErrRepoPathNotFound => "repo path not found"
  | ErrRepoPathInvalid => "repo path is invalid"
  | ErrRepoPathNotDirectory => "repo path is not a directory"
  | ErrRepoPathNotFile => "repo path is not a file"
  | ErrRepoPathProtected => "repo path is protected"
  | ErrRepoPathAlreadyExists => "repo path already exists"
  | ErrEncryptedFileConflict _ _ => "encrypted and plaintext files cannot coexist"
  | IOError message => message
  end.
Definition mapRepoMutationError (e : RepoError) : ConnectError :=
  NewError (match e with
            | ErrRepoPathInvalid | ErrRepoPathProtected => CodeInvalidArgument
            | IOError _ => CodeInternal
            | _ => CodeFailedPrecondition
            end) (repo_error_text e).
(** The errors of reading and of writing in [updateRepoFileTransaction]. *)
Definition read_error (e : RepoError) : ConnectError :=
  NewError (match e with
            | ErrRepoPathInvalid | ErrRepoPathProtected => CodeInvalidArgument
            | ErrRepoPathNotFile => CodeFailedPrecondition
            | _ => CodeInternal
            end) (repo_error_text e).
Definition write_error (e : RepoError) : ConnectError :=
  NewError (match e with
            | ErrRepoPathInvalid | ErrRepoPathProtected => CodeInvalidArgument
            | ErrEncryptedFileConflict _ _ => CodeFailedPrecondition
            | _ => CodeInternal
            end) (repo_error_text e).

(** ** Configuration and state of the synchronisation *)
Definition remote_url : string := match cc_Git cfg with Some git => TrimSpace (cg_RemoteURL git) | None => "" end.
Definition hasConfiguredRemote : bool := bool_decide (remote_url ≠ "").
Definition local_first : bool := match cc_Git cfg with Some git => LocalFirstEnabled git | None => true end.
Definition configuredGitAuthToken : string := TrimSpace (default "" (snd <$> (cc_Git cfg ≫= cg_Auth))).
Definition configuredGitAuthUsername : string := TrimSpace (default "" (fst <$> (cc_Git cfg ≫= cg_Auth))).
Definition author_name : string := default "" (cg_AuthorName <$> cc_Git cfg).
Definition author_email : string := default "" (cg_AuthorEmail <$> cc_Git cfg).

Definition configuredRemoteBranch : M string :=
  let configured := TrimSpace (default "" (cg_Branch <$> cc_Git cfg)) in
  if decide (configured ≠ "") then mret configured
  else
    branch ← CurrentBranch;
    if decide (branch = "") then fail (NewError CodeUnknown "cannot determine repo branch for remote sync")
    else mret branch.

Definition repoSyncState : M RepoSyncState :=
  if negb hasConfiguredRemote then mret (MkRepoSyncState RepoSyncStatusLocalOnly "" None)
  else
    _ ← yield_;
    row ← get w_sync;
    let state := GetRepoSyncState row in
    mret (if decide (rs_SyncStatus state = "")
          then MkRepoSyncState RepoSyncStatusUnknown (rs_LastSyncError state) (rs_LastSuccessfulPullAt state)
          else state).
Definition persistRepoSyncState (state : RepoSyncState) : M () :=
  _ ← yield_; put (set_sync (UpsertRepoSyncState state)).

Definition error_text (e : ConnectError) : string :=
  match e with NewError _ message => message | StoreFailed _ _ => "store" end.

(** ** Checks before a write *)
Definition ensureCleanWorktree : M () :=
  cleanWorktree ← recode CodeInternal IsCleanWorkingTree;
  if negb cleanWorktree then fail (NewError CodeFailedPrecondition "repo working tree is not clean")
  else mret ().

Definition syncRepoLocked : M RepoSyncState :=
  if negb hasConfiguredRemote then fail (NewError CodeFailedPrecondition "repo remote sync is not configured")
  else
    _ ← ensureCleanWorktree;
    branch ← recode CodeInternal configuredRemoteBranch;
    previousState ← repoSyncState;
    t ← now;
    fetched ← attempt (FetchAndFastForward remote_url branch configuredGitAuthUsername configuredGitAuthToken);
    match fetched with
    | Err e =>
        _ ← persistRepoSyncState (MkRepoSyncState RepoSyncStatusPullFailed (error_text e)
              (rs_LastSuccessfulPullAt previousState));
        fail (NewError CodeFailedPrecondition (error_text e))
    | Ok _ =>
        let state := MkRepoSyncState RepoSyncStatusSynced "" (Some (Time.rfc3339 t)) in
        _ ← persistRepoSyncState state;
        mret state
    end.
Definition syncRepoBeforeWrite : M () :=
  if negb hasConfiguredRemote || local_first then mret () else _ ← syncRepoLocked; mret ().

Definition verifyRepoWriteBaseRevision (baseRevision : string) : M () :=
  currentRevision ← recode CodeInternal CurrentRevision;
  if decide (currentRevision ≠ baseRevision)
  then fail (NewError CodeFailedPrecondition "base_revision does not match current HEAD") else mret ().

Definition discover : M (list Service) :=
  t ← tree; lift (with_code CodeInternal (DiscoverServices (cc_RepoDir cfg) (rt_entries t) availableNodeIDs)).

Definition pathHitsServiceDir (targetPath serviceDir : string) : bool :=
  bool_decide (targetPath = serviceDir) || HasPrefix targetPath (serviceDir +:+ "/").
Definition check_service_unlocked (cleanPath : string) (_ : ()) (service : Service) : M () :=
  dir ← lift (with_code CodeInternal (Rel (cc_RepoDir cfg) (svc_Directory service)));
  if negb (pathHitsServiceDir cleanPath (Clean dir)) then mret ()
  else
    active ← store_read (StoreFailed CodeInternal) (λ db, Ok (hasActiveServiceTask (svc_Name service) db));
    if (active : bool) then fail (NewError CodeFailedPrecondition "service has an active task") else mret ().
Definition ensureRepoPathsUnlocked (relativePaths : list string) : M () :=
  services ← discover;
  M_each (λ _ relativePath, M_each (check_service_unlocked (Clean relativePath)) () services) () relativePaths.
Definition verifyRepoWriteAllowed (relativePaths : list string) : M () :=
  _ ← ensureCleanWorktree; ensureRepoPathsUnlocked relativePaths.

Definition prepareRepoWritePaths (baseRevision : string) (relativePaths : list string) : M RepoSyncState :=
  _ ← syncRepoBeforeWrite;
  _ ← verifyRepoWriteBaseRevision baseRevision;
  _ ← verifyRepoWriteAllowed relativePaths;
  repoSyncState.

Definition runRepoWrite (baseRevision : string) (relativePaths : list string)
    (run : RepoSyncState → M repoWriteResult) : M repoWriteResult :=
  n ← yield_;
  if negb (env_io n) then fail (NewError CodeCanceled "context canceled")
  else baseSyncState ← prepareRepoWritePaths baseRevision relativePaths; run baseSyncState.

(** ** After the commit *)
Definition refreshDeclaredServices : M () :=
  services ← discover;
  t ← now;
  store_write (StoreFailed CodeInternal)
    (λ db, Ok (SyncDeclaredServices t ((λ s, (svc_Name s, svc_TargetNodes s)) <$> services) db)).

Definition finalizeRepoGitState (commitID : string) (baseSyncState : RepoSyncState) : M repoWriteResult :=
  let pulledAt := rs_LastSuccessfulPullAt baseSyncState in
  if negb hasConfiguredRemote then mret (MkRepoWriteResult commitID RepoSyncStatusLocalOnly "" pulledAt)
  else if local_first then
    _ ← persistRepoSyncState (MkRepoSyncState RepoSyncStatusPendingSync (rs_LastSyncError baseSyncState) pulledAt);
    mret (MkRepoWriteResult commitID RepoSyncStatusPendingSync "" pulledAt)
  else
    branch ← recode CodeInternal configuredRemoteBranch;
    pushed ← attempt (PushCurrentBranch remote_url branch configuredGitAuthUsername configuredGitAuthToken);
    match pushed with
    | Err e =>
        _ ← persistRepoSyncState (MkRepoSyncState RepoSyncStatusPushFailed (error_text e) pulledAt);
        mret (MkRepoWriteResult commitID RepoSyncStatusPushFailed (error_text e) pulledAt)
    | Ok _ =>
        _ ← persistRepoSyncState (MkRepoSyncState RepoSyncStatusSynced "" pulledAt);
        mret (MkRepoWriteResult commitID RepoSyncStatusSynced "" pulledAt)
    end.
Definition finalizeRepoWrite (commitID : string) (baseSyncState : RepoSyncState) : M repoWriteResult :=
  result ← finalizeRepoGitState commitID baseSyncState;
  _ ← refreshDeclaredServices;
  mret result.

(** ** The transactions *)
(** Run the commit; when it fails, undo and fail with its error. *)
Definition committed_or {A} (commit : M A) (undo : M ()) : M A :=
  r ← attempt commit;
  match r with
  | Ok a => mret a
  | Err e => _ ← attempt undo; fail e
  end.
Definition commit_changed (unchanged : string) (commit : M (option string)) : M string :=
  commitID ← recode CodeInternal commit;
  match commitID with
  | Some commitID => mret commitID
  | None => fail (NewError CodeFailedPrecondition unchanged)
  end.

(** [os.Remove] of the file just written. *)
Definition remove_file (path : string) : M () :=
  files_step mapRepoMutationError (λ fs, Ok (delete (components path) fs, ())).
Definition WriteFile_step (path content : string) : M string :=
  files_step write_error (λ fs, WriteFile fs path content).

Definition updateRepoFileTransaction (relativePath content commitMessage : string)
    (baseSyncState : RepoSyncState) : M repoWriteResult :=
  match storedRepoFileContent relativePath content with
  | Err errSecretsNotConfigured => fail (NewError CodeFailedPrecondition "controller secrets are not configured")
  | Err errInvalidEncryptedPath => fail (NewError CodeInvalidArgument ".enc is reserved for encrypted files")
  | Err EncryptFailed => fail (NewError CodeInternal "encrypt repo file")
  | Ok storedContent =>
      previous ← files_read (λ fs, ReadFile fs relativePath);
      match previous with
      | Ok _ | Err ErrRepoPathNotFound =>
          writtenPath ← WriteFile_step relativePath storedContent;
          commitID ← committed_or
            (commit_changed "repo file content did not change"
               (CommitPath writtenPath commitMessage author_name author_email))
            (match previous with
             | Ok file => _ ← WriteFile_step writtenPath (fc_Content file); mret ()
             | Err _ => remove_file writtenPath
             end);
          finalizeRepoWrite commitID baseSyncState
      | Err e => fail (read_error e)
      end
  end.

Definition capture (relativePath : string) : M PathSnapshot :=
  files_step mapRepoMutationError (λ fs, result_bind (CapturePath fs relativePath) (λ s, Ok (fs, s))).
Definition restore (snapshot : PathSnapshot) : M () :=
  files_step mapRepoMutationError (λ fs, result_bind (RestorePath fs snapshot) (λ fs, Ok (fs, ()))).

Definition defaultRepoCommitMessage (action relativePath : string) : string := action +:+ " " +:+ relativePath.
Definition commitRepoPaths (relativePaths : list string) (commitMessage : string) : M string :=
  commit_changed "repo path did not change" (CommitPaths relativePaths commitMessage author_name author_email).

Definition createRepoDirectoryTransaction (relativePath commitMessage : string)
    (baseSyncState : RepoSyncState) : M repoWriteResult :=
  snapshot ← capture relativePath;
  createdPath ← files_step mapRepoMutationError (λ fs, CreateDirectory fs relativePath);
  let message := if decide (commitMessage = "") then defaultRepoCommitMessage "add" createdPath else commitMessage in
  commitID ← committed_or (commitRepoPaths [createdPath] message) (restore snapshot);
  finalizeRepoWrite commitID baseSyncState.

Definition moveRepoPathTransaction (sourcePath destinationPath commitMessage : string)
    (baseSyncState : RepoSyncState) : M repoWriteResult :=
  sourceSnapshot ← capture sourcePath;
  destinationSnapshot ← capture destinationPath;
  moved ← files_step mapRepoMutationError (λ fs, MovePath fs sourcePath destinationPath);
  let message := if decide (commitMessage = "")
                 then "move " +:+ moved.1 +:+ " to " +:+ moved.2 else commitMessage in
  commitID ← committed_or (commitRepoPaths [moved.1; moved.2] message)
               (_ ← attempt (restore destinationSnapshot); restore sourceSnapshot);
  finalizeRepoWrite commitID baseSyncState.

Definition deleteRepoPathTransaction (relativePath commitMessage : string)
    (baseSyncState : RepoSyncState) : M repoWriteResult :=
  snapshot ← capture relativePath;
  deletedPath ← files_step mapRepoMutationError (λ fs, DeletePath fs relativePath);
  let message := if decide (commitMessage = "") then defaultRepoCommitMessage "remove" deletedPath else commitMessage in
  commitID ← committed_or (commitRepoPaths [deletedPath] message) (restore snapshot);
  finalizeRepoWrite commitID baseSyncState.

(** ** The handlers *)
Definition invalid {A} (message : string) : M A := fail (NewError CodeInvalidArgument message).
Definition normalized_or_invalid (path : string) : M string :=
  match NormalizePath path with
  | Ok path => if decide (path = "") then invalid "repo path is invalid" else mret path
  | Err _ => invalid "repo path is invalid"
  end.

Definition UpdateRepoFile (path content baseRevision commitMessage : string) : M repoWriteResult :=
  if decide (path = "") then invalid "path is required"
  else if decide (baseRevision = "") then invalid "base_revision is required"
  else
    path ← normalized_or_invalid path;
    runRepoWrite baseRevision [path] (updateRepoFileTransaction path content commitMessage).

Definition CreateRepoDirectory (path baseRevision commitMessage : string) : M repoWriteResult :=
  if decide (path = "") then invalid "path is required"
  else if decide (baseRevision = "") then invalid "base_revision is required"
  else
    path ← normalized_or_invalid path;
    if IsEncryptedFilePath path || HasEncryptedParent path
    then invalid "directories must not use the .enc suffix"
    else runRepoWrite baseRevision [path] (createRepoDirectoryTransaction path commitMessage).

Definition MoveRepoPath (sourcePath destinationPath baseRevision commitMessage : string) : M repoWriteResult :=
  if decide (sourcePath = "" ∨ destinationPath = "") then invalid "source_path and destination_path are required"
  else if decide (baseRevision = "") then invalid "base_revision is required"
  else
    sourcePath ← normalized_or_invalid sourcePath;
    destinationPath ← normalized_or_invalid destinationPath;
    if HasEncryptedParent sourcePath || HasEncryptedParent destinationPath
    then invalid ".enc is reserved for encrypted files"
    else if decide (IsEncryptedFilePath sourcePath ≠ IsEncryptedFilePath destinationPath)
    then invalid "moves must not cross the .enc storage boundary"
    else if IsEncryptedFilePath sourcePath &&
            (negb (IsValidEncryptedFilePath sourcePath) || negb (IsValidEncryptedFilePath destinationPath))
    then invalid ".enc is reserved for encrypted files"
    else runRepoWrite baseRevision [sourcePath; destinationPath]
           (moveRepoPathTransaction sourcePath destinationPath commitMessage).

Definition DeleteRepoPath (path baseRevision commitMessage : string) : M repoWriteResult :=
  if decide (path = "") then invalid "path is required"
  else if decide (baseRevision = "") then invalid "base_revision is required"
  else runRepoWrite baseRevision [path] (deleteRepoPathTransaction path commitMessage).

(** ** Synchronisation (repo_sync.go): between its locked sections others
    write to the repository. *)
Definition applyFetchedRevision (revision : string) : M (string * string) :=
  n ← yield_;
  if negb (env_io n) then fail (NewError CodeUnknown "context canceled")
  else
    _ ← ensureCleanWorktree;
    previousRevision ← CurrentRevision;
    _ ← recode CodeFailedPrecondition (FastForwardRevision revision);
    pulledRevision ← CurrentRevision;
    _ ← refreshDeclaredServices;
    mret (previousRevision, pulledRevision).

Definition recordRepoSyncFailure {A} (status : string) (pulledAt : option Z) (syncErr : ConnectError) : M A :=
  state ← repoSyncState;
  _ ← persistRepoSyncState (MkRepoSyncState status (error_text syncErr)
        (match pulledAt with Some t => Some t | None => rs_LastSuccessfulPullAt state end));
  fail syncErr.

Definition syncLocalFirstRepo : M (string * string) :=
  n ← yield_;
  if negb (env_io n) then fail (NewError CodeUnknown "context canceled")
  else
    branch ← configuredRemoteBranch;
    fetched ← attempt (FetchRevision remote_url branch configuredGitAuthUsername configuredGitAuthToken);
    match fetched with
    | Err e => recordRepoSyncFailure RepoSyncStatusPullFailed None e
    | Ok fetchedRevision =>
        t ← now;
        let pulledAt := Some (Time.rfc3339 t) in
        applied ← attempt (applyFetchedRevision fetchedRevision);
        match applied with
        | Err e => recordRepoSyncFailure RepoSyncStatusPullFailed None e
        | Ok (previousRevision, pulledRevision) =>
            pushed ← attempt (PushRevision remote_url branch pulledRevision configuredGitAuthUsername
                                configuredGitAuthToken);
            match pushed with
            | Err e => recordRepoSyncFailure RepoSyncStatusPushFailed pulledAt e
            | Ok _ =>
                currentRevision ← CurrentRevision;
                _ ← persistRepoSyncState (MkRepoSyncState
                      (if decide (currentRevision ≠ pulledRevision) then RepoSyncStatusPendingSync
                       else RepoSyncStatusSynced) "" pulledAt);
                mret (previousRevision, pulledRevision)
            end
        end
    end.

Record SyncRepoResponse := MkSyncRepoResponse {
  sr_HeadRevision : string; sr_Branch : string; sr_State : RepoSyncState;
}.
Definition SyncRepo : M SyncRepoResponse :=
  if negb hasConfiguredRemote then fail (NewError CodeFailedPrecondition "repo remote sync is not configured")
  else
    _ ← (if local_first then _ ← syncLocalFirstRepo; mret () else _ ← syncRepoLocked; mret ());
    _ ← refreshDeclaredServices;
    headRevision ← recode CodeInternal CurrentRevision;
    branch ← recode CodeInternal CurrentBranch;
    syncState ← repoSyncState;
    mret (MkSyncRepoResponse headRevision branch syncState).
End writing.
#[export] Hint Resolve traceless_files : world.
