(* ===== verification/ImageReports.v ===== *)
(** * The reports of the agents on backups and images
    (src/internal/app/controller/agent_report.go, notifications.go)

    An agent reports on the services of its node while it holds the execution
    of a task for them.  The update of an image followed by digest is decided
    by the controller once every node of a check has reported. *)
From S2P Require Export AgentApi RepoWrite Notifications.

(** distribution/reference, the canonical names of images. *)
Class ImageReferences := {
  named_ref : Type;
  ParseNormalizedNamed : string → option named_ref;
  TagNameOnly : named_ref → named_ref;
  ref_tag : named_ref → option string;
  TrimNamed : named_ref → named_ref;
  FamiliarName : named_ref → string;
}.

(** [json.Marshal] of a list of strings. *)
Class StringsJSON := marshal_strings : list string → string.

(** ** Pure parts *)
Section references.
Context `{ImageReferences}.

Definition normalizedImageNameTag (value : string) : option (string * string) :=
  named ← ParseNormalizedNamed value;
  let tagged := TagNameOnly named in
  tag ← ref_tag tagged;
  Some (FamiliarName (TrimNamed tagged), tag).
Definition imageReferencesMatch (observed configured currentTag : string) : bool :=
  match normalizedImageNameTag observed, normalizedImageNameTag configured with
  | Some (observedName, observedTag), Some (configuredName, _) =>
      bool_decide (observedName = configuredName) && bool_decide (observedTag = currentTag)
  | _, _ => false
  end.

Definition in_window (checkedAfter checkedBefore t : Time.time) : bool :=
  negb (bool_decide (t < checkedAfter)%Z) && negb (bool_decide (checkedBefore < t)%Z).

(** The state of the image on a node: the first one that matches. *)
Definition matched_state (check : ServiceImageUpdateCheck) (states : list ServiceImageState)
    (checkedAfter checkedBefore : Time.time) (nodeID : string) : option ServiceImageState :=
  head (filter (λ state, bool_decide (ims_NodeID state = nodeID) &&
                         in_window checkedAfter checkedBefore (ims_CheckedAt state) &&
                         imageReferencesMatch (ims_ImageRef state) (imc_ImageRef check) (imc_CurrentTag check) = true)
          states).

Definition digest_node (check : ServiceImageUpdateCheck) (states : list ServiceImageState)
    (checkedAfter checkedBefore : Time.time) (st : gset string * bool) (nodeID : string)
    : result string (gset string * bool) :=
  match matched_state check states checkedAfter checkedBefore nodeID with
  | None => Err "local digest is unavailable on node"
  | Some state =>
      if decide (ims_CheckStatus state ≠ ImageCheckStatusOK ∨ ims_LocalDigest state = "")
      then Err "local digest is unavailable on node"
      else Ok ({[ims_LocalDigest state]} ∪ st.1,
               st.2 || bool_decide (ims_LocalDigest state ≠ imc_CandidateDigest check))
  end.

(** The current digest, whether an update is available, and the error. *)
Definition serviceDigestUpdateState (check : ServiceImageUpdateCheck) (states : list ServiceImageState)
    (nodeIDs : list string) (checkedAfter checkedBefore : Time.time) : string * bool * string :=
  if decide (imc_CandidateDigest check = "") then ("", false, "remote digest is unavailable")
  else match for_each (digest_node check states checkedAfter checkedBefore) (∅, false) nodeIDs with
       | Err e => ("", false, e)
       | Ok (localDigests, available) =>
           (match elements localDigests with [digest] => digest | _ => "" end, available, "")
       end.

(** ** The reconciliation of the checks by digest: [checksByImage] points into
    the list of the checks, the last one of each image. *)
Definition checks_by_image (checks : list ServiceImageUpdateCheck) : gmap string nat :=
  foldl (λ m ic, <[imc_ImageName ic.2 := ic.1]> m) ∅ (imap pair checks).

Definition reconciled (states : list ServiceImageState) (nodeIDs : list string)
    (checkedAfter checkedBefore : Time.time) (check : ServiceImageUpdateCheck) : ServiceImageUpdateCheck :=
  let '(currentDigest, available, errorSummary) :=
    serviceDigestUpdateState check states nodeIDs checkedAfter checkedBefore in
  imc_set_digest currentDigest available
    (if decide (errorSummary ≠ "") then ImageCheckStatusError else ImageCheckStatusOK) errorSummary check.

(** [Err] is a check that is missing or not of this batch. *)
Definition reconcile_image (states : list ServiceImageState) (nodeIDs : list string)
    (checkedAfter checkedBefore : Time.time) (byImage : gmap string nat)
    (st : list ServiceImageUpdateCheck * bool) (imageName : string)
    : result () (list ServiceImageUpdateCheck * bool) :=
  match byImage !! imageName ≫= λ i, pair i <$> st.1 !! i with
  | None => Err ()
  | Some (i, check) =>
      if negb (in_window checkedAfter checkedBefore (imc_CheckedAt check)) then Err ()
      else if decide (imc_PolicyType check ≠ "digest" ∨ imc_CheckStatus check = ImageCheckStatusError) then Ok st
      else Ok (<[i := reconciled states nodeIDs checkedAfter checkedBefore check]> st.1, true)
  end.
End references.


(** ** The handlers *)
(** An image as an agent reports it. *)
Record AgentImageState := MkAgentImageState {
  ai_ComposeService : string;
  ai_ImageRef : string;
  ai_LocalDigest : string;
  ai_RemoteDigest : string;
  ai_LocalDigestObserved : bool;
  ai_RemoteDigestObserved : bool;
  ai_CheckStatus : string;
  ai_ErrorSummary : string;
}.
Record AgentImageCheck := MkAgentImageCheck {
  ac_ImageName : string;
  ac_ImageRef : string;
  ac_PolicyType : string;
  ac_CurrentValue : string;
  ac_CurrentTag : string;
  ac_CurrentDigest : string;
  ac_CandidateTag : string;
  ac_CandidateDigest : string;
  ac_CandidateTags : list string;
  ac_UpdateAvailable : bool;
  ac_CheckStatus : string;
  ac_ErrorSummary : string;
}.

Section handlers.
Context `{DnsState} `{GitState} `{!Environment} `{!GitCommand}.
Context `{Disk} `{MetaDecoder} `{Cron} `{Libraries} `{SQLite} `{ParamsJSON} `{ImageReferences} `{StringsJSON}.
Context (cfg : ControllerConfig) (availableNodeIDs : gset string).

(** A check of a handler on the database. *)
Definition db_check {A} (f : DB → result ConnectError A) : M A :=
  _ ← yield_; db ← get w_db; lift (f db).
Definition invalid_argument {A} (message : string) : M A := fail (NewError CodeInvalidArgument message).

(** The agent reports on its node while it holds the task, a task of the
    service. *)
Definition report_of_task (ctx : Context_) (serviceName nodeID taskID executionID : string) : M TaskRecord :=
  if decide (serviceName = "") then invalid_argument "service_name is required"
  else if decide (nodeID = "") then invalid_argument "node_id is required"
  else if decide (BearerSubject ctx ≠ Some nodeID)
  then fail (NewError CodeUnauthenticated "node_id does not match bearer token")
  else if decide (taskID = "" ∨ executionID = "")
  then invalid_argument "task_id and execution_id are required"
  else
    _ ← db_check (ensureCurrentTaskExecution ctx taskID executionID);
    detail ← store_read (StoreFailed CodeInternal) (GetTask taskID);
    if decide (rec_ServiceName (td_Record detail) ≠ serviceName)
    then invalid_argument "service_name does not match task"
    else mret (td_Record detail).

Definition upsert_error (e : StoreError) : ConnectError :=
  match e with ErrServiceNotFound => StoreFailed CodeNotFound e | _ => StoreFailed CodeInternal e end.

Definition reported_state (serviceName nodeID : string) (reportedAt : Time.time) (states : list ServiceImageState)
    (image : AgentImageState) : result ConnectError (list ServiceImageState) :=
  if decide (ai_ComposeService image = "") then Err (NewError CodeInvalidArgument "compose_service is required")
  else if decide (ai_ImageRef image = "") then Err (NewError CodeInvalidArgument "image_ref is required")
  else
    let status := status_or_unknown (ai_CheckStatus image) in
    if negb (IsValidImageCheckStatus status) then Err (NewError CodeInvalidArgument "invalid check_status")
    else Ok (states ++ [MkServiceImageState serviceName nodeID (ai_ComposeService image) (ai_ImageRef image)
                          (ai_LocalDigest image) (ai_RemoteDigest image) (ai_LocalDigestObserved image)
                          (ai_RemoteDigestObserved image) false status (ai_ErrorSummary image)
                          reportedAt reportedAt]).
Definition ReportServiceImageStates (ctx : Context_) (serviceName nodeID taskID executionID : string)
    (images : list AgentImageState) : M () :=
  _ ← report_of_task ctx serviceName nodeID taskID executionID;
  reportedAt ← now;
  states ← lift (for_each (reported_state serviceName nodeID reportedAt) [] images);
  t ← now;
  images_write upsert_error (UpsertServiceImageStates t states).

(** A check by digest that succeeded on the node waits for the other nodes:
    until then it repeats what was known of the candidate. *)
Definition pending_digest (previousByImage : gmap string ServiceImageUpdateCheck) (c : ServiceImageUpdateCheck)
    : ServiceImageUpdateCheck :=
  if decide (imc_PolicyType c = "digest" ∧ imc_CheckStatus c = ImageCheckStatusOK) then
    imc_set_digest ""
      (match previousByImage !! imc_ImageName c with
       | None => false
       | Some p => imc_UpdateAvailable p && bool_decide (imc_CandidateTag p = imc_CandidateTag c) &&
                   bool_decide (imc_CandidateDigest p = imc_CandidateDigest c)
       end) ImageCheckStatusUnknown (imc_ErrorSummary c) c
  else c.
Definition reported_check (serviceName nodeID : string) (reportedAt : Time.time)
    (previousByImage : gmap string ServiceImageUpdateCheck) (checks : list ServiceImageUpdateCheck)
    (check : AgentImageCheck) : result ConnectError (list ServiceImageUpdateCheck) :=
  if decide (ac_ImageName check = "") then Err (NewError CodeInvalidArgument "image_name is required")
  else if decide (ac_ImageRef check = "") then Err (NewError CodeInvalidArgument "image_ref is required")
  else
    let status := status_or_unknown (ac_CheckStatus check) in
    if negb (IsValidImageCheckStatus status) then Err (NewError CodeInvalidArgument "invalid check_status")
    else Ok (checks ++ [pending_digest previousByImage
           (MkServiceImageUpdateCheck serviceName nodeID (ac_ImageName check) (ac_ImageRef check)
              (ac_PolicyType check) (ac_CurrentValue check) (ac_CurrentTag check) (ac_CurrentDigest check)
              (ac_CandidateTag check) (ac_CandidateDigest check)
              (if decide (ac_CandidateTags check = []) then "" else marshal_strings (ac_CandidateTags check))
              (ac_UpdateAvailable check) status (ac_ErrorSummary check) reportedAt reportedAt)]).

(** Without a section [update] the handler panics when it reads the names of
    the images: the request ends there. *)
Definition declared_images (service : Service) : gmap string ImageUpdateConfig :=
  match sm_Update (svc_Meta service) with Some update => upd_Images update | None => ∅ end.

Definition ReportServiceImageUpdateChecks (ctx : Context_) (serviceName nodeID taskID executionID : string)
    (reported : list AgentImageCheck) : M () :=
  record ← report_of_task ctx serviceName nodeID taskID executionID;
  if decide (rec_Type record ≠ TypeImageCheck) then invalid_argument "task is not an image check"
  else
    params ← lift (with_code CodeInternal (taskParams (rec_ParamsJSON record)));
    service ← recode CodeFailedPrecondition
                (find_service_at cfg availableNodeIDs (rec_RepoRevision record) (tp_ServiceDir params));
    if decide (svc_Name service ≠ serviceName) then invalid_argument "service_name does not match task revision"
    else if decide (head (svc_TargetNodes service) ≠ Some nodeID)
    then fail (NewError CodeFailedPrecondition "image update discovery must run on the first target node")
    else
      reportedAt ← now;
      previousChecks ← images_read (StoreFailed CodeInternal) (LatestServiceImageUpdateChecks serviceName nodeID);
      checks ← lift (for_each (reported_check serviceName nodeID reportedAt (by_image previousChecks)) [] reported);
      t ← now;
      _ ← images_write upsert_error (UpsertServiceImageUpdateChecks t checks);
      if decide (sm_Update (svc_Meta service) = None)
      then fail (NewError CodeUnknown "nil pointer dereference")
      else
        images_write (StoreFailed CodeInternal) (λ _, DeleteOtherServiceImageUpdateChecks serviceName nodeID
          (string_sort (map_to_list (declared_images service)).*1)).

Definition first_node (service : Service) : string := default "" (head (svc_TargetNodes service)).
Definition latest_checks (service : Service) : M (list ServiceImageUpdateCheck) :=
  images_read plain (LatestServiceImageUpdateChecks (svc_Name service) (first_node service)).

Definition reconcileServiceDigestChecks (service : Service) (imageNames : list string)
    (checkedAfter checkedBefore : Time.time) : M bool :=
  checks ← latest_checks service;
  states ← images_read plain (ListServiceImageStates (svc_Name service));
  match for_each (reconcile_image states (svc_TargetNodes service) checkedAfter checkedBefore (checks_by_image checks))
          (checks, false) imageNames with
  | Err _ => mret false
  | Ok (_, false) => mret true
  | Ok (checks, true) =>
      t ← now;
      _ ← images_write plain (UpsertServiceImageUpdateChecks t checks);
      mret true
  end.

(** ** Backups: the times are seconds and nanoseconds of the messages, a
    message that is not valid is [None]. *)
Definition backup_texts (format : Time.time → string) (startedAt finishedAt : option Time.time)
    : result string (string * string) :=
  match startedAt, finishedAt with
  | Some started, Some finished =>
      if decide (finished < started)%Z then Err "finished_at must not be before started_at"
      else Ok (format started, format finished)
  | _, _ => Err "started_at and finished_at are required"
  end.

Record BackupReport := MkBackupReport {
  br_TaskId : string;
  br_ExecutionId : string;
  br_ServiceName : string;
  br_DataName : string;
  br_Status : string;
  br_ArtifactRef : string;
  br_ErrorSummary : string;
  br_StartedAt : option Time.time;
  br_FinishedAt : option Time.time;
}.
Definition backup_of_report (req : BackupReport) (record : TaskRecord) (startedAt finishedAt : string) : BackupDetail :=
  MkBackupDetail (br_TaskId req +:+ ":" +:+ br_DataName req) (br_TaskId req) (rec_ServiceName record)
    (rec_NodeID record) (br_DataName req) (br_Status req) startedAt finishedAt (br_ArtifactRef req)
    (br_ErrorSummary req).
Definition ReportBackupResult (format : Time.time → string) (ctx : Context_) (req : BackupReport) : M () :=
  if decide (br_TaskId req = "") then invalid_argument "task_id is required"
  else if decide (br_DataName req = "") then invalid_argument "data_name is required"
  else if decide (br_Status req = "") then invalid_argument "status is required"
  else
    _ ← db_check (ensureTaskNodeMatch ctx (br_TaskId req));
    _ ← db_check (ensureCurrentTaskExecution ctx (br_TaskId req) (br_ExecutionId req));
    detail ← store_read (StoreFailed CodeInternal) (GetTask (br_TaskId req));
    let record := td_Record detail in
    if decide (rec_Type record ≠ TypeBackup)
    then fail (NewError CodeFailedPrecondition "task is not a backup task")
    else
      params ← lift (with_code CodeInternal (taskParams (rec_ParamsJSON record)));
      if decide (br_DataName req ∉ tp_DataNames params)
      then invalid_argument "data_name is not selected by the backup task"
      else if decide (br_ServiceName req ≠ "" ∧ br_ServiceName req ≠ rec_ServiceName record)
      then invalid_argument "service_name does not match task"
      else if decide (br_Status req ≠ StatusSucceeded ∧ br_Status req ≠ StatusFailed)
      then invalid_argument "backup status must be succeeded or failed"
      else if decide (br_Status req = StatusSucceeded ∧ br_ArtifactRef req = "")
      then invalid_argument "artifact_ref is required for a successful backup"
      else
        times ← lift (with_code CodeInvalidArgument (backup_texts format (br_StartedAt req) (br_FinishedAt req)));
        created ← store (λ e, match e with
                              | ErrBackupResultConflict => StoreFailed CodeAlreadyExists e
                              | _ => StoreFailed CodeInternal e
                              end) (InsertBackupResult (backup_of_report req record times.1 times.2));
        if (created : bool) then
          match backupEventTypeForStatus (br_Status req) with
          | Some event => emit (EvNotified event)
          | None => mret ()
          end
        else mret ().
End handlers.
