(* ===== verification/RepoWriteTheorems.v ===== *)
(** * Writes to the repository are all or nothing

    While the repository lock is held, a transaction of repo_command.go either
    makes its commit or leaves every file as it was. *)
From S2P Require Import Config.
From S2P Require Export RepoWrite RepoFilesTheorems.

(** ** Undoing on the file system *)
Definition same_files (fs fs' : FS) : Prop :=
  ∀ q node, is_dir node = false → fs' !! q = Some node ↔ fs !! q = Some node.

(** Changes at and below a path. *)
Definition changed_at (fs : FS) (names : list string) (fs' : FS) : Prop :=
  wf_fs fs' ∧ open_way fs' names ∧
  ∀ q node, is_dir node = false → ¬ names `prefix_of` q → fs' !! q = Some node ↔ fs !! q = Some node.

Section undo.
Context `{Disk} (fs : FS) (Hwf : wf_fs fs) (names : list string).
Context (Hne : names ≠ []) (Hf : Forall normal names) (Hreq : normal_request (path_of names)).

(** What a capture of the path found. *)
Lemma CapturePath_Ok s :
  CapturePath fs (path_of names) = Ok s →
  open_way fs names ∧ is_protected (path_of names) = false ∧ ps_RelativePath s = path_of names ∧
  ps_data s = (match fs !! names with Some _ => Some (subtree fs names) | None => None end).
Proof.
  unfold CapturePath. intros Hok. apply result_bind_Ok in Hok as ([abs p] & Hres & Hok).
  pose proof (resolve_normal fs names abs p Hne Hf Hreq Hres) as ->. case_decide as Hnn; [done|].
  destruct (is_protected (path_of names)) eqn:Hprot; [done|]. apply result_bind_Ok in Hok as ([] & Hlinks & Hok).
  destruct (resolved_plain fs Hwf _ _ _ Hres Hnn Hlinks) as (Ha & Hfa & Heq & Hcomp & Hno).
  rewrite components_path_of in Hcomp by done. subst abs.
  assert (Hopen : open_way fs names).
  { apply Lstat_opens; [done|done|]. intros Hst. by rewrite Hst in Hok. }
  rewrite Lstat_open in Hok by done. destruct (fs !! names) as [node|].
  - destruct (has_link _); [done|]. by injection Hok as <-.
  - by injection Hok as <-.
Qed.

Lemma RemoveAll_open fs1 : open_way fs1 names → open_way (RemoveAll fs1 names) names.
Proof.
  intros Ho. split; [|intros node; by rewrite lookup_RemoveAll, decide_True].
  intros q r Hq Hr. rewrite lookup_RemoveAll, decide_False; [by apply (proj1 Ho q r)|].
  intros Hp%prefix_length. rewrite <-Hq, length_app in Hp. destruct r; [done|]. cbn in Hp. lia.
Qed.

Lemma RestorePath_open fs1 s :
  wf_fs fs1 → open_way fs1 names → is_protected (path_of names) = false → ps_RelativePath s = path_of names →
  ∃ fs2, RestorePath fs1 s = Ok fs2 ∧ (ps_data s = None → fs2 = RemoveAll fs1 names) ∧
    ∀ q node, is_dir node = false → fs2 !! q = Some node ↔
      match strip_prefix names q with
      | Some r => ps_data s ≫= (.!! r) = Some node
      | None => fs1 !! q = Some node
      end.
Proof.
  intros Hwf1 Ho Hprot Hs. unfold RestorePath. rewrite Hs, resolve_open by done. cbn [result_bind].
  rewrite decide_False, Hprot, rejectSymlinkPath_open by (done || by destruct Hreq). cbn [result_bind].
  assert (Hout : ∀ q, RemoveAll fs1 names !! q = match strip_prefix names q with Some _ => None | None => fs1 !! q end).
  { intros q. rewrite lookup_RemoveAll. destruct (strip_prefix names q) as [r|] eqn:Hr.
    - apply strip_prefix_Some in Hr as ->. by rewrite decide_True by (by exists r).
    - apply strip_prefix_None in Hr. by rewrite decide_False. }
  destruct (ps_data s) as [data|].
  - destruct (snoc_inv names) as [->|(n & x & Hn)]; [done|].
    destruct (MkdirAll_open (RemoveAll fs1 names) n x) as [fs3 Hmk]; [rewrite <-Hn; by apply RemoveAll_open|].
    assert (parent_of names = n) as -> by (by rewrite Hn, parent_of_snoc). rewrite Hmk. cbn [result_bind]. eexists. split; [done|]. split; [done|].
    intros q node Hd. apply MkdirAll_Ok in Hmk. rewrite lookup_graft.
    pose proof (with_dirs_files _ _ _ q node Hmk Hd) as Hfile. rewrite Hout in Hfile.
    destruct (strip_prefix names q) as [r|]; [|done]. cbn. destruct (data !! r); [done|]. rewrite Hfile. done.
  - exists (RemoveAll fs1 names). split; [done|]. split; [done|]. intros q node Hd. rewrite Hout.
    by destruct (strip_prefix names q).
Qed.

(** Restoring a path after changes at and below it. *)
Lemma restore_undoes fs1 s :
  CapturePath fs (path_of names) = Ok s → changed_at fs names fs1 →
  ∃ fs2, RestorePath fs1 s = Ok fs2 ∧ same_files fs fs2.
Proof.
  intros Hcap (Hwf1 & Ho & Hout). apply CapturePath_Ok in Hcap as (Ho0 & Hprot & Hs & Hdata).
  destruct (RestorePath_open fs1 s Hwf1 Ho Hprot Hs) as (fs2 & Hr & _ & Hl). exists fs2. split; [done|].
  intros q node Hd. rewrite Hl by done. destruct (strip_prefix names q) as [r|] eqn:Hq.
  - apply strip_prefix_Some in Hq as ->. rewrite Hdata. destruct (fs !! names) as [n0|] eqn:Hn; cbn.
    + by rewrite lookup_subtree.
    + split; [done|]. destruct r as [|x r]; [rewrite (right_id_L [] (++)); congruence|].
      by rewrite (wf_below fs Hwf names) by (by rewrite ?Hn).
  - apply strip_prefix_None in Hq. by apply Hout.
Qed.
End undo.

(** ** Changes that can be undone *)
Section undone.
Context `{Disk} (fs : FS) (Hwf : wf_fs fs).

Lemma snoc_not_prefix {A} (q : list A) x : ¬ q ++ [x] `prefix_of` q.
Proof. intros Hp%prefix_length. rewrite length_app in Hp. cbn in Hp. lia. Qed.

(** The names an operation resolved are those of the request. *)
Lemma resolved_names names abs p :
  names ≠ [] → Forall normal names → normal_request (path_of names) → abs ≠ [] → Forall normal abs → p = path_of abs →
  resolveRepoPath fs (path_of names) = Ok (abs, p) → abs = names.
Proof.
  intros Hne Hf Hreq Ha Hfa -> Hres. apply resolve_normal in Hres; [|done..].
  by apply path_of_inj in Hres; [|done|done|by apply normals_no_sep..].
Qed.

Lemma CreateDirectory_changed names fs' p :
  names ≠ [] → Forall normal names → normal_request (path_of names) →
  CreateDirectory fs (path_of names) = Ok (fs', p) → changed_at fs names fs'.
Proof.
  intros Hne Hf Hreq (n & x & fs1 & Hfa & Hp & _ & Hres & _ & _ & _ & Hmk & -> & Hnone)%CreateDirectory_adds; [|done].
  assert (Hnx : n ++ [x] ≠ []) by (by destruct n).
  pose proof (resolved_names _ _ _ Hne Hf Hreq Hnx Hfa Hp Hres) as <-. destruct (Hmk) as [Hl _].
  assert (Hpre : ∀ q, q `prefix_of` n ++ [x] → <[(n ++ [x]) ++ [".gitkeep"] := FFile ""]> fs1 !! q = Some FDir).
  { intros q Hq. rewrite lookup_insert_ne by (intros <-; by apply snoc_not_prefix in Hq). by rewrite Hl, decide_True. }
  split; [|split].
  - eapply added_wf; [done|by apply gitkeep_normal|done|done|by rewrite gitkeep_free].
  - split; [intros q r Hq _; right; apply Hpre; by exists r|]. intros node. rewrite Hpre by done. by intros [= <-].
  - intros q node Hd Hq. rewrite lookup_insert_ne; [by eapply with_dirs_files|].
    intros <-. apply Hq. by apply prefix_app_r.
Qed.

Lemma DeletePath_changed names fs' p :
  names ≠ [] → Forall normal names → normal_request (path_of names) → open_way fs names →
  DeletePath fs (path_of names) = Ok (fs', p) → changed_at fs names fs'.
Proof.
  intros Hne Hf Hreq Ho (abs & node & Ha & Hfa & Hp & Hres & _ & ->)%DeletePath_removes; [|done].
  pose proof (resolved_names _ _ _ Hne Hf Hreq Ha Hfa Hp Hres) as <-.
  split; [by apply wf_RemoveAll|split; [by apply RemoveAll_open|]].
  intros q node' _ Hq. by rewrite lookup_RemoveAll, decide_False.
Qed.

(** A file written over another one can be written back. *)
Lemma lstat_from_content names c c' dir rest :
  fs !! names = Some (FFile c) →
  lstat_from (<[names := FFile c']> fs) dir rest = Err NotExist ↔ lstat_from fs dir rest = Err NotExist.
Proof.
  intros Hn. revert dir. induction rest as [|x rest IH]; intros dir; cbn [lstat_from].
  - destruct (decide (names = dir)) as [<-|Hne]; [by rewrite lookup_insert_eq, Hn|by rewrite lookup_insert_ne].
  - destruct (decide (names = dir)) as [<-|Hne]; [by rewrite lookup_insert_eq, Hn|rewrite lookup_insert_ne by done].
    destruct (fs !! dir) as [[| |target]|]; [apply IH|done| |done]. by apply (follow_content fs names c).
Qed.

Lemma rejectEncryptedFileConflict_content names c c' p :
  fs !! names = Some (FFile c) → rejectEncryptedFileConflict fs p = Ok () →
  rejectEncryptedFileConflict (<[names := FFile c']> fs) p = Ok ().
Proof.
  intros Hn. unfold rejectEncryptedFileConflict. destruct (_ && _); [done|].
  rewrite !for_each_unit. intros Hall. eapply Forall_impl; [exact Hall|]. intros conflict Hc%check_conflict_Ok.
  unfold check_conflict. case_decide; [done|]. destruct Hc as [?|Hc]; [done|].
  assert (lstat_joined (<[names := FFile c']> fs) conflict = Err NotExist) as ->; [|done].
  unfold lstat_joined in *. case_decide; [by apply (lstat_from_content names c)|].
  destruct (escapes _); [done|]. by apply (lstat_from_content names c).
Qed.

Lemma WriteFile_back n x c content fs1 :
  let names := n ++ [x] in
  Forall normal names → normal_request (path_of names) → no_links fs names → fs !! names = Some (FFile c) →
  is_protected (path_of names) = false → invalid_encrypted (path_of names) = false →
  rejectEncryptedFileConflict fs (path_of names) = Ok () → with_dirs fs n fs1 →
  ∃ fs2, WriteFile (<[names := FFile content]> fs1) (path_of names) c = Ok (fs2, path_of names) ∧ same_files fs fs2.
Proof.
  intros names Hf Hreq Hno Hfile Hprot Hinv Hrej Hmk.
  assert (Hne : names ≠ []) by (by destruct n).
  assert (fs1 = fs) as ->.
  { apply map_eq. intros q. destruct Hmk as [Hl _]. rewrite Hl. case_decide as Hq; [|done]. symmetry.
    destruct Hq as [r ->]. apply (wf_prefix fs Hwf q (r ++ [x]) (FFile c)); [by rewrite (assoc_L (++))|by destruct r]. }
  set (fs1 := <[names := FFile content]> fs).
  assert (Hopen : open_way fs1 names).
  { split.
    - intros q r Hq Hr. right. unfold fs1. rewrite lookup_insert_ne.
      + apply (wf_prefix fs Hwf q r (FFile c)); [by rewrite Hq|done].
      + intros <-. apply Hr. apply (f_equal length) in Hq. rewrite length_app in Hq. destruct r; [done|cbn in Hq; lia].
    - intros node. unfold fs1. rewrite lookup_insert_eq. by intros [= <-]. }
  assert (Hwf1 : wf_fs fs1) by (eapply added_wf; [done|done|done|done|by rewrite (Hfile : fs !! (n ++ [x]) = _)]).
  unfold WriteFile. rewrite resolve_open by done. cbn [result_bind].
  rewrite decide_False, Hprot by (by destruct Hreq). unfold invalid_encrypted in Hinv. rewrite Hinv.
  unfold fs1 at 1. rewrite (rejectEncryptedFileConflict_content names c) by done. cbn [result_bind].
  rewrite rejectSymlinkPath_open by done. cbn [result_bind]. unfold names at 1. rewrite parent_of_snoc.
  destruct (MkdirAll_open fs1 n x Hopen) as [fs2 Hmk2]. rewrite Hmk2. cbn [result_bind]. apply MkdirAll_Ok in Hmk2.
  unfold write_at, names. rewrite (added_below fs1 fs2 n x Hmk2). unfold fs1 at 1. rewrite lookup_insert_eq. cbn [result_bind].
  eexists. split; [done|]. intros q node Hd. destruct (decide (n ++ [x] = q)) as [<-|Hq].
  - rewrite lookup_insert_eq. by rewrite (Hfile : fs !! (n ++ [x]) = _).
  - rewrite lookup_insert_ne by done. rewrite (with_dirs_files fs1 n fs2) by done. unfold fs1. by rewrite lookup_insert_ne.
Qed.

(** A new file is taken away again. *)
Lemma WriteFile_removed n x content fs1 :
  with_dirs fs n fs1 → fs !! (n ++ [x]) = None → same_files fs (delete (n ++ [x]) (<[n ++ [x] := FFile content]> fs1)).
Proof.
  intros Hmk Hnone q node Hd. rewrite delete_insert_eq. destruct (decide (n ++ [x] = q)) as [<-|Hq].
  - rewrite lookup_delete_eq, Hnone. done.
  - rewrite lookup_delete_ne by done. by eapply with_dirs_files.
Qed.

(** A move is undone by taking the destination away and putting the source
    back. *)
Section move.
Context (s d : list string) (fs1 : FS) (info : FNode).
Context (Hd : d ≠ []) (Hfd : Forall normal d) (Hopen : open_way fs s).
Context (Hsrc : fs !! s = Some info) (Hfree : fs !! d = None) (Hapart : ¬ s `prefix_of` d).
Context (Hmk : with_dirs fs (parent_of d) fs1) (Hs : s ≠ []).

Lemma destination_not_above : ¬ d `prefix_of` s.
Proof.
  intros [r Hr]. destruct r as [|y r]; [rewrite (right_id_L [] (++)) in Hr; congruence|].
  rewrite Hr in Hsrc. by rewrite (wf_below fs Hwf d) in Hsrc by (by rewrite ?Hfree).
Qed.

Lemma moved_open : open_way (Rename fs1 s d) d.
Proof.
  destruct (dirs_above fs Hwf d fs1 Hd Hfd Hfree Hmk) as (Hwf1 & Hfree1 & _). split.
  - intros q r Hq Hr. rewrite lookup_Rename by done.
    assert (strip_prefix d q = None) as ->.
    { apply strip_prefix_None. intros Hp%prefix_length. rewrite <-Hq, length_app in Hp. destruct r; [done|cbn in Hp; lia]. }
    rewrite decide_False by (intros Hp; apply Hapart; etrans; [done|by exists r]).
    destruct Hmk as [Hl _]. rewrite Hl, decide_True; [by right|].
    destruct (snoc_inv r) as [->|(r' & y & ->)]; [done|]. exists r'.
    rewrite (assoc_L (++)) in Hq. by rewrite <-Hq, parent_of_snoc.
  - intros node. rewrite lookup_Rename by done. rewrite (proj2 (strip_prefix_Some d d [])) by (by rewrite (right_id_L [] (++))).
    rewrite (right_id_L [] (++)). destruct Hmk as [Hl _]. rewrite Hl. case_decide; [by intros [= <-]|].
    rewrite Hsrc. intros [= <-]. by apply (proj2 Hopen).
Qed.

Lemma moved_back : changed_at fs s (RemoveAll (Rename fs1 s d) d).
Proof.
  destruct (dirs_above fs Hwf d fs1 Hd Hfd Hfree Hmk) as (Hwf1 & Hfree1 & Hpar). pose proof destination_not_above as Hnot.
  assert (Hlook : ∀ q, RemoveAll (Rename fs1 s d) d !! q =
    if decide (d `prefix_of` q) then None else if decide (s `prefix_of` q) then None else fs1 !! q).
  { intros q. rewrite lookup_RemoveAll. case_decide as Hq; [done|]. rewrite lookup_Rename by done.
    by rewrite (proj2 (strip_prefix_None d q)). }
  split; [|split].
  - apply wf_RemoveAll; [|done]. by apply wf_Rename.
  - split.
    + intros q r Hq Hr. rewrite Hlook. case_decide; [by left|]. case_decide; [by left|]. right.
      destruct Hmk as [Hl _]. rewrite Hl. case_decide; [done|]. apply (wf_prefix fs Hwf q r info); [by rewrite Hq|done].
    + intros node. rewrite Hlook. case_decide; [done|]. by rewrite decide_True.
  - intros q node Hdir Hq. rewrite Hlook, (decide_False (P := s `prefix_of` q)) by done. case_decide as Hp; [|by eapply with_dirs_files].
    destruct Hp as [r ->]. split; [done|].
    destruct r as [|y r]; [by rewrite (right_id_L [] (++)), Hfree|]. by rewrite (wf_below fs Hwf d) by (by rewrite ?Hfree).
Qed.
End move.
End undone.

(** ** Programs that hold the lock *)
Section locked.
Context `{DnsState} `{GitState} `{!Environment} `{!GitCommand}.
Context `{Disk} `{MetaDecoder} `{Cron} `{Libraries} `{Secrets}.
Context (cfg : ControllerConfig) (availableNodeIDs : gset string).

(** The lock [repoMu]: nobody else touches the repository. *)
Definition repo_locked : Prop := ∀ n t, env_tree n t = t.
Definition files (w : World) : FS := rt_files (w_tree w).

(** The commit is in what the program did. *)
Definition committed (w w' : World) : Prop :=
  ∃ done paths, w_trace w' = w_trace w ++ done ∧ EvCommitted paths ∈ done.
Definition all_or_nothing {A} (w : World) (out : World * result ConnectError A) : Prop :=
  committed w out.1 ∨ same_files (files w) (files out.1) ∧ ∃ e, out.2 = Err e.

Lemma committed_grows w w1 w2 : committed w w1 → trace_grows w1 w2 → committed w w2.
Proof.
  intros (l & paths & Hl & Hin) [l' Hl']. exists (l ++ l'), paths. split; [by rewrite Hl', Hl, (assoc_L (++))|].
  apply elem_of_app. by left.
Qed.
Lemma committed_after w w1 w2 : trace_grows w w1 → committed w1 w2 → committed w w2.
Proof.
  intros [l Hl] (l' & paths & Hl' & Hin). exists (l ++ l'), paths. split; [by rewrite Hl', Hl, (assoc_L (++))|].
  apply elem_of_app. by right.
Qed.

Lemma grows_emit e : respects trace_grows (emit e).
Proof. intros w. by exists [e]. Qed.

(** Under the lock the files stay, but for a merge. *)
Lemma stay_yield : repo_locked → respects files_stay yield_.
Proof. intros Hlock w. unfold files_stay. cbn. by rewrite Hlock. Qed.
Lemma stay_git env config args :
  repo_locked → head args ≠ Some "merge" → respects files_stay (gitOutputWithContext env config args).
Proof.
  intros Hlock Hargs. apply respects_bind; [apply _|by apply stay_yield|]. intros _ w. unfold call_git, files_stay.
  pose proof (run_git_files env config args (rt_files (w_tree w)) (rt_git (w_tree w)) Hargs) as Hfs.
  destruct (run_git _ _ _ _ _) as [[]]. done.
Qed.
Lemma stay_emit e : respects files_stay (emit e).
Proof. by intros w. Qed.

Ltac program_of :=
  unfold finalizeRepoWrite, finalizeRepoGitState, refreshDeclaredServices, discover, persistRepoSyncState,
    PushCurrentBranch, PushRevision, configuredRemoteBranch, commit_changed, CommitPath, CommitPaths,
    stage_and_commit, HasPathsChanges, CurrentBranch, CurrentRevision, gitOutput.
Ltac grows := program_of; repeat first [apply grows_emit|progress respects_trace].
Ltac stays := program_of; repeat first [by apply stay_yield|by apply stay_git|apply stay_emit|respects_step].

Lemma finalize_grows commitID base : respects trace_grows (finalizeRepoWrite cfg availableNodeIDs commitID base).
Proof. grows. Qed.
Lemma commit_grows unchanged paths message : respects trace_grows (commit_changed unchanged (CommitPaths paths message (author_name cfg) (author_email cfg))).
Proof. grows. Qed.
Lemma commit_stays unchanged paths message :
  repo_locked → respects files_stay (commit_changed unchanged (CommitPaths paths message (author_name cfg) (author_email cfg))).
Proof. intros Hlock. stays. Qed.

Lemma grows_run {A} (m : M A) w w' r : respects trace_grows m → m w = (w', r) → trace_grows w w'.
Proof. intros Hm Hr. specialize (Hm w). by rewrite Hr in Hm. Qed.

(** A commit that succeeds is in the trace. *)
Lemma stage_commits paths message name email w w' :
  stage_and_commit paths message name email w = (w', Ok true) → committed w w'.
Proof.
  unfold stage_and_commit. intros (w1 & out & Hadd & Hs)%bind_Ok. apply bind_Ok in Hs as (w2 & changed & Hch & Hs).
  destruct changed; [|done]. apply bind_Ok in Hs as (w3 & out' & Hco & Hs). apply bind_Ok in Hs as (w4 & [] & Hem & [= <-]).
  apply committed_after with w3.
  - etrans; [by eapply grows_run; [apply respects_traceless; [apply _|apply traceless_git]|]|]. etrans; [eapply grows_run; [|done]; grows|].
    by eapply grows_run; [apply respects_traceless; [apply _|apply traceless_git]|].
  - injection Hem as <-. eexists [_], paths. split; [done|]. by left.
Qed.

Lemma CommitPaths_commits paths message name email w w' id :
  CommitPaths paths message name email w = (w', Ok (Some id)) → committed w w'.
Proof.
  unfold CommitPaths. case_decide; [done|]. intros (w1 & tree & Htree & Hc)%bind_Ok.
  apply bind_Ok in Hc as (w2 & staged & Hst & Hc). unfold attempt in Hst.
  destruct (stage_and_commit _ _ _ _ w1) as [w3 r] eqn:Hs. injection Hst as -> <-.
  destruct r as [[]|e]; [|by apply bind_Ok in Hc as (? & ? & _ & ?)..].
  apply committed_after with w1; [by eapply grows_run; [apply respects_traceless; [apply _|apply traceless_git]|]|].
  apply committed_grows with w2; [by eapply stage_commits|]. apply bind_Ok in Hc as (w3 & id' & Hrev & [= <- <-]).
  eapply grows_run; [|done]. grows.
Qed.

Lemma commit_commits unchanged paths message w w' id :
  commit_changed unchanged (CommitPaths paths message (author_name cfg) (author_email cfg)) w = (w', Ok id) →
  committed w w'.
Proof.
  unfold commit_changed. intros (w1 & r & Hr & Hok)%bind_Ok. destruct r as [id'|]; [|done].
  injection Hok as -> ->. unfold recode in Hr.
  destruct (CommitPaths _ _ _ _ w) as [w2 [r|[| ]]] eqn:Hc; [|done..]. injection Hr as -> ->.
  by eapply CommitPaths_commits.
Qed.

(** ** One transaction *)
Context (Hlock : repo_locked) (w0 : World).

(** The program is at a world where nothing was committed yet. *)
Definition underway (fs : FS) (w : World) : Prop := files w = fs ∧ w_trace w = w_trace w0.

Lemma files_step_run {A} (wrap : RepoError → ConnectError) (op : FS → result RepoError (FS * A)) w :
  ∃ w1, files_step wrap op w = (w1, match op (files w) with Ok (_, a) => Ok a | Err e => Err (wrap e) end) ∧
    w_trace w1 = w_trace w ∧ files w1 = match op (files w) with Ok (fs, _) => fs | Err _ => files w end.
Proof.
  unfold files_step, mbind, M_bind, yield_, call_files. cbn. rewrite Hlock. unfold files.
  destruct (op (rt_files (w_tree w))) as [[fs a]|e]; by eexists.
Qed.

Lemma after_files_step {A B : Type} (wrap : RepoError → ConnectError) (op : FS → result RepoError (FS * A)) (f : A → M B) w :
  underway (files w0) w →
  (∀ fs a w1, op (files w0) = Ok (fs, a) → underway fs w1 → all_or_nothing w0 (f a w1)) →
  all_or_nothing w0 ((files_step wrap op ≫= f) w).
Proof.
  intros [Hw Ht] Hf. unfold mbind, M_bind. destruct (files_step_run wrap op w) as (w1 & -> & Ht1 & Hw1).
  rewrite Hw in *. destruct (op (files w0)) as [[fs a]|e].
  - apply (Hf fs a w1 eq_refl). split; congruence.
  - right. cbn. rewrite Hw1. split; [done|by eexists].
Qed.

(** The commit, with an undo that puts the files back. *)
Lemma after_commit fs w unchanged paths message base (undo : M ()) :
  underway fs w →
  (∀ w1, files w1 = fs → same_files (files w0) (files (undo w1).1)) →
  all_or_nothing w0
    ((commitID ← committed_or (commit_changed unchanged (CommitPaths paths message (author_name cfg) (author_email cfg))) undo;
      finalizeRepoWrite cfg availableNodeIDs commitID base) w).
Proof.
  intros [Hw Ht] Hundo. unfold mbind at 1, M_bind at 1, committed_or. cbn.
  set (commit := commit_changed _ _). pose proof (commit_stays unchanged paths message Hlock w : files_stay w (commit w).1) as Hst.
  unfold mbind, M_bind, attempt. destruct (commit w) as [w1 [id|e]] eqn:Hc; cbn.
  - left. apply committed_grows with w1; [|apply finalize_grows].
    apply commit_commits in Hc as (l & ps & Hl & Hin). exists l, ps. by rewrite <-Ht.
  - specialize (Hundo w1). destruct (undo w1) as [w2 r] eqn:Hu. right. cbn. split; [|by eexists].
    apply Hundo. by rewrite <-Hw.
Qed.

Lemma restore_run w s fs : RestorePath (files w) s = Ok fs → files (restore s w).1 = fs.
Proof.
  intros Hr. unfold restore.
  destruct (files_step_run mapRepoMutationError (λ fs, result_bind (RestorePath fs s) (λ fs, Ok (fs, ()))) w) as (w1 & Hrun & _ & Hf).
  rewrite Hrun. cbn. by rewrite Hf, Hr.
Qed.

Lemma captured fs s path : (result_bind (CapturePath fs path) (λ s, Ok (fs, s))) = Ok s → s.1 = fs ∧ CapturePath fs path = Ok s.2.
Proof. intros (s' & Hs & [= <-])%result_bind_Ok. done. Qed.

Context (Hwf : wf_fs (files w0)).

(** *** Each transaction *)
Definition ends {A} (m : M A) : Prop := ∀ w, underway (files w0) w → all_or_nothing w0 (m w).

Lemma restored names s fs :
  names ≠ [] → Forall normal names → normal_request (path_of names) →
  CapturePath (files w0) (path_of names) = Ok s → changed_at (files w0) names fs →
  ∀ w1, files w1 = fs → same_files (files w0) (files (restore s w1).1).
Proof.
  intros Hne Hf Hreq Hcap Hch w1 Hw1.
  destruct (restore_undoes (files w0) Hwf names Hne Hf Hreq fs s Hcap Hch) as (fs2 & Hr & Hsame).
  rewrite <-Hw1 in Hr. by rewrite (restore_run _ _ _ Hr).
Qed.

Lemma create_ends path message base :
  normal_request path → ends (createRepoDirectoryTransaction cfg availableNodeIDs path message base).
Proof.
  intros Hreq w Hw. destruct (normal_request_names _ Hreq) as (names & Hne & Hf & ->).
  unfold createRepoDirectoryTransaction, capture. apply after_files_step; [done|]. intros fs s w1 [Hfs Hcap]%captured Hw1.
  cbn in Hfs, Hcap. subst fs. apply after_files_step; [done|]. intros fs p w2 Hop Hw2.
  apply after_commit with fs; [done|]. by eapply restored, CreateDirectory_changed.
Qed.

Lemma delete_ends path message base :
  normal_request path → ends (deleteRepoPathTransaction cfg availableNodeIDs path message base).
Proof.
  intros Hreq w Hw. destruct (normal_request_names _ Hreq) as (names & Hne & Hf & ->).
  unfold deleteRepoPathTransaction, capture. apply after_files_step; [done|]. intros fs s w1 [Hfs Hcap]%captured Hw1.
  cbn in Hfs, Hcap. subst fs. apply after_files_step; [done|]. intros fs p w2 Hop Hw2.
  apply after_commit with fs; [done|]. eapply restored; [done..|]. eapply DeletePath_changed; [done..| |done].
  by eapply CapturePath_Ok.
Qed.

Lemma move_ends source destination message base :
  normal_request source → normal_request destination →
  ends (moveRepoPathTransaction cfg availableNodeIDs source destination message base).
Proof.
  intros Hrs Hrd w Hw. destruct (normal_request_names _ Hrs) as (s & Hs & Hfs & ->).
  destruct (normal_request_names _ Hrd) as (d & Hd & Hfd & ->).
  unfold moveRepoPathTransaction, capture. apply after_files_step; [done|]. intros fs1 ss w1 [Hfs1 Hcs]%captured Hw1.
  cbn in Hfs1, Hcs. subst fs1. apply after_files_step; [done|]. intros fs1 sd w2 [Hfs1 Hcd]%captured Hw2.
  cbn in Hfs1, Hcd. subst fs1. apply after_files_step; [done|]. intros fs [p1 p2] w3 Hop Hw3.
  apply after_commit with fs; [done|]. intros w4 Hw4.
  apply MovePath_renames in Hop as (s' & d' & fs1 & info & Hs' & Hd' & Hfs' & Hfd' & -> & -> & Rs & Rd & _ & _ & Hsrc & Hfree &
    Hapart & Hmk & ->); [|done].
  pose proof (resolved_names (files w0) s s' _ Hs Hfs Hrs Hs' Hfs' eq_refl Rs) as ->.
  pose proof (resolved_names (files w0) d d' _ Hd Hfd Hrd Hd' Hfd' eq_refl Rd) as ->.
  destruct (CapturePath_Ok (files w0) Hwf s Hs Hfs Hrs ss Hcs) as (Hos & _).
  destruct (CapturePath_Ok (files w0) Hwf d Hd Hfd Hrd sd Hcd) as (_ & Hprot & Hrel & Hnone). rewrite Hfree in Hnone.
  assert (Hwf' : wf_fs (Rename fs1 s d)).
  { destruct (dirs_above (files w0) Hwf d fs1 Hd Hfd Hfree Hmk) as (Hwf1 & Hfree1 & Hpar). by apply wf_Rename. }
  destruct (RestorePath_open d Hd Hfd Hrd (Rename fs1 s d) sd Hwf') as (fs2 & Hr & Hfs2 & _); [|done..|].
  { by apply (moved_open (files w0) Hwf s d fs1 info). }
  rewrite (Hfs2 Hnone) in Hr. rewrite <-Hw4 in Hr. unfold mbind, M_bind, attempt.
  pose proof (restore_run _ _ _ Hr) as Hf5. destruct (restore sd w4) as [w5 r]. cbn in Hf5 |- *.
  apply (restored s ss (RemoveAll (Rename fs1 s d) d)); [done..| |by rewrite Hf5, Hw4].
  by apply (moved_back (files w0) Hwf s d fs1 info).
Qed.

Lemma rejectSymlinkPath_no_NotFound fs p : rejectSymlinkPath fs p ≠ Err ErrRepoPathNotFound.
Proof.
  assert (Hl : ∀ parts current, reject_links fs current parts ≠ Err ErrRepoPathNotFound).
  { induction parts as [|x parts IH]; intros current; cbn; [done|].
    destruct (Lstat _ _) as [node|[|]]; [destruct (is_link node); [done|apply IH]|done..]. }
  unfold rejectSymlinkPath. destruct (fs !! []) as [root|]; [|done]. by destruct (is_link root).
Qed.

(** What a read says of the file. *)
Lemma ReadFile_spec names file :
  names ≠ [] → Forall normal names → normal_request (path_of names) →
  (ReadFile (files w0) (path_of names) = Ok file → files w0 !! names = Some (FFile (fc_Content file)) ∧ no_links (files w0) names) ∧
  (ReadFile (files w0) (path_of names) = Err ErrRepoPathNotFound → files w0 !! names = None).
Proof.
  intros Hne Hf Hreq. unfold ReadFile. destruct (resolveRepoPath (files w0) (path_of names)) as [[abs p]|e] eqn:Hres; cbn [result_bind].
  2: { split; [done|]. unfold resolveRepoPath in Hres. destruct Hreq as [Hn Hnn]. rewrite Hn in Hres. cbn in Hres.
       rewrite decide_False in Hres by done. destruct (SecureJoin _ _); by simplify_eq/=. }
  pose proof (resolve_normal _ _ _ _ Hne Hf Hreq Hres) as ->.
  destruct (rejectSymlinkPath (files w0) (path_of names)) as [[]|e] eqn:Hlinks; cbn [result_bind].
  2: { split; [done|]. intros [= ->]. by apply rejectSymlinkPath_no_NotFound in Hlinks. }
  destruct (resolved_plain (files w0) Hwf _ _ _ Hres) as (Ha & Hfa & Heq & _ & Hno); [by destruct Hreq|done|].
  apply path_of_inj in Heq as <-; [|done|done|by apply normals_no_sep..].
  destruct (Lstat_clear (files w0) Hwf names (no_links_clear _ _ Hno)) as [Hst Hnone].
  destruct (Lstat (files w0) names) as [[|content|]|[|]]; (split; [|done || (intros _; by apply Hnone)]); try done.
  intros [= <-]. cbn. split; [by apply Hst|done].
Qed.

Lemma failed {A} e : ends (fail (A := A) e).
Proof. intros w [Hw _]. right. cbn. rewrite Hw. split; [done|by eexists]. Qed.

Lemma after_read {A B : Type} (op : FS → result RepoError A) (f : result RepoError A → M B) :
  ends (f (op (files w0))) → ends (files_read op ≫= f).
Proof.
  intros Hf w [Hw Ht].
  assert (∃ w1, files_read op w = (w1, Ok (op (files w0))) ∧ underway (files w0) w1) as (w1 & Hrun & Hw1).
  { eexists. split; [|split].
    - unfold files_read, mbind, M_bind, tree, yield_, mbind, M_bind, get, mret, M_ret. cbn. rewrite Hlock.
      unfold files in Hw |- *. rewrite Hw. reflexivity.
    - unfold files. cbn. rewrite ?Hlock. exact Hw.
    - exact Ht. }
  unfold mbind, M_bind. rewrite Hrun. by apply Hf.
Qed.

(** The write of the new content, then the commit; [previous] is the content
    to write back, if there was a file. *)
Lemma write_ends names stored message base (previous : option string) :
  names ≠ [] → Forall normal names → normal_request (path_of names) →
  files w0 !! names = FFile <$> previous → (previous ≠ None → no_links (files w0) names) →
  ends (writtenPath ← WriteFile_step (path_of names) stored;
        commitID ← committed_or (commit_changed "repo file content did not change"
            (CommitPath writtenPath message (author_name cfg) (author_email cfg)))
          (match previous with
           | Some content => _ ← WriteFile_step writtenPath content; mret ()
           | None => remove_file writtenPath
           end);
        finalizeRepoWrite cfg availableNodeIDs commitID base).
Proof.
  intros Hne Hf Hreq Hprev Hno w Hw. unfold WriteFile_step. apply after_files_step; [done|]. intros fs p w1 Hop Hw1.
  apply (after_commit fs w1); [done|]. intros w2 Hw2.
  apply WriteFile_adds in Hop as (n & x & fs1 & Hfa & -> & _ & Hres & Hprot & Hinv & Hrej & Hmk & Hfs & _); [|done].
  assert (Hnx : n ++ [x] ≠ []) by (by destruct n).
  pose proof (resolved_names (files w0) names _ _ Hne Hf Hreq Hnx Hfa eq_refl Hres) as <-. destruct previous as [c|].
  - destruct (WriteFile_back (files w0) Hwf n x c stored fs1) as (fs2 & Hback & Hsame); [try done; by apply Hno..|].
    unfold mbind, M_bind.
    destruct (files_step_run write_error (λ fs, WriteFile fs (path_of (n ++ [x])) c) w2) as (w3 & Hrun & _ & Hf3).
    rewrite Hrun. rewrite Hw2, Hfs, Hback in *. cbn. by rewrite Hf3.
  - unfold remove_file.
    destruct (files_step_run mapRepoMutationError (λ fs, Ok (delete (components (path_of (n ++ [x]))) fs, ())) w2)
      as (w3 & Hrun & _ & Hf3).
    rewrite Hrun. cbn. rewrite Hf3, Hw2, Hfs, components_path_of by done. by apply WriteFile_removed.
Qed.

Lemma update_ends path content message base :
  normal_request path → ends (updateRepoFileTransaction cfg availableNodeIDs path content message base).
Proof.
  intros Hreq. unfold updateRepoFileTransaction.
  destruct (storedRepoFileContent cfg path content) as [stored|[]]; [|apply failed..].
  destruct (normal_request_names _ Hreq) as (names & Hne & Hf & ->). apply after_read.
  destruct (ReadFile (files w0) (path_of names)) as [file|e] eqn:Hread.
  - apply (ReadFile_spec names file) in Hread as [Hfile Hno]; [|done..].
    by apply (write_ends names stored message base (Some (fc_Content file))); rewrite ?Hfile.
  - destruct e; try apply failed. apply (ReadFile_spec names (MkFileContent "" "" 0)) in Hread; [|done..].
    by apply (write_ends names stored message base None).
Qed.
End locked.

(** ** All transactions *)
Section transactions.
Context `{DnsState} `{GitState} `{!Environment} `{!GitCommand}.
Context `{Disk} `{MetaDecoder} `{Cron} `{Libraries} `{Secrets}.
Context (cfg : ControllerConfig) (availableNodeIDs : gset string).

Inductive repo_transaction :=
| UpdateFile (path content message : string)
| CreateDir (path message : string)
| Move (source destination message : string)
| Delete (path message : string).
Definition run_transaction (t : repo_transaction) (base : RepoSyncState) : M repoWriteResult :=
  match t with
  | UpdateFile path content message => updateRepoFileTransaction cfg availableNodeIDs path content message base
  | CreateDir path message => createRepoDirectoryTransaction cfg availableNodeIDs path message base
  | Move source destination message => moveRepoPathTransaction cfg availableNodeIDs source destination message base
  | Delete path message => deleteRepoPathTransaction cfg availableNodeIDs path message base
  end.
Definition transaction_paths (t : repo_transaction) : list string :=
  match t with
  | UpdateFile path _ _ | CreateDir path _ | Delete path _ => [path]
  | Move source destination _ => [source; destination]
  end.

(** C26: While the lock is held, a transaction on normalised paths either
    made its commit, or failed and left every file of the working directory as
    it was: whatever git command fails, no half of a change stays behind. *)
Theorem repo_write_all_or_nothing t base w :
  repo_locked → wf_fs (files w) → Forall normal_request (transaction_paths t) →
  let '(w', r) := run_transaction t base w in
  (∃ done paths, w_trace w' = w_trace w ++ done ∧ EvCommitted paths ∈ done) ∨
  ((∃ e, r = Err e) ∧
   ∀ q node, is_dir node = false → files w' !! q = Some node ↔ files w !! q = Some node).
Proof.
  intros Hlock Hwf Hpaths.
  assert (all_or_nothing w (run_transaction t base w)) as Haon.
  { destruct t; cbn in *; apply Forall_cons in Hpaths as [Hp Hps];
      [by apply update_ends|by apply create_ends|rewrite Forall_singleton in Hps; by apply move_ends|by apply delete_ends]. }
  destruct (run_transaction t base w) as [w' r]. destruct Haon as [?|[? ?]]; [by left|by right].
Qed.
End transactions.

(** ** A transaction that fails *)
#[local] Instance repo_git_state : GitState := unit.
#[local] Instance repo_dns_state : DnsState := unit.
#[local] Instance repo_environment : Environment := {|
  env_now n := Z.of_nat n; env_uuid n := "uuid"; env_io _ := true; env_choice _ := 0; env_db _ db := db;
  env_sync _ s := s; env_images _ t := t; env_tree _ t := t |}.
(** A git that refuses to commit. *)
#[local] Instance repo_git : GitCommand.
Proof.
  refine {| run_git _ _ args fs g := (fs, g,
              if decide (head args = Some "commit") then Err "hook failed"
              else if decide (head args = Some "status") then Ok " M web" else Ok "4b825dc");
            gitRemoteConfig _ _ _ := [] |}.
  done.
Defined.
#[local] Instance repo_disk : Disk := disk_example.
#[local] Instance repo_meta : MetaDecoder := λ _, Err "unreadable".
#[local] Instance repo_cron : Cron := cron_example.
#[local] Instance repo_libraries : Libraries := libraries_example.
#[local] Instance repo_secrets : Secrets := {| Encrypt text _ := Ok text; Decrypt text _ := Ok text |}.
Definition repo_cfg : ControllerConfig :=
  MkControllerConfig ":8080" "/repo" "/state" "/log" None None None None [] None None None None None.
Definition repo_world : World := MkWorld empty_db None empty_images (MkRepoTree example_fs ()) () [] 0.

(** The directory is moved, the commit refused, and the file is back. *)
Lemma repo_write_all_or_nothing_witness :
  let w' := (run_transaction repo_cfg ∅ (Move "web" "site" "") (MkRepoSyncState "" "" None) repo_world).1 in
  w_trace w' = [] ∧ files w' !! ["web"; "compose.yaml"] = Some (FFile "services: {}").
Proof.
  pose proof (repo_write_all_or_nothing repo_cfg ∅ (Move "web" "site" "") (MkRepoSyncState "" "" None) repo_world
    (λ _ _, eq_refl) example_wf ltac:(repeat constructor; by_decision)) as Haon.
  assert (w_trace (run_transaction repo_cfg ∅ (Move "web" "site" "") (MkRepoSyncState "" "" None) repo_world).1 = []) as Htr
    by by_computation.
  destruct (run_transaction _ _ _ _ _) as [w' r]. cbn in Htr |- *. split; [exact Htr|].
  destruct Haon as [(l & paths & Hl & Hin)|[_ Hsame]].
  - exfalso. rewrite Htr in Hl. destruct l; [by apply not_elem_of_nil in Hin|discriminate Hl].
  - apply Hsame; reflexivity.
Defined.
