(* ===== verification/Controller.v ===== *)
(** * The admission of tasks
    (src/internal/app/controller/task_admission.go, service_instance_task.go,
    task_wait.go)

    The tasks the controller creates on its own, and the wait for a task. *)
From S2P Require Export Git.

(** ** task_admission.go *)
Section admission.
Context `{DnsState} `{GitState} `{!Environment} `{!GitCommand}.
Context `{Disk} `{MetaDecoder} `{Cron} `{Libraries} `{SQLite} `{ParamsJSON}.
Context (cfg : ControllerConfig) (availableNodeIDs : gset string).

Definition connectTaskAdmissionError (e : StoreError) : ConnectError :=
  match e with
  | ActiveServiceTaskError _ | ActiveServiceInstanceTaskError _ _ => StoreFailed CodeFailedPrecondition e
  | _ => StoreFailed CodeInternal e
  end.

Definition resolve_node (allowed resolved : list string) (nodeID : string) : result string (list string) :=
  if decide (nodeID ∉ allowed) then Err "service is not declared on node"
  else if decide (nodeID ∈ resolved) then Ok resolved
  else Ok (resolved ++ [nodeID]).
Definition resolveTargetNodeIDs (service : Service) (requested : list string) : result string (list string) :=
  if decide (requested = []) then Ok (svc_TargetNodes service)
  else for_each (resolve_node (svc_TargetNodes service)) [] requested.

Definition find_node (nodeID : string) : option NodeConfig :=
  head (filter (λ node, nc_ID node = nodeID) (configured_nodes cfg)).

Definition validateTaskTargetNode (nodeID taskType : string) : M () :=
  match find_node nodeID with
  | None => fail (NewError CodeFailedPrecondition "node is not configured")
  | Some configuredNode =>
      if decide (nc_Enabled configuredNode = Some false)
      then fail (NewError CodeFailedPrecondition "node is disabled")
      else if negb (RequiresOnlineNode taskType) then mret ()
      else snapshot ← store_read (StoreFailed CodeFailedPrecondition) (GetNodeSnapshot nodeID);
           if nd_is_online snapshot then mret ()
           else fail (NewError CodeFailedPrecondition "node is offline")
  end.

Definition service_dir (service : Service) : M string :=
  lift (with_code CodeInternal (Rel (cc_RepoDir cfg) (svc_Directory service))).
Definition log_path (taskID : string) : string := JoinPath [cc_LogDir cfg; "tasks"; taskID +:+ ".log"].

(** The fields of [task.Record] the admissions fill in. *)
Definition new_record (taskID taskType source triggeredBy serviceName nodeID paramsJSON repoRevision
    attemptOf dedupeKey : string) (createdAt : Time.time) : TaskRecord :=
  MkRecord taskID taskType source triggeredBy serviceName nodeID StatusPending paramsJSON
    (log_path taskID) repoRevision "" attemptOf createdAt None None "" "" "" None None None dedupeKey.

(** The log file of a task that was created; it exists even when this fails. *)
Definition create_log_file : M () :=
  r ← attempt (file_io "create task log file");
  match r with
  | Ok _ => mret ()
  | Err _ => fail (NewError CodeInternal "create task log file")
  end.

(** [CreateTask...(ctx, record)] with the identifier and the clock it draws. *)
Definition create (wrap : StoreError → ConnectError)
    (call : string → Time.time → TaskRecord → DB → result StoreError (DB * TaskRecord))
    (record : TaskRecord) : M TaskRecord :=
  uuid ← new_uuid; t ← now; created ← store wrap (call uuid t record);
  _ ← emit (EvCreated (rec_Type record) (rec_NodeID record));
  mret created.
(** [CreateTaskIfNoActiveServiceInstanceTask]: [records[0]] of a batch of one. *)
Definition create_instance_task (uuid : string) (t : Time.time) (record : TaskRecord) (db : DB)
    : result StoreError (DB * TaskRecord) :=
  result_bind (CreateTaskIfNoActiveServiceInstanceTask uuid t record db) (λ res,
  match res.2 with
  | Some created => Ok (res.1, created)
  | None => Err (ErrorText "index out of range")
  end).

(** After a failed creation with a dedupe key the task that holds the key is
    returned. *)
Definition or_existing (dedupeKey : string) (created : result ConnectError TaskRecord) : M TaskRecord :=
  match created with
  | Ok record => _ ← create_log_file; mret record
  | Err e =>
      existing ← (if decide (dedupeKey = "") then mret (Err e)
                  else attempt (store_read plain (GetTaskByDedupeKey dedupeKey)));
      match existing with
      | Ok record => mret record
      | Err _ => match e with
                 | StoreFailed _ (DuplicateTaskError key) => store_read plain (GetTaskByDedupeKey key)
                 | StoreFailed _ e => fail (connectTaskAdmissionError e)
                 | e => fail e
                 end
      end
  end.

Definition createNodeCaddyReloadTask (ctx : Context_) (nodeID source dedupeKey : string) : M TaskRecord :=
  if decide (nodeID = "") then fail (NewError CodeInvalidArgument "node_id is required")
  else
    _ ← validateTaskTargetNode nodeID TypeCaddyReload;
    t ← tree;
    service ← lift (with_code CodeFailedPrecondition
                (FindCaddyInfraService (cc_RepoDir cfg) (rt_entries t) availableNodeIDs));
    serviceDir ← service_dir service;
    taskID ← new_uuid;
    created ← attempt (create plain create_instance_task
      (new_record taskID TypeCaddyReload source (default "" (BearerSubject ctx)) (svc_Name service) nodeID
         (marshal_params (params_of_dir serviceDir)) "" "" dedupeKey Time.zero));
    or_existing dedupeKey created.

(** The directories of the services to synchronise on a node. *)
Definition caddy_dirs (nodeID : string) (services : list Service) : M (list string) :=
  foldr (λ service (dirs : M (list string)),
           if CaddyManaged service && bool_decide (nodeID ∈ svc_TargetNodes service)
           then dir ← service_dir service; rest ← dirs; mret (dir :: rest)
           else dirs) (mret []) services.

Definition params_of_dirs (dir : string) (dirs : list string) (fullRebuild : bool) : serviceTaskParams :=
  MkServiceTaskParams dir dirs "" [] [] "" [] ∅ ∅ fullRebuild "" "" [] "" "" false false false false.

Definition createNodeCaddySyncTask (nodeID serviceName : string) (fullRebuild : bool) (source : string)
    : M TaskRecord :=
  if decide (nodeID = "") then fail (NewError CodeInvalidArgument "node_id is required")
  else
    _ ← validateTaskTargetNode nodeID TypeCaddySync;
    t ← tree;
    repoRevision ← recode CodeFailedPrecondition CurrentRevision;
    t ← tree;
    found ← (if fullRebuild then
        services ← lift (with_code CodeFailedPrecondition
                     (DiscoverServices (cc_RepoDir cfg) (rt_entries t) availableNodeIDs));
        dirs ← caddy_dirs nodeID services;
        mret ("", "", string_sort dirs)
      else if decide (serviceName = "")
      then fail (NewError CodeInvalidArgument "service_name is required when full_rebuild is false")
      else
        service ← lift (with_code CodeNotFound
                    (FindService (cc_RepoDir cfg) (rt_entries t) availableNodeIDs serviceName));
        if negb (CaddyManaged service)
        then fail (NewError CodeFailedPrecondition "service does not declare network.caddy")
        else
          _ ← lift (with_code CodeFailedPrecondition (resolveTargetNodeIDs service [nodeID]));
          dir ← service_dir service;
          mret (svc_Name service, dir, [dir]));
    let '(matchedName, serviceDir, serviceDirs) := found in
    taskID ← new_uuid;
    record ← create (StoreFailed CodeInternal) CreateTask
      (new_record taskID TypeCaddySync source "" matchedName nodeID
         (marshal_params (params_of_dirs serviceDir serviceDirs fullRebuild)) repoRevision "" "" Time.zero);
    _ ← create_log_file;
    mret record.

Definition params_excluding (dir excluded : string) : serviceTaskParams :=
  MkServiceTaskParams dir [] excluded [] [] "" [] ∅ ∅ false "" "" [] "" "" false false false false.

Definition createServiceCloudflareTunnelSyncTask (ctx : Context_)
    (serviceName excludedServiceDir source dedupeKey : string) : M TaskRecord :=
  if decide (serviceName = "") then fail (NewError CodeInvalidArgument "service_name is required")
  else
    t ← tree;
    service ← lift (with_code CodeNotFound
                (FindService (cc_RepoDir cfg) (rt_entries t) availableNodeIDs serviceName));
    if negb (CloudflareTunnelManaged service)
    then fail (NewError CodeFailedPrecondition "service does not declare network.cloudflare_tunnel")
    else if decide (cc_CloudflareTunnel cfg = None)
    then fail (NewError CodeFailedPrecondition "controller cloudflare_tunnel is not configured")
    else
      repoRevision ← recode CodeFailedPrecondition CurrentRevision;
      serviceDir ← service_dir service;
      taskID ← new_uuid;
      created ← attempt (create plain CreateTaskIfNoActiveServiceTask
        (new_record taskID TypeCloudflareTunnelSync source (default "" (BearerSubject ctx)) (svc_Name service)
           "" (marshal_params (params_excluding serviceDir excludedServiceDir)) repoRevision "" dedupeKey
           Time.zero));
      or_existing dedupeKey created.

Definition createServiceDNSUpdateTask (ctx : Context_) (service : Service)
    (nodeID repoRevision source dedupeKey : string) : M TaskRecord :=
  _ ← lift (with_code CodeFailedPrecondition (resolveTargetNodeIDs service [nodeID]));
  _ ← validateTaskTargetNode nodeID TypeDNSUpdate;
  serviceDir ← service_dir service;
  existing ← (if decide (dedupeKey = "") then mret (Err (plain ErrTaskNotFound))
              else attempt (store_read plain (GetTaskByDedupeKey dedupeKey)));
  match existing with
  | Ok record => mret record
  | Err (StoreFailed _ ErrTaskNotFound) =>
      taskID ← new_uuid;
      created ← attempt (create plain CreateTaskIfNoActiveServiceTask
        (new_record taskID TypeDNSUpdate source (default "" (BearerSubject ctx)) (svc_Name service) nodeID
           (marshal_params (params_of_dir serviceDir)) repoRevision "" dedupeKey Time.zero));
      match created with
      | Ok record => _ ← create_log_file; mret record
      | Err e =>
          existing ← (if decide (dedupeKey = "") then mret (Err e)
                      else attempt (store_read plain (GetTaskByDedupeKey dedupeKey)));
          match existing, e with
          | Ok record, _ => mret record
          | Err _, StoreFailed _ e => fail (connectTaskAdmissionError e)
          | Err _, e => fail e
          end
      end
  | Err (StoreFailed _ e) => fail (StoreFailed CodeInternal e)
  | Err e => fail e
  end.

(** ** service_instance_task.go *)
Definition createServiceInstanceTask (serviceName nodeID taskType : string) (params : serviceTaskParams)
    (repoRevision source : string) : M TaskRecord :=
  if decide (serviceName = "") then fail (NewError CodeInvalidArgument "service_name is required")
  else if decide (nodeID = "") then fail (NewError CodeInvalidArgument "node_id is required")
  else if decide (tp_ServiceDir params = "") then fail (NewError CodeInvalidArgument "service_dir is required")
  else
    _ ← validateTaskTargetNode nodeID taskType;
    taskID ← new_uuid;
    record ← create connectTaskAdmissionError create_instance_task
      (new_record taskID taskType (if decide (source = "") then SourceSystem else source) "" serviceName nodeID
         (marshal_params params) repoRevision "" "" Time.zero);
    _ ← create_log_file;
    mret record.
End admission.

Section waiting.
Context `{DnsState} `{GitState} `{!Environment}.

(** ** task_wait.go: the loop wakes up by the notification or the timer until
    the context is cancelled; [polls] counts those wake-ups. *)
Fixpoint wait_polls (polls : nat) (deadline : Time.time) (taskID : string) : M () :=
  detail ← attempt (store_read plain (GetTask taskID));
  let keep_waiting :=
    t ← now;
    if decide (deadline - t ≤ 0)%Z then fail (NewError CodeUnknown "timeout waiting for task")
    else match polls with
         | 0 => fail (NewError CodeUnknown "context canceled")
         | S polls => wait_polls polls deadline taskID
         end in
  match detail with
  | Ok detail =>
      let status := rec_Status (td_Record detail) in
      if decide (status = StatusSucceeded) then emit EvWaited
      else if decide (status = StatusFailed ∨ status = StatusCancelled)
      then fail (NewError CodeUnknown "task failed")
      else keep_waiting
  | Err _ => keep_waiting
  end.

Definition waitTask (taskID : string) (timeout : Z) : M () :=
  n ← yield_; t ← now; wait_polls (env_choice n) (t + timeout)%Z taskID.
End waiting.
