(* ===== verification/Forge.v ===== *)
(** * Releases of forges: src/internal/app/controller/forge_releases.go

    The tags of the releases of a GitHub, GitLab or Forgejo project are
    candidates for the update of an image.  net/url, the HTTP client and the
    parser of link headers are the class [ForgeLibraries]; a request is a
    step of the program, whose answer may differ each time. *)
From stdpp Require Import pretty.
From S2P Require Export Controller.

Record ForgePage := MkForgePage {
  fp_releases : list (string * bool);
  fp_links : list string;
}.

Class ForgeLibraries := {
  (** [url.Parse]: the host name and the path. *)
  url_parse : string → option (string * string);
  url_PathEscape : string → string;
  (** The first link with [rel=next]. *)
  next_link : list string → option string;
  (** The decoded answer of a request with status 2xx. *)
  http_releases : nat → string → list (string * string) → result string ForgePage;
}.

(** [strings.Trim(s, cutset)] and [strings.TrimRight(s, cutset)] with a slash *)
Definition TrimLeftSlash (s : string) : string := trim_left ["/"] (String.length s) s.
Definition TrimRightSlash (s : string) : string := String.rev (TrimLeftSlash (String.rev s)).
Definition TrimSlash (s : string) : string := TrimRightSlash (TrimLeftSlash s).
Definition slash : Ascii.ascii := byte 47.

Definition isForgeDiscoverySource (sourceType : string) : bool :=
  bool_decide (sourceType ∈ ["github"; "gitlab"; "forgejo"]).

(** [ImageUpdateDiscoverySource{...}] *)
Definition forge_source (type repo project repoURL apiURL : string) : ImageUpdateDiscoverySource :=
  MkImageUpdateDiscoverySource type repo repoURL project apiURL "".

Section forge.
Context `{ForgeLibraries}.

Definition forgeSourceFromRepoURL (rawURL : string) : result string (option ImageUpdateDiscoverySource) :=
  match url_parse (TrimSpace rawURL) with
  | None => Err "parse repo_url"
  | Some (hostname, path) =>
      let parts := filter (λ part, part ≠ "") (Split (TrimSlash path) slash) in
      match parts with
      | a :: b :: _ =>
          let repoPath := Join [a; b] "/" in
          let fullProject := Join parts "/" in
          let host := ToLower hostname in
          Ok (if decide (host = "github.com") then Some (forge_source "github" repoPath "" rawURL "")
              else if decide (host = "gitlab.com") then Some (forge_source "gitlab" "" fullProject rawURL "")
              else if decide (host = "codeberg.org")
              then Some (forge_source "forgejo" repoPath "" rawURL "https://codeberg.org/api/v1")
              else None)
      | _ => Err "repo_url must include owner/repo path"
      end
  end.

(** ** The request *)
Definition normalizedURLHost (rawURL : string) : string :=
  match url_parse (TrimSpace rawURL) with Some (hostname, _) => ToLower hostname | None => "" end.
Definition zero_auth : ForgeAuthConfig := MkForgeAuthConfig "" "" "".
Definition auth_for_host (host : string) (auth : ForgeAuthConfig) : bool :=
  negb (bool_decide (fa_URL auth = "")) && bool_decide (normalizedURLHost (fa_URL auth) = host) ||
  negb (bool_decide (fa_APIURL auth = "")) && bool_decide (normalizedURLHost (fa_APIURL auth) = host).
Definition forgeAuth (updates : option ControllerUpdatesConfig) (sourceType repoURL : string) : ForgeAuthConfig :=
  match updates ≫= cu_ForgeAuth with
  | None => zero_auth
  | Some forge =>
      let auths := if decide (sourceType = "github") then fas_GitHub forge
                   else if decide (sourceType = "gitlab") then fas_GitLab forge
                   else if decide (sourceType = "forgejo") then fas_Forgejo forge
                   else [] in
      let by_host :=
        if decide (repoURL = "" ∨ normalizedURLHost repoURL = "") then None
        else head (filter (λ auth, auth_for_host (normalizedURLHost repoURL) auth = true) auths) in
      let anonymous := head (filter (λ auth, fa_URL auth = "" ∧ fa_APIURL auth = "") auths) in
      match auths with
      | [] => zero_auth
      | [auth] => if decide (repoURL = "") then auth
                  else default (default zero_auth anonymous) by_host
      | _ => default (default zero_auth anonymous) by_host
      end
  end.

(** The first text that is not empty. *)
Definition or_text (s fallback : string) : string := if decide (s = "") then fallback else s.
Definition with_token (auth : ForgeAuthConfig) (name scheme : string) : list (string * string) :=
  ("Accept", "application/json") ::
  (if decide (fa_Token auth = "") then [] else [(name, scheme +:+ fa_Token auth)]).
Definition forgeReleaseRequest (source : ImageUpdateDiscoverySource) (cfg : ControllerConfig)
    : result string (string * list (string * string)) :=
  let updates := cc_Updates cfg in
  if decide (src_Type source = "github") then
    let repoName := TrimSpace (src_Repo source) in
    if decide (repoName = "") then Err "github release discovery requires repo"
    else
      let auth := forgeAuth updates "github" (src_RepoURL source) in
      let apiURL := or_text (TrimRightSlash (fa_APIURL auth))
        (if decide (fa_URL auth ≠ "" ∧ normalizedURLHost (fa_URL auth) ≠ "github.com")
         then TrimRightSlash (fa_URL auth) +:+ "/api/v3" else "https://api.github.com") in
      Ok (apiURL +:+ "/repos/" +:+ TrimSlash repoName +:+ "/releases?per_page=100",
          with_token auth "Authorization" "Bearer ")
  else if decide (src_Type source = "gitlab") then
    let project := TrimSpace (src_Project source) in
    if decide (project = "") then Err "gitlab release discovery requires project"
    else
      let auth := forgeAuth updates "gitlab" (src_RepoURL source) in
      let apiURL := or_text (TrimRightSlash (fa_APIURL auth))
        (if decide (fa_URL auth ≠ "") then TrimRightSlash (fa_URL auth) +:+ "/api/v4"
         else "https://gitlab.com/api/v4") in
      Ok (apiURL +:+ "/projects/" +:+ url_PathEscape project +:+ "/releases?per_page=100",
          with_token auth "PRIVATE-TOKEN" "")
  else if decide (src_Type source = "forgejo") then
    let repoName := TrimSpace (src_Repo source) in
    if decide (repoName = "") then Err "forgejo release discovery requires repo"
    else
      let auth := forgeAuth updates "forgejo" (src_RepoURL source) in
      let apiURL := or_text (TrimRightSlash (src_APIURL source))
        (or_text (TrimRightSlash (fa_APIURL auth))
           (if decide (fa_URL auth ≠ "") then TrimRightSlash (fa_URL auth) +:+ "/api/v1" else "")) in
      if decide (apiURL = "") then Err "controller.updates.forge_auth.forgejo.url or api_url is required"
      else Ok (apiURL +:+ "/repos/" +:+ TrimSlash repoName +:+ "/releases?limit=100",
               with_token auth "Authorization" "token ")
  else Err "unsupported forge release discovery".

(** ** The pages *)
(** The tag of a release, unless it is left out. *)
Definition release_tag (source : ImageUpdateDiscoverySource) (includePrerelease : bool) (release : string * bool)
    : option string :=
  let tag := TrimSpace release.1 in
  if decide (tag = "") then None
  else if negb includePrerelease && release.2 then None
  else if decide (src_TagPrefix source = "") then Some tag
  else if negb (HasPrefix tag (src_TagPrefix source)) then None
  else
    let tag := TrimSpace (TrimPrefix tag (src_TagPrefix source)) in
    if decide (tag = "") then None else Some tag.
Definition forgeNextPageURL (linkHeaders : list string) : string :=
  match next_link linkHeaders with Some url => TrimSpace url | None => "" end.

Context `{DnsState} `{GitState} `{!Environment}.
Context (cfg : ControllerConfig).

(** At most three pages are read, until one has a tag. *)
Fixpoint fetch_pages (pages : nat) (source : ImageUpdateDiscoverySource) (includePrerelease : bool)
    (headers : list (string * string)) (endpoint : string) : M (list string) :=
  match pages with
  | 0 => mret []
  | S pages =>
      if decide (endpoint = "") then mret []
      else
        n ← yield_;
        page ← lift (with_code CodeUnknown (http_releases n endpoint headers));
        let tags := omap (release_tag source includePrerelease) (fp_releases page) in
        if decide (tags ≠ []) then mret tags
        else fetch_pages pages source includePrerelease headers (forgeNextPageURL (fp_links page))
  end.
Definition fetchForgeReleaseTags (source : ImageUpdateDiscoverySource) (includePrerelease : bool) : M (list string) :=
  request ← lift (with_code CodeUnknown (forgeReleaseRequest source cfg));
  fetch_pages 3 source includePrerelease request.2 request.1.

Definition merge_candidate (merged : list string) (candidate : string) : list string :=
  let candidate := TrimSpace candidate in
  if decide (candidate = "" ∨ candidate ∈ merged) then merged else merged ++ [candidate].
Definition mergeForgeCandidateGroups (sources : list ImageUpdateDiscoverySource) (includePrerelease : bool)
    : M (list string) :=
  M_each (λ merged source,
    if negb (isForgeDiscoverySource (src_Type source)) then mret merged
    else
      candidates ← fetchForgeReleaseTags source includePrerelease;
      mret (foldl merge_candidate merged candidates)) [] sources.

(** The index of a source in decimal. *)
Definition Itoa (n : nat) : string := pretty (N.of_nat n).
Definition source_candidates (includePrerelease : bool) (bySource : gmap string (list string))
    (source : nat * ImageUpdateDiscoverySource) : M (gmap string (list string)) :=
  if negb (isForgeDiscoverySource (src_Type source.2)) then mret bySource
  else
    candidates ← fetchForgeReleaseTags source.2 includePrerelease;
    mret (if decide (candidates = []) then bySource else <[Itoa source.1 := candidates]> bySource).

Definition auto_source (discovery : ImageUpdateDiscovery) : option ImageUpdateDiscoverySource :=
  match dis_Sources discovery with
  | [source] => if decide (TrimSpace (src_Type source) = "auto") then Some source else None
  | _ => None
  end.
Definition collectForgeCandidatesForDiscovery (discovery : ImageUpdateDiscovery)
    : M (list string * gmap string (list string)) :=
  let includePrerelease := default false (dis_IncludePrerelease discovery) in
  match auto_source discovery with
  | Some autoSource =>
      if decide (TrimSpace (src_RepoURL autoSource) = "") then mret ([], ∅)
      else
        source ← lift (with_code CodeUnknown (forgeSourceFromRepoURL (src_RepoURL autoSource)));
        match source with
        | None => mret ([], ∅)
        | Some source =>
            candidates ← fetchForgeReleaseTags source includePrerelease;
            mret (candidates, ∅)
        end
  | None =>
      if decide (dis_Combine discovery = "merge") then
        candidates ← mergeForgeCandidateGroups (dis_Sources discovery) includePrerelease;
        mret (candidates, ∅)
      else
        bySource ← M_each (source_candidates includePrerelease) ∅ (imap pair (dis_Sources discovery));
        mret ([], bySource)
  end.

Definition ForgeCandidates : Type := gmap string (list string) * gmap string (gmap string (list string)).
Definition image_candidates (images : gmap string ImageUpdateConfig)
    (discoverySources : option (gmap string ImageUpdateDiscovery)) (found : ForgeCandidates) (imageName : string)
    : M ForgeCandidates :=
  match images !! imageName with
  | None => mret found
  | Some image =>
      collected ← collectForgeCandidatesForDiscovery (ResolveImageUpdateDiscovery (img_Discovery image) discoverySources);
      mret (if decide (collected.1 = []) then found.1 else <[imageName := collected.1]> found.1,
            if decide (collected.2 = ∅) then found.2 else <[imageName := collected.2]> found.2)
  end.
Definition collectForgeImageCandidates (service : Service) (imageNames : list string) : M ForgeCandidates :=
  match sm_Update (svc_Meta service) with
  | None => mret (∅, ∅)
  | Some update =>
      if decide (upd_Images update = ∅) then mret (∅, ∅)
      else
        imageNames ← (if decide (imageNames = []) then ranged ← range_map (upd_Images update); mret ranged.*1
                      else mret imageNames);
        M_each (image_candidates (upd_Images update) (upd_DiscoverySources update)) (∅, ∅) imageNames
  end.
End forge.
