(* ===== verification/ServiceCommand.v ===== *)
(** * Actions on services: src/internal/app/controller/service_command.go

    An operator, the scheduler or the outbox asks for an action on a service;
    the controller creates a task for each node.  An update of images first
    plans the new tags, backs the service up when that is wanted, and commits
    the tags that are kept in files of the repository. *)
From S2P Require Export Forge ImageReports.

(** ** Requests *)
Inductive ServiceAction :=
| SERVICE_ACTION_UNSPECIFIED
| SERVICE_ACTION_DEPLOY
| SERVICE_ACTION_UPDATE
| SERVICE_ACTION_STOP
| SERVICE_ACTION_RESTART
| SERVICE_ACTION_BACKUP
| SERVICE_ACTION_DNS_UPDATE
| SERVICE_ACTION_CADDY_SYNC
| SERVICE_ACTION_CLOUDFLARE_TUNNEL_SYNC
| SERVICE_ACTION_IMAGE_CHECK.
Inductive ComposeRecreateMode :=
| COMPOSE_RECREATE_MODE_UNSPECIFIED
| COMPOSE_RECREATE_MODE_AUTO
| COMPOSE_RECREATE_MODE_NO_RECREATE
| COMPOSE_RECREATE_MODE_FORCE_RECREATE.
Record ImageUpdateSelection := MkImageUpdateSelection {
  sel_ImageName : string;
  sel_TargetTag : string;
  sel_UseDetected : bool;
}.
Record RunServiceActionRequest := MkRunServiceActionRequest {
  ra_ServiceName : string;
  ra_Action : ServiceAction;
  ra_NodeIds : list string;
  ra_DataNames : list string;
  ra_ImageUpdates : list ImageUpdateSelection;
  ra_UseAllDetectedImageUpdates : bool;
  ra_BackupBeforeUpdate : option bool;
  ra_BaseRevision : string;
  ra_CommitMessage : string;
  ra_ComposeRecreateMode : ComposeRecreateMode;
}.

Definition composeRecreateAuto : string := "auto".
Definition composeRecreateNo : string := "no_recreate".
Definition composeRecreateForce : string := "force_recreate".
Definition composeRecreateModeParam (taskType : string) (mode : ComposeRecreateMode) : string :=
  if decide (taskType ≠ TypeDeploy ∧ taskType ≠ TypeUpdate) then ""
  else match mode with
       | COMPOSE_RECREATE_MODE_NO_RECREATE => composeRecreateNo
       | COMPOSE_RECREATE_MODE_FORCE_RECREATE => composeRecreateForce
       | _ => composeRecreateAuto
       end.

(** Names, trimmed, each once, sorted. *)
Definition selection_name (names : list string) (selection : ImageUpdateSelection) : list string :=
  let name := TrimSpace (sel_ImageName selection) in
  if decide (name = "" ∨ name ∈ names) then names else names ++ [name].
Definition imageUpdateSelectionNames (selections : list ImageUpdateSelection) : list string :=
  string_sort (foldl selection_name [] selections).
Definition imageSelectionsUseDetected (selections : list ImageUpdateSelection) : bool :=
  existsb sel_UseDetected selections.
Definition sameNodeSet (left_ right_ : list string) : bool :=
  bool_decide (length left_ = length right_) && forallb (λ nodeID, bool_decide (nodeID ∈ left_)) right_.
Definition dedupeTaskKey (base nodeID : string) : string :=
  if decide (base = "") then "" else base +:+ ":" +:+ nodeID.

(** ** Settings: the image, the service, the controller, a default *)
Definition settled (values : list (option bool)) (fallback : bool) : bool := default fallback (head (omap id values)).
Section settings.
Context (cfg : ControllerConfig).
Definition cfg_setting (field : ControllerUpdatesConfig → option bool) : option bool := cc_Updates cfg ≫= field.
Definition effectiveDigestPin (update : UpdateConfig) (image : ImageUpdateConfig) : bool :=
  if IsDigestImageDiscovery (img_Discovery image) (upd_DiscoverySources update) then false
  else settled [img_DigestPin image; upd_DigestPin update; cfg_setting cu_DigestPin] true.
Definition effectiveImageAutoApply (update : UpdateConfig) (image : ImageUpdateConfig) : bool :=
  settled [img_AutoApply image; upd_AutoApply update; cfg_setting cu_AutoApply] false.
Definition effectiveBackupBeforeUpdate (update : option UpdateConfig) (image : option ImageUpdateConfig)
    (requestOverride : option bool) : bool :=
  settled [requestOverride; image ≫= img_BackupBeforeUpdate; update ≫= upd_BackupBeforeUpdate;
           cfg_setting cu_BackupBeforeUpdate] false.
Definition effectiveControllerSemverAllow : list string := default [] (cc_Updates cfg ≫= cu_Semver).
End settings.

(** ** The current value of an image in a file *)
Section current.
Definition newline_text : string := String newline "".
(** [strings.SplitAfter(s, "\n")] *)
Fixpoint keep_newlines (lines : list string) : list string :=
  match lines with
  | [] => []
  | [line] => [line]
  | line :: lines => (line +:+ newline_text) :: keep_newlines lines
  end.
Definition SplitAfter (s : string) : list string := keep_newlines (Split s newline).

(** The name of a line [name=value], trimmed, and its value. *)
Definition env_assignment (line : string) : option (string * string) :=
  let trimmed := TrimSpace line in
  if bool_decide (trimmed = "") || HasPrefix trimmed "#" then None
  else let '(name, value, found) := Cut trimmed "=" in
       if found then Some (TrimSpace name, value) else None.
Definition assigns (key line : string) : bool :=
  match env_assignment line with Some (name, _) => bool_decide (name = key) | None => false end.
Fixpoint replace_line (key targetValue : string) (lines : list string) : option (list string) :=
  match lines with
  | [] => None
  | line :: lines =>
      if assigns key (TrimSuffix line newline_text)
      then Some ((key +:+ "=" +:+ targetValue +:+ (if HasSuffix line newline_text then newline_text else "")) :: lines)
      else cons line <$> replace_line key targetValue lines
  end.
Definition replaceEnvFileValue (content key targetValue : string) : result string string :=
  match replace_line key targetValue (SplitAfter content) with
  | Some lines => Ok (Join lines "")
  | None => Err "source key not found"
  end.

(** The node at a path of keys, replaced: the first pair with each key. *)
Context {X : Type}.
Definition set_Value (value : string) (n : Node X) : Node X :=
  match n with MkNode k t _ x c => MkNode k t value x c end.
Fixpoint update_value (part : string) (f : Node X → result string (Node X)) (content : list (Node X))
    : result string (list (Node X)) :=
  match content with
  | k :: v :: rest =>
      if decide (node_Value k = part) then result_bind (f v) (λ v, Ok (k :: v :: rest))
      else result_bind (update_value part f rest) (λ rest, Ok (k :: v :: rest))
  | _ => Err "source path not found"
  end.
Fixpoint update_path (path : list string) (f : Node X → result string (Node X)) (n : Node X)
    : result string (Node X) :=
  match path with
  | [] => f n
  | part :: path =>
      if decide (node_Kind n ≠ MappingNode) then Err "source path is not a mapping"
      else result_bind (update_value part (update_path path f) (node_Content n)) (λ content,
           Ok (set_Content content n))
  end.
Definition update_root (f : Node X → result string (Node X)) (root : Node X) : result string (Node X) :=
  match node_Content root with
  | first :: others =>
      if decide (node_Kind root = DocumentNode)
      then result_bind (f first) (λ first, Ok (set_Content (first :: others) root))
      else f root
  | [] => f root
  end.
Definition set_scalar (value : string) (target : Node X) : result string (Node X) :=
  if decide (node_Kind target ≠ ScalarNode) then Err "source path is not scalar" else Ok (set_Value value target).
Definition dot : Ascii.ascii := byte 46.
Definition replace_at (sourcePath value : string) (root : Node X) : result string (Node X) :=
  update_root (update_path (Split sourcePath dot) (set_scalar value)) root.
End current.

Definition replaceYAMLPathImageValue `{MetaDocuments} (content sourcePath imageRef targetValue : string)
    : result string string :=
  result_bind (parse_document content) (λ node,
  result_bind (replace_at sourcePath (imageRef +:+ ":" +:+ targetValue) node) print_document).

Definition applyImageCurrentUpdate `{MetaDocuments} (content : string) (current : ImageUpdateCurrent)
    (imageRef targetValue : string) : result string string :=
  match cur_Env current, cur_YAML current with
  | Some env, _ => replaceEnvFileValue content (cenv_Key env) targetValue
  | None, Some yaml => replaceYAMLPathImageValue content (cyaml_Path yaml) imageRef targetValue
  | None, None => Err "current must specify env or yaml"
  end.

(** ** Plans *)
Record plannedImageUpdate := MkPlannedImageUpdate {
  plan_ImageName : string;
  plan_Tag : string;
  plan_Digest : string;
  plan_RepoBacked : bool;
}.
(** An image followed by digest keeps its tag: there is nothing to write. *)
Definition plan_mutable (imageName : string) : plannedImageUpdate := MkPlannedImageUpdate imageName "" "" false.

Record serviceTaskCreateOptions := MkServiceTaskCreateOptions {
  opt_AttemptOfTaskID : string;
  opt_Source : string;
  opt_CreatedAt : option Time.time;
  opt_ComposeRecreateMode : string;
  opt_ImageNames : list string;
  opt_ImageCheckBatchID : string;
  opt_SemverAllow : list string;
  opt_ForgeCandidates : gmap string (list string);
  opt_ForgeCandidateSources : gmap string (gmap string (list string));
  opt_DedupeKey : string;
}.
Definition options_of (source : string) : serviceTaskCreateOptions :=
  MkServiceTaskCreateOptions "" source None "" [] "" [] ∅ ∅ "".
Definition set_forge (found : ForgeCandidates) (o : serviceTaskCreateOptions) : serviceTaskCreateOptions :=
  MkServiceTaskCreateOptions (opt_AttemptOfTaskID o) (opt_Source o) (opt_CreatedAt o) (opt_ComposeRecreateMode o)
    (opt_ImageNames o) (opt_ImageCheckBatchID o) (opt_SemverAllow o) found.1 found.2 (opt_DedupeKey o).
Definition params_of_options (serviceDir : string) (dataNames : list string) (batchID : string)
    (o : serviceTaskCreateOptions) : serviceTaskParams :=
  MkServiceTaskParams serviceDir [] "" dataNames (opt_ImageNames o) batchID (opt_SemverAllow o)
    (opt_ForgeCandidates o) (opt_ForgeCandidateSources o) false "" "" [] (opt_ComposeRecreateMode o) ""
    false false false false.

(** The standard output of [docker buildx imagetools inspect]. *)
Class DockerCommand := imagetools_inspect : nat → string → result string string.

Section commands.
Context `{DnsState} `{GitState} `{!Environment} `{!GitCommand} `{ForgeLibraries} `{DockerCommand}.
Context `{Disk} `{MetaDecoder} `{Cron} `{Libraries} `{Secrets} `{SQLite} `{ParamsJSON} `{MetaDocuments}.
Context (cfg : ControllerConfig) (availableNodeIDs : gset string).

Definition precondition {A} (message : string) : M A := fail (NewError CodeFailedPrecondition message).
Definition or_precondition {A} (r : result string A) : M A := lift (with_code CodeFailedPrecondition r).

Definition validateRusticServiceTargetNode (rusticService : Service) (nodeID : string) : result string () :=
  if decide (nodeID ∈ svc_TargetNodes rusticService) then Ok () else Err "rustic infra service is not declared on node".

(** The tasks that hold the keys of the nodes, if all of them exist. *)
Fixpoint existing_tasks (dedupeKey : string) (nodeIDs : list string) : M (option (list TaskRecord)) :=
  match nodeIDs with
  | [] => mret (Some [])
  | nodeID :: nodeIDs =>
      found ← attempt (store_read plain (GetTaskByDedupeKey (dedupeTaskKey dedupeKey nodeID)));
      match found with
      | Err _ => mret None
      | Ok record => others ← existing_tasks dedupeKey nodeIDs; mret (cons record <$> others)
      end
  end.

(** Identifiers and clocks for the records of a batch. *)
Definition draw_entries (records : list TaskRecord) : M (list BatchEntry) :=
  M_each (λ entries record, uuid ← new_uuid; t ← now; mret (entries ++ [(record, (uuid, t))])) [] records.
Definition pending_task (ctx : Context_) (options : serviceTaskCreateOptions) (service : Service)
    (taskType paramsJSON repoRevision : string) (pending : list TaskRecord) (nodeID : string) : M (list TaskRecord) :=
  taskID ← new_uuid;
  mret (pending ++ [new_record cfg taskID taskType
    (if decide (opt_Source options = "") then SourceCLI else opt_Source options) (default "" (BearerSubject ctx))
    (svc_Name service) nodeID paramsJSON repoRevision (opt_AttemptOfTaskID options)
    (dedupeTaskKey (opt_DedupeKey options) nodeID) (derefTime (opt_CreatedAt options))]).
Definition announce (created : list TaskRecord) : M () :=
  M_each (λ _ record, emit (EvCreated (rec_Type record) (rec_NodeID record))) () created.

Definition check_backup_nodes (taskType : string) (targetNodeIDs : list string) : M () :=
  if decide (taskType ≠ TypeBackup) then mret ()
  else
    t ← tree;
    rusticService ← or_precondition (FindRusticInfraService (cc_RepoDir cfg) (rt_entries t) availableNodeIDs);
    or_precondition (for_each (λ _ nodeID, validateRusticServiceTargetNode rusticService nodeID) () targetNodeIDs).
Definition with_candidates (service : Service) (taskType : string) (options : serviceTaskCreateOptions)
    : M serviceTaskCreateOptions :=
  if decide (taskType = TypeImageCheck ∧ opt_ForgeCandidates options = ∅) then
    found ← recode CodeFailedPrecondition (collectForgeImageCandidates cfg service (opt_ImageNames options));
    mret (set_forge found options)
  else mret options.

Definition createServiceTasksWithOptions (ctx : Context_) (serviceName : string) (nodeIDs : list string)
    (taskType : string) (dataNames : list string) (options : serviceTaskCreateOptions) : M (list TaskRecord) :=
  if decide (serviceName = "") then invalid_argument "service_name is required"
  else
    t ← tree;
    service ← lift (with_code CodeNotFound (FindService (cc_RepoDir cfg) (rt_entries t) availableNodeIDs serviceName));
    targetNodeIDs ← or_precondition (resolveTargetNodeIDs service nodeIDs);
    if decide (targetNodeIDs = []) then precondition "service does not have any target nodes"
    else
      _ ← check_backup_nodes taskType targetNodeIDs;
      options ← with_candidates service taskType options;
      _ ← M_each (λ _ nodeID, validateTaskTargetNode cfg nodeID taskType) () targetNodeIDs;
      repoRevision ← recode CodeFailedPrecondition CurrentRevision;
      serviceDir ← service_dir cfg service;
      batchID ← (if decide (taskType = TypeImageCheck ∧ opt_ImageCheckBatchID options = "") then new_uuid
                 else mret (opt_ImageCheckBatchID options));
      let paramsJSON := marshal_params (params_of_options serviceDir dataNames batchID options) in
      pendingTasks ← M_each (pending_task ctx options service taskType paramsJSON repoRevision) [] targetNodeIDs;
      entries ← draw_entries pendingTasks;
      created ← attempt (store plain (CreateTasksIfNoActiveServiceInstanceTasks entries));
      match created with
      | Err e =>
          existing ← (if decide (opt_DedupeKey options = "") then mret None
                      else existing_tasks (opt_DedupeKey options) targetNodeIDs);
          match existing, e with
          | Some records, _ => mret records
          | None, StoreFailed _ e => fail (connectTaskAdmissionError e)
          | None, e => fail e
          end
      | Ok createdTasks =>
          _ ← announce createdTasks;
          _ ← M_each (λ _ _, create_log_file) () createdTasks;
          _ ← (if decide (taskType = TypeDeploy ∨ taskType = TypeUpdate)
               then t ← now; store_write plain (λ db, Ok (ClearServicePendingDeploy serviceName t db))
               else mret ());
          mret createdTasks
      end.
(** [createdTasks[0]]: there is one task for each node. *)
Definition createServiceTaskWithOptions (ctx : Context_) (serviceName nodeID taskType : string)
    (dataNames : list string) (options : serviceTaskCreateOptions) : M TaskRecord :=
  created ← createServiceTasksWithOptions ctx serviceName [nodeID] taskType dataNames options;
  match head created with
  | Some record => mret record
  | None => fail (NewError CodeUnknown "index out of range")
  end.

(** ** Backups before an update *)
Definition resolveUpdateBackupDataNames (service : Service) : result string (list string) :=
  let requested := EnabledUpdateBackupDataNames service in
  let listed := match sm_Update (svc_Meta service) with Some update => upd_BackupData update | None => [] end in
  if decide (listed ≠ [] ∧ requested = []) then Err "service does not have any enabled update backup data items"
  else ValidateRequestedBackupDataNames service requested.
Definition runBackupsBeforeUpdate (ctx : Context_) (service : Service) (targetNodeIDs : list string)
    (source dedupeKey : string) : M () :=
  if decide (EnabledBackupDataNames service = []) then mret ()
  else
    dataNames ← or_precondition (resolveUpdateBackupDataNames service);
    backupTasks ← M_each (λ tasks nodeID,
      record ← createServiceTaskWithOptions ctx (svc_Name service) nodeID TypeBackup dataNames
        (MkServiceTaskCreateOptions "" source None "" [] "" [] ∅ ∅
           (if decide (dedupeKey = "") then "" else dedupeKey +:+ ":backup"));
      mret (tasks ++ [record])) [] targetNodeIDs;
    M_each (λ _ record, recode CodeFailedPrecondition (waitTask (rec_TaskID record) (10 * Time.Minute)%Z)) () backupTasks.

Definition planned_names (planned : list plannedImageUpdate) (selections : list ImageUpdateSelection) : list string :=
  (plan_ImageName <$> planned) ++ filter (λ name, name ≠ "") ((λ s, TrimSpace (sel_ImageName s)) <$> selections).
Definition serviceImageUpdatesNeedBackup (update : UpdateConfig) (planned : list plannedImageUpdate)
    (selections : list ImageUpdateSelection) (requestOverride : option bool) : bool :=
  existsb (λ imageName,
    match upd_Images update !! imageName with
    | Some image => effectiveBackupBeforeUpdate cfg (Some update) (Some image) requestOverride
    | None => false
    end) (planned_names planned selections).

(** ** The plan of an update *)
Definition detected (check : option ServiceImageUpdateCheck) : option ServiceImageUpdateCheck :=
  match check with Some check => if imc_UpdateAvailable check then Some check else None | None => None end.
Definition plan_detected (update : UpdateConfig) (checksByImage : gmap string ServiceImageUpdateCheck)
    (explicitNames : list string) (planned : list plannedImageUpdate) (named : string * ImageUpdateConfig)
    : result ConnectError (list plannedImageUpdate) :=
  let '(imageName, image) := named in
  if decide (imageName ∈ explicitNames) then Ok planned
  else match detected (checksByImage !! imageName) with
  | None => Ok planned
  | Some check =>
      if IsDigestImageDiscovery (img_Discovery image) (upd_DiscoverySources update)
      then Ok (planned ++ [plan_mutable imageName])
      else if decide (imc_CandidateTag check = "")
      then Err (NewError CodeFailedPrecondition "detected image update is missing candidate_tag")
      else Ok (planned ++ [MkPlannedImageUpdate imageName (imc_CandidateTag check) (imc_CandidateDigest check) true])
  end.
Definition plan_tag (checksByImage : gmap string ServiceImageUpdateCheck) (selection : ImageUpdateSelection)
    (imageName : string) : result ConnectError (string * string) :=
  if sel_UseDetected selection then
    match detected (checksByImage !! imageName) with
    | Some check =>
        if decide (imc_CandidateTag check = "")
        then Err (NewError CodeFailedPrecondition "image update does not have a detected candidate")
        else Ok (imc_CandidateTag check, imc_CandidateDigest check)
    | None => Err (NewError CodeFailedPrecondition "image update does not have a detected candidate")
    end
  else if decide (TrimSpace (sel_TargetTag selection) = "")
  then Err (NewError CodeInvalidArgument "pinned image update requires target_tag or use_detected")
  else Ok (TrimSpace (sel_TargetTag selection), "").
Definition plan_selection (update : UpdateConfig) (checksByImage : gmap string ServiceImageUpdateCheck)
    (st : list string * list plannedImageUpdate) (selection : ImageUpdateSelection)
    : result ConnectError (list string * list plannedImageUpdate) :=
  let imageName := TrimSpace (sel_ImageName selection) in
  if decide (imageName = "") then Err (NewError CodeInvalidArgument "image update image_name is required")
  else if decide (imageName ∈ st.1) then Err (NewError CodeInvalidArgument "image update is duplicated")
  else match upd_Images update !! imageName with
  | None => Err (NewError CodeFailedPrecondition "service does not declare update.images")
  | Some image =>
      let seen := imageName :: st.1 in
      if IsDigestImageDiscovery (img_Discovery image) (upd_DiscoverySources update) then
        if negb (bool_decide (sel_TargetTag selection = "")) || sel_UseDetected selection
        then Err (NewError CodeInvalidArgument "mutable image update does not accept target_tag or use_detected")
        else Ok (seen, st.2 ++ [plan_mutable imageName])
      else
        result_bind (plan_tag checksByImage selection imageName) (λ '(tag, digest),
        Ok (seen, st.2 ++ [MkPlannedImageUpdate imageName tag digest true]))
  end.
Definition planRequestedServiceImageUpdates (service : Service) (targetNodeIDs : list string)
    (selections : list ImageUpdateSelection) (useAllDetected : bool) : M (UpdateConfig * list plannedImageUpdate) :=
  match sm_Update (svc_Meta service) with
  | None => precondition "service does not declare update.images"
  | Some update =>
      if decide (upd_Images update = ∅) then precondition "service does not declare update.images"
      else if decide (targetNodeIDs = []) then precondition "service does not have any target nodes"
      else
        checks ← recode CodeInternal (latest_checks service);
        let checksByImage := by_image checks in
        let explicitNames := (λ s, TrimSpace (sel_ImageName s)) <$> selections in
        ranged ← (if useAllDetected then range_map (upd_Images update) else mret []);
        planned ← lift (for_each (plan_detected update checksByImage explicitNames) [] ranged);
        planned ← lift (for_each (plan_selection update checksByImage) ([], planned) selections);
        if useAllDetected && bool_decide (selections = []) && bool_decide (planned.2 = [])
        then precondition "service does not have any detected image updates"
        else mret (update, planned.2)
  end.
Definition repoBackedPlannedImageUpdates (planned : list plannedImageUpdate) : list plannedImageUpdate :=
  filter (λ update, plan_RepoBacked update = true) planned.

(** ** Writing the tags *)
Definition errImageUpdatesAlreadyApplied : ConnectError := NewError CodeUnknown "image updates are already applied".
Definition zero_image : ImageUpdateConfig :=
  MkImageUpdateConfig "" None "" None None (MkImageUpdateCurrent "" None None) (MkImageUpdateDiscovery "" [] "" None) None.
Definition planned_image (update : UpdateConfig) (plan : plannedImageUpdate) : ImageUpdateConfig :=
  default zero_image (upd_Images update !! plan_ImageName plan).
Definition image_path (serviceDir : string) (image : ImageUpdateConfig) : string :=
  JoinPath [serviceDir; ImageUpdateCurrentFile (img_Current image)].
Definition planned_path (update : UpdateConfig) (serviceDir : string) (paths : list string) (plan : plannedImageUpdate)
    : result ConnectError (list string) :=
  let image := planned_image update plan in
  if decide (ImageUpdateCurrentFile (img_Current image) = "")
  then Err (NewError CodeFailedPrecondition "image update is not repo-backed")
  else let path := image_path serviceDir image in Ok (if decide (path ∈ paths) then paths else paths ++ [path]).

Definition stored_error_text (e : StoredContentError) : string :=
  match e with
  | errInvalidEncryptedPath => ".enc is reserved for encrypted files"
  | errSecretsNotConfigured => "controller secrets are not configured"
  | EncryptFailed => "encrypt repo file"
  end.
Definition stored_or_precondition (r : result StoredContentError string) : M string :=
  lift (match r with Ok s => Ok s | Err e => Err (NewError CodeFailedPrecondition (stored_error_text e)) end).
Definition read_file (path : string) : M FileContent :=
  r ← files_read (λ fs, ReadFile fs path);
  lift (match r with Ok file => Ok file | Err e => Err (mapRepoMutationError e) end).
Definition read_content (contents : gmap string string) (path : string) : M (gmap string string) :=
  file ← read_file path;
  content ← stored_or_precondition (repoFileContent cfg path (fc_Content file));
  mret (<[path := content]> contents).

Definition inspectControllerRemoteImageDigest (imageRef : string) : M string :=
  n ← yield_;
  stdout ← lift (with_code CodeUnknown (imagetools_inspect n imageRef));
  let digest := TrimSpace stdout in
  if decide (digest = "" ∨ digest = "<no value>")
  then fail (NewError CodeUnknown "docker buildx imagetools inspect did not return a digest")
  else mret digest.
(** The tag to write, with the digest it has when it is pinned. *)
Definition target_value (update : UpdateConfig) (image : ImageUpdateConfig) (plan : plannedImageUpdate) : M string :=
  let pin := effectiveDigestPin cfg update image in
  digest ← (if pin && bool_decide (plan_Digest plan = "")
            then recode CodeFailedPrecondition
                   (inspectControllerRemoteImageDigest (img_Image image +:+ ":" +:+ plan_Tag plan))
            else mret (plan_Digest plan));
  mret (if pin && negb (bool_decide (digest = "")) then plan_Tag plan +:+ "@" +:+ digest else plan_Tag plan).
Definition apply_planned (update : UpdateConfig) (serviceDir : string) (st : gmap string string * bool)
    (plan : plannedImageUpdate) : M (gmap string string * bool) :=
  let image := planned_image update plan in
  value ← target_value update image plan;
  let path := image_path serviceDir image in
  let content := default "" (st.1 !! path) in
  updatedContent ← or_precondition (applyImageCurrentUpdate content (img_Current image) (img_Image image) value);
  mret (<[path := updatedContent]> st.1, st.2 || negb (bool_decide (updatedContent = content))).

(** The files are written one after the other; what they held is kept to
    undo a commit that fails. *)
Definition write_planned (contents : gmap string string) (snapshots : list (string * string)) (path : string)
    : M (list (string * string)) :=
  current ← read_file path;
  stored ← stored_or_precondition (storedRepoFileContent cfg path (default "" (contents !! path)));
  _ ← files_step mapRepoMutationError (λ fs, WriteFile fs path stored);
  mret (snapshots ++ [(path, fc_Content current)]).
Definition unwrite (snapshots : list (string * string)) : M () :=
  M_each (λ _ written,
    _ ← attempt (files_step mapRepoMutationError (λ fs, WriteFile fs written.1 written.2)); mret ()) () snapshots.
Definition apply_transaction (update : UpdateConfig) (serviceDir : string) (planned : list plannedImageUpdate)
    (paths : list string) (commitMessage : string) (baseSyncState : RepoSyncState) : M repoWriteResult :=
  contents ← M_each read_content ∅ paths;
  applied ← M_each (apply_planned update serviceDir) (contents, false) planned;
  if negb applied.2 then fail errImageUpdatesAlreadyApplied
  else
    snapshots ← M_each (write_planned applied.1) [] paths;
    commitID ← committed_or (commitRepoPaths cfg paths (TrimSpace commitMessage)) (unwrite snapshots);
    finalizeRepoWrite cfg availableNodeIDs commitID baseSyncState.

(** [None]: the files already have the tags. *)
Definition applyPlannedServiceImageUpdates (service : Service) (update : UpdateConfig)
    (planned : list plannedImageUpdate) (baseRevision commitMessage : string) (allowAlreadyApplied : bool)
    : M (option repoWriteResult) :=
  serviceDir ← service_dir cfg service;
  paths ← lift (for_each (planned_path update serviceDir) [] planned);
  let paths := string_sort paths in
  r ← attempt (runRepoWrite cfg availableNodeIDs baseRevision paths
                 (apply_transaction update serviceDir planned paths commitMessage));
  match r with
  | Ok result => mret (Some result)
  | Err e =>
      if decide (e = errImageUpdatesAlreadyApplied) then
        if allowAlreadyApplied then mret None else precondition "image updates are already applied"
      else fail e
  end.

(** ** The update *)
Definition runServiceUpdateWithImageSelections (ctx : Context_) (service : Service) (nodeIDs : list string)
    (selections : list ImageUpdateSelection) (useAllDetected : bool) (backupBeforeUpdateOverride : option bool)
    (baseRevision commitMessage source composeRecreateMode dedupeKey : string)
    : M (list TaskRecord * option repoWriteResult) :=
  targetNodeIDs ← or_precondition (resolveTargetNodeIDs service nodeIDs);
  if decide (targetNodeIDs = []) then precondition "service does not have any target nodes"
  else if (useAllDetected || imageSelectionsUseDetected selections) &&
          negb (sameNodeSet targetNodeIDs (svc_TargetNodes service))
  then precondition "detected image updates require all service target nodes"
  else
    existing ← (if decide (dedupeKey = "") then mret None else existing_tasks dedupeKey targetNodeIDs);
    match existing with
    | Some records => mret (records, None)
    | None =>
        plan ← planRequestedServiceImageUpdates service targetNodeIDs selections useAllDetected;
        let '(update, planned) := plan in
        let repoBackedPlanned := repoBackedPlannedImageUpdates planned in
        if bool_decide (repoBackedPlanned ≠ []) && bool_decide (TrimSpace baseRevision = "")
        then invalid_argument "base_revision is required for repo-backed image updates"
        else if bool_decide (repoBackedPlanned ≠ []) && bool_decide (TrimSpace commitMessage = "")
        then invalid_argument "commit_message is required for repo-backed image updates"
        else
          _ ← (if serviceImageUpdatesNeedBackup update planned selections backupBeforeUpdateOverride
               then runBackupsBeforeUpdate ctx service targetNodeIDs source dedupeKey else mret ());
          repoWrite ← (if decide (repoBackedPlanned = []) then mret None
            else applyPlannedServiceImageUpdates service update repoBackedPlanned baseRevision commitMessage
                   (bool_decide (dedupeKey ≠ "")));
          createdTasks ← createServiceTasksWithOptions ctx (svc_Name service) targetNodeIDs TypeUpdate []
            (MkServiceTaskCreateOptions "" source None composeRecreateMode (imageUpdateSelectionNames selections)
               "" [] ∅ ∅ dedupeKey);
          mret (createdTasks, repoWrite)
    end.

(** ** RunServiceAction *)
(** The type of the tasks and the data names, or the task of an action of its
    own. *)
Inductive ActionPlan :=
| CreateTasks (taskType : string) (nodeIDs dataNames : list string)
| SyncTunnel.
Definition update_checks_enabled (service : Service) : bool :=
  match sm_Update (svc_Meta service) with
  | None => false
  | Some update => default true (upd_Enabled update) && negb (bool_decide (upd_Images update = ∅))
  end.
Definition plan_action (service : Service) (req : RunServiceActionRequest) : result ConnectError ActionPlan :=
  let refuse {A} message : result ConnectError A := Err (NewError CodeFailedPrecondition message) in
  match ra_Action req with
  | SERVICE_ACTION_DEPLOY => Ok (CreateTasks TypeDeploy (ra_NodeIds req) [])
  | SERVICE_ACTION_UPDATE => Ok (CreateTasks TypeUpdate (ra_NodeIds req) [])
  | SERVICE_ACTION_STOP => Ok (CreateTasks TypeStop (ra_NodeIds req) [])
  | SERVICE_ACTION_RESTART =>
      if IsConfigInfra (svc_Meta service) then refuse "service declares infra.config and cannot be restarted"
      else Ok (CreateTasks TypeRestart (ra_NodeIds req) [])
  | SERVICE_ACTION_BACKUP =>
      match ValidateRequestedBackupDataNames service (ra_DataNames req) with
      | Ok dataNames => Ok (CreateTasks TypeBackup (ra_NodeIds req) dataNames)
      | Err e => refuse e
      end
  | SERVICE_ACTION_DNS_UPDATE =>
      match sm_Network (svc_Meta service) ≫= net_DNS with
      | None => refuse "service does not declare network.dns"
      | Some dns =>
          if decide (Entries (Some dns) = []) then refuse "service does not declare network.dns"
          else if decide (cc_DNS cfg = None) then refuse "controller dns is not configured"
          else Ok (CreateTasks TypeDNSUpdate [] [])
      end
  | SERVICE_ACTION_CADDY_SYNC =>
      if CaddyManaged service then Ok (CreateTasks TypeCaddySync (ra_NodeIds req) [])
      else refuse "service does not declare network.caddy"
  | SERVICE_ACTION_CLOUDFLARE_TUNNEL_SYNC => Ok SyncTunnel
  | SERVICE_ACTION_IMAGE_CHECK =>
      if update_checks_enabled service then Ok (CreateTasks TypeImageCheck [] [])
      else refuse "service does not enable image update checks"
  | SERVICE_ACTION_UNSPECIFIED => Err (NewError CodeInvalidArgument "action is required")
  end.

Definition with_recreate (mode : string) (semverAllow : list string) (source : string) : serviceTaskCreateOptions :=
  MkServiceTaskCreateOptions "" source None mode [] "" semverAllow ∅ ∅ "".
(** [source] is the source of the request's header. *)
Definition RunServiceAction (ctx : Context_) (source : string) (req : RunServiceActionRequest)
    : M (list TaskRecord * option repoWriteResult) :=
  if decide (ra_ServiceName req = "") then invalid_argument "service_name is required"
  else
    t ← tree;
    service ← lift (with_code CodeNotFound
                (FindService (cc_RepoDir cfg) (rt_entries t) availableNodeIDs (ra_ServiceName req)));
    action ← lift (plan_action service req);
    match action with
    | SyncTunnel =>
        created ← createServiceCloudflareTunnelSyncTask cfg availableNodeIDs ctx (svc_Name service) "" source "";
        mret ([created], None)
    | CreateTasks taskType nodeIDs dataNames =>
        let mode := composeRecreateModeParam taskType (ra_ComposeRecreateMode req) in
        if bool_decide (taskType = TypeUpdate) &&
           (negb (bool_decide (ra_ImageUpdates req = [])) || ra_UseAllDetectedImageUpdates req)
        then runServiceUpdateWithImageSelections ctx service nodeIDs (ra_ImageUpdates req)
               (ra_UseAllDetectedImageUpdates req) (ra_BackupBeforeUpdate req) (ra_BaseRevision req)
               (ra_CommitMessage req) source mode ""
        else
          _ ← (if bool_decide (taskType = TypeUpdate) &&
                  effectiveBackupBeforeUpdate cfg (sm_Update (svc_Meta service)) None (ra_BackupBeforeUpdate req)
               then
                 targetNodeIDs ← or_precondition (resolveTargetNodeIDs service nodeIDs);
                 if decide (targetNodeIDs = []) then precondition "service does not have any target nodes"
                 else runBackupsBeforeUpdate ctx service targetNodeIDs source ""
               else mret ());
          created ← createServiceTasksWithOptions ctx (ra_ServiceName req) nodeIDs taskType dataNames
            (with_recreate mode (if decide (taskType = TypeImageCheck) then effectiveControllerSemverAllow cfg else [])
               source);
          mret (created, None)
    end.
End commands.
