(* ===== verification/AgentImages.v ===== *)
(** * Image updates on the agent
    (src/internal/app/agent/image_update.go, filter.go, discovery.go,
    registry.go)

    The agent of the first target node finds the newer tags of an image: it
    reads the current tag from a file of the service, asks the registry or the
    candidates the controller sent along, and filters them.  The registry, the
    semver, date and regular expression libraries are classes; running docker
    and HTTP are left out. *)
From stdpp Require Import pretty.
From S2P Require Export ServiceCommand.

(** ** The current value (image_update.go) *)
Definition quote_encodings : list string := [String (byte 34) ""; String (byte 39) ""].
(** [strings.Trim(s, cutset)] with both quotes *)
Definition TrimQuotes (s : string) : string :=
  let left_ := trim_left quote_encodings (String.length s) s in
  String.rev (trim_left quote_encodings (String.length left_) (String.rev left_)).

Fixpoint env_value (key : string) (lines : list string) : option string :=
  match lines with
  | [] => None
  | line :: lines =>
      match env_assignment line with
      | Some (name, value) =>
          if decide (name = key) then Some (TrimQuotes (TrimSpace value)) else env_value key lines
      | None => env_value key lines
      end
  end.
Definition envFileValue (content key : string) : result string string :=
  match env_value key (Split content newline) with
  | Some value => Ok value
  | None => Err "source key not found"
  end.

Section yaml.
Context {X : Type}.
Fixpoint value_of (part : string) (content : list (Node X)) : option (Node X) :=
  match content with
  | k :: v :: rest => if decide (node_Value k = part) then Some v else value_of part rest
  | _ => None
  end.
Fixpoint node_at (path : list string) (n : Node X) : result string (Node X) :=
  match path with
  | [] => Ok n
  | part :: path =>
      if decide (node_Kind n ≠ MappingNode) then Err "source path is not a mapping"
      else match value_of part (node_Content n) with
           | None => Err "source path not found"
           | Some v => node_at path v
           end
  end.
Definition document_root (root : Node X) : Node X :=
  match node_Content root with
  | first :: _ => if decide (node_Kind root = DocumentNode) then first else root
  | [] => root
  end.
Definition string_at (path : string) (root : Node X) : result string string :=
  result_bind (node_at (Split path dot) (document_root root)) (λ n,
  if decide (node_Kind n ≠ ScalarNode) then Err "source path is not scalar" else Ok (TrimSpace (node_Value n))).
End yaml.
Definition yamlPathStringValue `{MetaDocuments} (content path : string) : result string string :=
  result_bind (parse_document content) (string_at path).

Definition splitTagDigest (value : string) : string * string :=
  let '(tag, digest, hasDigest) := Cut (TrimSpace value) "@" in
  if hasDigest then (tag, digest) else (tag, "").
(** The recursion is on the text before the last [@]: the length is enough. *)
Fixpoint split_ref (fuel : nat) (value : string) : string * string :=
  let value := TrimSpace value in
  match LastIndex value "@", fuel with
  | Some at_, S fuel => ((split_ref fuel (take_bytes at_ value)).1, drop_bytes (S at_) value)
  | Some _, 0 => ("", "")
  | None, _ =>
      match LastIndex value ":" with
      | Some colon =>
          let tag := drop_bytes (S colon) value in
          if Contains tag "/" then (value, "") else (tag, "")
      | None => (value, "")
      end
  end.
Definition splitImageRefTagDigest (value : string) : string * string := split_ref (S (String.length value)) value.

(** The value, the tag and the digest; [read] is the file system. *)
Definition currentImageUpdateValue `{MetaDocuments} (read : string → option string) (image : ImageUpdateConfig)
    : result string (string * string * string) :=
  let current := img_Current image in
  if decide (cur_Tag current ≠ "") then Ok (cur_Tag current, cur_Tag current, "")
  else
    let content file := match read (RuntimeFilePath file) with
                        | Some content => Ok content
                        | None => Err "read image update current"
                        end in
    match cur_Env current, cur_YAML current with
    | None, None => Err "image update current source is required"
    | Some env, _ =>
        result_bind (content (cenv_File env)) (λ content,
        result_bind (envFileValue content (cenv_Key env)) (λ value,
        let '(tag, digest) := splitTagDigest value in Ok (value, tag, digest)))
    | None, Some yaml =>
        result_bind (content (cyaml_File yaml)) (λ content,
        result_bind (yamlPathStringValue content (cyaml_Path yaml)) (λ value,
        let '(tag, digest) := splitImageRefTagDigest value in Ok (value, tag, digest)))
    end.

(** ** Digests *)
Definition normalizeImageDigest (value : string) : string :=
  let value := TrimSpace value in
  match LastIndex value "@" with Some at_ => drop_bytes (S at_) value | None => value end.
Definition digest_of_line `{ImageReferences} (configuredName line : string) : option string :=
  let line := TrimSpace line in
  separator ← LastIndex line "@";
  observed ← ParseNormalizedNamed (take_bytes separator line);
  if decide (FamiliarName (TrimNamed observed) = configuredName)
  then Some (normalizeImageDigest (drop_bytes (S separator) line)) else None.
Definition digestForImageRefFromRepoDigests `{ImageReferences} (output imageRef : string) : string :=
  match ParseNormalizedNamed imageRef with
  | None => ""
  | Some configured =>
      let configuredName := FamiliarName (TrimNamed configured) in
      default "" (head (omap (digest_of_line configuredName) (Split output newline)))
  end.
Definition appendImageObservationError (existing next : string) : string :=
  if decide (existing = "") then next else existing +:+ "; " +:+ next.

(** ** filter.go *)
(** The values of [int] and [uint64], in 64 bits. *)
Definition uint64 (n : Z) : Z := (n `mod` 2 ^ 64)%Z.
Definition int64 (n : Z) : Z := ((n + 2 ^ 63) `mod` 2 ^ 64 - 2 ^ 63)%Z.
(** [strconv.ParseInt(s, 10, 64)] *)
Definition digit_value (c : Ascii.ascii) : Z := (Z.of_nat (Ascii.nat_of_ascii c) - 48)%Z.
Fixpoint digits_value (acc : Z) (s : string) : Z :=
  match s with
  | EmptyString => acc
  | String c s => digits_value (10 * acc + digit_value c)%Z s
  end.
Definition parse_digits (s : string) : option Z :=
  if bool_decide (s = "") || negb (all_bytes is_digit_byte s) then None else Some (digits_value 0 s).
Definition ParseInt (s : string) : option Z :=
  n ← match s with
      | String "+" s => parse_digits s
      | String "-" s => Z.opp <$> parse_digits s
      | s => parse_digits s
      end;
  if decide (- 2 ^ 63 ≤ n < 2 ^ 63)%Z then Some n else None.

(** Masterminds/semver: versions of three numbers below 2^64, ordered by
    precedence; a version of three numbers alone is ordered by them. *)
Class Semver := {
  semver_version : Type;
  StrictNewVersion : string → option semver_version;
  semver_Major : semver_version → Z;
  semver_Minor : semver_version → Z;
  semver_Patch : semver_version → Z;
  semver_Compare : semver_version → semver_version → Z;
}.
(** [time.Parse] with any layout, [regexp], and [slices.SortFunc]: sorted,
    the order of equal elements is not determined. *)
Class TagLibraries := {
  time_Parse : string → string → option Time.time;
  compiled_regexp : Type;
  regexp_Compile : string → option compiled_regexp;
  FindStringSubmatch : compiled_regexp → string → list string;
  SortFunc : ∀ {A : Type}, (A → A → Z) → list A → list A;
}.

Section filter.
Context `{Semver} `{TagLibraries}.

Record simpleSemver := MkSimpleSemver {
  ss_Major : Z;
  ss_Minor : Z;
  ss_Patch : Z;
  ss_version : semver_version;
}.
(** The conversions of a [uint64] to [int] and back: they give the number
    again, so the test never fails. *)
Definition semverComponentToInt (value : Z) : option Z :=
  let converted := int64 value in if decide (uint64 converted = value) then Some converted else None.
Definition simple_of (version : semver_version) : option simpleSemver :=
  major ← semverComponentToInt (semver_Major version);
  minor ← semverComponentToInt (semver_Minor version);
  patch ← semverComponentToInt (semver_Patch version);
  Some (MkSimpleSemver major minor patch version).
Definition parseSimpleSemver (value : string) : option simpleSemver :=
  StrictNewVersion (TrimPrefix (TrimSpace value) "v") ≫= simple_of.
Definition ss_compare (version other : simpleSemver) : Z := semver_Compare (ss_version version) (ss_version other).
Definition greaterThan (version other : simpleSemver) : bool := bool_decide (0 < ss_compare version other)%Z.

Definition semverAllowedUpdates (allow : list string) : list string :=
  TrimSpace <$> (if decide (allow = []) then ["patch"; "minor"] else allow).
Definition update_type (current candidate : simpleSemver) : string :=
  if decide (ss_Major candidate ≠ ss_Major current) then "major"
  else if decide (ss_Minor candidate ≠ ss_Minor current) then "minor" else "patch".
Definition semverUpdateAllowed (current candidate : simpleSemver) (allowed : list string) : bool :=
  bool_decide (update_type current candidate ∈ allowed).

Definition regexOrderKey (re : compiled_regexp) (value order : string) : option string :=
  match FindStringSubmatch re value with
  | [] => None
  | whole :: groups =>
      let key := default whole (head groups) in
      if decide (order = "numeric" ∧ ParseInt key = None) then None else Some key
  end.
Definition compareRegexKeys (left_ right_ order : string) : Z :=
  let compare (lt gt : bool) := (if lt then -1 else if gt then 1 else 0)%Z in
  if decide (order = "numeric") then
    let leftNumber := default 0%Z (ParseInt left_) in
    let rightNumber := default 0%Z (ParseInt right_) in
    compare (bool_decide (leftNumber < rightNumber)%Z) (bool_decide (rightNumber < leftNumber)%Z)
  else compare (bool_decide (left_ ≠ right_ ∧ String.le left_ right_)) (bool_decide (left_ ≠ right_ ∧ String.le right_ left_)).

(** The tags with a key above the current one, the highest first. *)
Definition newest {K : Type} (key : string → option K) (cmp : K → K → Z) (keep : K → bool) (tags : list string)
    : list string :=
  fst <$> SortFunc (λ left_ right_ : string * K, cmp right_.2 left_.2)
    (omap (λ tag, k ← key tag; if keep k then Some (tag, k) else None) tags).
Definition candidateImageTags (current : string) (tags : list string) (filter : option ImageUpdateFilter) : list string :=
  match filter with
  | None => []
  | Some filter =>
      let current := TrimSpace current in
      if decide (fil_Type filter = "semver") then
        match parseSimpleSemver current with
        | None => []
        | Some currentVersion =>
            newest parseSimpleSemver ss_compare
              (λ version, greaterThan version currentVersion &&
                          semverUpdateAllowed currentVersion version (semverAllowedUpdates (fil_Allow filter))) tags
        end
      else if decide (fil_Type filter = "date") then
        match time_Parse (fil_Format filter) current with
        | None => []
        | Some currentTime =>
            newest (time_Parse (fil_Format filter)) Z.sub (λ at_, bool_decide (currentTime < at_)%Z) tags
        end
      else if decide (fil_Type filter = "regex") then
        match regexp_Compile (fil_Pattern filter) with
        | None => []
        | Some re =>
            match regexOrderKey re current (fil_Order filter) with
            | None => []
            | Some currentKey =>
                newest (λ tag, regexOrderKey re tag (fil_Order filter))
                  (λ left_ right_, compareRegexKeys left_ right_ (fil_Order filter))
                  (λ key, bool_decide (0 < compareRegexKeys key currentKey (fil_Order filter))%Z) tags
            end
        end
      else if decide (fil_Type filter = "latest") then tags
      else []
  end.
End filter.

(** ** The registry (registry.go) *)
Record HTTPResponse := MkHTTPResponse {
  resp_StatusCode : Z;
  resp_Body : string;
  resp_Link : list string;
  resp_Authenticate : string;
}.
(** net/http, net/url and encoding/json.  The count of the requests made so
    far is an argument of an answer, as it may change. *)
Class RegistryLibraries := {
  http_do : nat → string → string → list (string * string) → result string HTTPResponse;
  context_done : nat → bool;
  url_String : string → option string;
  url_Resolve : string → string → option string;
  path_escape : string → string;
  QueryEncode : list (string * string) → string;
  decode_tags : string → option (list string);
  decode_token : string → option string;
}.

(** A program that asks the registry; [None] is a loop that was not left
    within its bound. *)
Definition Probe (A : Type) : Type := nat → nat * option (result string A).
#[export] Instance Probe_ret : MRet Probe := λ A a n, (n, Some (Ok a)).
#[export] Instance Probe_bind : MBind Probe := λ A B f m n,
  match m n with
  | (n, Some (Ok a)) => f a n
  | (n, Some (Err e)) => (n, Some (Err e))
  | (n, None) => (n, None)
  end.
Definition probe_fail {A} (e : string) : Probe A := λ n, (n, Some (Err e)).
Definition out_of_bound {A} : Probe A := λ n, (n, None).
Definition ask {A} (answer : nat → result string A) : Probe A := λ n, (S n, Some (answer n)).

Definition probe_lift {A} (r : result string A) : Probe A := λ n, (n, Some r).

Definition splitRegistryRepository (imageRef : string) : string * string :=
  let docker_hub := ("registry-1.docker.io",
                     if Contains imageRef "/" then imageRef else "library/" +:+ imageRef) in
  match Split imageRef slash with
  | host :: (_ :: _) as rest =>
      if negb (Contains host ".") && negb (Contains host ":") && negb (bool_decide (host = "localhost"))
      then docker_hub else (host, Join rest "/")
  | _ => docker_hub
  end.

Definition comma : Ascii.ascii := byte 44.
Definition double_quote : string := String (byte 34) "".
(** [strings.Trim(s, cutset)] with the double quote *)
Definition TrimDoubleQuotes (s : string) : string :=
  let left_ := trim_left [double_quote] (String.length s) s in
  String.rev (trim_left [double_quote] (String.length left_) (String.rev left_)).
Definition auth_param (params : gmap string string) (part : string) : gmap string string :=
  let '(key, rawValue, found) := Cut (TrimSpace part) "=" in
  if (found : bool) then <[ToLower (TrimSpace key) := TrimDoubleQuotes (TrimSpace rawValue)]> params else params.
Definition parseAuthChallenge (value : string) : gmap string string := foldl auth_param ∅ (Split value comma).

Section registry.
Context `{RegistryLibraries}.

Definition do_request (method url : string) (headers : list (string * string)) : Probe HTTPResponse :=
  ask (λ n, http_do n method url headers).

(** [None]: there is nothing to ask a token for. *)
Definition registryAuthRequest (challenge : string) : Probe (option string) :=
  if negb (HasPrefix (ToLower challenge) "bearer ") then mret None
  else
    let params := parseAuthChallenge (drop_bytes 7 challenge) in
    let realm := default "" (params !! "realm") in
    if decide (realm = "") then probe_fail "registry auth challenge is missing realm"
    else
      let values := omap (λ key, value ← params !! key; if decide (value = "") then None else Some (key, value))
                      ["service"; "scope"] in
      let encoded := QueryEncode values in
      response ← do_request "GET" (if decide (encoded = "") then realm else realm +:+ "?" +:+ encoded) [];
      if decide (resp_StatusCode response < 200 ∨ 300 ≤ resp_StatusCode response)%Z
      then probe_fail "request registry auth token"
      else match decode_token (resp_Body response) with
           | Some token => mret (Some token)
           | None => probe_fail "decode registry auth token"
           end.

(** The answer, and the URL asked for. *)
Definition registryRequest (method endpoint : string) (headers : list (string * string))
    : Probe (HTTPResponse * string) :=
  match url_String endpoint with
  | None => probe_fail "parse url"
  | Some requestURL =>
      response ← do_request method requestURL headers;
      if decide (resp_StatusCode response ≠ 401%Z) then mret (response, requestURL)
      else
        authRequest ← registryAuthRequest (resp_Authenticate response);
        match authRequest with
        | None => mret (response, requestURL)
        | Some token =>
            response ← do_request method requestURL (headers ++ [("Authorization", "Bearer " +:+ token)]);
            mret (response, requestURL)
        end
  end.

Definition next_part (part : string) : option string :=
  let part := TrimSpace part in
  if bool_decide (part = "") || negb (Contains part ("rel=" +:+ double_quote +:+ "next" +:+ double_quote)) then None
  else match Index part "<", Index part ">" with
       | Some start, Some end_ =>
           if decide (end_ ≤ start + 1) then None
           else Some (TrimSpace (take_bytes (end_ - (start + 1)) (drop_bytes (S start) part)))
       | _, _ => None
       end.
Definition nextRegistryPageURL (requestURL : string) (linkHeaders : list string) : string :=
  match head (omap next_part (linkHeaders ≫= λ header, Split header comma)) with
  | None => ""
  | Some next => default "" (url_Resolve requestURL next)
  end.

(** The registry says when there are no more pages: the code has no bound of
    its own, [pages] is one. *)
Fixpoint registry_pages (pages : nat) (tags : list string) (endpoint : string) : Probe (list string) :=
  if decide (endpoint = "") then mret tags
  else match pages with
  | 0 => out_of_bound
  | S pages =>
      answered ← registryRequest "GET" endpoint [];
      let '(response, requestURL) := answered in
      if decide (resp_StatusCode response < 200 ∨ 300 ≤ resp_StatusCode response)%Z
      then probe_fail "list registry tags"
      else match decode_tags (resp_Body response) with
           | None => probe_fail "decode registry tags"
           | Some found =>
               registry_pages pages (tags ++ found) (nextRegistryPageURL requestURL (resp_Link response))
           end
  end.
Definition registry_url (imageRef path : string) : string :=
  let '(registry, repository) := splitRegistryRepository imageRef in
  "https://" +:+ registry +:+ "/v2/" +:+ repository +:+ path.
Definition listRegistryTags (pages : nat) (imageRef : string) : Probe (list string) :=
  registry_pages pages [] (registry_url imageRef "/tags/list?n=100").

Definition manifest_accept : list (string * string) :=
  [("Accept", Join ["application/vnd.oci.image.index.v1+json"; "application/vnd.oci.image.manifest.v1+json";
                    "application/vnd.docker.distribution.manifest.list.v2+json";
                    "application/vnd.docker.distribution.manifest.v2+json"] ", ")].
Definition registryManifestExists (imageRef tag : string) : Probe bool :=
  let endpoint := registry_url imageRef ("/manifests/" +:+ path_escape (TrimSpace tag)) in
  answered ← registryRequest "HEAD" endpoint manifest_accept;
  answered ← (if decide (resp_StatusCode answered.1 = 405%Z) then registryRequest "GET" endpoint manifest_accept
              else mret answered);
  if decide (resp_StatusCode answered.1 = 200%Z) then mret true
  else if decide (resp_StatusCode answered.1 = 404%Z) then mret false
  else probe_fail "registry manifest probe".

(** ** discovery.go: the probe for versions *)

(** [probeContiguousSemverComponent]: first the step doubles while the
    components exist, then the last one is found by bisection.  Both loops
    take at most 64 turns, as the numbers have 64 bits. *)
Fixpoint bisect (fuel : nat) (exists_ : Z → Probe bool) (low high : Z) : Probe Z :=
  if decide (low < high)%Z then
    match fuel with
    | 0 => out_of_bound
    | S fuel =>
        let mid := (int64 (low + high + 1) `quot` 2)%Z in
        ok ← exists_ mid;
        if (ok : bool) then bisect fuel exists_ mid high else bisect fuel exists_ low (int64 (mid - 1))
    end
  else mret low.
Fixpoint double (fuel : nat) (exists_ : Z → Probe bool) (start low step : Z) : Probe Z :=
  match fuel with
  | 0 => out_of_bound
  | S fuel =>
      let candidate := int64 (start + step) in
      ok ← exists_ candidate;
      if negb ok then bisect 64 exists_ low (int64 (candidate - 1))
      else
        let step := int64 (step * 2) in
        if decide (step < 0)%Z then mret candidate
        else
          done ← ask (λ n, Ok (context_done n));
          if (done : bool) then probe_fail "context canceled" else double fuel exists_ start candidate step
  end.
Definition probeContiguousSemverComponent (start : Z) (exists_ : Z → Probe bool) : Probe (option Z) :=
  if decide (start < 0)%Z then mret None
  else
    ok ← exists_ start;
    if negb ok then mret None else last ← double 64 exists_ start start 1; mret (Some last).

Section versions.
Context `{Semver} (imageRef prefix : string) (exists_ : string → string → Probe bool).

Definition version_tag (major minor patch : Z) : string :=
  prefix +:+ pretty major +:+ "." +:+ pretty minor +:+ "." +:+ pretty patch.
Definition newSimpleSemver (major minor patch : Z) : result string simpleSemver :=
  match StrictNewVersion (pretty major +:+ "." +:+ pretty minor +:+ "." +:+ pretty patch) with
  | Some version => Ok (MkSimpleSemver major minor patch version)
  | None => Err "invalid semantic version"
  end.
(** The better of two candidates, with their tags. *)
Definition consider (best : option (string * simpleSemver)) (found : option simpleSemver)
    : option (string * simpleSemver) :=
  match found with
  | None => best
  | Some version =>
      let candidate := Some (version_tag (ss_Major version) (ss_Minor version) (ss_Patch version), version) in
      match best with
      | None => candidate
      | Some (_, b) => if decide (0 < ss_compare version b)%Z then candidate else best
      end
  end.
Definition probePatch (major minor startPatch : Z) : Probe (option simpleSemver) :=
  highestPatch ← probeContiguousSemverComponent startPatch (λ patch, exists_ imageRef (version_tag major minor patch));
  match highestPatch with
  | None => mret None
  | Some patch => version ← probe_lift (newSimpleSemver major minor patch); mret (Some version)
  end.
Definition when_allowed {A} (updateType : string) (allowed : list string) (probe : Probe (option A)) : Probe (option A) :=
  if decide (updateType ∈ allowed) then probe else mret None.
(** Go on with the highest component that was found. *)
Definition then_probe {A} (highest : Probe (option Z)) (next : Z → Probe (option A)) : Probe (option A) :=
  found ← highest; match found with Some n => next n | None => mret None end.
Definition probe_versions (current : simpleSemver) (allowed : list string) : Probe (option (string * simpleSemver)) :=
  patch ← when_allowed "patch" allowed
    (probePatch (ss_Major current) (ss_Minor current) (int64 (ss_Patch current + 1)));
  minor ← when_allowed "minor" allowed
    (then_probe (probeContiguousSemverComponent (int64 (ss_Minor current + 1)) (λ minor,
                   exists_ imageRef (version_tag (ss_Major current) minor 0))) (λ minor,
     probePatch (ss_Major current) minor 0));
  major ← when_allowed "major" allowed
    (then_probe (probeContiguousSemverComponent (int64 (ss_Major current + 1)) (λ major,
                   exists_ imageRef (version_tag major 0 0))) (λ major,
     then_probe (probeContiguousSemverComponent 0 (λ minor, exists_ imageRef (version_tag major minor 0))) (λ minor,
     probePatch major minor 0)));
  mret (consider (consider (consider None patch) minor) major).
End versions.

Definition probeSemverImageTagWithExists `{Semver} (imageRef current : string) (filter : option ImageUpdateFilter)
    (exists_ : string → string → Probe bool) : Probe (option string) :=
  match filter, parseSimpleSemver current with
  | Some filter, Some currentVersion =>
      let prefix := if HasPrefix (TrimSpace current) "v" then "v" else "" in
      best ← probe_versions imageRef prefix exists_ currentVersion (semverAllowedUpdates (fil_Allow filter));
      mret (fst <$> best)
  | _, _ => mret None
  end.

(** ** The sources of an image *)
Definition merge_tag (merged : list string) (tag : string) : list string :=
  let tag := TrimSpace tag in if decide (tag = "" ∨ tag ∈ merged) then merged else merged ++ [tag].
Definition mergeImageUpdateTags (groups : list (list string)) : list string := foldl merge_tag [] (concat groups).
Definition autoDiscoverySources : list ImageUpdateDiscoverySource :=
  [MkImageUpdateDiscoverySource "probe" "" "" "" "" ""; MkImageUpdateDiscoverySource "registry" "" "" "" "" ""].

Section discovery.
Context `{Semver} (pages : nat) (imageRef currentTag : string) (filter : option ImageUpdateFilter).

Definition source_tags (source : ImageUpdateDiscoverySource) : Probe (list string) :=
  if decide (src_Type source = "probe") then
    if decide (fil_Type <$> filter ≠ Some "semver") then mret []
    else
      found ← probeSemverImageTagWithExists imageRef currentTag filter registryManifestExists;
      mret (match found with Some candidate => [candidate] | None => [] end)
  else if decide (src_Type source ∈ ["registry"; ""]) then listRegistryTags pages imageRef
  else if isForgeDiscoverySource (src_Type source) then mret []
  else probe_fail "unsupported image update discovery source".
Fixpoint merged_tags (tags : ImageUpdateDiscoverySource → Probe (list string)) (groups : list (list string))
    (sources : list ImageUpdateDiscoverySource) : Probe (list string) :=
  match sources with
  | [] => mret (mergeImageUpdateTags groups)
  | source :: sources => found ← tags source; merged_tags tags (groups ++ [found]) sources
  end.
Definition discoverImageUpdateTagsFromSource (source : ImageUpdateDiscoverySource) : Probe (list string) :=
  if decide (src_Type source = "auto") then merged_tags source_tags [] autoDiscoverySources else source_tags source.
Definition discoverMergedImageUpdateTags (sources : list ImageUpdateDiscoverySource) : Probe (list string) :=
  merged_tags discoverImageUpdateTagsFromSource [] sources.

(** The first source that has tags; the tags of forges come with the task. *)
Fixpoint first_source (injectedSourceCandidates : gmap string (list string)) (index : nat)
    (sources : list ImageUpdateDiscoverySource) : Probe (list string) :=
  match sources with
  | [] => mret []
  | source :: sources =>
      tags ← (if isForgeDiscoverySource (src_Type source)
              then mret (mergeImageUpdateTags [default [] (injectedSourceCandidates !! Itoa index)])
              else discoverImageUpdateTagsFromSource source);
      if decide (tags ≠ []) then mret tags else first_source injectedSourceCandidates (S index) sources
  end.
Definition discovered_tags (discovery : ImageUpdateDiscovery) (injectedSourceCandidates : gmap string (list string))
    : Probe (list string) :=
  match auto_source discovery with
  | Some _ => discoverMergedImageUpdateTags autoDiscoverySources
  | None =>
      if decide (dis_Combine discovery = "merge") then discoverMergedImageUpdateTags (dis_Sources discovery)
      else first_source injectedSourceCandidates 0 (dis_Sources discovery)
  end.
Definition discoverImageUpdateTags (discovery : ImageUpdateDiscovery) (injectedCandidates : list string)
    (injectedSourceCandidates : gmap string (list string)) : Probe (list string) :=
  base ← discovered_tags discovery injectedSourceCandidates;
  mret (if decide (injectedCandidates = []) then base else mergeImageUpdateTags [injectedCandidates; base]).
End discovery.
End registry.

(** ** The checks of a task (image_update.go) *)
Section checks.
Context `{RegistryLibraries} `{Semver} `{TagLibraries} `{DockerCommand} `{MetaDocuments} `{ParamsJSON}.
Context (pages : nat) (read : string → option string).

Definition inspectRemoteImageDigest (imageRef : string) : Probe string :=
  stdout ← ask (λ n, imagetools_inspect n imageRef);
  let digest := TrimSpace stdout in
  if decide (digest = "" ∨ digest = "<no value>")
  then probe_fail "docker buildx imagetools inspect did not return a digest"
  else mret (normalizeImageDigest digest).
(** Go on whatever the outcome. *)
Definition probe_attempt {A} (m : Probe A) : Probe (result string A) := λ n,
  match m n with
  | (n, Some r) => (n, Some (Ok r))
  | (n, None) => (n, None)
  end.

(** The check with what is known so far, and the error that ends it. *)
Definition ac_zero (imageName imageRef policyType : string) : AgentImageCheck :=
  MkAgentImageCheck imageName imageRef policyType "" "" "" "" "" [] false ImageCheckStatusOK "".
Definition ac_current (value tag digest : string) (c : AgentImageCheck) : AgentImageCheck :=
  MkAgentImageCheck (ac_ImageName c) (ac_ImageRef c) (ac_PolicyType c) value tag digest (ac_CandidateTag c)
    (ac_CandidateDigest c) (ac_CandidateTags c) (ac_UpdateAvailable c) (ac_CheckStatus c) (ac_ErrorSummary c).
Definition ac_candidates (tag digest : string) (tags : list string) (available : bool) (c : AgentImageCheck)
    : AgentImageCheck :=
  MkAgentImageCheck (ac_ImageName c) (ac_ImageRef c) (ac_PolicyType c) (ac_CurrentValue c) (ac_CurrentTag c)
    (ac_CurrentDigest c) tag digest tags available (ac_CheckStatus c) (ac_ErrorSummary c).
Definition ac_error (message : string) (c : AgentImageCheck) : AgentImageCheck :=
  MkAgentImageCheck (ac_ImageName c) (ac_ImageRef c) (ac_PolicyType c) (ac_CurrentValue c) (ac_CurrentTag c)
    (ac_CurrentDigest c) (ac_CandidateTag c) (ac_CandidateDigest c) (ac_CandidateTags c) (ac_UpdateAvailable c)
    ImageCheckStatusError message.
Definition or_error {A} (m : Probe A) (check : AgentImageCheck) (k : A → Probe AgentImageCheck) : Probe AgentImageCheck :=
  r ← probe_attempt m;
  match r with
  | Ok a => k a
  | Err e => mret (ac_error e check)
  end.

Definition collectServiceImageUpdateCheck (imageName : string) (image : ImageUpdateConfig)
    (discoverySources : option (gmap string ImageUpdateDiscovery)) (injectedCandidates : list string)
    (injectedSourceCandidates : gmap string (list string)) : Probe AgentImageCheck :=
  let check := ac_zero imageName (img_Image image) (default "digest" (fil_Type <$> img_Filter image)) in
  or_error (probe_lift (currentImageUpdateValue read image)) check (λ '(value, tag, digest),
  let check := ac_current value tag digest check in
  let discovery := ResolveImageUpdateDiscovery (img_Discovery image) discoverySources in
  if IsDigestImageDiscovery discovery None then
    or_error (inspectRemoteImageDigest (img_Image image +:+ ":" +:+ tag)) check (λ remoteDigest,
    mret (ac_candidates tag remoteDigest [] false check))
  else
    or_error (discoverImageUpdateTags pages (img_Image image) tag (img_Filter image) discovery injectedCandidates
                injectedSourceCandidates) check (λ tags,
    let candidates := candidateImageTags tag tags (img_Filter image) in
    match candidates with
    | [] => mret check
    | candidate :: _ =>
        or_error (inspectRemoteImageDigest (img_Image image +:+ ":" +:+ candidate))
          (ac_candidates candidate "" candidates false check) (λ digest,
        mret (ac_candidates candidate digest candidates true check))
    end)).

(** The filter of an image that names no semver updates allows those of the
    task. *)
Definition with_semver_allow (semverAllow : list string) (image : ImageUpdateConfig) : ImageUpdateConfig :=
  match img_Filter image with
  | Some filter =>
      if decide (fil_Type filter = "semver" ∧ fil_Allow filter = [] ∧ semverAllow ≠ []) then
        MkImageUpdateConfig (img_Image image) (img_AutoApply image) (img_CheckSchedule image)
          (img_BackupBeforeUpdate image) (img_DigestPin image) (img_Current image) (img_Discovery image)
          (Some (MkImageUpdateFilter (fil_Type filter) (fil_Format filter) (fil_Pattern filter) (fil_Order filter)
                   semverAllow))
      else image
  | None => image
  end.
Fixpoint collect_checks (update : UpdateConfig) (params : serviceTaskParams) (imageNames : list string)
    : Probe (list AgentImageCheck) :=
  match imageNames with
  | [] => mret []
  | imageName :: imageNames =>
      check ← collectServiceImageUpdateCheck imageName
        (with_semver_allow (tp_SemverAllow params) (default zero_image (upd_Images update !! imageName)))
        (upd_DiscoverySources update) (default [] (tp_ForgeCandidates params !! imageName))
        (default ∅ (tp_ForgeCandidateSources params !! imageName));
      checks ← collect_checks update params imageNames;
      mret (check :: checks)
  end.
(** What the agent reports: nothing when there is nothing to check. *)
Definition reportServiceImageUpdateChecks (meta : Meta) (paramsJSON : string) : Probe (option (list AgentImageCheck)) :=
  match sm_Update meta with
  | None => mret None
  | Some update =>
      if decide (upd_Images update = ∅) then mret None
      else
        params ← probe_lift (taskParams paramsJSON);
        let selected := filter (λ name, name ≠ "") (TrimSpace <$> tp_ImageNames params) in
        let imageNames := string_sort (filter (λ name, selected = [] ∨ name ∈ selected)
                                         (map_to_list (upd_Images update)).*1) in
        checks ← collect_checks update params imageNames;
        mret (if decide (checks = []) then None else Some checks)
  end.
End checks.
