(* ===== verification/AgentImageTheorems.v ===== *)
(** * Theorems on image updates on the agent

    The value the controller wrote is read back; the probe for versions ends
    and finds the last one; the candidates of an image. *)

(** ** The agent reads the image value the controller wrote

    [applyImageCurrentUpdate] (src/internal/app/controller/service_command.go)
    and [currentImageUpdateValue] (src/internal/app/agent/image_update.go) are
    two readings of the same file: a line of an environment file, or a scalar
    of a YAML document. *)
From S2P Require Export AgentImages.

(** ** Strings without white space and quotes *)
(** Visible ASCII characters other than quotes. *)
Definition plain_byte (c : Ascii.ascii) : bool :=
  let n := Ascii.nat_of_ascii c in bool_decide (33 ≤ n ≤ 126 ∧ n ≠ 34 ∧ n ≠ 39).
Definition plain (s : string) : bool := all_bytes plain_byte s.

Lemma all_bytes_app P s t : all_bytes P (s +:+ t) = all_bytes P s && all_bytes P t.
Proof.
  induction s as [|c s IH]; [done|]. change (P c && all_bytes P (s +:+ t) = P c && all_bytes P s && all_bytes P t).
  by rewrite IH, andb_assoc.
Qed.
Lemma all_bytes_rev P s : all_bytes P (String.rev s) = all_bytes P s.
Proof. induction s as [|c s IH]; [done|]. rewrite rev_cons, all_bytes_app, IH. cbn. by rewrite andb_true_r, andb_comm. Qed.
(** A text that starts with the encoding of a space, at either end, is not
    plain. *)
Lemma plain_prefix s e : plain s = true → HasPrefix s e = true → plain e = true.
Proof. intros Hs (t & ->)%HasPrefix_spec. unfold plain in Hs. rewrite all_bytes_app in Hs. by apply andb_true_iff in Hs as [? _]. Qed.
Lemma plain_leading encs s : plain s = true → Forall (λ e, plain e = false) encs → leading encs s = None.
Proof.
  intros Hs He. apply leading_None. eapply Forall_impl; [exact He|]. intros e Hf Hp.
  pose proof (plain_prefix s e Hs Hp). cbv beta in Hf. congruence.
Qed.
Lemma spaces_not_plain : Forall (λ e, plain e = false) space_encodings.
Proof. by_decision. Qed.
Lemma quotes_not_plain : Forall (λ e, plain e = false) quote_encodings.
Proof. by_decision. Qed.
Lemma plain_trims encs s n m :
  plain s = true → Forall (λ e, plain e = false) encs → trim_left encs n s = s ∧ trim_left encs m (String.rev s) = String.rev s.
Proof.
  intros Hs He. split; apply trim_left_stop, plain_leading; try done. unfold plain. by rewrite all_bytes_rev.
Qed.

(** ** Bytes that separate *)
#[export] Instance no_sep_dec c s : Decision (no_sep c s).
Proof. unfold no_sep. apply _. Defined.
Lemma no_sep_rev c s : no_sep c (String.rev s) ↔ no_sep c s.
Proof. unfold no_sep. by rewrite all_bytes_rev. Qed.
Lemma no_sep_cons c d s : no_sep c (String d s) ↔ d ≠ c ∧ no_sep c s.
Proof. unfold no_sep. cbn. by rewrite andb_true_iff, bool_decide_eq_true. Qed.
Lemma Index_byte c k v : no_sep c k → Index (k +:+ String c v) (String c "") = Some (String.length k).
Proof.
  induction k as [|d k IH]; intros Hk.
  - change ("" +:+ String c v) with (String c v). cbn. rewrite bool_decide_eq_true_2 by done. by destruct v.
  - apply no_sep_cons in Hk as [Hd Hk]. change (String d k +:+ String c v) with (String d (k +:+ String c v)).
    cbn. rewrite bool_decide_eq_false_2 by congruence. cbn. by rewrite (IH Hk).
Qed.
Lemma Index_none c s : no_sep c s → Index s (String c "") = None.
Proof.
  induction s as [|d s IH]; [done|]. intros [Hd Hs]%no_sep_cons. cbn.
  rewrite bool_decide_eq_false_2 by congruence. cbn. by rewrite (IH Hs).
Qed.
Lemma LastIndex_none c s : no_sep c s → LastIndex s (String c "") = None.
Proof.
  induction s as [|d s IH]; [done|]. intros [Hd Hs]%no_sep_cons. cbn. rewrite (IH Hs). cbn.
  by rewrite bool_decide_eq_false_2 by congruence.
Qed.
Lemma LastIndex_byte c p s : no_sep c s → LastIndex (p +:+ String c s) (String c "") = Some (String.length p).
Proof.
  intros Hs. induction p as [|d p IH].
  - change ("" +:+ String c s) with (String c s). cbn. rewrite LastIndex_none by done. cbn.
    rewrite bool_decide_eq_true_2 by done. by destruct s.
  - change (String d p +:+ String c s) with (String d (p +:+ String c s)). cbn. by rewrite IH.
Qed.
Lemma drop_after c p s : drop_bytes (S (String.length p)) (p +:+ String c s) = s.
Proof. induction p as [|d p IH]; [done|]. exact IH. Qed.
Lemma Cut_byte c k v : no_sep c k → Cut (k +:+ String c v) (String c "") = (k, v, true).
Proof.
  intros Hk. unfold Cut. rewrite Index_byte by done. rewrite take_bytes_app.
  change (String.length (String c "")) with 1. by rewrite Nat.add_1_r, drop_after.
Qed.
Lemma Index_first c s i : Index s (String c "") = Some i → no_sep c (take_bytes i s) ∧ s = take_bytes i s +:+ String c (drop_bytes (i + 1) s).
Proof.
  revert i. induction s as [|d s IH]; intros i; cbn; [done|]. destruct (decide (c = d)) as [<-|Hd].
  - rewrite bool_decide_eq_true_2 by done. destruct s; cbn; intros [= <-]; done.
  - rewrite bool_decide_eq_false_2 by done. cbn. intros (j & Hj & ->)%fmap_Some.
    destruct (IH j Hj) as [Hn Hs]. cbn. split; [by apply no_sep_cons|].
    change (String d s = String d (take_bytes j s +:+ String c (drop_bytes (j + 1) s))). by rewrite <-Hs.
Qed.
Lemma Cut_found c s k v : Cut s (String c "") = (k, v, true) → no_sep c k ∧ s = k +:+ String c v.
Proof. unfold Cut. destruct (Index s (String c "")) as [i|] eqn:Hi; [|done]. intros [= <- <-]. by apply Index_first. Qed.

(** ** Trimming around a byte that no space contains *)
Lemma TrimSpace_stable s :
  TrimSpace s = s ↔ leading space_encodings s = None ∧ leading (String.rev <$> space_encodings) (String.rev s) = None.
Proof.
  split.
  - intros Hs. destruct (TrimRightSpace_spec (TrimLeftSpace s)) as [Hr [u Hu]]. fold (TrimSpace s) in Hr, Hu.
    rewrite Hs in Hr, Hu. split; [|done]. destruct (TrimLeftSpace_spec s) as [Hl _]. apply leading_None. apply leading_None in Hl.
    eapply Forall_impl; [exact Hl|]. intros e He Hp. apply He. rewrite Hu. by apply HasPrefix_app.
  - intros [Hl Hr]. unfold TrimSpace, TrimLeftSpace. rewrite trim_left_stop by done. unfold TrimRightSpace.
    rewrite trim_left_stop by done. apply rev_involutive.
Qed.
Lemma plain_stable s : plain s = true → TrimSpace s = s.
Proof.
  intros Hs. apply TrimSpace_stable. split; [apply plain_leading; [done|apply spaces_not_plain]|].
  apply plain_leading; [unfold plain; by rewrite all_bytes_rev|]. by_decision.
Qed.
Definition equals : Ascii.ascii := "="%char.
Lemma leading_byte encs k c v :
  Forall (no_sep c) encs → leading encs k = None → leading encs (k +:+ String c v) = None.
Proof.
  intros Hc Hk. apply leading_None. apply leading_None in Hk. rewrite Forall_forall in Hc, Hk |- *.
  intros e He Hp. apply (Hk e He). specialize (Hc e He). clear -Hc Hp. revert k Hp.
  induction e as [|d e IH]; intros k Hp; [by destruct k|]. apply no_sep_cons in Hc as [Hd Hc].
  destruct k as [|f k].
  - change ("" +:+ String c v) with (String c v) in Hp. cbn in Hp. apply andb_true_iff in Hp as [Hp _].
    apply bool_decide_eq_true in Hp. congruence.
  - change (String f k +:+ String c v) with (String f (k +:+ String c v)) in Hp. cbn in Hp |- *.
    apply andb_true_iff in Hp as [-> Hp]. by apply IH.
Qed.
Lemma line_stable k v : TrimSpace k = k → TrimSpace v = v → TrimSpace (k +:+ String equals v) = k +:+ String equals v.
Proof.
  rewrite !TrimSpace_stable. intros [Hk _] [_ Hv]. split; [apply leading_byte; [by_decision|done]|].
  rewrite rev_app_distr, rev_cons, app_assoc. change (String equals "" +:+ String.rev k) with (String equals (String.rev k)).
  apply leading_byte; [by_decision|done].
Qed.

(** The names that an assignment can have. *)
Definition assignable (k : string) : Prop :=
  no_sep equals k ∧ TrimSpace k = k ∧ HasPrefix k "#" = false ∧ no_sep newline k.
Lemma env_assignment_line k v : assignable k → TrimSpace v = v → env_assignment (k +:+ String equals v) = Some (k, v).
Proof.
  intros (Heq & Hk & Hh & _) Hv. unfold env_assignment. rewrite line_stable by done.
  rewrite bool_decide_eq_false_2 by (by destruct k). destruct (HasPrefix (k +:+ String equals v) "#") eqn:Hp.
  - destruct k as [|c k]; [done|]. change (String c k +:+ String equals v) with (String c (k +:+ String equals v)) in Hp.
    cbn in Hp, Hh. apply andb_true_iff in Hp as [Hp _]. rewrite Hp in Hh. by destruct k.
  - cbn [orb]. change "=" with (String equals ""). rewrite Cut_byte by done. by rewrite Hk.
Qed.
Lemma TrimSpace_part s : ∃ u w, s = u +:+ TrimSpace s +:+ w.
Proof.
  destruct (TrimLeftSpace_spec s) as [_ [u Hu]]. destruct (TrimRightSpace_spec (TrimLeftSpace s)) as [_ [w Hw]].
  exists u, w. rewrite Hu at 1. f_equal. exact Hw.
Qed.
Lemma no_sep_TrimSpace c s : no_sep c s → no_sep c (TrimSpace s).
Proof. destruct (TrimSpace_part s) as (u & w & Hs). rewrite Hs at 1. rewrite !no_sep_app. tauto. Qed.
Lemma env_assignment_name line k v : env_assignment line = Some (k, v) → no_sep newline line → assignable k.
Proof.
  unfold env_assignment. intros Ha Hn%no_sep_TrimSpace. pose proof (TrimSpace_idempotent line) as Hs.
  set (t := TrimSpace line) in *. destruct (bool_decide (t = "") || HasPrefix t "#") eqn:Hh; [done|].
  apply orb_false_iff in Hh as [_ Hh]. destruct (Cut t "=") as [[before after] []] eqn:Hc; [|done].
  injection Ha as <- <-. apply Cut_found in Hc as [Heq Ht]. rewrite Ht in Hn. apply no_sep_app in Hn as [Hn _].
  split_and!; [by apply no_sep_TrimSpace|apply TrimSpace_idempotent| |by apply no_sep_TrimSpace].
  destruct (HasPrefix (TrimSpace before) "#") eqn:Hp; [|done]. rewrite <-Hh. symmetry. rewrite Ht.
  apply HasPrefix_app. apply TrimSpace_stable in Hs as [Hl _]. unfold TrimSpace in Hp.
  assert (TrimLeftSpace before = before) as Hb.
  { apply trim_left_stop. apply leading_None. apply leading_None in Hl. eapply Forall_impl; [exact Hl|].
    intros e He Hpe. apply He. rewrite Ht. by apply HasPrefix_app. }
  rewrite Hb in Hp. destruct (TrimRightSpace_spec before) as [_ [u Hu]]. rewrite Hu. by apply HasPrefix_app.
Qed.

(** ** The lines of an environment file *)
Fixpoint replace_body (key value : string) (lines : list string) : option (list string) :=
  match lines with
  | [] => None
  | line :: lines =>
      if assigns key line then Some ((key +:+ String equals value) :: lines)
      else cons line <$> replace_body key value lines
  end.
Lemma Join_keep_newlines lines : Join (keep_newlines lines) "" = Join lines newline_text.
Proof.
  induction lines as [|line [|line' lines] IH]; [done..|]. rewrite (Join_cons _ (line' :: lines) newline_text) by done. rewrite <-IH.
  change (keep_newlines (line :: line' :: lines)) with ((line +:+ newline_text) :: keep_newlines (line' :: lines)).
  rewrite Join_cons by (by destruct lines). by rewrite app_assoc.
Qed.
Lemma no_suffix line : no_sep newline line → HasSuffix line newline_text = false.
Proof.
  intros Hn. destruct (HasSuffix line newline_text) eqn:Hs; [|done]. apply HasSuffix_spec in Hs as [t ->].
  apply no_sep_app in Hn as [_ Hn]. by apply no_sep_cons in Hn as [? _].
Qed.
Lemma replace_line_body key value lines :
  Forall (no_sep newline) lines →
  replace_line key value (keep_newlines lines) = keep_newlines <$> replace_body key value lines.
Proof.
  induction lines as [|line lines IH]; intros Hf; [done|]. apply Forall_cons in Hf as [Hl Hf]. specialize (IH Hf).
  destruct lines as [|line' lines].
  - cbn. unfold TrimSuffix. rewrite no_suffix by done. destruct (assigns key line); [|done]. cbn. by rewrite app_nil_r.
  - change (keep_newlines (line :: line' :: lines)) with ((line +:+ newline_text) :: keep_newlines (line' :: lines)).
    cbn [replace_line replace_body]. rewrite TrimSuffix_app. destruct (assigns key line).
    + assert (HasSuffix (line +:+ newline_text) newline_text = true) as -> by (apply HasSuffix_spec; eauto).
      cbn. by rewrite !app_assoc.
    + rewrite IH. cbn [replace_body]. destruct (assigns key line'); [done|]. by destruct (replace_body key value lines).
Qed.
Lemma plain_no_newline s : plain s = true → no_sep newline s.
Proof.
  induction s as [|c s IH]; [done|]. unfold plain. cbn. intros [Hc Hs]%andb_true_iff. apply no_sep_cons. split; [|by apply IH].
  intros ->. done.
Qed.
Lemma plain_quotes s : plain s = true → TrimQuotes s = s.
Proof.
  intros Hs. unfold TrimQuotes. destruct (plain_trims quote_encodings s (String.length s) (String.length s) Hs quotes_not_plain) as [-> Hr].
  rewrite Hr. apply rev_involutive.
Qed.
Lemma assigns_name key line : assigns key line = true → ∃ v, env_assignment line = Some (key, v).
Proof.
  unfold assigns. destruct (env_assignment line) as [[name v]|]; [|done]. intros <-%bool_decide_eq_true. by exists v.
Qed.
Lemma env_value_body key value lines lines' :
  plain value = true → Forall (no_sep newline) lines → replace_body key value lines = Some lines' →
  env_value key lines' = Some value ∧ Forall (no_sep newline) lines' ∧ lines' ≠ [].
Proof.
  intros Hv. revert lines'. induction lines as [|line lines IH]; intros lines' Hf Hr; [done|].
  apply Forall_cons in Hf as [Hl Hf]. cbn in Hr. destruct (assigns key line) eqn:Ha.
  - injection Hr as <-. apply assigns_name in Ha as [old Ha]. pose proof (env_assignment_name _ _ _ Ha Hl) as Hk.
    cbn. rewrite env_assignment_line by (done || by apply plain_stable). rewrite decide_True by done.
    rewrite plain_stable, plain_quotes by done. split_and!; [done| |done]. constructor; [|done].
    apply no_sep_app. split; [apply Hk|]. apply no_sep_cons. split; [done|]. by apply plain_no_newline.
  - apply fmap_Some in Hr as (rest & Hr & ->). destruct (IH rest Hf Hr) as (Hvalue & Hlines & _).
    split_and!; [|by constructor|done]. cbn. unfold assigns in Ha. destruct (env_assignment line) as [[name v]|]; [|done].
    apply bool_decide_eq_false in Ha. by rewrite decide_False.
Qed.
Lemma env_roundtrip content key value content' :
  plain value = true → replaceEnvFileValue content key value = Ok content' → envFileValue content' key = Ok value.
Proof.
  intros Hv. unfold replaceEnvFileValue, SplitAfter, envFileValue. rewrite replace_line_body by apply Split_no_sep.
  destruct (replace_body key value (Split content newline)) as [lines|] eqn:Hr; [|done]. cbn. intros [= <-].
  apply env_value_body in Hr as (Hvalue & Hlines & Hne); [|done|apply Split_no_sep].
  rewrite Join_keep_newlines. unfold newline_text. rewrite Split_Join by done. by rewrite Hvalue.
Qed.

(** ** The scalar at a path of a document *)
(** Documents that differ in the tags and the layout only. *)
Inductive same_node {X} : Node X → Node X → Prop :=
  | same_Node k t t' v x x' c c' : Forall2 same_node c c' → same_node (MkNode k t v x c) (MkNode k t' v x' c').
(** What is documented of yaml: what it writes it reads back. *)
Class YAMLRoundTrip `{MetaDocuments} : Prop :=
  yaml_roundtrip : ∀ root text, print_document root = Ok text →
    ∃ root', parse_document text = Ok root' ∧ same_node (document_root root) (document_root root').

Section documents.
Context {X : Type}.
Implicit Types n : Node X.
Lemma value_of_same part (c c' : list (Node X)) v :
  Forall2 same_node c c' → value_of part c = Some v → ∃ v', value_of part c' = Some v' ∧ same_node v v'.
Proof.
  revert c'. induction c as [c IH] using (induction_ltof1 _ length); unfold ltof in IH. intros c' Hs Hv.
  destruct c as [|k [|w rest]]; [done..|]. apply Forall2_cons_inv_l in Hs as (k' & c1 & Hk & Hs & ->).
  apply Forall2_cons_inv_l in Hs as (w' & rest' & Hw & Hs & ->). cbn in Hv |- *.
  assert (node_Value k' = node_Value k) as -> by (by destruct Hk). case_decide; [injection Hv as <-; eauto|].
  apply (IH rest); [cbn; lia|done|done].
Qed.
Lemma node_at_same path n n' m : same_node n n' → node_at path n = Ok m → ∃ m', node_at path n' = Ok m' ∧ same_node m m'.
Proof.
  revert n n'. induction path as [|part path IH]; intros n n' Hs Hn; cbn in *; [injection Hn as <-; eauto|].
  destruct Hs as [k t t' v x x' c c' Hs]. cbn in *. case_decide; [done|].
  destruct (value_of part c) as [w|] eqn:Hw; [|done]. destruct (value_of_same _ _ _ _ Hs Hw) as (w' & -> & Hww). eauto.
Qed.

Lemma update_value_of part f (c c' : list (Node X)) :
  update_value part f c = Ok c' → ∃ v v', f v = Ok v' ∧ value_of part c' = Some v'.
Proof.
  revert c'. induction c as [c IH] using (induction_ltof1 _ length); unfold ltof in IH. intros c' Hu.
  destruct c as [|k [|w rest]]; [done..|]. cbn in Hu. case_decide as Hk.
  - destruct (f w) as [w'|] eqn:Hw; [|done]. injection Hu as <-. exists w, w'. cbn. by rewrite decide_True.
  - destruct (update_value part f rest) as [rest'|] eqn:Hr; [|done]. injection Hu as <-.
    destruct (IH rest ltac:(cbn; lia) _ Hr) as (v & v' & Hf & Hv). exists v, v'. cbn. by rewrite decide_False.
Qed.
Lemma update_path_reads path value n n' :
  update_path path (set_scalar value) n = Ok n' →
  node_Kind n' = node_Kind n ∧ ∃ m, node_at path n' = Ok m ∧ node_Kind m = ScalarNode ∧ node_Value m = value.
Proof.
  revert n n'. induction path as [|part path IH]; intros n n' Hu; cbn in Hu.
  - unfold set_scalar in Hu. case_decide as Hk; [done|]. injection Hu as <-. destruct n. cbn in *.
    split; [done|]. eexists. split; [done|]. split; [done|done].
  - case_decide as Hk; [done|]. destruct (update_value _ _ _) as [c'|] eqn:Hc; [|done]. injection Hu as <-.
    apply update_value_of in Hc as (v & v' & Hv & Hc). apply IH in Hv as (_ & m & Hm).
    destruct n. cbn in *. split; [done|]. exists m. by rewrite decide_False, Hc by tauto.
Qed.
Lemma replace_at_reads path value n n' :
  replace_at path value n = Ok n' →
  ∃ m, node_at (Split path dot) (document_root n') = Ok m ∧ node_Kind m = ScalarNode ∧ node_Value m = value.
Proof.
  unfold replace_at, update_root, document_root. destruct n as [k t v x [|first others]]; cbn [node_Content node_Kind].
  - pose proof (Split_not_nil path dot). destruct (Split path dot) as [|part rest]; [done|]. cbn. by case_decide.
  - case_decide as Hk.
    + destruct (update_path _ _ first) as [first'|] eqn:Hu; [|done]. intros [= <-].
      apply update_path_reads in Hu as (_ & m & Hm). cbn. rewrite decide_True by done. eauto.
    + intros (Hkind & m & Hm)%update_path_reads. exists m. destruct n' as [k' t' v' x' [|first' others']]; cbn in *; [done|].
      subst k'. by rewrite decide_False.
Qed.
End documents.

Lemma yaml_roundtrip_value `{YAMLRoundTrip} content path imageRef value content' :
  TrimSpace (imageRef +:+ ":" +:+ value) = imageRef +:+ ":" +:+ value →
  replaceYAMLPathImageValue content path imageRef value = Ok content' →
  yamlPathStringValue content' path = Ok (imageRef +:+ ":" +:+ value).
Proof.
  intros Htrim. unfold replaceYAMLPathImageValue, yamlPathStringValue.
  destruct (parse_document content) as [root|]; [cbn|done].
  destruct (replace_at path _ root) as [root'|] eqn:Hr; [cbn|done]. intros Hp.
  apply replace_at_reads in Hr as (m & Hm & Hk & Hv). destruct (yaml_roundtrip _ _ Hp) as (read & Hread & Hs).
  rewrite Hread. cbn. unfold string_at. destruct (node_at_same _ _ _ _ Hs Hm) as (m' & -> & Hmm). cbn.
  assert (node_Kind m' = ScalarNode) as -> by (by destruct Hmm). rewrite decide_False by tauto.
  assert (node_Value m' = imageRef +:+ ":" +:+ value) as -> by (by destruct Hmm). by rewrite Htrim.
Qed.

(** ** The tag and the digest of a value *)
Lemma splitTagDigest_at tag digest :
  plain (tag +:+ "@" +:+ digest) = true → no_sep "@" tag → splitTagDigest (tag +:+ "@" +:+ digest) = (tag, digest).
Proof.
  intros Hp Ht. unfold splitTagDigest. rewrite plain_stable by done. change ("@" +:+ digest) with (String "@" digest).
  change "@" with (String "@" ""). by rewrite Cut_byte.
Qed.
Lemma splitTagDigest_plain tag : plain tag = true → no_sep "@" tag → splitTagDigest tag = (tag, "").
Proof.
  intros Hp Ht. unfold splitTagDigest, Cut. rewrite plain_stable by done. change "@" with (String "@" "").
  by rewrite Index_none.
Qed.
Lemma split_ref_plain fuel imageRef tag :
  plain (imageRef +:+ ":" +:+ tag) = true → no_sep "@" imageRef → no_sep "@" tag → no_sep ":" tag → no_sep "/" tag →
  split_ref fuel (imageRef +:+ ":" +:+ tag) = (tag, "").
Proof.
  intros Hp Hi Ha Hc Hs. change (":" +:+ tag) with (String ":" tag) in *.
  assert (Hn : no_sep "@" (imageRef +:+ String ":" tag)) by (apply no_sep_app; split; [done|by apply no_sep_cons]).
  assert (Hslash : Contains tag "/" = false).
  { unfold Contains. change "/" with (String "/" ""). by rewrite Index_none. }
  destruct fuel; cbn [split_ref]; rewrite plain_stable by done; change "@" with (String "@" ""); rewrite LastIndex_none by done;
    change ":" with (String ":" ""); rewrite LastIndex_byte, drop_after by done; by rewrite Hslash.
Qed.
Lemma splitImageRef_at imageRef tag digest :
  plain (imageRef +:+ ":" +:+ tag +:+ "@" +:+ digest) = true →
  no_sep "@" imageRef → no_sep "@" tag → no_sep ":" tag → no_sep "/" tag → no_sep "@" digest →
  splitImageRefTagDigest (imageRef +:+ ":" +:+ tag +:+ "@" +:+ digest) = (tag, digest).
Proof.
  intros Hp Hi Ha Hc Hs Hd. unfold splitImageRefTagDigest.
  set (image := imageRef +:+ ":" +:+ tag). assert (Heq : imageRef +:+ ":" +:+ tag +:+ "@" +:+ digest = image +:+ String "@" digest).
  { unfold image. by rewrite !app_assoc. }
  rewrite Heq in *. cbn [split_ref]. rewrite plain_stable by done. change "@" with (String "@" "").
  rewrite LastIndex_byte, drop_after, take_bytes_app by done. unfold image. unfold plain in Hp.
  rewrite all_bytes_app in Hp. apply andb_true_iff in Hp as [Hp _]. by rewrite split_ref_plain.
Qed.

(** ** The round trip *)
(** The value that [target_value] makes of a tag and the digest it is pinned to. *)
Definition pinned (tag digest : string) : string := if decide (digest = "") then tag else tag +:+ "@" +:+ digest.
(** The names of images, tags and digests, as registries allow them. *)
Definition image_words (imageRef tag digest : string) : Prop :=
  plain imageRef = true ∧ plain tag = true ∧ plain digest = true ∧
  no_sep "@" imageRef ∧ no_sep "@" tag ∧ no_sep ":" tag ∧ no_sep "/" tag ∧ no_sep "@" digest.
#[export] Instance image_words_dec imageRef tag digest : Decision (image_words imageRef tag digest).
Proof. unfold image_words. apply _. Defined.
Definition current_file (current : ImageUpdateCurrent) : string :=
  match cur_Env current, cur_YAML current with
  | Some env, _ => cenv_File env
  | None, Some yaml => cyaml_File yaml
  | None, None => ""
  end.

Lemma pinned_plain imageRef tag digest :
  image_words imageRef tag digest → plain (pinned tag digest) = true ∧ plain (imageRef +:+ ":" +:+ pinned tag digest) = true.
Proof.
  intros (Hi & Ht & Hd & _). unfold plain, pinned in *. rewrite !all_bytes_app, Hi.
  case_decide; rewrite ?all_bytes_app, ?Ht, ?Hd; done.
Qed.
Lemma splitTagDigest_pinned imageRef tag digest :
  image_words imageRef tag digest → splitTagDigest (pinned tag digest) = (tag, digest).
Proof.
  intros Hw. destruct (pinned_plain _ _ _ Hw) as [Hp _]. destruct Hw as (_ & _ & _ & _ & Ha & _). unfold pinned in *.
  case_decide as Hd; [subst; by apply splitTagDigest_plain|by apply splitTagDigest_at].
Qed.
Lemma splitImageRef_pinned imageRef tag digest :
  image_words imageRef tag digest → splitImageRefTagDigest (imageRef +:+ ":" +:+ pinned tag digest) = (tag, digest).
Proof.
  intros Hw. destruct (pinned_plain _ _ _ Hw) as [_ Hp]. destruct Hw as (_ & _ & _ & Hi & Ha & Hc & Hs & Hd). unfold pinned in *.
  case_decide as He; [subst; by apply split_ref_plain|by apply splitImageRef_at].
Qed.

(** What the controller writes for an update, the agent reads back: the
    value, the tag and the digest, from an environment file or from a YAML
    document, whatever else the file holds. *)
Theorem currentImageUpdateValue_reads_update `{YAMLRoundTrip} (read : string → option string) (image : ImageUpdateConfig)
    (content content' tag digest : string)
    (Hsource : cur_Tag (img_Current image) = "")
    (Hwords : image_words (img_Image image) tag digest)
    (Hwritten : applyImageCurrentUpdate content (img_Current image) (img_Image image) (pinned tag digest) = Ok content')
    (Hread : read (RuntimeFilePath (current_file (img_Current image))) = Some content') :
  currentImageUpdateValue read image =
    Ok (match cur_Env (img_Current image) with
        | Some _ => pinned tag digest
        | None => img_Image image +:+ ":" +:+ pinned tag digest
        end, tag, digest).
Proof.
  destruct (pinned_plain _ _ _ Hwords) as [Hp Hpi]. unfold currentImageUpdateValue, applyImageCurrentUpdate, current_file in *.
  rewrite decide_False by (intros Hn; by apply Hn). destruct (cur_Env (img_Current image)) as [env|].
  - rewrite Hread. cbn. rewrite (env_roundtrip _ _ _ _ Hp Hwritten). cbn. by rewrite (splitTagDigest_pinned _ _ _ Hwords).
  - destruct (cur_YAML (img_Current image)) as [yaml|]; [|done]. rewrite Hread. cbn [result_bind].
    rewrite (yaml_roundtrip_value _ _ _ _ _ (plain_stable _ Hpi) Hwritten). cbn [result_bind].
    by rewrite (splitImageRef_pinned _ _ _ Hwords).
Qed.

(** Documents of one line, [image: value]. *)
Definition one_line (value : string) : Node () :=
  MkNode DocumentNode "" "" () [MkNode MappingNode "" "" ()
    [MkNode ScalarNode "" "image" () []; MkNode ScalarNode "" value () []]].
Definition one_line_documents : MetaDocuments :=
  {| doc_extra := (); doc_zero := ();
     parse_document text :=
       if HasPrefix text "image: " then Ok (one_line (TrimPrefix text "image: ")) else Err "decode";
     print_document n :=
       match n with
       | MkNode DocumentNode _ _ _ [MkNode MappingNode _ none _
           [MkNode ScalarNode _ key _ []; MkNode ScalarNode _ value _ []]] =>
           if decide (key = "image" ∧ none = "") then Ok ("image: " +:+ value) else Err "encode"
       | _ => Err "encode"
       end |}.
Lemma one_line_roundtrip : @YAMLRoundTrip one_line_documents.
Proof.
  intros root text Hp. change (Node doc_extra) with (Node ()) in root. unfold print_document, one_line_documents in Hp.
  repeat case_match; destruct_and?; simplify_eq.
  match goal with |- context ["image: " +:+ ?v] => exists (one_line v) end. split.
  - unfold parse_document, one_line_documents. rewrite TrimPrefix_app.
    by rewrite (proj2 (HasPrefix_spec _ _)) by eauto.
  - unfold document_root. cbn -[decide]. rewrite !decide_True by done. repeat (apply (@same_Node ()) || constructor).
Qed.
Definition nginx_image : ImageUpdateConfig :=
  MkImageUpdateConfig "docker.io/nginx" None "" None None
    (MkImageUpdateCurrent "" None (Some (MkImageUpdateCurrentYAML "compose.yaml" "image"))) (img_Discovery zero_image) None.
Lemma currentImageUpdateValue_reads_update_witness :
  @currentImageUpdateValue one_line_documents (λ _, Some "image: docker.io/nginx:1.3.0@sha256:ab") nginx_image =
    Ok ("docker.io/nginx:1.3.0@sha256:ab", "1.3.0", "sha256:ab").
Proof.
  apply (@currentImageUpdateValue_reads_update one_line_documents one_line_roundtrip
    (λ _, Some "image: docker.io/nginx:1.3.0@sha256:ab") nginx_image
    "image: docker.io/nginx:1.2.0" "image: docker.io/nginx:1.3.0@sha256:ab" "1.3.0" "sha256:ab").
  - reflexivity.
  - vm_compute. repeat split.
  - vm_compute. reflexivity.
  - reflexivity.
Defined.

(** ** Theorems on image updates

    The probe for the highest component of a version always ends and finds
    the last one that exists; the candidates are the tags the filter keeps,
    the newest first; the agent reads the value the controller wrote. *)
From S2P Require Export AgentImages.
Local Open Scope Z_scope.

(** ** Programs that ask the registry *)
(** The program ends within its bound, with a value in [Q], or with an error
    when [E] holds. *)
Definition ends_with {A} (E : Prop) (m : Probe A) (Q : A → Prop) : Prop :=
  ∀ n, match (m n).2 with
       | None => False
       | Some (Err _) => E
       | Some (Ok a) => Q a
       end.
Lemma ends_ret {A} E (a : A) (Q : A → Prop) : Q a → ends_with E (mret a) Q.
Proof. by intros ? n. Qed.
Lemma ends_bind {A B} E (m : Probe A) (f : A → Probe B) (P : A → Prop) (Q : B → Prop) :
  ends_with E m P → (∀ a, P a → ends_with E (f a) Q) → ends_with E (m ≫= f) Q.
Proof.
  intros Hm Hf n. specialize (Hm n). unfold mbind, Probe_bind.
  destruct (m n) as [n' [[a|e]|]]; [by apply Hf|done|done].
Qed.
Lemma ends_mono {A} (E E' : Prop) (m : Probe A) (Q Q' : A → Prop) :
  ends_with E m Q → (E → E') → (∀ a, Q a → Q' a) → ends_with E' m Q'.
Proof. intros Hm HE HQ n. specialize (Hm n). destruct (m n) as [n' [[a|e]|]]; cbn in *; auto. Qed.

(** ** Integers of 64 bits *)
Definition is_int64 (n : Z) : Prop := - 2 ^ 63 ≤ n < 2 ^ 63.
Lemma int64_range n : is_int64 (int64 n).
Proof. unfold is_int64, int64. pose proof (Z.mod_pos_bound (n + 2 ^ 63) (2 ^ 64)). lia. Qed.
Lemma int64_id n : is_int64 n → int64 n = n.
Proof. intros [? ?]. unfold int64. rewrite Z.mod_small; lia. Qed.
(** A number too large by less than [2 ^ 64] comes back negative. *)
Lemma int64_wrap n : 2 ^ 63 ≤ n < 2 ^ 63 + 2 ^ 64 → int64 n = n - 2 ^ 64.
Proof.
  intros [? ?]. unfold int64. replace (n + 2 ^ 63) with (n - 2 ^ 63 + 1 * 2 ^ 64) by lia.
  rewrite Z.mod_add, Z.mod_small; lia.
Qed.

Lemma pow2_le i j : 0 ≤ i ≤ j → 1 ≤ 2 ^ i ≤ 2 ^ j.
Proof.
  intros [? ?]. pose proof (Z.pow_pos_nonneg 2 i ltac:(lia) ltac:(lia)).
  pose proof (Z.pow_le_mono_r 2 i j ltac:(lia) ltac:(lia)). lia.
Qed.

(** ** The probe *)
Section probe.
Context `{RegistryLibraries} (exists_ : Z → Probe bool).

(** What an answer said of a component, and the reasons to fail. *)
Definition seen (answer : bool) (k : Z) : Prop := ∃ n, (exists_ k n).2 = Some (Ok answer).
Definition may_fail : Prop := (∃ k n e, (exists_ k n).2 = Some (Err e)) ∨ ∃ n, context_done n = true.

Hypothesis answers : ∀ k n, (exists_ k n).2 ≠ None.
Hypothesis none_negative : ∀ k, k < 0 → ¬ seen true k.

Lemma exists_ends k : ends_with may_fail (exists_ k) (λ b, seen b k).
Proof.
  intros n. specialize (answers k n). destruct (exists_ k n) as [n' [[b|e]|]] eqn:Hr; cbn in *.
  - exists n. by rewrite Hr.
  - left. exists k, n, e. by rewrite Hr.
  - done.
Qed.

(** The middle of an interval lies inside, or is negative after an overflow. *)
Lemma middle low high :
  0 ≤ low < high → high < 2 ^ 63 →
  let mid := int64 (low + high + 1) `quot` 2 in
  (low < mid ≤ high ∧ 2 * mid ≤ low + high + 1 < 2 * mid + 2) ∨ (2 ^ 62 ≤ high ∧ - 2 ^ 63 < mid < 0).
Proof.
  intros Hl Hh mid. unfold mid. destruct (decide (low + high + 1 < 2 ^ 63)) as [Hs|Hs].
  - left. rewrite int64_id by (unfold is_int64; lia).
    pose proof (Z.quot_rem' (low + high + 1) 2) as Hq.
    pose proof (Z.rem_bound_pos (low + high + 1) 2 ltac:(lia) ltac:(lia)). lia.
  - right. rewrite int64_wrap by lia. set (s := low + high + 1 - 2 ^ 64).
    assert (Hneg : - 2 ^ 63 ≤ s ≤ - 2) by (unfold s; lia).
    pose proof (Z.quot_rem' s 2) as Hq. pose proof (Z.rem_bound_pos_neg s 2 ltac:(lia) ltac:(lia)). lia.
Qed.

Lemma bisect_finds fuel low high :
  0 ≤ low < 2 ^ 63 → is_int64 high → high - low < 2 ^ Z.of_nat fuel →
  seen true low → seen false (high + 1) ∨ high < low ∨ 2 ^ 62 ≤ high →
  ends_with may_fail (bisect fuel exists_ low high) (λ k,
    low ≤ k < 2 ^ 63 ∧ seen true k ∧ (seen false (k + 1) ∨ high < low ∨ 2 ^ 62 ≤ high)).
Proof.
  revert low high. induction fuel as [|fuel IH]; intros low high Hlow Hhigh Hfuel Ht Hf; cbn [bisect].
  - rewrite decide_False by lia. apply ends_ret. split_and!; [lia|lia|done|].
    destruct Hf as [Hf|Hf]; [|by right]. destruct (decide (high < low)); [by right; left|].
    left. by replace low with high by lia.
  - case_decide as Hlt.
    + rewrite Nat2Z.inj_succ, Z.pow_succ_r in Hfuel by lia.
      destruct (middle low high) as [[Hmid Hhalf]|[Hbig Hmid]]; [lia|unfold is_int64 in *; lia|..];
        set (mid := int64 _ `quot` 2) in *.
      * eapply ends_bind; [apply exists_ends|]. intros [] Hm.
        -- eapply ends_mono; [apply (IH mid high)|done|]; [unfold is_int64 in *; lia|done|lia|done| |].
           ++ destruct Hf as [?|[?|?]]; [by left|lia|by right; right].
           ++ intros k (? & ? & Hk). split_and!; [lia|lia|done|]. destruct Hk as [?|[?|?]]; [by left|lia|by right; right].
        -- rewrite int64_id by (unfold is_int64 in *; lia).
           eapply ends_mono; [apply (IH low (mid - 1))|done|]; [lia|unfold is_int64 in *; lia|lia|done| |].
           ++ left. by replace (mid - 1 + 1) with mid by lia.
           ++ intros k (? & ? & Hk). split_and!; [lia|lia|done|]. destruct Hk as [?|[?|?]]; [by left|lia|right; right; lia].
      * eapply ends_bind; [apply exists_ends|]. intros [] Hm; [exfalso; apply (none_negative mid); [lia|done]|].
        rewrite int64_id by (unfold is_int64; lia).
        eapply ends_mono; [apply (IH low (mid - 1))|done|]; [lia|unfold is_int64; lia| |done|right; left; lia|].
        -- pose proof (Z.pow_pos_nonneg 2 (Z.of_nat fuel)). lia.
        -- intros k (? & ? & ?). split_and!; [lia|lia|done|]. by right; right.
    + apply ends_ret. split_and!; [lia|lia|done|]. destruct Hf as [Hf|Hf]; [|by right].
      destruct (decide (high < low)); [by right; left|]. left. by replace low with high by lia.
Qed.

Lemma double_finds i fuel start low :
  0 ≤ i ≤ 62 → 63 - i ≤ Z.of_nat fuel → 0 ≤ start ≤ low → low < 2 ^ 63 → low < start + 2 ^ i ≤ 2 * low + 1 →
  seen true low →
  ends_with may_fail (double fuel exists_ start low (2 ^ i)) (λ k,
    start ≤ k < 2 ^ 63 ∧ seen true k ∧ (seen false (k + 1) ∨ 2 ^ 61 ≤ k)).
Proof.
  revert i low. induction fuel as [|fuel IH]; intros i low Hi Hfuel Hstart Hlow Hstep Ht; [lia|]. cbn [double].
  pose proof (pow2_le i 62 ltac:(lia)) as Hpow.
  set (candidate := int64 (start + 2 ^ i)).
  assert (Hcand : (candidate = start + 2 ^ i ∧ candidate < 2 ^ 63) ∨ (candidate < 0 ∧ 2 ^ 61 ≤ low)).
  { destruct (decide (start + 2 ^ i < 2 ^ 63)).
    - left. unfold candidate. rewrite int64_id; unfold is_int64; lia.
    - right. unfold candidate. rewrite int64_wrap; lia. }
  pose proof (int64_range (start + 2 ^ i)) as Hrange. fold candidate in Hrange.
  eapply ends_bind; [apply exists_ends|]. intros [] Hc; cbn [negb].
  - destruct Hcand as [[Hcand ?]|[Hneg _]]; [|exfalso; by apply (none_negative candidate)].
    case_decide as Hover.
    + apply ends_ret. split_and!; [lia|lia|done|right].
      destruct (decide (i = 62)) as [->|Hne]; [lia|]. exfalso.
      pose proof (pow2_le i 61 ltac:(lia)). rewrite int64_id in Hover; unfold is_int64; lia.
    + destruct (decide (i = 62)) as [->|Hne]; [by vm_compute in Hover|].
      pose proof (pow2_le i 61 ltac:(lia)) as Hsmall.
      rewrite int64_id by (unfold is_int64; lia).
      replace (2 ^ i * 2) with (2 ^ (i + 1)) by (rewrite Z.pow_add_r; lia).
      apply (ends_bind _ _ _ (λ done, done = true → ∃ n, context_done n = true)).
      { intros n. cbn. intros Hd. by exists n. }
      intros [] Hd; [intros n; right; by apply Hd|].
      eapply ends_mono; [apply (IH (i + 1) candidate)|done|]; [lia|lia|lia|lia| |done|].
      * rewrite Z.pow_add_r by lia. lia.
      * intros k (? & ? & ?). split_and!; [lia|lia|done|done].
  - pose proof (int64_range (candidate - 1)) as Hr.
    assert (Hhigh : int64 (candidate - 1) = candidate - 1 ∨ 2 ^ 61 ≤ low).
    { destruct Hcand as [[-> ?]|[? ?]]; [left; apply int64_id; unfold is_int64; lia|by right]. }
    eapply ends_mono; [apply (bisect_finds 64 low (int64 (candidate - 1)))|done|]; [lia|done| |done| |].
    + unfold is_int64 in Hr. change (2 ^ Z.of_nat 64) with (2 ^ 64). lia.
    + destruct (decide (candidate = - 2 ^ 63)) as [->|Hne]; [right; right; by vm_compute|].
      left. rewrite int64_id by (unfold is_int64 in *; lia). by replace (candidate - 1 + 1) with candidate by lia.
    + intros k (? & Hk & Hf). split_and!; [lia|lia|done|]. destruct (decide (2 ^ 61 ≤ k)); [by right|left].
      destruct Hhigh as [Hhigh|?]; [|lia]. destruct Hcand as [[Hcand ?]|[? ?]]; [|lia].
      rewrite Hhigh in Hf. by destruct Hf as [Hf|[?|?]]; [|lia|lia].
Qed.

Lemma contiguous_finds start :
  is_int64 start →
  ends_with may_fail (probeContiguousSemverComponent start exists_) (λ found,
    match found with
    | None => start < 0 ∨ seen false start
    | Some k => start ≤ k < 2 ^ 63 ∧ seen true k ∧ (seen false (k + 1) ∨ 2 ^ 61 ≤ k)
    end).
Proof.
  intros [_ Hstart]. unfold probeContiguousSemverComponent. case_decide as Hneg; [apply ends_ret; by left|].
  eapply ends_bind; [apply exists_ends|]. intros [] Hs; cbn [negb]; [|apply ends_ret; by right].
  eapply ends_bind; [apply (double_finds 0); [lia|lia|lia|lia|change (2 ^ 0) with 1; lia|done]|].
  intros k Hk. by apply ends_ret.
Qed.
End probe.

(** C30: whatever the registry answers, the probe for a component of a version
    ends within its bounds, unless a request fails or it is cancelled: it says
    that the first component does not exist, or gives one that was seen to
    exist and whose successor was seen not to (below [2 ^ 61]).  So when
    exactly the components up to [last] exist, it finds [last]. *)
Theorem probeContiguousSemverComponent_finds `{RegistryLibraries} (exists_ : Z → Probe bool) (start : Z)
    (answers : ∀ k n, (exists_ k n).2 ≠ None)
    (none_negative : ∀ k, k < 0 → ¬ seen exists_ true k)
    (Hstart : is_int64 start) :
  ends_with (may_fail exists_) (probeContiguousSemverComponent start exists_) (λ found,
    match found with
    | None => start < 0 ∨ seen exists_ false start
    | Some k => start ≤ k ∧ seen exists_ true k ∧ (seen exists_ false (k + 1) ∨ 2 ^ 61 ≤ k)
    end) ∧
  (∀ last, 0 ≤ start → last < 2 ^ 61 → (∀ n, context_done n = false) →
     (∀ k n, (exists_ k n).2 = Some (Ok (bool_decide (0 ≤ k ≤ last)))) →
     ∀ n, (probeContiguousSemverComponent start exists_ n).2 =
          Some (Ok (if decide (start ≤ last) then Some last else None))).
Proof.
  pose proof (contiguous_finds exists_ answers none_negative start Hstart) as Hfound. split.
  - eapply ends_mono; [exact Hfound|done|]. intros [k|] Hk; [|done]. destruct Hk as ([? ?] & ? & ?). split_and!; auto.
  - intros last Hs Hlast Hdone Hanswers n. specialize (Hfound n).
    assert (Hseen : ∀ b k, seen exists_ b k → b = bool_decide (0 ≤ k ≤ last)).
    { intros b k [m Hm]. rewrite Hanswers in Hm. by simplify_eq. }
    destruct (probeContiguousSemverComponent start exists_ n) as [n' [[[k|]|e]|]]; cbn in Hfound |- *.
    + destruct Hfound as (Hk & Ht%Hseen & Hf). symmetry in Ht. apply bool_decide_eq_true in Ht.
      destruct Hf as [Hf%Hseen|?]; [|lia]. symmetry in Hf. apply bool_decide_eq_false in Hf.
      rewrite decide_True by lia. do 3 f_equal. lia.
    + destruct Hfound as [?|Hf%Hseen]; [lia|]. symmetry in Hf. apply bool_decide_eq_false in Hf.
      by rewrite decide_False by lia.
    + destruct Hfound as [(k & m & e' & He)|[m Hm]]; [by rewrite Hanswers in He|by rewrite Hdone in Hm].
    + done.
Qed.


Definition registry_example : RegistryLibraries :=
  {| http_do _ _ _ _ := Err ""; context_done _ := false; url_String := Some; url_Resolve _ := Some;
     path_escape s := s; QueryEncode _ := ""; decode_tags _ := None; decode_token _ := None |}.
(** The components 0 to 20 exist: probing from 3 finds 20. *)
Definition up_to_20 (k : Z) : Probe bool := ask (λ _, Ok (bool_decide (0 ≤ k ≤ 20))).
Lemma probeContiguousSemverComponent_finds_witness :
  (@probeContiguousSemverComponent registry_example 3 up_to_20 O).2 = Some (Ok (Some 20)).
Proof.
  refine (proj2 (@probeContiguousSemverComponent_finds registry_example up_to_20 3 _ _ _) 20 _ _ _ _ O).
  - intros k n. discriminate.
  - intros k Hk [n Hn]. cbv [up_to_20 ask snd] in Hn. injection Hn as Hn. apply bool_decide_eq_true in Hn. lia.
  - unfold is_int64. lia.
  - lia.
  - lia.
  - reflexivity.
  - reflexivity.
Defined.

(** ** The candidates *)
(** A comparison by sign that is a total preorder. *)
Definition orders {A} (cmp : A → A → Z) : Prop :=
  (∀ x y, cmp x y ≤ 0 ∨ cmp y x ≤ 0) ∧ (∀ x y, cmp x y ≤ 0 ↔ 0 ≤ cmp y x) ∧
  (∀ x y z, cmp x y ≤ 0 → cmp y z ≤ 0 → cmp x z ≤ 0).
(** What is documented of [slices.SortFunc] and of the order of versions. *)
Class SortLaws `{TagLibraries} : Prop := {
  SortFunc_perm : ∀ A (cmp : A → A → Z) l, SortFunc cmp l ≡ₚ l;
  SortFunc_sorted : ∀ A (cmp : A → A → Z) l, orders cmp → Sorted (λ x y, cmp x y ≤ 0) (SortFunc cmp l);
}.
Class SemverLaws `{Semver} : Prop := semver_orders : orders semver_Compare.

Lemma orders_flip {A B} (cmp : A → A → Z) (f : B → A) : orders cmp → orders (λ x y, cmp (f y) (f x)).
Proof.
  intros (Ht & Hs & Htr). split_and!.
  - intros x y. destruct (Ht (f y) (f x)); auto.
  - intros x y. apply Hs.
  - intros x y z ? ?. by apply (Htr _ (f y)).
Qed.

Section candidates.
Context `{Semver} `{TagLibraries} `{!SortLaws} `{!SemverLaws}.

Lemma newest_spec {K} (key : string → option K) (cmp : K → K → Z) (keep : K → bool) tags :
  orders cmp →
  newest key cmp keep tags ≡ₚ filter (λ tag, match key tag with Some k => keep k | None => false end = true) tags ∧
  StronglySorted (λ a b, ∀ ka kb, key a = Some ka → key b = Some kb → 0 ≤ cmp ka kb) (newest key cmp keep tags).
Proof.
  intros Ho. unfold newest. set (f := λ tag, k ← key tag; if keep k then Some (tag, k) else None).
  set (c := λ left_ right_ : string * K, cmp right_.2 left_.2).
  assert (Hc : orders c) by (by apply (orders_flip cmp snd)).
  split.
  - rewrite SortFunc_perm. induction tags as [|tag tags IH]; [done|]. cbn [omap list_omap]. rewrite filter_cons.
    unfold f at 1. destruct (key tag) as [k|]; cbn; [|exact IH]. destruct (keep k); cbn; [by rewrite IH|exact IH].
  - pose proof (SortFunc_sorted _ c (omap f tags) Hc) as Hs. apply Sorted_StronglySorted in Hs.
    2: { intros x y z ? ?. destruct Hc as (_ & _ & Ht). by apply (Ht x y z). }
    assert (Hkeys : Forall (λ tk : string * K, key tk.1 = Some tk.2) (SortFunc c (omap f tags))).
    { rewrite SortFunc_perm. apply Forall_forall. intros tk (tag & _ & Htag)%list_elem_of_omap. unfold f in Htag.
      destruct (key tag) as [k|] eqn:Hk; [|done]. cbn in Htag. destruct (keep k); by simplify_eq. }
    induction Hs as [|x l Hs IH Hx]; cbn; [constructor|]. apply Forall_cons in Hkeys as [Hxk Hkeys].
    constructor; [by apply IH|]. apply Forall_fmap. rewrite Forall_forall in Hx, Hkeys |- *.
    intros y Hy ka kb Ha Hb. rewrite Hxk in Ha. cbn in Hb. rewrite (Hkeys y Hy) in Hb. simplify_eq.
    apply Hc. by apply Hx.
Qed.

(** What the filter keeps, and the order it gives. *)
Definition selected (f : ImageUpdateFilter) (current tag : string) : bool :=
  if decide (fil_Type f = "semver") then
    match parseSimpleSemver (TrimSpace current), parseSimpleSemver tag with
    | Some c, Some v => greaterThan v c && semverUpdateAllowed c v (semverAllowedUpdates (fil_Allow f))
    | _, _ => false
    end
  else if decide (fil_Type f = "date") then
    match time_Parse (fil_Format f) (TrimSpace current), time_Parse (fil_Format f) tag with
    | Some c, Some t => bool_decide (c < t)
    | _, _ => false
    end
  else if decide (fil_Type f = "regex") then
    match regexp_Compile (fil_Pattern f) with
    | None => false
    | Some re =>
        match regexOrderKey re (TrimSpace current) (fil_Order f), regexOrderKey re tag (fil_Order f) with
        | Some c, Some k => bool_decide (0 < compareRegexKeys k c (fil_Order f))
        | _, _ => false
        end
    end
  else bool_decide (fil_Type f = "latest").
Definition not_older (f : ImageUpdateFilter) (a b : string) : Prop :=
  if decide (fil_Type f = "semver") then
    ∀ va vb, parseSimpleSemver a = Some va → parseSimpleSemver b = Some vb → 0 ≤ ss_compare va vb
  else if decide (fil_Type f = "date") then
    ∀ ta tb, time_Parse (fil_Format f) a = Some ta → time_Parse (fil_Format f) b = Some tb → tb ≤ ta
  else if decide (fil_Type f = "regex") then
    ∀ re ka kb, regexp_Compile (fil_Pattern f) = Some re → regexOrderKey re a (fil_Order f) = Some ka →
      regexOrderKey re b (fil_Order f) = Some kb → 0 ≤ compareRegexKeys ka kb (fil_Order f)
  else True.

(** A comparison read as an order. *)
Lemma orders_of {A} (le : relation A) (cmp : A → A → Z) :
  (∀ x y, le x y ∨ le y x) → (∀ x y z, le x y → le y z → le x z) →
  (∀ x y, cmp x y ≤ 0 ↔ le x y) → (∀ x y, 0 ≤ cmp x y ↔ le y x) → orders cmp.
Proof.
  intros Ht Htr Hl Hg. split_and!; [intros x y; rewrite !Hl; apply Ht|intros x y; by rewrite Hl, Hg|].
  intros x y z. rewrite !Hl. apply Htr.
Qed.

Lemma regex_orders order : orders (λ a b, compareRegexKeys a b order).
Proof.
  unfold compareRegexKeys. case_decide.
  - split_and!; intros; repeat case_bool_decide; lia.
  - apply (orders_of String.le); [apply String.le_total|intros; by etrans|..]; intros x y;
      pose proof (String.le_total x y) as Ht; pose proof (anti_symm String.le x y) as Ha;
      (destruct (decide (x = y)) as [->|]; [rewrite !bool_decide_eq_false_2 by tauto; naive_solver|]);
      repeat case_bool_decide; naive_solver lia.
Qed.

Lemma date_orders : orders Z.sub.
Proof. split_and!; intros; lia. Qed.

Lemma newest_selects {K} (key : string → option K) cmp keep (sel : string → bool) (older : relation string) tags :
  orders cmp →
  (∀ tag, sel tag = match key tag with Some k => keep k | None => false end) →
  (∀ a b, (∀ ka kb, key a = Some ka → key b = Some kb → 0 ≤ cmp ka kb) → older a b) →
  newest key cmp keep tags ≡ₚ filter (λ tag, sel tag = true) tags ∧ StronglySorted older (newest key cmp keep tags).
Proof.
  intros Ho Hs Hold. destruct (newest_spec key cmp keep tags Ho) as [Hp Hsort]. split.
  - rewrite Hp. clear -Hs. induction tags as [|tag tags IH]; [done|]. rewrite !filter_cons, Hs.
    destruct (key tag) as [k|]; [destruct (keep k)|]; repeat case_decide; by (done || rewrite IH).
  - clear Hp. induction Hsort as [|x l Hl IH Hx]; constructor; [done|]. eapply Forall_impl; [exact Hx|]. auto.
Qed.

Lemma nothing_selected (sel : string → bool) (older : relation string) tags :
  (∀ tag, sel tag = false) → [] ≡ₚ filter (λ tag, sel tag = true) tags ∧ StronglySorted older [].
Proof.
  intros Hs. split; [|constructor]. induction tags as [|tag tags IH]; [done|]. rewrite filter_cons, Hs. exact IH.
Qed.

(** The candidates for the update of an image are exactly the tags its
    filter keeps (versions above the current one of an allowed kind, later
    dates, higher keys, or every tag), none lost or made up, the newest first:
    no candidate is older than one after it. *)
Theorem candidateImageTags_selects (current : string) (tags : list string) (f : ImageUpdateFilter) :
  candidateImageTags current tags (Some f) ≡ₚ filter (λ tag, selected f current tag = true) tags ∧
  StronglySorted (not_older f) (candidateImageTags current tags (Some f)).
Proof.
  unfold candidateImageTags, selected, not_older.
  destruct (decide (fil_Type f = "semver")), (decide (fil_Type f = "date")), (decide (fil_Type f = "regex")),
    (decide (fil_Type f = "latest")) as [Hl|?]; try congruence.
  - destruct (parseSimpleSemver (TrimSpace current)) as [c|]; [|by apply nothing_selected].
    apply newest_selects; [apply (orders_flip (λ x y, ss_compare y x) id), (orders_flip semver_Compare ss_version), semver_orders|done|].
    intros a b Hab. exact Hab.
  - destruct (time_Parse (fil_Format f) (TrimSpace current)) as [c|]; [|by apply nothing_selected].
    apply newest_selects; [apply date_orders|done|]. intros a b Hab ta tb Ha Hb. specialize (Hab ta tb Ha Hb). lia.
  - destruct (regexp_Compile (fil_Pattern f)) as [re|]; [|by apply nothing_selected].
    destruct (regexOrderKey re (TrimSpace current) (fil_Order f)) as [c|]; [|by apply nothing_selected].
    apply newest_selects; [apply regex_orders|done|]. intros a b Hab re' ka kb [= <-]. apply Hab.
  - rewrite (bool_decide_eq_true_2 _ Hl). split.
    + clear. induction tags as [|tag tags IH]; [done|]. by rewrite filter_cons, decide_True, <-IH.
    + induction tags; constructor; [done|]. by apply Forall_forall.
  - by apply nothing_selected; intros _; apply bool_decide_eq_false.
Qed.
End candidates.


(** Versions of three numbers, and a sort. *)
Definition semver_example : Semver :=
  {| semver_version := Z * Z * Z;
     StrictNewVersion s := match omap parse_digits (Split s dot) with [a; b; c] => Some (a, b, c) | _ => None end;
     semver_Major v := v.1.1; semver_Minor v := v.1.2; semver_Patch v := v.2;
     semver_Compare v w :=
       if decide (v.1.1 ≠ w.1.1) then v.1.1 - w.1.1
       else if decide (v.1.2 ≠ w.1.2) then v.1.2 - w.1.2 else v.2 - w.2 |}.
Definition tags_example : TagLibraries :=
  {| time_Parse _ _ := None; compiled_regexp := unit; regexp_Compile _ := None; FindStringSubmatch _ _ := [];
     SortFunc _ cmp l := merge_sort (λ x y, cmp x y ≤ 0) l |}.
Lemma tags_example_laws : @SortLaws tags_example.
Proof.
  split.
  - intros A cmp l. apply merge_sort_Permutation.
  - intros A cmp l (Ht & _). cbn. apply Sorted_merge_sort. intros x y. apply Ht.
Qed.
Lemma semver_example_laws : @SemverLaws semver_example.
Proof. split_and!; cbn; intros; repeat case_decide; lia. Qed.
Definition minor_filter : ImageUpdateFilter := MkImageUpdateFilter "semver" "" "" "" [].
Lemma candidateImageTags_selects_witness :
  @candidateImageTags semver_example tags_example "1.2.3" ["1.2.4"; "nightly"; "2.0.0"; "1.3.0"; "1.1.9"] (Some minor_filter) =
    ["1.3.0"; "1.2.4"] ∧
  StronglySorted (@not_older semver_example tags_example minor_filter) ["1.3.0"; "1.2.4"].
Proof.
  pose proof (@candidateImageTags_selects semver_example tags_example tags_example_laws semver_example_laws
    "1.2.3" ["1.2.4"; "nightly"; "2.0.0"; "1.3.0"; "1.1.9"] minor_filter) as [_ Hs].
  split; [vm_compute; reflexivity|]. exact Hs.
Defined.
