(* ===== verification/Outbox.v ===== *)
(** * The outbox of the controller
    (src/internal/app/controller/task_outbox.go,
    agent_report.go: the tasks that follow a task)

    A completed task leaves an event in the outbox in the same transaction.
    The loop takes the oldest event that is due, creates the tasks that follow,
    announces the task, marks what it did, and tries again later what failed. *)
From S2P Require Export ServiceCommand.

Section outbox.
Context `{DnsState} `{GitState} `{!Environment} `{!GitCommand} `{ForgeLibraries} `{DockerCommand}.
Context `{Disk} `{MetaDecoder} `{Cron} `{Libraries} `{Secrets} `{SQLite} `{SQLiteJSON} `{ParamsJSON} `{MetaDocuments}.
Context `{ImageReferences}.
Context (cfg : ControllerConfig) (availableNodeIDs : gset string).

(** ** The tasks that follow *)
Definition record_params (record : TaskRecord) : M serviceTaskParams :=
  lift (with_code CodeUnknown (taskParams (rec_ParamsJSON record))).
Definition service_of_task (record : TaskRecord) (params : serviceTaskParams) : M Service :=
  find_service_at cfg availableNodeIDs (rec_RepoRevision record) (tp_ServiceDir params).
(** The task names a service at a revision, on a node. *)
Definition located (record : TaskRecord) (params : serviceTaskParams) : bool :=
  negb (bool_decide (tp_ServiceDir params = "")) && negb (bool_decide (rec_RepoRevision record = "")).
Definition on_node (record : TaskRecord) : bool := negb (bool_decide (rec_NodeID record = "")).
Definition ignore {A} (m : M A) : M () := _ ← m; mret ().

Definition service_has_dns (service : Service) : bool :=
  match sm_Network (svc_Meta service) ≫= net_DNS with
  | None => false
  | Some dns => negb (bool_decide (Entries (Some dns) = []))
  end.
Definition queueDNSUpdateForTask (record : TaskRecord) : M () :=
  params ← record_params record;
  if negb (located record params && on_node record) then mret ()
  else
    service ← service_of_task record params;
    if negb (service_has_dns service) then mret ()
    else ignore (createServiceDNSUpdateTask cfg None service (rec_NodeID record) (rec_RepoRevision record)
                   (rec_Source record)
                   ("post:" +:+ svc_Name service +:+ ":" +:+ rec_RepoRevision record +:+ ":dns-update")).

Definition queueCaddyReloadForTask (record : TaskRecord) : M () :=
  params ← record_params record;
  if negb (located record params && on_node record) then mret ()
  else
    service ← service_of_task record params;
    if negb (CaddyManaged service) then mret ()
    else ignore (createNodeCaddyReloadTask cfg availableNodeIDs None (rec_NodeID record) (rec_Source record)
                   ("post:" +:+ rec_TaskID record +:+ ":caddy-reload:" +:+ rec_NodeID record)).

Definition queueCloudflareTunnelSyncForTask (record : TaskRecord) : M () :=
  if decide (cc_CloudflareTunnel cfg = None) then mret ()
  else
    params ← record_params record;
    if negb (located record params) then mret ()
    else
      service ← service_of_task record params;
      if negb (CloudflareTunnelManaged service) then mret ()
      else
        ignore (createServiceCloudflareTunnelSyncTask cfg availableNodeIDs None (svc_Name service)
                  (if decide (rec_Type record = TypeStop) then tp_ServiceDir params else "") (rec_Source record)
                  ("post:" +:+ rec_TaskID record +:+ ":cloudflare-tunnel-sync")).

(** ** The update that follows the check of images *)
Definition imageAutoApplyDedupeKey (record : TaskRecord) (params : serviceTaskParams) : string :=
  if decide (tp_ImageCheckBatchID params = "") then "post:" +:+ rec_TaskID record +:+ ":image-auto-apply"
  else "image-check:" +:+ tp_ImageCheckBatchID params +:+ ":auto-apply".
Definition errImageCheckBatchIncomplete : ConnectError := NewError CodeUnknown "image check batch is incomplete".

(** An image to update: the check found one and it is applied without asking. *)
Definition auto_selection (update : UpdateConfig) (imageNames : list string)
    (checksByImage : gmap string ServiceImageUpdateCheck) (named : string * ImageUpdateConfig)
    : option ImageUpdateSelection :=
  let '(imageName, image) := named in
  if negb (bool_decide (imageNames = [])) && negb (bool_decide (imageName ∈ imageNames)) then None
  else if negb (effectiveImageAutoApply cfg update image) then None
  else match detected (checksByImage !! imageName) with
       | None => None
       | Some _ => Some (MkImageUpdateSelection imageName ""
                     (negb (IsDigestImageDiscovery (img_Discovery image) (upd_DiscoverySources update))))
       end.

(** Apply what the batch found, once the digests of the nodes are compared. *)
Definition auto_apply (record : TaskRecord) (params : serviceTaskParams) (service : Service) (update : UpdateConfig)
    (batch : ImageCheckBatchResult) : M () :=
  checksBeforeReconcile ← latest_checks service;
  checkedImageNames ← (if decide (tp_ImageNames params = [])
                       then ranged ← range_map (upd_Images update); mret ranged.*1
                       else mret (tp_ImageNames params));
  ready ← reconcileServiceDigestChecks service checkedImageNames (ib_StartedAt batch) (ib_FinishedAt batch);
  if negb ready then mret ()
  else
    checks ← latest_checks service;
    _ ← M_each (λ _ _, emit (EvNotified EventImageUpdateAvailable)) ()
          (detectNewImageUpdateChecks checksBeforeReconcile checks);
    ranged ← range_map (upd_Images update);
    let selections := omap (auto_selection update (tp_ImageNames params) (by_image checks)) ranged in
    if decide (selections = []) then mret ()
    else
      baseRevision ← CurrentRevision;
      created ← runServiceUpdateWithImageSelections cfg availableNodeIDs None service [] selections false None
        baseRevision ("update images for " +:+ svc_Name service) (rec_Source record)
        (composeRecreateModeParam TypeUpdate COMPOSE_RECREATE_MODE_AUTO) (imageAutoApplyDedupeKey record params);
      if decide (created.1 = []) then mret ()
      else
        t ← now;
        uuid ← new_uuid;
        store_write plain (EnqueueTaskOutboxEvent uuid (ib_CoordinatorTaskID batch) "image_update_applied" t).

Definition queueAutoApplyUpdateForImageCheck (record : TaskRecord) : M () :=
  params ← record_params record;
  if negb (located record params && on_node record) then mret ()
  else
    service ← service_of_task record params;
    if decide (svc_TargetNodes service = [] ∨ tp_ImageCheckBatchID params = "") then mret ()
    else match sm_Update (svc_Meta service) with
    | None => mret ()
    | Some update =>
        if decide (upd_Images update = ∅) then mret ()
        else
          batch ← store_read plain (ImageCheckBatch (svc_Name service) (tp_ImageCheckBatchID params)
                                      (svc_TargetNodes service));
          if ib_Failed batch then mret ()
          else if negb (ib_Complete batch) then fail errImageCheckBatchIncomplete
          else if decide (ib_RepoRevision batch ≠ rec_RepoRevision record) then mret ()
          else
            currentRevision ← CurrentRevision;
            if decide (currentRevision ≠ rec_RepoRevision record) then mret ()
            else auto_apply record params service update batch
    end.

Definition queuePostTaskFollowups (record : TaskRecord) : M () :=
  if decide (rec_Status record ≠ StatusSucceeded) then mret ()
  else if decide (rec_Type record = TypeDeploy) then
    _ ← queueDNSUpdateForTask record;
    _ ← queueCaddyReloadForTask record;
    queueCloudflareTunnelSyncForTask record
  else if decide (rec_Type record = TypeUpdate ∨ rec_Type record = TypeStop) then
    _ ← queueCaddyReloadForTask record;
    queueCloudflareTunnelSyncForTask record
  else if decide (rec_Type record = TypeImageCheck) then queueAutoApplyUpdateForImageCheck record
  else mret ().

(** ** The events *)
(** The first node whose update task exists. *)
Fixpoint applied_update (dedupeKey : string) (nodeIDs : list string) : M (TaskRecord * list string) :=
  match nodeIDs with
  | [] => fail (NewError CodeUnknown "find persisted image auto-apply task")
  | nodeID :: nodeIDs =>
      found ← attempt (store_read plain (GetTaskByDedupeKey (dedupeKey +:+ ":" +:+ nodeID)));
      match found with
      | Err _ => applied_update dedupeKey nodeIDs
      | Ok updateRecord =>
          updateParams ← record_params updateRecord;
          mret (updateRecord, tp_ImageNames updateParams)
      end
  end.
Definition persistedImageUpdateApplied (record : TaskRecord) : M (TaskRecord * list string) :=
  params ← record_params record;
  service ← service_of_task record params;
  applied_update (imageAutoApplyDedupeKey record params) (svc_TargetNodes service).

Definition routes : list route := notifier_routes (cc_Notifications cfg).
Definition mark (f : Time.time → DB → DB) : M () := t ← now; store_write plain (λ db, Ok (f t db)).
Definition followups_step (event : TaskOutboxEvent) (record : TaskRecord) : M () :=
  if ev_FollowupsCompleted event then mret ()
  else
    _ ← queuePostTaskFollowups record;
    mark (CompleteTaskOutboxFollowups (ev_EventID event)).
Definition notify_step (event : TaskOutboxEvent) (send : M ()) : M () :=
  if ev_NotificationDispatched event then mret ()
  else
    _ ← send;
    mark (CompleteTaskOutboxNotification (ev_EventID event)).
Definition announce_task (record : TaskRecord) : M () :=
  match taskEventTypeForStatus (rec_Status record) with
  | Some event => Send routes event (rec_Source record)
  | None => mret ()
  end.

Definition processTaskOutboxEvent (event : TaskOutboxEvent) : M () :=
  detail ← store_read plain (GetTask (ev_TaskID event));
  let record := td_Record detail in
  if decide (ev_EventType event = "task_completed") then
    _ ← followups_step event record;
    notify_step event (announce_task record)
  else if decide (ev_EventType event = "image_update_applied") then
    _ ← persistedImageUpdateApplied record;
    notify_step event (Send routes EventImageUpdateApplied (rec_Source record))
  else fail (NewError CodeUnknown "unsupported task outbox event type").

(** ** The loop *)
(** [time.Duration(1<<min(attempts, 9))*time.Second], at most ten minutes. *)
Definition retry_delay (attempts : Z) : Z :=
  minDuration (Z.shiftl 1 (Z.min attempts 9) * Time.Second)%Z (10 * Time.Minute)%Z.
(** [true]: an event was taken. *)
Definition outbox_turn : M bool :=
  t ← now;
  next ← attempt (store_read plain (NextTaskOutboxEvent t));
  match next with
  | Err _ => mret false
  | Ok event =>
      processed ← attempt (processTaskOutboxEvent event);
      match processed with
      | Err e =>
          let attempts := (ev_Attempts event + 1)%Z in
          t ← now;
          _ ← store_write plain (λ db, Ok (RetryTaskOutboxEvent (ev_EventID event) attempts (t + retry_delay attempts)%Z
                                             (error_text e) db));
          mret true
      | Ok _ =>
          _ ← mark (CompleteTaskOutboxEvent (ev_EventID event));
          mret true
      end
  end.
(** The loop runs turns until the context is cancelled; between two turns
    that find nothing it sleeps. *)
Fixpoint runTaskOutbox (turns : nat) : M () :=
  match turns with
  | 0 => mret ()
  | S turns => _ ← outbox_turn; runTaskOutbox turns
  end.
End outbox.
