(* ===== verification/Scheduler.v ===== *)
(** * The scheduler
    (src/internal/app/controller/scheduler.go,
    task_admission.go: rustic maintenance)

    Every fifteen seconds the scheduler looks at the minute it is in and
    creates the image checks, backups and maintenance tasks that are due,
    unless a task with the same parameters was created in that minute. *)
From S2P Require Export ServiceCommand.

Section effective.
Context (cfg : ControllerConfig).

(** The empty text is no schedule. *)
Definition default_schedule (configured : option string) : string :=
  match configured with
  | None => ""
  | Some spec =>
      let defaultSchedule := Normalize spec in
      if bool_decide (defaultSchedule = "") || IsDisabled defaultSchedule then "" else defaultSchedule
  end.
Definition effectiveImageCheckSchedule (serviceSchedule imageSchedule : string) : string :=
  let imageSchedule := Normalize imageSchedule in
  if IsDisabled imageSchedule then ""
  else if decide (imageSchedule ≠ "") then imageSchedule
  else
    let serviceSchedule := Normalize serviceSchedule in
    if IsDisabled serviceSchedule then ""
    else if decide (serviceSchedule ≠ "") then serviceSchedule
    else default_schedule (cu_DefaultCheckSchedule <$> cc_Updates cfg).
Definition effectiveBackupSchedule (itemSchedule : string) : string :=
  let itemSchedule := Normalize itemSchedule in
  if IsDisabled itemSchedule then ""
  else if decide (itemSchedule ≠ "") then itemSchedule
  else default_schedule (cc_Backup cfg).
End effective.

Definition schedule_error (e : ScheduleError) : ConnectError :=
  NewError CodeUnknown
    (match e with
     | ErrScheduleRequired => "schedule is required"
     | ErrDisabledCannotBeParsed => "disabled schedule cannot be parsed"
     | ErrParseSchedule _ _ => "parse schedule"
     end).

Section scheduler.
Context `{DnsState} `{GitState} `{!Environment} `{!GitCommand} `{ForgeLibraries}.
Context `{Disk} `{MetaDecoder} `{Cron} `{Libraries} `{SQLite} `{ParamsJSON}.
Context (cfg : ControllerConfig) (availableNodeIDs : gset string).

(** Is the schedule due in the window? [false] without one. *)
Definition due (spec : string) (windowStart : Time.time) : result ConnectError bool :=
  if decide (spec = "") then Ok false
  else match Parse spec with
       | Err e => Err (schedule_error e)
       | Ok parsed => Ok (DueNow (Some parsed) windowStart)
       end.

Definition already_created (source taskType serviceName nodeID paramsJSON : string) (windowStart : Time.time) : M bool :=
  store_read plain (λ db, Ok (HasMatchingTaskInWindow source taskType serviceName nodeID paramsJSON windowStart db)).
Definition relative_dir (service : Service) : M string :=
  lift (with_code CodeUnknown (Rel (cc_RepoDir cfg) (svc_Directory service))).

(** ** Image checks *)
Definition due_image (update : UpdateConfig) (windowStart : Time.time) (names : list string)
    (named : string * ImageUpdateConfig) : result ConnectError (list string) :=
  result_bind (due (effectiveImageCheckSchedule cfg (upd_CheckSchedule update) (img_CheckSchedule named.2)) windowStart)
    (λ is_due, Ok (if (is_due : bool) then names ++ [named.1] else names)).
Definition dueServiceImageUpdateNames (service : Service) (windowStart : Time.time) : M (list string) :=
  match sm_Update (svc_Meta service) with
  | None => mret []
  | Some update =>
      ranged ← range_map (upd_Images update);
      names ← lift (for_each (due_image update windowStart) [] ranged);
      mret (string_sort names)
  end.

Definition missing_node (service : Service) (paramsJSON : string) (windowStart : Time.time) (missing : list string)
    (nodeID : string) : M (list string) :=
  exists_ ← already_created SourceSchedule TypeImageCheck (svc_Name service) nodeID paramsJSON windowStart;
  mret (if (exists_ : bool) then missing else missing ++ [nodeID]).
(** [stamp]: the text of the window in the name of the batch. *)
Definition scheduleServiceImageChecks (stamp : Time.time → string) (service : Service) (windowStart : Time.time) : M () :=
  match sm_Update (svc_Meta service) with
  | None => mret ()
  | Some update =>
      if decide (upd_Enabled update = Some false) then mret ()
      else
        dueImageNames ← dueServiceImageUpdateNames service windowStart;
        if decide (dueImageNames = []) then mret ()
        else
          serviceDir ← relative_dir service;
          let semverAllow := effectiveControllerSemverAllow cfg in
          found ← collectForgeImageCandidates cfg service dueImageNames;
          let batchID := svc_Name service +:+ "@" +:+ stamp windowStart in
          let options := MkServiceTaskCreateOptions "" SourceSchedule (Some windowStart) "" dueImageNames batchID
                           semverAllow found.1 found.2 "" in
          let paramsJSON := marshal_params (params_of_options serviceDir [] batchID options) in
          missingNodeIDs ← M_each (missing_node service paramsJSON windowStart) [] (svc_TargetNodes service);
          if decide (missingNodeIDs = []) then mret ()
          else
            _ ← attempt (createServiceTasksWithOptions cfg availableNodeIDs None (svc_Name service) missingNodeIDs
                           TypeImageCheck [] options);
            mret ()
  end.

(** ** Backups *)
Definition due_item (windowStart : Time.time) (names : list string) (item : BackupItem) : result ConnectError (list string) :=
  if decide (bi_Name item = "" ∨ bi_Enabled item = Some false) then Ok names
  else result_bind (due (effectiveBackupSchedule cfg (bi_Schedule item)) windowStart) (λ is_due,
       Ok (if (is_due : bool) then names ++ [bi_Name item] else names)).
(** The names due are the same on every node; the nodes are a map's keys. *)
Definition due_by_node (service : Service) (names : list string) : gmap string (list string) :=
  if decide (names = []) then ∅
  else foldl (λ m nodeID, <[nodeID := default [] (m !! nodeID) ++ names]> m) ∅ (svc_TargetNodes service).
(** [slices.Compact]: repeated neighbours are dropped. *)
Fixpoint Compact (l : list string) : list string :=
  match l with
  | x :: (y :: _) as rest => if decide (x = y) then Compact rest else x :: Compact rest
  | _ => l
  end.
Definition backup_on_node (service : Service) (serviceDir : string) (windowStart : Time.time) (_ : ())
    (node : string * list string) : M () :=
  let dataNames := Compact (string_sort node.2) in
  let options := MkServiceTaskCreateOptions "" SourceSchedule (Some windowStart) "" [] "" [] ∅ ∅ "" in
  let paramsJSON := marshal_params (params_of_options serviceDir dataNames "" options) in
  exists_ ← already_created SourceSchedule TypeBackup (svc_Name service) node.1 paramsJSON windowStart;
  if (exists_ : bool) then mret ()
  else
    _ ← attempt (createServiceTaskWithOptions cfg availableNodeIDs None (svc_Name service) node.1 TypeBackup dataNames
                   options);
    mret ().
Definition scheduleServiceBackups (service : Service) (windowStart : Time.time) : M () :=
  match sm_Backup (svc_Meta service) with
  | None => mret ()
  | Some items =>
      serviceDir ← relative_dir service;
      names ← lift (for_each (due_item windowStart) [] items);
      ranged ← range_map (due_by_node service names);
      M_each (backup_on_node service serviceDir windowStart) () ranged
  end.

(** ** Maintenance of the rustic repository *)
Definition main_candidates (rusticService : Service) : list string :=
  match cc_Rustic cfg with
  | Some rustic =>
      if decide (cr_MainNodes rustic = []) then svc_TargetNodes rusticService
      else filter (λ nodeID, nodeID ∈ cr_MainNodes rustic) (svc_TargetNodes rusticService)
  | None => svc_TargetNodes rusticService
  end.
Fixpoint first_valid (taskType : string) (candidates : list string) : M string :=
  match candidates with
  | [] => fail (NewError CodeUnknown "no eligible online rustic main node is available")
  | nodeID :: candidates =>
      r ← attempt (validateTaskTargetNode cfg nodeID taskType);
      match r with Ok _ => mret nodeID | Err _ => first_valid taskType candidates end
  end.
Definition chooseScheduledRusticMainNode (rusticService : Service) (taskType : string) : M string :=
  first_valid taskType (string_sort (main_candidates rusticService)).

(** [chooseRusticMainNode]: one of the online nodes, at random. *)
Definition online_node (taskType : string) (online : list string) (nodeID : string) : M (list string) :=
  r ← attempt (validateTaskTargetNode cfg nodeID taskType);
  mret (match r with Ok _ => online ++ [nodeID] | Err _ => online end).
Definition find_rustic : M Service :=
  t ← tree; lift (with_code CodeUnknown (FindRusticInfraService (cc_RepoDir cfg) (rt_entries t) availableNodeIDs)).
Definition chooseRusticMainNode (taskType : string) : M string :=
  rusticService ← find_rustic;
  let candidates := main_candidates rusticService in
  if decide (candidates = []) then fail (NewError CodeUnknown "rustic infra service does not have any eligible main nodes")
  else
    online ← M_each (online_node taskType) [] candidates;
    n ← yield_;
    match online !! (env_choice n `mod` length online) with
    | Some nodeID => mret nodeID
    | None => fail (NewError CodeUnknown "no eligible online rustic main node is available")
    end.

Definition set_rustic_dir (dir : string) (p : rusticMaintenanceTaskParams) : rusticMaintenanceTaskParams :=
  MkRusticMaintenanceTaskParams dir (rp_ServiceName p) (rp_DataName p) (rp_RepoWide p).
Definition createNodeRusticMaintenanceTask (ctx : Context_) (nodeID taskType : string)
    (params : rusticMaintenanceTaskParams) (source : string) (createdAt : option Time.time) : M TaskRecord :=
  _ ← validateTaskTargetNode cfg nodeID taskType;
  rusticService ← recode CodeFailedPrecondition find_rustic;
  _ ← or_precondition (validateRusticServiceTargetNode rusticService nodeID);
  serviceDir ← service_dir cfg rusticService;
  repoRevision ← recode CodeFailedPrecondition CurrentRevision;
  taskID ← new_uuid;
  record ← create (StoreFailed CodeInternal) CreateTask
    (new_record cfg taskID taskType source (default "" (BearerSubject ctx)) (svc_Name rusticService) nodeID
       (marshal_rustic (set_rustic_dir serviceDir params)) repoRevision "" "" (derefTime createdAt));
  _ ← create_log_file;
  mret record.

Definition scheduleRusticMaintenanceTask (windowStart : Time.time) (taskType spec : string) : M () :=
  if bool_decide (spec = "") || IsDisabled spec then mret ()
  else
    is_due ← lift (due spec windowStart);
    if negb is_due then mret ()
    else
      rusticService ← find_rustic;
      serviceDir ← relative_dir rusticService;
      nodeID ← chooseScheduledRusticMainNode rusticService taskType;
      let params := MkRusticMaintenanceTaskParams serviceDir "" "" true in
      exists_ ← already_created SourceSchedule taskType (svc_Name rusticService) nodeID (marshal_rustic params) windowStart;
      if (exists_ : bool) then mret ()
      else _ ← createNodeRusticMaintenanceTask None nodeID taskType params SourceSchedule (Some windowStart); mret ().
Definition scheduleRusticMaintenance (windowStart : Time.time) : M () :=
  match cc_Rustic cfg ≫= cr_Maintenance with
  | None => mret ()
  | Some (forgetSchedule, pruneSchedule) =>
      _ ← scheduleRusticMaintenanceTask windowStart TypeRusticForget (Normalize forgetSchedule);
      scheduleRusticMaintenanceTask windowStart TypeRusticPrune (Normalize pruneSchedule)
  end.

(** ** A pass: a service that fails does not stop the others. *)
Definition schedule_service (stamp : Time.time → string) (windowStart : Time.time) (_ : ()) (service : Service) : M () :=
  _ ← attempt (scheduleServiceImageChecks stamp service windowStart);
  _ ← attempt (scheduleServiceBackups service windowStart);
  mret ().
Definition runScheduledTasksPass (stamp : Time.time → string) (now : Time.time) : M () :=
  t ← tree;
  services ← lift (with_code CodeUnknown (DiscoverServices (cc_RepoDir cfg) (rt_entries t) availableNodeIDs));
  let windowStart := WindowStart now in
  _ ← M_each (schedule_service stamp windowStart) () services;
  _ ← attempt (scheduleRusticMaintenance windowStart);
  mret ().
Definition runScheduledTasks (stamp : Time.time → string) (ticks : nat) : M () :=
  M_each (λ _ _, t ← now; _ ← attempt (runScheduledTasksPass stamp t); mret ()) () (seq 0 (S ticks)).
End scheduler.
