(* ===== verification/Dns.v ===== *)
(** * DNS records of a service, and the task worker of the controller:
    src/internal/app/controller/dns.go

    The desired records of a service and their synchronisation with the
    providers.  The libdns providers, the Cloudflare HTTP API and the parser
    of IP addresses are the classes below, with what the code relies on as
    their laws; the records themselves are the state [dns_state] of the
    world, which only the task worker changes. *)
From S2P Require Export Controller RepoWrite Notifications.

(** ** Libraries *)
(** [netip.ParseAddr], [Addr.Is4] and [libdns.RelativeName]. *)
Class DnsNames := {
  Addr : Type;
  ParseAddr : string → option Addr;
  Is4 : Addr → bool;
  RelativeName : string → string → string;
}.

Section records.
Context `{DnsNames}.

Inductive DnsRecord :=
| Address (name : string) (ttl : Z) (ip : Addr)
| CNAME (name : string) (ttl : Z) (target : string).
Definition record_name (r : DnsRecord) : string :=
  match r with Address n _ _ | CNAME n _ _ => n end.
Definition record_type (r : DnsRecord) : string :=
  match r with Address _ _ ip => if Is4 ip then "A" else "AAAA" | CNAME _ _ _ => "CNAME" end.

Record dnsRecordOptions := MkDnsRecordOptions { opt_Proxied : option bool; opt_Comment : string }.

(** The records of a provider, by zone, name and type.  [SetRecords] makes
    the records of each name and type of its argument exactly those given;
    [DeleteRecords] of a record without value removes those of its name and
    type; neither touches others.  When one of them fails nothing is known. *)
Class DnsService `{DnsState} := {
  zone_records : dns_state → string → string → string → string → list DnsRecord;
  provider_SetRecords : string → string → list DnsRecord → dns_state → dns_state * bool;
  provider_DeleteRecords : string → string → string → string → dns_state → dns_state * bool;
  cloudflare_patch : string → string → string → dnsRecordOptions → dns_state → dns_state * bool;
  SetRecords_law : ∀ p z rs s s', provider_SetRecords p z rs s = (s', true) → ∀ p' z' n t,
    zone_records s' p' z' n t =
      let given := filter (λ r, record_name r = n ∧ record_type r = t) rs in
      if decide (p' = p ∧ z' = z ∧ given ≠ []) then given else zone_records s p' z' n t;
  DeleteRecords_law : ∀ p z n0 t0 s s', provider_DeleteRecords p z n0 t0 s = (s', true) → ∀ p' z' n t,
    zone_records s' p' z' n t =
      if decide (p' = p ∧ z' = z ∧ n = n0 ∧ t = t0) then [] else zone_records s p' z' n t;
  patch_law : ∀ z f t o s s' b, cloudflare_patch z f t o s = (s', b) → ∀ p' z' n t',
    zone_records s' p' z' n t' = zone_records s p' z' n t';
}.
End records.

(** ** Desired records *)
Section desired.
Context `{DnsNames}.

Definition ensureTrailingDot (value : string) : string :=
  let trimmed := TrimSpace value in
  if decide (trimmed = "") then trimmed
  else if HasSuffix trimmed "." then trimmed else trimmed +:+ ".".

Definition unsupported {A} : result string A := Err "unsupported dns record_type".

Definition desiredDNSRecordSetsForValue (relativeName : string) (ttl : Z) (recordType value : string)
    : result string (gmap string (list DnsRecord)) :=
  match ParseAddr value with
  | Some addr =>
      if decide (recordType ∈ [""; "A"; "AAAA"]) then
        if Is4 addr then
          if decide (recordType = "AAAA") then Err "record_type AAAA requires an IPv6 value"
          else Ok {["A" := [Address relativeName ttl addr]]}
        else if decide (recordType = "A") then Err "record_type A requires an IPv4 value"
        else Ok {["AAAA" := [Address relativeName ttl addr]]}
      else if decide (recordType = "CNAME") then Err "record_type CNAME requires a hostname value"
      else unsupported
  | None =>
      if decide (recordType ∈ [""; "CNAME"])
      then Ok {["CNAME" := [CNAME relativeName ttl (ensureTrailingDot value)]]}
      else if decide (recordType ∈ ["A"; "AAAA"]) then Err "record_type requires an IP value"
      else unsupported
  end.

(** An address of the node, [None] when the text is empty. *)
Definition node_address (relativeName : string) (ttl : Z) (text recordType error : string)
    : result string (option (gmap string (list DnsRecord))) :=
  if decide (text = "") then Ok None
  else match ParseAddr text with
       | Some addr => Ok (Some {[recordType := [Address relativeName ttl addr]]})
       | None => Err error
       end.

Definition desiredDNSRecordSetsForNode (relativeName : string) (ttl : Z) (recordType : string)
    (node : NodeConfig) : result string (gmap string (list DnsRecord)) :=
  let ipv4 := node_address relativeName ttl (nc_PublicIPv4 node) "A" "public_ipv4 is invalid" in
  let ipv6 := node_address relativeName ttl (nc_PublicIPv6 node) "AAAA" "public_ipv6 is invalid" in
  if decide (recordType = "") then
    result_bind ipv4 (λ v4, result_bind ipv6 (λ v6,
    match v4, v6 with
    | None, None => Err "service node does not have a public IPv4 or IPv6 address"
    | _, _ => Ok (default ∅ v4 ∪ default ∅ v6)
    end))
  else if decide (recordType = "A") then
    result_bind ipv4 (λ v4, match v4 with Some s => Ok s
                            | None => Err "service node does not have public_ipv4" end)
  else if decide (recordType = "AAAA") then
    result_bind ipv6 (λ v6, match v6 with Some s => Ok s
                            | None => Err "service node does not have public_ipv6" end)
  else if decide (recordType = "CNAME") then Err "record_type CNAME requires an explicit value"
  else unsupported.

Definition configuredNode (cfg : ControllerConfig) (nodeID : string) : result string NodeConfig :=
  match head (filter (λ node, nc_ID node = nodeID) (configured_nodes cfg)) with
  | Some node => Ok node
  | None => Err "node is not configured"
  end.

Definition desiredDNSRecordSets (service : Service) (dnsConfig : DNSEntry) (cfg : ControllerConfig)
    (relativeName : string) : result string (gmap string (list DnsRecord)) :=
  let value := TrimSpace (dns_Value dnsConfig) in
  let ttl := (default 0 (dns_TTL dnsConfig) * Time.Second)%Z in
  let recordType := ToUpper (TrimSpace (dns_RecordType dnsConfig)) in
  if decide (value ≠ "") then desiredDNSRecordSetsForValue relativeName ttl recordType value
  else match svc_TargetNodes service with
  | [nodeID] => result_bind (configuredNode cfg nodeID)
                  (desiredDNSRecordSetsForNode relativeName ttl recordType)
  | _ => Err "service must target exactly one node when network.dns.value is empty"
  end.

Record desiredServiceDNS := MkDesiredServiceDNS {
  des_Zone : string;
  des_FQDN : string;
  des_RecordSets : gmap string (list DnsRecord);
  des_Options : dnsRecordOptions;
}.

(** ** Clients: the provider and its configured zones *)
Record dnsClient := MkDnsClient { cl_provider : string; cl_zones : list string }.

Definition normalizedDNSZones (zones : list string) : list string :=
  filter (λ z, z ≠ "") (ensureTrailingDot <$> zones).

Definition key_client (provider : string) (checked : bool) (cfg : option KeyDNSConfig)
    : result string dnsClient :=
  match cfg with
  | None => Err "controller dns provider is not configured"
  | Some cfg =>
      if checked && bool_decide (TrimSpace (kd_ID cfg) = "" ∨ TrimSpace (kd_Secret cfg) = "")
      then Err "id and secret are required"
      else Ok (MkDnsClient provider (normalizedDNSZones (kd_Zones cfg)))
  end.
Definition newCloudflareDNSClient (cfg : option CloudflareDNSConfig) : result string dnsClient :=
  match cfg with
  | None => Err "controller dns.cloudflare is not configured"
  | Some cfg =>
      if decide (TrimSpace (cfd_APIToken cfg) = "") then Err "cloudflare api token is empty"
      else Ok (MkDnsClient "cloudflare" (normalizedDNSZones (cfd_Zones cfg)))
  end.
Definition ForService (cfg : ControllerConfig) (providerName : string) : result string dnsClient :=
  let providerName := ToLower (TrimSpace providerName) in
  match cc_DNS cfg with
  | None => Err "controller dns is not configured"
  | Some dns =>
      if decide (providerName = "cloudflare") then newCloudflareDNSClient (cd_Cloudflare dns)
      else if decide (providerName = "alidns") then key_client "alidns" true (cd_AliDNS dns)
      else if decide (providerName = "dnspod") then key_client "dnspod" true (cd_DNSPod dns)
      else if decide (providerName = "route53") then key_client "route53" false (cd_Route53 dns)
      else if decide (providerName = "huaweicloud") then key_client "huaweicloud" true (cd_HuaweiCloud dns)
      else Err "dns provider is not implemented"
  end.

(** [sort.Slice] by decreasing length. *)
Definition longer (a b : string) : Prop := String.length b ≤ String.length a.
#[export] Instance longer_dec : RelDecision longer := λ a b, decide (String.length b ≤ String.length a).

Definition in_zone (fqdn zone : string) : bool :=
  let name := TrimSuffix (ToLower zone) "." in
  let host := TrimSuffix (ToLower fqdn) "." in
  bool_decide (host = name) || HasSuffix host ("." +:+ name).
Definition matchingZone (client : dnsClient) (fqdn : string) : result string string :=
  if decide (cl_zones client = []) then Err "zones are required"
  else match filter (λ z, in_zone fqdn z = true) (merge_sort longer (cl_zones client)) with
       | zone :: _ => Ok (ensureTrailingDot zone)
       | [] => Err "no DNS zone matched hostname"
       end.

Definition buildDesiredServiceDNS (service : Service) (dnsConfig : DNSEntry) (cfg : ControllerConfig)
    (client : dnsClient) : result string desiredServiceDNS :=
  let hostname := TrimSpace (dns_Hostname dnsConfig) in
  if decide (hostname = "") then Err "network.dns.hostname is required"
  else
    let fqdn := ensureTrailingDot hostname in
    result_bind (matchingZone client fqdn) (λ zone,
    let relativeName := RelativeName fqdn zone in
    if decide (relativeName = fqdn ∨ relativeName = "") then Err "hostname does not belong to a known zone"
    else
      result_bind (desiredDNSRecordSets service dnsConfig cfg relativeName) (λ recordSets,
      Ok (MkDesiredServiceDNS zone fqdn recordSets
            (MkDnsRecordOptions (dns_Proxied dnsConfig) (TrimSpace (dns_Comment dnsConfig)))))).

(** ** Aggregation by zone and name *)
Record aggregateDNS := MkAggregateDNS {
  agg_zone : string;
  agg_fqdn : string;
  agg_recordSets : gmap string (list DnsRecord);
  agg_options : gmap string dnsRecordOptions;
}.

Definition add_records (options : dnsRecordOptions) (aggregate : aggregateDNS)
    (entry : string * list DnsRecord) : aggregateDNS :=
  let '(recordType, records) := entry in
  MkAggregateDNS (agg_zone aggregate) (agg_fqdn aggregate)
    (<[recordType := default [] (agg_recordSets aggregate !! recordType) ++ records]> (agg_recordSets aggregate))
    (<[recordType := options]> (agg_options aggregate)).
Definition aggregate_key (desired : desiredServiceDNS) : string :=
  des_Zone desired +:+ String (byte 0) (des_FQDN desired).
Definition add_desired (aggregates : gmap string aggregateDNS) (desired : desiredServiceDNS)
    : gmap string aggregateDNS :=
  let key := aggregate_key desired in
  let aggregate := default (MkAggregateDNS (des_Zone desired) (des_FQDN desired) ∅ ∅) (aggregates !! key) in
  <[key := foldl (add_records (des_Options desired)) aggregate (map_to_list (des_RecordSets desired))]> aggregates.
Definition aggregates_of (desiredEntries : list desiredServiceDNS) : gmap string aggregateDNS :=
  foldl add_desired ∅ desiredEntries.
End desired.

(** ** Synchronisation *)
Section sync.
Context `{DnsState} `{GitState} `{!DnsNames} `{!DnsService} `{!Environment} (cfg : ControllerConfig).

(** A call of a provider. *)
Definition call_dns (call : dns_state → dns_state * bool) : M () := λ w,
  let '(dns, ok) := call (w_dns w) in
  (set_dns dns w,
   if ok then Ok () else Err (NewError CodeUnknown "dns provider")).

Lemma traceless_dns call : traceless (call_dns call).
Proof. intros w. unfold call_dns. by destruct (call (w_dns w)). Qed.

(** The default client refuses options, the Cloudflare client patches the
    records when there are any. *)
Definition ApplyRecordOptions (client : dnsClient) (zone fqdn recordType : string)
    (options : dnsRecordOptions) : M () :=
  if decide (opt_Proxied options = None ∧ opt_Comment options = "") then mret ()
  else if decide (cl_provider client = "cloudflare")
  then _ ← yield_; call_dns (cloudflare_patch zone fqdn recordType options)
  else fail (NewError CodeUnknown "dns provider does not support proxied or comment options").

Definition managedDNSRecordTypes : list string := ["A"; "AAAA"; "CNAME"].

Definition delete_stale (client : dnsClient) (aggregate : aggregateDNS) (_ : ()) (recordType : string) : M () :=
  _ ← appendTaskLogRaw_;
  _ ← yield_;
  call_dns (provider_DeleteRecords (cl_provider client) (agg_zone aggregate)
              (RelativeName (agg_fqdn aggregate) (agg_zone aggregate)) recordType).
Definition write_records (client : dnsClient) (aggregate : aggregateDNS) (_ : ())
    (entry : string * list DnsRecord) : M () :=
  let '(recordType, records) := entry in
  _ ← appendTaskLogRaw_;
  _ ← yield_;
  _ ← call_dns (provider_SetRecords (cl_provider client) (agg_zone aggregate) records);
  ApplyRecordOptions client (agg_zone aggregate) (agg_fqdn aggregate) recordType
    (default (MkDnsRecordOptions None "") (agg_options aggregate !! recordType)).

Definition stale_types (aggregate : aggregateDNS) : list string :=
  string_sort (filter (λ t, agg_recordSets aggregate !! t = None) managedDNSRecordTypes).
(** The record sets by increasing type. *)
Definition entry_le {A} (a b : string * A) : Prop := String.le a.1 b.1.
#[export] Instance entry_le_dec {A} : RelDecision (@entry_le A) := λ a b, decide (String.le a.1 b.1).
Definition sorted_entries {A} (m : gmap string A) : list (string * A) := merge_sort entry_le (map_to_list m).

Definition sync_aggregate (client : dnsClient) (_ : ()) (entry : string * aggregateDNS) : M () :=
  let '(_, aggregate) := entry in
  _ ← M_each (delete_stale client aggregate) () (stale_types aggregate);
  M_each (write_records client aggregate) () (sorted_entries (agg_recordSets aggregate)).

Definition syncServiceDNSBatch (client : dnsClient) (desiredEntries : list desiredServiceDNS) : M () :=
  M_each (sync_aggregate client) () (sorted_entries (aggregates_of desiredEntries)).

Definition provider_of (dnsConfig : DNSEntry) : result string string :=
  let provider := ToLower (TrimSpace (dns_Provider dnsConfig)) in
  if decide (provider = "") then ResolveDNSProvider cfg (dns_Hostname dnsConfig) else Ok provider.

Definition collect_desired (service : Service)
    (desiredByProvider : gmap string (dnsClient * list desiredServiceDNS)) (dnsConfig : DNSEntry)
    : M (gmap string (dnsClient * list desiredServiceDNS)) :=
  provider ← lift (with_code CodeUnknown (provider_of dnsConfig));
  client ← (match desiredByProvider !! provider with
            | Some (client, _) => mret client
            | None => lift (with_code CodeUnknown (ForService cfg provider))
            end);
  desired ← lift (with_code CodeUnknown (buildDesiredServiceDNS service dnsConfig cfg client));
  _ ← appendTaskLogRaw_;
  mret (<[provider := (client, default [] (snd <$> desiredByProvider !! provider) ++ [desired])]>
          desiredByProvider).

Definition sync_provider (_ : ()) (entry : string * (dnsClient * list desiredServiceDNS)) : M () :=
  let '(_, (client, desired)) := entry in syncServiceDNSBatch client desired.

Definition syncServiceDNSForService (service : Service) : M () :=
  match sm_Network (svc_Meta service) ≫= net_DNS with
  | None => fail (NewError CodeUnknown "service does not declare network.dns")
  | Some dns =>
      let entries := Entries (Some dns) in
      if decide (entries = []) then fail (NewError CodeUnknown "service does not declare network.dns entries")
      else
        desiredByProvider ← M_each (collect_desired service) ∅ entries;
        _ ← M_each sync_provider () (sorted_entries desiredByProvider);
        emit (EvDNS (svc_TargetNodes service))
  end.
End sync.
#[export] Hint Resolve traceless_dns : world.

(** ** The task worker of the controller (dns.go, migrate.go: shared steps)

    A controller task runs through steps recorded in the store.  When one
    fails, the step and the task are marked failed and the error is returned;
    the log lines and the notifications are events of the trace. *)
Section worker.
Context `{DnsState} `{GitState} `{!Environment}.

Definition upsert_step (record : TaskRecord) (stepName status : string)
    (startedAt finishedAt : option Time.time) : M () :=
  store_write plain (UpsertTaskStep (MkStepRecord (rec_TaskID record) stepName status startedAt finishedAt)).
Definition complete_task (record : TaskRecord) (status : string) (finishedAt : Time.time) (summary : string) : M () :=
  _ ← store_write plain (CompleteTask (rec_TaskID record) status finishedAt summary);
  emit (EvFinished status).

Definition failControllerTask (record : TaskRecord) (stepName : string) (taskErr : ConnectError) : M () :=
  finishedAt ← now;
  _ ← attempt (upsert_step record stepName StatusFailed None (Some finishedAt));
  _ ← attempt appendTaskLogRaw_;
  _ ← complete_task record StatusFailed finishedAt (error_text taskErr);
  _ ← emit (EvNotified EventTaskFailed);
  fail taskErr.
(** [if err != nil { return failControllerTask(ctx, record, stepName, err) }] *)
Definition or_fail {A} (record : TaskRecord) (stepName : string) (m : M A) (k : A → M ()) : M () :=
  r ← attempt m;
  match r with
  | Ok a => k a
  | Err e => failControllerTask record stepName e
  end.

Definition runMigrateStep {A} (record : TaskRecord) (stepName : string) (run : M A) : M A :=
  startedAt ← now;
  _ ← upsert_step record stepName StatusRunning (Some startedAt) None;
  a ← run;
  finishedAt ← now;
  _ ← upsert_step record stepName StatusSucceeded (Some startedAt) (Some finishedAt);
  mret a.

(** A step that is left out when the task has done it, or has no use for it. *)
Definition step_or_skip {A} (record : TaskRecord) (skip : bool) (stepName : string) (otherwise : A) (run : M A)
    (k : A → M ()) : M () :=
  if skip then k otherwise else or_fail record stepName (runMigrateStep record stepName run) k.

(** The end of a task that went through. *)
Definition finish (record : TaskRecord) (stepName : string) (finishedAt : Time.time) : M () :=
  or_fail record stepName appendTaskLogRaw_ (λ _,
  _ ← complete_task record StatusSucceeded finishedAt "";
  emit (EvNotified EventTaskCompleted)).
Definition finalize_task (record : TaskRecord) : M () :=
  startedAt ← now;
  or_fail record StepFinalize (upsert_step record StepFinalize StatusSucceeded (Some startedAt) (Some startedAt)) (λ _,
  finish record StepFinalize startedAt).
End worker.

Section dns_task.
Context `{DnsState} `{GitState} `{!Environment} `{!GitCommand} `{!DnsNames} `{!DnsService}.
Context `{MetaDecoder} `{Cron} `{Libraries} `{ParamsJSON}.
Context (cfg : ControllerConfig) (availableNodeIDs : gset string).

Definition executeDNSUpdateTask (record : TaskRecord) : M () :=
  or_fail record StepDNSUpdate appendTaskLogRaw_ (λ _,
  startedAt ← now;
  or_fail record StepDNSUpdate (upsert_step record StepDNSUpdate StatusRunning (Some startedAt) None) (λ _,
  or_fail record StepDNSUpdate (lift (with_code CodeUnknown (taskParams (rec_ParamsJSON record)))) (λ params,
  or_fail record StepDNSUpdate (find_service_at cfg availableNodeIDs (rec_RepoRevision record) (tp_ServiceDir params)) (λ service,
  or_fail record StepDNSUpdate (syncServiceDNSForService cfg service) (λ _,
  finishedAt ← now;
  or_fail record StepDNSUpdate
    (upsert_step record StepDNSUpdate StatusSucceeded (Some startedAt) (Some finishedAt)) (λ _,
  finish record StepDNSUpdate finishedAt)))))).
End dns_task.
