(* ===== verification/DnsTheorems.v ===== *)
(** * The records after a synchronisation *)
From S2P Require Export Dns.

(** ** What the entries ask for *)
Section aggregation.
Context `{DnsNames}.

Definition name_of (d : desiredServiceDNS) : string := RelativeName (des_FQDN d) (des_Zone d).

(** The records of a type that the entries with a key ask for, in order. *)
Definition wanted_records (desired : list desiredServiceDNS) (key recordType : string) : list DnsRecord :=
  mjoin ((λ d, default [] (des_RecordSets d !! recordType)) <$>
           filter (λ d, aggregate_key d = key) desired).

Lemma add_records_spec options entries aggregate :
  NoDup (fst <$> entries) →
  let a := foldl (add_records options) aggregate entries in
  agg_zone a = agg_zone aggregate ∧ agg_fqdn a = agg_fqdn aggregate ∧
  ∀ t, agg_recordSets a !! t =
    match (list_to_map entries : gmap string (list DnsRecord)) !! t with
    | Some records => Some (default [] (agg_recordSets aggregate !! t) ++ records)
    | None => agg_recordSets aggregate !! t
    end.
Proof.
  revert aggregate. induction entries as [|[t0 rs] entries IH]; intros aggregate Hnd; cbn [foldl].
  { split_and!; [done|done|]. intros t. cbn. by rewrite lookup_empty. }
  apply NoDup_cons in Hnd as [Ht0 Hnd]. destruct (IH (add_records options aggregate (t0, rs)) Hnd) as (Hz & Hf & Hr).
  split_and!; [done|done|]. intros t. rewrite Hr. rewrite list_to_map_cons. cbn [add_records agg_recordSets].
  destruct (decide (t = t0)) as [->|Hne].
  - rewrite !lookup_insert_eq. by rewrite not_elem_of_list_to_map_1.
  - by rewrite !lookup_insert_ne by congruence.
Qed.

Lemma add_desired_spec aggregates d :
  let key := aggregate_key d in
  ∃ a, add_desired aggregates d = <[key := a]> aggregates ∧
    agg_zone a = default (des_Zone d) (agg_zone <$> aggregates !! key) ∧
    agg_fqdn a = default (des_FQDN d) (agg_fqdn <$> aggregates !! key) ∧
    (∀ t, is_Some (agg_recordSets a !! t) →
       is_Some (des_RecordSets d !! t) ∨ is_Some (aggregates !! key ≫= λ a, agg_recordSets a !! t)) ∧
    ∀ t, default [] (agg_recordSets a !! t) =
      default [] (aggregates !! key ≫= λ a, agg_recordSets a !! t) ++ default [] (des_RecordSets d !! t).
Proof.
  cbn zeta. unfold add_desired.
  set (a0 := default (MkAggregateDNS (des_Zone d) (des_FQDN d) ∅ ∅) (aggregates !! aggregate_key d)).
  eexists. split; [reflexivity|].
  destruct (add_records_spec (des_Options d) (map_to_list (des_RecordSets d)) a0) as (Hz & Hf & Hr);
    [apply NoDup_fst_map_to_list|].
  rewrite Hz, Hf. split_and!.
  - subst a0. by destruct (aggregates !! aggregate_key d).
  - subst a0. by destruct (aggregates !! aggregate_key d).
  - intros t. rewrite Hr, list_to_map_to_list. destruct (des_RecordSets d !! t); [by left|]. right.
    subst a0. by destruct (aggregates !! aggregate_key d).
  - intros t. rewrite Hr, list_to_map_to_list.
    assert (Ha : default [] (agg_recordSets a0 !! t) =
      default [] (aggregates !! aggregate_key d ≫= λ a, agg_recordSets a !! t)).
    { subst a0. by destruct (aggregates !! aggregate_key d). }
    rewrite <-Ha. destruct (des_RecordSets d !! t); cbn; [done|]. by rewrite List.app_nil_r.
Qed.

Lemma wanted_snoc desired d key t :
  wanted_records (desired ++ [d]) key t =
  wanted_records desired key t ++
  (if decide (aggregate_key d = key) then default [] (des_RecordSets d !! t) else []).
Proof.
  unfold wanted_records. rewrite filter_app, fmap_app, join_app. f_equal.
  rewrite filter_cons, filter_nil. case_decide; cbn; by rewrite ?List.app_nil_r.
Qed.

Lemma wanted_none desired key t :
  (∀ d, d ∈ desired → aggregate_key d ≠ key) → wanted_records desired key t = [].
Proof.
  intros Hno. unfold wanted_records.
  destruct (filter (λ d, aggregate_key d = key) desired) as [|d1 l] eqn:Hf1; [done|].
  assert (Hin : d1 ∈ filter (λ d, aggregate_key d = key) desired) by (rewrite Hf1; by left).
  apply list_elem_of_filter in Hin as [Hk Hin]. by destruct (Hno d1 Hin).
Qed.

(** The aggregate of a key holds what its entries ask for. *)
Lemma aggregates_of_spec desired :
  (∀ key a, aggregates_of desired !! key = Some a →
     (∃ d, d ∈ desired ∧ aggregate_key d = key ∧ agg_zone a = des_Zone d ∧ agg_fqdn a = des_FQDN d) ∧
     (∀ t, is_Some (agg_recordSets a !! t) →
        ∃ d, d ∈ desired ∧ aggregate_key d = key ∧ is_Some (des_RecordSets d !! t)) ∧
     ∀ t, default [] (agg_recordSets a !! t) = wanted_records desired key t) ∧
  ∀ d, d ∈ desired → is_Some (aggregates_of desired !! aggregate_key d).
Proof.
  unfold aggregates_of. induction desired as [|d desired [IH1 IH2]] using rev_ind.
  { split; [by intros key a Ha; cbn in Ha; rewrite lookup_empty in Ha|by intros d ?%elem_of_nil]. }
  rewrite foldl_app. cbn [foldl]. set (m := foldl add_desired ∅ desired) in *.
  destruct (add_desired_spec m d) as (a & -> & Hz & Hf & Hp & Hr). split.
  - intros key a' Ha'. setoid_rewrite wanted_snoc.
    destruct (decide (aggregate_key d = key)) as [<-|Hne].
    + rewrite lookup_insert_eq in Ha'. injection Ha' as <-.
      destruct (m !! aggregate_key d) as [a0|] eqn:Ha0; cbn in Hz, Hf, Hp, Hr.
      * destruct (IH1 _ _ Ha0) as [(d0 & Hin & Hk & Hz0 & Hf0) [Hp0 Hr0]]. split_and!.
        -- exists d0. split_and!; [set_solver|done|congruence|congruence].
        -- intros t [Hs|(d1 & ? & ? & ?)%Hp0]%Hp; [exists d|exists d1]; split_and!; set_solver.
        -- intros t. by rewrite Hr, Hr0.
      * split_and!; [exists d; split_and!; [set_solver|done|done|done]| |].
        -- intros t [Hs|[? ?]]%Hp; [exists d; split_and!; set_solver|done].
        -- intros t. rewrite Hr, wanted_none; [done|]. intros d' Hd' Hk.
           destruct (IH2 d' Hd') as [? Hs]. congruence.
    + rewrite lookup_insert_ne in Ha' by done. destruct (IH1 _ _ Ha') as [(d0 & Hin & Hd0) [Hp0 Hr0]].
      split_and!; [exists d0; split; [set_solver|done]| |intros t; by rewrite Hr0, List.app_nil_r].
      intros t (d1 & ? & ? & ?)%Hp0. exists d1. split_and!; set_solver.
  - intros d' Hin. apply elem_of_app in Hin as [Hd'|Hd']; [|apply list_elem_of_singleton in Hd' as ->].
    + destruct (decide (aggregate_key d = aggregate_key d')) as [<-|Hne]; [by rewrite lookup_insert_eq|].
      rewrite lookup_insert_ne by done. by apply IH2.
    + by rewrite lookup_insert_eq.
Qed.
End aggregation.

(** ** The effect of a program on the records *)
Section effect.
Context `{DnsState} `{GitState} `{!DnsNames} `{!DnsService} `{!Environment}.

(** Whenever the program succeeds, the records before and after are related. *)
Definition changes {A} (m : M A) (R : dns_state → dns_state → Prop) : Prop :=
  ∀ w w' a, m w = (w', Ok a) → R (w_dns w) (w_dns w').

Lemma changes_bind {A B} (m : M A) (k : A → M B) (R S T : dns_state → dns_state → Prop) :
  changes m R → (∀ a, changes (k a) S) → (∀ s1 s2 s3, R s1 s2 → S s2 s3 → T s1 s3) →
  changes (m ≫= k) T.
Proof.
  intros Hm Hk Ht w w' b Hrun. unfold mbind, M_bind in Hrun. destruct (m w) as [w1 [a|e]] eqn:Hm1; [|done].
  eapply Ht; [by apply (Hm w w1 a)|by apply (Hk a w1 w' b)].
Qed.
Lemma changes_weaken {A} (m : M A) (R S : dns_state → dns_state → Prop) :
  changes m R → (∀ s1 s2, R s1 s2 → S s1 s2) → changes m S.
Proof. intros Hm HS w w' a Hrun. by apply HS, (Hm w w' a). Qed.
Lemma changes_ret {A} (a : A) : changes (mret a) eq.
Proof. by intros w w' b [= <- _]. Qed.
Lemma changes_yield : changes yield_ eq.
Proof. by intros w w' b [= <- _]. Qed.
Lemma changes_fail {A} e R : changes (fail e : M A) R.
Proof. by intros w w' b [=]. Qed.
Lemma changes_file_io error : changes (file_io error) eq.
Proof.
  eapply changes_bind; [apply changes_yield| |by intros ??? -> ->].
  intros n. destruct (env_io n); [apply changes_ret|apply changes_fail].
Qed.
(** After a program that leaves the records alone. *)
Lemma changes_after {A B} (m : M A) (k : A → M B) R :
  changes m eq → (∀ a, changes (k a) R) → changes (m ≫= k) R.
Proof. intros. eapply changes_bind; [done..|]. by intros ??? ->. Qed.

Lemma changes_call call R :
  (∀ s s', call s = (s', true) → R s s') → changes (call_dns call) R.
Proof.
  intros HR w w' a Hrun. unfold call_dns in Hrun. destruct (call (w_dns w)) as [s' []] eqn:Hc; [|done].
  injection Hrun as <- _. by apply HR.
Qed.

(** *** Records *)
Definition same_records (s s' : dns_state) : Prop :=
  ∀ p z n t, zone_records s' p z n t = zone_records s p z n t.

Lemma ApplyRecordOptions_records client zone fqdn recordType options :
  changes (ApplyRecordOptions client zone fqdn recordType options) same_records.
Proof.
  unfold ApplyRecordOptions. case_decide; [|case_decide; [|apply changes_fail]].
  - eapply changes_weaken; [apply changes_ret|]. by intros ?? ->.
  - apply changes_after; [apply changes_yield|]. intros _. apply changes_call. intros s s' Hc p z n t.
    by eapply patch_law.
Qed.

Section aggregate.
Context (client : dnsClient) (a : aggregateDNS).
Let provider := cl_provider client.
Let zone := agg_zone a.
Let name := RelativeName (agg_fqdn a) (agg_zone a).

(** The records of the types [f] gives a value for become that value. *)
Definition updates (f : string → option (list DnsRecord)) (s s' : dns_state) : Prop :=
  ∀ p z n t, zone_records s' p z n t =
    match (if decide (p = provider ∧ z = zone ∧ n = name) then f t else None) with
    | Some records => records
    | None => zone_records s p z n t
    end.

Lemma delete_stale_records recordType :
  changes (delete_stale client a () recordType) (updates (λ t, if decide (t = recordType) then Some [] else None)).
Proof.
  apply changes_after; [apply changes_file_io|]. intros _.
  apply changes_after; [apply changes_yield|]. intros _. apply changes_call.
  intros s s' Hc p z n t. rewrite (DeleteRecords_law _ _ _ _ _ _ Hc).
  repeat case_decide; try done; tauto.
Qed.

Lemma write_records_records recordType records :
  records ≠ [] → Forall (λ r, record_name r = name ∧ record_type r = recordType) records →
  changes (write_records client a () (recordType, records))
    (updates (λ t, if decide (t = recordType) then Some records else None)).
Proof.
  intros Hne Hall. apply changes_after; [apply changes_file_io|]. intros _.
  apply changes_after; [apply changes_yield|]. intros _.
  eapply changes_bind with (R := updates (λ t, if decide (t = recordType) then Some records else None));
    [apply changes_call|intros _; apply ApplyRecordOptions_records|].
  - intros s s' Hc p z n t. rewrite (SetRecords_law _ _ _ _ _ Hc). cbn zeta.
    destruct (decide (n = name ∧ t = recordType)) as [[-> ->]|Hno].
    + rewrite filter_all by done. repeat case_decide; try done; tauto.
    + assert (Hnil : filter (λ r, record_name r = n ∧ record_type r = t) records = []).
      { destruct (filter _ records) as [|r l] eqn:Hf; [done|].
        assert (Hr : r ∈ filter (λ r, record_name r = n ∧ record_type r = t) records) by (rewrite Hf; by left).
        apply list_elem_of_filter in Hr as [[<- <-] Hin]. rewrite Forall_forall in Hall. by destruct Hno, (Hall r Hin). }
      rewrite Hnil. rewrite decide_False by (by intros (_ & _ & [])).
      case_decide; [|done]. case_decide; [tauto|done].
  - intros s1 s2 s3 H12 H23 p z n t. by rewrite H23, H12.
Qed.

Lemma each_updates {A} (l : list A) (m : () → A → M ()) (type : A → string)
    (f : A → list DnsRecord) :
  NoDup (type <$> l) →
  (∀ x, x ∈ l → changes (m () x) (updates (λ t, if decide (t = type x) then Some (f x) else None))) →
  changes (M_each m () l) (updates (λ t, f <$> head (filter (λ x, type x = t) l))).
Proof.
  induction l as [|x l IH]; intros Hnd Hm.
  - eapply changes_weaken; [apply changes_ret|]. intros s s' -> p z n t. by case_decide.
  - rewrite fmap_cons, NoDup_cons in Hnd. destruct Hnd as [Hx Hnd].
    eapply changes_bind; [apply Hm; by left|intros []; apply IH; [done|intros y Hy; apply Hm; by right]|].
    intros s1 s2 s3 H12 H23 p z n t. rewrite H23, H12. case_decide; [|done].
    rewrite filter_cons. case_decide as Ht; case_decide as Ht'; [|congruence|congruence|done].
    cbn. destruct (filter (λ y, type y = t) l) as [|y l'] eqn:Hf; [done|].
    assert (Hy : y ∈ filter (λ y, type y = t) l) by (rewrite Hf; by left).
    apply list_elem_of_filter in Hy as [Hy Hin]. destruct Hx. replace (type x) with (type y) by congruence. by apply list_elem_of_fmap_2.
Qed.

(** The records of the aggregate are of their type and of its name. *)
Definition well_typed : Prop :=
  ∀ t records, agg_recordSets a !! t = Some records →
    t ∈ managedDNSRecordTypes ∧ records ≠ [] ∧
    Forall (λ r, record_name r = name ∧ record_type r = t) records.

Lemma sync_aggregate_records key :
  well_typed →
  changes (sync_aggregate client () (key, a))
    (updates (λ t, if decide (t ∈ managedDNSRecordTypes)
                   then Some (default [] (agg_recordSets a !! t)) else None)).
Proof.
  intros Hwt. unfold sync_aggregate. eapply changes_bind.
  - apply (each_updates _ (delete_stale client a) id (λ _, [])).
    + assert (Hid : id <$> stale_types a = stale_types a) by apply list_fmap_id. rewrite Hid.
      unfold stale_types, string_sort. rewrite merge_sort_Permutation. apply NoDup_filter. by_decision.
    + intros t _. apply delete_stale_records.
  - intros []. apply (each_updates _ (write_records client a) fst snd).
    + unfold sorted_entries. rewrite merge_sort_Permutation. apply NoDup_fst_map_to_list.
    + intros [t records] Hin. cbn [fst snd].
      unfold sorted_entries in Hin. rewrite merge_sort_Permutation in Hin. apply elem_of_map_to_list in Hin.
      destruct (Hwt _ _ Hin) as (_ & Hne & Hall). by apply write_records_records.
  - intros s1 s2 s3 H12 H23 p z n t. rewrite H23, H12. case_decide as Hhere; [|done].
    assert (Hw : head (filter (λ x, x.1 = t) (sorted_entries (agg_recordSets a))) = pair t <$> agg_recordSets a !! t).
    { apply option_eq. intros [t' rs].
      rewrite (head_filter_key fst) by (unfold sorted_entries; rewrite merge_sort_Permutation; apply NoDup_fst_map_to_list).
      unfold sorted_entries. rewrite merge_sort_Permutation, elem_of_map_to_list. cbn [fst].
      destruct (agg_recordSets a !! t) as [rs'|] eqn:Hr; cbn; split; [|by intros [= <- <-]| |done].
      - intros [Hrs ->]. congruence.
      - intros [Hrs ->]. congruence. }
    assert (Hst : head (filter (λ x, id x = t) (stale_types a)) =
      if decide (t ∈ managedDNSRecordTypes ∧ agg_recordSets a !! t = None) then Some t else None).
    { apply option_eq. intros t'. rewrite (head_filter_key id).
      - unfold stale_types, string_sort. rewrite merge_sort_Permutation, list_elem_of_filter. unfold id.
        split; [intros [[? ?] ->]; by rewrite decide_True|]. case_decide; [|done]. intros [= ->]. tauto.
      - assert (Hid : id <$> stale_types a = stale_types a) by apply list_fmap_id. rewrite Hid.
        unfold stale_types, string_sort. rewrite merge_sort_Permutation. apply NoDup_filter. by_decision. }
    rewrite Hw, Hst. destruct (agg_recordSets a !! t) as [records|] eqn:Hr; cbn [fmap option_fmap option_map default snd].
    + destruct (Hwt _ _ Hr) as (Hm & _). by rewrite decide_True.
    + repeat case_decide; try done; tauto.
Qed.
End aggregate.

(** ** A batch *)
Section batch.
Context (client : dnsClient).
Let place (a : aggregateDNS) : string * string := (agg_zone a, RelativeName (agg_fqdn a) (agg_zone a)).

Lemma sync_aggregates_records (l : list (string * aggregateDNS)) :
  Forall (λ e, well_typed e.2) l → NoDup ((λ e, place e.2) <$> l) →
  changes (M_each (sync_aggregate client) () l) (λ s s', ∀ p z n t,
    zone_records s' p z n t =
      match (if decide (p = cl_provider client ∧ t ∈ managedDNSRecordTypes)
             then head (filter (λ e, place e.2 = (z, n)) l) else None) with
      | Some e => default [] (agg_recordSets e.2 !! t)
      | None => zone_records s p z n t
      end).
Proof.
  induction l as [|[key a] l IH]; intros Hwt Hnd.
  - eapply changes_weaken; [apply changes_ret|]. intros s s' -> p z n t. by case_decide.
  - apply Forall_cons in Hwt as [Ha Hwt]. rewrite fmap_cons, NoDup_cons in Hnd. destruct Hnd as [Hni Hnd].
    eapply changes_bind; [by apply sync_aggregate_records|intros []; by apply IH|].
    intros s1 s2 s3 H12 H23 p z n t. rewrite H23, H12. rewrite filter_cons. cbn [snd].
    destruct (decide (p = cl_provider client ∧ t ∈ managedDNSRecordTypes)) as [[-> Ht]|Hno].
    + rewrite (decide_True (P := t ∈ managedDNSRecordTypes)) by done.
      destruct (decide (place a = (z, n))) as [Hp|Hp]; cbn [head].
      * destruct (filter (λ e, place e.2 = (z, n)) l) as [|e l'] eqn:Hf; cbn [head].
        -- injection Hp as <- <-. by rewrite decide_True.
        -- assert (He : e ∈ filter (λ e, place e.2 = (z, n)) l) by (rewrite Hf; by left).
           apply list_elem_of_filter in He as [He Hin]. destruct Hni. cbn [snd]. rewrite Hp, <-He.
           by apply (list_elem_of_fmap_2 (λ e, place e.2)).
      * destruct (head (filter (λ e, place e.2 = (z, n)) l)); [done|].
        rewrite decide_False; [done|]. intros (_ & -> & ->). by destruct Hp.
    + case_decide as Hp; [|done]. rewrite decide_False; [done|]. destruct Hp as (-> & _). tauto.
Qed.

Definition well_formed (d : desiredServiceDNS) : Prop :=
  ∀ t records, des_RecordSets d !! t = Some records →
    t ∈ managedDNSRecordTypes ∧ records ≠ [] ∧
    Forall (λ r, record_name r = name_of d ∧ record_type r = t) records.

Lemma batch_converges desired :
  Forall well_formed desired →
  (∀ d1 d2, d1 ∈ desired → d2 ∈ desired →
     aggregate_key d1 = aggregate_key d2 ↔ (des_Zone d1, name_of d1) = (des_Zone d2, name_of d2)) →
  changes (syncServiceDNSBatch client desired) (λ s s',
    (∀ d t, d ∈ desired → t ∈ managedDNSRecordTypes →
       zone_records s' (cl_provider client) (des_Zone d) (name_of d) t =
       wanted_records desired (aggregate_key d) t) ∧
    (∀ p z n t, p ≠ cl_provider client ∨ (t ∉ managedDNSRecordTypes) ∨
       (∀ d, d ∈ desired → (des_Zone d, name_of d) ≠ (z, n)) →
       zone_records s' p z n t = zone_records s p z n t)).
Proof.
  intros Hwf Hkey. rewrite Forall_forall in Hwf. destruct (aggregates_of_spec desired) as [Hagg Hsome].
  assert (Hplace : ∀ key a, aggregates_of desired !! key = Some a →
    ∃ d, d ∈ desired ∧ aggregate_key d = key ∧ place a = (des_Zone d, name_of d)).
  { intros key a Ha. destruct (Hagg _ _ Ha) as [(d & Hd & Hk & Hz & Hf) _]. exists d. split_and!; [done|done|].
    unfold place, name_of. by rewrite Hz, Hf. }
  assert (Hin : ∀ e, e ∈ sorted_entries (aggregates_of desired) ↔ aggregates_of desired !! e.1 = Some e.2).
  { intros [key a]. unfold sorted_entries. by rewrite merge_sort_Permutation, elem_of_map_to_list. }
  assert (Hnd : NoDup ((λ e, place e.2) <$> sorted_entries (aggregates_of desired))).
  { apply NoDup_fmap_2_strong; [|unfold sorted_entries; rewrite merge_sort_Permutation; apply NoDup_map_to_list].
    intros [k1 a1] [k2 a2] Hin1%Hin Hin2%Hin Heq. cbn in *.
    destruct (Hplace _ _ Hin1) as (d1 & Hd1 & Hk1 & Hp1), (Hplace _ _ Hin2) as (d2 & Hd2 & Hk2 & Hp2).
    assert (k1 = k2) as -> by (subst; apply Hkey; [done..|congruence]). by simplify_eq. }
  eapply changes_weaken; [apply sync_aggregates_records; [|done]|].
  - apply Forall_forall. intros [key a] Ha%Hin t records Hr. cbn in *.
    destruct (Hagg _ _ Ha) as [_ [Hp Hw]]. destruct (Hplace _ _ Ha) as (d0 & Hd0 & Hk0 & Hp0).
    specialize (Hw t). rewrite Hr in Hw. cbn in Hw. subst records.
    destruct (Hp t (mk_is_Some _ _ Hr)) as (d & Hd & Hk & [rs Hrs]). destruct (Hwf d Hd t rs Hrs) as (Ht & Hne & _).
    split_and!; [done| |].
    + destruct rs as [|r rs]; [done|]. intros Hnil. apply (not_elem_of_nil r). rewrite <-Hnil.
      unfold wanted_records. apply list_elem_of_join. exists (r :: rs). split; [by left|].
      apply list_elem_of_fmap. exists d. rewrite Hrs. split; [done|]. by apply list_elem_of_filter.
    + apply Forall_forall. intros r Hr'. unfold wanted_records in Hr'.
      apply list_elem_of_join in Hr' as (rs' & Hr' & (d' & -> & (Hk' & Hd')%list_elem_of_filter)%list_elem_of_fmap).
      destruct (des_RecordSets d' !! t) as [rs'|] eqn:Hrs'; [|by apply elem_of_nil in Hr'].
      destruct (Hwf d' Hd' t rs' Hrs') as (_ & _ & Hall). rewrite Forall_forall in Hall.
      destruct (Hall r Hr') as [-> ->]. split; [|done].
      assert (Heq : (des_Zone d', name_of d') = (des_Zone d0, name_of d0)) by (apply Hkey; [done..|congruence]).
      unfold place in Hp0. congruence.
  - intros s s' Hs. split.
    + intros d t Hd Ht. rewrite Hs, decide_True by done.
      destruct (Hsome d Hd) as [a Ha]. destruct (Hplace _ _ Ha) as (d0 & Hd0 & Hk0 & Hp0).
      assert (Hfind : head (filter (λ e, place e.2 = (des_Zone d, name_of d)) (sorted_entries (aggregates_of desired))) =
        Some (aggregate_key d, a)).
      { apply (head_filter_key (λ e, place e.2)); [done|]. split; [by apply Hin|]. cbn. rewrite Hp0. by apply Hkey. }
      rewrite Hfind. by apply Hagg.
    + intros p z n t Hcase. rewrite Hs. case_decide as Hpt; [|done]. destruct Hpt as [-> Ht].
      destruct (head _) as [[key a]|] eqn:Hfind; [exfalso|done].
      apply (head_filter_key (λ e, place e.2)) in Hfind as [Ha%Hin Hpl]; [|done]. cbn in *.
      destruct (Hplace _ _ Ha) as (d & Hd & _ & Hp). destruct Hcase as [?|[?|Hno]]; [done|done|].
      apply (Hno d Hd). congruence.
Qed.
End batch.
End effect.

(** ** Built entries are well formed *)
Section built.
Context `{DnsNames}.

(** The addresses of a node are of the family their field names. *)
Definition addresses_ok (node : NodeConfig) : Prop :=
  (∀ ip, ParseAddr (nc_PublicIPv4 node) = Some ip → Is4 ip = true) ∧
  (∀ ip, ParseAddr (nc_PublicIPv6 node) = Some ip → Is4 ip = false).

Definition records_ok (name : string) (sets : gmap string (list DnsRecord)) : Prop :=
  ∀ t records, sets !! t = Some records →
    t ∈ managedDNSRecordTypes ∧ records ≠ [] ∧ Forall (λ r, record_name r = name ∧ record_type r = t) records.

Lemma singleton_ok name (t : string) (r : DnsRecord) :
  t ∈ managedDNSRecordTypes → record_name r = name → record_type r = t → records_ok name {[t := [r]]}.
Proof. intros Ht <- Hr t' records [<- <-]%lookup_singleton_Some. split_and!; [done|done|]. by constructor. Qed.

Lemma value_records_ok name ttl recordType value sets :
  desiredDNSRecordSetsForValue name ttl recordType value = Ok sets → records_ok name sets.
Proof.
  unfold desiredDNSRecordSetsForValue. destruct (ParseAddr value) as [ip|].
  - case_decide; [|by case_decide]. destruct (Is4 ip) eqn:Hip; (case_decide; [done|]);
      intros [= <-]; (apply singleton_ok; [by_decision|done|cbn; by rewrite Hip]).
  - case_decide; [|by case_decide]. intros [= <-]. by apply singleton_ok; [by_decision| |].
Qed.

Lemma node_records_ok name ttl recordType node sets :
  addresses_ok node → desiredDNSRecordSetsForNode name ttl recordType node = Ok sets → records_ok name sets.
Proof.
  intros [H4 H6] Hok.
  assert (Hv4 : ∀ o, node_address name ttl (nc_PublicIPv4 node) "A" "public_ipv4 is invalid" = Ok o →
    records_ok name (default ∅ o)).
  { unfold node_address. intros o. case_decide; [intros [= <-] t rs Hr; cbn in Hr; by rewrite lookup_empty in Hr|].
    destruct (ParseAddr (nc_PublicIPv4 node)) as [ip|] eqn:Hp; [|done]. intros [= <-].
    apply singleton_ok; [by_decision|done|cbn; by rewrite (H4 _ eq_refl)]. }
  assert (Hv6 : ∀ o, node_address name ttl (nc_PublicIPv6 node) "AAAA" "public_ipv6 is invalid" = Ok o →
    records_ok name (default ∅ o)).
  { unfold node_address. intros o. case_decide; [intros [= <-] t rs Hr; cbn in Hr; by rewrite lookup_empty in Hr|].
    destruct (ParseAddr (nc_PublicIPv6 node)) as [ip|] eqn:Hp; [|done]. intros [= <-].
    apply singleton_ok; [by_decision|done|cbn; by rewrite (H6 _ eq_refl)]. }
  unfold desiredDNSRecordSetsForNode in Hok. repeat case_decide; try done.
  - apply result_bind_Ok in Hok as (v4 & E4 & Hok). apply result_bind_Ok in Hok as (v6 & E6 & Hok).
    apply Hv4 in E4. apply Hv6 in E6.
    assert (sets = default ∅ v4 ∪ default ∅ v6) as -> by (destruct v4, v6; by simplify_eq).
    intros t rs [Hr|[_ Hr]]%lookup_union_Some_raw; [by apply E4|by apply E6].
  - apply result_bind_Ok in Hok as (v4 & E4 & Hok). apply Hv4 in E4. destruct v4; by simplify_eq.
  - apply result_bind_Ok in Hok as (v6 & E6 & Hok). apply Hv6 in E6. destruct v6; by simplify_eq.
Qed.

Lemma built_well_formed service dnsConfig cfg client d :
  Forall addresses_ok (configured_nodes cfg) →
  buildDesiredServiceDNS service dnsConfig cfg client = Ok d → well_formed d.
Proof.
  intros Hnodes Hok. unfold buildDesiredServiceDNS in Hok. case_decide; [done|].
  apply result_bind_Ok in Hok as (zone & _ & Hok). case_decide; [done|].
  apply result_bind_Ok in Hok as (sets & Hsets & [= <-]).
  change (records_ok (RelativeName (ensureTrailingDot (TrimSpace (dns_Hostname dnsConfig))) zone) sets).
  unfold desiredDNSRecordSets in Hsets. case_decide; [by eapply value_records_ok|].
  destruct (svc_TargetNodes service) as [|n [|]]; [done| |done].
  apply result_bind_Ok in Hsets as (node & Hnode & Hsets). eapply node_records_ok; [|done].
  unfold configuredNode in Hnode. destruct (head _) as [node'|] eqn:Hhead; [|done]. injection Hnode as ->.
  rewrite Forall_forall in Hnodes. apply Hnodes. destruct (filter _ _) as [|x l] eqn:Hf; [done|].
  cbn in Hhead. injection Hhead as ->.
  assert (Hin : node ∈ filter (λ node, nc_ID node = n) (configured_nodes cfg)) by (rewrite Hf; by left).
  by apply list_elem_of_filter in Hin as [_ ?].
Qed.
End built.

Section claims.
Context `{DnsState} `{GitState} `{!DnsNames} `{!DnsService} `{!Environment}.

(** C24: After a successful synchronisation of the entries of a service with a
    provider, each managed record type of each of their names holds exactly
    the records the entries ask for, stale ones included, and no other record
    of any provider has changed. *)
Theorem syncServiceDNSBatch_converges cfg service client (entries : list DNSEntry) desired w w' :
  Forall addresses_ok (configured_nodes cfg) →
  Forall2 (λ e d, buildDesiredServiceDNS service e cfg client = Ok d) entries desired →
  (∀ d1 d2, d1 ∈ desired → d2 ∈ desired →
     aggregate_key d1 = aggregate_key d2 ↔ (des_Zone d1, name_of d1) = (des_Zone d2, name_of d2)) →
  syncServiceDNSBatch client desired w = (w', Ok ()) →
  (∀ d t, d ∈ desired → t ∈ managedDNSRecordTypes →
     zone_records (w_dns w') (cl_provider client) (des_Zone d) (name_of d) t =
     wanted_records desired (aggregate_key d) t) ∧
  (∀ p z n t, p ≠ cl_provider client ∨ (t ∉ managedDNSRecordTypes) ∨
     (∀ d, d ∈ desired → (des_Zone d, name_of d) ≠ (z, n)) →
     zone_records (w_dns w') p z n t = zone_records (w_dns w) p z n t).
Proof.
  intros Hnodes Hbuilt Hkey Hrun. refine (batch_converges client desired _ Hkey w w' () Hrun).
  apply Forall_forall. intros d Hd. apply list_elem_of_lookup in Hd as [i Hi].
  destruct (Forall2_lookup_r _ _ _ _ _ Hbuilt Hi) as (e & _ & He). by eapply built_well_formed.
Qed.
End claims.

(** ** A concrete provider *)
#[local] Instance names_example : DnsNames := {|
  Addr := string;
  ParseAddr s := if bool_decide (s ∈ ["192.0.2.1"; "2001:db8::1"]) then Some s else None;
  Is4 ip := bool_decide (ip = "192.0.2.1");
  RelativeName fqdn zone := TrimSuffix (TrimSuffix fqdn zone) ".";
|}.
#[local] Abbreviation dns_map := (gmap (string * string * string * string) (list DnsRecord)).
#[local] Instance dns_example : DnsState := dns_map.

Definition example_records (s : dns_map) (p z n t : string) : list DnsRecord :=
  default [] (s !! (p, z, n, t)).
(** The entry of each record's name and type becomes the given ones of it. *)
Definition example_set (p z : string) (rs : list DnsRecord) (s : dns_map) : dns_map :=
  foldr (λ r s, <[(p, z, record_name r, record_type r) :=
                    filter (λ r', record_name r' = record_name r ∧ record_type r' = record_type r) rs]> s) s rs.

Lemma example_set_law p z rs s p' z' n t :
  example_records (example_set p z rs s) p' z' n t =
    let given := filter (λ r, record_name r = n ∧ record_type r = t) rs in
    if decide (p' = p ∧ z' = z ∧ given ≠ []) then given else example_records s p' z' n t.
Proof.
  unfold example_set, example_records. cbn zeta.
  assert (Hgen : ∀ all l, (foldr (λ r s, <[(p, z, record_name r, record_type r) :=
      filter (λ r', record_name r' = record_name r ∧ record_type r' = record_type r) all]> s) s l
        : dns_map) !! (p', z', n, t) =
    if decide (p' = p ∧ z' = z ∧ filter (λ r, record_name r = n ∧ record_type r = t) l ≠ [])
    then Some (filter (λ r, record_name r = n ∧ record_type r = t) all) else s !! (p', z', n, t)).
  { intros all. induction l as [|r l IH]; cbn [foldr].
    - rewrite decide_False; [done|]. intros (_ & _ & []). done.
    - rewrite filter_cons. destruct (decide ((p', z', n, t) = (p, z, record_name r, record_type r))) as [Heq|Hne].
      + injection Heq as -> -> -> ->. rewrite lookup_insert_eq.
        rewrite (decide_True (P := record_name r = record_name r ∧ _)) by done. by rewrite decide_True.
      + rewrite lookup_insert_ne, IH by congruence. destruct (decide (record_name r = n ∧ record_type r = t)) as [Hr|Hr]; [|done].
        destruct Hr as [<- <-]. rewrite !decide_False; [done|..]; intros (-> & -> & _); by apply Hne. }
  rewrite (Hgen rs rs). by destruct (decide (p' = p ∧ z' = z ∧ _)).
Qed.

#[local] Instance service_example : DnsService.
Proof.
  refine {| zone_records := example_records;
            provider_SetRecords p z rs s := (example_set p z rs s, true);
            provider_DeleteRecords p z n t s := (<[(p, z, n, t) := []]> (s : dns_map), true);
            cloudflare_patch _ _ _ _ s := (s, true) |}.
  - intros p z rs s s' [= <-] p' z' n t. apply example_set_law.
  - intros p z n0 t0 s s' [= <-] p' z' n t. unfold example_records.
    destruct (decide ((p, z, n0, t0) = (p', z', n, t))) as [Heq|Hne].
    + injection Heq as -> -> -> ->. by rewrite lookup_insert_eq, decide_True.
    + rewrite lookup_insert_ne by done. rewrite decide_False; [done|]. intros (-> & -> & -> & ->). by destruct Hne.
  - by intros z f t o s s' b [= <- _].
Defined.

#[local] Instance git_state_example : GitState := unit.
#[local] Instance environment_example : Environment := {|
  env_now n := (Z.of_nat n * Time.Second)%Z; env_uuid n := "uuid"; env_io _ := true;
  env_choice _ := 0; env_db _ db := db; env_sync _ s := s; env_images _ t := t; env_tree _ t := t |}.

Definition example_entries : list DNSEntry :=
  [MkDNSEntry "" "api.example.com" "A" "192.0.2.1" None (Some 60%Z) "";
   MkDNSEntry "" "www.example.com" "" "api.example.com" None None ""].
Definition example_cfg : ControllerConfig :=
  MkControllerConfig ":8080" "/repo" "/state" "/log" None None None None [] None None None None None.
Definition example_dns_service : Service :=
  MkService "web" "/repo/web" "/repo/web/composia-meta.yaml" ["main"] true
    (MkMeta "web" "" [] None [] None None None None None None None).
Definition example_client : dnsClient := MkDnsClient "alidns" ["example.com."].
Definition example_desired : list desiredServiceDNS :=
  omap (λ e, match buildDesiredServiceDNS example_dns_service e example_cfg example_client with
             | Ok d => Some d | Err _ => None end) example_entries.
Lemma built_all service cfg client entries :
  forallb (λ e, is_ok (buildDesiredServiceDNS service e cfg client)) entries = true →
  Forall2 (λ e d, buildDesiredServiceDNS service e cfg client = Ok d) entries
    (omap (λ e, match buildDesiredServiceDNS service e cfg client with
                | Ok d => Some d | Err _ => None end) entries).
Proof.
  induction entries as [|e entries IH]; [by constructor|]. cbn [forallb omap list_omap].
  destruct (buildDesiredServiceDNS service e cfg client) eqn:He; [|done]. intros H'. constructor; [done|by apply IH].
Qed.
Lemma run_ok {A B} (p : A * B) b : p.2 = b → p = (p.1, b).
Proof. by destruct p; intros <-. Qed.
(** A stale address of the name and a record of another name. *)
Definition example_world : World :=
  MkWorld empty_db None empty_images (MkRepoTree ∅ ())
    ({[("alidns", "example.com.", "api", "AAAA") := [Address "api" 0%Z ("2001:db8::1" : @Addr names_example)];
       ("alidns", "example.com.", "old", "A") := [Address "old" 0%Z ("192.0.2.1" : @Addr names_example)]]} : dns_map) [] 0.

Lemma syncServiceDNSBatch_converges_witness :
  let w' := (syncServiceDNSBatch example_client example_desired example_world).1 in
  zone_records (w_dns w') "alidns" "example.com." "api" "A" =
    [Address "api" (60 * Time.Second)%Z ("192.0.2.1" : @Addr names_example)] ∧
  zone_records (w_dns w') "alidns" "example.com." "api" "AAAA" = [] ∧
  zone_records (w_dns w') "alidns" "example.com." "old" "A" =
    [Address "old" 0%Z ("192.0.2.1" : @Addr names_example)].
Proof.
  destruct (syncServiceDNSBatch_converges example_cfg example_dns_service example_client example_entries
    example_desired example_world (syncServiceDNSBatch example_client example_desired example_world).1)
    as [Hset Hother].
  - constructor.
  - apply built_all. by_computation.
  - intros d1 d2 Hd1 Hd2.
    assert (Forall (λ d1, Forall (λ d2, aggregate_key d1 = aggregate_key d2 ↔
      (des_Zone d1, name_of d1) = (des_Zone d2, name_of d2)) example_desired) example_desired) as Hall by by_decision.
    rewrite Forall_forall in Hall. specialize (Hall d1 Hd1). rewrite Forall_forall in Hall. by apply Hall.
  - apply run_ok. by_computation.
  - assert (Hin : ∃ d, d ∈ example_desired ∧ des_Zone d = "example.com." ∧ name_of d = "api" ∧
      aggregate_key d = "example.com." +:+ String (byte 0) "api.example.com.").
    { apply Exists_exists. by_decision. }
    destruct Hin as (d & Hd & Hz & Hn & Hk).
    pose proof (Hset d "A" Hd ltac:(by_decision)) as HA.
    pose proof (Hset d "AAAA" Hd ltac:(by_decision)) as HB.
    rewrite Hz, Hn, Hk in HA, HB. cbn zeta. split_and!.
    + etrans; [exact HA|by_computation].
    + etrans; [exact HB|by_computation].
    + assert (∀ d, d ∈ example_desired → (des_Zone d, name_of d) ≠ ("example.com.", "old")) as Hold.
      { apply Forall_forall. by_decision. }
      etrans; [exact (Hother "alidns" "example.com." "old" "A" (or_intror (or_intror Hold)))|by_computation].
Defined.
