(* ===== verification/Plans.v ===== *)
(** * Programs that follow a plan

    What a program does to the outside, in order, is compared with a list of
    events fixed in advance: a program that succeeds does the whole list, one
    that fails an initial part of it.  Commits are left out: a transaction of
    the repository is one step of a plan. *)
From S2P Require Export Dns.

Section plans.
Context `{DnsState} `{GitState}.

Definition visible (e : Event) : bool := match e with EvCommitted _ => false | _ => true end.
Definition seen (w : World) : list Event := filter (λ e, visible e = true) (w_trace w).
Definition quiet (w w' : World) : Prop := seen w' = seen w.

#[export] Instance quiet_preorder : PreOrder quiet.
Proof. split; unfold quiet; [intros w; reflexivity|]. intros w1 w2 w3 ? ?. congruence. Qed.
#[export] Instance quiet_based : TraceBased quiet.
Proof. intros w w' Heq. unfold quiet, seen. by rewrite Heq. Qed.
Lemma quiet_commit paths : respects quiet (emit (EvCommitted paths)).
Proof. intros w. unfold quiet, seen. cbn. by rewrite filter_app, filter_cons, decide_False, filter_nil, List.app_nil_r. Qed.

(** The program does [plan] and gives a result as [post] says, or fails after
    a part of the plan. *)
Definition emits {A} (m : M A) (plan : list Event) (post : A → Prop) : Prop :=
  ∀ w, match m w with
       | (w', Ok a) => seen w' = seen w ++ plan ∧ post a
       | (w', Err _) => ∃ k, seen w' = seen w ++ take k plan
       end.
Abbreviation does m plan := (emits m plan (λ _, True)).

Lemma emits_quiet {A} (m : M A) (post : A → Prop) :
  respects quiet m → (∀ w w' a, m w = (w', Ok a) → post a) → emits m [] post.
Proof.
  intros Hm Hpost w. specialize (Hm w). unfold quiet in Hm. destruct (m w) as [w' [a|e]] eqn:Hr.
  - rewrite List.app_nil_r. split; [done|by eapply Hpost].
  - exists 0. by rewrite List.app_nil_r.
Qed.
Lemma does_quiet {A} (m : M A) : respects quiet m → does m [].
Proof. intros Hm. by apply emits_quiet. Qed.

Lemma emits_bind {A B} (m : M A) (f : A → M B) p q (mid : A → Prop) (post : B → Prop) :
  emits m p mid → (∀ a, mid a → emits (f a) q post) → emits (m ≫= f) (p ++ q) post.
Proof.
  intros Hm Hf w. specialize (Hm w). unfold mbind, M_bind. destruct (m w) as [w1 [a|e]].
  - destruct Hm as [Hw1 Ha]. specialize (Hf a Ha w1). destruct (f a w1) as [w2 [b|e]].
    + destruct Hf as [Hw2 Hb]. split; [|done]. by rewrite Hw2, Hw1, List.app_assoc.
    + destruct Hf as [k Hk]. exists (length p + k). by rewrite take_app_add, List.app_assoc, Hk, Hw1.
  - destruct Hm as [k Hk]. exists (min k (length p)). rewrite take_app_le by lia. rewrite Hk. f_equal.
    destruct (decide (k ≤ length p)); [by rewrite Nat.min_l|]. rewrite Nat.min_r by lia. by rewrite !take_ge by lia.
Qed.
Lemma emits_then {A B} (m : M A) (f : A → M B) p (post : B → Prop) :
  respects quiet m → (∀ a, emits (f a) p post) → emits (m ≫= f) p post.
Proof. intros Hm Hf. rewrite <-(List.app_nil_l p). eapply emits_bind; [by apply does_quiet|]. intros a _. apply Hf. Qed.
Lemma emits_after {A B} (m : M A) (f : A → M B) p (mid : A → Prop) (post : B → Prop) :
  emits m p mid → (∀ a, mid a → emits (f a) [] post) → emits (m ≫= f) p post.
Proof. intros Hm Hf. rewrite <-(List.app_nil_r p). by eapply emits_bind. Qed.
Lemma emits_ret {A} (a : A) (post : A → Prop) : post a → emits (mret a) [] post.
Proof. intros Ha w. cbn. by rewrite List.app_nil_r. Qed.
Lemma emits_fail {A} e p (post : A → Prop) : emits (fail e) p post.
Proof. intros w. exists 0. cbn. by rewrite List.app_nil_r. Qed.
Lemma does_emit e : visible e = true → does (emit e) [e].
Proof. intros He w. split; [|done]. unfold seen. cbn. by rewrite filter_app, filter_cons, decide_True, filter_nil. Qed.
Lemma emits_weaken {A} (m : M A) p (post post' : A → Prop) : (∀ a, post a → post' a) → emits m p post → emits m p post'.
Proof. intros Himp Hm w. specialize (Hm w). destruct (m w) as [w' [a|e]]; [|done]. destruct Hm. auto. Qed.

(** ** Tasks *)
Definition failed_events : list Event := [EvFinished StatusFailed; EvNotified EventTaskFailed].
(** A task does its plan; when it fails it did a part of it, and is marked
    failed unless that fails too. *)
Definition task_does (m : M ()) (plan : list Event) : Prop :=
  ∀ w, match m w with
       | (w', Ok _) => seen w' = seen w ++ plan
       | (w', Err _) => ∃ k outcome, seen w' = seen w ++ take k plan ++ outcome ∧ (outcome = [] ∨ outcome = failed_events)
       end.

Lemma task_does_emits (m : M ()) p : does m p → task_does m p.
Proof.
  intros Hm w. specialize (Hm w). destruct (m w) as [w' [a|e]]; [by destruct Hm|].
  destruct Hm as [k Hk]. exists k, []. rewrite List.app_nil_r. by split; [|left].
Qed.
Context `{!Environment}.
(** A program that always fails, after nothing or the events of a failure. *)
Definition gives_up {A} (m : M A) : Prop :=
  ∀ w, (∃ e, (m w).2 = Err e) ∧ (seen (m w).1 = seen w ∨ seen (m w).1 = seen w ++ failed_events).
Lemma gives_up_then {A B} (m : M A) (f : A → M B) : respects quiet m → (∀ a, gives_up (f a)) → gives_up (m ≫= f).
Proof.
  intros Hm Hf w. specialize (Hm w). unfold quiet in Hm. unfold mbind, M_bind. destruct (m w) as [w1 [a|e]].
  - destruct (Hf a w1) as [He Hs]. split; [done|]. cbn in Hm. by rewrite <-Hm.
  - split; [by eexists|by left].
Qed.
Lemma gives_up_does (m : M ()) p : gives_up m → task_does m p.
Proof.
  intros Hm w. destruct (Hm w) as [[e He] Hs]. destruct (m w) as [w' r]. cbn in *. subst r.
  exists 0. destruct Hs as [Hs|Hs]; [exists []|exists failed_events]; cbn; rewrite Hs, ?List.app_nil_r; auto.
Qed.

Lemma failControllerTask_gives_up record step e : gives_up (failControllerTask record step e).
Proof.
  unfold failControllerTask, complete_task, upsert_step. apply gives_up_then; [by respects_trace|]. intros t.
  do 2 (apply gives_up_then; [by respects_trace|]; intros _).
  intros w. unfold mbind, M_bind.
  set (m := store_write plain _). assert (quiet w (m w).1) as Hm by (apply respects_traceless; [apply _|apply traceless_store]).
  unfold quiet in Hm. destruct (m w) as [w1 [[]|e']]; cbn in *.
  - split; [by eexists|right]. unfold seen in *. cbn. by rewrite !filter_app, Hm, <-List.app_assoc.
  - split; [by eexists|by left].
Qed.

Lemma take_of_plan {A} k (p q : list A) : ∃ k', take k p = take k' (p ++ q).
Proof.
  exists (min k (length p)). rewrite take_app_le by lia.
  destruct (decide (k ≤ length p)); [by rewrite Nat.min_l|]. rewrite Nat.min_r by lia. by rewrite !take_ge by lia.
Qed.

Lemma or_fail_does {A} record step (m : M A) (k : A → M ()) p q (mid : A → Prop) :
  emits m p mid → (∀ a, mid a → task_does (k a) q) → task_does (or_fail record step m k) (p ++ q).
Proof.
  intros Hm Hk w. specialize (Hm w). unfold or_fail, mbind, M_bind, attempt. destruct (m w) as [w1 [a|e]].
  - destruct Hm as [Hw1 Ha]. specialize (Hk a Ha w1). destruct (k a w1) as [w2 [[]|e]].
    + by rewrite Hk, Hw1, List.app_assoc.
    + destruct Hk as (n & outcome & Hn & Ho). exists (length p + n), outcome. split; [|done].
      by rewrite take_app_add, Hn, Hw1, !List.app_assoc.
  - destruct Hm as [n Hn]. destruct (take_of_plan n p q) as [n' Hn'].
    destruct (failControllerTask_gives_up record step e w1) as [[e' He'] Hs].
    destruct (failControllerTask record step e w1) as [w2 r]. cbn in He', Hs. subst r. exists n'.
    destruct Hs as [->| ->]; [exists []|exists failed_events]; rewrite <-Hn', List.app_assoc, <-Hn, ?List.app_nil_r; auto.
Qed.
Lemma or_fail_quiet {A} record step (m : M A) (k : A → M ()) q :
  respects quiet m → (∀ a, task_does (k a) q) → task_does (or_fail record step m k) q.
Proof. intros Hm Hk. eapply (or_fail_does _ _ m k [] q); [by apply does_quiet|]. intros a _. apply Hk. Qed.

Lemma task_does_then {A} (m : M A) (k : A → M ()) q :
  respects quiet m → (∀ a, task_does (k a) q) → task_does (m ≫= k) q.
Proof.
  intros Hm Hk w. specialize (Hm w). unfold quiet in Hm. unfold mbind, M_bind. destruct (m w) as [w1 [a|e]].
  - specialize (Hk a w1). cbn in Hm. by rewrite Hm in Hk.
  - exists 0, []. rewrite List.app_nil_r. auto.
Qed.

Lemma runMigrateStep_emits {A} record step (run : M A) p (post : A → Prop) :
  emits run p post → emits (runMigrateStep record step run) p post.
Proof.
  intros Hrun. unfold runMigrateStep, upsert_step. do 2 (apply emits_then; [by respects_trace|intros ?]).
  eapply emits_after; [exact Hrun|]. intros x Hx. do 2 (apply emits_then; [by respects_trace|intros ?]). by apply emits_ret.
Qed.

(** A step of a task, done or left out. *)
Definition unless (skip : bool) (p : list Event) : list Event := if skip then [] else p.

Lemma finish_does record step t : task_does (finish record step t) [EvFinished StatusSucceeded; EvNotified EventTaskCompleted].
Proof.
  unfold finish. apply or_fail_quiet; [by respects_trace|]. intros _. apply task_does_emits.
  apply (emits_bind (complete_task record StatusSucceeded t "") _ [EvFinished StatusSucceeded] _ (λ _, True)).
  - unfold complete_task. apply emits_then; [by respects_trace|]. intros _. by apply does_emit.
  - intros _ _. by apply does_emit.
Qed.
Lemma finalize_does record : task_does (finalize_task record) [EvFinished StatusSucceeded; EvNotified EventTaskCompleted].
Proof.
  unfold finalize_task, upsert_step. apply task_does_then; [by respects_trace|]. intros t.
  apply or_fail_quiet; [by respects_trace|]. intros _. apply finish_does.
Qed.

(** ** Waiting *)
Lemma wait_does taskID timeout : does (waitTask taskID timeout) [EvWaited].
Proof.
  unfold waitTask. apply emits_then; [by respects_trace|intros n]. apply emits_then; [by respects_trace|intros t0].
  generalize (env_choice n) as polls. intros polls. generalize (t0 + timeout)%Z as deadline. intros deadline.
  induction polls as [|polls IH]; cbn [wait_polls]; (apply emits_then; [by respects_trace|]; intros detail).
  all: assert (does (t ← now; if decide (deadline - t ≤ 0)%Z then fail (A := ()) (NewError CodeUnknown "timeout waiting for task")
         else fail (NewError CodeUnknown "context canceled")) [EvWaited]) as Hcancel
         by (apply emits_then; [by respects_trace|intros t; case_decide; apply emits_fail]).
  - destruct detail as [detail|]; [|done]. case_decide; [by apply does_emit|]. case_decide; [apply emits_fail|done].
  - assert (does (t ← now; if decide (deadline - t ≤ 0)%Z then fail (A := ()) (NewError CodeUnknown "timeout waiting for task")
         else wait_polls polls deadline taskID) [EvWaited]) as Hagain
         by (apply emits_then; [by respects_trace|intros t; case_decide; [apply emits_fail|done]]).
    destruct detail as [detail|]; [|done]. case_decide; [by apply does_emit|]. case_decide; [apply emits_fail|done].
Qed.
End plans.
Abbreviation does m plan := (emits m plan (λ _, True)).

(** ** A task from where it starts *)
Section started.
Context `{DnsState} `{GitState} `{!Environment}.

Lemma or_fail_case {A} record step (m : M A) (k : A → M ()) w :
  (∃ w1 a, m w = (w1, Ok a) ∧ or_fail record step m k w = k a w1) ∨
  (∃ w1 e, m w = (w1, Err e) ∧ or_fail record step m k w = failControllerTask record step e w1).
Proof.
  unfold or_fail, mbind, M_bind, attempt. destruct (m w) as [w1 [a|e]]; [left|right]; by eexists _, _.
Qed.

(** The task failed before its plan was known. *)
Definition failed_early (w : World) (out : World * result ConnectError ()) : Prop :=
  (∃ e, out.2 = Err e) ∧ (seen out.1 = seen w ∨ seen out.1 = seen w ++ failed_events).
(** The task did its plan, or a part of it and failed. *)
Definition followed (plan : list Event) (w : World) (out : World * result ConnectError ()) : Prop :=
  match out.2 with
  | Ok _ => seen out.1 = seen w ++ plan
  | Err _ => ∃ k outcome, seen out.1 = seen w ++ take k plan ++ outcome ∧ (outcome = [] ∨ outcome = failed_events)
  end.

Lemma gives_up_early (m : M ()) w w1 : gives_up m → seen w1 = seen w → failed_early w (m w1).
Proof. intros Hm Hw. destruct (Hm w1) as [? Hs]. rewrite Hw in Hs. by split. Qed.
Lemma task_followed (m : M ()) plan w w1 : task_does m plan → seen w1 = seen w → followed plan w (m w1).
Proof.
  intros Hm Hw. specialize (Hm w1). unfold followed. destruct (m w1) as [w2 [[]|e]]; cbn in *; by rewrite Hw in Hm.
Qed.

(** A quiet step at the start: it fails the task, or the task goes on. *)
Lemma start_step {A} record step (m : M A) (k : A → M ()) w w1 (P : World * result ConnectError () → Prop) :
  respects quiet m → seen w1 = seen w →
  (∀ w2 a, m w1 = (w2, Ok a) → seen w2 = seen w → failed_early w (k a w2) ∨ P (k a w2)) →
  failed_early w (or_fail record step m k w1) ∨ P (or_fail record step m k w1).
Proof.
  intros Hm Hw Hk. specialize (Hm w1). unfold quiet in Hm.
  destruct (or_fail_case record step m k w1) as [(w2 & a & Hr & ->)|(w2 & e & Hr & ->)]; rewrite Hr in Hm; cbn in Hm.
  - apply (Hk w2 a Hr). congruence.
  - left. apply gives_up_early; [apply failControllerTask_gives_up|congruence].
Qed.

Lemma step_or_skip_does {A} record (skip : bool) step (otherwise : A) (run : M A) (k : A → M ()) p q (mid : A → Prop) :
  emits run p mid → (skip = true → task_does (k otherwise) q) →
  (skip = false → ∀ a, mid a → task_does (k a) q) →
  task_does (step_or_skip record skip step otherwise run k) (unless skip p ++ q).
Proof.
  intros Hrun Hskip Hk. destruct skip; cbn; [by apply Hskip|]. eapply or_fail_does; [by apply runMigrateStep_emits|].
  by apply Hk.
Qed.
Lemma step_unit_does record (skip : bool) step (run : M ()) (k : () → M ()) p q :
  does run p → task_does (k ()) q →
  task_does (step_or_skip record skip step () run k) (unless skip p ++ q).
Proof. intros Hrun Hk. eapply step_or_skip_does; [exact Hrun|done|]. by intros _ [] _. Qed.
End started.
