(* ===== verification/Tunnel.v ===== *)
(** * Cloudflare tunnels: src/internal/app/controller/cloudflare_tunnel.go

    The ingress rules of the configured tunnels follow the services at a
    revision that have running instances; each route also has a CNAME record.
    The HTTP call that puts the configuration of a tunnel is the class
    [TunnelService] on the state of the DNS providers.  [sort.Slice] gives
    some sorted permutation, so the order of rules with one hostname is not
    determined: it is the argument [sort_services]. *)
From S2P Require Export Dns.

Record cloudflareTunnelIngress := MkIngress {
  ing_Hostname : string;
  ing_Service : string;
  ing_Path : string;
  ing_OriginRequest : option CloudflareTunnelOriginRequest;
}.

Record desiredCloudflareTunnelService := MkDesiredTunnel {
  dt_Service : Service;
  dt_Directory : string;
  dt_Tunnel : string;
  dt_Config : CloudflareTunnelConfig;
}.

(** A PUT of the rules of a tunnel replaces them and touches nothing else. *)
Class TunnelService `{DnsState} `{!DnsNames} `{!DnsService} := {
  tunnel_ingress : dns_state → string → list cloudflareTunnelIngress;
  api_UpdateConfiguration : string → string → list cloudflareTunnelIngress → dns_state → dns_state * bool;
  UpdateConfiguration_law : ∀ account t rules s s', api_UpdateConfiguration account t rules s = (s', true) →
    (∀ t', tunnel_ingress s' t' = if decide (t' = t) then rules else tunnel_ingress s t') ∧
    ∀ p z n ty, zone_records s' p z n ty = zone_records s p z n ty;
  records_keep_tunnels : ∀ p z rs s s' b, provider_SetRecords p z rs s = (s', b) → ∀ t, tunnel_ingress s' t = tunnel_ingress s t;
  delete_keeps_tunnels : ∀ p z n ty s s' b, provider_DeleteRecords p z n ty s = (s', b) → ∀ t, tunnel_ingress s' t = tunnel_ingress s t;
  patch_keeps_tunnels : ∀ z f ty o s s' b, cloudflare_patch z f ty o s = (s', b) → ∀ t, tunnel_ingress s' t = tunnel_ingress s t;
}.

Section tunnel.
Context `{DnsState} `{GitState} `{!Environment} `{!GitCommand} `{!DnsNames} `{!DnsService} `{!TunnelService}.
Context `{MetaDecoder} `{Cron} `{Libraries} `{ParamsJSON}.
Context (cfg : ControllerConfig) (availableNodeIDs : gset string).
Context (sort_services : list desiredCloudflareTunnelService → list desiredCloudflareTunnelService).

(** ** Which services *)
Definition tunnel_config (service : Service) : option CloudflareTunnelConfig :=
  sm_Network (svc_Meta service) ≫= net_CloudflareTunnel.

(** The tunnel all target nodes are bound to. *)
Definition resolve_tunnel_node (tunnelCfg : ControllerCloudflareTunnelConfig) (resolved nodeID : string)
    : result string string :=
  match ct_Nodes tunnelCfg !! nodeID with
  | None => Err "target node does not have a controller.cloudflare_tunnel.nodes binding"
  | Some tunnel =>
      if decide (TrimSpace tunnel = "")
      then Err "target node does not have a controller.cloudflare_tunnel.nodes binding"
      else if decide (ct_Tunnels tunnelCfg !! tunnel = None)
      then Err "target node references unknown cloudflare tunnel"
      else if decide (resolved = "") then Ok tunnel
      else if decide (resolved ≠ tunnel) then Err "service targets multiple cloudflare tunnels"
      else Ok resolved
  end.
Definition resolveCloudflareTunnelName (tunnelCfg : ControllerCloudflareTunnelConfig) (service : Service)
    (config : CloudflareTunnelConfig) : result string string :=
  let tunnelName := TrimSpace (cft_Tunnel config) in
  if decide (tunnelName ≠ "") then
    if decide (ct_Tunnels tunnelCfg !! tunnelName = None) then Err "service references unknown cloudflare tunnel"
    else Ok tunnelName
  else
    result_bind (for_each (resolve_tunnel_node tunnelCfg) "" (svc_TargetNodes service)) (λ resolved,
    if decide (resolved = "") then Err "service cannot resolve cloudflare tunnel" else Ok resolved).

Definition route_key (tunnel : string) (config : CloudflareTunnelConfig) : string :=
  let nul := String (byte 0) "" in
  tunnel +:+ nul +:+ ToLower (TrimSpace (cft_Hostname config)) +:+ nul +:+ TrimSpace (cft_Path config).

(** The loop over the metadata files of the revision. *)
Definition tunnel_service_at (tunnelCfg : ControllerCloudflareTunnelConfig) (revision : string)
    (found : gset string * list desiredCloudflareTunnelService) (path : string)
    : M (gset string * list desiredCloudflareTunnelService) :=
  let '(seenRoutes, services) := found in
  let serviceDir := Dir path in
  service ← find_service_at cfg availableNodeIDs revision serviceDir;
  match tunnel_config service with
  | None => mret found
  | Some config =>
      tunnel ← lift (with_code CodeUnknown (resolveCloudflareTunnelName tunnelCfg service config));
      if decide (route_key tunnel config ∈ seenRoutes)
      then fail (NewError CodeUnknown "services declare the same cloudflare tunnel route")
      else mret ({[route_key tunnel config]} ∪ seenRoutes,
                 services ++ [MkDesiredTunnel service serviceDir tunnel config])
  end.
Definition cloudflareTunnelServicesAtRevision (revision : string) : M (list desiredCloudflareTunnelService) :=
  match cc_CloudflareTunnel cfg with
  | None => fail (NewError CodeUnknown "controller cloudflare_tunnel is not configured")
  | Some tunnelCfg =>
      files ← ListFilesAtRevision revision "";
      found ← M_each (tunnel_service_at tunnelCfg revision) (∅, []) (ListServiceMetaFilesAtRevision files);
      mret (sort_services found.2)
  end.

Definition cloudflareTunnelServiceIsRoutable (serviceName : string) : M bool :=
  snapshot ← attempt (store_read plain (GetServiceSnapshot serviceName));
  match snapshot with
  | Ok snapshot => mret (bool_decide (0 < ss_RunningCount snapshot))
  | Err (StoreFailed _ ErrServiceNotFound) => mret false
  | Err e => fail e
  end.

(** ** Rules *)
Definition cloudflareTunnelOriginRequestFromMeta (meta : option CloudflareTunnelOriginRequest)
    : option CloudflareTunnelOriginRequest :=
  match meta with
  | None => None
  | Some meta =>
      let request := MkCloudflareTunnelOriginRequest (cfo_NoTLSVerify meta) (TrimSpace (cfo_HTTPHostHeader meta))
        (TrimSpace (cfo_OriginServerName meta)) (cfo_ConnectTimeout meta) (cfo_TLSTimeout meta) in
      if decide (cfo_NoTLSVerify request = None ∧ cfo_HTTPHostHeader request = "" ∧
                 cfo_OriginServerName request = "" ∧ cfo_ConnectTimeout request = None ∧
                 cfo_TLSTimeout request = None)
      then None else Some request
  end.
Definition ingress_rule (service : desiredCloudflareTunnelService) : cloudflareTunnelIngress :=
  let config := dt_Config service in
  MkIngress (TrimSpace (cft_Hostname config)) (TrimSpace (cft_Service config)) (TrimSpace (cft_Path config))
    (cloudflareTunnelOriginRequestFromMeta (cft_OriginRequest config)).
Definition cloudflareTunnelIngressRules (services : list desiredCloudflareTunnelService) (fallbackService : string)
    : list cloudflareTunnelIngress :=
  (ingress_rule <$> services) ++ [MkIngress "" fallbackService "" None].
Definition defaultTunnelFallbackService : string := "http_status:404".
(** A configured tunnel is its identifier and its fallback service. *)
Definition fallbackCloudflareTunnelService (tunnel : string * string) : string :=
  if decide (TrimSpace tunnel.2 = "") then defaultTunnelFallbackService else TrimSpace tunnel.2.

(** ** Records *)
Definition tunnel_target (tunnelID : string) : string := ensureTrailingDot (tunnelID +:+ ".cfargotunnel.com").
Definition syncCloudflareTunnelDNS (client : dnsClient) (hostname tunnelID : string) : M () :=
  let fqdn := ensureTrailingDot hostname in
  zone ← lift (with_code CodeUnknown (matchingZone client fqdn));
  _ ← appendTaskLogRaw_;
  _ ← yield_;
  _ ← call_dns (provider_SetRecords (cl_provider client) zone [CNAME (RelativeName fqdn zone) 0%Z (tunnel_target tunnelID)]);
  ApplyRecordOptions client zone fqdn "CNAME"
    (MkDnsRecordOptions (Some true) "Managed by Composia Cloudflare Tunnel").
Definition deleteCloudflareTunnelDNS (client : dnsClient) (hostname tunnelID : string) : M () :=
  let fqdn := ensureTrailingDot hostname in
  zone ← lift (with_code CodeUnknown (matchingZone client fqdn));
  _ ← appendTaskLogRaw_;
  _ ← yield_;
  call_dns (provider_DeleteRecords (cl_provider client) zone (RelativeName fqdn zone) "CNAME").

(** ** The synchronisation *)
(** The services by tunnel, and the last excluded one. *)
Definition route_service (excludedServiceDir : string)
    (found : list desiredCloudflareTunnelService * option desiredCloudflareTunnelService)
    (service : desiredCloudflareTunnelService)
    : M (list desiredCloudflareTunnelService * option desiredCloudflareTunnelService) :=
  let '(routed, excluded) := found in
  routable ← cloudflareTunnelServiceIsRoutable (svc_Name (dt_Service service));
  if bool_decide (excludedServiceDir ≠ "") && bool_decide (dt_Directory service = excludedServiceDir) && negb routable
  then mret (routed, Some service)
  else if negb routable then _ ← appendTaskLogRaw_; mret found
  else mret (routed ++ [service], excluded).
Definition services_of_tunnel (tunnelName : string) (routed : list desiredCloudflareTunnelService)
    : list desiredCloudflareTunnelService := filter (λ s, dt_Tunnel s = tunnelName) routed.

Definition update_tunnel (account : string) (client : dnsClient) (routed : list desiredCloudflareTunnelService)
    (_ : ()) (entry : string * (string * string)) : M () :=
  let '(tunnelName, tunnel) := entry in
  let services := services_of_tunnel tunnelName routed in
  _ ← appendTaskLogRaw_;
  _ ← yield_;
  _ ← call_dns (api_UpdateConfiguration (TrimSpace account) (TrimSpace tunnel.1)
                  (cloudflareTunnelIngressRules services (fallbackCloudflareTunnelService tunnel)));
  M_each (λ _ s, syncCloudflareTunnelDNS client (cft_Hostname (dt_Config s)) tunnel.1) () services.

Definition newCloudflareTunnelClients : result string (ControllerCloudflareTunnelConfig * dnsClient) :=
  match cc_CloudflareTunnel cfg with
  | None => Err "controller cloudflare_tunnel is not configured"
  | Some tunnelCfg =>
      if decide (TrimSpace (ct_APIToken tunnelCfg) = "") then Err "controller cloudflare_tunnel.api_token is empty"
      else result_bind (newCloudflareDNSClient (Some (MkCloudflareDNSConfig (TrimSpace (ct_APIToken tunnelCfg)) (ct_Zones tunnelCfg))))
             (λ client, Ok (tunnelCfg, client))
  end.

Definition excluded_dir (excludedServiceDir : string) : string :=
  let dir := TrimSpace excludedServiceDir in if decide (dir = "") then "" else Clean dir.
(** The tunnels by name; then the record of the excluded service. *)
Definition update_tunnels (tunnelCfg : ControllerCloudflareTunnelConfig) (client : dnsClient)
    (routed : list desiredCloudflareTunnelService) (excluded : option desiredCloudflareTunnelService) : M () :=
  _ ← M_each (update_tunnel (ct_AccountID tunnelCfg) client routed) () (sorted_entries (ct_Tunnels tunnelCfg));
  match excluded with
  | None => mret ()
  | Some service =>
      deleteCloudflareTunnelDNS client (cft_Hostname (dt_Config service))
        (default "" (fst <$> ct_Tunnels tunnelCfg !! dt_Tunnel service))
  end.
Definition syncCloudflareTunnels (tunnelCfg : ControllerCloudflareTunnelConfig) (client : dnsClient)
    (revision excludedServiceDir : string) : M () :=
  services ← cloudflareTunnelServicesAtRevision revision;
  found ← M_each (route_service (excluded_dir excludedServiceDir)) ([], None) services;
  update_tunnels tunnelCfg client found.1 found.2.

Definition executeCloudflareTunnelSyncTask (record : TaskRecord) : M () :=
  or_fail record StepCloudflareTunnelSync appendTaskLogRaw_ (λ _,
  startedAt ← now;
  or_fail record StepCloudflareTunnelSync
    (upsert_step record StepCloudflareTunnelSync StatusRunning (Some startedAt) None) (λ _,
  or_fail record StepCloudflareTunnelSync (lift (with_code CodeUnknown (taskParams (rec_ParamsJSON record)))) (λ params,
  or_fail record StepCloudflareTunnelSync (lift (with_code CodeUnknown newCloudflareTunnelClients)) (λ clients,
  or_fail record StepCloudflareTunnelSync
    (syncCloudflareTunnels clients.1 clients.2 (rec_RepoRevision record) (tp_ExcludedServiceDir params)) (λ _,
  finishedAt ← now;
  or_fail record StepCloudflareTunnelSync
    (upsert_step record StepCloudflareTunnelSync StatusSucceeded (Some startedAt) (Some finishedAt)) (λ _,
  finish record StepCloudflareTunnelSync finishedAt)))))).
End tunnel.
