(* ===== verification/TunnelTheorems.v ===== *)
(** * The tunnels after a synchronisation *)
From S2P Require Import Config.
From S2P Require Export Tunnel DnsTheorems Plans.

Section records.
Context `{DnsState} `{GitState} `{!Environment} `{!DnsNames} `{!DnsService} `{!TunnelService}.
Context (client : dnsClient).

(** Where the record of a hostname is. *)
Definition location (hostname : string) : option (string * string) :=
  let fqdn := ensureTrailingDot hostname in
  match matchingZone client fqdn with Ok zone => Some (zone, RelativeName fqdn zone) | Err _ => None end.
Definition route_location (s : desiredCloudflareTunnelService) : option (string * string) :=
  location (cft_Hostname (dt_Config s)).
Definition cname (d : dns_state) (at_ : string * string) : list DnsRecord :=
  zone_records d (cl_provider client) at_.1 at_.2 "CNAME".

(** The tunnels are as before; the CNAME records become what [f] says. *)
Definition same_tunnels (d d' : dns_state) : Prop := ∀ t, tunnel_ingress d' t = tunnel_ingress d t.
Definition cnames (f : string * string → option (list DnsRecord)) (d d' : dns_state) : Prop :=
  ∀ l, cname d' l = default (cname d l) (f l).

Lemma ApplyRecordOptions_tunnels zone fqdn recordType options :
  changes (ApplyRecordOptions client zone fqdn recordType options) same_tunnels.
Proof.
  unfold ApplyRecordOptions. case_decide; [|case_decide; [|apply changes_fail]].
  - eapply changes_weaken; [apply changes_ret|]. by intros ?? ->.
  - apply changes_after; [apply changes_yield|]. intros _. apply changes_call. intros s s' Hc t. by eapply patch_keeps_tunnels.
Qed.

Lemma changes_and {A} (m : M A) R S : changes m R → changes m S → changes m (λ d d', R d d' ∧ S d d').
Proof. intros HR HS w w' a Hm. split; [by eapply HR|by eapply HS]. Qed.
Lemma changes_lift {A B} (r : result ConnectError A) (k : A → M B) R :
  (∀ a, r = Ok a → changes (k a) R) → changes (lift r ≫= k) R.
Proof. intros Hk w w' b Hrun. unfold mbind, M_bind, lift in Hrun. destruct r as [a|]; [|done]. by eapply Hk. Qed.

Lemma syncCloudflareTunnelDNS_changes hostname tunnelID :
  changes (syncCloudflareTunnelDNS client hostname tunnelID) (λ d d', ∃ z n, location hostname = Some (z, n) ∧
    same_tunnels d d' ∧ cnames (λ l, if decide (l = (z, n)) then Some [CNAME n 0%Z (tunnel_target tunnelID)] else None) d d').
Proof.
  unfold syncCloudflareTunnelDNS, location. apply changes_lift. intros zone Hz.
  destruct (matchingZone _ _) as [z|]; [|done]. injection Hz as ->. set (n := RelativeName _ _).
  apply changes_after; [apply changes_file_io|]. intros _. apply changes_after; [apply changes_yield|]. intros _.
  eapply changes_bind; [|intros _; apply changes_and; [apply ApplyRecordOptions_records|apply ApplyRecordOptions_tunnels]|].
  { apply (changes_call _ (λ d d', same_tunnels d d' ∧
      cnames (λ l, if decide (l = (zone, n)) then Some [CNAME n 0%Z (tunnel_target tunnelID)] else None) d d')).
    intros d d' Hc. split; [intros t; by eapply records_keep_tunnels|]. intros [z0 n0]. unfold cname. cbn.
    rewrite (SetRecords_law _ _ _ _ _ Hc). cbn zeta. rewrite filter_cons, filter_nil. cbn [record_name record_type].
    repeat case_decide; naive_solver. }
  intros d1 d2 d3 [Ht Hc] [Hr Ht']. exists zone, n. split; [done|]. split.
  - intros t. by rewrite Ht', Ht.
  - intros l. specialize (Hc l). unfold cname in *. by rewrite Hr.
Qed.

Lemma deleteCloudflareTunnelDNS_changes hostname tunnelID :
  changes (deleteCloudflareTunnelDNS client hostname tunnelID) (λ d d', ∃ z n, location hostname = Some (z, n) ∧
    same_tunnels d d' ∧ cnames (λ l, if decide (l = (z, n)) then Some [] else None) d d').
Proof.
  unfold deleteCloudflareTunnelDNS, location. apply changes_lift. intros zone Hz.
  destruct (matchingZone _ _) as [z|]; [|done]. injection Hz as ->. set (n := RelativeName _ _).
  apply changes_after; [apply changes_file_io|]. intros _. apply changes_after; [apply changes_yield|]. intros _.
  apply changes_call. intros d d' Hc. exists zone, n. split; [done|]. split; [intros t; by eapply delete_keeps_tunnels|].
  intros [z0 n0]. unfold cname. cbn. rewrite (DeleteRecords_law _ _ _ _ _ _ Hc).
  repeat case_decide; naive_solver.
Qed.

(** The records of a list of services of one tunnel. *)
Lemma each_route_changes tunnelID services :
  changes (M_each (λ _ s, syncCloudflareTunnelDNS client (cft_Hostname (dt_Config s)) tunnelID) () services)
    (λ d d', same_tunnels d d' ∧
      cnames (λ l, if decide (Exists (λ s, route_location s = Some l) services)
                   then Some [CNAME l.2 0%Z (tunnel_target tunnelID)] else None) d d').
Proof.
  induction services as [|s services IH].
  - eapply changes_weaken; [apply changes_ret|]. intros d d' ->. split; [done|]. intros l.
    rewrite decide_False; [done|]. by intros ?%Exists_nil.
  - eapply changes_bind; [apply syncCloudflareTunnelDNS_changes|intros []; exact IH|].
    intros d1 d2 d3 (z & n & Hl & Ht & Hc) [Ht' Hc']. split; [intros t; by rewrite Ht', Ht|].
    intros l. rewrite Hc'. fold (route_location s) in Hl. case_decide as Hex.
    + by rewrite decide_True by (by apply Exists_cons_tl).
    + cbn. rewrite Hc. case_decide as Heq.
      * subst l. by rewrite decide_True by (by apply Exists_cons_hd).
      * rewrite decide_False; [done|]. intros [?|?]%Exists_cons; [|done]. congruence.
Qed.
End records.

(** ** All tunnels *)
Section tunnels.
Context `{DnsState} `{GitState} `{!Environment} `{!DnsNames} `{!DnsService} `{!TunnelService}.
Context (tunnelCfg : ControllerCloudflareTunnelConfig) (client : dnsClient).
Context (routed : list desiredCloudflareTunnelService).

Definition tunnel_rules (name : string) (t : string * string) : list cloudflareTunnelIngress :=
  cloudflareTunnelIngressRules (services_of_tunnel name routed) (fallbackCloudflareTunnelService t).
(** A service of the tunnel has its record there. *)
Definition routes_at (l : string * string) (name : string) : Prop :=
  Exists (λ s, route_location client s = Some l) (services_of_tunnel name routed).
#[local] Instance routes_at_dec l name : Decision (routes_at l name).
Proof. unfold routes_at. apply _. Defined.

Lemma update_tunnel_changes name t :
  changes (update_tunnel (ct_AccountID tunnelCfg) client routed () (name, t)) (λ d d',
    (∀ i, tunnel_ingress d' i = if decide (i = TrimSpace t.1) then tunnel_rules name t else tunnel_ingress d i) ∧
    cnames client (λ l, if decide (routes_at l name) then Some [CNAME l.2 0%Z (tunnel_target t.1)] else None) d d').
Proof.
  apply changes_after; [apply changes_file_io|]. intros _. apply changes_after; [apply changes_yield|]. intros _.
  eapply changes_bind; [apply changes_call; intros d d' Hc; exact (UpdateConfiguration_law _ _ _ _ _ Hc)|
    intros _; apply each_route_changes|].
  intros d1 d2 d3 [Hi Hz] [Ht Hc]. split; [intros i; by rewrite Ht, Hi|].
  intros l. specialize (Hc l). unfold cname in *. rewrite Hc, Hz. done.
Qed.

(** The tunnels have different identifiers. *)
Lemma each_tunnel_changes entries :
  NoDup (TrimSpace ∘ fst ∘ snd <$> entries) →
  changes (M_each (update_tunnel (ct_AccountID tunnelCfg) client routed) () entries) (λ d d',
    (∀ name t, (name, t) ∈ entries → tunnel_ingress d' (TrimSpace t.1) = tunnel_rules name t) ∧
    (∀ i, i ∉ TrimSpace ∘ fst ∘ snd <$> entries → tunnel_ingress d' i = tunnel_ingress d i) ∧
    (∀ l, (∀ e, e ∈ entries → ¬ routes_at l e.1) → cname client d' l = cname client d l) ∧
    (∀ l name t, (name, t) ∈ entries → routes_at l name →
       (∀ e, e ∈ entries → routes_at l e.1 → e.1 = name) → NoDup (fst <$> entries) →
       cname client d' l = [CNAME l.2 0%Z (tunnel_target t.1)])).
Proof.
  induction entries as [|[name0 t0] entries IH]; intros Hnd.
  - eapply changes_weaken; [apply changes_ret|]. intros d d' ->. split_and!; [by intros ?? ?%not_elem_of_nil|done|done|by intros ??? ?%not_elem_of_nil].
  - rewrite fmap_cons, NoDup_cons in Hnd. destruct Hnd as [Hni Hnd].
    eapply changes_bind; [apply update_tunnel_changes|intros []; by apply IH|].
    intros d1 d2 d3 [Hi Hc] (Hin & Hother & Hsame & Hroute). split_and!.
    + intros name t [[= -> ->]|Ht]%elem_of_cons; [|by apply Hin].
      rewrite Hother, Hi by done. by rewrite decide_True.
    + intros i Hno. rewrite fmap_cons, not_elem_of_cons in Hno. destruct Hno as [Hne Hno].
      rewrite Hother, Hi by done. by rewrite decide_False.
    + intros l Hno. rewrite Hsame, Hc by (intros e He; apply Hno; by right). rewrite decide_False; [done|].
      apply (Hno (name0, t0)). by left.
    + intros l name t Ht Hr Huniq Hnames. rewrite fmap_cons, NoDup_cons in Hnames. destruct Hnames as [Hn0 Hnames].
      apply elem_of_cons in Ht as [[= -> ->]|Ht].
      * rewrite Hsame, Hc; [by rewrite decide_True|]. intros e He Hre. apply Hn0.
        assert (e.1 = name0) as <- by (apply Huniq; [by right|done]). by apply (list_elem_of_fmap_2 fst entries e).
      * apply (Hroute l name t Ht Hr); [|done]. intros e He. apply Huniq. by right.
Qed.
End tunnels.

(** ** The services with a running instance *)
Section routing.
Context `{DnsState} `{GitState} `{!Environment} `{!GitCommand}.
Context (Hstore : ∀ n db, env_db n db = db).

Definition runs (db : DB) (s : desiredCloudflareTunnelService) : Prop :=
  match GetServiceSnapshot (svc_Name (dt_Service s)) db with
  | Ok snapshot => 0 < ss_RunningCount snapshot
  | Err _ => False
  end.
#[export] Instance runs_dec db s : Decision (runs db s).
Proof. unfold runs. case_match; apply _. Defined.

Lemma routable_runs s w w' b :
  cloudflareTunnelServiceIsRoutable (svc_Name (dt_Service s)) w = (w', Ok b) →
  b = bool_decide (runs (w_db w) s) ∧ w_db w' = w_db w.
Proof.
  unfold cloudflareTunnelServiceIsRoutable, mbind, M_bind, attempt, store_read, store, call_db, mbind, M_bind. cbn.
  rewrite Hstore. unfold GetServiceSnapshot. destruct (services (w_db w) !! _) as [row|] eqn:Hrow; cbn; intros [= <- <-];
    (split; [|done]); symmetry.
  - apply bool_decide_ext. unfold runs, GetServiceSnapshot. by rewrite Hrow.
  - apply bool_decide_eq_false. unfold runs, GetServiceSnapshot. rewrite Hrow. tauto.
Qed.

Lemma each_routed dir services found w w' r :
  M_each (route_service dir) found services w = (w', Ok r) →
  w_db w' = w_db w ∧ r.1 = found.1 ++ filter (runs (w_db w)) services ∧
  ∀ e, r.2 = Some e → found.2 = Some e ∨ e ∈ services ∧ ¬ runs (w_db w) e.
Proof.
  revert found w. induction services as [|s services IH]; intros found w.
  { intros [-> ->]%each_nil_Ok. rewrite filter_nil, List.app_nil_r. split_and!; [done|done|by left]. }
  intros (w1 & f1 & Hs & Hrest)%each_cons_Ok. apply IH in Hrest as (Hdb & Hr1 & Hr2). clear IH.
  destruct found as [l0 e0]. cbn [route_service] in Hs. apply bind_Ok in Hs as (w2 & b & Hb & Hs).
  apply routable_runs in Hb as [-> Hw2]. rewrite filter_cons.
  assert (w_db w1 = w_db w ∧ ∃ e1, f1 = (if decide (runs (w_db w) s) then l0 ++ [s] else l0, e1) ∧
    (e1 = e0 ∨ e1 = Some s ∧ ¬ runs (w_db w) s)) as (Hw1 & e1 & -> & He1).
  { destruct (decide (runs (w_db w) s)) as [Hrun|Hrun].
    - rewrite (bool_decide_eq_true_2 (runs (w_db w) s)) in Hs by done. rewrite andb_false_r in Hs. injection Hs as <- <-.
      split; [done|]. exists e0. by split; [|left].
    - rewrite (bool_decide_eq_false_2 (runs (w_db w) s)) in Hs by done. rewrite andb_true_r in Hs.
      destruct (_ && _); [injection Hs as <- <-; split; [done|]; exists (Some s); by split; [|right]|].
      apply bind_Ok in Hs as (w3 & [] & Hlog & [= <- <-]). split; [|exists e0; by split; [|left]].
      unfold appendTaskLogRaw_, file_io, mbind, M_bind in Hlog. cbn in Hlog.
      destruct (env_io _); [|done]. injection Hlog as <-. cbn. by rewrite Hstore. }
  rewrite Hw1 in Hdb, Hr1, Hr2. cbn [fst snd] in *. split_and!; [done| |].
  - rewrite Hr1. case_decide; [by rewrite <-List.app_assoc|done].
  - intros e He. destruct (Hr2 e He) as [->|[? ?]]; [|right; split; [by right|done]].
    destruct He1 as [->|[[= ->] ?]]; [by left|right; split; [by left|done]].
Qed.
End routing.

Lemma elem_of_sorted_entries {A} (m : gmap string A) k a : (k, a) ∈ sorted_entries m ↔ m !! k = Some a.
Proof. unfold sorted_entries. by rewrite merge_sort_Permutation, elem_of_map_to_list. Qed.
Lemma NoDup_sorted_entries {A} (m : gmap string A) : NoDup (fst <$> sorted_entries m).
Proof. unfold sorted_entries. rewrite merge_sort_Permutation. apply NoDup_fst_map_to_list. Qed.

(** ** The synchronisation *)
Section synchronised.
Context `{DnsState} `{GitState} `{!Environment} `{!GitCommand} `{!DnsNames} `{!DnsService} `{!TunnelService}.
Context `{MetaDecoder} `{Cron} `{Libraries} `{ParamsJSON}.
Context (cfg : ControllerConfig) (availableNodeIDs : gset string).
Context (sort_services : list desiredCloudflareTunnelService → list desiredCloudflareTunnelService).

Definition db_stays (w w' : World) : Prop := w_db w' = w_db w.
#[local] Instance db_stays_preorder : PreOrder db_stays.
Proof. split; unfold db_stays; [by intros w|]. intros w1 w2 w3 ? ?. congruence. Qed.

Lemma services_at_revision_stays revision w :
  (∀ n db, env_db n db = db) →
  db_stays w (cloudflareTunnelServicesAtRevision cfg availableNodeIDs sort_services revision w).1.
Proof.
  intros Hstore.
  assert (respects db_stays yield_) as Hy by (intros w0; unfold db_stays; cbn; by rewrite Hstore).
  assert (∀ args, respects db_stays (gitOutput args)) as Hgit.
  { intros args. apply respects_bind; [apply _|done|]. intros _ w0. unfold call_git, db_stays.
    by destruct (run_git _ _ _ _ _) as [[]]. }
  revert w. change (respects db_stays (cloudflareTunnelServicesAtRevision cfg availableNodeIDs sort_services revision)).
  unfold cloudflareTunnelServicesAtRevision, ListFilesAtRevision, tunnel_service_at, find_service_at, ReadFileAtRevision.
  repeat first [apply Hgit|respects_step].
Qed.

(** The identifiers of the tunnels differ. *)
Definition distinct_tunnels (tunnelCfg : ControllerCloudflareTunnelConfig) : Prop :=
  ∀ n1 n2 t1 t2, ct_Tunnels tunnelCfg !! n1 = Some t1 → ct_Tunnels tunnelCfg !! n2 = Some t2 →
    TrimSpace t1.1 = TrimSpace t2.1 → n1 = n2.

Lemma distinct_NoDup tunnelCfg :
  distinct_tunnels tunnelCfg → NoDup (TrimSpace ∘ fst ∘ snd <$> sorted_entries (ct_Tunnels tunnelCfg)).
Proof.
  intros Hd. pose proof (NoDup_sorted_entries (ct_Tunnels tunnelCfg)) as Hnd.
  assert (Forall (λ e, ct_Tunnels tunnelCfg !! e.1 = Some e.2) (sorted_entries (ct_Tunnels tunnelCfg))) as Hall.
  { apply Forall_forall. intros [n t] Hn. by apply elem_of_sorted_entries. }
  revert Hnd Hall. generalize (sorted_entries (ct_Tunnels tunnelCfg)) as l. induction l as [|[n t] l IH]; [constructor|].
  rewrite !fmap_cons, !NoDup_cons, Forall_cons. intros [Hn Hnd] [Ht Hall]. split; [|by apply IH].
  intros ([n' t'] & Heq & Hin)%list_elem_of_fmap. rewrite Forall_forall in Hall. pose proof (Hall _ Hin) as Ht'. cbn in *.
  apply Hn. rewrite (Hd n n' t t'); [|done..]. by apply (list_elem_of_fmap_2 fst l (n', t')).
Qed.

(** C28: When a synchronisation succeeds, every configured tunnel has exactly
    the rules of its services that have a running instance, and the fallback;
    and the hostname of such a service points at its tunnel, with one
    exception: when a service of another tunnel, or one that is excluded or has
    no running instance, has the same hostname, nothing is said of the record
    ([excluded_route_removes_shared_record]: it can be gone). *)
Theorem syncCloudflareTunnels_converges tunnelCfg client revision excludedServiceDir w w' :
  (∀ n db, env_db n db = db) → distinct_tunnels tunnelCfg →
  syncCloudflareTunnels cfg availableNodeIDs sort_services tunnelCfg client revision excludedServiceDir w = (w', Ok ()) →
  ∃ services w1, cloudflareTunnelServicesAtRevision cfg availableNodeIDs sort_services revision w = (w1, Ok services) ∧
    let routed := filter (runs (w_db w)) services in
    (∀ name t, ct_Tunnels tunnelCfg !! name = Some t →
       tunnel_ingress (w_dns w') (TrimSpace t.1) =
         (ingress_rule <$> filter (λ s, dt_Tunnel s = name) routed) ++
         [MkIngress "" (fallbackCloudflareTunnelService t) "" None]) ∧
    (∀ s t l, s ∈ routed → ct_Tunnels tunnelCfg !! dt_Tunnel s = Some t → route_location client s = Some l →
       (∀ s', s' ∈ services → route_location client s' = Some l → dt_Tunnel s' = dt_Tunnel s ∧ runs (w_db w) s') →
       zone_records (w_dns w') (cl_provider client) l.1 l.2 "CNAME" = [CNAME l.2 0%Z (tunnel_target t.1)]).
Proof.
  intros Hstore Hd Hrun. unfold syncCloudflareTunnels in Hrun. apply bind_Ok in Hrun as (w1 & services & Hs & Hrun).
  exists services, w1. split; [done|]. pose proof (services_at_revision_stays revision w Hstore) as Hdb.
  rewrite Hs in Hdb. unfold db_stays in Hdb. cbn in Hdb. apply bind_Ok in Hrun as (w2 & [routed excluded] & Hr & Hrun).
  apply each_routed in Hr as (_ & Hrouted & Hex); [|done]. cbn in Hrouted, Hex, Hrun. rewrite Hdb in Hrouted, Hex.
  unfold update_tunnels in Hrun. apply bind_Ok in Hrun as (w3 & [] & Ht & Hrun). subst routed.
  set (routed := filter (runs (w_db w)) services) in *.
  destruct (each_tunnel_changes tunnelCfg client routed _ (distinct_NoDup _ Hd) _ _ _ Ht) as (Hrules & _ & _ & Hroutes).
  assert (same_tunnels (w_dns w3) (w_dns w') ∧ ∀ l, (∀ s', s' ∈ services → route_location client s' = Some l → runs (w_db w) s') →
    cname client (w_dns w') l = cname client (w_dns w3) l) as [Hsame Hkept].
  { destruct excluded as [e|]; [|injection Hrun as ->; done].
    destruct (deleteCloudflareTunnelDNS_changes _ _ _ _ _ _ Hrun) as (z & n & Hl & Hst & Hc). split; [done|].
    intros l Hno. rewrite Hc. rewrite decide_False; [done|]. intros ->.
    destruct (Hex e eq_refl) as [?|[Hin Hnot]]; [done|]. by apply Hnot, (Hno e). }
  split.
  - intros name t Hname. rewrite Hsame. apply Hrules. by apply elem_of_sorted_entries.
  - intros s t l Hin Htun Hl Hall. change (cname client (w_dns w') l = [CNAME l.2 0%Z (tunnel_target t.1)]).
    rewrite Hkept by (intros s' ? ?; by apply Hall).
    apply (Hroutes l (dt_Tunnel s) t); [by apply elem_of_sorted_entries| | |apply NoDup_sorted_entries].
    + apply Exists_exists. exists s. split; [|done]. by apply list_elem_of_filter.
    + intros e _ Hat. apply Exists_exists in Hat as (s' & Hs' & Hl'). apply list_elem_of_filter in Hs' as [<- Hs'].
      apply list_elem_of_filter in Hs' as [_ Hs']. by apply Hall.
Qed.

(** The exception is there: the record of a service that runs is deleted when
    the excluded service has the same hostname, on another path. *)
Theorem excluded_route_removes_shared_record tunnelCfg client routed s e l w w' :
  s ∈ routed → route_location client s = Some l → route_location client e = Some l →
  update_tunnels tunnelCfg client routed (Some e) w = (w', Ok ()) →
  zone_records (w_dns w') (cl_provider client) l.1 l.2 "CNAME" = [].
Proof.
  intros Hs Hl He Hrun. unfold update_tunnels in Hrun. apply bind_Ok in Hrun as (w1 & [] & _ & Hrun).
  destruct (deleteCloudflareTunnelDNS_changes _ _ _ _ _ _ Hrun) as (z & n & Hl' & _ & Hc).
  specialize (Hc l). unfold route_location in He. rewrite He in Hl'. injection Hl' as ->. by rewrite decide_True in Hc.
Qed.
End synchronised.

(** ** A concrete synchronisation *)
Section example.
#[local] Instance tunnel_names : DnsNames := names_example.
(** The records of the providers and the rules of the tunnels. *)
Abbreviation record_map := (gmap (string * string * string * string) (list (@DnsRecord names_example))).
Abbreviation rule_map := (gmap string (list cloudflareTunnelIngress)).
#[local] Instance tunnel_state : DnsState := (record_map * rule_map)%type.
#[local] Instance tunnel_dns : DnsService.
Proof.
  refine {| zone_records s := example_records (fst (s : record_map * rule_map));
            provider_SetRecords p z rs s := ((example_set p z rs (fst (s : record_map * rule_map)), snd (s : record_map * rule_map)), true);
            provider_DeleteRecords p z n t s := ((<[(p, z, n, t) := []]> (fst (s : record_map * rule_map)), snd (s : record_map * rule_map)), true);
            cloudflare_patch _ _ _ _ s := (s, true) |}.
  - intros p z rs s s' [= <-] p' z' n t. apply example_set_law.
  - intros p z n0 t0 s s' [= <-] p' z' n t. unfold example_records. cbn [fst].
    destruct (decide ((p, z, n0, t0) = (p', z', n, t))) as [Heq|Hne].
    + injection Heq as -> -> -> ->. by rewrite lookup_insert_eq, decide_True.
    + rewrite lookup_insert_ne by done. rewrite decide_False; [done|]. intros (-> & -> & -> & ->). by destruct Hne.
  - by intros z f t o s s' b [= <- _].
Defined.
#[local] Instance tunnel_service : TunnelService.
Proof.
  refine {| tunnel_ingress s t := default [] (snd (s : record_map * rule_map) !! t);
            api_UpdateConfiguration _ t rules s :=
              ((fst (s : record_map * rule_map), <[t := rules]> (snd (s : record_map * rule_map))), true) |}.
  - intros account t rules s s' [= <-]. split; [|done]. intros t'. cbn [snd]. case_decide as Ht.
    + subst. by rewrite lookup_insert_eq.
    + by rewrite lookup_insert_ne.
  - by intros p z rs s s' b [= <- _].
  - by intros p z n ty s s' b [= <- _].
  - by intros z f ty o s s' b [= <- _].
Defined.
#[local] Instance tunnel_git_state : GitState := unit.
#[local] Instance tunnel_environment : Environment := {|
  env_now n := Z.of_nat n; env_uuid n := "uuid"; env_io _ := true; env_choice _ := 0; env_db _ db := db;
  env_sync _ s := s; env_images _ t := t; env_tree _ t := t |}.
(** A revision with the metadata files of two services. *)
#[local] Instance tunnel_git : GitCommand.
Proof.
  refine {| run_git _ _ args fs g := (fs, g,
              if decide (head args = Some "ls-tree")
              then Ok ("blog/composia-meta.yaml" +:+ String newline "" +:+ "shop/composia-meta.yaml" +:+ String newline "")
              else Ok (if decide (args = ["show"; "rev:blog/composia-meta.yaml"]) then "blog" else "shop"));
            gitRemoteConfig _ _ _ := [] |}.
  done.
Defined.
Definition tunnel_meta (name : string) : Meta :=
  MkMeta name "" [] None ["main"] None
    (Some (MkNetworkConfig None None (Some (MkCloudflareTunnelConfig "edge" (name +:+ ".example.com") "http://localhost" "" None))))
    None None None None None.
#[local] Instance tunnel_decoder : MetaDecoder := λ content, Ok (tunnel_meta content).
#[local] Instance tunnel_cron : Cron := cron_example.
#[local] Instance tunnel_libraries : Libraries := libraries_example.
Definition tunnel_cfg : ControllerCloudflareTunnelConfig :=
  MkControllerCloudflareTunnelConfig "account" "token" ["example.com"] {["edge" := ("t1", "")]} ∅.
Definition tunnel_controller : ControllerConfig :=
  MkControllerConfig ":8080" "/repo" "/state" "/log" None None None None [] None (Some tunnel_cfg) None None None.
Definition tunnel_client : dnsClient := MkDnsClient "cloudflare" ["example.com."].
(** One of the services has a running instance. *)
Definition tunnel_db : DB :=
  set_service_instances {[("blog", "main") := MkInstanceRow true ServiceRuntimeRunning None 0%Z None None]}
    (set_services {["blog" := MkServiceRow true ServiceRuntimeRunning None 0%Z;
                    "shop" := MkServiceRow true ServiceRuntimeStopped None 0%Z]} empty_db).
Definition tunnel_world : World := MkWorld tunnel_db None empty_images (MkRepoTree ∅ ()) ((∅, ∅) : record_map * rule_map) [] 0.

Lemma syncCloudflareTunnels_converges_witness :
  let w' := (syncCloudflareTunnels tunnel_controller {["main"]} id tunnel_cfg tunnel_client "rev" "" tunnel_world).1 in
  tunnel_ingress (w_dns w') "t1" =
    [MkIngress "blog.example.com" "http://localhost" "" None; MkIngress "" "http_status:404" "" None].
Proof.
  destruct (syncCloudflareTunnels_converges tunnel_controller {["main"]} id tunnel_cfg tunnel_client "rev" "" tunnel_world
    (syncCloudflareTunnels tunnel_controller {["main"]} id tunnel_cfg tunnel_client "rev" "" tunnel_world).1)
    as (services & w1 & Hs & Hrules & _).
  - done.
  - intros n1 n2 t1 t2 H1 H2 _. unfold tunnel_cfg in H1, H2. cbn [ct_Tunnels] in H1, H2. apply lookup_singleton_Some in H1 as [<- _], H2 as [<- _]. done.
  - apply run_ok. by_computation.
  - specialize (Hrules "edge" ("t1", "") eq_refl). cbn zeta. etrans; [exact Hrules|].
    assert (services = match (cloudflareTunnelServicesAtRevision tunnel_controller {["main"]} id "rev" tunnel_world).2 with
                       | Ok services => services | Err _ => [] end) as -> by (by rewrite Hs).
    by_computation.
Defined.
End example.
