(* ===== verification/Migrate.v ===== *)
(** * Migration of a service between nodes
    (src/internal/app/controller/migrate.go, migrate_rollback.go,
    task_service.go)

    A migration stops the service on the source, backs its data up, restores
    and deploys it on the target, moves the DNS records, and waits for a
    confirmation before it rewrites the target nodes in the repository.  Each
    step is recorded, so a task that is run again leaves out what succeeded. *)
From S2P Require Export Proto Dns Tunnel.

Definition hasTaskStepStatus (steps : list StepRecord) (stepName status : string) : bool :=
  existsb (λ step, bool_decide (step_StepName step = stepName ∧ step_Status step = status)) steps.

Definition data_enabled (item : MigrateItem) : bool :=
  negb (bool_decide (mi_Name item = "")) && default true (mi_Enabled item).
Definition enabledMigrateDataNames (service : Service) : list string :=
  match sm_Migrate (svc_Meta service) with
  | None => []
  | Some items => mi_Name <$> filter (λ item, data_enabled item = true) items
  end.

(** The first occurrence of the source is replaced. *)
Fixpoint migrateTargetNodes (nodes : list string) (sourceNodeID targetNodeID : string) : list string :=
  match nodes with
  | [] => []
  | nodeID :: nodes =>
      if decide (nodeID = sourceNodeID) then targetNodeID :: nodes
      else nodeID :: migrateTargetNodes nodes sourceNodeID targetNodeID
  end.

Definition params_data (dir : string) (names : list string) : serviceTaskParams :=
  MkServiceTaskParams dir [] "" names [] "" [] ∅ ∅ false "" "" [] "" "" false false false false.
Definition params_restore (dir : string) (items : list restoreTaskItem) : serviceTaskParams :=
  MkServiceTaskParams dir [] "" [] [] "" [] ∅ ∅ false "" "" items "" "" false false false false.
Definition params_migrate (dir : string) (names : list string) (source target : string) : serviceTaskParams :=
  MkServiceTaskParams dir [] "" names [] "" [] ∅ ∅ false source target [] "" "" false false false false.
Definition params_rollback (dir source target original : string) (rollbackDNS deploySource stopTarget cleanup : bool)
    : serviceTaskParams :=
  MkServiceTaskParams dir [] "" [] [] "" [] ∅ ∅ false source target [] "" original
    rollbackDNS deploySource stopTarget cleanup.
Definition set_restore_items (items : list restoreTaskItem) (p : serviceTaskParams) : serviceTaskParams :=
  MkServiceTaskParams (tp_ServiceDir p) (tp_ServiceDirs p) (tp_ExcludedServiceDir p) (tp_DataNames p)
    (tp_ImageNames p) (tp_ImageCheckBatchID p) (tp_SemverAllow p) (tp_ForgeCandidates p)
    (tp_ForgeCandidateSources p) (tp_FullRebuild p) (tp_SourceNodeID p) (tp_TargetNodeID p) items
    (tp_ComposeRecreateMode p) (tp_OriginalMigrateTaskID p) (tp_RollbackDNS p) (tp_DeploySource p)
    (tp_StopTarget p) (tp_CleanupTarget p).

Section migrate.
Context `{DnsState} `{GitState} `{!Environment} `{!GitCommand} `{!DnsNames} `{!DnsService}.
Context `{Disk} `{MetaDecoder} `{Cron} `{Libraries} `{Secrets} `{SQLite} `{ParamsJSON} `{MetaDocuments}.
Context (cfg : ControllerConfig) (availableNodeIDs : gset string).

(** ** MigrateService *)
Definition attempt_of_record (taskID taskType source triggeredBy serviceName paramsJSON repoRevision attemptOf : string)
    : TaskRecord :=
  new_record cfg taskID taskType source triggeredBy serviceName "" paramsJSON repoRevision attemptOf "" Time.zero.

Definition MigrateService (ctx : Context_) (source serviceName sourceNodeID targetNodeID : string) : M TaskRecord :=
  if decide (serviceName = "" ∨ sourceNodeID = "" ∨ targetNodeID = "")
  then fail (NewError CodeInvalidArgument "service_name, source_node_id, and target_node_id are required")
  else if decide (sourceNodeID = targetNodeID)
  then fail (NewError CodeInvalidArgument "source_node_id and target_node_id must differ")
  else
    t ← tree;
    service ← lift (with_code CodeNotFound (FindService (cc_RepoDir cfg) (rt_entries t) availableNodeIDs serviceName));
    if decide (sourceNodeID ∉ svc_TargetNodes service)
    then fail (NewError CodeFailedPrecondition "service is not declared on source node")
    else if decide (targetNodeID ∈ svc_TargetNodes service)
    then fail (NewError CodeFailedPrecondition "service is already declared on target node")
    else
      _ ← validateTaskTargetNode cfg sourceNodeID TypeBackup;
      _ ← validateTaskTargetNode cfg targetNodeID TypeRestore;
      repoRevision ← recode CodeFailedPrecondition CurrentRevision;
      serviceDir ← service_dir cfg service;
      taskID ← new_uuid;
      record ← create connectTaskAdmissionError
        (λ uuid now record, CreateTaskWithConstraints uuid now record
           (MkTaskAdmissionConstraints true
              [MkServiceInstanceTarget (svc_Name service) sourceNodeID;
               MkServiceInstanceTarget (svc_Name service) targetNodeID]
              [MkServiceInstanceTarget (svc_Name service) targetNodeID]))
        (attempt_of_record taskID TypeMigrate source (default "" (BearerSubject ctx)) (svc_Name service)
           (marshal_params (params_migrate serviceDir (enabledMigrateDataNames service) sourceNodeID targetNodeID))
           repoRevision "");
      _ ← create_log_file;
      mret record.

(** ** The steps of a migration *)
Definition createRestoreTask (serviceName nodeID repoRevision : string) (params : serviceTaskParams) (source : string)
    : M TaskRecord :=
  _ ← validateTaskTargetNode cfg nodeID TypeRestore;
  taskID ← new_uuid;
  record ← create connectTaskAdmissionError create_instance_task
    (new_record cfg taskID TypeRestore source "" serviceName nodeID (marshal_params params) repoRevision "" ""
       Time.zero);
  _ ← create_log_file;
  mret record.

(** Start a task on an instance and wait for it. *)
Definition run_instance_task (record : TaskRecord) (nodeID taskType : string) (params : serviceTaskParams) (timeout : Z)
    : M TaskRecord :=
  created ← createServiceInstanceTask cfg (rec_ServiceName record) nodeID taskType params (rec_RepoRevision record)
              (rec_Source record);
  _ ← waitTask (rec_TaskID created) timeout;
  mret created.
Definition stop_on (record : TaskRecord) (params : serviceTaskParams) (nodeID : string) : M () :=
  _ ← run_instance_task record nodeID TypeStop (params_of_dir (tp_ServiceDir params)) (5 * Time.Minute)%Z; mret ().
Definition reload_caddy (record : TaskRecord) (service : Service) (nodeID : string) : M () :=
  if CaddyManaged service then
    reloadTask ← createNodeCaddyReloadTask cfg availableNodeIDs None nodeID (rec_Source record) "";
    waitTask (rec_TaskID reloadTask) (2 * Time.Minute)%Z
  else mret ().
Definition run_and_reload (record : TaskRecord) (params : serviceTaskParams) (service : Service)
    (nodeID taskType : string) : M () :=
  _ ← run_instance_task record nodeID taskType (params_of_dir (tp_ServiceDir params)) (5 * Time.Minute)%Z;
  reload_caddy record service nodeID.

(** The artifact of each data name, from the backups of the task. *)
Definition backups_by_name (backups : list BackupDetail) : gmap string BackupDetail :=
  foldl (λ byName backup,
           if decide (bd_Status backup = StatusSucceeded) then <[bd_DataName backup := backup]> byName else byName)
    ∅ backups.
Definition restore_item (byName : gmap string BackupDetail) (items : list restoreTaskItem) (dataName : string)
    : result string (list restoreTaskItem) :=
  match byName !! dataName with
  | None => Err "backup artifact was not recorded"
  | Some backup =>
      if decide (bd_ArtifactRef backup = "") then Err "backup artifact was not recorded"
      else Ok (items ++ [MkRestoreTaskItem dataName (bd_ArtifactRef backup) (bd_TaskID backup)])
  end.
Definition backup_source (record : TaskRecord) (params : serviceTaskParams) : M (list restoreTaskItem) :=
  backupTask ← run_instance_task record (tp_SourceNodeID params) TypeBackup
                 (params_data (tp_ServiceDir params) (tp_DataNames params)) (10 * Time.Minute)%Z;
  backups ← store_read plain (λ db, Ok (ListBackupsForTask (rec_TaskID backupTask) db));
  items ← lift (with_code CodeUnknown
            (for_each (restore_item (backups_by_name backups)) (tp_RestoreItems params) (tp_DataNames params)));
  _ ← store_write plain (UpdateTaskParamsJSON (rec_TaskID record) (marshal_params (set_restore_items items params)));
  _ ← appendTaskLogRaw_;
  mret items.
Definition restore_target (record : TaskRecord) (params : serviceTaskParams) (items : list restoreTaskItem) : M () :=
  restoreTask ← createRestoreTask (rec_ServiceName record) (tp_TargetNodeID params) (rec_RepoRevision record)
                  (params_restore (tp_ServiceDir params) items) (rec_Source record);
  waitTask (rec_TaskID restoreTask) (10 * Time.Minute)%Z.

Definition set_target_nodes (nodes : list string) (service : Service) : Service :=
  MkService (svc_Name service) (svc_Directory service) (svc_MetaPath service) nodes (svc_Enabled service)
    (svc_Meta service).
Definition declares_dns (service : Service) : bool :=
  match sm_Network (svc_Meta service) ≫= net_DNS with
  | None => false
  | Some dns => negb (bool_decide (Entries (Some dns) = []))
  end.
Definition migrated_nodes (params : serviceTaskParams) (service : Service) : list string :=
  migrateTargetNodes (svc_TargetNodes service) (tp_SourceNodeID params) (tp_TargetNodeID params).
Definition move_dns (params : serviceTaskParams) (service : Service) : M () :=
  syncServiceDNSForService cfg (set_target_nodes (migrated_nodes params service) service).

Definition enterMigrateAwaitingConfirmation (record : TaskRecord) : M () :=
  startedAt ← now;
  _ ← upsert_step record StepAwaitingConfirmation StatusAwaitingConfirmation (Some startedAt) None;
  _ ← appendTaskLogRaw_;
  _ ← store_write plain (TransitionTaskStatus (rec_TaskID record) StatusRunning StatusAwaitingConfirmation "");
  _ ← emit EvAwaiting;
  emit (EvNotified EventTaskAwaitingConfirmation).

(** [repo.RewriteServiceTargetNodes] on a metadata file of the repository. *)
Definition rewrite_file (fs : FS) (path : list string) (nodes : list string) : result string string :=
  match ReadContent fs path with
  | None => Err "read service meta"
  | Some content =>
      result_bind (RewriteServiceTargetNodes doc_zero (decode_meta content) (parse_document content) nodes
                     availableNodeIDs) print_document
  end.
Definition meta_components (service : Service) : list string := [Base (svc_Directory service); MetaFileName].

Definition persistMigratedTargetNodes (record : TaskRecord) (service : Service) (params : serviceTaskParams) : M () :=
  t ← tree;
  currentService ← lift (with_code CodeUnknown
    (FindService (cc_RepoDir cfg) (rt_entries t) availableNodeIDs (svc_Name service)));
  t ← tree;
  updatedContent ← lift (with_code CodeUnknown
    (rewrite_file (rt_files t) (meta_components currentService) (migrated_nodes params service)));
  relativeMetaPath ← lift (with_code CodeUnknown (Rel (cc_RepoDir cfg) (svc_MetaPath currentService)));
  _ ← syncRepoBeforeWrite cfg;
  _ ← verifyRepoWriteBaseRevision (rec_RepoRevision record);
  _ ← ensureCleanWorktree;
  _ ← updateRepoFileTransaction cfg availableNodeIDs relativeMetaPath updatedContent
        ("migrate " +:+ svc_Name service +:+ " from " +:+ tp_SourceNodeID params +:+ " to " +:+
         tp_TargetNodeID params) (MkRepoSyncState "" "" None);
  emit (EvPersist (migrated_nodes params service)).

Definition executeMigrateTask (record : TaskRecord) : M () :=
  or_fail record StepFinalize (lift (with_code CodeUnknown (taskParams (rec_ParamsJSON record)))) (λ params,
  if decide (tp_ServiceDir params = "" ∨ tp_SourceNodeID params = "" ∨ tp_TargetNodeID params = "")
  then failControllerTask record StepFinalize (NewError CodeUnknown "migrate task is missing fields")
  else
    or_fail record StepFinalize (store_read plain (GetTask (rec_TaskID record))) (λ detail,
    let stepSucceeded name := hasTaskStepStatus (td_Steps detail) name StatusSucceeded in
    or_fail record StepFinalize appendTaskLogRaw_ (λ _,
    or_fail record StepFinalize
      (find_service_at cfg availableNodeIDs (rec_RepoRevision record) (tp_ServiceDir params)) (λ service,
    step_or_skip record (stepSucceeded StepComposeDown) StepComposeDown ()
      (stop_on record params (tp_SourceNodeID params)) (λ _,
    step_or_skip record (bool_decide (tp_DataNames params = []) || stepSucceeded StepBackup) StepBackup
      (tp_RestoreItems params) (backup_source record params) (λ restoreItems,
    step_or_skip record (bool_decide (restoreItems = []) || stepSucceeded StepRestore) StepRestore ()
      (restore_target record params restoreItems) (λ _,
    step_or_skip record (stepSucceeded StepComposeUp) StepComposeUp ()
      (run_and_reload record params service (tp_TargetNodeID params) TypeDeploy) (λ _,
    step_or_skip record (negb (declares_dns service) || stepSucceeded StepDNSUpdate) StepDNSUpdate ()
      (move_dns params service) (λ _,
    if negb (stepSucceeded StepAwaitingConfirmation)
    then or_fail record StepAwaitingConfirmation (enterMigrateAwaitingConfirmation record) mret
    else
      step_or_skip record (stepSucceeded StepPersistRepo) StepPersistRepo ()
        (persistMigratedTargetNodes record service params) (λ _,
      finalize_task record)))))))))).

(** ** Rollback (migrate_rollback.go) *)
Definition restore_dns (service : Service) : M () :=
  if negb (declares_dns service) then fail (NewError CodeUnknown "service does not declare network.dns")
  else syncServiceDNSForService cfg service.

Definition executeMigrateRollbackTask (record : TaskRecord) : M () :=
  or_fail record StepFinalize (lift (with_code CodeUnknown (taskParams (rec_ParamsJSON record)))) (λ params,
  if decide (tp_ServiceDir params = "" ∨ tp_SourceNodeID params = "" ∨ tp_TargetNodeID params = "" ∨
             tp_OriginalMigrateTaskID params = "")
  then failControllerTask record StepFinalize (NewError CodeUnknown "migrate rollback task is missing fields")
  else
    or_fail record StepFinalize
      (find_service_at cfg availableNodeIDs (rec_RepoRevision record) (tp_ServiceDir params)) (λ service,
    or_fail record StepFinalize appendTaskLogRaw_ (λ _,
    step_or_skip record (negb (tp_RollbackDNS params)) StepDNSUpdate () (restore_dns service) (λ _,
    step_or_skip record (negb (tp_DeploySource params)) StepComposeUp ()
      (run_and_reload record params service (tp_SourceNodeID params) TypeDeploy) (λ _,
    step_or_skip record (negb (tp_StopTarget params)) StepComposeDown ()
      (run_and_reload record params service (tp_TargetNodeID params) TypeStop) (λ _,
    finalize_task record)))))).

Definition validateMigrationRollbackActions (rollbackDNS deploySource stopTarget : bool) (detail : TaskDetail)
    : result ConnectError () :=
  let stepSucceeded name := hasTaskStepStatus (td_Steps detail) name StatusSucceeded in
  if rollbackDNS && negb (stepSucceeded StepDNSUpdate)
  then Err (NewError CodeFailedPrecondition "rollback_dns requires a succeeded dns_update step")
  else if deploySource && negb (stepSucceeded StepComposeDown)
  then Err (NewError CodeFailedPrecondition "deploy_source requires a succeeded compose_down step")
  else if stopTarget && negb (stepSucceeded StepComposeUp)
  then Err (NewError CodeFailedPrecondition "stop_target requires a succeeded compose_up step")
  else Ok ().

(** The start of the step, when it has one (task_params.go). *)
Definition findTaskStepStartedAt (steps : list StepRecord) (stepName : string) : option Time.time :=
  head (omap (λ step, if decide (step_StepName step = stepName) then step_StartedAt step else None) steps).

(** [connect.NewError] for a task read by its identifier. *)
Definition read_task_error (e : StoreError) : ConnectError :=
  match e with ErrTaskNotFound => StoreFailed CodeNotFound e | _ => StoreFailed CodeInternal e end.
Definition as_internal {A} (m : M A) : M A := recode CodeInternal m.

Definition cancelAwaitingMigrationForRollback (detail : TaskDetail) : M () :=
  let record := td_Record detail in
  finishedAt ← now;
  _ ← as_internal appendTaskLogRaw_;
  _ ← as_internal (upsert_step record StepAwaitingConfirmation StatusCancelled
        (findTaskStepStartedAt (td_Steps detail) StepAwaitingConfirmation) (Some finishedAt));
  _ ← as_internal (complete_task record StatusCancelled finishedAt "migration rollback requested");
  emit (EvNotified EventTaskCancelled).

Definition rollback_eligible (status : string) : bool :=
  bool_decide (status ∈ [StatusAwaitingConfirmation; StatusCancelled; StatusFailed]).
Definition CreateMigrationRollback (ctx : Context_) (source taskID : string)
    (rollbackDNS deploySource stopTarget cleanupTarget : bool) : M TaskRecord :=
  if decide (taskID = "") then fail (NewError CodeInvalidArgument "task_id is required")
  else if cleanupTarget then fail (NewError CodeUnimplemented "cleanup_target is not implemented yet")
  else if negb rollbackDNS && negb deploySource && negb stopTarget
  then fail (NewError CodeInvalidArgument "at least one rollback action is required")
  else
    detail ← store_read read_task_error (GetTask taskID);
    let record := td_Record detail in
    if decide (rec_Type record ≠ TypeMigrate)
    then fail (NewError CodeFailedPrecondition "task type does not support migration rollback")
    else if negb (rollback_eligible (rec_Status record))
    then fail (NewError CodeFailedPrecondition "task is not eligible for rollback")
    else
      params ← lift (with_code CodeInternal (taskParams (rec_ParamsJSON record)));
      if decide (tp_ServiceDir params = "" ∨ tp_SourceNodeID params = "" ∨ tp_TargetNodeID params = "")
      then fail (NewError CodeFailedPrecondition "migrate task is missing service_dir or source/target node ids")
      else
        _ ← lift (validateMigrationRollbackActions rollbackDNS deploySource stopTarget detail);
        _ ← (if decide (rec_Status record = StatusAwaitingConfirmation)
             then cancelAwaitingMigrationForRollback detail else mret ());
        newID ← new_uuid;
        created ← create connectTaskAdmissionError
          (λ uuid now record, CreateTaskWithConstraints uuid now record (MkTaskAdmissionConstraints true [] []))
          (attempt_of_record newID TypeMigrateRollback source (default "" (BearerSubject ctx)) (rec_ServiceName record)
             (marshal_params (params_rollback (tp_ServiceDir params) (tp_SourceNodeID params) (tp_TargetNodeID params)
                (rec_TaskID record) rollbackDNS deploySource stopTarget cleanupTarget))
             (rec_RepoRevision record) (rec_TaskID record));
        _ ← create_log_file;
        mret created.

(** ** The confirmation (task_service.go) *)
Definition ResolveTaskConfirmation (taskID : string) (decision : TaskConfirmationDecision) (comment : string)
    : M string :=
  let decision := ControllerProto.taskConfirmationDecisionFromProto decision in
  if decide (taskID = "") then fail (NewError CodeInvalidArgument "task_id is required")
  else if decide (decision ≠ ControllerProto.confirmationDecisionApprove ∧ decision ≠ ControllerProto.confirmationDecisionReject)
  then fail (NewError CodeInvalidArgument "decision must be approve or reject")
  else
    detail ← store_read read_task_error (GetTask taskID);
    let record := td_Record detail in
    if decide (rec_Type record ≠ TypeMigrate)
    then fail (NewError CodeFailedPrecondition "task type does not support confirmation resolution")
    else if decide (rec_Status record ≠ StatusAwaitingConfirmation)
    then fail (NewError CodeFailedPrecondition "task is not awaiting confirmation")
    else
      let comment := TrimSpace comment in
      let rejected := bool_decide (decision = ControllerProto.confirmationDecisionReject) in
      _ ← as_internal appendTaskLogRaw_;
      finishedAt ← now;
      _ ← as_internal (upsert_step record StepAwaitingConfirmation
            (if rejected then StatusCancelled else StatusSucceeded)
            (findTaskStepStartedAt (td_Steps detail) StepAwaitingConfirmation) (Some finishedAt));
      if negb rejected then
        _ ← as_internal (store_write plain
              (TransitionTaskStatus (rec_TaskID record) StatusAwaitingConfirmation StatusPending ""));
        mret StatusPending
      else
        _ ← as_internal (complete_task record StatusCancelled finishedAt
              (if decide (comment = "") then "manual verification rejected"
               else "manual verification rejected: " +:+ comment));
        _ ← emit (EvNotified EventTaskCancelled);
        mret StatusCancelled.

(** The operator gives a task up whose lease was lost. *)
Definition FailLostTaskExecution_handler (taskID errorSummary : string) : M () :=
  if decide (taskID = "") then fail (NewError CodeInvalidArgument "task_id is required")
  else
    detail ← store_read (StoreFailed CodeNotFound) (GetTask taskID);
    let record := td_Record detail in
    if decide (rec_Status record ≠ StatusRunning ∨ rec_ExecutionState record ≠ ExecutionLeaseLost)
    then fail (NewError CodeFailedPrecondition "task execution lease is not lost")
    else
      let summary := if decide (TrimSpace errorSummary = "")
                     then "task execution lease was lost; outcome requires reconciliation"
                     else TrimSpace errorSummary in
      finishedAt ← now;
      uuid ← new_uuid;
      store_write (λ e, match e with
                        | ErrTaskExecutionMismatch => StoreFailed CodeFailedPrecondition e
                        | _ => StoreFailed CodeInternal e
                        end) (FailLostTaskExecution uuid (rec_TaskID record) finishedAt summary).
End migrate.

(** ** The worker (dns.go) *)
Section worker_loop.
Context `{DnsState} `{GitState} `{!Environment} `{!GitCommand} `{!DnsNames} `{!DnsService} `{!TunnelService}.
Context `{Disk} `{MetaDecoder} `{Cron} `{Libraries} `{Secrets} `{SQLite} `{ParamsJSON} `{MetaDocuments}.
Context (cfg : ControllerConfig) (availableNodeIDs : gset string).
Context (sort_services : list desiredCloudflareTunnelService → list desiredCloudflareTunnelService).

(** The switch on the type of the claimed task. *)
Definition execute_claimed (record : TaskRecord) : M () :=
  if decide (rec_Type record = TypeDNSUpdate) then executeDNSUpdateTask cfg availableNodeIDs record
  else if decide (rec_Type record = TypeCloudflareTunnelSync)
  then executeCloudflareTunnelSyncTask cfg availableNodeIDs sort_services record
  else if decide (rec_Type record = TypeMigrate) then executeMigrateTask cfg availableNodeIDs record
  else if decide (rec_Type record = TypeMigrateRollback) then executeMigrateRollbackTask cfg availableNodeIDs record
  else t ← now; complete_task record StatusFailed t "controller task type is not implemented".

Definition controller_types : list string :=
  [TypeDNSUpdate; TypeCloudflareTunnelSync; TypeMigrate; TypeMigrateRollback].
Fixpoint claim_and_run (types : list string) : M () :=
  match types with
  | [] => fail (plain ErrNoPendingTask)
  | taskType :: types =>
      t ← now;
      claimed ← attempt (store plain (ClaimNextPendingTaskOfType taskType t));
      match claimed with
      | Err (StoreFailed _ ErrNoPendingTask) => claim_and_run types
      | Err e => fail e
      | Ok record => execute_claimed record
      end
  end.
Definition runNextPendingTask : M () := claim_and_run controller_types.
End worker_loop.

(** [requestTaskSource]: the source a client names in its header. *)
Definition requestTaskSource (header : string) : string :=
  let source := ToLower (TrimSpace header) in
  if decide (source ∈ [SourceWeb; SourceOthers; SourceSchedule; SourceSystem]) then source else SourceCLI.
