(* ===== verification/MigrateTheorems.v ===== *)
(** * A migration follows its plan

    Stop the source, save its data, restore and deploy on the target, move the
    DNS records; then wait for the confirmation, and only after it rewrite
    the target nodes in the repository.  A task that is run again leaves out
    the steps it has done. *)
From S2P Require Export Migrate Plans.

(** ** Creating tasks *)
Section creating.
Context `{DnsState} `{GitState} `{!Environment} `{!GitCommand}.
Context `{Disk} `{MetaDecoder} `{Cron} `{Libraries} `{SQLite} `{ParamsJSON}.
Context (cfg : ControllerConfig) (availableNodeIDs : gset string).

Lemma create_does wrap call record : does (create wrap call record) [EvCreated (rec_Type record) (rec_NodeID record)].
Proof.
  unfold create. do 3 (apply emits_then; [by respects_trace|intros ?]).
  eapply emits_after; [by apply does_emit|]. intros _ _. by apply emits_ret.
Qed.
Lemma create_log_file_quiet : respects quiet create_log_file.
Proof. unfold create_log_file. by respects_trace. Qed.
Lemma validateTaskTargetNode_quiet nodeID taskType : respects quiet (validateTaskTargetNode cfg nodeID taskType).
Proof. unfold validateTaskTargetNode. by respects_trace. Qed.

Lemma createServiceInstanceTask_does serviceName nodeID taskType params revision source :
  does (createServiceInstanceTask cfg serviceName nodeID taskType params revision source) [EvCreated taskType nodeID].
Proof.
  unfold createServiceInstanceTask. repeat (case_decide; [apply emits_fail|]).
  apply emits_then; [apply validateTaskTargetNode_quiet|]. intros _. apply emits_then; [by respects_trace|]. intros taskID.
  eapply emits_after; [apply create_does|]. intros record _. apply does_quiet.
  apply respects_bind; [apply _|apply create_log_file_quiet|]. by respects_trace.
Qed.

Lemma createRestoreTask_does serviceName nodeID revision params source :
  does (createRestoreTask cfg serviceName nodeID revision params source) [EvCreated TypeRestore nodeID].
Proof.
  unfold createRestoreTask. apply emits_then; [apply validateTaskTargetNode_quiet|]. intros _.
  apply emits_then; [by respects_trace|]. intros taskID. eapply emits_after; [apply create_does|]. intros record _.
  apply does_quiet. apply respects_bind; [apply _|apply create_log_file_quiet|]. by respects_trace.
Qed.

(** Without a dedupe key no task is taken for a duplicate. *)
Lemma result_bind_Err {E A B} (m : result E A) (k : A → result E B) e :
  result_bind m k = Err e ↔ m = Err e ∨ ∃ a, m = Ok a ∧ k a = Err e.
Proof. destruct m; cbn; naive_solver. Qed.

Lemma create_instance_task_not_duplicate uuid t record db key :
  rec_DedupeKey record = "" → create_instance_task uuid t record db ≠ Err (DuplicateTaskError key).
Proof.
  intros Hkey Herr. unfold create_instance_task, CreateTaskIfNoActiveServiceInstanceTask in Herr.
  apply result_bind_Err in Herr as [Herr|([db' r] & _ & Herr)]; [|by destruct r].
  apply result_bind_Err in Herr as [Herr|([db' r] & _ & Herr)]; [|done].
  unfold CreateTasksIfNoActiveServiceInstanceTasks in Herr. case_decide; [done|].
  apply result_bind_Err in Herr as [Herr|(prepared & Hprep & Herr)].
  { cbn [for_each] in Herr. apply result_bind_Err in Herr as [Herr|(? & _ & Herr)]; [|done].
    unfold prepare_batch_entry in Herr. repeat (case_decide; [done|]).
    apply result_bind_Err in Herr as [Herr|(? & _ & Herr)]; [|by case_decide].
    unfold prepareTaskRecord in Herr. by repeat (case_decide; [done|]). }
  assert (Forall (λ r, rec_DedupeKey r = "") prepared) as Hall.
  { cbn [for_each] in Hprep. apply result_bind_Ok in Hprep as (l & Hl & [= <-]).
    unfold prepare_batch_entry in Hl. repeat (case_decide; [done|]).
    apply result_bind_Ok in Hl as (p & Hp & Hl). case_decide; [done|]. injection Hl as <-. cbn. apply Forall_singleton.
    unfold prepareTaskRecord in Hp. repeat (case_decide; [done|]). by simplify_eq/=. }
  clear Hprep. apply result_bind_Err in Herr as [Herr|(db1 & _ & Herr)].
  { revert Herr. generalize (instance_key <$> prepared) as keys. intros keys. revert db.
    induction keys as [|k keys IH]; intros db; cbn [for_each]; [done|].
    destruct (hasActiveServiceInstanceTask _ _ _); cbn; [done|apply IH]. }
  apply result_bind_Err in Herr as [Herr|(? & _ & Herr)]; [|done].
  revert db1 Herr. induction Hall as [|r prepared Hr Hall IH]; intros db1; cbn [for_each]; [done|].
  intros [Herr|(db2 & _ & Herr)]%result_bind_Err; [|by eapply IH].
  unfold insertTaskRecord in Herr. destruct (insert_violation _ _ _) as [v|]; [|done]. injection Herr as Herr.
  unfold insert_error in Herr. rewrite decide_False in Herr by (by intros [? _]).
  destruct (isSQLiteUniqueConstraintError v); by repeat case_decide.
Qed.
Lemma create_not_duplicate record w w' code key :
  rec_DedupeKey record = "" → create plain create_instance_task record w ≠ (w', Err (StoreFailed code (DuplicateTaskError key))).
Proof.
  intros Hkey. unfold create, new_uuid, now, store, call_db, mbind, M_bind. cbn.
  destruct (create_instance_task _ _ _ _) as [[db r]|e] eqn:Hc; cbn; [done|]. intros [= _ _ ->].
  by apply create_instance_task_not_duplicate in Hc.
Qed.
End creating.

(** ** The steps *)
Section steps.
Context `{DnsState} `{GitState} `{!Environment} `{!GitCommand} `{!DnsNames} `{!DnsService}.
Context `{Disk} `{MetaDecoder} `{Cron} `{Libraries} `{Secrets} `{SQLite} `{ParamsJSON} `{MetaDocuments}.
Context (cfg : ControllerConfig) (availableNodeIDs : gset string).

Lemma createNodeCaddyReloadTask_does ctx nodeID source :
  does (createNodeCaddyReloadTask cfg availableNodeIDs ctx nodeID source "") [EvCreated TypeCaddyReload nodeID].
Proof.
  unfold createNodeCaddyReloadTask. case_decide; [apply emits_fail|].
  apply emits_then; [apply validateTaskTargetNode_quiet|]. intros _.
  do 4 (apply emits_then; [by unfold service_dir; respects_trace|intros ?]).
  set (record := new_record _ _ _ _ _ _ _ _ _ _ _ _). intros w. unfold mbind, M_bind, attempt.
  pose proof (create_does plain create_instance_task record w) as Hc.
  destruct (create plain create_instance_task record w) as [w1 [r|e]] eqn:Hr; cbn.
  - destruct Hc as [Hc _]. pose proof (create_log_file_quiet w1) as Hq. unfold quiet in Hq.
    unfold mbind, M_bind. destruct (create_log_file w1) as [w2 [[]|e]]; cbn in *; rewrite Hq; [by rewrite Hc|].
    exists 1. by rewrite Hc.
  - unfold mbind, M_bind. cbn. destruct e as [code message|code e]; [done|].
    destruct e; try done. exfalso. unfold create in Hr.
    apply create_not_duplicate in Hr; done.
Qed.

Definition ran (taskType nodeID : string) : list Event := [EvCreated taskType nodeID; EvWaited].

Lemma run_instance_task_does record nodeID taskType params timeout :
  does (run_instance_task cfg record nodeID taskType params timeout) (ran taskType nodeID).
Proof.
  unfold run_instance_task. eapply (emits_bind _ _ [EvCreated taskType nodeID] [EvWaited]);
    [apply createServiceInstanceTask_does|]. intros created _.
  eapply emits_after; [apply wait_does|]. intros _ _. by apply emits_ret.
Qed.
Lemma stop_on_does record params nodeID : does (stop_on cfg record params nodeID) (ran TypeStop nodeID).
Proof. unfold stop_on. eapply emits_after; [apply run_instance_task_does|]. intros _ _. by apply emits_ret. Qed.

Definition caddy_ran (service : Service) (nodeID : string) : list Event :=
  unless (negb (CaddyManaged service)) (ran TypeCaddyReload nodeID).
Lemma run_and_reload_does record params service nodeID taskType :
  does (run_and_reload cfg availableNodeIDs record params service nodeID taskType)
    (ran taskType nodeID ++ caddy_ran service nodeID).
Proof.
  unfold run_and_reload. eapply emits_bind; [apply run_instance_task_does|]. intros _ _.
  unfold reload_caddy, caddy_ran. destruct (CaddyManaged service); [|by apply emits_ret].
  eapply (emits_bind _ _ [EvCreated TypeCaddyReload nodeID] [EvWaited]); [apply createNodeCaddyReloadTask_does|].
  intros r _. apply wait_does.
Qed.

Lemma restore_items_nonempty byName items names items' :
  for_each (restore_item byName) items names = Ok items' → items' = [] → items = [] ∧ names = [].
Proof.
  revert items. induction names as [|n names IH]; intros items; cbn [for_each]; [by intros [= <-]|].
  intros (l & Hl & Hr)%result_bind_Ok Hnil. apply IH in Hr as [-> _]; [|done].
  unfold restore_item in Hl. destruct (byName !! n); [|done]. case_decide; [done|]. by destruct items.
Qed.
Lemma backup_source_emits record params :
  emits (backup_source cfg record params) (ran TypeBackup (tp_SourceNodeID params))
    (λ items, items = [] → tp_RestoreItems params = [] ∧ tp_DataNames params = []).
Proof.
  unfold backup_source. eapply emits_after; [apply run_instance_task_does|]. intros backupTask _.
  apply emits_then; [by respects_trace|]. intros backups.
  eapply (emits_bind (lift _) _ [] []); [apply (emits_quiet _ (λ items, items = [] → tp_RestoreItems params = [] ∧ tp_DataNames params = []));
    [by respects_trace|]|].
  - intros w w' items Hl. unfold lift in Hl. injection Hl as _ Hl.
    destruct (for_each (restore_item (backups_by_name backups)) (tp_RestoreItems params) (tp_DataNames params)) as [l|] eqn:He; [|done].
    injection Hl as <-. by apply (restore_items_nonempty _ _ _ _ He).
  - intros items Hitems. do 2 (apply emits_then; [by respects_trace|intros _]). by apply emits_ret.
Qed.
Lemma restore_target_does record params items :
  does (restore_target cfg record params items) (ran TypeRestore (tp_TargetNodeID params)).
Proof.
  unfold restore_target. eapply (emits_bind _ _ [EvCreated TypeRestore _] [EvWaited]); [apply createRestoreTask_does|].
  intros r _. apply wait_does.
Qed.

Lemma syncServiceDNSForService_does service :
  does (syncServiceDNSForService cfg service) [EvDNS (svc_TargetNodes service)].
Proof.
  unfold syncServiceDNSForService. destruct (_ ≫= _) as [dns|]; [|apply emits_fail]. cbv zeta.
  case_decide; [apply emits_fail|]. apply emits_then.
  { apply respects_each; [apply _|]. intros s x. unfold collect_desired. by respects_trace. }
  intros desired. apply emits_then; [|intros _; by apply does_emit].
  apply respects_each; [apply _|]. intros [] [provider [client l]]. unfold sync_provider, syncServiceDNSBatch.
  apply respects_each; [apply _|]. intros [] [key aggregate]. unfold sync_aggregate, delete_stale, write_records, ApplyRecordOptions.
  by respects_trace.
Qed.

Lemma enterMigrateAwaitingConfirmation_does record :
  does (enterMigrateAwaitingConfirmation record) [EvAwaiting; EvNotified EventTaskAwaitingConfirmation].
Proof.
  unfold enterMigrateAwaitingConfirmation, upsert_step. do 4 (apply emits_then; [by respects_trace|intros ?]).
  eapply (emits_bind _ _ [EvAwaiting] [_]); [by apply does_emit|]. intros _ _. by apply does_emit.
Qed.

Lemma persistMigratedTargetNodes_does record service params :
  does (persistMigratedTargetNodes cfg availableNodeIDs record service params) [EvPersist (migrated_nodes params service)].
Proof.
  unfold persistMigratedTargetNodes. do 5 (apply emits_then; [by respects_trace|intros ?]).
  apply emits_then; [|intros _; apply emits_then; [|intros _; apply emits_then;
    [|intros _; apply emits_then; [|intros _; by apply does_emit]]]].
  all: unfold syncRepoBeforeWrite, syncRepoLocked, ensureCleanWorktree, verifyRepoWriteBaseRevision, IsCleanWorkingTree,
    FetchAndFastForward, FetchRevision, FastForwardRevision, ValidateEncryptedFileCollisionsAtRevision, ListFilesAtRevision,
    repoSyncState, updateRepoFileTransaction, files_read, WriteFile_step, remove_file, committed_or, finalizeRepoWrite,
    finalizeRepoGitState, refreshDeclaredServices, discover, persistRepoSyncState,
    PushCurrentBranch, PushRevision, configuredRemoteBranch, commit_changed, CommitPath, CommitPaths,
    stage_and_commit, HasPathsChanges, CurrentBranch, CurrentRevision.
  all: repeat first [apply quiet_commit|progress respects_trace].
Qed.
End steps.

(** ** The tasks *)
Section tasks.
Context `{DnsState} `{GitState} `{!Environment} `{!GitCommand} `{!DnsNames} `{!DnsService}.
Context `{Disk} `{MetaDecoder} `{Cron} `{Libraries} `{Secrets} `{SQLite} `{ParamsJSON} `{MetaDocuments}.
Context (cfg : ControllerConfig) (availableNodeIDs : gset string).

Definition completed : list Event := [EvFinished StatusSucceeded; EvNotified EventTaskCompleted].

Definition migrate_plan (params : serviceTaskParams) (steps : list StepRecord) (service : Service) : list Event :=
  let did name := hasTaskStepStatus steps name StatusSucceeded in
  let source := tp_SourceNodeID params in
  let target := tp_TargetNodeID params in
  let no_backup := bool_decide (tp_DataNames params = []) || did StepBackup in
  unless (did StepComposeDown) (ran TypeStop source) ++
  unless no_backup (ran TypeBackup source) ++
  unless (bool_decide (tp_RestoreItems params = []) && no_backup || did StepRestore) (ran TypeRestore target) ++
  unless (did StepComposeUp) (ran TypeDeploy target ++ caddy_ran service target) ++
  unless (negb (declares_dns service) || did StepDNSUpdate) [EvDNS (migrated_nodes params service)] ++
  if negb (did StepAwaitingConfirmation)
  then [EvAwaiting; EvNotified EventTaskAwaitingConfirmation]
  else unless (did StepPersistRepo) [EvPersist (migrated_nodes params service)] ++ completed.

Definition rollback_plan (params : serviceTaskParams) (service : Service) : list Event :=
  let source := tp_SourceNodeID params in
  let target := tp_TargetNodeID params in
  unless (negb (tp_RollbackDNS params)) [EvDNS (svc_TargetNodes service)] ++
  unless (negb (tp_DeploySource params)) (ran TypeDeploy source ++ caddy_ran service source) ++
  unless (negb (tp_StopTarget params)) (ran TypeStop target ++ caddy_ran service target) ++
  completed.

(** The steps recorded when the task starts, and the service as it is at the
    revision of the task. *)
Definition recorded_steps (record : TaskRecord) (w : World) : list StepRecord :=
  ListTaskSteps (rec_TaskID record) (env_db (w_tick w) (w_db w)).
Definition service_of (record : TaskRecord) (params : serviceTaskParams) (service : Service) : Prop :=
  ∃ w1 w2, find_service_at cfg availableNodeIDs (rec_RepoRevision record) (tp_ServiceDir params) w1 = (w2, Ok service).

Lemma find_service_at_quiet revision dir : respects quiet (find_service_at cfg availableNodeIDs revision dir).
Proof. unfold find_service_at, ReadFileAtRevision. by respects_trace. Qed.

Lemma executeMigrateTask_followed record params w :
  taskParams (rec_ParamsJSON record) = Ok params →
  let out := executeMigrateTask cfg availableNodeIDs record w in
  failed_early w out ∨
  ∃ service, service_of record params service ∧ followed (migrate_plan params (recorded_steps record w) service) w out.
Proof.
  intros Hparams out. subst out. unfold executeMigrateTask. rewrite Hparams.
  set (P out := ∃ service, service_of record params service ∧
    followed (migrate_plan params (recorded_steps record w) service) w out).
  match goal with |- failed_early _ ?out ∨ _ => change (failed_early w out ∨ P out) end.
  apply start_step; [by respects_trace|done|]. intros ? ? [= <- <-] _.
  case_decide; [left; apply gives_up_early; [apply failControllerTask_gives_up|done]|].
  apply start_step; [by respects_trace|done|]. intros w1 detail Hdetail Hw1.
  assert (td_Steps detail = recorded_steps record w) as ->.
  { unfold store_read, store, call_db, mbind, M_bind in Hdetail. cbn in Hdetail. unfold GetTask in Hdetail.
    destruct (getTaskRecord _ _); [|done]. cbn in Hdetail. by injection Hdetail as _ <-. }
  apply start_step; [by respects_trace|done|]. intros w2 [] _ Hw2.
  apply start_step; [apply find_service_at_quiet|done|]. intros w3 service Hservice Hw3. right.
  exists service. split; [by eexists _, _|]. apply task_followed; [|done]. clear dependent w1 w2 w3. unfold migrate_plan.
  cbv zeta. apply step_unit_does; [apply stop_on_does|].
  eapply step_or_skip_does; [apply backup_source_emits|intros Hskip|intros Hskip items Hitems].
  2: replace (bool_decide (tp_RestoreItems params = []) && _) with (bool_decide (items = [])).
  3: { rewrite Hskip, andb_false_r. apply bool_decide_eq_false. intros Hnil. apply orb_false_iff in Hskip as [Hskip _].
       apply bool_decide_eq_false in Hskip. by apply Hskip, Hitems. }
  1: rewrite Hskip, andb_true_r.
  all: apply step_unit_does; [apply restore_target_does|].
  all: apply step_unit_does; [apply run_and_reload_does|].
  all: apply step_unit_does; [apply syncServiceDNSForService_does|].
  all: destruct (negb (hasTaskStepStatus _ StepAwaitingConfirmation _)).
  1,3: rewrite <-(List.app_nil_r [EvAwaiting; _]); eapply or_fail_does; [apply enterMigrateAwaitingConfirmation_does|];
    intros [] _; apply task_does_emits; by apply emits_ret.
  all: apply step_unit_does; [apply persistMigratedTargetNodes_does|apply finalize_does].
Qed.

Lemma restore_dns_does service : does (restore_dns cfg service) [EvDNS (svc_TargetNodes service)].
Proof. unfold restore_dns. destruct (negb _); [apply emits_fail|apply syncServiceDNSForService_does]. Qed.

Lemma executeMigrateRollbackTask_followed record params w :
  taskParams (rec_ParamsJSON record) = Ok params →
  let out := executeMigrateRollbackTask cfg availableNodeIDs record w in
  failed_early w out ∨ ∃ service, service_of record params service ∧ followed (rollback_plan params service) w out.
Proof.
  intros Hparams out. subst out. unfold executeMigrateRollbackTask. rewrite Hparams.
  set (P out := ∃ service, service_of record params service ∧ followed (rollback_plan params service) w out).
  match goal with |- failed_early _ ?out ∨ _ => change (failed_early w out ∨ P out) end.
  apply start_step; [by respects_trace|done|]. intros ? ? [= <- <-] _.
  case_decide; [left; apply gives_up_early; [apply failControllerTask_gives_up|done]|].
  apply start_step; [apply find_service_at_quiet|done|]. intros w1 service Hservice Hw1.
  apply start_step; [by respects_trace|done|]. intros w2 [] _ Hw2. right.
  exists service. split; [by eexists _, _|]. apply task_followed; [|done]. unfold rollback_plan. cbv zeta.
  apply step_unit_does; [apply restore_dns_does|].
  do 2 (apply step_unit_does; [apply run_and_reload_does|]). apply finalize_does.
Qed.

Lemma executeDNSUpdateTask_followed record params w :
  taskParams (rec_ParamsJSON record) = Ok params →
  let out := executeDNSUpdateTask cfg availableNodeIDs record w in
  failed_early w out ∨
  ∃ service, service_of record params service ∧ followed (EvDNS (svc_TargetNodes service) :: completed) w out.
Proof.
  intros Hparams out. subst out. unfold executeDNSUpdateTask.
  set (P out := ∃ service, service_of record params service ∧ followed (EvDNS (svc_TargetNodes service) :: completed) w out).
  match goal with |- failed_early _ ?out ∨ _ => change (failed_early w out ∨ P out) end.
  apply start_step; [by respects_trace|done|]. intros w1 [] _ Hw1.
  assert (∀ (k : Time.time → M ()), (∀ t w2, seen w2 = seen w → failed_early w (k t w2) ∨ P (k t w2)) →
    failed_early w ((startedAt ← now; k startedAt) w1) ∨ P ((startedAt ← now; k startedAt) w1)) as Hnow.
  { intros k Hk. exact (Hk (env_now (w_tick w1)) (yield_ w1).1 Hw1). }
  apply Hnow. intros startedAt w2 Hw2. clear Hnow.
  apply start_step; [by unfold upsert_step; respects_trace|done|]. intros w3 [] _ Hw3.
  apply start_step; [by respects_trace|done|]. intros w4 params' Hp Hw4. rewrite Hparams in Hp. injection Hp as _ <-.
  apply start_step; [apply find_service_at_quiet|done|]. intros w5 service Hservice Hw5. right.
  exists service. split; [by eexists _, _|]. apply task_followed; [|done].
  apply (or_fail_does _ _ _ _ [_] completed _ (syncServiceDNSForService_does cfg service)). intros [] _.
  apply task_does_then; [by respects_trace|]. intros finishedAt.
  apply or_fail_quiet; [by unfold upsert_step; respects_trace|]. intros _. apply finish_does.
Qed.
End tasks.

(** ** The worker *)
Section worker.
Context `{DnsState} `{GitState} `{!Environment} `{!GitCommand} `{!DnsNames} `{!DnsService} `{!TunnelService}.
Context `{Disk} `{MetaDecoder} `{Cron} `{Libraries} `{Secrets} `{SQLite} `{ParamsJSON} `{MetaDocuments}.
Context (cfg : ControllerConfig) (availableNodeIDs : gset string).
Context (sort_services : list desiredCloudflareTunnelService → list desiredCloudflareTunnelService).

Lemma syncCloudflareTunnels_quiet tunnelCfg client revision excluded :
  respects quiet (syncCloudflareTunnels cfg availableNodeIDs sort_services tunnelCfg client revision excluded).
Proof.
  unfold syncCloudflareTunnels, update_tunnels, update_tunnel, deleteCloudflareTunnelDNS, syncCloudflareTunnelDNS,
    cloudflareTunnelServicesAtRevision, tunnel_service_at, find_service_at, ReadFileAtRevision, ListFilesAtRevision,
    route_service, cloudflareTunnelServiceIsRoutable, ApplyRecordOptions.
  by respects_trace.
Qed.

Lemma executeCloudflareTunnelSyncTask_does record :
  task_does (executeCloudflareTunnelSyncTask cfg availableNodeIDs sort_services record) completed.
Proof.
  unfold executeCloudflareTunnelSyncTask, upsert_step. apply or_fail_quiet; [by respects_trace|]. intros _.
  apply task_does_then; [by respects_trace|]. intros startedAt.
  do 3 (apply or_fail_quiet; [by respects_trace|]; intros ?).
  apply or_fail_quiet; [apply syncCloudflareTunnels_quiet|]. intros _.
  apply task_does_then; [by respects_trace|]. intros finishedAt.
  apply or_fail_quiet; [by respects_trace|]. intros _. apply finish_does.
Qed.

(** What a claimed task has to do. *)
Inductive planned (record : TaskRecord) (params : serviceTaskParams) (w : World) : list Event → Prop :=
| planned_dns service :
    rec_Type record = TypeDNSUpdate → service_of cfg availableNodeIDs record params service →
    planned record params w (EvDNS (svc_TargetNodes service) :: completed)
| planned_tunnels :
    rec_Type record = TypeCloudflareTunnelSync → planned record params w completed
| planned_migration service :
    rec_Type record = TypeMigrate → service_of cfg availableNodeIDs record params service →
    planned record params w (migrate_plan params (recorded_steps record w) service)
| planned_rollback service :
    rec_Type record = TypeMigrateRollback → service_of cfg availableNodeIDs record params service →
    planned record params w (rollback_plan params service).

End worker.

(** ** A migration that waits for its confirmation

    The concrete libraries and the run that the theorem on controller tasks is
    applied to: the service was stopped on its source and deployed on its
    target before, so the task only has to ask for the confirmation. *)
From S2P Require Import Config StoreExamples RepoFilesTheorems.
From S2P Require Export TunnelTheorems.

(** ** Parameters as text: the bits of their code *)
#[local] Instance restoreTaskItem_eq_dec : EqDecision restoreTaskItem.
Proof. solve_decision. Defined.
#[local] Instance restoreTaskItem_countable : Countable restoreTaskItem.
Proof.
  refine (inj_countable' (λ i, (ri_DataName i, ri_ArtifactRef i, ri_SourceTaskID i))
            (λ '(a, b, c), MkRestoreTaskItem a b c) _).
  by intros [].
Defined.
#[local] Instance serviceTaskParams_eq_dec : EqDecision serviceTaskParams.
Proof. solve_decision. Defined.
#[local] Instance serviceTaskParams_countable : Countable serviceTaskParams.
Proof.
  refine (inj_countable' (λ p,
    ((tp_ServiceDir p, tp_ServiceDirs p, tp_ExcludedServiceDir p, tp_DataNames p, tp_ImageNames p, tp_ImageCheckBatchID p),
     (tp_SemverAllow p, tp_ForgeCandidates p, tp_ForgeCandidateSources p, tp_FullRebuild p, tp_SourceNodeID p, tp_TargetNodeID p),
     (tp_RestoreItems p, tp_ComposeRecreateMode p, tp_OriginalMigrateTaskID p, tp_RollbackDNS p, tp_DeploySource p,
      tp_StopTarget p, tp_CleanupTarget p)))
    (λ '((a1, a2, a3, a4, a5, a6), (b1, b2, b3, b4, b5, b6), (c1, c2, c3, c4, c5, c6, c7)),
       MkServiceTaskParams a1 a2 a3 a4 a5 a6 b1 b2 b3 b4 b5 b6 c1 c2 c3 c4 c5 c6 c7) _).
  by intros [].
Defined.
Fixpoint bits (p : positive) : string :=
  match p with
  | xH => ""
  | xO p => String "0" (bits p)
  | xI p => String "1" (bits p)
  end.
Fixpoint of_bits (s : string) : positive :=
  match s with
  | "" => xH
  | String c s => if decide (c = "0"%char) then xO (of_bits s) else xI (of_bits s)
  end.
Lemma of_bits_bits p : of_bits (bits p) = p.
Proof. induction p as [p IH|p IH|]; cbn; by rewrite ?IH. Qed.
#[local] Instance params_example : ParamsJSON.
Proof.
  refine {| marshal_params p := String "#" (bits (encode p));
            unmarshal_params s := match s with String _ s => decode (of_bits s) | "" => None end;
            marshal_rustic _ := "" |}; [|done].
  intros p. by rewrite of_bits_bits, decode_encode.
Defined.

(** ** The other libraries *)
Definition node_print (n : Node ()) : result string string := Ok (node_Value n).
#[local] Instance documents_example : MetaDocuments :=
  {| doc_extra := (); doc_zero := (); parse_document text := Ok (MkNode ScalarNode "" text () []); print_document := node_print |}.
#[local] Instance migrate_names : DnsNames := names_example.
#[local] Instance migrate_state : DnsState := tunnel_state.
#[local] Instance migrate_dns : DnsService := tunnel_dns.
#[local] Instance migrate_tunnels : TunnelService := tunnel_service.
#[local] Instance migrate_git_state : GitState := tunnel_git_state.
#[local] Instance migrate_environment : Environment := tunnel_environment.
#[local] Instance migrate_git : GitCommand := tunnel_git.
#[local] Instance migrate_disk : Disk := disk_example.
#[local] Instance migrate_decoder : MetaDecoder := tunnel_decoder.
#[local] Instance migrate_cron : Cron := cron_example.
#[local] Instance migrate_libraries : Libraries := libraries_example.
#[local] Instance migrate_secrets : Secrets := {| Encrypt text _ := Ok text; Decrypt text _ := Ok text |}.

(** ** The run *)
Definition migrate_params : serviceTaskParams := params_migrate "blog" [] "main" "backup".
Definition migrate_record : TaskRecord :=
  MkRecord "m1" TypeMigrate SourceWeb "" "web" "" StatusRunning (marshal_params migrate_params) "/log" "rev" "" ""
    (sec 1000) (Some (sec 1010)) None "" "" "" None None None "".
Definition migrate_db : DB :=
  let db1 := after (CreateTask "m1" (sec 1000) (MkRecord "m1" TypeMigrate SourceWeb "" "web" "" "" (marshal_params migrate_params)
               "/log" "rev" "" "" (sec 1000) None None "" "" "" None None None "") ex0) ex0 in
  let db2 := after (ClaimNextPendingTaskOfType TypeMigrate (sec 1010) db1) db1 in
  let step name db := after' (UpsertTaskStep (MkStepRecord "m1" name StatusSucceeded None None) db) db in
  step StepComposeUp (step StepComposeDown db2).
Definition migrate_world : World := MkWorld migrate_db None empty_images (MkRepoTree ∅ ()) ((∅, ∅) : dns_state) [] 0.

Definition migrate_service : Service :=
  MkService "blog" "/repo/blog" "/repo/blog/composia-meta.yaml" ["main"] true (tunnel_meta "blog").

