(* ===== verification/OutboxTheorems.v ===== *)
(** * The outbox worker settles events

    What follows a task only adds events; a turn settles one; concrete runs. *)

(** ** What follows a task only adds events

    The programs that create the tasks after a task, apply image updates and
    send notifications leave every event of the outbox in place: they add
    some at most. *)
From S2P Require Export Outbox StoreSafety.

(** ** Calls of the store that leave the events in place *)
Definition outbox_of (db : DB) : gmap string OutboxRow := task_outbox db.
Lemma adds_same_outbox `{SQLite} db db' : adds db db' → task_outbox db' = task_outbox db.
Proof.
  induction 1 as [|db1 db2 db3 Hp _ IH]; [done|]. rewrite IH.
  by destruct Hp as [ts target ? [->|(_ & _ & _ & ->)]%ensure_instance_Ok|record ? [_ ->]%insertTaskRecord_Ok].
Qed.

Section keeps.
Context `{DnsState} `{GitState} `{!Environment} `{!GitCommand} `{ForgeLibraries} `{DockerCommand}.
Context `{Disk} `{MetaDecoder} `{Cron} `{Libraries} `{Secrets} `{SQLite} `{SQLiteJSON} `{ParamsJSON} `{MetaDocuments}.
Context `{ImageReferences}.

(** Every event of the outbox is still there, as it was. *)
Definition keeps_events (w w' : World) : Prop := task_outbox (w_db w) ⊆ task_outbox (w_db w').
#[export] Instance keeps_events_preorder : PreOrder keeps_events.
Proof. split; unfold keeps_events; [intros w; reflexivity|intros w1 w2 w3 ? ?; by etrans]. Qed.

(** The others only add events. *)
Class OthersAddEvents : Prop := others_add_events : ∀ n db, task_outbox db ⊆ task_outbox (env_db n db).
Context `{!OthersAddEvents}.

Lemma keeps_yield : respects keeps_events yield_.
Proof. intros w. apply others_add_events. Qed.
Lemma keeps_same {A} (m : M A) : (∀ w, w_db (m w).1 = w_db w) → respects keeps_events m.
Proof. intros Hm w. unfold keeps_events. by rewrite Hm. Qed.
Lemma keeps_files {A} (wrap : RepoError → ConnectError) (op : RepoFiles.FS → result RepoError (RepoFiles.FS * A)) : respects keeps_events (files_step wrap op).
Proof.
  apply respects_bind; [apply _|apply keeps_yield|]. intros _. apply keeps_same. intros w. unfold call_files.
  by destruct (op _) as [[]|].
Qed.
Lemma keeps_git env config args : respects keeps_events (gitOutputWithContext env config args).
Proof.
  apply respects_bind; [apply _|apply keeps_yield|]. intros _. apply keeps_same. intros w. unfold call_git.
  by destruct (run_git _ _ _ _ _) as [[]].
Qed.
Lemma keeps_images {A} wrap (call : DB → ImageTables → result StoreError (ImageTables * A)) :
  respects keeps_events (call_images wrap call).
Proof. apply keeps_same. intros w. unfold call_images. by destruct (call _ _) as [[]|]. Qed.
Lemma keeps_store {A} wrap (call : DB → result StoreError (DB * A)) :
  (∀ db db' a, call db = Ok (db', a) → task_outbox db ⊆ task_outbox db') → respects keeps_events (store wrap call).
Proof.
  intros Hc. apply respects_bind; [apply _|apply keeps_yield|]. intros _ w. unfold call_db, keeps_events.
  destruct (call (w_db w)) as [[db a]|e] eqn:Hr; [by eapply Hc|done].
Qed.
Lemma keeps_read {A} wrap (call : DB → result StoreError A) : respects keeps_events (store_read wrap call).
Proof. apply keeps_store. intros db db' a Hr. ok_inv. done. Qed.
Lemma keeps_write wrap (call : DB → result StoreError DB) :
  (∀ db db', call db = Ok db' → task_outbox db ⊆ task_outbox db') → respects keeps_events (store_write wrap call).
Proof. intros Hc. apply keeps_store. intros db db' a Hr. ok_inv. by eapply Hc. Qed.
Lemma keeps_enqueue wrap uuid id event t : respects keeps_events (store_write wrap (EnqueueTaskOutboxEvent uuid id event t)).
Proof.
  apply keeps_write. intros db db' [[_ ->]|(_ & Hn & _ & ->)]%enqueue_outbox_Ok; [done|]. by apply insert_subseteq.
Qed.
Lemma keeps_emit e : respects keeps_events (emit e).
Proof. by apply keeps_same. Qed.
Lemma keeps_put f : (∀ w, w_db (f w) = w_db w) → respects keeps_events (put f).
Proof. intros Hf. by apply keeps_same. Qed.
Lemma keeps_create wrap call record :
  (∀ uuid t db db' a, call uuid t record db = Ok (db', a) → task_outbox db' = task_outbox db) →
  respects keeps_events (create wrap call record).
Proof.
  intros Hc. unfold create. pose proof keeps_yield. repeat first [apply keeps_emit|apply keeps_store|respects_step].
  match goal with Hr : call _ _ _ _ = _ |- _ => by rewrite (Hc _ _ _ _ _ Hr) end.
Qed.
Lemma keeps_create_task wrap record : respects keeps_events (create wrap CreateTask record).
Proof. apply keeps_create. intros uuid t db db' a Hr%CreateTask_adds. by apply adds_same_outbox. Qed.
Lemma keeps_create_service_task wrap record : respects keeps_events (create wrap CreateTaskIfNoActiveServiceTask record).
Proof. apply keeps_create. intros uuid t db db' a Hr%CreateTaskWithConstraints_adds. by apply adds_same_outbox. Qed.
Lemma keeps_create_instance_task wrap record : respects keeps_events (create wrap create_instance_task record).
Proof.
  apply keeps_create. intros uuid t db db' a Hr. unfold create_instance_task, CreateTaskIfNoActiveServiceInstanceTask in Hr.
  ok_inv. destruct value0 as [db1 created]. cbn in Hr. destruct (head created); [|done]. injection Hr as <- <-.
  by eapply adds_same_outbox, CreateTasks_adds.
Qed.
Lemma keeps_create_tasks wrap entries : respects keeps_events (store wrap (CreateTasksIfNoActiveServiceInstanceTasks entries)).
Proof. apply keeps_store. intros db db' a Hr%CreateTasks_adds%adds_same_outbox. by rewrite Hr. Qed.
Lemma keeps_clear serviceName t wrap : respects keeps_events (store_write wrap (λ db, Ok (ClearServicePendingDeploy serviceName t db))).
Proof. apply keeps_write. intros db db' [= <-]. reflexivity. Qed.
Lemma keeps_sync_services t services wrap : respects keeps_events (store_write wrap (λ db, Ok (SyncDeclaredServices t services db))).
Proof.
  apply keeps_write. intros db db' [= <-]. destruct (SyncDeclaredServices_other t services db) as (_ & _ & Ho & _).
  by rewrite Ho.
Qed.
End keeps.

(** Follow a program that keeps the events, into the definitions it calls. *)
Ltac head_of t := lazymatch t with ?f _ => head_of f | _ => t end.
Ltac enter_program :=
  match goal with |- respects _ ?m => let h := head_of m in unfold h end.
Create HintDb events.
#[export] Hint Resolve keeps_yield keeps_files keeps_git keeps_images keeps_read keeps_enqueue keeps_emit
  keeps_create_task keeps_create_service_task keeps_create_instance_task keeps_create_tasks keeps_clear keeps_sync_services : events.
Ltac events_step :=
  first
  [ progress intros
  | solve [eauto 2 with events nocore]
  | match goal with
    | |- PreOrder _ => apply _
    | |- respects _ (put _) => apply keeps_put; intros; reflexivity
    | |- respects _ (store _ _) => fail 2
    | |- respects _ (store_read _ _) => fail 2
    | |- respects _ (store_write _ _) => fail 2
    | |- respects _ yield_ => fail 2
    | |- respects _ _ => respects_step
    end
  | enter_program ].
Ltac keeps_events := repeat events_step.

Section followups.
Context `{DnsState} `{GitState} `{!Environment} `{!GitCommand} `{ForgeLibraries} `{DockerCommand}.
Context `{Disk} `{MetaDecoder} `{Cron} `{Libraries} `{Secrets} `{SQLite} `{SQLiteJSON} `{ParamsJSON} `{MetaDocuments}.
Context `{ImageReferences} `{!OthersAddEvents}.
Context (cfg : ControllerConfig) (availableNodeIDs : gset string).

Lemma keeps_dns record : respects keeps_events (queueDNSUpdateForTask cfg availableNodeIDs record).
Proof. keeps_events. Qed.
Lemma keeps_caddy record : respects keeps_events (queueCaddyReloadForTask cfg availableNodeIDs record).
Proof. keeps_events. Qed.
Lemma keeps_tunnel record : respects keeps_events (queueCloudflareTunnelSyncForTask cfg availableNodeIDs record).
Proof. keeps_events. Qed.

Lemma keeps_pages pages source pre headers endpoint : respects keeps_events (fetch_pages pages source pre headers endpoint).
Proof. revert endpoint. induction pages as [|pages IH]; intros endpoint; cbn [fetch_pages]; keeps_events. Qed.
Lemma keeps_existing key nodes : respects keeps_events (existing_tasks key nodes).
Proof. induction nodes as [|node nodes IH]; cbn [existing_tasks]; keeps_events. Qed.
Lemma keeps_polls polls deadline id : respects keeps_events (wait_polls polls deadline id).
Proof. induction polls as [|polls IH]; cbn [wait_polls]; keeps_events. Qed.
Lemma keeps_applied key nodes : respects keeps_events (applied_update key nodes).
Proof. induction nodes as [|node nodes IH]; cbn [applied_update]; keeps_events. Qed.
End followups.
#[export] Hint Resolve keeps_dns keeps_caddy keeps_tunnel keeps_pages keeps_existing keeps_polls keeps_applied : events.

Section worker.
Context `{DnsState} `{GitState} `{!Environment} `{!GitCommand} `{ForgeLibraries} `{DockerCommand}.
Context `{Disk} `{MetaDecoder} `{Cron} `{Libraries} `{Secrets} `{SQLite} `{SQLiteJSON} `{ParamsJSON} `{MetaDocuments}.
Context `{ImageReferences} `{!OthersAddEvents}.
Context (cfg : ControllerConfig) (availableNodeIDs : gset string).
Lemma keeps_service_tasks ctx name nodes type data options :
  respects keeps_events (createServiceTasksWithOptions cfg availableNodeIDs ctx name nodes type data options).
Proof. keeps_events. Qed.
Lemma keeps_repo_write base paths run :
  (∀ s, respects keeps_events (run s)) → respects keeps_events (runRepoWrite cfg availableNodeIDs base paths run).
Proof. intros Hr. keeps_events. Qed.
Lemma keeps_apply service update planned base message allow :
  respects keeps_events (applyPlannedServiceImageUpdates cfg availableNodeIDs service update planned base message allow).
Proof. unfold applyPlannedServiceImageUpdates. keeps_events. Qed.
End worker.
#[export] Hint Resolve keeps_service_tasks keeps_apply : events.

Section turns.
Context `{DnsState} `{GitState} `{!Environment} `{!GitCommand} `{ForgeLibraries} `{DockerCommand}.
Context `{Disk} `{MetaDecoder} `{Cron} `{Libraries} `{Secrets} `{SQLite} `{SQLiteJSON} `{ParamsJSON} `{MetaDocuments}.
Context `{ImageReferences}.
Context (cfg : ControllerConfig) (availableNodeIDs : gset string).

Lemma keeps_auto_apply `{!OthersAddEvents} record : respects keeps_events (queueAutoApplyUpdateForImageCheck cfg availableNodeIDs record).
Proof. keeps_events. Qed.
Lemma keeps_followups `{!OthersAddEvents} record : respects keeps_events (queuePostTaskFollowups cfg availableNodeIDs record).
Proof.
  pose proof (keeps_auto_apply record). unfold queuePostTaskFollowups. keeps_events.
Qed.
Lemma keeps_send `{!OthersAddEvents} routes event source : respects keeps_events (Send routes event source).
Proof. keeps_events. Qed.

End turns.
#[export] Hint Resolve keeps_followups keeps_send : events.

(** ** What follows a task announces no task

    The only notifications on the way are those of image updates found. *)
Definition announcement (e : Event) : Prop :=
  match e with EvNotified event => event ≠ EventImageUpdateAvailable | _ => False end.
#[export] Instance announcement_dec e : Decision (announcement e).
Proof. destruct e; apply _. Defined.

Section quiet.
Context `{DnsState} `{GitState} `{!Environment}.

(** Nothing is announced on the way. *)
Definition announces_nothing (w w' : World) : Prop :=
  filter announcement (w_trace w') = filter announcement (w_trace w).
#[export] Instance announces_nothing_preorder : PreOrder announces_nothing.
Proof. split; unfold announces_nothing; [intros w; reflexivity|intros w1 w2 w3 ? ?; congruence]. Qed.
#[export] Instance announces_nothing_based : TraceBased announces_nothing.
Proof. intros w w' Ht. unfold announces_nothing. by rewrite Ht. Qed.
Lemma quiet_emit e : ¬ announcement e → respects announces_nothing (emit e).
Proof.
  intros He w. unfold announces_nothing. cbn. rewrite filter_app, (filter_cons_False _ e) by done.
  apply List.app_nil_r.
Qed.
Lemma quiet_images {A} wrap (call : DB → ImageTables → result StoreError (ImageTables * A)) :
  respects announces_nothing (call_images wrap call).
Proof. intros w. apply announces_nothing_based. unfold call_images. by destruct (call _ _) as [[]|]. Qed.
End quiet.

Create HintDb quiet.
#[export] Hint Resolve quiet_images : quiet.
Ltac quiet_step :=
  first
  [ progress intros
  | solve [eauto 2 with quiet nocore]
  | apply quiet_emit; cbn; solve [tauto]
  | apply respects_traceless; [apply _|solve [auto with world nocore]]
  | match goal with
    | |- PreOrder _ => apply _
    | |- respects _ yield_ => fail 2
    | |- respects _ _ => respects_step
    end
  | enter_program ].
Ltac quiet := repeat quiet_step.

Section quiet_programs.
Context `{DnsState} `{GitState} `{!Environment} `{!GitCommand} `{ForgeLibraries} `{DockerCommand}.
Context `{Disk} `{MetaDecoder} `{Cron} `{Libraries} `{Secrets} `{SQLite} `{SQLiteJSON} `{ParamsJSON} `{MetaDocuments}.
Context `{ImageReferences}.
Context (cfg : ControllerConfig) (availableNodeIDs : gset string).

Lemma quiet_pages pages source pre headers endpoint : respects announces_nothing (fetch_pages pages source pre headers endpoint).
Proof. revert endpoint. induction pages as [|pages IH]; intros endpoint; cbn [fetch_pages]; quiet. Qed.
Lemma quiet_existing key nodes : respects announces_nothing (existing_tasks key nodes).
Proof. induction nodes as [|node nodes IH]; cbn [existing_tasks]; quiet. Qed.
Lemma quiet_polls polls deadline id : respects announces_nothing (wait_polls polls deadline id).
Proof. induction polls as [|polls IH]; cbn [wait_polls]; quiet. Qed.
Lemma quiet_applied key nodes : respects announces_nothing (applied_update key nodes).
Proof. induction nodes as [|node nodes IH]; cbn [applied_update]; quiet. Qed.
End quiet_programs.
#[export] Hint Resolve quiet_pages quiet_existing quiet_polls quiet_applied : quiet.

Section quiet_followups.
Context `{DnsState} `{GitState} `{!Environment} `{!GitCommand} `{ForgeLibraries} `{DockerCommand}.
Context `{Disk} `{MetaDecoder} `{Cron} `{Libraries} `{Secrets} `{SQLite} `{SQLiteJSON} `{ParamsJSON} `{MetaDocuments}.
Context `{ImageReferences}.
Context (cfg : ControllerConfig) (availableNodeIDs : gset string).
Lemma quiet_dns record : respects announces_nothing (queueDNSUpdateForTask cfg availableNodeIDs record).
Proof. quiet. Qed.
Lemma quiet_caddy record : respects announces_nothing (queueCaddyReloadForTask cfg availableNodeIDs record).
Proof. quiet. Qed.
Lemma quiet_tunnel record : respects announces_nothing (queueCloudflareTunnelSyncForTask cfg availableNodeIDs record).
Proof. quiet. Qed.
Lemma quiet_service_tasks ctx name nodes type data options :
  respects announces_nothing (createServiceTasksWithOptions cfg availableNodeIDs ctx name nodes type data options).
Proof. quiet. Qed.
Lemma quiet_apply service update planned base message allow :
  respects announces_nothing (applyPlannedServiceImageUpdates cfg availableNodeIDs service update planned base message allow).
Proof. unfold applyPlannedServiceImageUpdates. quiet. Qed.
End quiet_followups.
#[export] Hint Resolve quiet_dns quiet_caddy quiet_tunnel quiet_service_tasks quiet_apply : quiet.

Section quiet_worker.
Context `{DnsState} `{GitState} `{!Environment} `{!GitCommand} `{ForgeLibraries} `{DockerCommand}.
Context `{Disk} `{MetaDecoder} `{Cron} `{Libraries} `{Secrets} `{SQLite} `{SQLiteJSON} `{ParamsJSON} `{MetaDocuments}.
Context `{ImageReferences}.
Context (cfg : ControllerConfig) (availableNodeIDs : gset string).
Lemma quiet_auto_apply record : respects announces_nothing (queueAutoApplyUpdateForImageCheck cfg availableNodeIDs record).
Proof. quiet. Qed.
Lemma quiet_queue record : respects announces_nothing (queuePostTaskFollowups cfg availableNodeIDs record).
Proof. pose proof (quiet_auto_apply record). unfold queuePostTaskFollowups. quiet. Qed.
End quiet_worker.

(** ** Theorems on the outbox worker

    While the others only add events, a turn of the loop settles exactly one
    event: it is completed, with every mark it needs, or it is put off with one
    attempt more; what was done before is not done again. *)
Local Open Scope Z_scope.

Section turns.
Context `{DnsState} `{GitState} `{!Environment} `{!GitCommand} `{ForgeLibraries} `{DockerCommand}.
Context `{Disk} `{MetaDecoder} `{Cron} `{Libraries} `{Secrets} `{SQLite} `{SQLiteJSON} `{ParamsJSON} `{MetaDocuments}.
Context `{ImageReferences}.
Context (cfg : ControllerConfig) (availableNodeIDs : gset string).

(** ** An event under way: the marks of one event may be set, all else stays. *)
Definition same_but_marks (r r' : OutboxRow) : Prop :=
  (ob_task_id r', ob_event_type r', ob_attempts r', ob_next_attempt_at r', ob_last_error r', ob_created_at r', ob_processed_at r') =
  (ob_task_id r, ob_event_type r, ob_attempts r, ob_next_attempt_at r, ob_last_error r, ob_created_at r, ob_processed_at r) ∧
  (∀ t, ob_followups_completed_at r = Some t → ob_followups_completed_at r' = Some t) ∧
  (∀ t, ob_notification_dispatched_at r = Some t → ob_notification_dispatched_at r' = Some t).
Definition under_way (id : string) (w w' : World) : Prop :=
  ∀ k r, task_outbox (w_db w) !! k = Some r →
    ∃ r', task_outbox (w_db w') !! k = Some r' ∧ if decide (k = id) then same_but_marks r r' else r' = r.
#[export] Instance under_way_preorder id : PreOrder (under_way id).
Proof.
  split.
  - intros w k r Hr. exists r. split; [done|]. by case_decide.
  - intros w1 w2 w3 Hs1 Hs2 k r Hr. destruct (Hs1 k r Hr) as (r2 & Hr2 & Hm2). destruct (Hs2 k r2 Hr2) as (r3 & Hr3 & Hm3).
    exists r3. split; [done|]. case_decide; [|congruence]. destruct Hm2 as (E2 & F2 & N2), Hm3 as (E3 & F3 & N3).
    split_and!; [congruence|auto..].
Qed.
Lemma under_way_keeps id w w' : keeps_events w w' → under_way id w w'.
Proof. intros Hk k r Hr. exists r. split; [by eapply lookup_weaken|]. by case_decide. Qed.
Lemma under_way_respects id {A} (m : M A) : respects keeps_events m → respects (under_way id) m.
Proof. intros Hm w. by apply under_way_keeps. Qed.
Context `{!OthersAddEvents}.

Lemma under_way_mark id f :
  (∀ t db, ∃ g, f t db = update_event id g db ∧ ∀ r, same_but_marks r (g r)) →
  respects (under_way id) (mark f).
Proof.
  intros Hf. unfold mark. apply respects_bind; [apply _|apply under_way_respects, respects_now; [apply _|apply keeps_yield]|].
  intros t. apply respects_bind; [apply _|apply under_way_respects, keeps_yield|]. intros _ w k r Hr.
  destruct (Hf t (w_db w)) as (g & Hg & Hm). cbn. rewrite Hg. unfold update_event, update_row. cbn.
  destruct (task_outbox (w_db w) !! id) as [r0|] eqn:H0'; cbn.
  - rewrite decide_True by done. cbn. destruct (decide (k = id)) as [->|Hk].
    + rewrite lookup_insert. rewrite decide_True by done. simplify_eq. eauto.
    + rewrite lookup_insert_ne by done. eauto.
  - exists r. split; [done|]. by case_decide.
Qed.

Lemma under_way_followups id : respects (under_way id) (mark (CompleteTaskOutboxFollowups id)).
Proof.
  apply under_way_mark. intros t db. eexists. split; [done|]. intros r. split_and!; [done| |done].
  intros u Hu. cbn. by rewrite Hu.
Qed.
Lemma under_way_notification id : respects (under_way id) (mark (CompleteTaskOutboxNotification id)).
Proof.
  apply under_way_mark. intros t db. eexists. split; [done|]. intros r. split_and!; [done|done|].
  intros u Hu. cbn. by rewrite Hu.
Qed.
Lemma under_way_notify event send :
  respects keeps_events send → respects (under_way (ev_EventID event)) (notify_step event send).
Proof.
  intros Hs. unfold notify_step. destruct (ev_NotificationDispatched event); [apply respects_ret, _|].
  apply respects_bind; [apply _|by apply under_way_respects|intros _; apply under_way_notification].
Qed.
Lemma keeps_persisted record : respects keeps_events (persistedImageUpdateApplied cfg availableNodeIDs record).
Proof. keeps_events. Qed.
Lemma keeps_announce record : respects keeps_events (announce_task cfg record).
Proof. unfold announce_task. destruct (taskEventTypeForStatus _); [apply keeps_send|apply respects_ret, _]. Qed.
Lemma under_way_step event record : respects (under_way (ev_EventID event)) (followups_step cfg availableNodeIDs event record).
Proof.
  unfold followups_step. destruct (ev_FollowupsCompleted event); [apply respects_ret, _|].
  apply respects_bind; [apply _|apply under_way_respects; by apply keeps_followups|intros _; apply under_way_followups].
Qed.
Lemma process_under_way event : respects (under_way (ev_EventID event)) (processTaskOutboxEvent cfg availableNodeIDs event).
Proof.
  unfold processTaskOutboxEvent. apply respects_bind; [apply _|apply under_way_respects, keeps_read|]. intros detail.
  repeat case_decide; [| |apply respects_fail, _].
  - apply respects_bind; [apply _|apply under_way_step|]. intros _. apply under_way_notify, keeps_announce.
  - apply respects_bind; [apply _|apply under_way_respects, keeps_persisted|]. intros _. apply under_way_notify, keeps_send.
Qed.

(** ** Marks *)
(** The event has the mark; once set, it stays. *)
Definition marked (mark : OutboxRow → option Z) (id : string) (w : World) : Prop :=
  ∃ r, task_outbox (w_db w) !! id = Some r ∧ is_Some (mark r).
Lemma marked_followups id w w' : under_way id w w' → marked ob_followups_completed_at id w → marked ob_followups_completed_at id w'.
Proof.
  intros Hu (r & Hr & t & Ht). destruct (Hu id r Hr) as (r' & Hr' & Hm). rewrite decide_True in Hm by done.
  exists r'. split; [done|]. exists t. by apply Hm.
Qed.
Lemma marked_notification id w w' :
  under_way id w w' → marked ob_notification_dispatched_at id w → marked ob_notification_dispatched_at id w'.
Proof.
  intros Hu (r & Hr & t & Ht). destruct (Hu id r Hr) as (r' & Hr' & Hm). rewrite decide_True in Hm by done.
  exists r'. split; [done|]. exists t. by apply Hm.
Qed.
Definition present (id : string) (w : World) : Prop := is_Some (task_outbox (w_db w) !! id).
Lemma present_under_way id w w' : under_way id w w' → present id w → present id w'.
Proof. intros Hu [r Hr]. destruct (Hu id r Hr) as (r' & Hr' & _). by exists r'. Qed.

Lemma mark_sets proj id f w w' :
  (∀ t db, ∃ g, f t db = update_event id g db ∧ ∀ r, is_Some (proj (g r))) →
  mark f w = (w', Ok ()) → present id w → marked proj id w'.
Proof.
  intros Hf (w1 & t & Ht & Hw)%bind_Ok Hp. apply bind_Ok in Hw as (w2 & n & Hy & Hw).
  assert (present id w2) as [r Hr].
  { apply (present_under_way id w1).
    { apply under_way_keeps. pose proof (keeps_yield w1) as Hk. by rewrite Hy in Hk. }
    apply (present_under_way id w); [|done]. apply under_way_keeps.
    pose proof (respects_now _ keeps_yield w) as Hk. by rewrite Ht in Hk. }
  destruct (Hf t (w_db w2)) as (g & Hg & Hs). cbn in Hw. rewrite Hg in Hw. injection Hw as <-.
  unfold marked, update_event, update_row. cbn. rewrite Hr, decide_True by done. cbn.
  exists (g r). by rewrite lookup_insert, decide_True.
Qed.

(** Run a program from a world, with what its relation says. *)
Lemma run_under_way {A} id (m : M A) w w' r : respects (under_way id) m → m w = (w', r) → under_way id w w'.
Proof. intros Hm Hr. specialize (Hm w). by rewrite Hr in Hm. Qed.

Lemma followups_step_Ok event record w w' :
  followups_step cfg availableNodeIDs event record w = (w', Ok ()) → present (ev_EventID event) w →
  (ev_FollowupsCompleted event = true → marked ob_followups_completed_at (ev_EventID event) w) →
  marked ob_followups_completed_at (ev_EventID event) w'.
Proof.
  unfold followups_step. intros Hs Hp Hm. destruct (ev_FollowupsCompleted event); [injection Hs as <-; by apply Hm|].
  apply bind_Ok in Hs as (w1 & [] & Hf & Hs). eapply mark_sets; [|exact Hs|].
  - intros t db. eexists. split; [done|]. intros r. cbn. by destruct (ob_followups_completed_at r).
  - eapply present_under_way; [|exact Hp]. eapply run_under_way; [|exact Hf]. apply under_way_respects. by apply keeps_followups.
Qed.
Lemma notify_step_Ok event send w w' :
  respects keeps_events send →
  notify_step event send w = (w', Ok ()) → present (ev_EventID event) w →
  (ev_NotificationDispatched event = true → marked ob_notification_dispatched_at (ev_EventID event) w) →
  marked ob_notification_dispatched_at (ev_EventID event) w'.
Proof.
  unfold notify_step. intros Hk Hs Hp Hm. destruct (ev_NotificationDispatched event); [injection Hs as <-; by apply Hm|].
  apply bind_Ok in Hs as (w1 & [] & Hf & Hs). eapply mark_sets; [|exact Hs|].
  - intros t db. eexists. split; [done|]. intros r. cbn. by destruct (ob_notification_dispatched_at r).
  - eapply present_under_way; [|exact Hp]. eapply run_under_way; [|exact Hf]. by apply under_way_respects.
Qed.
Lemma process_Ok event w w' :
  processTaskOutboxEvent cfg availableNodeIDs event w = (w', Ok ()) → present (ev_EventID event) w →
  (ev_FollowupsCompleted event = true → marked ob_followups_completed_at (ev_EventID event) w) →
  (ev_NotificationDispatched event = true → marked ob_notification_dispatched_at (ev_EventID event) w) →
  marked ob_notification_dispatched_at (ev_EventID event) w' ∧
  (ev_EventType event = "task_completed" → marked ob_followups_completed_at (ev_EventID event) w').
Proof.
  unfold processTaskOutboxEvent. intros (w1 & detail & Hread & Hs)%bind_Ok Hp Hf Hn.
  assert (Hu1 : under_way (ev_EventID event) w w1).
  { eapply run_under_way; [|exact Hread]. apply under_way_respects, keeps_read. }
  repeat case_decide; [| |done]; apply bind_Ok in Hs as (w2 & x & Hstep & Hs).
  - assert (Hu2 : under_way (ev_EventID event) w1 w2) by (eapply run_under_way; [apply under_way_step|exact Hstep]).
    destruct x. apply followups_step_Ok in Hstep; [|by eapply present_under_way|].
    2: { intros Ht. eapply marked_followups; [exact Hu1|auto]. }
    assert (Hu3 : under_way (ev_EventID event) w2 w') by (eapply run_under_way; [apply under_way_notify, keeps_announce|exact Hs]).
    apply notify_step_Ok in Hs; [|apply keeps_announce|by eapply present_under_way, present_under_way|].
    + split; [done|]. intros _. by eapply marked_followups.
    + intros Ht. eapply marked_notification; [exact Hu2|]. eapply marked_notification; [exact Hu1|auto].
  - assert (Hu2 : under_way (ev_EventID event) w1 w2).
    { eapply run_under_way; [|exact Hstep]. apply under_way_respects, keeps_persisted. }
    apply notify_step_Ok in Hs; [|apply keeps_send|by eapply present_under_way, present_under_way|].
    + split; [done|]. intros Ht. congruence.
    + intros Ht. eapply marked_notification; [exact Hu2|]. eapply marked_notification; [exact Hu1|auto].
Qed.

(** ** What is done again *)
Definition creation (e : Event) : Prop := match e with EvCreated _ _ => True | _ => False end.
#[export] Instance creation_dec e : Decision (creation e).
Proof. destruct e; apply _. Defined.
(** No task is created on the way. *)
Definition creates_nothing (w w' : World) : Prop := filter creation (w_trace w') = filter creation (w_trace w).
#[export] Instance creates_nothing_preorder : PreOrder creates_nothing.
Proof. split; unfold creates_nothing; [intros w; reflexivity|intros w1 w2 w3 ? ?; congruence]. Qed.
#[export] Instance creates_nothing_based : TraceBased creates_nothing.
Proof. intros w w' Ht. unfold creates_nothing. by rewrite Ht. Qed.
Lemma notified_creates_nothing event : respects creates_nothing (emit (EvNotified event)).
Proof. intros w. unfold creates_nothing. cbn. rewrite filter_app. apply List.app_nil_r. Qed.

Lemma send_creates_nothing routes event source : respects creates_nothing (Send routes event source).
Proof. unfold Send, send_route, file_io. repeat first [apply notified_creates_nothing|progress respects_trace]. Qed.
Lemma mark_creates_nothing f : respects creates_nothing (mark f).
Proof. unfold mark. respects_trace. Qed.
Lemma applied_creates_nothing key nodes : respects creates_nothing (applied_update key nodes).
Proof. induction nodes as [|node nodes IH]; cbn [applied_update]; unfold record_params; respects_trace. Qed.
Lemma notify_creates_nothing event send :
  respects creates_nothing send → respects creates_nothing (notify_step event send).
Proof.
  intros Hs. unfold notify_step. destruct (ev_NotificationDispatched event); [apply respects_ret, _|].
  apply respects_bind; [apply _|done|intros _; apply mark_creates_nothing].
Qed.
Lemma process_creates_nothing event :
  ev_FollowupsCompleted event = true ∨ ev_EventType event ≠ "task_completed" →
  respects creates_nothing (processTaskOutboxEvent cfg availableNodeIDs event).
Proof.
  intros Hf. unfold processTaskOutboxEvent. apply respects_bind; [apply _|by respects_trace|]. intros detail.
  repeat case_decide; [| |apply respects_fail, _].
  - destruct Hf as [Hf|]; [|done]. unfold followups_step. rewrite Hf. apply respects_bind; [apply _|apply respects_ret, _|].
    intros _. apply notify_creates_nothing. unfold announce_task.
    destruct (taskEventTypeForStatus _); [apply send_creates_nothing|apply respects_ret, _].
  - apply respects_bind; [apply _| |intros _; apply notify_creates_nothing, send_creates_nothing].
    unfold persistedImageUpdateApplied, record_params, service_of_task, find_service_at, ReadFileAtRevision.
    repeat first [apply applied_creates_nothing|progress respects_trace].
Qed.

(** When the notification is marked nothing is announced. *)
Lemma notified_quiet event send :
  ev_NotificationDispatched event = true → respects announces_nothing (notify_step event send).
Proof. intros Hn. unfold notify_step. rewrite Hn. apply respects_ret, _. Qed.
Lemma process_announces_nothing event :
  ev_NotificationDispatched event = true →
  respects announces_nothing (processTaskOutboxEvent cfg availableNodeIDs event).
Proof.
  intros Hn. unfold processTaskOutboxEvent. apply respects_bind; [apply _|by quiet|]. intros detail.
  repeat case_decide; [| |apply respects_fail, _].
  - apply respects_bind; [apply _| |intros _; by apply notified_quiet].
    pose proof (quiet_queue cfg availableNodeIDs (td_Record detail)). unfold followups_step. by quiet.
  - apply respects_bind; [apply _|by quiet|intros _; by apply notified_quiet].
Qed.

(** ** A turn *)
Definition due_at (t : Time.time) (r : OutboxRow) : Prop :=
  ob_processed_at r = None ∧ ob_next_attempt_at r ≤ Time.rfc3339 t.
Definition older (id : string) (r : OutboxRow) (id' : string) (r' : OutboxRow) : Prop :=
  lex_leb (ob_created_at r, id) (ob_created_at r', id') = true.
(** What the event is about stays, and so do its marks. *)
Definition same_event (r r' : OutboxRow) : Prop :=
  (ob_task_id r', ob_event_type r', ob_created_at r') = (ob_task_id r, ob_event_type r, ob_created_at r) ∧
  (∀ t, ob_followups_completed_at r = Some t → ob_followups_completed_at r' = Some t) ∧
  (∀ t, ob_notification_dispatched_at r = Some t → ob_notification_dispatched_at r' = Some t).
Definition completed (r' : OutboxRow) : Prop :=
  is_Some (ob_processed_at r') ∧ ob_last_error r' = None ∧ is_Some (ob_notification_dispatched_at r') ∧
  (ob_event_type r' = "task_completed" → is_Some (ob_followups_completed_at r')).
Definition put_off (r r' : OutboxRow) : Prop :=
  ob_processed_at r' = None ∧ is_Some (ob_last_error r') ∧ ob_attempts r' = ob_attempts r + 1 ∧
  ∃ n delay, ob_next_attempt_at r' = Time.rfc3339 (env_now n + delay) ∧
    (0 ≤ ob_attempts r → 2 * Time.Second ≤ delay ≤ 512 * Time.Second).

Lemma retry_delay_bounds attempts : 1 ≤ attempts → 2 * Time.Second ≤ retry_delay attempts ≤ 512 * Time.Second.
Proof.
  intros Ha. unfold retry_delay, minDuration, Time.Minute, Time.Second. rewrite Z.shiftl_1_l.
  pose proof (Z.pow_le_mono_r 2 1 (Z.min attempts 9) ltac:(lia) ltac:(lia)).
  pose proof (Z.pow_le_mono_r 2 (Z.min attempts 9) 9 ltac:(lia) ltac:(lia)).
  change (2 ^ 1) with 2 in *. change (2 ^ 9) with 512 in *. case_decide; lia.
Qed.

Lemma next_event t db :
  match NextTaskOutboxEvent t db with
  | Ok event => ∃ r, task_outbox db !! ev_EventID event = Some r ∧ due_at t r ∧
      (∀ id' r', task_outbox db !! id' = Some r' → due_at t r' → older (ev_EventID event) r id' r') ∧
      (ev_EventType event, ev_Attempts event) = (ob_event_type r, ob_attempts r) ∧
      (ev_FollowupsCompleted event = true ↔ is_Some (ob_followups_completed_at r)) ∧
      (ev_NotificationDispatched event = true ↔ is_Some (ob_notification_dispatched_at r))
  | Err _ => ∀ id r, task_outbox db !! id = Some r → ¬ due_at t r
  end.
Proof.
  unfold NextTaskOutboxEvent. destruct (select_first _ _ (task_outbox db)) as [[id r]|] eqn:Hs.
  - apply select_first_Some in Hs as (Hr & Hdue & Hold). exists r. cbn. split_and!; [done|done|exact Hold|done|..].
    + destruct (ob_followups_completed_at r); cbn; split; (done || intros [? ?]; done).
    + destruct (ob_notification_dispatched_at r); cbn; split; (done || intros [? ?]; done).
  - intros id r. rewrite select_first_None in Hs. by apply Hs.
Qed.

(** What an update of the chosen event leaves. *)
Lemma update_event_at id g db : 
  task_outbox (update_event id g db) = alter g id (task_outbox db).
Proof.
  unfold update_event, update_row. cbn. destruct (task_outbox db !! id) as [r|] eqn:Hr; cbn.
  - rewrite decide_True by done. cbn. symmetry. apply map_eq. intros k. destruct (decide (k = id)) as [->|Hk].
    + by rewrite lookup_alter_eq, Hr, lookup_insert_eq.
    + by rewrite lookup_alter_ne, lookup_insert_ne.
  - apply map_eq. intros k. destruct (decide (k = id)) as [->|Hk]; [by rewrite lookup_alter_eq, Hr|by rewrite lookup_alter_ne].
Qed.

Lemma bind_run {A B} (m : M A) (f : A → M B) w w1 a : m w = (w1, Ok a) → (m ≫= f) w = f a w1.
Proof. intros Hm. unfold mbind, M_bind. by rewrite Hm. Qed.
(** The world after the others ran. *)
Lemma read_run {A} wrap (call : DB → result StoreError A) w :
  ∃ w1, keeps_events w w1 ∧ w_trace w1 = w_trace w ∧
    attempt (store_read wrap call) w = (w1, Ok (match call (w_db w1) with Ok a => Ok a | Err e => Err (wrap e) end)).
Proof.
  exists (yield_ w).1. split_and!; [apply keeps_yield|done|]. unfold attempt, store_read, store, mbind, M_bind, call_db. cbn.
  by destruct (call _).
Qed.
Lemma mark_run f w :
  ∃ w1 n, keeps_events w w1 ∧ w_trace w1 = w_trace w ∧ mark f w = (set_db (f (env_now n) (w_db w1)) w1, Ok ()).
Proof.
  exists (yield_ (yield_ w).1).1, (w_tick w). split_and!; [|done|done].
  etrans; [apply (keeps_yield w)|apply keeps_yield].
Qed.

Lemma retry_run event e w :
  ∃ w1 n, keeps_events w w1 ∧ w_trace w1 = w_trace w ∧
    (t ← now;
     _ ← store_write plain (λ db, Ok (RetryTaskOutboxEvent (ev_EventID event) (ev_Attempts event + 1)
           (t + retry_delay (ev_Attempts event + 1)) (error_text e) db));
     mret true) w =
    (set_db (RetryTaskOutboxEvent (ev_EventID event) (ev_Attempts event + 1)
       (env_now n + retry_delay (ev_Attempts event + 1)) (error_text e) (w_db w1)) w1, Ok true).
Proof.
  exists (yield_ (yield_ w).1).1, (w_tick w). split_and!; [|done|done].
  etrans; [apply (keeps_yield w)|apply keeps_yield].
Qed.

Lemma settle id g r w1 w2 w3 db :
  task_outbox (w_db w1) !! id = Some r → under_way id w1 w2 → keeps_events w2 w3 → db = update_event id g (w_db w3) →
  (∀ k rk, k ≠ id → task_outbox (w_db w1) !! k = Some rk → task_outbox db !! k = Some rk) ∧
  ∃ rm, same_but_marks r rm ∧ task_outbox (w_db w2) !! id = Some rm ∧ task_outbox db !! id = Some (g rm).
Proof.
  intros Hr Hu Hk ->. rewrite update_event_at. split.
  - intros k rk Hne Hrk. destruct (Hu k rk Hrk) as (rk' & Hrk' & Heq). rewrite decide_False in Heq by done. subst rk'.
    rewrite lookup_alter_ne by done. by eapply lookup_weaken.
  - destruct (Hu id r Hr) as (rm & Hrm & Hm). rewrite decide_True in Hm by done. exists rm. split_and!; [done|done|].
    rewrite lookup_alter_eq. by rewrite (lookup_weaken _ _ _ _ Hrm Hk).
Qed.


(** ** The deployment of a migration *)
Definition not_declared : ConnectError := NewError CodeFailedPrecondition "service is not declared on node".
Lemma fails_first {A B} (m : M A) (f : A → M B) w e : (m w).2 = Err e → ((m ≫= f) w).2 = Err e.
Proof. unfold mbind, M_bind. by destruct (m w) as [w1 [a|e']]; cbn; intros [= ->]. Qed.
Lemma undeclared_node service nodeID :
  nodeID ∉ svc_TargetNodes service → resolveTargetNodeIDs service [nodeID] = Err "service is not declared on node".
Proof.
  intros Hn. unfold resolveTargetNodeIDs. rewrite decide_False by done. cbn. unfold resolve_node. by rewrite decide_True.
Qed.
Lemma dns_of_moved record params service :
  taskParams (rec_ParamsJSON record) = Ok params → located record params && on_node record = true →
  (∀ w, (service_of_task cfg availableNodeIDs record params w).2 = Ok service) →
  service_has_dns service = true → rec_NodeID record ∉ svc_TargetNodes service →
  ∀ w, (queueDNSUpdateForTask cfg availableNodeIDs record w).2 = Err not_declared.
Proof.
  intros Hparams Hlocated Hservice Hdns Hmoved w. unfold queueDNSUpdateForTask.
  erewrite (bind_run (record_params record)) by (unfold record_params, lift; by rewrite Hparams).
  rewrite Hlocated. cbn [negb]. specialize (Hservice w).
  destruct (service_of_task cfg availableNodeIDs record params w) as [w1 r] eqn:Hv. cbn in Hservice. subst r.
  erewrite bind_run by exact Hv. rewrite Hdns. cbn [negb]. apply fails_first. unfold createServiceDNSUpdateTask.
  apply fails_first. by rewrite (undeclared_node _ _ Hmoved).
Qed.

(** A migration deploys the service on a node that the revision of the
    task does not name yet.  When the service declares DNS entries, the event
    of that deployment cannot be processed, whatever the state of the world:
    its follow-up asks for a DNS update on a node that is not a target. *)
Theorem moved_deployment_not_followed_up (event : TaskOutboxEvent) (w : World) (detail : TaskDetail)
    (params : serviceTaskParams) (service : Service)
    (Hevent : ev_EventType event = "task_completed" ∧ ev_FollowupsCompleted event = false)
    (Htask : GetTask (ev_TaskID event) (w_db (yield_ w).1) = Ok detail)
    (Hdeploy : rec_Type (td_Record detail) = TypeDeploy ∧ rec_Status (td_Record detail) = StatusSucceeded)
    (Hparams : taskParams (rec_ParamsJSON (td_Record detail)) = Ok params)
    (Hlocated : located (td_Record detail) params && on_node (td_Record detail) = true)
    (Hservice : ∀ w, (service_of_task cfg availableNodeIDs (td_Record detail) params w).2 = Ok service)
    (Hdns : service_has_dns service = true)
    (Hmoved : rec_NodeID (td_Record detail) ∉ svc_TargetNodes service) :
  (processTaskOutboxEvent cfg availableNodeIDs event w).2 = Err not_declared.
Proof.
  destruct Hevent as [Htype Hfollow], Hdeploy as [Hkind Hstatus]. unfold processTaskOutboxEvent.
  erewrite (bind_run (store_read plain _)).
  2: { unfold store_read, store, mbind, M_bind, call_db, yield_ in Htask |- *. cbn in Htask |- *. rewrite Htask. reflexivity. }
  cbv zeta. rewrite decide_True by done. apply fails_first. unfold followups_step. rewrite Hfollow. apply fails_first.
  unfold queuePostTaskFollowups. rewrite decide_False by (intros Hn; by apply Hn). rewrite decide_True by done.
  apply fails_first. by eapply dns_of_moved.
Qed.
End turns.

(** ** Events of the outbox: concrete runs

    A completed deployment whose event is settled, and the deployment of a
    migration whose event is not. *)
From S2P Require Import MigrateTheorems StoreExamples Config RepoFilesTheorems TunnelTheorems.
Local Open Scope Z_scope.

#[local] Instance outbox_state : DnsState := tunnel_state.
#[local] Instance outbox_git_state : GitState := tunnel_git_state.
#[local] Instance outbox_git : GitCommand := tunnel_git.
#[local] Instance outbox_disk : Disk := disk_example.
#[local] Instance outbox_cron : Cron := cron_example.
#[local] Instance outbox_libraries : Libraries := libraries_example.
#[local] Instance outbox_secrets : Secrets := migrate_secrets.
#[local] Instance outbox_params : ParamsJSON := params_example.
#[local] Instance outbox_documents : MetaDocuments := documents_example.
#[local] Instance outbox_json : SQLiteJSON := λ _ _, None.
#[local] Instance outbox_docker : DockerCommand := λ _ _, Err "docker".
#[local] Instance outbox_forges : ForgeLibraries :=
  {| url_parse _ := None; url_PathEscape s := s; next_link _ := None; http_releases _ _ _ := Err "http" |}.
#[local] Instance outbox_references : ImageReferences :=
  {| named_ref := string; ParseNormalizedNamed := Some; TagNameOnly := id; ref_tag _ := None; TrimNamed := id; FamiliarName := id |}.
(** The clock stands at 2000 seconds; nobody else runs. *)
#[local] Instance outbox_environment : Environment := {|
  env_now _ := sec 2000; env_uuid n := "uuid"; env_io _ := true; env_choice _ := 0%nat; env_db _ db := db;
  env_sync _ s := s; env_images _ t := t; env_tree _ t := t |}.
Lemma nobody_else : OthersAddEvents.
Proof. intros n db. done. Qed.

(** The service has one DNS entry and one target. *)
Definition web_meta : Meta :=
  MkMeta "web" "" [] None ["main"] None
    (Some (MkNetworkConfig None (Some (MkDNSConfig (MkDNSEntry "" "web.example.com" "" "" None None "") None)) None))
    None None None None None.
#[local] Instance outbox_decoder : MetaDecoder := λ _, Ok web_meta.
Definition web_params : serviceTaskParams := params_of_dir "web".

(** A task of the service on a node, completed, with its event. *)
Definition completed_db (type : string) : DB :=
  let record := MkRecord "t1" type SourceWeb "" "web" "n1" "" (marshal_params web_params) "/log" "rev" "" ""
                  (sec 1001) None None "" "" "" None None None "" in
  let db1 := after (CreateTask "u1" (sec 1000) record ex0) ex0 in
  let db2 := after (ClaimNextPendingTaskForNode "n1" (sec 1010) (sec 1040) "e1" db1) db1 in
  let db3 := after' (AcknowledgeTaskExecution "t1" "e1" (sec 1020) (sec 1080) db2) db2 in
  after' (CompleteTaskExecution "ev1" "t1" "e1" StatusSucceeded (sec 1050) "" db3) db3.
Definition outbox_world (type : string) : World :=
  MkWorld (completed_db type) None empty_images (MkRepoTree ∅ ()) ((∅, ∅) : dns_state) [] 0.

Definition after_turn (type : string) : World := (outbox_turn tunnel_controller {["main"]} (outbox_world type)).1.
Definition event_after (type : string) : option (option Z * Z) :=
  (λ r, (ob_processed_at r, ob_attempts r)) <$> task_outbox (w_db (after_turn type)) !! "ev1".


(** The event of the deployment on [n1] is put off. *)
Definition deployed_event : TaskOutboxEvent := MkTaskOutboxEvent "ev1" "t1" "task_completed" 0 false false.
Definition deployed_detail : TaskDetail :=
  match GetTask "t1" (completed_db TypeDeploy) with Ok detail => detail | Err _ => MkTaskDetail (ex_record "" "" "" "" 0) [] end.
Definition web_service : Service :=
  MkService "web" "/repo/web" "/repo/web/composia-meta.yaml" ["main"] true web_meta.
Lemma moved_deployment_not_followed_up_witness :
  event_after TypeDeploy = Some (None, 1) ∧
  (processTaskOutboxEvent tunnel_controller {["main"]} deployed_event (outbox_world TypeDeploy)).2 = Err not_declared.
Proof.
  split; [by_computation|].
  apply (moved_deployment_not_followed_up tunnel_controller {["main"]} deployed_event (outbox_world TypeDeploy) deployed_detail
    web_params web_service).
  - done.
  - by_computation.
  - split; by_computation.
  - apply taskParams_marshal.
  - by_computation.
  - intros w. destruct w. by_computation.
  - by_computation.
  - by_decision.
Defined.
