(* ===== verification/AgentProgram.v ===== *)
(** * Programs of the agent

    The goroutine of the agent that takes tasks (src/internal/app/agent) is a
    program of the free monad [Prog] over its operations [Op]: the execution
    state file, the calls of the controller, the commands it runs, the files
    of its repository directory and the runtime object of the task in its
    context.  An operation is answered by its surroundings ([perform]), in
    every way they can: a call may be answered, be lost, or be handled with
    the answer lost, and a file operation may fail.  The process may stop
    between two operations, and the machine may lose what was not synced; the
    agent then starts over with its loop ([agent_step]).  [wpc] is a logic of
    such programs with an invariant that holds at every point, hence after a
    crash ([wpc_sound]). *)
From S2P Require Export AgentApi Config RepoFiles AgentImages.

(** ** task_execution.go: data *)
Record persistedBackupResult := MkPersistedBackupResult {
  pb_ServiceName : string;
  pb_DataName : string;
  pb_ArtifactRef : string;
  pb_Status : string;
  pb_StartedAt : Time.time;
  pb_FinishedAt : Time.time;
  pb_ErrorSummary : string;
}.
Record completion := MkCompletion {
  co_Status : string;
  co_ErrorSummary : string;
  co_FinishedAt : Time.time;
}.
Record persistedTaskExecution := MkPersistedTaskExecution {
  pe_TaskID : string;
  pe_ExecutionID : string;
  pe_Acknowledged : bool;
  pe_Completion : option completion;
  pe_BackupResults : list persistedBackupResult;
}.
Definition zero_execution : persistedTaskExecution := MkPersistedTaskExecution "" "" false None [].
Definition pe_set_acknowledged (s : persistedTaskExecution) : persistedTaskExecution :=
  MkPersistedTaskExecution (pe_TaskID s) (pe_ExecutionID s) true (pe_Completion s) (pe_BackupResults s).
Definition pe_set_completion (c : completion) (s : persistedTaskExecution) : persistedTaskExecution :=
  MkPersistedTaskExecution (pe_TaskID s) (pe_ExecutionID s) (pe_Acknowledged s) (Some c) (pe_BackupResults s).
Definition pe_set_backups (l : list persistedBackupResult) (s : persistedTaskExecution) : persistedTaskExecution :=
  MkPersistedTaskExecution (pe_TaskID s) (pe_ExecutionID s) (pe_Acknowledged s) (pe_Completion s) l.

(** encoding/json of the state: invalid UTF-8 of a text is replaced, so only
    the identifiers and statuses are known to survive. *)
Definition same_execution (s s' : persistedTaskExecution) : Prop :=
  pe_TaskID s' = pe_TaskID s ∧ pe_ExecutionID s' = pe_ExecutionID s ∧
  pe_Acknowledged s' = pe_Acknowledged s ∧ co_Status <$> pe_Completion s' = co_Status <$> pe_Completion s ∧
  pb_Status <$> pe_BackupResults s' = pb_Status <$> pe_BackupResults s.
Class StateJSON := {
  content : Type;
  marshal_execution : persistedTaskExecution → result string content;
  unmarshal_execution : content → result string persistedTaskExecution;
  unmarshal_marshal_execution : ∀ s c, marshal_execution s = Ok c →
    ∃ s', unmarshal_execution c = Ok s' ∧ same_execution s s';
}.

(** ** Calls of the controller (agentv1) *)
Record ServiceConsistencyOutcome := MkServiceConsistencyOutcome {
  sc_Status : string;
  sc_Reasons : list string;
}.
Record ServiceManifestFile := MkServiceManifestFile {
  mf_Path : string;
  mf_Sha256 : string;
  mf_Mode : Z;
}.
Record ServiceManifest := MkServiceManifest {
  sf_RepoRevision : string;
  sf_RelativeRoot : string;
  sf_Files : list ServiceManifestFile;
}.
Record BundleMessage := MkBundleMessage {
  bm_ServiceName : string;
  bm_RelativeRoot : string;
  bm_Data : string;
}.
Record ServiceTaskRuntime := MkServiceTaskRuntime {
  sr_RepoRevision : string;
  sr_ServiceDir : string;
  sr_ConfigJson : string;
}.

Inductive Request : Type :=
| PullNextTaskRequest (nodeID : string) (executionProtocol : Z)
| AcknowledgeTaskRequest (taskID executionID : string)
| ReportTaskStateRequest (taskID executionID : string) (status : AgentTaskStatus) (errorSummary : string)
    (finishedAt : Time.time)
| ReportTaskStepStateRequest (taskID executionID : string) (stepName : AgentTaskStepName)
    (status : AgentTaskStatus) (startedAt : Time.time) (finishedAt : option Time.time)
| ReportServiceInstanceStatusRequest (serviceName nodeID runtimeStatus : string) (reportedAt : Time.time)
    (taskID executionID : string)
| ReportBackupResultRequest (taskID executionID : string) (r : persistedBackupResult)
| ReportServiceConsistencyCheckRequest (taskID executionID serviceDir : string)
    (files compose : ServiceConsistencyOutcome)
| ReportServiceImageStatesRequest (taskID executionID serviceName nodeID : string)
    (images : list AgentImageState)
| ReportServiceImageUpdateChecksRequest (taskID executionID serviceName nodeID : string)
    (checks : list AgentImageCheck)
| GetServiceManifestRequest (taskID executionID serviceDir : string)
| GetServiceBundleRequest (taskID serviceDir executionID : string)
| GetServiceTaskRuntimeRequest (taskID executionID : string).

(** A bundle is a stream: its messages, and how it ended. *)
Definition response (r : Request) : Type :=
  match r with
  | PullNextTaskRequest _ _ => option AgentTask
  | GetServiceManifestRequest _ _ _ => ServiceManifest
  | GetServiceBundleRequest _ _ _ => list BundleMessage * result ConnectError ()
  | GetServiceTaskRuntimeRequest _ _ => ServiceTaskRuntime
  | _ => ()
  end.

(** ** Files of the host *)
Inductive FileType := RegularFile | Directory | SymbolicLink | SpecialFile.
#[export] Instance FileType_eq_dec : EqDecision FileType.
Proof. solve_decision. Defined.
(** The type and the permission bits; [fi_Special] are the bits setuid,
    setgid and sticky. *)
Record FileInfo := MkFileInfo {
  fi_Type : FileType;
  fi_Perm : Z;
  fi_Special : bool;
}.
(** What [os.OpenRoot] sees of one name: its [Lstat] and its content. *)
Record RootEntry := MkRootEntry {
  re_Info : FileInfo;
  re_Content : result string string;
}.
(** The names of a directory opened with [os.OpenRoot], while it is checked. *)
Definition Root : Type := string → result StatError RootEntry.

(** ** Operations *)
Section ops.
Context `{StateJSON}.

Inductive Op : Type → Type :=
(* the clock and the contexts *)
| Now : Op Time.time

| DeadlineExceeded : Op bool
| ContextDone : Op bool
(* the execution state file; the answer of a step that writes is whether it
   succeeded *)
| ReadState : Op (result StatError content)
| OpenTemp : Op bool
| WriteTemp (c : content) : Op bool
| SyncTemp : Op bool
| CloseTemp : Op bool
| RenameTemp : Op bool
| OpenStateDir : Op bool
| SyncStateDir : Op bool
| RemoveState : Op (result StatError ())
| ArchiveState : Op bool
(* the runtime object of the context *)
| GetRuntime : Op (option persistedTaskExecution)
| SetRuntime (s : persistedTaskExecution) : Op ()
(* the controller *)
| Call (r : Request) : Op (result ConnectError (response r))
| UploadLog (line : string) : Op ()
| LogAccepted (pulledTask : AgentTask) : Op ()
(* commands: with live logs, or for their output *)
| Docker (dir : string) (args : list string) : Op (result string string)
| DockerOutput (dir : string) (args : list string) : Op (result string string)
| DockerAPI (action resource id : string) (force removeVolumes : bool) : Op (result string ())
| Ask {A} (p : Probe A) : Op (result string A)
(* files of the host *)
| StatFile (path : string) : Op (result StatError FileInfo)
| ReadFile_ (path : string) : Op (result StatError string)
| WriteFile_ (path text : string) : Op bool
| RemoveFile (path : string) : Op (result StatError ())
| RemoveTree (path : string) : Op bool
| MakeDirs (path : string) : Op bool
| MakeTempDir (dir pattern : string) : Op (option string)
| MakeTempFile (dir pattern : string) : Op (option string)
| CreateEmpty (path : string) (perm : Z) : Op bool
| RenamePath (from to : string) : Op bool
| ListDir (path : string) : Op (result StatError (list (string * bool)))
| OpenRoot (path : string) : Op (result StatError Root)
| SecureJoinPath (root name : string) : Op (option string)
| ChangeMode (path : string) (mode : Z) : Op bool.

Inductive Prog (A : Type) : Type :=
| Ret (a : A)
| Do {X : Type} (o : Op X) (k : X → Prog A).
End ops.
Arguments Ret {_ A} a.
Arguments Do {_ A X} o k.

Section prog.
Context `{StateJSON}.

Fixpoint prog_bind {A B} (p : Prog A) (f : A → Prog B) : Prog B :=
  match p with
  | Ret a => f a
  | Do o k => Do o (λ x, prog_bind (k x) f)
  end.
Definition op {X} (o : Op X) : Prog X := Do o Ret.

(** A Go function with an error result; an error wrapped by [fmt.Errorf] with
    [%w] keeps its code, so the wrapped error stands for it. *)
Definition Go (A : Type) : Type := Prog (result ConnectError A).
Definition ok {A} (a : A) : Go A := Ret (Ok a).
Definition err {A} (message : string) : Go A := Ret (Err (NewError CodeUnknown message)).
Definition go_bind {A B} (m : Go A) (f : A → Go B) : Go B :=
  prog_bind m (λ r, match r with
                    | Ok a => f a
                    | Err e => Ret (Err e)
                    end).
Definition of_text {A} (r : result string A) : Go A :=
  Ret (match r with Ok a => Ok a | Err e => Err (NewError CodeUnknown e) end).
(** A step that must succeed. *)
Definition must (o : Op bool) (message : string) : Go () :=
  Do o (λ done, if done : bool then ok () else err message).

(** A loop whose body may return an error. *)
Fixpoint go_each {A} (f : A → Go ()) (l : list A) : Go () :=
  match l with
  | [] => ok ()
  | x :: l => go_bind (f x) (λ _, go_each f l)
  end.
Fixpoint go_map {A B} (f : A → Go B) (l : list A) : Go (list B) :=
  match l with
  | [] => ok []
  | x :: l => go_bind (f x) (λ y, go_bind (go_map f l) (λ ys, ok (y :: ys)))
  end.
End prog.
Notation "x ⇐ y ; z" := (prog_bind y (λ x : _, z))
  (at level 20, y at level 100, z at level 200, only parsing) : stdpp_scope.
Notation "x ←? y ; z" := (go_bind y (λ x : _, z))
  (at level 20, y at level 100, z at level 200, only parsing) : stdpp_scope.
Notation "' x ←? y ; z" := (go_bind y (λ x : _, z))
  (at level 20, x pattern, y at level 100, z at level 200, only parsing) : stdpp_scope.

(** ** The machine of the agent *)
(** The execution state file: what a reader sees, what a loss of power may
    leave (a rename or a removal lasts once the directory was synced), and
    the temporary file. *)
Section machine.
Context `{StateJSON}.

Record StateDisk := MkStateDisk {
  d_view : option content;
  d_durable : list (option content);
  d_temp : option content;
}.
Definition disk_put (v : option content) (d : StateDisk) : StateDisk :=
  MkStateDisk v (v :: d_durable d) (d_temp d).
Definition disk_set_temp (c : option content) (d : StateDisk) : StateDisk :=
  MkStateDisk (d_view d) (d_durable d) c.
Definition disk_sync (d : StateDisk) : StateDisk := MkStateDisk (d_view d) [d_view d] (d_temp d).
Definition empty_disk : StateDisk := MkStateDisk None [None] None.

(** What the agent did that others can see: the executions it began, the
    commands it ran for one and whether they succeeded, and the calls it
    made. *)
Inductive JournalEntry : Type :=
| Began (taskID executionID : string)
| Ran (executionID : string) (dir : string) (args : list string) (succeeded : bool)
| Sent (r : Request) (answered : bool).

(** The controller and everything else that runs. *)
Class Surroundings := {
  around : Type;
  answers : ∀ r : Request, around → result ConnectError (response r) → around → Prop;
  moves : around → around → Prop;
}.
Context `{Surroundings}.

Record Machine := MkMachine {
  n_disk : StateDisk;
  n_runtime : option persistedTaskExecution;
  n_journal : list JournalEntry;
  n_around : around;
}.
Definition set_disk d n := MkMachine d (n_runtime n) (n_journal n) (n_around n).
Definition set_runtime s n := MkMachine (n_disk n) s (n_journal n) (n_around n).
Definition record e n := MkMachine (n_disk n) (n_runtime n) (n_journal n ++ [e]) (n_around n).
Definition set_around a n := MkMachine (n_disk n) (n_runtime n) (n_journal n) a.

(** The ids of the runtime object of the context, if any. *)
Definition runtime_execution (n : Machine) : string := from_option pe_ExecutionID "" (n_runtime n).

(** A step on the state file that succeeds, or fails without an effect. *)
Definition may_fail (f : Machine → Machine) (n : Machine) (done : bool) (n' : Machine) : Prop :=
  n' = if done then f n else n.
(** Taking the state file away. *)
Definition take_away (n n' : Machine) : Prop :=
  is_Some (d_view (n_disk n)) ∧ n' = set_disk (disk_put None (n_disk n)) n.

(** What an operation may answer and change; the rest of the host is not
    followed, so that reading it may answer anything. *)
Definition perform {X} (o : Op X) : Machine → X → Machine → Prop :=
  match o in Op X return Machine → X → Machine → Prop with
  | ReadState => λ n x n', n' = n ∧
      (x = Err StatFailed ∨ x = match d_view (n_disk n) with Some c => Ok c | None => Err NotExist end)
  | OpenTemp => may_fail (λ n, set_disk (disk_set_temp None (n_disk n)) n)
  | WriteTemp c => may_fail (λ n, set_disk (disk_set_temp (Some c) (n_disk n)) n)
  | RenameTemp => may_fail (λ n, match d_temp (n_disk n) with
                                 | Some c => set_disk (disk_put (Some c) (n_disk n)) n
                                 | None => n
                                 end)
  | SyncStateDir => may_fail (λ n, set_disk (disk_sync (n_disk n)) n)
  | RemoveState => λ n x n',
      (x = Ok () ∧ take_away n n') ∨
      (x = Err NotExist ∧ d_view (n_disk n) = None ∧ n' = n) ∨ (x = Err StatFailed ∧ n' = n)
  | ArchiveState => λ n x n', (x = true ∧ take_away n n') ∨ (x = false ∧ n' = n)
  | GetRuntime => λ n x n', n' = n ∧ x = n_runtime n
  | SetRuntime s => λ n x n', n' = set_runtime (Some s) n
  | Call r => λ n x n', ∃ a, answers r (n_around n) x a ∧
      n' = set_around a (record (Sent r (is_ok x)) n)
  | LogAccepted pulledTask => λ n x n',
      n' = record (Began (at_TaskId pulledTask) (runtime_execution n)) n
  | Docker dir args => λ n x n', n' = record (Ran (runtime_execution n) dir args (is_ok x)) n
  | DockerAPI action resource id _ _ => λ n x n',
      n' = record (Ran (runtime_execution n) "" [action; resource; id] (is_ok x)) n
  | _ => λ n x n', n' = n
  end.

(** The process ended: the runtime object is gone; after a loss of power the
    file is one of those that may have lasted. *)
Inductive restarted (n : Machine) : Machine → Prop :=
| process_restarted : restarted n (set_runtime None n)
| power_lost v : v ∈ d_durable (n_disk n) →
    restarted n (set_runtime None (set_disk (MkStateDisk v [v] None) n)).

(** ** The agent: its loop runs the body again and again *)
Section loop.
Context (body : Prog (result ConnectError ())).

Definition Agent : Type := Prog (result ConnectError ()) * Machine.

Inductive agent_step : Agent → Agent → Prop :=
| step_operation X (o : Op X) k n x n' : perform o n x n' → agent_step (Do o k, n) (k x, n')
| step_around p n a : moves (n_around n) a → agent_step (p, n) (p, set_around a n)
| step_again r n : agent_step (Ret r, n) (body, set_runtime None n)
| step_restart p n n' : restarted n n' → agent_step (p, n) (body, n').
End loop.
End machine.

(** ** A logic of programs with a crash invariant *)
Section logic.
Context `{StateJSON} `{!Surroundings}.
Context (I : Machine → Prop).

Definition around_moves (n n' : Machine) : Prop := ∃ a, rtc moves (n_around n) a ∧ n' = set_around a n.

Fixpoint wpc {A} (p : Prog A) (Q : A → Machine → Prop) (n : Machine) : Prop :=
  match p with
  | Ret a => ∀ n1, around_moves n n1 → I n1 ∧ Q a n1
  | Do o k => ∀ n1, around_moves n n1 → I n1 ∧ ∀ x n', perform o n1 x n' → wpc (k x) Q n'
  end.

Definition triple {A} (P : Machine → Prop) (p : Prog A) (Q : A → Machine → Prop) : Prop := ∀ n, P n → wpc p Q n.
(** An assertion the surroundings keep. *)
Class Stable (P : Machine → Prop) : Prop := stable : ∀ n a, P n → moves (n_around n) a → P (set_around a n).

Lemma around_moves_refl n : around_moves n n.
Proof. exists (n_around n). split; [apply rtc_refl|by destruct n]. Qed.
Lemma around_moves_trans n1 n2 n3 : around_moves n1 n2 → around_moves n2 n3 → around_moves n1 n3.
Proof. intros (a & Ha & ->) (b & Hb & ->). exists b. split; [by etrans|done]. Qed.

Lemma Stable_moves P `{!Stable P} n n1 : P n → around_moves n n1 → P n1.
Proof.
  intros HP (a & Ha & ->). revert HP. destruct n as [d r j b]. cbn in Ha. unfold set_around. cbn.
  induction Ha as [|b1 b2 b3 Hm _ IH]; intros HP; [exact HP|]. apply IH.
  by apply (stable (MkMachine d r j b1) b2).
Qed.

Lemma wpc_moves {A} (p : Prog A) Q n n1 : wpc p Q n → around_moves n n1 → wpc p Q n1.
Proof. destruct p; cbn; intros Hw Hm n2 Hm2; apply Hw; by eapply around_moves_trans. Qed.
Lemma wpc_inv {A} (p : Prog A) Q n : wpc p Q n → I n.
Proof. destruct p; cbn; intros Hw; apply Hw, around_moves_refl. Qed.
Lemma wpc_mono {A} (p : Prog A) (Q R : A → Machine → Prop) n :
  (∀ a n, Q a n → R a n) → wpc p Q n → wpc p R n.
Proof.
  intros HQ. revert n. induction p as [a|X o k IH]; cbn; intros n Hw n1 Hm.
  - destruct (Hw _ Hm). auto.
  - destruct (Hw _ Hm) as [? Hk]. split; [done|]. intros x n' Hp. apply IH, (Hk _ _ Hp).
Qed.
Lemma wpc_bind {A B} (p : Prog A) (f : A → Prog B) (R : B → Machine → Prop) n :
  wpc p (λ a n, wpc (f a) R n) n → wpc (prog_bind p f) R n.
Proof.
  revert n. induction p as [a|X o k IH]; cbn; intros n Hw.
  - by destruct (Hw _ (around_moves_refl n)).
  - intros n1 Hm. destruct (Hw _ Hm) as [? Hk]. split; [done|]. intros x n' Hp. by apply IH, Hk.
Qed.

Lemma triple_ret {A} (P : Machine → Prop) `{!Stable P} (a : A) (Q : A → Machine → Prop) :
  (∀ n, P n → I n) → (∀ n, P n → Q a n) → triple P (Ret a) Q.
Proof. intros HI HQ n HP n1 Hm. pose proof (Stable_moves _ _ _ HP Hm). auto. Qed.
Lemma triple_do {A X} (P : Machine → Prop) `{!Stable P} (o : Op X) (k : X → Prog A) R Q :
  (∀ n, P n → I n) → (∀ n x n', P n → perform o n x n' → R x n') → (∀ x, triple (R x) (k x) Q) →
  triple P (Do o k) Q.
Proof.
  intros HI HR Hk n HP n1 Hm. pose proof (Stable_moves _ _ _ HP Hm) as HP1. split; [by apply HI|].
  intros x n' Hp. eapply Hk, HR; eauto.
Qed.
Lemma triple_bind {A B} P (p : Prog A) (f : A → Prog B) R Q :
  triple P p R → (∀ a, triple (R a) (f a) Q) → triple P (prog_bind p f) Q.
Proof. intros Hp Hf n HP. apply wpc_bind. eapply wpc_mono; [|by apply Hp]. intros a n1. apply Hf. Qed.
Lemma triple_conseq {A} (P P' : Machine → Prop) (p : Prog A) (Q Q' : A → Machine → Prop) :
  triple P' p Q' → (∀ n, P n → P' n) → (∀ a n, Q' a n → Q a n) → triple P p Q.
Proof. intros Hp HP HQ n Hn. eapply wpc_mono; [exact HQ|]. by apply Hp, HP. Qed.
Lemma triple_pre {A} (P P' : Machine → Prop) (p : Prog A) Q : (∀ n, P n → P' n) → triple P' p Q → triple P p Q.
Proof. intros HP Hp n Hn. by apply Hp, HP. Qed.
Lemma triple_go_bind {A B} P (m : Go A) (f : A → Go B) R Q :
  triple P m R → (∀ a, triple (R (Ok a)) (f a) Q) → (∀ e, triple (R (Err e)) (Ret (Err e)) Q) →
  triple P (go_bind m f) Q.
Proof. intros Hm Hf He. eapply triple_bind; [exact Hm|]. intros [a|e]; auto. Qed.

(** The invariant holds in every state the agent reaches, when its loop keeps
    it from every state it may start in. *)
Theorem wpc_sound (body : Prog (result ConnectError ())) n p n' :
  I n → (∀ n, I n → wpc body (λ _ _, True) (set_runtime None n)) →
  (∀ n n1, I n → restarted n n1 → I n1) →
  rtc (agent_step body) (body, set_runtime None n) (p, n') → I n'.
Proof.
  intros HI Hbody Hrs Hrun.
  assert (Hw : wpc p (λ _ _, True) n').
  { change (wpc (p, n').1 (λ _ _, True) (p, n').2).
    assert (Hw0 : wpc (body, set_runtime None n).1 (λ _ _, True) (body, set_runtime None n).2)
      by by apply Hbody.
    revert Hw0. generalize (body, set_runtime None n), (p, n'), Hrun. clear -Hbody Hrs.
    intros s s' Hrun. induction Hrun as [|s1 s2 s3 Hs _ IH]; [done|]. intros Hw0. apply IH.
    destruct Hs as [X o k n x n' Hp|p n a Hm|r n|p n n' Hr]; cbn in *.
    - destruct (Hw0 _ (around_moves_refl n)) as [_ Hk]. by apply Hk.
    - eapply wpc_moves; [exact Hw0|]. exists a. split; [by apply rtc_once|done].
    - apply Hbody. by destruct (Hw0 _ (around_moves_refl n)).
    - apply wpc_inv in Hw0.
      assert (set_runtime None n' = n') as <- by (by destruct Hr).
      apply Hbody. by eapply Hrs. }
  by apply wpc_inv in Hw.
Qed.
End logic.
