(* ===== verification/TaskExecution.v ===== *)
(** * The execution of a task: src/internal/app/agent/task_execution.go and
    task_lifecycle.go

    The state file names the execution the agent works on, whether it
    acknowledged it, the outcome it will report and the backup results it
    still has to report.  The goroutine that renews the lease runs beside the
    programs and touches neither; a renewal is one of the calls of the
    surroundings. *)
From S2P Require Export AgentProgram.

Section execution.
Context `{StateJSON}.

(** ** The state file *)
Definition persistTaskExecution (state : persistedTaskExecution) : Go () :=
  match marshal_execution state with
  | Err e => err "encode task execution state"
  | Ok c =>
      _ ←? must OpenTemp "write task execution state";
      _ ←? must (WriteTemp c) "write task execution state";
      _ ←? must SyncTemp "sync task execution state";
      _ ←? must CloseTemp "close task execution state";
      _ ←? must RenameTemp "activate task execution state";
      _ ←? must OpenStateDir "open task execution state directory";
      must SyncStateDir "sync task execution state directory"
  end.

Definition loadTaskExecution : Go persistedTaskExecution :=
  read ⇐ op ReadState;
  match read with
  | Err NotExist => ok zero_execution
  | Err StatFailed => err "read task execution state"
  | Ok c => match unmarshal_execution c with
            | Err e => err "decode task execution state"
            | Ok state => ok state
            end
  end.

Definition archiveTaskExecutionState : Go () :=
  _ ←? must ArchiveState "rename";
  _ ←? must OpenStateDir "open";
  must SyncStateDir "sync".

Definition removeTaskExecutionState : Go () :=
  removed ⇐ op RemoveState;
  match removed with
  | Ok _ | Err NotExist => ok ()
  | Err StatFailed => err "remove"
  end.

(** ** Calls *)
Definition call (r : Request) : Go (response r) := op (Call r).
(** A call whose answer has no content. *)
Definition report (r : Request) : Go () := _ ←? call r; ok ().

Definition acknowledgeTaskExecution (taskID executionID : string) : Go () :=
  report (AcknowledgeTaskRequest taskID executionID).

Definition isRejectedTaskExecution (e : ConnectError) : bool :=
  bool_decide (CodeOf e = CodeFailedPrecondition ∨ CodeOf e = CodeNotFound).

(** The runtime of the context; outside a task there is none. *)
Definition taskExecutionID : Prog string :=
  runtime ⇐ op GetRuntime;
  Ret (from_option pe_ExecutionID "" runtime).
Definition taskExecutionTaskID : Prog string :=
  runtime ⇐ op GetRuntime;
  Ret (from_option pe_TaskID "" runtime).

Definition sendPersistedBackupResult (taskID executionID : string) (r : persistedBackupResult) : Go () :=
  report (ReportBackupResultRequest taskID executionID r).

(** ** The runtime object: its methods run under its lock, on the state it
    holds; a method on the absent object is not called. *)
Definition with_runtime (f : persistedTaskExecution → Go ()) : Go () :=
  runtime ⇐ op GetRuntime;
  match runtime with
  | Some state => f state
  | None => ok ()
  end.
Definition persist_runtime (state : persistedTaskExecution) : Go () :=
  _ ⇐ op (SetRuntime state);
  persistTaskExecution state.

Definition storeCompletion (value : completion) : Go () :=
  with_runtime (λ state,
  if decide (pe_BackupResults state ≠ [])
  then err "task completion cannot be persisted before backup results are acknowledged"
  else match pe_Completion state with
       | Some c => if decide (co_Status c ≠ co_Status value)
                   then err "task completion already persisted with a different status"
                   else ok ()
       | None => persist_runtime (pe_set_completion value state)
       end).

(** The result of a data name that is already there, if any. *)
Definition existing_backup (value : persistedBackupResult) (l : list persistedBackupResult)
    : option persistedBackupResult :=
  head (filter (λ r, pb_DataName r = pb_DataName value) l).
Definition storeBackupResult (value : persistedBackupResult) : Go () :=
  with_runtime (λ state,
  match existing_backup value (pe_BackupResults state) with
  | Some existing =>
      if decide (pb_Status existing ≠ pb_Status value ∨ pb_ArtifactRef existing ≠ pb_ArtifactRef value)
      then err "backup result already persisted with different content"
      else ok ()
  | None => persist_runtime (pe_set_backups (pe_BackupResults state ++ [value]) state)
  end).

Definition removeFirstBackupResult : Go () :=
  with_runtime (λ state,
  match pe_BackupResults state with
  | [] => ok ()
  | _ :: rest => persist_runtime (pe_set_backups rest state)
  end).

Definition clear : Go () := with_runtime (λ _, removeTaskExecutionState).

(** ** After a restart *)
Definition restart_failure (now : Time.time) : completion :=
  MkCompletion StatusFailed "agent restarted during an accepted task execution; outcome may be partial" now.

(** The results that are still to be reported, oldest first. *)
Fixpoint resend_backups (l : list persistedBackupResult) : Go () :=
  match l with
  | [] => ok ()
  | r :: l =>
      taskID ⇐ taskExecutionTaskID;
      executionID ⇐ taskExecutionID;
      _ ←? sendPersistedBackupResult taskID executionID r;
      _ ←? removeFirstBackupResult;
      resend_backups l
  end.

Definition report_completion (state : persistedTaskExecution) (c : completion) : Go () :=
  answer ⇐ report (ReportTaskStateRequest (pe_TaskID state) (pe_ExecutionID state)
                   (AgentProto.protoAgentTaskStatus (co_Status c)) (co_ErrorSummary c) (co_FinishedAt c));
  match answer with
  | Ok _ => removeTaskExecutionState
  | Err e => if isRejectedTaskExecution e then archiveTaskExecutionState else Ret (Err e)
  end.

(** The outcome to report; without one the execution failed. *)
Definition settle_completion (state : persistedTaskExecution) : Go () :=
  match pe_Completion state with
  | Some c => report_completion state c
  | None =>
      time ⇐ op Now;
      let state := pe_set_completion (restart_failure time) state in
      _ ⇐ op (SetRuntime state);
      _ ←? persistTaskExecution state;
      report_completion state (restart_failure time)
  end.

(** [None]: the file was removed, the execution being rejected. *)
Definition reacknowledge (state : persistedTaskExecution) : Go (option persistedTaskExecution) :=
  if decide (pe_Completion state = None ∧ pe_Acknowledged state = false) then
    answer ⇐ acknowledgeTaskExecution (pe_TaskID state) (pe_ExecutionID state);
    match answer with
    | Err e => if isRejectedTaskExecution e
               then _ ←? removeTaskExecutionState; ok None
               else Ret (Err e)
    | Ok _ =>
        let state := pe_set_acknowledged state in
        _ ←? persistTaskExecution state;
        ok (Some state)
    end
  else ok (Some state).

Definition recoverTaskExecution : Go () :=
  state ←? loadTaskExecution;
  if decide (pe_TaskID state = "") then ok ()
  else
    acknowledged ←? reacknowledge state;
    match acknowledged with
    | None => ok ()
    | Some state =>
        _ ⇐ op (SetRuntime state);
        _ ←? resend_backups (pe_BackupResults state);
        runtime ⇐ op GetRuntime;
        settle_completion (default state runtime)
    end.

(** ** task_lifecycle.go *)
Definition uploadTaskLog (line : string) : Go () := _ ⇐ op (UploadLog line); ok ().

Definition reportTaskStepState (taskID stepName status : string) (startedAt : Time.time)
    (finishedAt : option Time.time) : Go () :=
  executionID ⇐ taskExecutionID;
  report (ReportTaskStepStateRequest taskID executionID (AgentProto.protoAgentTaskStepName stepName)
          (AgentProto.protoAgentTaskStatus status) startedAt finishedAt).

Definition executeTaskStep {A} (taskID stepName : string) (execute : Go A) : Go A :=
  startedAt ⇐ op Now;
  _ ←? reportTaskStepState taskID stepName StatusRunning startedAt None;
  _ ←? uploadTaskLog ("step " +:+ stepName +:+ " started");
  executed ⇐ execute;
  match executed with
  | Err e =>
      finishedAt ⇐ op Now;
      _ ⇐ reportTaskStepState taskID stepName StatusFailed startedAt (Some finishedAt);
      _ ⇐ uploadTaskLog ("step " +:+ stepName +:+ " failed");
      Ret (Err e)
  | Ok a =>
      finishedAt ⇐ op Now;
      _ ⇐ reportTaskStepState taskID stepName StatusSucceeded startedAt (Some finishedAt);
      _ ←? uploadTaskLog ("step " +:+ stepName +:+ " succeeded");
      ok a
  end.

Definition reportTaskCompletion (taskID status errorSummary : string) : Go () :=
  finishedAt ⇐ op Now;
  _ ←? storeCompletion (MkCompletion status errorSummary finishedAt);
  executionID ⇐ taskExecutionID;
  _ ←? report (ReportTaskStateRequest taskID executionID (AgentProto.protoAgentTaskStatus status) errorSummary
               finishedAt);
  clear.

Definition error_text (e : ConnectError) : string :=
  match e with NewError _ message => message | StoreFailed _ _ => "store" end.

Definition failTask {A} (taskID : string) (e : ConnectError) : Go A :=
  _ ⇐ reportTaskCompletion taskID StatusFailed (error_text e);
  Ret (Err e).

(** service_tasks.go; a report that fails is only logged. *)
Definition reportServiceStatus (cfg : AgentConfig) (serviceName runtimeStatus : string) : Go () :=
  reportedAt ⇐ op Now;
  taskID ⇐ taskExecutionTaskID;
  executionID ⇐ taskExecutionID;
  _ ⇐ report (ReportServiceInstanceStatusRequest serviceName (ag_NodeID cfg) runtimeStatus reportedAt taskID
              executionID);
  ok ().

Definition failServiceTask {A} (cfg : AgentConfig) (pulledTask : AgentTask) (e : ConnectError) : Go A :=
  _ ⇐ reportServiceStatus cfg (at_ServiceName pulledTask) ServiceRuntimeError;
  failTask (at_TaskId pulledTask) e.

(** [retries]: how often the timer fires before the context ends. *)
Fixpoint report_until_sent (retries : nat) (taskID : string) (r : persistedBackupResult) : Go () :=
  executionID ⇐ taskExecutionID;
  answer ⇐ sendPersistedBackupResult taskID executionID r;
  match answer with
  | Ok _ => removeFirstBackupResult
  | Err e => match retries with
             | O => Ret (Err e)
             | S retries => report_until_sent retries taskID r
             end
  end.
Definition reportBackupResult (retries : nat) (taskID serviceName dataName artifactRef status : string)
    (startedAt finishedAt : Time.time) (errorSummary : string) : Go () :=
  let r := MkPersistedBackupResult serviceName dataName artifactRef status startedAt finishedAt errorSummary in
  _ ←? storeBackupResult r;
  report_until_sent retries taskID r.
End execution.
