(* ===== verification/ComposeRuntime.v ===== *)
(** * Commands and paths of the agent: src/internal/app/agent/runtime_helpers.go,
    compose_runtime.go, data_stage.go and the argument lists of
    maintenance_tasks.go, rustic_tasks.go, caddy_tasks.go and
    backup_restore_tasks.go *)
From S2P Require Export TaskExecution ServiceMeta ServiceValidation World.

(** ** runtime_helpers.go *)
Record composeCommandConfig := MkComposeCommandConfig {
  cmd_ProjectName : string;
  cmd_Files : list string;
}.
Definition buildComposeArgs (config : composeCommandConfig) (commandArgs : list string) : list string :=
  ["compose"; "--project-name"; cmd_ProjectName config] ++
  concat ((λ file, ["-f"; file]) <$> cmd_Files config) ++ commandArgs.
Definition buildRusticComposeRunArgs (config : composeCommandConfig) (composeService profile : string)
    (extraRunOpts commandArgs : list string) : list string :=
  buildComposeArgs config ["run"; "--rm"] ++ extraRunOpts ++ [composeService] ++
  (if decide (profile ≠ "") then ["-P"; profile] else []) ++ commandArgs.

Definition is_blank_byte (c : Ascii.ascii) : bool :=
  bool_decide (c ∈ [byte 32; byte 10; byte 9; byte 13]).
Fixpoint drop_blank (l : list Ascii.ascii) : list Ascii.ascii :=
  match l with
  | c :: l' => if is_blank_byte c then drop_blank l' else l
  | [] => []
  end.
(** [strings.Fields]: [word] is the field read so far, [s] the rest. *)
Fixpoint fields_from (fuel : nat) (word s : string) : list string :=
  let flush := if decide (word = "") then [] else [word] in
  match fuel, s with
  | S fuel, String c s' =>
      match leading space_encodings s with
      | Some space => flush ++ fields_from fuel "" (drop_bytes (String.length space) s)
      | None => fields_from fuel (word +:+ String c "") s'
      end
  | _, _ => flush
  end.
Definition Fields (s : string) : list string := fields_from (String.length s) "" s.
Definition bytesTrimSpace (value : list Ascii.ascii) : list Ascii.ascii :=
  reverse (drop_blank (reverse (drop_blank value))).

(** [relative == ".."] or below it. *)
Definition relative_escapes (relative : string) : bool :=
  bool_decide (relative = "..") || HasPrefix relative "../".
Definition pathInside (parent child : string) : bool :=
  match Rel (Clean parent) (Clean child) with
  | Err _ => false
  | Ok relative => bool_decide (relative = ".") || negb (relative_escapes relative)
  end.

Section paths.
Context `{PathResolver}.

(** [filepath.Abs] fails when the working directory cannot be found. *)
Definition resolveRepoRelativePath (repoDir relativePath : string) : result string (string * string) :=
  let cleanRelativePath := Clean (TrimSpace relativePath) in
  if decide (cleanRelativePath = "" ∨ cleanRelativePath = ".") then Err "must reference a service directory"
  else if IsAbs cleanRelativePath then Err "must be relative"
  else if relative_escapes cleanRelativePath then Err "escapes repo root"
  else match path_Abs repoDir with
  | None => Err "resolve repo_dir"
  | Some absoluteRepoDir =>
  match path_Abs (JoinPath [absoluteRepoDir; cleanRelativePath]) with
  | None => Err "resolve"
  | Some absolutePath =>
      if pathInside absoluteRepoDir absolutePath then Ok (absolutePath, cleanRelativePath)
      else Err "escapes repo root"
  end end.
End paths.

(** ** command_log.go: the environment of a command *)
Fixpoint setCommandEnv (env : list string) (key value : string) : list string :=
  match env with
  | [] => [key +:+ "=" +:+ value]
  | entry :: env =>
      if HasPrefix entry (key +:+ "=") then (key +:+ "=" +:+ value) :: env
      else entry :: setCommandEnv env key value
  end.
Definition prepareCommandForTerminalLog (env : list string) : list string :=
  foldl (λ env entry, setCommandEnv env entry.1 entry.2) env
    [("TERM", "xterm-256color"); ("CLICOLOR_FORCE", "1"); ("FORCE_COLOR", "1"); ("COMPOSE_ANSI", "always");
     ("COMPOSE_STATUS_STDOUT", "1"); ("COMPOSE_PROGRESS", "tty")].

(** ** compose_runtime.go *)
Definition composeRecreateAuto : string := "auto".
Definition composeRecreateNo : string := "no_recreate".
Definition composeRecreateForce : string := "force_recreate".
Definition normalizeComposeRecreateMode (mode : string) : string :=
  let mode := ToLower (TrimSpace mode) in
  if decide (mode ∈ [composeRecreateNo; "no-recreate"; "never"]) then composeRecreateNo
  else if decide (mode ∈ [composeRecreateForce; "force-recreate"; "always"]) then composeRecreateForce
  else composeRecreateAuto.

Record composeConfigVolume := MkComposeConfigVolume {
  ccv_Type : string;
  ccv_Source : string;
  ccv_Target : string;
}.
Record composeConfigService := MkComposeConfigService {
  ccs_Profiles : list string;
  ccs_Image : string;
  ccs_Environment : gmap string string;
  ccs_Volumes : list composeConfigVolume;
}.
Definition composeConfigOutput : Type := gmap string composeConfigService.
Record serviceDirBindMount := MkServiceDirBindMount {
  sbm_Service : string;
  sbm_Source : string;
  sbm_Target : string;
}.
Record serviceCheckContainer := MkServiceCheckContainer {
  scc_ID : string;
  scc_Image : string;
  scc_Labels : gmap string string;
  scc_Status : string;
}.

(** The data of core/backup/runtime.go. *)
Record RusticConfig := MkRusticConfig {
  rus_ServiceName : string;
  rus_ServiceDir : string;
  rus_ComposeService : string;
  rus_Profile : string;
  rus_DataProtectDir : string;
  rus_NodeID : string;
}.
Record RuntimeItem := MkRuntimeItem {
  itm_Name : string;
  itm_Strategy : string;
  itm_Service : string;
  itm_User : string;
  itm_Include : list string;
  itm_Provider : string;
  itm_Tags : list string;
}.
Record RestoreItem := MkRestoreItem {
  rit_Name : string;
  rit_Strategy : string;
  rit_Service : string;
  rit_User : string;
  rit_Include : list string;
  rit_Provider : string;
  rit_ArtifactRef : string;
}.
Record RuntimeConfig := MkRuntimeConfig { rcf_Rustic : option RusticConfig; rcf_Items : list RuntimeItem }.
Record RestoreConfig := MkRestoreConfig { ref_Rustic : option RusticConfig; ref_Items : list RestoreItem }.
Record dockerTaskParams := MkDockerTaskParams {
  dtp_ID : string;
  dtp_Force : bool;
  dtp_RemoveVolumes : bool;
}.

(** encoding/json, regexp, crypto/sha256 and archive/tar, on the texts the
    agent reads. *)
Record TarHeader := MkTarHeader { tar_Name : string; tar_Typeflag : Z; tar_Mode : Z; tar_Content : result string string }.
Class AgentLibraries := {
  decode_compose_config : string → result string composeConfigOutput;
  decode_containers : string → result string (list serviceCheckContainer);
  decode_strings : string → result string (list string);
  decode_backup_config : string → result string RuntimeConfig;
  decode_restore_config : string → result string RestoreConfig;
  decode_prune_target : string → result string string;
  decode_rustic_params : string → result string rusticMaintenanceTaskParams;
  decode_docker_params : string → result string dockerTaskParams;
  find_snapshot : string → option string;
  sha256_hex : string → string;
  read_archive : list string → list TarHeader * result string ();
}.

(** ** maintenance_tasks.go *)
(** The arguments, and whether the target is all of them. *)
Definition dockerPruneArgs (target : string) : result string (list string * bool) :=
  if decide (target = "all") then Ok ([], true)
  else match list_find (λ c, c.1 = target)
         [("containers", ["container"; "prune"; "-f"]); ("networks", ["network"; "prune"; "-f"]);
          ("images", ["image"; "prune"; "-f"]); ("images_all", ["image"; "prune"; "-a"; "-f"]);
          ("volumes", ["volume"; "prune"; "-f"]); ("system_all", ["system"; "prune"; "-a"; "-f"]);
          ("system_all_volumes", ["system"; "prune"; "-a"; "--volumes"; "-f"]);
          ("builder", ["builder"; "prune"; "-f"])] with
       | Some (_, (_, args)) => Ok (args, false)
       | None => Err "unknown prune target"
       end.

(** ** caddy_tasks.go *)
Definition caddyGeneratedFileName (serviceDir : string) : result string string :=
  let cleanDir := Clean (TrimSpace serviceDir) in
  if decide (cleanDir = "" ∨ cleanDir = ".") then Err "service_dir is required for caddy generated file"
  else
    let base := Base cleanDir in
    if decide (base = "." ∨ base = "/" ∨ base = "") then Err "resolve caddy generated file name from service_dir"
    else Ok (base +:+ ".caddy").
Definition resolveServiceCaddySourcePath (serviceRoot source : string) : result string string :=
  let cleanSource := Clean (RuntimeFilePath (TrimSpace source)) in
  if decide (cleanSource = "." ∨ cleanSource = "") then Err "network.caddy.source must not be empty"
  else
    let resolved := JoinPath [serviceRoot; cleanSource] in
    match Rel serviceRoot resolved with
    | Err e => Err "resolve caddy source path"
    | Ok relative => if relative_escapes relative then Err "network.caddy.source escapes service root" else Ok resolved
    end.

(** ** backup_restore_tasks.go *)
Definition resolveIncludeServicePath (serviceRoot includePath : string) : result string string :=
  let serviceRoot := Clean serviceRoot in
  let targetPath := JoinPath [serviceRoot; includePath] in
  match Rel serviceRoot targetPath with
  | Err e => Err "resolve include path"
  | Ok relPath => if relative_escapes relPath then Err "include must stay within the service root" else Ok targetPath
  end.

(** [strings.NewReplacer("/", "_", `\\`, "_", ":", "_")]: the raw literal is
    two backslashes. *)
Definition double_backslash : string := String (byte 92) (String (byte 92) "").
Fixpoint stage_replace (fuel : nat) (s : string) : string :=
  match fuel, s with
  | S fuel, String c s' =>
      if decide (c ∈ [byte 47; byte 58]) then String (byte 95) (stage_replace fuel s')
      else if HasPrefix s double_backslash then String (byte 95) (stage_replace fuel (drop_bytes 2 s))
      else String c (stage_replace fuel s')
  | _, _ => ""
  end.
Definition sanitizeStagePath (value : string) : string :=
  let value := TrimPrefix (TrimPrefix value "./") "/" in
  stage_replace (String.length value) value.

Definition runtimeDataInclude (include : string) : result string (DataIncludeKind * string) :=
  match ClassifyDataInclude include with
  | Ok (DataIncludeKindServicePath, normalized) => Ok (DataIncludeKindServicePath, RuntimeFilePath normalized)
  | r => r
  end.

(** ** data_stage.go *)
Definition dataProtectStageRoot (stateDir : string) : string := JoinPath [stateDir; "data-protect"].
Definition rusticDataProtectPath (localPath : string) (cfg : AgentConfig) (rustic : option RusticConfig)
    : result string string :=
  match rustic with
  | Some rustic =>
      if decide (TrimSpace (rus_DataProtectDir rustic) = "") then Ok localPath
      else match Rel (dataProtectStageRoot (ag_StateDir cfg)) localPath with
           | Err e => Err "resolve relative data-protect path"
           | Ok relativePath =>
               if relative_escapes relativePath then Err "path is outside agent data-protect stage root"
               else Ok (JoinPath [rus_DataProtectDir rustic; relativePath])
           end
  | None => Ok localPath
  end.
Definition postgresUserEnvironmentNames : list string :=
  ["PGUSER"; "POSTGRES_USER"; "POSTGRESQL_USERNAME"; "POSTGRESQL_USER"].
Fixpoint first_user (environment : gmap string string) (names : list string) : string :=
  match names with
  | [] => ""
  | name :: names =>
      let user := TrimSpace (default "" (environment !! name)) in
      if decide (user ≠ "") then user else first_user environment names
  end.
