(* ===== verification/AgentBundles.v ===== *)
(** * Service files on the agent: src/internal/app/agent/bundle.go and
    service_check.go

    Programs over the files of the host.  [os.OpenRoot] gives the names of a
    directory; it does not change while it is checked. *)
From S2P Require Export ComposeRuntime.

Section bundles.
Context `{StateJSON} `{PathResolver} `{AgentLibraries} `{MetaDecoder} `{Semver} `{TagLibraries}.

(** ** bundle.go *)
Record bundleResult := MkBundleResult {
  bun_ServiceName : string;
  bun_RelativeRoot : string;
  bun_RootPath : string;
}.

Definition tarEntryTargetPath (destinationDir entryName : string) : Go string :=
  let cleanEntryName := Clean entryName in
  if IsAbs cleanEntryName then err "absolute paths are not allowed"
  else if decide (cleanEntryName = ".") then ok (Clean destinationDir)
  else if relative_escapes cleanEntryName then err "parent traversal is not allowed"
  else
    let cleanDestinationDir := Clean destinationDir in
    joined ⇐ op (SecureJoinPath cleanDestinationDir cleanEntryName);
    match joined with
    | None => err "secure join"
    | Some cleanTargetPath =>
        if negb (HasPrefix cleanTargetPath (cleanDestinationDir +:+ "/")) &&
           bool_decide (cleanTargetPath ≠ cleanDestinationDir)
        then err "target path escapes destination root"
        else ok cleanTargetPath
    end.

Definition TypeReg : Z := 48.
Definition TypeLink : Z := 49.
Definition TypeSymlink : Z := 50.
Definition TypeDir : Z := 53.
(** TypeXHeader, TypeXGlobalHeader, TypeGNULongName, TypeGNULongLink *)
Definition skipped_types : list Z := [120; 103; 76; 75]%Z.

Definition extract_entry (destinationDir : string) (header : TarHeader) : Go () :=
  cleanTargetPath ←? tarEntryTargetPath destinationDir (tar_Name header);
  if decide (tar_Typeflag header = TypeDir) then
    _ ←? must (MakeDirs cleanTargetPath) "create tar directory";
    must (ChangeMode cleanTargetPath (tar_Mode header)) "chmod tar directory"
  else if decide (tar_Typeflag header = TypeReg) then
    _ ←? must (MakeDirs (Dir cleanTargetPath)) "create parent directory";
    _ ←? must (CreateEmpty cleanTargetPath (tar_Mode header)) "create tar file";
    match tar_Content header with
    | Err e => err "write tar file"
    | Ok text => must (WriteFile_ cleanTargetPath text) "write tar file"
    end
  else if decide (tar_Typeflag header = TypeSymlink ∨ tar_Typeflag header = TypeLink)
  then err "refuse tar link entry"
  else if decide (tar_Typeflag header ∈ skipped_types) then ok ()
  else err "unsupported tar entry type".

Definition extractTarStream (archive : list TarHeader * result string ()) (destinationDir : string) : Go () :=
  _ ←? must (MakeDirs destinationDir) "create tar destination";
  _ ←? go_each (extract_entry destinationDir) archive.1;
  match archive.2 with
  | Ok _ => ok ()
  | Err e => err "read tar stream"
  end.

Definition replaceDirectory (targetRoot stagedRoot : string) : Go () :=
  _ ←? must (MakeDirs (Dir targetRoot)) "create bundle parent dir";
  let backupRoot := targetRoot +:+ ".bak" in
  _ ←? must (RemoveTree backupRoot) "remove old bundle backup";
  existing ⇐ op (StatFile targetRoot);
  hadExisting ←? match existing with
                 | Ok _ => _ ←? must (RenamePath targetRoot backupRoot) "move existing bundle to backup"; ok true
                 | Err NotExist => ok false
                 | Err StatFailed => err "stat existing bundle root"
                 end;
  activated ⇐ op (RenamePath stagedRoot targetRoot);
  if activated : bool then
    if hadExisting : bool then must (RemoveTree backupRoot) "remove bundle backup" else ok ()
  else
    _ ⇐ (if hadExisting then op (RenamePath backupRoot targetRoot) else Ret true);
    err "activate staged bundle".

(** The first message with a name and the first with a root. *)
Definition first_text (f : BundleMessage → string) (messages : list BundleMessage) : string :=
  default "" (head (filter (λ s, s ≠ "") (f <$> messages))).

Definition staged_bundle (serviceName relativeRoot targetRoot stageDir : string) (data : list string)
    : Go bundleResult :=
  _ ←? extractTarStream (read_archive data) stageDir;
  let stagedRoot := JoinPath [stageDir; relativeRoot] in
  found ⇐ op (StatFile stagedRoot);
  match found with
  | Err NotExist => err "bundle archive did not contain expected root"
  | Err StatFailed => err "stat staged bundle root"
  | Ok _ =>
      _ ←? replaceDirectory targetRoot stagedRoot;
      ok (MkBundleResult serviceName relativeRoot targetRoot)
  end.

(** The deferred removals of the temporary file and of the stage run whatever
    the outcome. *)
Definition downloadServiceBundle (cfg : AgentConfig) (taskID serviceDir : string) : Go bundleResult :=
  executionID ⇐ taskExecutionID;
  stream ←? call (GetServiceBundleRequest taskID serviceDir executionID);
  temp ⇐ op (MakeTempFile (ag_StateDir cfg) "bundle-*.tar.gz");
  match temp with
  | None => err "create temp bundle file"
  | Some tempPath =>
      result ⇐
        (let serviceName := first_text bm_ServiceName stream.1 in
         let relativeRoot := first_text bm_RelativeRoot stream.1 in
         _ ←? must (WriteFile_ tempPath (foldr String.append "" (bm_Data <$> stream.1))) "write temp bundle file";
         _ ←? Ret stream.2;
         if decide (relativeRoot = "") then err "bundle stream did not include relative_root metadata"
         else
           '(targetRoot, cleanRelativeRoot) ←? of_text (resolveRepoRelativePath (ag_RepoDir cfg) relativeRoot);
           _ ←? must (MakeDirs (Dir targetRoot)) "create bundle stage parent dir";
           stage ⇐ op (MakeTempDir (Dir targetRoot) ".bundle-stage-*");
           match stage with
           | None => err "create bundle stage dir"
           | Some stageDir =>
               result ⇐ staged_bundle serviceName cleanRelativeRoot targetRoot stageDir (bm_Data <$> stream.1);
               _ ⇐ op (RemoveTree stageDir);
               Ret result
           end);
      _ ⇐ op (RemoveFile tempPath);
      Ret result
  end.

(** ** service_check.go: files *)
Definition ConsistencyUnknown : string := "unknown".
Definition ConsistencyConsistent : string := "consistent".
Definition ConsistencyDrifted : string := "drifted".
Definition ConsistencyError : string := "error".
Definition ConsistencyNotApplicable : string := "not_applicable".

(** An error that is a drift, or another one. *)
Inductive CheckError := Drift (message : string) | Failure (error : ConnectError).

Definition consistencyOutcome {A} (r : result CheckError A) : ServiceConsistencyOutcome :=
  match r with
  | Ok _ => MkServiceConsistencyOutcome ConsistencyConsistent []
  | Err (Drift message) => MkServiceConsistencyOutcome ConsistencyDrifted [message]
  | Err (Failure e) => MkServiceConsistencyOutcome ConsistencyError [error_text e]
  end.
Definition failure {A} (message : string) : result CheckError A := Err (Failure (NewError CodeUnknown message)).
Definition check_error (e : CheckError) : ConnectError :=
  match e with Drift message => NewError CodeUnknown message | Failure e => e end.

(** [fs.ValidPath] of a valid UTF-8 text. *)
Definition valid_element (e : string) : bool := bool_decide (e ≠ "" ∧ e ≠ "." ∧ e ≠ "..").
Definition ValidPath (name : string) : bool :=
  bool_decide (name = ".") || forallb valid_element (Split name sep).

Definition mode_differs (info : FileInfo) (mode : Z) : bool :=
  negb (bool_decide (fi_Type info = RegularFile)) || fi_Special info ||
  bool_decide (Z.land (fi_Perm info) (Z.lnot mode) ≠ 0)%Z ||
  bool_decide (Z.land (fi_Perm info) 64 ≠ Z.land mode 64)%Z.

Definition verify_file (root : Root) (seen : list string) (file : ServiceManifestFile)
    : result CheckError (list string) :=
  let name := mf_Path file in
  if negb (ValidPath name) || bool_decide (name = ".") || bool_decide (name ∈ seen) ||
     bool_decide (String.length (mf_Sha256 file) ≠ 64) || bool_decide (511 < mf_Mode file)%Z
  then failure "invalid service manifest entry"
  else match root name with
  | Err NotExist => Err (Drift "service file is missing; deploy or update first")
  | Err StatFailed => failure "inspect service file"
  | Ok entry =>
      if mode_differs (re_Info entry) (mf_Mode file)
      then Err (Drift "service file has different type or permissions; deploy or update first")
      else match re_Content entry with
      | Err e => failure "hash service file"
      | Ok text =>
          if decide (sha256_hex text ≠ mf_Sha256 file)
          then Err (Drift "service file differs from the controller; deploy or update first")
          else Ok (name :: seen)
      end
  end.

Definition verify_root (root : Root) (files : list ServiceManifestFile) : result CheckError () :=
  result_bind (for_each (verify_file root) [] files) (λ seen,
  if decide (MetaFileName ∉ seen) then failure "service manifest is missing composia-meta.yaml"
  else if decide (".env" ∈ seen) then Ok ()
  else match root ".env" with
       | Ok _ => Err (Drift "local .env is not managed by the controller")
       | Err NotExist => Ok ()
       | Err StatFailed => failure "lstat .env"
       end).

Definition verifyServiceFiles (serviceRoot : string) (files : list ServiceManifestFile)
    : Prog (result CheckError ()) :=
  opened ⇐ op (OpenRoot serviceRoot);
  Ret (match opened with
       | Err NotExist => Err (Drift "open service root")
       | Err StatFailed => failure "open service root"
       | Ok root => verify_root root files
       end).

Definition checkServiceFiles (taskID repoRevision serviceDir serviceRoot : string)
    : Prog (result CheckError ()) :=
  executionID ⇐ taskExecutionID;
  answer ⇐ call (GetServiceManifestRequest taskID executionID serviceDir);
  match answer with
  | Err e => Ret (Err (Failure e))
  | Ok manifest =>
      if decide (sf_RepoRevision manifest ≠ repoRevision ∨ sf_RelativeRoot manifest ≠ serviceDir)
      then Ret (failure "service manifest does not match the task revision and directory")
      else verifyServiceFiles serviceRoot (sf_Files manifest)
  end.

(** [errors.Join] of the check and of its report. *)
Definition join_errors {A} (checked : result CheckError A) (reported : result ConnectError ()) : Go A :=
  Ret (match checked with
       | Err e => Err (check_error e)
       | Ok a => match reported with Ok _ => Ok a | Err e => Err e end
       end).

Definition checkTaskServiceFiles (cfg : AgentConfig) (pulledTask : AgentTask) (serviceDir : string) : Go string :=
  '(root, relative) ←? of_text (resolveRepoRelativePath (ag_RepoDir cfg) serviceDir);
  checked ⇐ checkServiceFiles (at_TaskId pulledTask) (at_RepoRevision pulledTask) relative root;
  executionID ⇐ taskExecutionID;
  reported ⇐ report (ReportServiceConsistencyCheckRequest (at_TaskId pulledTask) executionID relative
                       (consistencyOutcome checked) (MkServiceConsistencyOutcome ConsistencyUnknown []));
  _ ←? join_errors checked reported;
  ok root.

(** ** Metadata and compose configuration of a service directory *)
Definition loadServiceTaskMeta (serviceDir : string) : Go Meta :=
  read ⇐ op (ReadFile_ (JoinPath [serviceDir; MetaFileName]));
  match read with
  | Err e => err "read service meta"
  | Ok text => of_text (decode_meta text)
  end.

Definition loadComposeCommandConfig (serviceDir fallback : string) : Go (composeCommandConfig * Meta) :=
  meta ←? loadServiceTaskMeta serviceDir;
  composeFiles ←? of_text (NormalizedComposeFiles meta);
  ok (MkComposeCommandConfig (ComposeProjectName (sm_ProjectName meta) fallback) (RuntimeFilePath <$> composeFiles),
      meta).

(** A command run for its output. *)
Definition docker_output (dir : string) (args : list string) : Go string :=
  output ⇐ op (DockerOutput dir args);
  of_text output.

(** ** service_check.go: containers *)
Record checkedServiceContainers := MkCheckedServiceContainers {
  chk_config : composeConfigOutput;
  chk_byService : gmap string (list serviceCheckContainer);
  chk_services : list string;
}.

Definition compose_version_ok (version : string) : bool :=
  match parseSimpleSemver version, parseSimpleSemver "5.5.1" with
  | Some version, Some minimum => bool_decide (0 ≤ ss_compare version minimum)%Z
  | _, _ => false
  end.

Definition add_hash (hashes : gmap string string) (line : string) : result string (gmap string string) :=
  match Fields line with
  | [name; hash] =>
      if decide (String.length hash ≠ 64 ∨ default "" (hashes !! name) ≠ "")
      then Err "invalid docker compose config --hash output"
      else Ok (<[name := hash]> hashes)
  | _ => Err "invalid docker compose config --hash output"
  end.

(** A container of the project, under the service it is labelled with. *)
Definition add_container (project : string) (config : composeConfigOutput) (hashes : gmap string string)
    (byService : gmap string (list serviceCheckContainer)) (container : serviceCheckContainer)
    : result CheckError (gmap string (list serviceCheckContainer)) :=
  let label name := default "" (scc_Labels container !! name) in
  if decide (label "com.docker.compose.project" ≠ project) then Ok byService
  else if EqualFold (label "com.docker.compose.oneoff") "true" then Ok byService
  else
    let service := label "com.docker.compose.service" in
    if decide (config !! service = None)
    then Err (Drift "container belongs to undeclared compose service; reconcile the deployment first")
    else if decide (label "com.docker.compose.config-hash" ≠ default "" (hashes !! service))
    then Err (Drift "compose configuration for container is not applied; deploy or update first")
    else Ok (<[service := default [] (byService !! service) ++ [container]]> byService).

(** The services with an image that have containers; one without profiles
    must have some. *)
Definition add_service (byService : gmap string (list serviceCheckContainer)) (services : list string)
    (entry : string * composeConfigService) : result CheckError (list string) :=
  let '(name, service) := entry in
  if decide (default [] (byService !! name) = []) then
    if decide (ccs_Profiles service ≠ []) then Ok services
    else Err (Drift "compose service has no container; deploy or update first")
  else Ok (if decide (ccs_Image service ≠ "") then services ++ [name] else services).

(** The pure part: what the outputs of the commands say. *)
Definition compare_containers (project : string) (config : composeConfigOutput) (hashes : gmap string string)
    (containers : list serviceCheckContainer) : result CheckError checkedServiceContainers :=
  result_bind (for_each (add_container project config hashes) ∅ containers) (λ byService,
  result_bind (for_each (add_service byService) [] (map_to_list config)) (λ services,
  Ok (MkCheckedServiceContainers config byService (string_sort services)))).

Definition hashes_complete (config : composeConfigOutput) (hashes : gmap string string) : result string () :=
  for_each (λ _ entry, if decide (default "" (hashes !! (entry : string * composeConfigService).1) = "")
                       then Err "compose config hash is missing for service" else Ok ()) () (map_to_list config).

Definition checkServiceContainers (serviceRoot : string) (compose : composeCommandConfig)
    : Prog (result CheckError checkedServiceContainers) :=
  observed ⇐
    (version ←? docker_output serviceRoot ["compose"; "version"; "--short"];
     _ ←? (if compose_version_ok (TrimSpace version) then ok ()
           else err "docker compose 5.5.1 or newer is required for configuration checks");
     config ←? docker_output serviceRoot (buildComposeArgs compose ["--profile"; "*"; "config"; "--format"; "json"]);
     config ←? of_text (decode_compose_config config);
     lines ←? docker_output serviceRoot (buildComposeArgs compose ["--profile"; "*"; "config"; "--hash"; "*"]);
     hashes ←? of_text (for_each add_hash ∅ (Split (TrimSpace lines) (byte 10)));
     _ ←? of_text (hashes_complete config hashes);
     ids ←? docker_output serviceRoot ["container"; "ls"; "--all"; "--quiet"; "--filter";
                                       "label=com.docker.compose.project=" +:+ cmd_ProjectName compose];
     containers ←? (if decide (Fields ids = []) then ok []
                    else inspected ←? docker_output serviceRoot (["container"; "inspect"] ++ Fields ids);
                         of_text (decode_containers inspected));
     ok (config, hashes, containers));
  Ret (match observed with
       | Err e => Err (Failure e)
       | Ok (config, hashes, containers) =>
           compare_containers (cmd_ProjectName compose) config hashes containers
       end).

(** The report comes after the check, whatever its outcome. *)
Definition checkServiceConsistency (pulledTask : AgentTask) (serviceRoot : string)
    : Go (Meta * option checkedServiceContainers) :=
  let unknown := MkServiceConsistencyOutcome ConsistencyUnknown [] in
  let reporting {A} (files compose : ServiceConsistencyOutcome) (checked : result CheckError A) : Go A :=
    executionID ⇐ taskExecutionID;
    reported ⇐ report (ReportServiceConsistencyCheckRequest (at_TaskId pulledTask) executionID "" files compose);
    join_errors checked reported in
  checked ⇐ checkServiceFiles (at_TaskId pulledTask) (at_RepoRevision pulledTask) (at_ServiceDir pulledTask)
              serviceRoot;
  let files := consistencyOutcome checked in
  match checked with
  | Err e => reporting files unknown (Err e)
  | Ok _ =>
      meta ⇐ loadServiceTaskMeta serviceRoot;
      match meta with
      | Err e => reporting files (consistencyOutcome (A := ()) (Err (Failure e))) (Err (Failure e))
      | Ok meta =>
          if IsConfigInfra meta
          then reporting files (MkServiceConsistencyOutcome ConsistencyNotApplicable []) (Ok (meta, None))
          else
            compose ⇐ loadComposeCommandConfig serviceRoot (at_ServiceName pulledTask);
            containers ⇐ match compose with
                         | Err e => Ret (Err (Failure e))
                         | Ok (compose, _) => checkServiceContainers serviceRoot compose
                         end;
            reporting files (consistencyOutcome containers)
              (match containers with
               | Ok containers => Ok (meta, Some containers)
               | Err e => Err e
               end)
      end
  end.
End bundles.

(** ** What the agent accepts as unchanged files: theorems on AgentBundles.v *)

Section theorems.
Context `{StateJSON} `{PathResolver} `{AgentLibraries} `{MetaDecoder} `{Semver} `{TagLibraries}.

(** The manifest entry is well-formed, and the file has its type, permissions
    and content. *)
Definition entry_valid (file : ServiceManifestFile) : Prop :=
  ValidPath (mf_Path file) = true ∧ mf_Path file ≠ "." ∧ String.length (mf_Sha256 file) = 64 ∧ (mf_Mode file ≤ 511)%Z.
Definition file_matches (root : Root) (file : ServiceManifestFile) : Prop :=
  ∃ entry text, root (mf_Path file) = Ok entry ∧ mode_differs (re_Info entry) (mf_Mode file) = false ∧
    re_Content entry = Ok text ∧ sha256_hex text = mf_Sha256 file.

Lemma verify_file_Ok root seen file seen' :
  verify_file root seen file = Ok seen' ↔
  entry_valid file ∧ (mf_Path file ∉ seen) ∧ file_matches root file ∧ seen' = mf_Path file :: seen.
Proof.
  unfold verify_file, entry_valid, file_matches. cbv zeta.
  destruct (negb _ || _ || _ || _ || _) eqn:Hbad.
  - split; [done|]. intros ((Hv & Hd & Hs & Hm) & Hseen & _).
    rewrite Hv, !bool_decide_eq_false_2 in Hbad by (done || lia). done.
  - repeat (apply orb_false_iff in Hbad as [Hbad ?Hb]). apply negb_false_iff in Hbad.
    repeat match goal with Hb : bool_decide _ = false |- _ => apply bool_decide_eq_false in Hb end.
    assert (Hvalid : ValidPath (mf_Path file) = true ∧ mf_Path file ≠ "." ∧ String.length (mf_Sha256 file) = 64 ∧ (mf_Mode file ≤ 511)%Z)
      by (split_and!; [done|done|by apply dec_stable|lia]).
    destruct (root (mf_Path file)) as [entry|[]] eqn:Hr; [|by split; [|intros (_ & _ & (? & ? & [=] & _) & _)]..].
    destruct (mode_differs _ _) eqn:Hmode; [split; [done|]; by intros (_ & _ & (? & ? & [= <-] & Hm & _) & _); rewrite Hmode in Hm|].
    destruct (re_Content entry) as [text|er] eqn:Hc; [|split; [done|]; by intros (_ & _ & (? & ? & [= <-] & _ & Hm & _) & _); rewrite Hc in Hm].
    destruct (decide _) as [Hs|Hs].
    + split; [done|]. intros (_ & _ & (? & ? & [= <-] & _ & Hm & Hsha) & _). rewrite Hc in Hm. by injection Hm as ->.
    + apply dec_stable in Hs. split; [|by intros (_ & _ & _ & ->)].
      intros [= <-]. split; [exact Hvalid|]. split_and!; [done| |done]. by exists entry, text.
Qed.

Lemma verify_files_Ok root files seen seen' :
  for_each (verify_file root) seen files = Ok seen' ↔
  (∀ f, f ∈ files → entry_valid f ∧ file_matches root f) ∧ NoDup (mf_Path <$> files) ∧
  (∀ p, p ∈ mf_Path <$> files → p ∉ seen) ∧ seen' = reverse (mf_Path <$> files) ++ seen.
Proof.
  revert seen. induction files as [|f files IH]; intros seen.
  { cbn. split; [intros [= <-]; split_and!; try done; [by intros ? ?%elem_of_nil|constructor|by intros ? ?%elem_of_nil]|by intros (_ & _ & _ & ->)]. }
  split.
  - cbn [for_each]. intros (s1 & (Hv & Hn & Hm & ->)%verify_file_Ok & Hr)%result_bind_Ok. apply IH in Hr as (Ha & Hnd & Hd & ->).
    split_and!.
    + intros g [->|Hg]%elem_of_cons; [done|by apply Ha].
    + apply NoDup_cons. split; [|done]. intros Hin. apply (Hd _ Hin). by left.
    + intros p [->|Hp]%elem_of_cons; [done|]. intros Hs. apply (Hd _ Hp). by right.
    + by rewrite fmap_cons, reverse_cons, <-(assoc_L (++)).
  - intros (Ha & [Hni Hnd]%NoDup_cons & Hd & ->). cbn [for_each]. apply result_bind_Ok. exists (mf_Path f :: seen). split.
    + apply verify_file_Ok. destruct (Ha f) as [? ?]; [by left|]. split_and!; [done| |done|done]. apply Hd. by left.
    + apply IH. split_and!; [intros g Hg; apply Ha; by right|done| |by rewrite fmap_cons, reverse_cons, <-(assoc_L (++))].
      intros p Hp [->|Hs]%elem_of_cons; [done|]. apply (Hd p); [by right|done].
Qed.

(** The check of a service directory accepts exactly the directories the
    controller described: it succeeds if and only if the manifest is
    well-formed and lists no path twice, contains the metadata file, every
    file it lists exists with its type, permissions and content, and there is
    no .env file it does not list. *)
Theorem verify_root_accepts root files :
  verify_root root files = Ok () ↔
  (∀ f, f ∈ files → entry_valid f ∧ file_matches root f) ∧ NoDup (mf_Path <$> files) ∧
  MetaFileName ∈ mf_Path <$> files ∧
  (".env" ∈ mf_Path <$> files ∨ root ".env" = Err NotExist).
Proof.
  unfold verify_root. split.
  - intros (seen & (Ha & Hnd & _ & ->)%verify_files_Ok & Hr)%result_bind_Ok. rewrite (right_id_L [] (++)) in Hr.
    destruct (decide _) as [|Hmeta]; [done|]. apply dec_stable in Hmeta. rewrite elem_of_reverse in Hmeta.
    destruct (decide _) as [Henv|]; [rewrite elem_of_reverse in Henv; by split_and!; try left|].
    destruct (root ".env") as [|[]]; try done. by split_and!; try right.
  - intros (Ha & Hnd & Hmeta & Henv). apply result_bind_Ok. eexists. split.
    { apply verify_files_Ok. split_and!; [done|done|by intros ? _ ?%elem_of_nil|done]. }
    rewrite (right_id_L [] (++)), decide_False by (intros Hn; by rewrite elem_of_reverse in Hn).
    destruct (decide _) as [|Hne]; [done|]. rewrite elem_of_reverse in Hne. by destruct Henv as [?| ->].
Qed.
End theorems.
