(* ===== verification/AgentTasks.v ===== *)
(** * The tasks of an agent: src/internal/app/agent/service_tasks.go,
    maintenance_tasks.go, rustic_tasks.go, caddy_tasks.go, compose_runtime.go,
    image_update.go, the docker tasks of docker.go, and task_dispatch.go

    One program per task type.  [uploadTaskLog] never returns an error, so
    its error branches are left out.  Backups and restores are in
    AgentBackups.v. *)
From S2P Require Export AgentBundles ImageReports.

(** [reference.Digested] *)
Class DigestReferences `{ImageReferences} := ref_digest : named_ref → option string.

Section tasks.
Context `{StateJSON} `{PathResolver} `{AgentLibraries} `{MetaDecoder} `{Semver} `{TagLibraries} `{ImageReferences}.
Context `{!DigestReferences} `{RegistryLibraries} `{DockerCommand} `{MetaDocuments} `{ParamsJSON}.
(** [pages]: the pages of a registry that are followed; [files]: the files of
    a service directory. *)
Context (cfg : AgentConfig) (pages : nat) (files : string → string → option string).

(** [if v, err := m; err != nil { return handler(err) }] *)
Definition on_error {A B} (m : Go A) (handler : ConnectError → Go B) (k : A → Go B) : Go B :=
  r ⇐ m;
  match r with
  | Err e => handler e
  | Ok a => k a
  end.
Definition failing {B} (pulledTask : AgentTask) (e : ConnectError) : Go B := failTask (at_TaskId pulledTask) e.
Definition failing_service {B} (pulledTask : AgentTask) (e : ConnectError) : Go B := failServiceTask cfg pulledTask e.

Definition step {A} (pulledTask : AgentTask) (stepName : string) (execute : Go A) : Go A :=
  executeTaskStep (at_TaskId pulledTask) stepName execute.
Definition succeed (pulledTask : AgentTask) : Go () :=
  reportTaskCompletion (at_TaskId pulledTask) StatusSucceeded "".

(** ** Commands: their output goes to the task log, line by line *)
Definition run_command (dir : string) (args : list string) (message : string) : Go string :=
  output ⇐ op (Docker dir args);
  match output with
  | Ok text => _ ←? uploadTaskLog text; ok text
  | Err e => err message
  end.
Definition run_quietly (dir : string) (args : list string) (message : string) : Go () :=
  _ ←? run_command dir args message; ok ().

Definition runComposeUpWithOptions (serviceDir : string) (compose : composeCommandConfig) (forceRecreate : bool) : Go () :=
  run_quietly serviceDir
    (buildComposeArgs compose ["up"; "-d"] ++ if forceRecreate then ["--force-recreate"] else [])
    "docker compose up failed".
Definition runComposeUp (serviceDir : string) (compose : composeCommandConfig) : Go () :=
  runComposeUpWithOptions serviceDir compose false.
Definition runComposeDown (serviceDir : string) (compose : composeCommandConfig) : Go () :=
  run_quietly serviceDir (buildComposeArgs compose ["down"]) "docker compose down failed".
Definition runComposePull (serviceDir : string) (compose : composeCommandConfig) : Go () :=
  run_quietly serviceDir (buildComposeArgs compose ["pull"]) "docker compose pull failed".
Definition composeProjectRunning (serviceDir : string) (compose : composeCommandConfig) : Go bool :=
  output ←? docker_output serviceDir
    (buildComposeArgs compose ["ps"; "--all"; "--status"; "running"; "--status"; "paused"; "--status"; "restarting"; "-q"]);
  ok (bool_decide (bytesTrimSpace (String.list_ascii_of_string output) ≠ [])).

(** ** compose_runtime.go *)
Definition bind_mount (serviceRoot serviceName : string) (volume : composeConfigVolume)
    : result string (option serviceDirBindMount) :=
  if decide (ccv_Type volume ≠ "bind" ∨ TrimSpace (ccv_Source volume) = "") then Ok None
  else
    let sourcePath := if IsAbs (ccv_Source volume) then ccv_Source volume
                      else JoinPath [serviceRoot; ccv_Source volume] in
    match path_Abs sourcePath with
    | None => Err "resolve bind source"
    | Some sourcePath =>
        Ok (if pathInside serviceRoot sourcePath
            then Some (MkServiceDirBindMount serviceName sourcePath (ccv_Target volume)) else None)
    end.
Definition service_mounts (serviceRoot : string) (mounts : list serviceDirBindMount)
    (entry : string * composeConfigService) : result string (list serviceDirBindMount) :=
  for_each (λ mounts volume,
    result_bind (bind_mount serviceRoot entry.1 volume) (λ mount,
    Ok (mounts ++ match mount with Some m => [m] | None => [] end))) mounts (ccs_Volumes entry.2).
Definition detectServiceDirBindMounts (serviceDir : string) (compose : composeCommandConfig)
    : Go (list serviceDirBindMount) :=
  stdout ←? docker_output serviceDir (buildComposeArgs compose ["config"; "--format"; "json"]);
  config ←? of_text (decode_compose_config stdout);
  serviceRoot ←? of_text (match path_Abs serviceDir with Some p => Ok p | None => Err "resolve service directory" end);
  of_text (for_each (service_mounts serviceRoot) [] (map_to_list (config : gmap string composeConfigService))).

Definition resolveComposeForceRecreate (serviceDir : string) (compose : composeCommandConfig) (mode : string) : Go bool :=
  let normalizedMode := normalizeComposeRecreateMode mode in
  _ ←? uploadTaskLog ("compose recreate mode=" +:+ normalizedMode);
  if decide (normalizedMode = composeRecreateForce)
  then _ ←? uploadTaskLog "using docker compose up -d --force-recreate by request"; ok true
  else
    mounts ⇐ detectServiceDirBindMounts serviceDir compose;
    match mounts with
    | Err e =>
        if decide (normalizedMode = composeRecreateAuto) then Ret (Err e)
        else _ ←? uploadTaskLog "warning: could not inspect compose bind mounts"; ok false
    | Ok [] => ok false
    | Ok mounts =>
        _ ←? uploadTaskLog "detected bind mounts from replaceable service directory:";
        _ ←? go_each (λ mount, uploadTaskLog ("- " +:+ sbm_Service mount)) mounts;
        if decide (normalizedMode = composeRecreateNo)
        then _ ←? uploadTaskLog "warning: recreate is disabled by request; using docker compose up -d"; ok false
        else _ ←? uploadTaskLog "using docker compose up -d --force-recreate to refresh bind mounts"; ok true
    end.
Definition runComposeUpForServiceTask (serviceDir : string) (compose : composeCommandConfig) (mode : string) : Go () :=
  forceRecreate ←? resolveComposeForceRecreate serviceDir compose mode;
  runComposeUpWithOptions serviceDir compose forceRecreate.

(** ** caddy_tasks.go *)
Definition syncServiceCaddyFile (serviceDir serviceRoot : string) : Go () :=
  targetName ←? of_text (caddyGeneratedFileName serviceDir);
  meta ←? loadServiceTaskMeta serviceRoot;
  let source := CaddySource (MkService "" "" "" [] false meta) in
  if decide (source = "") then uploadTaskLog "does not enable network.caddy, skipping caddy sync"
  else
    sourcePath ←? of_text (resolveServiceCaddySourcePath serviceRoot source);
    let targetPath := JoinPath [CaddyGeneratedDir cfg; targetName] in
    _ ←? must (MakeDirs (Dir targetPath)) "create generated caddy directory";
    contents ⇐ op (ReadFile_ sourcePath);
    match contents with
    | Err e => err "read caddy source"
    | Ok text =>
        _ ←? must (WriteFile_ targetPath text) "write generated caddy file";
        uploadTaskLog "synced caddy file"
    end.
Definition removeServiceCaddyFile (serviceDir : string) : Go () :=
  targetName ←? of_text (caddyGeneratedFileName serviceDir);
  removed ⇐ op (RemoveFile (JoinPath [CaddyGeneratedDir cfg; targetName]));
  match removed with
  | Ok _ => uploadTaskLog "removed generated caddy file"
  | Err NotExist => uploadTaskLog "generated caddy file does not exist, skipping removal"
  | Err StatFailed => err "remove generated caddy file"
  end.
Definition executeCaddySyncStep (pulledTask : AgentTask) (serviceRoot : string) : Go () :=
  step pulledTask StepCaddySync (syncServiceCaddyFile (at_ServiceDir pulledTask) serviceRoot).

(** A generated file of the directory is removed; the rest stays. *)
Definition remove_generated (entry : string * bool) : Go () :=
  if decide (entry.2 = true ∨ HasSuffix entry.1 ".caddy" = false) then ok ()
  else
    removed ⇐ op (RemoveFile (JoinPath [CaddyGeneratedDir cfg; entry.1]));
    match removed with
    | Ok _ => uploadTaskLog "removed generated caddy file"
    | Err _ => err "remove generated caddy file"
    end.
Definition syncCaddyFilesForTask (pulledTask : AgentTask) (params : serviceTaskParams) : Go () :=
  let serviceDirs := if decide (tp_ServiceDirs params = [] ∧ at_ServiceDir pulledTask ≠ "")
                     then [at_ServiceDir pulledTask] else tp_ServiceDirs params in
  roots ←? go_map (checkTaskServiceFiles cfg pulledTask) serviceDirs;
  _ ←? (if tp_FullRebuild params then
          entries ⇐ op (ListDir (CaddyGeneratedDir cfg));
          match entries with
          | Ok entries => go_each remove_generated entries
          | Err NotExist => ok ()
          | Err StatFailed => err "read generated caddy directory"
          end
        else ok ());
  go_each (λ dir_root, syncServiceCaddyFile dir_root.1 dir_root.2) (zip serviceDirs roots).

Definition executeCaddySyncTask (pulledTask : AgentTask) : Go () :=
  on_error (of_text (taskParams (at_ParamsJson pulledTask))) (failing pulledTask) (λ params,
  _ ←? uploadTaskLog "starting caddy sync task";
  on_error (step pulledTask StepRender (uploadTaskLog "render step completed for caddy sync task"))
    (failing pulledTask) (λ _,
  on_error (step pulledTask StepCaddySync (syncCaddyFilesForTask pulledTask params)) (failing pulledTask) (λ _,
  _ ←? uploadTaskLog "caddy sync task finished successfully";
  succeed pulledTask))).

(** ** service_tasks.go *)
Definition localServiceRoot (pulledTask : AgentTask) : Go string :=
  if decide (at_ServiceDir pulledTask = "") then err "task is missing service_dir"
  else
    '(serviceRoot, _) ←? of_text (resolveRepoRelativePath (ag_RepoDir cfg) (at_ServiceDir pulledTask));
    found ⇐ op (StatFile (JoinPath [serviceRoot; MetaFileName]));
    match found with
    | Ok _ => ok serviceRoot
    | Err NotExist => err "service bundle is not present on agent"
    | Err StatFailed => err "stat service bundle"
    end.
Definition prepareLocalServiceTask (pulledTask : AgentTask) : Go string :=
  step pulledTask StepRender (localServiceRoot pulledTask).

Definition executeCaddyReloadTask (pulledTask : AgentTask) : Go () :=
  on_error (localServiceRoot pulledTask) (failing pulledTask) (λ serviceRoot,
  on_error (loadComposeCommandConfig serviceRoot (at_ServiceName pulledTask)) (failing pulledTask) (λ loaded,
  _ ←? uploadTaskLog "starting caddy reload task";
  on_error (step pulledTask StepCaddyReload
      (run_quietly serviceRoot
         (buildComposeArgs loaded.1 ["exec"; "-T"; CaddyComposeService loaded.2; "caddy"; "reload"; "--config";
                                     JoinPath [CaddyConfigDir loaded.2; "Caddyfile"]; "--adapter"; "caddyfile"])
         "docker compose exec caddy reload failed")) (failing pulledTask) (λ _,
  _ ←? uploadTaskLog "caddy reload task finished successfully";
  succeed pulledTask))).

(** ** image_update.go: what runs *)
Definition inspectLocalImageDigest (imageRef : string) : Go string :=
  stdout ←? docker_output ""
    ["image"; "inspect"; "--format"; "{{range .RepoDigests}}{{println .}}{{end}}"; imageRef];
  ok (digestForImageRefFromRepoDigests stdout imageRef).

Definition image_observation (composeService imageRef localDigest remoteDigest errorSummary : string) : AgentImageState :=
  MkAgentImageState composeService imageRef localDigest remoteDigest (bool_decide (localDigest ≠ ""))
    (bool_decide (remoteDigest ≠ "")) (if decide (errorSummary ≠ "") then ImageCheckStatusError else ImageCheckStatusOK)
    errorSummary.
Definition observe_image (includeRemote : bool) (composeService imageRef : string) : Go AgentImageState :=
  local ⇐ inspectLocalImageDigest imageRef;
  let localDigest := match local with Ok digest => digest | Err _ => "" end in
  let summary := match local with Ok _ => "" | Err _ => appendImageObservationError "" "local digest" end in
  if includeRemote then
    remote ⇐ op (Ask (inspectRemoteImageDigest imageRef));
    ok (image_observation composeService imageRef localDigest (match remote with Ok digest => digest | Err _ => "" end)
          (match remote with Ok _ => summary | Err _ => appendImageObservationError summary "remote digest" end))
  else ok (image_observation composeService imageRef localDigest "" summary).

Definition collectServiceImageObservations (serviceDir : string) (compose : composeCommandConfig)
    (includeRemote : bool) : Go (list AgentImageState) :=
  stdout ←? docker_output serviceDir (buildComposeArgs compose ["config"; "--format"; "json"]);
  config ←? of_text (decode_compose_config stdout);
  let images := (λ name, (name, TrimSpace (default "" (ccs_Image <$> config !! name)))) <$>
                  string_sort (map_to_list (config : gmap string composeConfigService)).*1 in
  go_map (λ image, observe_image includeRemote image.1 image.2)
    (filter (λ image : string * string, image.2 ≠ "") images).

Definition reportServiceImageObservations (pulledTask : AgentTask) (observations : list AgentImageState) : Go () :=
  if decide (length observations = 0) then uploadTaskLog "no compose service images found to report"
  else
    executionID ⇐ taskExecutionID;
    _ ←? report (ReportServiceImageStatesRequest (at_TaskId pulledTask) executionID (at_ServiceName pulledTask)
                   (at_NodeId pulledTask) observations);
    uploadTaskLog "reported service image states".
Definition reportServiceImageStates (pulledTask : AgentTask) (serviceDir : string) (includeRemote : bool) : Go () :=
  '(compose, _) ←? loadComposeCommandConfig serviceDir (at_ServiceName pulledTask);
  observations ←? collectServiceImageObservations serviceDir compose includeRemote;
  reportServiceImageObservations pulledTask observations.
Definition reportServiceImageStatesBestEffort (pulledTask : AgentTask) (serviceDir : string) (includeRemote : bool)
    : Go () :=
  reported ⇐ reportServiceImageStates pulledTask serviceDir includeRemote;
  match reported with
  | Ok _ => ok ()
  | Err e => uploadTaskLog "warning: could not report service image states"
  end.

(** ** service_check.go: running images *)
Definition runningImageDigest (imageRef : string) (repoDigests : list string) : result string string :=
  match ParseNormalizedNamed imageRef with
  | None => Err "invalid reference"
  | Some configured =>
      let matches := remove_dups (omap (λ value,
        match ParseNormalizedNamed value with
        | Some observed => if decide (FamiliarName (TrimNamed observed) = FamiliarName (TrimNamed configured))
                           then ref_digest observed else None
        | None => None
        end) repoDigests) in
      match ref_digest configured with
      | Some pinned => if decide (pinned ∈ matches) then Ok pinned
                       else Err "running image does not match configured digest"
      | None => match matches with
                | [digest] => Ok digest
                | _ => Err "running image has no unambiguous repository digest"
                end
      end
  end.
(** The digest all replicas of a service run. *)
Fixpoint replicas_digest (serviceRoot imageRef digest : string) (containers : list serviceCheckContainer) : Go string :=
  match containers with
  | [] => ok digest
  | container :: containers =>
      output ←? docker_output serviceRoot
        ["image"; "inspect"; "--format"; "{{json .RepoDigests}}"; scc_Image container];
      repoDigests ←? of_text (decode_strings output);
      found ←? of_text (runningImageDigest imageRef repoDigests);
      if decide (digest ≠ "" ∧ digest ≠ found) then err "compose service has replicas running different image digests"
      else replicas_digest serviceRoot imageRef found containers
  end.
Definition all_running (containers : list serviceCheckContainer) : result string () :=
  for_each (λ _ container, if decide (scc_Status container ≠ "running" ∨ scc_Image container = "")
                           then Err "container has no running image observation" else Ok ()) () containers.
Definition observe_service (serviceRoot : string) (checked : checkedServiceContainers) (name : string)
    : Go AgentImageState :=
  let imageRef := default "" (ccs_Image <$> chk_config checked !! name) in
  digest ←? replicas_digest serviceRoot imageRef "" (default [] (chk_byService checked !! name));
  ok (MkAgentImageState name imageRef digest "" true false ImageCheckStatusOK "").
Definition observeServiceImages (serviceRoot : string) (checked : checkedServiceContainers) : Go (list AgentImageState) :=
  _ ←? of_text (for_each (λ _ entry, all_running (entry : string * list serviceCheckContainer).2) ()
                  (map_to_list (chk_byService checked)));
  go_map (observe_service serviceRoot checked) (chk_services checked).

Definition reportImageUpdateChecks (pulledTask : AgentTask) (serviceDir : string) (meta : Meta) : Go () :=
  asked ⇐ op (Ask (reportServiceImageUpdateChecks pages (files serviceDir) meta (at_ParamsJson pulledTask)));
  checks ←? of_text asked;
  match checks with
  | None => uploadTaskLog "no image update checks found"
  | Some checks =>
      executionID ⇐ taskExecutionID;
      _ ←? report (ReportServiceImageUpdateChecksRequest (at_TaskId pulledTask) executionID
                     (at_ServiceName pulledTask) (at_NodeId pulledTask) checks);
      uploadTaskLog "reported service image update checks"
  end.

(** ** service_tasks.go: the tasks of a service *)
Definition render_bundle (pulledTask : AgentTask) : Go bundleResult :=
  step pulledTask StepRender
    (bundle ←? downloadServiceBundle cfg (at_TaskId pulledTask) "";
     _ ←? uploadTaskLog "render step completed after bundle download";
     ok bundle).
(** What deploying and updating do once the images are there. *)
Definition bring_up (pulledTask : AgentTask) (params : serviceTaskParams) (bundle : bundleResult) (meta : Meta) : Go () :=
  let root := bun_RootPath bundle in
  on_error (step pulledTask StepComposeUp
      (if IsConfigInfra meta then uploadTaskLog "service declares infra.config; skipping docker compose up"
       else
         '(compose, _) ←? loadComposeCommandConfig root (at_ServiceName pulledTask);
         runComposeUpForServiceTask root compose (tp_ComposeRecreateMode params))) (failing_service pulledTask) (λ _,
  on_error (executeCaddySyncStep pulledTask root) (failing_service pulledTask) (λ _,
  _ ←? (if IsConfigInfra meta then ok () else reportServiceImageStatesBestEffort pulledTask root false);
  on_error (step pulledTask StepFinalize (uploadTaskLog "finalize step completed")) (failing_service pulledTask) (λ _,
  on_error (reportServiceStatus cfg (at_ServiceName pulledTask) ServiceRuntimeRunning) (failing pulledTask) (λ _,
  _ ←? uploadTaskLog "task finished successfully";
  succeed pulledTask)))).

Definition executeDeployTask (pulledTask : AgentTask) : Go () :=
  on_error (of_text (taskParams (at_ParamsJson pulledTask))) (failing pulledTask) (λ params,
  _ ←? uploadTaskLog "starting remote deploy task";
  on_error (render_bundle pulledTask) (failing_service pulledTask) (λ bundle,
  on_error (loadServiceTaskMeta (bun_RootPath bundle)) (failing_service pulledTask) (λ meta,
  bring_up pulledTask params bundle meta))).

Definition executeUpdateTask (pulledTask : AgentTask) : Go () :=
  on_error (of_text (taskParams (at_ParamsJson pulledTask))) (failing pulledTask) (λ params,
  _ ←? uploadTaskLog "starting remote update task";
  on_error (render_bundle pulledTask) (failing_service pulledTask) (λ bundle,
  on_error (loadServiceTaskMeta (bun_RootPath bundle)) (failing_service pulledTask) (λ meta,
  on_error (step pulledTask StepPull
      (if IsConfigInfra meta then uploadTaskLog "service declares infra.config; skipping docker compose pull"
       else
         '(compose, _) ←? loadComposeCommandConfig (bun_RootPath bundle) (at_ServiceName pulledTask);
         runComposePull (bun_RootPath bundle) compose)) (failing_service pulledTask) (λ _,
  bring_up pulledTask params bundle meta)))).

Definition isImageDiscoveryNode (meta : Meta) (nodeID : string) : bool :=
  match sm_Nodes meta with
  | node :: _ => bool_decide (TrimSpace node = nodeID)
  | [] => false
  end.
Definition executeImageCheckTask (pulledTask : AgentTask) : Go () :=
  _ ←? uploadTaskLog "starting image check task";
  on_error (step pulledTask StepRender
      ('(serviceRoot, _) ←? of_text (resolveRepoRelativePath (ag_RepoDir cfg) (at_ServiceDir pulledTask));
       checked ←? checkServiceConsistency pulledTask serviceRoot;
       ok (serviceRoot, checked))) (failing pulledTask) (λ found,
  let '(serviceRoot, (meta, checked)) := found in
  on_error (step pulledTask StepImageCheck
      (if IsConfigInfra meta then uploadTaskLog "service declares infra.config; skipping image check"
       else match checked with
       | None => err "nil pointer dereference"
       | Some checked =>
           observations ←? observeServiceImages serviceRoot checked;
           _ ←? reportServiceImageObservations pulledTask observations;
           if isImageDiscoveryNode meta (at_NodeId pulledTask)
           then reportImageUpdateChecks pulledTask serviceRoot meta
           else uploadTaskLog "running image states reported; remote discovery runs on the first target node"
       end)) (failing pulledTask) (λ _,
  _ ←? uploadTaskLog "image check task finished successfully";
  succeed pulledTask)).

Definition executeStopTask (pulledTask : AgentTask) : Go () :=
  on_error (prepareLocalServiceTask pulledTask) (failing pulledTask) (λ serviceRoot,
  on_error (loadServiceTaskMeta serviceRoot) (failing pulledTask) (λ meta,
  _ ←? uploadTaskLog "starting remote stop task";
  on_error (step pulledTask StepComposeDown
      (if IsConfigInfra meta then uploadTaskLog "service declares infra.config; skipping docker compose down"
       else
         '(compose, _) ←? loadComposeCommandConfig serviceRoot (at_ServiceName pulledTask);
         runComposeDown serviceRoot compose)) (failing_service pulledTask) (λ _,
  on_error (step pulledTask StepCaddySync (removeServiceCaddyFile (at_ServiceDir pulledTask)))
    (failing_service pulledTask) (λ _,
  on_error (reportServiceStatus cfg (at_ServiceName pulledTask) ServiceRuntimeStopped) (failing pulledTask) (λ _,
  _ ←? uploadTaskLog "stop task finished successfully";
  succeed pulledTask))))).

Definition executeRestartTask (pulledTask : AgentTask) : Go () :=
  on_error (prepareLocalServiceTask pulledTask) (failing pulledTask) (λ serviceRoot,
  on_error (loadServiceTaskMeta serviceRoot) (failing_service pulledTask) (λ meta,
  _ ←? uploadTaskLog "starting remote restart task";
  if IsConfigInfra meta
  then failing_service pulledTask (NewError CodeUnknown "service declares infra.config and cannot be restarted")
  else
    on_error (loadComposeCommandConfig serviceRoot (at_ServiceName pulledTask)) (failing pulledTask) (λ loaded,
    on_error (step pulledTask StepComposeDown (runComposeDown serviceRoot loaded.1)) (failing_service pulledTask) (λ _,
    on_error (step pulledTask StepComposeUp (runComposeUp serviceRoot loaded.1)) (failing_service pulledTask) (λ _,
    on_error (reportServiceStatus cfg (at_ServiceName pulledTask) ServiceRuntimeRunning) (failing pulledTask) (λ _,
    _ ←? uploadTaskLog "restart task finished successfully";
    succeed pulledTask)))))).

(** ** maintenance_tasks.go *)
Definition parsePruneParams (pulledTask : AgentTask) : string :=
  if decide (at_ParamsJson pulledTask = "") then "all"
  else match decode_prune_target (at_ParamsJson pulledTask) with
       | Err e => "all"
       | Ok target => if decide (target = "") then "all" else target
       end.
Definition prune_one (target : string) : Go () :=
  '(args, _) ←? of_text (dockerPruneArgs target);
  run_quietly "" args "docker prune failed".
Definition runDockerPruneAll : Go () :=
  go_each (λ target, _ ←? uploadTaskLog ("pruning " +:+ target +:+ "..."); prune_one target)
    ["containers"; "networks"; "images"; "volumes"; "builder"].
Definition runDockerPrune (target : string) : Go () :=
  '(args, isAll) ←? of_text (dockerPruneArgs target);
  if isAll : bool then runDockerPruneAll else run_quietly "" args "docker prune failed".
Definition executePruneTask (pulledTask : AgentTask) : Go () :=
  let target := parsePruneParams pulledTask in
  _ ←? uploadTaskLog "starting prune task";
  on_error (step pulledTask StepPrune (runDockerPrune target)) (failing pulledTask) (λ _,
  _ ←? uploadTaskLog "prune task finished successfully";
  succeed pulledTask).

(** ** rustic_tasks.go *)
Record rusticTaskMeta := MkRusticTaskMeta {
  rtm_ComposeService : string;
  rtm_Profile : string;
  rtm_InitArgs : list string;
  rtm_Compose : composeCommandConfig;
}.
Definition loadRusticTaskMeta (serviceDir fallback : string) : Go rusticTaskMeta :=
  '(compose, meta) ←? loadComposeCommandConfig serviceDir fallback;
  ok (MkRusticTaskMeta (RusticComposeService meta) (RusticProfile meta) (RusticInitArgs meta) compose).
Definition rustic_run (serviceDir : string) (meta : rusticTaskMeta) (args : list string) (message : string) : Go () :=
  run_quietly serviceDir
    (buildRusticComposeRunArgs (rtm_Compose meta) (rtm_ComposeService meta) (rtm_Profile meta) [] args) message.
Definition runRusticInit (serviceDir : string) (meta : rusticTaskMeta) : Go () :=
  rustic_run serviceDir meta ("init" :: rtm_InitArgs meta) "docker compose run rustic init failed".
Definition forget_filters (params : rusticMaintenanceTaskParams) (nodeID : string) : list string :=
  if rp_RepoWide params then []
  else
    (if decide (nodeID ≠ "") then ["--filter-host"; nodeID] else []) ++
    (if decide (rp_ServiceName params ≠ "")
     then ["--filter-tags"; "composia-service:" +:+ rp_ServiceName params] else []) ++
    (if decide (rp_DataName params ≠ "") then ["--filter-tags"; "composia-data:" +:+ rp_DataName params] else []).
Definition runRusticForget (serviceDir : string) (meta : rusticTaskMeta) (params : rusticMaintenanceTaskParams)
    (nodeID : string) : Go () :=
  rustic_run serviceDir meta ("forget" :: forget_filters params nodeID) "docker compose run rustic forget failed".
Definition runRusticPrune (serviceDir : string) (meta : rusticTaskMeta) : Go () :=
  rustic_run serviceDir meta ["prune"] "docker compose run rustic prune failed".

(** The frame the three maintenance tasks share. *)
Definition rustic_task (pulledTask : AgentTask) (stepName : string) (run : string → rusticTaskMeta → Go ()) : Go () :=
  on_error (prepareLocalServiceTask pulledTask) (failing pulledTask) (λ serviceRoot,
  on_error (loadRusticTaskMeta serviceRoot (at_ServiceName pulledTask)) (failing pulledTask) (λ rusticMeta,
  _ ←? uploadTaskLog "starting rustic task";
  on_error (step pulledTask stepName (run serviceRoot rusticMeta)) (failing pulledTask) (λ _,
  _ ←? uploadTaskLog "rustic task finished successfully";
  succeed pulledTask))).
Definition executeRusticPruneTask (pulledTask : AgentTask) : Go () := rustic_task pulledTask StepPrune runRusticPrune.
Definition executeRusticInitTask (pulledTask : AgentTask) : Go () := rustic_task pulledTask StepInit runRusticInit.
Definition parseRusticMaintenanceParams (pulledTask : AgentTask) : result string rusticMaintenanceTaskParams :=
  if decide (at_ParamsJson pulledTask = "") then Ok (MkRusticMaintenanceTaskParams "" "" "" false)
  else decode_rustic_params (at_ParamsJson pulledTask).
Definition executeRusticForgetTask (pulledTask : AgentTask) : Go () :=
  on_error (of_text (parseRusticMaintenanceParams pulledTask)) (failing pulledTask) (λ params,
  rustic_task pulledTask StepPrune (λ serviceRoot meta, runRusticForget serviceRoot meta params (at_NodeId pulledTask))).

(** ** docker.go: the tasks that change a resource *)
Definition dockerTaskActionResource (taskType : AgentTaskType) : option (string * string) :=
  match taskType with
  | AGENT_TASK_TYPE_DOCKER_START => Some ("start", "container")
  | AGENT_TASK_TYPE_DOCKER_STOP => Some ("stop", "container")
  | AGENT_TASK_TYPE_DOCKER_RESTART => Some ("restart", "container")
  | AGENT_TASK_TYPE_DOCKER_REMOVE_CONTAINER => Some ("remove", "container")
  | AGENT_TASK_TYPE_DOCKER_REMOVE_NETWORK => Some ("remove", "network")
  | AGENT_TASK_TYPE_DOCKER_REMOVE_VOLUME => Some ("remove", "volume")
  | AGENT_TASK_TYPE_DOCKER_REMOVE_IMAGE => Some ("remove", "image")
  | _ => None
  end.
Definition dockerTaskStepName (action : string) : string :=
  if decide (action = "start") then StepDockerStart
  else if decide (action = "stop") then StepDockerStop
  else if decide (action = "restart") then StepDockerRestart
  else StepDockerRemove.
Definition parseDockerTaskParams (paramsJSON : string) (taskType : AgentTaskType)
    : result string (string * string * dockerTaskParams) :=
  if decide (paramsJSON = "") then Err "docker task params are required"
  else
    result_bind (decode_docker_params paramsJSON) (λ params,
    match dockerTaskActionResource taskType with
    | None => Err "unsupported docker task type"
    | Some (action, resource) =>
        if decide (dtp_ID params = "") then Err "docker task id is required" else Ok (action, resource, params)
    end).
Definition executeDockerTask (pulledTask : AgentTask) : Go () :=
  on_error (of_text (parseDockerTaskParams (at_ParamsJson pulledTask) (at_Type pulledTask))) (failing pulledTask)
    (λ '(action, resource, params),
  _ ←? uploadTaskLog "starting docker task";
  on_error (step pulledTask (dockerTaskStepName action)
      (done ⇐ op (DockerAPI action resource (dtp_ID params) (dtp_Force params) (dtp_RemoveVolumes params));
       of_text done)) (failing pulledTask) (λ _,
  _ ←? uploadTaskLog "docker task finished successfully";
  succeed pulledTask)).
End tasks.
