(* ===== verification/AgentBackups.v ===== *)
(** * Backups and restores: src/internal/app/agent/backup_restore_tasks.go,
    data_stage.go and the rustic commands of rustic_tasks.go; the dispatch of
    task_dispatch.go and the loop body of run.go *)
From S2P Require Export AgentTasks.

Definition backupStrategyFilesCopy : string := "files.copy".
Definition backupStrategyFilesCopyAfterStop : string := "files.copy_after_stop".
Definition backupStrategyPostgresDumpAll : string := "database.pgdumpall".
Definition restoreStrategyPGImport : string := "database.pgimport".

Section backups.
Context `{StateJSON} `{PathResolver} `{AgentLibraries} `{MetaDecoder} `{Semver} `{TagLibraries} `{ImageReferences}.
Context `{!DigestReferences} `{RegistryLibraries} `{DockerCommand} `{MetaDocuments} `{ParamsJSON}.
(** [retries]: how often a backup result that is refused is sent again before
    the context ends. *)
Context (cfg : AgentConfig) (pages : nat) (files : string → string → option string) (retries : nat).

(** ** data_stage.go *)
Definition dataProtectStageDir (prefix : string) : Go string :=
  let stageRoot := dataProtectStageRoot (ag_StateDir cfg) in
  _ ←? must (MakeDirs stageRoot) "create data-protect stage root";
  created ⇐ op (MakeTempDir stageRoot prefix);
  match created with
  | None => err "create data-protect stage dir"
  | Some stageDir =>
      _ ←? must (MakeDirs (JoinPath [stageDir; "paths"])) "create data-protect stage paths dir";
      _ ←? must (MakeDirs (JoinPath [stageDir; "volumes"])) "create data-protect stage volumes dir";
      ok stageDir
  end.
Definition clearDockerVolume (volumeName : string) : Go () :=
  cleared ⇐ op (Docker "" ["run"; "--rm"; "-v"; volumeName +:+ ":/target"; "alpine:3.20"; "sh"; "-c";
                           "rm -rf /target/..?* /target/.[!.]* /target/*"]);
  match cleared with
  | Ok _ => ok ()
  | Err e => err "clear docker volume"
  end.
Definition resolvePostgresUser (serviceDir : string) (compose : composeCommandConfig)
    (serviceName explicitUser : string) : Go string :=
  if decide (TrimSpace explicitUser ≠ "") then ok (TrimSpace explicitUser)
  else
    output ←? docker_output serviceDir (buildComposeArgs compose ["config"; "--format"; "json"]);
    config ←? of_text (decode_compose_config output);
    match config !! serviceName with
    | None => err "postgres service is not defined in docker compose config"
    | Some service => ok (first_user (ccs_Environment service) postgresUserEnvironmentNames)
    end.
Definition with_user (databaseUser : string) : list string :=
  if decide (databaseUser ≠ "") then ["-U"; databaseUser] else [].
Definition runComposePGDumpAll (serviceDir : string) (compose : composeCommandConfig)
    (serviceName databaseUser targetPath : string) : Go () :=
  if decide (serviceName = "") then err "pgdumpall backup is missing service name"
  else
    _ ←? must (MakeDirs (Dir targetPath)) "create pgdump target dir";
    _ ←? must (CreateEmpty targetPath 384) "create pgdump target file";
    dump ⇐ op (Docker serviceDir
      (buildComposeArgs compose (["exec"; "-T"; serviceName; "pg_dumpall"] ++ with_user databaseUser)));
    match dump with
    | Ok text => must (WriteFile_ targetPath text) "close pgdump target file"
    | Err e => err "docker compose exec pg_dumpall failed"
    end.
Definition runComposePGImport (serviceDir : string) (compose : composeCommandConfig)
    (serviceName databaseUser sourcePath : string) : Go () :=
  if decide (serviceName = "") then err "pgimport restore is missing service name"
  else
    source ⇐ op (ReadFile_ sourcePath);
    match source with
    | Err e => err "open pgimport source file"
    | Ok _ =>
        run_quietly serviceDir (buildComposeArgs compose (["exec"; "-T"; serviceName; "psql"] ++ with_user databaseUser))
          "docker compose exec psql failed"
    end.

(** ** rustic_tasks.go *)
Definition runRusticBackup (rusticDir : string) (rustic : RusticConfig) (sourceDir : string) (item : RuntimeItem)
    (extraVolumes : list string) : Go string :=
  '(compose, _) ←? loadComposeCommandConfig rusticDir (rus_ServiceName rustic);
  output ←? run_command rusticDir
    (buildRusticComposeRunArgs compose (rus_ComposeService rustic) (rus_Profile rustic) extraVolumes
       (["backup"; "--host"; rus_NodeID rustic] ++ concat ((λ tag, ["--tag"; tag]) <$> itm_Tags item) ++
        [sourceDir; "--as-path"; itm_Name item])) "docker compose run rustic backup failed";
  of_text (match find_snapshot output with
           | Some snapshot => Ok snapshot
           | None => Err "could not parse rustic snapshot id from output"
           end).
Definition runRusticRestore (rusticDir : string) (rustic : RusticConfig) (artifactRef targetDir : string)
    (extraVolumes : list string) : Go () :=
  '(compose, _) ←? loadComposeCommandConfig rusticDir (rus_ServiceName rustic);
  run_quietly rusticDir
    (buildRusticComposeRunArgs compose (rus_ComposeService rustic) (rus_Profile rustic) extraVolumes
       ["restore"; artifactRef; targetDir]) "docker compose run rustic restore failed".

(** ** backup_restore_tasks.go *)
Definition parseBackupRuntimeConfig (content : string) : result string (RusticConfig * list RuntimeItem) :=
  result_bind (decode_backup_config content) (λ c,
  match rcf_Rustic c with
  | None => Err "backup runtime config is missing rustic provider"
  | Some rustic =>
      if decide (rus_ServiceDir rustic = "") then Err "backup runtime config is missing rustic service_dir"
      else if decide (rus_NodeID rustic = "") then Err "backup runtime config is missing rustic node_id"
      else if decide (length (rcf_Items c) = 0) then Err "backup runtime config did not include any items"
      else Ok (rustic, rcf_Items c)
  end).
Definition parseRestoreRuntimeConfig (content : string) : result string (RusticConfig * list RestoreItem) :=
  result_bind (decode_restore_config content) (λ c,
  match ref_Rustic c with
  | None => Err "restore runtime config is missing rustic provider"
  | Some rustic =>
      if decide (rus_ServiceDir rustic = "") then Err "restore runtime config is missing rustic service_dir"
      else if decide (length (ref_Items c) = 0) then Err "restore runtime config did not include any items"
      else Ok (rustic, ref_Items c)
  end).
Definition getServiceTaskRuntime (pulledTask : AgentTask) : Go string :=
  executionID ⇐ taskExecutionID;
  runtime ←? call (GetServiceTaskRuntimeRequest (at_TaskId pulledTask) executionID);
  if decide (sr_RepoRevision runtime ≠ at_RepoRevision pulledTask ∨ sr_ServiceDir runtime ≠ at_ServiceDir pulledTask)
  then err "runtime parameters do not match the task revision and directory"
  else ok (sr_ConfigJson runtime).
Definition checkBackupServiceFiles (pulledTask : AgentTask) (rusticDir : string) : Go (string * string) :=
  root ←? checkTaskServiceFiles cfg pulledTask (at_ServiceDir pulledTask);
  if decide (rusticDir = at_ServiceDir pulledTask) then ok (root, root)
  else rusticRoot ←? checkTaskServiceFiles cfg pulledTask rusticDir; ok (root, rusticRoot).

Definition stat_include (path missing : string) : Go FileInfo :=
  found ⇐ op (StatFile path);
  match found with
  | Ok info => ok info
  | Err NotExist => err missing
  | Err StatFailed => err "stat"
  end.
Definition backup_volume (serviceRoot containerStagingDir include : string) : Go (list string) :=
  '(kind, normalized) ←? of_text (runtimeDataInclude include);
  match kind with
  | DataIncludeKindServicePath =>
      sourcePath ←? of_text (resolveIncludeServicePath serviceRoot normalized);
      _ ←? stat_include sourcePath "backup source does not exist";
      ok ["-v"; sourcePath +:+ ":" +:+ JoinPath [containerStagingDir; "paths"; sanitizeStagePath normalized] +:+ ":ro"]
  | DataIncludeKindDockerVolume =>
      ok ["-v"; normalized +:+ ":" +:+ JoinPath [containerStagingDir; "volumes"; sanitizeStagePath normalized] +:+ ":ro"]
  end.
Definition buildBackupVolumeFlags (serviceRoot containerStagingDir : string) (item : RuntimeItem) : Go (list string) :=
  flags ←? go_map (backup_volume serviceRoot containerStagingDir) (itm_Include item);
  ok (concat flags).

Definition stageBackupItem (serviceRoot stagingDir : string) (item : RuntimeItem) : Go () :=
  '(compose, _) ←? loadComposeCommandConfig serviceRoot (Base serviceRoot);
  user ←? resolvePostgresUser serviceRoot compose (itm_Service item) (itm_User item);
  runComposePGDumpAll serviceRoot compose (itm_Service item) user (JoinPath [stagingDir; itm_Name item +:+ ".sql"]).

(** A project that runs is stopped around [body] and started again whatever
    the outcome of [body]; the error of the start counts when [body] had
    none. *)
Definition around_stopped {A} (serviceRoot kind : string) (body : Go A) : Go A :=
  '(compose, _) ←? loadComposeCommandConfig serviceRoot (Base serviceRoot);
  running ←? composeProjectRunning serviceRoot compose;
  if running : bool then
    _ ←? uploadTaskLog ("stopping compose project for cold " +:+ kind);
    _ ←? runComposeDown serviceRoot compose;
    r ⇐ body;
    started ⇐ runComposeUp serviceRoot compose;
    match started, r with
    | Ok _, _ => Ret r
    | Err e, Ok _ => Ret (Err e)
    | Err _, Err e => _ ⇐ uploadTaskLog "restart compose project failed"; Ret (Err e)
    end
  else body.

Definition backup_volumes_then (serviceRoot rusticRoot rusticSourceDir : string) (item : RuntimeItem)
    (rustic : RusticConfig) : Go string :=
  extraVolumes ←? buildBackupVolumeFlags serviceRoot rusticSourceDir item;
  runRusticBackup rusticRoot rustic rusticSourceDir item extraVolumes.
Definition backup_in_stage (serviceRoot rusticRoot stagingDir rusticSourceDir : string) (item : RuntimeItem)
    (rustic : RusticConfig) : Go string :=
  if decide (itm_Strategy item = backupStrategyFilesCopyAfterStop)
  then around_stopped serviceRoot "backup" (backup_volumes_then serviceRoot rusticRoot rusticSourceDir item rustic)
  else if decide (itm_Strategy item = backupStrategyFilesCopy)
  then backup_volumes_then serviceRoot rusticRoot rusticSourceDir item rustic
  else if decide (itm_Strategy item = backupStrategyPostgresDumpAll) then
    _ ←? stageBackupItem serviceRoot stagingDir item;
    runRusticBackup rusticRoot rustic rusticSourceDir item []
  else err "backup strategy is not implemented yet".
(** The staging directory is removed whatever the outcome. *)
Definition in_stage {A} (prefix : string) (rustic : RusticConfig) (body : string → string → Go A) : Go A :=
  stagingDir ←? dataProtectStageDir prefix;
  r ⇐ (rusticDir ←? of_text (rusticDataProtectPath stagingDir cfg (Some rustic));
       body stagingDir rusticDir);
  _ ⇐ op (RemoveTree stagingDir);
  Ret r.
Definition backupRuntimeItem (serviceRoot rusticRoot taskID : string) (item : RuntimeItem) (rustic : RusticConfig)
    : Go string :=
  in_stage ("backup-" +:+ taskID +:+ "-" +:+ itm_Name item +:+ "-") rustic (λ stagingDir rusticSourceDir,
  backup_in_stage serviceRoot rusticRoot stagingDir rusticSourceDir item rustic).

Definition backup_item (pulledTask : AgentTask) (serviceRoot rusticRoot : string) (rustic : RusticConfig)
    (item : RuntimeItem) : Go () :=
  startedAt ⇐ op Now;
  done ⇐ backupRuntimeItem serviceRoot rusticRoot (at_TaskId pulledTask) item rustic;
  finishedAt ⇐ op Now;
  match done with
  | Err e =>
      _ ⇐ reportBackupResult retries (at_TaskId pulledTask) (at_ServiceName pulledTask) (itm_Name item) ""
            StatusFailed startedAt finishedAt (error_text e);
      Ret (Err e)
  | Ok artifactRef =>
      _ ←? uploadTaskLog "backup completed";
      reportBackupResult retries (at_TaskId pulledTask) (at_ServiceName pulledTask) (itm_Name item) artifactRef
        StatusSucceeded startedAt finishedAt ""
  end.
Definition executeBackupTask (pulledTask : AgentTask) : Go () :=
  if decide (length (at_DataNames pulledTask) = 0)
  then failing pulledTask (NewError CodeUnknown "backup task is missing data_names")
  else
    on_error (step pulledTask StepRender
        (payload ←? getServiceTaskRuntime pulledTask;
         '(rustic, items) ←? of_text (parseBackupRuntimeConfig payload);
         '(serviceRoot, rusticRoot) ←? checkBackupServiceFiles pulledTask (rus_ServiceDir rustic);
         ok (rustic, items, serviceRoot, rusticRoot))) (failing pulledTask)
      (λ '(rustic, items, serviceRoot, rusticRoot),
    _ ←? uploadTaskLog "starting remote backup task";
    on_error (step pulledTask StepBackup (go_each (backup_item pulledTask serviceRoot rusticRoot rustic) items))
      (failing pulledTask) (λ _,
    _ ←? uploadTaskLog "backup task finished successfully";
    succeed pulledTask)).

(** The target of a direct restore is cleared and made again. *)
Definition restore_volume (serviceRoot containerStagingDir name include : string) : Go (list string) :=
  '(kind, normalized) ←? of_text (runtimeDataInclude include);
  match kind with
  | DataIncludeKindServicePath =>
      targetPath ←? of_text (resolveIncludeServicePath serviceRoot normalized);
      info ←? stat_include targetPath "restore target must exist for direct restore";
      _ ←? must (RemoveTree targetPath) "clear restore target";
      _ ←? (if decide (fi_Type info = Directory) then must (MakeDirs targetPath) "recreate restore target"
            else
              _ ←? must (MakeDirs (Dir targetPath)) "create restore target parent";
              must (CreateEmpty targetPath (fi_Perm info)) "recreate restore target file");
      ok ["-v"; targetPath +:+ ":" +:+ JoinPath [containerStagingDir; name; "paths"; sanitizeStagePath normalized]]
  | DataIncludeKindDockerVolume =>
      _ ←? clearDockerVolume normalized;
      ok ["-v"; normalized +:+ ":" +:+ JoinPath [containerStagingDir; name; "volumes"; sanitizeStagePath normalized]]
  end.
Definition prepareRestoreVolumeFlags (serviceRoot stagingDir containerStagingDir : string) (item : RestoreItem)
    : Go (list string) :=
  _ ←? must (MakeDirs (JoinPath [stagingDir; rit_Name item; "paths"])) "create direct restore paths dir";
  _ ←? must (MakeDirs (JoinPath [stagingDir; rit_Name item; "volumes"])) "create direct restore volumes dir";
  flags ←? go_map (restore_volume serviceRoot containerStagingDir (rit_Name item)) (rit_Include item);
  ok (concat flags).
Definition applyRestoreItem (serviceRoot stagingDir : string) (item : RestoreItem) : Go () :=
  if decide (rit_Strategy item = restoreStrategyPGImport) then
    '(compose, _) ←? loadComposeCommandConfig serviceRoot (Base serviceRoot);
    user ←? resolvePostgresUser serviceRoot compose (rit_Service item) (rit_User item);
    runComposePGImport serviceRoot compose (rit_Service item) user (JoinPath [stagingDir; rit_Name item +:+ ".sql"])
  else err "restore strategy is not implemented yet".
Definition restore_volumes_then (serviceRoot rusticRoot stagingDir rusticTargetDir : string) (item : RestoreItem)
    (rustic : RusticConfig) : Go () :=
  extraVolumes ←? prepareRestoreVolumeFlags serviceRoot stagingDir rusticTargetDir item;
  runRusticRestore rusticRoot rustic (rit_ArtifactRef item) rusticTargetDir extraVolumes.
Definition restoreRuntimeItem (serviceRoot rusticRoot taskID : string) (rustic : RusticConfig) (item : RestoreItem)
    : Go () :=
  in_stage ("restore-" +:+ taskID +:+ "-" +:+ rit_Name item +:+ "-") rustic (λ stagingDir rusticTargetDir,
  if decide (rit_Strategy item = backupStrategyFilesCopyAfterStop)
  then around_stopped serviceRoot "restore"
         (restore_volumes_then serviceRoot rusticRoot stagingDir rusticTargetDir item rustic)
  else if decide (rit_Strategy item = backupStrategyFilesCopy)
  then restore_volumes_then serviceRoot rusticRoot stagingDir rusticTargetDir item rustic
  else if decide (rit_Strategy item = restoreStrategyPGImport) then
    _ ←? runRusticRestore rusticRoot rustic (rit_ArtifactRef item) rusticTargetDir [];
    applyRestoreItem serviceRoot (JoinPath [stagingDir; rit_Name item]) item
  else err "restore strategy is not implemented yet").
Definition executeRestoreTask (pulledTask : AgentTask) : Go () :=
  on_error (step pulledTask StepRender
      (payload ←? getServiceTaskRuntime pulledTask;
       '(rustic, items) ←? of_text (parseRestoreRuntimeConfig payload);
       '(serviceRoot, rusticRoot) ←? checkBackupServiceFiles pulledTask (rus_ServiceDir rustic);
       ok (rustic, items, serviceRoot, rusticRoot))) (failing pulledTask)
    (λ '(rustic, items, serviceRoot, rusticRoot),
  _ ←? uploadTaskLog "starting remote restore task";
  on_error (step pulledTask StepRestore
      (go_each (λ item, _ ←? restoreRuntimeItem serviceRoot rusticRoot (at_TaskId pulledTask) rustic item;
                        uploadTaskLog "restore completed") items)) (failing pulledTask) (λ _,
  _ ←? uploadTaskLog "restore task finished successfully";
  succeed pulledTask)).

(** ** task_dispatch.go *)
Definition executePulledTask (pulledTask : AgentTask) : Go () :=
  match at_Type pulledTask with
  | AGENT_TASK_TYPE_DEPLOY => executeDeployTask cfg pulledTask
  | AGENT_TASK_TYPE_UPDATE => executeUpdateTask cfg pulledTask
  | AGENT_TASK_TYPE_BACKUP => executeBackupTask pulledTask
  | AGENT_TASK_TYPE_RESTORE => executeRestoreTask pulledTask
  | AGENT_TASK_TYPE_STOP => executeStopTask cfg pulledTask
  | AGENT_TASK_TYPE_RESTART => executeRestartTask cfg pulledTask
  | AGENT_TASK_TYPE_PRUNE => executePruneTask pulledTask
  | AGENT_TASK_TYPE_RUSTIC_INIT => executeRusticInitTask cfg pulledTask
  | AGENT_TASK_TYPE_RUSTIC_FORGET => executeRusticForgetTask cfg pulledTask
  | AGENT_TASK_TYPE_RUSTIC_PRUNE => executeRusticPruneTask cfg pulledTask
  | AGENT_TASK_TYPE_CADDY_SYNC => executeCaddySyncTask cfg pulledTask
  | AGENT_TASK_TYPE_CADDY_RELOAD => executeCaddyReloadTask cfg pulledTask
  | AGENT_TASK_TYPE_IMAGE_CHECK => executeImageCheckTask cfg pages files pulledTask
  | AGENT_TASK_TYPE_DOCKER_START | AGENT_TASK_TYPE_DOCKER_STOP | AGENT_TASK_TYPE_DOCKER_RESTART
  | AGENT_TASK_TYPE_DOCKER_REMOVE_CONTAINER | AGENT_TASK_TYPE_DOCKER_REMOVE_NETWORK
  | AGENT_TASK_TYPE_DOCKER_REMOVE_VOLUME | AGENT_TASK_TYPE_DOCKER_REMOVE_IMAGE => executeDockerTask pulledTask
  | _ => failTask (at_TaskId pulledTask) (NewError CodeUnknown "task type is not implemented")
  end.

(** ** run.go *)
(** The failure is reported once more, in a context that has not ended,
    unless the task was cancelled from outside. *)
Definition executePulledTaskWithTimeout (pulledTask : AgentTask) : Go () :=
  r ⇐ executePulledTask pulledTask;
  match r with
  | Ok _ => ok ()
  | Err e =>
      cancelled ⇐ op ContextDone;
      timedOut ⇐ op DeadlineExceeded;
      if (cancelled : bool) && negb timedOut then Ret (Err e)
      else
        reported ⇐ reportTaskCompletion (at_TaskId pulledTask) StatusFailed
          (if timedOut : bool then "task exceeded execution timeout" else error_text e);
        Ret (Err e)
  end.

Definition acceptTask (pulledTask : AgentTask) : Go () :=
  let state := MkPersistedTaskExecution (at_TaskId pulledTask) (at_ExecutionId pulledTask) false None [] in
  _ ←? persistTaskExecution state;
  answer ⇐ acknowledgeTaskExecution (at_TaskId pulledTask) (at_ExecutionId pulledTask);
  match answer with
  | Err e =>
      if isRejectedTaskExecution e
      then _ ←? removeTaskExecutionState; Ret (Err e)
      else Ret (Err e)
  | Ok _ =>
      let state := pe_set_acknowledged state in
      _ ←? persistTaskExecution state;
      _ ⇐ op (SetRuntime state);
      _ ⇐ op (LogAccepted pulledTask);
      executePulledTaskWithTimeout pulledTask
  end.
Definition pollAndRunTask : Go () :=
  _ ←? recoverTaskExecution;
  pulled ←? call (PullNextTaskRequest (ag_NodeID cfg) 1);
  match pulled with
  | None => ok ()
  | Some pulledTask =>
      if decide (at_ExecutionId pulledTask = "") then err "controller returned a task without execution_id"
      else acceptTask pulledTask
  end.
End backups.

(** A configuration that is reloaded keeps the node and its directories. *)
Definition validateAgentReload (current next : option AgentConfig) : result string () :=
  match current, next with
  | Some current, Some next =>
      if decide (ag_NodeID current ≠ ag_NodeID next) then Err "agent.node_id changed and requires process restart"
      else if decide (Clean (ag_RepoDir current) ≠ Clean (ag_RepoDir next))
      then Err "agent.repo_dir changed and requires process restart"
      else if decide (Clean (ag_StateDir current) ≠ Clean (ag_StateDir next))
      then Err "agent.state_dir changed and requires process restart"
      else Ok ()
  | _, _ => Err "agent config is missing"
  end.
