(* ===== verification/AgentSystem.v ===== *)
(** * The agent and its controller

    The surroundings of the agent of a node: the store of the controller,
    which handles the calls of the agent with the handlers of AgentApi.v and
    takes any other step of StoreProtocol.v in between.  A call is answered,
    or fails: then it was not handled, or was handled without its answer
    reaching the agent; handled later it is a step of the store like any
    other.  The invariant of the two together ([agent_inv]) is proved over all
    runs, crashes of the agent and losses of power included. *)
From S2P Require Export AgentBackups StoreTheorems.

Section system.
Context `{SQLite} `{ParamsJSON} `{StateJSON}.
(** [subject]: the node the token of the agent authenticates. *)
Context (subject : Context_).

(** ** The handlers *)
(** One turn of the polling loop; the turns before it are steps of the store.
    The execution id it draws is new. *)
Definition pulled (nodeID : string) (protocol : Z) (s : State) (reply : result ConnectError (option AgentTask))
    (s' : State) : Prop :=
  ∃ turn, (pt_uuid turn ∉ used_ids s) ∧ pt_uuid turn ≠ "" ∧ (pt_remaining turn ≤ 0)%Z ∧
    PullNextTask subject nodeID protocol [turn] (st_db s) = (st_db s', reply) ∧
    (s' = s ∨
     used_ids s' = ({[pt_uuid turn]} ∪ used_ids s) ∧
     ∃ record, ClaimNextPendingTaskForNode nodeID (pt_now turn) (pt_now turn + taskExecutionLease)%Z
                 (pt_uuid turn) (st_db s) = Ok (st_db s', record)).
(** A handler that changes the database or fails. *)
Definition handler (f : DB → result ConnectError DB) (s : State) (reply : result ConnectError ()) (s' : State) : Prop :=
  match f (st_db s) with
  | Ok db => reply = Ok () ∧ s' = MkState (used_ids s) db
  | Err e => reply = Err e ∧ s' = s
  end.

(** A report for an execution: after the checks of the request, the task must
    be one of the node and be run by the execution. *)
Definition checked_report (taskID executionID : string) (s : State) (reply : result ConnectError ()) (s' : State)
    : Prop :=
  (s' = s ∧ ∃ message, reply = Err (NewError CodeInvalidArgument message)) ∨
  ∃ s1 s2, rtc step s s1 ∧ rtc step s1 s2 ∧ rtc step s2 s' ∧
    match result_bind (ensureTaskNodeMatch subject taskID (st_db s1))
            (λ _, ensureCurrentTaskExecution subject taskID executionID (st_db s2)) with
    | Err e => reply = Err e
    | Ok _ => True
    end.

Definition handled (r : Request) : State → result ConnectError (response r) → State → Prop :=
  match r return State → result ConnectError (response r) → State → Prop with
  | PullNextTaskRequest nodeID protocol => pulled nodeID protocol
  | AcknowledgeTaskRequest taskID executionID => λ s reply s', ∃ now,
      handler (λ db, result_bind (AcknowledgeTask subject taskID executionID now db) (λ r, Ok r.1)) s reply s'
  | ReportTaskStateRequest taskID executionID status errorSummary finishedAt => λ s reply s',
      if decide (executionID = "") then rtc step s s'
      else ∃ uuid followups files confirmed server',
        ReportTaskState followups subject taskID executionID status errorSummary finishedAt uuid
          (MkAgentServer (st_db s) confirmed files) = (server', reply) ∧
        s' = MkState (used_ids s) (as_db server')
  | ReportTaskStepStateRequest taskID executionID stepName status startedAt finishedAt =>
      handler (ReportTaskStepState subject taskID executionID stepName status (Some startedAt) finishedAt)
  | ReportServiceInstanceStatusRequest serviceName nodeID runtimeStatus reportedAt taskID executionID =>
      handler (ReportServiceInstanceStatus subject serviceName nodeID runtimeStatus taskID executionID reportedAt)
  | ReportBackupResultRequest taskID executionID _ => checked_report taskID executionID
  | _ => λ s _ s', rtc step s s'
  end.

#[export] Instance controller : Surroundings := {
  around := State;
  answers r s reply s' := handled r s reply s' ∨
    ∃ e, reply = Err e ∧ (s' = s ∨ ∃ reply', handled r s reply' s');
  moves := step;
}.

(** ** Every call is a sequence of steps of the store *)
Lemma one_call s db : db_call (st_db s) db → rtc step s (MkState (used_ids s) db).
Proof. destruct s as [used db0]. intros Hc. by apply rtc_once, step_call. Qed.

Lemma pulled_steps nodeID protocol s reply s' : pulled nodeID protocol s reply s' → rtc step s s'.
Proof.
  intros (turn & Hfresh & Hne & _ & _ & [->|[Hused [record Hclaim]]]); [apply rtc_refl|].
  destruct s as [used db], s' as [used' db']. cbn in *. subst used'.
  eapply rtc_once, step_ClaimNextPendingTaskForNode; eauto.
Qed.
Lemma handler_steps f s reply s' :
  (∀ db db', f db = Ok db' → db' = db ∨ db_call db db') → handler f s reply s' → rtc step s s'.
Proof.
  unfold handler. intros Hf. destruct (f (st_db s)) as [db|e] eqn:E; intros [_ ->]; [|apply rtc_refl].
  destruct (Hf _ _ E) as [->|Hc]; [destruct s; apply rtc_refl|by apply one_call].
Qed.

Lemma AcknowledgeTask_Ok ctx taskID executionID now db r :
  AcknowledgeTask ctx taskID executionID now db = Ok r →
  AcknowledgeTaskExecution taskID executionID now (now + taskExecutionLease)%Z db = Ok r.1.
Proof.
  unfold AcknowledgeTask. intros (_ & _ & (db' & Hm & [= <-])%result_bind_Ok)%result_bind_Ok.
  unfold or_code in Hm. destruct (AcknowledgeTaskExecution _ _ _ _ _); [|done]. by injection Hm as <-.
Qed.

Lemma ReportTaskState_db followups ctx t e status summary fin uuid server server' reply :
  e ≠ "" → ReportTaskState followups ctx t e status summary fin uuid server = (server', reply) →
  as_db server' = as_db server ∨
  ∃ status', CompleteTaskExecution uuid t e status' fin summary (as_db server) = Ok (as_db server').
Proof.
  intros Hne. unfold ReportTaskState. destruct (decide (t = "")); [intros [= <- _]; by left|].
  destruct (ControllerProto.taskStatusFromAgentProto status) as [st|]; [|intros [= <- _]; by left].
  destruct (decide _); [intros [= <- _]; by left|].
  destruct (ensureTaskNodeMatch _ _ _); [|intros [= <- _]; by left].
  destruct (CompleteTaskExecution _ _ _ _ _ _ _) as [db|er] eqn:E; [|intros [= <- _]; by left].
  rewrite (decide_False (P := e = "")) by done. intros [= <- _]. right. by exists st.
Qed.
Lemma ReportTaskStepState_call ctx t e name status started fin db db' :
  ReportTaskStepState ctx t e name status started fin db = Ok db' → db_call db db'.
Proof.
  unfold ReportTaskStepState. destruct (decide (t = "")); [done|].
  destruct (ControllerProto.taskStepNameFromAgentProto name); [|done].
  destruct (ControllerProto.taskStatusFromAgentProto status); [|done].
  intros (_ & _ & (_ & _ & Hu)%result_bind_Ok)%result_bind_Ok. unfold or_code in Hu.
  destruct (UpsertTaskStep _ _) eqn:E; [|done]. injection Hu as <-. by eapply call_UpsertTaskStep.
Qed.
Lemma ReportServiceInstanceStatus_call ctx s n r t e at_ db db' :
  ReportServiceInstanceStatus ctx s n r t e at_ db = Ok db' → db_call db db'.
Proof.
  unfold ReportServiceInstanceStatus. repeat (destruct (decide _); [done|]).
  destruct (negb _); [done|]. repeat (destruct (decide _); [done|]).
  intros (_ & _ & (detail & _ & Hu)%result_bind_Ok)%result_bind_Ok.
  destruct (decide _); [done|].
  destruct (UpdateServiceInstanceRuntimeStatus _ _ _ _ _) as [db1|er] eqn:E; [|by destruct er].
  injection Hu as <-. by eapply call_UpdateServiceInstanceRuntimeStatus.
Qed.

Lemma checked_report_steps taskID executionID s reply s' :
  checked_report taskID executionID s reply s' → rtc step s s'.
Proof. intros [[-> _]|(s1 & s2 & Ha & Hb & Hc & _)]; [apply rtc_refl|]. by do 2 (etrans; [eassumption|]). Qed.
Lemma handled_steps r s reply s' : handled r s reply s' → rtc step s s'.
Proof.
  destruct r; cbn; try done.
  - apply pulled_steps.
  - intros [now Hh]. eapply handler_steps; [|exact Hh]. intros db db' (r & Hr & [= <-])%result_bind_Ok.
    right. apply AcknowledgeTask_Ok in Hr. by eapply call_AcknowledgeTaskExecution.
  - destruct (decide _) as [|Hne]; [done|].
    intros (uuid & f & files & conf & server' & Hr & ->). apply ReportTaskState_db in Hr; [|done].
    destruct Hr as [->|[st Hc]]; [destruct s; apply rtc_refl|].
    apply one_call. by eapply call_CompleteTaskExecution.
  - apply handler_steps. intros db db' Hr. right. by eapply ReportTaskStepState_call.
  - apply handler_steps. intros db db' Hr. right. by eapply ReportServiceInstanceStatus_call.
  - apply checked_report_steps.
Qed.
Lemma answers_steps r (s s' : State) reply : answers r s reply s' → rtc step s s'.
Proof.
  intros [Hh|(e & _ & [->|[reply' Hh]])]; [by eapply handled_steps|apply rtc_refl|by eapply handled_steps].
Qed.

(** ** What the life of a task keeps *)
Definition holds (s : State) (t e : string) : Prop := ∃ l, life_in s t = Some l ∧ held_by e l.

Lemma holds_step s s' t e : reachable s → step s s' → holds s t e → holds s' t e.
Proof.
  intros Hinv%reachable_inv Hs (l & Hl & He). unfold life_in in Hl. apply fmap_Some in Hl as (r & Hr & ->).
  destruct (step_row _ _ _ _ Hs Hr) as (r' & Hr' & o & Hrs). unfold holds, life_in. rewrite Hr'.
  eexists. split; [done|]. destruct (inv_rows _ Hinv _ _ Hr) as [_ Hok].
  destruct (row_step_life _ _ _ Hok Hrs) as [->|Hm]; [done|]. by eapply held_by_step.
Qed.
Lemma holds_steps s s' t e : reachable s → rtc step s s' → holds s t e → holds s' t e.
Proof.
  intros Hre Hrun. induction Hrun as [|s1 s2 s3 Hs _ IH]; [done|]. intros Hh. apply IH; [|by eapply holds_step].
  by eapply rtc_r.
Qed.
Lemma holds_used s t e : reachable s → holds s t e → e ∈ used_ids s.
Proof.
  intros Hinv%reachable_inv (l & Hl & He). unfold life_in in Hl. apply fmap_Some in Hl as (r & Hr & ->).
  destruct (inv_ids _ Hinv) as [Hu _]. apply (Hu t r e Hr).
  destruct (inv_rows _ Hinv _ _ Hr) as [_ [_ Hok]]. unfold life_of in He.
  destruct (ex_execution_state (tk_exec r)) as [st|] eqn:Es.
  - destruct Hok as ([e' He'] & _). rewrite He' in *. cbn in He. f_equal.
    repeat case_decide; by cbn in He.
  - repeat case_decide; by cbn in He.
Qed.

Lemma acknowledged_holds s t e now lease db :
  reachable s → AcknowledgeTaskExecution t e now lease (st_db s) = Ok db →
  life_in (MkState (used_ids s) db) t = Some (AcceptedBy e).
Proof.
  intros Hinv%reachable_inv. unfold AcknowledgeTaskExecution.
  match goal with |- context [update_row ?k ?P ?f ?t] =>
    destruct (update_row_cases k P f t) as [(r & Hr & (Hi & Hst & _) & ->)|[_ ->]] end; [|done].
  cbn. intros [= <-]. unfold life_in. cbn. rewrite lookup_insert_eq. cbn. by rewrite Hi.
Qed.
End system.
