(* ===== verification/AgentInvariant.v ===== *)
(** * The invariant of the agent and its controller

    [agent_inv] and the assertions of the phases of [pollAndRunTask]: while a
    task runs ([running]) its execution has no success recorded anywhere;
    [tidy] says that none of its commands failed so far.  A part of a task is
    [quiet] when it ends without an error only if no command of it failed,
    [silent] when it runs none. *)
From S2P Require Export AgentSystem.

Section invariant.
Context `{SQLite} `{ParamsJSON} `{StateJSON}.
Context (subject : Context_).
#[local] Instance controller_here : Surroundings := controller subject.

(** ** The journal *)
Definition began_task (e : JournalEntry) : option string := match e with Began t _ => Some t | _ => None end.
Definition clean (e : string) (j : list JournalEntry) : Prop := ∀ dir args done, Ran e dir args done ∈ j → done = true.
Definition success (s : persistedTaskExecution) : Prop :=
  ∃ c, pe_Completion s = Some c ∧ AgentProto.protoAgentTaskStatus (co_Status c) = AGENT_TASK_STATUS_SUCCEEDED.
(** A success may be recorded for an execution that began and of which no
    command failed. *)
Definition may_succeed (j : list JournalEntry) (t e : string) : Prop := Began t e ∈ j ∧ clean e j.
Definition state_ok (j : list JournalEntry) (s : persistedTaskExecution) : Prop :=
  success s → may_succeed j (pe_TaskID s) (pe_ExecutionID s).

(** The contents a reader may find, now or after a loss of power. *)
Definition on_disk (d : StateDisk) (c : content) : Prop :=
  d_view d = Some c ∨ Some c ∈ d_durable d ∨ d_temp d = Some c.

Record agent_inv (n : Machine) : Prop := {
  ai_reach : reachable (n_around n);
  ai_held : ∀ t e, Began t e ∈ n_journal n → holds (n_around n) t e;
  ai_once : NoDup (omap began_task (n_journal n));
  ai_ran : ∀ e dir args done, Ran e dir args done ∈ n_journal n → ∃ t, Began t e ∈ n_journal n;
  ai_disk : ∀ c s, on_disk (n_disk n) c → unmarshal_execution c = Ok s → state_ok (n_journal n) s;
  ai_sent : ∀ t e summary fin answered,
    Sent (ReportTaskStateRequest t e AGENT_TASK_STATUS_SUCCEEDED summary fin) answered ∈ n_journal n →
    may_succeed (n_journal n) t e;
}.

(** No success of the execution is recorded. *)
Definition no_success (e : string) (n : Machine) : Prop :=
  (∀ c s, on_disk (n_disk n) c → unmarshal_execution c = Ok s → success s → pe_ExecutionID s ≠ e) ∧
  (∀ t e' summary fin answered,
     Sent (ReportTaskStateRequest t e' AGENT_TASK_STATUS_SUCCEEDED summary fin) answered ∈ n_journal n → e' ≠ e).

(** ** What keeps the invariant *)
Lemma agent_inv_around n a : agent_inv n → rtc step (n_around n) a → agent_inv (set_around a n).
Proof.
  intros [Hre Hh] Hs. constructor; cbn; try done.
  - unfold reachable in *. by etrans.
  - intros t e Hb. eapply holds_steps; eauto.
Qed.
Lemma agent_inv_disk n d :
  agent_inv n → (∀ c s, on_disk d c → unmarshal_execution c = Ok s → state_ok (n_journal n) s) →
  agent_inv (set_disk d n).
Proof. intros [] Hd. by constructor. Qed.
Lemma agent_inv_runtime n s : agent_inv n → agent_inv (set_runtime s n).
Proof. by intros []. Qed.

Lemma began_app j e : began_task e = None → omap began_task (j ++ [e]) = omap began_task j.
Proof. intros He. rewrite omap_app. cbn. by rewrite He, (right_id_L [] (++)). Qed.
Lemma may_succeed_app j t e x :
  (∀ dir args done, x = Ran e dir args done → done = true) → may_succeed j t e → may_succeed (j ++ [x]) t e.
Proof.
  intros Hx [Hb Hc]. split; [apply elem_of_app; by left|].
  intros dir args done [Hin|Hin%list_elem_of_singleton]%elem_of_app; [by eapply Hc|by eapply Hx].
Qed.

(** An entry that is no beginning, no failed command of an execution with a
    success, and no success report but of one that may succeed. *)
Lemma agent_inv_record n x :
  agent_inv n → began_task x = None →
  (∀ e dir args done, x = Ran e dir args done →
     (∃ t, Began t e ∈ n_journal n) ∧ (done = true ∨ no_success e n)) →
  (∀ t e summary fin answered,
     x = Sent (ReportTaskStateRequest t e AGENT_TASK_STATUS_SUCCEEDED summary fin) answered →
     may_succeed (n_journal n) t e) →
  agent_inv (record x n).
Proof.
  intros [Hre Hheld Honce Hr Hd Hs] Hb Hran Hsent.
  assert (Hkeep : ∀ t e, may_succeed (n_journal n) t e → (no_success e n → False) →
    may_succeed (n_journal n ++ [x]) t e).
  { intros t e Hm Hno. apply may_succeed_app; [|done]. intros dir args done ->.
    by destruct (Hran e dir args done eq_refl) as [_ [|?%Hno]]. }
  constructor; cbn; try done.
  - intros t e [Hin|Hin%list_elem_of_singleton]%elem_of_app; [auto|by subst x].
  - by rewrite began_app.
  - intros e dir args done [Hin|Hin%list_elem_of_singleton]%elem_of_app.
    + destruct (Hr _ _ _ _ Hin) as [t Ht]. exists t. apply elem_of_app. by left.
    + destruct (Hran e dir args done (eq_sym Hin)) as [[t Ht] _]. exists t. apply elem_of_app. by left.
  - intros c s Hc Hu Hsu. apply Hkeep; [by apply (Hd c s)|]. intros [Hno _]. by apply (Hno c s).
  - intros t e summary fin answered [Hin|Hin%list_elem_of_singleton]%elem_of_app.
    + apply Hkeep; [by eapply Hs|]. intros [_ Hno]. by eapply Hno.
    + subst x. apply may_succeed_app; [done|by eapply Hsent].
Qed.

Lemma on_disk_put d c c' : on_disk (disk_put c d) c' → c = Some c' ∨ on_disk d c'.
Proof. intros [Hv|[[Hl|Hl]%elem_of_cons|Ht]]; cbn in *; [by left|by left|right..]; unfold on_disk; auto. Qed.
Lemma on_disk_temp d c c' : on_disk (disk_set_temp c d) c' → c = Some c' ∨ on_disk d c'.
Proof. intros [Hv|[Hl|Ht]]; cbn in *; unfold on_disk; auto. Qed.
Lemma on_disk_sync d c : on_disk (disk_sync d) c → on_disk d c.
Proof.
  intros [Hv|[Hl%list_elem_of_singleton|Ht]]; cbn in *; unfold on_disk; auto.
Qed.

(** ** Phases of the loop body *)
Definition same_ids (t e : string) (s : persistedTaskExecution) : Prop := pe_TaskID s = t ∧ pe_ExecutionID s = e.

Definition running (tidy : bool) (t e : string) (n : Machine) : Prop :=
  agent_inv n ∧ Began t e ∈ n_journal n ∧ no_success e n ∧
  (∃ s, n_runtime n = Some s ∧ same_ids t e s ∧ pe_Completion s = None) ∧
  (tidy = true → clean e (n_journal n)).
(** The outcome of the task is reported; [tidy] if it may be a success. *)
Definition ended (tidy : bool) (t e : string) (n : Machine) : Prop :=
  agent_inv n ∧ (∃ s, n_runtime n = Some s ∧ same_ids t e s) ∧ (tidy = true → may_succeed (n_journal n) t e).
(** The execution is recovered after a restart. *)
Definition recovering (t e : string) (n : Machine) : Prop :=
  agent_inv n ∧ ∃ s, n_runtime n = Some s ∧ same_ids t e s ∧ state_ok (n_journal n) s.

Lemma running_ended tidy t e n : running tidy t e n → ended tidy t e n.
Proof. intros (? & ? & _ & (s & ? & ? & _) & Hc). split_and!; [done|by exists s|]. intros Ht. split; auto. Qed.
Lemma ended_weaken tidy t e n : ended tidy t e n → ended false t e n.
Proof. intros (? & ? & _). by split_and!. Qed.
Lemma running_weaken tidy t e n : running tidy t e n → running false t e n.
Proof. intros (? & ? & ? & ? & _). by split_and!. Qed.

Lemma moves_steps (n : Machine) a : moves (n_around n) a → rtc step (n_around n) a.
Proof. intros. by apply rtc_once. Qed.
#[local] Instance agent_inv_stable : Stable agent_inv.
Proof. intros n a Hi Hm. apply agent_inv_around; [done|by apply moves_steps]. Qed.
#[local] Instance running_stable tidy t e : Stable (running tidy t e).
Proof. intros n a (Hi & ? & ? & ? & ?) Hm. split; [by apply agent_inv_stable|done]. Qed.
#[local] Instance ended_stable tidy t e : Stable (ended tidy t e).
Proof. intros n a (Hi & ?) Hm. split; [by apply agent_inv_stable|done]. Qed.
#[local] Instance recovering_stable t e : Stable (recovering t e).
Proof. intros n a (Hi & ?) Hm. split; [by apply agent_inv_stable|done]. Qed.

(** ** Phases: assertions the surroundings keep, and what programs keep them *)
Class Phase (P : Machine → Prop) : Prop := {
  phase_stable :: Stable P;
  phase_inv : ∀ n, P n → agent_inv n;
}.
#[export] Instance agent_inv_phase : Phase agent_inv.
Proof. by split; [apply _|]. Qed.
#[export] Instance running_phase tidy t e : Phase (running tidy t e).
Proof. split; [apply _|]. by intros n (? & _). Qed.
#[export] Instance ended_phase tidy t e : Phase (ended tidy t e).
Proof. split; [apply _|]. by intros n (? & _). Qed.
#[export] Instance recovering_phase t e : Phase (recovering t e).
Proof. split; [apply _|]. by intros n (? & _). Qed.

Definition keeps {A} (P : Machine → Prop) (p : Prog A) : Prop := triple agent_inv P p (λ _, P).

Section keeps.
Context (P : Machine → Prop) `{!Phase P}.
Lemma phase_ret {A} (a : A) (Q : A → Machine → Prop) : (∀ n, P n → Q a n) → triple agent_inv P (Ret a) Q.
Proof. intros HQ. apply triple_ret; [apply _|apply phase_inv|done]. Qed.
Lemma phase_op {A X} (o : Op X) (k : X → Prog A) R Q :
  (∀ n x n', P n → perform o n x n' → R x n') → (∀ x, triple agent_inv (R x) (k x) Q) →
  triple agent_inv P (prog_bind (op o) k) Q.
Proof. intros Ho Hk. apply (triple_do _ _ _ _ R); [apply phase_inv|exact Ho|exact Hk]. Qed.
Lemma keeps_ret {A} (a : A) : keeps P (Ret a).
Proof. by apply phase_ret. Qed.
Lemma keeps_bind {A B} (p : Prog A) (f : A → Prog B) : keeps P p → (∀ a, keeps P (f a)) → keeps P (prog_bind p f).
Proof. intros Hp Hf. eapply triple_bind; [apply Hp|]. intros a. apply Hf. Qed.
Lemma keeps_go_bind {A B} (m : Go A) (f : A → Go B) : keeps P m → (∀ a, keeps P (f a)) → keeps P (go_bind m f).
Proof. intros Hm Hf. apply keeps_bind; [done|]. intros [a|er]; [apply Hf|apply keeps_ret]. Qed.
Lemma keeps_op {X} (o : Op X) : (∀ n x n', P n → perform o n x n' → P n') → keeps P (op o).
Proof.
  intros Ho. apply (triple_do _ _ _ _ (λ _, P)); [apply phase_inv|exact Ho|intros; apply keeps_ret].
Qed.
Lemma keeps_reading {X} (o : Op X) : (∀ n x n', perform o n x n' → n' = n) → keeps P (op o).
Proof. intros Ho. apply keeps_op. by intros n x n' Hn ->%Ho. Qed.
(** A call: the controller takes steps of its own. *)
Lemma keeps_call r : (∀ n answered, P n → P (record (Sent r answered) n)) →
  (∀ n a, P n → rtc step (n_around n) a → P (set_around a n)) → keeps P (op (Call r)).
Proof.
  intros Hsent Ha. apply keeps_op. intros n x n' Hn (a & Hr & ->). apply Ha; [by apply Hsent|].
  exact (answers_steps subject _ _ _ _ Hr).
Qed.
(** The runtime object is the one the phase tells of. *)
Lemma keeps_runtime {A} (R : persistedTaskExecution → Prop) (k : option persistedTaskExecution → Prog A) :
  (∀ n, P n → ∃ s, n_runtime n = Some s ∧ R s) → (∀ s, R s → keeps P (k (Some s))) →
  keeps P (prog_bind (op GetRuntime) k).
Proof.
  intros HR Hk. apply (phase_op _ _ (λ x n, P n ∧ ∃ s, x = Some s ∧ R s)).
  - intros n x n' Hn [-> ->]. split; [done|]. destruct (HR n Hn) as (s & -> & Hs). eauto.
  - intros x n (Hn & s & -> & Hs). by apply Hk.
Qed.
End keeps.

(** ** Writing the state file *)
Lemma same_execution_success s s' : same_execution s s' → success s' → success s.
Proof.
  intros (_ & _ & _ & Hc & _) (c & Hs & Hp). rewrite Hs in Hc. cbn in Hc. symmetry in Hc.
  apply fmap_Some in Hc as (c' & Hs' & Heq). exists c'. by rewrite <-Heq.
Qed.
Lemma written_state s c s' : marshal_execution s = Ok c → unmarshal_execution c = Ok s' → same_execution s s'.
Proof.
  intros Hm Hu. destruct (unmarshal_marshal_execution s c Hm) as (s1 & Hs1 & Hsame).
  rewrite Hu in Hs1. by injection Hs1 as ->.
Qed.

(** [P] stands whatever becomes of the state file, if it only ever holds what
    it may hold now and [s]. *)
Definition writes (s : persistedTaskExecution) (P : Machine → Prop) : Prop :=
  ∀ n d, P n → (∀ c, on_disk d c → on_disk (n_disk n) c ∨ marshal_execution s = Ok c) → P (set_disk d n).

Lemma written_inv s n d :
  agent_inv n → state_ok (n_journal n) s →
  (∀ c, on_disk d c → on_disk (n_disk n) c ∨ marshal_execution s = Ok c) → agent_inv (set_disk d n).
Proof.
  intros Hi Hs Hd. apply agent_inv_disk; [done|]. intros c s' Hc Hu Hsu.
  destruct (Hd c Hc) as [Ho|Hm]; [by eapply (ai_disk _ Hi)|].
  pose proof (written_state _ _ _ Hm Hu) as Hsame. pose proof Hsame as (Ht & He & _).
  rewrite Ht, He. apply Hs. by eapply same_execution_success.
Qed.

Lemma no_success_written e s n d :
  no_success e n → (success s → pe_ExecutionID s ≠ e) →
  (∀ c, on_disk d c → on_disk (n_disk n) c ∨ marshal_execution s = Ok c) → no_success e (set_disk d n).
Proof.
  intros [Hn Hj] Hs Hd. split; [|done]. intros c s' Hc Hu Hsu.
  destruct (Hd c Hc) as [Ho|Hm]; [by eapply Hn|].
  pose proof (written_state _ _ _ Hm Hu) as Hsame. pose proof Hsame as (_ & -> & _).
  apply Hs. by eapply same_execution_success.
Qed.

Lemma unfinished_no_success s : pe_Completion s = None → ¬ success s.
Proof. intros Hn (c & Hc & _). by rewrite Hn in Hc. Qed.

Lemma running_writes tidy t e s : ¬ success s → writes s (running tidy t e).
Proof.
  intros Hs n d (Hi & Hb & Hn & Hr & Hc) Hd.
  split; [by eapply written_inv; [| |exact Hd]|].
  split_and!; [done| |done|done]. by eapply no_success_written.
Qed.
Lemma ended_writes tidy t e s : same_ids t e s → (success s → tidy = true) → writes s (ended tidy t e).
Proof.
  intros [Ht He] Hs n d (Hi & Hr & Hm) Hd.
  split; [|done]. eapply written_inv; [done| |exact Hd]. intros Hsu. rewrite Ht, He. auto.
Qed.

Lemma writes_shrink s (P : Machine → Prop) n d :
  writes s P → P n → (∀ c, on_disk d c → on_disk (n_disk n) c) → P (set_disk d n).
Proof. intros Hw HP Hd. apply Hw; auto. Qed.

Section file.
Context (s : persistedTaskExecution) (P : Machine → Prop) `{!Phase P} (Hw : writes s P).

(** A step of the file that must succeed. *)
Lemma keeps_must (o : Op bool) message : (∀ n x n', P n → perform o n x n' → P n') → keeps P (must o message).
Proof.
  intros Ho. change (keeps P (prog_bind (op o) (λ done, if done : bool then ok () else err message))).
  apply keeps_bind; [by apply keeps_op|]. intros []; by apply keeps_ret.
Qed.

Lemma persist_keeps : keeps P (persistTaskExecution s).
Proof.
  pose proof Hw as Hput. unfold persistTaskExecution.
  destruct (marshal_execution s) as [c|e] eqn:Hm; [|by apply keeps_ret].
  repeat (apply keeps_go_bind; [done|apply keeps_must|intros _]); [..|apply keeps_must];
    intros n x n' HP; cbn; unfold may_fail; try (intros ->; done); intros ->; destruct x; try done.
  - eapply writes_shrink; [done..|]. intros c' Hc'. by destruct (on_disk_temp _ _ _ Hc') as [[=]|].
  - apply Hput; [done|]. intros c' Hc'. destruct (on_disk_temp _ _ _ Hc') as [[= <-]|]; [by right|by left].
  - destruct (d_temp (n_disk n)) as [c'|] eqn:Ht; [|done]. eapply writes_shrink; [done..|].
    intros c'' Hc'. destruct (on_disk_put _ _ _ Hc') as [[= <-]|]; [|done]. by right; right.
  - eapply writes_shrink; [done..|]. intros c'. apply on_disk_sync.
Qed.

(** Taking the file away. *)
Lemma take_away_keeps n n' : P n → take_away n n' → P n'.
Proof.
  intros HP [_ ->]. eapply writes_shrink; [done..|]. intros c Hc. by destruct (on_disk_put _ _ _ Hc) as [[=]|].
Qed.
Lemma remove_keeps : keeps P removeTaskExecutionState.
Proof.
  apply keeps_bind; [|intros [[]|[]]; by apply keeps_ret].
  apply keeps_op; [done|]. intros n x n' HP [[_ Ht]|[(_ & _ & ->)|(_ & ->)]]; [by eapply take_away_keeps|done|done].
Qed.
Lemma archive_keeps : keeps P archiveTaskExecutionState.
Proof.
  unfold archiveTaskExecutionState.
  repeat (apply keeps_go_bind; [done|apply keeps_must|intros _]); [..|apply keeps_must];
    intros n x n' HP; cbn; unfold may_fail.
  - intros [[_ Ht]|[_ ->]]; [by eapply take_away_keeps|done].
  - by intros ->.
  - intros ->. destruct x; [|done]. eapply writes_shrink; [done..|]. intros c'. apply on_disk_sync.
Qed.
End file.
End invariant.

(** ** Parts of a task that keep its outcome honest

    While a task runs its assertion is [running tidy]: [tidy] says that none
    of its commands failed so far.  A part is [Silent] when it runs no
    command and records no outcome, [Quiet] when it ends without an error
    only if no command of it failed, and it [Fails] when it ends with an
    error.  The rules follow the constructors of the programs; the hint
    database [quiet] collects the parts the tasks share. *)

Create HintDb quiet.

Section rules.
Context `{SQLite} `{ParamsJSON} `{StateJSON}.
Context (subject : Context_) (t e : string).
#[local] Hint Extern 0 Surroundings => exact (controller_here subject) : typeclass_instances.

Definition Silent {A} (p : Prog A) : Prop :=
  ∀ tidy, keeps subject (running subject tidy t e) p.
Definition Quiet {A} (p : Go A) : Prop :=
  ∀ tidy, triple (agent_inv subject) (running subject tidy t e) p (λ r, running subject (tidy && is_ok r) t e).
Definition Fails {A} (p : Go A) : Prop :=
  triple (agent_inv subject) (running subject false t e) p (λ r n, is_ok r = false ∧ running subject false t e n).

(** ** Silent programs *)
Lemma silent_ret {A} (a : A) : Silent (Ret a).
Proof. intros tidy. by apply keeps_ret, _. Qed.
Lemma silent_bind {A B} (p : Prog A) (f : A → Prog B) : Silent p → (∀ a, Silent (f a)) → Silent (prog_bind p f).
Proof. intros Hp Hf tidy. apply keeps_bind; [apply Hp|]. intros a. apply Hf. Qed.
Lemma silent_go_bind {A B} (m : Go A) (f : A → Go B) : Silent m → (∀ a, Silent (f a)) → Silent (go_bind m f).
Proof. intros Hm Hf. apply silent_bind; [done|]. intros [a|er]; [apply Hf|apply silent_ret]. Qed.

(** A request that reports no success. *)
Definition modest (r : Request) : Prop :=
  match r with ReportTaskStateRequest _ _ status _ _ => status ≠ AGENT_TASK_STATUS_SUCCEEDED | _ => True end.
Definition silent_op {X} (o : Op X) : Prop :=
  match o with
  | ReadState | GetRuntime => True
  | OpenTemp | WriteTemp _ | RenameTemp | SyncStateDir | RemoveState | ArchiveState => False
  | SetRuntime _ | LogAccepted _ | Docker _ _ | DockerAPI _ _ _ _ _ => False
  | Call r => modest r
  | _ => True
  end.

Lemma running_sent tidy r answered n : modest r → running subject tidy t e n → running subject tidy t e (record (Sent r answered) n).
Proof.
  intros Hr (Hi & Hb & [Hn Hs] & Hrt & Hc). split_and!.
  - apply agent_inv_record; [done|done|done|]. intros ????? [= -> ->]. by destruct Hr.
  - apply elem_of_app. by left.
  - split; [done|]. cbn. intros t' e' sm fin an [Hin|Hin%list_elem_of_singleton]%elem_of_app; [by eapply Hs|].
    injection Hin as <- <-. by destruct Hr.
  - done.
  - intros Ht dir args done. cbn. intros [Hin|Hin%list_elem_of_singleton]%elem_of_app; [by eapply (Hc Ht)|done].
Qed.
Lemma running_around tidy a n : rtc step (n_around n) a → running subject tidy t e n → running subject tidy t e (set_around a n).
Proof. intros Hm (Hi & ?). split; [by apply agent_inv_around|done]. Qed.

Lemma silent_do {X} (o : Op X) : silent_op o → Silent (op o).
Proof.
  intros Ho tidy. destruct o; try done; try (apply keeps_reading; [apply _|]; intros ???; cbn; try done; by intros []).
  apply keeps_call; [apply _|..]; intros; [by apply running_sent|by apply running_around].
Qed.

(** ** Quiet programs *)
Lemma quiet_silent {A} (p : Go A) : Silent p → Quiet p.
Proof.
  intros Hp tidy. eapply triple_conseq; [apply Hp|done|]. intros [a|er] n; cbn.
  - by rewrite andb_true_r.
  - rewrite andb_false_r. apply running_weaken.
Qed.
Lemma quiet_bind {A B} (p : Prog A) (f : A → Go B) : Silent p → (∀ a, Quiet (f a)) → Quiet (prog_bind p f).
Proof. intros Hp Hf tidy. eapply triple_bind; [apply Hp|]. intros a. apply Hf. Qed.
Lemma quiet_then {A B} (m : Go A) (f : result ConnectError A → Go B) :
  Quiet m → (∀ a, Quiet (f (Ok a))) → (∀ er, Fails (f (Err er))) → Quiet (prog_bind m f).
Proof.
  intros Hm Hf He tidy. eapply triple_bind; [apply Hm|]. intros [a|er]; cbn.
  - rewrite andb_true_r. apply Hf.
  - rewrite andb_false_r. eapply triple_conseq; [apply He|done|]. intros [b|er'] n [Hr Hn]; [done|].
    cbn. by rewrite andb_false_r.
Qed.
Lemma fails_ret {A} er : Fails (A := A) (Ret (Err er)).
Proof. apply phase_ret; [apply _|done]. Qed.
Lemma fails_bind {A B} (p : Prog A) (f : A → Go B) : Silent p → (∀ a, Fails (f a)) → Fails (prog_bind p f).
Proof. intros Hp Hf. eapply triple_bind; [apply Hp|]. intros a. apply Hf. Qed.
Lemma quiet_go_bind {A B} (m : Go A) (f : A → Go B) : Quiet m → (∀ a, Quiet (f a)) → Quiet (go_bind m f).
Proof. intros Hm Hf. apply quiet_then; [done|done|apply fails_ret]. Qed.
Lemma quiet_go_each {A} (f : A → Go ()) l : (∀ x, Quiet (f x)) → Quiet (go_each f l).
Proof.
  intros Hf. induction l as [|x l IH]; [apply quiet_silent, silent_ret|].
  apply quiet_go_bind; [apply Hf|done].
Qed.
Lemma silent_go_each {A} (f : A → Go ()) l : (∀ x, Silent (f x)) → Silent (go_each f l).
Proof.
  intros Hf. induction l as [|x l IH]; [apply silent_ret|]. apply silent_go_bind; [apply Hf|done].
Qed.
Lemma quiet_go_map {A B} (f : A → Go B) l : (∀ x, Quiet (f x)) → Quiet (go_map f l).
Proof.
  intros Hf. induction l as [|x l IH]; [apply quiet_silent, silent_ret|].
  apply quiet_go_bind; [apply Hf|]. intros y. apply quiet_go_bind; [exact IH|]. intros ys.
  apply quiet_silent, silent_ret.
Qed.
Lemma silent_go_map {A B} (f : A → Go B) l : (∀ x, Silent (f x)) → Silent (go_map f l).
Proof.
  intros Hf. induction l as [|x l IH]; [apply silent_ret|].
  apply silent_go_bind; [apply Hf|]. intros y. apply silent_go_bind; [exact IH|]. intros ys. apply silent_ret.
Qed.
(** What is done in any case. *)
Lemma quiet_finally {A B} (m : Go A) (p : Prog B) : Quiet m → Silent p → Quiet (r ⇐ m; _ ⇐ p; Ret r).
Proof.
  intros Hm Hp. apply quiet_then; [done|..].
  - intros a. apply quiet_bind; [done|]. intros _. apply quiet_silent, silent_ret.
  - intros er. apply fails_bind; [done|]. intros _. apply fails_ret.
Qed.

(** ** Commands *)
Lemma running_ran tidy dir args done n :
  running subject tidy t e n → running subject (tidy && done) t e (record (Ran (runtime_execution n) dir args done) n).
Proof.
  intros (Hi & Hb & Hno & (s & Hs & [Ht He] & Hc) & Hcl).
  assert (Hrt : runtime_execution n = e) by (unfold runtime_execution; rewrite Hs; exact He).
  rewrite Hrt. split_and!.
  - apply agent_inv_record; [done|done| |done]. intros ???? [= <- <- <- <-]. split; [by exists t|by right].
  - apply elem_of_app. by left.
  - destruct Hno as [Hd Hj]. split; [done|]. cbn.
    intros t' e' sm fin an [Hin|Hin%list_elem_of_singleton]%elem_of_app; [by eapply Hj|done].
  - by exists s.
  - intros [Htd ->]%andb_true_iff dir' args' done'. cbn.
    intros [Hin|Hin%list_elem_of_singleton]%elem_of_app; [by eapply (Hcl Htd)|by injection Hin].
Qed.
(** A command that did not fail, or a program that fails. *)
Lemma quiet_ran {A X} (o : Op (result string X)) (k : result string X → Go A) :
  (∀ n x n', perform o n x n' → ∃ dir args, n' = record (Ran (runtime_execution n) dir args (is_ok x)) n) →
  (∀ x, Quiet (k (Ok x))) → (∀ er, Fails (k (Err er))) → Quiet (prog_bind (op o) k).
Proof.
  intros Ho Hok Herr tidy. apply (phase_op _ _ _ _ (λ x, running subject (tidy && is_ok x) t e)).
  - intros n x n' Hn (dir & args & ->)%Ho. by apply running_ran.
  - intros [x|er]; cbn; [rewrite andb_true_r; apply Hok|rewrite andb_false_r].
    eapply triple_conseq; [apply Herr|done|]. intros [b|er'] n [Hr Hn]; [done|]. cbn. by rewrite andb_false_r.
Qed.
Lemma quiet_docker {A} dir args (k : result string string → Go A) :
  (∀ text, Quiet (k (Ok text))) → (∀ er, Fails (k (Err er))) → Quiet (prog_bind (op (Docker dir args)) k).
Proof. apply quiet_ran. intros n x n' ->. by exists dir, args. Qed.
Lemma quiet_docker_api {A} action resource id force volumes (k : result string () → Go A) :
  (∀ u, Quiet (k (Ok u))) → (∀ er, Fails (k (Err er))) →
  Quiet (prog_bind (op (DockerAPI action resource id force volumes)) k).
Proof. apply quiet_ran. intros n x n' ->. by exists "", [action; resource; id]. Qed.

(** ** The runtime object *)
Lemma silent_runtime {A} (k : option persistedTaskExecution → Prog A) :
  (∀ s, same_ids t e s → pe_Completion s = None → Silent (k (Some s))) → Silent (prog_bind (op GetRuntime) k).
Proof.
  intros Hk tidy. apply (keeps_runtime _ _ (λ s, same_ids t e s ∧ pe_Completion s = None)).
  - by intros n (_ & _ & _ & ? & _).
  - intros s []. by apply Hk.
Qed.
Lemma silent_set_runtime s : same_ids t e s → pe_Completion s = None → Silent (op (SetRuntime s)).
Proof.
  intros Hids Hc tidy. apply keeps_op; [apply _|].
  intros n x n' (Hi & Hb & Hno & _ & Hcl) ->. split_and!; [by apply agent_inv_runtime|done|done|by exists s|done].
Qed.
Lemma silent_persist s : pe_Completion s = None → Silent (persistTaskExecution s).
Proof.
  intros Hc tidy. apply persist_keeps; [apply _|]. by apply running_writes, unfinished_no_success.
Qed.
Lemma silent_persist_runtime s : same_ids t e s → pe_Completion s = None → Silent (persist_runtime s).
Proof.
  intros Hids Hc. apply silent_bind; [by apply silent_set_runtime|]. intros _. by apply silent_persist.
Qed.
Lemma silent_with_runtime f :
  (∀ s, same_ids t e s → pe_Completion s = None → Silent (f s)) → Silent (with_runtime f).
Proof. intros Hf. by apply silent_runtime. Qed.
End rules.

(** ** The outcome of a task *)
Section outcomes.
Context `{SQLite} `{ParamsJSON} `{StateJSON}.
Context (subject : Context_) (t e : string).
#[local] Hint Extern 0 Surroundings => exact (controller_here subject) : typeclass_instances.

(** A program run at the end of a task. *)
Definition Ends {A} (tidy : bool) (p : Prog A) : Prop := keeps subject (ended subject tidy t e) p.
(** A success is claimed of a tidy task only. *)
Definition claims (tidy : bool) (status : string) : Prop :=
  AgentProto.protoAgentTaskStatus status = AGENT_TASK_STATUS_SUCCEEDED → tidy = true.

Lemma ended_ret {A} tidy (a : A) : Ends tidy (Ret a).
Proof. by apply keeps_ret, _. Qed.
Lemma ends_go_bind {A B} tidy (m : Go A) (f : A → Go B) : Ends tidy m → (∀ a, Ends tidy (f a)) → Ends tidy (go_bind m f).
Proof. apply keeps_go_bind, _. Qed.
Lemma ends_runtime {A} tidy (k : option persistedTaskExecution → Prog A) :
  (∀ s, same_ids t e s → Ends tidy (k (Some s))) → Ends tidy (prog_bind (op GetRuntime) k).
Proof. intros Hk. apply (keeps_runtime _ _ (same_ids t e)); [|done]. by intros n (_ & ? & _). Qed.
Lemma ends_set_runtime tidy s : same_ids t e s → Ends tidy (op (SetRuntime s)).
Proof.
  intros Hids. apply keeps_op; [apply _|].
  intros n x n' (Hi & _ & Hm) ->. split_and!; [by apply agent_inv_runtime|by exists s|done].
Qed.
Lemma ends_persist tidy s : same_ids t e s → (success s → tidy = true) → Ends tidy (persistTaskExecution s).
Proof. intros Hids Hs. apply persist_keeps; [apply _|]. by apply ended_writes. Qed.
Lemma ends_remove tidy : Ends tidy removeTaskExecutionState.
Proof.
  apply (remove_keeps _ (MkPersistedTaskExecution t e false None [])); [apply _|].
  apply ended_writes; [done|]. by intros (? & [=] & _).
Qed.

Lemma ended_sent tidy status sm fin answered n :
  (status = AGENT_TASK_STATUS_SUCCEEDED → tidy = true) → ended subject tidy t e n →
  ended subject tidy t e (record (Sent (ReportTaskStateRequest t e status sm fin) answered) n).
Proof.
  intros Hst (Hi & Hr & Hm). split_and!; [|done|].
  - apply agent_inv_record; [done|done|done|]. intros ????? [= <- <- -> _ _ _]. auto.
  - intros Ht. by apply may_succeed_app, Hm.
Qed.
Lemma ends_report tidy status sm fin :
  (status = AGENT_TASK_STATUS_SUCCEEDED → tidy = true) → Ends tidy (report (ReportTaskStateRequest t e status sm fin)).
Proof.
  intros Hst. apply ends_go_bind; [|intros; apply ended_ret].
  apply keeps_call; [apply _|intros; by apply ended_sent|].
  intros n a (Hi & ?) Ha. split; [by apply agent_inv_around|done].
Qed.

Lemma ends_with_runtime tidy f : (∀ s, same_ids t e s → Ends tidy (f s)) → Ends tidy (with_runtime f).
Proof. intros Hf. by apply ends_runtime. Qed.
Lemma ends_execution_id {A} tidy (k : string → Prog A) : Ends tidy (k e) → Ends tidy (prog_bind taskExecutionID k).
Proof.
  intros Hk. change (Ends tidy (prog_bind (op GetRuntime) (λ x, k (from_option pe_ExecutionID "" x)))).
  apply ends_runtime. intros s [_ He]. cbn. by rewrite He.
Qed.
Lemma ends_storeCompletion tidy value : claims tidy (co_Status value) → Ends tidy (storeCompletion value).
Proof.
  intros Hv. apply ends_with_runtime. intros s Hids. destruct (decide _); [apply ended_ret|].
  destruct (pe_Completion s) as [c|]; [destruct (decide _); apply ended_ret|].
  apply keeps_bind; [by apply ends_set_runtime|]. intros _. apply ends_persist; [done|].
  intros (c & [= <-] & Hc). by apply Hv.
Qed.
Lemma ends_reportTaskCompletion tidy status sm : claims tidy status → Ends tidy (reportTaskCompletion t status sm).
Proof.
  intros Hc. apply keeps_bind; [by apply keeps_reading; [apply _|]|]. intros fin.
  apply ends_go_bind; [by apply ends_storeCompletion|]. intros _.
  apply ends_execution_id. apply ends_go_bind; [by apply ends_report|]. intros _.
  apply ends_with_runtime. intros. apply ends_remove.
Qed.
Lemma ends_failTask {A} tidy er : Ends tidy (failTask (A := A) t er).
Proof. apply keeps_bind; [by apply ends_reportTaskCompletion|]. intros _. apply ended_ret. Qed.

(** ** Tasks: from a running execution to its end *)
Definition Concludes {A} (tidy : bool) (p : Go A) : Prop :=
  triple (agent_inv subject) (running subject tidy t e) p (λ _, ended subject false t e).

Lemma concludes_ends {A} tidy (p : Go A) : Ends tidy p → Concludes tidy p.
Proof.
  intros Hp. eapply triple_conseq; [exact Hp|apply running_ended|]. intros a n. apply ended_weaken.
Qed.
Lemma concludes_on_error {A B} (m : Go A) (handler : ConnectError → Go B) (k : A → Go B) :
  Quiet subject t e m → (∀ er, Concludes false (handler er)) → (∀ a, Concludes true (k a)) →
  Concludes true (on_error m handler k).
Proof.
  intros Hm Hh Hk. eapply triple_bind; [apply Hm|]. intros [a|er]; cbn; [apply Hk|apply Hh].
Qed.
Lemma concludes_bind {A B} tidy (p : Prog A) (f : A → Go B) :
  Silent subject t e p → (∀ a, Concludes tidy (f a)) → Concludes tidy (prog_bind p f).
Proof. intros Hp Hf. eapply triple_bind; [apply Hp|]. intros a. apply Hf. Qed.
Lemma concludes_go_bind {A B} tidy (m : Go A) (f : A → Go B) :
  Silent subject t e m → (∀ a, Concludes tidy (f a)) → Concludes tidy (go_bind m f).
Proof.
  intros Hm Hf. apply concludes_bind; [done|]. intros [a|er]; [apply Hf|]. apply concludes_ends, ended_ret.
Qed.
Lemma concludes_succeed sm : Concludes true (reportTaskCompletion t StatusSucceeded sm).
Proof. apply concludes_ends. by apply ends_reportTaskCompletion. Qed.
Lemma concludes_failTask {A} tidy er : Concludes tidy (failTask (A := A) t er).
Proof. apply concludes_ends, ends_failTask. Qed.
End outcomes.
