(* ===== verification/AgentLoop.v ===== *)
(** * The programs of the agent keep its invariant

    The tasks first, then the loop that recovers, accepts and runs them. *)

(** ** The tasks of the agent keep the invariant

    Every program of TaskExecution.v, AgentBundles.v, AgentTasks.v and
    AgentBackups.v that a task runs is [Silent], [Quiet] or [Concludes] the
    task; the tactic [programs] follows their structure. *)
From S2P Require Export AgentInvariant.

#[export] Hint Constants Opaque : quiet.
#[export] Hint Variables Opaque : quiet.
#[export] Hint Extern 0 (modest _) => exact I : quiet.
#[export] Hint Extern 0 (silent_op _) => exact I : quiet.
#[export] Hint Resolve silent_ret silent_do : quiet.
#[export] Hint Extern 1 (Quiet _ _ _ _) => apply quiet_silent : quiet.

(** Follows the structure of a program down to the parts the database knows. *)
Ltac programs :=
  cbv beta zeta;
  lazymatch goal with
  | |- ∀ _, _ => intros ?; programs
  | |- Silent _ _ _ (match ?x with _ => _ end) => destruct x; programs
  | |- Quiet _ _ _ (match ?x with _ => _ end) => destruct x; programs
  | |- Fails _ _ _ (match ?x with _ => _ end) => destruct x; programs
  | |- Silent _ _ _ (go_bind _ _) => apply silent_go_bind; programs
  | |- Silent _ _ _ (prog_bind _ _) => apply silent_bind; programs
  | |- Silent _ _ _ (go_each _ _) => apply silent_go_each; programs
  | |- Silent _ _ _ (go_map _ _) => apply silent_go_map; programs
  | |- Quiet _ _ _ (prog_bind (op (Docker _ _)) _) => apply quiet_docker; programs
  | |- Quiet _ _ _ (prog_bind (op (DockerAPI _ _ _ _ _)) _) => apply quiet_docker_api; programs
  | |- Quiet _ _ _ (go_bind _ _) => apply quiet_go_bind; programs
  | |- Quiet _ _ _ (prog_bind _ _) => apply quiet_bind; programs
  | |- Quiet _ _ _ (go_each _ _) => apply quiet_go_each; programs
  | |- Quiet _ _ _ (go_map _ _) => apply quiet_go_map; programs
  | |- Fails _ _ _ (prog_bind _ _) => apply fails_bind; programs
  | |- Fails _ _ _ (Ret (Err _)) => apply fails_ret
  | |- _ => try solve [auto with quiet nocore]
  end.

Section basics.
Context `{SQLite} `{ParamsJSON} `{StateJSON}.
Context (subject : Context_) (t e : string).
#[local] Hint Extern 0 Surroundings => exact (controller_here subject) : typeclass_instances.
#[local] Abbreviation silent := (Silent subject t e).
#[local] Abbreviation quiet := (Quiet subject t e).

Lemma silent_ok {A} (a : A) : silent (ok a).
Proof. unfold ok. programs. Qed.
Lemma silent_err {A} message : silent (err (A := A) message).
Proof. unfold err. programs. Qed.
Lemma fails_err {A} message : Fails subject t e (err (A := A) message).
Proof. apply fails_ret. Qed.
Lemma silent_of_text {A} (r : result string A) : silent (of_text r).
Proof. unfold of_text. programs. Qed.
Lemma fails_of_text {A} er : Fails subject t e (of_text (A := A) (Err er)).
Proof. apply fails_ret. Qed.
Lemma silent_must (o : Op bool) message : silent_op o → silent (must o message).
Proof.
  intros Ho. change (silent (prog_bind (op o) (λ done, if done : bool then ok () else err message))).
  apply silent_bind; [by apply silent_do|]. intros []; [apply silent_ok|apply silent_err].
Qed.
Lemma silent_call r : modest r → silent (call r).
Proof. intros Hr. by apply silent_do. Qed.
Lemma silent_report r : modest r → silent (report r).
Proof. intros Hr. apply silent_go_bind; [by apply silent_call|]. intros _. apply silent_ok. Qed.
Lemma silent_uploadTaskLog line : silent (uploadTaskLog line).
Proof. unfold uploadTaskLog. apply silent_bind; [by apply silent_do|]. intros _. apply silent_ok. Qed.
End basics.
#[export] Hint Resolve silent_ok silent_err fails_err fails_of_text silent_of_text silent_must silent_call silent_report
  silent_uploadTaskLog : quiet.

(** ** TaskExecution.v *)
Section execution.
Context `{SQLite} `{ParamsJSON} `{StateJSON}.
Context (subject : Context_) (t e : string).
#[local] Hint Extern 0 Surroundings => exact (controller_here subject) : typeclass_instances.
#[local] Abbreviation silent := (Silent subject t e).
#[local] Abbreviation quiet := (Quiet subject t e).

Lemma silent_taskExecutionID : silent taskExecutionID.
Proof. unfold taskExecutionID. programs. Qed.
Lemma silent_taskExecutionTaskID : silent taskExecutionTaskID.
Proof. unfold taskExecutionTaskID. programs. Qed.
#[local] Hint Resolve silent_taskExecutionID silent_taskExecutionTaskID : quiet.

Lemma silent_sendPersistedBackupResult taskID executionID r : silent (sendPersistedBackupResult taskID executionID r).
Proof. unfold sendPersistedBackupResult. programs. Qed.
#[local] Hint Resolve silent_sendPersistedBackupResult : quiet.
Lemma silent_storeBackupResult value : silent (storeBackupResult value).
Proof.
  apply silent_with_runtime. intros s Hids Hc. destruct (existing_backup _ _); [programs|].
  by apply silent_persist_runtime.
Qed.
Lemma silent_removeFirstBackupResult : silent removeFirstBackupResult.
Proof.
  apply silent_with_runtime. intros s Hids Hc. destruct (pe_BackupResults s); [programs|].
  by apply silent_persist_runtime.
Qed.
#[local] Hint Resolve silent_storeBackupResult silent_removeFirstBackupResult : quiet.
Lemma silent_report_until_sent retries taskID r : silent (report_until_sent retries taskID r).
Proof. induction retries as [|retries IH]; cbn [report_until_sent]; programs. Qed.
#[local] Hint Resolve silent_report_until_sent : quiet.
Lemma silent_reportBackupResult retries taskID serviceName dataName ref status started finished summary :
  silent (reportBackupResult retries taskID serviceName dataName ref status started finished summary).
Proof. unfold reportBackupResult. programs. Qed.

Lemma silent_reportTaskStepState taskID stepName status started finished :
  silent (reportTaskStepState taskID stepName status started finished).
Proof. unfold reportTaskStepState. programs. Qed.
#[local] Hint Resolve silent_reportTaskStepState : quiet.
Lemma quiet_executeTaskStep {A} taskID stepName (execute : Go A) :
  quiet execute → quiet (executeTaskStep taskID stepName execute).
Proof.
  intros Hx. unfold executeTaskStep. apply quiet_bind; [programs|]. intros started.
  do 2 (apply quiet_go_bind; [programs|]; intros _). apply quiet_then; [exact Hx|programs..].
Qed.
Lemma silent_reportServiceStatus cfg serviceName runtimeStatus : silent (reportServiceStatus cfg serviceName runtimeStatus).
Proof. unfold reportServiceStatus. programs. Qed.
#[local] Hint Resolve silent_reportServiceStatus : quiet.
Lemma concludes_failServiceTask {A} tidy cfg task er :
  at_TaskId task = t → Concludes subject t e tidy (failServiceTask (A := A) cfg task er).
Proof.
  intros Ht. unfold failServiceTask. rewrite Ht.
  apply concludes_bind; [programs|]. intros _. apply concludes_failTask.
Qed.
End execution.
#[export] Hint Resolve silent_taskExecutionID silent_taskExecutionTaskID silent_reportBackupResult
  silent_reportServiceStatus quiet_executeTaskStep : quiet.

(** ** AgentBundles.v and ComposeRuntime.v *)
Section bundles.
Context `{SQLite} `{ParamsJSON} `{StateJSON} `{PathResolver} `{AgentLibraries} `{MetaDecoder} `{Semver}.
Context (subject : Context_) (t e : string).
#[local] Hint Extern 0 Surroundings => exact (controller_here subject) : typeclass_instances.
#[local] Abbreviation silent := (Silent subject t e).

Lemma silent_tarEntryTargetPath destination name : silent (tarEntryTargetPath destination name).
Proof. unfold tarEntryTargetPath. programs. Qed.
#[local] Hint Resolve silent_tarEntryTargetPath : quiet.
Lemma silent_extract_entry destination header : silent (extract_entry destination header).
Proof. unfold extract_entry. programs. Qed.
#[local] Hint Resolve silent_extract_entry : quiet.
Lemma silent_extractTarStream archive destination : silent (extractTarStream archive destination).
Proof. unfold extractTarStream. programs. Qed.
#[local] Hint Resolve silent_extractTarStream : quiet.
Lemma silent_replaceDirectory target staged : silent (replaceDirectory target staged).
Proof. unfold replaceDirectory. programs. Qed.
#[local] Hint Resolve silent_replaceDirectory : quiet.
Lemma silent_staged_bundle name relative target stage data : silent (staged_bundle name relative target stage data).
Proof. unfold staged_bundle. programs. Qed.
#[local] Hint Resolve silent_staged_bundle : quiet.
Lemma silent_downloadServiceBundle cfg taskID serviceDir : silent (downloadServiceBundle cfg taskID serviceDir).
Proof. unfold downloadServiceBundle. programs. Qed.

Lemma silent_verifyServiceFiles root l : silent (verifyServiceFiles root l).
Proof. unfold verifyServiceFiles. programs. Qed.
#[local] Hint Resolve silent_verifyServiceFiles : quiet.
Lemma silent_checkServiceFiles taskID revision dir root : silent (checkServiceFiles taskID revision dir root).
Proof. unfold checkServiceFiles. programs. Qed.
Lemma silent_join_errors {A} (checked : result CheckError A) reported : silent (join_errors checked reported).
Proof. unfold join_errors. programs. Qed.
#[local] Hint Resolve silent_checkServiceFiles silent_join_errors : quiet.
Lemma silent_checkTaskServiceFiles cfg task dir : silent (checkTaskServiceFiles cfg task dir).
Proof. unfold checkTaskServiceFiles. programs. Qed.
Lemma silent_loadServiceTaskMeta dir : silent (loadServiceTaskMeta dir).
Proof. unfold loadServiceTaskMeta. programs. Qed.
#[local] Hint Resolve silent_loadServiceTaskMeta : quiet.
Lemma silent_loadComposeCommandConfig dir fallback : silent (loadComposeCommandConfig dir fallback).
Proof. unfold loadComposeCommandConfig. programs. Qed.
Lemma silent_docker_output dir args : silent (docker_output dir args).
Proof. unfold docker_output. programs. Qed.
#[local] Hint Resolve silent_loadComposeCommandConfig silent_docker_output : quiet.
Lemma silent_checkServiceContainers root compose : silent (checkServiceContainers root compose).
Proof. unfold checkServiceContainers. programs. Qed.
#[local] Hint Resolve silent_checkServiceContainers : quiet.
Lemma silent_checkServiceConsistency task root : silent (checkServiceConsistency task root).
Proof. unfold checkServiceConsistency. programs. Qed.
End bundles.
#[export] Hint Resolve silent_downloadServiceBundle silent_checkTaskServiceFiles silent_loadServiceTaskMeta
  silent_loadComposeCommandConfig silent_docker_output silent_checkServiceConsistency : quiet.

(** ** AgentTasks.v *)
Ltac tasks :=
  cbv beta zeta;
  lazymatch goal with
  | |- ∀ _, _ => intros ?; tasks
  | |- Concludes _ _ _ _ (match ?x with _ => _ end) => destruct x; tasks
  | |- Concludes _ _ _ _ (on_error _ _ _) => apply concludes_on_error; tasks
  | |- Concludes _ _ _ _ (go_bind _ _) => apply concludes_go_bind; tasks
  | |- Quiet _ _ _ (AgentTasks.step _ _ _) => apply quiet_executeTaskStep; programs
  | |- Concludes _ _ _ _ _ => auto with quiet nocore
  | |- _ => programs
  end.

Section tasks.
Context `{SQLite} `{ParamsJSON} `{StateJSON} `{PathResolver} `{AgentLibraries} `{MetaDecoder} `{Semver} `{TagLibraries}.
Context `{ImageReferences} `{!DigestReferences} `{RegistryLibraries} `{DockerCommand} `{MetaDocuments}.
Context (subject : Context_) (cfg : AgentConfig) (pages : nat) (files : string → string → option string).
Context (pulledTask : AgentTask) (e : string).
#[local] Hint Extern 0 Surroundings => exact (controller_here subject) : typeclass_instances.
#[local] Abbreviation t := (at_TaskId pulledTask).
#[local] Abbreviation silent := (Silent subject t e).
#[local] Abbreviation quiet := (Quiet subject t e).
#[local] Abbreviation concludes := (Concludes subject t e true).

Lemma quiet_run_command dir args message : quiet (run_command dir args message).
Proof. unfold run_command. programs. Qed.
#[local] Hint Resolve quiet_run_command : quiet.
Lemma quiet_run_quietly dir args message : quiet (run_quietly dir args message).
Proof. unfold run_quietly. programs. Qed.
#[local] Hint Resolve quiet_run_quietly : quiet.
Lemma quiet_runComposeUp dir compose : quiet (runComposeUp dir compose).
Proof. unfold runComposeUp, runComposeUpWithOptions. programs. Qed.
Lemma quiet_runComposeDown dir compose : quiet (runComposeDown dir compose).
Proof. unfold runComposeDown. programs. Qed.
Lemma quiet_runComposePull dir compose : quiet (runComposePull dir compose).
Proof. unfold runComposePull. programs. Qed.
Lemma silent_composeProjectRunning dir compose : silent (composeProjectRunning dir compose).
Proof. unfold composeProjectRunning. programs. Qed.
Lemma silent_detectServiceDirBindMounts dir compose : silent (detectServiceDirBindMounts dir compose).
Proof. unfold detectServiceDirBindMounts. programs. Qed.
#[local] Hint Resolve silent_detectServiceDirBindMounts : quiet.
Lemma silent_resolveComposeForceRecreate dir compose mode : silent (resolveComposeForceRecreate dir compose mode).
Proof. unfold resolveComposeForceRecreate. programs. Qed.
#[local] Hint Resolve silent_resolveComposeForceRecreate : quiet.
Lemma quiet_runComposeUpForServiceTask dir compose mode : quiet (runComposeUpForServiceTask dir compose mode).
Proof. unfold runComposeUpForServiceTask, runComposeUpWithOptions. programs. Qed.

Lemma silent_syncServiceCaddyFile dir root : silent (syncServiceCaddyFile cfg dir root).
Proof. unfold syncServiceCaddyFile. programs. Qed.
Lemma silent_removeServiceCaddyFile dir : silent (removeServiceCaddyFile cfg dir).
Proof. unfold removeServiceCaddyFile. programs. Qed.
Lemma silent_remove_generated entry : silent (remove_generated cfg entry).
Proof. unfold remove_generated. programs. Qed.
#[local] Hint Resolve silent_syncServiceCaddyFile silent_removeServiceCaddyFile silent_remove_generated : quiet.
Lemma silent_syncCaddyFilesForTask params : silent (syncCaddyFilesForTask cfg pulledTask params).
Proof. unfold syncCaddyFilesForTask. programs. Qed.
Lemma silent_localServiceRoot : silent (localServiceRoot cfg pulledTask).
Proof. unfold localServiceRoot. programs. Qed.
Lemma silent_inspectLocalImageDigest ref : silent (inspectLocalImageDigest ref).
Proof. unfold inspectLocalImageDigest. programs. Qed.
#[local] Hint Resolve silent_inspectLocalImageDigest : quiet.
Lemma silent_observe_image remote service ref : silent (observe_image remote service ref).
Proof. unfold observe_image. programs. Qed.
#[local] Hint Resolve silent_observe_image : quiet.
Lemma silent_collectServiceImageObservations dir compose remote :
  silent (collectServiceImageObservations dir compose remote).
Proof. unfold collectServiceImageObservations. programs. Qed.
Lemma silent_reportServiceImageObservations l : silent (reportServiceImageObservations pulledTask l).
Proof. unfold reportServiceImageObservations. programs. Qed.
#[local] Hint Resolve silent_collectServiceImageObservations silent_reportServiceImageObservations : quiet.
Lemma silent_reportServiceImageStates dir remote : silent (reportServiceImageStates pulledTask dir remote).
Proof. unfold reportServiceImageStates. programs. Qed.
#[local] Hint Resolve silent_reportServiceImageStates : quiet.
Lemma silent_reportServiceImageStatesBestEffort dir remote :
  silent (reportServiceImageStatesBestEffort pulledTask dir remote).
Proof. unfold reportServiceImageStatesBestEffort. programs. Qed.
Lemma silent_replicas_digest root ref digest l : silent (replicas_digest root ref digest l).
Proof. revert digest. induction l as [|c l IH]; intros digest; cbn [replicas_digest]; programs. Qed.
#[local] Hint Resolve silent_replicas_digest : quiet.
Lemma silent_observeServiceImages root checked : silent (observeServiceImages root checked).
Proof. unfold observeServiceImages, observe_service. programs. Qed.
Lemma silent_reportImageUpdateChecks dir meta : silent (reportImageUpdateChecks pages files pulledTask dir meta).
Proof. unfold reportImageUpdateChecks. programs. Qed.
#[local] Hint Resolve quiet_runComposeUp quiet_runComposeDown quiet_runComposePull quiet_runComposeUpForServiceTask
  silent_syncCaddyFilesForTask silent_localServiceRoot silent_reportServiceImageStatesBestEffort
  silent_observeServiceImages silent_reportImageUpdateChecks : quiet.

(** ** The tasks *)
Lemma concludes_failing {A} tidy er : Concludes subject t e tidy (failing (B := A) pulledTask er).
Proof. apply concludes_failTask. Qed.
Lemma concludes_failing_service {A} tidy er : Concludes subject t e tidy (failing_service (B := A) cfg pulledTask er).
Proof. by apply concludes_failServiceTask. Qed.
Lemma concludes_success : concludes (succeed pulledTask).
Proof. apply concludes_succeed. Qed.
Lemma quiet_step {A} stepName (execute : Go A) : quiet execute → quiet (AgentTasks.step pulledTask stepName execute).
Proof. apply quiet_executeTaskStep. Qed.
#[local] Hint Resolve concludes_failing concludes_failing_service concludes_success quiet_step : quiet.

Lemma quiet_render_bundle : quiet (render_bundle cfg pulledTask).
Proof. unfold render_bundle. apply quiet_step. programs. Qed.
Lemma silent_executeCaddySyncStep root : quiet (executeCaddySyncStep cfg pulledTask root).
Proof. unfold executeCaddySyncStep. apply quiet_step. programs. Qed.
Lemma quiet_prepareLocalServiceTask : quiet (prepareLocalServiceTask cfg pulledTask).
Proof. unfold prepareLocalServiceTask. apply quiet_step. programs. Qed.
#[local] Hint Resolve quiet_render_bundle silent_executeCaddySyncStep quiet_prepareLocalServiceTask : quiet.

Lemma concludes_bring_up params bundle meta : concludes (bring_up cfg pulledTask params bundle meta).
Proof. unfold bring_up. tasks. Qed.
#[local] Hint Resolve concludes_bring_up : quiet.
Lemma concludes_executeDeployTask : concludes (executeDeployTask cfg pulledTask).
Proof. unfold executeDeployTask. tasks. Qed.
Lemma concludes_executeUpdateTask : concludes (executeUpdateTask cfg pulledTask).
Proof. unfold executeUpdateTask. tasks. Qed.
Lemma concludes_executeImageCheckTask : concludes (executeImageCheckTask cfg pages files pulledTask).
Proof. unfold executeImageCheckTask. tasks. Qed.
Lemma concludes_executeStopTask : concludes (executeStopTask cfg pulledTask).
Proof. unfold executeStopTask. tasks. Qed.
Lemma concludes_executeRestartTask : concludes (executeRestartTask cfg pulledTask).
Proof. unfold executeRestartTask. tasks. Qed.
Lemma concludes_executeCaddySyncTask : concludes (executeCaddySyncTask cfg pulledTask).
Proof. unfold executeCaddySyncTask. tasks. Qed.
Lemma concludes_executeCaddyReloadTask : concludes (executeCaddyReloadTask cfg pulledTask).
Proof. unfold executeCaddyReloadTask. tasks. Qed.
Lemma quiet_runDockerPrune target : quiet (runDockerPrune target).
Proof. unfold runDockerPrune, runDockerPruneAll, prune_one. programs. Qed.
#[local] Hint Resolve quiet_runDockerPrune : quiet.
Lemma concludes_executePruneTask : concludes (executePruneTask pulledTask).
Proof. unfold executePruneTask. tasks. Qed.
Lemma silent_loadRusticTaskMeta dir fallback : silent (loadRusticTaskMeta dir fallback).
Proof. unfold loadRusticTaskMeta. programs. Qed.
#[local] Hint Resolve silent_loadRusticTaskMeta : quiet.
Lemma concludes_rustic_task stepName run :
  (∀ dir meta, quiet (run dir meta)) → concludes (rustic_task cfg pulledTask stepName run).
Proof. intros Hrun. unfold rustic_task. tasks. Qed.
Lemma quiet_rustic_run dir meta args message : quiet (rustic_run dir meta args message).
Proof. unfold rustic_run. programs. Qed.
Lemma concludes_executeRusticPruneTask : concludes (executeRusticPruneTask cfg pulledTask).
Proof. apply concludes_rustic_task. intros. apply quiet_rustic_run. Qed.
Lemma concludes_executeRusticInitTask : concludes (executeRusticInitTask cfg pulledTask).
Proof. apply concludes_rustic_task. intros. apply quiet_rustic_run. Qed.
Lemma concludes_executeRusticForgetTask : concludes (executeRusticForgetTask cfg pulledTask).
Proof. apply concludes_on_error; [programs|tasks|]. intros. apply concludes_rustic_task. intros. apply quiet_rustic_run. Qed.
Lemma concludes_executeDockerTask : concludes (executeDockerTask pulledTask).
Proof. unfold executeDockerTask. tasks. Qed.
End tasks.
#[export] Hint Resolve quiet_run_command quiet_run_quietly quiet_runComposeUp quiet_runComposeDown
  silent_composeProjectRunning concludes_failing concludes_failing_service concludes_success quiet_step : quiet.
#[export] Hint Resolve concludes_executeDeployTask concludes_executeUpdateTask concludes_executeImageCheckTask
  concludes_executeStopTask concludes_executeRestartTask concludes_executeCaddySyncTask
  concludes_executeCaddyReloadTask concludes_executePruneTask concludes_executeRusticPruneTask
  concludes_executeRusticInitTask concludes_executeRusticForgetTask concludes_executeDockerTask : quiet.

(** ** AgentBackups.v *)
Section backups.
Context `{SQLite} `{ParamsJSON} `{StateJSON} `{PathResolver} `{AgentLibraries} `{MetaDecoder} `{Semver} `{TagLibraries}.
Context `{ImageReferences} `{!DigestReferences} `{RegistryLibraries} `{DockerCommand} `{MetaDocuments}.
Context (subject : Context_) (cfg : AgentConfig) (pages : nat) (files : string → string → option string).
Context (retries : nat) (pulledTask : AgentTask) (e : string).
#[local] Hint Extern 0 Surroundings => exact (controller_here subject) : typeclass_instances.
#[local] Abbreviation t := (at_TaskId pulledTask).
#[local] Abbreviation silent := (Silent subject t e).
#[local] Abbreviation quiet := (Quiet subject t e).
#[local] Abbreviation concludes := (Concludes subject t e true).

Lemma silent_dataProtectStageDir prefix : silent (dataProtectStageDir cfg prefix).
Proof. unfold dataProtectStageDir. programs. Qed.
Lemma quiet_clearDockerVolume name : quiet (clearDockerVolume name).
Proof. unfold clearDockerVolume. programs. Qed.
Lemma silent_resolvePostgresUser dir compose name user : silent (resolvePostgresUser dir compose name user).
Proof. unfold resolvePostgresUser. programs. Qed.
Lemma quiet_runComposePGDumpAll dir compose name user target : quiet (runComposePGDumpAll dir compose name user target).
Proof. unfold runComposePGDumpAll. programs. Qed.
Lemma quiet_runComposePGImport dir compose name user source : quiet (runComposePGImport dir compose name user source).
Proof. unfold runComposePGImport. programs. Qed.
Lemma quiet_runRusticBackup dir rustic source item volumes : quiet (runRusticBackup dir rustic source item volumes).
Proof. unfold runRusticBackup. programs. Qed.
Lemma quiet_runRusticRestore dir rustic ref target volumes : quiet (runRusticRestore dir rustic ref target volumes).
Proof. unfold runRusticRestore. programs. Qed.
#[local] Hint Resolve silent_dataProtectStageDir quiet_clearDockerVolume silent_resolvePostgresUser
  quiet_runComposePGDumpAll quiet_runComposePGImport quiet_runRusticBackup quiet_runRusticRestore : quiet.

Lemma silent_getServiceTaskRuntime : silent (getServiceTaskRuntime pulledTask).
Proof. unfold getServiceTaskRuntime. programs. Qed.
Lemma silent_checkBackupServiceFiles dir : silent (checkBackupServiceFiles cfg pulledTask dir).
Proof. unfold checkBackupServiceFiles. programs. Qed.
Lemma silent_stat_include path missing : silent (stat_include path missing).
Proof. unfold stat_include. programs. Qed.
#[local] Hint Resolve silent_getServiceTaskRuntime silent_checkBackupServiceFiles silent_stat_include : quiet.
Lemma silent_buildBackupVolumeFlags root dir item : silent (buildBackupVolumeFlags root dir item).
Proof. unfold buildBackupVolumeFlags, backup_volume. programs. Qed.
Lemma quiet_stageBackupItem root dir item : quiet (stageBackupItem root dir item).
Proof. unfold stageBackupItem. programs. Qed.
Lemma quiet_around_stopped {A} root kind (body : Go A) : quiet body → quiet (around_stopped root kind body).
Proof.
  intros Hbody. unfold around_stopped. apply quiet_go_bind; [programs|]. intros [compose meta].
  apply quiet_go_bind; [programs|]. intros []; [|done].
  do 2 (apply quiet_go_bind; [programs|]; intros _). intros tidy.
  eapply triple_bind; [apply Hbody|]. intros r. eapply triple_bind; [apply quiet_runComposeUp|].
  intros [u|er]; cbn [is_ok]; [rewrite andb_true_r; apply phase_ret; [apply _|done]|].
  rewrite andb_false_r. destruct r as [a|er'].
  - eapply triple_conseq; [apply fails_ret|done|]. intros x n [-> Hn]. by rewrite andb_false_r.
  - eapply triple_conseq; [|done|].
    + apply (fails_bind subject t e (uploadTaskLog "restart compose project failed") (λ _, Ret (Err er')));
        [programs|]. intros _. apply fails_ret.
    + intros x n [-> Hn]. by rewrite andb_false_r.
Qed.
Lemma quiet_in_stage {A} prefix rustic (body : string → string → Go A) :
  (∀ x y, quiet (body x y)) → quiet (in_stage cfg prefix rustic body).
Proof.
  intros Hbody. unfold in_stage. apply quiet_go_bind; [programs|]. intros dir.
  apply quiet_finally; [apply quiet_go_bind; [programs|done]|programs].
Qed.
#[local] Hint Resolve silent_buildBackupVolumeFlags quiet_stageBackupItem : quiet.
Lemma quiet_backup_volumes_then root rusticRoot source item rustic :
  quiet (backup_volumes_then root rusticRoot source item rustic).
Proof. unfold backup_volumes_then. programs. Qed.
#[local] Hint Resolve quiet_backup_volumes_then quiet_around_stopped : quiet.
Lemma quiet_backupRuntimeItem root rusticRoot taskID item rustic :
  quiet (backupRuntimeItem cfg root rusticRoot taskID item rustic).
Proof. apply quiet_in_stage. intros dir source. unfold backup_in_stage. programs. Qed.
Lemma quiet_backup_item root rusticRoot rustic item :
  quiet (backup_item cfg retries pulledTask root rusticRoot rustic item).
Proof.
  unfold backup_item. apply quiet_bind; [programs|]. intros started.
  apply quiet_then; [apply quiet_backupRuntimeItem|programs..].
Qed.
#[local] Hint Resolve quiet_backup_item : quiet.
Lemma concludes_executeBackupTask : concludes (executeBackupTask cfg retries pulledTask).
Proof. unfold executeBackupTask. tasks. Qed.

Lemma quiet_restore_volume root dir name include : quiet (restore_volume root dir name include).
Proof. unfold restore_volume. programs. Qed.
#[local] Hint Resolve quiet_restore_volume : quiet.
Lemma quiet_restore_volumes_then root rusticRoot staging target item rustic :
  quiet (restore_volumes_then root rusticRoot staging target item rustic).
Proof. unfold restore_volumes_then, prepareRestoreVolumeFlags. programs. Qed.
Lemma quiet_applyRestoreItem root staging item : quiet (applyRestoreItem root staging item).
Proof. unfold applyRestoreItem. programs. Qed.
#[local] Hint Resolve quiet_restore_volumes_then quiet_applyRestoreItem : quiet.
Lemma quiet_restoreRuntimeItem root rusticRoot taskID rustic item :
  quiet (restoreRuntimeItem cfg root rusticRoot taskID rustic item).
Proof. apply quiet_in_stage. intros dir target. programs. Qed.
#[local] Hint Resolve quiet_restoreRuntimeItem : quiet.
Lemma concludes_executeRestoreTask : concludes (executeRestoreTask cfg pulledTask).
Proof. unfold executeRestoreTask. tasks. Qed.
#[local] Hint Resolve concludes_executeBackupTask concludes_executeRestoreTask concludes_failTask : quiet.

Lemma concludes_executePulledTask : concludes (executePulledTask cfg pages files retries pulledTask).
Proof. unfold executePulledTask. tasks. Qed.
Lemma concludes_executePulledTaskWithTimeout :
  concludes (executePulledTaskWithTimeout cfg pages files retries pulledTask).
Proof.
  unfold executePulledTaskWithTimeout. eapply triple_bind; [apply concludes_executePulledTask|].
  intros [u|er]; [apply ended_ret|].
  do 2 (apply keeps_bind; [by apply keeps_reading; [apply _|]|]; intros ?).
  destruct (_ && _); [apply ended_ret|].
  apply keeps_bind; [by apply ends_reportTaskCompletion|]. intros _. apply ended_ret.
Qed.
End backups.

(** ** The loop of the agent keeps the invariant

    The phases of [pollAndRunTask] before a task runs: recovering an
    execution after a restart, an execution that was [offered], one the
    controller [accepted]; the invariant holds in every state the agent and
    its controller reach ([agent_reaches_inv]). *)

(** ** The execution id of a task that is handed out is new *)
Lemma pull_response_execution `{ParamsJSON} record task : pull_response record = Ok task → at_ExecutionId task = rec_ExecutionID record.
Proof. unfold pull_response. destruct (taskParams _); [|done]. by intros [= <-]. Qed.
Lemma claimed_execution `{SQLite} nodeID now lease uuid db db' record :
  ClaimNextPendingTaskForNode nodeID now lease uuid db = Ok (db', record) → rec_ExecutionID record = uuid.
Proof.
  unfold ClaimNextPendingTaskForNode. destruct (select_first _ _ _) as [[taskID row]|]; [|done].
  destruct (update_row _ _ _ _) as [t affected]. destruct (decide _); [done|]. by intros [= _ <-].
Qed.
Lemma pulled_execution `{SQLite} `{ParamsJSON} subject nodeID protocol s task s' :
  pulled subject nodeID protocol s (Ok (Some task)) s' → at_ExecutionId task ∉ used_ids s.
Proof.
  intros (turn & Hfresh & _ & _ & Hp & _). unfold PullNextTask in Hp.
  do 3 (destruct (decide _); [by injection Hp|]). cbn in Hp.
  destruct (ClaimNextPendingTaskForNode _ _ _ _ _) as [[db record]|er] eqn:Hc.
  - injection Hp as _ Hr. apply result_bind_Ok in Hr as (task' & Hr & [= ->]).
    rewrite (pull_response_execution _ _ Hr). apply claimed_execution in Hc. by rewrite Hc.
  - destruct er; try done. by destruct (decide _).
Qed.
Lemma held_by_unique e e' l : held_by e l → held_by e' l → e = e'.
Proof. destruct l as [| | | | | |? [?|]]; cbn; try done; congruence. Qed.
Lemma holds_unique `{SQLite} s t e e' : holds s t e → holds s t e' → e = e'.
Proof. intros (l & Hl & He) (l' & Hl' & He'). rewrite Hl in Hl'. injection Hl' as ->. by eapply held_by_unique. Qed.

Section loop.
Context `{SQLite} `{ParamsJSON} `{StateJSON}.
Context (subject : Context_).
#[local] Hint Extern 0 Surroundings => exact (controller_here subject) : typeclass_instances.

(** ** Phases *)
(** A state of the file that was read. *)
Definition knows (s : persistedTaskExecution) (n : Machine) : Prop := agent_inv subject n ∧ state_ok (n_journal n) s.
Definition offered (e : string) (n : Machine) : Prop := agent_inv subject n ∧ ∀ t, Began t e ∉ n_journal n.
Definition accepted (t e : string) (n : Machine) : Prop := offered e n ∧ holds (n_around n) t e.
Definition starting (t e : string) (n : Machine) : Prop :=
  accepted t e n ∧ ∃ s, n_runtime n = Some s ∧ same_ids t e s ∧ pe_Completion s = None.

Lemma accepted_around t e a n : accepted t e n → rtc step (n_around n) a → accepted t e (set_around a n).
Proof.
  intros [[Hi Hb] Hh] Ha. split; [split; [by apply agent_inv_around|done]|]. cbn.
  eapply holds_steps; [apply Hi|exact Ha|exact Hh].
Qed.
#[export] Instance knows_phase s : Phase subject (knows s).
Proof. split; [|by intros n []]. intros n a [Hi ?] Hm. split; [by apply agent_inv_around, rtc_once|done]. Qed.
#[export] Instance offered_phase e : Phase subject (offered e).
Proof. split; [|by intros n []]. intros n a [Hi ?] Hm. split; [by apply agent_inv_around, rtc_once|done]. Qed.
#[export] Instance accepted_phase t e : Phase subject (accepted t e).
Proof. split; [|by intros n [[]]]. intros n a Hn Hm. by apply accepted_around, rtc_once. Qed.
#[export] Instance starting_phase t e : Phase subject (starting t e).
Proof. split; [|by intros n [[[]]]]. intros n a [Hn ?] Hm. split; [by apply accepted_around, rtc_once|done]. Qed.

Lemma modest_inv r answered n : modest r → agent_inv subject n → agent_inv subject (record (Sent r answered) n).
Proof. intros Hr Hi. apply agent_inv_record; [done|done|done|]. intros ????? [= -> ->]. by destruct Hr. Qed.
Lemma state_ok_app j s x : (∀ dir e args done, x ≠ Ran e dir args done) → state_ok j s → state_ok (j ++ [x]) s.
Proof.
  intros Hx Hs Hsu. apply may_succeed_app; [|auto]. intros dir args d ->. by destruct (Hx dir (pe_ExecutionID s) args d).
Qed.
Lemma not_began_app t e j x : began_task x = None → Began t e ∉ j → Began t e ∉ j ++ [x].
Proof. intros Hx Hj [?|Hin%list_elem_of_singleton]%elem_of_app; [done|by subst x]. Qed.

(** ** Recovering an execution *)
Lemma knows_sent s r answered n : modest r → knows s n → knows s (record (Sent r answered) n).
Proof. intros Hr [Hi Hs]. split; [by apply modest_inv|]. by apply state_ok_app. Qed.
Lemma knows_around s a n : knows s n → rtc step (n_around n) a → knows s (set_around a n).
Proof. intros [Hi Hs] Ha. split; [by apply agent_inv_around|done]. Qed.
Lemma knows_writes s : writes subject s (knows s).
Proof. intros n d [Hi Hs] Hd. split; [by eapply written_inv|done]. Qed.

Lemma load_knows :
  triple (agent_inv subject) (agent_inv subject) loadTaskExecution
    (λ r n, agent_inv subject n ∧ ∀ s, r = Ok s → knows s n).
Proof.
  assert (Herr : ∀ er, triple (agent_inv subject) (agent_inv subject) (Ret (A := result ConnectError persistedTaskExecution) (Err er))
    (λ r n, agent_inv subject n ∧ ∀ s, r = Ok s → knows s n)) by (intros er; by apply phase_ret; [apply _|]).
  assert (Hok : ∀ s, triple (agent_inv subject) (knows s) (Ret (A := result ConnectError persistedTaskExecution) (Ok s))
    (λ r n, agent_inv subject n ∧ ∀ s, r = Ok s → knows s n)).
  { intros s. apply phase_ret; [apply _|]. intros n Hn. split; [apply Hn|]. by intros ? [= <-]. }
  apply (phase_op _ _ _ _ (λ x n, agent_inv subject n ∧
    ∀ c s, x = Ok c → unmarshal_execution c = Ok s → state_ok (n_journal n) s)).
  { intros n x n' Hn [-> Hx]. split; [done|]. intros c s -> Hu. destruct Hx as [|Hx]; [done|].
    destruct (d_view (n_disk n)) as [c'|] eqn:Hv; [injection Hx as ->|done].
    apply (ai_disk _ _ Hn c'); [by left|done]. }
  intros [c|[]].
  - destruct (unmarshal_execution c) as [s|er] eqn:Hu.
    + eapply triple_conseq; [apply (Hok s)| |done]. intros n [Hi Hs]. split; [done|by eapply Hs].
    + eapply triple_conseq; [apply Herr| |done]. by intros n [].
  - eapply triple_conseq; [apply (Hok zero_execution)| |done]. intros n [Hi _]. split; [done|].
    by intros (? & [=] & _).
  - eapply triple_conseq; [apply Herr| |done]. by intros n [].
Qed.

Lemma keeps_modest_call P `{!Phase subject P} r : modest r →
  (∀ n answered, P n → P (record (Sent r answered) n)) →
  (∀ n a, P n → rtc step (n_around n) a → P (set_around a n)) → keeps subject P (report r).
Proof.
  intros Hr Hs Ha. apply keeps_go_bind; [done| |intros _; by apply keeps_ret]. by apply keeps_call.
Qed.
Lemma knows_report s r : modest r → keeps subject (knows s) (report r).
Proof. intros Hr. apply keeps_modest_call; [apply _|done|intros; by apply knows_sent|intros; by apply knows_around]. Qed.

(** The state it goes on with, if any. *)
Lemma reacknowledge_knows s :
  triple (agent_inv subject) (knows s) (reacknowledge s)
    (λ r n, agent_inv subject n ∧ ∀ s', r = Ok (Some s') → knows s' n).
Proof.
  assert (Hret : ∀ s (r : result ConnectError (option persistedTaskExecution)),
    (∀ s', r = Ok (Some s') → s' = s) →
    triple (agent_inv subject) (knows s) (Ret r) (λ r n, agent_inv subject n ∧ ∀ s', r = Ok (Some s') → knows s' n)).
  { intros s1 r Hr. apply phase_ret; [apply _|]. intros n Hn. split; [apply Hn|]. by intros s' ->%Hr. }
  unfold reacknowledge. destruct (decide _) as [[Hc _]|]; [|by apply Hret; intros ? [= <-]].
  eapply triple_bind; [by apply knows_report|]. intros [u|er].
  - set (s' := pe_set_acknowledged s).
    assert (Hok : ∀ n, knows s n → knows s' n) by (by intros n [Hi _]; split; [|intros (? & Hs & _); cbn in Hs; rewrite Hc in Hs]).
    apply (triple_pre _ _ _ _ _ Hok). eapply triple_bind; [apply persist_keeps; [apply _|apply knows_writes]|].
    intros [u'|er]; apply Hret; [by intros ? [= <-]|done].
  - destruct (isRejectedTaskExecution er); [|by apply Hret].
    eapply triple_bind; [apply (remove_keeps _ s), knows_writes; apply _|]. by intros [u'|er']; apply Hret.
Qed.

(** The rest of the recovery, the runtime object being the state read. *)
Definition resuming (s : persistedTaskExecution) (n : Machine) : Prop := knows s n ∧ n_runtime n = Some s.
#[export] Instance resuming_phase s : Phase subject (resuming s).
Proof. split; [|by intros n [[]]]. intros n a [Hn ?] Hm. split; [by apply knows_around, rtc_once|done]. Qed.

Lemma resuming_writes s : writes subject s (resuming s).
Proof. intros n d [Hn Hr] Hd. split; [by apply (knows_writes s)|done]. Qed.
Lemma resuming_set_runtime {A} s s' (k : Prog A) Q :
  same_ids (pe_TaskID s) (pe_ExecutionID s) s' → (success s' → success s) →
  triple (agent_inv subject) (resuming s') k Q →
  triple (agent_inv subject) (knows s) (prog_bind (op (SetRuntime s')) (λ _, k)) Q.
Proof.
  intros [Ht He] Hsu Hk. apply (phase_op _ _ _ _ (λ _, resuming s')); [|done].
  intros n x n' [Hi Hs] ->. split; [|done]. split; [by apply agent_inv_runtime|].
  intros Hsuc. rewrite Ht, He. auto.
Qed.
Lemma resuming_knows s n : resuming s n → knows s n.
Proof. by intros []. Qed.
Lemma resuming_call s r : modest r → keeps subject (resuming s) (report r).
Proof.
  intros Hr. apply keeps_modest_call; [apply _|done|..].
  - intros n an [Hn ?]. split; [by apply knows_sent|done].
  - intros n a [Hn ?] Ha. split; [by apply knows_around|done].
Qed.

Lemma resuming_runtime {A} s (k : option persistedTaskExecution → Prog A) Q :
  triple (agent_inv subject) (resuming s) (k (Some s)) Q →
  triple (agent_inv subject) (resuming s) (prog_bind (op GetRuntime) k) Q.
Proof.
  intros Hk. apply (phase_op _ _ _ _ (λ x n, x = Some s ∧ resuming s n)).
  - intros n x n' Hn [-> ->]. split; [exact (proj2 Hn)|exact Hn].
  - intros x n [-> Hn]. by apply Hk.
Qed.
Lemma resuming_ids {A} s (k : string → string → Prog A) Q :
  triple (agent_inv subject) (resuming s) (k (pe_TaskID s) (pe_ExecutionID s)) Q →
  triple (agent_inv subject) (resuming s)
    (taskID ⇐ taskExecutionTaskID; executionID ⇐ taskExecutionID; k taskID executionID) Q.
Proof.
  intros Hk. apply (resuming_runtime s (λ x, executionID ⇐ taskExecutionID; k (from_option pe_TaskID "" x) executionID)).
  by apply (resuming_runtime s (λ x, k (pe_TaskID s) (from_option pe_ExecutionID "" x))).
Qed.

(** Whatever state it holds. *)
Definition resumed (n : Machine) : Prop := ∃ s, resuming s n.
Lemma resend_backups_resumed l s :
  triple (agent_inv subject) (resuming s) (resend_backups l) (λ _, resumed).
Proof.
  revert s. induction l as [|r l IH]; intros s; cbn [resend_backups].
  { apply phase_ret; [apply _|]. intros n Hn. by exists s. }
  apply resuming_ids. eapply triple_go_bind; [by apply resuming_call| |].
  2: { intros er. apply phase_ret; [apply _|]. intros n Hn. by exists s. }
  intros u. eapply triple_go_bind with (R := λ _, resumed).
  - apply resuming_runtime. destruct (pe_BackupResults s) as [|b rest].
    { apply phase_ret; [apply _|]. intros n Hn. by exists s. }
    eapply triple_pre; [apply resuming_knows|].
    apply (resuming_set_runtime s (pe_set_backups rest s)); [done|by intros|].
    eapply triple_conseq; [apply persist_keeps; [apply _|apply resuming_writes]|done|].
    intros x n Hn. by exists (pe_set_backups rest s).
  - intros u' n [s' Hs']. by eapply IH.
  - intros er n [s' Hs']. revert n Hs'. apply phase_ret; [apply _|]. intros n' Hn. by exists s'.
Qed.

Lemma report_completion_inv s c :
  pe_Completion s = Some c →
  triple (agent_inv subject) (resuming s) (report_completion s c) (λ _, agent_inv subject).
Proof.
  intros Hc. eapply triple_bind with (R := λ _, knows s).
  - eapply triple_pre; [apply resuming_knows|].
    apply keeps_go_bind; [apply _| |intros _; by apply keeps_ret, _].
    apply keeps_call; [apply _| |intros; by apply knows_around].
    intros n an [Hi Hs]. split; [|by apply state_ok_app].
    apply agent_inv_record; [done|done|done|]. intros t e sm fin an' [= <- <- Hst _ _ _]. apply Hs. by exists c.
  - intros [u|er]; [|destruct (isRejectedTaskExecution er)].
    + eapply triple_conseq; [apply (remove_keeps _ s), knows_writes; apply _|done|by intros ? ? []].
    + eapply triple_conseq; [apply (archive_keeps _ s), knows_writes; apply _|done|by intros ? ? []].
    + apply phase_ret; [apply _|by intros ? []].
Qed.
Lemma settle_completion_inv s :
  triple (agent_inv subject) (resuming s) (settle_completion s) (λ _, agent_inv subject).
Proof.
  unfold settle_completion. destruct (pe_Completion s) as [c|] eqn:Hc; [by apply report_completion_inv|].
  eapply triple_bind; [by apply keeps_reading; [apply _|]|]. intros now.
  set (s' := pe_set_completion (restart_failure now) s).
  eapply triple_pre; [apply resuming_knows|].
  apply (resuming_set_runtime s s'); [done|by intros (? & [= <-] & ?)|].
  eapply triple_go_bind; [apply persist_keeps; [apply _|apply resuming_writes]| |].
  - intros u. by apply report_completion_inv.
  - intros er. apply phase_ret; [apply _|by intros ? [[]]].
Qed.

Lemma recover_inv : keeps subject (agent_inv subject) recoverTaskExecution.
Proof.
  assert (Hret : ∀ r, keeps subject (agent_inv subject) (Ret (A := result ConnectError ()) r)) by (intros; by apply keeps_ret, _).
  eapply triple_go_bind; [apply load_knows| |].
  2: { intros er. eapply triple_pre; [|apply Hret]; by intros ? []. }
  intros s. destruct (decide (pe_TaskID s = "")).
  { eapply triple_pre; [|apply Hret]; by intros ? []. }
  eapply triple_go_bind.
  { eapply triple_conseq; [apply (reacknowledge_knows s)| |done]. intros m [_ Hn]. by apply Hn. }
  2: { intros er. eapply triple_pre; [|apply Hret]; by intros ? []. }
  intros [s'|]; [|eapply triple_pre; [|apply Hret]; by intros ? []].
  eapply triple_pre; [intros m [_ Hn]; exact (Hn s' eq_refl)|].
  apply (resuming_set_runtime s' s'); [done|done|].
  eapply triple_go_bind; [apply resend_backups_resumed| |].
  - intros u' m [s'' Hs'']. revert m Hs''. apply resuming_runtime. apply settle_completion_inv.
  - intros er m [s'' Hs'']. revert m Hs''. apply phase_ret; [apply _|by intros ? [[]]].
Qed.

(** ** Taking a task *)
Lemma unfinished_writes t e (P : Machine → Prop) :
  (∀ n d, P n → agent_inv subject (set_disk d n) → P (set_disk d n)) → (∀ n, P n → agent_inv subject n) →
  ∀ acked, writes subject (MkPersistedTaskExecution t e acked None []) P.
Proof.
  intros HP HI acked n d Hn Hd. apply HP; [done|]. eapply written_inv; [by apply HI| |exact Hd].
  by intros (? & [=] & _).
Qed.
Lemma offered_writes t e acked : writes subject (MkPersistedTaskExecution t e acked None []) (offered e).
Proof. apply unfinished_writes; [by intros n d [_ ?] ?|by intros n []]. Qed.
Lemma accepted_writes t e acked : writes subject (MkPersistedTaskExecution t e acked None []) (accepted t e).
Proof. apply unfinished_writes; [by intros n d [[_ ?] ?] ?|by intros n [[]]]. Qed.

Lemma pull_offers nodeID protocol :
  triple (agent_inv subject) (agent_inv subject) (call (PullNextTaskRequest nodeID protocol))
    (λ r n, agent_inv subject n ∧ ∀ task, r = Ok (Some task) → offered (at_ExecutionId task) n).
Proof.
  eapply triple_conseq with (P' := agent_inv subject)
    (Q' := λ r n, agent_inv subject n ∧ match r with Ok (Some task) => offered (at_ExecutionId task) n | _ => True end);
    [|done|by intros ? n [? Hr]; split; [|intros task ->]].
  apply (phase_op _ _ (Call (PullNextTaskRequest nodeID protocol)) Ret
    (λ r n, agent_inv subject n ∧ match r with Ok (Some task) => offered (at_ExecutionId task) n | _ => True end)).
  - intros n x n' Hn (a & Ha & ->).
    assert (Hi : agent_inv subject (set_around a (record (Sent (PullNextTaskRequest nodeID protocol) (is_ok x)) n))).
    { apply agent_inv_around; [by apply modest_inv|exact (answers_steps subject _ _ _ _ Ha)]. }
    split; [done|]. destruct x as [[task|]|]; [|done..]. split; [done|]. intros t. cbn. apply not_began_app; [done|].
    destruct Ha as [Hp%pulled_execution|(er & [=] & _)]. intros Hb. apply Hp.
    eapply holds_used; [apply Hn|]. by apply (ai_held _ _ Hn).
  - intros [[task|]|er].
    + eapply triple_pre with (P' := offered (at_ExecutionId task)); [by intros n []|].
      apply phase_ret; [apply _|]. intros n Hn. split; [apply Hn|done].
    + eapply triple_pre with (P' := agent_inv subject); [by intros n []|]. by apply phase_ret; [apply _|].
    + eapply triple_pre with (P' := agent_inv subject); [by intros n []|]. by apply phase_ret; [apply _|].
Qed.

Lemma acknowledge_accepts t e :
  triple (agent_inv subject) (offered e) (acknowledgeTaskExecution t e)
    (λ r n, offered e n ∧ (is_ok r = true → accepted t e n)).
Proof.
  assert (Hret : ∀ (P : Machine → Prop) `{!Phase subject P} (r : result ConnectError ()),
    (∀ n, P n → offered e n ∧ (is_ok r = true → accepted t e n)) →
    triple (agent_inv subject) P (Ret r) (λ r n, offered e n ∧ (is_ok r = true → accepted t e n))).
  { intros P ? r Hr. by apply phase_ret. }
  apply (phase_op _ _ (Call (AcknowledgeTaskRequest t e)) _ (λ r n, offered e n ∧ (is_ok r = true → accepted t e n))).
  - intros n x n' Hn (a & Ha & ->).
    assert (Ho : offered e (set_around a (record (Sent (AcknowledgeTaskRequest t e) (is_ok x)) n))).
    { split; [apply agent_inv_around; [apply modest_inv; [done|apply Hn]|exact (answers_steps subject _ _ _ _ Ha)]|].
      intros t'. cbn. apply not_began_app; [done|apply Hn]. }
    split; [done|]. intros Hx. split; [done|]. destruct x as [u|]; [|done]. cbn.
    destruct Ha as [[now Hh]|(er & [=] & _)]. unfold handler in Hh.
    destruct (result_bind _ _) as [db|er] eqn:Hack; [|by destruct Hh].
    destruct Hh as [_ ->]. apply result_bind_Ok in Hack as (r & Hr & [= <-]). apply AcknowledgeTask_Ok in Hr.
    exists (AcceptedBy e). split; [|done]. eapply acknowledged_holds; [apply Hn|exact Hr].
  - intros [u|er].
    + eapply triple_pre with (P' := accepted t e); [by intros n [_ Hn]; apply Hn|].
      apply Hret; [apply _|]. intros n Hn. split; [apply Hn|done].
    + eapply triple_pre with (P' := offered e); [by intros n []|]. by apply Hret; [apply _|].
Qed.

Lemma began_inv t e n : starting t e n → agent_inv subject (record (Began t e) n).
Proof.
  intros ([[Hi Hb] Hh] & _). pose proof Hi as [Hre Hheld Honce Hran Hdisk Hsent].
  assert (Hm : ∀ t' e', may_succeed (n_journal n) t' e' → may_succeed (n_journal n ++ [Began t e]) t' e')
    by (intros t' e'; by apply may_succeed_app).
  constructor; cbn; [done|..].
  - intros t' e' [Hin|Hin%list_elem_of_singleton]%elem_of_app; [by apply Hheld|]. by injection Hin as -> ->.
  - rewrite omap_app. cbn. apply NoDup_app. split_and!; [done| |apply NoDup_singleton].
    intros t' Hin%list_elem_of_omap ->%list_elem_of_singleton. destruct Hin as ([t' e'| |] & Hin & [= ->]).
    rewrite (holds_unique _ _ _ _ (Hheld _ _ Hin) Hh) in Hin. by apply (Hb t).
  - intros e' dir args d [Hin|Hin%list_elem_of_singleton]%elem_of_app; [|done].
    destruct (Hran _ _ _ _ Hin) as [t' Ht]. exists t'. apply elem_of_app. by left.
  - intros c s Hc Hu Hs. by apply Hm, (Hdisk c s).
  - intros t' e' sm fin an [Hin|Hin%list_elem_of_singleton]%elem_of_app; [|done]. by eapply Hm, Hsent.
Qed.
Lemma offered_no_success e n : offered e n → no_success subject e n ∧ clean e (n_journal n).
Proof.
  intros [Hi Hb]. split; [split|].
  - intros c s Hc Hu Hs He. destruct (ai_disk _ _ Hi c s Hc Hu Hs) as [Hin _]. rewrite He in Hin. by apply (Hb _ Hin).
  - intros t e' sm fin an Hin ->. destruct (ai_sent _ _ Hi _ _ _ _ _ Hin) as [Hbe _]. by apply (Hb _ Hbe).
  - intros dir args d Hin. destruct (ai_ran _ _ Hi _ _ _ _ Hin) as [t Ht]. by destruct (Hb t).
Qed.
Lemma began_running t e n : starting t e n → running subject true t e (record (Began t e) n).
Proof.
  intros Hn. pose proof Hn as ([Ho _] & Hr). destruct (offered_no_success e n Ho) as [[Hd Hj] Hc].
  split_and!; [by apply began_inv|apply elem_of_app; right; by left| |done|].
  - split; [done|]. cbn. intros t' e' sm fin an [Hin|Hin%list_elem_of_singleton]%elem_of_app; [by eapply Hj|done].
  - intros _ dir args d. cbn. intros [Hin|Hin%list_elem_of_singleton]%elem_of_app; [by eapply Hc|done].
Qed.
Lemma log_accepted_runs {A} task e (k : Prog A) Q :
  triple (agent_inv subject) (running subject true (at_TaskId task) e) k Q →
  triple (agent_inv subject) (starting (at_TaskId task) e) (prog_bind (op (LogAccepted task)) (λ _, k)) Q.
Proof.
  intros Hk. apply (phase_op _ _ _ _ (λ _, running subject true (at_TaskId task) e)); [|done].
  intros n x n' Hn ->. pose proof Hn as (_ & s & Hs & [_ He] & _).
  unfold runtime_execution. rewrite Hs. cbn. rewrite He. by apply began_running.
Qed.

Section body.
Context `{PathResolver} `{AgentLibraries} `{MetaDecoder} `{Semver} `{TagLibraries}.
Context `{ImageReferences} `{!DigestReferences} `{RegistryLibraries} `{DockerCommand} `{MetaDocuments}.
Context (cfg : AgentConfig) (pages : nat) (files : string → string → option string) (retries : nat).

Lemma accept_inv task :
  triple (agent_inv subject) (offered (at_ExecutionId task)) (acceptTask cfg pages files retries task)
    (λ _, agent_inv subject).
Proof.
  set (t := at_TaskId task). set (e := at_ExecutionId task). unfold acceptTask. fold t e.
  assert (Herr : ∀ er, triple (agent_inv subject) (offered e) (Ret (A := result ConnectError ()) (Err er)) (λ _, agent_inv subject))
    by (intros er; apply phase_ret; [apply _|by intros n []]).
  eapply triple_go_bind; [apply persist_keeps, offered_writes; apply _| |exact Herr]. intros u.
  eapply triple_bind; [apply acknowledge_accepts|]. intros [u'|er].
  - apply (triple_pre _ _ (accepted t e)); [by intros n [_ Hn]; apply Hn|].
    eapply triple_go_bind; [apply persist_keeps, accepted_writes; apply _| |].
    2: { intros er. apply phase_ret; [apply _|by intros n [[]]]. }
    intros u2. apply (phase_op _ _ _ _ (λ _, starting t e)).
    { intros n x n' [[Hi Hb] Hh] ->. split; [split; [split; [by apply agent_inv_runtime|done]|done]|].
      by eexists. }
    intros _. eapply triple_conseq; [apply log_accepted_runs, concludes_executePulledTaskWithTimeout|done|].
    by intros r n [].
  - apply (triple_pre _ _ (offered e)); [by intros n []|].
    destruct (isRejectedTaskExecution er); [|apply Herr].
    eapply triple_go_bind; [apply (remove_keeps _ _ _ (offered_writes t e false))| |exact Herr]. intros u'. apply Herr.
Qed.
Lemma poll_inv : keeps subject (agent_inv subject) (pollAndRunTask cfg pages files retries).
Proof.
  assert (Hret : ∀ r, keeps subject (agent_inv subject) (Ret (A := result ConnectError ()) r))
    by (intros; by apply keeps_ret, _).
  eapply triple_go_bind; [apply recover_inv| |intros er; apply Hret]. intros u.
  eapply triple_go_bind; [apply pull_offers| |].
  2: { intros er. apply (triple_pre _ _ (agent_inv subject)); [by intros n []|apply Hret]. }
  intros [task|]; [|apply (triple_pre _ _ (agent_inv subject)); [by intros n []|apply Hret]].
  destruct (decide (at_ExecutionId task = "")).
  - apply (triple_pre _ _ (agent_inv subject)); [by intros m []|apply Hret].
  - eapply triple_pre; [|apply accept_inv]. intros m [_ Hn]. by apply Hn.
Qed.

Lemma restarted_inv n n' : agent_inv subject n → restarted n n' → agent_inv subject n'.
Proof.
  intros Hi [|v Hv]; [by apply agent_inv_runtime|]. apply agent_inv_runtime, agent_inv_disk; [done|].
  intros c s Hc. apply (ai_disk _ _ Hi). destruct Hc as [Hc|[Hc%list_elem_of_singleton|Hc]]; cbn in *; [..|done];
    right; left; by subst v.
Qed.
Lemma fresh_inv (s : State) : reachable s → agent_inv subject (MkMachine empty_disk None [] s).
Proof.
  intros Hs. constructor; cbn; try done; try (by intros ? ? ?%elem_of_nil); try (by intros ? ? ? ? ?%elem_of_nil).
  - constructor.
  - intros c st [[=]|[[=]%list_elem_of_singleton|[=]]].
  - by intros ? ? ? ? ? ?%elem_of_nil.
Qed.

(** Every state the agent and its controller reach, with any crashes and
    losses of power. *)
Definition agent_reaches (s : State) (n : Machine) : Prop :=
  ∃ p, rtc (agent_step (pollAndRunTask cfg pages files retries))
         (pollAndRunTask cfg pages files retries, MkMachine empty_disk None [] s) (p, n).
Theorem agent_reaches_inv s n : reachable s → agent_reaches s n → agent_inv subject n.
Proof.
  intros Hs [p Hrun]. refine (wpc_sound (agent_inv subject) _ _ _ _ (fresh_inv s Hs) _ restarted_inv Hrun).
  intros m Hm. eapply wpc_mono; [|apply poll_inv, agent_inv_runtime, Hm]. done.
Qed.
End body.
End loop.
