(* ===== verification/AgentExample.v ===== *)
(** * A run of the agent

    Concrete libraries, and surroundings that answer every operation of the
    agent in one of the ways [perform] allows ([serve]): the state file never
    fails, every command of Docker succeeds, and the controller answers from
    its database.  [drive] runs the loop of the agent of node n1. *)
From S2P Require Import Config MigrateTheorems StoreExamples.
From S2P Require Export AgentLoop.
From stdpp Require Import pretty.

#[local] Instance run_params : ParamsJSON := params_example.
#[local] Instance run_resolver : PathResolver := resolver_example.
#[local] Instance run_decoder : MetaDecoder := λ _, Err "yaml".
#[local] Instance run_documents : MetaDocuments := documents_example.
#[local] Instance run_docker : DockerCommand := λ _ _, Err "docker".
#[local] Instance run_semver : Semver :=
  {| semver_version := (); StrictNewVersion _ := None; semver_Major _ := 0%Z; semver_Minor _ := 0%Z;
     semver_Patch _ := 0%Z; semver_Compare _ _ := 0%Z |}.
#[local] Instance run_tags : TagLibraries :=
  {| time_Parse _ _ := None; compiled_regexp := (); regexp_Compile _ := None; FindStringSubmatch _ _ := [];
     SortFunc _ _ l := l |}.
#[local] Instance run_references : ImageReferences :=
  {| named_ref := string; ParseNormalizedNamed := Some; TagNameOnly := id; ref_tag _ := None; TrimNamed := id; FamiliarName := id |}.
#[local] Instance run_digests : DigestReferences := λ _, None.
#[local] Instance run_registry : RegistryLibraries :=
  {| http_do _ _ _ _ := Err "offline"; context_done _ := false; url_String := Some; url_Resolve _ := Some;
     path_escape := id; QueryEncode _ := ""; decode_tags _ := None; decode_token _ := None |}.
#[local] Instance run_agent : AgentLibraries :=
  {| decode_compose_config _ := Err "json"; decode_containers _ := Err "json"; decode_strings _ := Err "json";
     decode_backup_config _ := Err "json"; decode_restore_config _ := Err "json"; decode_prune_target _ := Ok "images";
     decode_rustic_params _ := Err "json"; decode_docker_params _ := Err "json"; find_snapshot _ := None;
     sha256_hex := id; read_archive _ := ([], Ok ()) |}.
#[local] Instance run_state : StateJSON.
Proof.
  refine {| content := persistedTaskExecution; marshal_execution s := Ok s; unmarshal_execution s := Ok s |}.
  intros s c [= <-]. by exists s.
Defined.

(** ** The controller *)
Definition node : Context_ := Some "n1".
#[local] Hint Extern 0 Surroundings => exact (controller_here node) : typeclass_instances.

Definition serve_pull (nodeID : string) (protocol : Z) (s : State) : result ConnectError (option AgentTask) * State :=
  let uuid := "e" +:+ pretty (size (used_ids s)) in
  let turn := MkPullTurn (sec 1010) uuid 0 id in
  let unavailable := (Err (NewError CodeInternal "unavailable"), s) in
  if decide (uuid ∈ used_ids s ∨ uuid = "" ∨ nodeID = "" ∨ protocol ≠ 1%Z ∨ BearerSubject node ≠ Some nodeID)
  then unavailable
  else match ClaimNextPendingTaskForNode nodeID (sec 1010) (sec 1010 + taskExecutionLease)%Z uuid (st_db s) with
       | Ok (db, record) =>
           (result_bind (pull_response record) (λ t, Ok (Some t)), MkState ({[uuid]} ∪ used_ids s) db)
       | Err ErrNoPendingTask => (Ok None, s)
       | Err _ => unavailable
       end.
Definition serve_handler (f : DB → result ConnectError DB) (s : State) : result ConnectError () * State :=
  match f (st_db s) with
  | Ok db => (Ok (), MkState (used_ids s) db)
  | Err e => (Err e, s)
  end.
Definition serve_outcome (t e : string) (status : AgentTaskStatus) (summary : string) (fin : Time.time) (s : State)
    : result ConnectError () * State :=
  if decide (e = "") then (Ok (), s)
  else
    let r := ReportTaskState (λ _ db, (db, Ok ())) node t e status summary fin ("ev" +:+ e)
               (MkAgentServer (st_db s) ∅ ∅) in
    (r.2, MkState (used_ids s) (as_db r.1)).
Definition serve_call (r : Request) : State → result ConnectError (response r) * State :=
  match r return State → result ConnectError (response r) * State with
  | PullNextTaskRequest nodeID protocol => serve_pull nodeID protocol
  | AcknowledgeTaskRequest t e =>
      serve_handler (λ db, result_bind (AcknowledgeTask node t e (sec 1020) db) (λ r, Ok r.1))
  | ReportTaskStateRequest t e status summary fin => serve_outcome t e status summary fin
  | ReportTaskStepStateRequest t e name status started fin =>
      serve_handler (ReportTaskStepState node t e name status (Some started) fin)
  | ReportServiceInstanceStatusRequest name nodeID status at_ t e =>
      serve_handler (ReportServiceInstanceStatus node name nodeID status t e at_)
  | _ => λ s, (Err (NewError CodeInternal "unavailable"), s)
  end.

Lemma serve_pull_sound nodeID protocol s :
  answers (PullNextTaskRequest nodeID protocol) s (serve_pull nodeID protocol s).1 (serve_pull nodeID protocol s).2.
Proof.
  unfold serve_pull. set (uuid := "e" +:+ pretty (size (used_ids s))).
  destruct (decide _) as [|Hne]; [right; eexists; split; [done|by left]|].
  apply Decidable.not_or in Hne as [Hfresh Hne]. apply Decidable.not_or in Hne as [Hu Hne].
  apply Decidable.not_or in Hne as [Hn Hne]. apply Decidable.not_or in Hne as [Hp Hb].
  set (turn := MkPullTurn (sec 1010) uuid 0 id).
  assert (Hpull : PullNextTask node nodeID protocol [turn] (st_db s) = pull_loop nodeID [turn] (st_db s)).
  { unfold PullNextTask. by rewrite !decide_False. }
  cbn in Hpull. destruct (ClaimNextPendingTaskForNode _ _ _ _ _) as [[db record]|er] eqn:Hc.
  - left. exists turn. split_and!; [done|done|done|exact Hpull|]. right. split; [done|by exists record].
  - destruct er; try (right; eexists; split; [done|by left]).
    left. exists turn. split_and!; [done|done|done|exact Hpull|by left].
Qed.
Lemma serve_handler_sound f s : handler f s (serve_handler f s).1 (serve_handler f s).2.
Proof. unfold handler, serve_handler. by destruct (f (st_db s)). Qed.
Lemma serve_call_sound r s : answers r s (serve_call r s).1 (serve_call r s).2.
Proof.
  destruct r; cbn [serve_call]; try (right; eexists; split; [done|by left]).
  - apply serve_pull_sound.
  - left. eexists. apply serve_handler_sound.
  - left. cbn. unfold serve_outcome. destruct (decide _); [apply rtc_refl|].
    do 5 eexists. split; [apply surjective_pairing|done].
  - left. apply serve_handler_sound.
  - left. apply serve_handler_sound.
Qed.

(** ** The host *)
Definition serve {X} (o : Op X) : Machine → X * Machine :=
  match o in Op X return Machine → X * Machine with
  | Now => λ n, (sec 1100, n)
  | DeadlineExceeded | ContextDone => λ n, (false, n)
  | ReadState => λ n, (match d_view (n_disk n) with Some c => Ok c | None => Err NotExist end, n)
  | OpenTemp => λ n, (true, set_disk (disk_set_temp None (n_disk n)) n)
  | WriteTemp c => λ n, (true, set_disk (disk_set_temp (Some c) (n_disk n)) n)
  | RenameTemp => λ n, (true, match d_temp (n_disk n) with
                              | Some c => set_disk (disk_put (Some c) (n_disk n)) n
                              | None => n
                              end)
  | SyncStateDir => λ n, (true, set_disk (disk_sync (n_disk n)) n)
  | SyncTemp | CloseTemp | OpenStateDir => λ n, (true, n)
  | RemoveState => λ n, if decide (is_Some (d_view (n_disk n))) then (Ok (), set_disk (disk_put None (n_disk n)) n)
                        else (Err NotExist, n)
  | ArchiveState => λ n, if decide (is_Some (d_view (n_disk n))) then (true, set_disk (disk_put None (n_disk n)) n)
                         else (false, n)
  | GetRuntime => λ n, (n_runtime n, n)
  | SetRuntime s => λ n, ((), set_runtime (Some s) n)
  | Call r => λ n, let (x, a) := serve_call r (n_around n) in (x, set_around a (record (Sent r (is_ok x)) n))
  | UploadLog _ => λ n, ((), n)
  | LogAccepted task => λ n, ((), record (Began (at_TaskId task) (runtime_execution n)) n)
  | Docker dir args => λ n, (Ok "", record (Ran (runtime_execution n) dir args true) n)
  | DockerOutput _ _ => λ n, (Ok "", n)
  | DockerAPI action resource id _ _ => λ n, (Ok (), record (Ran (runtime_execution n) "" [action; resource; id] true) n)
  | Ask _ => λ n, (Err "offline", n)
  | StatFile _ | ReadFile_ _ | RemoveFile _ | ListDir _ | OpenRoot _ => λ n, (Err NotExist, n)
  | WriteFile_ _ _ | RemoveTree _ | MakeDirs _ | CreateEmpty _ _ | RenamePath _ _ | ChangeMode _ _ => λ n, (true, n)
  | MakeTempDir _ _ | MakeTempFile _ _ | SecureJoinPath _ _ => λ n, (None, n)
  end.
Lemma serve_sound {X} (o : Op X) n : perform o n (serve o n).1 (serve o n).2.
Proof.
  destruct o; cbn; try done.
  - split; [done|by right].
  - destruct (decide _) as [Hv|Hv]; cbn; [left; by split_and!|]. right; left. split_and!; [done| |done].
    by apply eq_None_not_Some.
  - destruct (decide _) as [Hv|Hv]; cbn; [left; by split_and!|by right].
  - pose proof (serve_call_sound r (n_around n)) as Hr. destruct (serve_call r (n_around n)) as [x a]. cbn in *. by exists a.
Qed.

Section drive.
Context (body : Prog (result ConnectError ())).
Fixpoint drive (steps : nat) (a : Agent) : Agent :=
  match steps with
  | O => a
  | S steps =>
      match a.1 with
      | Ret _ => drive steps (body, set_runtime None a.2)
      | Do o k => let (x, n) := serve o a.2 in drive steps (k x, n)
      end
  end.
Lemma drive_reaches steps a : rtc (agent_step body) a (drive steps a).
Proof.
  revert a. induction steps as [|steps IH]; intros [p n]; cbn; [apply rtc_refl|].
  destruct p as [r|X o k].
  - eapply rtc_l; [apply step_again|apply IH].
  - pose proof (serve_sound o n) as Hs. destruct (serve o n) as [x n']. cbn in Hs.
    eapply rtc_l; [by apply step_operation, Hs|apply IH].
Qed.
End drive.

(** ** The run: a prune task of node n1 *)
Definition agent_cfg : AgentConfig := MkAgentConfig "" [] "n1" "" "/repo" "/state" "/generated".
Definition prune_db : DB :=
  after (CreateTask "u1" (sec 1000) (MkRecord "p1" TypePrune SourceWeb "admin" "" "n1" "" "" "/log" "" "" "" (sec 1001)
    None None "" "" "" None None None "") ex0) ex0.
Definition prune_state : State := MkState ∅ prune_db.
Definition loop_body : Prog (result ConnectError ()) := pollAndRunTask agent_cfg 1 (λ _ _, None) 0.
Definition start (s : State) : Agent := (loop_body, MkMachine empty_disk None [] s).
Lemma prune_reachable : reachable prune_state.
Proof.
  unfold reachable. eapply rtc_l.
  { apply step_call, (call_SyncDeclaredServices _ (sec 1000) ex_decl).
    apply (bool_decide_unpack _). vm_compute. exact I. }
  destruct (after_ok (CreateTask "u1" (sec 1000) (MkRecord "p1" TypePrune SourceWeb "admin" "" "n1" "" "" "/log" "" "" ""
    (sec 1001) None None "" "" "" None None None "") ex0) ex0) as [r1 Hr]; [by vm_compute|].
  eapply rtc_l; [by eapply step_call, call_CreateTask, Hr|]. apply rtc_refl.
Qed.
(** The machine after 60 operations, and the run that leads there. *)
Definition pruned : Machine := (drive loop_body 60 (start prune_state)).2.
Lemma pruned_reached : agent_reaches node agent_cfg 1 (λ _ _, None) 0 prune_state pruned.
Proof.
  exists (drive loop_body 60 (start prune_state)).1. rewrite <-surjective_pairing. apply drive_reaches.
Qed.

(** ** Machines that start again with a state file *)
Definition restarted_with (st : persistedTaskExecution) (s : State) : Machine :=
  MkMachine (MkStateDisk (Some st) [Some st] None) None [] s.
(** The task ended while its backup result was not reported. *)
Definition refused_state : persistedTaskExecution :=
  MkPersistedTaskExecution "t1" "e1" true None
    [MkPersistedBackupResult "web" "db" "" StatusFailed (sec 1030) (sec 1040) "disk full"].
Definition refused_start : Machine := restarted_with refused_state (MkState ids1 ex5).
Definition refused_run : Agent := drive loop_body 40 (loop_body, refused_start).
Lemma refused_reached : rtc (agent_step loop_body) (loop_body, set_runtime None refused_start) (refused_run.1, refused_run.2).
Proof. rewrite <-surjective_pairing. apply (drive_reaches loop_body 40 (loop_body, refused_start)). Qed.
(** The task succeeded and the report was lost. *)
Definition unreported_state : persistedTaskExecution :=
  MkPersistedTaskExecution "t1" "e1" true (Some (MkCompletion StatusSucceeded "" (sec 1045))) [].
