(* ===== verification/AgentTheorems.v ===== *)
(** * What the agent and its controller guarantee together

    The theorems on the executions of tasks, over every run of the agent and
    the store: crashes of the process, losses of power, answers that are
    lost.  The witnesses run the loop on a concrete store (AgentExample.v). *)
From S2P Require Import Config MigrateTheorems StoreExamples.
From S2P Require Export AgentExample.

Section theorems.
Context `{SQLite} `{ParamsJSON} `{StateJSON}.
Context `{PathResolver} `{AgentLibraries} `{MetaDecoder} `{Semver} `{TagLibraries}.
Context `{ImageReferences} `{!DigestReferences} `{RegistryLibraries} `{DockerCommand} `{MetaDocuments}.
Context (subject : Context_).
Context (cfg : AgentConfig) (pages : nat) (files : string → string → option string) (retries : nat).
#[local] Hint Extern 0 Surroundings => exact (controller_here subject) : typeclass_instances.
#[local] Abbreviation body := (pollAndRunTask cfg pages files retries).
#[local] Abbreviation reaches := (agent_reaches subject cfg pages files retries).

(** C3: a task is executed at most once: whatever answers are lost, however
    often the agent is restarted or loses what it had not synced, no task is
    begun twice; and the execution that began it is the one the controller
    keeps for the task from then on, whichever steps it takes. *)
Theorem task_executed_at_most_once s n :
  reachable s → reaches s n →
  NoDup (omap began_task (n_journal n)) ∧
  ∀ t e, Began t e ∈ n_journal n → holds (n_around n) t e.
Proof. intros Hs Hn%agent_reaches_inv; [|done]. split; [apply Hn|apply Hn]. Qed.


(** ** A task that is over *)
Definition over (s : State) (t : string) : Prop :=
  ∃ r, tasks (st_db s) !! t = Some r ∧ tk_status r ∈ terminal_statuses.
Lemma over_steps s s' t : reachable s → over s t → rtc step s s' → over s' t.
Proof.
  intros Hs (r & Hr & Ht) Hrun. destruct (terminal_row_stays s s' t r Hs Hr Ht Hrun) as (r' & Hr' & _ & Hst & _).
  exists r'. split; [done|]. by rewrite Hst.
Qed.
Lemma reachable_rtc s s' : reachable s → rtc step s s' → reachable s'.
Proof. unfold reachable. intros. by etrans. Qed.
Lemma over_not_current ctx s t e : over s t → ∃ er, ensureCurrentTaskExecution ctx t e (st_db s) = Err er.
Proof.
  intros (r & Hr & Ht). unfold ensureCurrentTaskExecution. destruct (BearerSubject ctx) as [nodeID|]; [|by eexists].
  destruct (decide (nodeID = "")); [by eexists|]. unfold ValidateTaskExecution, GetTask, getTaskRecord.
  rewrite Hr. cbn.
  assert (Hrun : tk_status r ≠ StatusRunning).
  { intros Heq. apply (terminal_not_active _ Ht). rewrite Heq. in_closed. }
  rewrite decide_False by tauto. rewrite decide_True by tauto. by eexists.
Qed.

(** ** A backup result the controller refuses *)
Section blocked.
Context (st : persistedTaskExecution) (c : content) (j0 : list JournalEntry).

(** The state file holds [st], whose task is over; nothing was asked for. *)
Definition blocked (n : Machine) : Prop :=
  reachable (n_around n) ∧ over (n_around n) (pe_TaskID st) ∧
  d_view (n_disk n) = Some c ∧ (∀ v, v ∈ d_durable (n_disk n) → v = Some c) ∧
  ∃ j, n_journal n = j0 ++ j ∧ ∀ nodeID protocol answered, Sent (PullNextTaskRequest nodeID protocol) answered ∉ j.
(** The runtime object of the recovery. *)
Definition blocked_in (n : Machine) : Prop := blocked n ∧ n_runtime n = Some st.

Lemma blocked_around a n : blocked n → rtc step (n_around n) a → blocked (set_around a n).
Proof.
  intros (Hr & Ho & ?) Ha. split; [by eapply reachable_rtc|]. split; [by eapply over_steps|done].
Qed.
#[local] Instance blocked_stable : Stable blocked.
Proof. intros n a Hn Hm. by apply blocked_around, rtc_once. Qed.
#[local] Instance blocked_in_stable : Stable blocked_in.
Proof. intros n a [Hn ?] Hm. split; [by apply blocked_around, rtc_once|done]. Qed.
#[local] Abbreviation stuck := (λ (r : result ConnectError ()) n, blocked n ∧ is_ok r = false).

Lemma stuck_error er : triple blocked blocked (Ret (Err er)) stuck.
Proof. by apply (triple_ret blocked blocked). Qed.
Lemma refused_answer e r n x a :
  blocked n → answers (ReportBackupResultRequest (pe_TaskID st) e r) (n_around n) x a → is_ok x = false.
Proof.
  intros (Hre & Ho & _) [[(_ & m & ->)|(s1 & s2 & Ha & Hb & _ & Hx)]|(er & -> & _)]; [done| |done].
  destruct (ensureTaskNodeMatch _ _ _) as [u|er]; cbn in Hx; [|by subst x].
  destruct (over_not_current subject s2 (pe_TaskID st) e) as [er Her]; [|by rewrite Her in Hx; subst x].
  eapply over_steps; [exact Hre|exact Ho|]. by etrans.
Qed.
Lemma resend_stuck r l : triple blocked blocked_in (resend_backups (r :: l)) stuck.
Proof.
  cbn [resend_backups].
  assert (Hget : ∀ (k : option persistedTaskExecution → Go ()),
    triple blocked blocked_in (k (Some st)) stuck → triple blocked blocked_in (prog_bind (op GetRuntime) k) stuck).
  { intros k Hk. cbn. apply (triple_do _ _ _ _ (λ x n, x = Some st ∧ blocked_in n)); [by intros n []| |].
    - intros n x n' Hn [-> ->]. split; [exact (proj2 Hn)|exact Hn].
    - intros x n [-> Hn]. by apply Hk. }
  apply (Hget (λ x, executionID ⇐ taskExecutionID;
    _ ←? sendPersistedBackupResult (from_option pe_TaskID "" x) executionID r; _ ←? removeFirstBackupResult; resend_backups l)).
  apply (Hget (λ x, _ ←? sendPersistedBackupResult (pe_TaskID st) (from_option pe_ExecutionID "" x) r;
    _ ←? removeFirstBackupResult; resend_backups l)).
  apply (triple_do _ _ (Call (ReportBackupResultRequest (pe_TaskID st) (pe_ExecutionID st) r)) _
    (λ x n, blocked n ∧ is_ok x = false)); [by intros n []| |].
  - intros n x n' [Hn _] (a & Ha & ->). split; [|by eapply refused_answer]. apply blocked_around.
    + destruct Hn as (Hr & Ho & Hv & Hd & j & Hj & Hpull). split_and!; [done..|].
      exists (j ++ [Sent (ReportBackupResultRequest (pe_TaskID st) (pe_ExecutionID st) r) (is_ok x)]). split.
      { cbn. by rewrite Hj, (assoc_L (++)). }
      intros nodeID protocol an [Hin|Hin%list_elem_of_singleton]%elem_of_app; [by eapply Hpull|done].
    + exact (answers_steps subject _ _ _ _ Ha).
  - intros [u|er]; [by intros n [_ [=]]|]. apply (triple_pre _ _ blocked); [by intros n []|]. apply stuck_error.
Qed.
Lemma load_stuck :
  unmarshal_execution c = Ok st →
  triple blocked blocked loadTaskExecution (λ r n, blocked n ∧ (r = Ok st ∨ ∃ er, r = Err er)).
Proof.
  intros Hu. apply (triple_do _ _ ReadState _ (λ x n, blocked n ∧ (x = Err StatFailed ∨ x = Ok c))); [done| |].
  { intros n x n' Hn [-> Hx]. split; [done|]. destruct Hn as (_ & _ & Hv & _). by rewrite Hv in Hx. }
  intros x. apply (triple_pre _ _ (λ n, (x = Err StatFailed ∨ x = Ok c) ∧ blocked n)); [by intros n []|].
  intros n [[-> | ->] Hn]; [|rewrite Hu]; revert n Hn; apply (triple_ret blocked blocked); try done; eauto.
Qed.
Lemma recover_stuck r l :
  unmarshal_execution c = Ok st → pe_TaskID st ≠ "" → pe_Acknowledged st = true → pe_BackupResults st = r :: l →
  triple blocked blocked recoverTaskExecution stuck.
Proof.
  intros Hu Ht Hack Hl. eapply triple_go_bind; [by apply load_stuck| |].
  2: { intros er. apply (triple_pre _ _ blocked); [by intros n []|apply stuck_error]. }
  intros s n [Hn [[= ->]|[er [=]]]]. revert n Hn. rewrite decide_False by done.
  assert (Hre : reacknowledge st = ok (Some st)) by (unfold reacknowledge; rewrite decide_False; [done|rewrite Hack; by intros [_ [=]]]).
  rewrite Hre. apply (triple_do _ _ _ _ (λ _, blocked_in)); [done|by intros n x n' Hn ->|]. intros _.
  eapply triple_go_bind; [rewrite Hl; apply resend_stuck|..].
  - by intros u n [_ [=]].
  - intros er. apply (triple_pre _ _ blocked); [by intros n []|apply stuck_error].
Qed.
End blocked.

(** C6: an agent may be blocked for good: when the controller ended a task
    before the agent could report a backup result of it (a lost execution that
    was failed by hand, then an agent that comes back), the recovery of the
    agent fails on that result in every turn of the loop and after every
    restart; the state file never changes and the agent never asks for a task
    again. *)
Theorem refused_backup_result_blocks_agent st c r l n p n' :
  reachable (n_around n) → over (n_around n) (pe_TaskID st) →
  d_view (n_disk n) = Some c → d_durable (n_disk n) = [Some c] → unmarshal_execution c = Ok st →
  pe_TaskID st ≠ "" → pe_Acknowledged st = true → pe_BackupResults st = r :: l →
  rtc (agent_step body) (body, set_runtime None n) (p, n') →
  d_view (n_disk n') = Some c ∧
  ∃ j, n_journal n' = n_journal n ++ j ∧ ∀ nodeID protocol answered, Sent (PullNextTaskRequest nodeID protocol) answered ∉ j.
Proof.
  intros Hre Ho Hv Hd Hu Ht Hack Hl Hrun.
  assert (Hb : blocked st c (n_journal n) n' ); [|by destruct Hb as (_ & _ & ? & _ & ?)].
  refine (wpc_sound (blocked st c (n_journal n)) body n p n' _ _ _ Hrun).
  - split_and!; [done..| |].
    + intros v. rewrite Hd. by intros ->%list_elem_of_singleton.
    + exists []. rewrite (right_id_L [] (++)). split; [done|]. by intros ? ? ? ?%elem_of_nil.
  - intros m Hm. eapply wpc_bind, wpc_mono; [|by apply (recover_stuck st c (n_journal n) r l)].
    intros [u|er] m' [Hm' Hok]; [done|]. eapply wpc_mono; [|by apply stuck_error]. done.
  - intros m m1 (Hr1 & Ho1 & Hv1 & Hd1 & Hj) [|v Hin]; [done|]. apply Hd1 in Hin as ->.
    split_and!; [done..| |done]. by intros v ->%list_elem_of_singleton.
Qed.
End theorems.

(** ** Witnesses *)
#[local] Existing Instances run_params run_resolver run_decoder run_documents run_docker run_semver run_tags
  run_references run_digests run_registry run_agent run_state sqlite_example.
#[local] Hint Extern 0 Surroundings => exact (controller_here node) : typeclass_instances.

Lemma task_executed_at_most_once_witness :
  omap began_task (n_journal pruned) = ["p1"] ∧ NoDup (omap began_task (n_journal pruned)).
Proof.
  split; [by by_computation|].
  by destruct (task_executed_at_most_once node agent_cfg 1 (λ _ _, None) 0 prune_state pruned
    prune_reachable pruned_reached).
Defined.
Definition ran_well (executionID : string) (e : JournalEntry) : Prop :=
  match e with Ran ex _ _ done => ex = executionID → done = true | _ => True end.
(** The execution of the refused result ended; the agent starts with its file. *)
Lemma ex5_over : over (MkState ids1 ex5) "t1".
Proof. exists (row_of ex5 "t1"). split; [by by_computation|by_decision]. Qed.
Lemma refused_backup_result_blocks_agent_witness :
  length (n_journal refused_run.2) = 6 ∧
  ∀ nodeID protocol answered, Sent (PullNextTaskRequest nodeID protocol) answered ∉ n_journal refused_run.2.
Proof.
  split; [by by_computation|].
  destruct (refused_backup_result_blocks_agent node agent_cfg 1 (λ _ _, None) 0 refused_state
    (refused_state : @content run_state) (MkPersistedBackupResult "web" "db" "" StatusFailed (sec 1030) (sec 1040) "disk full") []
    refused_start refused_run.1 refused_run.2 ex5_reachable ex5_over eq_refl eq_refl eq_refl ltac:(discriminate)
    eq_refl eq_refl refused_reached) as (_ & j & Hj & Hno).
  rewrite Hj. exact Hno.
Defined.
