(* ===== verification/AgentRecovery.v ===== *)
(** * What a restarted agent brings about

    [brings p Q]: when every operation of [p] is delivered (calls are answered
    without an error, the state file can be read and written), [p] returns and
    ends in [Q], whatever else the controller does in between.  The recovery
    settles an interrupted execution: the controller has its outcome, the
    state file is gone. *)
From S2P Require Import Config MigrateTheorems StoreExamples.
From S2P Require Export AgentTheorems.

Section recovery.
Context `{SQLite} `{ParamsJSON} `{StateJSON}.
Context (subject : Context_).
#[local] Hint Extern 0 Surroundings => exact (controller_here subject) : typeclass_instances.

(** ** Delivery *)
Definition delivered {X} (o : Op X) : X → Prop :=
  match o in Op X return X → Prop with
  | ReadState => λ x, x ≠ Err StatFailed
  | RemoveState => λ x, x ≠ Err StatFailed
  | OpenTemp | SyncTemp | CloseTemp | RenameTemp | OpenStateDir | SyncStateDir | ArchiveState => λ x, x = true
  | WriteTemp _ => λ x, x = true
  | Call _ => λ x, is_ok x = true
  | _ => λ _, True
  end.
Fixpoint brings {A} (p : Prog A) (Q : A → Machine → Prop) (n : Machine) : Prop :=
  match p with
  | Ret a => ∀ n1, around_moves n n1 → Q a n1
  | Do o k => ∀ n1 x n', around_moves n n1 → perform o n1 x n' → delivered o x → brings (k x) Q n'
  end.
Definition leads {A} (P : Machine → Prop) (p : Prog A) (Q : A → Machine → Prop) : Prop := ∀ n, P n → brings p Q n.

Lemma brings_mono {A} (p : Prog A) (Q R : A → Machine → Prop) n :
  (∀ a n, Q a n → R a n) → brings p Q n → brings p R n.
Proof. intros HQ. revert n. induction p as [a|X o k IH]; cbn; eauto. Qed.
Lemma brings_bind {A B} (p : Prog A) (f : A → Prog B) R n :
  brings p (λ a n, brings (f a) R n) n → brings (prog_bind p f) R n.
Proof.
  revert n. induction p as [a|X o k IH]; cbn; intros n Hp; [apply Hp, around_moves_refl|eauto].
Qed.
Lemma leads_bind {A B} P (p : Prog A) (f : A → Prog B) R Q :
  leads P p R → (∀ a, leads (R a) (f a) Q) → leads P (prog_bind p f) Q.
Proof. intros Hp Hf n HP. apply brings_bind. eapply brings_mono; [|by apply Hp]. intros a n1. apply Hf. Qed.
Lemma leads_pre {A} (P P' : Machine → Prop) (p : Prog A) Q : (∀ n, P n → P' n) → leads P' p Q → leads P p Q.
Proof. intros HP Hp n Hn. by apply Hp, HP. Qed.
Lemma leads_post {A} P (p : Prog A) (Q R : A → Machine → Prop) : (∀ a n, Q a n → R a n) → leads P p Q → leads P p R.
Proof. intros HQ Hp n Hn. eapply brings_mono; [exact HQ|by apply Hp]. Qed.
Lemma leads_ret {A} P `{!Stable P} (a : A) (Q : A → Machine → Prop) : (∀ n, P n → Q a n) → leads P (Ret a) Q.
Proof. intros HQ n Hn n1 Hm. by apply HQ, (Stable_moves P n). Qed.
Lemma leads_op {A X} P `{!Stable P} (o : Op X) (k : X → Prog A) R Q :
  (∀ n x n', P n → perform o n x n' → delivered o x → R x n') → (∀ x, leads (R x) (k x) Q) →
  leads P (prog_bind (op o) k) Q.
Proof.
  intros Ho Hk n Hn n1 x n' Hm Hp Hd. apply (Hk x). eapply Ho; [|exact Hp|exact Hd]. by apply (Stable_moves P n).
Qed.
(** A part that ends without an error. *)
Definition Fine {A} (P : Machine → Prop) (p : Go A) (Q : A → Machine → Prop) : Prop :=
  leads P p (λ r n, ∃ a, r = Ok a ∧ Q a n).
Lemma fine_bind {A B} P (m : Go A) (f : A → Go B) R Q :
  Fine P m R → (∀ a, leads (R a) (f a) Q) → leads P (go_bind m f) Q.
Proof.
  intros Hm Hf. eapply leads_bind; [exact Hm|]. intros r n (a & -> & Ha). by apply Hf.
Qed.
Lemma fine_must P `{!Stable P} (o : Op bool) message (Q : Machine → Prop) `{!Stable Q} :
  (∀ n n', P n → perform o n true n' → Q n') → (∀ x, delivered o x → x = true) → Fine P (must o message) (λ _, Q).
Proof.
  intros Ho Hd. unfold must. apply (leads_op P o _ (λ x n, x = true ∧ Q n)).
  - intros n x n' Hn Hp ->%Hd. split; [done|by eapply Ho].
  - intros x n [-> Hn]. revert n Hn. apply (leads_ret Q). by exists ().
Qed.
Lemma fine_report P `{!Stable P} r (Q : Machine → Prop) `{!Stable Q} :
  (∀ n a x, P n → answers r (n_around n) (Ok x) a → Q (set_around a (record (Sent r true) n))) →
  Fine P (report r) (λ _, Q).
Proof.
  intros Hr. unfold report, call, go_bind.
  apply (leads_op P (Call r) _ (λ x n, is_ok x = true ∧ Q n)).
  - intros n x n' Hn (a & Ha & ->) Hx. destruct x as [x|]; [|done]. split; [done|by eapply Hr].
  - intros [x|er] n [Hx Hn]; [|done]. revert n Hn. apply (leads_ret Q). by exists ().
Qed.

(** ** The state of the controller *)
(** The task ended with the outcome, reported by the execution. *)
Definition settled (s : State) (t e status : string) : Prop :=
  ∃ r, tasks (st_db s) !! t = Some r ∧ ex_execution_id (tk_exec r) = Some e ∧ tk_status r = status ∧
    status ∈ terminal_statuses.
Lemma settled_steps s s' t e status : reachable s → settled s t e status → rtc step s s' → settled s' t e status.
Proof.
  intros Hs (r & Hr & He & Hst & Ht) Hrun.
  destruct (terminal_row_stays s s' t r Hs Hr) as (r' & Hr' & _ & Hst' & _ & _ & Hex); [by rewrite Hst|done|].
  exists r'. split_and!; [done|by rewrite Hex|by rewrite Hst'|done].
Qed.
Lemma status_wire status : status ∈ terminal_statuses →
  ControllerProto.taskStatusFromAgentProto (AgentProto.protoAgentTaskStatus status) = Some status.
Proof. intros Hin. repeat (apply elem_of_cons in Hin as [->|Hin]; [done|]). by apply elem_of_nil in Hin. Qed.
Lemma answered_settled t e status sm fin (s : State) x a :
  e ≠ "" → status ∈ terminal_statuses →
  answers (ReportTaskStateRequest t e (AgentProto.protoAgentTaskStatus status) sm fin) s (Ok x) a → settled a t e status.
Proof.
  intros Hne Hst [Hh|(er & [=] & _)]. cbn in Hh. rewrite decide_False in Hh by done.
  destruct Hh as (uuid & f & files & conf & server' & Hr & ->). unfold ReportTaskState in Hr.
  destruct (decide (t = "")); [by injection Hr|]. rewrite (status_wire status Hst) in Hr.
  destruct (decide _); [by injection Hr|]. destruct (ensureTaskNodeMatch _ _ _); [|by injection Hr].
  destruct (CompleteTaskExecution _ _ _ _ _ _ _) as [db|er] eqn:Hc; [|by injection Hr].
  rewrite (decide_False (P := e = "")) in Hr by done. injection Hr as <- _.
  destruct (CompleteTaskExecution_row _ _ _ _ _ _ _ _ Hne Hc) as (_ & r & Hrow & He & Hs & _). by exists r.
Qed.

(** ** Phases *)
Definition alive (n : Machine) : Prop := reachable (n_around n).
Definition alive_in (s : persistedTaskExecution) (n : Machine) : Prop := alive n ∧ n_runtime n = Some s.
Definition told (t e status : string) (n : Machine) : Prop := alive n ∧ settled (n_around n) t e status.
Definition gone (t e status : string) (n : Machine) : Prop := told t e status n ∧ d_view (n_disk n) = None.

Lemma alive_around n a : alive n → rtc step (n_around n) a → alive (set_around a n).
Proof. intros Hn Ha. by eapply reachable_rtc. Qed.
#[local] Instance alive_stable : Stable alive.
Proof. intros n a Hn Hm. by apply alive_around, rtc_once. Qed.
#[local] Instance alive_in_stable s : Stable (alive_in s).
Proof. intros n a [Hn ?] Hm. split; [by apply alive_around, rtc_once|done]. Qed.
#[local] Instance told_stable t e status : Stable (told t e status).
Proof.
  intros n a [Hn Hs] Hm. split; [by apply alive_around, rtc_once|]. by eapply settled_steps, rtc_once.
Qed.
#[local] Instance gone_stable t e status : Stable (gone t e status).
Proof. intros n a [Hn ?] Hm. split; [by apply told_stable|done]. Qed.
#[local] Instance found_stable c : Stable (λ n, alive n ∧ d_view (n_disk n) = Some c).
Proof. intros n a [Hn ?] Hm. split; [by apply alive_around, rtc_once|done]. Qed.

Context (encodes : ∀ s, is_ok (marshal_execution s) = true).

Lemma fine_persist s P `{!Stable P} : (∀ n d, P n → P (set_disk d n)) → Fine P (persistTaskExecution s) (λ _, P).
Proof.
  intros HP. unfold persistTaskExecution. pose proof (encodes s) as Hm.
  destruct (marshal_execution s) as [c|]; [|done].
  assert (Hmust : ∀ (o : Op bool) m, (∀ n n', P n → perform o n true n' → P n') → (∀ x, delivered o x → x = true) →
    Fine P (must o m) (λ _, P)) by (intros; by apply fine_must).
  repeat (eapply fine_bind; [apply Hmust; [|done]|intros ?]); [..|apply Hmust; [|done]];
    intros n n' Hn; cbn; unfold may_fail; intros ->; auto.
  destruct (d_temp (n_disk n)); auto.
Qed.
Lemma fine_remove t e status : Fine (told t e status) removeTaskExecutionState (λ _, gone t e status).
Proof.
  unfold Fine, removeTaskExecutionState. apply (leads_op _ RemoveState _ (λ x n, x ≠ Err StatFailed ∧ gone t e status n)).
  - intros n x n' Hn Hp Hx. split; [exact Hx|]. destruct Hp as [(_ & _ & ->)|[(_ & Hv & ->)|(-> & _)]]; [|by split|done].
    by split.
  - intros x n [Hx Hn]. revert n Hn. destruct x as [u|[]]; [..|done];
      apply (leads_ret (gone t e status)); by exists ().
Qed.
Lemma fine_set_runtime {A} s' (k : Go A) Q P :
  (∀ n, P n → alive n) → Stable P → leads (alive_in s') k Q → leads P (_ ⇐ op (SetRuntime s'); k) Q.
Proof.
  intros HP ? Hk. apply (leads_op _ _ _ (λ _, alive_in s')); [|done]. intros n x n' Hn -> _. split; [exact (HP n Hn)|done].
Qed.
Lemma alive_call r s :
  (∀ n a x, alive_in s n → answers r (n_around n) (Ok x) a → alive_in s (set_around a (record (Sent r true) n))).
Proof.
  intros n a x [Hn Hr] Ha. split; [|done]. apply (alive_around (record (Sent r true) n)); [done|].
  exact (answers_steps subject _ _ _ _ Ha).
Qed.
Lemma leads_runtime {A} s (k : option persistedTaskExecution → Prog A) Q :
  leads (alive_in s) (k (Some s)) Q → leads (alive_in s) (prog_bind (op GetRuntime) k) Q.
Proof.
  intros Hk. apply (leads_op _ _ _ (λ x n, x = Some s ∧ alive_in s n)).
  - intros n x n' Hn [-> ->] _. split; [exact (proj2 Hn)|exact Hn].
  - intros x n [-> Hn]. by apply Hk.
Qed.

(** ** The parts of the recovery *)
Definition outcome (s : persistedTaskExecution) : string := from_option co_Status StatusFailed (pe_Completion s).
Definition same_task (s s' : persistedTaskExecution) : Prop :=
  pe_TaskID s' = pe_TaskID s ∧ pe_ExecutionID s' = pe_ExecutionID s ∧ pe_Completion s' = pe_Completion s.
Lemma same_task_refl s : same_task s s.
Proof. done. Qed.

Lemma fine_resend l s :
  pe_BackupResults s = l →
  Fine (alive_in s) (resend_backups l) (λ _ n, ∃ s', same_task s s' ∧ alive_in s' n).
Proof.
  revert s. induction l as [|r l IH]; intros s Hl; cbn [resend_backups].
  { apply (leads_ret (alive_in s)). intros n Hn. exists (). split; [done|]. by exists s. }
  apply (leads_runtime s (λ x, executionID ⇐ taskExecutionID;
    _ ←? sendPersistedBackupResult (from_option pe_TaskID "" x) executionID r; _ ←? removeFirstBackupResult; resend_backups l)).
  apply (leads_runtime s (λ x, _ ←? sendPersistedBackupResult (pe_TaskID s) (from_option pe_ExecutionID "" x) r;
    _ ←? removeFirstBackupResult; resend_backups l)).
  eapply fine_bind; [by apply (fine_report (alive_in s) _ (alive_in s)), alive_call|]. intros u.
  set (s' := pe_set_backups l s). eapply (fine_bind _ _ _ (λ _, alive_in s')).
  - apply leads_runtime. rewrite Hl. apply fine_set_runtime; [by intros n []|apply _|].
    apply fine_persist; [apply _|]. done.
  - intros u2. eapply leads_post; [|by apply (IH s')]. intros x n ([] & -> & s2 & Hs2 & Hn).
    exists (). split; [done|]. by exists s2.
Qed.

Lemma fine_report_completion s c :
  pe_ExecutionID s ≠ "" → co_Status c ∈ terminal_statuses →
  Fine (alive_in s) (report_completion s c) (λ _, gone (pe_TaskID s) (pe_ExecutionID s) (co_Status c)).
Proof.
  intros Hne Hst. unfold report_completion. eapply leads_bind.
  - apply (fine_report (alive_in s) _ (told (pe_TaskID s) (pe_ExecutionID s) (co_Status c))).
    intros n a x [Hn _] Ha. split; [|by eapply answered_settled].
    apply (alive_around (record (Sent _ true) n)); [done|exact (answers_steps subject _ _ _ _ Ha)].
  - intros r n (u & -> & Hn). by apply fine_remove.
Qed.
Lemma fine_settle s :
  pe_ExecutionID s ≠ "" → outcome s ∈ terminal_statuses →
  Fine (alive_in s) (settle_completion s) (λ _, gone (pe_TaskID s) (pe_ExecutionID s) (outcome s)).
Proof.
  unfold outcome, settle_completion. intros Hne. destruct (pe_Completion s) as [c|] eqn:Hc; cbn [from_option]; intros Hst.
  { by apply fine_report_completion. }
  apply (leads_op _ _ _ (λ _, alive_in s)); [by intros n x n' Hn ->|]. intros now.
  set (s' := pe_set_completion (restart_failure now) s).
  apply fine_set_runtime; [by intros n []|apply _|].
  eapply fine_bind; [apply fine_persist; [apply _|done]|]. intros u.
  by apply (fine_report_completion s').
Qed.
Lemma fine_reacknowledge s :
  Fine alive (reacknowledge s) (λ s' n, ∃ s'', s' = Some s'' ∧ same_task s s'' ∧ alive n).
Proof.
  unfold reacknowledge. destruct (decide _).
  - eapply leads_bind.
    + apply (fine_report alive _ alive). intros n b x Hn Ha.
      apply (alive_around (record (Sent _ true) n)); [done|exact (answers_steps subject _ _ _ _ Ha)].
    + intros r n (u & -> & Hn). revert n Hn.
      eapply fine_bind; [apply fine_persist; [apply _|done]|]. intros u'.
      apply (leads_ret alive). intros n Hn. eexists. split; [done|]. by eexists.
  - apply (leads_ret alive). intros m Hm. eexists. split; [done|]. by eexists.
Qed.

(** C5: an interrupted execution is settled by the recovery: for every state
    file that names a task and an execution, if the calls reach the controller
    and are answered and the state file can be read and written, the recovery
    of a restarted agent returns without an error, the state file is gone, and
    the task has ended at the controller, by that execution and with the
    outcome the file recorded, or as a failure when it recorded none; whatever
    steps the controller takes meanwhile. *)
Theorem recovery_settles st c n :
  reachable (n_around n) → d_view (n_disk n) = Some c → unmarshal_execution c = Ok st →
  pe_TaskID st ≠ "" → pe_ExecutionID st ≠ "" → outcome st ∈ terminal_statuses →
  brings recoverTaskExecution (λ r n',
    r = Ok () ∧ d_view (n_disk n') = None ∧
    settled (n_around n') (pe_TaskID st) (pe_ExecutionID st) (outcome st)) n.
Proof.
  intros Hre Hv Hu Ht He Hst. cut (Fine (λ n, alive n ∧ d_view (n_disk n) = Some c) recoverTaskExecution
    (λ _, gone (pe_TaskID st) (pe_ExecutionID st) (outcome st))).
  { intros Hf. eapply brings_mono; [|by apply Hf]. intros r n' ([] & -> & [_ ?] & ?). done. }
  eapply (fine_bind _ _ _ (λ s n, s = st ∧ alive n)).
  - apply (leads_op _ ReadState _ (λ x n, x = Ok c ∧ alive n)).
    + intros m x n' [Hm Hc] [-> Hx] Hd. split; [|done]. rewrite Hc in Hx. by destruct Hx.
    + intros x m [-> Hm]. rewrite Hu. revert m Hm. apply (leads_ret alive). intros m Hm. by exists st.
  - intros s m [-> Hm]. revert m Hm. rewrite decide_False by done.
    eapply fine_bind; [apply fine_reacknowledge|]. intros s' m (s1 & -> & (E1 & E2 & E3) & Hm). revert m Hm.
    apply fine_set_runtime; [done|apply _|].
    eapply fine_bind; [by apply fine_resend|]. intros u m (s2 & (F1 & F2 & F3) & Hm). revert m Hm.
    apply leads_runtime. cbn.
    assert (Ho : outcome s2 = outcome st) by (unfold outcome; by rewrite F3, E3).
    rewrite <-Ho, <-E1, <-F1, <-E2, <-F2. apply fine_settle; [by rewrite F2, E2|by rewrite Ho].
Qed.
End recovery.

(** ** Witness: the report of a success was lost *)
#[local] Existing Instances run_params run_state sqlite_example.
#[local] Hint Extern 0 Surroundings => exact (controller_here node) : typeclass_instances.
Lemma recovery_settles_witness :
  let n := restarted_with unreported_state (MkState ids1 ex4) in
  brings node recoverTaskExecution (λ r n',
    r = Ok () ∧ d_view (n_disk n') = None ∧ settled (n_around n') "t1" "e1" StatusSucceeded) n ∧
  life_in (n_around (drive recoverTaskExecution 12 (recoverTaskExecution, n)).2) "t1" =
    Some (Finished StatusSucceeded (Some "e1")).
Proof.
  split; [|by by_computation].
  refine (recovery_settles node (λ _, eq_refl) unreported_state (unreported_state : @content run_state)
    (restarted_with unreported_state (MkState ids1 ex4)) ex4_reachable eq_refl eq_refl _ _ _); [discriminate..|].
  apply elem_of_cons. by left.
Defined.
