(* ===== verification/ServiceBundles.v ===== *)
(** * Service bundles of the controller: src/internal/core/repo/bundle.go,
    src/internal/app/controller/bundle.go, bundle_runtime.go and
    service_task_runtime.go

    A bundle is the tar stream of a service directory at a revision, with the
    encrypted files replaced by their plaintext; the manifest of an agent's
    check is computed from the same stream.  [git archive] is the class
    [GitArchive].  The goroutine that fills a pipe and the one that reads it
    are one program: what was written to the pipe is a list of entries and the
    error that ended it, which the reader sees after them. *)
From S2P Require Export ServiceCommand AgentBundles.

(** [git archive --format=tar revision serviceDir]: its entries as archive/tar
    reads them, and its exit. *)
Class GitArchive `{GitState} :=
  run_archive : string → string → git_state → (list TarHeader * result string ()) * result string ().

#[export] Instance ServiceManifestFile_eq_dec : EqDecision ServiceManifestFile.
Proof. solve_decision. Defined.

(** archive/tar and compress/gzip: the headers a tar writer accepts, and the
    bytes of an archive, as the reads of the other end of the pipe find them.
    encoding/json of the runtime parameters. *)
Class BundleLibraries `{AgentLibraries} := {
  tar_accepts : TarHeader → bool;
  archive_chunks : list TarHeader * result string () → list string;
  read_archive_chunks : ∀ entries,
    forallb (λ h, tar_accepts h && is_ok (tar_Content h)) entries = true →
    read_archive (archive_chunks (entries, Ok ())) = (entries, Ok ());
  archive_chunks_not_empty : ∀ stream, archive_chunks stream ≠ [];
  marshal_backup_config : RuntimeConfig → string;
  marshal_restore_config : RestoreConfig → string;
}.

(** ** core/repo/bundle.go: the stream *)
Section stream.
Context `{AgentLibraries} `{!BundleLibraries}.

Definition injected (extras : gmap string string) (name : string) : bool :=
  bool_decide (is_Some (extras !! name)).
(** The regular files of the archive that an extra replaces. *)
Definition replaced_entry (extras : gmap string string) (header : TarHeader) : bool :=
  bool_decide (tar_Typeflag header = TypeReg) && IsEncryptedFilePath (tar_Name header) &&
  injected extras (RuntimeFilePath (tar_Name header)).
Definition copied (header : TarHeader) : result string () :=
  if tar_accepts header then
    if decide (tar_Typeflag header = TypeReg) then
      result_bind (tar_Content header) (λ _, Ok ())
    else Ok ()
  else Err "write bundle header".

(** The entries written, and why the copy stopped before the end.  A file
    that could not be read to its end was begun. *)
Fixpoint copy_entries (extras : gmap string string) (written entries : list TarHeader)
    : list TarHeader * result string () :=
  match entries with
  | [] => (written, Ok ())
  | header :: entries =>
      if replaced_entry extras header then copy_entries extras written entries
      else if injected extras (tar_Name header)
      then (written, Err "bundle file conflicts with an injected runtime file")
      else match copied header with
           | Ok _ => copy_entries extras (written ++ [header]) entries
           | Err e => (if tar_accepts header then written ++ [header] else written, Err e)
           end
  end.

Definition extra_entry (extra : string * string) : TarHeader :=
  MkTarHeader extra.1 TypeReg 384 (Ok extra.2).
Definition extra_entries (extras : gmap string string) : list TarHeader :=
  (λ name, extra_entry (name, default "" (extras !! name))) <$> string_sort (map_to_list extras).*1.
Fixpoint write_extras (written entries : list TarHeader) : list TarHeader * result string () :=
  match entries with
  | [] => (written, Ok ())
  | header :: entries =>
      if tar_accepts header then write_extras (written ++ [header]) entries
      else (written, Err "write injected bundle header")
  end.

(** The stream of an archive that started: reading it, the extras, and the
    exit of git. *)
Definition service_tar (archive : (list TarHeader * result string ()) * result string ())
    (extras : gmap string string) : list TarHeader * result string () :=
  match copy_entries extras [] archive.1.1 with
  | (written, Err e) => (written, Err e)
  | (written, Ok _) =>
      match archive.1.2 with
      | Err e => (written, Err "stream git archive entry")
      | Ok _ =>
          match write_extras written (extra_entries extras) with
          | (written, Err e) => (written, Err e)
          | (written, Ok _) =>
              (written, match archive.2 with Ok _ => Ok () | Err e => Err "wait for git archive" end)
          end
      end
  end.

Definition add_extra (normalized : gmap string string) (extra : string * string)
    : result string (gmap string string) :=
  result_bind (normalizeBundleExtraPath extra.1) (λ extraPath, Ok (<[extraPath := extra.2]> normalized)).

(** One entry of a manifest. *)
Definition TypeXGlobalHeader : Z := 103.
Definition manifest_entry (prefix : string) (files : list ServiceManifestFile) (header : TarHeader)
    : result string (list ServiceManifestFile) :=
  if decide (tar_Typeflag header = TypeDir ∨ tar_Typeflag header = TypeXGlobalHeader) then Ok files
  else if negb (bool_decide (tar_Typeflag header = TypeReg)) || negb (HasPrefix (tar_Name header) prefix)
  then Err "unsupported service manifest entry"
  else result_bind (tar_Content header) (λ text,
       Ok (files ++ [MkServiceManifestFile (TrimPrefix (tar_Name header) prefix) (sha256_hex text)
                       (Z.land (tar_Mode header) 511)])).
(** The error of the stream comes after its entries. *)
Definition manifest_of (serviceDir : string) (stream : list TarHeader * result string ())
    : result string (list ServiceManifestFile) :=
  result_bind (for_each (manifest_entry (Clean serviceDir +:+ "/")) [] stream.1) (λ files,
  result_bind stream.2 (λ _, Ok files)).
End stream.

(** ** app/controller/bundle_runtime.go: what a backup or a restore runs *)
Definition backupProviderRustic : string := "rustic".
Definition backup_provider (meta : Meta) (dataName : string) : string :=
  match sm_Backup meta with
  | None => backupProviderRustic
  | Some data =>
      match list_find (λ item, bi_Name item = dataName) data with
      | Some (_, item) => if decide (bi_Provider item ≠ "") then bi_Provider item else backupProviderRustic
      | None => backupProviderRustic
      end
  end.
Definition protected_item (serviceName : string) (meta : Meta) (selected : list string)
    (items : list RuntimeItem) (data : DataProtectItem) : result string (list RuntimeItem) :=
  match dp_Backup data with
  | Some action =>
      if decide (dp_Name data ∈ selected) then
        let provider := backup_provider meta (dp_Name data) in
        if decide (provider ≠ backupProviderRustic) then Err "backup provider is not implemented"
        else Ok (items ++ [MkRuntimeItem (dp_Name data) (act_Strategy action) (act_Service action) (act_User action)
                             (act_Include action) provider
                             ["composia-service:" +:+ serviceName; "composia-data:" +:+ dp_Name data]])
      else Ok items
  | None => Ok items
  end.
(** The last complete item of a name counts. *)
Definition artifactsByName (restoreItems : list restoreTaskItem) : gmap string string :=
  foldl (λ artifacts item,
    if decide (ri_DataName item = "" ∨ ri_ArtifactRef item = "") then artifacts
    else <[ri_DataName item := ri_ArtifactRef item]> artifacts) ∅ restoreItems.
Definition requested_item (artifacts : gmap string string) (items : list RestoreItem) (data : DataProtectItem)
    : list RestoreItem :=
  match artifacts !! dp_Name data, dp_Restore data with
  | Some artifactRef, Some action =>
      items ++ [MkRestoreItem (dp_Name data) (act_Strategy action) (act_Service action) (act_User action)
                  (act_Include action) backupProviderRustic artifactRef]
  | _, _ => items
  end.

Definition isMissingRevisionPathError (message : string) : bool :=
  Contains message "does not exist" || Contains message "exists on disk, but not in" ||
  Contains message "pathspec" || Contains message "invalid object name" || Contains message "not found".

(** ** app/controller/bundle.go *)
Definition cleanBundleServiceDir (value : string) : result string string :=
  let cleaned := Clean (TrimSpace value) in
  if bool_decide (cleaned = "") || bool_decide (cleaned = ".") || IsAbs cleaned || escapes cleaned
  then Err "service_dir must be a repo-relative directory"
  else Ok cleaned.

Section server.
Context `{DnsState} `{GitState} `{!Environment} `{!GitCommand} `{!GitArchive}.
Context `{Disk} `{MetaDecoder} `{Cron} `{Libraries} `{Secrets} `{SQLite} `{ParamsJSON}.
Context `{AgentLibraries} `{!BundleLibraries}.
Context (cfg : ControllerConfig) (availableNodeIDs : gset string).

Definition streamServiceTarWithExtras (revision serviceDir : string) (extras : gmap string string)
    : M (list TarHeader * result string ()) :=
  extras ← range_map extras;
  match for_each add_extra ∅ extras with
  | Err e => mret ([], Err e)
  | Ok extras =>
      started ← attempt (file_io "start git archive");
      match started with
      | Err e => mret ([], Err "start git archive")
      | Ok _ => t ← tree; mret (service_tar (run_archive revision serviceDir (rt_git t)) extras)
      end
  end.
Definition ServiceManifest_ (revision serviceDir : string) (extras : gmap string string)
    : M (list ServiceManifestFile) :=
  stream ← streamServiceTarWithExtras revision serviceDir extras;
  lift (with_code CodeUnknown (manifest_of serviceDir stream)).

(** *** Secrets *)
Definition listEncryptedFiles (revision serviceDir : string) : M (list string) :=
  files ← attempt (ListFilesAtRevision revision serviceDir);
  match files with
  | Err e => if isMissingRevisionPathError (error_text e) then mret [] else fail e
  | Ok files =>
      lift (with_code CodeUnknown
        (for_each (λ encFiles f,
           if IsEncryptedFilePath f then
             if IsValidEncryptedFilePath f then Ok (encFiles ++ [f]) else Err "invalid encrypted file path"
           else Ok encFiles) [] files))
  end.
Definition decryptFileAtRevision (secrets : string * string) (revision encFilePath : string) : M string :=
  secretContent ← attempt (ReadFileAtRevision revision encFilePath);
  match secretContent with
  | Err e => if isMissingRevisionPathError (error_text e) then mret "" else fail e
  | Ok secretContent => lift (with_code CodeUnknown (Decrypt secretContent secrets))
  end.
(** [None] is the error [errSecretsNotConfigured]. *)
Definition renderServiceSecrets (revision serviceDir : string) (encFiles : list string)
    : M (option (gmap string string)) :=
  match cc_Secrets cfg with
  | None => mret (if decide (encFiles = []) then Some ∅ else None)
  | Some secrets =>
      extraFiles ← M_each (λ extraFiles encFile,
        decrypted ← decryptFileAtRevision secrets revision (JoinPath [serviceDir; encFile]);
        mret (<[JoinPath [serviceDir; RuntimeFilePath encFile] := decrypted]> extraFiles)) ∅ encFiles;
      mret (Some extraFiles)
  end.
Definition persistentServiceExtraFiles (revision serviceDir : string) : M (option (gmap string string)) :=
  encFiles ← listEncryptedFiles revision serviceDir; renderServiceSecrets revision serviceDir encFiles.
Definition secrets_or_fail (code : Code) (m : M (option (gmap string string))) : M (gmap string string) :=
  extras ← recode code m;
  match extras with
  | Some extras => mret extras
  | None => fail (NewError CodeFailedPrecondition "secrets are not configured")
  end.

(** *** The task and the directory of a request *)
Definition serviceTask (ctx : Context_) (taskID executionID : string) : M (TaskRecord * serviceTaskParams) :=
  if decide (taskID = "") then fail (NewError CodeInvalidArgument "task_id is required")
  else
    _ ← db_check (ensureTaskNodeMatch ctx taskID);
    record ← store_read (StoreFailed CodeFailedPrecondition)
               (ValidateTaskExecution taskID executionID (default "" (BearerSubject ctx)));
    if decide (rec_ParamsJSON record = "") then fail (NewError CodeInternal "decode service task params")
    else match unmarshal_params (rec_ParamsJSON record) with
         | None => fail (NewError CodeInternal "decode service task params")
         | Some params => mret (record, params)
         end.

Definition FindRusticInfraServiceAtRevision_ (revision : string) : M Service :=
  if decide (TrimSpace revision = "") then fail (NewError CodeUnknown "rustic infra service revision is required")
  else
    files ← ListFilesAtRevision revision "";
    matched ← M_each (λ matched path,
      content ← ReadFileAtRevision revision path;
      lift (with_code CodeUnknown
        (rustic_visit (cc_RepoDir cfg) (λ _, decode_meta content) availableNodeIDs matched path)))
      None (ListServiceMetaFilesAtRevision files);
    match matched with
    | Some service => mret service
    | None => fail (NewError CodeUnknown "rustic infra service is not declared")
    end.

Definition denied {A} (message : string) : M A := fail (NewError CodePermissionDenied message).
Definition same_clean (requested dir : string) : bool :=
  match cleanBundleServiceDir dir with Ok cleaned => bool_decide (requested = cleaned) | Err _ => false end.
Definition authorizedBundleServiceDir (record : TaskRecord) (params : serviceTaskParams) (requested : string)
    : M string :=
  let serviceDir := cleanBundleServiceDir (tp_ServiceDir params) in
  if decide (requested = "") then
    match serviceDir with
    | Ok serviceDir => mret serviceDir
    | Err _ => fail (NewError CodeFailedPrecondition "task is missing a valid service_dir")
    end
  else match cleanBundleServiceDir requested with
  | Err e => denied e
  | Ok requested =>
      if same_clean requested (tp_ServiceDir params) then mret requested
      else if decide (rec_Type record = TypeCaddySync) then
        if existsb (same_clean requested) (tp_ServiceDirs params) then mret requested
        else denied "service_dir is not authorized for task"
      else if decide (rec_Type record = TypeBackup ∨ rec_Type record = TypeRestore) then
        rustic ← recode CodeInternal (FindRusticInfraServiceAtRevision_ (rec_RepoRevision record));
        _ ← lift (with_code CodePermissionDenied (validateRusticServiceTargetNode rustic (rec_NodeID record)));
        rusticDir ← lift (with_code CodeInternal (Rel (cc_RepoDir cfg) (svc_Directory rustic)));
        if same_clean requested rusticDir then mret requested
        else denied "service_dir is not authorized for task"
      else denied "service_dir is not authorized for task"
  end.

(** *** The handlers *)
Definition GetServiceManifest (ctx : Context_) (taskID executionID serviceDir : string) : M ServiceManifest :=
  '(record, params) ← serviceTask ctx taskID executionID;
  let revision := rec_RepoRevision record in
  if decide (revision = "")
  then fail (NewError CodeFailedPrecondition "service manifests require a service-scoped task with a repo revision")
  else
    dir ← authorizedBundleServiceDir record params serviceDir;
    service ← recode CodeFailedPrecondition (find_service_at cfg availableNodeIDs revision dir);
    if same_clean dir (tp_ServiceDir params) && bool_decide (svc_Name service ≠ rec_ServiceName record)
    then denied "service directory does not match task service"
    else
      extras ← secrets_or_fail CodeFailedPrecondition (persistentServiceExtraFiles revision dir);
      files ← recode CodeInternal (ServiceManifest_ revision dir extras);
      currentRevision ← recode CodeInternal CurrentRevision;
      _ ← (if decide (currentRevision = revision) then mret ()
           else
             currentExtras ← secrets_or_fail CodeFailedPrecondition (persistentServiceExtraFiles currentRevision dir);
             currentFiles ← attempt (ServiceManifest_ currentRevision dir currentExtras);
             if match currentFiles with Ok currentFiles => bool_decide (files = currentFiles) | Err _ => false end
             then mret ()
             else fail (NewError CodeFailedPrecondition "controller service files changed since this check was queued"));
      mret (MkServiceManifest revision dir files).

(** The messages sent, and how the call ended; the client may go away. *)
Fixpoint send_messages (sent : list BundleMessage) (messages : list BundleMessage)
    : M (list BundleMessage * result ConnectError ()) :=
  match messages with
  | [] => mret (sent, Ok ())
  | message :: messages =>
      r ← attempt (file_io "send");
      match r with
      | Ok _ => send_messages (sent ++ [message]) messages
      | Err e => mret (sent, Err e)
      end
  end.
Definition bundle_messages (record : TaskRecord) (dir : string) (chunks : list string) : list BundleMessage :=
  imap (λ i chunk, if decide (i = 0) then MkBundleMessage (rec_ServiceName record) dir chunk
                   else MkBundleMessage "" "" chunk) chunks.
Definition stream_bundle (record : TaskRecord) (dir : string) (extras : gmap string string)
    : M (list BundleMessage * result ConnectError ()) :=
  stream ← streamServiceTarWithExtras (rec_RepoRevision record) dir extras;
  '(sent, r) ← send_messages [] (bundle_messages record dir (archive_chunks stream));
  mret (sent, match r, stream.2 with
              | Err e, _ => Err e
              | Ok _, Err e => Err (NewError CodeInternal "read bundle stream")
              | Ok _, Ok _ => Ok ()
              end).
Definition GetServiceBundle (ctx : Context_) (taskID executionID serviceDir : string)
    : M (list BundleMessage * result ConnectError ()) :=
  '(record, params) ← serviceTask ctx taskID executionID;
  if decide (rec_Type record ≠ TypeDeploy ∧ rec_Type record ≠ TypeUpdate)
  then fail (NewError CodeFailedPrecondition "only deploy and update tasks can install service bundles")
  else
    dir ← authorizedBundleServiceDir record params serviceDir;
    extraFiles ← secrets_or_fail CodeInternal (persistentServiceExtraFiles (rec_RepoRevision record) dir);
    stream_bundle record dir extraFiles.

(** ** The runtime of backup and restore tasks *)
Definition rustic_config (rusticService : Service) (rusticServiceDir nodeID : string) : RusticConfig :=
  let meta := svc_Meta rusticService in
  MkRusticConfig (svc_Name rusticService) rusticServiceDir (RusticComposeService meta) (RusticProfile meta)
    (RusticDataProtectDir meta) nodeID.
(** What both payloads start with: the service and the rustic service of the
    node. *)
Definition payload_services (nodeID revision serviceDir : string) : M (Service * RusticConfig) :=
  if decide (serviceDir = "") then fail (NewError CodeUnknown "runtime payload requires service_dir")
  else
    service ← find_service_at cfg availableNodeIDs revision serviceDir;
    rusticService ← FindRusticInfraServiceAtRevision_ revision;
    _ ← lift (with_code CodeUnknown (validateRusticServiceTargetNode rusticService nodeID));
    rusticServiceDir ← lift (with_code CodeUnknown (Rel (cc_RepoDir cfg) (svc_Directory rusticService)));
    mret (service, rustic_config rusticService rusticServiceDir nodeID).
Definition protected_data (service : Service) : list DataProtectItem := default [] (sm_DataProtect (svc_Meta service)).
Definition backup_config (serviceName nodeID revision : string) (params : serviceTaskParams) : M RuntimeConfig :=
  '(service, rustic) ← payload_services nodeID revision (tp_ServiceDir params);
  items ← lift (with_code CodeUnknown
    (for_each (protected_item serviceName (svc_Meta service) (tp_DataNames params)) [] (protected_data service)));
  mret (MkRuntimeConfig (Some rustic) items).
Definition buildBackupRuntimePayload (serviceName nodeID revision : string) (params : serviceTaskParams) : M string :=
  config ← backup_config serviceName nodeID revision params; mret (marshal_backup_config config).
Definition restore_config (nodeID revision : string) (params : serviceTaskParams) : M RestoreConfig :=
  '(service, rustic) ← payload_services nodeID revision (tp_ServiceDir params);
  mret (MkRestoreConfig (Some rustic)
          (foldl (requested_item (artifactsByName (tp_RestoreItems params))) [] (protected_data service))).
Definition buildRestoreRuntimePayload (nodeID revision : string) (params : serviceTaskParams) : M string :=
  config ← restore_config nodeID revision params; mret (marshal_restore_config config).

Definition with_dir (dir : string) (p : serviceTaskParams) : serviceTaskParams :=
  MkServiceTaskParams dir (tp_ServiceDirs p) (tp_ExcludedServiceDir p) (tp_DataNames p) (tp_ImageNames p)
    (tp_ImageCheckBatchID p) (tp_SemverAllow p) (tp_ForgeCandidates p) (tp_ForgeCandidateSources p)
    (tp_FullRebuild p) (tp_SourceNodeID p) (tp_TargetNodeID p) (tp_RestoreItems p) (tp_ComposeRecreateMode p)
    (tp_OriginalMigrateTaskID p) (tp_RollbackDNS p) (tp_DeploySource p) (tp_StopTarget p) (tp_CleanupTarget p).
Definition GetServiceTaskRuntime (ctx : Context_) (taskID executionID : string) : M ServiceTaskRuntime :=
  '(record, params) ← serviceTask ctx taskID executionID;
  if decide (rec_Type record ≠ TypeBackup ∧ rec_Type record ≠ TypeRestore)
  then fail (NewError CodeFailedPrecondition "runtime parameters require a backup or restore task")
  else if decide (rec_RepoRevision record = "")
  then fail (NewError CodeFailedPrecondition "runtime parameters require a pinned repo revision")
  else
    dir ← authorizedBundleServiceDir record params "";
    service ← recode CodeFailedPrecondition (find_service_at cfg availableNodeIDs (rec_RepoRevision record) dir);
    if decide (svc_Name service ≠ rec_ServiceName record)
    then denied "service directory does not match task service"
    else if decide (sm_DataProtect (svc_Meta service) = None)
    then fail (NewError CodeFailedPrecondition "service does not declare data protection")
    else
      payload ← recode CodeFailedPrecondition
        (if decide (rec_Type record = TypeBackup)
         then buildBackupRuntimePayload (rec_ServiceName record) (rec_NodeID record) (rec_RepoRevision record)
                (with_dir dir params)
         else buildRestoreRuntimePayload (rec_NodeID record) (rec_RepoRevision record) (with_dir dir params));
      mret (MkServiceTaskRuntime (rec_RepoRevision record) dir payload).
End server.
