(* ===== verification/ServiceBundleTheorems.v ===== *)
(** * What a service bundle holds and who may ask for it: theorems on
    ServiceBundles.v *)
From S2P Require Export ServiceBundles.

(** ** The stream *)
Section stream.
Context `{AgentLibraries} `{!BundleLibraries}.
Implicit Types (extras : gmap string string) (entries written : list TarHeader).

(** The entries a stream keeps. *)
Definition kept_entries extras entries : list TarHeader :=
  filter (λ h, replaced_entry extras h = false) entries.
Definition writable extras (h : TarHeader) : Prop :=
  injected extras (tar_Name h) = false ∧ tar_accepts h = true ∧
  (tar_Typeflag h = TypeReg → is_ok (tar_Content h) = true).

Lemma copied_Ok h : copied h = Ok () ↔ tar_accepts h = true ∧ (tar_Typeflag h = TypeReg → is_ok (tar_Content h) = true).
Proof.
  unfold copied. destruct (tar_accepts h); [|naive_solver].
  destruct (decide (tar_Typeflag h = TypeReg)), (tar_Content h); cbn; naive_solver.
Qed.

Lemma copy_entries_Ok extras written entries written' :
  copy_entries extras written entries = (written', Ok ()) ↔
  written' = written ++ kept_entries extras entries ∧ Forall (writable extras) (kept_entries extras entries).
Proof.
  unfold kept_entries. revert written. induction entries as [|h entries IH]; intros written; cbn [copy_entries].
  { cbn. rewrite (right_id_L [] (++)), Forall_nil. naive_solver. }
  destruct (replaced_entry extras h) eqn:Hr.
  { rewrite IH. by rewrite filter_cons_False by congruence. }
  rewrite filter_cons_True by done. rewrite Forall_cons. unfold writable at 1. rewrite <-copied_Ok.
  destruct (injected extras _); [naive_solver|].
  destruct (copied h) as [[]|e]; [|split; [intros ?; simplify_eq|intros (_ & (_ & ?) & _); done]].
  rewrite IH. rewrite <-(assoc_L (++)). naive_solver.
Qed.
Lemma write_extras_Ok written entries written' :
  write_extras written entries = (written', Ok ()) ↔
  written' = written ++ entries ∧ Forall (λ h, tar_accepts h = true) entries.
Proof.
  revert written. induction entries as [|h entries IH]; intros written; cbn [write_extras].
  { rewrite (right_id_L [] (++)), Forall_nil. naive_solver. }
  rewrite Forall_cons. destruct (tar_accepts h) eqn:Ht; [|naive_solver].
  rewrite IH, <-(assoc_L (++)). naive_solver.
Qed.
Lemma service_tar_Ok archive extras written :
  service_tar archive extras = (written, Ok ()) ↔
  written = kept_entries extras archive.1.1 ++ extra_entries extras ∧
  Forall (writable extras) (kept_entries extras archive.1.1) ∧
  Forall (λ h, tar_accepts h = true) (extra_entries extras) ∧
  archive.1.2 = Ok () ∧ archive.2 = Ok ().
Proof.
  unfold service_tar. destruct (copy_entries _ _ _) as [w1 [[]|e]] eqn:Hc.
  - apply copy_entries_Ok in Hc as [-> Hw]. destruct archive as [[entries [[]|e]] done]; [|naive_solver]. cbn [fst snd app] in *.
    destruct (write_extras _ _) as [w2 [[]|e]] eqn:Hx.
    + apply write_extras_Ok in Hx as [-> Ha]. destruct done as [[]|]; naive_solver.
    + split; [naive_solver|]. intros (-> & _ & Ha & _ & _). exfalso.
      pose proof (proj2 (write_extras_Ok (kept_entries extras entries) (extra_entries extras) _) (conj eq_refl Ha)). congruence.
  - split; [naive_solver|]. intros (_ & Ha & _). exfalso.
    pose proof (proj2 (copy_entries_Ok extras [] archive.1.1 _) (conj eq_refl Ha)). congruence.
Qed.

Lemma extra_entries_spec extras h :
  h ∈ extra_entries extras ↔ ∃ name text, extras !! name = Some text ∧ h = extra_entry (name, text).
Proof.
  unfold extra_entries. rewrite list_elem_of_fmap. split.
  - intros (name & -> & Hin). unfold string_sort in Hin. rewrite merge_sort_Permutation in Hin.
    apply list_elem_of_fmap in Hin as ([k v] & -> & Hkv%elem_of_map_to_list). exists k, v. cbn. by rewrite Hkv.
  - intros (name & text & Hl & ->). exists name. rewrite Hl. split; [done|]. unfold string_sort.
    rewrite merge_sort_Permutation. apply list_elem_of_fmap. exists (name, text). split; [done|]. by apply elem_of_map_to_list.
Qed.

(** The regular files of a stream: their names. *)
Definition regular (h : TarHeader) : Prop := tar_Typeflag h = TypeReg.
#[export] Instance regular_dec h : Decision (regular h) := _.
Definition file_names entries : list string := tar_Name <$> filter regular entries.

Lemma extra_names extras : file_names (extra_entries extras) = string_sort (map_to_list extras).*1.
Proof.
  unfold file_names, extra_entries. induction (string_sort _) as [|name names IH]; [done|].
  rewrite fmap_cons, filter_cons_True by done. rewrite fmap_cons, IH. done.
Qed.
Lemma file_names_app l k : file_names (l ++ k) = file_names l ++ file_names k.
Proof. unfold file_names. by rewrite filter_app, fmap_app. Qed.
Lemma file_names_kept extras entries : file_names (kept_entries extras entries) `sublist_of` file_names entries.
Proof.
  unfold file_names, kept_entries. induction entries as [|h entries IH]; [done|].
  rewrite filter_cons. destruct (decide (replaced_entry extras h = false)), (decide (regular h)) as [Hr|Hr].
  - rewrite !filter_cons_True by done. rewrite !fmap_cons. by apply sublist_skip.
  - by rewrite !filter_cons_False.
  - rewrite (filter_cons_True regular) by done. rewrite fmap_cons. by apply sublist_cons.
  - by rewrite (filter_cons_False regular).
Qed.
(** When the archive lists every file once, so does the stream. *)
Lemma stream_names_NoDup archive extras written :
  service_tar archive extras = (written, Ok ()) → NoDup (file_names archive.1.1) → NoDup (file_names written).
Proof.
  intros (-> & Hw & _ & _ & _)%service_tar_Ok Hnd. rewrite file_names_app. apply NoDup_app. split_and!.
  - eapply sublist_NoDup; [exact Hnd|apply file_names_kept].
  - intros name (h & -> & [Hr Hin]%list_elem_of_filter)%list_elem_of_fmap Hx.
    rewrite Forall_forall in Hw. destruct (Hw _ Hin) as (Hi & _ & _).
    rewrite extra_names in Hx. unfold string_sort in Hx. rewrite merge_sort_Permutation in Hx.
    apply list_elem_of_fmap in Hx as ([k v] & Hk & Hkv%elem_of_map_to_list).
    unfold injected in Hi. rewrite bool_decide_eq_false in Hi. apply Hi. cbn in Hk. rewrite Hk. by eexists.
  - rewrite extra_names. unfold string_sort. rewrite merge_sort_Permutation. apply NoDup_fst_map_to_list.
Qed.
End stream.

(** ** Directories and tasks of the requests *)
Lemma cleanBundleServiceDir_Ok value dir :
  cleanBundleServiceDir value = Ok dir ↔ dir = Clean (TrimSpace value) ∧ below_root dir.
Proof.
  unfold cleanBundleServiceDir. split.
  - destruct (_ || _ || _ || _) eqn:Hbad; [done|]. intros [= <-]. split; [done|].
    repeat (apply orb_false_iff in Hbad as [Hbad ?Hb]).
    repeat match goal with Hb : bool_decide _ = false |- _ => apply bool_decide_eq_false in Hb end.
    by apply Clean_safe.
  - intros [-> Hb]. apply below_root_clean in Hb as (_ & H1 & H2 & H3 & H4).
    by rewrite H3, H4, !bool_decide_eq_false_2.
Qed.
Lemma same_clean_true requested dir : same_clean requested dir = true ↔ cleanBundleServiceDir dir = Ok requested.
Proof. unfold same_clean. destruct (cleanBundleServiceDir dir); [rewrite bool_decide_eq_true|]; naive_solver. Qed.

Section server.
Context `{DnsState} `{GitState} `{!Environment} `{!GitCommand} `{!GitArchive}.
Context `{Disk} `{MetaDecoder} `{Cron} `{Libraries} `{Secrets} `{SQLite} `{ParamsJSON}.
Context `{AgentLibraries} `{!BundleLibraries}.
Context (cfg : ControllerConfig) (availableNodeIDs : gset string).
Implicit Types (w : World).

(** The task of a request is the running execution of the caller. *)
Definition task_of_caller (ctx : Context_) (taskID executionID : string) (record : TaskRecord)
    (params : serviceTaskParams) (w : World) : Prop :=
  ∃ nodeID, BearerSubject ctx = Some nodeID ∧
    ValidateTaskExecution taskID executionID nodeID (w_db w) = Ok record ∧
    rec_NodeID record = nodeID ∧ rec_Status record = StatusRunning ∧
    unmarshal_params (rec_ParamsJSON record) = Some params.

Lemma ValidateTaskExecution_node taskID executionID nodeID db record :
  ValidateTaskExecution taskID executionID nodeID db = Ok record →
  rec_NodeID record = nodeID ∧ rec_Status record = StatusRunning.
Proof.
  unfold ValidateTaskExecution. intros (detail & _ & Hr)%result_bind_Ok. cbv zeta in Hr.
  destruct (decide _) as [(? & ? & ? & ?)|]; [by injection Hr as <-|].
  destruct (decide _) as [|Hn]; [done|]. destruct (decide _); [|done]. injection Hr as <-.
  split; apply dec_stable; tauto.
Qed.

Lemma serviceTask_Ok ctx taskID executionID w w' record params :
  serviceTask ctx taskID executionID w = (w', Ok (record, params)) →
  ∃ w1, task_of_caller ctx taskID executionID record params w1.
Proof.
  unfold serviceTask. destruct (decide _); [done|]. intros Hm. succeeded.
  match goal with H : db_check _ _ = _ |- _ => apply bind_Ok in H as (? & ? & _ & H); apply bind_Ok in H as (? & ? & _ & H); apply lift_Ok in H as [_ Hnode] end.
  match goal with H : store_read _ _ _ = _ |- _ => apply store_read_Ok in H as (w1 & Hv) end.
  exists w1. destruct (decide _); [done|]. destruct (unmarshal_params _) eqn:Hp; [|done]. succeeded.
  simplify_eq. unfold ensureTaskNodeMatch in Hnode. destruct (BearerSubject ctx) as [nodeID|] eqn:Hsub; [|done].
  destruct (ValidateTaskExecution_node _ _ _ _ _ Hv) as [Hn Hs]. by exists nodeID.
Qed.

(** The directory of an answer is the directory of the task, one a Caddy
    synchronisation lists, or the rustic service of the node of a backup or
    restore. *)
Lemma authorized_Ok record params requested w w' dir :
  authorizedBundleServiceDir cfg availableNodeIDs record params requested w = (w', Ok dir) →
  (requested = "" ∨ cleanBundleServiceDir requested = Ok dir) ∧
  (cleanBundleServiceDir (tp_ServiceDir params) = Ok dir ∨
   rec_Type record = TypeCaddySync ∧ (∃ allowed, allowed ∈ tp_ServiceDirs params ∧ cleanBundleServiceDir allowed = Ok dir) ∨
   (rec_Type record = TypeBackup ∨ rec_Type record = TypeRestore) ∧
   ∃ rustic w1 w2 rusticDir,
     FindRusticInfraServiceAtRevision_ cfg availableNodeIDs (rec_RepoRevision record) w1 = (w2, Ok rustic) ∧
     rec_NodeID record ∈ svc_TargetNodes rustic ∧ Rel (cc_RepoDir cfg) (svc_Directory rustic) = Ok rusticDir ∧
     cleanBundleServiceDir rusticDir = Ok dir).
Proof.
  unfold authorizedBundleServiceDir. cbv zeta. destruct (decide (requested = "")) as [->|Hne].
  { destruct (cleanBundleServiceDir (tp_ServiceDir params)) eqn:Hc; intros Hm; unfold denied in *; succeeded.
    split; by left. }
  destruct (cleanBundleServiceDir requested) as [r|] eqn:Hr; [|unfold denied; intros Hm; succeeded].
  destruct (same_clean r (tp_ServiceDir params)) eqn:Hs.
  { intros Hm. succeeded. apply same_clean_true in Hs. split; [by right|by left]. }
  destruct (decide (rec_Type record = TypeCaddySync)).
  { destruct (existsb _ _) eqn:He; unfold denied; intros Hm; succeeded. split; [by right|]. right; left. split; [done|].
    apply existsb_exists in He as (a & Ha & Hsa%same_clean_true). exists a. split; [by apply list_elem_of_In|done]. }
  destruct (decide (rec_Type record = TypeBackup ∨ rec_Type record = TypeRestore)); unfold denied; intros Hm; succeeded.
  clear Hs. destruct (same_clean r _) eqn:Hsr; succeeded. apply same_clean_true in Hsr. split; [by right|]. right; right.
  split; [done|]. do 4 eexists. split_and!; [done| |done|done].
  match goal with H : validateRusticServiceTargetNode _ _ = _ |- _ => unfold validateRusticServiceTargetNode in H; by case_decide end.
Qed.
Lemma authorized_below record params requested w w' dir :
  authorizedBundleServiceDir cfg availableNodeIDs record params requested w = (w', Ok dir) → below_root dir.
Proof.
  intros (_ & [Hc|[(_ & a & _ & Hc)|(_ & ? & ? & ? & ? & _ & _ & _ & Hc)]])%authorized_Ok;
  by apply cleanBundleServiceDir_Ok in Hc as [_ ?].
Qed.

(** *** The stream that is sent *)
(** The tar stream of a directory at a revision, with the extras under their
    normalized names. *)
Definition bundle_of (revision dir : string) (extras : gmap string string) (g : git_state)
    (entries : list TarHeader) : Prop :=
  ∃ normalized listed, listed ≡ₚ map_to_list extras ∧ for_each add_extra ∅ listed = Ok normalized ∧
    service_tar (run_archive revision dir g) normalized = (entries, Ok ()).

Lemma range_map_Ok {A} (m : gmap string A) w w' l : range_map m w = (w', Ok l) → l ≡ₚ map_to_list m.
Proof.
  unfold range_map. intros Hm. succeeded. cbv zeta in *.
  destruct (permutations _ !! _) as [l'|] eqn:Hl; [|done]. cbn.
  apply list_elem_of_lookup_2, permutations_Permutation in Hl. by symmetry.
Qed.
Lemma streamServiceTar_Ok revision dir extras w w' entries :
  streamServiceTarWithExtras revision dir extras w = (w', Ok (entries, Ok ())) →
  ∃ w1, bundle_of revision dir extras (rt_git (w_tree w1)) entries.
Proof.
  unfold streamServiceTarWithExtras. intros Hm. succeeded.
  match goal with H : range_map _ _ = _ |- _ => apply range_map_Ok in H as Hperm end.
  destruct (for_each _ _ _) as [normalized|] eqn:Hx; succeeded; [|done].
  match goal with H : file_io _ _ = (_, ?r) |- _ => destruct r end; succeeded; [|done].
  match goal with H : tree _ = (?w1, Ok ?t) |- _ => exists w1; assert (t = w_tree w1) as -> end.
  { unfold tree in *. succeeded. unfold get in *. by simplify_eq. }
  eexists _, _. split_and!; [exact Hperm|exact Hx|done].
Qed.

Lemma send_messages_Ok messages sent w w' sent' :
  send_messages sent messages w = (w', Ok (sent', Ok ())) → sent' = sent ++ messages.
Proof.
  revert sent w. induction messages as [|m messages IH]; intros sent w; cbn [send_messages]; intros Hm; succeeded.
  { simplify_eq. by rewrite (right_id_L [] (++)). }
  match goal with H : file_io _ _ = (_, ?r) |- _ => destruct r end; succeeded; [|done].
  apply IH in Hm as ->. by rewrite <-(assoc_L (++)).
Qed.
Lemma bundle_messages_data record dir chunks : bm_Data <$> bundle_messages record dir chunks = chunks.
Proof.
  unfold bundle_messages. apply list_eq. intros i. rewrite list_lookup_fmap, list_lookup_imap.
  destruct (chunks !! i); [|done]. cbn. by destruct (decide (i = 0)).
Qed.
Lemma bundle_messages_root record dir chunks :
  chunks ≠ [] → dir ≠ "" → first_text bm_RelativeRoot (bundle_messages record dir chunks) = dir.
Proof.
  intros Hne Hd. destruct chunks as [|chunk chunks]; [done|]. unfold bundle_messages, first_text.
  by rewrite imap_cons, fmap_cons, filter_cons_True.
Qed.

Lemma writable_chunks archive extras entries :
  service_tar archive extras = (entries, Ok ()) →
  (∀ h, h ∈ archive.1.1 → ¬ regular h → is_ok (tar_Content h) = true) →
  read_archive (archive_chunks (entries, Ok ())) = (entries, Ok ()).
Proof.
  intros (-> & Hw & Ha & _ & _)%service_tar_Ok Hdirs. apply read_archive_chunks. rewrite forallb_forall.
  intros h Hin%list_elem_of_In. rewrite Forall_forall in Hw, Ha.
  apply elem_of_app in Hin as [Hin|Hin]; apply andb_true_iff.
  - destruct (Hw _ Hin) as (_ & Hacc & Hc). split; [done|].
    apply list_elem_of_filter in Hin as [_ Hin]. destruct (decide (regular h)); [by apply Hc|by apply Hdirs].
  - split; [by apply Ha|]. by apply extra_entries_spec in Hin as (? & ? & _ & ->).
Qed.


(** *** Secrets *)
Lemma each_app_Ok {S A} (f : S → A → M S) s l1 l2 w w' s' :
  M_each f s (l1 ++ l2) w = (w', Ok s') ↔
  ∃ w1 s1, M_each f s l1 w = (w1, Ok s1) ∧ M_each f s1 l2 w1 = (w', Ok s').
Proof.
  revert s w. induction l1 as [|x l1 IH]; intros s w; cbn [app].
  - setoid_rewrite each_nil_Ok. naive_solver.
  - setoid_rewrite each_cons_Ok. setoid_rewrite IH. naive_solver.
Qed.

(** The text the rendering of the listed files found for one of them, when
    those before it were rendered. *)
Definition rendered (secrets : string * string) (revision dir : string) (encFiles : list string) w
    (f text : string) : Prop :=
  ∃ before after w1 w2 extras, encFiles = before ++ f :: after ∧
    renderServiceSecrets cfg revision dir before w = (w1, Ok (Some extras)) ∧
    decryptFileAtRevision secrets revision (JoinPath [dir; f]) w1 = (w2, Ok text).

Lemma renderServiceSecrets_each secrets revision dir encFiles w w' extras :
  cc_Secrets cfg = Some secrets →
  renderServiceSecrets cfg revision dir encFiles w = (w', Ok (Some extras)) ↔
  M_each (λ extraFiles encFile,
    decrypted ← decryptFileAtRevision secrets revision (JoinPath [dir; encFile]);
    mret (<[JoinPath [dir; RuntimeFilePath encFile] := decrypted]> extraFiles)) ∅ encFiles w = (w', Ok extras).
Proof.
  intros Hs. unfold renderServiceSecrets. rewrite Hs, bind_Ok. setoid_rewrite ret_Ok. naive_solver.
Qed.

(** The extras are the listed files under their runtime paths. *)
Lemma renderServiceSecrets_Ok secrets revision dir encFiles w w' extras :
  cc_Secrets cfg = Some secrets →
  renderServiceSecrets cfg revision dir encFiles w = (w', Ok (Some extras)) →
  (∀ f, f ∈ encFiles → is_Some (extras !! JoinPath [dir; RuntimeFilePath f])) ∧
  (∀ p text, extras !! p = Some text →
     ∃ f, f ∈ encFiles ∧ p = JoinPath [dir; RuntimeFilePath f] ∧ rendered secrets revision dir encFiles w f text).
Proof.
  intros Hs. revert w' extras. induction encFiles as [|f encFiles IH] using rev_ind; intros w' extras.
  { rewrite (renderServiceSecrets_each secrets), each_nil_Ok by done. intros [_ ->].
    split; [by intros f ?%elem_of_nil|]. intros p text. by rewrite lookup_empty. }
  rewrite (renderServiceSecrets_each secrets), each_app_Ok by done. intros (w1 & acc & Hbefore & Hlast).
  apply each_cons_Ok in Hlast as (w2 & acc' & Hf & [-> ->]%each_nil_Ok).
  apply bind_Ok in Hf as (w3 & decrypted & Hd & [-> ->]%ret_Ok).
  rewrite <-(renderServiceSecrets_each secrets) in Hbefore by done. destruct (IH _ _ Hbefore) as [Hin Hout]. split.
  - intros g [Hg| ->%list_elem_of_singleton]%elem_of_app; apply lookup_insert_is_Some'; [right; by apply Hin|by left].
  - intros p text [[<- <-]|[_ Hp]]%lookup_insert_Some.
    + exists f. split; [set_solver|]. split; [done|]. by exists encFiles, [], w1, w3, acc.
    + destruct (Hout _ _ Hp) as (g & Hg & -> & before & after & wa & wb & ex & -> & Hr & Hdec).
      exists g. split; [set_solver|]. split; [done|].
      exists before, (after ++ [f]), wa, wb, ex. by rewrite <-(assoc_L (++)).
Qed.

Lemma add_extras_text listed acc normalized p text :
  for_each add_extra acc listed = Ok normalized → normalized !! p = Some text →
  acc !! p = Some text ∨ ∃ k, (k, text) ∈ listed ∧ normalizeBundleExtraPath k = Ok p.
Proof.
  revert acc. induction listed as [|[k v] listed IH]; intros acc; cbn [for_each].
  { intros [= <-]. by left. }
  intros (acc' & (q & Hq & [= <-])%result_bind_Ok & Hr)%result_bind_Ok Hp. cbn [fst snd] in *.
  destruct (IH _ Hr Hp) as [[[-> ->]|[_ ?]]%lookup_insert_Some|(k' & ? & ?)]; [|by left|].
  - right. exists k. by split; [left|].
  - right. exists k'. by split; [right|].
Qed.

Lemma add_extras_Ok listed acc normalized p :
  for_each add_extra acc listed = Ok normalized →
  is_Some (normalized !! p) ↔ is_Some (acc !! p) ∨ ∃ k v, (k, v) ∈ listed ∧ normalizeBundleExtraPath k = Ok p.
Proof.
  revert acc. induction listed as [|[k v] listed IH]; intros acc; cbn [for_each].
  { intros [= <-]. split; [by left|]. by intros [?|(? & ? & ?%elem_of_nil & _)]. }
  intros (acc' & (q & Hq & [= <-])%result_bind_Ok & Hr)%result_bind_Ok. cbn [fst snd] in *.
  rewrite (IH _ Hr), lookup_insert_is_Some'. split.
  - intros [[->|?]|(k' & v' & ? & ?)]; [right; exists k, v; by split; [left|]|by left|].
    right. exists k', v'. by split; [right|].
  - intros [?|(k' & v' & [[= -> ->]|?]%elem_of_cons & Hk)]; [by left; right|rewrite Hq in Hk; left; left; congruence|].
    right. by exists k', v'.
Qed.

Lemma add_extras_names listed acc normalized k v :
  for_each add_extra acc listed = Ok normalized → (k, v) ∈ listed → ∃ p, normalizeBundleExtraPath k = Ok p.
Proof.
  revert acc. induction listed as [|[k' v'] listed IH]; intros acc; [by intros _ ?%elem_of_nil|]. cbn [for_each].
  intros (acc' & (q & Hq & _)%result_bind_Ok & Hr)%result_bind_Ok [[= -> ->]|?]%elem_of_cons; [by exists q|by eapply IH].
Qed.

(** C33: in a bundle whose extras are the decrypted files of a list, every
    listed file has exactly one entry at its runtime path, a file that only
    its owner may read, whose content is the plaintext that was rendered for
    it, or for another listed file that normalises to the same path.  The
    ciphertext of a listed file is not sent when its runtime path normalises
    to itself.  Nothing is said of an encrypted file that git does not list
    under its name, nor of one whose name has blanks at its end or a
    backslash: these stay in the bundle as they are. *)
Theorem bundle_replaces_secrets secrets revision dir encFiles w w' extras listed normalized archive entries :
  cc_Secrets cfg = Some secrets →
  renderServiceSecrets cfg revision dir encFiles w = (w', Ok (Some extras)) →
  listed ≡ₚ map_to_list extras → for_each add_extra ∅ listed = Ok normalized →
  service_tar archive normalized = (entries, Ok ()) →
  ∀ f, f ∈ encFiles →
    ∃ p, normalizeBundleExtraPath (JoinPath [dir; RuntimeFilePath f]) = Ok p ∧
    (∃ g text, g ∈ encFiles ∧ normalizeBundleExtraPath (JoinPath [dir; RuntimeFilePath g]) = Ok p ∧
       rendered secrets revision dir encFiles w g text ∧
       ∀ h, h ∈ entries ∧ tar_Name h = p ↔ h = MkTarHeader p TypeReg 384 (Ok text)) ∧
    (∀ h, h ∈ entries → regular h → IsEncryptedFilePath (tar_Name h) = true → p = RuntimeFilePath (tar_Name h) →
       h ∈ extra_entries normalized).
Proof.
  intros Hs Hr Hperm Hx (-> & Hw & _ & _ & _)%service_tar_Ok f Hf. rewrite Forall_forall in Hw.
  destruct (renderServiceSecrets_Ok _ _ _ _ _ _ _ Hs Hr) as [Hin Hout].
  destruct (Hin f Hf) as [v Hv].
  assert (Hlisted : (JoinPath [dir; RuntimeFilePath f], v) ∈ listed) by (rewrite Hperm; by apply elem_of_map_to_list).
  destruct (add_extras_names _ _ _ _ _ Hx Hlisted) as [p Hp].
  destruct (proj2 (add_extras_Ok _ _ _ p Hx)) as [text Ht]; [right; by exists (JoinPath [dir; RuntimeFilePath f]), v|].
  exists p. split; [done|]. split.
  - destruct (add_extras_text _ _ _ _ _ Hx Ht) as [Hno|(k & Hk & Hnorm)]; [by rewrite lookup_empty in Hno|].
    rewrite Hperm, elem_of_map_to_list in Hk. destruct (Hout _ _ Hk) as (g & Hg & -> & Hrendered).
    exists g, text. split_and!; [done..|]. intros h. split.
    + intros [[Hh|Hh]%elem_of_app Hname].
      * destruct (Hw _ Hh) as (Hi & _). unfold injected in Hi. rewrite Hname, Ht in Hi. by rewrite bool_decide_eq_true_2 in Hi.
      * apply extra_entries_spec in Hh as (name & text' & Hl & ->). cbn in Hname. rewrite Hname, Ht in Hl.
        injection Hl as <-. by rewrite Hname.
    + intros ->. split; [|done]. apply elem_of_app. right. apply extra_entries_spec. by exists p, text.
  - intros h [Hh|Hh]%elem_of_app Hreg Henc Heq; [|done]. exfalso.
    apply list_elem_of_filter in Hh as [Hnot Hh]. unfold replaced_entry, injected in Hnot.
    rewrite Henc, <-Heq, Ht, (bool_decide_eq_true_2 (_ = TypeReg)) in Hnot by done.
    by rewrite bool_decide_eq_true_2 in Hnot.
Qed.
End server.

(** ** The runtime of a backup and of a restore *)
(** A selected, declared item with a backup, as the agent runs it. *)
Definition runtime_item (serviceName : string) (data : DataProtectItem) (action : DataActionConfig) : RuntimeItem :=
  MkRuntimeItem (dp_Name data) (act_Strategy action) (act_Service action) (act_User action) (act_Include action)
    backupProviderRustic ["composia-service:" +:+ serviceName; "composia-data:" +:+ dp_Name data].
Definition selected_backups (selected : list string) (declared : list DataProtectItem)
    : list (DataProtectItem * DataActionConfig) :=
  omap (λ data, if decide (dp_Name data ∈ selected) then (data,.) <$> dp_Backup data else None) declared.

Lemma backup_items_Ok serviceName meta selected items declared items' :
  for_each (protected_item serviceName meta selected) items declared = Ok items' ↔
  items' = items ++ ((λ s, runtime_item serviceName s.1 s.2) <$> selected_backups selected declared) ∧
  (∀ s, s ∈ selected_backups selected declared → backup_provider meta (dp_Name s.1) = backupProviderRustic).
Proof.
  unfold selected_backups. revert items. induction declared as [|data declared IH]; intros items; cbn [for_each omap list_omap].
  { cbn. rewrite (right_id_L [] (++)). split; [intros [= <-]; split; [done|by intros ? ?%elem_of_nil]|by intros [-> _]]. }
  unfold protected_item at 1. destruct (dp_Backup data) as [action|] eqn:Hb; cbn [fmap option_fmap option_map];
    [destruct (decide (dp_Name data ∈ selected)) as [Hs|Hs]|]; cbn [result_bind].
  - cbv zeta. destruct (decide (backup_provider meta (dp_Name data) ≠ backupProviderRustic)) as [Hp|Hp]; cbn [result_bind].
    + split; [done|]. intros [_ Hall]. destruct (Hp (Hall (data, action) (list_elem_of_here _ _))).
    + apply dec_stable in Hp. rewrite IH, <-(assoc_L (++)), Hp. cbn [app]. setoid_rewrite elem_of_cons. unfold runtime_item. naive_solver.
  - apply IH.
  - destruct (decide (dp_Name data ∈ selected)); apply IH.
Qed.

(** The artifact an item is restored from: the last complete one requested. *)
Definition complete_item (name : string) (item : restoreTaskItem) : Prop :=
  ri_DataName item = name ∧ ri_DataName item ≠ "" ∧ ri_ArtifactRef item ≠ "".
#[export] Instance complete_item_dec name item : Decision (complete_item name item).
Proof. unfold complete_item. apply _. Defined.
Definition requested_artifact (items : list restoreTaskItem) (name : string) : option string :=
  last (ri_ArtifactRef <$> filter (complete_item name) items).
Lemma artifactsByName_lookup items name : artifactsByName items !! name = requested_artifact items name.
Proof.
  unfold artifactsByName, requested_artifact. induction items as [|item items IH] using rev_ind; [done|].
  rewrite foldl_app, filter_app, fmap_app. cbn [foldl]. destruct (decide (ri_DataName item = "" ∨ ri_ArtifactRef item = "")) as [Hbad|Hok].
  - rewrite (filter_cons_False (complete_item name)) by (unfold complete_item; tauto). by rewrite filter_nil, fmap_nil, (right_id_L [] (++)).
  - destruct (decide (ri_DataName item = name)) as [<-|Hn].
    + rewrite lookup_insert_eq, filter_cons_True by (unfold complete_item; tauto). cbn. by rewrite last_snoc.
    + rewrite lookup_insert_ne, (filter_cons_False (complete_item name)) by (unfold complete_item; tauto).
      by rewrite filter_nil, fmap_nil, (right_id_L [] (++)).
Qed.
Definition restored_item (artifactRef : string) (data : DataProtectItem) (action : DataActionConfig) : RestoreItem :=
  MkRestoreItem (dp_Name data) (act_Strategy action) (act_Service action) (act_User action) (act_Include action)
    backupProviderRustic artifactRef.
Definition selected_restores (items : list restoreTaskItem) (declared : list DataProtectItem) : list RestoreItem :=
  omap (λ data, artifactRef ← requested_artifact items (dp_Name data);
                action ← dp_Restore data; Some (restored_item artifactRef data action)) declared.
Lemma restore_items_spec requested items declared :
  foldl (requested_item (artifactsByName requested)) items declared = items ++ selected_restores requested declared.
Proof.
  unfold selected_restores. revert items. induction declared as [|data declared IH]; intros items.
  { cbn. by rewrite (right_id_L [] (++)). }
  cbn [foldl omap list_omap]. rewrite IH. unfold requested_item. rewrite artifactsByName_lookup.
  destruct (requested_artifact _ _) as [artifactRef|]; [|done]. cbn. destruct (dp_Restore data); [|done]. cbn.
  by rewrite <-(assoc_L (++)).
Qed.

Section runtime.
Context `{DnsState} `{GitState} `{!Environment} `{!GitCommand} `{!GitArchive}.
Context `{Disk} `{MetaDecoder} `{Cron} `{Libraries} `{Secrets} `{SQLite} `{ParamsJSON}.
Context `{AgentLibraries} `{!BundleLibraries}.
Context (cfg : ControllerConfig) (availableNodeIDs : gset string).
Implicit Types (w : World).

(** The rustic service of a node at a revision, and what its commands need. *)
Definition rustic_of_node (revision nodeID : string) (rustic : RusticConfig) : Prop :=
  ∃ w1 w2 service dir, FindRusticInfraServiceAtRevision_ cfg availableNodeIDs revision w1 = (w2, Ok service) ∧
    nodeID ∈ svc_TargetNodes service ∧ Rel (cc_RepoDir cfg) (svc_Directory service) = Ok dir ∧
    rustic = rustic_config service dir nodeID.
Definition service_at (revision dir : string) (service : Service) : Prop :=
  ∃ w1 w2, find_service_at cfg availableNodeIDs revision dir w1 = (w2, Ok service).

Lemma payload_services_Ok nodeID revision dir w w' service rustic :
  payload_services cfg availableNodeIDs nodeID revision dir w = (w', Ok (service, rustic)) →
  service_at revision dir service ∧ rustic_of_node revision nodeID rustic.
Proof.
  unfold payload_services. destruct (decide _); intros Hm; succeeded. simplify_eq. split; [by eexists _, _|].
  do 4 eexists. split_and!; [done| |done|done].
  match goal with H : validateRusticServiceTargetNode _ _ = _ |- _ => unfold validateRusticServiceTargetNode in H; by case_decide end.
Qed.

End runtime.
