(* ===== verification/BundleInstall.v ===== *)
(** * From the controller to the disk of the agent

    An agent that installs a bundle of the controller passes the check against
    the manifest of the same stream.  The programs of AgentBundles.v run on
    the files of a host without symbolic links: every operation does what
    Linux does, or fails for no visible reason. *)
From S2P Require Import AgentExample MigrateTheorems StoreExamples Config.
From stdpp Require Import pretty.
From S2P Require Export RepoFilesTheorems ServiceBundleTheorems.

(** ** Absolute paths *)
Definition abs (names : list string) : string := "/" +:+ Join names "/".

Lemma Split_sep_app a b c : Split (a +:+ String c b) c = Split a c ++ Split b c.
Proof.
  induction a as [|d a IH].
  - change ("" +:+ String c b) with (String c b). cbn. by rewrite decide_True.
  - change (String d a +:+ String c b) with (String d (a +:+ String c b)). cbn. rewrite IH.
    destruct (decide (d = c)); [done|]. by destruct (Split a c) eqn:Ha; [by apply Split_not_nil in Ha|].
Qed.
Lemma IsAbs_abs names : IsAbs (abs names) = true.
Proof. apply HasPrefix_spec. by eexists. Qed.
Lemma clean_rooted names kept :
  Forall normal names → foldl (clean_step true) kept names = reverse names ++ kept.
Proof.
  intros Hf. revert kept. induction Hf as [|e names (? & ? & ? & ?) _ IH]; intros kept; [done|].
  cbn [foldl]. unfold clean_step at 2. rewrite decide_False by naive_solver.
  rewrite decide_False by done. rewrite IH, reverse_cons, <-(assoc_L (++)). done.
Qed.
Lemma clean_elements_abs names : Forall normal names → clean_elements (abs names) = names.
Proof.
  intros Hf. unfold clean_elements. rewrite IsAbs_abs. unfold abs.
  change (Split ("/" +:+ Join names "/") sep) with ("" :: Split (Join names "/") sep). cbn [foldl].
  unfold clean_step at 2. rewrite decide_True by auto. destruct (decide (names = [])) as [->|Hne]; [done|].
  rewrite Split_normal, clean_rooted by done. by rewrite (right_id_L [] (++)), reverse_involutive.
Qed.
Lemma Clean_abs p : IsAbs p = true → Clean p = abs (clean_elements p) ∧ Forall normal (clean_elements p).
Proof.
  intros Ha. unfold Clean. rewrite decide_False by (by intros ->). rewrite Ha. split; [done|].
  destruct (clean_elements_shape p) as (n & names & -> & Hf & ->); [done|]. done.
Qed.
Lemma Clean_abs_names names : Forall normal names → Clean (abs names) = abs names.
Proof. intros Hf. destruct (Clean_abs (abs names)) as [-> _]; [apply IsAbs_abs|]. by rewrite clean_elements_abs. Qed.

(** A path below an absolute one. *)
Lemma clean_elements_below p names :
  IsAbs p = true → Forall normal names → names ≠ [] →
  clean_elements (p +:+ "/" +:+ Join names "/") = clean_elements p ++ names.
Proof.
  intros Ha Hf Hne. unfold clean_elements. unfold IsAbs in *. rewrite HasPrefix_app, Ha by done.
  change ("/" +:+ Join names "/") with (String sep (Join names "/")). rewrite Split_sep_app, Split_normal, foldl_app by done.
  by rewrite clean_rooted, reverse_app, reverse_involutive.
Qed.
Lemma JoinPath_abs p names :
  IsAbs p = true → Forall normal names → names ≠ [] →
  JoinPath [p; Join names "/"] = abs (clean_elements p ++ names).
Proof.
  intros Ha Hf Hne. unfold JoinPath. destruct (Join_normal_not names Hne Hf) as (H1 & _).
  rewrite !filter_cons_True by (done || by intros ->). rewrite filter_nil. rewrite Join_cons by done. cbn [Join].
  destruct (Clean_abs (p +:+ "/" +:+ Join names "/")) as [-> _]; [unfold IsAbs in *; by apply HasPrefix_app|].
  by rewrite clean_elements_below.
Qed.
Lemma Dir_abs names e : Forall normal (names ++ [e]) → Dir (abs (names ++ [e])) = abs names.
Proof.
  intros [Hf He]%Forall_app. assert (no_sep sep e) as Hno by (by rewrite Forall_singleton in He; destruct He as (_ & _ & _ & ?)).
  unfold Dir, abs. destruct (decide (names = [])) as [->|Hne].
  - change ("/" +:+ Join ([] ++ [e]) "/") with ("" +:+ String sep e). by rewrite LastIndex_last.
  - rewrite Join_snoc by done. rewrite <-GoStrings.app_assoc. rewrite LastIndex_last by done.
    assert (Htake : take_bytes (S (String.length ("/" +:+ Join names "/"))) (("/" +:+ Join names "/") +:+ String sep e) =
      ("/" +:+ Join names "/") +:+ "/").
    { replace (("/" +:+ Join names "/") +:+ String sep e) with ((("/" +:+ Join names "/") +:+ "/") +:+ e)
        by (by rewrite (GoStrings.app_assoc _ "/" e)).
      replace (S (String.length ("/" +:+ Join names "/"))) with (String.length (("/" +:+ Join names "/") +:+ "/"))
        by (rewrite (length_app_bytes _ "/"); cbn; lia).
      apply take_bytes_app. }
    rewrite Htake. destruct (Clean_abs (("/" +:+ Join names "/") +:+ "/")) as [-> _]; [apply HasPrefix_spec; by eexists|].
    f_equal. unfold clean_elements. replace (IsAbs (("/" +:+ Join names "/") +:+ "/")) with true by (symmetry; apply HasPrefix_spec; by eexists).
    change (("/" +:+ Join names "/") +:+ "/") with ((String sep (Join names "/")) +:+ String sep "").
    rewrite Split_sep_app. change (String sep (Join names "/")) with ("" +:+ String sep (Join names "/")).
    rewrite Split_sep_app, Split_normal by done. cbn [Split app]. cbn [foldl]. unfold clean_step at 2. rewrite decide_True by auto.
    rewrite foldl_app, (clean_rooted names) by done. cbn [foldl]. unfold clean_step. rewrite decide_True by auto.
    by rewrite (right_id_L [] (++)), reverse_involutive.
Qed.
Lemma abs_suffix names e s : abs (names ++ [e]) +:+ s = abs (names ++ [e +:+ s]).
Proof.
  unfold abs. rewrite GoStrings.app_assoc. f_equal. destruct (decide (names = [])) as [->|Hne]; [done|].
  rewrite !Join_snoc by done. by rewrite GoStrings.app_assoc.
Qed.

(** ** The host *)
Inductive HostNode := HostDir | HostFile (perm : Z) (text : string).
#[export] Instance HostNode_eq_dec : EqDecision HostNode.
Proof. solve_decision. Defined.
(** The directory "/" is not listed. *)
Abbreviation Host := (gmap (list string) HostNode).
Implicit Types (h : Host).

Definition node_at h (path : list string) : option HostNode :=
  if decide (path = []) then Some HostDir else h !! path.
Definition is_host_file (node : option HostNode) : bool :=
  match node with Some (HostFile _ _) => true | _ => false end.
(** [stat(2)] of a path below an open directory: below a file it fails. *)
Definition stat_at h (path names : list string) : result StatError HostNode :=
  match node_at h (path ++ names) with
  | Some node => Ok node
  | None => if existsb (λ n, is_host_file (node_at h (path ++ take n names))) (seq 1 (length names - 1))
            then Err StatFailed else Err NotExist
  end.
Definition stat_host h (path : list string) : result StatError HostNode := stat_at h [] path.
Definition info_of (node : HostNode) : FileInfo :=
  match node with
  | HostDir => MkFileInfo Directory 488 false
  | HostFile perm _ => MkFileInfo RegularFile perm false
  end.
Definition root_of h (path : list string) : Root := λ name,
  match stat_at h path (Split name sep) with
  | Err e => Err e
  | Ok node => Ok (MkRootEntry (info_of node)
                     match node with HostDir => Err "is a directory" | HostFile _ text => Ok text end)
  end.

Fixpoint make_dirs h (dir rest : list string) : option Host :=
  match rest with
  | [] => Some h
  | name :: rest =>
      match node_at h (dir ++ [name]) with
      | Some (HostFile _ _) => None
      | Some HostDir => make_dirs h (dir ++ [name]) rest
      | None => make_dirs (<[dir ++ [name] := HostDir]> h) (dir ++ [name]) rest
      end
  end.
(** [open(2)] with O_CREATE and O_TRUNC, and [os.WriteFile]. *)
Definition create_file (umask : Z) h (path : list string) (mode : Z) : option Host :=
  match node_at h (removelast path), node_at h path with
  | Some HostDir, None => Some (<[path := HostFile (Z.land (Z.land mode 511) (Z.lnot umask)) ""]> h)
  | Some HostDir, Some (HostFile perm _) => Some (<[path := HostFile perm ""]> h)
  | _, _ => None
  end.
Definition write_file (umask : Z) h (path : list string) (text : string) : option Host :=
  match create_file umask h path 384 with
  | Some h' => match h' !! path with
               | Some (HostFile perm _) => Some (<[path := HostFile perm text]> h')
               | _ => None
               end
  | None => None
  end.
(** [rename(2)]: the old name is there, the new one is free, or a file for a
    file, or an empty directory for a directory. *)
Definition rename_host h (from to : list string) : option Host :=
  let moved := graft to (subtree h from) (RemoveAll (RemoveAll h from) to) in
  if decide (from `prefix_of` to) then None
  else match h !! from, h !! to with
  | Some _, None => Some moved
  | Some (HostFile _ _), Some (HostFile _ _) => Some moved
  | Some HostDir, Some HostDir => if decide (delete [] (subtree h to) = ∅) then Some moved else None
  | _, _ => None
  end.

(** [os.MkdirTemp] and [os.CreateTemp]: the last star of the pattern. *)
Definition temp_name (pattern random : string) : string :=
  match LastIndex pattern "*" with
  | Some i => take_bytes i pattern +:+ random +:+ drop_bytes (S i) pattern
  | None => pattern +:+ random
  end.
Definition make_temp h (dir pattern random : string) (node : HostNode) : option (string * Host) :=
  let name := temp_name pattern random in
  let path := clean_elements dir ++ [name] in
  if decide (normal name ∧ node_at h (clean_elements dir) = Some HostDir ∧ subtree h path = ∅)
  then Some (JoinPath [dir; name], <[path := node]> h) else None.

(** Whether the n-th operation fails without a visible reason, the random part
    of its name, and what the controller answers. *)
Section host.
Context `{StateJSON}.
Record HostRun := MkHostRun {
  hr_fails : nat → bool;
  hr_random : nat → string;
  hr_umask : Z;
  hr_runtime : option persistedTaskExecution;
  hr_answer : ∀ r : Request, result ConnectError (response r);
}.
Context (run_of : HostRun).

Definition may (n : nat) h (done : option Host) : option (bool * Host) :=
  if hr_fails run_of n then Some (false, h)
  else match done with Some h' => Some (true, h') | None => Some (false, h) end.
Definition may_temp (n : nat) h (done : option (string * Host)) : option (option string * Host) :=
  if hr_fails run_of n then Some (None, h)
  else match done with Some (path, h') => Some (Some path, h') | None => Some (None, h) end.

(** The operations of an installation; the others have no result here. *)
Definition host_op {X} (o : Op X) (n : nat) h : option (X * Host) :=
  match o in Op X return option (X * Host) with
  | GetRuntime => Some (hr_runtime run_of, h)
  | Call r => Some (hr_answer run_of r, h)
  | StatFile path => Some (if hr_fails run_of n then Err StatFailed
                           else match stat_host h (clean_elements path) with
                                | Ok node => Ok (info_of node)
                                | Err e => Err e
                                end, h)
  | WriteFile_ path text => may n h (write_file (hr_umask run_of) h (clean_elements path) text)
  | CreateEmpty path mode => may n h (create_file (hr_umask run_of) h (clean_elements path) mode)
  | ChangeMode path mode => may n h (match node_at h (clean_elements path) with
                                     | Some HostDir => Some h
                                     | Some (HostFile _ text) => Some (<[clean_elements path := HostFile (Z.land mode 511) text]> h)
                                     | None => None
                                     end)
  | RemoveFile path => Some (if hr_fails run_of n then (Err StatFailed, h)
                             else match stat_host h (clean_elements path) with
                                  | Ok (HostFile _ _) => (Ok (), delete (clean_elements path) h)
                                  | Ok HostDir => (Err StatFailed, h)
                                  | Err e => (Err e, h)
                                  end)
  | RemoveTree path => may n h (Some (RemoveAll h (clean_elements path)))
  | MakeDirs path => may n h (make_dirs h [] (clean_elements path))
  | MakeTempDir dir pattern => may_temp n h (make_temp h dir pattern (hr_random run_of n) HostDir)
  | MakeTempFile dir pattern => may_temp n h (make_temp h dir pattern (hr_random run_of n) (HostFile 384 ""))
  | RenamePath from to => may n h (rename_host h (clean_elements from) (clean_elements to))
  | SecureJoinPath root name => Some (if hr_fails run_of n then None else Some (JoinPath [root; name]), h)
  | OpenRoot path => Some (if hr_fails run_of n then Err StatFailed
                           else match stat_host h (clean_elements path) with
                                | Ok HostDir => Ok (root_of h (clean_elements path))
                                | Ok _ => Err StatFailed
                                | Err e => Err e
                                end, h)
  | _ => None
  end.

Fixpoint run {A} (p : Prog A) (s : nat * Host) : option (A * (nat * Host)) :=
  match p with
  | Ret a => Some (a, s)
  | Do o k => match host_op o s.1 s.2 with
              | Some (x, h) => run (k x) (S s.1, h)
              | None => None
              end
  end.

Lemma run_bind {A B} (p : Prog A) (f : A → Prog B) s r :
  run (prog_bind p f) s = Some r ↔ ∃ a s1, run p s = Some (a, s1) ∧ run (f a) s1 = Some r.
Proof.
  revert s. induction p as [a|X o k IH]; intros s; cbn.
  - naive_solver.
  - destruct (host_op o s.1 s.2) as [[x h]|]; [apply IH|naive_solver].
Qed.
Lemma run_go_bind {A B} (p : Go A) (f : A → Go B) s b s' :
  run (go_bind p f) s = Some (Ok b, s') ↔ ∃ a s1, run p s = Some (Ok a, s1) ∧ run (f a) s1 = Some (Ok b, s').
Proof.
  unfold go_bind. rewrite run_bind. split.
  - intros ([a|e] & s1 & Hp & Hf); [by exists a, s1|done].
  - intros (a & s1 & Hp & Hf). by exists (Ok a), s1.
Qed.
Lemma run_op {X} (o : Op X) s x s' : run (op o) s = Some (x, s') ↔ ∃ h, host_op o s.1 s.2 = Some (x, h) ∧ s' = (S s.1, h).
Proof. cbn. destruct (host_op o s.1 s.2) as [[]|]; naive_solver. Qed.
Lemma run_must o message s u s' :
  run (must o message) s = Some (Ok u, s') ↔ ∃ h, host_op o s.1 s.2 = Some (true, h) ∧ s' = (S s.1, h).
Proof. destruct u. cbn. destruct (host_op o s.1 s.2) as [[[] ]|]; cbn; naive_solver. Qed.
Lemma may_Ok n h done h' : may n h done = Some (true, h') → done = Some h'.
Proof. unfold may. destruct (hr_fails run_of n), done; naive_solver. Qed.
Lemma may_temp_Ok n h done path h' : may_temp n h done = Some (Some path, h') → done = Some (path, h').
Proof. unfold may_temp. destruct (hr_fails run_of n), done as [[]|]; naive_solver. Qed.
End host.

(** ** What the operations leave *)
Lemma make_dirs_files h dir rest h' q perm text :
  make_dirs h dir rest = Some h' → h' !! q = Some (HostFile perm text) ↔ h !! q = Some (HostFile perm text).
Proof.
  revert h dir. induction rest as [|name rest IH]; intros h dir; cbn; [by intros [= ->]|].
  destruct (node_at h (dir ++ [name])) as [[|]|] eqn:Hn; [apply IH|done|]. intros ->%IH.
  unfold node_at in Hn. rewrite decide_False in Hn by (by destruct dir).
  destruct (decide (dir ++ [name] = q)) as [<-|Hne]; [rewrite lookup_insert_eq, Hn; naive_solver|by rewrite lookup_insert_ne].
Qed.
Lemma make_dirs_dirs h dir rest h' q :
  make_dirs h dir rest = Some h' → h' !! q = Some HostDir → h !! q = Some HostDir ∨ q `prefix_of` dir ++ rest.
Proof.
  revert h dir. induction rest as [|name rest IH]; intros h dir; cbn; [intros [= ->]; by left|].
  replace (dir ++ name :: rest) with ((dir ++ [name]) ++ rest) by (by rewrite <-(assoc_L (++))).
  destruct (node_at h (dir ++ [name])) as [[|]|] eqn:Hn; [apply IH|done|].
  intros Hm Hq. destruct (IH _ _ Hm Hq) as [Hi|]; [|by right].
  destruct (decide (dir ++ [name] = q)) as [<-|Hne]; [right; by exists rest|]. left. by rewrite lookup_insert_ne in Hi.
Qed.
Lemma make_dirs_there h dir rest h' :
  make_dirs h dir rest = Some h' → node_at h dir = Some HostDir → node_at h' (dir ++ rest) = Some HostDir.
Proof.
  revert h dir. induction rest as [|name rest IH]; intros h dir; cbn; [intros [= ->]; by rewrite (right_id_L [] (++))|].
  replace (dir ++ name :: rest) with ((dir ++ [name]) ++ rest) by (by rewrite <-(assoc_L (++))).
  destruct (node_at h (dir ++ [name])) as [[|]|] eqn:Hn; [|done|]; intros Hm _; apply (IH _ _ Hm); [exact Hn|].
  unfold node_at. rewrite decide_False by (by destruct dir). by rewrite lookup_insert_eq.
Qed.

Section install.
Context `{StateJSON} `{PathResolver} `{AgentLibraries} `{MetaDecoder} `{Semver} `{TagLibraries}.
Context (run_of : HostRun).
Implicit Types (s : nat * Host).
Local Abbreviation run := (run run_of).
Local Abbreviation umask := (hr_umask run_of).

(** *** Extraction *)
Definition file_perm (mode : Z) : Z := Z.land (Z.land mode 511) (Z.lnot umask).
Definition expands (header : TarHeader) (names : list string) (perm : Z) (text : string) : Prop :=
  regular header ∧ tar_Name header = Join names "/" ∧ names ≠ [] ∧ Forall normal names ∧
  perm = file_perm (tar_Mode header) ∧ tar_Content header = Ok text.
Record extracted (stage : list string) (headers : list TarHeader) (h : Host) : Prop := {
  ex_files : ∀ names perm text, h !! (stage ++ names) = Some (HostFile perm text) ↔
    ∃ header, header ∈ headers ∧ expands header names perm text;
  ex_dirs : ∀ names, h !! (stage ++ names) = Some HostDir → names = [] ∨
    ∃ header below, header ∈ headers ∧ Forall normal below ∧ Clean (tar_Name header) = Join below "/" ∧
      names `prefix_of` below;
}.

Lemma tarEntryTargetPath_run stage name s target s' :
  Forall normal stage → run (tarEntryTargetPath (abs stage) name) s = Some (Ok target, s') →
  s'.2 = s.2 ∧ ∃ names, Forall normal names ∧ target = abs (stage ++ names) ∧
    (names = [] ∧ Clean name = "." ∨ names ≠ [] ∧ Clean name = Join names "/").
Proof.
  intros Hst. unfold tarEntryTargetPath. cbv zeta. destruct (IsAbs (Clean name)) eqn:Ha; [done|].
  destruct (decide (Clean name = ".")) as [Hd|Hd].
  { intros [= <- <-]. split; [done|]. exists []. rewrite (right_id_L [] (++)), Clean_abs_names by done. split_and!; [done..|by left]. }
  destruct (relative_escapes (Clean name)) eqn:He; [done|].
  intros (joined & s1 & Hop & Hrest)%run_bind. apply run_op in Hop as (h & Hh & ->). cbn in Hh.
  injection Hh as <- <-. destruct (hr_fails run_of s.1); [done|].
  assert (below_root (Clean name)) as (names & Hne & Hf & Hc) by (by apply Clean_safe).
  rewrite Hc, Clean_abs_names, JoinPath_abs, clean_elements_abs in Hrest by (done || apply IsAbs_abs).
  destruct (negb _ && _); [done|]. injection Hrest as <- <-. split; [done|]. exists names. split_and!; [done..|by right].
Qed.

(** Directories made below the stage for an entry. *)
Lemma extracted_dirs stage headers h names h' header below :
  extracted stage headers h → make_dirs h [] (stage ++ names) = Some h' → names `prefix_of` below →
  Forall normal below → (names = [] ∨ Clean (tar_Name header) = Join below "/") →
  (∀ q, q ≠ [] → h' !! (stage ++ q) = Some HostDir →
     ∃ header' below', header' ∈ headers ++ [header] ∧ Forall normal below' ∧ Clean (tar_Name header') = Join below' "/" ∧
       q `prefix_of` below').
Proof.
  intros [Hfiles Hdirs] Hmk Hpre Hbelow Hname q Hq Hd.
  destruct (make_dirs_dirs _ _ _ _ _ Hmk Hd) as [Hold|Hnew].
  - destruct (Hdirs _ Hold) as [->|(hd & b & ? & ? & ? & ?)]; [done|]. exists hd, b. split_and!; [apply elem_of_app; by left|done..].
  - cbn in Hnew. apply prefix_app_inv in Hnew. destruct Hname as [->|Hname].
    + apply prefix_nil_inv in Hnew. done.
    + exists header, below. split_and!; [apply elem_of_app; right; by left|done|done|]. by etrans.
Qed.

Lemma expands_snoc headers header names perm text :
  (∃ hd, hd ∈ headers ++ [header] ∧ expands hd names perm text) ↔
  (∃ hd, hd ∈ headers ∧ expands hd names perm text) ∨ expands header names perm text.
Proof. setoid_rewrite elem_of_app. setoid_rewrite list_elem_of_singleton. naive_solver. Qed.
(** A file is put under a name no file has. *)
Lemma create_write_run h path mode text h1 h2 :
  create_file umask h path mode = Some h1 → write_file umask h1 path text = Some h2 →
  (∀ perm t, h !! path ≠ Some (HostFile perm t)) → path ≠ [] →
  h2 = <[path := HostFile (file_perm mode) text]> h.
Proof.
  unfold create_file, write_file. intros Hc Hw Hno Hne.
  assert (node_at h path = h !! path) as Hat by (unfold node_at; by rewrite decide_False).
  assert (h1 = <[path := HostFile (file_perm mode) ""]> h) as ->.
  { destruct (node_at h (removelast path)) as [[|]|]; [|done|done]. rewrite Hat in Hc.
    destruct (h !! path) as [[|p t]|] eqn:Hp; [done|by destruct (Hno p t)|]. by injection Hc as <-. }
  unfold create_file in Hw. destruct (node_at _ (removelast path)) as [[|]|]; [|done|done].
  unfold node_at in Hw. rewrite decide_False, !lookup_insert_eq, !insert_insert_eq in Hw by done.
  by injection Hw as <-.
Qed.

Lemma extracted_unchanged stage headers header h :
  extracted stage headers h → ¬ regular header → extracted stage (headers ++ [header]) h.
Proof.
  intros [Hfiles Hdirs] Hno. split.
  - intros names perm text. rewrite expands_snoc, Hfiles. unfold expands. naive_solver.
  - intros names Hd. destruct (Hdirs _ Hd) as [?|(hd & below & ? & ?)]; [by left|]. right. exists hd, below.
    split; [apply elem_of_app; by left|done].
Qed.
Lemma extracted_directory stage headers header h names h' :
  extracted stage headers h → ¬ regular header → make_dirs h [] (stage ++ names) = Some h' → Forall normal names →
  (names = [] ∨ Clean (tar_Name header) = Join names "/") → extracted stage (headers ++ [header]) h'.
Proof.
  intros Hx Hno Hmk Hnames Hname. split.
  - intros ns perm text. rewrite (make_dirs_files _ _ _ _ _ _ _ Hmk), expands_snoc, (ex_files _ _ _ Hx). unfold expands. naive_solver.
  - intros ns Hd. destruct (decide (ns = [])); [by left|]. right.
    by eapply (extracted_dirs _ _ _ _ _ header names).
Qed.
(** The name of a file that is not yet extracted. *)
Definition fresh_file (headers : list TarHeader) (header : TarHeader) (names : list string) : Prop :=
  regular header ∧ tar_Name header = Join names "/" ∧ names ≠ [] ∧ Forall normal names ∧
  (tar_Name header ∉ file_names headers).
Lemma fresh_file_other stage headers header h names perm text :
  extracted stage headers h → fresh_file headers header names → h !! (stage ++ names) ≠ Some (HostFile perm text).
Proof.
  intros Hx (Hreg & Hname & _ & _ & Hfresh) (hd & Hin & Hr & Hn & _)%(ex_files _ _ _ Hx). destruct Hfresh.
  apply list_elem_of_fmap. exists hd. split; [by rewrite Hname, Hn|by apply list_elem_of_filter].
Qed.
Lemma extracted_file stage headers header h parent e h1 text :
  extracted stage headers h → fresh_file headers header (parent ++ [e]) → tar_Content header = Ok text →
  make_dirs h [] (stage ++ parent) = Some h1 →
  extracted stage (headers ++ [header]) (<[stage ++ parent ++ [e] := HostFile (file_perm (tar_Mode header)) text]> h1).
Proof.
  intros Hx Hfresh Hcontent Hmk. pose proof Hfresh as (Hreg & Hname & Hne & Hf & _). split.
  - intros ns perm t. rewrite expands_snoc. destruct (decide (ns = parent ++ [e])) as [->|Hd].
    + rewrite lookup_insert_eq. split.
      * intros [= <- <-]. right. by split_and!.
      * intros [Hold|(_ & _ & _ & _ & -> & Ht)]; [|congruence].
        by destruct (fresh_file_other _ _ _ _ _ perm t Hx Hfresh); apply (ex_files _ _ _ Hx).
    + rewrite lookup_insert_ne by (intros ?%(inj (stage ++.)); done).
      rewrite (make_dirs_files _ _ _ _ _ _ _ Hmk), (ex_files _ _ _ Hx). split; [by left|].
      intros [?|(_ & Hn' & Hne' & Hf' & _)]; [done|]. destruct Hd.
      by rewrite <-(Split_normal ns), <-Hn', Hname, Split_normal by done.
  - intros ns Hd. destruct (decide (ns = [])); [by left|]. right.
    rewrite lookup_insert_Some in Hd. destruct Hd as [[_ ?]|[_ Hd]]; [done|].
    eapply (extracted_dirs _ _ _ parent _ header (parent ++ [e])); [done|done|by exists [e]|done| |done|done].
    right. by rewrite Hname, Clean_below_root.
Qed.

(** The operations for a directory and for a file. *)
Lemma directory_run stage headers header names s s' :
  Forall normal (stage ++ names) → ¬ regular header → (names = [] ∨ Clean (tar_Name header) = Join names "/") →
  extracted stage headers s.2 →
  run (_ ←? must (MakeDirs (abs (stage ++ names))) "create tar directory";
       must (ChangeMode (abs (stage ++ names)) (tar_Mode header)) "chmod tar directory") s = Some (Ok (), s') →
  extracted stage (headers ++ [header]) s'.2.
Proof.
  intros Hfull Hno Hname Hx Hr. apply run_go_bind in Hr as (u & s2 & Hmk & Hch).
  apply run_must in Hmk as (h1 & Hmk & ->). cbn in Hmk. apply may_Ok in Hmk. rewrite clean_elements_abs in Hmk by done.
  apply run_must in Hch as (h2 & Hch & ->). cbn in Hch. apply may_Ok in Hch. rewrite clean_elements_abs in Hch by done.
  pose proof (make_dirs_there _ _ _ _ Hmk eq_refl) as Hthere. cbn [app] in Hthere. rewrite Hthere in Hch. injection Hch as <-.
  eapply extracted_directory; [done|done|exact Hmk|by apply Forall_app in Hfull as [_ ?]|done].
Qed.
Lemma file_run stage headers header parent e s s' :
  Forall normal stage → fresh_file headers header (parent ++ [e]) → extracted stage headers s.2 →
  run (_ ←? must (MakeDirs (Dir (abs (stage ++ parent ++ [e])))) "create parent directory";
       _ ←? must (CreateEmpty (abs (stage ++ parent ++ [e])) (tar_Mode header)) "create tar file";
       match tar_Content header with
       | Err e => err "write tar file"
       | Ok text => must (WriteFile_ (abs (stage ++ parent ++ [e])) text) "write tar file"
       end) s = Some (Ok (), s') →
  extracted stage (headers ++ [header]) s'.2.
Proof.
  intros Hst Hfresh Hx Hrest. pose proof Hfresh as (_ & _ & _ & Hf & _).
  assert (Hfull : Forall normal (stage ++ parent ++ [e])) by (by apply Forall_app).
  assert (Hparent : Forall normal (stage ++ parent)) by (apply Forall_app; split; [done|by apply Forall_app in Hf as [? _]]).
  apply run_go_bind in Hrest as (u & s2 & Hmk & Hrest). apply run_must in Hmk as (h1 & Hmk & ->). cbn in Hmk.
  apply may_Ok in Hmk. rewrite (assoc_L (++)), Dir_abs, clean_elements_abs in Hmk by (done || by rewrite <-(assoc_L (++))).
  apply run_go_bind in Hrest as (u2 & s2 & Hcr & Hrest). apply run_must in Hcr as (h2 & Hcr & ->). cbn in Hcr.
  apply may_Ok in Hcr. rewrite clean_elements_abs in Hcr by done.
  destruct (tar_Content header) as [text|] eqn:Hcontent; [|done].
  apply run_must in Hrest as (h3 & Hwr & ->). cbn in Hwr. apply may_Ok in Hwr. rewrite clean_elements_abs in Hwr by done.
  rewrite (create_write_run _ _ _ _ _ _ Hcr Hwr); [by eapply extracted_file| |by destruct stage, parent].
  intros perm t. rewrite (make_dirs_files _ _ _ _ _ _ _ Hmk). by eapply fresh_file_other.
Qed.

Lemma extract_entry_run stage header headers s s' :
  Forall normal stage →
  (regular header → below_root (tar_Name header) ∧ (tar_Name header ∉ file_names headers)) →
  extracted stage headers s.2 → run (extract_entry (abs stage) header) s = Some (Ok (), s') →
  extracted stage (headers ++ [header]) s'.2.
Proof.
  intros Hst Hreg Hx. unfold extract_entry. intros (target & s1 & Ht & Hrest)%run_go_bind.
  destruct (tarEntryTargetPath_run _ _ _ _ _ Hst Ht) as (Hs1 & names & Hnames & -> & Hname).
  rewrite <-Hs1 in Hx. clear Ht Hs1. assert (Hfull : Forall normal (stage ++ names)) by (by apply Forall_app).
  destruct (decide (tar_Typeflag header = TypeDir)) as [Hdir|Hndir].
  { eapply directory_run; [exact Hfull|unfold regular; by rewrite Hdir|tauto|exact Hx|exact Hrest]. }
  destruct (decide (tar_Typeflag header = TypeReg)) as [Hr|Hnr].
  - destruct (Hreg Hr) as [(ns0 & Hne0 & Hf0 & Hn0) Hfresh].
    assert (names = ns0) as ->.
    { rewrite Hn0, Clean_below_root in Hname by done. destruct (Join_normal_not ns0 Hne0 Hf0) as (_ & ? & _).
      destruct Hname as [[_ ?]|[? Hj]]; [done|]. by rewrite <-(Split_normal names), <-Hj, Split_normal by done. }
    destruct (@exists_last _ _ Hne0) as (parent & e & ->).
    eapply file_run; [exact Hst|by split_and!|exact Hx|exact Hrest].
  - destruct (decide _); [done|]. destruct (decide _); [|done]. injection Hrest as <-. by apply extracted_unchanged.
Qed.

Lemma extract_entries_run stage entries headers s s' :
  Forall normal stage → Forall below_root (file_names entries) → NoDup (file_names (headers ++ entries)) →
  extracted stage headers s.2 → run (go_each (extract_entry (abs stage)) entries) s = Some (Ok (), s') →
  extracted stage (headers ++ entries) s'.2.
Proof.
  intros Hst. revert headers s. induction entries as [|header entries IH]; intros headers s Hbelow Hnd Hx; cbn [go_each].
  { intros [= <-]. by rewrite (right_id_L [] (++)). }
  intros ([] & s1 & He & Hr)%run_go_bind. rewrite (cons_middle header), (assoc_L (++)) in Hnd |- *.
  assert (Hcons : file_names (header :: entries) = file_names [header] ++ file_names entries) by apply (file_names_app [header]).
  rewrite Hcons, Forall_app in Hbelow. destruct Hbelow as [Hb Hbelow].
  eapply IH; [done|done| |exact Hr]. eapply extract_entry_run; [done| |done|exact He].
  intros Hreg. unfold file_names in Hb. rewrite filter_cons_True in Hb by done. split; [by apply Forall_cons in Hb as [? _]|].
  rewrite file_names_app, file_names_app in Hnd. apply NoDup_app in Hnd as [(_ & Hd & _)%NoDup_app _].
  intros Hin. apply (Hd _ Hin). unfold file_names. rewrite filter_cons_True by done. by left.
Qed.

Lemma extractTarStream_run stage archive s s' :
  Forall normal stage → stage ≠ [] → Forall below_root (file_names archive.1) → NoDup (file_names archive.1) →
  subtree s.2 stage = {[ [] := HostDir ]} →
  run (extractTarStream archive (abs stage)) s = Some (Ok (), s') →
  extracted stage archive.1 s'.2.
Proof.
  intros Hst Hne Hbelow Hnd Hempty. unfold extractTarStream. intros ([] & s1 & Hmk & Hr)%run_go_bind.
  apply run_go_bind in Hr as ([] & s2 & Hex & Hend). destruct archive.2; [|done]. injection Hend as <-.
  apply run_must in Hmk as (h1 & Hmk & ->). cbn in Hmk. apply may_Ok in Hmk. rewrite clean_elements_abs in Hmk by done.
  eapply (extract_entries_run _ _ []); [done|done|done| |exact Hex]. cbn [snd].
  assert (Hat : ∀ ns node, s.2 !! (stage ++ ns) = Some node → ns = [] ∧ node = HostDir).
  { intros ns node. rewrite <-lookup_subtree, Hempty. rewrite lookup_singleton_Some. naive_solver. }
  split.
  - intros ns perm text. rewrite (make_dirs_files _ _ _ _ _ _ _ Hmk). split; [by intros [_ ?]%Hat|].
    by intros (? & ?%elem_of_nil & _).
  - intros ns Hd. left. destruct (make_dirs_dirs _ _ _ _ _ Hmk Hd) as [[? _]%Hat|Hpre]; [done|]. cbn in Hpre.
    rewrite <-(right_id_L [] (++) stage) in Hpre at 2. apply prefix_app_inv in Hpre. by apply prefix_nil_inv.
Qed.

(** *** Activation *)
(** Two names of one directory. *)
Lemma siblings_apart (parent ns : list string) (x y : string) : x ≠ y → ¬ (parent ++ [x]) `prefix_of` ((parent ++ [y]) ++ ns).
Proof.
  intros Hxy [k Hk]. rewrite <-!(assoc_L (++)) in Hk. apply (inj (parent ++.)) in Hk. cbn in Hk. by injection Hk.
Qed.
Lemma rename_host_lookup h from to h' q :
  rename_host h from to = Some h' →
  h' !! q = match strip_prefix to q with
            | Some r => h !! (from ++ r)
            | None => if decide (from `prefix_of` q) then None else h !! q
            end.
Proof.
  unfold rename_host. cbv zeta. destruct (decide (from `prefix_of` to)) as [|Hno]; [done|]. intros Hm.
  assert (h' = graft to (subtree h from) (RemoveAll (RemoveAll h from) to)) as ->.
  { destruct (h !! from) as [[|]|], (h !! to) as [[|]|]; try done; try (by injection Hm). destruct (decide _); [by injection Hm|done]. }
  rewrite lookup_graft. destruct (strip_prefix to q) as [r|] eqn:Hs.
  - apply strip_prefix_Some in Hs as ->. rewrite lookup_subtree. destruct (h !! (from ++ r)); [done|].
    rewrite lookup_RemoveAll, decide_True; [done|]. by exists r.
  - apply strip_prefix_None in Hs. rewrite !lookup_RemoveAll. by rewrite (decide_False (P := to `prefix_of` q)).
Qed.
Lemma rename_below h from to h' ns : rename_host h from to = Some h' → h' !! (to ++ ns) = h !! (from ++ ns).
Proof. intros Hr. rewrite (rename_host_lookup _ _ _ _ _ Hr). by rewrite (proj2 (strip_prefix_Some to (to ++ ns) ns) eq_refl). Qed.
Lemma rename_beside h from to h' q :
  rename_host h from to = Some h' → ¬ from `prefix_of` q → ¬ to `prefix_of` q → h' !! q = h !! q.
Proof.
  intros Hr Hf Ht. rewrite (rename_host_lookup _ _ _ _ _ Hr), (proj2 (strip_prefix_None to q)) by done.
  by rewrite decide_False.
Qed.
Lemma make_dirs_same_files h dir h' q :
  make_dirs h [] dir = Some h' → ¬ q `prefix_of` dir → h' !! q = h !! q.
Proof.
  intros Hm Hq. apply option_eq. intros node. destruct node as [|perm text]; [|by apply (make_dirs_files _ _ _ _ _ _ _ Hm)].
  split; [intros Hd; by destruct (make_dirs_dirs _ _ _ _ _ Hm Hd)|]. intros Hold.
  enough (∀ rest dir h, make_dirs h dir rest = Some h' → h !! q = Some HostDir → h' !! q = Some HostDir) as Hmono by by eapply Hmono.
  clear. induction rest as [|name rest IH]; intros dir h; cbn; [by intros [= ->]|].
  destruct (node_at h (dir ++ [name])) as [[|]|] eqn:Hn; [apply IH|done|]. intros Hm Hq. apply (IH _ _ Hm).
  destruct (decide (dir ++ [name] = q)) as [<-|]; [by rewrite lookup_insert_eq|by rewrite lookup_insert_ne].
Qed.

Lemma normal_bak x : normal x → normal (x +:+ ".bak").
Proof.
  intros (_ & _ & _ & Hno). assert (4 ≤ String.length (x +:+ ".bak")) by (rewrite length_app_bytes; cbn; lia).
  unfold normal. split_and!; [by destruct x|intros Heq; rewrite Heq in *; cbn in *; lia..|by apply no_sep_app].
Qed.
Lemma bak_other x : x +:+ ".bak" ≠ x.
Proof. intros Heq%(f_equal String.length). rewrite length_app_bytes in Heq. cbn in Heq. lia. Qed.

(** The step of [replaceDirectory] that moves an old directory away: what is
    beside the directory and its backup stays. *)
Lemma move_away_run parent x (existing : result StatError FileInfo) s hadExisting s' :
  Forall normal (parent ++ [x]) →
  run (match existing with
       | Ok _ => _ ←? must (RenamePath (abs (parent ++ [x])) (abs (parent ++ [x]) +:+ ".bak")) "move existing bundle to backup"; ok true
       | Err NotExist => ok false
       | Err StatFailed => err "stat existing bundle root"
       end) s = Some (Ok hadExisting, s') →
  ∀ y ns, y ≠ x → y ≠ x +:+ ".bak" → s'.2 !! ((parent ++ [y]) ++ ns) = s.2 !! ((parent ++ [y]) ++ ns).
Proof.
  intros Hf Hr y ns Hx Hbak. destruct existing as [info|[]]; [|by injection Hr as _ <-|done].
  apply run_go_bind in Hr as (u & s2 & Hmv & Hret). injection Hret as _ <-. apply run_must in Hmv as (h2 & Hmv & ->).
  cbn in Hmv. apply may_Ok in Hmv. rewrite abs_suffix, !clean_elements_abs in Hmv.
  - cbn [snd]. by apply (rename_beside _ _ _ _ _ Hmv); apply siblings_apart.
  - apply Forall_app in Hf as [? [? _]%Forall_cons]. apply Forall_app. split; [done|]. constructor; [by apply normal_bak|done].
  - done.
Qed.

Lemma replaceDirectory_run parent x y below s s' :
  Forall normal (parent ++ [x]) → Forall normal ((parent ++ [y]) ++ below) → y ≠ x → y ≠ x +:+ ".bak" →
  run (replaceDirectory (abs (parent ++ [x])) (abs ((parent ++ [y]) ++ below))) s = Some (Ok (), s') →
  ∀ ns, s'.2 !! ((parent ++ [x]) ++ ns) = s.2 !! ((parent ++ [y]) ++ below ++ ns).
Proof.
  intros Hf Hstaged Hx Hbak. unfold replaceDirectory. cbv zeta. intros (u1 & s1 & Hmk & Hr)%run_go_bind ns.
  apply run_go_bind in Hr as (u2 & s2 & Hrm & Hr). apply run_must in Hmk as (h1 & Hmk & ->). cbn in Hmk.
  apply may_Ok in Hmk. rewrite Dir_abs, clean_elements_abs in Hmk by (done || by apply Forall_app in Hf as [? _]).
  apply run_must in Hrm as (h2 & Hrm & ->). cbn in Hrm. apply may_Ok in Hrm.
  assert (Hbakf : Forall normal (parent ++ [x +:+ ".bak"])).
  { apply Forall_app in Hf as [? [? _]%Forall_cons]. apply Forall_app. split; [done|]. constructor; [by apply normal_bak|done]. }
  rewrite abs_suffix, clean_elements_abs in Hrm by done. injection Hrm as <-.
  apply run_bind in Hr as (existing & s3 & Hst & Hr). apply run_op in Hst as (h3 & Hst & ->). injection Hst as _ <-.
  apply run_go_bind in Hr as (had & s4 & Hmv & Hr).
  pose proof (move_away_run _ _ _ _ _ _ Hf Hmv y (below ++ ns) Hx Hbak) as Hsame. cbn [snd] in Hsame.
  rewrite lookup_RemoveAll, decide_False in Hsame by (by apply siblings_apart).
  rewrite (make_dirs_same_files _ _ _ _ Hmk) in Hsame.
  2:{ intros [k Hk]. apply (f_equal length) in Hk. rewrite !length_app in Hk. cbn in Hk. lia. }
  rewrite <-Hsame. apply run_bind in Hr as (activated & s5 & Hact & Hr). apply run_op in Hact as (h5 & Hact & ->).
  cbn in Hact. destruct activated; [|apply run_bind in Hr as (? & ? & _ & Hr); done].
  apply may_Ok in Hact. rewrite !clean_elements_abs in Hact by done.
  rewrite (assoc_L (++)), <-(rename_below _ _ _ _ ns Hact). destruct had; [|by injection Hr as <-].
  apply run_must in Hr as (h6 & Hrm & ->). cbn in Hrm. apply may_Ok in Hrm. injection Hrm as <-.
  rewrite abs_suffix, clean_elements_abs by done. cbn [snd]. rewrite lookup_RemoveAll, decide_False; [done|].
  apply siblings_apart, bak_other.
Qed.

(** What an installation leaves at the target: the files extracted. *)
Definition installed (target below : list string) (entries : list TarHeader) h : Prop :=
  ∃ stage h0, extracted stage entries h0 ∧ ∀ ns, h !! (target ++ ns) = h0 !! (stage ++ below ++ ns).

Lemma staged_bundle_run name parent x y below data entries s bundle s' :
  Forall normal (parent ++ [x]) → Forall normal ((parent ++ [y]) ++ below) → below ≠ [] → y ≠ x → y ≠ x +:+ ".bak" →
  read_archive data = (entries, Ok ()) → Forall below_root (file_names entries) → NoDup (file_names entries) →
  subtree s.2 (parent ++ [y]) = {[ [] := HostDir ]} →
  run (staged_bundle name (Join below "/") (abs (parent ++ [x])) (abs (parent ++ [y])) data) s = Some (Ok bundle, s') →
  bun_RootPath bundle = abs (parent ++ [x]) ∧ installed (parent ++ [x]) below entries s'.2.
Proof.
  intros Hf Hst Hne Hx Hbak Hread Hbelow Hnd Hempty. unfold staged_bundle. rewrite Hread. cbv zeta.
  intros ([] & s1 & Hex & Hr)%run_go_bind. pose proof (proj1 (Forall_app _ _ _) Hst) as [Hstage Hds].
  apply extractTarStream_run in Hex; [|done|by destruct parent|done|done|done]. cbn [fst] in Hex.
  rewrite JoinPath_abs, clean_elements_abs in Hr by (done || apply IsAbs_abs).
  apply run_bind in Hr as (found & s2 & Hfound & Hr). apply run_op in Hfound as (h2 & Hfound & ->). injection Hfound as _ <-.
  destruct found as [info|[]]; [|done|done]. apply run_go_bind in Hr as ([] & s3 & Hrep & Hr). injection Hr as <- <-.
  split; [done|]. exists (parent ++ [y]), s1.2. split; [done|]. intros ns.
  by rewrite (replaceDirectory_run _ _ _ _ _ _ Hf Hst Hx Hbak Hrep ns).
Qed.

Lemma make_temp_Ok h dir pattern random node path h' :
  make_temp h dir pattern random node = Some (path, h') →
  ∃ name, normal name ∧ path = JoinPath [dir; name] ∧ name = temp_name pattern random ∧
    subtree h (clean_elements dir ++ [name]) = ∅ ∧ h' = <[clean_elements dir ++ [name] := node]> h.
Proof.
  unfold make_temp. cbv zeta. destruct (decide _) as [(Hn & _ & Hempty)|]; [|done]. intros [= <- <-]. by eexists.
Qed.
Lemma subtree_fresh h path : subtree h path = ∅ → subtree (<[path := HostDir]> h) path = {[ [] := HostDir ]}.
Proof.
  intros Hempty. apply map_eq. intros ns. rewrite lookup_subtree. destruct (decide (ns = [])) as [->|Hne].
  - by rewrite (right_id_L [] (++)), lookup_insert_eq, lookup_singleton_eq.
  - rewrite lookup_insert_ne, lookup_singleton_ne by (done || (intros Heq; destruct Hne; by apply (f_equal (drop (length path))) in Heq;
      rewrite drop_all, drop_app_length in Heq)).
    by rewrite <-lookup_subtree, Hempty.
Qed.
Lemma installed_same target below entries h h' :
  (∀ ns, h' !! (target ++ ns) = h !! (target ++ ns)) → installed target below entries h → installed target below entries h'.
Proof. intros Hsame (stage & h0 & Hx & Hl). exists stage, h0. split; [done|]. intros ns. by rewrite Hsame. Qed.

Lemma downloadServiceBundle_run cfg taskID serviceDir parent x below entries messages s bundle s' :
  Forall normal (parent ++ [x]) → Forall normal below → below ≠ [] →
  (∀ random, temp_name ".bundle-stage-*" random ≠ x ∧ temp_name ".bundle-stage-*" random ≠ x +:+ ".bak") →
  IsAbs (ag_StateDir cfg) = true → (∀ name, ¬ (parent ++ [x]) `prefix_of` (clean_elements (ag_StateDir cfg) ++ [name])) →
  (∀ executionID, hr_answer run_of (GetServiceBundleRequest taskID serviceDir executionID) = Ok (messages, Ok ())) →
  first_text bm_RelativeRoot messages = Join below "/" → read_archive (bm_Data <$> messages) = (entries, Ok ()) →
  resolveRepoRelativePath (ag_RepoDir cfg) (Join below "/") = Ok (abs (parent ++ [x]), Join below "/") →
  Forall below_root (file_names entries) → NoDup (file_names entries) →
  run (downloadServiceBundle cfg taskID serviceDir) s = Some (Ok bundle, s') →
  bun_RootPath bundle = abs (parent ++ [x]) ∧ installed (parent ++ [x]) below entries s'.2.
Proof.
  intros Hf Hds Hne Hstage Habs Hstate Hanswer Hroot Hread Hresolve Hbelow Hnd.
  assert (Hparent : Forall normal parent) by (by apply Forall_app in Hf as [? _]).
  unfold downloadServiceBundle. intros (executionID & s1 & _ & Hr)%run_bind.
  apply run_go_bind in Hr as (stream & s2 & Hcall & Hr). apply run_op in Hcall as (h2 & Hcall & ->). cbn in Hcall.
  rewrite Hanswer in Hcall. injection Hcall as <- <-. cbn [fst snd] in Hr.
  apply run_bind in Hr as (temp & s3 & Htemp & Hr). apply run_op in Htemp as (h3 & Htemp & ->). cbn in Htemp.
  destruct temp as [tempPath|]; [|done]. apply may_temp_Ok, make_temp_Ok in Htemp as (tname & Htname & Htpath & _ & _ & _).
  assert (Htnames : clean_elements tempPath = clean_elements (ag_StateDir cfg) ++ [tname]).
  { rewrite Htpath. change tname with (Join [tname] "/"). rewrite JoinPath_abs, clean_elements_abs; try done.
    - apply Forall_app. split; [by apply Clean_abs|by constructor].
    - by constructor. }
  cbv zeta in Hr. apply run_bind in Hr as (result & s4 & Hbody & Hr).
  apply run_bind in Hr as (removed & s5 & Hrm & Hr). injection Hr as -> <-.
  apply run_op in Hrm as (h5 & Hrm & ->). cbn in Hrm. cbn [snd].
  apply run_go_bind in Hbody as (u & s6 & _ & Hbody). rewrite Hroot in Hbody.
  apply run_go_bind in Hbody as (u2 & s7 & Hend & Hbody). injection Hend as <- <-.
  destruct (Join_normal_not below Hne Hds) as (Hnonempty & _). rewrite decide_False in Hbody by done.
  rewrite Hresolve in Hbody. apply run_go_bind in Hbody as (pr & s8 & Hpr & Hbody). injection Hpr as <- <-.
  apply run_go_bind in Hbody as (u3 & s9 & _ & Hbody).
  apply run_bind in Hbody as (stage & s10 & Hmk & Hbody). apply run_op in Hmk as (h10 & Hmk & ->). cbn in Hmk.
  destruct stage as [stageDir|]; [|done]. apply may_temp_Ok, make_temp_Ok in Hmk as (y & Hy & Hpath & Hyname & Hempty & ->).
  rewrite Dir_abs in Hpath, Hempty, Hbody by done. rewrite clean_elements_abs in Hempty, Hbody by done.
  change y with (Join [y] "/") in Hpath. rewrite JoinPath_abs, clean_elements_abs in Hpath; [|done|apply IsAbs_abs|by constructor|done].
  apply run_bind in Hbody as (res & s11 & Hstaged & Hbody).
  apply run_bind in Hbody as (u4 & s12 & Hclean & Hbody). injection Hbody as -> <-.
  apply run_op in Hclean as (h12 & Hclean & ->). cbn in Hclean. cbn [snd] in *.
  destruct (Hstage (hr_random run_of s9.1)) as [Hx Hbak]. rewrite <-Hyname in Hx, Hbak.
  subst stageDir. assert (Forall normal (parent ++ [y])) as Hyf by (apply Forall_app; split; [done|by constructor]).
  apply (staged_bundle_run _ _ _ _ _ _ entries) in Hstaged as [Hb Hinst]; [|done|by apply Forall_app|done|done|done|done|done|done|].
  2:{ cbn [snd]. by apply subtree_fresh. }
  split; [done|]. eapply installed_same; [|exact Hinst]. intros ns.
  transitivity (h12 !! ((parent ++ [x]) ++ ns)).
  - destruct (hr_fails run_of _); [by injection Hrm as _ <-|].
    destruct (stat_host _ _) as [[|]|]; injection Hrm as _ <-; [done| |done]. rewrite Htnames, lookup_delete_ne; [done|].
    intros Heq. apply (Hstate tname). rewrite Heq. by exists ns.
  - unfold may in Hclean. rewrite clean_elements_abs in Hclean by done. destruct (hr_fails run_of _); injection Hclean as _ <-; [done|].
    rewrite lookup_RemoveAll, decide_False; [done|]. apply siblings_apart. done.
Qed.

(** *** The check *)
Definition content_of (header : TarHeader) : string := match tar_Content header with Ok text => text | Err _ => "" end.
Definition described (prefix : string) (header : TarHeader) : ServiceManifestFile :=
  MkServiceManifestFile (TrimPrefix (tar_Name header) prefix) (sha256_hex (content_of header)) (Z.land (tar_Mode header) 511).
Lemma manifest_entries_Ok prefix entries files files' :
  for_each (manifest_entry prefix) files entries = Ok files' →
  files' = files ++ (described prefix <$> filter regular entries) ∧
  ∀ header, header ∈ entries → regular header →
    HasPrefix (tar_Name header) prefix = true ∧ tar_Content header = Ok (content_of header).
Proof.
  revert files. induction entries as [|header entries IH]; intros files; cbn [for_each].
  { intros [= <-]. split; [by rewrite filter_nil, fmap_nil, (right_id_L [] (++))|by intros ? ?%elem_of_nil]. }
  intros (files1 & He & (-> & Hall)%IH)%result_bind_Ok. unfold manifest_entry in He.
  destruct (decide (tar_Typeflag header = TypeDir ∨ tar_Typeflag header = TypeXGlobalHeader)) as [Hskip|_].
  { injection He as <-. assert (¬ regular header) as Hno by (unfold regular; by destruct Hskip as [-> | ->]).
    rewrite filter_cons_False by done. split; [done|]. intros hd [->|?]%elem_of_cons; [done|by apply Hall]. }
  destruct (negb _ || negb _) eqn:Hbad; [done|]. apply orb_false_iff in Hbad as [Hreg Hpre].
  apply negb_false_iff, bool_decide_eq_true in Hreg. apply negb_false_iff in Hpre.
  apply result_bind_Ok in He as (text & Htext & [= <-]). rewrite filter_cons_True, fmap_cons by done.
  assert (tar_Content header = Ok (content_of header)) as Hc by (unfold content_of; by rewrite Htext).
  split; [|intros hd [->|?]%elem_of_cons; [done|by apply Hall]].
  rewrite <-(assoc_L (++)). unfold described at 2. by rewrite Htext in Hc; injection Hc as <-.
Qed.

(** The names of a file of the service, below its directory. *)
Lemma name_below below name :
  below ≠ [] → Forall normal below → below_root name → HasPrefix name (Join below "/" +:+ "/") = true →
  ∃ names, names ≠ [] ∧ Forall normal names ∧ name = Join (below ++ names) "/" ∧
    TrimPrefix name (Join below "/" +:+ "/") = Join names "/".
Proof.
  intros Hne Hf (all & Hall & Hn & ->) [rest Hrest]%HasPrefix_spec.
  assert (Hsplit : all = below ++ Split rest sep).
  { rewrite <-(Split_normal all), Hrest by done. rewrite GoStrings.app_assoc.
    change ("/" +:+ rest) with (String sep rest). by rewrite Split_sep_app, Split_normal. }
  exists (Split rest sep). rewrite <-Hsplit. rewrite Hsplit in Hn. apply Forall_app in Hn as [_ Hn].
  split_and!; [apply Split_not_nil|done|done|]. rewrite Hrest, TrimPrefix_app. symmetry. apply (Join_Split rest sep).
Qed.

(** A file created with a mode has no permission the mode does not grant, and
    the execution permission of its owner when the mask leaves it. *)
Lemma file_perm_fits mode text :
  Z.testbit umask 6 = false → mode_differs (info_of (HostFile (file_perm mode) text)) (Z.land mode 511) = false.
Proof.
  intros Hmask. unfold mode_differs, file_perm. cbn [info_of fi_Type fi_Special fi_Perm].
  rewrite bool_decide_eq_true_2 by done. cbn [negb orb].
  assert (Z.land (Z.land (Z.land mode 511) (Z.lnot umask)) (Z.lnot (Z.land mode 511)) = 0)%Z as ->.
  { apply Z.bits_inj'. intros n Hn. rewrite !Z.land_spec, !Z.lnot_spec, !Z.land_spec, Z.bits_0 by done.
    by destruct (Z.testbit mode n), (Z.testbit 511 n), (Z.testbit umask n). }
  assert (Z.land (Z.land (Z.land mode 511) (Z.lnot umask)) 64 = Z.land (Z.land mode 511) 64)%Z as ->.
  { apply Z.bits_inj'. intros n Hn. rewrite !Z.land_spec, !Z.lnot_spec by done.
    destruct (decide (n = 6%Z)) as [->|Hne]; [by rewrite Hmask, andb_true_r|].
    replace (Z.testbit 64 n) with false; [by rewrite !andb_false_r|]. symmetry. change 64%Z with (2 ^ 6)%Z.
    by rewrite Z.pow2_bits_false. }
  by rewrite !bool_decide_eq_false_2 by tauto.
Qed.

(** A file of an installed bundle, as the check sees it. *)
Lemma installed_file target below entries h header names text :
  target ≠ [] → installed target below entries h → header ∈ entries → regular header →
  tar_Name header = Join (below ++ names) "/" → names ≠ [] → Forall normal (below ++ names) →
  tar_Content header = Ok text →
  root_of h target (Join names "/") =
    Ok (MkRootEntry (info_of (HostFile (file_perm (tar_Mode header)) text)) (Ok text)).
Proof.
  intros Ht (stage & h0 & Hx & Hsame) Hin Hreg Hname Hne Hf Hc. unfold root_of, stat_at, node_at.
  rewrite Split_normal by (done || by apply Forall_app in Hf as [_ ?]). rewrite decide_False by (by destruct target).
  rewrite Hsame, (proj2 (ex_files _ _ _ Hx (below ++ names) (file_perm (tar_Mode header)) text)); [done|].
  exists header. split; [done|]. split_and!; try done. by destruct below.
Qed.
(** No file and no directory of a name the entries do not have. *)
Lemma installed_absent target below entries h name :
  target ≠ [] → installed target below entries h → normal name → Forall normal below →
  (∀ header names, header ∈ entries → Forall normal names →
     Clean (tar_Name header) ≠ Join (below ++ name :: names) "/") →
  root_of h target name = Err NotExist.
Proof.
  intros Ht (stage & h0 & Hx & Hsame) Hname Hf Hno. unfold root_of, stat_at, node_at.
  rewrite Split_word by (by destruct Hname as (_ & _ & _ & ?)). rewrite decide_False by (by destruct target). rewrite Hsame.
  destruct (h0 !! (stage ++ below ++ [name])) as [[|perm text]|] eqn:Hl; [exfalso..|done].
  - apply (ex_dirs _ _ _ Hx) in Hl as [Hl|(header & all & Hin & Hall & Hclean & [k ->])]; [by destruct below|].
    apply (Hno header k Hin); [by apply Forall_app in Hall as [_ ?]|]. by rewrite Hclean, <-(assoc_L (++)).
  - apply (ex_files _ _ _ Hx) in Hl as (header & Hin & Hreg & Hn & Hne & Hfn & _).
    apply (Hno header [] Hin); [done|]. by rewrite Hn, Clean_below_root.
Qed.

Context `{!BundleLibraries}.
(** What git guarantees of the archive of a tree, and the names the extras
    get. *)
Lemma stream_names archive extras listed entries :
  for_each add_extra ∅ listed = Ok extras → service_tar archive extras = (entries, Ok ()) →
  Forall below_root (file_names archive.1.1) → Forall below_root (file_names entries).
Proof.
  intros Hx (-> & _)%service_tar_Ok Hgit. rewrite file_names_app. apply Forall_app. split.
  - rewrite Forall_forall in *. intros name Hin. apply Hgit. eapply elem_of_sublist; [exact Hin|apply file_names_kept].
  - rewrite extra_names. apply Forall_forall. intros name Hin. unfold string_sort in Hin. rewrite merge_sort_Permutation in Hin.
    apply list_elem_of_fmap in Hin as ([k v] & -> & Hk%elem_of_map_to_list). cbn.
    destruct (proj1 (add_extras_Ok _ _ _ k Hx)) as [[? Hl]|(k' & v' & _ & Hnorm)]; [by eexists|by rewrite lookup_empty in Hl|].
    unfold normalizeBundleExtraPath in Hnorm. cbv zeta in Hnorm.
    set (c := Clean _) in Hnorm. destruct (decide (c = "" ∨ c = ".")) as [|Hd]; [done|].
    destruct (HasPrefix c "/" || escapes c) eqn:Hbad; [done|]. apply orb_false_iff in Hbad as [Ha He].
    injection Hnorm as <-. apply Clean_safe; [done|tauto|done].
Qed.

(** C31: what the controller sends is what it later describes.  When an agent
    installs the bundle of a service directory, in place of whatever it had,
    the installed files pass the check against the manifest of the same
    stream, encrypted files and permissions included: no file is missing,
    different or too open, and no [.env] file stands beside them unless the
    manifest lists it. *)
Theorem installed_bundle_passes_check archive extras listed entries files cfg taskID serviceDir parent x below messages
    s bundle s'
    (Hsha : ∀ text, String.length (sha256_hex text) = 64) (Humask : Z.testbit umask 6 = false)
    (Hgit : Forall below_root (file_names archive.1.1)) (Hunique : NoDup (file_names archive.1.1))
    (Hextras : for_each add_extra ∅ listed = Ok extras) (Hstream : service_tar archive extras = (entries, Ok ()))
    (Hmanifest : manifest_of (Join below "/") (entries, Ok ()) = Ok files)
    (Hmeta : MetaFileName ∈ mf_Path <$> files)
    (Henv : ∀ header names, header ∈ entries → Forall normal names →
       Clean (tar_Name header) = Join (below ++ ".env" :: names) "/" → ".env" ∈ mf_Path <$> files)
    (Htarget : Forall normal (parent ++ [x])) (Hbelow : Forall normal below) (Hne : below ≠ [])
    (Hstage : ∀ random, temp_name ".bundle-stage-*" random ≠ x ∧ temp_name ".bundle-stage-*" random ≠ x +:+ ".bak")
    (Habs : IsAbs (ag_StateDir cfg) = true)
    (Hstate : ∀ name, ¬ (parent ++ [x]) `prefix_of` (clean_elements (ag_StateDir cfg) ++ [name]))
    (Hresolve : resolveRepoRelativePath (ag_RepoDir cfg) (Join below "/") = Ok (abs (parent ++ [x]), Join below "/"))
    (Hanswer : ∀ executionID, hr_answer run_of (GetServiceBundleRequest taskID serviceDir executionID) = Ok (messages, Ok ()))
    (Hroot : first_text bm_RelativeRoot messages = Join below "/")
    (Hread : read_archive (bm_Data <$> messages) = (entries, Ok ())) :
  run (downloadServiceBundle cfg taskID serviceDir) s = Some (Ok bundle, s') →
  bun_RootPath bundle = abs (parent ++ [x]) ∧ verify_root (root_of s'.2 (parent ++ [x])) files = Ok ().
Proof.
  intros Hrun. pose proof (stream_names _ _ _ _ Hextras Hstream Hgit) as Hnames.
  pose proof (stream_names_NoDup _ _ _ Hstream Hunique) as Hnd.
  eapply downloadServiceBundle_run in Hrun as [Hpath Hinst]; try done. split; [done|].
  assert (Ht : parent ++ [x] ≠ []) by (by destruct parent).
  unfold manifest_of in Hmanifest. cbn [fst snd result_bind] in Hmanifest.
  apply result_bind_Ok in Hmanifest as (files' & Hfiles & Hm). cbn in Hm. injection Hm as ->.
  rewrite Clean_below_root in Hfiles by done. apply manifest_entries_Ok in Hfiles as [Hfiles Hall]. cbn [app] in Hfiles.
  assert (Hentry : ∀ header, header ∈ filter regular entries → ∃ names, names ≠ [] ∧ Forall normal (below ++ names) ∧
    tar_Name header = Join (below ++ names) "/" ∧ mf_Path (described (Join below "/" +:+ "/") header) = Join names "/" ∧
    tar_Content header = Ok (content_of header)).
  { intros header [Hreg Hin]%list_elem_of_filter. destruct (Hall _ Hin Hreg) as [Hpre Hc].
    destruct (name_below below (tar_Name header)) as (names & Hn & Hf & Heq & Htrim); [done|done| |done|].
    - rewrite Forall_forall in Hnames. apply Hnames. apply list_elem_of_fmap. exists header. split; [done|]. by apply list_elem_of_filter.
    - exists names. split_and!; [done|by apply Forall_app|done|done|done]. }
  apply verify_root_accepts. split_and!.
  - intros f Hf. rewrite Hfiles in Hf. apply list_elem_of_fmap in Hf as (header & -> & Hin).
    destruct (Hentry _ Hin) as (names & Hn & Hfn & Hname & Hp & Hc). apply list_elem_of_filter in Hin as [Hreg Hin].
    pose proof (proj1 (Forall_app _ _ _) Hfn) as [_ Hnn].
    destruct (Join_normal_not names Hn Hnn) as (_ & Hdot & _).
    split; [unfold entry_valid|unfold file_matches]; rewrite Hp.
    + split_and!; [|done|apply Hsha|].
      * unfold ValidPath. rewrite Split_normal by done. apply orb_true_iff. right. apply forallb_forall.
        intros e He%list_elem_of_In. rewrite Forall_forall in Hnn. destruct (Hnn _ He) as (? & ? & ? & _).
        unfold valid_element. by rewrite bool_decide_eq_true_2.
      * cbn. pose proof (Z.mod_pos_bound (tar_Mode header) 512 ltac:(lia)) as Hbound.
        change 512%Z with (2 ^ 9)%Z in Hbound. rewrite <-Z.land_ones in Hbound by done. change (Z.ones 9) with 511%Z in Hbound.
        change (2 ^ 9)%Z with 512%Z in Hbound. lia.
    + eexists _, (content_of header). split; [by eapply installed_file|]. split; [by apply file_perm_fits|]. done.
  - rewrite Hfiles, <-list_fmap_compose.
    change (mf_Path ∘ described (Join below "/" +:+ "/")) with ((λ name, TrimPrefix name (Join below "/" +:+ "/")) ∘ tar_Name).
    rewrite list_fmap_compose. apply NoDup_fmap_2_strong; [|exact Hnd].
    intros name1 name2 (h1 & -> & Hin1)%list_elem_of_fmap (h2 & -> & Hin2)%list_elem_of_fmap Heq.
    destruct (Hentry _ Hin1) as (n1 & ? & Hf1 & -> & Hp1 & _), (Hentry _ Hin2) as (n2 & ? & Hf2 & -> & Hp2 & _).
    cbn [described mf_Path] in Hp1, Hp2. rewrite Hp1, Hp2 in Heq.
    apply Forall_app in Hf1 as [_ Hf1], Hf2 as [_ Hf2].
    by rewrite <-(Split_normal n1), Heq, Split_normal by done.
  - done.
  - destruct (decide (".env" ∈ mf_Path <$> files)) as [|Hno]; [by left|]. right. eapply installed_absent; [done|exact Hinst|by vm_compute|done|].
    intros header names Hin Hn Hclean. destruct Hno. by eapply Henv.
Qed.
End install.

(** ** A bundle with a secret, and its installation *)
#[local] Existing Instances run_params run_resolver run_semver run_tags run_state.

#[local] Instance text_result_eq_dec : EqDecision (result string string).
Proof. solve_decision. Defined.
#[local] Instance TarHeader_eq_dec : EqDecision TarHeader.
Proof. solve_decision. Defined.
Definition header_code (h : TarHeader) : string * Z * Z * (string + string) :=
  (tar_Name h, tar_Typeflag h, tar_Mode h, match tar_Content h with Ok text => inl text | Err e => inr e end).
Definition header_of_code (c : string * Z * Z * (string + string)) : TarHeader :=
  MkTarHeader c.1.1.1 c.1.1.2 c.1.2 (match c.2 with inl text => Ok text | inr e => Err e end).
#[local] Instance TarHeader_countable : Countable TarHeader.
Proof. refine (inj_countable' header_code header_of_code _). by intros [? ? ? [|]]. Defined.

Definition zeros64 : string := foldr String.append "" (replicate 64 "0").
#[local] Instance bundle_agent : AgentLibraries :=
  {| decode_compose_config _ := Err "json"; decode_containers _ := Err "json"; decode_strings _ := Err "json";
     decode_backup_config _ := Err "json"; decode_restore_config _ := Err "json"; decode_prune_target _ := Err "json";
     decode_rustic_params _ := Err "json"; decode_docker_params _ := Err "json"; find_snapshot _ := None;
     sha256_hex text := take_bytes 64 (bits (encode text) +:+ zeros64);
     read_archive chunks := match decode (of_bits (foldr String.append "" chunks)) with
                            | Some headers => (headers, Ok ())
                            | None => ([], Err "tar")
                            end |}.
Lemma sha256_length text : String.length (sha256_hex text) = 64.
Proof. change (String.length (take_bytes 64 (bits (encode text) +:+ zeros64)) = 64). rewrite length_take_bytes, length_app_bytes. change (String.length zeros64) with 64. lia. Qed.
#[local] Instance bundle_libraries : BundleLibraries.
Proof.
  refine {| tar_accepts _ := true; archive_chunks stream := [bits (encode stream.1)];
            marshal_backup_config c := bits (encode (itm_Name <$> rcf_Items c));
            marshal_restore_config c := bits (encode (rit_ArtifactRef <$> ref_Items c)) |}; [|done].
  intros entries _. cbn. by rewrite GoStrings.app_nil_r, of_bits_bits, decode_encode.
Defined.

(** The archive git makes of the service, and the stream of its bundle. *)
Definition web_archive : (list TarHeader * result string ()) * result string () :=
  ([MkTarHeader "pax_global_header" 103 438 (Ok "52 comment=rev1"); MkTarHeader "web/" 53 509 (Ok "");
    MkTarHeader "web/.env.enc" 48 436 (Ok "ciphertext"); MkTarHeader "web/composia-meta.yaml" 48 436 (Ok "web")], Ok (), Ok ()).
Definition web_extras : gmap string string := {["web/.env" := "TOKEN=1"]}.
Definition web_stream : list TarHeader * result string () := service_tar web_archive web_extras.
Definition web_entries : list TarHeader := web_stream.1.
Definition web_files : list ServiceManifestFile :=
  match manifest_of "web" web_stream with Ok files => files | Err _ => [] end.
Example web_bundle : tar_Name <$> web_entries = ["pax_global_header"; "web/"; "web/composia-meta.yaml"; "web/.env"].
Proof. by vm_compute. Qed.

Definition web_agent : AgentConfig := agent_cfg.
Definition web_messages : list BundleMessage :=
  [MkBundleMessage "web" "web" (foldr String.append "" (archive_chunks web_stream))].
(** The agent has an older version of the service, and the mask 0027. *)
Definition web_run : HostRun := {|
  hr_fails _ := false; hr_random n := pretty n; hr_umask := 23; hr_runtime := None;
  hr_answer r := match r in Request return result ConnectError (response r) with
                 | GetServiceBundleRequest _ _ _ => Ok (web_messages, Ok ())
                 | _ => Err (NewError CodeUnavailable "offline")
                 end |}.
Definition web_host : Host :=
  {[ ["state"] := HostDir; ["repo"] := HostDir; ["repo"; "web"] := HostDir;
     ["repo"; "web"; "old.yaml"] := HostFile 420 "old" ]}.
Definition web_installed : option (result ConnectError bundleResult * (nat * Host)) :=
  run web_run (downloadServiceBundle web_agent "t1" "web") (0, web_host).
Definition web_after : Host := match web_installed with Some (_, (_, h)) => h | None => ∅ end.
Definition web_result : bundleResult := MkBundleResult "web" "web" "/repo/web".
Lemma web_installs : run web_run (downloadServiceBundle web_agent "t1" "web") (0, web_host) = Some (Ok web_result, (28, web_after)).
Proof. vm_cast_no_check (eq_refl web_installed). Qed.
Lemma web_names : Forall below_root (file_names web_archive.1.1).
Proof.
  change (file_names web_archive.1.1) with ["web/.env.enc"; "web/composia-meta.yaml"].
  apply Forall_cons. split; [exists ["web"; ".env.enc"]|apply Forall_singleton; exists ["web"; "composia-meta.yaml"]];
    (split_and!; [done|by_decision|done]).
Qed.
Lemma installed_bundle_passes_check_witness :
  root_of web_after ["repo"; "web"] "old.yaml" = Err NotExist ∧
  verify_root (root_of web_after ["repo"; "web"]) web_files = Ok ().
Proof.
  split; [by vm_compute|].
  refine (proj2 (installed_bundle_passes_check web_run web_archive web_extras [("web/.env", "TOKEN=1")] web_entries web_files
           web_agent "t1" "web" ["repo"] "web" ["web"] web_messages (0, web_host) web_result (28, web_after)
           sha256_length eq_refl web_names _ eq_refl eq_refl eq_refl _ _ _ _ _ _ _ _ eq_refl (λ _, eq_refl) eq_refl eq_refl
           web_installs)).
  - by_decision.
  - by_decision.
  - intros ? ? _ _ _. by_decision.
  - by_decision.
  - by_decision.
  - done.
  - intros random. split; intros Heq; by injection Heq.
  - done.
  - intros name [k Hk]. by injection Hk.
Defined.

(** ** A controller that sends it *)
#[local] Instance web_dns_state : DnsState := tunnel_state.
#[local] Instance web_git_state : GitState := tunnel_git_state.
#[local] Instance web_environment : Environment := tunnel_environment.
#[local] Instance web_git : GitCommand.
Proof.
  refine {| run_git _ _ args fs g := (fs, g,
              Ok (if decide (head args = Some "ls-tree") then
                    if decide (last args = Some "rev1:") then "backup/composia-meta.yaml" +:+ String newline "" +:+ "web/composia-meta.yaml"
                    else ".env.enc" +:+ String newline "" +:+ MetaFileName
                  else if decide (last args = Some "rev1:web/.env.enc") then "TOKEN=1"
                  else if decide (last args = Some "rev1:web/composia-meta.yaml") then "web"
                  else if decide (last args = Some "rev1:backup/composia-meta.yaml") then "backup"
                  else "rev1"));
            gitRemoteConfig _ _ _ := [] |}.
  done.
Defined.
#[local] Instance web_git_archive : GitArchive := λ _ _ _, web_archive.
#[local] Instance web_disk : Disk := disk_example.
#[local] Instance web_decoder : MetaDecoder := λ content, Ok (
  if decide (content = "web")
  then MkMeta "web" "" [] None ["n1"] None None None
         (Some [MkDataProtectItem "files" (Some (MkDataActionConfig "files.copy" "" "" ["./data"]))
                  (Some (MkDataActionConfig "files.copy" "" "" ["./data"]));
                MkDataProtectItem "cache" (Some (MkDataActionConfig "files.copy" "" "" ["./cache"])) None])
         (Some [MkBackupItem "files" "rustic" None ""]) None None
  else MkMeta "backup" "" [] None ["n1"]
         (Some (MkInfraConfig None (Some (MkInfraRusticConfig "rustic" "" "" [])) false)) None None None None None None).
#[local] Instance web_cron : Cron := cron_example.
#[local] Instance web_libraries : Libraries := libraries_example.
#[local] Instance web_secrets : Secrets := {| Encrypt text _ := Ok text; Decrypt text _ := Ok text |}.
Definition web_controller : ControllerConfig :=
  MkControllerConfig ":8080" "/repo" "/state" "/log" None None None None [] None None None (Some ("age", "identity.txt")) None.
(** A task of node n1 that is accepted. *)
Definition web_world (taskType : string) (params : serviceTaskParams) : World :=
  let db1 := after (CreateTask "u1" (sec 1000) (MkRecord "t1" taskType SourceWeb "admin" "web" "n1" "" (marshal_params params) "/log" "rev1"
                     "" "" (sec 1001) None None "" "" "" None None None "") ex0) ex0 in
  let db2 := after (ClaimNextPendingTaskForNode "n1" (sec 1010) (sec 1040) "e1" db1) db1 in
  let db3 := after' (AcknowledgeTaskExecution "t1" "e1" (sec 1020) (sec 1080) db2) db2 in
  MkWorld db3 None empty_images (MkRepoTree ∅ ()) ((∅, ∅) : dns_state) [] 0.

Definition web_deploy : World := web_world TypeDeploy (params_of_dir "web").
Definition web_sent : World * result ConnectError (list BundleMessage * result ConnectError ()) :=
  GetServiceBundle web_controller {["n1"]} (Some "n1") "t1" "e1" "" web_deploy.
Lemma web_sent_Ok : web_sent.2 = Ok (web_messages, Ok ()).
Proof. vm_cast_no_check (eq_refl web_sent.2). Qed.

Definition web_rendered : World * result ConnectError (option (gmap string string)) :=
  renderServiceSecrets web_controller "rev1" "web" [".env.enc"] web_deploy.
Lemma bundle_replaces_secrets_witness :
  ∃ p, normalizeBundleExtraPath "web/.env" = Ok p ∧
    (∃ text, ∀ header, header ∈ web_entries ∧ tar_Name header = p ↔ header = MkTarHeader p TypeReg 384 (Ok text)) ∧
    (∀ header, header ∈ web_entries → regular header → IsEncryptedFilePath (tar_Name header) = true →
       p = RuntimeFilePath (tar_Name header) → header ∈ extra_entries web_extras).
Proof.
  assert (Hr : renderServiceSecrets web_controller "rev1" "web" [".env.enc"] web_deploy = (web_rendered.1, Ok (Some web_extras))).
  { vm_cast_no_check (eq_refl web_rendered). }
  destruct (bundle_replaces_secrets web_controller ("age", "identity.txt") "rev1" "web" [".env.enc"] web_deploy web_rendered.1 web_extras
    (map_to_list web_extras) web_extras web_archive web_entries) with (f := ".env.enc")
    as (p & Hp & (g & text & _ & _ & _ & Hh) & Hs); [done|exact Hr|done|by vm_compute|by vm_compute|by left|].
  exists p. split; [exact Hp|]. split; [by exists text|exact Hs].
Defined.

Definition web_backup : World := web_world TypeBackup (params_data "web" ["files"]).
Definition web_runtime : World * result ConnectError ServiceTaskRuntime :=
  GetServiceTaskRuntime web_controller {["n1"]} (Some "n1") "t1" "e1" web_backup.
Lemma web_runtime_Ok : web_runtime.2 = Ok (MkServiceTaskRuntime "rev1" "web" (bits (encode ["files"]))).
Proof. vm_cast_no_check (eq_refl web_runtime.2). Qed.
