(* ===== verification/DockerMessages.v ===== *)
(** * Docker queries: what the controller and the agents exchange

    The lists of containers, networks, volumes and images, the details of one
    of them, the logs of a container and the outcome of a command are asked by
    a client of the controller and answered by the agent of the node
    (src/internal/app/controller/docker_query_bridge.go,
    src/internal/app/agent/proto_helpers.go).  The messages agentv1 and
    controllerv1 are generated code: a record or an inductive type per
    message.  A [uint32] is a [Z] whose bounds are written where it is
    computed; the labels of a message are a map. *)
From S2P Require Export Rpc.

(** ** agentv1 and controllerv1: the two packages declare the same fields *)
Record ContainerInfo := MkContainerInfo {
  ci_Id : string;
  ci_Name : string;
  ci_Image : string;
  ci_State : string;
  ci_Status : string;
  ci_Created : string;
  ci_Labels : gmap string string;
  ci_Ports : list string;
  ci_Networks : list string;
  ci_ImageId : string;
}.
Record NetworkInfo := MkNetworkInfo {
  ni_Id : string;
  ni_Name : string;
  ni_Driver : string;
  ni_Scope : string;
  ni_Internal : bool;
  ni_Attachable : bool;
  ni_Created : string;
  ni_Labels : gmap string string;
  ni_Subnet : string;
  ni_Gateway : string;
  ni_ContainersCount : Z;
  ni_Ipv6Enabled : bool;
}.
Record VolumeInfo := MkVolumeInfo {
  vi_Name : string;
  vi_Driver : string;
  vi_Mountpoint : string;
  vi_Scope : string;
  vi_Created : string;
  vi_Labels : gmap string string;
  vi_SizeBytes : Z;
  vi_ContainersCount : Z;
  vi_InUse : bool;
}.
Record ImageInfo := MkImageInfo {
  ii_Id : string;
  ii_RepoTags : list string;
  ii_Size : Z;
  ii_VirtualSize : Z;
  ii_Created : string;
  ii_RepoDigests : list string;
  ii_Architecture : string;
  ii_Os : string;
  ii_Author : string;
  ii_ContainersCount : Z;
  ii_IsDangling : bool;
}.

(** The five fields of a list request; [lr_IncludeSizes] is the one of
    volumes only. *)
Record ListRequest := MkListRequest {
  lr_PageSize : Z;
  lr_Page : Z;
  lr_Search : string;
  lr_SortBy : string;
  lr_SortDesc : bool;
}.
Record ExecRequest := MkExecRequest {
  xr_ContainerId : string;
  xr_Command : list string;
  xr_Stdin : string;
  xr_TimeoutSeconds : Z;
  xr_MaxOutputBytes : Z;
}.
(** [DockerQueryTask.Query]: a oneof, which may be unset. *)
Inductive DockerQuery : Type :=
| ListContainersQuery (r : ListRequest)
| ListNetworksQuery (r : ListRequest)
| ListVolumesQuery (r : ListRequest) (includeSizes : bool)
| ListImagesQuery (r : ListRequest)
| InspectContainerQuery (id : string)
| InspectNetworkQuery (id : string)
| InspectVolumeQuery (name : string)
| InspectImageQuery (id : string)
| ContainerLogsQuery (id tail : string) (timestamps : bool)
| RunContainerExecQuery (r : ExecRequest)
| NoQuery.
Record DockerQueryTask := MkDockerQueryTask {
  dt_QueryId : string;
  dt_NodeId : string;
  dt_Query : DockerQuery;
}.

Inductive DockerQueryErrorCode : Type :=
| DOCKER_QUERY_ERROR_CODE_UNSPECIFIED | DOCKER_QUERY_ERROR_CODE_INVALID_ARGUMENT
| DOCKER_QUERY_ERROR_CODE_NOT_FOUND | DOCKER_QUERY_ERROR_CODE_FAILED_PRECONDITION
| DOCKER_QUERY_ERROR_CODE_PERMISSION_DENIED | DOCKER_QUERY_ERROR_CODE_DEADLINE_EXCEEDED
| DOCKER_QUERY_ERROR_CODE_UNAVAILABLE | DOCKER_QUERY_ERROR_CODE_INTERNAL.
#[export] Instance DockerQueryErrorCode_eq_dec : EqDecision DockerQueryErrorCode.
Proof. solve_decision. Defined.

(** An instant of the protocol, or the absence of one. *)
Definition Timestamp : Type := option Time.time.
Record ExecResponse := MkExecResponse {
  xp_ExitCode : Z;
  xp_Stdout : string;
  xp_Stderr : string;
  xp_TimedOut : bool;
  xp_StdoutTruncated : bool;
  xp_StderrTruncated : bool;
  xp_StartedAt : Timestamp;
  xp_FinishedAt : Timestamp;
  xp_Duration : string;
}.
(** [ReportDockerQueryResultRequest.Result]: a oneof. *)
Inductive DockerQueryReport : Type :=
| ListContainersReport (containers : list ContainerInfo) (totalCount : Z)
| ListNetworksReport (networks : list NetworkInfo) (totalCount : Z)
| ListVolumesReport (volumes : list VolumeInfo) (totalCount : Z)
| ListImagesReport (images : list ImageInfo) (totalCount : Z)
| InspectContainerReport (rawJson : string)
| InspectNetworkReport (rawJson : string)
| InspectVolumeReport (rawJson : string)
| InspectImageReport (rawJson : string)
| ContainerLogsReport (content : string)
| RunContainerExecReport (r : ExecResponse)
| NoReport.
Record ReportDockerQueryResultRequest := MkReportDockerQueryResultRequest {
  rq_QueryId : string;
  rq_NodeId : string;
  rq_Result : DockerQueryReport;
  rq_ErrorMessage : string;
  rq_ErrorCode : DockerQueryErrorCode;
}.

(** ** dockerListResult and dockerTaskResult: the same struct on both sides *)
Record dockerExecResult := MkExecResult {
  er_ExitCode : Z;
  er_Stdout : string;
  er_Stderr : string;
  er_TimedOut : bool;
  er_StdoutTruncated : bool;
  er_StderrTruncated : bool;
  er_StartedAt : string;
  er_FinishedAt : string;
  er_Duration : string;
}.
Record dockerListResult := MkListResult {
  dl_Containers : list ContainerInfo;
  dl_Networks : list NetworkInfo;
  dl_Volumes : list VolumeInfo;
  dl_Images : list ImageInfo;
  dl_Exec : option dockerExecResult;
  dl_RawJSON : string;
  dl_Content : string;
  dl_TotalCount : Z;
}.
Definition empty_list_result : dockerListResult := MkListResult [] [] [] [] None "" "" 0.
Definition containers_result (l : list ContainerInfo) (n : Z) : dockerListResult := MkListResult l [] [] [] None "" "" n.
Definition networks_result (l : list NetworkInfo) (n : Z) : dockerListResult := MkListResult [] l [] [] None "" "" n.
Definition volumes_result (l : list VolumeInfo) (n : Z) : dockerListResult := MkListResult [] [] l [] None "" "" n.
Definition images_result (l : list ImageInfo) (n : Z) : dockerListResult := MkListResult [] [] [] l None "" "" n.
Definition exec_result (r : dockerExecResult) : dockerListResult := MkListResult [] [] [] [] (Some r) "" "" 0.
Definition raw_result (rawJSON : string) : dockerListResult := MkListResult [] [] [] [] None rawJSON "" 0.
Definition content_result (content : string) : dockerListResult := MkListResult [] [] [] [] None "" content 0.

(** encoding/json of that struct, and the texts of instants: package time
    writes RFC 3339 with the fraction or without it, and reads both. *)
Class DockerJSON := {
  marshal_list_result : dockerListResult → result string string;
  unmarshal_list_result : string → result string dockerListResult;
  format_nano : Time.time → string;
  format_rfc3339 : Time.time → string;
  parse_rfc3339_text : string → option Time.time;
  duration_text : Z → string;
}.

(** ** Constants of both packages *)
Definition dockerActionList := "list".
Definition dockerActionInspect := "inspect".
Definition dockerActionLogs := "logs".
Definition dockerActionExec := "exec".
Definition dockerResourceContainer := "container".
Definition dockerResourceContainers := "containers".
Definition dockerResourceNetwork := "network".
Definition dockerResourceNetworks := "networks".
Definition dockerResourceVolume := "volume".
Definition dockerResourceVolumes := "volumes".
Definition dockerResourceImage := "image".
Definition dockerResourceImages := "images".

(** Arithmetic of [uint32]. *)
Definition uint32 (z : Z) : Z := (z mod 2 ^ 32)%Z.
