(* ===== verification/DockerBroker.v ===== *)
(** * The broker of Docker queries
    (src/internal/app/controller/docker_query_bridge.go)

    Requests that ask something of a node and agents that ask for work meet
    in one object with a lock: the queue of each node, the queries handed to
    an agent, the results that wait for the request, and the channels that
    wake up whoever waits.  A method that takes the lock is one function on
    that state ([dockerQueryBroker]), the time being read under the lock
    where the code does so.  Sending on a closed channel, and closing one
    again, would be a panic ([bk_panicked]). *)
From S2P Require Export DockerMessages.

(** ** Data *)
Definition dockerQueryMaxWait : Z := (30 * Time.Second)%Z.
Definition dockerVolumeSizeQueryTimeout : Z := (300 * Time.Second)%Z.
Definition dockerQueryCleanupGrace : Z := Time.Minute.

Record dockerAgentQuery := MkQuery {
  qa_QueryID : string;
  qa_NodeID : string;
  qa_Action : string;
  qa_Resource : string;
  qa_ID : string;
  qa_Tail : string;
  qa_Timestamps : bool;
  qa_PageSize : Z;
  qa_Page : Z;
  qa_Search : string;
  qa_SortBy : string;
  qa_SortDesc : bool;
  qa_IncludeSizes : bool;
  qa_Command : list string;
  qa_Stdin : string;
  qa_Timeout : Z;
  qa_MaxOutput : Z;
  qa_expiresAt : Time.time;
}.
Definition with_QueryID (id : string) (q : dockerAgentQuery) : dockerAgentQuery :=
  MkQuery id (qa_NodeID q) (qa_Action q) (qa_Resource q) (qa_ID q) (qa_Tail q) (qa_Timestamps q) (qa_PageSize q)
    (qa_Page q) (qa_Search q) (qa_SortBy q) (qa_SortDesc q) (qa_IncludeSizes q) (qa_Command q) (qa_Stdin q)
    (qa_Timeout q) (qa_MaxOutput q) (qa_expiresAt q).
Definition with_NodeID (nodeID : string) (q : dockerAgentQuery) : dockerAgentQuery :=
  MkQuery (qa_QueryID q) nodeID (qa_Action q) (qa_Resource q) (qa_ID q) (qa_Tail q) (qa_Timestamps q)
    (qa_PageSize q) (qa_Page q) (qa_Search q) (qa_SortBy q) (qa_SortDesc q) (qa_IncludeSizes q) (qa_Command q)
    (qa_Stdin q) (qa_Timeout q) (qa_MaxOutput q) (qa_expiresAt q).
Definition with_expiresAt (t : Time.time) (q : dockerAgentQuery) : dockerAgentQuery :=
  MkQuery (qa_QueryID q) (qa_NodeID q) (qa_Action q) (qa_Resource q) (qa_ID q) (qa_Tail q) (qa_Timestamps q)
    (qa_PageSize q) (qa_Page q) (qa_Search q) (qa_SortBy q) (qa_SortDesc q) (qa_IncludeSizes q) (qa_Command q)
    (qa_Stdin q) (qa_Timeout q) (qa_MaxOutput q) t.

Record dockerAgentQueryResult := MkQueryResult {
  qr_QueryID : string;
  qr_NodeID : string;
  qr_PayloadJSON : string;
  qr_ErrorMessage : string;
  qr_ErrorCode : string;
}.
Record assignedDockerQuery := MkAssigned {
  as_nodeID : string;
  as_expiresAt : Time.time;
}.
Record storedDockerQueryResult := MkStored {
  st_result : dockerAgentQueryResult;
  st_expiresAt : Time.time;
}.

(** A channel of capacity one: open, with or without a value, or closed. *)
Inductive ChanState : Type := ChanOpen (signalled : bool) | ChanClosed.
#[export] Instance ChanState_eq_dec : EqDecision ChanState.
Proof. solve_decision. Defined.
Definition chan : Type := positive.

Record dockerQueryBroker := MkBroker {
  bk_pendingByNode : gmap string (list dockerAgentQuery);
  bk_nodeSubscribers : gmap string (gset chan);
  bk_resultSubscribers : gmap string (gset chan);
  bk_results : gmap string storedDockerQueryResult;
  bk_assignedByID : gmap string assignedDockerQuery;
  bk_channels : gmap chan ChanState;
  bk_panicked : bool;
}.
Definition newDockerQueryBroker : dockerQueryBroker := MkBroker ∅ ∅ ∅ ∅ ∅ ∅ false.

Definition set_pending p (b : dockerQueryBroker) : dockerQueryBroker :=
  MkBroker p (bk_nodeSubscribers b) (bk_resultSubscribers b) (bk_results b) (bk_assignedByID b) (bk_channels b)
    (bk_panicked b).
Definition set_node_subscribers s (b : dockerQueryBroker) : dockerQueryBroker :=
  MkBroker (bk_pendingByNode b) s (bk_resultSubscribers b) (bk_results b) (bk_assignedByID b) (bk_channels b)
    (bk_panicked b).
Definition set_result_subscribers s (b : dockerQueryBroker) : dockerQueryBroker :=
  MkBroker (bk_pendingByNode b) (bk_nodeSubscribers b) s (bk_results b) (bk_assignedByID b) (bk_channels b)
    (bk_panicked b).
Definition set_results r (b : dockerQueryBroker) : dockerQueryBroker :=
  MkBroker (bk_pendingByNode b) (bk_nodeSubscribers b) (bk_resultSubscribers b) r (bk_assignedByID b)
    (bk_channels b) (bk_panicked b).
Definition set_assigned a (b : dockerQueryBroker) : dockerQueryBroker :=
  MkBroker (bk_pendingByNode b) (bk_nodeSubscribers b) (bk_resultSubscribers b) (bk_results b) a (bk_channels b)
    (bk_panicked b).
Definition set_channels c p (b : dockerQueryBroker) : dockerQueryBroker :=
  MkBroker (bk_pendingByNode b) (bk_nodeSubscribers b) (bk_resultSubscribers b) (bk_results b) (bk_assignedByID b)
    c p.

(** ** Channels *)
(** [make(chan struct{}, 1)] *)
Definition make_channel (b : dockerQueryBroker) : dockerQueryBroker * chan :=
  let ch := fresh (dom (bk_channels b)) in
  (set_channels (<[ch := ChanOpen false]> (bk_channels b)) (bk_panicked b) b, ch).
(** [select { case ch <- struct{}{}: default: }] *)
Definition notify (ch : chan) (b : dockerQueryBroker) : dockerQueryBroker :=
  match bk_channels b !! ch with
  | Some (ChanOpen _) => set_channels (<[ch := ChanOpen true]> (bk_channels b)) (bk_panicked b) b
  | _ => set_channels (bk_channels b) true b
  end.
(** [close(ch)] *)
Definition close (ch : chan) (b : dockerQueryBroker) : dockerQueryBroker :=
  match bk_channels b !! ch with
  | Some (ChanOpen _) => set_channels (<[ch := ChanClosed]> (bk_channels b)) (bk_panicked b) b
  | _ => set_channels (bk_channels b) true b
  end.
Definition notify_all (subscribers : gset chan) (b : dockerQueryBroker) : dockerQueryBroker :=
  foldr notify b (elements subscribers).
Definition notifyNodeLocked (nodeID : string) (b : dockerQueryBroker) : dockerQueryBroker :=
  notify_all (default ∅ (bk_nodeSubscribers b !! nodeID)) b.
Definition notifyResultLocked (queryID : string) (b : dockerQueryBroker) : dockerQueryBroker :=
  notify_all (default ∅ (bk_resultSubscribers b !! queryID)) b.

(** A subscriber of a key, added or removed; the set is dropped once it is
    empty. *)
Definition subscribe (key : string) (ch : chan) (subscribers : gmap string (gset chan)) : gmap string (gset chan) :=
  <[key := {[ch]} ∪ default ∅ (subscribers !! key)]> subscribers.
Definition unsubscribe (key : string) (ch : chan) (subscribers : gmap string (gset chan)) : gmap string (gset chan) :=
  match subscribers !! key with
  | None => subscribers
  | Some chs => if decide (chs ∖ {[ch]} = ∅) then delete key subscribers else <[key := chs ∖ {[ch]}]> subscribers
  end.
Definition subscribed (key : string) (ch : chan) (subscribers : gmap string (gset chan)) : Prop :=
  ch ∈ default ∅ (subscribers !! key).
#[export] Instance subscribed_dec key ch subscribers : Decision (subscribed key ch subscribers).
Proof. unfold subscribed. apply _. Defined.

Definition SubscribeNode (nodeID : string) (b : dockerQueryBroker) : dockerQueryBroker * option chan :=
  if decide (nodeID = "") then (b, None)
  else let '(b, ch) := make_channel b in
       (set_node_subscribers (subscribe nodeID ch (bk_nodeSubscribers b)) b, Some ch).
Definition UnsubscribeNode (nodeID : string) (ch : option chan) (b : dockerQueryBroker) : dockerQueryBroker :=
  match ch with
  | None => b
  | Some ch =>
      if decide (nodeID = "") then b
      else set_node_subscribers (unsubscribe nodeID ch (bk_nodeSubscribers b))
             (if decide (subscribed nodeID ch (bk_nodeSubscribers b)) then close ch b else b)
  end.
Definition SubscribeResult (queryID : string) (b : dockerQueryBroker) : dockerQueryBroker * option chan :=
  if decide (queryID = "") then (b, None)
  else let '(b, ch) := make_channel b in
       (set_result_subscribers (subscribe queryID ch (bk_resultSubscribers b)) b, Some ch).
Definition UnsubscribeResult (queryID : string) (ch : option chan) (b : dockerQueryBroker) : dockerQueryBroker :=
  match ch with
  | None => b
  | Some ch =>
      if decide (queryID = "") then b
      else set_result_subscribers (unsubscribe queryID ch (bk_resultSubscribers b))
             (if decide (subscribed queryID ch (bk_resultSubscribers b)) then close ch b else b)
  end.

(** ** Queues, assignments and results *)
Definition expired (now expiresAt : Time.time) : Prop := ¬ Time.IsZero expiresAt ∧ (expiresAt ≤ now)%Z.
#[export] Instance expired_dec now expiresAt : Decision (expired now expiresAt).
Proof. unfold expired. apply _. Defined.

(** The queues without some queries; a queue that becomes empty is dropped. *)
Definition filter_pending (P : dockerAgentQuery → Prop) `{∀ q, Decision (P q)}
    (pending : gmap string (list dockerAgentQuery)) : gmap string (list dockerAgentQuery) :=
  omap (λ queue, let filtered := filter P queue in if decide (filtered = []) then None else Some filtered) pending.

Definition sweepExpiredLocked (now : Time.time) (b : dockerQueryBroker) : dockerQueryBroker :=
  let b := set_pending (filter_pending (λ q, ¬ expired now (qa_expiresAt q)) (bk_pendingByNode b)) b in
  let b := set_assigned (filter (λ e, ¬ expired now (as_expiresAt e.2)) (bk_assignedByID b)) b in
  set_results (filter (λ e, ¬ expired now (st_expiresAt e.2)) (bk_results b)) b.

Definition dockerQueryTTL (q : dockerAgentQuery) : Z :=
  let ttl := (dockerQueryMaxWait + dockerQueryCleanupGrace)%Z in
  if decide (0 < qa_Timeout q ∧ ttl < qa_Timeout q + dockerQueryCleanupGrace)%Z
  then (qa_Timeout q + dockerQueryCleanupGrace)%Z else ttl.

(** The part of [Enqueue] under the lock. *)
Definition enqueue_locked (now : Time.time) (q : dockerAgentQuery) (b : dockerQueryBroker) : dockerQueryBroker :=
  let b := sweepExpiredLocked now b in
  let b := set_pending (<[qa_NodeID q := default [] (bk_pendingByNode b !! qa_NodeID q) ++ [q]]> (bk_pendingByNode b)) b in
  notifyNodeLocked (qa_NodeID q) b.

Definition Pull (now : Time.time) (nodeID : string) (b : dockerQueryBroker)
    : dockerQueryBroker * option dockerAgentQuery :=
  if decide (nodeID = "") then (b, None)
  else
    let b := sweepExpiredLocked now b in
    match default [] (bk_pendingByNode b !! nodeID) with
    | [] => (b, None)
    | q :: queue =>
        let b := set_pending (if decide (queue = []) then delete nodeID (bk_pendingByNode b)
                              else <[nodeID := queue]> (bk_pendingByNode b)) b in
        (set_assigned (<[qa_QueryID q := MkAssigned nodeID (qa_expiresAt q)]> (bk_assignedByID b)) b, Some q)
    end.

Definition StoreResult (now : Time.time) (r : dockerAgentQueryResult) (b : dockerQueryBroker)
    : dockerQueryBroker * result string () :=
  let b := sweepExpiredLocked now b in
  match bk_assignedByID b !! qr_QueryID r with
  | None => (b, Err "docker query is not pending")
  | Some assigned =>
      if decide (as_nodeID assigned = "") then (b, Err "docker query is not pending")
      else if decide (as_nodeID assigned ≠ qr_NodeID r) then (b, Err "docker query belongs to another node")
      else
        let b := set_assigned (delete (qr_QueryID r) (bk_assignedByID b)) b in
        let stored := MkStored r (as_expiresAt assigned + dockerQueryCleanupGrace)%Z in
        let b := set_results (<[qr_QueryID r := stored]> (bk_results b)) b in
        (notifyResultLocked (qr_QueryID r) b, Ok ())
  end.

Definition PopResult (now : Time.time) (queryID : string) (b : dockerQueryBroker)
    : dockerQueryBroker * option dockerAgentQueryResult :=
  if decide (queryID = "") then (b, None)
  else
    let b := sweepExpiredLocked now b in
    match bk_results b !! queryID with
    | None => (b, None)
    | Some stored => (set_results (delete queryID (bk_results b)) b, Some (st_result stored))
    end.

Definition Cancel (queryID : string) (b : dockerQueryBroker) : dockerQueryBroker :=
  if decide (queryID = "") then b
  else
    let b := set_results (delete queryID (bk_results b)) b in
    let b := set_assigned (delete queryID (bk_assignedByID b)) b in
    set_pending (filter_pending (λ q, qa_QueryID q ≠ queryID) (bk_pendingByNode b)) b.
