(* ===== verification/DockerHandlers.v ===== *)
(** * The handlers of Docker queries
    (src/internal/app/controller/docker_query_bridge.go,
    docker_query_service.go, exec_tunnel.go)

    A handler runs in a goroutine of its own: it is a program of the free
    monad [Handler] over the methods of the broker ([Method], each atomic
    under its lock), the clock, identifiers, the check of the node and the
    [select] it waits in.  [Loop] is [for { ... }], left by the first body
    that returns. *)
From S2P Require Export TaskParams Controller Proto DockerBroker.

(** ** Operations *)
Inductive Method : Type → Type :=
| MSubscribeNode (nodeID : string) : Method (option chan)
| MUnsubscribeNode (nodeID : string) (ch : option chan) : Method ()
| MEnqueue (now : Time.time) (q : dockerAgentQuery) : Method ()
| MPull (nodeID : string) : Method (option dockerAgentQuery)
| MSubscribeResult (queryID : string) : Method (option chan)
| MUnsubscribeResult (queryID : string) (ch : option chan) : Method ()
| MStoreResult (r : dockerAgentQueryResult) : Method (result string ())
| MPopResult (queryID : string) : Method (option dockerAgentQueryResult)
| MCancel (queryID : string) : Method ().

(** A method at an instant. *)
Definition call_method {X} (m : Method X) (now : Time.time) (b : dockerQueryBroker) : dockerQueryBroker * X :=
  match m in Method X return dockerQueryBroker * X with
  | MSubscribeNode nodeID => SubscribeNode nodeID b
  | MUnsubscribeNode nodeID ch => (UnsubscribeNode nodeID ch b, ())
  | MEnqueue before q => (enqueue_locked before q b, ())
  | MPull nodeID => Pull now nodeID b
  | MSubscribeResult queryID => SubscribeResult queryID b
  | MUnsubscribeResult queryID ch => (UnsubscribeResult queryID ch b, ())
  | MStoreResult r => StoreResult now r b
  | MPopResult queryID => PopResult now queryID b
  | MCancel queryID => (Cancel queryID b, ())
  end.

(** What ends a [select]: the context, the channel or the timer. *)
Inductive Wakeup : Type := CtxDone (deadlineExceeded : bool) | Received | TimerFired.

Inductive HandlerOp : Type → Type :=
| Clock : HandlerOp Time.time
| NewUUID : HandlerOp string
| ValidateNode (nodeID : string) : HandlerOp (result ConnectError ())
| Locked {X} (m : Method X) : HandlerOp X
| Select (ch : option chan) (timer : Time.time) : HandlerOp Wakeup.

Inductive Handler : Type → Type :=
| HRet {A} (a : A) : Handler A
| HDo {A X} (o : HandlerOp X) (k : X → Handler A) : Handler A
| Loop {A B} (body : Handler (option A)) (k : A → Handler B) : Handler B.

Fixpoint handler_bind {A B} (p : Handler A) : (A → Handler B) → Handler B :=
  match p in Handler A return (A → Handler B) → Handler B with
  | HRet a => λ f, f a
  | HDo o k => λ f, HDo o (λ x, handler_bind (k x) f)
  | Loop body k => λ f, Loop body (λ a, handler_bind (k a) f)
  end.
Definition locked {X} (m : Method X) : Handler X := HDo (Locked m) HRet.
Notation "x ⇜ y ; z" := (handler_bind y (λ x : _, z))
  (at level 20, y at level 100, z at level 200, only parsing) : stdpp_scope.

(** ** Requests *)
(** The query with its time to live, as it enters its queue. *)
Definition stamp (now : Time.time) (query : dockerAgentQuery) : dockerAgentQuery :=
  if decide (Time.IsZero (qa_expiresAt query)) then with_expiresAt (now + dockerQueryTTL query)%Z query else query.
Definition enqueue_query (query : dockerAgentQuery) : Handler string :=
  HDo Clock (λ now, _ ⇜ locked (MEnqueue now (stamp now query)); HRet (qa_QueryID (stamp now query))).
Definition Enqueue (query : dockerAgentQuery) : Handler string :=
  query ⇜ (if decide (qa_QueryID query = "") then HDo NewUUID (λ id, HRet (with_QueryID id query)) else HRet query);
  enqueue_query query.

Inductive WaitError : Type := WaitTimeout | ContextError (deadlineExceeded : bool).

Definition cancel_wait (queryID : string) (e : WaitError)
    : Handler (option (result WaitError dockerAgentQueryResult)) :=
  _ ⇜ locked (MCancel queryID); HRet (Some (Err e)).
Definition wait_signal (queryID : string) (waitCh : option chan) (timer : Time.time)
    : Handler (option (result WaitError dockerAgentQueryResult)) :=
  HDo (Select waitCh timer) (λ w,
    match w with
    | CtxDone deadlineExceeded => cancel_wait queryID (ContextError deadlineExceeded)
    | Received => HRet None
    | TimerFired => cancel_wait queryID WaitTimeout
    end).
Definition wait_more (queryID : string) (deadline : Time.time) (waitCh : option chan)
    : Handler (option (result WaitError dockerAgentQueryResult)) :=
  HDo Clock (λ now,
    let remaining := (deadline - now)%Z in
    if decide (remaining ≤ 0)%Z then cancel_wait queryID WaitTimeout
    else wait_signal queryID waitCh (now + remaining)%Z).
Definition wait_turn (queryID : string) (deadline : Time.time) (waitCh : option chan)
    : Handler (option (result WaitError dockerAgentQueryResult)) :=
  popped ⇜ locked (MPopResult queryID);
  match popped with
  | Some r => HRet (Some (Ok r))
  | None => wait_more queryID deadline waitCh
  end.
Definition WaitResult (queryID : string) (timeout : Z) : Handler (result WaitError dockerAgentQueryResult) :=
  HDo Clock (λ start,
    waitCh ⇜ locked (MSubscribeResult queryID);
    Loop (wait_turn queryID (start + timeout)%Z waitCh) (λ r,
      _ ⇜ locked (MUnsubscribeResult queryID waitCh); HRet r)).

Definition dockerQueryConnectCode (value : string) : Code :=
  switch (TrimSpace (ToLower value))
    [("invalid_argument", CodeInvalidArgument); ("not_found", CodeNotFound);
     ("failed_precondition", CodeFailedPrecondition); ("permission_denied", CodePermissionDenied);
     ("deadline_exceeded", CodeDeadlineExceeded); ("unavailable", CodeUnavailable)] CodeInternal.

Definition wait_timeout (query : dockerAgentQuery) : Z :=
  if decide (0 < qa_Timeout query ∧ dockerQueryMaxWait < qa_Timeout query + 5 * Time.Second)%Z
  then (qa_Timeout query + 5 * Time.Second)%Z else dockerQueryMaxWait.
Definition wait_error (e : WaitError) : ConnectError :=
  match e with
  | ContextError false => NewError CodeCanceled "context canceled"
  | ContextError true => NewError CodeDeadlineExceeded "context deadline exceeded"
  | WaitTimeout => NewError CodeDeadlineExceeded "timeout waiting for docker query result"
  end.

Definition query_answer (r : result WaitError dockerAgentQueryResult) : result ConnectError dockerAgentQueryResult :=
  match r with
  | Err e => Err (wait_error e)
  | Ok r =>
      if decide (qr_ErrorCode r ≠ "")
      then Err (NewError (dockerQueryConnectCode (qr_ErrorCode r)) (qr_ErrorMessage r)) else Ok r
  end.
Definition executeDockerAgentQuery (configured : bool) (nodeID : string) (query : dockerAgentQuery)
    : Handler (result ConnectError dockerAgentQueryResult) :=
  if negb configured then HRet (Err (NewError CodeInternal "docker query broker is not configured"))
  else
    v ⇜ HDo (ValidateNode nodeID) HRet;
    match v with
    | Err e => HRet (Err e)
    | Ok _ =>
        queryID ⇜ Enqueue (with_NodeID nodeID query);
        r ⇜ WaitResult queryID (wait_timeout query);
        HRet (query_answer r)
    end.

(** ** Agents *)
(** [uint32(query.Timeout.Round(time.Second) / time.Second)]: rounds half
    away from zero. *)
Definition round_seconds (d : Z) : Z :=
  let r := (d mod Time.Second)%Z in
  if decide (r + r < Time.Second)%Z then ((d - r) / Time.Second)%Z else ((d - r) / Time.Second + 1)%Z.
Definition timeout_seconds (timeout : Z) : Z :=
  if decide (0 < timeout)%Z then uint32 (round_seconds timeout) else 0.

Definition list_request (query : dockerAgentQuery) : ListRequest :=
  MkListRequest (qa_PageSize query) (qa_Page query) (qa_Search query) (qa_SortBy query) (qa_SortDesc query).
Definition dockerProtoQueryTask (query : dockerAgentQuery) : result string DockerQueryTask :=
  let task := MkDockerQueryTask (qa_QueryID query) (qa_NodeID query) in
  let Resource := qa_Resource query in
  if decide (qa_Action query = dockerActionList) then
    if decide (Resource = dockerResourceContainers) then Ok (task (ListContainersQuery (list_request query)))
    else if decide (Resource = dockerResourceNetworks) then Ok (task (ListNetworksQuery (list_request query)))
    else if decide (Resource = dockerResourceVolumes)
    then Ok (task (ListVolumesQuery (list_request query) (qa_IncludeSizes query)))
    else if decide (Resource = dockerResourceImages) then Ok (task (ListImagesQuery (list_request query)))
    else Err "unsupported docker list resource"
  else if decide (qa_Action query = dockerActionInspect) then
    if decide (Resource = dockerResourceContainer) then Ok (task (InspectContainerQuery (qa_ID query)))
    else if decide (Resource = dockerResourceNetwork) then Ok (task (InspectNetworkQuery (qa_ID query)))
    else if decide (Resource = dockerResourceVolume) then Ok (task (InspectVolumeQuery (qa_ID query)))
    else if decide (Resource = dockerResourceImage) then Ok (task (InspectImageQuery (qa_ID query)))
    else Err "unsupported docker inspect resource"
  else if decide (qa_Action query = dockerActionLogs) then
    if decide (Resource ≠ dockerResourceContainer) then Err "unsupported docker logs resource"
    else Ok (task (ContainerLogsQuery (qa_ID query) (qa_Tail query) (qa_Timestamps query)))
  else if decide (qa_Action query = dockerActionExec) then
    if decide (Resource ≠ dockerResourceContainer) then Err "unsupported docker exec resource"
    else Ok (task (RunContainerExecQuery (MkExecRequest (qa_ID query) (qa_Command query) (qa_Stdin query)
                     (timeout_seconds (qa_Timeout query)) (qa_MaxOutput query))))
  else Err "unsupported docker query action".

Definition pullNextTaskMaxWait : Z := (25 * Time.Second)%Z.
Definition pullNextTaskRetryWait : Z := (500 * 1000000)%Z.
Definition longPollMaxWait (maxWait : Z) : Z := if decide (0 < maxWait)%Z then maxWait else pullNextTaskMaxWait.
Definition longPollRetryInterval (retryInterval : Z) : Z :=
  if decide (0 < retryInterval)%Z then retryInterval else pullNextTaskRetryWait.

(** The agentTaskServer: whether its broker is set, and its two durations. *)
Definition pull_signal (waitCh : option chan) (timer : Time.time)
    : Handler (option (result ConnectError (option DockerQueryTask))) :=
  HDo (Select waitCh timer) (λ w,
    match w with
    | CtxDone deadlineExceeded => HRet (Some (Err (wait_error (ContextError deadlineExceeded))))
    | Received | TimerFired => HRet None
    end).
Definition pull_more (retryInterval : Z) (deadline : Time.time) (waitCh : option chan)
    : Handler (option (result ConnectError (option DockerQueryTask))) :=
  HDo Clock (λ now,
    let remaining := (deadline - now)%Z in
    if decide (remaining ≤ 0)%Z then HRet (Some (Ok None))
    else pull_signal waitCh (now + minDuration remaining (longPollRetryInterval retryInterval))%Z).
Definition pulled_task (query : dockerAgentQuery) : result ConnectError (option DockerQueryTask) :=
  match dockerProtoQueryTask query with
  | Err e => Err (NewError CodeInternal e)
  | Ok protoQuery => Ok (Some protoQuery)
  end.
Definition pull_turn (retryInterval : Z) (nodeID : string) (deadline : Time.time) (waitCh : option chan)
    : Handler (option (result ConnectError (option DockerQueryTask))) :=
  pulled ⇜ locked (MPull nodeID);
  match pulled with
  | Some query => HRet (Some (pulled_task query))
  | None => pull_more retryInterval deadline waitCh
  end.
Definition PullNextDockerQuery (configured : bool) (maxWait retryInterval : Z) (ctx : Context_) (nodeID : string)
    : Handler (result ConnectError (option DockerQueryTask)) :=
  if decide (nodeID = "") then HRet (Err (NewError CodeInvalidArgument "node_id is required"))
  else if decide (BearerSubject ctx ≠ Some nodeID)
  then HRet (Err (NewError CodeUnauthenticated "node_id does not match bearer token"))
  else if negb configured then HRet (Err (NewError CodeInternal "docker query broker is not configured"))
  else
    waitCh ⇜ locked (MSubscribeNode nodeID);
    HDo Clock (λ start,
      Loop (pull_turn retryInterval nodeID (start + longPollMaxWait maxWait)%Z waitCh) (λ r,
        _ ⇜ locked (MUnsubscribeNode nodeID waitCh); HRet r)).

(** ** Reports *)
Section reports.
Context `{DockerJSON}.

Definition protoTimestampString (value : Timestamp) : string :=
  match value with
  | None => ""
  | Some t => format_rfc3339 t
  end.

Definition controllerContainerInfos (values : list ContainerInfo) : list ContainerInfo :=
  (λ v, MkContainerInfo (ci_Id v) (ci_Name v) (ci_Image v) (ci_State v) (ci_Status v) (ci_Created v) (ci_Labels v)
     (ci_Ports v) (ci_Networks v) (ci_ImageId v)) <$> values.
Definition controllerNetworkInfos (values : list NetworkInfo) : list NetworkInfo :=
  (λ v, MkNetworkInfo (ni_Id v) (ni_Name v) (ni_Driver v) (ni_Scope v) (ni_Internal v) (ni_Attachable v)
     (ni_Created v) (ni_Labels v) (ni_Subnet v) (ni_Gateway v) (ni_ContainersCount v) (ni_Ipv6Enabled v)) <$> values.
Definition controllerVolumeInfos (values : list VolumeInfo) : list VolumeInfo :=
  (λ v, MkVolumeInfo (vi_Name v) (vi_Driver v) (vi_Mountpoint v) (vi_Scope v) (vi_Created v) (vi_Labels v)
     (vi_SizeBytes v) (vi_ContainersCount v) (vi_InUse v)) <$> values.
Definition controllerImageInfos (values : list ImageInfo) : list ImageInfo :=
  (λ v, MkImageInfo (ii_Id v) (ii_RepoTags v) (ii_Size v) (ii_VirtualSize v) (ii_Created v) (ii_RepoDigests v)
     (ii_Architecture v) (ii_Os v) (ii_Author v) (ii_ContainersCount v) (ii_IsDangling v)) <$> values.

Definition marshalDockerQueryPayload (payload : dockerListResult) : result string string :=
  match marshal_list_result payload with
  | Ok encoded => Ok encoded
  | Err _ => Err "encode docker query result"
  end.
Definition payload_exec (r : ExecResponse) : dockerExecResult :=
  MkExecResult (xp_ExitCode r) (xp_Stdout r) (xp_Stderr r) (xp_TimedOut r) (xp_StdoutTruncated r)
    (xp_StderrTruncated r) (protoTimestampString (xp_StartedAt r)) (protoTimestampString (xp_FinishedAt r))
    (xp_Duration r).
Definition dockerQueryPayloadJSON (req : ReportDockerQueryResultRequest) : result string string :=
  match rq_Result req with
  | ListContainersReport l n => marshalDockerQueryPayload (containers_result (controllerContainerInfos l) n)
  | InspectContainerReport rawJson | InspectNetworkReport rawJson | InspectVolumeReport rawJson
  | InspectImageReport rawJson => marshalDockerQueryPayload (raw_result rawJson)
  | ListNetworksReport l n => marshalDockerQueryPayload (networks_result (controllerNetworkInfos l) n)
  | ListVolumesReport l n => marshalDockerQueryPayload (volumes_result (controllerVolumeInfos l) n)
  | ListImagesReport l n => marshalDockerQueryPayload (images_result (controllerImageInfos l) n)
  | ContainerLogsReport content => marshalDockerQueryPayload (content_result content)
  | RunContainerExecReport r => marshalDockerQueryPayload (exec_result (payload_exec r))
  | NoReport =>
      if decide (rq_ErrorCode req ≠ DOCKER_QUERY_ERROR_CODE_UNSPECIFIED ∨ rq_ErrorMessage req ≠ "")
      then Ok "" else Err "docker query result is required"
  end.
Definition dockerQueryErrorCodeText (value : DockerQueryErrorCode) : string :=
  match value with
  | DOCKER_QUERY_ERROR_CODE_INVALID_ARGUMENT => "invalid_argument"
  | DOCKER_QUERY_ERROR_CODE_NOT_FOUND => "not_found"
  | DOCKER_QUERY_ERROR_CODE_FAILED_PRECONDITION => "failed_precondition"
  | DOCKER_QUERY_ERROR_CODE_PERMISSION_DENIED => "permission_denied"
  | DOCKER_QUERY_ERROR_CODE_DEADLINE_EXCEEDED => "deadline_exceeded"
  | DOCKER_QUERY_ERROR_CODE_UNAVAILABLE => "unavailable"
  | DOCKER_QUERY_ERROR_CODE_INTERNAL => "internal"
  | DOCKER_QUERY_ERROR_CODE_UNSPECIFIED => ""
  end.

(** What the broker is given of a report. *)
Definition reported_result (req : ReportDockerQueryResultRequest) (payloadJSON : string) : dockerAgentQueryResult :=
  MkQueryResult (rq_QueryId req) (rq_NodeId req) payloadJSON (rq_ErrorMessage req) (dockerQueryErrorCodeText (rq_ErrorCode req)).
Definition ReportDockerQueryResult (configured : bool) (ctx : Context_) (req : ReportDockerQueryResultRequest)
    : Handler (result ConnectError ()) :=
  if decide (rq_QueryId req = "" ∨ rq_NodeId req = "")
  then HRet (Err (NewError CodeInvalidArgument "query_id and node_id are required"))
  else if decide (BearerSubject ctx ≠ Some (rq_NodeId req))
  then HRet (Err (NewError CodeUnauthenticated "node_id does not match bearer token"))
  else if negb configured then HRet (Err (NewError CodeInternal "docker query broker is not configured"))
  else match dockerQueryPayloadJSON req with
       | Err e => HRet (Err (NewError CodeInvalidArgument e))
       | Ok payloadJSON =>
           stored ⇜ locked (MStoreResult (reported_result req payloadJSON));
           HRet (match stored with
                 | Err e => Err (NewError CodeFailedPrecondition e)
                 | Ok _ => Ok ()
                 end)
       end.

(** ** docker_query_service.go and RunContainerExec *)
Definition new_query (Action Resource ID : string) : dockerAgentQuery :=
  MkQuery "" "" Action Resource ID "" false 0 0 "" "" false false [] "" 0 0 Time.zero.
Definition decode_payload (what : string) (r : result ConnectError dockerAgentQueryResult)
    : result ConnectError dockerListResult :=
  match r with
  | Err e => Err e
  | Ok r => match unmarshal_list_result (qr_PayloadJSON r) with
            | Err _ => Err (NewError CodeInternal what)
            | Ok payload => Ok payload
            end
  end.
Definition list_query (resource : string) (req : ListRequest) (includeSizes : bool) (timeout : Z) : dockerAgentQuery :=
  MkQuery "" "" dockerActionList resource "" "" false (lr_PageSize req) (lr_Page req) (lr_Search req) (lr_SortBy req)
    (lr_SortDesc req) includeSizes [] "" timeout 0 Time.zero.
Definition executeDockerListQuery (configured : bool) (nodeID resource : string) (req : ListRequest)
    (includeSizes : bool) : Handler (result ConnectError dockerListResult) :=
  let timeout := if decide (resource = dockerResourceVolumes ∧ includeSizes = true)
                 then dockerVolumeSizeQueryTimeout else 0%Z in
  r ⇜ executeDockerAgentQuery configured nodeID (list_query resource req includeSizes timeout);
  HRet (decode_payload "decode docker list result" r).
Definition executeDockerInspectQuery (configured : bool) (nodeID resource id : string)
    : Handler (result ConnectError dockerListResult) :=
  r ⇜ executeDockerAgentQuery configured nodeID (new_query dockerActionInspect resource id);
  HRet (decode_payload "decode docker inspect result" r).

Definition map_ok {A B} (f : A → B) (r : result ConnectError A) : result ConnectError B :=
  match r with Ok a => Ok (f a) | Err e => Err e end.
Definition require {A} (present : bool) (message : string) (p : Handler (result ConnectError A))
    : Handler (result ConnectError A) :=
  if present then p else HRet (Err (NewError CodeInvalidArgument message)).
Definition given (s : string) : bool := bool_decide (s ≠ "").

(** The requests of the clients carry the node and a list request. *)
Definition list_node {A} (configured : bool) (resource nodeID : string) (req : ListRequest) (includeSizes : bool)
    (items : dockerListResult → list A) : Handler (result ConnectError (list A * Z)) :=
  require (given nodeID) "node_id is required" (
    r ⇜ executeDockerListQuery configured nodeID resource req includeSizes;
    HRet (map_ok (λ payload, (items payload, dl_TotalCount payload)) r)).
Definition ListNodeContainers configured nodeID req := list_node configured dockerResourceContainers nodeID req false dl_Containers.
Definition ListNodeNetworks configured nodeID req := list_node configured dockerResourceNetworks nodeID req false dl_Networks.
Definition ListNodeVolumes configured nodeID req (includeSizes : bool) :=
  list_node configured dockerResourceVolumes nodeID req includeSizes dl_Volumes.
Definition ListNodeImages configured nodeID req := list_node configured dockerResourceImages nodeID req false dl_Images.

Definition inspect_node (configured : bool) (resource nodeID id message : string)
    : Handler (result ConnectError string) :=
  require (given nodeID && given id) message (
    r ⇜ executeDockerInspectQuery configured nodeID resource id; HRet (map_ok dl_RawJSON r)).
Definition InspectNodeContainer configured nodeID containerID :=
  inspect_node configured dockerResourceContainer nodeID containerID "node_id and container_id are required".
Definition InspectNodeNetwork configured nodeID networkID :=
  inspect_node configured dockerResourceNetwork nodeID networkID "node_id and network_id are required".
Definition InspectNodeVolume configured nodeID volumeName :=
  inspect_node configured dockerResourceVolume nodeID volumeName "node_id and volume_name are required".
Definition InspectNodeImage configured nodeID imageID :=
  inspect_node configured dockerResourceImage nodeID imageID "node_id and image_id are required".

Definition protoTimestampFromString (value : string) : Timestamp :=
  if decide (TrimSpace value = "") then None else parse_rfc3339_text value.
Definition exec_response (r : dockerExecResult) : ExecResponse :=
  MkExecResponse (er_ExitCode r) (er_Stdout r) (er_Stderr r) (er_TimedOut r) (er_StdoutTruncated r)
    (er_StderrTruncated r) (protoTimestampFromString (er_StartedAt r)) (protoTimestampFromString (er_FinishedAt r))
    (er_Duration r).
Definition exec_query (req : ExecRequest) : dockerAgentQuery :=
  MkQuery "" "" dockerActionExec dockerResourceContainer (xr_ContainerId req) "" false 0 0 "" "" false false
    (xr_Command req) (xr_Stdin req) (xr_TimeoutSeconds req * Time.Second)%Z (xr_MaxOutputBytes req) Time.zero.
Definition RunContainerExec (configured : bool) (nodeID : string) (req : ExecRequest)
    : Handler (result ConnectError ExecResponse) :=
  require (given nodeID && given (xr_ContainerId req) && bool_decide (xr_Command req ≠ []))
    "node_id, container_id, and command are required" (
    r ⇜ executeDockerAgentQuery configured nodeID (exec_query req);
    HRet (match decode_payload "decode docker exec result" r with
          | Err e => Err e
          | Ok payload => match dl_Exec payload with
                          | None => Err (NewError CodeInternal "docker exec result is missing")
                          | Some exec => Ok (exec_response exec)
                          end
          end)).
End reports.
