(* ===== verification/DockerSystem.v ===== *)
(** * The goroutines around the broker of Docker queries

    Requests, pulling agents and reports come at any time and run
    concurrently: a step of the system is an operation of one goroutine, a
    new goroutine, or time that passes ([system_step]).  The broker calls
    that had an effect are recorded ([s_history]).  What a query goes through
    is an automaton of its own, the specification: it waits, is handed to an
    agent of its node, has a result, and is over, each at most once
    ([legal]).  The broker holds the queries the automaton says are on
    their way, except those whose time has run out. *)
From S2P Require Export DockerHandlers.

(** ** The system *)
Inductive QueryEvent : Type :=
| Enqueued (q : dockerAgentQuery)
| Handed (nodeID : string) (q : dockerAgentQuery)
| Reported (r : dockerAgentQueryResult)
| Answered (queryID : string) (r : dockerAgentQueryResult)
| Cancelled (queryID : string).
(** The event of a call, if it did something to a query. *)
Definition event_of {X} (m : Method X) : X → option QueryEvent :=
  match m in Method X return X → option QueryEvent with
  | MEnqueue _ q => λ _, Some (Enqueued q)
  | MPull nodeID => fmap (Handed nodeID)
  | MStoreResult r => λ x, match x with Ok _ => Some (Reported r) | Err _ => None end
  | MPopResult queryID => fmap (Answered queryID)
  | MCancel queryID => λ _, Some (Cancelled queryID)
  | _ => λ _, None
  end.

(** A goroutine, with what it was asked and what is left of it. *)
Inductive Goroutine : Type :=
| Querying (nodeID : string) (query : dockerAgentQuery) (p : Handler (result ConnectError dockerAgentQueryResult))
| Pulling (ctx : Context_) (nodeID : string) (p : Handler (result ConnectError (option DockerQueryTask)))
| Reporting (ctx : Context_) (req : ReportDockerQueryResultRequest) (p : Handler (result ConnectError ())).

Record System := MkSystem {
  s_clock : Time.time;
  s_broker : dockerQueryBroker;
  s_uuids : gset string;
  s_goroutines : gmap nat Goroutine;
  s_history : list (nat * QueryEvent);
}.
Definition set_broker b (s : System) : System :=
  MkSystem (s_clock s) b (s_uuids s) (s_goroutines s) (s_history s).
Definition add_history (i : nat) (e : option QueryEvent) (s : System) : System :=
  MkSystem (s_clock s) (s_broker s) (s_uuids s) (s_goroutines s)
    (s_history s ++ (match e with Some e => [(i, e)] | None => [] end)).
Definition draw_uuid (id : string) (s : System) : System :=
  MkSystem (s_clock s) (s_broker s) ({[id]} ∪ s_uuids s) (s_goroutines s) (s_history s).
Definition set_goroutine (i : nat) (g : Goroutine) (s : System) : System :=
  MkSystem (s_clock s) (s_broker s) (s_uuids s) (<[i := g]> (s_goroutines s)) (s_history s).
Definition set_clock (t : Time.time) (s : System) : System :=
  MkSystem t (s_broker s) (s_uuids s) (s_goroutines s) (s_history s).
(** The value of a channel was received. *)
Definition receive (ch : chan) (b : dockerQueryBroker) : dockerQueryBroker :=
  set_channels (<[ch := ChanOpen false]> (bk_channels b)) (bk_panicked b) b.

Section system.
Context `{DnsState} `{GitState} `{!Environment} `{DockerJSON}.
Context (cfg : ControllerConfig) (maxWait retryInterval : Z).

Definition validateNodeForDockerQuery (nodeID : string) : M () := validateTaskTargetNode cfg nodeID TypeDockerStart.

(** What an operation of goroutine [i] answers and changes.  An identifier
    that was drawn is drawn by nobody else; the check of a node sees whatever
    the database holds. *)
Definition perform_op (i : nat) {X} (o : HandlerOp X) (s : System) : X → System → Prop :=
  match o in HandlerOp X return X → System → Prop with
  | Clock => λ x s', x = s_clock s ∧ s' = s
  | NewUUID => λ x s', (x ∉ s_uuids s) ∧ x ≠ "" ∧ s' = draw_uuid x s
  | ValidateNode nodeID => λ x s', s' = s ∧ ∃ w w', validateNodeForDockerQuery nodeID w = (w', x)
  | Locked m => λ x s',
      let '(b, y) := call_method m (s_clock s) (s_broker s) in
      x = y ∧ s' = add_history i (event_of m x) (set_broker b s)
  | Select ch timer => λ x s',
      match x with
      | CtxDone _ => s' = s
      | TimerFired => s' = s ∧ (timer ≤ s_clock s)%Z
      | Received => ∃ c, ch = Some c ∧
          ((bk_channels (s_broker s) !! c = Some (ChanOpen true) ∧ s' = set_broker (receive c (s_broker s)) s) ∨
           (bk_channels (s_broker s) !! c = Some ChanClosed ∧ s' = s))
      end
  end.
Definition handler_step {A} (i : nat) (s : System) (p : Handler A) : System → Handler A → Prop :=
  match p in Handler A return System → Handler A → Prop with
  | HRet _ => λ _ _, False
  | HDo o k => λ s' p', ∃ x, perform_op i o s x s' ∧ p' = k x
  | Loop body k => λ s' p',
      s' = s ∧ p' = handler_bind body (λ r, match r with Some a => k a | None => Loop body k end)
  end.

(** The queries the handlers ask: without an identifier or a time to live. *)
Definition fresh_query (q : dockerAgentQuery) : Prop := qa_QueryID q = "" ∧ qa_expiresAt q = Time.zero.
Inductive started : Goroutine → Prop :=
| started_query nodeID query : fresh_query query →
    started (Querying nodeID query (executeDockerAgentQuery true nodeID query))
| started_pull ctx nodeID :
    started (Pulling ctx nodeID (PullNextDockerQuery true maxWait retryInterval ctx nodeID))
| started_report ctx req : started (Reporting ctx req (ReportDockerQueryResult true ctx req)).
Inductive goroutine_step (i : nat) (s : System) : Goroutine → System → Goroutine → Prop :=
| query_step nodeID query p s' p' : handler_step i s p s' p' →
    goroutine_step i s (Querying nodeID query p) s' (Querying nodeID query p')
| pull_step ctx nodeID p s' p' : handler_step i s p s' p' →
    goroutine_step i s (Pulling ctx nodeID p) s' (Pulling ctx nodeID p')
| report_step ctx req p s' p' : handler_step i s p s' p' →
    goroutine_step i s (Reporting ctx req p) s' (Reporting ctx req p').
Inductive system_step (s : System) : System → Prop :=
| time_passes t : (s_clock s ≤ t)%Z → system_step s (set_clock t s)
| goroutine_starts i g : s_goroutines s !! i = None → started g → system_step s (set_goroutine i g s)
| goroutine_runs i g s' g' : s_goroutines s !! i = Some g → goroutine_step i s g s' g' →
    system_step s (set_goroutine i g' s').

Definition initial (s : System) : Prop :=
  s_broker s = newDockerQueryBroker ∧ s_goroutines s = ∅ ∧ s_history s = [].
Definition docker_reachable (s : System) : Prop := ∃ s0, initial s0 ∧ rtc system_step s0 s.
End system.

(** ** The specification: the life of a query *)
Inductive Phase : Type :=
| PWaiting (q : dockerAgentQuery)
| PHanded (q : dockerAgentQuery)
| PReady (q : dockerAgentQuery) (r : dockerAgentQueryResult)
| POver (q : dockerAgentQuery) (r : option dockerAgentQueryResult).
Definition phase_query (p : Phase) : dockerAgentQuery :=
  match p with PWaiting q | PHanded q | PReady q _ | POver q _ => q end.
Definition is_over (p : Phase) : bool := match p with POver _ _ => true | _ => false end.

(** The queries that were asked, each with the goroutine that asked. *)
Abbreviation Phases := (gmap string (nat * Phase)).
Definition move (id : string) (f : Phase → Phase) (ph : Phases) : Phases := alter (prod_map (λ i : nat, i) f) id ph.
Definition phase_after (ph : Phases) (e : nat * QueryEvent) : Phases :=
  match e.2 with
  | Enqueued q => <[qa_QueryID q := (e.1, PWaiting q)]> ph
  | Handed _ q => move (qa_QueryID q) (λ p, PHanded (phase_query p)) ph
  | Reported r => move (qr_QueryID r) (λ p, PReady (phase_query p) r) ph
  | Answered id r => move id (λ p, POver (phase_query p) (Some r)) ph
  | Cancelled id => move id (λ p, POver (phase_query p) None) ph
  end.
Definition phases (h : list (nat * QueryEvent)) : Phases := foldl phase_after ∅ h.

(** What may happen to a query. *)
Inductive allowed (ph : Phases) : nat * QueryEvent → Prop :=
| may_enqueue i q : ph !! qa_QueryID q = None → allowed ph (i, Enqueued q)
| may_hand i j q : ph !! qa_QueryID q = Some (j, PWaiting q) → allowed ph (i, Handed (qa_NodeID q) q)
| may_report i j q r : ph !! qr_QueryID r = Some (j, PHanded q) → qr_NodeID r = qa_NodeID q →
    allowed ph (i, Reported r)
| may_answer i q id r : ph !! id = Some (i, PReady q r) → allowed ph (i, Answered id r)
| may_cancel i p id : ph !! id = Some (i, p) → is_over p = false → allowed ph (i, Cancelled id).
Inductive legal : list (nat * QueryEvent) → Prop :=
| legal_nil : legal []
| legal_snoc h e : legal h → allowed (phases h) e → legal (h ++ [e]).

(** ** What the broker holds *)
Definition queue_of (b : dockerQueryBroker) (nodeID : string) : list dockerAgentQuery :=
  default [] (bk_pendingByNode b !! nodeID).
Definition assignment (q : dockerAgentQuery) : assignedDockerQuery := MkAssigned (qa_NodeID q) (qa_expiresAt q).
Definition stored_result (q : dockerAgentQuery) (r : dockerAgentQueryResult) : storedDockerQueryResult :=
  MkStored r (qa_expiresAt q + dockerQueryCleanupGrace)%Z.

(** Nothing but what the specification says, in one place each ... *)
Record holds_only (ph : Phases) (b : dockerQueryBroker) : Prop := MkHoldsOnly {
  queued : ∀ nodeID q, q ∈ queue_of b nodeID →
    qa_NodeID q = nodeID ∧ ∃ i, ph !! qa_QueryID q = Some (i, PWaiting q);
  queued_once : ∀ nodeID, NoDup (qa_QueryID <$> queue_of b nodeID);
  assigned : ∀ id a, bk_assignedByID b !! id = Some a →
    ∃ i q, ph !! id = Some (i, PHanded q) ∧ a = assignment q;
  ready : ∀ id st, bk_results b !! id = Some st →
    ∃ i q r, ph !! id = Some (i, PReady q r) ∧ st = stored_result q r;
}.
(** ... and all of it that has not expired. *)
Definition held (b : dockerQueryBroker) (id : string) (p : Phase) : Prop :=
  match p with
  | PWaiting q => q ∈ queue_of b (qa_NodeID q)
  | PHanded q => bk_assignedByID b !! id = Some (assignment q)
  | PReady q r => bk_results b !! id = Some (stored_result q r)
  | POver _ _ => True
  end.
Definition broker_holds (now : Time.time) (ph : Phases) (b : dockerQueryBroker) : Prop :=
  holds_only ph b ∧
  ∀ id i p, ph !! id = Some (i, p) → (now < qa_expiresAt (phase_query p))%Z → held b id p.
