(* ===== verification/DockerInvariant.v ===== *)
(** * The invariant of Docker queries

    What a call does to the maps of the broker, where a goroutine may be, who
    is subscribed and woken up, and the invariant of the system. *)

(** ** The broker of Docker queries holds what the specification says

    Each method of the broker, at any instant, does to its maps what the
    event of the call does to the phases of the queries ([call_holds]). *)
From S2P Require Export DockerSystem.

(** ** Phases *)
Definition phases_ok (ph : Phases) : Prop := ∀ id i p, ph !! id = Some (i, p) → qa_QueryID (phase_query p) = id.

Lemma lookup_move id f ph id' :
  move id f ph !! id' = if decide (id = id') then prod_map (λ i, i) f <$> ph !! id else ph !! id'.
Proof. unfold move. apply lookup_alter. Qed.
Lemma lookup_move_eq id f ph i p : ph !! id = Some (i, p) → move id f ph !! id = Some (i, f p).
Proof. intros Hp. rewrite lookup_move, decide_True by done. by rewrite Hp. Qed.
Lemma lookup_move_ne id f ph id' : id ≠ id' → move id f ph !! id' = ph !! id'.
Proof. intros Hne. by rewrite lookup_move, decide_False. Qed.

Lemma phases_ok_move id f ph : (∀ p, phase_query (f p) = phase_query p) → phases_ok ph → phases_ok (move id f ph).
Proof.
  intros Hf Hok id' i p. rewrite lookup_move. case_decide as Hid; [subst|apply Hok].
  destruct (ph !! id') as [[j p0]|] eqn:Hp; [|done]. cbn. intros [= <- <-]. rewrite Hf. by eapply Hok.
Qed.
Lemma phases_ok_after ph e : phases_ok ph → phases_ok (phase_after ph e).
Proof.
  destruct e as [i [q|n q|r|id r|id]]; unfold phase_after; cbn -[move]; intros Hok.
  2-5: by apply phases_ok_move.
  intros id j p. rewrite lookup_insert. case_decide; [|apply Hok]. by intros [= <- <-].
Qed.
Lemma phases_snoc h e : phases (h ++ [e]) = phase_after (phases h) e.
Proof. unfold phases. by rewrite foldl_app. Qed.
Lemma phases_wf h : phases_ok (phases h).
Proof.
  induction h as [|e h IH] using rev_ind; [intros ??? [=]|]. rewrite phases_snoc. by apply phases_ok_after.
Qed.

(** ** Parts of the broker *)
Definition same_store (b b' : dockerQueryBroker) : Prop :=
  bk_pendingByNode b' = bk_pendingByNode b ∧ bk_assignedByID b' = bk_assignedByID b ∧ bk_results b' = bk_results b.
#[export] Instance same_store_preorder : PreOrder same_store.
Proof. split; [done|]. intros b1 b2 b3 (?&?&?) (?&?&?). unfold same_store. split_and!; congruence. Qed.

Lemma same_store_holds now ph b b' : same_store b b' → broker_holds now ph b → broker_holds now ph b'.
Proof.
  destruct b, b'. intros (Hp & Ha & Hr) [[H1 H2 H3 H4] H5]. cbn in Hp, Ha, Hr. subst.
  split; [by split|]. intros id i p Hi Hn. specialize (H5 id i p Hi Hn). by destruct p.
Qed.
Lemma notify_same ch b : same_store b (notify ch b).
Proof. unfold notify. by destruct (bk_channels b !! ch) as [[|]|]. Qed.
Lemma close_same ch b : same_store b (close ch b).
Proof. unfold close. by destruct (bk_channels b !! ch) as [[|]|]. Qed.
Lemma notify_all_same chs b : same_store b (notify_all chs b).
Proof. unfold notify_all. induction (elements chs) as [|ch l IH]; cbn; [done|]. etransitivity; [exact IH|apply notify_same]. Qed.

(** ** Queues *)
Lemma queue_of_set p b nodeID : queue_of (set_pending p b) nodeID = default [] (p !! nodeID).
Proof. done. Qed.
Lemma queue_of_filter P `{∀ q, Decision (P q)} p nodeID :
  default [] (filter_pending P p !! nodeID) = filter P (default [] (p !! nodeID)).
Proof.
  unfold filter_pending. rewrite lookup_omap. destruct (p !! nodeID) as [l|]; cbn; [|done].
  by case_decide as Hl; [rewrite Hl|].
Qed.

Section parts.
Context (now : Time.time) (ph : Phases) (b : dockerQueryBroker).
Hypothesis (Hok : phases_ok ph) (Hholds : broker_holds now ph b).

Lemma holds_later now' : (now ≤ now')%Z → broker_holds now' ph b.
Proof. intros Hle. destruct Hholds as [Hb Hheld]. split; [done|]. intros id i p Hp Hn. eapply Hheld; [done|]. lia. Qed.

Lemma holds_filter P `{∀ q, Decision (P q)} :
  (∀ id i q, ph !! id = Some (i, PWaiting q) → (now < qa_expiresAt q)%Z → P q) →
  broker_holds now ph (set_pending (filter_pending P (bk_pendingByNode b)) b).
Proof.
  intros HP. destruct Hholds as [[H1 H2 H3 H4] H5].
  split; [split; [| |done|done]|].
  - intros nodeID q. rewrite queue_of_set, queue_of_filter, list_elem_of_filter. intros [_ Hq]. by apply H1.
  - intros nodeID. rewrite queue_of_set, queue_of_filter. eapply sublist_NoDup; [apply H2|apply fmap_sublist, sublist_filter].
  - intros id i p Hp Hn. specialize (H5 id i p Hp Hn). destruct p; cbn in *; try done.
    rewrite queue_of_set, queue_of_filter, list_elem_of_filter. split; [by eapply HP|done].
Qed.
Lemma holds_assigned (P : string * assignedDockerQuery → Prop) `{∀ e, Decision (P e)} :
  (∀ id i q, ph !! id = Some (i, PHanded q) → (now < qa_expiresAt q)%Z → P (id, assignment q)) →
  broker_holds now ph (set_assigned (filter P (bk_assignedByID b)) b).
Proof.
  intros HP. destruct Hholds as [[H1 H2 H3 H4] H5]. split; [split; [done|done| |done]|].
  - intros id a. cbn. rewrite map_lookup_filter_Some. intros [Ha _]. by apply H3.
  - intros id i p Hp Hn. specialize (H5 id i p Hp Hn). destruct p; cbn in *; try done.
    rewrite map_lookup_filter_Some. split; [done|by eapply HP].
Qed.
Lemma holds_results (P : string * storedDockerQueryResult → Prop) `{∀ e, Decision (P e)} :
  (∀ id i q r, ph !! id = Some (i, PReady q r) → (now < qa_expiresAt q)%Z → P (id, stored_result q r)) →
  broker_holds now ph (set_results (filter P (bk_results b)) b).
Proof.
  intros HP. destruct Hholds as [[H1 H2 H3 H4] H5]. split; [split; [done|done|done|]|].
  - intros id st. cbn. rewrite map_lookup_filter_Some. intros [Ha _]. by apply H4.
  - intros id i p Hp Hn. specialize (H5 id i p Hp Hn). destruct p; cbn in *; try done.
    rewrite map_lookup_filter_Some. split; [done|by eapply HP].
Qed.
End parts.

Lemma sweep_holds now now' ph b : (now' ≤ now)%Z → phases_ok ph → broker_holds now ph b →
  broker_holds now ph (sweepExpiredLocked now' b).
Proof.
  intros Hle Hok Hh. unfold sweepExpiredLocked, expired, dockerQueryCleanupGrace, Time.Minute, Time.Second.
  apply holds_results; [apply holds_assigned; [apply holds_filter; [done|]|]|]; cbn; unfold dockerQueryCleanupGrace,
    Time.Minute, Time.Second; intros; lia.
Qed.

(** ** Methods *)
Lemma holds_enqueue now before ph b i q :
  (before ≤ now)%Z → phases_ok ph → broker_holds now ph b → ph !! qa_QueryID q = None →
  broker_holds now (phase_after ph (i, Enqueued q)) (enqueue_locked before q b).
Proof.
  intros Hle Hok Hh Hnew. unfold enqueue_locked. eapply same_store_holds; [apply notify_all_same|].
  apply (sweep_holds now before) in Hh; [|done..]. clear Hle. revert Hh. generalize (sweepExpiredLocked before b). clear b.
  intros b [[H1 H2 H3 H4] H5]. unfold phase_after. cbn.
  assert (∀ id p, ph !! id = Some p → <[qa_QueryID q := (i, PWaiting q)]> ph !! id = Some p) as Hold.
  { intros id p Hp. rewrite lookup_insert_ne; [done|]. intros <-. congruence. }
  assert (∀ nodeID, queue_of (set_pending (<[qa_NodeID q := queue_of b (qa_NodeID q) ++ [q]]> (bk_pendingByNode b)) b) nodeID =
            queue_of b nodeID ++ (if decide (qa_NodeID q = nodeID) then [q] else [])) as Hqueue.
  { intros nodeID. rewrite queue_of_set. case_decide as Hn; [subst; by rewrite lookup_insert_eq|].
    by rewrite lookup_insert_ne, app_nil_r. }
  fold (queue_of b (qa_NodeID q)). split; [split|].
  - intros nodeID q'. rewrite Hqueue, elem_of_app. intros [Hq|Hq].
    + destruct (H1 _ _ Hq) as [Hn [j Hj]]. split; [done|]. exists j. by apply Hold.
    + case_decide; [|by apply not_elem_of_nil in Hq]. apply list_elem_of_singleton in Hq as ->.
      split; [done|]. exists i. apply lookup_insert_eq.
  - intros nodeID. rewrite Hqueue. case_decide; [|rewrite app_nil_r; apply H2].
    rewrite fmap_app. apply NoDup_app. split_and!; [apply H2| |apply NoDup_singleton].
    intros id (q' & -> & Hq)%list_elem_of_fmap Hid. apply list_elem_of_singleton in Hid.
    destruct (H1 _ _ Hq) as [_ [j Hj]]. congruence.
  - intros id a Ha. destruct (H3 id a Ha) as (j & q' & Hp & ->). exists j, q'. split; [by apply Hold|done].
  - intros id st Hs. destruct (H4 id st Hs) as (j & q' & r & Hp & ->). exists j, q', r. split; [by apply Hold|done].
  - intros id j p. rewrite lookup_insert. case_decide as Hid.
    + intros [= <- <-] _. cbn. rewrite Hqueue, decide_True by done. apply elem_of_app. right. by apply list_elem_of_singleton.
    + intros Hp Hn. specialize (H5 id j p Hp Hn). destruct p; cbn in *; try done.
      rewrite Hqueue. apply elem_of_app. by left.
Qed.

(** A query that moves on: the others stay where they are. *)
Lemma held_others id f ph now b b' :
  (∀ id' i p, id' ≠ id → ph !! id' = Some (i, p) → held b id' p → held b' id' p) →
  (∀ i p, ph !! id = Some (i, p) → (now < qa_expiresAt (phase_query (f p)))%Z → held b' id (f p)) →
  broker_holds now ph b →
  ∀ id' i p, move id f ph !! id' = Some (i, p) → (now < qa_expiresAt (phase_query p))%Z → held b' id' p.
Proof.
  intros Hothers Hid [_ Hheld] id' i p. rewrite lookup_move. case_decide as Heq.
  - subst. destruct (ph !! id') as [[j p0]|] eqn:Hp; [|done]. cbn. intros [= <- <-]. by eapply Hid.
  - intros Hp Hn. eapply Hothers; [by intros ->|done|by eapply Hheld].
Qed.

Lemma holds_pull now ph b nodeID b' x i :
  phases_ok ph → broker_holds now ph b → Pull now nodeID b = (b', x) →
  match x with
  | None => broker_holds now ph b'
  | Some q => allowed ph (i, Handed nodeID q) ∧ broker_holds now (phase_after ph (i, Handed nodeID q)) b'
  end.
Proof.
  unfold Pull. intros Hok Hh. case_decide as Hnode; [by intros [= <- <-]|].
  apply (sweep_holds now now) in Hh; [|lia|done]. revert Hh. generalize (sweepExpiredLocked now b). clear b. intros b Hh.
  fold (queue_of b nodeID). destruct (queue_of b nodeID) as [|q queue] eqn:Hq; intros [= <- <-]; [done|].
  destruct Hh as [[H1 H2 H3 H4] H5] eqn:Hheld. clear Hheld.
  assert (q ∈ queue_of b nodeID) as Hin by (rewrite Hq; apply list_elem_of_here).
  destruct (H1 _ _ Hin) as [Hn [j Hj]].
  split; [rewrite <- Hn; by eapply may_hand|]. unfold phase_after. cbn [fst snd].
  set (b1 := set_pending _ b). set (b2 := set_assigned _ b1).
  assert (∀ nodeID', queue_of b2 nodeID' = if decide (nodeID' = nodeID) then queue else queue_of b nodeID') as Hqueue.
  { intros nodeID'. unfold queue_of at 1. cbn. repeat case_decide; subst; try done.
    - by rewrite lookup_delete_eq.
    - by rewrite lookup_delete_ne.
    - by rewrite lookup_insert_eq.
    - by rewrite lookup_insert_ne. }
  assert (∀ nodeID' q', q' ∈ queue_of b2 nodeID' → q' ∈ queue_of b nodeID' ∧ qa_QueryID q' ≠ qa_QueryID q) as Hrest.
  { intros nodeID' q'. rewrite Hqueue. case_decide as Hd; [subst nodeID'|].
    - intros Hq'. rewrite Hq. split; [by apply list_elem_of_further|]. specialize (H2 nodeID). rewrite Hq in H2.
      cbn in H2. apply NoDup_cons in H2 as [Hno _]. intros Heq. apply Hno. rewrite <- Heq.
      by apply list_elem_of_fmap_2.
    - intros Hq'. split; [done|]. intros Heq. destruct (H1 _ _ Hq') as [Hn' [j' Hj']].
      rewrite Heq, Hj in Hj'. congruence. }
  split; [split|].
  - intros nodeID' q' [Hq' Hne]%Hrest. destruct (H1 _ _ Hq') as [Hn' [j' Hj']]. split; [done|]. exists j'.
    by rewrite lookup_move_ne.
  - intros nodeID'. rewrite Hqueue. specialize (H2 nodeID'). case_decide as Hd; [|done]. subst nodeID'. rewrite Hq in H2.
    by apply NoDup_cons in H2 as [_ ?].
  - intros id a. cbn. rewrite lookup_insert. case_decide as Hid.
    + intros [= <-]. exists j, q. subst id. rewrite (lookup_move_eq _ _ _ _ _ Hj). split; [done|]. unfold assignment. by rewrite Hn.
    + intros Ha. destruct (H3 id a Ha) as (j' & q' & Hp & ->). exists j', q'. split; [by rewrite lookup_move_ne|done].
  - intros id st Hs. destruct (H4 id st Hs) as (j' & q' & r & Hp & ->). exists j', q', r. split; [|done].
    rewrite lookup_move_ne; [done|]. intros <-. congruence.
  - eapply (held_others _ _ ph now b); [| |done].
    + intros id' i' p Hne Hp. destruct p as [q'|q'|q' r|q' r]; cbn -[queue_of]; try done.
      * rewrite Hqueue. case_decide as Hd; [|done]. rewrite Hd, Hq. intros [->|?]%elem_of_cons; [|done].
        apply Hok in Hp. by cbn in Hp.
      * by rewrite lookup_insert_ne.
    + intros i' p Hp _. rewrite Hj in Hp. injection Hp as <- <-. cbn. rewrite lookup_insert_eq. unfold assignment. by rewrite Hn.
Qed.

(** The methods on results drop or add a single entry. *)
Lemma holds_store now ph b r b' x i :
  phases_ok ph → broker_holds now ph b → StoreResult now r b = (b', x) →
  match x with
  | Err _ => broker_holds now ph b'
  | Ok _ => allowed ph (i, Reported r) ∧ broker_holds now (phase_after ph (i, Reported r)) b'
  end.
Proof.
  unfold StoreResult. intros Hok Hh. apply (sweep_holds now now) in Hh; [|lia|done].
  revert Hh. generalize (sweepExpiredLocked now b). clear b. intros b Hh.
  destruct (bk_assignedByID b !! qr_QueryID r) as [a|] eqn:Ha; [|by intros [= <- <-]].
  case_decide as Hempty; [by intros [= <- <-]|]. case_decide as Hnode; [by intros [= <- <-]|].
  intros [= <- <-]. pose proof Hh as [[H1 H2 H3 H4] H5].
  destruct (H3 _ _ Ha) as (j & q & Hj & ->). cbn in Hnode, Hempty. symmetry in Hnode.
  split; [by eapply may_report|]. eapply same_store_holds; [apply notify_all_same|]. unfold phase_after. cbn [fst snd].
  split; [split|].
  - intros nodeID q' Hq'. destruct (H1 _ _ Hq') as [Hn [j' Hj']]. split; [done|]. exists j'.
    rewrite lookup_move_ne; [done|]. congruence.
  - done.
  - intros id a'. cbn. rewrite lookup_delete_Some. intros [Hne Ha']. destruct (H3 id a' Ha') as (j' & q' & Hp & ->).
    exists j', q'. by rewrite lookup_move_ne.
  - intros id st. cbn. rewrite lookup_insert. case_decide as Hid.
    + intros [= <-]. exists j, q, r. subst id. by rewrite (lookup_move_eq _ _ _ _ _ Hj).
    + intros Hs. destruct (H4 id st Hs) as (j' & q' & r' & Hp & ->). exists j', q', r'. by rewrite lookup_move_ne.
  - eapply (held_others _ _ ph now b); [| |done].
    + intros id' i' p Hne Hp. destruct p; cbn; try done; [by rewrite lookup_delete_ne|by rewrite lookup_insert_ne].
    + intros i' p Hp _. rewrite Hj in Hp. injection Hp as <- <-. cbn. by rewrite lookup_insert_eq.
Qed.

Lemma holds_pop now ph b queryID b' x i j p :
  phases_ok ph → broker_holds now ph b → PopResult now queryID b = (b', x) →
  ph !! queryID = Some (j, p) → i = j →
  match x with
  | None => broker_holds now ph b' ∧ bk_results b' !! queryID = None ∨ queryID = ""
  | Some r => allowed ph (i, Answered queryID r) ∧ broker_holds now (phase_after ph (i, Answered queryID r)) b'
  end.
Proof.
  unfold PopResult. intros Hok Hh. case_decide as Hid; [intros [= <- <-]; by right|].
  apply (sweep_holds now now) in Hh; [|lia|done]. revert Hh. generalize (sweepExpiredLocked now b). clear b. intros b Hh.
  destruct (bk_results b !! queryID) as [st|] eqn:Hs; intros [= <- <-] Hp ->; [|by left].
  pose proof Hh as [[H1 H2 H3 H4] H5]. destruct (H4 _ _ Hs) as (j' & q & r & Hp' & ->).
  rewrite Hp in Hp'. injection Hp' as <- ->. cbn. split; [by eapply may_answer|]. unfold phase_after. cbn [fst snd].
  split; [split|].
  - intros nodeID q' Hq'. destruct (H1 _ _ Hq') as [Hn [j' Hj']]. split; [done|]. exists j'.
    rewrite lookup_move_ne; [done|]. congruence.
  - done.
  - intros id a Ha. destruct (H3 id a Ha) as (j' & q' & Hp' & ->). exists j', q'.
    rewrite lookup_move_ne; [done|]. congruence.
  - intros id st. cbn. rewrite lookup_delete_Some. intros [Hne Hst]. destruct (H4 id st Hst) as (j' & q' & r' & Hp' & ->).
    exists j', q', r'. by rewrite lookup_move_ne.
  - eapply (held_others _ _ ph now b); [|done|done].
    intros id' i' p Hne Hp'. destruct p; cbn; try done. by rewrite lookup_delete_ne.
Qed.

Lemma holds_cancel now ph b queryID i p :
  phases_ok ph → broker_holds now ph b → queryID ≠ "" → ph !! queryID = Some (i, p) → is_over p = false →
  allowed ph (i, Cancelled queryID) ∧ broker_holds now (phase_after ph (i, Cancelled queryID)) (Cancel queryID b).
Proof.
  unfold Cancel. intros Hok Hh Hid Hp Hover. rewrite decide_False by done. cbv zeta. split; [by eapply may_cancel|].
  unfold phase_after. cbn [fst snd]. pose proof Hh as [[H1 H2 H3 H4] H5]. split; [split|].
  - intros nodeID q'. rewrite queue_of_set, queue_of_filter, list_elem_of_filter. intros [Hne Hq'].
    destruct (H1 _ _ Hq') as [Hn [j' Hj']]. split; [done|]. exists j'. by rewrite lookup_move_ne.
  - intros nodeID. rewrite queue_of_set, queue_of_filter.
    eapply sublist_NoDup; [apply H2|apply fmap_sublist, sublist_filter].
  - intros id a. cbn. rewrite lookup_delete_Some. intros [Hne Ha]. destruct (H3 id a Ha) as (j' & q' & Hp' & ->).
    exists j', q'. by rewrite lookup_move_ne.
  - intros id st. cbn. rewrite lookup_delete_Some. intros [Hne Hst]. destruct (H4 id st Hst) as (j' & q' & r' & Hp' & ->).
    exists j', q', r'. by rewrite lookup_move_ne.
  - eapply (held_others _ _ ph now b); [|done|done].
    intros id' i' p' Hne Hp'. destruct p'; unfold held; try done; [|cbn; by rewrite lookup_delete_ne..].
    intros Hq. rewrite queue_of_set, queue_of_filter, list_elem_of_filter. split; [|done].
    apply Hok in Hp'. cbn in Hp'. congruence.
Qed.

(** ** Any call *)
Definition asked_by (ph : Phases) (i : nat) (queryID : string) : Prop :=
  queryID ≠ "" ∧ ∃ p, ph !! queryID = Some (i, p) ∧ is_over p = false.
(** What the handlers make sure of before they call. *)
Definition call_ok {X} (m : Method X) (now : Time.time) (ph : Phases) (i : nat) : Prop :=
  match m with
  | MEnqueue before q => (before ≤ now)%Z ∧ ph !! qa_QueryID q = None
  | MPopResult queryID | MCancel queryID => asked_by ph i queryID
  | _ => True
  end.
Definition events (i : nat) (e : option QueryEvent) : list (nat * QueryEvent) :=
  match e with Some e => [(i, e)] | None => [] end.

Lemma subscribe_same b nodeID b' ch :
  SubscribeNode nodeID b = (b', ch) ∨ SubscribeResult nodeID b = (b', ch) → same_store b b'.
Proof. unfold SubscribeNode, SubscribeResult. unfold make_channel. intros [Hs|Hs]; case_decide; simplify_eq/=; by split_and!. Qed.
Lemma unsubscribe_same b key ch : same_store b (UnsubscribeNode key ch b) ∧ same_store b (UnsubscribeResult key ch b).
Proof.
  unfold UnsubscribeNode, UnsubscribeResult. destruct ch as [ch|]; [|by split]. case_decide; [by split|].
  split; case_decide; try done; destruct (close_same ch b) as (H1 & H2 & H3); by split_and!.
Qed.

Lemma call_holds {X} (m : Method X) now h b i b' x :
  legal h → broker_holds now (phases h) b → call_ok m now (phases h) i → call_method m now b = (b', x) →
  let h' := h ++ events i (event_of m x) in legal h' ∧ broker_holds now (phases h') b'.
Proof.
  intros Hl Hh Hcall. pose proof (phases_wf h) as Hok.
  assert (∀ e, allowed (phases h) (i, e) ∧ broker_holds now (phase_after (phases h) (i, e)) b' →
            legal (h ++ [(i, e)]) ∧ broker_holds now (phases (h ++ [(i, e)])) b') as Hevent.
  { intros e [Ha Hb]. rewrite phases_snoc. by split; [apply legal_snoc|]. }
  assert (same_store b b' → legal (h ++ []) ∧ broker_holds now (phases (h ++ [])) b') as Hsilent.
  { intros Hs. rewrite app_nil_r. split; [done|]. by eapply same_store_holds. }
  destruct m as [nodeID|nodeID ch|before q|nodeID|queryID|queryID ch|r|queryID|queryID]; cbn in *.
  - intros Hc. apply Hsilent. eapply subscribe_same. by left.
  - intros [= <- <-]. apply Hsilent, unsubscribe_same.
  - intros [= <- <-]. destruct Hcall as [Hle Hnew]. apply Hevent. split; [by apply may_enqueue|by apply holds_enqueue].
  - intros Hc. pose proof (holds_pull _ _ _ _ _ _ i Hok Hh Hc) as Hp. destruct x as [q|]; cbn; [by apply Hevent|].
    rewrite app_nil_r. by split.
  - intros Hc. apply Hsilent. eapply subscribe_same. by right.
  - intros [= <- <-]. apply Hsilent, unsubscribe_same.
  - intros Hc. pose proof (holds_store _ _ _ _ _ _ i Hok Hh Hc) as Hp. destruct x as [u|er]; cbn; [by apply Hevent|].
    rewrite app_nil_r. by split.
  - intros Hc. destruct Hcall as [Hid (p & Hp & _)].
    pose proof (holds_pop _ _ _ _ _ _ i i p Hok Hh Hc Hp eq_refl) as Hr. destruct x as [r|]; cbn; [by apply Hevent|].
    rewrite app_nil_r. destruct Hr as [[Hr _]|Hr]; [by split|done].
  - intros [= <- <-]. destruct Hcall as [Hid (p & Hp & Hover)]. apply Hevent. by eapply holds_cancel.
Qed.

(** ** Where a goroutine of a Docker query may be

    The programs of the three handlers have finitely many shapes, a point
    each: what is left of a handler is the program of a point, and a step
    leads from a point to a point ([point_step]). *)

Ltac answered x := eexists; split; [|exists x; split; [done|reflexivity]].
Ltac silent := eexists; split; [|split; [done|reflexivity]].

(** ** executeDockerAgentQuery *)
Section points.
Context `{DnsState} `{GitState} `{!Environment} `{DockerJSON}.
Context (cfg : ControllerConfig) (maxWait retryInterval : Z).

Section query.
Context (nodeID : string) (query : dockerAgentQuery).

Inductive QPoint : Type :=
| QValidate
| QRefused (e : ConnectError)
| QUuid
| QClock (q : dockerAgentQuery)
| QEnqueue (q : dockerAgentQuery) (now : Time.time)
| QStart (q : dockerAgentQuery)
| QSubscribe (q : dockerAgentQuery) (deadline : Time.time)
| QLoop (q : dockerAgentQuery) (deadline : Time.time) (ch : option chan)
| QPop (q : dockerAgentQuery) (deadline : Time.time) (ch : option chan)
| QNow (q : dockerAgentQuery) (deadline : Time.time) (ch : option chan)
| QSelect (q : dockerAgentQuery) (deadline : Time.time) (ch : option chan) (timer : Time.time)
| QCancel (q : dockerAgentQuery) (deadline : Time.time) (ch : option chan) (e : WaitError)
| QUnsubscribe (q : dockerAgentQuery) (ch : option chan) (r : result WaitError dockerAgentQueryResult)
| QEnd (q : dockerAgentQuery) (r : result WaitError dockerAgentQueryResult).

(** What is left after the result, after a turn of the loop, and before. *)
Definition q_end (r : result WaitError dockerAgentQueryResult)
    : Handler (result ConnectError dockerAgentQueryResult) := HRet (query_answer r).
Definition q_left (q : dockerAgentQuery) (ch : option chan) (r : result WaitError dockerAgentQueryResult)
    : Handler (result ConnectError dockerAgentQueryResult) :=
  handler_bind (handler_bind (locked (MUnsubscribeResult (qa_QueryID q) ch)) (λ _, HRet r)) q_end.
Definition q_loop (q : dockerAgentQuery) (deadline : Time.time) (ch : option chan)
    : Handler (result ConnectError dockerAgentQueryResult) :=
  Loop (wait_turn (qa_QueryID q) deadline ch) (q_left q ch).
Definition q_turn (q : dockerAgentQuery) (deadline : Time.time) (ch : option chan)
    (p : Handler (option (result WaitError dockerAgentQueryResult))) : Handler (result ConnectError dockerAgentQueryResult) :=
  handler_bind p (λ r, match r with Some a => q_left q ch a | None => q_loop q deadline ch end).
Definition q_ask (m : Handler string) : Handler (result ConnectError dockerAgentQueryResult) :=
  handler_bind m (λ queryID, handler_bind (WaitResult queryID (wait_timeout query)) q_end).

Definition q_prog (pt : QPoint) : Handler (result ConnectError dockerAgentQueryResult) :=
  match pt with
  | QValidate => executeDockerAgentQuery true nodeID query
  | QRefused e => HRet (Err e)
  | QUuid => q_ask (Enqueue (with_NodeID nodeID query))
  | QClock q => q_ask (enqueue_query q)
  | QEnqueue q now => q_ask (handler_bind (locked (MEnqueue now q)) (λ _, HRet (qa_QueryID q)))
  | QStart q => handler_bind (WaitResult (qa_QueryID q) (wait_timeout query)) q_end
  | QSubscribe q deadline =>
      HDo (Locked (MSubscribeResult (qa_QueryID q))) (λ ch, q_loop q deadline ch)
  | QLoop q deadline ch => q_loop q deadline ch
  | QPop q deadline ch => q_turn q deadline ch (wait_turn (qa_QueryID q) deadline ch)
  | QNow q deadline ch => q_turn q deadline ch (wait_more (qa_QueryID q) deadline ch)
  | QSelect q deadline ch timer => q_turn q deadline ch (wait_signal (qa_QueryID q) ch timer)
  | QCancel q deadline ch e => q_turn q deadline ch (cancel_wait (qa_QueryID q) e)
  | QUnsubscribe q ch r => q_left q ch r
  | QEnd q r => q_end r
  end.

(** A step from a point: its operation, and where the answer leads. *)
Definition q_step (i : nat) (s : System) (pt : QPoint) (s' : System) (pt' : QPoint) : Prop :=
  match pt with
  | QValidate => ∃ x, perform_op cfg i (ValidateNode nodeID) s x s' ∧
      pt' = match x with Err e => QRefused e | Ok _ => QUuid end
  | QUuid => ∃ x, perform_op cfg i NewUUID s x s' ∧ pt' = QClock (with_QueryID x (with_NodeID nodeID query))
  | QClock q => s' = s ∧ pt' = QEnqueue (stamp (s_clock s) q) (s_clock s)
  | QEnqueue q now => ∃ x, perform_op cfg i (Locked (MEnqueue now q)) s x s' ∧ pt' = QStart q
  | QStart q => s' = s ∧ pt' = QSubscribe q (s_clock s + wait_timeout query)%Z
  | QSubscribe q deadline => ∃ ch, perform_op cfg i (Locked (MSubscribeResult (qa_QueryID q))) s ch s' ∧
      pt' = QLoop q deadline ch
  | QLoop q deadline ch => s' = s ∧ pt' = QPop q deadline ch
  | QPop q deadline ch => ∃ x, perform_op cfg i (Locked (MPopResult (qa_QueryID q))) s x s' ∧
      pt' = match x with Some r => QUnsubscribe q ch (Ok r) | None => QNow q deadline ch end
  | QNow q deadline ch => s' = s ∧
      (pt' = QCancel q deadline ch WaitTimeout ∨ pt' = QSelect q deadline ch deadline)
  | QSelect q deadline ch timer => ∃ w, perform_op cfg i (Select ch timer) s w s' ∧
      pt' = match w with
            | CtxDone d => QCancel q deadline ch (ContextError d)
            | Received => QLoop q deadline ch
            | TimerFired => QCancel q deadline ch WaitTimeout
            end
  | QCancel q deadline ch e => ∃ x, perform_op cfg i (Locked (MCancel (qa_QueryID q))) s x s' ∧
      pt' = QUnsubscribe q ch (Err e)
  | QUnsubscribe q ch r => ∃ x, perform_op cfg i (Locked (MUnsubscribeResult (qa_QueryID q) ch)) s x s' ∧ pt' = QEnd q r
  | QRefused _ | QEnd _ _ => False
  end.

Lemma q_prog_step (Hfresh : fresh_query query) i s pt s' p' :
  handler_step cfg i s (q_prog pt) s' p' → ∃ pt', p' = q_prog pt' ∧ q_step i s pt s' pt'.
Proof.
  destruct pt; cbn -[perform_op]; intros Hs.
  - destruct Hs as (x & Hx & ->). answered x. by destruct x.
  - done.
  - revert Hs. unfold q_ask, Enqueue. rewrite decide_True by apply Hfresh. intros (x & Hx & ->).
    by answered x.
  - destruct Hs as (x & [-> ->] & ->). by silent.
  - destruct Hs as (x & Hx & ->). by answered x.
  - destruct Hs as (x & [-> ->] & ->). by silent.
  - destruct Hs as (x & Hx & ->). by answered x.
  - destruct Hs as (-> & ->). by silent.
  - destruct Hs as (x & Hx & ->). answered x. by destruct x.
  - destruct Hs as (x & [-> ->] & ->). case_decide.
    + by exists (QCancel q deadline ch WaitTimeout); split; [|split; [|left]].
    + exists (QSelect q deadline ch deadline). split; [|split; [done|by right]].
      by replace (s_clock s + (deadline - s_clock s))%Z with deadline by lia.
  - destruct Hs as (x & Hx & ->). answered x. by destruct x.
  - destruct Hs as (x & Hx & ->). by answered x.
  - destruct Hs as (x & Hx & ->). by answered x.
  - done.
Qed.
End query.

(** ** PullNextDockerQuery *)
Section pull.
Context (nodeID : string).

Abbreviation pull_result := (result ConnectError (option DockerQueryTask)).
Inductive PPoint : Type :=
| PSubscribe
| PStart (ch : option chan)
| PLoop (deadline : Time.time) (ch : option chan)
| PPull (deadline : Time.time) (ch : option chan)
| PNow (deadline : Time.time) (ch : option chan)
| PSelect (deadline : Time.time) (ch : option chan) (timer : Time.time)
| PUnsubscribe (ch : option chan) (r : pull_result)
| PEnd (r : pull_result).

Definition p_left (ch : option chan) (r : pull_result) : Handler pull_result :=
  handler_bind (locked (MUnsubscribeNode nodeID ch)) (λ _, HRet r).
Definition p_loop (deadline : Time.time) (ch : option chan) : Handler pull_result :=
  Loop (pull_turn retryInterval nodeID deadline ch) (p_left ch).
Definition p_turn (deadline : Time.time) (ch : option chan) (p : Handler (option pull_result)) : Handler pull_result :=
  handler_bind p (λ r, match r with Some a => p_left ch a | None => p_loop deadline ch end).
Definition p_start (ch : option chan) : Handler pull_result :=
  HDo Clock (λ start, p_loop (start + longPollMaxWait maxWait)%Z ch).
Definition p_prog (pt : PPoint) : Handler pull_result :=
  match pt with
  | PSubscribe => HDo (Locked (MSubscribeNode nodeID)) p_start
  | PStart ch => p_start ch
  | PLoop deadline ch => p_loop deadline ch
  | PPull deadline ch => p_turn deadline ch (pull_turn retryInterval nodeID deadline ch)
  | PNow deadline ch => p_turn deadline ch (pull_more retryInterval deadline ch)
  | PSelect deadline ch timer => p_turn deadline ch (pull_signal ch timer)
  | PUnsubscribe ch r => p_left ch r
  | PEnd r => HRet r
  end.
Definition p_step (i : nat) (s : System) (pt : PPoint) (s' : System) (pt' : PPoint) : Prop :=
  match pt with
  | PSubscribe => ∃ ch, perform_op cfg i (Locked (MSubscribeNode nodeID)) s ch s' ∧ pt' = PStart ch
  | PStart ch => s' = s ∧ pt' = PLoop (s_clock s + longPollMaxWait maxWait)%Z ch
  | PLoop deadline ch => s' = s ∧ pt' = PPull deadline ch
  | PPull deadline ch => ∃ x, perform_op cfg i (Locked (MPull nodeID)) s x s' ∧
      pt' = match x with Some q => PUnsubscribe ch (pulled_task q) | None => PNow deadline ch end
  | PNow deadline ch => s' = s ∧
      (pt' = PUnsubscribe ch (Ok None) ∨ ∃ timer, pt' = PSelect deadline ch timer)
  | PSelect deadline ch timer => ∃ w, perform_op cfg i (Select ch timer) s w s' ∧
      pt' = match w with
            | CtxDone d => PUnsubscribe ch (Err (wait_error (ContextError d)))
            | Received | TimerFired => PLoop deadline ch
            end
  | PUnsubscribe ch r => ∃ x, perform_op cfg i (Locked (MUnsubscribeNode nodeID ch)) s x s' ∧ pt' = PEnd r
  | PEnd _ => False
  end.

Lemma p_prog_step i s pt s' p' :
  handler_step cfg i s (p_prog pt) s' p' → ∃ pt', p' = p_prog pt' ∧ p_step i s pt s' pt'.
Proof.
  destruct pt; cbn -[perform_op]; intros Hs.
  - destruct Hs as (x & Hx & ->). by answered x.
  - destruct Hs as (x & [-> ->] & ->). by silent.
  - destruct Hs as (-> & ->). by silent.
  - destruct Hs as (x & Hx & ->). answered x. by destruct x.
  - destruct Hs as (x & [-> ->] & ->). case_decide.
    + by exists (PUnsubscribe ch (Ok None)); split; [|split; [|left]].
    + eexists. split; [|split; [done|right; by eexists]]. done.
  - destruct Hs as (x & Hx & ->). answered x. by destruct x.
  - destruct Hs as (x & Hx & ->). by answered x.
  - done.
Qed.

Lemma p_prog_started ctx :
  (∃ r, (∀ t, r ≠ Ok (Some t)) ∧ PullNextDockerQuery true maxWait retryInterval ctx nodeID = p_prog (PEnd r)) ∨
  (nodeID ≠ "" ∧ ctx = Some nodeID ∧
   PullNextDockerQuery true maxWait retryInterval ctx nodeID = p_prog PSubscribe).
Proof.
  unfold PullNextDockerQuery, BearerSubject. case_decide; [left; by eexists; split; [|reflexivity]|].
  case_decide; [left; by eexists; split; [|reflexivity]|]. right. split_and!; [done|done|]. reflexivity.
Qed.
End pull.

(** ** ReportDockerQueryResult *)
Inductive RPoint : Type :=
| RStore (r : dockerAgentQueryResult)
| REnd (r : result ConnectError ()).
Definition r_prog (pt : RPoint) : Handler (result ConnectError ()) :=
  match pt with
  | RStore r => handler_bind (locked (MStoreResult r)) (λ stored,
      HRet (match stored with Err e => Err (NewError CodeFailedPrecondition e) | Ok _ => Ok () end))
  | REnd r => HRet r
  end.
Definition r_step (i : nat) (s : System) (pt : RPoint) (s' : System) (pt' : RPoint) : Prop :=
  match pt with
  | RStore r => ∃ x, perform_op cfg i (Locked (MStoreResult r)) s x s' ∧
      pt' = REnd (match x with Err e => Err (NewError CodeFailedPrecondition e) | Ok _ => Ok () end)
  | REnd _ => False
  end.
Lemma r_prog_step i s pt s' p' :
  handler_step cfg i s (r_prog pt) s' p' → ∃ pt', p' = r_prog pt' ∧ r_step i s pt s' pt'.
Proof. destruct pt; cbn -[perform_op]; intros Hs; [|done]. destruct Hs as (x & Hx & ->). by answered x. Qed.
Lemma r_prog_started ctx req : ∃ pt, ReportDockerQueryResult true ctx req = r_prog pt ∧
  match pt with RStore r => qr_NodeID r = rq_NodeId req ∧ ctx = Some (rq_NodeId req) | REnd _ => True end.
Proof.
  unfold ReportDockerQueryResult, BearerSubject. case_decide; [by eexists (REnd _)|]. case_decide as Hctx; [by eexists (REnd _)|].
  cbn. destruct (dockerQueryPayloadJSON req) as [payload|er]; [|by eexists (REnd _)].
  eexists (RStore _). split; [reflexivity|done].
Qed.

(** ** Any goroutine *)
Inductive Point : Type :=
| AtQuery (nodeID : string) (query : dockerAgentQuery) (pt : QPoint)
| AtPull (ctx : Context_) (nodeID : string) (pt : PPoint)
| AtReport (ctx : Context_) (req : ReportDockerQueryResultRequest) (pt : RPoint).
Definition goroutine_at (pt : Point) : Goroutine :=
  match pt with
  | AtQuery nodeID query pt => Querying nodeID query (q_prog nodeID query pt)
  | AtPull ctx nodeID pt => Pulling ctx nodeID (p_prog nodeID pt)
  | AtReport ctx req pt => Reporting ctx req (r_prog pt)
  end.
Definition point_step (i : nat) (s : System) (pt : Point) (s' : System) (pt' : Point) : Prop :=
  match pt, pt' with
  | AtQuery nodeID query pt, AtQuery nodeID' query' pt' =>
      nodeID' = nodeID ∧ query' = query ∧ q_step nodeID query i s pt s' pt'
  | AtPull ctx nodeID pt, AtPull ctx' nodeID' pt' => ctx' = ctx ∧ nodeID' = nodeID ∧ p_step nodeID i s pt s' pt'
  | AtReport ctx req pt, AtReport ctx' req' pt' => ctx' = ctx ∧ req' = req ∧ r_step i s pt s' pt'
  | _, _ => False
  end.
Definition point_fresh (pt : Point) : Prop :=
  match pt with AtQuery _ query _ => fresh_query query | _ => True end.

Lemma goroutine_at_step i s pt s' g' : point_fresh pt → goroutine_step cfg i s (goroutine_at pt) s' g' →
  ∃ pt', g' = goroutine_at pt' ∧ point_step i s pt s' pt' ∧ point_fresh pt'.
Proof.
  destruct pt; cbn; intros Hf Hs; inversion Hs; subst.
  - match goal with Hh : handler_step _ _ _ _ _ _ |- _ => apply q_prog_step in Hh as (pt' & -> & Hh); [|done] end.
    by exists (AtQuery nodeID query pt').
  - match goal with Hh : handler_step _ _ _ _ _ _ |- _ => apply p_prog_step in Hh as (pt' & -> & Hh) end.
    by exists (AtPull ctx nodeID pt').
  - match goal with Hh : handler_step _ _ _ _ _ _ |- _ => apply r_prog_step in Hh as (pt' & -> & Hh) end.
    by exists (AtReport ctx req pt').
Qed.
End points.

(** ** Channels of the broker of Docker queries

    Who is subscribed after a call, which channels are open, and whom a call
    wakes up ([call_channels]). *)

(** A subscription: for a result or for a node, its key and its channel. *)
Abbreviation Subscription := (bool * string * chan)%type.
Definition subscribers (result_side : bool) (b : dockerQueryBroker) : gmap string (gset chan) :=
  if result_side then bk_resultSubscribers b else bk_nodeSubscribers b.
Definition subbed (b : dockerQueryBroker) (t : Subscription) : Prop := subscribed t.1.2 t.2 (subscribers t.1.1 b).
Definition is_open (b : dockerQueryBroker) (ch : chan) : Prop := ∃ v, bk_channels b !! ch = Some (ChanOpen v).
Definition signalled (b : dockerQueryBroker) (ch : chan) : Prop := bk_channels b !! ch = Some (ChanOpen true).
(** Something to do for who is subscribed: a result, or a query in the queue. *)
Definition work (result_side : bool) (key : string) (b : dockerQueryBroker) : Prop :=
  if result_side then is_Some (bk_results b !! key) else queue_of b key ≠ [].
Definition all_open (b : dockerQueryBroker) : Prop := ∀ t, subbed b t → is_open b t.2.

Definition added {X} (m : Method X) : X → option Subscription :=
  match m in Method X return X → option Subscription with
  | MSubscribeNode nodeID => fmap (pair (false, nodeID))
  | MSubscribeResult queryID => fmap (pair (true, queryID))
  | _ => λ _, None
  end.
Definition removed {X} (m : Method X) : option Subscription :=
  match m with
  | MUnsubscribeNode nodeID ch => pair (false, nodeID) <$> ch
  | MUnsubscribeResult queryID ch => pair (true, queryID) <$> ch
  | _ => None
  end.
(** The channel a call makes or closes. *)
Definition own {X} (m : Method X) (x : X) : option chan :=
  match added m x with Some t => Some t.2 | None => snd <$> removed m end.

Record channels_after {X} (m : Method X) (x : X) (b b' : dockerQueryBroker) : Prop := MkChannelsAfter {
  ca_subbed : ∀ t, subbed b' t ↔ (subbed b t ∧ removed m ≠ Some t) ∨ added m x = Some t;
  ca_open : ∀ ch v, own m x ≠ Some ch → bk_channels b !! ch = Some (ChanOpen v) →
    ∃ v', bk_channels b' !! ch = Some (ChanOpen v') ∧ (v = true → v' = true);
  ca_fresh : ∀ t, added m x = Some t → bk_channels b !! t.2 = None ∧ is_open b' t.2;
  ca_work : ∀ t, subbed b t → work t.1.1 t.1.2 b' → work t.1.1 t.1.2 b ∨ signalled b' t.2;
  ca_panicked : bk_panicked b' = bk_panicked b;
}.

(** ** Subscriptions *)
Lemma subscribed_subscribe key ch S key' ch' :
  subscribed key' ch' (subscribe key ch S) ↔ subscribed key' ch' S ∨ (key', ch') = (key, ch).
Proof.
  unfold subscribed, subscribe. rewrite lookup_insert. case_decide as Hk; [subst; cbn|].
  - rewrite elem_of_union, elem_of_singleton. split; [intros [->|?]; auto|intros [?|[= ->]]; auto].
  - split; [auto|]. by intros [?|[= -> ->]].
Qed.
Lemma subscribed_unsubscribe key ch S key' ch' :
  subscribed key' ch' (unsubscribe key ch S) ↔ subscribed key' ch' S ∧ (key', ch') ≠ (key, ch).
Proof.
  unfold subscribed, unsubscribe. destruct (S !! key) as [chs|] eqn:HS.
  - assert (default ∅ ((if decide (chs ∖ {[ch]} = ∅) then delete key S else <[key := chs ∖ {[ch]}]> S) !! key') =
             if decide (key' = key) then chs ∖ {[ch]} else default ∅ (S !! key')) as ->.
    { case_decide as He; case_decide as Hk; subst.
      - by rewrite lookup_delete_eq, He.
      - by rewrite lookup_delete_ne.
      - by rewrite lookup_insert_eq.
      - by rewrite lookup_insert_ne. }
    case_decide as Hk; [subst; rewrite HS; cbn; set_solver|]. split; [intros ?; split; congruence|tauto].
  - split; [|tauto]. intros Hin. split; [done|]. intros [= -> ->]. rewrite HS in Hin. set_solver.
Qed.

(** ** Notifications *)
Lemma notify_open ch v b : bk_channels b !! ch = Some (ChanOpen v) →
  notify ch b = set_channels (<[ch := ChanOpen true]> (bk_channels b)) (bk_panicked b) b.
Proof. intros Hv. unfold notify. by rewrite Hv. Qed.
Lemma notify_all_spec chs b : (∀ ch, ch ∈ chs → is_open b ch) →
  bk_panicked (notify_all chs b) = bk_panicked b ∧
  bk_nodeSubscribers (notify_all chs b) = bk_nodeSubscribers b ∧
  bk_resultSubscribers (notify_all chs b) = bk_resultSubscribers b ∧
  ∀ ch, bk_channels (notify_all chs b) !! ch = if decide (ch ∈ chs) then Some (ChanOpen true) else bk_channels b !! ch.
Proof.
  intros Hopen. unfold notify_all.
  assert (∀ l, (∀ ch, ch ∈ l → is_open b ch) →
    bk_panicked (foldr notify b l) = bk_panicked b ∧
    bk_nodeSubscribers (foldr notify b l) = bk_nodeSubscribers b ∧
    bk_resultSubscribers (foldr notify b l) = bk_resultSubscribers b ∧
    ∀ ch, bk_channels (foldr notify b l) !! ch = if decide (ch ∈ l) then Some (ChanOpen true) else bk_channels b !! ch) as Hl.
  { intros l. induction l as [|c l IH]; cbn; intros Hl.
    { split_and!; [done..|]. intros ch. rewrite decide_False; [done|]. apply not_elem_of_nil. }
    destruct IH as (H1 & H2 & H3 & H4); [intros ch Hch; apply Hl; by apply list_elem_of_further|].
    destruct (Hl c) as [v Hv]; [apply list_elem_of_here|].
    assert (∃ v', bk_channels (foldr notify b l) !! c = Some (ChanOpen v')) as [v' Hv'].
    { pose proof (H4 c) as Hc'. case_decide; [by exists true|exists v; by rewrite Hc']. }
    rewrite (notify_open _ _ _ Hv'). cbn. split_and!; [done..|]. intros ch. rewrite lookup_insert, H4.
    case_decide as Hc; [subst; by rewrite decide_True by apply list_elem_of_here|].
    case_decide; case_decide as Hd; rewrite ?elem_of_cons in Hd; try done; [tauto|].
    destruct Hd as [->|]; [done|tauto]. }
  destruct (Hl (elements chs)) as (H1 & H2 & H3 & H4); [intros ch ?%elem_of_elements; by apply Hopen|].
  split_and!; [done..|]. intros ch. rewrite H4. by repeat case_decide; set_unfold.
Qed.

(** A call that changes no subscription. *)
Lemma same_channels {X} (m : Method X) x b b' :
  added m x = None → removed m = None →
  bk_nodeSubscribers b' = bk_nodeSubscribers b → bk_resultSubscribers b' = bk_resultSubscribers b →
  bk_channels b' = bk_channels b → bk_panicked b' = bk_panicked b →
  (∀ side key, work side key b' → work side key b) → channels_after m x b b'.
Proof.
  intros Ha Hr Hn Hs Hc Hp Hw. split.
  - intros t. rewrite Ha, Hr. unfold subbed, subscribers. rewrite Hn, Hs. split; [by left|]. by intros [[? _]|].
  - intros ch v _ Hv. exists v. by rewrite Hc.
  - intros t. by rewrite Ha.
  - intros t _ Hw'. left. by apply Hw.
  - done.
Qed.
(** ... and then wakes up the subscribers of a key. *)
Lemma notified_channels {X} (m : Method X) x b b1 side key :
  all_open b → added m x = None → removed m = None →
  bk_nodeSubscribers b1 = bk_nodeSubscribers b → bk_resultSubscribers b1 = bk_resultSubscribers b →
  bk_channels b1 = bk_channels b → bk_panicked b1 = bk_panicked b →
  (∀ side' key', (side', key') ≠ (side, key) → work side' key' b1 → work side' key' b) →
  channels_after m x b (notify_all (default ∅ (subscribers side b1 !! key)) b1).
Proof.
  intros Hopen Ha Hr Hn Hs Hc Hp Hw.
  assert (subscribers side b1 = subscribers side b) as Hsub by (unfold subscribers; by rewrite Hn, Hs).
  destruct (notify_all_spec (default ∅ (subscribers side b1 !! key)) b1) as (H1 & H2 & H3 & H4).
  { intros ch Hch. rewrite Hsub in Hch. destruct (Hopen (side, key, ch) Hch) as [v Hv]. exists v. by rewrite Hc. }
  pose proof (notify_all_same (default ∅ (subscribers side b1 !! key)) b1) as (Hq & Has & Hre).
  revert H1 H2 H3 H4 Hq Has Hre. generalize (notify_all (default ∅ (subscribers side b1 !! key)) b1). intros b' H1 H2 H3 H4 Hq Has Hre.
  split.
  - intros t. rewrite Ha, Hr. unfold subbed, subscribers. rewrite H2, H3, Hn, Hs. split; [by left|]. by intros [[? _]|].
  - intros ch v _ Hv. pose proof (H4 ch) as Hch. rewrite Hc, Hv in Hch. case_decide; by eexists.
  - intros t. by rewrite Ha.
  - intros [[side' key'] ch] Hch Hwork. cbn in *.
    destruct (decide ((side', key') = (side, key))) as [[= -> ->]|Hne].
    + right. unfold signalled. rewrite H4, decide_True; [done|]. by rewrite Hsub.
    + left. apply Hw; [done|]. revert Hwork. unfold work, queue_of. by rewrite Hre, Hq.
  - congruence.
Qed.

(** Less in the queues and among the results. *)
Lemma queue_of_sweep now b key :
  queue_of (sweepExpiredLocked now b) key = filter (λ q, ¬ expired now (qa_expiresAt q)) (queue_of b key).
Proof. apply queue_of_filter. Qed.
Lemma work_sweep now b side key : work side key (sweepExpiredLocked now b) → work side key b.
Proof.
  destruct side; unfold work.
  - unfold sweepExpiredLocked. cbn. intros [st [Hst _]%map_lookup_filter_Some]. by exists st.
  - rewrite queue_of_sweep. intros Hne He. apply Hne. by rewrite He.
Qed.
Lemma work_smaller b b' :
  (∀ key, is_Some (bk_results b' !! key) → is_Some (bk_results b !! key)) →
  (∀ key, queue_of b key = [] → queue_of b' key = []) → ∀ side key, work side key b' → work side key b.
Proof. intros Hr Hq [|] key; unfold work; [apply Hr|]. intros Hne He. by apply Hne, Hq. Qed.

(** ** Any call *)
Lemma subscribe_channels (side : bool) key b b' x (m : Method (option chan)) :
  all_open b → added m = fmap (pair (side, key)) → removed m = None →
  (if side then SubscribeResult key b else SubscribeNode key b) = (b', x) → channels_after m x b b'.
Proof.
  intros Hopen Ha Hr.
  assert ((b, None) = (b', x) ∨
    (let ch := fresh (dom (bk_channels b)) in let b1 := (make_channel b).1 in
    ((if side then set_result_subscribers (subscribe key ch (bk_resultSubscribers b1)) b1
      else set_node_subscribers (subscribe key ch (bk_nodeSubscribers b1)) b1), Some ch) = (b', x)) →
    channels_after m x b b') as Hgoal.
  { intros [Hs|Hs]; injection Hs as <- <-.
    { split; [intros t; rewrite Ha, Hr; cbn; split; [by left|by intros [[? _]|]]|intros ch v _ Hv; by exists v|
        intros t; by rewrite Ha|by left|done]. }
    set (ch := fresh (dom (bk_channels b))).
    assert (bk_channels b !! ch = None) as Hfresh by apply not_elem_of_dom, is_fresh.
    split.
    - intros [[side' key'] ch']. rewrite Ha, Hr. cbn. unfold subbed, subscribers.
      destruct side, side'; cbn; rewrite ?subscribed_subscribe; cbn; (split; [intros Hx|intros [[Hx _]|Hx]]);
        try (destruct Hx as [Hx|Hx]); try naive_solver; try (left; split; [assumption|by intros [=]]).
    - intros ch' v Hown Hv. exists v. split; [|done]. unfold own in Hown. rewrite Ha in Hown. cbn in Hown.
      destruct side; cbn; rewrite lookup_insert_ne; congruence.
    - intros t. rewrite Ha. cbn. intros [= <-]. cbn. split; [done|]. exists false. destruct side; cbn; apply lookup_insert_eq.
    - intros t _ Hw. left. by destruct side.
    - by destruct side. }
  intros Hs. apply Hgoal. unfold SubscribeResult, SubscribeNode in Hs. destruct side; case_decide; auto.
Qed.
Lemma unsubscribe_channels (side : bool) key ch b (m : Method ()) :
  all_open b → (∀ x, added m x = None) → removed m = pair (side, key) <$> ch → key ≠ "" →
  channels_after m () b (if side then UnsubscribeResult key ch b else UnsubscribeNode key ch b).
Proof.
  intros Hopen Ha Hr Hkey. unfold UnsubscribeResult, UnsubscribeNode.
  destruct ch as [ch|]; [|destruct side; by apply same_channels].
  assert (∀ b1, b1 = (if decide (subscribed key ch (subscribers side b)) then close ch b else b) →
    bk_panicked b1 = bk_panicked b ∧ bk_nodeSubscribers b1 = bk_nodeSubscribers b ∧
    bk_resultSubscribers b1 = bk_resultSubscribers b ∧ bk_pendingByNode b1 = bk_pendingByNode b ∧
    bk_results b1 = bk_results b ∧ ∀ ch', ch' ≠ ch → bk_channels b1 !! ch' = bk_channels b !! ch') as Hclose.
  { intros b1 ->. case_decide as Hsub; [|done]. destruct (Hopen (side, key, ch) Hsub) as [v Hv]. unfold close. cbn in Hv.
    rewrite Hv. cbn. split_and!; [done..|]. intros ch' Hne. by rewrite lookup_insert_ne. }
  specialize (Hclose _ eq_refl) as (H1 & H2 & H3 & H4 & H5 & H6).
  rewrite (decide_False (P := key = "")) by done. rewrite (decide_False (P := key = "")) by done.
  unfold subscribers in *. split.
  - intros [[side' key'] ch']. rewrite Ha, Hr. cbn. unfold subbed, subscribers.
    destruct side, side'; cbn in *; rewrite ?subscribed_unsubscribe, ?H2, ?H3; naive_solver.
  - intros ch' v Hown Hv. unfold own in Hown. rewrite Ha, Hr in Hown. cbn in Hown. exists v. split; [|done].
    destruct side; cbn in *; rewrite H6; congruence.
  - intros t. by rewrite Ha.
  - intros t _. left. destruct side, t as [[[|] key'] ch']; cbn in *; unfold queue_of in *; cbn in *; by rewrite ?H4, ?H5 in *.
  - destruct side; cbn in *; congruence.
Qed.

Lemma call_channels {X} (m : Method X) now b b' x :
  all_open b → match m with MUnsubscribeNode key _ | MUnsubscribeResult key _ => key ≠ "" | _ => True end →
  call_method m now b = (b', x) → channels_after m x b b'.
Proof.
  intros Hopen Hkey.
  destruct m as [nodeID|nodeID ch|before q|nodeID|queryID|queryID ch|r|queryID|queryID]; cbn.
  - by apply (subscribe_channels false nodeID).
  - intros [= <- <-]. by apply (unsubscribe_channels false nodeID ch).
  - intros [= <- <-]. unfold enqueue_locked, notifyNodeLocked. cbv zeta.
    apply (notified_channels (MEnqueue before q) () b _ false (qa_NodeID q)); try done.
    intros [|] key Hne; [intros Hw; by apply (work_sweep before)|].
    unfold work. rewrite queue_of_set, lookup_insert_ne by congruence. apply (work_sweep before b false).
  - unfold Pull. case_decide; [intros [= <- <-]; by apply same_channels|].
    fold (queue_of (sweepExpiredLocked now b) nodeID).
    destruct (queue_of (sweepExpiredLocked now b) nodeID) as [|q queue] eqn:Hq; intros [= <- <-].
    + apply same_channels; try done. apply work_sweep.
    + apply same_channels; try done. intros side key Hw. apply (work_sweep now). revert side key Hw.
      apply work_smaller; [done|]. intros key Hk. unfold queue_of at 1. cbn.
      destruct (decide (key = nodeID)) as [->|Hne]; [by rewrite Hq in Hk|].
      case_decide; [by rewrite lookup_delete_ne|by rewrite lookup_insert_ne].
  - by apply (subscribe_channels true queryID).
  - intros [= <- <-]. by apply (unsubscribe_channels true queryID ch).
  - unfold StoreResult. destruct (_ !! _) as [a|]; [|intros [= <- <-]; apply same_channels; try done; apply work_sweep].
    case_decide; [intros [= <- <-]; apply same_channels; try done; apply work_sweep|].
    case_decide; [intros [= <- <-]; apply same_channels; try done; apply work_sweep|].
    intros [= <- <-]. unfold notifyResultLocked.
    apply (notified_channels (MStoreResult r) (Ok ()) b _ true (qr_QueryID r)); try done.
    intros side key Hne Hw. apply (work_sweep now). revert Hw. destruct side; unfold work; [|done]. cbn.
    rewrite lookup_insert_ne by congruence. done.
  - unfold PopResult. case_decide; [intros [= <- <-]; by apply same_channels|].
    destruct (_ !! _) as [st|]; intros [= <- <-]; apply same_channels; try done; [|apply work_sweep].
    intros side key Hw. apply (work_sweep now). revert side key Hw. apply work_smaller; [|done]. intros key. cbn.
    rewrite lookup_delete. by case_decide; [intros [? [=]]|].
  - intros [= <- <-]. unfold Cancel. case_decide; apply same_channels; try done. apply work_smaller.
    + intros key. cbn. rewrite lookup_delete. by case_decide; [intros [? [=]]|].
    + intros key Hk. rewrite queue_of_set, queue_of_filter. cbn. fold (queue_of b key). by rewrite Hk.
Qed.

(** ** The invariant of the goroutines around the broker of Docker queries

    In every reachable system the history is legal and the broker holds what
    it says, each goroutine knows the phase of its query, every subscription
    belongs to one goroutine and its channel is open, and who is about to
    wait has been signalled if there is something to do ([system_inv]). *)

(** ** What a goroutine owns *)
Definition q_channel (pt : QPoint) : option (dockerAgentQuery * option chan) :=
  match pt with
  | QLoop q _ ch | QPop q _ ch | QNow q _ ch | QSelect q _ ch _ | QCancel q _ ch _ | QUnsubscribe q ch _ => Some (q, ch)
  | _ => None
  end.
Definition p_channel (pt : PPoint) : option (option chan) :=
  match pt with
  | PStart ch | PLoop _ ch | PPull _ ch | PNow _ ch | PSelect _ ch _ | PUnsubscribe ch _ => Some ch
  | _ => None
  end.
Definition holder (pt : Point) : option Subscription :=
  match pt with
  | AtQuery _ _ pt => '(q, ch) ← q_channel pt; pair (true, qa_QueryID q) <$> ch
  | AtPull _ nodeID pt => ch ← p_channel pt; pair (false, nodeID) <$> ch
  | AtReport _ _ _ => None
  end.
(** About to wait: it has looked for work and found none. *)
Definition waits (pt : Point) : bool :=
  match pt with
  | AtQuery _ _ (QNow _ _ _ | QSelect _ _ _ _) | AtPull _ _ (PNow _ _ | PSelect _ _ _) => true
  | _ => false
  end.
(** The identifier drawn for a query that is not in its queue yet. *)
Definition drawn (pt : Point) : option string :=
  match pt with
  | AtQuery _ _ (QClock q | QEnqueue q _) => Some (qa_QueryID q)
  | _ => None
  end.

(** The query of the request, with an identifier and a time to live. *)
Definition made (nodeID : string) (query q : dockerAgentQuery) : Prop :=
  with_QueryID "" (with_expiresAt Time.zero q) = with_NodeID nodeID query.
Definition ok_value {E A} (r : result E A) : option A := match r with Ok a => Some a | Err _ => None end.

Section invariant.
Context `{DnsState} `{GitState} `{!Environment} `{DockerJSON}.
Context (cfg : ControllerConfig) (maxWait retryInterval : Z).
Abbreviation goroutine_of := (goroutine_at maxWait retryInterval).

Definition q_ok (s : System) (i : nat) (nodeID : string) (query : dockerAgentQuery) (pt : QPoint) : Prop :=
  let ph := phases (s_history s) in
  match pt with
  | QValidate | QRefused _ | QUuid => True
  | QClock q => made nodeID query q ∧ qa_expiresAt q = Time.zero
  | QEnqueue q now => made nodeID query q ∧ (now ≤ s_clock s)%Z ∧ qa_expiresAt q = (now + dockerQueryTTL query)%Z
  | QStart q | QSubscribe q _ => made nodeID query q ∧ asked_by ph i (qa_QueryID q)
  | QLoop q _ ch | QPop q _ ch | QNow q _ ch | QSelect q _ ch _ | QCancel q _ ch _ =>
      made nodeID query q ∧ asked_by ph i (qa_QueryID q) ∧ is_Some ch
  | QUnsubscribe q _ r | QEnd q r =>
      made nodeID query q ∧ qa_QueryID q ≠ "" ∧ ph !! qa_QueryID q = Some (i, POver q (ok_value r))
  end.
(** For the phases before the last, the query of the phase is the one asked. *)
Definition q_knows (s : System) (i : nat) (pt : QPoint) : Prop :=
  match pt with
  | QStart q | QSubscribe q _ | QLoop q _ _ | QPop q _ _ | QNow q _ _ | QSelect q _ _ _ | QCancel q _ _ _ =>
      ∀ j p, phases (s_history s) !! qa_QueryID q = Some (j, p) → phase_query p = q
  | _ => True
  end.
Definition p_ok (s : System) (i : nat) (ctx : Context_) (nodeID : string) (pt : PPoint) : Prop :=
  match pt with
  | PUnsubscribe _ r | PEnd r =>
      ∀ t, r = Ok (Some t) → ∃ q, (i, Handed nodeID q) ∈ s_history s ∧ dockerProtoQueryTask q = Ok t
  | PSubscribe => True
  | PStart ch | PLoop _ ch | PPull _ ch | PNow _ ch | PSelect _ ch _ => is_Some ch
  end ∧ match pt with PEnd _ => True | _ => nodeID ≠ "" ∧ ctx = Some nodeID end.
Definition r_ok (ctx : Context_) (req : ReportDockerQueryResultRequest) (pt : RPoint) : Prop :=
  match pt with RStore r => qr_NodeID r = rq_NodeId req ∧ ctx = Some (rq_NodeId req) | REnd _ => True end.

Record point_ok (s : System) (i : nat) (pt : Point) : Prop := MkPointOk {
  po_fresh : point_fresh pt;
  po_drawn : ∀ id, drawn pt = Some id → id ∈ s_uuids s ∧ id ≠ "" ∧ phases (s_history s) !! id = None;
  po_wakes : ∀ t, holder pt = Some t → waits pt = true → work t.1.1 t.1.2 (s_broker s) → signalled (s_broker s) t.2;
  po_state : match pt with
             | AtQuery nodeID query pt => q_ok s i nodeID query pt ∧ q_knows s i pt
             | AtPull ctx nodeID pt => p_ok s i ctx nodeID pt
             | AtReport ctx req pt => r_ok ctx req pt
             end;
}.
(** Who may have caused an event. *)
Definition event_by (g : Goroutine) (e : QueryEvent) : Prop :=
  match g, e with
  | Querying nodeID query _, Enqueued q => made nodeID query q
  | Querying _ _ _, (Answered _ _ | Cancelled _) => True
  | Pulling ctx nodeID _, Handed nodeID' _ => nodeID' = nodeID ∧ ctx = Some nodeID
  | Reporting ctx req _, Reported r => qr_NodeID r = rq_NodeId req ∧ ctx = Some (rq_NodeId req)
  | _, _ => False
  end.

Record points_inv (s : System) (pts : gmap nat Point) : Prop := MkPointsInv {
  pi_goroutines : s_goroutines s = goroutine_of <$> pts;
  pi_points : ∀ i pt, pts !! i = Some pt → point_ok s i pt;
  pi_drawn : ∀ i j pt pt' id, pts !! i = Some pt → pts !! j = Some pt' →
    drawn pt = Some id → drawn pt' = Some id → i = j;
  pi_holders : ∀ t, subbed (s_broker s) t ↔ ∃ i pt, pts !! i = Some pt ∧ holder pt = Some t;
  pi_unique : ∀ i j pt pt' t t', pts !! i = Some pt → pts !! j = Some pt' →
    holder pt = Some t → holder pt' = Some t' → t.2 = t'.2 → i = j;
  pi_open : all_open (s_broker s);
}.
Record system_inv (s : System) : Prop := MkSystemInv {
  si_legal : legal (s_history s);
  si_holds : broker_holds (s_clock s) (phases (s_history s)) (s_broker s);
  si_uuids : ∀ id, is_Some (phases (s_history s) !! id) → id ∈ s_uuids s;
  si_panicked : bk_panicked (s_broker s) = false;
  si_events : ∀ i e, (i, e) ∈ s_history s → ∃ g, s_goroutines s !! i = Some g ∧ event_by g e;
  si_points : ∃ pts, points_inv s pts;
}.

(** ** Phases of the queries of others *)
Lemma phase_after_other ph i e id j p :
  allowed ph (i, e) → ph !! id = Some (j, p) → i ≠ j ∨ is_over p = true →
  ∃ p', phase_after ph (i, e) !! id = Some (j, p') ∧ phase_query p' = phase_query p ∧ is_over p' = is_over p ∧
        (is_over p = true → p' = p).
Proof.
  intros Ha Hp Hne. unfold phase_after. inversion Ha; subst; cbn [fst snd].
  - exists p. rewrite lookup_insert_ne; [done|]. congruence.
  - rewrite lookup_move. case_decide as Hid; [subst id; simplify_eq; rewrite Hp; by eexists|by exists p].
  - rewrite lookup_move. case_decide as Hid; [subst id; simplify_eq; rewrite Hp; by eexists|by exists p].
  - rewrite lookup_move. case_decide as Hid; [subst id; simplify_eq; destruct Hne as [Hne|Hne]; [by destruct Hne|cbn in Hne; congruence]|by exists p].
  - rewrite lookup_move. case_decide as Hid; [subst id; simplify_eq; destruct Hne as [Hne|Hne]; [by destruct Hne|cbn in Hne; congruence]|by exists p].
Qed.
Lemma phase_after_none ph i e id : allowed ph (i, e) → ph !! id = None →
  phase_after ph (i, e) !! id = None ∨ ∃ q, e = Enqueued q ∧ qa_QueryID q = id.
Proof.
  intros Ha Hp. unfold phase_after. inversion Ha; subst; cbn [fst snd].
  2-5: left; rewrite lookup_move; case_decide; [subst; by rewrite Hp|done].
  rewrite lookup_insert. case_decide as Hid; [right; by eexists|by left].
Qed.

(** ** What a step leaves to the other goroutines *)
Record leaves (s s' : System) (j : nat) (pt : Point) : Prop := MkLeaves {
  lv_clock : (s_clock s ≤ s_clock s')%Z;
  lv_uuids : ∀ id, id ∈ s_uuids s → id ∈ s_uuids s';
  lv_history : ∀ e, e ∈ s_history s → e ∈ s_history s';
  lv_phases : ∀ id p, phases (s_history s) !! id = Some (j, p) →
    ∃ p', phases (s_history s') !! id = Some (j, p') ∧ phase_query p' = phase_query p ∧ is_over p' = is_over p ∧
          (is_over p = true → p' = p);
  lv_drawn : ∀ id, drawn pt = Some id → phases (s_history s) !! id = None → phases (s_history s') !! id = None;
  lv_work : ∀ t, holder pt = Some t → work t.1.1 t.1.2 (s_broker s') →
    signalled (s_broker s') t.2 ∨ work t.1.1 t.1.2 (s_broker s);
  lv_signal : ∀ t, holder pt = Some t → signalled (s_broker s) t.2 → signalled (s_broker s') t.2;
}.

Lemma asked_by_leaves s s' j pt id : leaves s s' j pt →
  asked_by (phases (s_history s)) j id → asked_by (phases (s_history s')) j id.
Proof.
  intros Hl (Hid & p & Hp & Hover). split; [done|]. destruct (lv_phases _ _ _ _ Hl _ _ Hp) as (p' & Hp' & _ & Ho & _).
  exists p'. by rewrite Ho.
Qed.
Lemma knows_leaves s s' j pt id q : leaves s s' j pt → asked_by (phases (s_history s)) j id →
  (∀ j p, phases (s_history s) !! id = Some (j, p) → phase_query p = q) →
  ∀ j p, phases (s_history s') !! id = Some (j, p) → phase_query p = q.
Proof.
  intros Hl (_ & p & Hp & _) Hq j' p' Hp'. destruct (lv_phases _ _ _ _ Hl _ _ Hp) as (p1 & Hp1 & Heq & _).
  rewrite Hp1 in Hp'. injection Hp' as <- <-. rewrite Heq. by eapply Hq.
Qed.

Lemma q_ok_leaves s s' j nodeID query pt : leaves s s' j (AtQuery nodeID query pt) →
  q_ok s j nodeID query pt ∧ q_knows s j pt → q_ok s' j nodeID query pt ∧ q_knows s' j pt.
Proof.
  intros Hl. pose proof (asked_by_leaves _ _ _ _ (qa_QueryID (default query (fst <$> q_channel pt))) Hl) as Hasked.
  destruct pt; cbn in *; intros [Hok Hk].
  1-4: done.
  - split; [|done]. destruct Hok as (Hm & Hle & Hx). split_and!; [done| |done]. pose proof (lv_clock _ _ _ _ Hl). lia.
  - destruct Hok as [Hm Ha]. split; [split; [done|by eapply asked_by_leaves]|by eapply knows_leaves].
  - destruct Hok as [Hm Ha]. split; [split; [done|by eapply asked_by_leaves]|by eapply knows_leaves].
  - destruct Hok as (Hm & Ha & Hc). split; [split_and!; [done|by apply Hasked|done]|by eapply knows_leaves].
  - destruct Hok as (Hm & Ha & Hc). split; [split_and!; [done|by apply Hasked|done]|by eapply knows_leaves].
  - destruct Hok as (Hm & Ha & Hc). split; [split_and!; [done|by apply Hasked|done]|by eapply knows_leaves].
  - destruct Hok as (Hm & Ha & Hc). split; [split_and!; [done|by apply Hasked|done]|by eapply knows_leaves].
  - destruct Hok as (Hm & Ha & Hc). split; [split_and!; [done|by apply Hasked|done]|by eapply knows_leaves].
  - destruct Hok as (Hm & Hid & Hp). split; [|done]. split_and!; [done..|].
    destruct (lv_phases _ _ _ _ Hl _ _ Hp) as (p' & Hp' & _ & _ & Ho). by rewrite Ho in Hp'.
  - destruct Hok as (Hm & Hid & Hp). split; [|done]. split_and!; [done..|].
    destruct (lv_phases _ _ _ _ Hl _ _ Hp) as (p' & Hp' & _ & _ & Ho). by rewrite Ho in Hp'.
Qed.
Lemma point_ok_leaves s s' j pt : leaves s s' j pt → point_ok s j pt → point_ok s' j pt.
Proof.
  intros Hl [Hf Hd Hw Hs]. split; [done| | |].
  - intros id Hid. destruct (Hd id Hid) as (Hu & He & Hp). split_and!; [by eapply lv_uuids|done|by eapply lv_drawn].
  - intros t Ht Hwait Hwork. destruct (lv_work _ _ _ _ Hl t Ht Hwork) as [|Hwork']; [done|].
    eapply lv_signal; [done..|]. by apply Hw.
  - destruct pt as [nodeID query pt|ctx nodeID pt|ctx req pt]; [by eapply q_ok_leaves| |done].
    destruct Hs as [Hs Hn]. split; [|done]. destruct pt; try done; intros t Ht; destruct (Hs t Ht) as (q & Hq & Hp);
      exists q; (split; [by eapply lv_history|done]).
Qed.
Lemma leaves_goroutine s k g j pt : leaves s (set_goroutine k g s) j pt.
Proof. split; try done; [intros id p Hp; by exists p|by right]. Qed.
Lemma leaves_time s t j pt : (s_clock s ≤ t)%Z → leaves s (set_clock t s) j pt.
Proof. intros Hle. split; try done; [intros id p Hp; by exists p|by right]. Qed.
End invariant.
