(* ===== verification/DockerReach.v ===== *)
(** * The reachable systems of Docker queries satisfy their invariant *)

(** ** Every step keeps the invariant of Docker queries ([reachable_system_inv]) *)
From S2P Require Export DockerInvariant.

Section steps.
Context `{DnsState} `{GitState} `{!Environment} `{DockerJSON}.
Context (cfg : ControllerConfig) (maxWait retryInterval : Z).
Abbreviation goroutine_of := (goroutine_at maxWait retryInterval).
Abbreviation points_inv := (points_inv maxWait retryInterval).
Abbreviation system_inv := (system_inv maxWait retryInterval).

(** ** Goroutine [i] goes from [pt] to [pt'] *)
Section step.
Context (s : System) (pts : gmap nat Point) (i : nat) (pt : Point).
Hypothesis (Hinv : system_inv s) (Hpts : points_inv s pts) (Hi : pts !! i = Some pt).

Lemma own_ok : point_ok s i pt.
Proof. by eapply pi_points. Qed.
Lemma goroutine_here : s_goroutines s !! i = Some (goroutine_of pt).
Proof. by rewrite (pi_goroutines _ _ _ _ Hpts), lookup_fmap, Hi. Qed.

(** The invariant after a step, from its parts. *)
Lemma stepped (s' : System) (pt' : Point) :
  s_goroutines s' = s_goroutines s →
  legal (s_history s') → broker_holds (s_clock s') (phases (s_history s')) (s_broker s') →
  (∀ id, is_Some (phases (s_history s') !! id) → id ∈ s_uuids s') → bk_panicked (s_broker s') = false →
  (∃ es, s_history s' = s_history s ++ es ∧ ∀ e, e ∈ es → e.1 = i ∧ event_by (goroutine_of pt') e.2) →
  (∀ e, event_by (goroutine_of pt) e → event_by (goroutine_of pt') e) →
  point_ok s' i pt' →
  (∀ j p, j ≠ i → pts !! j = Some p → leaves s s' j p) →
  (∀ id, drawn pt' = Some id → drawn pt = Some id ∨ id ∉ s_uuids s) →
  (∀ t, subbed (s_broker s') t ↔ (∃ j p, j ≠ i ∧ pts !! j = Some p ∧ holder p = Some t) ∨ holder pt' = Some t) →
  (∀ t, holder pt' = Some t → holder pt = Some t ∨ bk_channels (s_broker s) !! t.2 = None) →
  all_open (s_broker s') →
  system_inv (set_goroutine i (goroutine_of pt') s').
Proof.
  intros Hg Hl Hh Hu Hp (es & Hhist & Hes) Hby Hok Hothers Hdrawn Hsub Hhold Hopen. pose proof own_ok as Hown.
  split; try done.
  - intros j e. cbn. rewrite Hhist, elem_of_app, Hg. intros [Hin|Hin].
    + destruct (si_events _ _ _ Hinv j e Hin) as (g & Hgj & Hev). rewrite lookup_insert. case_decide as Hj; [|by exists g].
      subst j. rewrite goroutine_here in Hgj. injection Hgj as <-. eexists. split; [done|]. by apply Hby.
    + destruct (Hes _ Hin) as [Hj Hev]. cbn in Hj. subst j. exists (goroutine_of pt'). split; [apply lookup_insert_eq|done].
  - exists (<[i := pt']> pts). split.
    + cbn. by rewrite Hg, (pi_goroutines _ _ _ _ Hpts), fmap_insert.
    + intros j p. rewrite lookup_insert. intros Hp'. eapply point_ok_leaves; [apply leaves_goroutine|].
      case_decide as Hj; [subst; by injection Hp' as <-|].
      apply (point_ok_leaves s s' j p); [by apply Hothers|]. by eapply pi_points.
    + assert (∀ j p id, pts !! j = Some p → drawn p = Some id → drawn pt' = Some id → j = i) as Hdr.
      { intros j p id Hj Hd Hd'. destruct (Hdrawn _ Hd') as [Hold|Hnew]; [by eapply (pi_drawn _ _ _ _ Hpts)|].
        destruct (pi_points _ _ _ _ Hpts _ _ Hj) as [_ Hdj _ _]. by destruct (Hdj _ Hd) as [Hin _]. }
      intros j k p p' id. rewrite !lookup_insert. repeat case_decide; subst; intros Hj Hk Hd Hd'; simplify_eq; try done.
      * symmetry. by eapply Hdr.
      * by eapply Hdr.
      * by eapply (pi_drawn _ _ _ _ Hpts).
    + intros t. rewrite (Hsub t : subbed (s_broker s') t ↔ _). split.
      * intros [(j & p & Hj & Hp' & Ht)|Ht]; [exists j, p; by rewrite lookup_insert_ne|exists i, pt'; by rewrite lookup_insert_eq].
      * intros (j & p & Hp' & Ht). revert Hp'. rewrite lookup_insert. case_decide; [intros [= <-]; by right|].
        intros Hp'. left. by exists j, p.
    + assert (∀ j p t t', pts !! j = Some p → holder p = Some t → holder pt' = Some t' → t.2 = t'.2 → j = i) as Hun.
      { intros j p t t' Hj Ht Ht' Heq. destruct (Hhold _ Ht') as [Hold|Hnew]; [by eapply (pi_unique _ _ _ _ Hpts)|].
        destruct (pi_open _ _ _ _ Hpts t) as [v Hv]; [apply (pi_holders _ _ _ _ Hpts); by eexists _, _|]. congruence. }
      intros j k p p' t t'. rewrite !lookup_insert. repeat case_decide; subst; intros Hj Hk Ht Ht' Heq; simplify_eq; try done.
      * symmetry. by eapply Hun.
      * by eapply Hun.
      * by eapply (pi_unique _ _ _ _ Hpts).
    + done.
Qed.

(** Others hold other channels. *)
Lemma other_channel j p t t' : j ≠ i → pts !! j = Some p → holder p = Some t → holder pt = Some t' → t.2 ≠ t'.2.
Proof. intros Hj Hp Ht Ht' Heq. apply Hj. by eapply (pi_unique _ _ _ _ Hpts). Qed.
Lemma holder_subbed j p t : pts !! j = Some p → holder p = Some t → subbed (s_broker s) t ∧ is_open (s_broker s) t.2.
Proof.
  intros Hp Ht. assert (subbed (s_broker s) t) as Hs by (apply (pi_holders _ _ _ _ Hpts); by eexists _, _).
  split; [done|]. by apply (pi_open _ _ _ _ Hpts).
Qed.

(** *** A call of the broker *)
Section call.
Context {X : Type} (m : Method X) (b' : dockerQueryBroker) (x : X) (pt' : Point).
Hypothesis (Hcall : call_method m (s_clock s) (s_broker s) = (b', x)).
Hypothesis (Hready : call_ok m (s_clock s) (phases (s_history s)) i).
Hypothesis (Hkey : match m with MUnsubscribeNode key _ | MUnsubscribeResult key _ => key ≠ "" | _ => True end).
Hypothesis (Hadded : ∀ t, added m x = Some t → holder pt = None ∧ holder pt' = Some t).
Hypothesis (Hremoved : ∀ t, removed m = Some t → holder pt = Some t ∧ holder pt' = None).
Hypothesis (Hsame : added m x = None → removed m = None → holder pt' = holder pt).
Hypothesis (Hdrawn : drawn pt' = None).
Hypothesis (Henqueue : ∀ e q, event_of m x = Some e → e = Enqueued q → drawn pt = Some (qa_QueryID q)).
Hypothesis (Hevent : ∀ e, event_of m x = Some e → event_by (goroutine_of pt') e).
Hypothesis (Hby : ∀ e, event_by (goroutine_of pt) e → event_by (goroutine_of pt') e).
Abbreviation s' := (add_history i (event_of m x) (set_broker b' s)).

Lemma call_history : s_history s' = s_history s ++ events i (event_of m x).
Proof. unfold add_history, events. cbn. by destruct (event_of m x). Qed.
Lemma call_keeps : legal (s_history s') ∧ broker_holds (s_clock s) (phases (s_history s')) b'.
Proof. rewrite call_history. destruct Hinv as [Hl Hh _ _ _ _]. by apply (call_holds m (s_clock s) (s_history s) (s_broker s) i b' x). Qed.
Lemma call_after : channels_after m x (s_broker s) b'.
Proof. apply (call_channels m (s_clock s)); [by eapply pi_open|done|done]. Qed.
Lemma call_allowed e : event_of m x = Some e → allowed (phases (s_history s)) (i, e) ∧
  phases (s_history s') = phase_after (phases (s_history s)) (i, e).
Proof.
  intros He. destruct call_keeps as [Hl _]. rewrite call_history in *. rewrite He in *. cbn in *. rewrite phases_snoc.
  split; [|done]. inversion Hl as [Hn|h e' Hl' Ha Hn]; [by destruct (s_history s)|].
  apply app_inj_tail in Hn as [-> [= ->]]. done.
Qed.
Lemma call_silent : event_of m x = None → s_history s' = s_history s.
Proof. intros He. rewrite call_history, He. apply app_nil_r. Qed.

Lemma call_cases :
  (∃ e, event_of m x = Some e ∧ allowed (phases (s_history s)) (i, e) ∧
        phases (s_history s') = phase_after (phases (s_history s)) (i, e)) ∨
  (event_of m x = None ∧ s_history s' = s_history s).
Proof.
  assert (event_of m x = None ∨ ∃ e, event_of m x = Some e) as [He|[e He]]
    by (clear; destruct (event_of m x); [right; by eexists|by left]); [right; split; [done|by apply call_silent]|].
  left. exists e. split; [done|by apply call_allowed].
Qed.

Lemma call_leaves j p : j ≠ i → pts !! j = Some p → leaves s s' j p.
Proof.
  intros Hj Hp. pose proof call_after as Hca.
  assert (∀ t, holder p = Some t → own m x ≠ Some t.2) as Hown.
  { intros t Ht. unfold own. destruct (holder_subbed j p t Hp Ht) as [_ [v Hv]].
    destruct (added m x) as [t'|] eqn:Ha.
    - intros [= Heq]. destruct (ca_fresh _ _ _ _ Hca t' Ha) as [Hno _]. congruence.
    - destruct (removed m) as [t'|] eqn:Hr; [|done]. intros [= Heq]. destruct (Hremoved t' eq_refl) as [Ht' _].
      by destruct (other_channel j p t t' Hj Hp Ht Ht'). }
  split; try done.
  - intros e He. rewrite call_history. apply elem_of_app. by left.
  - intros id ph Hph. destruct call_cases as [(e & He & Ha & ->)|[He ->]].
    + eapply phase_after_other; [done|done|]. by left.
    + by exists ph.
  - intros id Hid Hph. destruct call_cases as [(e & He & Ha & ->)|[He ->]]; [|done].
    destruct (phase_after_none _ _ _ _ Ha Hph) as [|(q & -> & Hq)]; [done|].
    destruct Hj. eapply (pi_drawn _ _ _ _ Hpts); [done|done|done|]. rewrite <- Hq. by eapply Henqueue.
  - intros t Ht Hwork. destruct (holder_subbed j p t Hp Ht) as [Hs _].
    destruct (ca_work _ _ _ _ Hca t Hs Hwork); [by right|by left].
  - intros t Ht Hsig. destruct (ca_open _ _ _ _ Hca t.2 true (Hown t Ht) Hsig) as (v' & Hv' & Hv).
    unfold signalled. cbn. rewrite Hv'. by rewrite (Hv eq_refl).
Qed.

Lemma call_step :
  point_fresh pt' →
  (∀ t, holder pt' = Some t → waits pt' = true → ¬ work t.1.1 t.1.2 b') →
  match pt' with
  | AtQuery nodeID query pt => q_ok s' i nodeID query pt ∧ q_knows s' i pt
  | AtPull ctx nodeID pt => p_ok s' i ctx nodeID pt
  | AtReport ctx req pt => r_ok ctx req pt
  end →
  system_inv (set_goroutine i (goroutine_of pt') s').
Proof.
  intros Hfresh Hwaits Hstate. pose proof call_after as Hca. destruct call_keeps as [Hl Hh].
  assert (∀ t, subbed b' t ↔ (∃ j p, j ≠ i ∧ pts !! j = Some p ∧ holder p = Some t) ∨ holder pt' = Some t) as Hsub.
  { intros t. rewrite (ca_subbed _ _ _ _ Hca), (pi_holders _ _ _ _ Hpts). split.
    - intros [[(j & p & Hp & Ht) Hr]|Ha]; [|right; by apply Hadded]. destruct (decide (j = i)) as [->|Hj]; [|left; by exists j, p].
      right. rewrite Hi in Hp. injection Hp as ->. destruct (added m x) as [t'|] eqn:Ha.
      + destruct (Hadded t' eq_refl) as [Hn _]. congruence.
      + destruct (removed m) as [t'|] eqn:Hrm; [|by rewrite Hsame]. destruct (Hremoved t' eq_refl) as [Ht' _]. congruence.
    - intros [(j & p & Hj & Hp & Ht)|Ht].
      + left. split; [by exists j, p|]. intros Hr. destruct (Hremoved t Hr) as [Ht' _].
        by destruct (other_channel j p t t Hj Hp Ht Ht').
      + destruct (added m x) as [t'|] eqn:Ha; [right; destruct (Hadded t' eq_refl); congruence|]. left.
        destruct (removed m) as [t'|] eqn:Hrm; [destruct (Hremoved t' eq_refl); congruence|].
        rewrite Hsame in Ht by done. split; [by exists i, pt|done]. }
  apply stepped; try done.
  - intros id. destruct call_cases as [(e & He & Ha & ->)|[He ->]]; [|apply (si_uuids _ _ _ Hinv)].
    intros Hid. destruct (phases (s_history s) !! id) as [p|] eqn:Hp.
    { apply (si_uuids _ _ _ Hinv). by eexists. }
    destruct (phase_after_none _ _ _ _ Ha Hp) as [Hn|(q & -> & Hq)]; [destruct Hid; congruence|].
    destruct own_ok as [_ Hd _ _]. destruct (Hd (qa_QueryID q)) as [Hin _]; [by eapply Henqueue|]. by rewrite Hq in Hin.
  - cbn. rewrite (ca_panicked _ _ _ _ Hca). apply Hinv.
  - exists (events i (event_of m x)). split; [apply call_history|]. intros [j e]. unfold events.
    destruct (event_of m x) as [e'|] eqn:He; [|by intros ?%not_elem_of_nil]. intros [= -> ->]%list_elem_of_singleton.
    split; [done|]. by apply Hevent.
  - split; [done| | |done].
    + intros id. by rewrite Hdrawn.
    + intros t Ht Hw Hwork. by destruct (Hwaits t Ht Hw).
  - intros j p Hj Hp. by apply call_leaves.
  - intros id. by rewrite Hdrawn.
  - intros t Ht. destruct (added m x) as [t'|] eqn:Ha.
    + right. destruct (Hadded t' eq_refl) as [_ Ht']. destruct (ca_fresh _ _ _ _ Hca t' Ha) as [Hn _]. congruence.
    + destruct (removed m) as [t'|] eqn:Hrm; [destruct (Hremoved t' eq_refl); congruence|]. left. by rewrite <- Hsame.
  - intros t Ht. cbn. destruct (proj1 (ca_subbed _ _ _ _ Hca t) Ht) as [[Hold Hr]|Ha]; [|by apply (ca_fresh _ _ _ _ Hca t Ha)].
    destruct (pi_open _ _ _ _ Hpts t Hold) as [v Hv].
    assert (own m x ≠ Some t.2) as Hown.
    { unfold own. destruct (added m x) as [t'|] eqn:Ha.
      - intros [= Heq]. destruct (ca_fresh _ _ _ _ Hca t' Ha) as [Hno _]. congruence.
      - destruct (removed m) as [t'|] eqn:Hrm; [|done]. intros [= Heq]. destruct (Hremoved t' eq_refl) as [Ht' _].
        apply (pi_holders _ _ _ _ Hpts) in Hold as (j & p & Hp & Hpt). destruct (decide (j = i)) as [->|Hj].
        + rewrite Hi in Hp. injection Hp as ->. congruence.
        + by destruct (other_channel j p t t' Hj Hp Hpt Ht'). }
    destruct (ca_open _ _ _ _ Hca t.2 v Hown Hv) as (v' & Hv' & _). by exists v'.
Qed.
End call.

(** *** A step that is no call *)
Lemma receive_store c b : same_store b (receive c b).
Proof. done. Qed.
Lemma silent_move (s' : System) (pt' : Point) :
  s_clock s' = s_clock s → s_history s' = s_history s → s_goroutines s' = s_goroutines s →
  (∀ id, id ∈ s_uuids s → id ∈ s_uuids s') →
  (s_broker s' = s_broker s ∨ ∃ t, holder pt = Some t ∧ s_broker s' = receive t.2 (s_broker s)) →
  holder pt' = holder pt → (∀ id, drawn pt' = Some id → drawn pt = Some id ∨ id ∉ s_uuids s) →
  (∀ e, event_by (goroutine_of pt) e → event_by (goroutine_of pt') e) →
  point_ok s' i pt' →
  system_inv (set_goroutine i (goroutine_of pt') s').
Proof.
  intros Hc Hh Hg Hu Hb Hhold Hd Hby Hok.
  assert (same_store (s_broker s) (s_broker s') ∧ bk_panicked (s_broker s') = bk_panicked (s_broker s) ∧
    (∀ t, subbed (s_broker s') t ↔ subbed (s_broker s) t) ∧
    (∀ ch, is_open (s_broker s) ch → is_open (s_broker s') ch) ∧
    (∀ ch, (∀ t, holder pt = Some t → t.2 ≠ ch) → bk_channels (s_broker s') !! ch = bk_channels (s_broker s) !! ch))
    as (Hstore & Hp & Hsub & Hopen & Hch).
  { destruct Hb as [->|(t & Ht & ->)]; [done|]. split_and!; [done|done|by intros [[[|] key] ch]| |].
    - intros ch [v Hv]. unfold is_open, receive. cbn. rewrite lookup_insert. case_decide; by eexists.
    - intros ch Hne. cbn. rewrite lookup_insert_ne; [done|]. by apply Hne. }
  apply stepped; try done.
  - by rewrite Hh; apply Hinv.
  - rewrite Hc, Hh. eapply same_store_holds; [done|]. apply Hinv.
  - rewrite Hh. intros id Hid. by apply Hu, (si_uuids _ _ _ Hinv).
  - rewrite Hp. apply Hinv.
  - exists []. rewrite app_nil_r. split; [done|]. by intros e ?%not_elem_of_nil.
  - intros j p Hj Hpj. split.
    + by rewrite Hc.
    + done.
    + by rewrite Hh.
    + rewrite Hh. intros id ph Hph. by exists ph.
    + by rewrite Hh.
    + intros t Ht. destruct Hstore as (Hq & _ & Hr). right. revert H3. unfold work, queue_of. by rewrite Hq, Hr.
    + intros t Ht. unfold signalled. rewrite Hch; [done|]. intros t' Ht' Heq.
      by destruct (other_channel j p t t' Hj Hpj Ht Ht').
  - intros t. rewrite Hsub, (pi_holders _ _ _ _ Hpts), Hhold. split.
    + intros (j & p & Hpj & Ht). destruct (decide (j = i)) as [->|Hj]; [|left; by exists j, p].
      right. rewrite Hi in Hpj. by injection Hpj as ->.
    + intros [(j & p & Hj & Hpj & Ht)|Ht]; [by exists j, p|by exists i, pt].
  - intros t. rewrite Hhold. by left.
  - intros t Ht. apply Hopen, (pi_open _ _ _ _ Hpts), Hsub, Ht.
Qed.
End step.
End steps.

(** ** The reachable systems of Docker queries satisfy their invariant
    ([docker_reachable_inv]) *)

Lemma made_timeout nodeID query q : made nodeID query q → dockerQueryTTL q = dockerQueryTTL query.
Proof. intros Hm. apply (f_equal qa_Timeout) in Hm. unfold dockerQueryTTL. cbn in Hm. by rewrite Hm. Qed.
Lemma made_fresh nodeID query id : fresh_query query →
  let q := with_QueryID id (with_NodeID nodeID query) in made nodeID query q ∧ qa_expiresAt q = Time.zero.
Proof. destruct query. unfold fresh_query, made. cbn. intros [-> ->]. done. Qed.
Lemma made_stamp nodeID query q now : made nodeID query q → qa_expiresAt q = Time.zero →
  made nodeID query (stamp now q) ∧ qa_QueryID (stamp now q) = qa_QueryID q ∧
  qa_expiresAt (stamp now q) = (now + dockerQueryTTL query)%Z.
Proof.
  intros Hm Hx. unfold stamp. rewrite decide_True by done. split_and!; [|done|].
  - revert Hm. by destruct q.
  - cbn. by rewrite (made_timeout _ _ _ Hm).
Qed.

Section reach.
Context `{DnsState} `{GitState} `{!Environment} `{DockerJSON}.
Context (cfg : ControllerConfig) (maxWait retryInterval : Z).
Abbreviation goroutine_of := (goroutine_at maxWait retryInterval).
Abbreviation points_inv := (points_inv maxWait retryInterval).
Abbreviation system_inv := (system_inv maxWait retryInterval).

Lemma perform_locked i {X} (m : Method X) s x s' : perform_op cfg i (Locked m) s x s' →
  ∃ b', call_method m (s_clock s) (s_broker s) = (b', x) ∧ s' = add_history i (event_of m x) (set_broker b' s).
Proof.
  cbn. destruct (call_method m (s_clock s) (s_broker s)) as [b' y] eqn:Hc. intros [-> ->]. by exists b'.
Qed.

Section query.
Context (s : System) (pts : gmap nat Point) (i : nat) (nodeID : string) (query : dockerAgentQuery).
Hypothesis (Hinv : system_inv s) (Hpts : points_inv s pts) (Hfresh : fresh_query query).
Abbreviation here pt := (pts !! i = Some (AtQuery nodeID query pt)).

Lemma query_quiet pt s' pt' : here pt →
  s_clock s' = s_clock s → s_history s' = s_history s → s_goroutines s' = s_goroutines s →
  (∀ id, id ∈ s_uuids s → id ∈ s_uuids s') →
  (s_broker s' = s_broker s ∨
   ∃ t, holder (AtQuery nodeID query pt) = Some t ∧ s_broker s' = receive t.2 (s_broker s)) →
  holder (AtQuery nodeID query pt') = holder (AtQuery nodeID query pt) →
  (∀ id, drawn (AtQuery nodeID query pt') = Some id →
     (drawn (AtQuery nodeID query pt) = Some id ∨ id ∉ s_uuids s) ∧
     id ∈ s_uuids s' ∧ id ≠ "" ∧ phases (s_history s) !! id = None) →
  (waits (AtQuery nodeID query pt') = true → s_broker s' = s_broker s ∧ waits (AtQuery nodeID query pt) = true) →
  q_ok s' i nodeID query pt' ∧ q_knows s' i pt' →
  system_inv (set_goroutine i (goroutine_of (AtQuery nodeID query pt')) s').
Proof.
  intros Hi Hc Hh Hg Hu Hb Hhold Hd Hw Hok. pose proof (own_ok _ _ _ _ _ _ Hpts Hi) as [_ _ Hwakes _].
  eapply silent_move; try done.
  - intros id Hid. by apply Hd.
  - split; [done| | |done].
    + intros id Hid. rewrite Hh. by apply Hd.
    + intros t Ht Hwait. destruct (Hw Hwait) as [-> Hold]. apply Hwakes; [by rewrite <- Hhold|done].
Qed.

Lemma query_call pt {X} (m : Method X) x s' pt' : here pt →
  perform_op cfg i (Locked m) s x s' → call_ok m (s_clock s) (phases (s_history s)) i →
  match m with MUnsubscribeNode key _ | MUnsubscribeResult key _ => key ≠ "" | _ => True end →
  (∀ t, added m x = Some t → q_channel pt = None ∧ holder (AtQuery nodeID query pt') = Some t) →
  (∀ t, removed m = Some t → holder (AtQuery nodeID query pt) = Some t ∧ q_channel pt' = None) →
  (added m x = None → removed m = None → holder (AtQuery nodeID query pt') = holder (AtQuery nodeID query pt)) →
  drawn (AtQuery nodeID query pt') = None →
  (∀ e, event_of m x = Some e → event_by (Querying nodeID query (HRet (Err (NewError CodeInternal "")))) e ∧
     ∀ q, e = Enqueued q → drawn (AtQuery nodeID query pt) = Some (qa_QueryID q)) →
  (∀ b' t, call_method m (s_clock s) (s_broker s) = (b', x) → holder (AtQuery nodeID query pt') = Some t →
     waits (AtQuery nodeID query pt') = true → ¬ work t.1.1 t.1.2 b') →
  (∀ ph, (∀ e, event_of m x = Some e → ph = phase_after (phases (s_history s)) (i, e)) →
     (event_of m x = None → ph = phases (s_history s)) → phases (s_history s') = ph →
     q_ok s' i nodeID query pt' ∧ q_knows s' i pt') →
  system_inv (set_goroutine i (goroutine_of (AtQuery nodeID query pt')) s').
Proof.
  intros Hi Hx Hready Hkey Hadd Hrem Hsame Hd Hev Hw Hok.
  apply perform_locked in Hx as (b' & Hcall & ->).
  assert (∀ pt t, q_channel pt = None → holder (AtQuery nodeID query pt) = Some t → False) as Hno
    by (intros p t Hn; cbn; by rewrite Hn).
  eapply (call_step _ _ _ pts); try done.
  - intros t Ht. destruct (Hadd t Ht) as [Hn Hs]. split; [|done]. cbn. by rewrite Hn.
  - intros t Ht. destruct (Hrem t Ht) as [Hn Hs]. split; [done|]. cbn. by rewrite Hs.
  - intros e q He ->. by destruct (Hev _ He) as [_ Hq]; apply Hq.
  - intros e He. destruct (Hev e He) as [Hby _]. by destruct e.
  - intros t Ht Hwait. by eapply Hw.
  - eapply Hok; [| |reflexivity].
    + intros e He. unfold add_history. cbn. rewrite He. apply phases_snoc.
    + intros He. unfold add_history. cbn. by rewrite He, app_nil_r.
Qed.

Lemma query_keeps pt s' pt' : here pt → q_step cfg nodeID query i s pt s' pt' →
  system_inv (set_goroutine i (goroutine_of (AtQuery nodeID query pt')) s').
Proof.
  intros Hi Hstep. pose proof (own_ok _ _ _ _ _ _ Hpts Hi) as [_ Hdrawn Hwakes [Hok Hknows]].
  destruct pt; cbn -[perform_op] in Hstep, Hok, Hknows.
  - destruct Hstep as (x & [-> _] & ->). eapply query_quiet; try done; try (by left); by destruct x.
  - done.
  - destruct Hstep as (x & (Hnew & Hx & ->) & ->). destruct (made_fresh nodeID query x Hfresh).
    eapply query_quiet; try done; [set_solver|by left|].
    intros id [= <-]. split_and!; [by right|cbn; set_solver|done|].
    destruct (phases (s_history s) !! x) eqn:Hp; [|done]. destruct Hnew. apply (si_uuids _ _ _ Hinv). by eexists.
  - destruct Hstep as (-> & ->). destruct Hok as [Hm Hx]. destruct (made_stamp _ _ _ (s_clock s) Hm Hx) as (Hm' & Hid & Hx').
    destruct (Hdrawn _ eq_refl) as (Hu & He & Hp).
    eapply query_quiet; try done; [by left|].
    intros id. cbn. rewrite Hid. intros [= <-]. by split_and!; [left|..].
  - destruct Hstep as (x & Hx & ->). destruct Hok as (Hm & Hle & Hexp). destruct (Hdrawn _ eq_refl) as (Hu & He & Hp).
    eapply query_call; try done; [by intros e [= <-]; split; [|intros ? [= <-]]|].
    intros ph Hph _ Heq. cbn. rewrite Heq, (Hph _ eq_refl). unfold phase_after. cbn [fst snd].
    split; [split; [done|]|]; [split; [done|]; eexists; by rewrite lookup_insert_eq|].
    intros j p. rewrite lookup_insert_eq. by intros [= <- <-].
  - destruct Hstep as (-> & ->). eapply query_quiet; try done; by left.
  - destruct Hstep as (x & Hx & ->). destruct Hok as (Hm & Ha).
    assert (is_Some x) as [ch ->].
    { apply perform_locked in Hx as (b' & Hc & _). destruct Ha as [Hid _]. revert Hc. cbn. unfold SubscribeResult.
      rewrite decide_False by done. cbn. by intros [= _ <-]. }
    eapply query_call; try done.
    intros ph _ Hph Heq. cbn. by rewrite Heq, (Hph eq_refl).
  - destruct Hstep as (-> & ->). eapply query_quiet; try done; by left.
  - destruct Hstep as (x & Hx & ->). destruct Hok as (Hm & Ha & [c ->]). pose proof Ha as (Hid & p & Hp & Hover).
    pose proof (Hknows _ _ Hp) as Hq. destruct x as [r|].
    + eapply query_call; try done; [by intros e [= <-]|]. intros ph Hph _ Heq. cbn. rewrite Heq, (Hph _ eq_refl).
      split; [|done]. split_and!; [done..|]. unfold phase_after. cbn [fst snd]. rewrite (lookup_move_eq _ _ _ _ _ Hp). by rewrite Hq.
    + eapply query_call; try done.
      * intros b' t Hc [= <-] _. revert Hc. unfold call_method, PopResult, work. rewrite decide_False by done.
        cbn -[sweepExpiredLocked]. destruct (bk_results (sweepExpiredLocked _ _) !! _) eqn:Hr; intros [= <-].
        rewrite Hr. by intros [? [=]].
      * intros ph _ Hph Heq. cbn. by rewrite Heq, (Hph eq_refl).
  - destruct Hstep as (-> & Hpt). destruct Hpt as [-> | ->]; eapply query_quiet; try done; by left.
  - destruct Hstep as (w & Hx & ->). destruct Hok as (Hm & Ha & [c ->]). destruct w as [d| |]; cbn in Hx.
    + subst s'. eapply query_quiet; try done; by left.
    + destruct Hx as (c' & [= <-] & [[Hc ->]|[Hc ->]]).
      * eapply query_quiet; try done. right; by eexists.
      * eapply query_quiet; try done; by left.
    + destruct Hx as [-> _]. eapply query_quiet; try done; by left.
  - destruct Hstep as (x & Hx & ->). destruct Hok as (Hm & Ha & [c ->]). pose proof Ha as (Hid & p & Hp & Hover).
    pose proof (Hknows _ _ Hp) as Hq.
    eapply query_call; try done; [by intros e' [= <-]|]. intros ph Hph _ Heq. cbn. rewrite Heq, (Hph _ eq_refl).
    split; [|done]. split_and!; [done..|]. unfold phase_after. cbn [fst snd]. rewrite (lookup_move_eq _ _ _ _ _ Hp). by rewrite Hq.
  - destruct Hstep as (x & Hx & ->). destruct Hok as (Hm & Hid & Hp).
    eapply query_call; try done.  intros ph _ Hph Heq. cbn. by rewrite Heq, (Hph eq_refl).
  - done.
Qed.
End query.

(** ** Agents *)
Section pull.
Context (s : System) (pts : gmap nat Point) (i : nat) (ctx : Context_) (nodeID : string).
Hypothesis (Hinv : system_inv s) (Hpts : points_inv s pts).
Abbreviation here pt := (pts !! i = Some (AtPull ctx nodeID pt)).

Lemma pull_quiet pt s' pt' : here pt →
  s_clock s' = s_clock s → s_history s' = s_history s → s_goroutines s' = s_goroutines s →
  (∀ id, id ∈ s_uuids s → id ∈ s_uuids s') →
  (s_broker s' = s_broker s ∨
   ∃ t, holder (AtPull ctx nodeID pt) = Some t ∧ s_broker s' = receive t.2 (s_broker s)) →
  p_channel pt' = p_channel pt →
  (waits (AtPull ctx nodeID pt') = true → s_broker s' = s_broker s ∧ waits (AtPull ctx nodeID pt) = true) →
  p_ok s' i ctx nodeID pt' →
  system_inv (set_goroutine i (goroutine_of (AtPull ctx nodeID pt')) s').
Proof.
  intros Hi Hc Hh Hg Hu Hb Hchan Hw Hok. pose proof (own_ok _ _ _ _ _ _ Hpts Hi) as [_ _ Hwakes _].
  eapply silent_move; try done; [cbn; by rewrite Hchan|].
  split; [done|done| |done]. intros t Ht Hwait. destruct (Hw Hwait) as [-> Hold].
  apply Hwakes; [|done]. cbn. by rewrite <- Hchan.
Qed.
Lemma pull_call pt {X} (m : Method X) x s' pt' : here pt →
  perform_op cfg i (Locked m) s x s' → call_ok m (s_clock s) (phases (s_history s)) i →
  match m with MUnsubscribeNode key _ | MUnsubscribeResult key _ => key ≠ "" | _ => True end →
  (∀ t, added m x = Some t → p_channel pt = None ∧ holder (AtPull ctx nodeID pt') = Some t) →
  (∀ t, removed m = Some t → holder (AtPull ctx nodeID pt) = Some t ∧ p_channel pt' = None) →
  (added m x = None → removed m = None → holder (AtPull ctx nodeID pt') = holder (AtPull ctx nodeID pt)) →
  (∀ e, event_of m x = Some e → ∃ q, e = Handed nodeID q ∧ ctx = Some nodeID) →
  (∀ b' t, call_method m (s_clock s) (s_broker s) = (b', x) → holder (AtPull ctx nodeID pt') = Some t →
     waits (AtPull ctx nodeID pt') = true → ¬ work t.1.1 t.1.2 b') →
  ((∀ e, event_of m x = Some e → (i, e) ∈ s_history s') → (∀ e, e ∈ s_history s → e ∈ s_history s') →
   p_ok s' i ctx nodeID pt') →
  system_inv (set_goroutine i (goroutine_of (AtPull ctx nodeID pt')) s').
Proof.
  intros Hi Hx Hready Hkey Hadd Hrem Hsame Hev Hw Hok. apply perform_locked in Hx as (b' & Hcall & ->).
  eapply (call_step _ _ _ pts); try done.
  - intros t Ht. destruct (Hadd t Ht) as [Hn Hs]. split; [|done]. cbn. by rewrite Hn.
  - intros t Ht. destruct (Hrem t Ht) as [Hn Hs]. split; [done|]. cbn. by rewrite Hs.
  - intros e q He ->. by destruct (Hev _ He) as (? & [=] & _).
  - intros e He. by destruct (Hev e He) as (q & -> & Hctx).
  - intros t Ht Hwait. by eapply Hw.
  - apply Hok; unfold add_history; cbn; intros e He; apply elem_of_app; [right; rewrite He; by apply list_elem_of_singleton|by left].
Qed.

Lemma pull_keeps pt s' pt' : here pt → p_step cfg maxWait nodeID i s pt s' pt' →
  system_inv (set_goroutine i (goroutine_of (AtPull ctx nodeID pt')) s').
Proof.
  intros Hi Hstep. pose proof (own_ok _ _ _ _ _ _ Hpts Hi) as [_ _ Hwakes [Hok Hnode]].
  destruct pt; cbn -[perform_op] in Hstep, Hok, Hnode.
  - destruct Hstep as (x & Hx & ->).
    assert (is_Some x) as [c ->].
    { apply perform_locked in Hx as (b' & Hc & _). revert Hc. cbn. unfold SubscribeNode.
      rewrite decide_False by apply Hnode. cbn. by intros [= _ <-]. }
    by eapply pull_call; try done.
  - destruct Hstep as (-> & ->). eapply pull_quiet; try done; by left.
  - destruct Hstep as (-> & ->). eapply pull_quiet; try done; by left.
  - destruct Hstep as (x & Hx & ->). destruct Hok as [c ->]. destruct x as [q|].
    + eapply pull_call; try done; [intros e [= <-]; exists q; split; [done|apply Hnode]|]. intros Hin _. split; [|done]. intros t Ht. exists q.
      split; [by apply Hin|]. unfold pulled_task in Ht. by destruct (dockerProtoQueryTask q); simplify_eq.
    + eapply pull_call; try done. intros b' t Hc [= <-] _. revert Hc. unfold call_method, Pull, work.
      rewrite decide_False by apply Hnode. fold (queue_of (sweepExpiredLocked (s_clock s) (s_broker s)) nodeID).
      cbn -[sweepExpiredLocked]. destruct (queue_of (sweepExpiredLocked _ _) nodeID) eqn:Hq; intros [= <-]. rewrite Hq. intros Hn. by apply Hn.
  - destruct Hstep as (-> & Hpt). destruct Hpt as [-> | [timer ->]]; eapply pull_quiet; try done; by left.
  - destruct Hstep as (w & Hx & ->). destruct Hok as [c ->]. destruct w as [d| |]; cbn in Hx.
    + subst s'. eapply pull_quiet; try done; by left.
    + destruct Hx as (c' & [= <-] & [[Hc ->]|[Hc ->]]).
      * eapply pull_quiet; try done. right. by eexists.
      * eapply pull_quiet; try done; by left.
    + destruct Hx as [-> _]. eapply pull_quiet; try done; by left.
  - destruct Hstep as (x & Hx & ->). eapply pull_call; try done; [apply Hnode|].
    intros _ Hmore. split; [|done]. intros t Ht. destruct (Hok t Ht) as (q & Hq & Hp). exists q. split; [by apply Hmore|done].
  - done.
Qed.
End pull.

(** ** Reports *)
Lemma report_keeps s pts i ctx req pt s' pt' : system_inv s → points_inv s pts →
  pts !! i = Some (AtReport ctx req pt) → r_step cfg i s pt s' pt' →
  system_inv (set_goroutine i (goroutine_of (AtReport ctx req pt')) s').
Proof.
  intros Hinv Hpts Hi Hstep. pose proof (own_ok _ _ _ _ _ _ Hpts Hi) as [_ _ _ Hok].
  destruct pt as [r|r]; cbn -[perform_op] in Hstep, Hok; [|done].
  destruct Hstep as (x & Hx & ->). apply perform_locked in Hx as (b' & Hcall & ->).
  eapply (call_step _ _ _ pts); try done.
  - intros e q He ->. cbn in He. by destruct x.
  - intros e He. cbn in He. by destruct x; simplify_eq.
Qed.

(** ** The system *)
Lemma starts_keeps s i g : system_inv s → s_goroutines s !! i = None → started maxWait retryInterval g →
  system_inv (set_goroutine i g s).
Proof.
  intros Hinv Hnew Hstart. destruct (si_points _ _ _ Hinv) as [pts Hpts].
  assert (pts !! i = None) as Hi.
  { rewrite (pi_goroutines _ _ _ _ Hpts), lookup_fmap in Hnew. by destruct (pts !! i). }
  assert (∃ pt, g = goroutine_of pt ∧ point_ok s i pt ∧ drawn pt = None ∧ holder pt = None) as (pt & -> & Hok & Hd & Hh).
  { destruct Hstart as [nodeID query Hf|ctx nodeID|ctx req].
    - by exists (AtQuery nodeID query QValidate).
    - destruct (p_prog_started maxWait retryInterval nodeID ctx) as [(r & Hr & Hp)|(Hn & Hc & Hp)].
      + exists (AtPull ctx nodeID (PEnd r)). cbn. rewrite Hp. split_and!; [done| |done|done]. split; try done. split; [|done].
        intros t Ht. by destruct (Hr t).
      + exists (AtPull ctx nodeID PSubscribe). cbn. rewrite Hp. split_and!; done.
    - destruct (r_prog_started ctx req) as (pt & Hp & Hpt). exists (AtReport ctx req pt). cbn. rewrite Hp.
      split_and!; [done|by split|done|done]. }
  destruct Hinv as [Hl Hb Hu Hp He _]. split; try done.
  - intros j e Hin. destruct (He j e Hin) as (g & Hg & Hby). exists g. cbn. rewrite lookup_insert_ne; [done|]. congruence.
  - exists (<[i := pt]> pts). destruct Hpts as [Hg Hpt Hdr Hhold Hun Hop]. split.
    + cbn. by rewrite Hg, fmap_insert.
    + intros j p. rewrite lookup_insert. intros Hj. eapply point_ok_leaves; [apply leaves_goroutine|].
      case_decide; [by simplify_eq|by apply Hpt].
    + intros j k p p' id. rewrite !lookup_insert. repeat case_decide; intros; simplify_eq; by eauto.
    + intros t. cbn. rewrite Hhold. split; intros (j & p & Hj & Ht); exists j, p; revert Hj; rewrite lookup_insert;
        case_decide; intros Hj; simplify_eq; done.
    + intros j k p p' t t'. rewrite !lookup_insert. repeat case_decide; intros; simplify_eq; by eauto.
    + done.
Qed.
Lemma time_keeps s t : system_inv s → (s_clock s ≤ t)%Z → system_inv (set_clock t s).
Proof.
  intros [Hl Hb Hu Hp He (pts & [Hg Hpt Hdr Hhold Hun Hop])] Hle. split; try done; [by eapply holds_later|].
  exists pts. split; try done. intros i pt Hi. eapply point_ok_leaves; [by apply leaves_time|]. by apply Hpt.
Qed.
Lemma system_step_keeps s s' : system_step cfg maxWait retryInterval s s' → system_inv s → system_inv s'.
Proof.
  intros Hstep Hinv. destruct Hstep as [t Hle|i g Hnew Hstart|i g s' g' Hg Hrun]; [by apply time_keeps|by apply starts_keeps|].
  destruct (si_points _ _ _ Hinv) as [pts Hpts]. rewrite (pi_goroutines _ _ _ _ Hpts), lookup_fmap in Hg.
  destruct (pts !! i) as [pt|] eqn:Hi; [|done]. cbn in Hg. injection Hg as <-.
  destruct (own_ok _ _ _ _ _ _ Hpts Hi) as [Hf _ _ _].
  apply goroutine_at_step in Hrun as (pt' & -> & Hs & _); [|done].
  destruct pt as [nodeID query pt|ctx nodeID pt|ctx req pt], pt' as [nodeID' query' pt'|ctx' nodeID' pt'|ctx' req' pt'];
    cbn in Hs; try done; destruct Hs as (-> & -> & Hs).
  - by eapply query_keeps.
  - by eapply pull_keeps.
  - by eapply report_keeps.
Qed.
Lemma initial_inv s : initial s → system_inv s.
Proof.
  intros (Hb & Hg & Hh). split.
  - rewrite Hh. constructor.
  - rewrite Hh, Hb. split; [split|]; try done; [by intros nodeID q ?%not_elem_of_nil|intros nodeID; constructor].
  - rewrite Hh. by intros id [? [=]].
  - by rewrite Hb.
  - rewrite Hh. by intros i e ?%not_elem_of_nil.
  - exists ∅. split; try done.
    + intros [[[|] key] ch]; rewrite Hb; cbn; (split; [|by intros (? & ? & ? & ?)]); unfold subbed, subscribed; cbn; set_solver.
    + intros [[[|] key] ch]; rewrite Hb; unfold subbed, subscribed; cbn; set_solver.
Qed.
Lemma docker_reachable_inv s : docker_reachable cfg maxWait retryInterval s → system_inv s.
Proof.
  intros (s0 & Hs0 & Hsteps). apply initial_inv in Hs0. induction Hsteps as [|s1 s2 s3 Hs _ IH]; [done|].
  apply IH. by eapply system_step_keeps.
Qed.
End reach.
