(* ===== verification/DockerTheorems.v ===== *)
(** * Docker queries: what clients and agents may rely on

    The broker and the goroutines around it implement the life of a query
    ([docker_broker_implements_query_life]), an answer is the report of the
    node that was asked ([docker_answer_comes_from_its_node]), nobody waits
    for something that is there ([docker_no_lost_wakeup]), and a request
    always returns ([docker_request_returns]). *)
From S2P Require Export DockerReach.
From S2P Require Import TunnelTheorems StoreExamples.

(** ** Legal histories *)
Definition handed_id (e : nat * QueryEvent) : option string :=
  match e.2 with Handed _ q => Some (qa_QueryID q) | _ => None end.
Definition reported_id (e : nat * QueryEvent) : option string :=
  match e.2 with Reported r => Some (qr_QueryID r) | _ => None end.

(** What led to a phase. *)
Definition trail (h : list (nat * QueryEvent)) (id : string) (i : nat) (p : Phase) : Prop :=
  match p with
  | PWaiting q => [(i, Enqueued q)] `sublist_of` h
  | PHanded q => ∃ j, [(i, Enqueued q); (j, Handed (qa_NodeID q) q)] `sublist_of` h
  | PReady q r => ∃ j k, [(i, Enqueued q); (j, Handed (qa_NodeID q) q); (k, Reported r)] `sublist_of` h ∧
      qr_QueryID r = id ∧ qr_NodeID r = qa_NodeID q
  | POver q (Some r) => ∃ j k,
      [(i, Enqueued q); (j, Handed (qa_NodeID q) q); (k, Reported r); (i, Answered id r)] `sublist_of` h ∧
      qr_QueryID r = id ∧ qr_NodeID r = qa_NodeID q
  | POver q None => True
  end.
Lemma trail_more h e id i p : trail h id i p → trail (h ++ [e]) id i p.
Proof.
  assert (h `sublist_of` h ++ [e]) as Hs by apply sublist_inserts_r, reflexivity.
  destruct p as [q|q|q r|q [r|]]; cbn; [intros Hq; by etransitivity| | | |done].
  - intros [j Hj]. exists j. by etransitivity.
  - intros (j & k & Hj & Hr). exists j, k. split; [by etransitivity|done].
  - intros (j & k & Hj & Hr). exists j, k. split; [by etransitivity|done].
Qed.
Lemma sublist_snoc {A} (l h : list A) e : l `sublist_of` h → l ++ [e] `sublist_of` h ++ [e].
Proof. intros Hl. by apply sublist_app. Qed.
Lemma legal_trail h : legal h → ∀ id i p, phases h !! id = Some (i, p) → trail h id i p.
Proof.
  induction 1 as [|h e Hl IH Ha]; [done|]. intros id i p. rewrite phases_snoc.
  assert (∀ i p, phases h !! id = Some (i, p) → trail (h ++ [e]) id i p) as Hold by (intros; by apply trail_more, IH).
  destruct Ha as [k q Hq|k j q Hq|k j q r Hq Hn|k q id' r Hq|k p' id' Hq Ho]; unfold phase_after; cbn [fst snd].
  - rewrite lookup_insert. case_decide as Hid; [intros [= <- <-]; cbn; apply sublist_inserts_l; reflexivity|apply Hold].
  - rewrite lookup_move. case_decide as Hid; [subst; rewrite Hq; intros [= <- <-]|apply Hold].
    exists k. apply (sublist_snoc [_]). by apply (IH _ _ _ Hq).
  - rewrite lookup_move. case_decide as Hid; [subst; rewrite Hq; intros [= <- <-]|apply Hold].
    destruct (IH _ _ _ Hq) as [j' Hj']. exists j', k. split; [|done]. by apply (sublist_snoc [_; _]).
  - rewrite lookup_move. case_decide as Hid; [subst; rewrite Hq; intros [= <- <-]|apply Hold].
    destruct (IH _ _ _ Hq) as (j' & k' & Hj' & Hr). exists j', k'. split; [|done]. by apply (sublist_snoc [_; _; _]).
  - rewrite lookup_move. case_decide as Hid; [subst; rewrite Hq; by intros [= <- <-]|apply Hold].
Qed.

(** A query is handed out once, and reported once. *)
Definition was_handed (p : Phase) : bool := match p with PWaiting _ => false | _ => true end.
Definition was_reported (p : Phase) : bool := match p with PReady _ _ | POver _ _ => true | _ => false end.
Lemma legal_once (key : nat * QueryEvent → option string) (past : Phase → bool) h :
  (∀ ph e id, allowed ph e → key e = Some id →
     ∃ i p p', ph !! id = Some (i, p) ∧ past p = false ∧ phase_after ph e !! id = Some (i, p') ∧ past p' = true) →
  (∀ ph e id i p, allowed ph e → ph !! id = Some (i, p) → past p = true →
     ∃ p', phase_after ph e !! id = Some (i, p') ∧ past p' = true) →
  legal h → NoDup (omap key h) ∧ ∀ id, id ∈ omap key h → ∃ i p, phases h !! id = Some (i, p) ∧ past p = true.
Proof.
  intros Hkey Hpast. induction 1 as [|h e Hl [IH1 IH2] Ha]; [split; [constructor|by intros id ?%not_elem_of_nil]|].
  rewrite omap_app, phases_snoc.
  assert (∀ id, id ∈ omap key h → ∃ i p, phase_after (phases h) e !! id = Some (i, p) ∧ past p = true) as Hold.
  { intros id Hid. destruct (IH2 id Hid) as (i & p & Hp & Hb). destruct (Hpast _ _ _ _ _ Ha Hp Hb) as (p' & Hp' & Hb').
    by exists i, p'. }
  cbn. destruct (key e) as [id|] eqn:He; [|by rewrite app_nil_r].
  destruct (Hkey _ _ _ Ha He) as (i & p & p' & Hp & Hb & Hp' & Hb'). split.
  - apply NoDup_app. split_and!; [done| |apply NoDup_singleton]. intros id' Hid ->%list_elem_of_singleton.
    destruct (IH2 id Hid) as (j & p1 & Hp1 & Hb1). congruence.
  - intros id'. rewrite elem_of_app, list_elem_of_singleton. intros [Hid| ->]; [by apply Hold|by exists i, p'].
Qed.
Lemma past_stays (past : Phase → bool) ph e id i p :
  (∀ q, past (PWaiting q) = false) → (∀ q r, past (PReady q r) = true) → (∀ q r, past (POver q r) = true) →
  allowed ph e → ph !! id = Some (i, p) → past p = true → ∃ p', phase_after ph e !! id = Some (i, p') ∧ past p' = true.
Proof.
  intros Hw Hr Ho Ha Hp Hb.
  destruct Ha as [k q Hq|k j q Hq|k j q r Hq Hn|k q id' r Hq|k p' id' Hq Hov]; unfold phase_after; cbn [fst snd].
  - exists p. rewrite lookup_insert_ne; [done|congruence].
  - rewrite lookup_move. case_decide; [subst|by exists p]. rewrite Hq in Hp. injection Hp as <- <-. congruence.
  - rewrite lookup_move. case_decide; [subst|by exists p]. rewrite Hp. by eexists.
  - rewrite lookup_move. case_decide; [subst|by exists p]. rewrite Hp. by eexists.
  - rewrite lookup_move. case_decide; [subst|by exists p]. rewrite Hp. by eexists.
Qed.
Lemma handed_once h : legal h → NoDup (omap handed_id h).
Proof.
  intros Hl. eapply (legal_once handed_id was_handed); [| |done]; [|by intros; eapply past_stays].
  intros ph e id Ha He. destruct Ha as [k q Hq|k j q Hq|k j q r Hq Hn|k q id' r Hq|k p' id' Hq Ho]; cbn in He; simplify_eq.
  exists j, (PWaiting q). eexists. split_and!; [done|done| |]; [unfold phase_after; cbn [fst snd]; by erewrite lookup_move_eq|done].
Qed.
Lemma reported_once h : legal h → NoDup (omap reported_id h).
Proof.
  intros Hl. eapply (legal_once reported_id was_reported); [| |done]; [|by intros; eapply past_stays].
  intros ph e id Ha He. destruct Ha as [k q Hq|k j q Hq|k j q r Hq Hn|k q id' r Hq|k p' id' Hq Ho]; cbn in He; simplify_eq.
  exists j, (PHanded q). eexists. split_and!; [done|done| |]; [unfold phase_after; cbn [fst snd]; by erewrite lookup_move_eq|done].
Qed.

(** ** Finished and blocked goroutines *)
Definition finished {A} (p : Handler A) : option A := match p with HRet a => Some a | _ => None end.
Definition blocked {A} (p : Handler A) : option (option chan) :=
  match p with
  | HDo o _ => match o with Select ch _ => Some ch | _ => None end
  | _ => None
  end.

Lemma ttl_covers_wait q : (wait_timeout q + 55 * Time.Second ≤ dockerQueryTTL q)%Z.
Proof.
  unfold wait_timeout, dockerQueryTTL, dockerQueryMaxWait, dockerQueryCleanupGrace, Time.Minute, Time.Second.
  repeat case_decide; lia.
Qed.

Section theorems.
Context `{DnsState} `{GitState} `{!Environment} `{DockerJSON}.
Context (cfg : ControllerConfig) (maxWait retryInterval : Z).
Abbreviation reachable := (docker_reachable cfg maxWait retryInterval).
Abbreviation goroutine_of := (goroutine_at maxWait retryInterval).

(** C7: the broker of Docker queries implements the life of a query.
    Whatever the order in which requests, agents and reports come, every
    query waits, is handed to an agent of its node, is reported and is
    answered or given up, in this order, and is handed out and reported at
    most once ([legal], [NoDup]); the queues, the assignments and the results
    hold exactly the queries that are in those phases and have not expired,
    and nothing of a query that is over. *)
Theorem docker_broker_implements_query_life (s : System) (Hreach : reachable s) :
  legal (s_history s) ∧ broker_holds (s_clock s) (phases (s_history s)) (s_broker s) ∧
  NoDup (omap handed_id (s_history s)) ∧ NoDup (omap reported_id (s_history s)).
Proof.
  apply docker_reachable_inv in Hreach as [Hl Hh _ _ _ _].
  split_and!; [done|done|by apply handed_once|by apply reported_once].
Qed.

(** The goroutine of a point that has returned. *)
Lemma finished_query nodeID query pt r : finished (q_prog nodeID query pt) = Some (Ok r) → fresh_query query →
  ∃ q, pt = QEnd q (Ok r).
Proof.
  intros Hf Hq. destruct pt as [|e| |q|q t|q|q d|q d ch|q d ch|q d ch|q d ch t|q d ch e|q ch r0|q r0]; cbn in Hf; try done.
  - unfold q_ask, Enqueue in Hf. by rewrite decide_True in Hf by apply Hq.
  - exists q. unfold query_answer in Hf. destruct r0 as [r0|e]; [|done]. case_decide; by simplify_eq.
Qed.

(** C8: an answer comes from the node that was asked.  When a request
    returns a result, its query was put into the queue of its node, handed to
    a call authenticated as that node, and the result is the one a call
    authenticated as that node reported for this query, in this order. *)
Theorem docker_answer_comes_from_its_node (s : System) (i : nat) (nodeID : string) (query : dockerAgentQuery)
    (p : Handler (result ConnectError dockerAgentQueryResult)) (r : dockerAgentQueryResult)
    (Hreach : reachable s) (Hi : s_goroutines s !! i = Some (Querying nodeID query p))
    (Hdone : finished p = Some (Ok r)) :
  ∃ q j k, made nodeID query q ∧ qr_QueryID r = qa_QueryID q ∧ qr_NodeID r = nodeID ∧
    [(i, Enqueued q); (j, Handed nodeID q); (k, Reported r); (i, Answered (qa_QueryID q) r)] `sublist_of` s_history s ∧
    (∃ p, s_goroutines s !! j = Some (Pulling (Some nodeID) nodeID p)) ∧
    (∃ req p, rq_NodeId req = nodeID ∧ s_goroutines s !! k = Some (Reporting (Some nodeID) req p)).
Proof.
  apply docker_reachable_inv in Hreach as [Hl Hh _ _ Hev (pts & Hpts)].
  rewrite (pi_goroutines _ _ _ _ Hpts), lookup_fmap in Hi. destruct (pts !! i) as [pt|] eqn:Hpt; [|done].
  pose proof (pi_points _ _ _ _ Hpts _ _ Hpt) as Hok. destruct pt as [n q0 pt| |]; simplify_eq/=.
  destruct Hok as [Hf _ _ [Hq _]]. apply finished_query in Hdone as [q ->]; [|done]. destruct Hq as (Hm & Hid & Hp).
  destruct (legal_trail _ Hl _ _ _ Hp) as (j & k & Hs & Hr & Hn). cbn in Hs, Hr, Hn.
  assert (qa_NodeID q = nodeID) as Hnode by (by apply (f_equal qa_NodeID) in Hm). rewrite Hnode in Hs, Hn.
  exists q, j, k. split_and!; try done.
  - destruct (Hev j (Handed nodeID q)) as ([|ctx n p|] & Hg & Hby); [|done| |done].
    { eapply elem_of_sublist; [|exact Hs]. set_solver. }
    destruct Hby as [-> ->]. by exists p.
  - destruct (Hev k (Reported r)) as ([| |ctx req p] & Hg & Hby); [|done|done|].
    { eapply elem_of_sublist; [|exact Hs]. set_solver. }
    destruct Hby as [Heq ->]. exists req, p. split; congruence.
Qed.

(** C9: nobody waits for something that is there.  A request in its
    [select] is subscribed to the result of a query of its own, and an agent
    to the queue of its node; once a result or a query is there, the channel
    holds a value, so that the [select] goes on.  No call ever sends on a
    closed channel or closes one again. *)
Theorem docker_no_lost_wakeup (s : System) (Hreach : reachable s) :
  bk_panicked (s_broker s) = false ∧
  (∀ i nodeID query p ch, s_goroutines s !! i = Some (Querying nodeID query p) → blocked p = Some ch →
     ∃ c queryID, ch = Some c ∧ asked_by (phases (s_history s)) i queryID ∧ subbed (s_broker s) (true, queryID, c) ∧
       (is_Some (bk_results (s_broker s) !! queryID) → signalled (s_broker s) c)) ∧
  (∀ i ctx nodeID p ch, s_goroutines s !! i = Some (Pulling ctx nodeID p) → blocked p = Some ch →
     ∃ c, ch = Some c ∧ subbed (s_broker s) (false, nodeID, c) ∧
       (queue_of (s_broker s) nodeID ≠ [] → signalled (s_broker s) c)).
Proof.
  apply docker_reachable_inv in Hreach as [Hl Hh _ Hpan Hev (pts & Hpts)]. split; [done|].
  assert (∀ t i pt, pts !! i = Some pt → holder pt = Some t → subbed (s_broker s) t) as Hsub
    by (intros t i pt Hi Ht; apply (pi_holders _ _ _ _ Hpts); by eexists _, _).
  split.
  - intros i nodeID query p ch Hi Hb. rewrite (pi_goroutines _ _ _ _ Hpts), lookup_fmap in Hi.
    destruct (pts !! i) as [pt|] eqn:Hpt; [|done]. pose proof (pi_points _ _ _ _ Hpts _ _ Hpt) as [Hf _ Hw Hok].
    destruct pt as [n q0 pt| |]; simplify_eq/=.
    destruct pt as [|e| |q|q t|q|q d|q d c|q d c|q d c|q d c t|q d c e|q c r0|q r0]; cbn in Hb; try done.
    { unfold q_ask, Enqueue in Hb. by rewrite decide_True in Hb by apply Hf. }
    injection Hb as <-. destruct Hok as [(Hm & Ha & [c' ->]) _]. exists c', (qa_QueryID q). split_and!; [done|done| |].
    + by eapply Hsub.
    + intros Hr. by apply (Hw (true, qa_QueryID q, c')).
  - intros i ctx nodeID p ch Hi Hb. rewrite (pi_goroutines _ _ _ _ Hpts), lookup_fmap in Hi.
    destruct (pts !! i) as [pt|] eqn:Hpt; [|done]. pose proof (pi_points _ _ _ _ Hpts _ _ Hpt) as [Hf _ Hw Hok].
    destruct pt as [|x n pt|]; simplify_eq/=.
    destruct pt as [|c|d c|d c|d c|d c t|c r0|r0]; cbn in Hb; try done.
    injection Hb as <-. destruct Hok as [[c' ->] _]. exists c'. split_and!; [done| |].
    + by eapply Hsub.
    + intros Hr. by apply (Hw (false, nodeID, c')).
Qed.

(** ** A request on its own *)
(** Time passes, or goroutine [i] runs. *)
Inductive alone (i : nat) (s : System) : System → Prop :=
| alone_time t : (s_clock s ≤ t)%Z → alone i s (set_clock t s)
| alone_runs g s' g' : s_goroutines s !! i = Some g → goroutine_step cfg i s g s' g' → alone i s (set_goroutine i g' s').
Definition returns (i : nat) (nodeID : string) (query : dockerAgentQuery) (s : System) : Prop :=
  ∃ s' p r, rtc (alone i) s s' ∧ s_goroutines s' !! i = Some (Querying nodeID query p) ∧ finished p = Some r.

Lemma returns_step i nodeID query pt pt' s s' : fresh_query query →
  s_goroutines s !! i = Some (goroutine_of (AtQuery nodeID query pt)) →
  (∀ p p', p = q_prog nodeID query pt → p' = q_prog nodeID query pt' → handler_step cfg i s p s' p') →
  returns i nodeID query (set_goroutine i (goroutine_of (AtQuery nodeID query pt')) s') → returns i nodeID query s.
Proof.
  intros Hf Hi Hstep (s2 & p & r & Hs & Hg & Hr). exists s2, p, r. split; [|done]. eapply rtc_l; [|exact Hs].
  eapply alone_runs; [exact Hi|]. constructor. by apply Hstep.
Qed.

Lemma perform_call i {X} (m : Method X) s : perform_op cfg i (Locked m) s (call_method m (s_clock s) (s_broker s)).2
  (add_history i (event_of m (call_method m (s_clock s) (s_broker s)).2)
     (set_broker (call_method m (s_clock s) (s_broker s)).1 s)).
Proof. cbn. by destruct (call_method m (s_clock s) (s_broker s)). Qed.
Lemma returns_time i nodeID query s t : (s_clock s ≤ t)%Z → returns i nodeID query (set_clock t s) → returns i nodeID query s.
Proof. intros Hle (s2 & p & r & Hs & Hg). exists s2, p, r. split; [|done]. eapply rtc_l; [|exact Hs]. by constructor. Qed.

Section alone.
Context (i : nat) (nodeID : string) (query : dockerAgentQuery) (w : World).
Hypothesis (Hf : fresh_query query).
Definition at_point (pt : QPoint) (s : System) : Prop :=
  s_goroutines s !! i = Some (goroutine_of (AtQuery nodeID query pt)).
Definition settles (pt : QPoint) : Prop := ∀ s, at_point pt s → returns i nodeID query s.

Lemma settles_end pt r : finished (q_prog nodeID query pt) = Some r → settles pt.
Proof. intros Hr s Hs. eexists s, _, _. split; [apply rtc_refl|]. by split; [exact Hs|]. Qed.
(** A step whose answer is known. *)
Lemma settles_do pt {X} (o : HandlerOp X) k :
  q_prog nodeID query pt = HDo o k →
  (∀ s, at_point pt s → ∃ x s' pt', perform_op cfg i o s x s' ∧ k x = q_prog nodeID query pt' ∧ settles pt') →
  settles pt.
Proof.
  intros Hp Hs s Hat. destruct (Hs s Hat) as (x & s' & pt' & Hx & Hk & Hpt').
  eapply (returns_step i nodeID query pt pt'); [done|exact Hat| |refine (Hpt' _ _); apply lookup_insert_eq].
  intros p p' -> ->. rewrite Hp. by exists x.
Qed.
Lemma settles_call pt {X} (m : Method X) k :
  q_prog nodeID query pt = HDo (Locked m) k →
  (∀ x, ∃ pt', k x = q_prog nodeID query pt' ∧ settles pt') → settles pt.
Proof.
  intros Hp Hk. eapply settles_do; [exact Hp|]. intros s _. destruct (Hk (call_method m (s_clock s) (s_broker s)).2) as (pt' & Hx & Hpt').
  eexists _, _, pt'. split; [apply perform_call|done].
Qed.

Lemma settles_unsubscribe q ch r : settles (QUnsubscribe q ch r).
Proof.
  eapply settles_call; [reflexivity|]. intros x. exists (QEnd q r). split; [reflexivity|]. by eapply settles_end.
Qed.
Lemma settles_cancel q d ch e : settles (QCancel q d ch e).
Proof. eapply settles_call; [reflexivity|]. intros x. eexists. split; [|apply settles_unsubscribe]. reflexivity. Qed.
Lemma settles_select q d ch t : settles (QSelect q d ch t).
Proof.
  intros s Hat. apply (returns_time _ _ _ _ (Z.max t (s_clock s))); [lia|].
  eapply (returns_step i nodeID query (QSelect q d ch t) (QCancel q d ch WaitTimeout)); [done|exact Hat| |].
  - intros p p' -> ->. exists TimerFired. split; [|reflexivity]. split; [reflexivity|]. cbn. lia.
  - refine (settles_cancel q d ch WaitTimeout _ _). apply lookup_insert_eq.
Qed.
Lemma settles_now q d ch : settles (QNow q d ch).
Proof.
  eapply settles_do; [reflexivity|]. intros s _. exists (s_clock s), s.
  destruct (decide (d - s_clock s ≤ 0)%Z) as [Hle|Hle].
  - exists (QCancel q d ch WaitTimeout). split; [done|]. rewrite decide_True by done. split; [reflexivity|apply settles_cancel].
  - exists (QSelect q d ch (s_clock s + (d - s_clock s))%Z). split; [done|]. rewrite decide_False by done.
    split; [reflexivity|apply settles_select].
Qed.
Lemma settles_loop q d ch : settles (QLoop q d ch).
Proof.
  intros s Hat. eapply (returns_step i nodeID query (QLoop q d ch) (QPop q d ch)); [done|exact Hat| |].
  - intros p p' -> ->. split; reflexivity.
  - assert (settles (QPop q d ch)) as Hpop; [|refine (Hpop _ _); apply lookup_insert_eq]. eapply settles_call; [reflexivity|]. intros [r|].
    + exists (QUnsubscribe q ch (Ok r)). split; [reflexivity|apply settles_unsubscribe].
    + exists (QNow q d ch). split; [reflexivity|apply settles_now].
Qed.
Lemma settles_start q : settles (QStart q).
Proof.
  eapply settles_do; [reflexivity|]. intros s _. exists (s_clock s), s, (QSubscribe q (s_clock s + wait_timeout query)%Z).
  split; [done|]. split; [reflexivity|]. eapply settles_call; [reflexivity|]. intros ch.
  eexists. split; [|apply settles_loop]. reflexivity.
Qed.
Lemma settles_enqueue q : settles (QClock q).
Proof.
  eapply settles_do; [reflexivity|]. intros s _. exists (s_clock s), s, (QEnqueue (stamp (s_clock s) q) (s_clock s)).
  split; [done|]. split; [reflexivity|]. eapply settles_call; [reflexivity|]. intros [].
  eexists. split; [|apply settles_start]. reflexivity.
Qed.
Lemma settles_uuid : settles QUuid.
Proof.
  eapply (settles_do QUuid NewUUID (λ id, q_prog nodeID query (QClock (with_QueryID id (with_NodeID nodeID query))))).
  - cbn. unfold q_ask, Enqueue. by rewrite decide_True by apply Hf.
  - intros s _. pose proof (is_fresh ({[""]} ∪ s_uuids s)) as Hnew. set (id := fresh ({[""]} ∪ s_uuids s)) in *.
    eexists id, _, _. split; [split_and!; [set_solver|set_solver|reflexivity]|]. split; [reflexivity|apply settles_enqueue].
Qed.
Lemma settles_any pt : settles pt.
Proof.
  destruct pt as [|e| |q|q t|q|q d|q d ch|q d ch|q d ch|q d ch t|q d ch e|q ch r0|q r0].
  - eapply settles_do; [reflexivity|]. intros s _. destruct (validateNodeForDockerQuery cfg nodeID w) as [w' [u|e]] eqn:Hw.
    + exists (Ok u), s, QUuid. split; [by split; [|exists w, w']|]. split; [reflexivity|apply settles_uuid].
    + exists (Err e), s, (QRefused e). split; [by split; [|exists w, w']|]. split; [reflexivity|by eapply settles_end].
  - by eapply settles_end.
  - apply settles_uuid.
  - apply settles_enqueue.
  - eapply settles_call; [reflexivity|]. intros []. eexists. split; [|apply settles_start]. reflexivity.
  - apply settles_start.
  - eapply settles_call; [reflexivity|]. intros ch. eexists. split; [|apply settles_loop]. reflexivity.
  - apply settles_loop.
  - eapply settles_call; [reflexivity|]. intros [r|].
    + exists (QUnsubscribe q ch (Ok r)). split; [reflexivity|apply settles_unsubscribe].
    + exists (QNow q d ch). split; [reflexivity|apply settles_now].
  - apply settles_now.
  - apply settles_select.
  - apply settles_cancel.
  - apply settles_unsubscribe.
  - by eapply settles_end.
Qed.
End alone.

(** C10: a request always returns.  From every reachable state it gets to
    its end with its own steps and the time that passes, whatever has
    happened before and without any agent: nothing it waits for can keep it. *)
Theorem docker_request_returns (w : World) (s : System) (i : nat) (nodeID : string) (query : dockerAgentQuery)
    (p : Handler (result ConnectError dockerAgentQueryResult))
    (Hreach : reachable s) (Hi : s_goroutines s !! i = Some (Querying nodeID query p)) :
  returns i nodeID query s.
Proof.
  apply docker_reachable_inv in Hreach as [_ _ _ _ _ (pts & Hpts)]. pose proof Hi as Hg.
  rewrite (pi_goroutines _ _ _ _ Hpts), lookup_fmap in Hi. destruct (pts !! i) as [pt|] eqn:Hpt; [|done].
  pose proof (pi_points _ _ _ _ Hpts _ _ Hpt) as [Hf _ _ _]. destruct pt as [n q0 pt| |]; simplify_eq/=.
  by eapply (settles_any i nodeID query w Hf pt).
Qed.
End theorems.

(** ** Docker queries: a concrete run

    A client asks for the containers of node n1, its agent pulls the query
    and reports them, and the client has its answer; [play] runs the system
    along a schedule. *)
From stdpp Require Import pretty.
From S2P Require Import TunnelTheorems StoreExamples Config.
Local Open Scope Z_scope.

#[local] Instance docker_state : DnsState := tunnel_state.
#[local] Instance docker_git_state : GitState := tunnel_git_state.
#[local] Instance docker_json : DockerJSON := {|
  marshal_list_result r := Ok (dl_Content r); unmarshal_list_result s := Ok (content_result s);
  format_nano _ := "nano"; format_rfc3339 _ := "rfc3339"; parse_rfc3339_text _ := None; duration_text _ := "1s" |}.

Section play.
Context `{!Environment} (cfg : ControllerConfig) (w0 : World).

Inductive Act : Type :=
| Tick (t : Time.time)
| StartQuery (i : nat) (nodeID : string) (query : dockerAgentQuery)
| StartPull (i : nat) (ctx : Context_) (nodeID : string)
| StartReport (i : nat) (ctx : Context_) (req : ReportDockerQueryResultRequest)
| Run (i : nat) (w : Wakeup).

(** An operation: the given end of a [select], an identifier from their number. *)
Definition try_op (i : nat) (w : Wakeup) {X} (o : HandlerOp X) (s : System) : option (X * System) :=
  match o in HandlerOp X return option (X * System) with
  | Clock => Some (s_clock s, s)
  | NewUUID => let id := "q" +:+ pretty (size (s_uuids s)) in
      if decide ((id ∉ s_uuids s) ∧ id ≠ "") then Some (id, draw_uuid id s) else None
  | ValidateNode nodeID => Some ((validateNodeForDockerQuery cfg nodeID w0).2, s)
  | Locked m =>
      let '(b, x) := call_method m (s_clock s) (s_broker s) in Some (x, add_history i (event_of m x) (set_broker b s))
  | Select ch timer =>
      match w with
      | CtxDone _ => Some (w, s)
      | TimerFired => if decide (timer ≤ s_clock s) then Some (w, s) else None
      | Received =>
          c ← ch;
          if decide (bk_channels (s_broker s) !! c = Some (ChanOpen true))
          then Some (w, set_broker (receive c (s_broker s)) s) else None
      end
  end.
Lemma try_op_sound i w {X} (o : HandlerOp X) s x s' : try_op i w o s = Some (x, s') → perform_op cfg i o s x s'.
Proof.
  destruct o as [| |nodeID|X m|ch timer]; cbn.
  - by intros [= <- <-].
  - case_decide as Hid; [|done]. intros [= <- <-]. destruct Hid. by split_and!.
  - intros [= <- <-]. split; [done|]. exists w0, (validateNodeForDockerQuery cfg nodeID w0).1. apply surjective_pairing.
  - destruct (call_method m (s_clock s) (s_broker s)) as [b y]. by intros [= <- <-].
  - destruct w as [d| |].
    + by intros [= <- <-].
    + destruct ch as [c|]; [|done]. cbn. case_decide; [|done]. intros [= <- <-]. exists c. split; [done|]. by left.
    + case_decide; [|done]. by intros [= <- <-].
Qed.
Definition try_step (i : nat) (w : Wakeup) {A} (p : Handler A) (s : System) : option (System * Handler A) :=
  match p in Handler A return option (System * Handler A) with
  | HRet _ => None
  | HDo o k => r ← try_op i w o s; Some (r.2, k r.1)
  | Loop body k => Some (s, handler_bind body (λ r, match r with Some a => k a | None => Loop body k end))
  end.
Lemma try_step_sound i w {A} (p : Handler A) s s' p' : try_step i w p s = Some (s', p') → handler_step cfg i s p s' p'.
Proof.
  destruct p as [A a|A X o k|A B body k]; cbn; [done| |by intros [= <- <-]].
  destruct (try_op i w o s) as [[x s1]|] eqn:Ho; [|done]. cbn. intros [= <- <-]. exists x. split; [by eapply try_op_sound|done].
Qed.
Definition try_run (i : nat) (w : Wakeup) (g : Goroutine) (s : System) : option System :=
  match g with
  | Querying nodeID query p => r ← try_step i w p s; Some (set_goroutine i (Querying nodeID query r.2) r.1)
  | Pulling ctx nodeID p => r ← try_step i w p s; Some (set_goroutine i (Pulling ctx nodeID r.2) r.1)
  | Reporting ctx req p => r ← try_step i w p s; Some (set_goroutine i (Reporting ctx req r.2) r.1)
  end.
Definition try_start (i : nat) (g : Goroutine) (s : System) : option System :=
  match s_goroutines s !! i with Some _ => None | None => Some (set_goroutine i g s) end.
Definition act (a : Act) (s : System) : option System :=
  match a with
  | Tick t => if decide (s_clock s ≤ t) then Some (set_clock t s) else None
  | StartQuery i nodeID query =>
      if decide (qa_QueryID query = "" ∧ qa_expiresAt query = Time.zero)
      then try_start i (Querying nodeID query (executeDockerAgentQuery true nodeID query)) s else None
  | StartPull i ctx nodeID => try_start i (Pulling ctx nodeID (PullNextDockerQuery true 0 0 ctx nodeID)) s
  | StartReport i ctx req => try_start i (Reporting ctx req (ReportDockerQueryResult true ctx req)) s
  | Run i w => g ← s_goroutines s !! i; try_run i w g s
  end.
Lemma act_sound a s s' : act a s = Some s' → system_step cfg 0 0 s s'.
Proof.
  assert (∀ i g, started 0 0 g → try_start i g s = Some s' → system_step cfg 0 0 s s') as Hstart.
  { intros i g Hg. unfold try_start. destruct (s_goroutines s !! i) eqn:Hi; [done|]. intros [= <-]. by apply goroutine_starts. }
  destruct a as [t|i nodeID query|i ctx nodeID|i ctx req|i w]; cbn.
  - case_decide; [|done]. intros [= <-]. by constructor.
  - case_decide; [|done]. apply Hstart. by constructor.
  - apply Hstart. constructor.
  - apply Hstart. constructor.
  - destruct (s_goroutines s !! i) as [g|] eqn:Hg; [|done]. cbn.
    destruct g as [n q p|c n p|c r p]; cbn; destruct (try_step i w p s) as [[s1 p1]|] eqn:Hr; try done; cbn; intros [= <-];
      (eapply goroutine_runs; [exact Hg|constructor; by eapply try_step_sound]).
Qed.
Fixpoint play (acts : list Act) (s : System) : option System :=
  match acts with
  | [] => Some s
  | a :: acts => s ← act a s; play acts s
  end.
Lemma play_sound acts s s' : play acts s = Some s' → rtc (system_step cfg 0 0) s s'.
Proof.
  revert s. induction acts as [|a acts IH]; cbn; intros s; [intros [= <-]; apply rtc_refl|].
  destruct (act a s) as [s1|] eqn:Ha; [|done]. cbn. intros Hp. eapply rtc_l; [by eapply act_sound|by apply IH].
Qed.
End play.

(** ** Node n1 answers *)
#[local] Instance docker_environment : Environment := tunnel_environment.
Definition docker_db : DB := set_nodes {["n1" := MkNodeRow true true None None None None None]} empty_db.
Definition docker_world : World := MkWorld docker_db None empty_images (MkRepoTree ∅ ()) ((∅, ∅) : dns_state) [] 0.
Definition docker_cfg : ControllerConfig :=
  MkControllerConfig ":8080" "/repo" "/state" "/log" None None None
    (Some [MkNodeConfig "n1" "" None "" "" "token"]) [] None None None None None.
Definition docker_start : System := MkSystem (2000 * Time.Second) newDockerQueryBroker ∅ ∅ [].
Definition containers_query : dockerAgentQuery := new_query dockerActionList dockerResourceContainers "".
Definition containers_report : ReportDockerQueryResultRequest :=
  MkReportDockerQueryResultRequest "q0" "n1" (ContainerLogsReport "answer") "" DOCKER_QUERY_ERROR_CODE_UNSPECIFIED.

(** The request waits; the agent takes its query and reports; the request
    goes on. *)
Definition asked : list Act := StartQuery 0 "n1" containers_query :: repeat (Run 0 Received) 9.
Definition answered_by_agent : list Act :=
  StartPull 1 (Some "n1") "n1" :: repeat (Run 1 Received) 5 ++
  [StartReport 2 (Some "n1") containers_report; Run 2 Received].
Definition returned : list Act := repeat (Run 0 Received) 4.
Definition played (acts : list Act) : System := default docker_start (play docker_cfg docker_world acts docker_start).

Lemma played_reachable acts : is_Some (play docker_cfg docker_world acts docker_start) →
  docker_reachable docker_cfg 0 0 (played acts).
Proof.
  intros [s Hs]. exists docker_start. split; [done|]. unfold played. rewrite Hs. by eapply play_sound.
Qed.
Definition answer_of (i : nat) (s : System) : option (result ConnectError dockerAgentQueryResult) :=
  match s_goroutines s !! i with Some (Querying _ _ p) => finished p | _ => None end.
Example request_answered : answer_of 0 (played (asked ++ answered_by_agent ++ returned)) =
  Some (Ok (MkQueryResult "q0" "n1" "answer" "" "")).
Proof. by_computation. Qed.

(** ** Witnesses *)
Definition request_of (g : Goroutine) : option (string * dockerAgentQuery) :=
  match g with Querying nodeID query _ => Some (nodeID, query) | _ => None end.
Lemma asked_goroutine acts : s_goroutines (played acts) !! 0%nat ≫= request_of = Some ("n1", containers_query) →
  ∃ p, s_goroutines (played acts) !! 0%nat = Some (Querying "n1" containers_query p).
Proof.
  destruct (s_goroutines (played acts) !! 0%nat) as [[n query p|c n p|c req p]|]; cbn; try done. intros [= -> ->].
  by exists p.
Qed.
Definition blocked_at (i : nat) (s : System) : option (option chan) :=
  match s_goroutines s !! i with Some (Querying _ _ p) => blocked p | _ => None end.

Lemma docker_broker_implements_query_life_witness :
  omap handed_id (s_history (played (asked ++ answered_by_agent))) = ["q0"] ∧
  broker_holds (s_clock (played (asked ++ answered_by_agent)))
    (phases (s_history (played (asked ++ answered_by_agent)))) (s_broker (played (asked ++ answered_by_agent))).
Proof.
  split; [by_computation|].
  apply (docker_broker_implements_query_life docker_cfg 0 0 (played (asked ++ answered_by_agent))).
  apply played_reachable. by_decision.
Defined.
Lemma docker_answer_comes_from_its_node_witness :
  ∃ q j k r, made "n1" containers_query q ∧ qr_PayloadJSON r = "answer" ∧
    [(0%nat, Enqueued q); (j, Handed "n1" q); (k, Reported r); (0%nat, Answered (qa_QueryID q) r)] `sublist_of`
      s_history (played (asked ++ answered_by_agent ++ returned)).
Proof.
  destruct (docker_answer_comes_from_its_node docker_cfg 0 0 (played (asked ++ answered_by_agent ++ returned)) 0 "n1"
    containers_query (HRet (Ok (MkQueryResult "q0" "n1" "answer" "" ""))) (MkQueryResult "q0" "n1" "answer" "" ""))
    as (q & j & k & Hm & _ & _ & Hs & _).
  - apply played_reachable. by_decision.
  - by_computation.
  - done.
  - by exists q, j, k, (MkQueryResult "q0" "n1" "answer" "" "").
Defined.
Lemma docker_no_lost_wakeup_witness :
  ∃ c, blocked_at 0 (played (asked ++ answered_by_agent)) = Some (Some c) ∧
       signalled (s_broker (played (asked ++ answered_by_agent))) c.
Proof.
  destruct (docker_no_lost_wakeup docker_cfg 0 0 (played (asked ++ answered_by_agent))) as (_ & Hq & _).
  { apply played_reachable. by_decision. }
  assert (blocked_at 0 (played (asked ++ answered_by_agent)) = Some (Some 1%positive)) as Hb by by_computation.
  exists 1%positive. split; [done|]. revert Hb. unfold blocked_at.
  destruct (asked_goroutine (asked ++ answered_by_agent)) as [p Hg]; [by_computation|]. rewrite Hg.
  intros Hb. destruct (Hq _ _ _ _ _ Hg Hb) as (c & id & [= <-] & _ & Hs & Hsig). apply Hsig. clear - Hs.
  destruct (decide (id = "q0")) as [->|Hne].
  - exists (default (MkStored (MkQueryResult "" "" "" "" "") 0)
              (bk_results (s_broker (played (asked ++ answered_by_agent))) !! "q0")). by_computation.
  - exfalso. revert Hs. unfold subbed, subscribed.
    assert (subscribers true (s_broker (played (asked ++ answered_by_agent))) = {["q0" := {[1%positive]}]}) as Hsub by by_computation.
    cbn [fst snd]. rewrite Hsub. rewrite lookup_singleton_ne by done. cbn. set_solver.
Defined.
Lemma docker_request_returns_witness : returns docker_cfg 0 "n1" containers_query (played asked).
Proof.
  destruct (asked_goroutine asked) as [p Hg]; [by_computation|].
  apply (docker_request_returns docker_cfg 0 0 docker_world (played asked) 0 "n1" containers_query p); [|done].
  apply played_reachable. by_decision.
Defined.
