(* ===== verification/DockerAgent.v ===== *)
(** * Docker queries on the agent (src/internal/app/agent/docker.go,
    docker_client.go, proto_helpers.go, run.go)

    The lists of an engine with search, order and pages, the details and logs
    of a container, commands in it with bounded output, and what is reported
    to the controller.  The engine behind the moby client is the class
    [DockerEngine]; encoding/json of its answers, the local time zone and
    [strings.ToValidUTF8] are there too. *)
From S2P Require Export DockerMessages Proto ServiceMeta.

(** ** The engine *)
Record PortSummary := MkPort {
  pt_PublicPort : Z;
  pt_PrivatePort : Z;
  pt_Type : string;
}.
Record MountPoint := MkMount {
  mt_Type : string;
  mt_Name : string;
}.
Record ContainerSummary := MkContainerSummary {
  cs_ID : string;
  cs_Names : list string;
  cs_Image : string;
  cs_ImageID : string;
  cs_State : string;
  cs_Status : string;
  cs_Created : Z;
  cs_Labels : gmap string string;
  cs_Ports : list PortSummary;
  cs_Networks : list string;
  cs_Mounts : list MountPoint;
}.
Record NetworkInspect := MkNetworkInspect {
  nw_ID : string;
  nw_Name : string;
  nw_Driver : string;
  nw_Scope : string;
  nw_Internal : bool;
  nw_Attachable : bool;
  nw_Created : Time.time;
  nw_Labels : gmap string string;
  nw_IPAM : list (string * string);
  nw_Containers : Z;
  nw_EnableIPv6 : bool;
}.
Record Volume := MkVolume {
  vo_Name : string;
  vo_Driver : string;
  vo_Mountpoint : string;
  vo_Scope : string;
  vo_CreatedAt : string;
  vo_Labels : gmap string string;
  vo_UsageData : option Z;
}.
Record ImageSummary := MkImageSummary {
  im_ID : string;
  im_RepoTags : list string;
  im_Size : Z;
  im_Created : Z;
  im_RepoDigests : list string;
  im_Containers : Z;
  im_Labels : option (gmap string string);
}.
(** The output of a container or of a command: what arrives on its streams
    (the flag marks stderr), how reading ended, when, and whether the caller
    had given up by then. *)
Inductive StreamError : Type := StreamEOF | StreamFailed (message : string).
Record OutputStream := MkOutput {
  os_Chunks : list (bool * string);
  os_Error : option StreamError;
  os_End : Time.time;
  os_Cancelled : bool;
}.
(** [ctx.Err() != nil] when reading ended. *)
Definition context_over (deadline : Time.time) (o : OutputStream) : bool :=
  os_Cancelled o || bool_decide (deadline ≤ os_End o)%Z.

(** What changes an object of the engine. *)
Inductive EngineCall : Type :=
| CallContainerStart (id : string)
| CallContainerStop (id : string)
| CallContainerRestart (id : string)
| CallContainerRemove (id : string) (force removeVolumes : bool)
| CallNetworkRemove (id : string)
| CallVolumeRemove (name : string)
| CallImageRemove (id : string) (force : bool).

(** A handler either returns or panics ([None]). *)
Definition Ran (A : Type) : Type := option (result ConnectError A).
Definition ran_bind {A B} (r : result ConnectError A) (k : A → Ran B) : Ran B :=
  match r with Ok a => k a | Err e => Some (Err e) end.

Class DockerEngine := {
  container : Type;
  network_json : NetworkInspect → result string string;
  volume_json : Volume → result string string;
  container_json : container → result string string;
  container_tty : container → bool;
  new_client : result string ();
  container_list : result string (list ContainerSummary);
  container_inspect : string → result string container;
  (** the log as it is, and as [stdcopy] takes it apart *)
  container_logs : string → string → bool → bool → result string (OutputStream * OutputStream);
  network_list : result string (list string);
  network_inspect : string → result string NetworkInspect;
  volume_list : result string (list Volume);
  volume_inspect : string → result string Volume;
  disk_usage : result string (list Volume);
  image_list : result string (list ImageSummary);
  image_inspect : string → result string (result string string);
  exec_create : string → bool → list string → result string string;
  exec_attach : string → string → Time.time → result string OutputStream;
  (** when it answers, and the exit code *)
  exec_inspect : string → Time.time * result string Z;
  engine_call : EngineCall → result string ();
  format_unix : Z → string;
  format_created : Time.time → string;
  to_valid_utf8 : string → string;
  decimal : Z → string;
}.

Section docker.
Context `{DockerJSON} `{DockerEngine}.

(** ** docker_client.go *)
Definition wrapped {A} (message : string) (r : result string A) : result ConnectError A :=
  match r with Ok a => Ok a | Err _ => Err (NewError CodeUnknown message) end.
Definition NewDockerClient : result ConnectError () := wrapped "failed to create Docker client" new_client.
Definition ContainerList : result ConnectError (list ContainerSummary) := wrapped "failed to list containers" container_list.
Definition ContainerInspect (id : string) := wrapped "failed to inspect container" (container_inspect id).
Definition ContainerLogs (id tail : string) (timestamps follow : bool) :=
  wrapped "failed to get container logs" (container_logs id tail timestamps follow).
(** A network that is gone by the time it is inspected is left out. *)
Definition NetworkList : result ConnectError (list NetworkInspect) :=
  result_bind (wrapped "failed to list networks" network_list) (λ ids,
    Ok (omap (λ id, match network_inspect id with Ok n => Some n | Err _ => None end) ids)).
Definition NetworkInspect_ (id : string) := wrapped "failed to inspect network" (network_inspect id).
Definition VolumeList : result ConnectError (list Volume) := wrapped "failed to list volumes" volume_list.
Definition VolumeInspect (name : string) := wrapped "failed to inspect volume" (volume_inspect name).
Definition DiskUsage : result ConnectError (list Volume) := wrapped "failed to get disk usage" disk_usage.
Definition ImageList : result ConnectError (list ImageSummary) := wrapped "failed to list images" image_list.
Definition ImageInspect (id : string) := wrapped "failed to inspect image" (image_inspect id).
Definition ContainerStart (id : string) := wrapped "failed to start container" (engine_call (CallContainerStart id)).
Definition ContainerStop (id : string) := wrapped "failed to stop container" (engine_call (CallContainerStop id)).
Definition ContainerRestart (id : string) := wrapped "failed to restart container" (engine_call (CallContainerRestart id)).
Definition ContainerRemove (id : string) (force removeVolumes : bool) :=
  wrapped "failed to remove container" (engine_call (CallContainerRemove id force removeVolumes)).
Definition NetworkRemove (id : string) := wrapped "failed to remove network" (engine_call (CallNetworkRemove id)).
Definition VolumeRemove (name : string) := wrapped "failed to remove volume" (engine_call (CallVolumeRemove name)).
Definition ImageRemove (id : string) (force : bool) :=
  wrapped "failed to remove image" (engine_call (CallImageRemove id force)).

(** ** Pages, search and order *)
Definition normalizeDockerListPage (page : Z) : Z := if decide (page = 0)%Z then 1%Z else page.
(** [items[start:end]]; out of range is a panic. *)
Definition slice {A} (items : list A) (first last : Z) : option (list A) :=
  if decide (0 ≤ first ≤ last ∧ last ≤ Z.of_nat (length items))%Z
  then Some (take (Z.to_nat (last - first)) (drop (Z.to_nat first) items)) else None.
Definition paginateDockerList {A} (items : list A) (page pageSize : Z) : option (list A * Z) :=
  let totalCount := uint32 (Z.of_nat (length items)) in
  if decide (totalCount = 0)%Z then Some (items, 0%Z)
  else if decide (pageSize = 0 ∨ totalCount ≤ pageSize)%Z then Some (items, totalCount)
  else
    let page := normalizeDockerListPage page in
    let start := uint32 ((page - 1) * pageSize) in
    if decide (totalCount ≤ start)%Z then Some ([], totalCount)
    else
      let end_ := uint32 (start + pageSize) in
      let end_ := if decide (totalCount < end_)%Z then totalCount else end_ in
      pageItems ← slice items start end_; Some (pageItems, totalCount).

Definition dockerSearchMatches (search : string) (values : list string) : bool :=
  let search := TrimSpace (ToLower search) in
  if decide (search = "") then true else existsb (λ value, Contains (ToLower value) search) values.
Definition firstNonEmpty (values : list string) : string :=
  default "" (head (filter (λ value, TrimSpace value ≠ "") values)).
Definition joinStrings (values : list string) : string := match values with [] => "" | _ => GoStrings.Join values " " end.

Definition boolCompare (left_ right_ : bool) : Z := if decide (left_ = right_) then 0 else if left_ then 1 else -1.
Definition int64Compare (left_ right_ : Z) : Z :=
  if decide (left_ < right_)%Z then -1 else if decide (right_ < left_)%Z then 1 else 0.
Definition uint32Compare (left_ right_ : Z) : Z := int64Compare left_ right_.
Definition stringCompare (left_ right_ : string) : Z :=
  match String.compare (ToLower left_) (ToLower right_) with Lt => -1 | Eq => 0 | Gt => 1 end.
Definition dockerSortResult (compare : Z) (desc : bool) : bool :=
  if decide (compare = 0)%Z then false
  else if desc then bool_decide (0 < compare)%Z else bool_decide (compare < 0)%Z.

(** [sort.SliceStable]: an element is put before the first that is less... *)
Fixpoint insert_stable {A} (less : A → A → bool) (x : A) (l : list A) : list A :=
  match l with
  | [] => [x]
  | y :: l' => if less y x then y :: insert_stable less x l' else x :: l
  end.
Definition SliceStable {A} (less : A → A → bool) (l : list A) : list A := foldr (insert_stable less) [] l.

(** The order of a list: the key that was asked, then the identity. *)
Definition by_key {A} (compare identity : A → A → Z) (desc : bool) (x y : A) : bool :=
  let c := compare x y in
  dockerSortResult (if decide (c = 0)%Z then identity x y else c) desc.
Definition on {A B} (compare : B → B → Z) (f : A → B) (x y : A) : Z := compare (f x) (f y).

(** Searched, sorted, and cut into its page. *)
Definition list_page {A} (req : ListRequest) (texts : A → list string) (less : A → A → bool) (items : list A)
    : Ran (list A * Z) :=
  page ← paginateDockerList (SliceStable less (filter (λ x, dockerSearchMatches (lr_Search req) (texts x) = true) items))
           (lr_Page req) (lr_PageSize req);
  Some (Ok page).

(** ** Lists *)
Definition container_name (c : ContainerSummary) : string :=
  match cs_Names c with name :: _ => TrimPrefix name "/" | [] => "" end.
Definition port_text (p : PortSummary) : string :=
  if decide (pt_PublicPort p ≠ 0)%Z
  then decimal (pt_PublicPort p) +:+ "->" +:+ decimal (pt_PrivatePort p) +:+ "/" +:+ pt_Type p
  else decimal (pt_PrivatePort p) +:+ "/" +:+ pt_Type p.
(** The first of each text, in order. *)
Fixpoint distinct_texts (seen : gset string) (l : list string) : list string :=
  match l with
  | [] => []
  | x :: l => if decide (x ∈ seen) then distinct_texts seen l else x :: distinct_texts ({[x]} ∪ seen) l
  end.
Definition container_info (c : ContainerSummary) : ContainerInfo :=
  MkContainerInfo (cs_ID c) (container_name c) (cs_Image c) (cs_State c) (cs_Status c) (format_unix (cs_Created c))
    (cs_Labels c) (distinct_texts ∅ (port_text <$> cs_Ports c)) (string_sort (cs_Networks c)) (cs_ImageID c).
Definition container_texts (i : ContainerInfo) : list string :=
  [ci_Id i; ci_Name i; ci_Image i; ci_State i; ci_Status i; joinStrings (ci_Networks i)].
Definition container_order (sortBy : string) : ContainerInfo → ContainerInfo → Z :=
  if decide (sortBy = "state") then on stringCompare ci_State
  else if decide (sortBy = dockerResourceImage) then on stringCompare ci_Image
  else if decide (sortBy = "created") then on stringCompare ci_Created
  else on stringCompare (λ i, firstNonEmpty [ci_Name i; ci_Id i]).
Definition containers_page (req : ListRequest) (containers : list ContainerSummary) : Ran (list ContainerInfo * Z) :=
  list_page req container_texts (by_key (container_order (lr_SortBy req)) (on stringCompare ci_Id) (lr_SortDesc req))
    (container_info <$> containers).
Definition ListContainers (req : ListRequest) : Ran (list ContainerInfo * Z) :=
  ran_bind ContainerList (containers_page req).

Definition network_info (n : NetworkInspect) : NetworkInfo :=
  let '(subnet, gateway) := match nw_IPAM n with config :: _ => config | [] => ("", "") end in
  MkNetworkInfo (nw_ID n) (nw_Name n) (nw_Driver n) (nw_Scope n) (nw_Internal n) (nw_Attachable n)
    (format_created (nw_Created n)) (nw_Labels n) subnet gateway (uint32 (nw_Containers n)) (nw_EnableIPv6 n).
Definition network_texts (i : NetworkInfo) : list string :=
  [ni_Id i; ni_Name i; ni_Driver i; ni_Scope i; ni_Subnet i; ni_Gateway i].
Definition network_order (sortBy : string) : NetworkInfo → NetworkInfo → Z :=
  if decide (sortBy = "driver") then on stringCompare ni_Driver
  else if decide (sortBy = "scope") then on stringCompare ni_Scope
  else if decide (sortBy = "created") then on stringCompare ni_Created
  else if decide (sortBy = "containers_count") then on uint32Compare ni_ContainersCount
  else on stringCompare (λ i, firstNonEmpty [ni_Name i; ni_Id i]).
Definition ListNetworks (req : ListRequest) : Ran (list NetworkInfo * Z) :=
  ran_bind NetworkList (λ networks,
    list_page req network_texts (by_key (network_order (lr_SortBy req)) (on stringCompare ni_Id) (lr_SortDesc req))
      (network_info <$> networks)).

(** The sizes the engine knows, and how often a volume is mounted. *)
Definition volume_sizes (includeSizes : bool) : gmap string Z :=
  if includeSizes then
    match DiskUsage with
    | Ok volumes => foldl (λ m v, match vo_UsageData v with Some size => <[vo_Name v := size]> m | None => m end) ∅ volumes
    | Err _ => ∅
    end
  else ∅.
Definition count_mount (counts : gmap string Z) (m : MountPoint) : gmap string Z :=
  if decide (mt_Type m = "volume")
  then <[mt_Name m := uint32 (default 0%Z (counts !! mt_Name m) + 1)]> counts else counts.
Definition volume_uses : gmap string Z :=
  match ContainerList with
  | Ok containers => foldl (λ counts c, foldl count_mount counts (cs_Mounts c)) ∅ containers
  | Err _ => ∅
  end.
Definition volume_info (sizes uses : gmap string Z) (v : Volume) : VolumeInfo :=
  let count := default 0%Z (uses !! vo_Name v) in
  MkVolumeInfo (vo_Name v) (vo_Driver v) (vo_Mountpoint v) (vo_Scope v) (vo_CreatedAt v) (vo_Labels v)
    (default 0%Z (sizes !! vo_Name v)) count (bool_decide (0 < count)%Z).
Definition volume_texts (i : VolumeInfo) : list string := [vi_Name i; vi_Driver i; vi_Mountpoint i; vi_Scope i].
Definition volume_order (sortBy : string) : VolumeInfo → VolumeInfo → Z :=
  if decide (sortBy = "driver") then on stringCompare vi_Driver
  else if decide (sortBy = "scope") then on stringCompare vi_Scope
  else if decide (sortBy = "created") then on stringCompare vi_Created
  else if decide (sortBy = "size_bytes") then on int64Compare vi_SizeBytes
  else if decide (sortBy = "containers_count") then on uint32Compare vi_ContainersCount
  else if decide (sortBy = "in_use") then on boolCompare vi_InUse
  else on stringCompare vi_Name.
Definition ListVolumes (req : ListRequest) (includeSizes : bool) : Ran (list VolumeInfo * Z) :=
  ran_bind VolumeList (λ volumes,
    let sizes := volume_sizes includeSizes in
    let uses := volume_uses in
    list_page req volume_texts (by_key (volume_order (lr_SortBy req)) (on stringCompare vi_Name) (lr_SortDesc req))
      (volume_info sizes uses <$> volumes)).

Definition image_label (i : ImageSummary) (name : string) : string :=
  match im_Labels i with Some labels => default "" (labels !! name) | None => "" end.
Definition image_info (i : ImageSummary) : ImageInfo :=
  MkImageInfo (im_ID i) (im_RepoTags i) (im_Size i) (im_Size i) (format_unix (im_Created i)) (im_RepoDigests i)
    (image_label i "org.opencontainers.image.architecture") (image_label i "org.opencontainers.image.os") ""
    (if decide (0 ≤ im_Containers i)%Z then uint32 (im_Containers i) else 0%Z) (bool_decide (im_RepoTags i = [])).
Definition image_texts (i : ImageInfo) : list string :=
  [ii_Id i; joinStrings (ii_RepoTags i); joinStrings (ii_RepoDigests i); ii_Architecture i; ii_Os i; ii_Author i].
Definition image_order (sortBy : string) : ImageInfo → ImageInfo → Z :=
  if decide (sortBy = "size") then on int64Compare ii_Size
  else if decide (sortBy = "virtual_size") then on int64Compare ii_VirtualSize
  else if decide (sortBy = "created") then on stringCompare ii_Created
  else if decide (sortBy = "containers_count") then on uint32Compare ii_ContainersCount
  else if decide (sortBy = "dangling") then on boolCompare ii_IsDangling
  else on stringCompare (λ i, firstNonEmpty [joinStrings (ii_RepoTags i); ii_Id i]).
Definition ListImages (req : ListRequest) : Ran (list ImageInfo * Z) :=
  ran_bind ImageList (λ images,
    list_page req image_texts (by_key (image_order (lr_SortBy req)) (on stringCompare ii_Id) (lr_SortDesc req))
      (image_info <$> images)).

(** ** Details *)
Definition marshal {A} (message : string) (r : result string A) : result ConnectError A := wrapped message r.
Definition demand (id message : string) {A} (r : result ConnectError A) : result ConnectError A :=
  if decide (id = "") then Err (NewError CodeInvalidArgument message) else r.
Definition InspectContainer (id : string) : result ConnectError string :=
  demand id "container_id is required" (
    result_bind (ContainerInspect id) (λ c, marshal "failed to marshal container" (container_json c))).
Definition InspectNetwork (id : string) : result ConnectError string :=
  demand id "network_id is required" (
    result_bind (NetworkInspect_ id) (λ n, marshal "failed to marshal network" (network_json n))).
(** The usage of a volume is the one of the first volume of that name in the
    disk usage; without one it stays as it was inspected. *)
Definition with_usage (vol : Volume) : Volume :=
  match DiskUsage with
  | Err _ => vol
  | Ok volumes =>
      match head (filter (λ v, vo_Name v = vo_Name vol) volumes) with
      | Some v => MkVolume (vo_Name vol) (vo_Driver vol) (vo_Mountpoint vol) (vo_Scope vol) (vo_CreatedAt vol)
                    (vo_Labels vol) (vo_UsageData v)
      | None => vol
      end
  end.
Definition InspectVolume (name : string) : result ConnectError string :=
  demand name "volume_name is required" (
    result_bind (VolumeInspect name) (λ vol, marshal "failed to marshal volume" (volume_json (with_usage vol)))).
Definition InspectImage (id : string) : result ConnectError string :=
  demand id "image_id is required" (
    result_bind (ImageInspect id) (λ inspect, marshal "failed to marshal image inspect" inspect)).

(** ** Logs: [write] is the callback, which gets every chunk that is not empty *)
Definition logChunkWriter_Write (written data : string) : string := if decide (data = "") then written else written +:+ data.
Definition copy_log (written : string) (o : OutputStream) : string :=
  foldl (λ written chunk, logChunkWriter_Write written chunk.2) written (os_Chunks o).
Definition streamContainerLogs (deadline : Time.time) (id tail : string) (timestamps follow : bool) : string * result ConnectError () :=
  match ContainerInspect id with
  | Err e => ("", Err e)
  | Ok inspect =>
      match ContainerLogs id tail timestamps follow with
      | Err e => ("", Err e)
      | Ok (raw, decoded) =>
          let '(o, message) := if container_tty inspect then (raw, "read container logs") else (decoded, "decode container logs") in
          (copy_log "" o,
           match os_Error o with
           | Some (StreamFailed _) =>
               if context_over deadline o then Ok () else Err (NewError CodeUnknown message)
           | _ => Ok ()
           end)
      end
  end.
Definition collectContainerLogs (deadline : Time.time) (id tail : string) (timestamps : bool) : result ConnectError string :=
  let '(content, r) := streamContainerLogs deadline id tail timestamps false in
  result_bind r (λ _, Ok content).

(** ** Commands in a container *)
(** [limitedBuffer]; [limit] is a [uint64], [int(...)] an [int64]. *)
Record limitedBuffer := MkLimitedBuffer {
  lb_buffer : string;
  lb_limit : Z;
  lb_truncated : bool;
}.
Definition as_int (n : Z) : Z := ((n + 2 ^ 63) mod 2 ^ 64 - 2 ^ 63)%Z.
Definition as_int32 (n : Z) : Z := ((n + 2 ^ 31) mod 2 ^ 32 - 2 ^ 31)%Z.
Definition str_len (s : string) : Z := Z.of_nat (String.length s).
(** [buffer.Write(data[:remaining])]; a negative bound is a panic. *)
Definition limitedBuffer_Write (b : limitedBuffer) (data : string) : option limitedBuffer :=
  let len := str_len (lb_buffer b) in
  if decide (lb_limit b = 0 ∨ lb_limit b ≤ len)%Z
  then Some (MkLimitedBuffer (lb_buffer b) (lb_limit b) (lb_truncated b || bool_decide (data ≠ "")))
  else
    let remaining := as_int (lb_limit b - len) in
    if decide (remaining < str_len data)%Z then
      if decide (remaining < 0)%Z then None
      else Some (MkLimitedBuffer (lb_buffer b +:+ take_bytes (Z.to_nat remaining) data) (lb_limit b) true)
    else Some (MkLimitedBuffer (lb_buffer b +:+ data) (lb_limit b) (lb_truncated b)).
Definition limitedBuffer_String (b : limitedBuffer) : string := to_valid_utf8 (lb_buffer b).
Definition new_buffer (limit : Z) : limitedBuffer := MkLimitedBuffer "" limit false.

(** [stdcopy.StdCopy(stdout, stderr, reader)]: each frame to its writer. *)
Definition write_frame (buffers : limitedBuffer * limitedBuffer) (chunk : bool * string) : option (limitedBuffer * limitedBuffer) :=
  if chunk.1 : bool then b ← limitedBuffer_Write buffers.2 chunk.2; Some (buffers.1, b)
  else b ← limitedBuffer_Write buffers.1 chunk.2; Some (b, buffers.2).
Fixpoint StdCopy (buffers : limitedBuffer * limitedBuffer) (chunks : list (bool * string)) : option (limitedBuffer * limitedBuffer) :=
  match chunks with
  | [] => Some buffers
  | chunk :: chunks => buffers ← write_frame buffers chunk; StdCopy buffers chunks
  end.

Definition defaultExecOutput : Z := 1024 * 1024.
Definition defaultExecSeconds : Z := 30.
Definition exec_limit (maxOutputBytes : Z) : Z := if decide (maxOutputBytes = 0)%Z then defaultExecOutput else maxOutputBytes.
Definition exec_timeout (timeoutSeconds : Z) : Z :=
  ((if decide (timeoutSeconds = 0)%Z then defaultExecSeconds else timeoutSeconds) * Time.Second)%Z.
(** The context of the query is over at [deadline]; the command's own is over
    no later. *)
Definition exec_deadline (deadline startedAt : Time.time) (timeoutSeconds : Z) : Time.time :=
  Z.min deadline (startedAt + exec_timeout timeoutSeconds).
Definition exec_outcome (startedAt : Time.time) (timedOut : bool) (stdout stderr : limitedBuffer) (inspect : Time.time * result string Z)
    : result ConnectError dockerExecResult :=
  match inspect.2, timedOut with
  | Err _, false => Err (NewError CodeUnknown "inspect docker exec")
  | _, _ =>
      let exitCode := match inspect.2 with Ok code => as_int32 code | Err _ => 0%Z end in
      Ok (MkExecResult (if timedOut then -1 else exitCode)%Z (limitedBuffer_String stdout) (limitedBuffer_String stderr) timedOut
            (lb_truncated stdout) (lb_truncated stderr) (format_nano startedAt) (format_nano inspect.1)
            (duration_text (inspect.1 - startedAt)%Z))
  end.
Definition runContainerExec (deadline startedAt : Time.time) (req : ExecRequest) : Ran dockerExecResult :=
  if decide (TrimSpace (xr_ContainerId req) = "" ∨ xr_Command req = [])
  then Some (Err (NewError CodeInvalidArgument "container_id and command are required"))
  else
    let limit := exec_limit (xr_MaxOutputBytes req) in
    let execDeadline := exec_deadline deadline startedAt (xr_TimeoutSeconds req) in
    ran_bind (wrapped "create docker exec"
                (exec_create (xr_ContainerId req) (bool_decide (xr_Stdin req ≠ "")) (xr_Command req))) (λ execID,
    ran_bind (wrapped "attach docker exec" (exec_attach execID (xr_Stdin req) execDeadline)) (λ o,
      '(stdout, stderr) ← StdCopy (new_buffer limit, new_buffer limit) (os_Chunks o);
      let timedOut := context_over execDeadline o in
      match os_Error o, timedOut with
      | Some (StreamFailed _), false => Some (Err (NewError CodeUnknown "read docker exec output"))
      | _, _ => Some (exec_outcome startedAt timedOut stdout stderr (exec_inspect execID))
      end)).

(** ** One query *)
Definition ran_map {A B} (f : A → B) (r : Ran A) : Ran B := a ← r; Some (result_bind a (λ a, Ok (f a))).
Definition run_query (deadline now : Time.time) (query : DockerQuery) : Ran dockerListResult :=
  match query with
  | ListContainersQuery r => ran_map (λ p, containers_result p.1 p.2) (ListContainers r)
  | ListNetworksQuery r => ran_map (λ p, networks_result p.1 p.2) (ListNetworks r)
  | ListVolumesQuery r includeSizes => ran_map (λ p, volumes_result p.1 p.2) (ListVolumes r includeSizes)
  | ListImagesQuery r => ran_map (λ p, images_result p.1 p.2) (ListImages r)
  | InspectContainerQuery id => ran_map raw_result (Some (InspectContainer id))
  | InspectNetworkQuery id => ran_map raw_result (Some (InspectNetwork id))
  | InspectVolumeQuery name => ran_map raw_result (Some (InspectVolume name))
  | InspectImageQuery id => ran_map raw_result (Some (InspectImage id))
  | ContainerLogsQuery id tail timestamps =>
      ran_map content_result (Some (collectContainerLogs deadline id tail timestamps))
  | RunContainerExecQuery r => ran_map exec_result (runContainerExec deadline now r)
  | NoQuery => Some (Err (NewError CodeInvalidArgument "unsupported docker query"))
  end.
Definition executeDockerQuery (deadline now : Time.time) (query : DockerQueryTask) : Ran dockerListResult :=
  ran_bind NewDockerClient (λ _, run_query deadline now (dt_Query query)).

(** ** proto_helpers.go and the round of run.go *)
Definition dockerQueryErrorCode (err : ConnectError) : string :=
  match CodeOf err with
  | CodeInvalidArgument => "invalid_argument"
  | CodeNotFound => "not_found"
  | CodeFailedPrecondition => "failed_precondition"
  | CodePermissionDenied => "permission_denied"
  | CodeDeadlineExceeded => "deadline_exceeded"
  | CodeUnavailable => "unavailable"
  | _ => "internal"
  end.
Definition protoDockerQueryErrorCode (err : option ConnectError) : DockerQueryErrorCode :=
  match err with
  | None => DOCKER_QUERY_ERROR_CODE_UNSPECIFIED
  | Some err =>
      switch (dockerQueryErrorCode err)
        [("invalid_argument", DOCKER_QUERY_ERROR_CODE_INVALID_ARGUMENT);
         ("not_found", DOCKER_QUERY_ERROR_CODE_NOT_FOUND);
         ("failed_precondition", DOCKER_QUERY_ERROR_CODE_FAILED_PRECONDITION);
         ("permission_denied", DOCKER_QUERY_ERROR_CODE_PERMISSION_DENIED);
         ("deadline_exceeded", DOCKER_QUERY_ERROR_CODE_DEADLINE_EXCEEDED);
         ("unavailable", DOCKER_QUERY_ERROR_CODE_UNAVAILABLE)]
        DOCKER_QUERY_ERROR_CODE_INTERNAL
  end.

(** [startedAt, _ := time.Parse(...)]: the zero instant when it is not one. *)
Definition protoExecTimestamp (value : Time.time) : Timestamp := if decide (value = Time.zero) then None else Some value.
Definition parsed_instant (text : string) : Time.time := default Time.zero (parse_rfc3339_text text).
Definition proto_exec (r : dockerExecResult) : ExecResponse :=
  MkExecResponse (er_ExitCode r) (er_Stdout r) (er_Stderr r) (er_TimedOut r) (er_StdoutTruncated r) (er_StderrTruncated r)
    (protoExecTimestamp (parsed_instant (er_StartedAt r))) (protoExecTimestamp (parsed_instant (er_FinishedAt r))) (er_Duration r).
Definition raw_report (query : DockerQuery) (rawJSON : string) : DockerQueryReport :=
  match query with
  | InspectContainerQuery _ => InspectContainerReport rawJSON
  | InspectNetworkQuery _ => InspectNetworkReport rawJSON
  | InspectVolumeQuery _ => InspectVolumeReport rawJSON
  | InspectImageQuery _ => InspectImageReport rawJSON
  | _ => NoReport
  end.
Definition applyDockerQueryResult (query : DockerQuery) (r : dockerListResult) : DockerQueryReport :=
  match query with
  | ListContainersQuery _ => ListContainersReport (dl_Containers r) (dl_TotalCount r)
  | ListNetworksQuery _ => ListNetworksReport (dl_Networks r) (dl_TotalCount r)
  | ListVolumesQuery _ _ => ListVolumesReport (dl_Volumes r) (dl_TotalCount r)
  | ListImagesQuery _ => ListImagesReport (dl_Images r) (dl_TotalCount r)
  | _ =>
      match dl_Exec r with
      | Some exec => RunContainerExecReport (proto_exec exec)
      | None =>
          if decide (dl_RawJSON r ≠ "") then raw_report query (dl_RawJSON r)
          else ContainerLogsReport (dl_Content r)
      end
  end.

(** [err.Error()] of an error that is returned by a handler of the engine;
    the text of a [connect.Error] starts with its code. *)
Definition error_text (e : ConnectError) : string := match e with NewError _ message => message | StoreFailed _ _ => "store" end.

Definition pullNextTaskTimeout : Z := (30 * Time.Second)%Z.
Definition dockerVolumeSizeQueryTimeout : Z := (300 * Time.Second)%Z.
Definition dockerQueryTimeout (query : DockerQuery) : Z :=
  match query with ListVolumesQuery _ true => dockerVolumeSizeQueryTimeout | _ => pullNextTaskTimeout end.

(** What is reported of a query: its result, or the error with its code. *)
Definition report_request (nodeID : string) (query : DockerQueryTask) (r : result ConnectError dockerListResult)
    : ReportDockerQueryResultRequest :=
  match r with
  | Err e => MkReportDockerQueryResultRequest (dt_QueryId query) nodeID NoReport (error_text e) (protoDockerQueryErrorCode (Some e))
  | Ok r => MkReportDockerQueryResultRequest (dt_QueryId query) nodeID (applyDockerQueryResult (dt_Query query) r) ""
              DOCKER_QUERY_ERROR_CODE_UNSPECIFIED
  end.
(** One round: [pulled] is the answer of PullNextDockerQuery, [now] when the
    query starts, [report] the call of ReportDockerQueryResult. *)
Definition pollAndRunDockerQuery (nodeID : string) (pulled : result ConnectError (option DockerQueryTask)) (now : Time.time)
    (report : ReportDockerQueryResultRequest → result ConnectError ()) : Ran () :=
  ran_bind (match pulled with Ok q => Ok q | Err _ => Err (NewError CodeUnknown "pull next docker query") end) (λ q,
    match q with
    | None => Some (Ok ())
    | Some query =>
        r ← executeDockerQuery (now + dockerQueryTimeout (dt_Query query))%Z now query;
        Some (match report (report_request nodeID query r) with
              | Ok _ => Ok ()
              | Err _ => Err (NewError CodeUnknown "report docker query result")
              end)
    end).

(** ** Docker tasks: what [runDockerMutation] does with the engine *)
Inductive ContainerAction : Type :=
| CONTAINER_ACTION_START | CONTAINER_ACTION_STOP | CONTAINER_ACTION_RESTART | CONTAINER_ACTION_UNSPECIFIED.
Definition RunContainerAction (id : string) (action : ContainerAction) : result ConnectError () :=
  demand id "container_id is required" (
    match action with
    | CONTAINER_ACTION_START => ContainerStart id
    | CONTAINER_ACTION_STOP => ContainerStop id
    | CONTAINER_ACTION_RESTART => ContainerRestart id
    | CONTAINER_ACTION_UNSPECIFIED => Err (NewError CodeInvalidArgument "action is required")
    end).
Definition RemoveContainer (id : string) (force removeVolumes : bool) : result ConnectError () :=
  demand id "container_id is required" (ContainerRemove id force removeVolumes).
Definition RemoveNetwork (id : string) : result ConnectError () := demand id "network_id is required" (NetworkRemove id).
Definition RemoveVolume (name : string) : result ConnectError () := demand name "volume_name is required" (VolumeRemove name).
Definition RemoveImage (id : string) (force : bool) : result ConnectError () := demand id "image_id is required" (ImageRemove id force).
Definition runDockerMutation (action resource id : string) (force removeVolumes : bool) : result ConnectError () :=
  result_bind NewDockerClient (λ _,
    if decide (action = "start") then RunContainerAction id CONTAINER_ACTION_START
    else if decide (action = "stop") then RunContainerAction id CONTAINER_ACTION_STOP
    else if decide (action = "restart") then RunContainerAction id CONTAINER_ACTION_RESTART
    else if decide (action = "remove") then
      if decide (resource = dockerResourceContainer) then RemoveContainer id force removeVolumes
      else if decide (resource = dockerResourceNetwork) then RemoveNetwork id
      else if decide (resource = dockerResourceVolume) then RemoveVolume id
      else if decide (resource = dockerResourceImage) then RemoveImage id force
      else Err (NewError CodeUnknown "unknown docker resource for remove")
    else Err (NewError CodeUnknown "unknown docker action")).
End docker.
