(* ===== verification/DockerAgentTheorems.v ===== *)
(** * Docker queries on the agent

    The order and pages of lists, the limits of outputs, what is reported, and
    a concrete engine the theorems are applied to. *)

(** ** Lists of the engine: order and pages

    The comparisons of docker.go are total preorders and their sort is a
    stable sort, so a list that tells its elements apart by their identity
    has one order, whatever order the engine gave; its pages are its pieces. *)
From S2P Require Export DockerAgent.
Local Open Scope Z_scope.

(** ** Comparisons *)
(** The sign of [c x y] orders [x] and [y]. *)
Class Comparison {A} (c : A → A → Z) : Prop := {
  comparison_swap x y : c y x = - c x y;
  comparison_trans x y z : c x y ≤ 0 → c y z ≤ 0 → c x z ≤ 0;
}.
#[export] Instance boolCompare_comparison : Comparison boolCompare.
Proof. split; [intros [] []|intros [] [] []]; unfold boolCompare; repeat case_decide; done || lia. Qed.
#[export] Instance int64Compare_comparison : Comparison int64Compare.
Proof. split; unfold int64Compare; intros; repeat case_decide; lia. Qed.
#[export] Instance uint32Compare_comparison : Comparison uint32Compare := int64Compare_comparison.

Lemma string_compare_trans s t u : String.compare s t ≠ Gt → String.compare t u ≠ Gt → String.compare s u ≠ Gt.
Proof.
  revert t u. induction s as [|a s IH]; intros [|b t] [|c u]; cbn; try done.
  unfold Ascii.compare.
  destruct (N.compare_spec (Ascii.N_of_ascii a) (Ascii.N_of_ascii b)) as [E|E|E];
    destruct (N.compare_spec (Ascii.N_of_ascii b) (Ascii.N_of_ascii c)) as [E'|E'|E'];
    destruct (N.compare_spec (Ascii.N_of_ascii a) (Ascii.N_of_ascii c)) as [E''|E''|E'']; try done; try lia.
  apply IH.
Qed.
#[export] Instance stringCompare_comparison : Comparison stringCompare.
Proof.
  split; unfold stringCompare.
  - intros x y. rewrite String.compare_antisym. by destruct (String.compare (ToLower x) (ToLower y)).
  - intros x y z. pose proof (string_compare_trans (ToLower x) (ToLower y) (ToLower z)) as Htrans.
    destruct (String.compare (ToLower x) (ToLower y)), (String.compare (ToLower y) (ToLower z)),
      (String.compare (ToLower x) (ToLower z)); lia || (intros; exfalso; by apply Htrans).
Qed.
Lemma stringCompare_zero x y : stringCompare x y = 0 → ToLower x = ToLower y.
Proof.
  unfold stringCompare. destruct (String.compare (ToLower x) (ToLower y)) eqn:Hc; [|lia|lia].
  intros _. by apply String.compare_eq_iff.
Qed.
#[export] Instance on_comparison {A B} (c : B → B → Z) (f : A → B) : Comparison c → Comparison (on c f).
Proof. intros Hc. split; unfold on; [intros; apply comparison_swap|intros x y z; apply comparison_trans]. Qed.

Section order.
Context {A : Type} (compare identity : A → A → Z) `{!Comparison compare} `{!Comparison identity} (desc : bool).

(** The key, then the identity. *)
Definition keyed (x y : A) : Z := if decide (compare x y = 0) then identity x y else compare x y.
#[local] Instance keyed_comparison : Comparison keyed.
Proof.
  split; unfold keyed.
  - intros x y. rewrite (comparison_swap x y), (comparison_swap (c := identity) x y). repeat case_decide; lia.
  - intros x y z.
    pose proof (comparison_swap (c := compare) x y). pose proof (comparison_swap (c := compare) y z).
    pose proof (comparison_swap (c := compare) x z).
    pose proof (comparison_trans (c := compare) x y z). pose proof (comparison_trans (c := compare) y z x).
    pose proof (comparison_trans (c := compare) z x y).
    pose proof (comparison_trans (c := identity) x y z). repeat case_decide; lia.
Qed.
(** [x] may stand before [y]. *)
Definition before (x y : A) : Prop := (if desc then - keyed x y else keyed x y) ≤ 0.
#[export] Instance before_dec : RelDecision before.
Proof. intros x y. unfold before. apply _. Defined.
Lemma before_less x y : before x y ↔ by_key compare identity desc y x = false.
Proof.
  unfold before, by_key, dockerSortResult. pose proof (comparison_swap (c := keyed) x y) as Hswap. unfold keyed in *.
  destruct desc; repeat case_decide; rewrite ?bool_decide_eq_false; split; intros; done || lia.
Qed.
Lemma before_trans x y z : before x y → before y z → before x z.
Proof.
  unfold before. pose proof (comparison_trans (c := keyed) x y z). pose proof (comparison_trans (c := keyed) z y x).
  pose proof (comparison_swap (c := keyed) x y). pose proof (comparison_swap (c := keyed) y z).
  pose proof (comparison_swap (c := keyed) x z). destruct desc; lia.
Qed.
Lemma before_total x y : ¬ before x y → before y x.
Proof. unfold before. pose proof (comparison_swap (c := keyed) x y). destruct desc; lia. Qed.
Lemma less_before x y : by_key compare identity desc y x = true → before y x.
Proof. intros Hless. apply before_total. rewrite before_less. congruence. Qed.
Lemma before_antisym x y : before x y → before y x → identity x y = 0.
Proof.
  unfold before. pose proof (comparison_swap (c := keyed) x y) as Hswap. intros Hxy Hyx.
  assert (keyed x y = 0) as Hzero by (destruct desc; lia). revert Hzero. unfold keyed. case_decide; lia.
Qed.
End order.

(** ** The stable sort *)
Section sort.
Context {A : Type} (less : A → A → bool).
Lemma insert_stable_Permutation x l : insert_stable less x l ≡ₚ x :: l.
Proof. induction l as [|y l IH]; cbn; [done|]. case_match; [|done]. rewrite IH. apply Permutation_swap. Qed.
Lemma SliceStable_Permutation l : SliceStable less l ≡ₚ l.
Proof. induction l as [|x l IH]; cbn; [done|]. by rewrite insert_stable_Permutation, IH. Qed.

Context (R : A → A → Prop) (Hless : ∀ x y, less y x = true → R y x) (Hnot : ∀ x y, less y x = false → R x y)
  (Htrans : ∀ x y z, R x y → R y z → R x z).
Lemma insert_stable_sorted x l : StronglySorted R l → StronglySorted R (insert_stable less x l).
Proof.
  induction 1 as [|y l Hl IH Hy]; cbn; [repeat constructor|]. destruct (less y x) eqn:E.
  - constructor; [done|]. rewrite insert_stable_Permutation. constructor; [by apply Hless|done].
  - constructor; [by constructor|]. constructor; [by apply Hnot|].
    eapply Forall_impl; [exact Hy|]. intros z Hz. cbn in Hz. eapply Htrans; [by apply Hnot|done].
Qed.
Lemma SliceStable_sorted l : StronglySorted R (SliceStable less l).
Proof. induction l as [|x l IH]; cbn; [constructor|by apply insert_stable_sorted]. Qed.
End sort.

(** One order for every order of the engine. *)
Lemma sorted_once {A} (compare identity : A → A → Z) `{!Comparison compare} `{!Comparison identity} desc l l' :
  (∀ x y, x ∈ l → y ∈ l → identity x y = 0 → x = y) → l ≡ₚ l' →
  SliceStable (by_key compare identity desc) l = SliceStable (by_key compare identity desc) l'.
Proof.
  intros Hid Hl. set (less := by_key compare identity desc).
  assert (∀ m, StronglySorted (before compare identity desc) (SliceStable less m)) as Hsorted.
  { intros m. apply SliceStable_sorted; intros x y.
    - by apply (less_before compare identity desc).
    - by apply (before_less compare identity desc).
    - intros z. by apply (before_trans compare identity desc). }
  eapply (StronglySorted_unique_strong (before compare identity desc)); [|apply Hsorted..|].
  - intros x y Hx Hy Hxy Hyx. rewrite SliceStable_Permutation in Hx. rewrite SliceStable_Permutation, <- Hl in Hy.
    by apply Hid; [..|eapply before_antisym; [..|exact Hxy|exact Hyx]].
  - by rewrite !SliceStable_Permutation.
Qed.

(** ** Pages *)
Lemma slice_pages {A} (items : list A) first last :
  0 ≤ first ≤ last → last ≤ Z.of_nat (length items) →
  slice items first last = Some (take (Z.to_nat (last - first)) (drop (Z.to_nat first) items)).
Proof. intros. unfold slice. rewrite decide_True by lia. done. Qed.

Definition listing_size {A} (items : list A) : Prop := Z.of_nat (length items) < 2 ^ 31.
Lemma uint32_small z : 0 ≤ z < 2 ^ 32 → uint32 z = z.
Proof. intros. by apply Z.mod_small. Qed.
(** Page [k + 1] is the [k]-th piece of the list. *)
Lemma paginate_piece {A} (items : list A) (size k : nat) :
  listing_size items → (0 < size)%nat → Z.of_nat size < 2 ^ 31 → (k * size < length items)%nat →
  paginateDockerList items (Z.of_nat k + 1) (Z.of_nat size)
  = Some (take size (drop (k * size) items), Z.of_nat (length items)).
Proof.
  unfold listing_size. intros Hl Hsize Hsize' Hk. unfold paginateDockerList.
  assert (normalizeDockerListPage (Z.of_nat k + 1) = Z.of_nat k + 1) as ->.
  { unfold normalizeDockerListPage. case_decide; lia. }
  rewrite (uint32_small (Z.of_nat (length items))), decide_False by lia.
  case_decide as Hall.
  - assert (k = 0)%nat as -> by nia. rewrite Nat.mul_0_l, drop_0, take_ge by lia. done.
  - replace (Z.of_nat k + 1 - 1) with (Z.of_nat k) by lia.
    rewrite <- Nat2Z.inj_mul. set (start := (k * size)%nat) in *.
    rewrite (uint32_small (Z.of_nat start)) by lia. rewrite decide_False by lia. rewrite uint32_small by lia.
    rewrite slice_pages by (case_decide; lia). rewrite Nat2Z.id. cbn -[take drop]. do 2 f_equal.
    case_decide; [|f_equal; lia]. rewrite !take_ge; [done|rewrite length_drop; lia..].
Qed.
(** The pieces of a list, as many as it takes. *)
Fixpoint pieces {A} (fuel size : nat) (l : list A) : list (list A) :=
  match fuel, l with
  | _, [] | 0%nat, _ => []
  | S fuel, _ => take size l :: pieces fuel size (drop size l)
  end.
Lemma pieces_concat {A} fuel size (l : list A) : (0 < size)%nat → (length l ≤ fuel)%nat → concat (pieces fuel size l) = l.
Proof.
  revert l. induction fuel as [|fuel IH]; intros [|x l] Hsize Hl; cbn -[take drop]; [done|cbn in Hl; lia|done|].
  rewrite IH, take_drop; [done|done|]. rewrite length_drop. cbn in *. lia.
Qed.
Lemma pieces_lookup {A} fuel size (l : list A) k p :
  (0 < size)%nat → pieces fuel size l !! k = Some p → p = take size (drop (k * size) l) ∧ (k * size < length l)%nat.
Proof.
  intros Hsize. revert l k. induction fuel as [|fuel IH]; intros [|x l] [|k]; cbn -[take drop]; try done.
  - intros [= <-]. cbn. split; [done|lia].
  - intros [-> Hk]%IH. rewrite length_drop in Hk. rewrite drop_drop. split; [do 2 f_equal; lia|cbn in *; lia].
Qed.

(** ** A listing read page by page *)
(** What matches a search. *)
Definition matching {A} (search : string) (texts : A → list string) (items : list A) : list A :=
  filter (λ x, dockerSearchMatches search (texts x) = true) items.
Definition page_request (search sortBy : string) (desc : bool) (size k : nat) : ListRequest :=
  MkListRequest (Z.of_nat size) (Z.of_nat k + 1) search sortBy desc.

Lemma matching_Permutation {A} search (texts : A → list string) items items' :
  items ≡ₚ items' → matching search texts items ≡ₚ matching search texts items'.
Proof. intros Hp. unfold matching. by rewrite Hp. Qed.
Lemma fmap_inj_Permutation {A B} (f : A → B) l l' : l ≡ₚ l' → f <$> l ≡ₚ f <$> l'.
Proof. by intros ->. Qed.

Lemma list_page_piece {A} search sortBy sortDesc size k texts compare identity `{!Comparison compare} `{!Comparison identity}
    desc (items answer : list A) p :
  let sorted := SliceStable (by_key compare identity desc) (matching search texts items) in
  (∀ x y, x ∈ items → y ∈ items → identity x y = 0 → x = y) → listing_size items →
  (0 < size)%nat → Z.of_nat size < 2 ^ 31 → answer ≡ₚ items →
  pieces (length sorted) size sorted !! k = Some p →
  list_page (page_request search sortBy sortDesc size k) texts (by_key compare identity desc) answer
  = Some (Ok (p, Z.of_nat (length sorted))).
Proof.
  intros sorted Hid Hl Hsize Hsize' Hanswer [-> Hk]%pieces_lookup; [|done].
  assert (SliceStable (by_key compare identity desc) (matching search texts answer)
          = sorted) as Hsorted.
  { apply sorted_once; [done..| |by apply matching_Permutation]. unfold matching.
    intros x y [_ Hx]%list_elem_of_filter [_ Hy]%list_elem_of_filter. rewrite Hanswer in Hx, Hy. by apply Hid. }
  unfold list_page, matching in *. cbn [lr_Search page_request lr_Page lr_PageSize] in *. rewrite Hsorted.
  rewrite paginate_piece; [done| |done..|done].
  unfold listing_size, sorted. rewrite SliceStable_Permutation. unfold matching, listing_size in *.
  pose proof (length_filter (λ x, dockerSearchMatches search (texts x) = true) items). cbn in *. lia.
Qed.

(** ** Docker queries on the agent: what the theorems show

    A client that reads a list page by page sees every container once, in
    order, though the engine may list them differently each time; the output
    of a command is its beginning, up to the limit, and marked when it was
    cut; what the agent reports is what the client of the controller is
    answered, error codes included. *)
From S2P Require Export DockerHandlers.
Local Open Scope Z_scope.

Section docker.
Context `{DockerJSON} `{DockerEngine}.

(** ** Lists *)
#[export] Instance container_order_comparison sortBy : Comparison (container_order sortBy).
Proof. unfold container_order. repeat case_decide; apply _. Qed.

Lemma container_identity containers x y :
  NoDup ((ToLower ∘ cs_ID) <$> containers) → x ∈ container_info <$> containers → y ∈ container_info <$> containers →
  on stringCompare ci_Id x y = 0 → x = y.
Proof.
  intros Hnodup [c [-> Hc]]%list_elem_of_fmap [d [-> Hd]]%list_elem_of_fmap Hid%stringCompare_zero. cbn in Hid.
  apply list_elem_of_lookup in Hc as [i Hi]. apply list_elem_of_lookup in Hd as [j Hj].
  assert (i = j) as ->; [|congruence].
  eapply NoDup_lookup; [exact Hnodup|by rewrite list_lookup_fmap, Hi|rewrite list_lookup_fmap, Hj; exact (f_equal Some (eq_sym Hid))].
Qed.

(** C12: the pages of a list of containers, each asked with the same search,
    key and page size and answered by an engine that may list its containers
    in another order each time, together hold every matching container
    exactly once and in the order that was asked for; each page also carries
    their number.  The containers are told apart by their identifiers. *)
Theorem docker_pages_cover_the_containers search sortBy sortDesc (size : nat) containers (answers : nat → list ContainerSummary) :
  NoDup ((ToLower ∘ cs_ID) <$> containers) → listing_size containers → (0 < size)%nat → Z.of_nat size < 2 ^ 31 →
  (∀ k, answers k ≡ₚ containers) →
  ∃ pages : list (list ContainerInfo),
    (∀ k p, pages !! k = Some p →
       containers_page (page_request search sortBy sortDesc size k) (answers k) = Some (Ok (p, Z.of_nat (length (concat pages))))) ∧
    concat pages ≡ₚ matching search container_texts (container_info <$> containers) ∧
    StronglySorted (before (container_order sortBy) (on stringCompare ci_Id) sortDesc) (concat pages).
Proof.
  intros Hnodup Hl Hsize Hsize' Hanswers. set (items := container_info <$> containers).
  set (sorted := SliceStable (by_key (container_order sortBy) (on stringCompare ci_Id) sortDesc)
                   (matching search container_texts items)).
  exists (pieces (length sorted) size sorted). rewrite pieces_concat by (done || lia). split_and!.
  - intros k p Hp. eapply (list_page_piece search sortBy sortDesc size k container_texts); [apply _..| | | | | |exact Hp].
    + intros x y. by apply container_identity.
    + unfold listing_size, items in *. by rewrite length_fmap.
    + done.
    + done.
    + by apply fmap_inj_Permutation.
  - apply SliceStable_Permutation.
  - apply SliceStable_sorted; intros x y.
    + by apply (less_before (container_order sortBy) (on stringCompare ci_Id) sortDesc).
    + by apply (before_less (container_order sortBy) (on stringCompare ci_Id) sortDesc).
    + intros z. by apply (before_trans (container_order sortBy) (on stringCompare ci_Id) sortDesc).
Qed.

(** ** Output with a limit *)
Lemma take_bytes_app_min n s t : take_bytes n (s +:+ t) = take_bytes n s +:+ take_bytes (n - String.length s) t.
Proof. revert n. induction s as [|a s IH]; intros [|n]; [by destruct t..|done|]. exact (f_equal (String a) (IH n)). Qed.
Lemma take_bytes_all n s : (String.length s ≤ n)%nat → take_bytes n s = s.
Proof. revert n. induction s as [|a s IH]; intros [|n] Hn; cbn in *; [done..|lia|]. rewrite IH by lia. done. Qed.
Lemma str_len_app s t : str_len (s +:+ t) = str_len s + str_len t.
Proof. unfold str_len. rewrite length_app_bytes. lia. Qed.

(** What a buffer holds after [written]. *)
Definition holds_output (limit : Z) (written : string) : limitedBuffer :=
  MkLimitedBuffer (take_bytes (Z.to_nat limit) written) limit (bool_decide (limit < str_len written)).
Definition valid_limit (limit : Z) : Prop := 0 < limit < 2 ^ 63.
Lemma Write_holds limit written data :
  valid_limit limit → limitedBuffer_Write (holds_output limit written) data = Some (holds_output limit (written +:+ data)).
Proof.
  intros [Hpos Hmax]. unfold limitedBuffer_Write, holds_output. cbn [lb_buffer lb_limit lb_truncated].
  assert (str_len (take_bytes (Z.to_nat limit) written) = Z.min limit (str_len written)) as ->.
  { unfold str_len. rewrite length_take_bytes. lia. }
  rewrite take_bytes_app_min, str_len_app.
  assert (str_len written = Z.of_nat (String.length written)) as Hw by done.
  case_decide as Hfull.
  - replace (Z.to_nat limit - String.length written)%nat with 0%nat by lia. cbn [take_bytes]; rewrite GoStrings.app_nil_r.
    do 2 f_equal. assert (0 ≤ str_len data) by (unfold str_len; lia).
    assert (data ≠ "" ↔ 0 < str_len data) as Hdata by (destruct data; unfold str_len; cbn [String.length]; split; intros; done || lia).
    rewrite <- bool_decide_or. apply bool_decide_ext. rewrite Hdata. lia.
  - assert (as_int (limit - Z.min limit (str_len written)) = limit - str_len written) as ->.
    { unfold as_int. rewrite Z.mod_small by lia. lia. }
    rewrite (take_bytes_all (Z.to_nat limit) written) by lia.
    case_decide as Hlong.
    + rewrite decide_False by lia. do 3 f_equal; [f_equal; lia|]. symmetry. apply bool_decide_eq_true. lia.
    + rewrite take_bytes_all; [|unfold str_len in *; lia]. do 2 f_equal. apply bool_decide_ext. lia.
Qed.

(** What arrives on one of the two streams. *)
Definition stream_text (stderr : bool) (chunks : list (bool * string)) : string :=
  foldr (λ chunk rest, if decide (chunk.1 = stderr) then chunk.2 +:+ rest else rest) "" chunks.
Lemma StdCopy_holds limit out err chunks :
  valid_limit limit →
  StdCopy (holds_output limit out, holds_output limit err) chunks
  = Some (holds_output limit (out +:+ stream_text false chunks), holds_output limit (err +:+ stream_text true chunks)).
Proof.
  intros Hlimit. revert out err. induction chunks as [|[[] data] chunks IH]; intros out err; cbn [StdCopy].
  - cbn. by rewrite !GoStrings.app_nil_r.
  - unfold write_frame. cbn [fst snd]. rewrite Write_holds by done. cbn -[holds_output stream_text].
    rewrite IH. cbn. by rewrite GoStrings.app_assoc.
  - unfold write_frame. cbn [fst snd]. rewrite Write_holds by done. cbn -[holds_output stream_text].
    rewrite IH. cbn. by rewrite GoStrings.app_assoc.
Qed.
Lemma new_buffer_holds limit : valid_limit limit → new_buffer limit = holds_output limit "".
Proof.
  intros [Hpos _]. unfold new_buffer, holds_output. f_equal; [by destruct (Z.to_nat limit)|].
  symmetry. apply bool_decide_eq_false. unfold str_len. cbn. lia.
Qed.
Lemma exec_limit_valid n : 0 ≤ n < 2 ^ 63 → valid_limit (exec_limit n).
Proof. unfold valid_limit, exec_limit, defaultExecOutput. case_decide; lia. Qed.

Lemma StdCopy_new limit chunks :
  valid_limit limit →
  StdCopy (new_buffer limit, new_buffer limit) chunks
  = Some (holds_output limit (stream_text false chunks), holds_output limit (stream_text true chunks)).
Proof. intros Hlimit. rewrite !new_buffer_holds by done. by apply StdCopy_holds. Qed.

(** C13: a command whose output is read to its end, or until its time is over,
    is answered with the beginning of each of its two streams, as far as the
    limit of the request goes, each marked as truncated exactly when it was
    longer; its exit code is the one the engine tells, and -1 with the mark of
    a timeout when its time, or the time of the query, was over. *)
Theorem docker_exec_output_is_bounded deadline startedAt req execID o finishedAt code :
  let limit := exec_limit (xr_MaxOutputBytes req) in
  let execDeadline := exec_deadline deadline startedAt (xr_TimeoutSeconds req) in
  let timedOut := context_over execDeadline o in
  let out := stream_text false (os_Chunks o) in
  let errors := stream_text true (os_Chunks o) in
  0 ≤ xr_MaxOutputBytes req < 2 ^ 63 → TrimSpace (xr_ContainerId req) ≠ "" → xr_Command req ≠ [] →
  exec_create (xr_ContainerId req) (bool_decide (xr_Stdin req ≠ "")) (xr_Command req) = Ok execID →
  exec_attach execID (xr_Stdin req) execDeadline = Ok o →
  (timedOut = true ∨ os_Error o = None) → exec_inspect execID = (finishedAt, Ok code) →
  runContainerExec deadline startedAt req
  = Some (Ok (MkExecResult (if timedOut then -1 else as_int32 code)
                (to_valid_utf8 (take_bytes (Z.to_nat limit) out)) (to_valid_utf8 (take_bytes (Z.to_nat limit) errors)) timedOut
                (bool_decide (limit < str_len out)) (bool_decide (limit < str_len errors))
                (format_nano startedAt) (format_nano finishedAt) (duration_text (finishedAt - startedAt)))).
Proof.
  intros limit execDeadline timedOut out errors Hmax Hid Hcommand Hcreate Hattach Hend Hinspect.
  unfold runContainerExec. rewrite decide_False by (intros [?|?]; done).
  rewrite Hcreate. cbn [wrapped ran_bind]. fold execDeadline. rewrite Hattach. cbn [wrapped ran_bind].
  rewrite StdCopy_new by by apply exec_limit_valid. cbn [mbind option_bind]. fold timedOut. rewrite Hinspect.
  by destruct Hend as [-> | ->]; [destruct (os_Error o) as [[]|]|destruct timedOut].
Qed.

(** A limit that is no [int] makes the agent panic at the first output. *)
Lemma oversized_limit_panics limit data :
  2 ^ 63 ≤ limit < 2 ^ 64 → data ≠ "" → limitedBuffer_Write (new_buffer limit) data = None.
Proof.
  intros Hlimit Hdata. unfold limitedBuffer_Write, new_buffer. cbn [lb_buffer lb_limit lb_truncated].
  assert (str_len "" = 0) as -> by done. rewrite decide_False by lia. rewrite Z.sub_0_r.
  assert (as_int limit = limit - 2 ^ 64) as ->.
  { unfold as_int. replace (limit + 2 ^ 63) with (limit - 2 ^ 63 + 1 * 2 ^ 64) by lia. rewrite Z.mod_add, Z.mod_small; lia. }
  rewrite decide_True by (unfold str_len; lia). by rewrite decide_True by lia.
Qed.

(** A command has no more time than its query, however long it may take. *)
Lemma exec_deadline_capped now startedAt req :
  exec_deadline (now + dockerQueryTimeout (RunContainerExecQuery req)) startedAt (xr_TimeoutSeconds req) ≤ now + 30 * Time.Second.
Proof. unfold exec_deadline, dockerQueryTimeout, pullNextTaskTimeout. lia. Qed.

(** ** Reports *)
(** What the controller makes of a report: the answer the client gets. *)
Definition answered (req : ReportDockerQueryResultRequest) : result ConnectError dockerListResult :=
  match dockerQueryPayloadJSON req with
  | Err e => Err (NewError CodeInvalidArgument e)
  | Ok payloadJSON => decode_payload "decode docker list result" (query_answer (Ok (reported_result req payloadJSON)))
  end.
(** The instants of a command pass through a protobuf timestamp. *)
Definition as_reported (r : dockerListResult) : dockerListResult :=
  match dl_Exec r with
  | Some exec => exec_result (payload_exec (proto_exec exec))
  | None => r
  end.
(** The codes that survive; the others become internal errors. *)
Definition reported_code (c : Code) : Code :=
  match c with
  | CodeInvalidArgument | CodeNotFound | CodeFailedPrecondition | CodePermissionDenied | CodeDeadlineExceeded
  | CodeUnavailable => c
  | _ => CodeInternal
  end.

Lemma controller_infos l ns vs ims :
  controllerContainerInfos l = l ∧ controllerNetworkInfos ns = ns ∧ controllerVolumeInfos vs = vs ∧ controllerImageInfos ims = ims.
Proof.
  unfold controllerContainerInfos, controllerNetworkInfos, controllerVolumeInfos, controllerImageInfos.
  split_and!; rewrite <- list_fmap_id; apply list_fmap_ext; by intros ? [].
Qed.

(** ** Requests: the agent is asked what the client asked *)
Lemma list_request_query resource req includeSizes timeout : list_request (list_query resource req includeSizes timeout) = req.
Proof. by destruct req. Qed.
Lemma round_whole_seconds s : round_seconds (s * Time.Second) = s.
Proof. unfold round_seconds. rewrite Z.mod_mul, Z.sub_0_r, Z.div_mul by done. by rewrite decide_True by done. Qed.
Lemma timeout_seconds_whole s : 0 ≤ s < 2 ^ 32 → timeout_seconds (s * Time.Second) = s.
Proof.
  intros Hs. unfold timeout_seconds. rewrite round_whole_seconds, uint32_small by done. case_decide as Hpos; [done|].
  unfold Time.Second in Hpos. lia.
Qed.
Lemma exec_request_reaches_agent req :
  0 ≤ xr_TimeoutSeconds req < 2 ^ 32 → dockerProtoQueryTask (exec_query req) = Ok (MkDockerQueryTask "" "" (RunContainerExecQuery req)).
Proof.
  intros Hs. unfold dockerProtoQueryTask, exec_query. cbn [qa_Action qa_Resource qa_Timeout qa_ID qa_Command qa_Stdin qa_MaxOutput qa_QueryID qa_NodeID].
  rewrite timeout_seconds_whole by done. by destruct req.
Qed.
Lemma list_requests_reach_agent req includeSizes timeout :
  dockerProtoQueryTask (list_query dockerResourceContainers req false timeout) = Ok (MkDockerQueryTask "" "" (ListContainersQuery req)) ∧
  dockerProtoQueryTask (list_query dockerResourceNetworks req false timeout) = Ok (MkDockerQueryTask "" "" (ListNetworksQuery req)) ∧
  dockerProtoQueryTask (list_query dockerResourceVolumes req includeSizes timeout)
  = Ok (MkDockerQueryTask "" "" (ListVolumesQuery req includeSizes)) ∧
  dockerProtoQueryTask (list_query dockerResourceImages req false timeout) = Ok (MkDockerQueryTask "" "" (ListImagesQuery req)).
Proof. by destruct req. Qed.

(** A query has a result of its kind. *)
Definition result_of (query : DockerQuery) (r : dockerListResult) : Prop :=
  match query with
  | ListContainersQuery _ => ∃ p, r = containers_result p.1 p.2
  | ListNetworksQuery _ => ∃ p, r = networks_result p.1 p.2
  | ListVolumesQuery _ _ => ∃ p, r = volumes_result p.1 p.2
  | ListImagesQuery _ => ∃ p, r = images_result p.1 p.2
  | InspectContainerQuery _ | InspectNetworkQuery _ | InspectVolumeQuery _ | InspectImageQuery _ => ∃ s, r = raw_result s
  | ContainerLogsQuery _ _ _ => ∃ s, r = content_result s
  | RunContainerExecQuery _ => ∃ x, r = exec_result x
  | NoQuery => False
  end.
Lemma ran_map_ok {A B} (f : A → B) m r : ran_map f m = Some (Ok r) → ∃ a, r = f a.
Proof. destruct m as [[a|e]|]; cbn; [|done..]. intros [= <-]. by exists a. Qed.
Lemma run_query_result deadline now query r : run_query deadline now query = Some (Ok r) → result_of query r.
Proof. by destruct query; cbn [run_query result_of]; try apply ran_map_ok. Qed.

(** The report of a successful query is stored as the result it had. *)
Lemma payload_of_result nodeID task r :
  result_of (dt_Query task) r → (∀ rawJSON, r = raw_result rawJSON → rawJSON ≠ "") →
  dockerQueryPayloadJSON (report_request nodeID task (Ok r)) = marshalDockerQueryPayload (as_reported r).
Proof.
  unfold dockerQueryPayloadJSON, report_request. cbn [rq_Result rq_ErrorCode rq_ErrorMessage].
  destruct (dt_Query task); cbn [result_of]; [intros [p ->] Hraw..|done];
    cbn [applyDockerQueryResult dl_Containers dl_Networks dl_Volumes dl_Images dl_TotalCount dl_Exec dl_RawJSON dl_Content
        containers_result networks_result volumes_result images_result raw_result content_result exec_result raw_report as_reported];
    try (rewrite decide_True by (by eapply Hraw)); try done.
  - by destruct (controller_infos p.1 [] [] []) as (-> & _).
  - by destruct (controller_infos [] p.1 [] []) as (_ & -> & _).
  - by destruct (controller_infos [] [] p.1 []) as (_ & _ & -> & _).
  - by destruct (controller_infos [] [] [] p.1) as (_ & _ & _ & ->).
Qed.

(** C11: what the agent finds for a query is what the client of the
    controller is answered: the same list, details, log or outcome of a
    command when the query succeeds (the instants of a command as their
    timestamps carry them), and an error with the agent's text and, for the
    six codes that are reported, its code when it fails.  JSON is assumed to
    read back what it wrote for that result, and never to write an empty text. *)
Theorem docker_answer_reaches_client deadline now task r :
  executeDockerQuery deadline now task = Some r →
  (∀ result rawJSON, r = Ok result → result = raw_result rawJSON → rawJSON ≠ "") →
  (∀ result, r = Ok result →
     ∃ payload, marshal_list_result (as_reported result) = Ok payload ∧ unmarshal_list_result payload = Ok (as_reported result)) →
  answered (report_request (dt_NodeId task) task r)
  = match r with
    | Ok result => Ok (as_reported result)
    | Err e => Err (NewError (reported_code (CodeOf e)) (error_text e))
    end.
Proof.
  intros Hrun Hraw Hjson. unfold answered. destruct r as [r|e].
  - assert (result_of (dt_Query task) r) as Hresult.
    { unfold executeDockerQuery in Hrun. destruct NewDockerClient; [|done]. by eapply run_query_result. }
    rewrite payload_of_result by eauto. destruct (Hjson r) as (payload & Hm & Hu); [done|].
    unfold marshalDockerQueryPayload. rewrite Hm. unfold query_answer.
    rewrite decide_False by (cbn; by intros []). unfold decode_payload. cbn [qr_PayloadJSON reported_result]. by rewrite Hu.
  - cbn. by destruct (CodeOf e) eqn:Hcode; unfold protoDockerQueryErrorCode, dockerQueryErrorCode; rewrite Hcode; vm_compute.
Qed.
End docker.

(** ** Docker queries on the agent: a concrete engine

    Three containers, one of them asked for commands, and the instances of the
    theorems at them. *)
From stdpp Require Import pretty.
Local Open Scope Z_scope.

#[local] Instance agent_json : DockerJSON := {|
  marshal_list_result r := Ok (dl_Content r); unmarshal_list_result s := Ok (content_result s);
  format_nano _ := "nano"; format_rfc3339 _ := "rfc3339"; parse_rfc3339_text _ := None; duration_text _ := "1s" |}.

Definition a_container (id name : string) : ContainerSummary :=
  MkContainerSummary id ["/" +:+ name] "img" "sha" "running" "Up" 0 ∅ [MkPort 80 8080 "tcp"] ["net"] [].
Definition three_containers : list ContainerSummary := [a_container "c3" "web"; a_container "c1" "db"; a_container "c2" "app"].
Definition some_output : OutputStream := MkOutput [(false, "hello "); (true, "oops"); (false, "world")] None 10 false.
#[local] Instance an_engine : DockerEngine := {|
  container := bool;
  network_json _ := Ok "{}"; volume_json _ := Ok "{}"; container_json _ := Ok "{}"; container_tty tty := tty;
  new_client := Ok (); container_list := Ok three_containers; container_inspect _ := Ok false;
  container_logs _ _ _ _ := Ok (some_output, some_output);
  network_list := Ok []; network_inspect _ := Err "gone"; volume_list := Ok []; volume_inspect _ := Err "gone";
  disk_usage := Ok []; image_list := Ok []; image_inspect _ := Ok (Ok "{}");
  exec_create _ _ _ := Ok "exec"; exec_attach _ _ _ := Ok some_output; exec_inspect _ := (20, Ok 3); engine_call _ := Ok ();
  format_unix t := pretty t; format_created t := pretty t; to_valid_utf8 s := s; decimal := pretty |}.

(** Two pages of two: the engine turns its list around in between. *)
Example two_pages :
  (λ k, containers_page (page_request "" "name" false 2 k) (if decide (k = 0%nat) then three_containers else rev three_containers))
    <$> [0%nat; 1%nat]
  = [Some (Ok ([container_info (a_container "c2" "app"); container_info (a_container "c1" "db")], 3));
     Some (Ok ([container_info (a_container "c3" "web")], 3))].
Proof. vm_compute. reflexivity. Qed.
Lemma docker_pages_cover_the_containers_witness :
  ∃ pages : list (list ContainerInfo),
    (∀ k p, pages !! k = Some p →
       containers_page (page_request "" "name" false 2 k) (if decide (k = 0%nat) then three_containers else rev three_containers)
       = Some (Ok (p, Z.of_nat (length (concat pages))))) ∧
    concat pages ≡ₚ matching "" container_texts (container_info <$> three_containers) ∧
    StronglySorted (before (container_order "name") (on stringCompare ci_Id) false) (concat pages).
Proof.
  apply (docker_pages_cover_the_containers "" "name" false 2 three_containers
           (λ k, if decide (k = 0%nat) then three_containers else rev three_containers)).
  - apply (proj1 (bool_decide_eq_true _)). vm_compute. reflexivity.
  - reflexivity.
  - lia.
  - reflexivity.
  - intros k. case_decide; [done|]. symmetry. apply Permutation_rev.
Defined.

Definition some_exec : ExecRequest := MkExecRequest "c1" ["ls"] "" 5 8.
Lemma docker_exec_output_is_bounded_witness :
  runContainerExec 100 0 some_exec = Some (Ok (MkExecResult 3 "hello wo" "oops" false true false "nano" "nano" "1s")).
Proof.
  etransitivity; [apply (docker_exec_output_is_bounded 100 0 some_exec "exec" some_output 20 3)|vm_compute; reflexivity].
  - split; [done|reflexivity].
  - vm_compute. discriminate.
  - discriminate.
  - reflexivity.
  - reflexivity.
  - right. reflexivity.
  - reflexivity.
Defined.

Definition logs_task : DockerQueryTask := MkDockerQueryTask "q1" "n1" (ContainerLogsQuery "c1" "10" false).
Lemma docker_answer_reaches_client_witness :
  executeDockerQuery 100 0 logs_task = Some (Ok (content_result "hello oopsworld")) ∧
  answered (report_request "n1" logs_task (Ok (content_result "hello oopsworld"))) = Ok (content_result "hello oopsworld").
Proof.
  split; [reflexivity|].
  apply (docker_answer_reaches_client 100 0 logs_task (Ok (content_result "hello oopsworld"))).
  - reflexivity.
  - intros r raw [= <-]. discriminate.
  - intros r [= <-]. exists "hello oopsworld". split; reflexivity.
Defined.
