(* ===== verification/NodeCommands.v ===== *)
(** * What clients may do with nodes, services, containers and backups, and the tasks
    they ask for
    (src/internal/app/controller/capabilities.go, node.go, container.go,
    backup_record.go, task_service.go)

    The capabilities a client is shown are computed from one reading of the
    nodes and of the repository; the actions make checks of their own when
    they are asked for.  [cfg] is never nil here: the servers are built with a
    configuration. *)
From S2P Require Export Migrate Scheduler Proto.
From S2P Require Import ComposeRuntime.

(** ** Capabilities *)
Inductive CapabilityReasonCode :=
| CAPABILITY_REASON_CODE_UNSPECIFIED
| CAPABILITY_REASON_CODE_MISSING_BACKUP_INTEGRATION
| CAPABILITY_REASON_CODE_MISSING_BACKUP_DEFINITION
| CAPABILITY_REASON_CODE_MISSING_RESTORE_DEFINITION
| CAPABILITY_REASON_CODE_MISSING_MIGRATE_DEFINITION
| CAPABILITY_REASON_CODE_MISSING_DNS_INTEGRATION
| CAPABILITY_REASON_CODE_MISSING_CLOUDFLARE_TUNNEL_INTEGRATION
| CAPABILITY_REASON_CODE_MISSING_SECRETS_CONFIG
| CAPABILITY_REASON_CODE_MISSING_CADDY_INFRA
| CAPABILITY_REASON_CODE_MISSING_SERVICE_META
| CAPABILITY_REASON_CODE_SERVICE_NOT_DECLARED
| CAPABILITY_REASON_CODE_SERVICE_DNS_NOT_DECLARED
| CAPABILITY_REASON_CODE_SERVICE_NOT_CADDY_MANAGED
| CAPABILITY_REASON_CODE_SERVICE_NOT_CLOUDFLARE_TUNNEL_MANAGED
| CAPABILITY_REASON_CODE_NODE_DISABLED
| CAPABILITY_REASON_CODE_NODE_OFFLINE
| CAPABILITY_REASON_CODE_NODE_NOT_ELIGIBLE
| CAPABILITY_REASON_CODE_NODE_NOT_RUSTIC_MANAGED
| CAPABILITY_REASON_CODE_MISSING_ELIGIBLE_RUSTIC_NODE
| CAPABILITY_REASON_CODE_MISSING_ONLINE_RUSTIC_NODE
| CAPABILITY_REASON_CODE_BACKUP_NOT_SUCCEEDED
| CAPABILITY_REASON_CODE_BACKUP_ARTIFACT_MISSING
| CAPABILITY_REASON_CODE_MISSING_RESTORE_TARGET_NODE.
#[export] Instance CapabilityReasonCode_eq_dec : EqDecision CapabilityReasonCode.
Proof. solve_decision. Defined.

Definition reasonMissingBackupIntegration : string := "missing_backup_integration".
Definition reasonMissingBackupDefinition : string := "missing_backup_definition".
Definition reasonMissingRestoreDefinition : string := "missing_restore_definition".
Definition reasonMissingMigrateDefinition : string := "missing_migrate_definition".
Definition reasonMissingDNSIntegration : string := "missing_dns_integration".
Definition reasonMissingCloudflareTunnelIntegration : string := "missing_cloudflare_tunnel_integration".
Definition reasonMissingSecretsConfig : string := "missing_secrets_config".
Definition reasonMissingCaddyInfra : string := "missing_caddy_infra".
Definition reasonMissingServiceMeta : string := "missing_service_meta".
Definition reasonServiceNotDeclared : string := "service_not_declared".
Definition reasonServiceDNSNotDeclared : string := "service_dns_not_declared".
Definition reasonServiceNotCaddyManaged : string := "service_not_caddy_managed".
Definition reasonServiceNotCloudflareTunnelManaged : string := "service_not_cloudflare_tunnel_managed".
Definition reasonNodeDisabled : string := "node_disabled".
Definition reasonNodeOffline : string := "node_offline".
Definition reasonNodeNotEligible : string := "node_not_eligible".
Definition reasonNodeNotRusticManaged : string := "node_not_rustic_managed".
Definition reasonMissingEligibleRusticNode : string := "missing_eligible_rustic_node".
Definition reasonMissingOnlineRusticNode : string := "missing_online_rustic_node".
Definition reasonBackupNotSucceeded : string := "backup_not_succeeded".
Definition reasonBackupArtifactMissing : string := "backup_artifact_missing".
Definition reasonMissingRestoreTargetNode : string := "missing_restore_target_node".

Definition capability_reasons : list (string * CapabilityReasonCode) :=
  [(reasonMissingBackupIntegration, CAPABILITY_REASON_CODE_MISSING_BACKUP_INTEGRATION);
   (reasonMissingBackupDefinition, CAPABILITY_REASON_CODE_MISSING_BACKUP_DEFINITION);
   (reasonMissingRestoreDefinition, CAPABILITY_REASON_CODE_MISSING_RESTORE_DEFINITION);
   (reasonMissingMigrateDefinition, CAPABILITY_REASON_CODE_MISSING_MIGRATE_DEFINITION);
   (reasonMissingDNSIntegration, CAPABILITY_REASON_CODE_MISSING_DNS_INTEGRATION);
   (reasonMissingCloudflareTunnelIntegration, CAPABILITY_REASON_CODE_MISSING_CLOUDFLARE_TUNNEL_INTEGRATION);
   (reasonMissingSecretsConfig, CAPABILITY_REASON_CODE_MISSING_SECRETS_CONFIG);
   (reasonMissingCaddyInfra, CAPABILITY_REASON_CODE_MISSING_CADDY_INFRA);
   (reasonMissingServiceMeta, CAPABILITY_REASON_CODE_MISSING_SERVICE_META);
   (reasonServiceNotDeclared, CAPABILITY_REASON_CODE_SERVICE_NOT_DECLARED);
   (reasonServiceDNSNotDeclared, CAPABILITY_REASON_CODE_SERVICE_DNS_NOT_DECLARED);
   (reasonServiceNotCaddyManaged, CAPABILITY_REASON_CODE_SERVICE_NOT_CADDY_MANAGED);
   (reasonServiceNotCloudflareTunnelManaged, CAPABILITY_REASON_CODE_SERVICE_NOT_CLOUDFLARE_TUNNEL_MANAGED);
   (reasonNodeDisabled, CAPABILITY_REASON_CODE_NODE_DISABLED);
   (reasonNodeOffline, CAPABILITY_REASON_CODE_NODE_OFFLINE);
   (reasonNodeNotEligible, CAPABILITY_REASON_CODE_NODE_NOT_ELIGIBLE);
   (reasonNodeNotRusticManaged, CAPABILITY_REASON_CODE_NODE_NOT_RUSTIC_MANAGED);
   (reasonMissingEligibleRusticNode, CAPABILITY_REASON_CODE_MISSING_ELIGIBLE_RUSTIC_NODE);
   (reasonMissingOnlineRusticNode, CAPABILITY_REASON_CODE_MISSING_ONLINE_RUSTIC_NODE);
   (reasonBackupNotSucceeded, CAPABILITY_REASON_CODE_BACKUP_NOT_SUCCEEDED);
   (reasonBackupArtifactMissing, CAPABILITY_REASON_CODE_BACKUP_ARTIFACT_MISSING);
   (reasonMissingRestoreTargetNode, CAPABILITY_REASON_CODE_MISSING_RESTORE_TARGET_NODE)].
Definition protoCapabilityReason (value : string) : CapabilityReasonCode :=
  match list_find (λ c, c.1 = value) capability_reasons with
  | Some (_, (_, code)) => code
  | None => CAPABILITY_REASON_CODE_UNSPECIFIED
  end.

Record Capability := MkCapability { cap_Enabled : bool; cap_ReasonCode : CapabilityReasonCode }.
#[export] Instance Capability_eq_dec : EqDecision Capability.
Proof. solve_decision. Defined.
Definition enabledCapability : Capability := MkCapability true CAPABILITY_REASON_CODE_UNSPECIFIED.
Definition disabledCapability (reason : string) : Capability := MkCapability false (protoCapabilityReason reason).

(** [if capability := c; !capability.GetEnabled() { return capability }] *)
Definition and_then (c k : Capability) : Capability := if cap_Enabled c then k else c.
Definition need (cond : bool) (reason : string) (k : Capability) : Capability :=
  if cond then k else disabledCapability reason.

Record GlobalCapabilities := MkGlobalCapabilities {
  gc_Backup : Capability;
  gc_Dns : Capability;
  gc_Secrets : Capability;
  gc_RusticMaintenance : Capability;
}.
Record ServiceActionCapabilities := MkServiceActionCapabilities {
  sac_Backup : Capability;
  sac_Restore : Capability;
  sac_Migrate : Capability;
  sac_DnsUpdate : Capability;
  sac_CaddySync : Capability;
  sac_CloudflareTunnelSync : Capability;
}.
Record NodeActionCapabilities := MkNodeActionCapabilities {
  nac_CaddySync : Capability;
  nac_CaddyReload : Capability;
  nac_RusticMaintenance : Capability;
}.

Definition buildDisabledServiceActionCapabilities (reason : string) : ServiceActionCapabilities :=
  MkServiceActionCapabilities (disabledCapability reason) (disabledCapability reason) (disabledCapability reason)
    (disabledCapability reason) (disabledCapability reason) (disabledCapability reason).

(** The snapshots of the nodes by their identifier. *)
Definition snapshot_map (snapshots : list (string * NodeRow)) : gmap string NodeRow :=
  foldl (λ m s, <[s.1 := s.2]> m) ∅ snapshots.

Definition serviceHasRestoreDefinition (service : Service) (dataName : string) : bool :=
  match sm_DataProtect (svc_Meta service) with
  | None => false
  | Some items =>
      existsb (λ item, negb (bool_decide (dataName ≠ "" ∧ dp_Name item ≠ dataName)) &&
                       bool_decide (is_Some (dp_Restore item))) items
  end.

Section capabilities.
Context `{Disk} `{MetaDecoder} `{Cron} `{Libraries}.
(** [entries]: the repository directory as it is read. *)
Context (cfg : ControllerConfig) (entries : list Entry) (availableNodeIDs : gset string).
Context (snapshotByNodeID : gmap string NodeRow).

Definition lookupConfiguredNode (nodeID : string) : option NodeConfig :=
  snd <$> list_find (λ node, nc_ID node = nodeID) (configured_nodes cfg).
Definition taskTargetNodeCapability (nodeID taskType : string) : Capability :=
  match lookupConfiguredNode nodeID with
  | None => disabledCapability reasonNodeNotEligible
  | Some node =>
      if decide (nc_Enabled node = Some false) then disabledCapability reasonNodeDisabled
      else if negb (RequiresOnlineNode taskType) then enabledCapability
      else match snapshotByNodeID !! nodeID with
           | Some snapshot => need (nd_is_online snapshot) reasonNodeOffline enabledCapability
           | None => disabledCapability reasonNodeOffline
           end
  end.
Fixpoint all_nodes (taskType : string) (nodeIDs : list string) : Capability :=
  match nodeIDs with
  | [] => enabledCapability
  | nodeID :: nodeIDs => and_then (taskTargetNodeCapability nodeID taskType) (all_nodes taskType nodeIDs)
  end.
Definition taskTargetNodesCapability (nodeIDs : list string) (taskType : string) : Capability :=
  need (bool_decide (nodeIDs ≠ [])) reasonNodeNotEligible (all_nodes taskType nodeIDs).
Definition anyNodeEligibleForTask (taskType : string) : bool :=
  existsb (λ node, cap_Enabled (taskTargetNodeCapability (nc_ID node) taskType)) (configured_nodes cfg).

Definition rustic_service : result string Service := FindRusticInfraService (cc_RepoDir cfg) entries availableNodeIDs.
Definition backupIntegrationCapability : Capability := need (is_ok rustic_service) reasonMissingBackupIntegration enabledCapability.

Definition hasConfiguredDNSProvider : bool :=
  let set_text (s : string) := bool_decide (TrimSpace s ≠ "") in
  let set_key (key : option KeyDNSConfig) :=
    match key with Some k => set_text (kd_ID k) && set_text (kd_Secret k) | None => false end in
  match cc_DNS cfg with
  | None => false
  | Some dns =>
      match cd_Cloudflare dns with Some c => set_text (cfd_APIToken c) | None => false end ||
      set_key (cd_AliDNS dns) || set_key (cd_DNSPod dns) || bool_decide (is_Some (cd_Route53 dns)) ||
      set_key (cd_HuaweiCloud dns)
  end.
Definition dnsIntegrationCapability : Capability :=
  need hasConfiguredDNSProvider reasonMissingDNSIntegration enabledCapability.
Definition cloudflareTunnelIntegrationCapability : Capability :=
  need (match cc_CloudflareTunnel cfg with
        | None => false
        | Some t => negb (bool_decide (TrimSpace (ct_APIToken t) = "" ∨ TrimSpace (ct_AccountID t) = "" ∨ ct_Tunnels t = ∅))
        end) reasonMissingCloudflareTunnelIntegration enabledCapability.
Definition secretsCapability : Capability :=
  need (match cc_Secrets cfg with
        | None => false
        | Some (provider, identityFile) => negb (bool_decide (provider ≠ "age" ∨ TrimSpace identityFile = ""))
        end) reasonMissingSecretsConfig enabledCapability.
Definition rusticMaintenanceGlobalCapability : Capability :=
  match rustic_service with
  | Err _ => disabledCapability reasonMissingBackupIntegration
  | Ok rusticService =>
      let candidates := main_candidates cfg rusticService in
      need (bool_decide (candidates ≠ [])) reasonMissingEligibleRusticNode
        (need (existsb (λ nodeID, cap_Enabled (taskTargetNodeCapability nodeID TypeRusticInit)) candidates)
           reasonMissingOnlineRusticNode enabledCapability)
  end.

(** *** Services *)
Definition serviceBackupCapability (service : Service) : Capability :=
  and_then backupIntegrationCapability
    (need (bool_decide (EnabledBackupDataNames service ≠ [])) reasonMissingBackupDefinition
       (taskTargetNodesCapability (svc_TargetNodes service) TypeBackup)).
Definition serviceRestoreCapability (service : Service) : Capability :=
  and_then backupIntegrationCapability
    (need (serviceHasRestoreDefinition service "") reasonMissingRestoreDefinition enabledCapability).
Definition serviceMigrateCapability (service : Service) : Capability :=
  and_then backupIntegrationCapability
    (need (bool_decide (enabledMigrateDataNames service ≠ [])) reasonMissingMigrateDefinition enabledCapability).
Definition serviceDNSUpdateCapability (service : Service) : Capability :=
  need (bool_decide (Entries (sm_Network (svc_Meta service) ≫= net_DNS) ≠ [])) reasonServiceDNSNotDeclared
    dnsIntegrationCapability.
Definition serviceCaddySyncCapability (service : Service) : Capability :=
  need (CaddyManaged service) reasonServiceNotCaddyManaged
    (taskTargetNodesCapability (svc_TargetNodes service) TypeCaddySync).
Definition serviceCloudflareTunnelSyncCapability (service : Service) : Capability :=
  need (CloudflareTunnelManaged service) reasonServiceNotCloudflareTunnelManaged cloudflareTunnelIntegrationCapability.
Definition backupRestoreCapability (backup : BackupDetail) : Capability :=
  need (bool_decide (bd_Status backup = StatusSucceeded)) reasonBackupNotSucceeded
    (need (bool_decide (TrimSpace (bd_ArtifactRef backup) ≠ "")) reasonBackupArtifactMissing
       (and_then backupIntegrationCapability
          match FindService (cc_RepoDir cfg) entries availableNodeIDs (bd_ServiceName backup) with
          | Err _ => disabledCapability reasonServiceNotDeclared
          | Ok service =>
              need (serviceHasRestoreDefinition service (bd_DataName backup)) reasonMissingRestoreDefinition
                (need (anyNodeEligibleForTask TypeRestore) reasonMissingRestoreTargetNode enabledCapability)
          end)).

(** *** Nodes *)
Definition nodeCaddySyncCapability (nodeID : string) : Capability := taskTargetNodeCapability nodeID TypeCaddySync.
Definition nodeCaddyReloadCapability (nodeID : string) : Capability :=
  and_then (taskTargetNodeCapability nodeID TypeCaddyReload)
    (need (is_ok (FindCaddyInfraService (cc_RepoDir cfg) entries availableNodeIDs)) reasonMissingCaddyInfra
       enabledCapability).
Definition nodeRusticMaintenanceCapability (nodeID : string) : Capability :=
  and_then (taskTargetNodeCapability nodeID TypeRusticInit)
    match rustic_service with
    | Err _ => disabledCapability reasonMissingBackupIntegration
    | Ok rusticService => need (bool_decide (nodeID ∈ svc_TargetNodes rusticService)) reasonNodeNotRusticManaged
                            enabledCapability
    end.

Definition buildGlobalCapabilities : GlobalCapabilities :=
  MkGlobalCapabilities backupIntegrationCapability dnsIntegrationCapability secretsCapability
    rusticMaintenanceGlobalCapability.
Definition buildServiceActionCapabilities (service : Service) : ServiceActionCapabilities :=
  MkServiceActionCapabilities (serviceBackupCapability service) (serviceRestoreCapability service)
    (serviceMigrateCapability service) (serviceDNSUpdateCapability service) (serviceCaddySyncCapability service)
    (serviceCloudflareTunnelSyncCapability service).
Definition buildNodeActionCapabilities (nodeID : string) : NodeActionCapabilities :=
  MkNodeActionCapabilities (nodeCaddySyncCapability nodeID) (nodeCaddyReloadCapability nodeID)
    (nodeRusticMaintenanceCapability nodeID).
(** [BackupActionCapabilities] has this one field. *)
Definition buildBackupActionCapabilities (backup : BackupDetail) : Capability := backupRestoreCapability backup.
End capabilities.

(** ** Nodes: node.go *)
Record NodeSummary := MkNodeSummary {
  ns_NodeId : string;
  ns_DisplayName : string;
  ns_Enabled : bool;
  ns_IsOnline : bool;
  ns_LastHeartbeat : option Z;
  ns_Actions : option NodeActionCapabilities;
}.
Definition nodeSummary (node : NodeConfig) (snapshot : option NodeRow) : NodeSummary :=
  MkNodeSummary (nc_ID node) (if decide (nc_DisplayName node = "") then nc_ID node else nc_DisplayName node)
    (default true (nc_Enabled node)) (default false (nd_is_online <$> snapshot)) (snapshot ≫= nd_last_heartbeat) None.
Definition set_actions (actions : NodeActionCapabilities) (s : NodeSummary) : NodeSummary :=
  MkNodeSummary (ns_NodeId s) (ns_DisplayName s) (ns_Enabled s) (ns_IsOnline s) (ns_LastHeartbeat s) (Some actions).

Definition validateDockerPruneTarget (target : string) : result string string :=
  if decide (TrimSpace target = "") then Err "target is required"
  else if decide (target ∈ ["all"; "containers"; "networks"; "images"; "images_all"; "volumes"; "builder"])
  then Ok target
  else Err "unknown prune target".
(** [fmt.Sprintf(`{"target":%q}`, target)]; the targets that are accepted
    have no character that is escaped. *)
Definition quoted (s : string) : string := String (byte 34) (s +:+ String (byte 34) "").
Definition prune_params (target : string) : string := "{" +:+ quoted "target" +:+ ":" +:+ quoted target +:+ "}".

Record TaskActionResponse := MkTaskActionResponse {
  tar_TaskId : string;
  tar_Status : ProtoTaskStatus;
  tar_RepoRevision : string;
}.
Definition taskActionResponse (record : TaskRecord) : TaskActionResponse :=
  MkTaskActionResponse (rec_TaskID record) (ControllerProto.protoTaskStatus (rec_Status record)) (rec_RepoRevision record).

(** [map[string]any] with the keys of a Docker task. *)
Record DockerParams := MkDockerParams {
  dpm_Action : string;
  dpm_Resource : string;
  dpm_ID : string;
  dpm_Force : option bool;
  dpm_RemoveVolumes : option bool;
}.
(** [json.Marshal] of such a map, which never fails. *)
Class DockerParamsJSON := marshal_docker_params : DockerParams → string.

Inductive ContainerAction :=
| CONTAINER_ACTION_UNSPECIFIED
| CONTAINER_ACTION_START
| CONTAINER_ACTION_STOP
| CONTAINER_ACTION_RESTART.
#[export] Instance ContainerAction_eq_dec : EqDecision ContainerAction.
Proof. solve_decision. Defined.

Section handlers.
Context `{DnsState} `{GitState} `{!Environment} `{!GitCommand}.
Context `{Disk} `{MetaDecoder} `{Cron} `{Libraries} `{SQLite} `{ParamsJSON} `{DockerParamsJSON}.
Context (cfg : ControllerConfig).

Definition configuredNodeIDs : gset string := list_to_set (nc_ID <$> configured_nodes cfg).
Definition buildNodeSnapshotMap : M (gmap string NodeRow) :=
  snapshots ← store_read (StoreFailed CodeInternal) (λ db, Ok (ListNodeSnapshots db));
  mret (snapshot_map snapshots).

(** The capabilities of a node read the repository directory once here. *)
Definition node_message (snapshotByNodeID : gmap string NodeRow) (node : NodeConfig) : M NodeSummary :=
  t ← tree;
  mret (set_actions (buildNodeActionCapabilities cfg (rt_entries t) configuredNodeIDs snapshotByNodeID (nc_ID node))
          (nodeSummary node (snapshotByNodeID !! nc_ID node))).
Definition ListNodes : M (list NodeSummary) :=
  snapshotByNodeID ← buildNodeSnapshotMap;
  M_each (λ nodes node, message ← node_message snapshotByNodeID node; mret (nodes ++ [message])) [] (configured_nodes cfg).
Definition GetNode (nodeID : string) : M NodeSummary :=
  if decide (nodeID = "") then fail (NewError CodeInvalidArgument "node_id is required")
  else
    snapshotByNodeID ← buildNodeSnapshotMap;
    match head (filter (λ node, nc_ID node = nodeID) (configured_nodes cfg)) with
    | Some node => node_message snapshotByNodeID node
    | None => fail (NewError CodeNotFound "node is not configured")
    end.
Definition GetCapabilities (availableNodeIDs : gset string) : M GlobalCapabilities :=
  snapshotByNodeID ← buildNodeSnapshotMap; t ← tree;
  mret (buildGlobalCapabilities cfg (rt_entries t) availableNodeIDs snapshotByNodeID).

(** *** Maintenance; [header] is the source the client names. *)
Definition ReloadNodeCaddy (ctx : Context_) (header nodeID : string) : M string :=
  if decide (nodeID = "") then fail (NewError CodeInvalidArgument "node_id is required")
  else
    createdTask ← createNodeCaddyReloadTask cfg configuredNodeIDs ctx nodeID (requestTaskSource header) "";
    mret (rec_TaskID createdTask).
Definition SyncNodeCaddyFiles (header nodeID serviceName : string) (fullRebuild : bool) : M string :=
  if decide (nodeID = "") then fail (NewError CodeInvalidArgument "node_id is required")
  else
    createdTask ← createNodeCaddySyncTask cfg configuredNodeIDs nodeID serviceName fullRebuild (requestTaskSource header);
    mret (rec_TaskID createdTask).
(** [db.CreateTask] and the log file of a task without a service. *)
Definition create_node_task (ctx : Context_) (header nodeID taskType paramsJSON : string) : M TaskRecord :=
  taskID ← new_uuid;
  record ← create (StoreFailed CodeInternal) CreateTask
    (new_record cfg taskID taskType (requestTaskSource header) (default "" (BearerSubject ctx)) "" nodeID paramsJSON
       "" "" "" Time.zero);
  _ ← create_log_file;
  mret record.
Definition PruneNodeDocker (ctx : Context_) (header nodeID target : string) : M string :=
  if decide (nodeID = "") then fail (NewError CodeInvalidArgument "node_id is required")
  else
    target ← lift (with_code CodeInvalidArgument (validateDockerPruneTarget target));
    snapshot ← store_read (StoreFailed CodeInternal) (GetNodeSnapshot nodeID);
    if negb (nd_is_online snapshot) then fail (NewError CodeFailedPrecondition "node is offline")
    else
      record ← create_node_task ctx header nodeID TypePrune (prune_params target);
      mret (rec_TaskID record).
(** The node that is named, or a main node of rustic. *)
Definition maintenance_node (nodeID taskType : string) : M string :=
  if decide (nodeID = "") then recode CodeFailedPrecondition (chooseRusticMainNode cfg configuredNodeIDs taskType)
  else mret nodeID.
Definition rustic_maintenance (ctx : Context_) (header nodeID taskType : string) (params : rusticMaintenanceTaskParams)
    : M string :=
  nodeID ← maintenance_node nodeID taskType;
  createdTask ← createNodeRusticMaintenanceTask cfg configuredNodeIDs ctx nodeID taskType params
                  (requestTaskSource header) None;
  mret (rec_TaskID createdTask).
Definition PruneNodeRustic (ctx : Context_) (header nodeID serviceName dataName : string) : M string :=
  rustic_maintenance ctx header nodeID TypeRusticPrune (MkRusticMaintenanceTaskParams "" serviceName dataName false).
Definition InitNodeRustic (ctx : Context_) (header nodeID : string) : M string :=
  rustic_maintenance ctx header nodeID TypeRusticInit (MkRusticMaintenanceTaskParams "" "" "" false).
Definition ForgetNodeRustic (ctx : Context_) (header nodeID serviceName dataName : string) : M string :=
  rustic_maintenance ctx header nodeID TypeRusticForget (MkRusticMaintenanceTaskParams "" serviceName dataName false).

(** ** Containers and other objects of Docker: container.go *)
Definition createNodeDockerTask (ctx : Context_) (header nodeID taskType : string) (params : DockerParams) : M TaskRecord :=
  if decide (nodeID = "") then fail (NewError CodeInvalidArgument "node_id is required")
  else
    _ ← validateTaskTargetNode cfg nodeID taskType;
    create_node_task ctx header nodeID taskType (marshal_docker_params params).
Definition createContainerTask (ctx : Context_) (header nodeID containerID taskType : string) (params : DockerParams)
    : M TaskRecord :=
  if decide (nodeID = "" ∨ containerID = "")
  then fail (NewError CodeInvalidArgument "node_id and container_id are required")
  else
    _ ← validateTaskTargetNode cfg nodeID taskType;
    create_node_task ctx header nodeID taskType (marshal_docker_params params).
Definition container_action (action : ContainerAction) : option (string * string) :=
  match action with
  | CONTAINER_ACTION_START => Some (TypeDockerStart, "start")
  | CONTAINER_ACTION_STOP => Some (TypeDockerStop, "stop")
  | CONTAINER_ACTION_RESTART => Some (TypeDockerRestart, "restart")
  | CONTAINER_ACTION_UNSPECIFIED => None
  end.
Definition RunContainerAction (ctx : Context_) (header nodeID containerID : string) (action : ContainerAction)
    : M TaskActionResponse :=
  match container_action action with
  | None => fail (NewError CodeInvalidArgument "action is required")
  | Some (taskType, action) =>
      record ← createContainerTask ctx header nodeID containerID taskType
                 (MkDockerParams action "container" containerID None None);
      mret (taskActionResponse record)
  end.
Definition RemoveContainer (ctx : Context_) (header nodeID containerID : string) (force removeVolumes : bool)
    : M TaskActionResponse :=
  record ← createContainerTask ctx header nodeID containerID TypeDockerRemoveContainer
             (MkDockerParams "remove" "container" containerID (Some force) (Some removeVolumes));
  mret (taskActionResponse record).
(** The removal of a network, a volume or an image. *)
Definition remove_object (ctx : Context_) (header nodeID taskType resource id missing : string) (force : option bool)
    : M TaskActionResponse :=
  if decide (nodeID = "" ∨ id = "") then fail (NewError CodeInvalidArgument missing)
  else
    record ← createNodeDockerTask ctx header nodeID taskType (MkDockerParams "remove" resource id force None);
    mret (taskActionResponse record).
Definition RemoveNetwork (ctx : Context_) (header nodeID networkID : string) : M TaskActionResponse :=
  remove_object ctx header nodeID TypeDockerRemoveNetwork "network" networkID "node_id and network_id are required" None.
Definition RemoveVolume (ctx : Context_) (header nodeID volumeName : string) : M TaskActionResponse :=
  remove_object ctx header nodeID TypeDockerRemoveVolume "volume" volumeName "node_id and volume_name are required" None.
Definition RemoveImage (ctx : Context_) (header nodeID imageID : string) (force : bool) : M TaskActionResponse :=
  remove_object ctx header nodeID TypeDockerRemoveImage "image" imageID "node_id and image_id are required" (Some force).
End handlers.

(** ** Backups and finished tasks: backup_record.go, task_service.go *)
(** The restore of the first item with the name. *)
Definition restore_definition (dataName : string) (items : list DataProtectItem) : option DataActionConfig :=
  head (filter (λ item, dp_Name item = dataName) items) ≫= dp_Restore.
Definition read_backup_error (e : StoreError) : ConnectError :=
  match e with ErrBackupNotFound => StoreFailed CodeNotFound e | _ => StoreFailed CodeInternal e end.
Section records.
Context `{DnsState} `{GitState} `{!Environment} `{!GitCommand} `{ForgeLibraries} `{DockerCommand}.
Context `{Disk} `{MetaDecoder} `{Cron} `{Libraries} `{Secrets} `{SQLite} `{ParamsJSON} `{MetaDocuments}.
Context (cfg : ControllerConfig) (availableNodeIDs : gset string).

(** What the handler does when it follows a nil pointer: the request ends
    without an answer of its own. *)
Definition nil_pointer {A} : M A := fail (NewError CodeUnknown "invalid memory address or nil pointer dereference").
(** The backup and what a client may do with it. *)
Definition GetBackup_handler (backupID : string) : M (BackupDetail * Capability) :=
  if decide (backupID = "") then fail (NewError CodeInvalidArgument "backup_id is required")
  else
    backup ← store_read read_backup_error (GetBackup backupID);
    snapshots ← store_read (StoreFailed CodeInternal) (λ db, Ok (ListNodeSnapshots db));
    t ← tree;
    mret (backup, buildBackupActionCapabilities cfg (rt_entries t) availableNodeIDs (snapshot_map snapshots) backup).

Definition RestoreBackup (header backupID nodeID : string) : M TaskActionResponse :=
  if decide (backupID = "" ∨ nodeID = "") then fail (NewError CodeInvalidArgument "backup_id and node_id are required")
  else
    backup ← store_read read_backup_error (GetBackup backupID);
    if decide (bd_Status backup ≠ StatusSucceeded) then precondition "backup is not in succeeded state"
    else if decide (bd_ArtifactRef backup = "") then precondition "backup does not have an artifact_ref"
    else
      _ ← validateTaskTargetNode cfg nodeID TypeRestore;
      active ← store_read (StoreFailed CodeInternal) (λ db, Ok (hasActiveServiceInstanceTask (bd_ServiceName backup) nodeID db));
      if (active : bool) then precondition "service instance already has an active task"
      else
        t ← tree;
        service ← lift (with_code CodeNotFound
                          (FindService (cc_RepoDir cfg) (rt_entries t) availableNodeIDs (bd_ServiceName backup)));
        match sm_DataProtect (svc_Meta service) with
        | None => nil_pointer
        | Some items =>
            match restore_definition (bd_DataName backup) items with
            | None => precondition "service data does not declare restore"
            | Some _ =>
                repoRevision ← recode CodeFailedPrecondition CurrentRevision;
                serviceDir ← service_dir cfg service;
                createdTask ← createRestoreTask cfg (bd_ServiceName backup) nodeID repoRevision
                  (params_restore serviceDir
                     [MkRestoreTaskItem (bd_DataName backup) (bd_ArtifactRef backup) (bd_TaskID backup)])
                  (requestTaskSource header);
                mret (taskActionResponse createdTask)
            end
        end.

(** Only these run again, for the same node, data and way to recreate. *)
Definition rerun_types : list string := [TypeDeploy; TypeUpdate; TypeStop; TypeRestart; TypeBackup].
Definition RunTaskAgain (ctx : Context_) (header taskID : string) : M TaskActionResponse :=
  if decide (taskID = "") then fail (NewError CodeInvalidArgument "task_id is required")
  else
    detail ← store_read read_task_error (GetTask taskID);
    let record := td_Record detail in
    if decide (rec_ServiceName record = "") then precondition "task cannot be rerun without service_name"
    else if decide (rec_Type record ∉ rerun_types) then precondition "task type cannot be rerun yet"
    else
      params ← lift (with_code CodeInternal (taskParams (rec_ParamsJSON record)));
      let targetNodeIDs := if decide (rec_NodeID record = "") then [] else [rec_NodeID record] in
      created ← createServiceTasksWithOptions cfg availableNodeIDs ctx (rec_ServiceName record) targetNodeIDs
        (rec_Type record) (tp_DataNames params)
        (MkServiceTaskCreateOptions (rec_TaskID record) (requestTaskSource header) None (tp_ComposeRecreateMode params)
           [] "" [] ∅ ∅ "");
      match created with
      | createdTask :: _ => mret (taskActionResponse createdTask)
      | [] => fail (NewError CodeUnknown "index out of range")
      end.
End records.
