(* ===== verification/NodeTheorems.v ===== *)
(** * What the capabilities promise, and what becomes of a Docker request

    The capabilities of a node and the actions on it are computed by
    different code from the same tables; they agree.  A request about a
    container, a network, a volume or an image is what the agent of the node
    asks its engine. *)
From S2P Require Import AgentTasks DockerAgent DockerAgentTheorems RepoFilesTheorems MigrateTheorems TunnelTheorems StoreExamples AgentExample Config.
From S2P Require Export NodeCommands.

(** ** Programs that only read *)
Section reading.
Context `{DnsState} `{GitState} `{!Environment}.

(** Nobody else changes the database or the repository. *)
Definition undisturbed : Prop := (∀ n db, env_db n db = db) ∧ (∀ n t, env_tree n t = t).
Definition same_data (w w' : World) : Prop := w_db w' = w_db w ∧ w_tree w' = w_tree w.
Definition reads {A} (m : M A) (w : World) (r : result ConnectError A) : Prop := ∃ w', m w = (w', r) ∧ same_data w w'.

Lemma reads_bind {A B} (m : M A) (f : A → M B) w a r :
  reads m w (Ok a) → (∀ w', same_data w w' → reads (f a) w' r) → reads (m ≫= f) w r.
Proof.
  intros (w1 & Hm & Hs1) Hf. destruct (Hf w1 Hs1) as (w2 & Hf2 & Hs2). exists w2.
  unfold mbind, M_bind. rewrite Hm. split; [done|]. destruct Hs1, Hs2. split; congruence.
Qed.
Lemma reads_error {A B} (m : M A) (f : A → M B) w e : reads m w (Err e) → reads (m ≫= f) w (Err e).
Proof. intros (w1 & Hm & Hs1). exists w1. unfold mbind, M_bind. rewrite Hm. by split. Qed.
Lemma reads_ret {A} (a : A) w : reads (mret a) w (Ok a).
Proof. by exists w. Qed.
Lemma reads_lift {A} (r : result ConnectError A) w : reads (lift r) w r.
Proof. by exists w. Qed.
Lemma reads_attempt {A} (m : M A) w r : reads m w r → reads (attempt m) w (Ok r).
Proof. intros (w' & Hm & Hs). exists w'. unfold attempt. rewrite Hm. by split. Qed.
Lemma reads_recode {A} code (m : M A) w a : reads m w (Ok a) → reads (recode code m) w (Ok a).
Proof. intros (w' & Hm & Hs). exists w'. unfold recode. rewrite Hm. by split. Qed.

Context (Hquiet : undisturbed).
Lemma reads_yield w : reads yield_ w (Ok (w_tick w)).
Proof. destruct Hquiet as [Hdb Htree]. eexists. split; [done|]. split; [apply Hdb|apply Htree]. Qed.
Lemma reads_store {A} wrap (call : DB → result StoreError A) w :
  reads (store_read wrap call) w (match call (w_db w) with Ok a => Ok a | Err e => Err (wrap e) end).
Proof.
  eapply reads_bind; [apply reads_yield|]. intros w' [Hdb Htree]. unfold reads, call_db. rewrite <-Hdb.
  destruct (call (w_db w')) as [a|e]; cbn; eexists; (split; [done|by split]).
Qed.
Lemma reads_tree w : reads tree w (Ok (w_tree w)).
Proof. eapply reads_bind; [apply reads_yield|]. intros w' [_ Ht]. exists w'. unfold get. rewrite Ht. by split. Qed.
End reading.

(** ** Refusals *)
Section refusals.
Context `{DnsState} `{GitState} `{!Environment}.

(** The capability is enabled exactly if the action is not refused for the
    state it finds: a refusal leaves the database as it is, and what stops an
    enabled action is the store or the file system. *)
Definition agrees {A} (capability : Capability) (m : M A) (w : World) : Prop :=
  match (m w).2 with
  | Ok _ => cap_Enabled capability = true
  | Err e => if cap_Enabled capability then ∀ message, e ≠ NewError CodeFailedPrecondition message
             else CodeOf e = CodeFailedPrecondition ∧ w_db (m w).1 = w_db w
  end.
(** No error of the program is a refusal. *)
Definition never_refuses {A} (m : M A) : Prop := ∀ w message, (m w).2 ≠ Err (NewError CodeFailedPrecondition message).

Lemma agrees_reads {A B} (m : M A) (f : A → M B) capability w a :
  reads m w (Ok a) → (∀ w', same_data w w' → agrees capability (f a) w') → agrees capability (m ≫= f) w.
Proof.
  intros (w1 & Hm & Hs) Hf. specialize (Hf w1 Hs). unfold agrees, mbind, M_bind in *. rewrite Hm.
  destruct (f a w1) as [w2 [b|e]]; [done|]. cbn in *. destruct (cap_Enabled capability); [done|]. destruct Hf, Hs.
  split; congruence.
Qed.
Lemma agrees_refused {A B} (m : M A) (f : A → M B) capability w e :
  reads m w (Err e) → CodeOf e = CodeFailedPrecondition → cap_Enabled capability = false → agrees capability (m ≫= f) w.
Proof.
  intros (w1 & Hm & Hs & _) Hcode Hoff. unfold agrees, mbind, M_bind. rewrite Hm. cbn. rewrite Hoff. done.
Qed.
Lemma agrees_enabled {A} (m : M A) capability w : cap_Enabled capability = true → never_refuses m → agrees capability m w.
Proof.
  intros Hon Hnever. unfold agrees. destruct (m w) as [w' [a|e]] eqn:Hm; [done|]. cbn. rewrite Hon.
  intros message ->. eapply (Hnever w message). by rewrite Hm.
Qed.

Lemma never_bind {A B} (m : M A) (f : A → M B) : never_refuses m → (∀ a, never_refuses (f a)) → never_refuses (m ≫= f).
Proof.
  intros Hm Hf w message. specialize (Hm w). unfold mbind, M_bind. destruct (m w) as [w1 [a|e]]; [apply Hf|].
  cbn. intros [= ->]. by apply (Hm message).
Qed.
Lemma never_ret {A} (a : A) : never_refuses (mret a).
Proof. done. Qed.
Lemma never_fail {A} e : (∀ message, e ≠ NewError CodeFailedPrecondition message) → never_refuses (fail (A := A) e).
Proof. intros He w message [= ->]. by apply (He message). Qed.
Lemma never_store {A} code (call : DB → result StoreError (DB * A)) : never_refuses (store (StoreFailed code) call).
Proof.
  apply never_bind; [done|]. intros _ w message. unfold call_db. by destruct (call (w_db w)) as [[]|].
Qed.
Lemma never_attempt {A} (m : M A) : never_refuses (attempt m).
Proof. intros w message. unfold attempt. by destruct (m w). Qed.
Lemma never_log_file : never_refuses create_log_file.
Proof.
  apply never_bind; [apply never_attempt|]. intros [[]|e]; [done|]. by apply never_fail.
Qed.
Lemma never_create code call record : never_refuses (create (StoreFailed code) call record).
Proof.
  repeat (apply never_bind; [done|intros ?]). apply never_bind; [apply never_store|]. intros created.
  by apply never_bind.
Qed.
End refusals.

(** ** The nodes *)
Lemma head_filter_find {A} (P : A → Prop) `{∀ x, Decision (P x)} (l : list A) :
  head (filter P l) = snd <$> list_find P l.
Proof.
  induction l as [|x l IH]; [done|]. rewrite filter_cons. cbn [list_find]. destruct (decide (P x)); [done|].
  rewrite IH. by destruct (list_find P l) as [[]|].
Qed.
Lemma snapshot_map_nodes db : snapshot_map (ListNodeSnapshots db) = nodes db.
Proof.
  apply map_eq. intros k. apply option_eq. intros row. unfold snapshot_map.
  assert (ListNodeSnapshots db ≡ₚ map_to_list (nodes db)) as Hl by apply merge_sort_Permutation.
  rewrite (foldl_insert_lookup fst snd).
  - rewrite lookup_empty, <-elem_of_map_to_list. split.
    + intros [?|([k' row'] & Hin & <- & <-)]; [done|]. by rewrite Hl in Hin.
    + intros Hin. right. exists (k, row). by rewrite Hl.
  - rewrite Hl. apply NoDup_fst_map_to_list.
  - intros a _. apply lookup_empty.
Qed.

Section nodes.
Context `{DnsState} `{GitState} `{!Environment} `{!GitCommand}.
Context `{Disk} `{MetaDecoder} `{Cron} `{Libraries} `{SQLite} `{ParamsJSON}.
Context (cfg : ControllerConfig).

Lemma validate_capability (Hquiet : undisturbed) nodeID taskType w :
  ∃ r, reads (validateTaskTargetNode cfg nodeID taskType) w r ∧
    match r with
    | Ok _ => cap_Enabled (taskTargetNodeCapability cfg (nodes (w_db w)) nodeID taskType) = true
    | Err e => CodeOf e = CodeFailedPrecondition ∧
               cap_Enabled (taskTargetNodeCapability cfg (nodes (w_db w)) nodeID taskType) = false
    end.
Proof.
  unfold validateTaskTargetNode, taskTargetNodeCapability, find_node, lookupConfiguredNode. rewrite head_filter_find.
  destruct (list_find _ _) as [[i node]|]; cbn; [|by eexists; split; [eexists; split; [done|by split]|]].
  case_decide; [by eexists; split; [eexists; split; [done|by split]|]|].
  destruct (RequiresOnlineNode taskType); cbn; [|by eexists; split; [apply reads_ret|]].
  pose proof (reads_store Hquiet (StoreFailed CodeFailedPrecondition) (GetNodeSnapshot nodeID) w) as Hread.
  unfold GetNodeSnapshot in Hread at 2. destruct (nodes (w_db w) !! nodeID) as [snapshot|];
    [|eexists; split; [apply reads_error, Hread|done]].
  destruct (nd_is_online snapshot) eqn:Hon; cbn.
  - exists (Ok ()). split; [|done]. eapply reads_bind; [done|]. intros w' Hs. rewrite Hon. apply reads_ret.
  - exists (Err (NewError CodeFailedPrecondition "node is offline")). split; [|done]. eapply reads_bind; [exact Hread|]. intros w' Hs. rewrite Hon. by exists w'.
Qed.

(** *** The steps of an action *)
Context (Hquiet : undisturbed).
Context (Hgit : ∀ fs g, ∃ revision, run_git [] [] ["rev-parse"; "HEAD"] fs g = (fs, g, Ok revision)).

Lemma agrees_validate {B} capability nodeID taskType (f : () → M B) w :
  let node := taskTargetNodeCapability cfg (nodes (w_db w)) nodeID taskType in
  (cap_Enabled node = false → cap_Enabled capability = false) →
  (cap_Enabled node = true → ∀ w', same_data w w' → agrees capability (f ()) w') →
  agrees capability (validateTaskTargetNode cfg nodeID taskType ≫= f) w.
Proof.
  intros node Hoff Hon. destruct (validate_capability Hquiet nodeID taskType w) as ([[]|e] & Hread & Hr).
  - eapply agrees_reads; [exact Hread|]. by apply Hon.
  - destruct Hr as [Hcode Hr]. eapply agrees_refused; [done|done|by apply Hoff].
Qed.
Lemma agrees_tree {B} capability (f : RepoTree → M B) w :
  (∀ w', same_data w w' → agrees capability (f (w_tree w)) w') → agrees capability (tree ≫= f) w.
Proof. intros Hf. eapply agrees_reads; [apply (reads_tree Hquiet)|done]. Qed.
Lemma agrees_lookup {A B} capability (r : result string A) (f : A → M B) w :
  (is_ok r = false → cap_Enabled capability = false) → (∀ a, r = Ok a → agrees capability (f a) w) →
  agrees capability (lift (with_code CodeFailedPrecondition r) ≫= f) w.
Proof.
  intros Hoff Hon. destruct r as [a|e]; [by apply (Hon a)|]. unfold agrees. cbn. by rewrite Hoff.
Qed.
Lemma reads_revision w : ∃ revision, reads (recode CodeFailedPrecondition CurrentRevision) w (Ok revision).
Proof.
  destruct Hquiet as [Hdb Htree]. unfold reads, recode, CurrentRevision, gitOutput, gitOutputWithContext, call_git.
  unfold mbind, M_bind, yield_. cbn. rewrite Htree. destruct (Hgit (rt_files (w_tree w)) (rt_git (w_tree w))) as [revision ->].
  cbn. exists (TrimSpace revision). eexists. split; [done|]. split; [apply Hdb|]. cbn. by destruct (w_tree w).
Qed.

Lemma never_service_dir service : never_refuses (service_dir cfg service).
Proof. intros w message. unfold service_dir, lift. cbn. by destruct (Rel _ _). Qed.
Lemma agrees_service_dir {B} capability service (f : string → M B) w :
  cap_Enabled capability = true → (∀ dir, agrees capability (f dir) w) → agrees capability (service_dir cfg service ≫= f) w.
Proof.
  intros Hon Hf. unfold service_dir. destruct (Rel _ _) as [dir|e]; [by apply (Hf dir)|]. unfold agrees. cbn. by rewrite Hon.
Qed.
Lemma never_or_existing key created :
  (∀ message, created ≠ Err (NewError CodeFailedPrecondition message)) → never_refuses (or_existing key created).
Proof.
  intros He. destruct created as [record|e]; cbn; [by apply never_bind; [apply never_log_file|]|].
  apply never_bind; [case_decide; [done|apply never_attempt]|]. intros [record|_]; [done|].
  destruct e as [code message|code []];
    first [apply never_store|apply never_fail; intros message' Heq; first [by injection Heq as -> ->; apply (He message')|done]].
Qed.
Lemma never_caddy_dirs nodeID services : never_refuses (caddy_dirs cfg nodeID services).
Proof.
  unfold caddy_dirs. induction services as [|service services IH]; cbn; [done|].
  destruct (_ && _); [|done]. apply never_bind; [apply never_service_dir|]. intros dir. by apply never_bind.
Qed.
Lemma never_created call key record : never_refuses (created ← attempt (create plain call record); or_existing key created).
Proof.
  intros w message. pose proof (never_create CodeUnknown call record w) as Hm. unfold mbind, M_bind, attempt.
  change (StoreFailed CodeUnknown) with plain in Hm. destruct (create plain call record w) as [w1 created].
  apply never_or_existing. intros message' ->. by apply (Hm message').
Qed.
Ltac never :=
  repeat first
    [ apply never_created | apply never_service_dir | apply never_caddy_dirs | apply never_create | apply never_log_file
    | apply never_ret | apply never_bind; [|intros ?] | done ].

Lemma agrees_fmap {A B} (m : M A) (g : A → B) capability w :
  agrees capability m w → agrees capability (a ← m; mret (g a)) w.
Proof. unfold agrees, mbind, M_bind. by destruct (m w) as [w' [a|e]]. Qed.

Lemma ReloadNodeCaddy_agrees ctx header nodeID w : nodeID ≠ "" →
  agrees (nodeCaddyReloadCapability cfg (rt_entries (w_tree w)) (configuredNodeIDs cfg) (nodes (w_db w)) nodeID)
    (ReloadNodeCaddy cfg ctx header nodeID) w.
Proof.
  intros Hid. unfold ReloadNodeCaddy, createNodeCaddyReloadTask, nodeCaddyReloadCapability, and_then, need.
  rewrite !decide_False by done. apply agrees_fmap, agrees_validate; [intros Hoff; by rewrite Hoff|].
  intros Hon w1 [_ Ht1]. rewrite Hon. apply agrees_tree. intros w2 _. rewrite Ht1.
  apply agrees_lookup; [intros Hoff; by rewrite Hoff|]. intros service Hservice. rewrite Hservice.
  apply agrees_enabled; [done|]. never.
Qed.
Lemma SyncNodeCaddyFiles_agrees header nodeID w : nodeID ≠ "" →
  is_ok (DiscoverServices (cc_RepoDir cfg) (rt_entries (w_tree w)) (configuredNodeIDs cfg)) = true →
  agrees (nodeCaddySyncCapability cfg (nodes (w_db w)) nodeID) (SyncNodeCaddyFiles cfg header nodeID "" true) w.
Proof.
  intros Hid Hrepo. unfold SyncNodeCaddyFiles, createNodeCaddySyncTask, nodeCaddySyncCapability.
  rewrite !decide_False by done. apply agrees_fmap, agrees_validate; [done|]. intros Hon w1 [_ Ht1].
  apply agrees_tree. intros w2 [_ Ht2]. destruct (reads_revision w2) as [revision Hrev].
  eapply agrees_reads; [exact Hrev|]. intros w3 [_ Ht3]. apply agrees_tree. intros w4 _. rewrite Ht3, Ht2, Ht1.
  destruct (DiscoverServices _ _ _) as [services|] eqn:Hs; [|done]. apply agrees_enabled; [done|].
  apply never_bind; [|intros [[? ?] ?]; never]. never.
Qed.

(** *** The main node of rustic *)
Abbreviation ids := (configuredNodeIDs cfg).
Abbreviation able w nodeID := (cap_Enabled (taskTargetNodeCapability cfg (nodes (w_db w)) nodeID TypeRusticInit)).
Abbreviation rustic w := (rustic_service cfg (rt_entries (w_tree w)) ids).

Lemma able_any_type snapshots nodeID taskType : RequiresOnlineNode taskType = true →
  taskTargetNodeCapability cfg snapshots nodeID taskType = taskTargetNodeCapability cfg snapshots nodeID TypeRusticInit.
Proof. intros Hty. unfold taskTargetNodeCapability. by rewrite Hty. Qed.
Lemma reads_find_rustic w : reads (find_rustic cfg ids) w (with_code CodeUnknown (rustic w)).
Proof.
  destruct (reads_tree Hquiet w) as (w1 & Ht & Hs). exists w1. unfold find_rustic, mbind, M_bind. rewrite Ht. by split.
Qed.
Lemma reads_recode_error {A} code (m : M A) w e : reads m w (Err e) →
  ∃ e', reads (recode code m) w (Err e') ∧ CodeOf e' = code.
Proof.
  intros (w1 & Hm & Hs). unfold reads, recode. rewrite Hm.
  destruct e as [c message|c e]; [exists (NewError code message)|exists (StoreFailed code e)]; split; try done; by exists w1.
Qed.
Lemma agrees_find_rustic {B} capability (f : Service → M B) w :
  (is_ok (rustic w) = false → cap_Enabled capability = false) →
  (∀ service w', rustic w = Ok service → same_data w w' → agrees capability (f service) w') →
  agrees capability (recode CodeFailedPrecondition (find_rustic cfg ids) ≫= f) w.
Proof.
  intros Hoff Hon. pose proof (reads_find_rustic w) as Hfind. destruct (rustic w) as [service|e]; cbn in Hfind.
  - eapply agrees_reads; [apply reads_recode, Hfind|]. intros w'. by apply Hon.
  - destruct (reads_recode_error CodeFailedPrecondition _ _ _ Hfind) as (e' & Hread & Hcode).
    eapply agrees_refused; [done|done|by apply Hoff].
Qed.

Lemma createNodeRusticMaintenanceTask_agrees ctx nodeID taskType params source createdAt w :
  RequiresOnlineNode taskType = true →
  agrees (nodeRusticMaintenanceCapability cfg (rt_entries (w_tree w)) ids (nodes (w_db w)) nodeID)
    (createNodeRusticMaintenanceTask cfg ids ctx nodeID taskType params source createdAt) w.
Proof.
  intros Hty. unfold createNodeRusticMaintenanceTask, nodeRusticMaintenanceCapability, and_then, need.
  apply agrees_validate; rewrite able_any_type by done; [intros Hoff; by rewrite Hoff|]. intros Hon w1 [_ Ht1]. rewrite Hon.
  apply agrees_find_rustic; rewrite Ht1; [intros Hoff; by destruct (rustic w)|].
  intros service w2 Hservice [_ Ht2]. rewrite Hservice. unfold or_precondition, validateRusticServiceTargetNode.
  apply agrees_lookup; case_decide; [done|intros _; by rewrite bool_decide_eq_false_2|intros [] _|done].
  rewrite bool_decide_eq_true_2 by done. apply agrees_service_dir; [done|]. intros dir. destruct (reads_revision w2) as [revision Hrev].
  eapply agrees_reads; [exact Hrev|]. intros w3 _. apply agrees_enabled; [done|]. never.
Qed.

Definition able_nodes (w : World) (candidates : list string) : list string := filter (λ nodeID, able w nodeID = true) candidates.
Lemma reads_online taskType online candidates w : RequiresOnlineNode taskType = true →
  reads (M_each (online_node cfg taskType) online candidates) w (Ok (online ++ able_nodes w candidates)).
Proof.
  intros Hty. revert online w. induction candidates as [|nodeID candidates IH]; intros online w.
  { cbn. rewrite app_nil_r. apply reads_ret. }
  cbn [M_each]. unfold able_nodes. rewrite filter_cons.
  destruct (validate_capability Hquiet nodeID taskType w) as (r & Hread & Hr). rewrite able_any_type in Hr by done.
  eapply reads_bind.
  { eapply reads_bind; [apply reads_attempt, Hread|]. intros w1 _. apply reads_ret. }
  intros w1 [Hdb Ht]. unfold able_nodes in IH. destruct r as [[]|e].
  - rewrite decide_True by done.
    specialize (IH (online ++ [nodeID]) w1). rewrite Hdb, <-app_assoc in IH. exact IH.
  - destruct Hr as [_ Hr]. rewrite decide_False by (by rewrite Hr). specialize (IH online w1). rewrite Hdb in IH. exact IH.
Qed.
Lemma able_nodes_nil w candidates :
  able_nodes w candidates = [] ↔ existsb (λ nodeID, able w nodeID) candidates = false.
Proof.
  unfold able_nodes. induction candidates as [|nodeID candidates IH]; [done|]. rewrite filter_cons. cbn.
  destruct (able w nodeID); [by rewrite decide_True|]. by rewrite decide_False.
Qed.
Lemma chooseRusticMainNode_reads taskType w : RequiresOnlineNode taskType = true →
  ∃ r, reads (chooseRusticMainNode cfg ids taskType) w r ∧
    let global := rusticMaintenanceGlobalCapability cfg (rt_entries (w_tree w)) ids (nodes (w_db w)) in
    match r with
    | Ok nodeID => cap_Enabled global = true ∧ able w nodeID = true ∧
                   ∃ service, rustic w = Ok service ∧ nodeID ∈ svc_TargetNodes service
    | Err _ => cap_Enabled global = false
    end.
Proof.
  intros Hty. pose proof (reads_find_rustic w) as Hfind. unfold chooseRusticMainNode, rusticMaintenanceGlobalCapability, need.
  destruct (rustic w) as [service|e]; [|by eexists; split; [apply reads_error, Hfind|]]. cbn in Hfind.
  destruct (decide (main_candidates cfg service = [])) as [Hnone|Hsome].
  { eexists. split; [eapply reads_bind; [exact Hfind|]; intros w1 _; rewrite decide_True by done; by exists w1|].
    cbn. by rewrite bool_decide_eq_false_2 by tauto. }
  rewrite bool_decide_eq_true_2 by done. destruct Hfind as (w1 & Hfind & Hdb1 & Ht1).
  destruct (reads_online taskType [] (main_candidates cfg service) w1 Hty) as (w2 & Honline & Hdb2 & Ht2).
  destruct (reads_yield Hquiet w2) as (w3 & Hyield & Hdb3 & Ht3). cbn [app] in Honline.
  assert (able_nodes w1 (main_candidates cfg service) = able_nodes w (main_candidates cfg service)) as Heq
    by (unfold able_nodes; by rewrite Hdb1).
  rewrite Heq in Honline. unfold reads, mbind, M_bind. rewrite Hfind, decide_False, Honline, Hyield by done.
  pose proof (able_nodes_nil w (main_candidates cfg service)) as Hnil.
  destruct (able_nodes w (main_candidates cfg service)) as [|nodeID0 online0] eqn:Hable.
  - rewrite (proj1 Hnil eq_refl). cbn [lookup list_lookup]. eexists. split; [exists w3; split; [done|split; congruence]|done].
  - destruct (existsb _ _) eqn:Hex; [|discriminate (proj2 Hnil eq_refl)].
    destruct (lookup_lt_is_Some_2 (nodeID0 :: online0) (env_choice (w_tick w2) `mod` length (nodeID0 :: online0))) as [nodeID Hpick];
      [by apply Nat.mod_upper_bound|].
    rewrite Hpick. exists (Ok nodeID). split; [exists w3; split; [done|split; congruence]|].
    apply list_elem_of_lookup_2 in Hpick. rewrite <-Hable in Hpick. apply list_elem_of_filter in Hpick as [Hok Hin].
    split; [done|]. split; [done|]. exists service. split; [done|]. revert Hin. unfold main_candidates.
    destruct (cc_Rustic cfg); [case_decide|]; [done| |done]. by intros [_ ?]%list_elem_of_filter.
Qed.

Lemma rustic_maintenance_agrees ctx header nodeID taskType params w : RequiresOnlineNode taskType = true →
  agrees (if decide (nodeID = "") then rusticMaintenanceGlobalCapability cfg (rt_entries (w_tree w)) ids (nodes (w_db w))
          else nodeRusticMaintenanceCapability cfg (rt_entries (w_tree w)) ids (nodes (w_db w)) nodeID)
    (rustic_maintenance cfg ctx header nodeID taskType params) w.
Proof.
  intros Hty. unfold rustic_maintenance, maintenance_node. case_decide as Hid.
  - destruct (chooseRusticMainNode_reads taskType w Hty) as ([main|e] & Hread & Hr).
    + destruct Hr as (Hon & Hable & service & Hservice & Hin). eapply agrees_reads; [apply reads_recode, Hread|].
      intros w1 [Hdb1 Ht1]. apply agrees_fmap.
      pose proof (createNodeRusticMaintenanceTask_agrees ctx main taskType params (requestTaskSource header) None w1 Hty) as Hag.
      unfold agrees in Hag |- *. rewrite Hon. unfold nodeRusticMaintenanceCapability, and_then, need in Hag.
      rewrite Hdb1, Ht1, Hable, Hservice, bool_decide_eq_true_2 in Hag by done. done.
    + destruct (reads_recode_error CodeFailedPrecondition _ _ _ Hread) as (e' & Hread' & Hcode).
      by eapply agrees_refused.
  - eapply agrees_reads; [apply reads_ret|]. intros w1 [Hdb1 Ht1]. apply agrees_fmap. rewrite <-Hdb1, <-Ht1.
    by apply createNodeRusticMaintenanceTask_agrees.
Qed.

(** C35: what a client is shown of a node is what the controller does: over
    the same tables and files, each action on a node - reloading or rebuilding
    Caddy, initialising, pruning or forgetting on a named node, and on a main
    node of the controller's choice - is refused and leaves the database as it
    is when its capability is disabled; when it is enabled only the store or
    the file system can stop it. *)
Theorem node_actions_match_capabilities ctx header nodeID serviceName dataName w :
  nodeID ≠ "" →
  is_ok (DiscoverServices (cc_RepoDir cfg) (rt_entries (w_tree w)) ids) = true →
  let snapshots := snapshot_map (ListNodeSnapshots (w_db w)) in
  let caps := buildNodeActionCapabilities cfg (rt_entries (w_tree w)) ids snapshots nodeID in
  let global := buildGlobalCapabilities cfg (rt_entries (w_tree w)) ids snapshots in
  agrees (nac_CaddyReload caps) (ReloadNodeCaddy cfg ctx header nodeID) w ∧
  agrees (nac_CaddySync caps) (SyncNodeCaddyFiles cfg header nodeID "" true) w ∧
  agrees (nac_RusticMaintenance caps) (InitNodeRustic cfg ctx header nodeID) w ∧
  agrees (nac_RusticMaintenance caps) (PruneNodeRustic cfg ctx header nodeID serviceName dataName) w ∧
  agrees (nac_RusticMaintenance caps) (ForgetNodeRustic cfg ctx header nodeID serviceName dataName) w ∧
  agrees (gc_RusticMaintenance global) (InitNodeRustic cfg ctx header "") w.
Proof.
  intros Hid Hrepo snapshots caps global. subst snapshots caps global. rewrite !snapshot_map_nodes.
  pose proof (λ ty params, rustic_maintenance_agrees ctx header nodeID ty params w) as Hmaintenance.
  rewrite decide_False in Hmaintenance by done.
  split_and!; [by apply ReloadNodeCaddy_agrees|by apply SyncNodeCaddyFiles_agrees|by apply Hmaintenance..|].
  exact (rustic_maintenance_agrees ctx header "" TypeRusticInit _ w eq_refl).
Qed.
End nodes.

(** ** What the agent does for a Docker task *)
Section every_op.
Context `{StateJSON}.

(** All operations a program may come to satisfy [P]. *)
Fixpoint every_op (P : ∀ X, Op X → Prop) {A} (p : Prog A) : Prop :=
  match p with
  | Ret _ => True
  | Do o k => P _ o ∧ ∀ x, every_op P (k x)
  end.
Lemma every_bind (P : ∀ X, Op X → Prop) {A B} (p : Prog A) (f : A → Prog B) :
  every_op P p → (∀ a, every_op P (f a)) → every_op P (prog_bind p f).
Proof. induction p as [a|X o k IH]; cbn; [auto|]. intros [Ho Hk] Hf. split; [done|]. intros x. by apply IH. Qed.

(** Of the changes of Docker objects only this one. *)
Definition only_asks (call : string * string * string * bool * bool) (X : Type) (o : Op X) : Prop :=
  match o with
  | DockerAPI action resource id force removeVolumes => (action, resource, id, force, removeVolumes) = call
  | _ => True
  end.
End every_op.
Ltac every_op :=
  repeat first
    [ exact I
    | progress intros
    | apply every_bind
    | match goal with
      | |- every_op _ (Ret _) => exact I
      | |- every_op _ (op _) => split; [exact I|]
      | |- every_op _ (must _ _) => split; [exact I|]
      | |- every_op _ (if ?b then _ else _) => destruct b
      | |- every_op _ (match ?x with _ => _ end) => destruct x
      end
    | progress unfold go_bind, ok, err ].

Section task.
Context `{StateJSON} `{PathResolver} `{AgentLibraries}.
Lemma executeDockerTask_asks pulledTask action resource params :
  parseDockerTaskParams (at_ParamsJson pulledTask) (at_Type pulledTask) = Ok (action, resource, params) →
  every_op (only_asks (action, resource, dtp_ID params, dtp_Force params, dtp_RemoveVolumes params))
    (executeDockerTask pulledTask).
Proof.
  intros Hparse. unfold executeDockerTask, on_error, AgentTasks.step, executeTaskStep. rewrite Hparse. cbn [of_text prog_bind]. every_op.
  all: unfold reportTaskStepState, failing, succeed, failTask, reportTaskCompletion, uploadTaskLog, report, call,
    taskExecutionID, storeCompletion, clear, with_runtime, persist_runtime, persistTaskExecution,
    removeTaskExecutionState; every_op.
  split; [reflexivity|by intros].
Qed.
End task.

(** ** From a request of a client to the engine of the node *)
Inductive DockerRequest :=
| AskAction (containerID : string) (action : ContainerAction)
| AskRemoveContainer (containerID : string) (force removeVolumes : bool)
| AskRemoveNetwork (networkID : string)
| AskRemoveVolume (volumeName : string)
| AskRemoveImage (imageID : string) (force : bool).
(** The one change of the engine a request is about. *)
Definition wanted (r : DockerRequest) : option EngineCall :=
  match r with
  | AskAction id CONTAINER_ACTION_START => Some (CallContainerStart id)
  | AskAction id CONTAINER_ACTION_STOP => Some (CallContainerStop id)
  | AskAction id CONTAINER_ACTION_RESTART => Some (CallContainerRestart id)
  | AskAction _ CONTAINER_ACTION_UNSPECIFIED => None
  | AskRemoveContainer id force removeVolumes => Some (CallContainerRemove id force removeVolumes)
  | AskRemoveNetwork id => Some (CallNetworkRemove id)
  | AskRemoveVolume name => Some (CallVolumeRemove name)
  | AskRemoveImage id force => Some (CallImageRemove id force)
  end.

Section requests.
Context `{DnsState} `{GitState} `{!Environment} `{SQLite} `{ParamsJSON} `{DockerParamsJSON}.
Context `{StateJSON} `{PathResolver} `{AgentLibraries} `{DockerEngine}.
Context (cfg : ControllerConfig).

Definition send (ctx : Context_) (header nodeID : string) (r : DockerRequest) : M TaskActionResponse :=
  match r with
  | AskAction id action => RunContainerAction cfg ctx header nodeID id action
  | AskRemoveContainer id force removeVolumes => RemoveContainer cfg ctx header nodeID id force removeVolumes
  | AskRemoveNetwork id => RemoveNetwork cfg ctx header nodeID id
  | AskRemoveVolume name => RemoveVolume cfg ctx header nodeID name
  | AskRemoveImage id force => RemoveImage cfg ctx header nodeID id force
  end.
(** The task a request becomes. *)
Definition request_task (r : DockerRequest) : option (string * DockerParams) :=
  match r with
  | AskAction id action => (λ c, (c.1, MkDockerParams c.2 "container" id None None)) <$> container_action action
  | AskRemoveContainer id force removeVolumes =>
      Some (TypeDockerRemoveContainer, MkDockerParams "remove" "container" id (Some force) (Some removeVolumes))
  | AskRemoveNetwork id => Some (TypeDockerRemoveNetwork, MkDockerParams "remove" "network" id None None)
  | AskRemoveVolume name => Some (TypeDockerRemoveVolume, MkDockerParams "remove" "volume" name None None)
  | AskRemoveImage id force => Some (TypeDockerRemoveImage, MkDockerParams "remove" "image" id (Some force) None)
  end.

Lemma store_Ok {A} wrap (call : DB → result StoreError (DB * A)) w w' a :
  store wrap call w = (w', Ok a) → ∃ db, call db = Ok (w_db w', a).
Proof.
  intros (w1 & n & _ & Hc)%bind_Ok. exists (w_db w1). unfold call_db in Hc.
  destruct (call (w_db w1)) as [[db x]|]; [|done]. by injection Hc as <- <-.
Qed.
Lemma created_row uuid t record db db' created : CreateTask uuid t record db = Ok (db', created) →
  tasks db' !! rec_TaskID created = Some (inserted_row created) ∧ rec_Type created = rec_Type record ∧
  rec_NodeID created = rec_NodeID record ∧ rec_ParamsJSON created = rec_ParamsJSON record ∧
  rec_Status created = (if decide (rec_Status record = "") then StatusPending else rec_Status record).
Proof.
  unfold CreateTask, prepareTaskRecord. intros Hrun. do 2 (case_decide; [discriminate Hrun|]). cbn in Hrun.
  destruct (insertTaskRecord db _) as [db1|] eqn:Hins; [|done]. injection Hrun as <- <-.
  apply insertTaskRecord_Ok in Hins as [_ ->]. cbn [tasks set_tasks]. by rewrite lookup_insert_eq.
Qed.
Lemma log_file_db (Hdb : ∀ n db, env_db n db = db) w : w_db (create_log_file w).1 = w_db w.
Proof.
  unfold create_log_file, attempt, file_io, mbind, M_bind, yield_. cbn. destruct (env_io (w_tick w)); cbn; apply Hdb.
Qed.
Lemma create_node_task_Ok (Hdb : ∀ n db, env_db n db = db) ctx header nodeID taskType paramsJSON w w' record :
  nodeID ≠ "" → create_node_task cfg ctx header nodeID taskType paramsJSON w = (w', Ok record) →
  ∃ row, tasks (w_db w') !! rec_TaskID record = Some row ∧ tc_node_id (tk_core row) = Some nodeID ∧
    tc_type (tk_core row) = taskType ∧ tk_params_json row = nullableString paramsJSON ∧ tk_status row = StatusPending.
Proof.
  intros Hid Hrun. unfold create_node_task, create in Hrun. succeeded.
  match goal with Hs : store _ _ _ = _ |- _ => apply store_Ok in Hs as [db Hs]; 
    apply created_row in Hs as (Hrow & Hty & Hnode & Hparams & Hstatus) end.
  match goal with
  | He : emit _ ?x = (?y, _), Hlog : create_log_file ?y = (?z, _) |- _ =>
      pose proof (log_file_db Hdb y) as Hkeep; rewrite Hlog in Hkeep; injection He as <-
  end.
  cbn in Hkeep, Hrow. rewrite <-Hkeep in Hrow. eexists. split; [exact Hrow|]. cbn in *.
  rewrite Hty, Hnode, Hparams, Hstatus. unfold nullableString. by rewrite decide_False.
Qed.

(** A request that is granted is the task it becomes, on its node. *)
Lemma send_Ok ctx header nodeID r w w' response : send ctx header nodeID r w = (w', Ok response) →
  ∃ taskType params record w0, request_task r = Some (taskType, params) ∧ nodeID ≠ "" ∧ dpm_ID params ≠ "" ∧
    create_node_task cfg ctx header nodeID taskType (marshal_docker_params params) w0 = (w', Ok record) ∧
    tar_TaskId response = rec_TaskID record.
Proof.
  intros Hsend. destruct r as [id action|id force removeVolumes|id|name|id force]; cbn in Hsend |- *.
  { unfold RunContainerAction in Hsend. destruct (container_action action) as [[ty a]|]; [|by succeeded]. cbn.
    unfold createContainerTask in Hsend. case_decide; succeeded. naive_solver. }
  { unfold RemoveContainer, createContainerTask in Hsend. case_decide; succeeded. naive_solver. }
  all: unfold RemoveNetwork, RemoveVolume, RemoveImage, remove_object, createNodeDockerTask in Hsend.
  all: case_decide; [by succeeded|]; rewrite decide_False in Hsend by tauto; succeeded; naive_solver.
Qed.
(** The agent finds in the task the action, the object and the flags. *)
Lemma request_runs r taskType params : request_task r = Some (taskType, params) → dpm_ID params ≠ "" →
  ∃ action resource call message, wanted r = Some call ∧
    dockerTaskActionResource (ControllerProto.protoAgentTaskType taskType) = Some (action, resource) ∧
    runDockerMutation action resource (dpm_ID params) (default false (dpm_Force params))
      (default false (dpm_RemoveVolumes params)) = result_bind NewDockerClient (λ _, wrapped message (engine_call call)).
Proof.
  intros Hr Hne.
  destruct r as [id [| | |]|id force removeVolumes|id|name|id force]; cbn in Hr; try done; injection Hr as <- <-; cbn in Hne |- *;
    do 4 eexists; (split; [reflexivity|]; split; [reflexivity|]); unfold runDockerMutation;
    unfold DockerAgent.RunContainerAction, DockerAgent.RemoveContainer, DockerAgent.RemoveNetwork, DockerAgent.RemoveVolume,
      DockerAgent.RemoveImage, demand; repeat (case_decide; try done); reflexivity.
Qed.

(** C36: a request about a container, a network, a volume or an image that is
    granted leaves a pending task for the node it names, and whatever the
    agent that runs this task meets on its way, the one change it asks of the
    engine is the one that was requested. *)
Theorem docker_request_reaches_engine (Hdb : ∀ n db, env_db n db = db)
    (Hjson : ∀ p, marshal_docker_params p ≠ "" ∧
       decode_docker_params (marshal_docker_params p) =
         Ok (MkDockerTaskParams (dpm_ID p) (default false (dpm_Force p)) (default false (dpm_RemoveVolumes p))))
    ctx header nodeID r w w' response :
  send ctx header nodeID r w = (w', Ok response) →
  ∃ row call, tasks (w_db w') !! tar_TaskId response = Some row ∧
    tc_node_id (tk_core row) = Some nodeID ∧ tk_status row = StatusPending ∧ wanted r = Some call ∧
    ∀ pulledTask, at_Type pulledTask = ControllerProto.protoAgentTaskType (tc_type (tk_core row)) →
      at_ParamsJson pulledTask = default "" (tk_params_json row) →
      ∃ action resource id force removeVolumes message,
        every_op (only_asks (action, resource, id, force, removeVolumes)) (executeDockerTask pulledTask) ∧
        runDockerMutation action resource id force removeVolumes =
          result_bind NewDockerClient (λ _, wrapped message (engine_call call)).
Proof.
  intros (taskType & params & record & w0 & Hr & Hid & Hne & Hrun & Hresp)%send_Ok.
  destruct (create_node_task_Ok Hdb _ _ _ _ _ _ _ _ Hid Hrun) as (row & Hrow & Hnode & Hty & Hparams & Hstatus).
  destruct (request_runs r taskType params Hr Hne) as (action & resource & call & message & Hcall & Har & Hmutation).
  destruct (Hjson params) as [Hnonempty Hdecode]. exists row, call. rewrite Hresp. split_and!; try done.
  intros pulledTask Hpt Hpp. rewrite Hparams in Hpp. unfold nullableString in Hpp. rewrite decide_False in Hpp by done. cbn in Hpp.
  eexists _, _, _, _, _, _. split; [|exact Hmutation].
  apply (executeDockerTask_asks pulledTask action resource (MkDockerTaskParams (dpm_ID params) _ _)).
  unfold parseDockerTaskParams. rewrite Hpp, Hpt, Hty, Har, Hdecode. cbn. by rewrite !decide_False by done.
Qed.
End requests.

(** ** Instances *)
Section example.
#[local] Instance node_dns_state : DnsState := tunnel_state.
#[local] Instance node_git_state : GitState := tunnel_git_state.
#[local] Instance node_environment : Environment := tunnel_environment.
#[local] Instance node_git : GitCommand := tunnel_git.
#[local] Instance node_disk : Disk := disk_example.
#[local] Instance node_cron : Cron := cron_example.
#[local] Instance node_libraries : Libraries := libraries_example.
#[local] Instance node_params : ParamsJSON := params_example.
#[local] Instance node_decoder : MetaDecoder := λ content, Ok (
  if decide (content = "proxy")
  then MkMeta "proxy" "" [] None ["n1"] (Some (MkInfraConfig (Some (MkInfraCaddyConfig "caddy" "")) None false)) None None None None None None
  else if decide (content = "backup")
  then MkMeta "backup" "" [] None ["n1"] (Some (MkInfraConfig None (Some (MkInfraRusticConfig "rustic" "" "" [])) false)) None None None None None None
  else MkMeta "web" "" [] None ["n1"; "n2"] None None None
         (Some [MkDataProtectItem "files" (Some (MkDataActionConfig "files.copy" "" "" ["./data"])) None])
         (Some [MkBackupItem "files" "rustic" None ""]) None None).
(** Three nodes that are online; one of them is disabled. *)
Definition node_controller : ControllerConfig :=
  MkControllerConfig ":8080" "/repo" "/state" "/log" None None None
    (Some [MkNodeConfig "n1" "" None "" "" "t1"; MkNodeConfig "n2" "" (Some true) "" "" "t2"; MkNodeConfig "n3" "" (Some false) "" "" "t3"])
    [] None None None None None.
Definition node_row : NodeRow := MkNodeRow true true (Some 0%Z) None None None None.
Definition node_files : RepoFiles.FS :=
  {[ [] := FDir; ["backup"] := FDir; ["backup"; MetaFileName] := FFile "backup"; ["proxy"] := FDir; ["proxy"; MetaFileName] := FFile "proxy";
     ["web"] := FDir; ["web"; MetaFileName] := FFile "web" ]}.
Definition node_world : World :=
  MkWorld (SyncDeclaredServices (sec 1000) [("backup", ["n1"]); ("proxy", ["n1"]); ("web", ["n1"; "n2"])]
             (set_nodes {["n1" := node_row; "n2" := node_row; "n3" := node_row]} empty_db)) None empty_images
    (MkRepoTree node_files ()) ((∅, ∅) : dns_state) [] 0.
Definition node_ids : gset string := configuredNodeIDs node_controller.

Lemma node_actions_match_capabilities_witness :
  (ReloadNodeCaddy node_controller (Some "admin") "web" "n1" node_world).2 = Ok "uuid" ∧
  (let caps := buildNodeActionCapabilities node_controller (rt_entries (w_tree node_world)) node_ids
                 (snapshot_map (ListNodeSnapshots (w_db node_world))) "n1" in
   agrees (nac_RusticMaintenance caps) (PruneNodeRustic node_controller (Some "admin") "web" "n1" "web" "files") node_world).
Proof.
  split; [by vm_compute|].
  refine (proj1 (proj2 (proj2 (proj2 (node_actions_match_capabilities node_controller _ _ (Some "admin") "web" "n1" "web" "files"
            node_world _ _))))).
  - done.
  - intros fs g. by eexists.
  - done.
  - by vm_compute.
Defined.

(** The capability of a backup asks that the nodes of the service are online,
    the action that rustic runs on each of them. *)
Example backup_capability_ignores_rustic_nodes :
  let entries := rt_entries (w_tree node_world) in
  match FindService (cc_RepoDir node_controller) entries node_ids "web" with
  | Ok service => cap_Enabled (serviceBackupCapability node_controller entries node_ids
                                 (snapshot_map (ListNodeSnapshots (w_db node_world))) service)
  | Err _ => false
  end = true ∧
  (check_backup_nodes node_controller node_ids TypeBackup ["n1"; "n2"] node_world).2 =
    Err (NewError CodeFailedPrecondition "rustic infra service is not declared on node").
Proof. by vm_compute. Qed.
(** Pruning the objects of Docker asks only whether the node is online; the
    other Docker tasks are refused on a disabled node. *)
Example prune_ignores_disabled_node :
  (PruneNodeDocker node_controller (Some "admin") "web" "n3" "images" node_world).2 = Ok "uuid" ∧
  (validateTaskTargetNode node_controller "n3" TypePrune node_world).2 =
    Err (NewError CodeFailedPrecondition "node is disabled").
Proof. by vm_compute. Qed.

(** A backup of a service that no longer protects any data: restoring it
    follows a nil pointer, although the capability says it is not possible. *)
Definition backed_up : World :=
  set_db (set_backups {["b1" := MkBackupRow "t1" "proxy" "n1" "files" StatusSucceeded "" None (Some "snapshot") None]}
            (w_db node_world)) node_world.
Example restore_without_data_protect_panics :
  (RestoreBackup node_controller node_ids "web" "b1" "n1" backed_up).2 =
    Err (NewError CodeUnknown "invalid memory address or nil pointer dereference") ∧
  match (GetBackup_handler node_controller node_ids "b1" backed_up).2 with
  | Ok (_, capability) => cap_Enabled capability
  | Err _ => true
  end = false.
Proof. by vm_compute. Qed.

#[local] Instance node_docker_json : DockerParamsJSON := λ p,
  String "#" (bits (encode (dpm_Action p, dpm_Resource p, dpm_ID p, dpm_Force p, dpm_RemoveVolumes p))).
#[local] Instance node_agent : AgentLibraries :=
  {| decode_compose_config _ := Err "json"; decode_containers _ := Err "json"; decode_strings _ := Err "json";
     decode_backup_config _ := Err "json"; decode_restore_config _ := Err "json"; decode_prune_target _ := Err "json";
     decode_rustic_params _ := Err "json"; find_snapshot _ := None; sha256_hex := id; read_archive _ := ([], Ok ());
     decode_docker_params s :=
       match s with
       | String _ s =>
           match decode (A := string * string * string * option bool * option bool) (of_bits s) with
           | Some (_, _, id, force, removeVolumes) => Ok (MkDockerTaskParams id (default false force) (default false removeVolumes))
           | None => Err "json"
           end
       | "" => Err "json"
       end |}.
#[local] Instance node_state : StateJSON := run_state.
#[local] Instance node_resolver : PathResolver := resolver_example.
#[local] Instance node_docker : DockerJSON := agent_json.
#[local] Instance node_engine : DockerEngine := an_engine.
Definition removal : DockerRequest := AskRemoveContainer "c1" true false.
Definition removed : World * result ConnectError TaskActionResponse :=
  send node_controller (Some "admin") "web" "n2" removal node_world.
Lemma removed_answer : removed.2 = Ok (MkTaskActionResponse "uuid" TASK_STATUS_PENDING "").
Proof. by vm_compute. Qed.
Lemma removed_run :
  send node_controller (Some "admin") "web" "n2" removal node_world = (removed.1, Ok (MkTaskActionResponse "uuid" TASK_STATUS_PENDING "")).
Proof. rewrite <-removed_answer. unfold removed. apply surjective_pairing. Qed.
Lemma docker_request_reaches_engine_witness :
  ∃ row, tasks (w_db removed.1) !! "uuid" = Some row ∧ tc_node_id (tk_core row) = Some "n2" ∧ tk_status row = StatusPending.
Proof.
  destruct (docker_request_reaches_engine (H1 := node_environment) node_controller) with
    (ctx := Some "admin") (header := "web") (nodeID := "n2") (r := removal) (w := node_world) (w' := removed.1)
    (response := MkTaskActionResponse "uuid" TASK_STATUS_PENDING "") as (row & call & H1 & H2 & H3 & _).
  - done.
  - intros p. split; [done|]. cbn. by rewrite of_bits_bits, decode_encode.
  - exact removed_run.
  - by exists row.
Defined.
End example.
