(* ===== verification/ExecSessions.v ===== *)
(** * Terminals in containers, on the controller
    (src/internal/app/controller/exec_tunnel.go)

    The agent of a node keeps a tunnel open; a client opens a session of a
    container and attaches a browser to it through a WebSocket, with a token
    that works once.  The manager is shared under its lock: each of its
    methods is one step.  Sending on a closed channel, and closing one again,
    would be a panic ([em_panicked]).  A session or a tunnel stays in memory
    as long as somebody holds a pointer to it, so the objects are kept apart
    from the maps of the manager that name them. *)
From S2P Require Export Controller DockerHandlers.

(** ** Messages *)
Definition execKindStart : string := "start".
Definition execKindStdin : string := "stdin".
Definition execKindResize : string := "resize".
Definition execKindClose : string := "close".
Definition execKindReady : string := "ready".
Definition execKindOutput : string := "output".
Definition execKindError : string := "error".
Definition execKindClosed : string := "closed".
Definition execAttachTokenTTL : Z := Time.Minute.
Definition defaultExecShell : string := "/bin/sh".
Definition ControllerExecWSPath : string := "/api/controller/ws/container-exec/".

(** [agentv1.OpenExecTunnelResponse], to the agent, and
    [agentv1.OpenExecTunnelRequest], from it. *)
Record ToAgent := MkToAgent {
  ta_SessionId : string;
  ta_Kind : string;
  ta_ContainerId : string;
  ta_Command : list string;
  ta_Rows : Z;
  ta_Cols : Z;
  ta_Payload : string;
}.
Record FromAgent := MkFromAgent { fa_SessionId : string; fa_Kind : string; fa_Payload : string }.
#[export] Instance FromAgent_eq_dec : EqDecision FromAgent.
Proof. solve_decision. Defined.
Definition close_message (sessionID : string) : ToAgent := MkToAgent sessionID execKindClose "" [] 0 0 "".

(** ** The manager *)
Record agentExecTunnel := MkTunnel { tn_nodeID : string; tn_sendCh : Chan ToAgent }.
Record execSession := MkSession {
  xs_nodeID : string;
  xs_containerID : string;
  xs_command : list string;
  xs_rows : Z;
  xs_cols : Z;
  xs_incoming : Chan FromAgent;
  xs_createdAt : Time.time;
  xs_browserTaken : bool;
  xs_browserAttaching : bool;
  xs_closed : bool;
  xs_attachToken : string;
  xs_attachExpiresAt : Time.time;
  xs_allowedOrigin : string;
  xs_createdBy : string;
}.
Definition xs_set (incoming : Chan FromAgent) (taken attaching closed : bool) (token : string) (s : execSession) : execSession :=
  MkSession (xs_nodeID s) (xs_containerID s) (xs_command s) (xs_rows s) (xs_cols s) incoming (xs_createdAt s) taken
    attaching closed token (xs_attachExpiresAt s) (xs_allowedOrigin s) (xs_createdBy s).
Definition set_incoming (c : Chan FromAgent) (s : execSession) : execSession :=
  xs_set c (xs_browserTaken s) (xs_browserAttaching s) (xs_closed s) (xs_attachToken s) s.
Definition set_attaching (attaching : bool) (s : execSession) : execSession :=
  xs_set (xs_incoming s) (xs_browserTaken s) attaching (xs_closed s) (xs_attachToken s) s.

(** The objects, and the maps of the manager: [em_tunnels] and [em_sessions]
    name the objects; a session is named by its identifier. *)
Record execTunnelManager := MkManager {
  em_tunnelObjects : gmap nat agentExecTunnel;
  em_sessionObjects : gmap string execSession;
  em_tunnels : gmap string nat;
  em_sessions : gset string;
  em_attachTokens : gmap string string;
  em_panicked : bool;
}.
Definition newExecTunnelManager : execTunnelManager := MkManager ∅ ∅ ∅ ∅ ∅ false.
Definition em_set_tunnel (tid : nat) (t : agentExecTunnel) (m : execTunnelManager) : execTunnelManager :=
  MkManager (<[tid := t]> (em_tunnelObjects m)) (em_sessionObjects m) (em_tunnels m) (em_sessions m) (em_attachTokens m)
    (em_panicked m).
Definition em_set_session (id : string) (s : execSession) (m : execTunnelManager) : execTunnelManager :=
  MkManager (em_tunnelObjects m) (<[id := s]> (em_sessionObjects m)) (em_tunnels m) (em_sessions m) (em_attachTokens m)
    (em_panicked m).
Definition em_set_tunnels (tunnels : gmap string nat) (m : execTunnelManager) : execTunnelManager :=
  MkManager (em_tunnelObjects m) (em_sessionObjects m) tunnels (em_sessions m) (em_attachTokens m) (em_panicked m).
Definition em_set_sessions (sessions : gset string) (m : execTunnelManager) : execTunnelManager :=
  MkManager (em_tunnelObjects m) (em_sessionObjects m) (em_tunnels m) sessions (em_attachTokens m) (em_panicked m).
Definition em_set_tokens (tokens : gmap string string) (m : execTunnelManager) : execTunnelManager :=
  MkManager (em_tunnelObjects m) (em_sessionObjects m) (em_tunnels m) (em_sessions m) tokens (em_panicked m).
Definition em_panic (m : execTunnelManager) : execTunnelManager :=
  MkManager (em_tunnelObjects m) (em_sessionObjects m) (em_tunnels m) (em_sessions m) (em_attachTokens m) true.

(** The session of the map, if the map has it. *)
Definition live_session (id : string) (m : execTunnelManager) : option execSession :=
  if decide (id ∈ em_sessions m) then em_sessionObjects m !! id else None.
(** The tunnel of a node: [manager.tunnels[nodeID]]. *)
Definition node_tunnel (nodeID : string) (m : execTunnelManager) : option (nat * agentExecTunnel) :=
  match em_tunnels m !! nodeID with
  | Some tid => pair tid <$> em_tunnelObjects m !! tid
  | None => None
  end.
(** A message for the tunnel of a node: whether it was taken, and [None]
    without a tunnel. *)
Definition send_to_node (nodeID : string) (message : ToAgent) (m : execTunnelManager) : execTunnelManager * option bool :=
  match node_tunnel nodeID m with
  | None => (m, None)
  | Some (tid, t) =>
      match try_send message (tn_sendCh t) with
      | None => (em_panic m, Some false)
      | Some (c, sent) => (em_set_tunnel tid (MkTunnel (tn_nodeID t) c) m, Some sent)
      end
  end.

Definition close_tunnel (tid : nat) (m : execTunnelManager) : execTunnelManager :=
  match em_tunnelObjects m !! tid with
  | None => m
  | Some t => match close_chan (tn_sendCh t) with
              | None => em_panic m
              | Some c => em_set_tunnel tid (MkTunnel (tn_nodeID t) c) m
              end
  end.

(** *** Sessions *)
(** [session.deliver], under the lock of the session. *)
Definition deliver (id : string) (message : FromAgent) (m : execTunnelManager) : execTunnelManager * bool :=
  match em_sessionObjects m !! id with
  | None => (m, false)
  | Some s =>
      if xs_closed s then (m, false)
      else match try_send message (xs_incoming s) with
           | None => (em_panic m, false)
           | Some (c, sent) => (em_set_session id (set_incoming c s) m, sent)
           end
  end.
(** [session.close] and [browserAttaching = false], [attachToken = ""]. *)
Definition closed_session (s : execSession) : option execSession :=
  (λ c, xs_set c (xs_browserTaken s) false true "" s) <$> close_chan (xs_incoming s).
Definition closeSessionLocked (id : string) (m : execTunnelManager) : execTunnelManager :=
  match live_session id m with
  | None => m
  | Some s =>
      if xs_closed s then m
      else match closed_session s with
           | None => em_panic m
           | Some s' =>
               let tokens := if decide (xs_attachToken s = "") then em_attachTokens m
                             else delete (xs_attachToken s) (em_attachTokens m) in
               let m := em_set_sessions (em_sessions m ∖ {[id]}) (em_set_tokens tokens (em_set_session id s' m)) in
               (send_to_node (xs_nodeID s) (close_message id) m).1
           end
  end.
(** A session nobody attached to in time. *)
Definition expired (now : Time.time) (s : execSession) : bool :=
  negb (xs_closed s || xs_browserTaken s || xs_browserAttaching s || bool_decide (xs_attachToken s = "")) &&
  bool_decide (xs_attachExpiresAt s ≤ now)%Z.
(** [order]: how the map is ranged over. *)
Definition sweep_one (now : Time.time) (m : execTunnelManager) (id : string) : execTunnelManager :=
  match live_session id m with
  | Some s => if expired now s then closeSessionLocked id m else m
  | None => m
  end.
Definition sweepExpiredSessionsLocked (now : Time.time) (order : list string) (m : execTunnelManager) : execTunnelManager :=
  foldl (sweep_one now) m order.

(** *** Tunnels *)
Definition registerTunnel (nodeID : string) (m : execTunnelManager) : execTunnelManager * nat :=
  let tid := size (em_tunnelObjects m) in
  let previous := em_tunnels m !! nodeID in
  let m := em_set_tunnels (<[nodeID := tid]> (em_tunnels m)) (em_set_tunnel tid (MkTunnel nodeID make_chan) m) in
  (match previous with Some old => close_tunnel old m | None => m end, tid).
Definition close_of_node (nodeID : string) (m : execTunnelManager) (id : string) : execTunnelManager :=
  match live_session id m with
  | Some s => if decide (xs_nodeID s = nodeID) then closeSessionLocked id m else m
  | None => m
  end.
Definition unregisterTunnel (nodeID : string) (tid : nat) (order : list string) (m : execTunnelManager) : execTunnelManager :=
  if decide (em_tunnels m !! nodeID = Some tid) then
    foldl (close_of_node nodeID) (close_tunnel tid (em_set_tunnels (delete nodeID (em_tunnels m)) m)) order
  else m.

(** *** Operations: [order] and [now] of the sweep each begins with *)
Definition hasTunnel (nodeID : string) (now : Time.time) (order : list string) (m : execTunnelManager)
    : execTunnelManager * bool :=
  let m := sweepExpiredSessionsLocked now order m in
  (m, bool_decide (is_Some (em_tunnels m !! nodeID))).

(** [attachToken] and [id] are the identifiers it draws, [later] the second
    reading of the clock. *)
Definition openSession (nodeID containerID : string) (command : list string) (rows cols : Z)
    (allowedOrigin createdBy : string) (now : Time.time) (order : list string) (later : Time.time) (attachToken id : string)
    (m : execTunnelManager) : execTunnelManager * result string (string * string) :=
  let m := sweepExpiredSessionsLocked now order m in
  match node_tunnel nodeID m with
  | None => (m, Err "node has no active exec tunnel")
  | Some _ =>
      let s := MkSession nodeID containerID command rows cols make_chan later false false false attachToken
                 (later + execAttachTokenTTL)%Z allowedOrigin createdBy in
      let m := em_set_tokens (<[attachToken := id]> (em_attachTokens m))
                 (em_set_sessions ({[id]} ∪ em_sessions m) (em_set_session id s m)) in
      let '(m, sent) := send_to_node nodeID (MkToAgent id execKindStart containerID command rows cols "") m in
      if decide (sent = Some true) then (m, Ok (id, attachToken))
      else (closeSessionLocked id m, Err "node exec tunnel is not accepting messages")
  end.

Definition sendToSessionNode (sessionID : string) (message : ToAgent) (now : Time.time) (order : list string)
    (m : execTunnelManager) : execTunnelManager * result string () :=
  let m := sweepExpiredSessionsLocked now order m in
  match live_session sessionID m with
  | None => (m, Err "session is closed")
  | Some s =>
      if xs_closed s then (m, Err "session is closed")
      else match send_to_node (xs_nodeID s) message m with
           | (m, None) => (m, Err "node tunnel is unavailable")
           | (m, Some true) => (m, Ok ())
           | (m, Some false) => (closeSessionLocked sessionID m, Err "node exec tunnel is not accepting messages")
           end
  end.

Definition lookupSession (sessionID : string) (now : Time.time) (order : list string) (m : execTunnelManager)
    : execTunnelManager * bool :=
  let m := sweepExpiredSessionsLocked now order m in
  (m, bool_decide (is_Some (live_session sessionID m))).

Definition sessionForAttachTokenLocked (attachToken : string) (now : Time.time) (m : execTunnelManager)
    : execTunnelManager * result string (string * execSession) :=
  let sessionID := default "" (em_attachTokens m !! attachToken) in
  if decide (sessionID = "") then (m, Err "exec attach token not found")
  else match live_session sessionID m with
  | None => (em_set_tokens (delete attachToken (em_attachTokens m)) m, Err "session is closed")
  | Some s =>
      if xs_closed s then (em_set_tokens (delete attachToken (em_attachTokens m)) m, Err "session is closed")
      else if decide (xs_attachToken s ≠ attachToken) then (m, Err "session attach token mismatch")
      else if decide (xs_attachExpiresAt s ≤ now)%Z then (closeSessionLocked sessionID m, Err "session attach token expired")
      else (m, Ok (sessionID, s))
  end.
Definition reserveSessionAttach (attachToken : string) (now : Time.time) (order : list string) (later : Time.time)
    (m : execTunnelManager) : execTunnelManager * result string string :=
  let m := sweepExpiredSessionsLocked now order m in
  match sessionForAttachTokenLocked attachToken later m with
  | (m, Err e) => (m, Err e)
  | (m, Ok (id, s)) =>
      if xs_browserTaken s || xs_browserAttaching s then (m, Err "session is already attached")
      else (em_set_session id (set_attaching true s) m, Ok id)
  end.
Definition confirmSessionAttach (attachToken : string) (now : Time.time) (order : list string) (later : Time.time)
    (m : execTunnelManager) : execTunnelManager * result string string :=
  let m := sweepExpiredSessionsLocked now order m in
  match sessionForAttachTokenLocked attachToken later m with
  | (m, Err e) => (m, Err e)
  | (m, Ok (id, s)) =>
      if xs_browserTaken s then (m, Err "session is already attached")
      else if negb (xs_browserAttaching s) then (m, Err "session is not awaiting attach")
      else (em_set_tokens (delete attachToken (em_attachTokens m))
              (em_set_session id (xs_set (xs_incoming s) true false (xs_closed s) "" s) m), Ok id)
  end.
Definition releaseSessionAttach (attachToken : string) (now : Time.time) (order : list string) (later : Time.time)
    (m : execTunnelManager) : execTunnelManager :=
  let m := sweepExpiredSessionsLocked now order m in
  match sessionForAttachTokenLocked attachToken later m with
  | (m, Err _) => m
  | (m, Ok (id, s)) => if xs_browserTaken s then m else em_set_session id (set_attaching false s) m
  end.
(** [checkOrigin]; [origin] is the header of the request, normalised. *)
Definition checkOrigin (origin : result string string) (attachToken : string) (now : Time.time) (order : list string)
    (later : Time.time) (m : execTunnelManager) : execTunnelManager * bool :=
  match origin with
  | Err _ => (m, false)
  | Ok origin =>
      if decide (attachToken = "") then (m, false)
      else
        let m := sweepExpiredSessionsLocked now order m in
        match sessionForAttachTokenLocked attachToken later m with
        | (m, Err _) => (m, false)
        | (m, Ok (_, s)) => (m, bool_decide (origin = xs_allowedOrigin s))
        end
  end.

(** ** Paths and origins *)
Definition trim_slashes (s : string) : string :=
  let left s := trim_left ["/"] (String.length s) s in String.rev (left (String.rev (left s))).
Definition execAttachTokenFromPath (path : string) : string :=
  let attachToken := trim_slashes (TrimPrefix path ControllerExecWSPath) in
  if decide (TrimSpace attachToken = "") then "" else attachToken.
(** [url.Parse] of a text, and the fields of the URL that are read. *)
Record OriginURL := MkOriginURL {
  ou_Scheme : string;
  ou_Host : string;
  ou_HasUser : bool;
  ou_Path : string;
  ou_RawQuery : string;
  ou_Fragment : string;
}.
Class OriginURLs := parse_origin : string → option OriginURL.
Definition normalizeOrigin `{OriginURLs} (raw : string) : result string string :=
  match parse_origin (TrimSpace raw) with
  | None => Err "parse"
  | Some u =>
      if decide (ou_Scheme u = "" ∨ ou_Host u = "") then Err "origin must include scheme and host"
      else if decide (ou_HasUser u = true ∨ (ou_Path u ≠ "" ∧ ou_Path u ≠ "/") ∨ ou_RawQuery u ≠ "" ∨ ou_Fragment u ≠ "")
      then Err "origin must not include path, query, or fragment"
      else Ok (ToLower (ou_Scheme u) +:+ "://" +:+ ToLower (ou_Host u))
  end.

(** ** The request of a client *)
(** [openExecSession]; the values of the clock, the orders of the sweeps and
    the identifiers are those of [hasTunnel] and [openSession].  An error of
    [openSession] is a plain one. *)
Definition openExecSession (allowedOrigin : string) (ctx : option string) (nodeID containerID : string)
    (command : list string) (rows cols : Z) (now : Time.time) (order : list string) (now' : Time.time) (order' : list string)
    (later : Time.time) (attachToken id : string) (m : execTunnelManager)
    : execTunnelManager * result ConnectError (string * string) :=
  if decide (TrimSpace allowedOrigin = "") then (m, Err (NewError CodeInvalidArgument "X-Composia-Web-Origin is required"))
  else match BearerSubject ctx with
  | None => (m, Err (NewError CodeUnauthenticated "missing bearer subject"))
  | Some createdBy =>
      if decide (TrimSpace createdBy = "") then (m, Err (NewError CodeUnauthenticated "missing bearer subject"))
      else
        let '(m, has) := hasTunnel nodeID now order m in
        if negb has then (m, Err (NewError CodeFailedPrecondition "node has no active exec tunnel"))
        else
          let '(m, r) := openSession nodeID containerID command rows cols (TrimSpace allowedOrigin) createdBy now' order' later
                           attachToken id m in
          (m, match r with Ok s => Ok s | Err e => Err (NewError CodeUnknown e) end)
  end.
Record OpenContainerExecRequest := MkOpenContainerExecRequest {
  oe_NodeId : string;
  oe_ContainerId : string;
  oe_Command : list string;
  oe_Rows : Z;
  oe_Cols : Z;
}.
Section requests.
Context `{DnsState} `{GitState} `{!Environment} `{OriginURLs}.
(** What [OpenContainerExec] asks before it opens the session: the origin. *)
Definition exec_request_checks (cfg : ControllerConfig) (header : string) (req : OpenContainerExecRequest) : M string :=
  if decide (oe_NodeId req = "" ∨ oe_ContainerId req = "")
  then fail (NewError CodeInvalidArgument "node_id and container_id are required")
  else allowedOrigin ← lift (with_code CodeInvalidArgument (normalizeOrigin header));
       _ ← validateTaskTargetNode cfg (oe_NodeId req) TypeDockerStart;
       mret allowedOrigin.
Definition OpenContainerExec (cfg : ControllerConfig) (ctx : option string) (header : string) (req : OpenContainerExecRequest)
    (now : Time.time) (order : list string) (now' : Time.time) (order' : list string) (later : Time.time)
    (attachToken id : string) (m : execTunnelManager) (w : World)
    : World * execTunnelManager * result ConnectError (string * string) :=
  match exec_request_checks cfg header req w with
  | (w, Err e) => (w, m, Err e)
  | (w, Ok allowedOrigin) =>
      let command := if decide (oe_Command req = []) then [defaultExecShell] else oe_Command req in
      match openExecSession allowedOrigin ctx (oe_NodeId req) (oe_ContainerId req) command (oe_Rows req) (oe_Cols req)
              now order now' order' later attachToken id m with
      | (m, Ok (sessionID, token)) => (w, m, Ok (sessionID, ControllerExecWSPath +:+ token))
      | (m, Err e) => (w, m, Err e)
      end
  end.
End requests.

(** ** What a browser writes and is shown *)
Inductive BrowserFrame := BinaryFrame (payload : string) | TextFrame (payload : string).
Record execWSControlMessage := MkControl { cm_Type : string; cm_Rows : Z; cm_Cols : Z }.
(** [json.Unmarshal] of a text into a control message. *)
Class ControlJSON := decode_control : string → option execWSControlMessage.
(** [readBrowserMessages], for one message: what goes to the node, or [None]
    when the browser closes the session. *)
Definition readBrowserMessages `{ControlJSON} (sessionID : string) (frame : BrowserFrame) : option ToAgent :=
  let stdin payload := MkToAgent sessionID execKindStdin "" [] 0 0 payload in
  match frame with
  | BinaryFrame payload => Some (stdin payload)
  | TextFrame payload =>
      match decode_control payload with
      | Some control =>
          if decide (cm_Type control = "") then Some (stdin payload)
          else if decide (cm_Type control = execKindResize)
          then Some (MkToAgent sessionID execKindResize "" [] (cm_Rows control) (cm_Cols control) "")
          else if decide (cm_Type control = execKindClose) then None
          else Some (stdin payload)
      | None => Some (stdin payload)
      end
  end.
(** [forwardAgentMessageToBrowser], for a message of the channel; [written]:
    whether the browser took it. *)
Definition forwardAgentMessageToBrowser (written : bool) (message : FromAgent) : bool :=
  if decide (fa_Kind message = execKindOutput ∨ fa_Kind message = execKindError) then written
  else negb (bool_decide (fa_Kind message = execKindClosed)).

(** ** The goroutines *)
(** A request to attach a browser, [handleWebsocket]: the identifier of the
    session stands for the pointer the handler holds. *)
Inductive Browser :=
| WsStart (attachToken : string) (origin : result string string)
| WsReserved (attachToken : string) (origin : result string string) (id : string)
| WsChecked (attachToken : string) (origin : result string string) (id : string)
| WsRejected (attachToken : string) (id : string)
| WsAttached (id : string) (origin : result string string) (at_ : Time.time)
| WsClosing (id : string) (origin : result string string) (at_ : Time.time)
| WsDone (attached : option (string * result string string * Time.time)).
Definition handleWebsocket `{OriginURLs} (path origin : string) : Browser :=
  if decide (execAttachTokenFromPath path = "") then WsDone None
  else WsStart (execAttachTokenFromPath path) (normalizeOrigin origin).
(** The receiver of a tunnel: between two messages, with the session of a
    message it looked up, or about to close one that took no message. *)
Inductive Receiver :=
| RcvIdle
| RcvFound (message : FromAgent)
| RcvFailed (message : FromAgent).
Record TunnelHandler := MkHandler { th_nodeID : string; th_open : bool; th_receiver : Receiver }.

(** [es_sent] are the messages the receivers got for sessions that were
    opened, with the tunnel they came through, [es_delivered] those that
    were put into the channel of a session, [es_consumed] those a browser
    took out. *)
Record ExecSystem := MkExecSystem {
  es_clock : Time.time;
  es_manager : execTunnelManager;
  es_ids : gset string;
  es_handlers : gmap nat TunnelHandler;
  es_browsers : gmap nat Browser;
  es_sent : list (nat * FromAgent);
  es_delivered : list (nat * FromAgent);
  es_consumed : list FromAgent;
}.
Definition es_start (t : Time.time) : ExecSystem := MkExecSystem t newExecTunnelManager ∅ ∅ ∅ [] [] [].
Definition es_set_manager (m : execTunnelManager) (s : ExecSystem) : ExecSystem :=
  MkExecSystem (es_clock s) m (es_ids s) (es_handlers s) (es_browsers s) (es_sent s) (es_delivered s) (es_consumed s).
Definition es_set_clock (t : Time.time) (s : ExecSystem) : ExecSystem :=
  MkExecSystem t (es_manager s) (es_ids s) (es_handlers s) (es_browsers s) (es_sent s) (es_delivered s) (es_consumed s).
Definition es_draw (ids : gset string) (s : ExecSystem) : ExecSystem :=
  MkExecSystem (es_clock s) (es_manager s) (ids ∪ es_ids s) (es_handlers s) (es_browsers s) (es_sent s) (es_delivered s)
    (es_consumed s).
Definition es_set_handler (tid : nat) (h : TunnelHandler) (s : ExecSystem) : ExecSystem :=
  MkExecSystem (es_clock s) (es_manager s) (es_ids s) (<[tid := h]> (es_handlers s)) (es_browsers s) (es_sent s)
    (es_delivered s) (es_consumed s).
Definition es_set_browser (i : nat) (b : Browser) (s : ExecSystem) : ExecSystem :=
  MkExecSystem (es_clock s) (es_manager s) (es_ids s) (es_handlers s) (<[i := b]> (es_browsers s)) (es_sent s)
    (es_delivered s) (es_consumed s).
Definition es_log (sent delivered : list (nat * FromAgent)) (consumed : list FromAgent) (s : ExecSystem) : ExecSystem :=
  MkExecSystem (es_clock s) (es_manager s) (es_ids s) (es_handlers s) (es_browsers s) (es_sent s ++ sent)
    (es_delivered s ++ delivered) (es_consumed s ++ consumed).

(** A range over the sessions of the manager, in any order. *)
Definition ranges (order : list string) (m : execTunnelManager) : Prop := order ≡ₚ elements (em_sessions m).

(** A step of the handler of a browser, with what it took of the channel.  The
    upgrade of the connection may fail before it looks at the origin and
    after. *)
Inductive browser_step (now : Time.time) (order : list string) (later : Time.time) (m : execTunnelManager)
    : Browser → execTunnelManager → Browser → list FromAgent → Prop :=
| BReserve token origin m' r : reserveSessionAttach token now order later m = (m', r) →
    browser_step now order later m (WsStart token origin) m'
      (match r with Ok id => WsReserved token origin id | Err _ => WsDone None end) []
| BCheck token origin id m' ok : checkOrigin origin token now order later m = (m', ok) →
    browser_step now order later m (WsReserved token origin id) m'
      (if ok then WsChecked token origin id else WsRejected token id) []
| BNoUpgrade token origin id :
    browser_step now order later m (WsReserved token origin id) m (WsRejected token id) []
| BUpgradeFails token origin id :
    browser_step now order later m (WsChecked token origin id) m (WsRejected token id) []
| BRelease token id :
    browser_step now order later m (WsRejected token id) (releaseSessionAttach token now order later m) (WsDone None) []
| BConfirm token origin id m' r : confirmSessionAttach token now order later m = (m', r) →
    browser_step now order later m (WsChecked token origin id) m'
      (match r with Ok id => WsAttached id origin later | Err _ => WsDone None end) []
| BForward id origin at_ s message rest written : em_sessionObjects m !! id = Some s →
    receive_chan (xs_incoming s) = Value message rest →
    browser_step now order later m (WsAttached id origin at_) (em_set_session id (set_incoming rest s) m)
      (if forwardAgentMessageToBrowser written message then WsAttached id origin at_ else WsClosing id origin at_)
      [message]
| BEnded id origin at_ s : em_sessionObjects m !! id = Some s → receive_chan (xs_incoming s) = ClosedChan →
    browser_step now order later m (WsAttached id origin at_) m (WsClosing id origin at_) []
| BLeave id origin at_ : browser_step now order later m (WsAttached id origin at_) m (WsClosing id origin at_) []
| BFinish id origin at_ :
    browser_step now order later m (WsClosing id origin at_) (closeSessionLocked id m) (WsDone (Some (id, origin, at_))) [].

(** The session a browser is, or was, attached to; its reader may still send
    what the browser wrote. *)
Definition attached (b : Browser) : option (string * result string string * Time.time) :=
  match b with
  | WsAttached id origin at_ | WsClosing id origin at_ => Some (id, origin, at_)
  | WsDone a => a
  | _ => None
  end.

(** The steps of the whole; the clock is read at most twice in one. *)
Inductive exec_step `{OriginURLs, ControlJSON} (s : ExecSystem) : ExecSystem → Prop :=
| StepTime t : (es_clock s ≤ t)%Z → exec_step s (es_set_clock t s)
| StepRegister nodeID m' tid : registerTunnel nodeID (es_manager s) = (m', tid) →
    exec_step s (es_set_handler tid (MkHandler nodeID true RcvIdle) (es_set_manager m' s))
| StepTake tid h t message rest : es_handlers s !! tid = Some h → th_open h = true →
    em_tunnelObjects (es_manager s) !! tid = Some t → receive_chan (tn_sendCh t) = Value message rest →
    exec_step s (es_set_manager (em_set_tunnel tid (MkTunnel (tn_nodeID t) rest) (es_manager s)) s)
| StepLeave tid h order : es_handlers s !! tid = Some h → th_open h = true → ranges order (es_manager s) →
    exec_step s (es_set_handler tid (MkHandler (th_nodeID h) false (th_receiver h))
                   (es_set_manager (unregisterTunnel (th_nodeID h) tid order (es_manager s)) s))
| StepMessage tid h message order m' found : es_handlers s !! tid = Some h → th_receiver h = RcvIdle →
    ranges order (es_manager s) → lookupSession (fa_SessionId message) (es_clock s) order (es_manager s) = (m', found) →
    exec_step s (es_log (if decide (is_Some (em_sessionObjects m' !! fa_SessionId message)) then [(tid, message)] else []) [] []
      (es_set_handler tid (MkHandler (th_nodeID h) (th_open h) (if found then RcvFound message else RcvIdle))
        (es_set_manager m' s)))
| StepDeliver tid h message m' (done : bool) : es_handlers s !! tid = Some h → th_receiver h = RcvFound message →
    deliver (fa_SessionId message) message (es_manager s) = (m', done) →
    exec_step s (es_log [] (if done then [(tid, message)] else []) []
      (es_set_handler tid (MkHandler (th_nodeID h) (th_open h) (if done then RcvIdle else RcvFailed message))
        (es_set_manager m' s)))
| StepRefused tid h message : es_handlers s !! tid = Some h → th_receiver h = RcvFailed message →
    exec_step s (es_set_handler tid (MkHandler (th_nodeID h) (th_open h) RcvIdle)
                   (es_set_manager (closeSessionLocked (fa_SessionId message) (es_manager s)) s))
| StepOpen nodeID containerID command rows cols allowedOrigin createdBy order later token id m' r :
    ranges order (es_manager s) → (es_clock s ≤ later)%Z → token ≠ "" → id ≠ "" → token ∉ es_ids s → id ∉ es_ids s →
    openSession nodeID containerID command rows cols allowedOrigin createdBy (es_clock s) order later token id
      (es_manager s) = (m', r) →
    exec_step s (es_draw {[token; id]} (es_set_clock later (es_set_manager m' s)))
| StepHas nodeID order m' b : ranges order (es_manager s) →
    hasTunnel nodeID (es_clock s) order (es_manager s) = (m', b) → exec_step s (es_set_manager m' s)
| StepSweep order : ranges order (es_manager s) →
    exec_step s (es_set_manager (sweepExpiredSessionsLocked (es_clock s) order (es_manager s)) s)
| StepBrowser i path origin : es_browsers s !! i = None → exec_step s (es_set_browser i (handleWebsocket path origin) s)
| StepHandler i b order later m' b' taken : es_browsers s !! i = Some b → ranges order (es_manager s) →
    (es_clock s ≤ later)%Z → browser_step (es_clock s) order later (es_manager s) b m' b' taken →
    exec_step s (es_log [] [] taken (es_set_browser i b' (es_set_clock later (es_set_manager m' s))))
| StepInput i b id origin at_ frame message order m' r : es_browsers s !! i = Some b →
    attached b = Some (id, origin, at_) → readBrowserMessages id frame = Some message → ranges order (es_manager s) → sendToSessionNode id message (es_clock s) order (es_manager s) = (m', r) →
    exec_step s (es_set_manager m' s).
Definition exec_reachable `{OriginURLs, ControlJSON} (s : ExecSystem) : Prop := ∃ t, rtc exec_step (es_start t) s.
