(* ===== verification/ExecTheorems.v ===== *)
(** * Terminals: who gets one, and what it shows

    The invariant of the manager and of the goroutines around it, and what
    follows: nothing panics, a terminal is given once, to a browser of the
    origin it was opened for and in time, and what it shows is what the agent
    sent, in order and without gaps. *)
From S2P Require Export ExecSessions.

Abbreviation objects := em_sessionObjects.

(** ** The invariant of the manager *)
Definition good_session (s : execSession) : Prop :=
  ch_closed (xs_incoming s) = xs_closed s ∧
  (xs_closed s = true → xs_browserAttaching s = false ∧ xs_attachToken s = "") ∧
  (xs_browserTaken s = true → xs_browserAttaching s = false ∧ xs_attachToken s = "").
Record sessions_inv (objs : gmap string execSession) (sessions : gset string) (tokens : gmap string string) : Prop := {
  si_live : ∀ id, id ∈ sessions ↔ ∃ s, objs !! id = Some s ∧ xs_closed s = false;
  si_tokens : ∀ token id, tokens !! token = Some id ↔
    token ≠ "" ∧ ∃ s, objs !! id = Some s ∧ xs_closed s = false ∧ xs_attachToken s = token;
  si_good : ∀ id s, objs !! id = Some s → good_session s;
}.
Record tunnels_inv (objs : gmap nat agentExecTunnel) (tunnels : gmap string nat) : Prop := {
  ti_open : ∀ nodeID tid, tunnels !! nodeID = Some tid →
    ∃ t, objs !! tid = Some t ∧ tn_nodeID t = nodeID ∧ ch_closed (tn_sendCh t) = false;
  ti_numbered : ∀ tid, is_Some (objs !! tid) → tid < size objs;
}.
Record manager_inv (m : execTunnelManager) : Prop := {
  mi_panic : em_panicked m = false;
  mi_sessions : sessions_inv (objects m) (em_sessions m) (em_attachTokens m);
  mi_tunnels : tunnels_inv (em_tunnelObjects m) (em_tunnels m);
}.

(** A change of one session that keeps its token and whether it is open. *)
Lemma sessions_inv_same objs sessions tokens id s s' :
  sessions_inv objs sessions tokens → objs !! id = Some s → xs_closed s' = xs_closed s →
  xs_attachToken s' = xs_attachToken s → good_session s' → sessions_inv (<[id := s']> objs) sessions tokens.
Proof.
  intros [Hlive Htok Hgood] Hid Hc Ht Hg. split.
  - intros i. rewrite Hlive. destruct (decide (i = id)) as [->|]; [rewrite lookup_insert_eq|by rewrite lookup_insert_ne].
    split; intros (x & Hx & ?); simplify_eq; eexists; (split; [done|congruence]).
  - intros token i. rewrite Htok. destruct (decide (i = id)) as [->|]; [rewrite lookup_insert_eq|by rewrite lookup_insert_ne].
    split; intros (Hne & x & Hx & ? & ?); simplify_eq; (split; [done|]); eexists; (split; [done|split; congruence]).
  - intros i x. destruct (decide (i = id)) as [->|]; [rewrite lookup_insert_eq; by intros [= <-]|].
    rewrite lookup_insert_ne by done. apply Hgood.
Qed.
(** A change that takes the token away, and may close the session. *)
Lemma sessions_inv_clear objs sessions tokens id s s' :
  sessions_inv objs sessions tokens → objs !! id = Some s → xs_closed s = false → xs_attachToken s' = "" → good_session s' →
  sessions_inv (<[id := s']> objs) (if xs_closed s' then sessions ∖ {[id]} else sessions)
    (if decide (xs_attachToken s = "") then tokens else delete (xs_attachToken s) tokens).
Proof.
  intros [Hlive Htok Hgood] Hid Hopen Ht Hg. split.
  - intros i. destruct (decide (i = id)) as [->|Hne].
    + rewrite lookup_insert_eq. split.
      * intros Hin. exists s'. split; [done|]. destruct (xs_closed s'); [set_solver|done].
      * intros (x & [= <-] & ->). apply Hlive. by exists s.
    + rewrite lookup_insert_ne, <-Hlive by done. destruct (xs_closed s'); set_solver.
  - intros token i. assert ((if decide (xs_attachToken s = "") then tokens else delete (xs_attachToken s) tokens) !! token = Some i
      ↔ i ≠ id ∧ tokens !! token = Some i) as ->.
    { rewrite Htok. case_decide as Hs; [rewrite Htok|rewrite lookup_delete_Some, Htok]; destruct (decide (i = id)) as [->|Hne]; split; try tauto.
      - intros (Hne & x & Hx & _ & Heq). simplify_eq.
      - intros (Hne & Hn & x & Hx & _ & Heq). simplify_eq.
      - intros (_ & Hn & x & Hx & Hc & Heq). split; [|by split; [|exists x]]. intros <-.
        assert (tokens !! xs_attachToken s = Some id) as Hmine by (apply Htok; split; [done|by exists s]).
        assert (tokens !! xs_attachToken s = Some i) as Hother by (apply Htok; split; [done|by exists x]). congruence. }
    rewrite Htok. destruct (decide (i = id)) as [->|Hne]; [rewrite lookup_insert_eq|rewrite lookup_insert_ne by done; tauto].
    split; [tauto|].  intros (Hne & x & Hx & _ & Heq). congruence.
  - intros i x. destruct (decide (i = id)) as [->|]; [rewrite lookup_insert_eq; by intros [= <-]|].
    rewrite lookup_insert_ne by done. apply Hgood.
Qed.
Lemma sessions_inv_new objs sessions tokens id s :
  sessions_inv objs sessions tokens → objs !! id = None → tokens !! xs_attachToken s = None → xs_attachToken s ≠ "" →
  xs_closed s = false → good_session s →
  sessions_inv (<[id := s]> objs) ({[id]} ∪ sessions) (<[xs_attachToken s := id]> tokens).
Proof.
  intros [Hlive Htok Hgood] Hid Hnone Hne Hopen Hg. split.
  - intros i. rewrite elem_of_union, elem_of_singleton, Hlive. destruct (decide (i = id)) as [->|Hi].
    + rewrite lookup_insert_eq. split; [intros _; by exists s|by left].
    + rewrite lookup_insert_ne by done. naive_solver.
  - intros token i. destruct (decide (token = xs_attachToken s)) as [->|Htn].
    + rewrite lookup_insert_eq. split.
      * intros [= <-]. split; [done|]. exists s. by rewrite lookup_insert_eq.
      * intros (_ & x & Hx & Hc & Heq). f_equal. destruct (decide (i = id)) as [|Hi]; [done|].
        rewrite lookup_insert_ne in Hx by done.
        assert (tokens !! xs_attachToken s = Some i) by (apply Htok; split; [done|by exists x]). congruence.
    + rewrite lookup_insert_ne by done. rewrite Htok. destruct (decide (i = id)) as [->|Hi].
      * rewrite lookup_insert_eq. split; [intros (_ & x & Hx & _); congruence|]. intros (_ & x & [= <-] & _ & Heq). congruence.
      * by rewrite lookup_insert_ne.
  - intros i x. destruct (decide (i = id)) as [->|]; [rewrite lookup_insert_eq; by intros [= <-]|].
    rewrite lookup_insert_ne by done. apply Hgood.
Qed.

(** ** What the methods do to the tunnels *)
Lemma manager_inv_set_tunnel m tid t t' :
  manager_inv m → em_tunnelObjects m !! tid = Some t → tn_nodeID t' = tn_nodeID t →
  ch_closed (tn_sendCh t') = ch_closed (tn_sendCh t) ∨ (∀ n, em_tunnels m !! n ≠ Some tid) →
  manager_inv (em_set_tunnel tid t' m).
Proof.
  intros [Hp Hs [Hopen Hnum]] Ht Hn Hc. split; [done..|]. split; cbn.
  - intros n i Hi. destruct (Hopen n i Hi) as (u & Hu & Hnode & Hcl). destruct (decide (i = tid)) as [->|].
    + rewrite lookup_insert_eq. exists t'. simplify_eq. destruct Hc as [Hc|Hc]; [by rewrite Hn, Hc|destruct (Hc _ Hi)].
    + rewrite lookup_insert_ne by done. by exists u.
  - intros i. rewrite map_size_insert_Some by (by eexists). destruct (decide (i = tid)) as [->|].
    + intros _. apply Hnum. by eexists.
    + rewrite lookup_insert_ne by done. apply Hnum.
Qed.
(** What leaves the sessions as they are. *)
Record keeps (m m' : execTunnelManager) : Prop := {
  kp_inv : manager_inv m';
  kp_objects : objects m' = objects m;
  kp_sessions : em_sessions m' = em_sessions m;
  kp_tokens : em_attachTokens m' = em_attachTokens m;
  kp_tunnels : dom (em_tunnelObjects m') = dom (em_tunnelObjects m);
}.
Lemma keeps_refl m : manager_inv m → keeps m m.
Proof. by split. Qed.
Lemma keeps_set_tunnel m tid t t' : em_tunnelObjects m !! tid = Some t → manager_inv (em_set_tunnel tid t' m) →
  keeps m (em_set_tunnel tid t' m).
Proof. intros Ht Hm. split; try done. cbn. apply elem_of_dom_2 in Ht. rewrite dom_insert_L. set_solver. Qed.
Lemma send_to_node_keeps nodeID message m : manager_inv m → keeps m (send_to_node nodeID message m).1.
Proof.
  intros Hm. unfold send_to_node, node_tunnel. destruct (em_tunnels m !! nodeID) as [tid|] eqn:Htid; [|by apply keeps_refl].
  destruct (ti_open _ _ (mi_tunnels _ Hm) _ _ Htid) as (t & Ht & Hn & Hc). rewrite Ht. cbn.
  destruct (try_send_open message _ Hc) as (c & sent & -> & Hc' & _). cbn.
  eapply keeps_set_tunnel; [done|]. eapply manager_inv_set_tunnel; [done..|]. left. cbn. congruence.
Qed.
Lemma close_tunnel_keeps tid m : manager_inv m → (∀ t, em_tunnelObjects m !! tid = Some t → ch_closed (tn_sendCh t) = false) →
  (∀ n, em_tunnels m !! n ≠ Some tid) → keeps m (close_tunnel tid m).
Proof.
  intros Hm Hopen Hgone. unfold close_tunnel. destruct (em_tunnelObjects m !! tid) as [t|] eqn:Ht; [|by apply keeps_refl].
  unfold close_chan. rewrite (Hopen _ eq_refl). eapply keeps_set_tunnel; [done|].
  eapply manager_inv_set_tunnel; [done..|]. by right.
Qed.

(** ** What the methods do to the sessions *)
Definition shut_session (s : execSession) : execSession :=
  xs_set (MkChan (ch_items (xs_incoming s)) true) (xs_browserTaken s) false true "" s.
Definition shut (s s' : execSession) : Prop := s' = s ∨ xs_closed s = false ∧ s' = shut_session s.
Lemma shut_trans s s' s'' : shut s s' → shut s' s'' → shut s s''.
Proof. intros [->|[? ->]] [->|[? ->]]; unfold shut; naive_solver. Qed.
(** Sessions are closed, and tunnels get messages or are closed. *)
Record settles (m m' : execTunnelManager) : Prop := {
  st_inv : manager_inv m';
  st_sessions : ∀ id, option_Forall2 shut (objects m !! id) (objects m' !! id);
  st_tunnels : dom (em_tunnelObjects m') = dom (em_tunnelObjects m);
}.
Lemma keeps_settles m m' : keeps m m' → settles m m'.
Proof. intros []. split; [done| |done]. intros id. rewrite kp_objects0. destruct (objects m !! id); constructor; by left. Qed.
Lemma settles_refl m : manager_inv m → settles m m.
Proof. intros. by apply keeps_settles, keeps_refl. Qed.
Lemma settles_trans m m' m'' : settles m m' → settles m' m'' → settles m m''.
Proof.
  intros [_ H1 Hd1] [Hm H2 Hd2]. split; [done| |congruence]. intros id. specialize (H1 id). specialize (H2 id).
  destruct H1; inversion H2; constructor. by eapply shut_trans.
Qed.
Lemma settles_foldl (f : execTunnelManager → string → execTunnelManager) order m : manager_inv m → (∀ m id, manager_inv m → settles m (f m id)) → settles m (foldl f m order).
Proof.
  intros Hm Hf. revert m Hm. induction order as [|id order IH]; intros m Hm; [by apply settles_refl|].
  eapply settles_trans; [by apply (Hf m id)|]. apply IH, Hf, Hm.
Qed.
Lemma live_session_spec id m s : live_session id m = Some s → id ∈ em_sessions m ∧ objects m !! id = Some s.
Proof. unfold live_session. by case_decide. Qed.
Lemma live_session_open id m s : manager_inv m → live_session id m = Some s ↔ objects m !! id = Some s ∧ xs_closed s = false.
Proof.
  intros Hm. unfold live_session. destruct (si_live _ _ _ (mi_sessions _ Hm) id) as [H1 H2]. case_decide as Hin.
  - destruct (H1 Hin) as (x & Hx & Hc). naive_solver.
  - naive_solver.
Qed.
Lemma manager_inv_sessions m objs sessions tokens : manager_inv m → sessions_inv objs sessions tokens →
  manager_inv (MkManager (em_tunnelObjects m) objs (em_tunnels m) sessions tokens (em_panicked m)).
Proof. intros [] ?. by split. Qed.
Lemma closeSessionLocked_open id m s : manager_inv m → objects m !! id = Some s → xs_closed s = false →
  ∃ m1, manager_inv m1 ∧ objects m1 = <[id := shut_session s]> (objects m) ∧ em_tunnelObjects m1 = em_tunnelObjects m ∧
    keeps m1 (closeSessionLocked id m).
Proof.
  intros Hm Hs Hopen. unfold closeSessionLocked. destruct (live_session_open id m s Hm) as [_ ->]; [|done].
  destruct (si_good _ _ _ (mi_sessions _ Hm) _ _ Hs) as (Hg & _ & _).
  unfold closed_session, close_chan. rewrite Hg, Hopen. cbn [fmap option_fmap option_map].
  set (m1 := em_set_sessions _ _).
  assert (manager_inv m1) as Hm1.
  { apply (manager_inv_sessions m); [done|].
    by apply (sessions_inv_clear _ _ _ id s (shut_session s)); [apply (mi_sessions _ Hm)|..]. }
  exists m1. do 3 (split; [done|]). by apply send_to_node_keeps.
Qed.
Lemma closeSessionLocked_idle id m : (∀ s, objects m !! id = Some s → xs_closed s = true) → closeSessionLocked id m = m.
Proof.
  intros Hc. unfold closeSessionLocked. destruct (live_session id m) as [s|] eqn:Hs; [|done].
  apply live_session_spec in Hs as [_ Hs]. by rewrite (Hc _ Hs).
Qed.
(** The session is open, or there is nothing to close. *)
Lemma open_or_idle id m :
  (∃ s, objects m !! id = Some s ∧ xs_closed s = false) ∨ (∀ s, objects m !! id = Some s → xs_closed s = true).
Proof.
  destruct (objects m !! id) as [s|]; [|by right]. destruct (xs_closed s) eqn:Hc; [right; naive_solver|left; eauto].
Qed.
Lemma closeSessionLocked_settles id m : manager_inv m → settles m (closeSessionLocked id m).
Proof.
  intros Hm. destruct (open_or_idle id m) as [(s & Hs & Hopen)|Hc]; [|rewrite closeSessionLocked_idle by done; by apply settles_refl].
  destruct (closeSessionLocked_open id m s) as (m1 & Hm1 & Ho & Ht & Hk); [done..|].
  eapply settles_trans; [|by apply keeps_settles]. split; [done| |by rewrite Ht].
  intros i. rewrite Ho. destruct (decide (i = id)) as [->|].
  - rewrite lookup_insert_eq, Hs. constructor. by right.
  - rewrite lookup_insert_ne by done. destruct (objects m !! i); constructor. by left.
Qed.
Lemma closeSessionLocked_closes id m s : manager_inv m → objects (closeSessionLocked id m) !! id = Some s → xs_closed s = true.
Proof.
  intros Hm. destruct (open_or_idle id m) as [(x & Hx & Hopen)|Hc]; [|rewrite closeSessionLocked_idle by done; by apply Hc].
  destruct (closeSessionLocked_open id m x) as (m1 & Hm1 & Ho & Ht & Hk); [done..|].
  rewrite (kp_objects _ _ Hk), Ho, lookup_insert_eq. by intros [= <-].
Qed.
Lemma sweep_settles now order m : manager_inv m → settles m (sweepExpiredSessionsLocked now order m).
Proof.
  intros Hm. apply settles_foldl; [done|]. clear. intros m id Hm. unfold sweep_one.
  destruct (live_session id m); [case_match|]; auto using closeSessionLocked_settles, settles_refl.
Qed.
Lemma unregisterTunnel_settles nodeID tid order m : manager_inv m → settles m (unregisterTunnel nodeID tid order m).
Proof.
  intros Hm. unfold unregisterTunnel. case_decide as Htid; [|by apply settles_refl].
  pose proof (mi_tunnels _ Hm) as [Hopen Hnum]. destruct (Hopen _ _ Htid) as (t & Ht & Hn & Hc).
  set (m1 := em_set_tunnels _ m).
  assert (manager_inv m1) as Hm1.
  { destruct Hm as [Hp Hs _]. split; [done..|]. split; [|done]. cbn. intros n i [_ Hi]%lookup_delete_Some. by apply Hopen. }
  assert (keeps m1 (close_tunnel tid m1)) as Hk.
  { apply close_tunnel_keeps; [done|cbn; naive_solver|]. unfold m1; cbn; intros n [Hne Hi]%lookup_delete_Some.
    destruct (Hopen _ _ Hi) as (u & Hu & Hun & _). naive_solver. }
  eapply settles_trans; [|apply settles_foldl; [apply Hk|]].
  - destruct Hk as [? Ho ? ? ?]. split; [done| |done]. intros id. rewrite Ho. cbn. destruct (objects m !! id); constructor. by left.
  - clear. intros m id Hm. unfold close_of_node.
    destruct (live_session id m); [case_match|]; auto using closeSessionLocked_settles, settles_refl.
Qed.
Lemma registerTunnel_spec nodeID m m' tid : manager_inv m → registerTunnel nodeID m = (m', tid) →
  manager_inv m' ∧ objects m' = objects m ∧ em_tunnelObjects m !! tid = None ∧
  dom (em_tunnelObjects m') = {[tid]} ∪ dom (em_tunnelObjects m).
Proof.
  intros Hm [= <- <-]. destruct (mi_tunnels _ Hm) as [Hopen Hnum]. set (tid := size _).
  assert (em_tunnelObjects m !! tid = None) as Hnew.
  { apply eq_None_not_Some. intros Hs. specialize (Hnum _ Hs). unfold tid in Hnum. lia. }
  set (m1 := em_set_tunnels _ _). assert (manager_inv m1) as Hm1.
  { destruct Hm as [Hp Hs _]. split; [done..|]. split; cbn.
    - intros n i [[<- <-]|[Hne Hi]]%lookup_insert_Some; [exists (MkTunnel nodeID make_chan); by rewrite lookup_insert_eq|].
      destruct (Hopen _ _ Hi) as (t & Ht & Hn). exists t. by rewrite lookup_insert_ne by congruence.
    - intros i. rewrite map_size_insert_None by done. fold tid. destruct (decide (i = tid)) as [->|]; [lia|].
      rewrite lookup_insert_ne by done. intros Hi%Hnum. fold tid in Hi. lia. }
  assert (keeps m1 (match em_tunnels m !! nodeID with Some old => close_tunnel old m1 | None => m1 end)) as [? Ho _ _ Hd].
  { destruct (em_tunnels m !! nodeID) as [old|] eqn:Hold; [|by apply keeps_refl].
    destruct (Hopen _ _ Hold) as (t & Ht & Hn & Hc). assert (old ≠ tid) by congruence. apply close_tunnel_keeps; [done|cbn|cbn].
    - rewrite lookup_insert_ne by done. naive_solver.
    - intros n [[<- ?]|[Hne Hi]]%lookup_insert_Some; [done|]. destruct (Hopen _ _ Hi) as (u & Hu & Hun & _). naive_solver. }
  split; [done|]. split; [by rewrite Ho|]. split; [done|]. rewrite Hd. cbn. by rewrite dom_insert_L.
Qed.

(** ** The operations *)
Lemma sessionForAttachToken_spec token now m m' r : manager_inv m → sessionForAttachTokenLocked token now m = (m', r) →
  settles m m' ∧ match r with
  | Ok (id, s) => m' = m ∧ objects m !! id = Some s ∧ xs_closed s = false ∧ xs_attachToken s = token ∧ token ≠ "" ∧
                  (now < xs_attachExpiresAt s)%Z
  | Err _ => True
  end.
Proof.
  intros Hm. unfold sessionForAttachTokenLocked. pose proof (settles_refl m Hm) as Hrefl.
  case_decide as Hid; [by intros [= <- <-]|]. destruct (em_attachTokens m !! token) as [id|] eqn:Htok; [cbn in *|done].
  destruct (proj1 (si_tokens _ _ _ (mi_sessions _ Hm) token id) Htok) as (Hne & s & Hs & Hopen & Hst).
  destruct (live_session_open id m s Hm) as [_ ->]; [|done]. rewrite Hopen.
  case_decide as Hmis; [by intros [= <- <-]|]. case_decide as Hexp.
  - intros [= <- <-]. split; [by apply closeSessionLocked_settles|done].
  - intros [= <- <-]. repeat (split; [done|]). lia.
Qed.
(** What reserving, confirming and releasing leave: the sessions settled, or
    [m1] settled with a change of the session of the token. *)
Definition attaches (token : string) (later : Time.time) (m1 : execTunnelManager) (id : string) (s : execSession) : Prop :=
  objects m1 !! id = Some s ∧ xs_closed s = false ∧ xs_attachToken s = token ∧ token ≠ "" ∧ (later < xs_attachExpiresAt s)%Z.
Ltac attach_spec Hm r Hs :=
  match goal with |- context [sessionForAttachTokenLocked ?token ?later ?m1] =>
    let Heq := fresh in let m2 := fresh "m2" in
    destruct (sessionForAttachTokenLocked token later m1) as [m2 r] eqn:Heq;
    apply sessionForAttachToken_spec in Heq; [|by apply sweep_settles]; destruct Heq as [Heq Hs];
    apply (settles_trans _ _ _ (sweep_settles _ _ _ Hm)) in Heq
  end.
Lemma reserve_spec token now order later m m' r : manager_inv m → reserveSessionAttach token now order later m = (m', r) →
  match r with
  | Ok id => ∃ m1 s, settles m m1 ∧ attaches token later m1 id s ∧ xs_browserTaken s = false ∧
      xs_browserAttaching s = false ∧ m' = em_set_session id (set_attaching true s) m1
  | Err _ => settles m m'
  end.
Proof.
  intros Hm. unfold reserveSessionAttach. attach_spec Hm r0 Hs. destruct r0 as [[id s]|e]; [|by intros [= <- <-]].
  destruct Hs as (-> & Hs). destruct (xs_browserTaken s) eqn:Ht; cbn; [by intros [= <- <-]|].
  destruct (xs_browserAttaching s) eqn:Ha; intros [= <- <-]; [done|]. by eexists _, s.
Qed.
Definition confirmed (s : execSession) : execSession := xs_set (xs_incoming s) true false (xs_closed s) "" s.
Lemma confirm_spec token now order later m m' r : manager_inv m → confirmSessionAttach token now order later m = (m', r) →
  match r with
  | Ok id => ∃ m1 s, settles m m1 ∧ attaches token later m1 id s ∧ xs_browserTaken s = false ∧
      xs_browserAttaching s = true ∧
      m' = em_set_tokens (delete token (em_attachTokens m1)) (em_set_session id (confirmed s) m1)
  | Err _ => settles m m'
  end.
Proof.
  intros Hm. unfold confirmSessionAttach. attach_spec Hm r0 Hs. destruct r0 as [[id s]|e]; [|by intros [= <- <-]].
  destruct Hs as (-> & Hs). destruct (xs_browserTaken s) eqn:Ht; cbn; [by intros [= <- <-]|].
  destruct (xs_browserAttaching s) eqn:Ha; intros [= <- <-]; [|done]. by eexists _, s.
Qed.
Lemma release_spec token now order later m : manager_inv m →
  settles m (releaseSessionAttach token now order later m) ∨
  ∃ m1 id s, settles m m1 ∧ attaches token later m1 id s ∧ xs_browserTaken s = false ∧
    releaseSessionAttach token now order later m = em_set_session id (set_attaching false s) m1.
Proof.
  intros Hm. unfold releaseSessionAttach. attach_spec Hm r0 Hs. destruct r0 as [[id s]|e]; [|by left].
  destruct Hs as (-> & Hs). destruct (xs_browserTaken s) eqn:Ht; [by left|]. right. by eexists _, id, s.
Qed.
Lemma checkOrigin_spec origin token now order later m m' ok : manager_inv m → checkOrigin origin token now order later m = (m', ok) →
  settles m m' ∧ (ok = true → ∃ id s, attaches token later m' id s ∧ origin = Ok (xs_allowedOrigin s)).
Proof.
  intros Hm. unfold checkOrigin. pose proof (settles_refl m Hm).
  destruct origin as [origin|e]; [|by intros [= <- <-]]. case_decide; [by intros [= <- <-]|].
  attach_spec Hm r0 Hs. destruct r0 as [[id s]|e]; intros [= <- <-]; (split; [done|]); [|done].
  destruct Hs as (-> & Hs). intros ->%bool_decide_eq_true_1. by exists id, s.
Qed.
Lemma manager_inv_set_session id s s' m : manager_inv m → objects m !! id = Some s → xs_closed s' = xs_closed s →
  xs_attachToken s' = xs_attachToken s → good_session s' → manager_inv (em_set_session id s' m).
Proof. intros Hm. intros. apply manager_inv_sessions; [done|]. eapply sessions_inv_same; [apply (mi_sessions _ Hm)|done..]. Qed.
Lemma manager_inv_confirmed id s m : manager_inv m → objects m !! id = Some s → xs_closed s = false → xs_attachToken s ≠ "" →
  manager_inv (em_set_tokens (delete (xs_attachToken s) (em_attachTokens m)) (em_set_session id (confirmed s) m)).
Proof.
  intros Hm Hs Hc Ht. pose proof (mi_sessions _ Hm) as Hsess. apply (manager_inv_sessions m); [done|].
  pose proof (sessions_inv_clear _ _ _ id s (confirmed s) Hsess Hs Hc eq_refl) as Hclear. cbn in Hclear.
  rewrite Hc, decide_False in Hclear by done. apply Hclear.
  destruct (si_good _ _ _ Hsess _ _ Hs) as (Hg & _). by split_and!.
Qed.
Lemma settles_lookup m m' id s' : settles m m' → objects m' !! id = Some s' → ∃ s, objects m !! id = Some s ∧ shut s s'.
Proof. intros [_ H1 _] Hs. specialize (H1 id). rewrite Hs in H1. inversion H1. eauto. Qed.
Lemma settles_none m m' id : settles m m' → objects m !! id = None → objects m' !! id = None.
Proof. intros [_ H1 _] Hn. specialize (H1 id). rewrite Hn in H1. by inversion H1. Qed.
Lemma shut_token s s' : shut s s' → xs_attachToken s' = xs_attachToken s ∨ xs_attachToken s' = "".
Proof. intros [->|[_ ->]]; auto. Qed.
(** A session that was just opened. *)
Definition opened (token : string) (s : execSession) : Prop :=
  xs_incoming s = make_chan ∧ xs_browserTaken s = false ∧ xs_browserAttaching s = false ∧ xs_closed s = false ∧
  xs_attachToken s = token.
Lemma openSession_spec nodeID containerID command rows cols origin createdBy now order later token id m m' r :
  manager_inv m → objects m !! id = None → (∀ i s, objects m !! i = Some s → xs_attachToken s ≠ token) → token ≠ "" →
  openSession nodeID containerID command rows cols origin createdBy now order later token id m = (m', r) →
  settles m m' ∨
  ∃ m1 m2 s, settles m m1 ∧ objects m1 !! id = None ∧ opened token s ∧ objects m2 = <[id := s]> (objects m1) ∧
    em_tunnelObjects m2 = em_tunnelObjects m1 ∧ manager_inv m2 ∧ settles m2 m'.
Proof.
  intros Hm Hid Htok Hne. unfold openSession. pose proof (sweep_settles now order m Hm) as Hsw.
  set (m1 := sweepExpiredSessionsLocked _ _ _) in *. destruct (node_tunnel nodeID m1); [|intros [= <- <-]; by left].
  set (s := MkSession _ _ _ _ _ _ _ _ _ _ _ _ _ _). set (m2 := em_set_tokens _ _). intros Hrun. right. exists m1, m2, s.
  pose proof (settles_none _ _ _ Hsw Hid) as Hid1. pose proof (st_inv _ _ Hsw) as Hm1.
  assert (manager_inv m2) as Hm2.
  { apply (manager_inv_sessions m1); [done|]. apply (sessions_inv_new _ _ _ id s); [apply (mi_sessions _ Hm1)|done| |done|done|by split].
    destruct (em_attachTokens m1 !! xs_attachToken s) as [i|] eqn:Hi; [|done].
    apply (si_tokens _ _ _ (mi_sessions _ Hm1)) in Hi as (_ & x & Hx & _ & Hxt).
    destruct (settles_lookup _ _ _ _ Hsw Hx) as (y & Hy & [->|[_ ->]]); [by destruct (Htok _ _ Hy)|by cbn in Hxt]. }
  do 6 (split; [done|]). revert Hrun. pose proof (send_to_node_keeps nodeID
    (MkToAgent id execKindStart containerID command rows cols "") m2 Hm2) as Hk.
  destruct (send_to_node _ _ m2) as [m3 sent]. cbn in Hk. apply keeps_settles in Hk.
  case_decide; intros [= <- <-]; [done|]. eapply settles_trans; [done|]. by apply closeSessionLocked_settles, (st_inv _ _ Hk).
Qed.
Lemma sendToSessionNode_settles id message now order m m' r : manager_inv m →
  sendToSessionNode id message now order m = (m', r) → settles m m'.
Proof.
  intros Hm. unfold sendToSessionNode. pose proof (sweep_settles now order m Hm) as Hsw.
  set (m1 := sweepExpiredSessionsLocked _ _ _) in *. destruct (live_session id m1) as [s|]; [|by intros [= <- <-]].
  case_match; [by intros [= <- <-]|].
  pose proof (keeps_settles _ _ (send_to_node_keeps (xs_nodeID s) message m1 (st_inv _ _ Hsw))) as Hk.
  destruct (send_to_node _ _ m1) as [m2 [[]|]]; cbn in Hk; intros [= <- <-]; (eapply settles_trans; [done|]); try done.
  eapply settles_trans; [done|]. apply closeSessionLocked_settles, (st_inv _ _ Hk).
Qed.
Lemma deliver_spec id message m m' done : manager_inv m → deliver id message m = (m', done) →
  if done then ∃ s, objects m !! id = Some s ∧ xs_closed s = false ∧
    m' = em_set_session id (set_incoming (MkChan (ch_items (xs_incoming s) ++ [message]) false) s) m
  else m' = m.
Proof.
  intros Hm. unfold deliver. destruct (objects m !! id) as [s|] eqn:Hs; [|by intros [= <- <-]].
  destruct (xs_closed s) eqn:Hc; [by intros [= <- <-]|].
  destruct (si_good _ _ _ (mi_sessions _ Hm) _ _ Hs) as (Hg & _). unfold try_send. rewrite Hg, Hc.
  case_decide; intros [= <- <-]; [by exists s|].
  destruct s as [? ? ? ? ? [items cl]]. cbn in *. unfold set_incoming, xs_set, em_set_session. cbn in *. subst.
  destruct m as [? objs]. cbn in *. f_equal. by apply insert_id.
Qed.

(** ** Who holds a session *)
Definition holds (b : Browser) : option (string * string) :=
  match b with
  | WsReserved token _ id | WsChecked token _ id | WsRejected token id => Some (token, id)
  | _ => None
  end.
Record browser_ok (objs : gmap string execSession) (ids : gset string) (b : Browser) : Prop := {
  bo_holds : ∀ token id, holds b = Some (token, id) → token ≠ "" ∧ token ∈ ids ∧ is_Some (objs !! id) ∧
    ∀ i x, objs !! i = Some x → xs_attachToken x = token → i = id ∧ xs_browserAttaching x = true;
  bo_checked : ∀ token origin id x, b = WsChecked token origin id → objs !! id = Some x → origin = Ok (xs_allowedOrigin x);
  bo_attached : ∀ id origin at_, attached b = Some (id, origin, at_) →
    ∃ x, objs !! id = Some x ∧ xs_browserTaken x = true ∧ origin = Ok (xs_allowedOrigin x) ∧ (at_ < xs_attachExpiresAt x)%Z;
}.
Record browsers_inv (objs : gmap string execSession) (ids : gset string) (bs : gmap nat Browser) : Prop := {
  bi_ok : ∀ i b, bs !! i = Some b → browser_ok objs ids b;
  bi_one_holder : ∀ i j bi bj token id id', bs !! i = Some bi → bs !! j = Some bj → holds bi = Some (token, id) →
    holds bj = Some (token, id') → i = j;
  bi_one_attached : ∀ i j bi bj id o o' t t', bs !! i = Some bi → bs !! j = Some bj → attached bi = Some (id, o, t) →
    attached bj = Some (id, o', t') → i = j;
}.
(** A change of a session: only the browser that holds [own] may have changed
    whether the session of that token waits for its browser. *)
Definition moves (own : string) (x x' : execSession) : Prop :=
  xs_allowedOrigin x' = xs_allowedOrigin x ∧ xs_attachExpiresAt x' = xs_attachExpiresAt x ∧
  (xs_browserTaken x = true → xs_browserTaken x' = true) ∧
  (xs_attachToken x' = "" ∨ xs_attachToken x' = xs_attachToken x ∧
     (xs_browserAttaching x' = xs_browserAttaching x ∨ xs_attachToken x = own)).
Definition moved (own : string) (objs objs' : gmap string execSession) : Prop :=
  ∀ id, option_Forall2 (moves own) (objs !! id) (objs' !! id).
Lemma shut_moves own x x' : shut x x' → moves own x x'.
Proof. intros [->|[_ ->]]; repeat split; auto. Qed.
Lemma settles_moved own m m' : settles m m' → moved own (objects m) (objects m').
Proof. intros [_ H1 _] id. destruct (H1 id); constructor. by apply shut_moves. Qed.
Lemma moves_trans own x x' x'' : moves own x x' → moves own x' x'' → moves own x x''.
Proof.
  intros (H1 & H2 & H3 & H4) (G1 & G2 & G3 & G4). split; [congruence|]. split; [congruence|]. split; [auto|].
  destruct G4 as [->|[-> G4]]; [by left|]. destruct H4 as [H4|[H4 H5]]; [by left|]. right. split; [done|].
  destruct H5 as [H5|H5]; [|by right]. destruct G4 as [G4|G4]; [left|right]; congruence.
Qed.
Lemma moved_trans own objs objs' objs'' : moved own objs objs' → moved own objs' objs'' → moved own objs objs''.
Proof.
  intros H1 H2 id. specialize (H1 id). specialize (H2 id). destruct H1; inversion H2; constructor. by eapply moves_trans.
Qed.
Lemma moved_insert own (objs : gmap string execSession) id x x' :
  objs !! id = Some x → moves own x x' → moved own objs (<[id := x']> objs).
Proof.
  intros Hx Hm i. destruct (decide (i = id)) as [->|]; [rewrite lookup_insert_eq, Hx; by constructor|].
  rewrite lookup_insert_ne by done. destruct (objs !! i); constructor. repeat split; auto.
Qed.
Lemma moved_source own objs objs' id x' : moved own objs objs' → objs' !! id = Some x' → ∃ x, objs !! id = Some x ∧ moves own x x'.
Proof. intros H1 Hx. specialize (H1 id). rewrite Hx in H1. inversion H1. eauto. Qed.
Lemma moved_target own objs objs' id x : moved own objs objs' → objs !! id = Some x → ∃ x', objs' !! id = Some x' ∧ moves own x x'.
Proof. intros H1 Hx. specialize (H1 id). rewrite Hx in H1. inversion H1. eauto. Qed.
Lemma browser_ok_moved own objs objs' ids b : moved own objs objs' → (∀ id, holds b = Some (own, id) → False) →
  browser_ok objs ids b → browser_ok objs' ids b.
Proof.
  intros Hmv Hown [H1 H2 H3]. split.
  - intros token id Hh. destruct (H1 _ _ Hh) as (Hne & Hin & [x Hx] & Hall). split; [done|]. split; [done|].
    split; [destruct (moved_target _ _ _ _ _ Hmv Hx) as (x' & ? & _); by eexists|].
    intros i x' Hx' Ht. destruct (moved_source _ _ _ _ _ Hmv Hx') as (y & Hy & _ & _ & _ & [Hmy|[Htok Ha]]); [congruence|].
    destruct (Hall i y Hy) as [-> Hat]; [congruence|]. split; [done|].
    destruct Ha as [->|Ha]; [done|]. destruct (Hown id). congruence.
  - intros token origin id x' Hb Hx'. destruct (moved_source _ _ _ _ _ Hmv Hx') as (y & Hy & -> & _). by eapply H2.
  - intros id origin at_ Ha. destruct (H3 _ _ _ Ha) as (x & Hx & Ht & Ho & Hat).
    destruct (moved_target _ _ _ _ _ Hmv Hx) as (x' & Hx' & Ho' & He & Htk & _). exists x'. rewrite Ho', He. auto.
Qed.
Lemma browsers_inv_moved objs objs' ids bs : moved "" objs objs' → browsers_inv objs ids bs → browsers_inv objs' ids bs.
Proof.
  intros Hmv [Hok H1 H2]. split; [|done..]. intros i b Hb. eapply browser_ok_moved; [done| |by eapply Hok].
  intros id Hh. by destruct (bo_holds _ _ _ (Hok _ _ Hb) _ _ Hh).
Qed.
Lemma browsers_inv_new objs ids ids' bs id token s : ids ⊆ ids' → token ∉ ids → objs !! id = None → opened token s →
  browsers_inv objs ids bs → browsers_inv (<[id := s]> objs) ids' bs.
Proof.
  intros Hsub Hnew Hid (_ & _ & _ & _ & Ht) [Hok H1 H2]. split; [|done..]. intros i b Hb. destruct (Hok _ _ Hb) as [G1 G2 G3]. split.
  - intros tk j Hh. destruct (G1 _ _ Hh) as (Hne & Hin & Hj & Hall). split; [done|]. split; [set_solver|].
    assert (j ≠ id) by (intros ->; rewrite Hid in Hj; by destruct Hj). rewrite lookup_insert_ne by done. split; [done|].
    intros k x [[<- <-]|[Hne' Hx]]%lookup_insert_Some Hxt; [congruence|by eapply Hall].
  - intros tk o j x -> Hx. apply lookup_insert_Some in Hx as [[-> <-]|[_ Hx]]; [|by eapply G2].
    destruct (G1 _ _ eq_refl) as (_ & _ & Hj & _). rewrite Hid in Hj. by destruct Hj.
  - intros j o at_ Ha. destruct (G3 _ _ _ Ha) as (x & Hx & ?). exists x. by rewrite lookup_insert_ne by congruence.
Qed.
(** A step of the handler of browser [i], which holds [own] before or after. *)
Lemma browsers_inv_step own objs objs' ids bs i b' : browsers_inv objs ids bs → moved own objs objs' →
  (∀ j bj id, j ≠ i → bs !! j = Some bj → holds bj = Some (own, id) → False) → browser_ok objs' ids b' →
  (∀ token id, holds b' = Some (token, id) → token = own) →
  (∀ j bj id o t o' t', j ≠ i → bs !! j = Some bj → attached b' = Some (id, o, t) → attached bj = Some (id, o', t') → False) →
  browsers_inv objs' ids (<[i := b']> bs).
Proof.
  intros [Hok H1 H2] Hmv Hown Hb' Hh Ha. split.
  - intros j b [[<- <-]|[Hne Hb]]%lookup_insert_Some; [done|]. eapply browser_ok_moved; [done| |by eapply Hok].
    intros id. by eapply Hown.
  - intros j k bj bk token id id' [[<- <-]|[Hj Hbj]]%lookup_insert_Some [[<- <-]|[Hk Hbk]]%lookup_insert_Some Hhj Hhk; [done| | |by eapply H1].
    + destruct (Hown k bk id'); [done..|]. by rewrite <-(Hh _ _ Hhj).
    + destruct (Hown j bj id); [done..|]. by rewrite <-(Hh _ _ Hhk).
  - intros j k bj bk id o o' t t' [[<- <-]|[Hj Hbj]]%lookup_insert_Some [[<- <-]|[Hk Hbk]]%lookup_insert_Some Haj Hak; [done| | |by eapply H2].
    + by destruct (Ha k bk id o t o' t').
    + by destruct (Ha j bj id o' t' o t).
Qed.
(** A step that takes no session and gives none to another browser. *)
Lemma browsers_inv_same objs objs' ids bs i b b' : browsers_inv objs ids bs → bs !! i = Some b → moved "" objs objs' →
  (holds b' = None ∨ holds b' = holds b) → (attached b' = None ∨ attached b' = attached b) →
  (∀ token origin id x, b' = WsChecked token origin id → objs' !! id = Some x → origin = Ok (xs_allowedOrigin x)) →
  browsers_inv objs' ids (<[i := b']> bs).
Proof.
  intros Hbs Hb Hmv Hh Ha Hc. destruct (browsers_inv_moved _ _ _ _ Hmv Hbs) as [Hok H1 H2]. destruct (Hok _ _ Hb) as [G1 _ G3]. split.
  - intros j bj [[<- <-]|[_ Hbj]]%lookup_insert_Some; [|by eapply Hok]. split; [|done|].
    + intros token id Hb'. apply G1. destruct Hh as [Hh|Hh]; congruence.
    + intros id o t Hb'. apply (G3 id o t). destruct Ha as [Ha|Ha]; congruence.
  - intros j k bj bk token id id' Hj Hk Hhj Hhk. apply lookup_insert_Some in Hj, Hk.
    destruct Hj as [[<- <-]|[Hj Hbj]], Hk as [[<- <-]|[Hk Hbk]]; [done| | |by eapply H1];
      (destruct Hh as [Hh|Hh]; [congruence|]); eapply H1; (done || by rewrite <-Hh).
  - intros j k bj bk id o o' t t' Hj Hk Haj Hak. apply lookup_insert_Some in Hj, Hk.
    destruct Hj as [[<- <-]|[Hj Hbj]], Hk as [[<- <-]|[Hk Hbk]]; [done| | |by eapply H2];
      (destruct Ha as [Ha|Ha]; [congruence|]); eapply H2; (done || by rewrite <-Ha).
Qed.
Definition tokens_drawn (objs : gmap string execSession) (ids : gset string) : Prop :=
  ∀ id x, objs !! id = Some x → id ∈ ids ∧ (xs_attachToken x = "" ∨ xs_attachToken x ∈ ids).
Lemma tokens_drawn_moved own objs objs' ids : moved own objs objs' → tokens_drawn objs ids → tokens_drawn objs' ids.
Proof.
  intros Hmv Hd id x' Hx'. destruct (moved_source _ _ _ _ _ Hmv Hx') as (x & Hx & _ & _ & _ & Ht).
  destruct (Hd _ _ Hx) as [Hid Htok]. split; [done|]. destruct Ht as [->|[-> _]]; auto.
Qed.

Lemma token_unique objs sessions tokens id id' x x' : sessions_inv objs sessions tokens → objs !! id = Some x →
  objs !! id' = Some x' → xs_attachToken x = xs_attachToken x' → xs_attachToken x ≠ "" → id = id'.
Proof.
  intros [_ Htok Hgood] Hx Hx' Heq Hne.
  assert (∀ i y, objs !! i = Some y → xs_attachToken y = xs_attachToken x → tokens !! xs_attachToken x = Some i) as Hmap.
  { intros i y Hy Hty. apply Htok. split; [done|]. exists y. split; [done|]. split; [|done].
    destruct (xs_closed y) eqn:Hc; [|done]. destruct (Hgood _ _ Hy) as (_ & Hcy & _). destruct (Hcy Hc). congruence. }
  pose proof (Hmap _ _ Hx eq_refl). pose proof (Hmap _ _ Hx' (eq_sym Heq)). congruence.
Qed.

Section browser.
Context (now later : Time.time) (order : list string) (ids : gset string) (bs : gmap nat Browser) (i : nat).
Context (m : execTunnelManager) (Hm : manager_inv m) (Hbs : browsers_inv (objects m) ids bs)
  (Hd : tokens_drawn (objects m) ids).
Definition browser_step_ok (m' : execTunnelManager) (b' : Browser) : Prop :=
  manager_inv m' ∧ browsers_inv (objects m') ids (<[i := b']> bs) ∧ (∃ own, moved own (objects m) (objects m')) ∧
  dom (em_tunnelObjects m') = dom (em_tunnelObjects m).
Lemma step_settled b m' b' : bs !! i = Some b → settles m m' → (holds b' = None ∨ holds b' = holds b) →
  (attached b' = None ∨ attached b' = attached b) →
  (∀ token origin id x, b' = WsChecked token origin id → objects m' !! id = Some x → origin = Ok (xs_allowedOrigin x)) →
  browser_step_ok m' b'.
Proof.
  intros Hb Hs Hh Ha Hc. split; [apply (st_inv _ _ Hs)|].
  split; [eapply browsers_inv_same; [done..|by apply settles_moved|done|done|done]|].
  split; [exists ""; by apply settles_moved|apply (st_tunnels _ _ Hs)].
Qed.
Lemma reserve_step_ok token origin m' r : bs !! i = Some (WsStart token origin) →
  reserveSessionAttach token now order later m = (m', r) →
  browser_step_ok m' (match r with Ok id => WsReserved token origin id | Err _ => WsDone None end).
Proof.
  intros Hb Hr. apply reserve_spec in Hr; [|done]. destruct r as [id|e]; [|eapply step_settled; [done..|by left|by left|done]].
  destruct Hr as (m1 & s & Hs & (Hid & Hopen & Htok & Hne & Hexp) & Hnt & Hna & ->).
  pose proof (settles_moved token _ _ Hs) as Hmv. pose proof (st_inv _ _ Hs) as Hm1.
  pose proof (browsers_inv_moved _ _ _ _ (settles_moved "" _ _ Hs) Hbs) as Hbs1.
  assert (moved token (objects m1) (<[id := set_attaching true s]> (objects m1))) as Hmv1.
  { eapply moved_insert; [done|]. repeat split; auto. }
  pose proof (si_good _ _ _ (mi_sessions _ Hm1) _ _ Hid) as (Hg1 & Hg2 & Hg3).
  split; [|split; [|split; [exists token; by eapply moved_trans|apply (st_tunnels _ _ Hs)]]].
  - eapply manager_inv_set_session; [done..|]. split; [done|]. cbn. split; congruence.
  - cbn. eapply (browsers_inv_step token); [done|done| | | |done].
    + intros j bj id' Hj Hbj Hh. destruct (bo_holds _ _ _ (bi_ok _ _ _ Hbs1 _ _ Hbj) _ _ Hh) as (_ & _ & _ & Hall).
      destruct (Hall _ _ Hid Htok). congruence.
    + split; [|done|done]. intros t j [= <- <-]. split; [done|]. split.
      { destruct (tokens_drawn_moved _ _ _ _ Hmv Hd _ _ Hid) as [_ [Ht|Ht]]; congruence. }
      split; [rewrite lookup_insert_eq; by eexists|].
      intros k x [[<- <-]|[Hk Hx]]%lookup_insert_Some Hxt; [done|]. destruct (Hk (token_unique _ _ _ _ _ _ _ (mi_sessions _ Hm1) Hid Hx ltac:(congruence) ltac:(congruence))).
    + by intros t j [= <- <-].
Qed.
Lemma check_step_ok token origin id m' ok : bs !! i = Some (WsReserved token origin id) →
  checkOrigin origin token now order later m = (m', ok) →
  browser_step_ok m' (if ok then WsChecked token origin id else WsRejected token id).
Proof.
  intros Hb Hc. apply checkOrigin_spec in Hc as [Hs Hok]; [|done].
  pose proof (browsers_inv_moved _ _ _ _ (settles_moved "" _ _ Hs) Hbs) as Hbs1.
  destruct (bo_holds _ _ _ (bi_ok _ _ _ Hbs1 _ _ Hb) _ _ eq_refl) as (_ & _ & _ & Hall).
  eapply step_settled; [done|done|right; by destruct ok|left; by destruct ok|]. intros t o j x.
  destruct ok; [|done]. destruct (Hok eq_refl) as (k & s & (Hk & _ & Htok & _) & ->). intros [= <- <- <-] Hx.
  destruct (Hall _ _ Hk Htok) as [-> _]. congruence.
Qed.
Lemma release_step_ok token id : bs !! i = Some (WsRejected token id) →
  browser_step_ok (releaseSessionAttach token now order later m) (WsDone None).
Proof.
  intros Hb. destruct (release_spec token now order later m Hm)
    as [Hs|(m1 & j & s & Hs & (Hj & Hopen & Htok & Hne & Hexp) & Hnt & ->)]; [eapply step_settled; [done..|by left|by left|done]|].
  pose proof (st_inv _ _ Hs) as Hm1. pose proof (browsers_inv_moved _ _ _ _ (settles_moved "" _ _ Hs) Hbs) as Hbs1.
  assert (moved token (objects m1) (<[j := set_attaching false s]> (objects m1))) as Hmv1.
  { eapply moved_insert; [done|]. repeat split; auto. }
  pose proof (si_good _ _ _ (mi_sessions _ Hm1) _ _ Hj) as (Hg1 & Hg2 & Hg3).
  split; [|split; [|split; [exists token; eapply moved_trans; [by apply settles_moved|done]|apply (st_tunnels _ _ Hs)]]].
  - eapply manager_inv_set_session; [done..|]. split; [done|]. cbn. split; congruence.
  - cbn. eapply (browsers_inv_step token); [done|done| |by split|done|done].
    intros k bk id' Hk Hbk Hh. destruct Hk. by eapply (bi_one_holder _ _ _ Hbs).
Qed.
Lemma confirm_step_ok token origin id m' r : bs !! i = Some (WsChecked token origin id) →
  confirmSessionAttach token now order later m = (m', r) →
  browser_step_ok m' (match r with Ok id => WsAttached id origin later | Err _ => WsDone None end).
Proof.
  intros Hb Hr. apply confirm_spec in Hr; [|done]. destruct r as [j|e]; [|eapply step_settled; [done..|by left|by left|done]].
  destruct Hr as (m1 & s & Hs & (Hj & Hopen & Htok & Hne & Hexp) & Hnt & Hat & ->).
  pose proof (st_inv _ _ Hs) as Hm1. pose proof (browsers_inv_moved _ _ _ _ (settles_moved "" _ _ Hs) Hbs) as Hbs1.
  assert (moved token (objects m1) (<[j := confirmed s]> (objects m1))) as Hmv1.
  { eapply moved_insert; [done|]. repeat split; auto. }
  pose proof (bi_ok _ _ _ Hbs1 _ _ Hb) as [G1 G2 _].
  destruct (G1 _ _ eq_refl) as (_ & _ & _ & Hall). destruct (Hall _ _ Hj Htok) as [-> _].
  split; [|split; [|split; [exists token; eapply moved_trans; [by apply settles_moved|done]|apply (st_tunnels _ _ Hs)]]].
  - rewrite <-Htok. apply manager_inv_confirmed; [done..|congruence].
  - cbn. eapply (browsers_inv_step token); [done|done| | |done|].
    + intros k bk id' Hk Hbk Hh. destruct Hk. by eapply (bi_one_holder _ _ _ Hbs).
    + split; [done|done|]. intros k o t [= <- <- <-]. exists (confirmed s). rewrite lookup_insert_eq.
      repeat (split; [done|]). split; [by apply (G2 token _ id s)|done].
    + intros k bk id' o t o' t' Hk Hbk [= <- <- <-] Ha.
      destruct (bo_attached _ _ _ (bi_ok _ _ _ Hbs1 _ _ Hbk) _ _ _ Ha) as (x & Hx & Htx & _). congruence.
Qed.
Lemma browser_step_preserves b m' b' taken : bs !! i = Some b → browser_step now order later m b m' b' taken →
  browser_step_ok m' b'.
Proof.
  intros Hb Hstep. pose proof (settles_refl m Hm) as Hrefl. destruct Hstep.
  - by apply reserve_step_ok.
  - by apply check_step_ok.
  - eapply step_settled; [done|done|by right|by left|done].
  - eapply step_settled; [done|done|by right|by left|done].
  - by eapply release_step_ok.
  - by eapply confirm_step_ok.
  - assert (moved "" (objects m) (<[id := set_incoming rest s]> (objects m))) as Hmv.
    { eapply moved_insert; [done|]. repeat split; auto. }
    split; [|split; [|split; [by exists ""|done]]].
    + destruct (si_good _ _ _ (mi_sessions _ Hm) _ _ H) as (Hg1 & Hg2). eapply manager_inv_set_session; [done..|]. split; [|done].
      cbn. rewrite <-Hg1. unfold receive_chan in H0. destruct (ch_items (xs_incoming s)); [by case_match|]. by injection H0 as <- <-.
    + eapply browsers_inv_same; [done..|left; by destruct (forwardAgentMessageToBrowser _ _)| |by destruct (forwardAgentMessageToBrowser _ _)].
      right. by destruct (forwardAgentMessageToBrowser _ _).
  - eapply step_settled; [done|done|by left|by right|done].
  - eapply step_settled; [done|done|by left|by right|done].
  - eapply step_settled; [done|by apply closeSessionLocked_settles|by left|by right|done].
Qed.
End browser.

(** ** The messages of a session *)
Definition of_session (id : string) (l : list FromAgent) : list FromAgent := filter (λ f, fa_SessionId f = id) l.
Definition of_tunnel (tid : nat) (id : string) (l : list (nat * FromAgent)) : list (nat * FromAgent) :=
  filter (λ p, p.1 = tid ∧ fa_SessionId p.2 = id) l.
Definition waiting (objs : gmap string execSession) (id : string) : list FromAgent :=
  default [] (ch_items ∘ xs_incoming <$> objs !! id).
Definition is_closed (objs : gmap string execSession) (id : string) : bool := default false (xs_closed <$> objs !! id).
(** The message a receiver is about to put into the channel of a session. *)
Definition in_hand (hs : gmap nat TunnelHandler) (tid : nat) (id : string) : list (nat * FromAgent) :=
  match th_receiver <$> hs !! tid with
  | Some (RcvFound message) | Some (RcvFailed message) => of_tunnel tid id [(tid, message)]
  | _ => []
  end.
Record logs_inv objs hs (sent delivered : list (nat * FromAgent)) (consumed : list FromAgent) : Prop := {
  lg_waiting : ∀ id, of_session id delivered.*2 = of_session id consumed ++ waiting objs id;
  lg_own : ∀ id, Forall (λ f, fa_SessionId f = id) (waiting objs id);
  lg_prefix : ∀ tid id, of_tunnel tid id delivered `prefix_of` of_tunnel tid id sent;
  lg_gap : ∀ tid id, is_closed objs id = false → of_tunnel tid id sent = of_tunnel tid id delivered ++ in_hand hs tid id;
}.
(** A change of the sessions that keeps their messages and opens none again. *)
Lemma logs_inv_objs objs objs' hs sent delivered consumed : (∀ id, waiting objs' id = waiting objs id) →
  (∀ id, is_closed objs' id = false → is_closed objs id = false) → logs_inv objs hs sent delivered consumed →
  logs_inv objs' hs sent delivered consumed.
Proof. intros Hw Hc [L1 L2 L3 L4]. split; intros; [rewrite Hw; apply L1|rewrite Hw; apply L2|apply L3|by apply L4, Hc]. Qed.
Lemma settles_waiting m m' id : settles m m' → waiting (objects m') id = waiting (objects m) id.
Proof. intros [_ H1 _]. unfold waiting. by destruct (H1 id) as [x x' [->|[_ ->]]|]. Qed.
Lemma settles_closed m m' id : settles m m' → is_closed (objects m') id = false → is_closed (objects m) id = false.
Proof. intros [_ H1 _]. unfold is_closed. destruct (H1 id) as [x x' [->|[? ->]]|]; done. Qed.
Lemma logs_inv_settles m m' hs sent delivered consumed : settles m m' → logs_inv (objects m) hs sent delivered consumed →
  logs_inv (objects m') hs sent delivered consumed.
Proof. intros Hs. apply logs_inv_objs; intros id; [by apply settles_waiting|by apply settles_closed]. Qed.
Lemma insert_waiting objs id s i : waiting (<[id := s]> objs) i = if decide (i = id) then ch_items (xs_incoming s) else waiting objs i.
Proof. unfold waiting. case_decide as Hi; [subst; by rewrite lookup_insert_eq|by rewrite lookup_insert_ne]. Qed.
Lemma insert_closed objs id s i : is_closed (<[id := s]> objs) i = if decide (i = id) then xs_closed s else is_closed objs i.
Proof. unfold is_closed. case_decide as Hi; [subst; by rewrite lookup_insert_eq|by rewrite lookup_insert_ne]. Qed.
Lemma logs_inv_insert objs id s hs sent delivered consumed : ch_items (xs_incoming s) = waiting objs id →
  (xs_closed s = false → is_closed objs id = false) → logs_inv objs hs sent delivered consumed →
  logs_inv (<[id := s]> objs) hs sent delivered consumed.
Proof.
  intros Hw Hc. apply logs_inv_objs; intros i; [rewrite insert_waiting|rewrite insert_closed]; case_decide; subst; auto.
Qed.
Lemma logs_inv_update objs id s s' hs sent delivered consumed : objs !! id = Some s → xs_incoming s' = xs_incoming s →
  xs_closed s' = xs_closed s → logs_inv objs hs sent delivered consumed → logs_inv (<[id := s']> objs) hs sent delivered consumed.
Proof.
  intros Hs Hi Hc. apply logs_inv_insert; [unfold waiting|unfold is_closed]; rewrite Hs; cbn; congruence.
Qed.
Lemma in_hand_insert hs tid h tid' id :
  in_hand (<[tid := h]> hs) tid' id = if decide (tid' = tid) then
    match th_receiver h with RcvFound f | RcvFailed f => of_tunnel tid id [(tid, f)] | RcvIdle => [] end
  else in_hand hs tid' id.
Proof. unfold in_hand. case_decide; [subst; by rewrite lookup_insert_eq|by rewrite lookup_insert_ne]. Qed.
(** What a receiver has in hand changes to what was taken from the agent, or
    the sessions it loses a message of are closed. *)
Lemma logs_inv_receiver objs hs tid h sent new delivered consumed :
  (∀ tid' id, is_closed objs id = false →
    of_tunnel tid' id new ++ [] = if decide (tid' = tid) then
      (match th_receiver h with RcvFound f | RcvFailed f => of_tunnel tid id [(tid, f)] | RcvIdle => [] end) else []) →
  (∀ id, is_closed objs id = false → in_hand hs tid id = []) →
  logs_inv objs hs sent delivered consumed → logs_inv objs (<[tid := h]> hs) (sent ++ new) delivered consumed.
Proof.
  intros Hnew Hidle [L1 L2 L3 L4]. split; [done|done| |].
  - intros tid' id. unfold of_tunnel. rewrite filter_app. apply prefix_app_r, L3.
  - intros tid' id Hc. unfold of_tunnel in *. rewrite filter_app. specialize (Hnew tid' id Hc). rewrite List.app_nil_r in Hnew.
    rewrite in_hand_insert, (L4 _ _ Hc). destruct (decide (tid' = tid)) as [->|].
    + by rewrite (Hidle _ Hc), List.app_nil_r, Hnew.
    + by rewrite Hnew, List.app_nil_r.
Qed.
Lemma logs_inv_delivered objs hs tid h id s f sent delivered consumed :
  th_receiver h = RcvIdle → hs !! tid ≠ None → in_hand hs tid id = [(tid, f)] → fa_SessionId f = id → objs !! id = Some s →
  xs_closed s = false → (∀ i, i ≠ id → in_hand hs tid i = []) → logs_inv objs hs sent delivered consumed →
  logs_inv (<[id := set_incoming (MkChan (ch_items (xs_incoming s) ++ [f]) false) s]> objs) (<[tid := h]> hs) sent
    (delivered ++ [(tid, f)]) consumed.
Proof.
  intros Hidle Htid Hhand Hf Hs Hopen Hother [L1 L2 L3 L4].
  assert (waiting objs id = ch_items (xs_incoming s)) as Hw by (unfold waiting; by rewrite Hs).
  assert (is_closed objs id = false) as Hcl by (unfold is_closed; by rewrite Hs).
  assert (∀ t i, of_tunnel t i (delivered ++ [(tid, f)]) =
    of_tunnel t i delivered ++ if decide (t = tid ∧ i = id) then [(tid, f)] else []) as Happ.
  { intros t i. unfold of_tunnel. rewrite filter_app, filter_cons, filter_nil. cbn. repeat case_decide; naive_solver. }
  split.
  - intros i. rewrite fmap_app, insert_waiting. unfold of_session in *. rewrite filter_app, L1. change ([(tid, f)].*2) with [f].
    rewrite filter_cons, filter_nil. case_decide as Hi; case_decide as Hi'; try congruence; [|by rewrite List.app_nil_r].
    by rewrite Hi', Hw, <-List.app_assoc.
  - intros i. rewrite insert_waiting. case_decide as Hi; [|done]. cbn. apply Forall_app. split; [by rewrite <-Hw, Hi|].
    by rewrite Hi, Forall_singleton.
  - intros t i. rewrite Happ. case_decide as Hti; [destruct Hti as [-> ->]|by rewrite List.app_nil_r].
    by rewrite L4, Hhand.
  - intros t i. rewrite Happ, insert_closed, in_hand_insert, Hidle. cbn. intros Hc.
    assert (is_closed objs i = false) as Hci by (case_decide; congruence). rewrite (L4 t i Hci).
    destruct (decide (t = tid)) as [->|]; [destruct (decide (i = id)) as [->|Hne]|].
    + by rewrite decide_True, List.app_nil_r, Hhand by done.
    + by rewrite decide_False, (Hother _ Hne), !List.app_nil_r by tauto.
    + by rewrite decide_False, List.app_nil_r by tauto.
Qed.
Lemma logs_inv_consumed objs hs id s f rest sent delivered consumed : objs !! id = Some s →
  receive_chan (xs_incoming s) = Value f rest → ch_closed (xs_incoming s) = xs_closed s →
  logs_inv objs hs sent delivered consumed →
  logs_inv (<[id := set_incoming rest s]> objs) hs sent delivered (consumed ++ [f]).
Proof.
  intros Hs Hr Hg [L1 L2 L3 L4].
  assert (ch_items (xs_incoming s) = f :: ch_items rest) as Hit.
  { unfold receive_chan in Hr. destruct (ch_items (xs_incoming s)); [by case_match|]. by injection Hr as -> <-. }
  assert (waiting objs id = f :: ch_items rest) as Hw by (unfold waiting; rewrite Hs; exact Hit).
  pose proof (L2 id) as Hown. rewrite Hw in Hown. apply Forall_cons in Hown as [Hf Hown].
  split; [|intros i; rewrite insert_waiting; case_decide; [by subst|done]|done|].
  - intros i. rewrite L1, insert_waiting. unfold of_session. rewrite filter_app, filter_cons, filter_nil.
    case_decide as Hi; case_decide as Hi'; try congruence; [|by rewrite List.app_nil_r].
    subst i. by rewrite Hf, Hw, <-List.app_assoc.
  - intros t i. rewrite insert_closed. intros Hc. apply L4. case_decide; [|done]. subst. unfold is_closed. by rewrite Hs.
Qed.

Lemma moved_known own objs objs' id : moved own objs objs' → is_Some (objs !! id) → is_Some (objs' !! id).
Proof. intros Hmv [x Hx]. destruct (moved_target _ _ _ _ _ Hmv Hx) as (x' & ? & _). by eexists. Qed.
Lemma settles_known m m' id : settles m m' → is_Some (objects m !! id) → is_Some (objects m' !! id).
Proof. intros Hs. eapply moved_known. by apply (settles_moved ""). Qed.

(** ** The invariant of the whole *)
Record exec_inv (s : ExecSystem) : Prop := {
  xi_manager : manager_inv (es_manager s);
  xi_drawn : tokens_drawn (objects (es_manager s)) (es_ids s);
  xi_handlers : ∀ tid, is_Some (es_handlers s !! tid) → tid ∈ dom (em_tunnelObjects (es_manager s));
  xi_browsers : browsers_inv (objects (es_manager s)) (es_ids s) (es_browsers s);
  xi_known : ∀ tid h f, es_handlers s !! tid = Some h → th_receiver h = RcvFound f ∨ th_receiver h = RcvFailed f →
    is_Some (objects (es_manager s) !! fa_SessionId f);
  xi_logs : logs_inv (objects (es_manager s)) (es_handlers s) (es_sent s) (es_delivered s) (es_consumed s);
}.
Lemma exec_inv_start t : exec_inv (es_start t).
Proof.
  split; cbn.
  - split; [done| |]; cbn.
    + split; [intros id; split; [set_solver|intros (s & Hs & _); by rewrite lookup_empty in Hs]| |intros id s Hs; by rewrite lookup_empty in Hs].
      intros token id. rewrite lookup_empty. split; [done|]. intros (_ & s & Hs & _). by rewrite lookup_empty in Hs.
    + split; [intros n i; by rewrite lookup_empty|intros i; rewrite lookup_empty; by intros []].
  - intros id x. by rewrite lookup_empty.
  - intros tid. rewrite lookup_empty. by intros [].
  - split; intros *; rewrite lookup_empty; done.
  - done.
  - by split.
Qed.
(** The sessions settle, and the rest stays. *)
Lemma exec_inv_settles s m' : exec_inv s → settles (es_manager s) m' → exec_inv (es_set_manager m' s).
Proof.
  intros [Hm Hd Hh Hb Hk Hl] Hs. split; cbn.
  - apply (st_inv _ _ Hs).
  - eapply tokens_drawn_moved; [by apply (settles_moved "")|done].
  - by rewrite (st_tunnels _ _ Hs).
  - eapply browsers_inv_moved; [by apply settles_moved|done].
  - intros tid h f Htid Hf. by eapply settles_known, Hk.
  - by eapply logs_inv_settles.
Qed.
Lemma browsers_inv_ids objs ids ids' bs : ids ⊆ ids' → browsers_inv objs ids bs → browsers_inv objs ids' bs.
Proof.
  intros Hsub [Hok H1 H2]. split; [|done..]. intros i b Hb. destruct (Hok _ _ Hb) as [G1 G2 G3]. split; [|done..].
  intros token id Hh. destruct (G1 _ _ Hh) as (? & ? & ?). split_and!; [done|set_solver|tauto..].
Qed.
Lemma logs_inv_hands objs hs hs' sent delivered consumed : (∀ t i, in_hand hs' t i = in_hand hs t i) →
  logs_inv objs hs sent delivered consumed → logs_inv objs hs' sent delivered consumed.
Proof. intros Hh [L1 L2 L3 L4]. split; [done..|]. intros t i. rewrite Hh. apply L4. Qed.
Lemma in_hand_none hs tid id : hs !! tid = None → in_hand hs tid id = [].
Proof. intros Hn. unfold in_hand. by rewrite Hn. Qed.
Lemma in_hand_idle hs tid h id : hs !! tid = Some h → th_receiver h = RcvIdle → in_hand hs tid id = [].
Proof. intros Hh Hr. unfold in_hand. rewrite Hh. cbn. by rewrite Hr. Qed.
Lemma in_hand_some hs tid h f id : hs !! tid = Some h → th_receiver h = RcvFound f ∨ th_receiver h = RcvFailed f →
  in_hand hs tid id = if decide (fa_SessionId f = id) then [(tid, f)] else [].
Proof.
  intros Hh Hr. unfold in_hand. rewrite Hh. cbn. assert (of_tunnel tid id [(tid, f)] = if decide (fa_SessionId f = id) then [(tid, f)] else []) as Hof.
  { unfold of_tunnel. rewrite filter_cons, filter_nil. cbn. repeat case_decide; tauto. }
  destruct Hr as [-> | ->]; exact Hof.
Qed.
Lemma browser_step_logs now later order m b m' b' taken hs sent delivered consumed : manager_inv m →
  browser_step now order later m b m' b' taken → logs_inv (objects m) hs sent delivered consumed →
  logs_inv (objects m') hs sent delivered (consumed ++ taken).
Proof.
  intros Hm Hstep Hl. destruct Hstep; rewrite ?List.app_nil_r; try done.
  - apply reserve_spec in H; [|done]. destruct r as [id|e]; [|by eapply logs_inv_settles].
    destruct H as (m1 & s & Hs & (Hid & _) & _ & _ & ->). apply (logs_inv_settles _ _ _ _ _ _ Hs) in Hl.
    by eapply logs_inv_update.
  - apply checkOrigin_spec in H as [Hs _]; [|done]. by eapply logs_inv_settles.
  - destruct (release_spec token now order later m Hm) as [Hs|(m1 & id' & s & Hs & (Hid & _) & _ & ->)]; [by eapply logs_inv_settles|].
    apply (logs_inv_settles _ _ _ _ _ _ Hs) in Hl. by eapply logs_inv_update.
  - apply confirm_spec in H; [|done]. destruct r as [id'|e]; [|by eapply logs_inv_settles].
    destruct H as (m1 & s & Hs & (Hid & _) & _ & _ & ->). apply (logs_inv_settles _ _ _ _ _ _ Hs) in Hl.
    by eapply logs_inv_update.
  - eapply logs_inv_consumed; [done..| |done]. by destruct (si_good _ _ _ (mi_sessions _ Hm) _ _ H).
  - eapply logs_inv_settles; [by apply closeSessionLocked_settles|done].
Qed.

(** ** Every step keeps it *)
Lemma exec_inv_register nodeID s m' tid : exec_inv s → registerTunnel nodeID (es_manager s) = (m', tid) →
  exec_inv (es_set_handler tid (MkHandler nodeID true RcvIdle) (es_set_manager m' s)).
Proof.
  intros [Hm Hd Hh Hb Hk Hl] Hr. destruct (registerTunnel_spec _ _ _ _ Hm Hr) as (Hm' & Ho & Hnew & Hdom).
  assert (es_handlers s !! tid = None) as Hnone.
  { apply eq_None_not_Some. intros Hs%Hh. by apply not_elem_of_dom in Hnew. }
  split; cbn; rewrite ?Ho; [done|done| |done| |].
  - intros i. rewrite Hdom. destruct (decide (i = tid)) as [->|]; [set_solver|]. rewrite lookup_insert_ne by done.
    intros Hi%Hh. set_solver.
  - intros i h f [[<- <-]|[_ Hi]]%lookup_insert_Some; [by intros [|]|by eapply Hk].
  - eapply logs_inv_hands; [|done]. intros t i. rewrite in_hand_insert. case_decide; [|done]. subst. by rewrite in_hand_none.
Qed.
(** The handler of a tunnel goes on, with its receiver as it was. *)
Lemma exec_inv_handler s tid h h' : exec_inv s → es_handlers s !! tid = Some h → th_receiver h' = th_receiver h →
  exec_inv (es_set_handler tid h' s).
Proof.
  intros [Hm Hd Hh Hb Hk Hl] Htid Hr. split; cbn; [done|done| |done| |].
  - intros i Hi. apply Hh. destruct (decide (i = tid)) as [->|]; [by eexists|by rewrite lookup_insert_ne in Hi by done].
  - intros i x f [[<- <-]|[_ Hi]]%lookup_insert_Some; [rewrite Hr|]; by eapply Hk.
  - eapply logs_inv_hands; [|done]. intros t i. rewrite in_hand_insert. case_decide; [|done]. subst.
    unfold in_hand. rewrite Htid. cbn. by rewrite Hr.
Qed.
Lemma exec_inv_receiver s tid h h' new : exec_inv s → es_handlers s !! tid = Some h →
  (∀ f, th_receiver h' = RcvFound f ∨ th_receiver h' = RcvFailed f → is_Some (objects (es_manager s) !! fa_SessionId f)) →
  (∀ tid' id, is_closed (objects (es_manager s)) id = false →
    of_tunnel tid' id new ++ [] = if decide (tid' = tid) then
      (match th_receiver h' with RcvFound f | RcvFailed f => of_tunnel tid id [(tid, f)] | RcvIdle => [] end) else []) →
  (∀ id, is_closed (objects (es_manager s)) id = false → in_hand (es_handlers s) tid id = []) →
  exec_inv (es_log new [] [] (es_set_handler tid h' s)).
Proof.
  intros [Hm Hd Hh Hb Hk Hl] Htid Hknown Hnew Hidle. split; cbn; [done|done| |done| |].
  - intros i Hi. apply Hh. destruct (decide (i = tid)) as [->|]; [by eexists|by rewrite lookup_insert_ne in Hi by done].
  - intros i x f [[<- <-]|[_ Hi]]%lookup_insert_Some; [apply Hknown|by eapply Hk].
  - rewrite !List.app_nil_r. by apply logs_inv_receiver.
Qed.
Lemma exec_inv_message s tid h message order m' found : exec_inv s → es_handlers s !! tid = Some h → th_receiver h = RcvIdle →
  lookupSession (fa_SessionId message) (es_clock s) order (es_manager s) = (m', found) →
  exec_inv (es_log (if decide (is_Some (objects m' !! fa_SessionId message)) then [(tid, message)] else []) [] []
    (es_set_handler tid (MkHandler (th_nodeID h) (th_open h) (if found then RcvFound message else RcvIdle))
      (es_set_manager m' s))).
Proof.
  intros Hinv Htid Hr [= <- <-]. pose proof (sweep_settles (es_clock s) order _ (xi_manager _ Hinv)) as Hs.
  set (m' := sweepExpiredSessionsLocked _ _ _) in *. apply (exec_inv_settles _ _ Hinv) in Hs as Hinv'.
  eapply exec_inv_receiver; [done|exact Htid| | |].
  - intros f. cbn. case_bool_decide as Hl; [|by intros [|]]. intros [[= <-]|]; [|done].
    destruct Hl as [x Hx]. apply live_session_spec in Hx as [_ Hx]. by eexists.
  - intros t i Hc. cbn in *. rewrite List.app_nil_r. unfold of_tunnel. case_bool_decide as Hl.
    + destruct Hl as [x Hx]. apply live_session_spec in Hx as [_ Hx]. rewrite decide_True by by eexists.
      rewrite !filter_cons, filter_nil. cbn. repeat case_decide; naive_solver.
    + case_decide as Ho; [|by rewrite filter_nil; case_decide]. destruct Ho as [x Hx].
      rewrite filter_cons, filter_nil. cbn. case_decide as Hti; [|by case_decide]. destruct Hti as [<- <-].
      destruct Hl. exists x. apply live_session_open; [apply (st_inv _ _ (sweep_settles (es_clock s) order _ (xi_manager _ Hinv)))|].
      split; [done|]. unfold is_closed in Hc. by rewrite Hx in Hc.
  - intros id _. by eapply in_hand_idle.
Qed.
Lemma exec_inv_deliver s tid h message m' done : exec_inv s → es_handlers s !! tid = Some h →
  th_receiver h = RcvFound message → deliver (fa_SessionId message) message (es_manager s) = (m', done) →
  exec_inv (es_log [] (if done then [(tid, message)] else []) []
    (es_set_handler tid (MkHandler (th_nodeID h) (th_open h) (if done then RcvIdle else RcvFailed message))
      (es_set_manager m' s))).
Proof.
  intros [Hm Hd Hh Hb Hk Hl] Htid Hr Hdel. apply deliver_spec in Hdel; [|done].
  assert (∀ i, in_hand (es_handlers s) tid i = if decide (fa_SessionId message = i) then [(tid, message)] else []) as Hhand.
  { intros i. eapply in_hand_some; eauto. }
  assert (∀ i, is_Some (<[tid := MkHandler (th_nodeID h) (th_open h) (if done then RcvIdle else RcvFailed message)]>
    (es_handlers s) !! i) → is_Some (es_handlers s !! i)) as Hin.
  { intros i. destruct (decide (i = tid)) as [->|]; [by eexists|by rewrite lookup_insert_ne]. }
  destruct done; [|subst m'].
  - destruct Hdel as (x & Hx & Hopen & ->).
    assert (moved "" (objects (es_manager s))
      (<[fa_SessionId message := set_incoming (MkChan (ch_items (xs_incoming x) ++ [message]) false) x]> (objects (es_manager s)))) as Hmv.
    { eapply moved_insert; [done|]. repeat split; auto. }
    destruct (si_good _ _ _ (mi_sessions _ Hm) _ _ Hx) as (_ & Hg). split; cbn.
    + eapply manager_inv_set_session; [done..|]. by split.
    + by eapply tokens_drawn_moved.
    + intros i Hi. by apply Hh, Hin.
    + by eapply browsers_inv_moved.
    + intros i y f [[<- <-]|[_ Hi]]%lookup_insert_Some; [by intros [|]|]. intros Hf. by eapply moved_known, Hk.
    + rewrite !List.app_nil_r. eapply (logs_inv_delivered _ _ tid); try done; [congruence| |].
      * by rewrite Hhand, decide_True.
      * intros i Hi. by rewrite Hhand, decide_False.
  - split; cbn; [done|done|by intros i Hi; apply Hh, Hin|done| |].
    + intros i y f [[<- <-]|[_ Hi]]%lookup_insert_Some; [|by eapply Hk]. intros [|[= <-]]; [done|]. eapply Hk; [done|by left].
    + rewrite !List.app_nil_r. eapply logs_inv_hands; [|done]. intros t i. rewrite in_hand_insert. case_decide; [|done]. subst.
      cbn. unfold in_hand. rewrite Htid. cbn. by rewrite Hr.
Qed.
Lemma exec_inv_refused s tid h message : exec_inv s → es_handlers s !! tid = Some h → th_receiver h = RcvFailed message →
  exec_inv (es_set_handler tid (MkHandler (th_nodeID h) (th_open h) RcvIdle)
    (es_set_manager (closeSessionLocked (fa_SessionId message) (es_manager s)) s)).
Proof.
  intros Hinv Htid Hr. pose proof (xi_manager _ Hinv) as Hm.
  pose proof (closeSessionLocked_settles (fa_SessionId message) _ Hm) as Hs.
  apply (exec_inv_settles _ _ Hinv) in Hs as Hinv'.
  pose proof (exec_inv_receiver _ _ _ (MkHandler (th_nodeID h) (th_open h) RcvIdle) [] Hinv' Htid) as Hrec.
  unfold es_log in Hrec. cbn in Hrec. rewrite !List.app_nil_r in Hrec. apply Hrec.
  - by intros f [|].
  - intros t i _. by case_decide.
  - intros id Hc. erewrite in_hand_some by eauto. case_decide as Hid; [|done]. subst id.
    destruct (settles_known _ _ _ Hs (xi_known _ Hinv _ _ message Htid (or_intror Hr))) as [x Hx].
    pose proof (closeSessionLocked_closes _ _ _ Hm Hx). unfold is_closed in Hc. rewrite Hx in Hc. cbn in Hc. congruence.
Qed.
Lemma exec_inv_draw s ids : exec_inv s → exec_inv (es_draw ids s).
Proof.
  intros [Hm Hd Hh Hb Hk Hl]. split; cbn; [done| |done| |done|done].
  - intros id x Hx. destruct (Hd _ _ Hx) as [? [|]]; split; [set_solver|by left|set_solver|right; set_solver].
  - eapply browsers_inv_ids; [|done]. set_solver.
Qed.
Lemma exec_inv_open s nodeID containerID command rows cols origin createdBy order later token id m' r : exec_inv s →
  token ≠ "" → token ∉ es_ids s → id ∉ es_ids s →
  openSession nodeID containerID command rows cols origin createdBy (es_clock s) order later token id (es_manager s) = (m', r) →
  exec_inv (es_draw {[token; id]} (es_set_clock later (es_set_manager m' s))).
Proof.
  intros Hinv Hne Htok Hid Hop. pose proof Hinv as [Hm Hd Hh Hb Hk Hl].
  assert (objects (es_manager s) !! id = None) as Hnone.
  { apply eq_None_not_Some. intros [x Hx]. by destruct (Hd _ _ Hx). }
  apply openSession_spec in Hop; [|done|done| |done].
  2: { intros i x Hx Ht. destruct (Hd _ _ Hx) as [_ [|]]; congruence. }
  destruct Hop as [Hs|(m1 & m2 & x & Hs & Hid1 & Hop & Ho & Ht & Hm2 & Hs2)].
  { apply (exec_inv_draw (es_set_clock later (es_set_manager m' s))). by destruct (exec_inv_settles _ _ Hinv Hs). }
  pose proof (exec_inv_settles _ _ Hinv Hs) as [Hm1 Hd1 Hh1 Hb1 Hk1 Hl1]. cbn in *.
  assert (exec_inv (es_set_manager m2 (es_draw {[token; id]} (es_set_clock later s)))) as Hinv2.
  { pose proof Hop as (Hinc & _ & _ & Hopen & Hxt). split; cbn; rewrite ?Ho, ?Ht; try done.
    - intros i y [[<- <-]|[_ Hy]]%lookup_insert_Some; [split; [set_solver|right; rewrite Hxt; set_solver]|].
      destruct (Hd1 _ _ Hy) as [? [|]]; split; [set_solver|by left|set_solver|right; set_solver].
    - eapply browsers_inv_new; [|exact Htok|done|done|done]. set_solver.
    - intros t h f Hth Hf. rewrite lookup_insert_is_Some'. right. by eapply Hk1.
    - apply logs_inv_insert; [..|done]; [rewrite Hinc; unfold waiting|unfold is_closed]; by rewrite Hid1. }
  by destruct (exec_inv_settles _ _ Hinv2 Hs2).
Qed.

Section steps.
Context `{OriginURLs, ControlJSON}.
Lemma exec_inv_step s s' : exec_inv s → exec_step s s' → exec_inv s'.
Proof.
  intros Hinv Hstep. pose proof (xi_manager _ Hinv) as Hm. destruct Hstep.
  - by destruct Hinv.
  - by eapply exec_inv_register.
  - apply exec_inv_settles; [done|]. apply keeps_settles. eapply keeps_set_tunnel; [done|].
    eapply manager_inv_set_tunnel; [done..|left]. cbn. unfold receive_chan in *. destruct (ch_items (tn_sendCh t)); [by case_match|].
    by simplify_eq.
  - eapply exec_inv_handler; [|done|done]. apply exec_inv_settles; [done|]. by apply unregisterTunnel_settles.
  - by eapply exec_inv_message.
  - by eapply exec_inv_deliver.
  - by eapply exec_inv_refused.
  - by eapply exec_inv_open.
  - apply exec_inv_settles; [done|]. unfold hasTunnel in *. simplify_eq. by apply sweep_settles.
  - apply exec_inv_settles; [done|]. by apply sweep_settles.
  - destruct Hinv as [_ Hd Hh Hb Hk Hl]. split; try done. cbn.
    assert (holds (handleWebsocket path origin) = None ∧ attached (handleWebsocket path origin) = None ∧
      ∀ t o j, handleWebsocket path origin ≠ WsChecked t o j) as (Hno & Hna & Hnc).
    { unfold handleWebsocket. by case_decide. }
    eapply (browsers_inv_step ""); [done|intros id; destruct (objects _ !! id); constructor; repeat split; auto| | | |].
    + intros j bj id _ Hj Hh'. by destruct (bo_holds _ _ _ (bi_ok _ _ _ Hb _ _ Hj) _ _ Hh').
    + split; [by rewrite Hno| |by rewrite Hna]. intros t o j x Hc. by destruct (Hnc t o j).
    + by rewrite Hno.
    + by rewrite Hna.
  - pose proof Hinv as [_ Hd Hh Hb Hk Hl].
    match goal with Hst : browser_step _ _ _ _ _ _ _ _ |- _ =>
      pose proof (browser_step_logs _ _ _ _ _ _ _ _ _ _ _ _ Hm Hst Hl);
      eapply browser_step_preserves in Hst as (Hm' & Hb' & (own & Hmv) & Hdom); [|done..] end.
    split; cbn; rewrite ?Hdom, ?List.app_nil_r; [done|by eapply tokens_drawn_moved|done|done| |done].
    intros tid h f Ht Hf. by eapply moved_known, Hk.
  - apply exec_inv_settles; [done|]. by eapply sendToSessionNode_settles.
Qed.
Lemma exec_reachable_inv s : exec_reachable s → exec_inv s.
Proof.
  intros [t Hs]. pose proof (exec_inv_start t) as Hinv. revert Hs Hinv.
  induction 1 as [|s1 s2 s3 Hstep _ IH]; [done|]. intros Hinv. by eapply IH, exec_inv_step.
Qed.

(** C37: a terminal is given once, and to the browser it was opened for.  In
    every state the goroutines of the controller reach, no channel was closed
    twice or sent to after it was closed; of all the browsers that ask for the
    terminal of a session, whatever they race for, at most one was ever
    attached to it; the page it came from has the origin the session was
    opened for; and it was attached before the token expired. *)
Theorem exec_terminal_is_exclusive s : exec_reachable s →
  em_panicked (es_manager s) = false ∧
  (∀ i j bi bj id origin origin' at_ at', es_browsers s !! i = Some bi → es_browsers s !! j = Some bj →
     attached bi = Some (id, origin, at_) → attached bj = Some (id, origin', at') → i = j) ∧
  (∀ i b id origin at_, es_browsers s !! i = Some b → attached b = Some (id, origin, at_) →
     ∃ x, em_sessionObjects (es_manager s) !! id = Some x ∧ origin = Ok (xs_allowedOrigin x) ∧
          (at_ < xs_attachExpiresAt x)%Z ∧ xs_attachToken x = "" ∧
          ∀ token, em_attachTokens (es_manager s) !! token ≠ Some id).
Proof.
  intros Hs%exec_reachable_inv. pose proof (xi_manager _ Hs) as Hm. pose proof (xi_browsers _ Hs) as Hb.
  split; [apply (mi_panic _ Hm)|]. split; [intros; by eapply (bi_one_attached _ _ _ Hb)|].
  intros i b id origin at_ Hi Ha. destruct (bo_attached _ _ _ (bi_ok _ _ _ Hb _ _ Hi) _ _ _ Ha) as (x & Hx & Ht & Ho & Hat).
  destruct (si_good _ _ _ (mi_sessions _ Hm) _ _ Hx) as (_ & _ & Hg). destruct (Hg Ht) as [_ Htok].
  exists x. split_and!; [done..|]. intros token (Hne & y & Hy & _ & Hyt)%(si_tokens _ _ _ (mi_sessions _ Hm)). congruence.
Qed.

(** C38: what a terminal shows is what the agent sent.  In every reachable
    state, for a session whose messages all came through one tunnel, the
    messages its browser took are a prefix of those the agent sent for it, in
    their order; and as long as the session is open none is lost: those sent
    are the ones taken, then those that wait in the channel, then the one the
    receiver of the tunnel is about to put there. *)
Theorem exec_output_in_order s tid id x : exec_reachable s → em_sessionObjects (es_manager s) !! id = Some x →
  Forall (λ p, fa_SessionId p.2 = id → p.1 = tid) (es_sent s) →
  of_session id (es_consumed s) `prefix_of` of_session id (es_sent s).*2 ∧
  (xs_closed x = false → of_session id (es_sent s).*2 =
     of_session id (es_consumed s) ++ ch_items (xs_incoming x) ++ (in_hand (es_handlers s) tid id).*2).
Proof.
  intros Hs%exec_reachable_inv Hx Hone. destruct (xi_logs _ Hs) as [L1 _ L3 L4].
  assert (∀ l, Forall (λ p, fa_SessionId p.2 = id → p.1 = tid) l → of_session id l.*2 = (of_tunnel tid id l).*2) as Hof.
  { intros l Hl. induction Hl as [|p l Hp Hl IH]; [done|]. unfold of_session, of_tunnel in *. change ((p :: l).*2) with (p.2 :: l.*2).
    rewrite !filter_cons, IH. repeat case_decide; naive_solver. }
  assert (of_session id (es_delivered s).*2 = (of_tunnel tid id (es_delivered s)).*2) as Hdel.
  { apply Hof, Forall_forall. intros p Hp Hid. rewrite Forall_forall in Hone.
    assert (p ∈ of_tunnel p.1 id (es_delivered s)) as Hin by (unfold of_tunnel; by apply list_elem_of_filter).
    apply (Hone p); [|done]. destruct (L3 p.1 id) as [k Hk].
    assert (p ∈ of_tunnel p.1 id (es_sent s)) as Hsent by (rewrite Hk; apply elem_of_app; by left).
    unfold of_tunnel in Hsent. by apply list_elem_of_filter in Hsent as [_ Hsent]. }
  pose proof (L1 id) as Hw. rewrite Hdel in Hw. rewrite (Hof _ Hone). split.
  - destruct (L3 tid id) as [k ->]. rewrite fmap_app, Hw, <-List.app_assoc. by eexists.
  - intros Hopen. rewrite (L4 tid id) by (unfold is_closed; by rewrite Hx). rewrite fmap_app, Hw, <-List.app_assoc.
    unfold waiting. by rewrite Hx.
Qed.
End steps.

(** ** A terminal, from its opening to its first output *)
Section example.
#[local] Instance example_origins : OriginURLs := λ s, if decide (s = "https://a") then Some (MkOriginURL "https" "a" false "" "" "") else None.
#[local] Instance example_control : ControlJSON := λ _, None.
#[local] Abbreviation T0 := 0%Z (only parsing).
Definition hello : FromAgent := MkFromAgent "s" execKindOutput "hello".
Definition with_manager (f : execTunnelManager → execTunnelManager) (s : ExecSystem) : ExecSystem :=
  es_set_manager (f (es_manager s)) s.
Definition x1 : ExecSystem :=
  es_set_handler 0 (MkHandler "n1" true RcvIdle) (with_manager (λ m, (registerTunnel "n1" m).1) (es_start T0)).
Definition x2 : ExecSystem :=
  es_draw {["t"; "s"]} (es_set_clock T0
    (with_manager (λ m, (openSession "n1" "c1" ["sh"] 24%Z 80%Z "https://a" "admin" T0 [] T0 "t" "s" m).1) x1)).
Definition x3 : ExecSystem := es_set_browser 0 (handleWebsocket "/api/controller/ws/container-exec/t" "https://a") x2.
Definition ws_step (b : Browser) (f : execTunnelManager → execTunnelManager) (taken : list FromAgent) (s : ExecSystem) : ExecSystem :=
  es_log [] [] taken (es_set_browser 0 b (es_set_clock T0 (with_manager f s))).
Definition x4 : ExecSystem := ws_step (WsReserved "t" (Ok "https://a") "s") (λ m, (reserveSessionAttach "t" T0 ["s"] T0 m).1) [] x3.
Definition x5 : ExecSystem :=
  ws_step (WsChecked "t" (Ok "https://a") "s") (λ m, (checkOrigin (Ok "https://a") "t" T0 ["s"] T0 m).1) [] x4.
Definition x6 : ExecSystem := ws_step (WsAttached "s" (Ok "https://a") T0) (λ m, (confirmSessionAttach "t" T0 ["s"] T0 m).1) [] x5.
Definition x7 : ExecSystem :=
  es_log [(0%nat, hello)] [] [] (es_set_handler 0 (MkHandler "n1" true (RcvFound hello))
    (with_manager (λ m, (lookupSession "s" T0 ["s"] m).1) x6)).
Definition x8 : ExecSystem :=
  es_log [] [(0%nat, hello)] [] (es_set_handler 0 (MkHandler "n1" true RcvIdle) (with_manager (λ m, (deliver "s" hello m).1) x7)).
Definition x9 : ExecSystem :=
  ws_step (WsAttached "s" (Ok "https://a") T0)
    (λ m, match em_sessionObjects m !! "s" with Some x => em_set_session "s" (set_incoming make_chan x) m | None => m end) [hello] x8.
Lemma ws_reaches s b b' f taken : es_browsers s !! 0%nat = Some b → es_clock s = 0%Z → em_sessions (es_manager s) = {["s"]} →
  browser_step T0 ["s"] T0 (es_manager s) b (f (es_manager s)) b' taken → exec_reachable s → exec_reachable (ws_step b' f taken s).
Proof.
  intros Hb Hc Hs Hstep [t Hr]. exists t. eapply rtc_r; [exact Hr|]. unfold ws_step, with_manager.
  apply (StepHandler _ _ b ["s"] T0); rewrite ?Hc; try done. unfold ranges. by rewrite Hs, elements_singleton.
Qed.
Lemma x3_reachable : exec_reachable x3.
Proof.
  exists T0. eapply rtc_l; [eapply (StepRegister _ "n1" _ 0), pair_snd; by vm_compute|].
  eapply rtc_l; [|eapply rtc_l; [|apply rtc_refl]].
  - eapply (StepOpen x1 "n1" "c1" ["sh"] 24%Z 80%Z "https://a" "admin" [] T0 "t" "s" _ (Ok ("s", "t")));
      [by vm_compute|done|done|done|apply not_elem_of_empty|apply not_elem_of_empty|apply pair_snd; by vm_compute].
  - by apply (StepBrowser x2).
Qed.
Lemma x6_reachable : exec_reachable x6.
Proof.
  eapply ws_reaches; [by vm_compute..| |].
  { eapply (BConfirm _ _ _ _ _ _ _ _ (Ok "s")), pair_snd. by vm_compute. }
  eapply ws_reaches; [by vm_compute..| |].
  { eapply (BCheck _ _ _ _ _ _ _ _ true), pair_snd. by vm_compute. }
  eapply ws_reaches; [by vm_compute..| |apply x3_reachable].
  eapply (BReserve _ _ _ _ _ _ _ (Ok "s")), pair_snd. by vm_compute.
Qed.
Lemma x9_reachable : exec_reachable x9.
Proof.
  eapply ws_reaches; [by vm_compute..| |].
  { eapply (BForward _ _ _ _ "s" _ _ _ hello make_chan true); by vm_compute. }
  destruct x6_reachable as [t Hr]. exists t. eapply rtc_r; [eapply rtc_r; [exact Hr|]|].
  - eapply (StepMessage x6 0 (MkHandler "n1" true RcvIdle) hello ["s"] _ true); [by vm_compute..| |apply pair_snd; by vm_compute].
    unfold ranges. by vm_compute.
  - eapply (StepDeliver x7 0 (MkHandler "n1" true (RcvFound hello)) hello _ true); [by vm_compute..|apply pair_snd; by vm_compute].
Qed.
Lemma exec_terminal_is_exclusive_witness :
  ∃ x, em_sessionObjects (es_manager x9) !! "s" = Some x ∧ xs_allowedOrigin x = "https://a".
Proof.
  destruct (exec_terminal_is_exclusive x9 x9_reachable) as (_ & _ & Hatt).
  destruct (Hatt 0%nat (WsAttached "s" (Ok "https://a") T0) "s" (Ok "https://a") T0) as (x & Hx & Ho & _).
  - by vm_compute.
  - done.
  - exists x. split; [done|]. by injection Ho.
Defined.
Lemma exec_output_in_order_witness : of_session "s" (es_consumed x9) `prefix_of` of_session "s" (es_sent x9).*2 ∧
  es_consumed x9 = [hello].
Proof.
  split; [|by vm_compute]. destruct (em_sessionObjects (es_manager x9) !! "s") as [x|] eqn:Hx; [|by vm_compute in Hx].
  refine (proj1 (exec_output_in_order x9 0 "s" x x9_reachable Hx _)). by repeat constructor.
Defined.

(** A node that opens its tunnel again, before the controller notices that the
    old one is gone, keeps the sessions of the old one: the agent no longer
    knows them, and no step closes them or tells their browsers. *)
Example reconnected_node_keeps_sessions :
  let '(m, old) := registerTunnel "n1" newExecTunnelManager in
  let '(m, _) := openSession "n1" "c1" ["sh"] 24%Z 80%Z "https://a" "admin" T0 [] T0 "t" "s" m in
  let '(m, new) := registerTunnel "n1" m in
  let m := unregisterTunnel "n1" old ["s"] m in
  (xs_closed <$> live_session "s" m) = Some false ∧
  ((λ t, (t.1, ch_closed (tn_sendCh t.2), ch_items (tn_sendCh t.2))) <$> node_tunnel "n1" m) = Some (new, false, []).
Proof. by vm_compute. Qed.
End example.
