(* ===== verification/FollowedLogs.v ===== *)
(** * Followed logs of containers and tasks
    (src/internal/app/controller/container_log_tunnel.go, container.go,
    task_service.go)

    The tunnels of the terminals, for the logs of containers: a client opens a
    session, the agent sends its chunks and that it ended, and the handler of
    the client passes the contents on.  A handler that reads a session holds a
    pointer to it, so here too a session outlives the map.  The log of a task
    is a file that grows while a client follows it. *)
From S2P Require Export DockerHandlers.

Definition containerLogKindReady : string := "ready".
Definition containerLogKindStart : string := "start".
Definition containerLogKindClose : string := "close".
Definition containerLogKindChunk : string := "chunk".
Definition containerLogKindError : string := "error".
Definition containerLogKindClosed : string := "closed".
Record LogRequest := MkLogRequest {
  lr_SessionId : string;
  lr_Kind : string;
  lr_ContainerId : string;
  lr_Tail : string;
  lr_Timestamps : bool;
}.
Record LogMessage := MkLogMessage {
  lm_SessionId : string;
  lm_Kind : string;
  lm_Content : string;
  lm_ErrorCode : string;
  lm_ErrorMessage : string;
}.
Record agentContainerLogTunnel := MkTunnel { tn_nodeID : string; tn_sendCh : Chan LogRequest }.
Record containerLogSession := MkSession {
  ls_nodeID : string;
  ls_incoming : Chan LogMessage;
  ls_created : Time.time;
  ls_closed : bool;
}.
Record containerLogTunnelManager := MkManager {
  lm_tunnelObjects : gmap nat agentContainerLogTunnel;
  lm_sessionObjects : gmap string containerLogSession;
  lm_tunnels : gmap string nat;
  lm_sessions : gset string;
  lm_panicked : bool;
}.
Definition newContainerLogTunnelManager : containerLogTunnelManager := MkManager ∅ ∅ ∅ ∅ false.
Definition set_tunnel tid t m := MkManager (<[tid := t]> (lm_tunnelObjects m)) (lm_sessionObjects m) (lm_tunnels m) (lm_sessions m) (lm_panicked m).
Definition set_session id s m := MkManager (lm_tunnelObjects m) (<[id := s]> (lm_sessionObjects m)) (lm_tunnels m) (lm_sessions m) (lm_panicked m).
Definition set_tunnels tunnels m := MkManager (lm_tunnelObjects m) (lm_sessionObjects m) tunnels (lm_sessions m) (lm_panicked m).
Definition set_sessions sessions m := MkManager (lm_tunnelObjects m) (lm_sessionObjects m) (lm_tunnels m) sessions (lm_panicked m).
Definition set_panic m := MkManager (lm_tunnelObjects m) (lm_sessionObjects m) (lm_tunnels m) (lm_sessions m) true.

(** [session.close]. *)
Definition close_session (id : string) (m : containerLogTunnelManager) : containerLogTunnelManager :=
  match lm_sessionObjects m !! id with
  | None => m
  | Some s =>
      if ls_closed s then m
      else match close_chan (ls_incoming s) with
           | None => set_panic m
           | Some c => set_session id (MkSession (ls_nodeID s) c (ls_created s) true) m
           end
  end.
Definition deliver (id : string) (message : LogMessage) (m : containerLogTunnelManager) : containerLogTunnelManager * bool :=
  match lm_sessionObjects m !! id with
  | None => (m, false)
  | Some s =>
      if ls_closed s then (m, false)
      else match try_send message (ls_incoming s) with
           | None => (set_panic m, false)
           | Some (c, sent) => (set_session id (MkSession (ls_nodeID s) c (ls_created s) (ls_closed s)) m, sent)
           end
  end.
Definition close_tunnel (tid : nat) (m : containerLogTunnelManager) : containerLogTunnelManager :=
  match lm_tunnelObjects m !! tid with
  | None => m
  | Some t => match close_chan (tn_sendCh t) with
              | None => set_panic m
              | Some c => set_tunnel tid (MkTunnel (tn_nodeID t) c) m
              end
  end.
Definition send_to_node (nodeID : string) (message : LogRequest) (m : containerLogTunnelManager)
    : containerLogTunnelManager * option bool :=
  match lm_tunnels m !! nodeID with
  | None => (m, None)
  | Some tid =>
      match lm_tunnelObjects m !! tid with
      | None => (m, None)
      | Some t => match try_send message (tn_sendCh t) with
                  | None => (set_panic m, Some false)
                  | Some (c, sent) => (set_tunnel tid (MkTunnel (tn_nodeID t) c) m, Some sent)
                  end
      end
  end.

Definition registerTunnel (nodeID : string) (m : containerLogTunnelManager) : containerLogTunnelManager * nat :=
  let tid := size (lm_tunnelObjects m) in
  let previous := lm_tunnels m !! nodeID in
  let m := set_tunnels (<[nodeID := tid]> (lm_tunnels m)) (set_tunnel tid (MkTunnel nodeID make_chan) m) in
  (match previous with Some old => close_tunnel old m | None => m end, tid).
Definition drop_of_node (nodeID : string) (m : containerLogTunnelManager) (id : string) : containerLogTunnelManager :=
  if decide (id ∈ lm_sessions m ∧ ls_nodeID <$> lm_sessionObjects m !! id = Some nodeID)
  then close_session id (set_sessions (lm_sessions m ∖ {[id]}) m)
  else m.
Definition unregisterTunnel (nodeID : string) (tid : nat) (order : list string) (m : containerLogTunnelManager)
    : containerLogTunnelManager :=
  if decide (lm_tunnels m !! nodeID = Some tid)
  then foldl (drop_of_node nodeID) (close_tunnel tid (set_tunnels (delete nodeID (lm_tunnels m)) m)) order
  else m.
Definition hasTunnel (nodeID : string) (m : containerLogTunnelManager) : bool :=
  bool_decide (is_Some (lm_tunnels m !! nodeID)).
Definition openSession (nodeID containerID tail : string) (timestamps : bool) (now : Time.time) (id : string)
    (m : containerLogTunnelManager) : containerLogTunnelManager * result string string :=
  if decide (lm_tunnels m !! nodeID = None) then (m, Err "node has no active container log tunnel")
  else
    let m := set_sessions ({[id]} ∪ lm_sessions m) (set_session id (MkSession nodeID make_chan now false) m) in
    match send_to_node nodeID (MkLogRequest id containerLogKindStart containerID tail timestamps) m with
    | (m, Some true) => (m, Ok id)
    | (m, _) => (close_session id (set_sessions (lm_sessions m ∖ {[id]}) m),
                 Err "node container log tunnel is not accepting messages")
    end.
Definition closeSession (id : string) (m : containerLogTunnelManager) : containerLogTunnelManager :=
  if decide (id ∈ lm_sessions m) then
    match lm_sessionObjects m !! id with
    | None => m
    | Some s =>
        let m := close_session id (set_sessions (lm_sessions m ∖ {[id]}) m) in
        (send_to_node (ls_nodeID s) (MkLogRequest id containerLogKindClose "" "" false) m).1
    end
  else m.
(** A message that ends the session: an error, or that the agent closed it. *)
Definition is_last (message : LogMessage) : bool :=
  bool_decide (lm_Kind message = containerLogKindError) || bool_decide (lm_Kind message = containerLogKindClosed).
Definition deliverFromAgent (message : LogMessage) (m : containerLogTunnelManager) : containerLogTunnelManager :=
  let id := lm_SessionId message in
  if decide (lm_Kind message = containerLogKindReady) then m
  else if decide (id = "") then m
  else
    let known := bool_decide (id ∈ lm_sessions m) in
    let m := if is_last message then set_sessions (lm_sessions m ∖ {[id]}) m else m in
    if negb known then m
    else match deliver id message m with
         | (m, false) => closeSession id m
         | (m, true) => if is_last message then close_session id m else m
         end.
Definition openContainerLogSession (nodeID containerID tail : string) (timestamps : bool) (now : Time.time) (id : string)
    (m : containerLogTunnelManager) : containerLogTunnelManager * result ConnectError string :=
  if negb (hasTunnel nodeID m) then (m, Err (NewError CodeFailedPrecondition "node has no active container log tunnel"))
  else let '(m, r) := openSession nodeID containerID tail timestamps now id m in (m, with_code CodeFailedPrecondition r).
(** [unregisterTunnel] and the rest of [OpenContainerLogTunnel] are the
    loops of the terminals.  [GetContainerLogs] reads the channel: what one
    message makes it send, and whether it returns. *)
Definition containerLogStreamError (message : LogMessage) : ConnectError :=
  NewError (dockerQueryConnectCode (lm_ErrorCode message))
    (if decide (lm_ErrorMessage message = "") then "container log stream failed" else lm_ErrorMessage message).
Definition log_message (message : LogMessage) : list string * option (result ConnectError ()) :=
  if decide (lm_Kind message = containerLogKindChunk)
  then (if decide (lm_Content message = "") then [] else [lm_Content message], None)
  else if decide (lm_Kind message = containerLogKindError) then ([], Some (Err (containerLogStreamError message)))
  else if decide (lm_Kind message = containerLogKindClosed) then ([], Some (Ok ()))
  else ([], None).
(** What [GetContainerLogs] sends of a channel, to a client that takes all,
    and its result; [None] when it waits for another message. *)
Fixpoint read_log_items (items : list LogMessage) (closed : bool) : list string * option (result ConnectError ()) :=
  match items with
  | [] => ([], if closed then Some (Ok ()) else None)
  | message :: items =>
      match log_message message with
      | (content, None) => let '(contents, r) := read_log_items items closed in (content ++ contents, r)
      | ended => ended
      end
  end.
Definition GetContainerLogs_reads (id : string) (m : containerLogTunnelManager) : list string * option (result ConnectError ()) :=
  match lm_sessionObjects m !! id with
  | None => ([], None)
  | Some s => read_log_items (ch_items (ls_incoming s)) (ch_closed (ls_incoming s))
  end.
Section handler.
Context `{DnsState} `{GitState} `{!Environment}.
(** Up to where it reads: the identifier of the session. *)
Definition GetContainerLogs (cfg : ControllerConfig) (nodeID containerID tail : string) (timestamps : bool)
    (now : Time.time) (id : string) (m : containerLogTunnelManager) (w : World)
    : World * containerLogTunnelManager * result ConnectError string :=
  if decide (nodeID = "" ∨ containerID = "")
  then (w, m, Err (NewError CodeInvalidArgument "node_id and container_id are required"))
  else match validateTaskTargetNode cfg nodeID TypeDockerStart w with
  | (w, Err e) => (w, m, Err e)
  | (w, Ok _) => let '(m, r) := openContainerLogSession nodeID containerID tail timestamps now id m in (w, m, r)
  end.
End handler.

(** ** The log of a task (task_service.go: [TailTaskLogs])

    The file of the log grows while the handler follows it: it asks for the
    size, reads to the end, and looks the task up, each at its own time. *)
Abbreviation bytes := (list Ascii.ascii).
Definition isTerminalTaskStatus (status : string) : bool :=
  bool_decide (status = StatusSucceeded ∨ status = StatusFailed ∨ status = StatusCancelled).
(** [readNewLogContent]; the size is what [Stat] answered, [content] the file
    as it is read to its end. *)
Definition readNewLogContent (size : nat) (content : bytes) (offset : nat) : bytes * nat :=
  (drop (if decide (size < offset) then 0 else offset) content, size).
Inductive TailPoint :=
| TailOpen
| TailRead (size : nat)
| TailSend (content : bytes)
| TailCheck (content : bytes)
| TailWait
| TailReturned (r : result ConnectError ()).
(** [tl_seen] is the length of the file when it was last read, [tl_raced]
    whether it ever grew between the two looks of one reading. *)
Record Tail := MkTail {
  tl_log : bytes;
  tl_status : string;
  tl_offset : nat;
  tl_sent : bytes;
  tl_point : TailPoint;
  tl_seen : nat;
  tl_raced : bool;
}.
Definition tail_at (point : TailPoint) (t : Tail) : Tail :=
  MkTail (tl_log t) (tl_status t) (tl_offset t) (tl_sent t) point (tl_seen t) (tl_raced t).
Definition is_reading (point : TailPoint) : bool := match point with TailRead _ => true | _ => false end.
Inductive tail_step (t : Tail) : Tail → Prop :=
| TailGrows more : more ≠ [] →
    tail_step t (MkTail (tl_log t ++ more) (tl_status t) (tl_offset t) (tl_sent t) (tl_point t) (tl_seen t)
                   (tl_raced t || is_reading (tl_point t)))
| TailStatus status : isTerminalTaskStatus (tl_status t) = false →
    tail_step t (MkTail (tl_log t) status (tl_offset t) (tl_sent t) (tl_point t) (tl_seen t) (tl_raced t))
| TailStats : tl_point t = TailOpen → tail_step t (tail_at (TailRead (length (tl_log t))) t)
| TailReads size content next : tl_point t = TailRead size → readNewLogContent size (tl_log t) (tl_offset t) = (content, next) →
    tail_step t (MkTail (tl_log t) (tl_status t) next (tl_sent t)
                   (if decide (content = []) then TailCheck content else TailSend content) (length (tl_log t)) (tl_raced t))
| TailSends content : tl_point t = TailSend content →
    tail_step t (MkTail (tl_log t) (tl_status t) (tl_offset t) (tl_sent t ++ content) (TailCheck content) (tl_seen t) (tl_raced t))
| TailChecks content : tl_point t = TailCheck content →
    tail_step t (tail_at (if decide (content = [] ∧ isTerminalTaskStatus (tl_status t) = true) then TailReturned (Ok ()) else TailWait) t)
| TailTicks : tl_point t = TailWait → tail_step t (tail_at TailOpen t)
| TailLeaves : tl_point t = TailWait → tail_step t (tail_at (TailReturned (Ok ())) t)
| TailFails e : (∀ r, tl_point t ≠ TailReturned r) → tail_step t (tail_at (TailReturned (Err e)) t).
(** It begins with the log and the status as they are. *)
Definition tail_start (log : bytes) (status : string) : Tail := MkTail log status 0 [] TailOpen 0 false.
Definition tail_reachable (t : Tail) : Prop := ∃ log status, rtc tail_step (tail_start log status) t.

(** ** What reaches the client *)
Section logs.
Context (id : string).
(** The session is in the map, open, and holds these messages. *)
Definition holding (items : list LogMessage) (m : containerLogTunnelManager) : Prop :=
  id ∈ lm_sessions m ∧ ∃ nodeID created, lm_sessionObjects m !! id = Some (MkSession nodeID (MkChan items false) created false).
Definition is_chunk (message : LogMessage) : Prop := lm_SessionId message = id ∧ lm_Kind message = containerLogKindChunk.
Lemma send_to_node_sessions nodeID message m m' r : send_to_node nodeID message m = (m', r) →
  lm_sessionObjects m' = lm_sessionObjects m ∧ lm_sessions m' = lm_sessions m.
Proof. unfold send_to_node, try_send. intros Hs. repeat (case_match; simplify_eq; try done). Qed.
Lemma open_holding nodeID containerID tail timestamps now m m' :
  openSession nodeID containerID tail timestamps now id m = (m', Ok id) → holding [] m'.
Proof.
  unfold openSession. case_decide; [done|]. destruct (send_to_node _ _ _) as [m1 [[]|]] eqn:Hs; intros [= <-].
  apply send_to_node_sessions in Hs as [Ho Hin]. split; [rewrite Hin; cbn; set_solver|].
  exists nodeID, now. rewrite Ho. cbn. by rewrite lookup_insert_eq.
Qed.
Lemma deliver_holding items message m : length items < chan_capacity → holding items m →
  ∃ m', deliver id message m = (m', true) ∧ holding (items ++ [message]) m' ∧ lm_sessions m' = lm_sessions m.
Proof.
  intros Hlen [Hin (n & c & Hs)]. unfold deliver, try_send. rewrite Hs. cbn. rewrite decide_True by done. eexists. split; [done|].
  split; [|done]. split; [done|]. exists n, c. cbn. by rewrite lookup_insert_eq.
Qed.
Lemma chunk_holding items message m : id ≠ "" → length items < chan_capacity → is_chunk message → holding items m →
  holding (items ++ [message]) (deliverFromAgent message m).
Proof.
  intros Hne Hlen [Hid Hk] Hm. unfold deliverFromAgent. rewrite Hid, Hk, !decide_False by done.
  replace (is_last message) with false by (unfold is_last; by rewrite Hk). rewrite bool_decide_true by apply Hm. cbn.
  by destruct (deliver_holding _ message _ Hlen Hm) as (m' & -> & Hm' & _).
Qed.
Lemma chunks_holding items l m : id ≠ "" → length items + length l ≤ chan_capacity → Forall is_chunk l → holding items m →
  holding (items ++ l) (foldl (λ m message, deliverFromAgent message m) m l).
Proof.
  intros Hne. revert items m. induction l as [|message l IH]; intros items m Hlen Hl Hm; [by rewrite List.app_nil_r|].
  apply Forall_cons in Hl as [Hc Hl]. cbn [length foldl] in *. rewrite cons_middle, List.app_assoc. apply IH; [|done|].
  - rewrite length_app. cbn. lia.
  - apply chunk_holding; [done|lia|done|done].
Qed.
Lemma read_chunks l last closed : Forall is_chunk l → is_last last = true →
  read_log_items (l ++ [last]) closed =
    (filter (λ content, content ≠ "") (lm_Content <$> l),
     Some (if decide (lm_Kind last = containerLogKindError) then Err (containerLogStreamError last) else Ok ())).
Proof.
  intros Hl Hlast. induction Hl as [|message l [_ Hk] Hl IH].
  - cbn. unfold log_message. destruct (decide (lm_Kind last = containerLogKindChunk)) as [Hk|_].
    { unfold is_last in Hlast. by rewrite Hk in Hlast. }
    case_decide as He; [done|]. case_decide as Hc; [done|]. unfold is_last in Hlast.
    by rewrite !bool_decide_eq_false_2 in Hlast by done.
  - rewrite <-app_comm_cons, fmap_cons. cbn [read_log_items]. unfold log_message. rewrite decide_True, IH, filter_cons by done.
    repeat case_decide; done.
Qed.
End logs.

(** C39: the logs of a container reach the client.  Once a session is open,
    when the agent sends up to 255 chunks of it and then that it ended, the
    client gets the contents of the chunks, in order and without the empty
    ones, and then the end of the stream or the error of the agent; and the
    session has left the table. *)
Theorem logs_reach_client nodeID containerID tail timestamps now id m m' chunks last :
  openSession nodeID containerID tail timestamps now id m = (m', Ok id) → id ≠ "" → Forall (is_chunk id) chunks →
  length chunks < chan_capacity → lm_SessionId last = id → is_last last = true →
  let m'' := foldl (λ m message, deliverFromAgent message m) m' (chunks ++ [last]) in
  GetContainerLogs_reads id m'' =
    (filter (λ content, content ≠ "") (lm_Content <$> chunks),
     Some (if decide (lm_Kind last = containerLogKindError) then Err (containerLogStreamError last) else Ok ())) ∧
  id ∉ lm_sessions m''.
Proof.
  intros Hopen Hne Hl Hlen Hid Hlast. apply open_holding in Hopen. rewrite foldl_app. cbn zeta.
  apply (chunks_holding id [] chunks _ Hne ltac:(cbn; lia) Hl) in Hopen as [Hin (n & c & Hs)]. cbn [foldl].
  set (m1 := foldl _ m' chunks) in *. unfold deliverFromAgent. rewrite Hid.
  rewrite (decide_False (P := lm_Kind last = _)), decide_False by (done || by intros Hk; unfold is_last in Hlast; rewrite Hk in Hlast).
  rewrite Hlast, bool_decide_true by done. cbn [negb]. unfold deliver, try_send. cbn. rewrite Hs. cbn.
  rewrite decide_True by done. cbn. unfold close_session. cbn. rewrite lookup_insert_eq. cbn. split; [|set_solver].
  unfold GetContainerLogs_reads. cbn. rewrite lookup_insert_eq. cbn. by apply (read_chunks id).
Qed.

(** ** The log of a task *)
(** What is about to be sent. *)
Definition in_flight (point : TailPoint) : bytes := match point with TailSend content => content | _ => [] end.
Definition tail_failed (point : TailPoint) : Prop := ∃ e, point = TailReturned (Err e).
Record tail_inv (t : Tail) : Prop := {
  ta_bounds : tl_offset t ≤ tl_seen t ≤ length (tl_log t);
  ta_size : ∀ size, tl_point t = TailRead size → tl_offset t ≤ size ≤ length (tl_log t) ∧
    (tl_raced t = false → size = length (tl_log t));
  ta_sent : ¬ tail_failed (tl_point t) → take (tl_seen t) (tl_log t) `sublist_of` tl_sent t ++ in_flight (tl_point t);
  ta_exact : tl_raced t = false → ¬ tail_failed (tl_point t) →
    tl_sent t ++ in_flight (tl_point t) = take (tl_seen t) (tl_log t) ∧ tl_offset t = tl_seen t;
  ta_prefix : tl_raced t = false → tl_sent t `prefix_of` tl_log t;
}.
(** A step that reads and sends nothing. *)
Lemma tail_inv_at point t : tail_inv t → (∀ size, point = TailRead size → size = length (tl_log t)) →
  (tail_failed point ∨ ¬ tail_failed (tl_point t) ∧ in_flight point = in_flight (tl_point t)) → tail_inv (tail_at point t).
Proof.
  intros [Hb Hsz Hs He Hp] Hpt Hf. split; cbn; [done| | | |done].
  - intros size Hsize. rewrite (Hpt _ Hsize). split; [lia|done].
  - intros Hnf. destruct Hf as [|[? ->]]; [done|]. by apply Hs.
  - intros Hr Hnf. destruct Hf as [|[? ->]]; [done|]. by apply He.
Qed.
Lemma tail_inv_reads t size : tail_inv t → tl_point t = TailRead size →
  let content := drop (tl_offset t) (tl_log t) in
  tail_inv (MkTail (tl_log t) (tl_status t) size (tl_sent t)
    (if decide (content = []) then TailCheck content else TailSend content) (length (tl_log t)) (tl_raced t)).
Proof.
  intros [Hb Hsz Hs He Hp] Hpt content. destruct (Hsz _ Hpt) as [Hsize Hexact]. rewrite Hpt in *.
  assert (¬ tail_failed (TailRead size)) as Hnf by by intros [].
  assert (in_flight (if decide (content = []) then TailCheck content else TailSend content) = content) as Hfl by by case_decide.
  split; cbn; rewrite ?Hfl.
  - lia.
  - intros ?. by case_decide.
  - intros _. rewrite firstn_all, <-(take_drop (tl_offset t) (tl_log t)) at 1. apply sublist_app; [|done].
    specialize (Hs Hnf). cbn in Hs. rewrite List.app_nil_r in Hs. etrans; [|exact Hs].
    replace (take (tl_offset t) (tl_log t)) with (take (tl_offset t) (take (tl_seen t) (tl_log t)))
      by (rewrite take_take; f_equal; lia). apply sublist_take.
  - intros Hr _. destruct (He Hr Hnf) as [Hsent Ho]. cbn in Hsent. rewrite List.app_nil_r in Hsent.
    rewrite Hsent, firstn_all, <-Ho. split; [apply take_drop|by apply Hexact].
  - done.
Qed.
Lemma tail_inv_step t t' : tail_inv t → tail_step t t' → tail_inv t'.
Proof.
  intros Hinv Hstep. pose proof Hinv as [Hb Hsz Hs He Hp]. destruct Hstep.
  - split; cbn.
    + rewrite length_app. lia.
    + intros size Hpt. destruct (Hsz _ Hpt) as [Hsize _]. rewrite length_app, Hpt, orb_true_r. split; [lia|done].
    + intros Hnf. rewrite take_app_le by lia. by apply Hs.
    + intros [Hr _]%orb_false_iff Hnf. rewrite take_app_le by lia. by apply He.
    + intros [Hr _]%orb_false_iff. by apply prefix_app_r, Hp.
  - by split.
  - apply tail_inv_at; [done|by intros size [= <-]|]. right. rewrite H. split; [by intros []|done].
  - unfold readNewLogContent in H0. destruct (Hsz _ H) as [Hsize _]. rewrite decide_False in H0 by lia.
    injection H0 as <- <-. by apply tail_inv_reads.
  - assert (¬ tail_failed (tl_point t)) as Hnf by (rewrite H; by intros []). rewrite H in Hs, He. cbn in *. split; cbn; [done|done| | |].
    + intros _. rewrite List.app_nil_r. by apply Hs; intros [].
    + intros Hr _. rewrite List.app_nil_r. by apply He; [|intros []].
    + intros Hr. destruct (He Hr) as [-> _]; [by intros []|]. apply prefix_take.
  - apply tail_inv_at; [done|by case_decide|]. right. rewrite H. split; [by intros []|by case_decide].
  - apply tail_inv_at; [done|done|]. right. rewrite H. split; [by intros []|done].
  - apply tail_inv_at; [done|done|]. right. rewrite H. split; [by intros []|done].
  - apply tail_inv_at; [done|done|]. left. by eexists.
Qed.
Lemma tail_reachable_inv t : tail_reachable t → tail_inv t.
Proof.
  intros (log & status & Hr). assert (tail_inv (tail_start log status)) as Hinv by (split; cbn; [lia|done|done|done|by exists log]).
  revert Hr Hinv. induction 1 as [|x y z Hxy _ IH]; [done|]. intros Hinv. by eapply IH, tail_inv_step.
Qed.
(** C40: following the log of a task.  As long as the file never grew between
    the two looks of one reading, the client has been sent a prefix of it, each
    byte once; if it did, no byte is left out, though some come twice: when the
    handler returns without an error everything it had read was sent. *)
Theorem task_log_tail_is_complete t : tail_reachable t →
  (tl_raced t = false → tl_sent t `prefix_of` tl_log t) ∧
  (tl_point t = TailReturned (Ok ()) →
     take (tl_seen t) (tl_log t) `sublist_of` tl_sent t ∧
     (tl_raced t = false → tl_sent t = take (tl_seen t) (tl_log t))).
Proof.
  intros [Hb Hsz Hs He Hp]%tail_reachable_inv. split; [done|]. intros Hpt. rewrite Hpt in *. cbn in *.
  rewrite List.app_nil_r in *. split; [apply Hs; by intros []|]. intros Hr. apply He; [done|by intros []].
Qed.

(** ** Instances *)
Section example.
Definition log_manager : containerLogTunnelManager := (registerTunnel "n1" newContainerLogTunnelManager).1.
Definition chunk (content : string) : LogMessage := MkLogMessage "s" containerLogKindChunk content "" "".
Definition log_end : LogMessage := MkLogMessage "s" containerLogKindClosed "" "" "".
Definition log_run (messages : list LogMessage) : containerLogTunnelManager :=
  foldl (λ m message, deliverFromAgent message m) (openSession "n1" "c1" "" false 0%Z "s" log_manager).1 messages.
Definition three_chunks : list LogMessage := [chunk "a"; chunk ""; chunk "b"].
Lemma logs_reach_client_witness :
  GetContainerLogs_reads "s" (log_run (three_chunks ++ [log_end])) = (["a"; "b"], Some (Ok ())).
Proof.
  refine (proj1 (logs_reach_client "n1" "c1" "" false 0%Z "s" log_manager _ three_chunks log_end _ _ _ _ _ _)).
  - by apply pair_snd.
  - done.
  - by repeat constructor.
  - apply (bool_decide_unpack _). by vm_compute.
  - done.
  - by vm_compute.
Defined.
Definition full_run : containerLogTunnelManager := log_run (repeat (chunk "a") chan_capacity ++ [log_end]).
(** When the channel is full as the last message comes, that message is lost
    with the entry of the session, and the channel is never closed: the
    client that reads it waits for ever. *)
Example full_log_channel_never_ends :
  (GetContainerLogs_reads "s" full_run).2 = None ∧ lm_sessions full_run = ∅.
Proof. by vm_compute. Qed.

(** The steps that do not fail, run one after the other. *)
Inductive TailEvent := Grow (more : bytes) | SetStatus (status : string) | Go | Leave.
Definition tail_next (t : Tail) : option Tail :=
  match tl_point t with
  | TailOpen => Some (tail_at (TailRead (length (tl_log t))) t)
  | TailRead size =>
      let '(content, next) := readNewLogContent size (tl_log t) (tl_offset t) in
      Some (MkTail (tl_log t) (tl_status t) next (tl_sent t) (if decide (content = []) then TailCheck content else TailSend content)
              (length (tl_log t)) (tl_raced t))
  | TailSend content => Some (MkTail (tl_log t) (tl_status t) (tl_offset t) (tl_sent t ++ content) (TailCheck content) (tl_seen t) (tl_raced t))
  | TailCheck content =>
      Some (tail_at (if decide (content = [] ∧ isTerminalTaskStatus (tl_status t) = true) then TailReturned (Ok ()) else TailWait) t)
  | TailWait => Some (tail_at TailOpen t)
  | TailReturned _ => None
  end.
Definition tail_event (t : Tail) (e : TailEvent) : option Tail :=
  match e with
  | Grow [] => None
  | Grow more => Some (MkTail (tl_log t ++ more) (tl_status t) (tl_offset t) (tl_sent t) (tl_point t) (tl_seen t)
                         (tl_raced t || is_reading (tl_point t)))
  | SetStatus status =>
      if isTerminalTaskStatus (tl_status t) then None
      else Some (MkTail (tl_log t) status (tl_offset t) (tl_sent t) (tl_point t) (tl_seen t) (tl_raced t))
  | Go => tail_next t
  | Leave => match tl_point t with TailWait => Some (tail_at (TailReturned (Ok ())) t) | _ => None end
  end.
Lemma tail_event_step t e t' : tail_event t e = Some t' → tail_step t t'.
Proof.
  destruct e as [[|b more]|status| |]; cbn; [done| | | |].
  - intros [= <-]. by apply TailGrows.
  - case_match; [done|]. intros [= <-]. by apply TailStatus.
  - unfold tail_next. destruct (tl_point t) eqn:Hp; [| | | | |done].
    + intros [= <-]. by apply TailStats.
    + destruct (readNewLogContent _ _ _) as [content next] eqn:Hr. intros [= <-]. by eapply TailReads.
    + intros [= <-]. by apply TailSends.
    + intros [= <-]. by apply TailChecks.
    + intros [= <-]. by apply TailTicks.
  - case_match eqn:Hp; try done. intros [= <-]. by apply TailLeaves.
Qed.
Fixpoint tail_run (events : list TailEvent) (t : Tail) : option Tail :=
  match events with
  | [] => Some t
  | e :: events => match tail_event t e with Some t => tail_run events t | None => None end
  end.
Lemma tail_run_steps events t t' : tail_run events t = Some t' → rtc tail_step t t'.
Proof.
  revert t. induction events as [|e events IH]; intros t; cbn; [intros [= <-]; apply rtc_refl|].
  destruct (tail_event t e) as [t1|] eqn:He; [|done]. intros Hr. eapply rtc_l; [by eapply tail_event_step|by apply IH].
Qed.
Lemma tail_run_reachable events log status t' : tail_run events (tail_start log status) = Some t' → tail_reachable t'.
Proof. intros Hr. exists log, status. by eapply tail_run_steps. Qed.
Definition tail_bytes (s : string) : bytes := String.list_ascii_of_string s.

(** The file grows between [Stat] and the read: what was added is sent with
    this reading and again with the next. *)
Definition sent_twice : Tail := MkTail (tail_bytes "abc") StatusRunning 3 (tail_bytes "abcc") (TailReturned (Ok ())) 3 true.
Example grown_log_is_sent_twice : tail_reachable sent_twice.
Proof.
  apply (tail_run_reachable [Go; Grow (tail_bytes "c"); Go; Go; Go; Go; Go; Go; Go; Go; Leave] (tail_bytes "ab") StatusRunning).
  by vm_compute.
Qed.
(** The last lines come after the read and before the look at the status: the
    handler returns and never sends them. *)
Definition cut_short : Tail := MkTail (tail_bytes "end") StatusSucceeded 0 [] (TailReturned (Ok ())) 0 false.
Example last_lines_are_not_sent : tail_reachable cut_short.
Proof.
  apply (tail_run_reachable [Go; Go; Grow (tail_bytes "end"); SetStatus StatusSucceeded; Go] [] StatusRunning). by vm_compute.
Qed.
Definition tailed : Tail := MkTail (tail_bytes "ab") StatusSucceeded 2 (tail_bytes "ab") (TailReturned (Ok ())) 2 false.
Lemma tailed_reachable : tail_reachable tailed.
Proof.
  apply (tail_run_reachable [Go; Go; Go; SetStatus StatusSucceeded; Go; Go; Go; Go; Go] (tail_bytes "ab") StatusRunning).
  by vm_compute.
Qed.
Lemma task_log_tail_is_complete_witness : tl_sent tailed = take 2 (tail_bytes "ab").
Proof. exact (proj2 (proj2 (task_log_tail_is_complete tailed tailed_reachable) eq_refl) eq_refl). Defined.
End example.
